(* ===== verification/_CoqProject ===== *)
-Q . S2P
Prelude.v
StandardUri.v
MetaTypes.v
SnapshotUri.v
EventReport.v
EventSafe.v
EventTokens.v
StorageUsage.v
MetaBackend.v
DummyBackend.v
LocalBackend.v
BackendManager.v
BackendReads.v
BackendRecovery.v
MetaIndexer.v
IndexerRmw.v
RmwLocation.v
RmwBlock.v
RmwCodes.v
MetaMutate.v
RmwDelete.v
MetaAdd.v
WriteSession.v
LocationPolicy.v
MetaMatch.v
Coordination.v
LeaderElector.v
StorageManager.v
ConfigJson.v
Registry.v
StorageSelect.v
WriteFilter.v
WriteAlloc.v
StorageBackends.v
WriteGen.v
CacheWrite.v
CacheSession.v
DeletePlan.v
DeleteSafe.v
TaskQueue.v
ReclaimLedger.v
ReclaimFilter.v
ReclaimBudget.v
ReclaimSample.v
ReclaimRun.v
MigrationTasks.v
MigrationGate.v
MigrationRun.v
MigrationSafe.v
MigrationHeld.v
MigrationSystem.v
