(* ===== verification/Prelude.v ===== *)
(** * Tair KVCache Manager: a verification development (root file)

    The KVCache manager keeps, for a fleet of inference engines, the metadata
    of cached key/value blocks: which blocks exist, where their bytes are
    stored, and who is writing or deleting them. A request travels

      service -> CacheManager -> MetaSearcher -> MetaIndexer
              -> MetaStorageBackendManager -> cache tier / persistent tier

    while background threads recover the cache tier, expire write sessions, evict, migrate and
    elect the leader replica. Paths below are relative to
    [src/kv_cache_manager/].

    ** What models what

    - [Prelude] (this file): automation, machine integers, positional lists,
      ordered maps, the list lemmas the components share.
    - [StandardUri]: [common/standard_uri.{h,cc}], the URI of a storage
      location: parser, printer, parameters.
    - [MetaTypes]: [common/error_code.h], [meta/cache_location.{h,cc}],
      [meta/types.h], storage types: the vocabulary of the metadata.
    - [StorageUsage]: [meta/storage_usage_data.cc], usage counters at 64 bits.
    - [MetaBackend]: [meta/meta_storage_backend.h], the storage interface as a
      class of operations and the class [LawfulBackend] of what it promises.
    - [DummyBackend], [LocalBackend]: [meta/meta_dummy_backend.cc],
      [meta/meta_local_backend.cc] (with the shard accounting of
      [common/cache/lru_cache.cc]), the two stores, instances of the interface.
    - [BackendManager], [BackendReads], [BackendRecovery]:
      [meta/meta_storage_backend_manager.cc], the two-tier store, its reads and
      its recovery thread as a transition system.
    - [MetaIndexer], [IndexerRmw], [RmwLocation]: [meta/meta_indexer.cc], the
      sharded index, its read-modify-write engine, and the meaning of the
      engine on the store.
    - [MetaMutate], [MetaMatch]: [manager/meta_searcher.cc], the mutations and
      the match queries.
    - [WriteSession]: [manager/write_location_manager.cc], write sessions.
    - [LocationPolicy]: [manager/select_location_policy.{h,cc}], the choice of
      a location to read and the checks before a write.
    - [RmwBlock], [RmwCodes], [RmwDelete]: further meanings of the
      read-modify-write engine of [meta/meta_indexer.cc]: what a
      block-wise pass leaves in the store, which code each key gets, and
      deletion through the engine.
    - [MetaAdd]: [MetaSearcher::BatchAddLocation] of
      [manager/meta_searcher.cc].
    - [SnapshotUri]: [data_storage/snapshot_uri_utils.h] and
      [ValidateEventLocationSpec]: the snapshot version carried by a
      URI.
    - [EventReport], [EventSafe], [EventTokens]:
      [data_storage/event_report_backend.{h,cc}], the storage whose
      contents are reported by engines: its operations, the system of
      its threads interleaving, and the ledger of its tokens.
    - [Coordination], [LeaderElector]:
      [config/coordination_memory_backend.cc] and
      [config/leader_elector.cc], the lock service and the election on
      top of it.
    - [StorageManager], [ConfigJson], [Registry]:
      [data_storage/data_storage_manager.cc], [common/jsonizable.h] with
      the serializers of [data_storage/storage_config.cc], and
      [config/registry_manager.cc] (with
      [config/registry_local_backend.cc]): the storages, configuration
      objects as documents, and the durable configuration.
    - [StorageBackends]:
      [data_storage/{nfs,hf3fs,dummy,mooncake}_backend.cc], the URIs the
      storages give out, their deletion and opening; they keep the laws
      the write path assumes ([WriteAlloc.StorageLaws]).
    - [StorageSelect]: [manager/data_storage_selector.cc], quotas, the
      choice of a storage for a write, the admission of explicit
      targets.
    - [WriteFilter], [WriteAlloc], [WriteGen], [CacheWrite],
      [CacheSession]: the write path of [manager/cache_manager.cc]:
      which blocks of a request need writing, allocation of their bytes,
      generation of the locations, [StartWriteCache] and
      [FinishWriteCache], and the session protocol they form.
    - [DeletePlan], [DeleteSafe], [TaskQueue]:
      [manager/schedule_plan_executor.cc], the two-phase deletion of
      locations, what it removes, and the prioritised worker pool that
      runs it.
    - [ReclaimLedger], [ReclaimFilter], [ReclaimBudget],
      [ReclaimSample], [ReclaimRun]: [manager/cache_reclaimer.{h,cc}],
      the eviction loop: the ledger of deletions in flight, the choice
      of keys and locations, the shares of the instances of a group, the
      sampling of keys, and the rounds that put these together.
    - [MigrationTasks], [MigrationGate], [MigrationRun],
      [MigrationSafe], [MigrationHeld], [MigrationSystem]:
      [manager/migration_manager.{h,cc}], the copies between storages:
      the table of tasks and its critical sections, the gate of a batch,
      the methods as programs of atomic steps and questions to other
      components, a logic of the tasks each thread holds, every program
      in that logic, and the system of all threads.

    State is passed explicitly: a C++ object is a record, a method a function
    from its arguments and the object to its results and the new object. An
    operation under one mutex is one step; where threads interleave, the steps
    are the constructors of an inductive relation. A C++ vector is a list, an
    [unordered_map] a [gmap] (its iteration order is that of the model's map),
    a [std::map] an ordered association list. 64-bit counters keep their width.

    ** What the theorems show

    - stores: both backends keep the interface's promises, memory accounting
      is exact, fast paths equal the one-by-one reference, the key scan is
      complete;
    - two tiers: the cache never serves what the persistent tier does not
      hold, under every interleaving of the recovery thread with whole client
      operations whose cache write does not fail; reads are persistent reads;
    - index: batching covers each position once and takes locks in order, Put
      refines the sequential put, key counts stay exact under read-modify-write
      and delete (without a cache tier: a refused cache write lets the count
      drift, see [BackendRecovery.cache_failure_leaves_stale]);
    - searcher (on an index without a cache tier): status compare-and-swap and
      adding are exact per location; prefix, batch and window queries return
      what their specification says, and end early only for the read's codes;
    - sessions: every session ends exactly once; expiry rounds are exact;
    - policies: selection is sound, the exists-for-write checks agree;
    - URIs, counters: round trips, saturation, wrap-around;
    - write path: the filter decides each block by itself, allocation is
      all or nothing over storages whose [Delete] may do nothing and
      whose [Create] may give a URI out again (every URI made is named
      by a location or handed to [Delete]), a session opened by
      [StartWriteCache] covers exactly the blocks to write,
      [FinishWriteCache] publishes exactly the blocks reported written,
      a second writer of the same blocks gets none;
    - deletion: a request removes exactly the locations it names that
      are marked and asks the storages to delete exactly their URIs, and
      the paths that leave marks behind are characterised;
    - worker pool: tasks are neither lost nor run twice, and a worker
      takes the first due task of the first class allowed to run;
    - storage choice: the selected storage is available, configured and
      within quota; registry: a restart recovers the configuration as
      its texts keep it, with the exceptions stated;
    - election: at most one replica holds the lease, roles follow the
      lock and alternate;
    - snapshot URIs: the fast path of the canonical form and the
      visibility scanner agree with the reference parsers, an appended
      version is read back;
    - event reports: under every interleaving, maintenance deletes only
      what readers cannot see, a granted snapshot excludes deltas, an
      expiry that raced a recovery spares it, the existence filter is
      exact, identifiers round trip and deadlines saturate;
    - reclaimer: after any rounds in any environment the ledger of
      deletions in flight is exact and within its limits, the loop does
      not spin, only evictable locations are selected and cold copies
      survive, filter and admission agree, the division of the budget is
      exact down to who gets the units left over and the plan stays
      within it;
    - migration: under every interleaving a published target is
      protected from eviction until it is promoted, handed to deletion
      or given up, a source is deleted only after its copy serves, a
      cancelled copy is never promoted, no task outlives its threads, a
      batch reserves exactly what its limit allows.

    ** Fuel and bounds

    Loops that are not structural take fuel. [StandardUri] needs none. The
    sliding window ([MetaMatch.slide]) has as much fuel as blocks plus one,
    each round moves the base left; [WriteSession.free_point] looks for a free
    expiry point among as many candidates as there are sessions plus one; the
    cursor scan of [DummyBackend] needs one request more than there are keys;
    compare-exchange loops run over the list of values the other threads
    store, and end once two consecutive attempts agree. The theorems prove
    that the fuel is enough, or give the number of steps.

    Further fuel: the transitions of an election are processed once per
    queued entry; a worker turn takes at most one step per task class;
    drawing a fresh identifier ([WriteGen]) tries as often as its fuel
    says, and the theorem assumes that one of the draws is fresh;
    hexadecimal printing takes 16 digits; the URI scanners of
    [SnapshotUri] have the length of the text plus one and are proved
    equal to folds over the fields, which need none; token draws of
    [EventReport] consume a given list of draws.

    [EventSafe] and [EventTokens] assume that no 64-bit counter of the
    backend is exhausted and that drawn tokens do not repeat; both are
    conditions on the runs the theorems speak of. The waves of a
    sampling run ([ReclaimSample]) have as much fuel as keys to sample,
    each wave taking at least one; [ReclaimCron] runs as many rounds as
    it is told, and its theorems hold for every number. Doubles of the
    water levels are binary64 of [SpecFloat].

    ** Not modelled

    Network and file I/O (redis, gRPC, storage SDKs), the text of JSON
    documents (rapidjson, an interface in [ConfigJson]), logging and metrics, thread start-up and shutdown, and the
    offline tools. Hash functions, the random generator and the clock are
    parameters: theorems hold for all of them.

    Of the modelled components these parts are left out: the file and
    redis coordination backends and the redis metadata backends (they
    talk to other processes), the threads' start and stop, metrics and
    gauges, the remaining requests of the cache manager (registration,
    event reporting, trimming), the marks and the dispatch of the
    migration manager, the garbage collector, and the optimizer, an
    offline simulator.
    *)

From stdpp Require Import base gmap sets list strings sorting.
From Stdlib Require Import ZArith Lia Ascii.

(** ** Automation shared by every file *)

Create HintDb kvcm.

(** Splits the first [if]/[match] scrutinee found in the goal or a hypothesis. *)
Ltac split_match :=
  match goal with
  | |- context [match ?x with _ => _ end] => destruct x eqn:?
  | H : context [match ?x with _ => _ end] |- _ => destruct x eqn:?
  end.

Ltac crush_match := repeat (split_match; simplify_eq/=); try done.

(** Turns boolean tests of the code into the propositions they decide. *)
Ltac reflect_bools :=
  repeat match goal with
  | H : (_ && _) = true |- _ => apply andb_true_iff in H; destruct H
  | H : (_ || _) = false |- _ => apply orb_false_iff in H; destruct H
  | H : negb _ = true |- _ => apply negb_true_iff in H
  | H : negb _ = false |- _ => apply negb_false_iff in H
  | H : bool_decide _ = true |- _ => apply bool_decide_eq_true in H
  | H : bool_decide _ = false |- _ => apply bool_decide_eq_false in H
  | H : (_ <? _)%Z = true |- _ => apply Z.ltb_lt in H
  | H : (_ <? _)%Z = false |- _ => apply Z.ltb_ge in H
  | H : (_ <=? _)%Z = true |- _ => apply Z.leb_le in H
  | H : (_ <=? _)%Z = false |- _ => apply Z.leb_gt in H
  | H : (_ =? _)%Z = true |- _ => apply Z.eqb_eq in H
  | H : (_ =? _)%Z = false |- _ => apply Z.eqb_neq in H
  | H : (_ <? _)%nat = true |- _ => apply Nat.ltb_lt in H
  | H : (_ <? _)%nat = false |- _ => apply Nat.ltb_ge in H
  | H : (_ <=? _)%nat = true |- _ => apply Nat.leb_le in H
  | H : (_ <=? _)%nat = false |- _ => apply Nat.leb_gt in H
  end.

(** ** Filters that keep everything or nothing *)

Lemma filter_all {A} (P : A -> Prop) `{!forall x, Decision (P x)} l : Forall P l -> filter P l = l.
Proof. induction 1 as [|x l Hx _ IH]; [done|]. by rewrite filter_cons_True, IH. Qed.

Lemma filter_none {A} (P : A -> Prop) `{!forall x, Decision (P x)} l : Forall (fun x => ~ P x) l -> filter P l = [].
Proof. induction 1 as [|x l Hx _ IH]; [done|]. by rewrite filter_cons_False. Qed.

(** ** Machine integers *)

(** [std::uint64_t] arithmetic wraps modulo 2^64. *)
Definition u64_max : Z := 2 ^ 64 - 1.
Definition u64 (z : Z) : Z := z mod 2 ^ 64.
Definition is_u64 (z : Z) : Prop := (0 <= z < 2 ^ 64)%Z.
(** [static_cast<int32_t>] of a value. *)
Definition i32 (z : Z) : Z := ((z + 2 ^ 31) mod 2 ^ 32 - 2 ^ 31)%Z.

Lemma u64_range z : is_u64 (u64 z).
Proof. unfold is_u64, u64. apply Z.mod_pos_bound. lia. Qed.

Lemma u64_small z : is_u64 z -> u64 z = z.
Proof. unfold is_u64, u64. intros. by apply Z.mod_small. Qed.

Lemma i32_small z : (- 2 ^ 31 <= z < 2 ^ 31)%Z -> i32 z = z.
Proof. unfold i32. intros. rewrite Z.mod_small; lia. Qed.

#[export] Hint Resolve u64_range : kvcm.

(** ** Lists updated by position

    [v[i] = x] on a C++ vector; the callers below only use in-range positions,
    and stdpp's insert leaves the list alone out of range. *)

(** Scatters [vals] to the positions [idx] of [l], in order. *)
Fixpoint scatter {A} (idx : list nat) (vals : list A) (l : list A) : list A :=
  match idx, vals with
  | i :: idx, v :: vals => scatter idx vals (<[i:=v]> l)
  | _, _ => l
  end.

Lemma length_scatter {A} (idx : list nat) (vals l : list A) :
  length (scatter idx vals l) = length l.
Proof.
  revert vals l. induction idx as [|i idx IH]; intros [|v vals] l; simpl; auto.
  by rewrite IH, length_insert.
Qed.

Lemma lookup_scatter_ne {A} (idx : list nat) (vals l : list A) j :
  j ∉ idx -> scatter idx vals l !! j = l !! j.
Proof.
  revert vals l. induction idx as [|i idx IH]; intros [|v vals] l Hj; simpl; auto.
  rewrite IH by set_solver. apply list_lookup_insert_ne. set_solver.
Qed.

Lemma lookup_scatter {A} (idx : list nat) (vals l : list A) p j v :
  NoDup idx -> idx !! p = Some j -> vals !! p = Some v -> j < length l ->
  scatter idx vals l !! j = Some v.
Proof.
  revert vals l p. induction idx as [|i idx IH]; intros [|w vals] l p Hnd Hi Hv Hj;
    simplify_eq/=.
  apply NoDup_cons in Hnd as [Hni Hnd].
  destruct p as [|p]; simplify_eq/=.
  - rewrite lookup_scatter_ne by done. by apply list_lookup_insert_eq.
  - eapply IH; eauto. by rewrite length_insert.
Qed.

(** What holds of every position after a scatter: the scattered values where
    there is one, the old ones elsewhere. *)
Lemma scatter_pointwise {A} (Q : nat -> A -> Prop) (idx : list nat) (vals l : list A) :
  length vals = length idx ->
  (forall j a, l !! j = Some a -> j ∉ idx -> Q j a) ->
  (forall p j v, idx !! p = Some j -> vals !! p = Some v -> Q j v) ->
  forall j a, scatter idx vals l !! j = Some a -> Q j a.
Proof.
  revert vals l. induction idx as [|i idx IH]; intros [|v vals] l Hlen Hold Hnew j a Hj; simplify_eq/=.
  { eapply Hold; eauto. set_solver. }
  eapply (IH vals (<[i:=v]> l)); [lia| | |exact Hj].
  - intros j' a' Hj' Hni. destruct (decide (i = j')) as [->|Hne].
    + rewrite list_lookup_insert_Some in Hj'. destruct Hj' as [(_ & <- & _)|[? _]]; [|done].
      by apply (Hnew 0).
    + rewrite list_lookup_insert_ne in Hj' by done. apply Hold; [done|set_solver].
  - intros p j' v' Hp Hv'. by apply (Hnew (S p)).
Qed.

(** The elements of [l] at positions [idx] (positions out of range skipped). *)
Definition gather {A} (idx : list nat) (l : list A) : list A :=
  omap (fun i => l !! i) idx.

Lemma length_gather {A} (idx : list nat) (l : list A) :
  Forall (fun i => i < length l) idx -> length (gather idx l) = length idx.
Proof.
  induction 1 as [|i idx Hi _ IH]; [done|]. unfold gather in *. simpl.
  destruct (lookup_lt_is_Some_2 l i Hi) as [x ->]. simpl. by f_equal.
Qed.

Lemma lookup_gather {A} (idx : list nat) (l : list A) p i :
  Forall (fun i => i < length l) idx -> idx !! p = Some i ->
  gather idx l !! p = l !! i.
Proof.
  intros Hall. revert p. induction Hall as [|j idx Hj _ IH]; intros p Hp; [done|].
  unfold gather in *. simpl. destruct (lookup_lt_is_Some_2 l j Hj) as [x Hx].
  rewrite Hx. destruct p as [|p]; simplify_eq/=; auto.
Qed.

(** ** Ordered maps

    [std::map<K, V>] as the list of its entries in iteration order, for a key
    type with a boolean strict total order. *)

Class StrictOrderB {K} (ltb : K -> K -> bool) : Prop := {
  ltb_irrefl k : ltb k k = false;
  ltb_trans a b c : ltb a b = true -> ltb b c = true -> ltb a c = true;
  ltb_total a b : ltb a b = false -> ltb b a = false -> a = b;
}.

Section ordered_map.
Context {K V : Type} (ltb : K -> K -> bool) `{!StrictOrderB ltb}.
Implicit Types (m : list (K * V)) (k : K) (v : V).

Fixpoint om_find k m : option V :=
  match m with
  | [] => None
  | (k', v') :: m' =>
      if ltb k k' then None else if ltb k' k then om_find k m' else Some v'
  end.

(** [m[k] = v]. *)
Fixpoint om_set k v m : list (K * V) :=
  match m with
  | [] => [(k, v)]
  | (k', v') :: m' =>
      if ltb k k' then (k, v) :: m
      else if ltb k' k then (k', v') :: om_set k v m' else (k, v) :: m'
  end.

Fixpoint om_erase k m : list (K * V) :=
  match m with
  | [] => []
  | (k', v') :: m' =>
      if ltb k k' then m else if ltb k' k then (k', v') :: om_erase k m' else m'
  end.

(** The representation invariant: keys strictly increasing. *)
Definition om_wf m : Prop := StronglySorted (fun a b => ltb a.1 b.1 = true) m.

Lemma om_wf_cons k v m :
  om_wf ((k, v) :: m) <-> om_wf m /\ Forall (fun b => ltb k b.1 = true) m.
Proof.
  unfold om_wf. split.
  - intros H. inversion H; subst. eauto.
  - intros [H1 H2]. by constructor.
Qed.

Lemma ltb_asym a b : ltb a b = true -> ltb b a = false.
Proof.
  intros H. destruct (ltb b a) eqn:E; [|done].
  pose proof (ltb_trans _ _ _ H E) as H1. by rewrite ltb_irrefl in H1.
Qed.

Lemma ltb_cases a b : ltb a b = true \/ ltb b a = true \/ a = b.
Proof.
  destruct (ltb a b) eqn:E1; [by left|]. destruct (ltb b a) eqn:E2; [by right; left|].
  right; right. by apply ltb_total.
Qed.

Lemma om_set_Forall (P : K -> Prop) k v m :
  P k -> Forall (fun b => P b.1) m -> Forall (fun b => P b.1) (om_set k v m).
Proof.
  intros Hk. induction 1 as [|[k' v'] m Hk' Hm IH]; simpl; [by repeat constructor|].
  destruct (ltb k k'), (ltb k' k); repeat constructor; auto.
Qed.

Lemma om_set_wf k v m : om_wf m -> om_wf (om_set k v m).
Proof.
  induction m as [|[k' v'] m IH]; intros Hwf; simpl.
  { by apply om_wf_cons. }
  apply om_wf_cons in Hwf as [Hwf Hall].
  destruct (ltb k k') eqn:E1.
  - apply om_wf_cons. split; [by apply om_wf_cons|]. constructor; [done|].
    eapply Forall_impl; [done|]. intros b Hb. by eapply ltb_trans.
  - destruct (ltb k' k) eqn:E2.
    + apply om_wf_cons. split; [auto|].
      by apply (om_set_Forall (fun x => ltb k' x = true)).
    + rewrite (ltb_total k k') by done. by apply om_wf_cons.
Qed.

Lemma om_erase_Forall (P : K * V -> Prop) k m :
  Forall P m -> Forall P (om_erase k m).
Proof.
  induction 1 as [|[k' v'] m Hk' Hm IH]; simpl; [done|].
  destruct (ltb k k'), (ltb k' k); repeat constructor; auto.
Qed.

Lemma om_erase_wf k m : om_wf m -> om_wf (om_erase k m).
Proof.
  induction m as [|[k' v'] m IH]; intros Hwf; simpl; [done|].
  pose proof Hwf as Hwf'. apply om_wf_cons in Hwf as [Hwf Hall].
  destruct (ltb k k'); [done|]. destruct (ltb k' k); [|done].
  apply om_wf_cons. split; [auto|]. by apply om_erase_Forall.
Qed.

Lemma om_find_above k m : Forall (fun b => ltb k b.1 = true) m -> om_find k m = None.
Proof. destruct 1 as [|[k' v'] m' Hk Hm]; simpl in *; [done|by rewrite Hk]. Qed.

Lemma om_find_set_eq k v m : om_find k (om_set k v m) = Some v.
Proof.
  induction m as [|[k' v'] m IH]; simpl; [by rewrite ltb_irrefl|].
  destruct (ltb k k') eqn:E1; simpl; [by rewrite ltb_irrefl|].
  destruct (ltb k' k) eqn:E2; simpl; [by rewrite E1, E2|by rewrite ltb_irrefl].
Qed.

Lemma om_find_set_ne k k' v m : k <> k' -> om_find k' (om_set k v m) = om_find k' m.
Proof.
  intros Hne. induction m as [|[j w] m IH]; simpl.
  { destruct (ltb_cases k' k) as [->|[E| ->]]; [done| |done].
    by rewrite (ltb_asym _ _ E), E. }
  destruct (ltb k j) eqn:E1; simpl.
  { destruct (ltb_cases k' k) as [E|[E| ->]]; [| |done].
    - by rewrite E, (ltb_trans _ _ _ E E1).
    - by rewrite (ltb_asym _ _ E), E. }
  destruct (ltb j k) eqn:E2; simpl; [by rewrite IH|].
  assert (k = j) as <- by (by apply ltb_total).
  by destruct (ltb k' k) eqn:E3, (ltb k k') eqn:E4; [..|destruct Hne; apply ltb_total].
Qed.

Lemma om_find_erase_ne k k' m : om_wf m -> k <> k' -> om_find k' (om_erase k m) = om_find k' m.
Proof.
  intros Hwf Hne. induction m as [|[j w] m IH]; simpl; [done|].
  apply om_wf_cons in Hwf as [Hwf Hall].
  destruct (ltb k j) eqn:E1; simpl; [done|].
  destruct (ltb j k) eqn:E2; simpl; [by rewrite IH|].
  assert (k = j) as -> by (by apply ltb_total).
  destruct (ltb_cases k' j) as [E|[E| ->]]; [| |done].
  - rewrite E. apply om_find_above. eapply Forall_impl; [done|]. intros b Hb. by eapply ltb_trans.
  - by rewrite (ltb_asym _ _ E), E.
Qed.

Lemma om_find_erase_eq k m : om_wf m -> om_find k (om_erase k m) = None.
Proof.
  induction m as [|[j w] m IH]; intros Hwf; simpl; [done|].
  apply om_wf_cons in Hwf as [Hwf Hall].
  destruct (ltb k j) eqn:E1; simpl; [by rewrite E1|].
  destruct (ltb j k) eqn:E2; simpl; [rewrite E1, E2; auto|].
  assert (k = j) as -> by (by apply ltb_total). by apply om_find_above.
Qed.

Lemma om_elem_of_find k v m : om_wf m -> (k, v) ∈ m <-> om_find k m = Some v.
Proof.
  induction m as [|[j w] m IH]; intros Hwf; simpl.
  { split; [intros H; inversion H|done]. }
  apply om_wf_cons in Hwf as [Hwf Hall]. rewrite elem_of_cons, IH by done.
  destruct (ltb k j) eqn:E1.
  { split; [|done]. intros [Heq|Hf]; [simplify_eq; by rewrite ltb_irrefl in E1|].
    rewrite om_find_above in Hf; [done|].
    eapply Forall_impl; [done|]. intros b Hb. by eapply ltb_trans. }
  destruct (ltb j k) eqn:E2.
  { split; [intros [Heq|Hf]; [simplify_eq; by rewrite ltb_irrefl in E2|done]|by right]. }
  assert (k = j) as -> by (by apply ltb_total).
  split; [intros [Heq|Hf]; [by simplify_eq|]|intros ->%(inj Some); by left].
  by rewrite om_find_above in Hf.
Qed.

(** Setting a key above every other appends it. *)
Lemma om_set_snoc k v m :
  Forall (fun b => ltb b.1 k = true) m -> om_set k v m = m ++ [(k, v)].
Proof.
  induction 1 as [|[k' v'] m Hk' Hm IH]; simpl in *; [done|].
  by rewrite (ltb_asym _ _ Hk'), Hk', IH.
Qed.

(** Inserting the entries of a well-formed map one by one rebuilds it. *)
Lemma om_rebuild m acc :
  om_wf (acc ++ m) ->
  foldl (fun a kv => om_set kv.1 kv.2 a) acc m = acc ++ m.
Proof.
  revert acc. induction m as [|[k v] m IH]; intros acc Hwf; simpl.
  { by rewrite app_nil_r. }
  rewrite om_set_snoc.
  - rewrite IH; by rewrite <-app_assoc.
  - unfold om_wf in Hwf. apply Forall_forall. intros [k' v'] Hin.
    by apply (StronglySorted_app_1_elem_of _ _ _ (k', v') (k, v) Hwf); [|left].
Qed.

(** Inserting a new key adds one entry; erasing a key removes its entry. *)
Lemma om_set_perm k v m : om_find k m = None -> om_set k v m ≡ₚ (k, v) :: m.
Proof.
  induction m as [|[k' v'] m IH]; simpl; intros Hf; [done|].
  destruct (ltb k k'); [done|]. destruct (ltb k' k); [|done]. rewrite IH by done. solve_Permutation.
Qed.

Lemma om_erase_perm k v m : om_find k m = Some v -> m ≡ₚ (k, v) :: om_erase k m.
Proof.
  induction m as [|[k' v'] m IH]; simpl; intros Hf; [done|].
  destruct (ltb k k') eqn:E1; [done|]. destruct (ltb k' k) eqn:E2; [rewrite IH at 1 by done; solve_Permutation|].
  simplify_eq. by rewrite (ltb_total k k').
Qed.

Lemma om_set_perm_erase k v m : om_set k v m ≡ₚ (k, v) :: om_erase k m.
Proof.
  induction m as [|[k' v'] m IH]; simpl; [done|].
  destruct (ltb k k'); [done|]. destruct (ltb k' k); [|done]. rewrite IH. solve_Permutation.
Qed.

End ordered_map.

#[global] Instance Z_ltb_order : StrictOrderB Z.ltb.
Proof.
  split; intros; reflect_bools; rewrite ?Z.ltb_lt, ?Z.ltb_ge; lia.
Qed.

(** ** Character strings

    [std::string] where its characters are inspected: a list of bytes, with
    [std::string::npos] as [None]. *)

Abbreviation chars := (list ascii).

Definition chars_of (s : string) : chars := String.list_ascii_of_string s.

#[global] Instance chars_of_inj : Inj (=) (=) chars_of.
Proof.
  intros s1 s2 H. rewrite <-(String.string_of_list_ascii_of_string s1).
  unfold chars_of in H. by rewrite H, String.string_of_list_ascii_of_string.
Qed.

(** Position of the first [c] in [s]. *)
Fixpoint pos_of (c : ascii) (s : chars) : option nat :=
  match s with
  | [] => None
  | x :: s' => if bool_decide (x = c) then Some 0 else S <$> pos_of c s'
  end.

(** [s.find(c, from)]. *)
Definition find_char (c : ascii) (s : chars) (from : nat) : option nat :=
  (fun p => from + p) <$> pos_of c (drop from s).

Fixpoint is_prefix (p s : chars) : bool :=
  match p, s with
  | [], _ => true
  | x :: p', y :: s' => bool_decide (x = y) && is_prefix p' s'
  | _, _ => false
  end.

(** [s.find(sub)]. *)
Fixpoint find_sub (sub s : chars) : option nat :=
  if is_prefix sub s then Some 0
  else match s with [] => None | _ :: s' => S <$> find_sub sub s' end.

(** [s.substr(pos, len)]. *)
Definition substr (s : chars) (pos len : nat) : chars := take len (drop pos s).

Lemma pos_of_None c s : c ∉ s -> pos_of c s = None.
Proof.
  induction s as [|x s IH]; intros Hc; simpl; [done|].
  rewrite bool_decide_eq_false_2 by set_solver. rewrite IH by set_solver. done.
Qed.

Lemma pos_of_app c s1 s2 :
  c ∉ s1 -> pos_of c (s1 ++ s2) = (fun p => length s1 + p) <$> pos_of c s2.
Proof.
  induction s1 as [|x s1 IH]; intros Hc; simpl; [by destruct (pos_of c s2)|].
  rewrite bool_decide_eq_false_2 by set_solver. rewrite IH by set_solver.
  by destruct (pos_of c s2).
Qed.

Lemma pos_of_here c s1 s2 : c ∉ s1 -> pos_of c (s1 ++ c :: s2) = Some (length s1).
Proof.
  intros Hc. rewrite pos_of_app by done. simpl.
  rewrite bool_decide_eq_true_2 by done. simpl. f_equal. lia.
Qed.

Lemma find_char_app c pre s n :
  length pre = n -> find_char c (pre ++ s) n = (fun p => n + p) <$> pos_of c s.
Proof. intros <-. unfold find_char. by rewrite drop_app_length. Qed.

(** Lexicographic order of [std::string::operator<] (bytes as unsigned). *)
Fixpoint chars_ltb (a b : chars) : bool :=
  match a, b with
  | [], [] => false
  | [], _ :: _ => true
  | _ :: _, [] => false
  | x :: a', y :: b' =>
      if (N_of_ascii x <? N_of_ascii y)%N then true
      else if (N_of_ascii y <? N_of_ascii x)%N then false else chars_ltb a' b'
  end.

Lemma N_of_ascii_inj x y : N_of_ascii x = N_of_ascii y -> x = y.
Proof. intros H. by rewrite <-(ascii_N_embedding x), <-(ascii_N_embedding y), H. Qed.

#[global] Instance chars_ltb_order : StrictOrderB chars_ltb.
Proof.
  split.
  - intros k. induction k as [|x k IH]; simpl; [done|]. by rewrite N.ltb_irrefl.
  - intros a. induction a as [|x a IH]; intros [|y b] [|z c] H1 H2; simpl in *; try done.
    destruct (N.ltb_spec (N_of_ascii x) (N_of_ascii y)),
      (N.ltb_spec (N_of_ascii y) (N_of_ascii x)),
      (N.ltb_spec (N_of_ascii y) (N_of_ascii z)),
      (N.ltb_spec (N_of_ascii z) (N_of_ascii y)),
      (N.ltb_spec (N_of_ascii x) (N_of_ascii z)),
      (N.ltb_spec (N_of_ascii z) (N_of_ascii x)); try done; try lia; eauto.
  - intros a. induction a as [|x a IH]; intros [|y b] H1 H2; simpl in *; try done.
    destruct (N.ltb_spec (N_of_ascii x) (N_of_ascii y)),
      (N.ltb_spec (N_of_ascii y) (N_of_ascii x)); try done.
    f_equal; [apply N_of_ascii_inj; lia|eauto].
Qed.

(** ** Decimal numbers: [std::to_string] and [std::from_chars] *)

Definition digit_char (d : Z) : ascii := ascii_of_N (Z.to_N (48 + d)).
Definition digit_val (c : ascii) : Z := (Z.of_N (N_of_ascii c) - 48)%Z.
Definition is_digit (c : ascii) : bool :=
  ((0 <=? digit_val c) && (digit_val c <=? 9))%Z.

Fixpoint dec_digits (fuel : nat) (z : Z) (acc : chars) : chars :=
  let acc := digit_char (z mod 10) :: acc in
  match fuel with
  | 0 => acc
  | S fuel => if (z / 10 =? 0)%Z then acc else dec_digits fuel (z / 10) acc
  end.

(** [std::to_string] of a non-negative integer; [Z.log2 z] iterations suffice
    because every iteration divides by ten. *)
Definition to_dec (z : Z) : chars := dec_digits (Z.to_nat (Z.log2 z)) z [].

Definition dec_value (ds : chars) : Z :=
  foldl (fun acc c => (acc * 10 + digit_val c)%Z) 0%Z ds.

(** The longest prefix of digits and what follows it. *)
Fixpoint span_digits (s : chars) : chars * chars :=
  match s with
  | [] => ([], [])
  | c :: s' =>
      if is_digit c then let '(d, r) := span_digits s' in (c :: d, r) else ([], s)
  end.

(** [std::from_chars] for an unsigned type with maximum [hi]: value and rest,
    or [None] for [errc::invalid_argument] and [errc::result_out_of_range]. *)
Definition from_chars_unsigned (hi : Z) (s : chars) : option (Z * chars) :=
  let '(d, r) := span_digits s in
  match d with
  | [] => None
  | _ => if (dec_value d <=? hi)%Z then Some (dec_value d, r) else None
  end.

(** [std::from_chars] for [int64_t]. *)
Definition from_chars_i64 (s : chars) : option (Z * chars) :=
  match s with
  | "-"%char :: s' =>
      '(v, r) ← from_chars_unsigned (2 ^ 63) s'; Some ((- v)%Z, r)
  | _ => from_chars_unsigned (2 ^ 63 - 1) s
  end.

Lemma digit_val_char d : (0 <= d <= 9)%Z -> digit_val (digit_char d) = d.
Proof.
  intros Hd. unfold digit_val, digit_char. rewrite N_ascii_embedding; lia.
Qed.

Lemma is_digit_char d : (0 <= d <= 9)%Z -> is_digit (digit_char d) = true.
Proof.
  intros Hd. unfold is_digit. rewrite digit_val_char by done.
  apply andb_true_iff. split; apply Z.leb_le; lia.
Qed.

Lemma foldl_dec_app ds1 ds2 a :
  foldl (fun acc c => (acc * 10 + digit_val c)%Z) a (ds1 ++ ds2) =
  foldl (fun acc c => (acc * 10 + digit_val c)%Z)
    (foldl (fun acc c => (acc * 10 + digit_val c)%Z) a ds1) ds2.
Proof. apply foldl_app. Qed.

(** Enough fuel: the digits printed denote the number. *)
Lemma dec_digits_spec fuel z acc :
  (0 <= z < 2 ^ (Z.of_nat fuel + 1))%Z ->
  exists ds, dec_digits fuel z acc = ds ++ acc /\ ds <> [] /\
    Forall (fun c => is_digit c = true) ds /\ dec_value ds = z.
Proof.
  revert z acc. induction fuel as [|fuel IH]; intros z acc Hz.
  - exists [digit_char (z mod 10)]. simpl. assert (z mod 10 = z)%Z as ->.
    { apply Z.mod_small. simpl in Hz. lia. }
    assert (0 <= z <= 9)%Z by (simpl in Hz; lia).
    split_and!; [done|done|repeat constructor; by apply is_digit_char|].
    unfold dec_value. simpl. rewrite digit_val_char by done. lia.
  - pose proof (Z.mod_pos_bound z 10 ltac:(lia)) as Hm.
    pose proof (Z.div_mod z 10 ltac:(lia)) as Hdm.
    simpl. destruct (Z.eqb_spec (z / 10) 0) as [Hq|Hq].
    + exists [digit_char (z mod 10)]. split_and!; [done|done| |].
      * repeat constructor. apply is_digit_char. lia.
      * unfold dec_value. simpl. rewrite digit_val_char by lia. lia.
    + destruct (IH (z / 10)%Z (digit_char (z mod 10) :: acc)) as (ds & He & Hn & Hd & Hv).
      { split; [apply Z.div_pos; lia|]. apply Z.div_lt_upper_bound; [lia|].
        replace (Z.of_nat (S fuel) + 1)%Z with (Z.of_nat fuel + 1 + 1)%Z in Hz by lia.
        rewrite Z.pow_add_r in Hz by lia. lia. }
      exists (ds ++ [digit_char (z mod 10)]). rewrite He. split_and!.
      * by rewrite <-app_assoc.
      * by destruct ds.
      * apply Forall_app. split; [done|]. repeat constructor. apply is_digit_char. lia.
      * unfold dec_value in *. rewrite foldl_dec_app, Hv. simpl.
        rewrite digit_val_char by lia. lia.
Qed.

Lemma to_dec_spec z :
  (0 <= z)%Z ->
  to_dec z <> [] /\ Forall (fun c => is_digit c = true) (to_dec z) /\ dec_value (to_dec z) = z.
Proof.
  intros Hz. destruct (dec_digits_spec (Z.to_nat (Z.log2 z)) z []) as (ds & He & ?).
  { split; [done|]. rewrite Z2Nat.id by apply Z.log2_nonneg.
    destruct (decide (z = 0)%Z) as [->|]; [done|]. apply Z.log2_spec. lia. }
  unfold to_dec. by rewrite He, app_nil_r.
Qed.

Lemma span_digits_app ds r :
  Forall (fun c => is_digit c = true) ds ->
  (forall c r', r = c :: r' -> is_digit c = false) ->
  span_digits (ds ++ r) = (ds, r).
Proof.
  intros Hd Hr. induction Hd as [|c ds Hc _ IH]; simpl.
  - destruct r as [|c r']; [done|]. simpl. by rewrite (Hr c r').
  - by rewrite Hc, IH.
Qed.

(** [from_chars] reads back what [to_string] wrote. *)
Lemma from_chars_unsigned_to_dec hi z :
  (0 <= z <= hi)%Z -> from_chars_unsigned hi (to_dec z) = Some (z, []).
Proof.
  intros Hz. destruct (to_dec_spec z) as (Hn & Hd & Hv); [lia|].
  unfold from_chars_unsigned.
  rewrite <-(app_nil_r (to_dec z)) at 1. rewrite span_digits_app by done.
  rewrite Hv, (proj2 (Z.leb_le z hi)) by lia. by destruct (to_dec z).
Qed.

Lemma digit_not c : is_digit c = true -> c <> "-"%char /\ c <> ":"%char /\ c <> "/"%char
  /\ c <> "?"%char /\ c <> "@"%char /\ c <> "&"%char.
Proof. intros H. split_and!; intros ->; discriminate H. Qed.

Lemma from_chars_i64_to_dec z :
  (0 <= z < 2 ^ 63)%Z -> from_chars_i64 (to_dec z) = Some (z, []).
Proof.
  intros Hz. pose proof (from_chars_unsigned_to_dec (2 ^ 63 - 1) z ltac:(lia)) as H.
  destruct (to_dec_spec z ltac:(lia)) as (Hn & Hd & _).
  unfold from_chars_i64. destruct (to_dec z) as [|c ds]; [done|].
  apply Forall_cons in Hd as [Hc _]. apply digit_not in Hc as [Hc _].
  destruct c as [[] [] [] [] [] [] [] []]; try exact H. by destruct Hc.
Qed.

(** ** Sums over finite maps *)

Section map_sum.
Context {K V : Type} `{Countable K}.
Implicit Types (f : K -> V -> Z) (m : gmap K V).
Local Open Scope Z_scope.

Definition map_sum f m : Z := map_fold (fun k v acc => f k v + acc) 0 m.

Lemma map_sum_empty f : map_sum f ∅ = 0.
Proof. apply map_fold_empty. Qed.

Lemma map_sum_insert f m k v : m !! k = None -> map_sum f (<[k:=v]> m) = f k v + map_sum f m.
Proof. intros Hk. unfold map_sum. rewrite map_fold_insert_L; [done| |done]. intros. lia. Qed.

Lemma map_sum_delete f m k v : m !! k = Some v -> map_sum f (delete k m) = map_sum f m - f k v.
Proof.
  intros Hk. rewrite <-(insert_delete_id m k v) at 2 by done.
  rewrite map_sum_insert by apply lookup_delete_eq. lia.
Qed.

Lemma map_sum_update f m k v v' :
  m !! k = Some v -> map_sum f (<[k:=v']> m) = map_sum f m - f k v + f k v'.
Proof.
  intros Hk. rewrite <-insert_delete_eq, map_sum_insert by apply lookup_delete_eq.
  rewrite (map_sum_delete f m k v) by done. lia.
Qed.

Lemma map_sum_nonneg f m : (forall k v, m !! k = Some v -> 0 <= f k v) -> 0 <= map_sum f m.
Proof.
  induction m as [|k v m Hk IH] using map_ind; intros Hf.
  { by rewrite map_sum_empty. }
  rewrite map_sum_insert by done. assert (0 <= f k v) by (apply Hf, lookup_insert_eq).
  enough (0 <= map_sum f m) by lia. apply IH. intros k' v' Hk'. apply Hf.
  rewrite lookup_insert_ne; [done|]. intros ->. congruence.
Qed.

Lemma map_sum_ge f m k v :
  (forall k v, m !! k = Some v -> 0 <= f k v) -> m !! k = Some v -> f k v <= map_sum f m.
Proof.
  intros Hf Hk. pose proof (map_sum_delete f m k v Hk) as E.
  enough (0 <= map_sum f (delete k m)) by lia. apply map_sum_nonneg. intros k' v' Hk'.
  apply lookup_delete_Some in Hk' as [_ Hk']. by apply Hf.
Qed.

Lemma map_sum_ext f g m : (forall k v, m !! k = Some v -> f k v = g k v) -> map_sum f m = map_sum g m.
Proof.
  induction m as [|k v m Hk IH] using map_ind; intros Hf; [done|].
  rewrite !map_sum_insert by done. rewrite (Hf k v), IH; [done| |apply lookup_insert_eq].
  intros k' v' Hk'. apply Hf. rewrite lookup_insert_ne; [done|]. intros ->. congruence.
Qed.

End map_sum.

(** ** The entries of a [std::map] with string keys, in the order of its
    iteration *)

Definition entry_le {A} (a b : string * A) : Prop := chars_ltb (chars_of b.1) (chars_of a.1) = false.

#[global] Instance entry_le_dec {A} (a b : string * A) : Decision (entry_le a b).
Proof. unfold entry_le. apply _. Defined.

Definition sorted_entries {A} (m : gmap string A) : list (string * A) := merge_sort entry_le (map_to_list m).

Lemma sorted_entries_perm {A} (m : gmap string A) : sorted_entries m ≡ₚ map_to_list m.
Proof. apply merge_sort_Permutation. Qed.

Lemma elem_of_sorted_entries {A} (m : gmap string A) k v : (k, v) ∈ sorted_entries m <-> m !! k = Some v.
Proof. by rewrite sorted_entries_perm, elem_of_map_to_list. Qed.

Lemma NoDup_sorted_entries {A} (m : gmap string A) : NoDup (sorted_entries m).*1.
Proof. rewrite sorted_entries_perm. apply NoDup_fst_map_to_list. Qed.

Lemma elem_of_sorted_keys {A} (m : gmap string A) k : k ∈ (sorted_entries m).*1 <-> is_Some (m !! k).
Proof.
  rewrite list_elem_of_fmap. split.
  - intros ([k' v] & -> & H%elem_of_sorted_entries). eauto.
  - intros [v Hv]. exists (k, v). by rewrite elem_of_sorted_entries.
Qed.

(** ** Sums over lists *)

Definition zsum {A} (f : A -> Z) (l : list A) : Z := foldr (fun a n => f a + n)%Z 0%Z l.

Section zsum.
Context {A : Type}.
Implicit Types (f g : A -> Z) (l : list A).
Local Open Scope Z_scope.

Lemma zsum_app f l1 l2 : zsum f (l1 ++ l2) = zsum f l1 + zsum f l2.
Proof. unfold zsum. induction l1 as [|a l1 IH]; simpl; [done|]. rewrite IH. lia. Qed.

Lemma zsum_perm f l1 l2 : l1 ≡ₚ l2 -> zsum f l1 = zsum f l2.
Proof. unfold zsum. induction 1; simpl; lia. Qed.

Lemma zsum_le f g l : (forall a, a ∈ l -> f a <= g a) -> zsum f l <= zsum g l.
Proof.
  unfold zsum. induction l as [|a l IH]; intros H; simpl; [done|].
  assert (f a <= g a) by (apply H; left). enough (zsum f l <= zsum g l) by (unfold zsum in *; lia).
  apply IH. intros b Hb. apply H. by right.
Qed.

Lemma zsum_ext f g l : (forall a, a ∈ l -> f a = g a) -> zsum f l = zsum g l.
Proof. intros H. apply Z.le_antisymm; apply zsum_le; intros a Ha; rewrite (H a Ha); lia. Qed.

Lemma zsum_zero l : zsum (fun _ => 0) l = 0.
Proof. induction l as [|a l IH]; [done|exact IH]. Qed.

Lemma zsum_nonneg f l : (forall a, a ∈ l -> 0 <= f a) -> 0 <= zsum f l.
Proof. intros H. rewrite <-(zsum_zero l). by apply zsum_le. Qed.

Lemma zsum_plus f g l : zsum (fun a => f a + g a) l = zsum f l + zsum g l.
Proof. induction l as [|a l IH]; [done|]. unfold zsum in *. simpl. rewrite IH. lia. Qed.

Lemma zsum_elem_le f l a : (forall a, a ∈ l -> 0 <= f a) -> a ∈ l -> f a <= zsum f l.
Proof.
  intros H Ha. apply list_elem_of_split in Ha as (l1 & l2 & ->). rewrite zsum_app. unfold zsum at 2. simpl.
  assert (0 <= zsum f l1 /\ 0 <= zsum f l2) as [??].
  { split; apply zsum_nonneg; intros b Hb; apply H; set_solver. }
  unfold zsum in *. lia.
Qed.

Lemma zsum_const c l : zsum (fun _ => c) l = c * Z.of_nat (length l).
Proof. induction l as [|a l IH]; [simpl; lia|]. unfold zsum in *. simpl length. simpl foldr. lia. Qed.

End zsum.

Lemma zsum_swap {A B} (f : A -> B -> Z) (l : list A) (k : list B) :
  zsum (fun a => zsum (f a) k) l = zsum (fun b => zsum (fun a => f a b) l) k.
Proof.
  induction k as [|b k IH]; [apply zsum_zero|].
  transitivity (zsum (fun a => f a b + zsum (f a) k)%Z l); [done|]. rewrite zsum_plus, IH. done.
Qed.

Lemma zsum_fmap {A B} (f : B -> Z) (h : A -> B) (l : list A) : zsum f (h <$> l) = zsum (fun a => f (h a)) l.
Proof.
  induction l as [|a l IH]; [done|]. rewrite fmap_cons.
  change (f (h a) + zsum f (h <$> l) = f (h a) + zsum (fun a => f (h a)) l)%Z. by rewrite IH.
Qed.

Lemma zsum_cons {A} (f : A -> Z) a l : zsum f (a :: l) = (f a + zsum f l)%Z.
Proof. done. Qed.

#[global] Arguments zsum {A} f l : simpl never.

(** ** Sets of lists *)

Lemma size_list_to_set_le {A} `{Countable A} (l : list A) : (size (list_to_set l : gset A) <= length l)%nat.
Proof.
  induction l as [|a l IH]; [done|]. cbn [list_to_set length]. rewrite size_union_alt, size_singleton.
  assert (size (list_to_set l ∖ {[a]} : gset A) <= size (list_to_set l : gset A))%nat by (apply subseteq_size; set_solver). lia.
Qed.
