(* ===== verification/StandardUri.v ===== *)
(** * StandardUri: the URI type of [common/standard_uri.{h,cc}]

    Every storage location of the system is a URI; this file models the parser
    ([Parse], [ParseParams]), the canonical printer ([ToUriString],
    [ToUriStringWithExtraParam]) and the accessors the metadata components use.
    The query parameters, a [std::map], are an ordered map of the prelude. *)

From stdpp Require Import base gmap sets list strings.
From Stdlib Require Import ZArith Lia Ascii.
From S2P Require Import Prelude.

Local Open Scope char_scope.

Record StandardUri := mkStandardUri {
  protocol_ : chars;
  user_info_ : chars;
  hostname_ : chars;
  port_ : Z;
  path_ : chars;
  params_ : list (chars * chars);
}.

(** The default-constructed object, also what a failed [Parse] leaves behind. *)
Definition empty_uri : StandardUri := mkStandardUri [] [] [] 0 [] [].

Definition Valid (u : StandardUri) : bool := negb (bool_decide (protocol_ u = [])).

Definition HasParam (key : chars) (u : StandardUri) : bool :=
  bool_decide (is_Some (om_find chars_ltb key (params_ u))).

Definition GetParam (key : chars) (u : StandardUri) : chars :=
  default [] (om_find chars_ltb key (params_ u)).

Definition SetParam (key value : chars) (u : StandardUri) : StandardUri :=
  mkStandardUri (protocol_ u) (user_info_ u) (hostname_ u) (port_ u) (path_ u)
    (om_set chars_ltb key value (params_ u)).

(** [GetParamAs<std::uint64_t>(key, t)]: the new value of [t]. *)
Definition GetParamAs_u64 (key : chars) (u : StandardUri) (t : Z) : Z :=
  match om_find chars_ltb key (params_ u) with
  | None | Some [] => t
  | Some val =>
      match from_chars_unsigned u64_max val with
      | Some (result, []) => result
      | _ => t
      end
  end.

(** [to_string] is only applied to positive ports. *)
Definition GetHostPort (u : StandardUri) : chars :=
  if (0 <? port_ u)%Z then hostname_ u ++ ":" :: to_dec (port_ u) else hostname_ u.

(** The loop of [ParseParams]; [None] only when the fuel runs out. *)
Fixpoint ParseParams_loop (fuel : nat) (uri_params : chars) (start : nat)
    (params : list (chars * chars)) : option (list (chars * chars)) :=
  match fuel with
  | 0 => None
  | S fuel =>
      if (start <? length uri_params)%nat then
        let end_ := default (length uri_params) (find_char "&" uri_params start) in
        let params' :=
          match find_char "=" uri_params start with
          | Some eq_pos =>
              if (eq_pos <? end_)%nat then
                om_set chars_ltb (substr uri_params start (eq_pos - start))
                  (substr uri_params (eq_pos + 1) (end_ - eq_pos - 1)) params
              else om_set chars_ltb (substr uri_params start (end_ - start)) [] params
          | None => om_set chars_ltb (substr uri_params start (end_ - start)) [] params
          end in
        ParseParams_loop fuel uri_params (end_ + 1) params'
      else Some params
  end.

Definition ParseParams (uri_params : chars) (params : list (chars * chars))
    : list (chars * chars) :=
  default params (ParseParams_loop (S (length uri_params)) uri_params 0 params).

(** Hostname and port of [Parse]: [None] when the port is malformed. *)
Definition parse_host_port (uri : chars) (host_start host_end : nat)
    : option (chars * Z) :=
  match find_char ":" uri host_start with
  | Some colon_pos =>
      if (host_end <=? colon_pos)%nat then
        Some (substr uri host_start (host_end - host_start), 0%Z)
      else
        let port_text := substr uri (colon_pos + 1) (host_end - (colon_pos + 1)) in
        match port_text with
        | [] | "-" :: _ => None
        | _ =>
            match from_chars_i64 port_text with
            | Some (tmp_port, []) =>
                Some (substr uri host_start (colon_pos - host_start), tmp_port)
            | _ => None
            end
        end
  | None => Some (substr uri host_start (host_end - host_start), 0%Z)
  end.

(** Path and query of [Parse]. *)
Definition parse_path_query (uri : chars) (pos_path_start pos_query_start : option nat)
    : chars * list (chars * chars) :=
  match pos_path_start, pos_query_start with
  | Some p, Some q =>
      if (p <? q)%nat then (substr uri p (q - p), ParseParams (drop (q + 1) uri) [])
      else ([], ParseParams (drop (q + 1) uri) [])
  | Some p, None => (drop p uri, [])
  | None, Some q => ([], ParseParams (drop (q + 1) uri) [])
  | None, None => ([], [])
  end.

(** [StandardUri::Parse]: the object after the call and the returned flag. *)
Definition Parse (uri : chars) : StandardUri * bool :=
  match find_sub (chars_of "://") uri with
  | None => (empty_uri, false)
  | Some pos_protocol_end =>
      let protocol := substr uri 0 pos_protocol_end in
      let authority_start := pos_protocol_end + 3 in
      let pos_path_start := find_char "/" uri authority_start in
      let pos_query_start := find_char "?" uri authority_start in
      let host_end := Nat.min (default (length uri) pos_path_start)
                        (default (length uri) pos_query_start) in
      let '(user_info, host_start) :=
        match find_char "@" uri authority_start with
        | Some pos_at =>
            if (pos_at <? host_end)%nat
            then (substr uri authority_start (pos_at - authority_start), pos_at + 1)
            else ([], authority_start)
        | None => ([], authority_start)
        end in
      match parse_host_port uri host_start host_end with
      | None => (empty_uri, false)
      | Some (hostname, port) =>
          let '(path, params) := parse_path_query uri pos_path_start pos_query_start in
          (mkStandardUri protocol user_info hostname port path params, true)
      end
  end.

Definition FromUri (source : chars) : StandardUri :=
  let '(result, ok) := Parse source in if ok then result else empty_uri.

Fixpoint print_params (ps : list (chars * chars)) : chars :=
  match ps with
  | [] => []
  | [(k, v)] => k ++ "=" :: v
  | (k, v) :: ps => k ++ "=" :: v ++ "&" :: print_params ps
  end.

(** Everything up to the query, common to the two printers. *)
Definition print_head (u : StandardUri) : chars :=
  protocol_ u ++ chars_of "://"
  ++ (if bool_decide (user_info_ u = []) then [] else user_info_ u ++ ["@"])
  ++ hostname_ u
  ++ (if (0 <? port_ u)%Z then ":" :: to_dec (port_ u) else [])
  ++ path_ u.

Definition ToUriString (u : StandardUri) : chars :=
  if negb (Valid u) then []
  else print_head u
       ++ (if bool_decide (params_ u = []) then [] else "?" :: print_params (params_ u)).

(** The [append_param] lambda: what it appends when [first] is as given. *)
Definition append_param (first : bool) (k v : chars) : chars :=
  (if first then [] else ["&"]) ++ k ++ "=" :: v.

(** The loop of [ToUriStringWithExtraParam] over the parameters in order. *)
Fixpoint append_with_extra (key value : chars) (extra_written first : bool)
    (ps : list (chars * chars)) : chars :=
  match ps with
  | [] => if extra_written then [] else append_param first key value
  | (k, v) :: ps =>
      if negb extra_written && chars_ltb key k
      then append_param first key value ++ append_param false k v
           ++ append_with_extra key value true false ps
      else append_param first k v ++ append_with_extra key value extra_written false ps
  end.

Definition ToUriStringWithExtraParam (key value : chars) (u : StandardUri) : chars :=
  if negb (Valid u) || bool_decide (key = []) || HasParam key u then []
  else print_head u ++ "?" :: append_with_extra key value false true (params_ u).

Example parse_ex :
  let u := (Parse (chars_of "hf3fs://cluster:8080/a/b?size=16&blkid=3")).1 in
  port_ u = 8080%Z /\ GetParamAs_u64 (chars_of "size") u 0 = 16%Z /\
  GetHostPort u = chars_of "cluster:8080" /\
  ToUriString u = chars_of "hf3fs://cluster:8080/a/b?blkid=3&size=16".
Proof. vm_compute. done. Qed.

(** ** Lemmas *)

Lemma substr_mid pre x post n m :
  n = length pre -> m = length x -> substr (pre ++ x ++ post) n m = x.
Proof. intros -> ->. unfold substr. by rewrite drop_app_length, take_app_length. Qed.

Lemma find_char_ge c s from p : find_char c s from = Some p -> from <= p.
Proof. intros H. unfold find_char in H. apply fmap_Some in H as (q & _ & ->). lia. Qed.

Lemma ParseParams_loop_total fuel s start ps :
  length s <= start + fuel -> is_Some (ParseParams_loop (S fuel) s start ps).
Proof.
  revert start ps. induction fuel as [|fuel IH]; intros start ps Hf; cbn [ParseParams_loop].
  - destruct (Nat.ltb_spec start (length s)); [lia|eauto].
  - destruct (Nat.ltb_spec start (length s)); [|eauto].
    apply IH. destruct (find_char "&" s start) eqn:E; simpl; [|lia].
    apply find_char_ge in E. lia.
Qed.

(** What the printer may emit between two delimiters. *)
Definition param_ok (kv : chars * chars) : Prop :=
  "&" ∉ kv.1 /\ "=" ∉ kv.1 /\ "&" ∉ kv.2.

(** One iteration on a [key=value] entry that ends the query or is followed
    by an ampersand. *)
Lemma ParseParams_loop_entry pre k v tl acc fuel :
  param_ok (k, v) -> tl = [] \/ (exists tl', tl = "&" :: tl') ->
  ParseParams_loop (S fuel) (pre ++ k ++ "=" :: v ++ tl) (length pre) acc =
  ParseParams_loop fuel (pre ++ k ++ "=" :: v ++ tl)
    (length pre + length k + 1 + length v + 1) (om_set chars_ltb k v acc).
Proof.
  intros (Hk1 & Hk2 & Hv) Htl. simpl in Hk1, Hk2, Hv.
  set (s := pre ++ k ++ "=" :: v ++ tl).
  assert (Hlen : length s = length pre + length k + 1 + length v + length tl).
  { unfold s. rewrite !length_app. simpl. rewrite length_app. lia. }
  assert (Heq : find_char "=" s (length pre) = Some (length pre + length k)).
  { unfold s. by rewrite find_char_app, pos_of_here. }
  assert (Hend : default (length s) (find_char "&" s (length pre)) =
                 length pre + length k + 1 + length v).
  { rewrite Hlen. unfold s. rewrite find_char_app by done.
    replace (k ++ "=" :: v ++ tl) with ((k ++ "=" :: v) ++ tl) by (by rewrite <-app_assoc).
    destruct Htl as [->|(tl' & ->)].
    - rewrite pos_of_None by set_solver. simpl. lia.
    - rewrite pos_of_here by set_solver. simpl. rewrite length_app. simpl. lia. }
  cbn [ParseParams_loop]. cbv zeta. rewrite Hend, Heq.
  destruct (Nat.ltb_spec (length pre) (length s)); [|lia].
  destruct (Nat.ltb_spec (length pre + length k) (length pre + length k + 1 + length v)); [|lia].
  f_equal. f_equal.
  - apply substr_mid; lia.
  - unfold s. replace (pre ++ k ++ "=" :: v ++ tl) with ((pre ++ k ++ ["="]) ++ v ++ tl)
      by (by rewrite <-!app_assoc).
    apply substr_mid; rewrite ?length_app; simpl; lia.
Qed.

Lemma ParseParams_loop_print ps pre acc fuel :
  ps <> [] -> Forall param_ok ps -> length ps < fuel ->
  ParseParams_loop fuel (pre ++ print_params ps) (length pre) acc =
    Some (foldl (fun a kv => om_set chars_ltb kv.1 kv.2 a) acc ps).
Proof.
  revert pre acc fuel. induction ps as [|[k v] ps IH]; intros pre acc fuel Hn Hok Hf; [done|].
  apply Forall_cons in Hok as [Hkv Hok].
  destruct fuel as [|fuel]; [simpl in Hf; lia|].
  destruct ps as [|kv ps].
  - change (print_params [(k, v)]) with (k ++ "=" :: v). rewrite <-(app_nil_r v) at 1.
    rewrite ParseParams_loop_entry by eauto.
    destruct fuel as [|fuel]; [simpl in Hf; lia|]. simpl.
    case_match eqn:E; [|done]. apply Nat.ltb_lt in E.
    rewrite !length_app in E. simpl in E. rewrite length_app in E. simpl in E. lia.
  - set (tl := print_params (kv :: ps)).
    change (print_params ((k, v) :: kv :: ps)) with (k ++ "=" :: v ++ "&" :: tl).
    rewrite ParseParams_loop_entry by eauto.
    replace (pre ++ k ++ "=" :: v ++ "&" :: tl) with ((pre ++ k ++ "=" :: v ++ ["&"]) ++ tl).
    2: { rewrite <-!app_assoc. simpl. by rewrite <-!app_assoc. }
    replace (length pre + length k + 1 + length v + 1) with (length (pre ++ k ++ "=" :: v ++ ["&"])).
    2: { rewrite !length_app. simpl. rewrite length_app. simpl. lia. }
    apply IH; [done|done|simpl in *; lia].
Qed.

Lemma length_print_params ps : length ps <= length (print_params ps).
Proof.
  induction ps as [|[k v] [|kv ps] IH]; [done| |].
  - simpl. rewrite length_app. simpl. lia.
  - change (print_params ((k, v) :: kv :: ps)) with (k ++ "=" :: v ++ "&" :: print_params (kv :: ps)).
    rewrite length_app. simpl in *. rewrite length_app. simpl. lia.
Qed.

Lemma ParseParams_print ps :
  om_wf chars_ltb ps -> Forall param_ok ps -> ParseParams (print_params ps) [] = ps.
Proof.
  intros Hwf Hok. unfold ParseParams.
  destruct ps as [|kv ps]; [done|].
  rewrite (ParseParams_loop_print (kv :: ps) []); [simpl| done | done |].
  - by apply (om_rebuild chars_ltb (kv :: ps) []).
  - pose proof (length_print_params (kv :: ps)). lia.
Qed.

Lemma ParseParams_loop_wf fuel s start ps ps' :
  om_wf chars_ltb ps -> ParseParams_loop fuel s start ps = Some ps' -> om_wf chars_ltb ps'.
Proof.
  revert start ps. induction fuel as [|fuel IH]; intros start ps Hwf; simpl; [done|].
  destruct (start <? length s)%nat; [|by intros [= <-]].
  apply IH. destruct (find_char "=" s start); [case_match|]; by apply om_set_wf; [apply _|].
Qed.

Lemma ParseParams_wf s : om_wf chars_ltb (ParseParams s []).
Proof.
  unfold ParseParams. destruct (ParseParams_loop _ _ _ _) eqn:E; simpl.
  - eapply ParseParams_loop_wf; [|done]. constructor.
  - constructor.
Qed.

(** *** Reading back what the printer wrote *)

(** The objects the printer can represent: no component contains a delimiter
    that ends it. *)
Definition wf_uri (u : StandardUri) : Prop :=
  protocol_ u <> [] /\
  find_sub (chars_of "://") (protocol_ u ++ chars_of "://") = Some (length (protocol_ u)) /\
  ("/" ∉ user_info_ u /\ "?" ∉ user_info_ u /\ "@" ∉ user_info_ u) /\
  ("/" ∉ hostname_ u /\ "?" ∉ hostname_ u /\ ":" ∉ hostname_ u) /\
  (0 <= port_ u < 2 ^ 63)%Z /\
  (path_ u = [] \/ exists p, path_ u = "/" :: p /\ "?" ∉ p) /\
  om_wf chars_ltb (params_ u) /\ Forall param_ok (params_ u).

(** Without user-info, a hostname may not contain the user-info delimiter. *)
Definition at_unambiguous (u : StandardUri) : Prop :=
  user_info_ u = [] -> "@" ∉ hostname_ u.

Definition print_host_port (u : StandardUri) : chars :=
  hostname_ u ++ (if (0 <? port_ u)%Z then ":" :: to_dec (port_ u) else []).

Definition print_authority (u : StandardUri) : chars :=
  (if bool_decide (user_info_ u = []) then [] else user_info_ u ++ ["@"])
  ++ print_host_port u.

Definition print_query (u : StandardUri) : chars :=
  if bool_decide (params_ u = []) then [] else "?" :: print_params (params_ u).

Lemma is_prefix_app p s : is_prefix p (p ++ s) = true.
Proof. induction p; simpl; [done|]. by rewrite bool_decide_eq_true_2. Qed.

Lemma is_prefix_app_r p s t : length p <= length s -> is_prefix p (s ++ t) = is_prefix p s.
Proof.
  revert s. induction p as [|x p IH]; intros [|y s] Hl; simpl in *; try done; try lia.
  by rewrite IH by lia.
Qed.

Lemma find_sub_app_iff sub s t n :
  n + length sub <= length s -> find_sub sub (s ++ t) = Some n <-> find_sub sub s = Some n.
Proof.
  revert n. induction s as [|x s IH]; intros n Hl.
  - destruct sub; simpl in *; [|lia]. destruct t; simpl; split; intros; by simplify_eq.
  - cbn [app find_sub]. change (x :: s ++ t) with ((x :: s) ++ t).
    rewrite (is_prefix_app_r sub (x :: s) t) by (simpl in *; lia).
    destruct (is_prefix sub (x :: s)); [done|].
    rewrite !fmap_Some. split; intros (m & Hm & ->); exists m; split; try done;
      apply IH; simpl in *; (lia || done).
Qed.

Lemma is_prefix_spec p s : is_prefix p s = true -> exists r, s = p ++ r.
Proof.
  revert s. induction p as [|x p IH]; intros [|y s]; simpl; try done; eauto.
  intros [Hx Hp]%andb_true_iff. apply bool_decide_eq_true in Hx as ->.
  apply IH in Hp as (r & ->). eauto.
Qed.

Lemma find_sub_spec sub s n :
  find_sub sub s = Some n -> exists r, s = take n s ++ sub ++ r /\ n <= length s.
Proof.
  revert n. induction s as [|x s IH]; intros n Hf; cbn [find_sub] in Hf.
  - destruct (is_prefix sub []) eqn:E; simplify_eq.
    apply is_prefix_spec in E as (r & E). exists r. split; [done|simpl; lia].
  - destruct (is_prefix sub (x :: s)) eqn:E; simplify_eq.
    + apply is_prefix_spec in E as (r & E). exists r. split; [done|simpl; lia].
    + apply fmap_Some in Hf as (m & Hm & ->). apply IH in Hm as (r & Hr & Hl).
      exists r. simpl. split; [by f_equal|lia].
Qed.

Lemma pos_of_ge c s p : pos_of c s = Some p -> p < length s.
Proof.
  revert p. induction s as [|x s IH]; intros p; simpl; [done|].
  case_bool_decide; [intros [= <-]; lia|].
  intros (q & Hq & ->)%fmap_Some. apply IH in Hq. lia.
Qed.

Lemma digits_free ds c :
  Forall (fun c => is_digit c = true) ds -> is_digit c = false -> c ∉ ds.
Proof. intros Hd Hc Hin. by rewrite (proj1 (Forall_forall _ _) Hd c Hin) in Hc. Qed.

Lemma port_text_free u c :
  (0 <= port_ u)%Z -> is_digit c = false -> c <> ":" ->
  c ∉ (if (0 <? port_ u)%Z then ":" :: to_dec (port_ u) else []).
Proof.
  intros Hp Hc Hne. case_match; [|set_solver].
  apply not_elem_of_cons. split; [done|]. apply digits_free; [by apply to_dec_spec|done].
Qed.

Lemma print_authority_free u c :
  wf_uri u -> c = "/" \/ c = "?" -> c ∉ print_authority u.
Proof.
  intros (_ & _ & (Hu1 & Hu2 & _) & (Hh1 & Hh2 & _) & Hp & _) Hc.
  unfold print_authority, print_host_port. rewrite !not_elem_of_app.
  split_and!; [case_bool_decide; set_solver|set_solver|].
  apply port_text_free; [lia| |]; by destruct Hc as [-> | ->].
Qed.

Section read_back.
Variable u : StandardUri.
Hypothesis Hwf : wf_uri u.

Let pre := protocol_ u ++ chars_of "://".
Let tail := path_ u ++ print_query u.
Let uri := pre ++ print_authority u ++ tail.
Let a := length pre.

Lemma find_char_uri c :
  c ∉ print_authority u ->
  find_char c uri a = (fun p => a + (length (print_authority u) + p)) <$> pos_of c tail.
Proof.
  intros Hc. unfold uri, a. rewrite find_char_app by done. rewrite pos_of_app by done.
  by destruct (pos_of c tail).
Qed.

(** Where the path and the query start in the printed text. *)
Lemma printed_path_query_pos :
  let e := a + length (print_authority u) in
  let pp := find_char "/" uri a in
  let pq := find_char "?" uri a in
  Nat.min (default (length uri) pp) (default (length uri) pq) = e /\
  parse_path_query uri pp pq = (path_ u, params_ u).
Proof.
  simpl. rewrite !find_char_uri by (by apply print_authority_free; auto).
  pose proof Hwf as (_ & _ & _ & _ & _ & Hpath & Hom & Hpar).
  assert (Hlen : length uri = a + length (print_authority u) + length tail).
  { unfold uri, a. rewrite !length_app. lia. }
  assert (Hq : "?" ∉ path_ u) by (destruct Hpath as [->|(p & -> & ?)]; set_solver).
  assert (Hdrop : forall n, drop (a + (length (print_authority u) + n)) uri = drop n tail).
  { intros n. unfold uri, a. rewrite app_assoc. rewrite drop_app_ge; rewrite length_app; [|lia].
    f_equal. lia. }
  assert (Hdrop1 : forall n, drop (a + (length (print_authority u) + n) + 1) uri = drop (n + 1) tail).
  { intros n. rewrite <-(Hdrop (n + 1)). f_equal. lia. }
  unfold parse_path_query, substr.
  assert (Hqpos : pos_of "?" tail =
    if bool_decide (params_ u = []) then None else Some (length (path_ u))).
  { unfold tail, print_query. case_bool_decide.
    - rewrite app_nil_r. by apply pos_of_None.
    - by apply pos_of_here. }
  assert (Hps : params_ u <> [] -> ParseParams (drop (length (path_ u) + 1) tail) [] = params_ u).
  { intros Hne. unfold tail, print_query. rewrite bool_decide_eq_false_2 by done.
    rewrite drop_app_ge by lia.
    replace (length (path_ u) + 1 - length (path_ u)) with 1 by lia. simpl.
    rewrite drop_0. by apply ParseParams_print. }
  rewrite Hqpos. destruct Hpath as [Hp|(p & Hp & Hpq)].
  - (* no path *)
    case_bool_decide as Hpar0; simpl.
    + assert (Ht : tail = []).
      { unfold tail, print_query. by rewrite Hp, bool_decide_eq_true_2. }
      rewrite Ht. simpl. rewrite Hlen, Ht, Hp, Hpar0. simpl. split; [lia|done].
    + rewrite Hp in Hps |- *. simpl in Hps |- *.
      destruct (pos_of "/" tail) as [q|] eqn:Eq; simpl.
      * destruct (Nat.ltb_spec (a + (length (print_authority u) + q))
          (a + (length (print_authority u) + 0))); [lia|].
        rewrite Hdrop1. simpl. rewrite Hps by done. split; [lia|done].
      * rewrite Hdrop1. simpl. rewrite Hps by done. rewrite Hlen. split; [lia|done].
  - assert (Hsl : pos_of "/" tail = Some 0).
    { unfold tail. by rewrite Hp. }
    rewrite Hsl. case_bool_decide as Hpar0; simpl.
    + rewrite Hdrop. unfold tail, print_query.
      rewrite bool_decide_eq_true_2, app_nil_r by done. rewrite drop_0, Hpar0.
      split; [rewrite Hlen; lia|done].
    + destruct (Nat.ltb_spec (a + (length (print_authority u) + 0))
        (a + (length (print_authority u) + length (path_ u)))) as [Hlt|Hge].
      * rewrite Hdrop, Hdrop1, Hps by done. rewrite drop_0. split; [lia|]. f_equal.
        unfold tail. rewrite take_app_length'; [done|lia].
      * rewrite Hp in Hge. simpl in Hge. lia.
Qed.

(** Hostname and port are read back from [hs], where the printed ones start. *)
Lemma printed_host_port pre' :
  uri = pre' ++ print_host_port u ++ tail ->
  parse_host_port uri (length pre') (length pre' + length (print_host_port u)) =
    Some (hostname_ u, port_ u).
Proof.
  intros Huri. pose proof Hwf as (_ & _ & _ & (_ & _ & Hh) & Hport & _).
  unfold parse_host_port. rewrite Huri, find_char_app by done.
  unfold print_host_port. destruct (Z.ltb_spec 0 (port_ u)) as [Hp|Hp].
  - rewrite <-app_assoc. cbn [app]. rewrite pos_of_here by done. cbn [fmap option_fmap option_map].
    set (d := to_dec (port_ u)).
    assert (Hl : length (hostname_ u ++ ":" :: d) = length (hostname_ u) + 1 + length d).
    { rewrite length_app. simpl. lia. }
    rewrite Hl. destruct (Nat.leb_spec (length pre' + (length (hostname_ u) + 1 + length d))
      (length pre' + length (hostname_ u))); [lia|].
    replace (substr (pre' ++ hostname_ u ++ ":" :: d ++ tail)
      (length pre' + length (hostname_ u) + 1) _) with d.
    2: { replace (pre' ++ hostname_ u ++ ":" :: d ++ tail)
           with ((pre' ++ hostname_ u ++ [":"]) ++ d ++ tail) by (by rewrite <-!app_assoc).
         rewrite substr_mid; [done|rewrite !length_app; simpl; lia|lia]. }
    destruct (to_dec_spec (port_ u) ltac:(lia)) as (Hne & Hd & _).
    rewrite (substr_mid pre' (hostname_ u)) by lia.
    pose proof (from_chars_i64_to_dec (port_ u) Hport) as Hr. fold d in Hr, Hne, Hd.
    destruct d as [|c d']; [done|]. apply Forall_cons in Hd as [Hc _].
    apply digit_not in Hc as [Hc _]. rewrite Hr.
    destruct c as [[] [] [] [] [] [] [] []]; (reflexivity || by destruct Hc).
  - assert (port_ u = 0%Z) as -> by lia. rewrite app_nil_r.
    rewrite pos_of_app by done.
    rewrite (substr_mid pre' (hostname_ u)) by lia.
    destruct (pos_of ":" tail) as [q|]; simpl; [|done].
    destruct (Nat.leb_spec (length pre' + length (hostname_ u))
      (length pre' + (length (hostname_ u) + q))); [done|lia].
Qed.

Lemma uri_is_printed : uri = ToUriString u.
Proof.
  pose proof Hwf as (Hp & _). unfold ToUriString, Valid.
  rewrite bool_decide_eq_false_2 by done. simpl.
  unfold uri, pre, tail, print_head, print_authority, print_host_port, print_query.
  by rewrite <-!app_assoc.
Qed.

(** The user-info is read back, and the host starts after it. *)
Lemma printed_user_info :
  at_unambiguous u -> exists hs,
    match find_char "@" uri a with
    | Some pos_at =>
        if (pos_at <? a + length (print_authority u))%nat
        then (substr uri a (pos_at - a), pos_at + 1) else ([], a)
    | None => ([], a)
    end = (user_info_ u, hs) /\
    parse_host_port uri hs (a + length (print_authority u)) = Some (hostname_ u, port_ u).
Proof.
  intros Hat. pose proof Hwf as (_ & _ & (_ & _ & Hui) & _ & Hport & _).
  destruct (decide (user_info_ u = [])) as [Hu|Hu].
  - assert (Hpa : print_authority u = print_host_port u).
    { unfold print_authority. by rewrite bool_decide_eq_true_2. }
    rewrite find_char_uri.
    2: { rewrite Hpa. unfold print_host_port. apply not_elem_of_app.
         split; [by apply Hat|apply port_text_free; [lia|done|done]]. }
    pose proof (printed_host_port pre) as Hhp. rewrite <-Hpa in Hhp.
    exists a. split; [|by apply Hhp]. rewrite Hu.
    destruct (pos_of "@" tail) as [q|]; simpl; [|done].
    case_match eqn:E; [apply Nat.ltb_lt in E; lia|done].
  - assert (Hpa : print_authority u = user_info_ u ++ "@" :: print_host_port u).
    { unfold print_authority. rewrite bool_decide_eq_false_2 by done. by rewrite <-app_assoc. }
    assert (Hu1 : uri = pre ++ user_info_ u ++ "@" :: print_host_port u ++ tail).
    { unfold uri. rewrite Hpa, <-app_assoc. done. }
    assert (Hpos : find_char "@" uri a = Some (a + length (user_info_ u))).
    { rewrite Hu1. unfold a. rewrite find_char_app by done. by rewrite pos_of_here. }
    assert (Hl : length (print_authority u) =
      length (user_info_ u) + 1 + length (print_host_port u)).
    { rewrite Hpa, length_app. simpl. lia. }
    rewrite Hpos. exists (a + length (user_info_ u) + 1).
    destruct (Nat.ltb_spec (a + length (user_info_ u)) (a + length (print_authority u))); [|lia].
    split; [f_equal; rewrite Hu1; apply substr_mid; unfold a; lia|].
    pose proof (printed_host_port (pre ++ user_info_ u ++ ["@"])) as Hhp.
    rewrite <-!app_assoc in Hhp. specialize (Hhp Hu1). rewrite !length_app in Hhp. simpl in Hhp.
    rewrite <-Hhp. unfold a. f_equal; lia.
Qed.

Lemma Parse_printed : at_unambiguous u -> Parse uri = (u, true).
Proof.
  intros Hat. pose proof Hwf as (_ & Hfind & _).
  destruct printed_path_query_pos as [Hend Hpq].
  destruct (printed_user_info Hat) as (hs & Hui & Hhp). unfold Parse.
  assert (Hfs : find_sub (chars_of "://") uri = Some (length (protocol_ u))).
  { unfold uri. apply find_sub_app_iff; [|done]. unfold pre. by rewrite length_app. }
  assert (Ha : length (protocol_ u) + 3 = a) by (unfold a, pre; by rewrite length_app).
  rewrite Hfs, Ha, Hend, Hpq, Hui, Hhp.
  assert (substr uri 0 (length (protocol_ u)) = protocol_ u) as ->.
  { unfold uri, pre, substr. rewrite drop_0, <-app_assoc. by apply take_app_length. }
  by destruct u.
Qed.

End read_back.

(** *** What the parser produces *)

Lemma elem_of_substr x (s : chars) from n :
  x ∈ substr s from n -> exists i, from <= i < from + n /\ s !! i = Some x.
Proof.
  unfold substr. intros (i & Hi)%list_elem_of_lookup. apply lookup_take_Some in Hi as [Hi Hlt].
  rewrite lookup_drop in Hi. exists (from + i). split; [lia|done].
Qed.

Lemma pos_of_first c s i : i < default (length s) (pos_of c s) -> s !! i <> Some c.
Proof.
  revert i. induction s as [|x s IH]; intros i Hi; [done|]. simpl in Hi.
  case_bool_decide as Hx; simpl in Hi; [lia|].
  destruct i as [|i]; [by intros [=]|]. simpl. apply IH.
  destruct (pos_of c s); simpl in *; lia.
Qed.

(** No occurrence before the position found, nor anywhere when none is. *)
Lemma find_char_first c s from i :
  from <= i < default (length s) (find_char c s from) -> s !! i <> Some c.
Proof.
  intros [Hfrom Hi]. unfold find_char in Hi.
  replace i with (from + (i - from)) by lia. rewrite <-lookup_drop. apply pos_of_first.
  destruct (pos_of c (drop from s)); simpl in *; [lia|]. rewrite length_drop. lia.
Qed.

Lemma pos_of_lookup c s p : pos_of c s = Some p -> s !! p = Some c.
Proof.
  revert p. induction s as [|x s IH]; intros p; simpl; [done|].
  case_bool_decide; [intros [= <-]; by subst|].
  intros (q & Hq & ->)%fmap_Some. by apply IH.
Qed.

Lemma find_char_lookup c s from p : find_char c s from = Some p -> s !! p = Some c /\ from <= p.
Proof.
  unfold find_char. intros (q & Hq & ->)%fmap_Some. apply pos_of_lookup in Hq.
  rewrite lookup_drop in Hq. split; [done|lia].
Qed.

Lemma substr_free c s from0 from n e :
  from0 <= from -> from + n <= e -> e <= default (length s) (find_char c s from0) ->
  c ∉ substr s from n.
Proof.
  intros H1 H2 H3 (i & Hi & Hc)%elem_of_substr.
  eapply find_char_first; [|exact Hc]. split; [|eapply Nat.lt_le_trans]; [|..|exact H3]; lia.
Qed.

Lemma om_set_ok key value ps :
  param_ok (key, value) -> Forall param_ok ps -> Forall param_ok (om_set chars_ltb key value ps).
Proof.
  intros Hk. induction 1 as [|[k' v'] ps Hk' Hps IH]; cbn [om_set]; [by constructor|].
  destruct (chars_ltb key k'), (chars_ltb k' key); repeat apply Forall_cons_2; done.
Qed.

Lemma ParseParams_loop_ok fuel s start ps ps' :
  Forall param_ok ps -> ParseParams_loop fuel s start ps = Some ps' -> Forall param_ok ps'.
Proof.
  revert start ps. induction fuel as [|fuel IH]; intros start ps Hok; cbn [ParseParams_loop]; [done|].
  destruct (Nat.ltb_spec start (length s)) as [Hlt|]; [|by intros [= <-]].
  cbv zeta. set (e := default (length s) (find_char "&" s start)). apply IH.
  assert (Hbare : forall n, start + n <= e -> "&" ∉ substr s start n).
  { intros n Hn. by apply (substr_free _ _ start _ _ e). }
  destruct (find_char "=" s start) as [q|] eqn:Eq.
  - apply find_char_lookup in Eq as Hq. destruct Hq as [_ Hq].
    assert (Hkey : forall n, start + n <= q -> "=" ∉ substr s start n).
    { intros n Hn. eapply substr_free; [done|done|by rewrite Eq]. }
    assert (start <= e).
    { unfold e. destruct (find_char "&" s start) eqn:E; simpl; [|lia]. by apply find_char_ge in E. }
    case_match eqn:El; reflect_bools; (apply om_set_ok; [|done]); split_and!; simpl.
    + apply Hbare. lia.
    + apply Hkey. lia.
    + apply (substr_free _ _ start _ _ e); [lia|lia|done].
    + apply Hbare. lia.
    + apply Hkey. lia.
    + set_solver.
  - apply om_set_ok; [|done]. split_and!; simpl.
    + apply Hbare. unfold e. destruct (find_char "&" s start) eqn:E; simpl; [|lia].
      apply find_char_ge in E. lia.
    + eapply substr_free; [done|done|]. rewrite Eq. simpl. unfold e.
      destruct (find_char "&" s start) as [p|] eqn:E; simpl; [|lia].
      apply find_char_lookup in E as [E ?]. apply lookup_lt_Some in E. lia.
    + set_solver.
Qed.

Lemma ParseParams_ok s : Forall param_ok (ParseParams s []).
Proof.
  unfold ParseParams. destruct (ParseParams_loop _ _ _ _) eqn:E; simpl; [|done].
  by eapply ParseParams_loop_ok.
Qed.

Lemma dec_value_nonneg ds : Forall (fun c => is_digit c = true) ds -> (0 <= dec_value ds)%Z.
Proof.
  intros Hd. unfold dec_value.
  enough (forall z, (0 <= z)%Z -> (0 <= foldl (fun acc c => acc * 10 + digit_val c) z ds)%Z) by auto with lia.
  induction Hd as [|c ds Hc _ IH]; intros z Hz; simpl; [done|]. apply IH.
  unfold is_digit in Hc. reflect_bools. lia.
Qed.

Lemma span_digits_digits s d r : span_digits s = (d, r) -> Forall (fun c => is_digit c = true) d.
Proof.
  revert d r. induction s as [|c s IH]; intros d r; simpl; [by intros [= <- _]|].
  destruct (is_digit c) eqn:E; [|by intros [= <- _]].
  destruct (span_digits s) as [d' r']. intros [= <- _]. constructor; eauto.
Qed.

Lemma from_chars_unsigned_bounds hi s v r :
  from_chars_unsigned hi s = Some (v, r) -> (0 <= v <= hi)%Z.
Proof.
  unfold from_chars_unsigned. destruct (span_digits s) as [d r'] eqn:E.
  apply span_digits_digits, dec_value_nonneg in E.
  destruct d; [done|]. case_match eqn:El; [|done]. intros [= <- _]. reflect_bools. lia.
Qed.

Lemma from_chars_i64_pos x t v r :
  x <> "-" -> from_chars_i64 (x :: t) = Some (v, r) -> (0 <= v < 2 ^ 63)%Z.
Proof.
  intros Hx Hv. assert (from_chars_unsigned (2 ^ 63 - 1) (x :: t) = Some (v, r)) as Hv'.
  { destruct x as [[] [] [] [] [] [] [] []]; (exact Hv || by destruct Hx). }
  apply from_chars_unsigned_bounds in Hv'. lia.
Qed.

Lemma parse_host_port_wf uri hs he h p :
  parse_host_port uri hs he = Some (h, p) -> hs <= he <= length uri ->
  (exists n, h = substr uri hs n /\ hs + n <= he) /\ ":" ∉ h /\ (0 <= p < 2 ^ 63)%Z.
Proof.
  intros Hp Hle. unfold parse_host_port in Hp.
  destruct (find_char ":" uri hs) as [c|] eqn:E.
  - apply find_char_lookup in E as Hc. destruct Hc as [_ Hc].
    destruct (Nat.leb_spec he c) as [Hl|Hl].
    + simplify_eq. split_and!; [eexists; split; [done|lia]| |lia..].
      eapply substr_free; [done|done|rewrite E; simpl; lia].
    + destruct (substr uri (c + 1) (he - (c + 1))) as [|x t]; [done|].
      assert (exists v, from_chars_i64 (x :: t) = Some (v, []) /\
        h = substr uri hs (c - hs) /\ p = v /\ x <> "-") as (v & Hv & -> & -> & Hx).
      { destruct (from_chars_i64 (x :: t)) as [[v []]|];
          destruct x as [[] [] [] [] [] [] [] []]; simplify_eq; eauto. }
      split_and!.
      * eexists. split; [done|lia].
      * eapply substr_free; [done|done|rewrite E; simpl; lia].
      * by eapply from_chars_i64_pos.
      * by eapply from_chars_i64_pos.
  - simplify_eq. split_and!; [eexists; split; [done|lia]| |lia..].
    eapply substr_free; [done|done|rewrite E; simpl; lia].
Qed.

Lemma parse_path_query_wf uri from p q path ps :
  p = find_char "/" uri from -> q = find_char "?" uri from ->
  parse_path_query uri p q = (path, ps) ->
  (path = [] \/ exists p, path = "/" :: p /\ "?" ∉ p) /\
  om_wf chars_ltb ps /\ Forall param_ok ps.
Proof.
  intros Hp Hq H. unfold parse_path_query in H.
  assert (Hnil : om_wf chars_ltb (V := chars) []) by constructor.
  destruct p as [p|]; [symmetry in Hp; apply find_char_lookup in Hp as [Hp Hge]|].
  - assert (Hpath : forall n, 0 < n -> p + n <= default (length uri) q ->
      exists p', substr uri p n = "/" :: p' /\ "?" ∉ p').
    { intros n Hn Hle. assert (Hfree : "?" ∉ substr uri p n).
      { eapply substr_free; [exact Hge|done|by rewrite <-Hq]. }
      unfold substr in *. rewrite (drop_S uri "/" p) in * by done.
      destruct n; [lia|]. simpl in *. eexists. split; [done|set_solver]. }
    destruct q as [q|]; simpl in Hpath.
    + destruct (Nat.ltb_spec p q); simplify_eq.
      * split_and!; [right; apply Hpath; lia|apply ParseParams_wf|apply ParseParams_ok].
      * split_and!; [by left|apply ParseParams_wf|apply ParseParams_ok].
    + simplify_eq. split_and!; [|done|done]. right.
      pose proof (lookup_lt_Some _ _ _ Hp).
      destruct (Hpath (length uri - p)) as (p' & Hp' & ?); [lia|lia|].
      exists p'. split; [|done]. rewrite <-Hp'. unfold substr. rewrite take_ge; [done|].
      rewrite length_drop. lia.
  - destruct q as [q|]; simplify_eq; split_and!;
      auto using ParseParams_wf, ParseParams_ok.
Qed.

Lemma find_char_end s c from :
  from <= length s -> from <= default (length s) (find_char c s from) <= length s.
Proof.
  intros Hf. destruct (find_char c s from) as [p|] eqn:E; simpl; [|lia].
  apply find_char_lookup in E as [E ?]. apply lookup_lt_Some in E. lia.
Qed.

Lemma find_sub_take sub s n :
  find_sub sub s = Some n ->
  length (take n s) = n /\ find_sub sub (take n s ++ sub) = Some n /\ n + length sub <= length s.
Proof.
  intros Hf. destruct (find_sub_spec _ _ _ Hf) as (r & Hr & Hl).
  assert (Ht : length (take n s) = n) by (rewrite length_take; lia).
  split_and!; [done| |].
  - rewrite Hr in Hf. rewrite app_assoc in Hf.
    apply find_sub_app_iff in Hf; [done|]. rewrite length_app. lia.
  - rewrite Hr, !length_app. lia.
Qed.

Lemma Parse_wf uri u : Parse uri = (u, true) -> protocol_ u <> [] -> wf_uri u.
Proof.
  unfold Parse. destruct (find_sub (chars_of "://") uri) as [n|] eqn:En; [|done].
  apply find_sub_take in En as (Htl & Hfs & Hn). simpl in Hn.
  set (a := n + 3). set (pp := find_char "/" uri a). set (pq := find_char "?" uri a).
  set (he := Nat.min (default (length uri) pp) (default (length uri) pq)).
  pose proof (find_char_end uri "/" a ltac:(lia)) as Hpp.
  pose proof (find_char_end uri "?" a ltac:(lia)) as Hpq. fold pp in Hpp. fold pq in Hpq.
  assert (Hslash : forall from m, a <= from -> from + m <= he -> "/" ∉ substr uri from m).
  { intros from m H1 H2. apply (substr_free _ _ a _ _ he); [done|done|]. fold pp. lia. }
  assert (Hquest : forall from m, a <= from -> from + m <= he -> "?" ∉ substr uri from m).
  { intros from m H1 H2. apply (substr_free _ _ a _ _ he); [done|done|]. fold pq. lia. }
  set (ui := match find_char "@" uri a with Some _ => _ | None => _ end).
  assert (exists ul hs, ui = (substr uri a ul, hs) /\ a + ul <= he /\ a <= hs <= he /\
    "@" ∉ substr uri a ul) as (ul & hs & -> & Hul & Hhs & Hat).
  { assert (Hno : a + 0 <= he /\ a <= a <= he /\ "@" ∉ substr uri a 0).
    { split_and!; [lia..|]. unfold substr. rewrite take_0. set_solver. }
    unfold ui. destruct (find_char "@" uri a) as [q|] eqn:Eq; [|exists 0, a; by split].
    destruct (Nat.ltb_spec q he); [|exists 0, a; by split].
    apply find_char_ge in Eq as Hge. exists (q - a), (q + 1). split_and!; [done|lia..|].
    apply (substr_free _ _ a _ _ q); [done|lia|by rewrite Eq]. }
  destruct (parse_host_port uri hs he) as [[h p]|] eqn:Eh; [|done].
  apply parse_host_port_wf in Eh as ((m & -> & Hm) & Hcolon & Hport); [|lia].
  destruct (parse_path_query uri pp pq) as [path ps] eqn:Epq.
  apply (parse_path_query_wf _ a) in Epq as (Hpath & Hom & Hok); [|done..].
  intros [= <-] Hprot. simpl in Hprot. unfold wf_uri. simpl.
  assert (Hproto : substr uri 0 n = take n uri) by (unfold substr; by rewrite drop_0).
  rewrite Hproto in *. rewrite Htl.
  split_and!; auto with lia; tauto.
Qed.

(** *** The two printers *)

Lemma print_params_cons k v ps :
  ps <> [] -> print_params ((k, v) :: ps) = k ++ "=" :: v ++ "&" :: print_params ps.
Proof. by destruct ps. Qed.

Lemma append_rest key value ps :
  append_with_extra key value true false ps =
  if bool_decide (ps = []) then [] else "&" :: print_params ps.
Proof.
  induction ps as [|[k v] ps IH]; [by rewrite bool_decide_eq_true_2|].
  cbn [append_with_extra negb andb]. rewrite IH.
  rewrite (bool_decide_eq_false_2 ((k, v) :: ps = [])) by done. case_bool_decide as Hps.
  - subst. by rewrite app_nil_r.
  - rewrite print_params_cons by done. unfold append_param. simpl.
    rewrite <-!app_assoc. simpl. done.
Qed.

Lemma append_with_extra_spec key value ps first :
  om_wf chars_ltb ps -> om_find chars_ltb key ps = None ->
  append_with_extra key value false first ps =
  (if first then [] else ["&"]) ++ print_params (om_set chars_ltb key value ps).
Proof.
  revert first. induction ps as [|[k v] ps IH]; intros first Hwf Hf; [done|].
  apply om_wf_cons in Hwf as [Hwf Hall]. cbn [om_find] in Hf.
  cbn [append_with_extra om_set negb andb].
  destruct (chars_ltb key k) eqn:E1.
  - rewrite append_rest, print_params_cons by done. unfold append_param. rewrite <-!app_assoc.
    case_bool_decide as Hps.
    + subst. simpl. by rewrite app_nil_r.
    + rewrite print_params_cons by done. simpl. done.
  - destruct (chars_ltb k key) eqn:E2; [|done]. rewrite IH by done.
    rewrite print_params_cons.
    + unfold append_param. rewrite <-!app_assoc. done.
    + destruct ps as [|[k' v'] ps]; cbn [om_set]; [done|]. by repeat case_match.
Qed.

(** *** Properties *)

(** C40: a URI object whose components contain no delimiter of their own is
    read back unchanged from its printed form: [Parse(ToUriString(u))]
    succeeds and leaves exactly [u] (protocol, user-info, host, port, path and
    every query parameter). *)
Theorem Parse_ToUriString u :
  wf_uri u -> at_unambiguous u -> Parse (ToUriString u) = (u, true).
Proof. intros Hwf Hat. rewrite <-(uri_is_printed u Hwf). by apply Parse_printed. Qed.

Definition sample_uri : StandardUri :=
  mkStandardUri (chars_of "nfs") (chars_of "me") (chars_of "h1") 80 (chars_of "/a")
    [(chars_of "blkid", chars_of "3"); (chars_of "size", chars_of "16")].

Lemma sample_uri_wf : wf_uri sample_uri.
Proof.
  unfold wf_uri. simpl. split_and!; try done; try (by vm_compute); try (set_solver).
  - right. eexists. split; [reflexivity|]. set_solver.
  - repeat constructor.
  - unfold param_ok. repeat constructor; simpl; set_solver.
Qed.

Lemma Parse_ToUriString_witness :
  Parse (ToUriString sample_uri) = (sample_uri, true).
Proof. apply (Parse_ToUriString sample_uri); [apply sample_uri_wf|intros [=]]. Defined.

(** Canonicalisation is stable: whatever text [Parse] accepts with a
    protocol, the object it builds satisfies the representation invariant and
    printing and parsing it again gives the same object, provided an authority
    without user-info has no user-info delimiter in its host. *)
Theorem Parse_canonical uri u :
  Parse uri = (u, true) -> Valid u = true ->
  wf_uri u /\ (at_unambiguous u -> Parse (ToUriString u) = (u, true)).
Proof.
  intros Hp Hv. assert (wf_uri u) as Hwf.
  { apply (Parse_wf uri); [done|]. unfold Valid in Hv. by reflect_bools. }
  split; [done|]. intros Hat. rewrite <-(uri_is_printed u Hwf). by apply Parse_printed.
Qed.

Lemma Parse_canonical_witness :
  let u := (Parse (chars_of "p://h:1/x?b=2&a=1")).1 in
  ToUriString u = chars_of "p://h:1/x?a=1&b=2" /\ Parse (ToUriString u) = (u, true).
Proof.
  intros u. split; [by vm_compute|].
  apply (Parse_canonical (chars_of "p://h:1/x?b=2&a=1")); [by vm_compute|by vm_compute|].
  intros _. vm_compute. set_solver.
Defined.

(** The restriction is needed: an empty user-info is dropped by the printer. *)
Lemma Parse_at_ambiguous :
  let u := (Parse (chars_of "p://@b@c")).1 in
  Valid u = true /\ (Parse (ToUriString u)).1 <> u.
Proof. vm_compute. split; [done|]. intros [=]. Qed.

(** [ToUriStringWithExtraParam(key, value)] is what [SetParam(key, value)]
    followed by [ToUriString] prints, for every valid object without that key,
    and is the empty string on an invalid object, an empty key or a key that is
    already present. *)
Theorem ToUriStringWithExtraParam_is_SetParam key value u :
  om_wf chars_ltb (params_ u) ->
  ToUriStringWithExtraParam key value u =
  if Valid u && negb (bool_decide (key = [])) && negb (HasParam key u)
  then ToUriString (SetParam key value u) else [].
Proof.
  intros Hwf. unfold ToUriStringWithExtraParam.
  destruct (Valid u) eqn:Ev; [|done]. cbn [negb orb andb].
  case_bool_decide as Hk; [done|]. cbn [negb orb andb].
  unfold HasParam. case_bool_decide as Hh; [done|]. apply eq_None_not_Some in Hh. cbn [negb].
  rewrite append_with_extra_spec by done.
  unfold ToUriString. replace (Valid (SetParam key value u)) with true by (by rewrite <-Ev).
  cbn [negb params_ SetParam]. rewrite bool_decide_eq_false_2; [done|].
  destruct (params_ u) as [|[k v] ps]; cbn [om_set]; [done|]. by repeat case_match.
Qed.

Lemma ToUriStringWithExtraParam_is_SetParam_witness :
  ToUriStringWithExtraParam (chars_of "c") (chars_of "9") sample_uri =
  chars_of "nfs://me@h1:80/a?blkid=3&c=9&size=16".
Proof.
  rewrite (ToUriStringWithExtraParam_is_SetParam (chars_of "c") (chars_of "9") sample_uri).
  - by vm_compute.
  - apply sample_uri_wf.
Defined.
