(* ===== verification/MetaTypes.v ===== *)
(** * MetaTypes: error codes, storage types, cache locations, block masks

    The vocabulary of the metadata components: [common/error_code.h], the
    storage types of [data_storage/storage_config.{h,cc}], the cache locations,
    block masks and the compact location table of [meta/cache_location.{h,cc}],
    and the modifier actions of [meta/types.h]. A [std::shared_ptr] to a
    constant location is [option CacheLocation], the null pointer being
    [None]. *)

From stdpp Require Import base gmap sets list strings.
From Stdlib Require Import ZArith Lia.
From S2P Require Import Prelude.

Inductive ErrorCode :=
  | EC_OK | EC_ERROR | EC_NOENT | EC_TIMEOUT | EC_EXIST | EC_IO_ERROR | EC_BADARGS
  | EC_UNIMPLEMENTED | EC_CORRUPTION | EC_NOSPC | EC_PARTIAL_OK | EC_INSTANCE_NOT_EXIST
  | EC_DUPLICATE_ENTITY | EC_CONFIG_ERROR | EC_OUT_OF_LIMIT | EC_OUT_OF_RANGE
  | EC_MISMATCH | EC_NOSCRIPT | EC_SERVICE_NOT_LEADER | EC_NODE_NOT_REGISTERED
  | EC_SNAPSHOT_IN_PROGRESS | EC_SNAPSHOT_RATE_LIMITED | EC_SNAPSHOT_REQUIRED
  | EC_UNKNOWN.

#[global] Instance ErrorCode_eq_dec : EqDecision ErrorCode.
Proof. solve_decision. Defined.

Inductive DataStorageType :=
  | DATA_STORAGE_TYPE_UNKNOWN
  | DATA_STORAGE_TYPE_HF3FS
  | DATA_STORAGE_TYPE_MOONCAKE
  | DATA_STORAGE_TYPE_TAIR_MEMPOOL
  | DATA_STORAGE_TYPE_NFS
  | DATA_STORAGE_TYPE_VCNS_HF3FS
  | DATA_STORAGE_TYPE_DUMMY
  | DATA_STORAGE_TYPE_EVENT_REPORT_L1P5
  | DATA_STORAGE_TYPE_EVENT_REPORT_L2
  | DATA_STORAGE_TYPE_TAIR_MEMPOOL_SSD.

#[global] Instance DataStorageType_eq_dec : EqDecision DataStorageType.
Proof. solve_decision. Defined.

(** The enumerators in the order of their values; [COUNT] is their number. *)
Definition all_storage_types : list DataStorageType :=
  [DATA_STORAGE_TYPE_UNKNOWN; DATA_STORAGE_TYPE_HF3FS; DATA_STORAGE_TYPE_MOONCAKE;
   DATA_STORAGE_TYPE_TAIR_MEMPOOL; DATA_STORAGE_TYPE_NFS; DATA_STORAGE_TYPE_VCNS_HF3FS;
   DATA_STORAGE_TYPE_DUMMY; DATA_STORAGE_TYPE_EVENT_REPORT_L1P5;
   DATA_STORAGE_TYPE_EVENT_REPORT_L2; DATA_STORAGE_TYPE_TAIR_MEMPOOL_SSD].

Definition storage_type_COUNT : nat := 10.

Definition ToIndex (type : DataStorageType) : nat :=
  match type with
  | DATA_STORAGE_TYPE_UNKNOWN => 0
  | DATA_STORAGE_TYPE_HF3FS => 1
  | DATA_STORAGE_TYPE_MOONCAKE => 2
  | DATA_STORAGE_TYPE_TAIR_MEMPOOL => 3
  | DATA_STORAGE_TYPE_NFS => 4
  | DATA_STORAGE_TYPE_VCNS_HF3FS => 5
  | DATA_STORAGE_TYPE_DUMMY => 6
  | DATA_STORAGE_TYPE_EVENT_REPORT_L1P5 => 7
  | DATA_STORAGE_TYPE_EVENT_REPORT_L2 => 8
  | DATA_STORAGE_TYPE_TAIR_MEMPOOL_SSD => 9
  end.

Definition IsEventReportStorageType (type : DataStorageType) : bool :=
  bool_decide (type = DATA_STORAGE_TYPE_EVENT_REPORT_L1P5) ||
  bool_decide (type = DATA_STORAGE_TYPE_EVENT_REPORT_L2).

Definition IsTairMempoolStorageType (type : DataStorageType) : bool :=
  bool_decide (type = DATA_STORAGE_TYPE_TAIR_MEMPOOL) ||
  bool_decide (type = DATA_STORAGE_TYPE_TAIR_MEMPOOL_SSD).

(** [ToString(DataStorageType)]. *)
Definition storage_type_ToString (type : DataStorageType) : string :=
  match type with
  | DATA_STORAGE_TYPE_UNKNOWN => "unknown"
  | DATA_STORAGE_TYPE_HF3FS => "hf3fs"
  | DATA_STORAGE_TYPE_VCNS_HF3FS => "vcns_hf3fs"
  | DATA_STORAGE_TYPE_MOONCAKE => "mooncake"
  | DATA_STORAGE_TYPE_TAIR_MEMPOOL => "pace"
  | DATA_STORAGE_TYPE_TAIR_MEMPOOL_SSD => "pace_ssd"
  | DATA_STORAGE_TYPE_NFS => "file"
  | DATA_STORAGE_TYPE_DUMMY => "dummy"
  | DATA_STORAGE_TYPE_EVENT_REPORT_L1P5 => "event_report_l1p5"
  | DATA_STORAGE_TYPE_EVENT_REPORT_L2 => "event_report_l2"
  end.

Definition ToDataStorageType (type : string) : DataStorageType :=
  if bool_decide (type = "hf3fs") then DATA_STORAGE_TYPE_HF3FS
  else if bool_decide (type = "vcns_hf3fs") then DATA_STORAGE_TYPE_VCNS_HF3FS
  else if bool_decide (type = "mooncake") then DATA_STORAGE_TYPE_MOONCAKE
  else if bool_decide (type = "pace") then DATA_STORAGE_TYPE_TAIR_MEMPOOL
  else if bool_decide (type = "pace_ssd") then DATA_STORAGE_TYPE_TAIR_MEMPOOL_SSD
  else if bool_decide (type = "file") then DATA_STORAGE_TYPE_NFS
  else if bool_decide (type = "dummy") then DATA_STORAGE_TYPE_DUMMY
  else if bool_decide (type = "event_report_l1p5") then DATA_STORAGE_TYPE_EVENT_REPORT_L1P5
  else if bool_decide (type = "event_report_l2") then DATA_STORAGE_TYPE_EVENT_REPORT_L2
  else DATA_STORAGE_TYPE_UNKNOWN.

Definition ToBaseType (type : DataStorageType) : DataStorageType :=
  if bool_decide (type = DATA_STORAGE_TYPE_VCNS_HF3FS) then DATA_STORAGE_TYPE_HF3FS
  else type.

Lemma ToIndex_lt type : ToIndex type < storage_type_COUNT.
Proof. destruct type; unfold storage_type_COUNT; simpl; lia. Qed.

Lemma all_storage_types_lookup type : all_storage_types !! ToIndex type = Some type.
Proof. by destruct type. Qed.

#[global] Instance ToIndex_inj : Inj (=) (=) ToIndex.
Proof.
  intros x y H. pose proof (all_storage_types_lookup x) as Hx.
  rewrite H, all_storage_types_lookup in Hx. by simplify_eq.
Qed.

Lemma ToDataStorageType_ToString type : ToDataStorageType (storage_type_ToString type) = type.
Proof. by destruct type. Qed.

#[export] Hint Resolve ToIndex_lt : kvcm.

(** ** Cache locations *)

Abbreviation LocationId := string.

Record LocationSpec := mkLocationSpec { name : string; uri : string }.

#[global] Instance LocationSpec_eq_dec : EqDecision LocationSpec.
Proof. solve_decision. Defined.

Inductive CacheLocationStatus :=
  | CLS_NOT_FOUND | CLS_NEW | CLS_WRITING | CLS_SERVING | CLS_DELETING.

#[global] Instance CacheLocationStatus_eq_dec : EqDecision CacheLocationStatus.
Proof. solve_decision. Defined.

Record CacheLocation := mkCacheLocation {
  id : LocationId;
  status : CacheLocationStatus;
  type : DataStorageType;
  spec_size : Z;
  create_time : Z;
  location_specs : list LocationSpec;
  validated_total_size : Z;
}.

#[global] Instance CacheLocation_eq_dec : EqDecision CacheLocation.
Proof. solve_decision. Defined.

Definition kUnknownValidatedTotalSize : Z := u64_max.

(** The default constructor. *)
Definition empty_location : CacheLocation :=
  mkCacheLocation "" CLS_NEW DATA_STORAGE_TYPE_UNKNOWN 0 0 [] kUnknownValidatedTotalSize.

(** [CacheLocation(id, status, type, spec_size, location_specs)]. *)
Definition make_location (id : LocationId) (status : CacheLocationStatus)
    (type : DataStorageType) (spec_size : Z) (specs : list LocationSpec) : CacheLocation :=
  mkCacheLocation id status type spec_size 0 specs kUnknownValidatedTotalSize.

Definition set_status (s : CacheLocationStatus) (l : CacheLocation) : CacheLocation :=
  mkCacheLocation (id l) s (type l) (spec_size l) (create_time l) (location_specs l)
    (validated_total_size l).

Definition set_id (i : LocationId) (l : CacheLocation) : CacheLocation :=
  mkCacheLocation i (status l) (type l) (spec_size l) (create_time l) (location_specs l)
    (validated_total_size l).

Definition set_create_time (t : Z) (l : CacheLocation) : CacheLocation :=
  mkCacheLocation (id l) (status l) (type l) (spec_size l) t (location_specs l)
    (validated_total_size l).

(** Every mutator of the specs forgets the validated size. *)
Definition set_location_specs (specs : list LocationSpec) (l : CacheLocation) : CacheLocation :=
  mkCacheLocation (id l) (status l) (type l) (spec_size l) (create_time l) specs
    kUnknownValidatedTotalSize.

Definition push_location_spec (s : LocationSpec) (l : CacheLocation) : CacheLocation :=
  set_location_specs (location_specs l ++ [s]) l.

Definition HasValidatedLocationSpecs (l : CacheLocation) : bool :=
  negb (validated_total_size l =? kUnknownValidatedTotalSize)%Z.

Definition GetValidatedTotalSize (l : CacheLocation) : option Z :=
  if (validated_total_size l =? kUnknownValidatedTotalSize)%Z then None
  else Some (validated_total_size l).

(** A shared pointer to a constant location. *)
Abbreviation CacheLocationConstPtr := (option CacheLocation).

(** [std::unordered_map<LocationId, CacheLocationConstPtr>]. *)
Abbreviation CacheLocationMap := (gmap string (option CacheLocation)).

Abbreviation KeyType := Z.
Abbreviation PropertyMap := (gmap string string).

Inductive ModifierAction := MA_OK | MA_FAIL | MA_SKIP | MA_DELETE.

#[global] Instance ModifierAction_eq_dec : EqDecision ModifierAction.
Proof. solve_decision. Defined.

(** ** Block masks *)

Inductive BlockMask :=
  | BlockMaskVector (mask : list bool)
  | BlockMaskOffset (offset : nat).

Definition IsIndexInMaskRange (mask : BlockMask) (index : nat) : bool :=
  match mask with
  | BlockMaskVector v =>
      if (index <? length v)%nat then default false (v !! index) else false
  | BlockMaskOffset o => (index <? o)%nat
  end.

Definition IsBlockMaskValid (mask : BlockMask) (size : nat) : bool :=
  match mask with
  | BlockMaskVector v => (length v =? size)%nat
  | BlockMaskOffset o => (o <=? size)%nat
  end.

(** The bit vector a mask stands for on [size] blocks. *)
Definition mask_bits (mask : BlockMask) (size : nat) : list bool :=
  match mask with
  | BlockMaskVector v => v
  | BlockMaskOffset o => replicate o true ++ replicate (size - o) false
  end.

Lemma mask_bits_spec mask size :
  IsBlockMaskValid mask size = true ->
  length (mask_bits mask size) = size /\
  forall i, IsIndexInMaskRange mask i = default false (mask_bits mask size !! i).
Proof.
  destruct mask as [v|o]; simpl; intros H.
  - apply Nat.eqb_eq in H. split; [done|]. intros i.
    destruct (Nat.ltb_spec i (length v)); [done|]. by rewrite lookup_ge_None_2.
  - apply Nat.leb_le in H. rewrite length_app, !length_replicate. split; [lia|]. intros i.
    destruct (Nat.ltb_spec i o).
    + rewrite lookup_app_l by (by rewrite length_replicate). by rewrite lookup_replicate_2.
    + rewrite lookup_app_r by (rewrite length_replicate; lia). rewrite length_replicate.
      destruct (replicate (size - o) false !! (i - o)) eqn:E; [|done].
      by apply lookup_replicate in E as [-> _].
Qed.

(** ** CompactLocationsPerKey *)

Record CompactLocationsPerKey := mkCompact {
  offsets : list nat;
  values : list CacheLocationConstPtr;
}.

Definition compact_Clear : CompactLocationsPerKey := mkCompact [0] [].

Definition compact_size (c : CompactLocationsPerKey) : nat :=
  if bool_decide (offsets c = []) then 0 else length (offsets c) - 1.

Fixpoint nondecreasing (l : list nat) : bool :=
  match l with
  | a :: ((b :: _) as l') => negb (b <? a)%nat && nondecreasing l'
  | _ => true
  end.

Definition compact_IsValid (expected_key_count : nat) (c : CompactLocationsPerKey) : bool :=
  if negb (length (offsets c) =? expected_key_count + 1)%nat
     || bool_decide (offsets c = [])
     || negb (bool_decide (head (offsets c) = Some 0))
     || negb (bool_decide (last (offsets c) = Some (length (values c))))
  then false else nondecreasing (offsets c).

(** [operator[]]: the values between two consecutive offsets. *)
Definition compact_at (c : CompactLocationsPerKey) (index : nat)
    : list CacheLocationConstPtr :=
  let b := default 0 (offsets c !! index) in
  let e := default 0 (offsets c !! (index + 1)) in
  take (e - b) (drop b (values c)).

Definition compact_push (p : CacheLocationConstPtr) (c : CompactLocationsPerKey) :=
  mkCompact (offsets c) (values c ++ [p]).

Definition FinishKey (c : CompactLocationsPerKey) : CompactLocationsPerKey :=
  mkCompact (offsets c ++ [length (values c)]) (values c).

(** Building a table key by key, the way every backend fills it. *)
Definition compact_add_key (c : CompactLocationsPerKey) (ps : list CacheLocationConstPtr) :=
  FinishKey (foldl (fun c p => compact_push p c) c ps).

Definition compact_build (rows : list (list CacheLocationConstPtr)) :=
  foldl compact_add_key compact_Clear rows.

Lemma compact_push_all ps c :
  foldl (fun c p => compact_push p c) c ps = mkCompact (offsets c) (values c ++ ps).
Proof.
  revert c. induction ps as [|p ps IH]; intros [o v]; simpl; [by rewrite app_nil_r|].
  rewrite IH. simpl. by rewrite <-app_assoc.
Qed.

Lemma compact_build_snoc rows row :
  compact_build (rows ++ [row]) =
  mkCompact (offsets (compact_build rows) ++ [length (values (compact_build rows) ++ row)])
    (values (compact_build rows) ++ row).
Proof.
  unfold compact_build at 1. rewrite foldl_app. simpl. unfold compact_add_key.
  by rewrite compact_push_all.
Qed.

Lemma nondecreasing_snoc l x y :
  last l = Some x -> x <= y -> nondecreasing l = true -> nondecreasing (l ++ [y]) = true.
Proof.
  induction l as [|a [|b l] IH]; intros Hl Hxy Hn; [done| |].
  - simplify_eq/=. rewrite andb_true_r, negb_true_iff. by apply Nat.ltb_ge.
  - cbn [app nondecreasing] in *. apply andb_true_iff in Hn as [H1 H2].
    rewrite H1. simpl. by apply IH.
Qed.

Lemma compact_build_spec rows :
  let c := compact_build rows in
  length (offsets c) = length rows + 1 /\ head (offsets c) = Some 0 /\
  last (offsets c) = Some (length (values c)) /\ nondecreasing (offsets c) = true /\
  values c = concat rows /\
  forall i row, rows !! i = Some row ->
    exists b, offsets c !! i = Some b /\ offsets c !! (i + 1) = Some (b + length row) /\
      take (length row) (drop b (values c)) = row.
Proof.
  induction rows as [|row rows IH] using rev_ind.
  { simpl. split_and!; try done. }
  rewrite compact_build_snoc. simpl in IH |- *.
  destruct IH as (Hlen & Hhd & Hlast & Hnd & Hv & Hrow).
  set (c := compact_build rows) in *. rewrite length_app. simpl. split_and!.
  - rewrite length_app. simpl. lia.
  - by destruct (offsets c).
  - by rewrite last_snoc.
  - eapply nondecreasing_snoc; [done| |done]. rewrite length_app. lia.
  - rewrite Hv, concat_app. simpl. by rewrite app_nil_r.
  - intros i r. destruct (decide (i < length rows)) as [Hi|Hi].
    + rewrite lookup_app_l by done. intros Hr. destruct (Hrow i r Hr) as (b & Hb1 & Hb2 & Ht).
      exists b. assert (drop b (values c ++ row) = drop b (values c) ++ row ∨ length (values c) < b) as Hd.
      { destruct (decide (b <= length (values c))); [left; by apply drop_app_le|right; lia]. }
      split_and!.
      * rewrite lookup_app_l; [done|]. apply lookup_lt_Some in Hb1. done.
      * rewrite lookup_app_l; [done|]. apply lookup_lt_Some in Hb2. done.
      * destruct Hd as [->|Hd].
        -- rewrite take_app_le; [done|]. rewrite <-Ht at 1. rewrite length_take. lia.
        -- rewrite drop_ge in Ht by lia. rewrite take_nil in Ht. subst r. by rewrite take_0.
    + intros Hr. apply lookup_lt_Some in Hr as Hi'. rewrite length_app in Hi'. simpl in Hi'.
      assert (i = length rows) as -> by lia. rewrite list_lookup_middle in Hr by done.
      simplify_eq. exists (length (values c)). split_and!.
      * rewrite lookup_app_l by lia. rewrite last_lookup in Hlast.
        by replace (length rows) with (pred (length (offsets c))) by lia.
      * rewrite lookup_app_r by lia. rewrite Hlen, Nat.sub_diag. simpl. by rewrite length_app.
      * rewrite drop_app_length. by rewrite firstn_all.
Qed.

(** The compact location table keeps the positional contract of one vector
    per key: filling it key by key, a push per location and [FinishKey] per
    key, gives a table [IsValid] accepts and whose [operator[]] at every index
    is exactly the locations of that key, in order. *)
Theorem compact_positional rows :
  compact_IsValid (length rows) (compact_build rows) = true /\
  compact_size (compact_build rows) = length rows /\
  forall i, i < length rows -> rows !! i = Some (compact_at (compact_build rows) i).
Proof.
  destruct (compact_build_spec rows) as (Hlen & Hhd & Hlast & Hnd & _ & Hrow).
  assert (Hne : offsets (compact_build rows) <> []) by (by intros E; rewrite E in Hhd).
  split_and!.
  - unfold compact_IsValid. rewrite Hlen, Nat.eqb_refl, bool_decide_eq_false_2 by done.
    rewrite !bool_decide_eq_true_2 by done. done.
  - unfold compact_size. rewrite bool_decide_eq_false_2 by done. rewrite Hlen. lia.
  - intros i Hi. destruct (lookup_lt_is_Some_2 rows i Hi) as [row Hr]. rewrite Hr.
    destruct (Hrow i row Hr) as (b & Hb1 & Hb2 & Ht). unfold compact_at. rewrite Hb1, Hb2. simpl.
    replace (b + length row - b) with (length row) by lia. by rewrite Ht.
Qed.
