(* ===== verification/SnapshotUri.v ===== *)
(** * SnapshotUri: generation tokens inside location URIs

    Models [data_storage/snapshot_uri_utils.h], and the validation of a
    reported location spec that uses it ([ValidateEventLocationSpec] and
    [AddPrevalidatedSnapshotVersion] of [manager/cache_manager.cc]).  A reporter
    sends plain URIs; the manager appends the snapshot generation they belong to
    as the query parameter [s_version], reads it back when it decides whether a
    location is visible, and identifies the reporter by the location id
    [kvs#<type>#<medium>#<host>].

    The source has two implementations of most of this: one over the parsed
    [StandardUri], one that scans the text in place.  The theorems relate them. *)

From stdpp Require Import base gmap sets list strings.
From Stdlib Require Import ZArith Lia Ascii.
From S2P Require Import Prelude StandardUri.

Local Open Scope char_scope.

(** ** Tokens and components *)

Definition kSnapshotVersionParam : chars := chars_of "s_version".

Definition IsValidLocationIdComponent (value : chars) : bool :=
  negb (bool_decide (value = [])) && bool_decide (find_char "#" value 0 = None).

Definition IsAsciiHexDigit (ch : ascii) : bool :=
  let n := N_of_ascii ch in
  ((N_of_ascii "0" <=? n) && (n <=? N_of_ascii "9"))%N
  || ((N_of_ascii "a" <=? n) && (n <=? N_of_ascii "f"))%N
  || ((N_of_ascii "A" <=? n) && (n <=? N_of_ascii "F"))%N.

Definition IsValidSnapshotVersionToken (version : chars) : bool :=
  bool_decide (length version = 32) && forallb IsAsciiHexDigit version.

(** The loop of [ParseDecimalUint64] from [value]. *)
Fixpoint ParseDecimalUint64_loop (limit value : Z) (text : chars) : option Z :=
  match text with
  | [] => Some value
  | ch :: text =>
      if negb (is_digit ch) then None
      else
        let digit := digit_val ch in
        if ((limit - digit) / 10 <? value)%Z then None
        else ParseDecimalUint64_loop limit (value * 10 + digit)%Z text
  end.

Definition ParseDecimalUint64 (text : chars) (limit : Z) : option Z :=
  match text with
  | [] => None
  | _ => ParseDecimalUint64_loop limit 0 text
  end.

(** ** Scanning the query in place

    The loops below visit the ['&']-separated fields of the text from [begin]
    on; [field_end] and [key_end] are the positions they compute. *)

Definition field_end (uri_text : chars) (begin : nat) : nat :=
  default (length uri_text) (find_char "&" uri_text begin).

Definition field_key_end (uri_text : chars) (begin end_ : nat) : nat :=
  match find_char "=" uri_text begin with
  | Some equals => if (equals <? end_)%nat then equals else end_
  | None => end_
  end.

Fixpoint CountUriParam_loop (fuel : nat) (uri_text key : chars) (begin count : nat) : nat :=
  match fuel with
  | 0 => count
  | S fuel =>
      if (begin <=? length uri_text)%nat then
        let end_ := field_end uri_text begin in
        let key_end := field_key_end uri_text begin end_ in
        let count :=
          if bool_decide (substr uri_text begin (key_end - begin) = key)
             && (key_end - begin =? length key)%nat
          then S count else count in
        if (end_ =? length uri_text)%nat then count
        else CountUriParam_loop fuel uri_text key (end_ + 1) count
      else count
  end.

Definition CountUriParam (uri_text key : chars) : nat :=
  match find_char "?" uri_text 0 with
  | None => 0
  | Some query_begin =>
      CountUriParam_loop (S (length uri_text)) uri_text key (query_begin + 1) 0
  end.

(** The query loop of [InspectSnapshotUriForVisibility]: [None] when it returns
    false, otherwise the version found, if any. *)
Fixpoint inspect_loop (fuel : nat) (uri_text : chars) (begin : nat) (found : option chars)
    : option (option chars) :=
  match fuel with
  | 0 => None
  | S fuel =>
      if (begin <=? length uri_text)%nat then
        let end_ := field_end uri_text begin in
        let equals := find_char "=" uri_text begin in
        let key_end := field_key_end uri_text begin end_ in
        let next found :=
          if (end_ =? length uri_text)%nat then Some found
          else inspect_loop fuel uri_text (end_ + 1) found in
        if (key_end - begin =? length kSnapshotVersionParam)%nat
           && bool_decide (substr uri_text begin (length kSnapshotVersionParam) = kSnapshotVersionParam)
        then
          match found, equals with
          | None, Some equals =>
              if (end_ <=? equals)%nat then None
              else next (Some (substr uri_text (equals + 1) (end_ - equals - 1)))
          | _, _ => None
          end
        else next found
      else Some found
  end.

(** The host and port check both in-place scanners share: [None] when a textual
    port is malformed, otherwise the text of the port. *)
Definition scan_port (uri_text : chars) (host_begin authority_end : nat) : option chars :=
  match find_char ":" uri_text host_begin with
  | Some port_separator =>
      if (port_separator <? authority_end)%nat
      then Some (substr uri_text (port_separator + 1) (authority_end - port_separator - 1))
      else None
  | None => None
  end.

(** [InspectSnapshotUriForVisibility]: [None] is the result false, [Some v]
    true with [out_version = v]. *)
Definition InspectSnapshotUriForVisibility (uri_text : chars) (uri_structure_prevalidated : bool)
    : option chars :=
  match find_sub (chars_of "://") uri_text with
  | None | Some 0 => None
  | Some protocol_end =>
      let authority_begin := protocol_end + 3 in
      let query_begin := find_char "?" uri_text 0 in
      if (match query_begin with Some q => (q <? authority_begin)%nat | None => false end) then None
      else
        let path_begin := find_char "/" uri_text authority_begin in
        let authority_end := Nat.min (default (length uri_text) path_begin)
                               (default (length uri_text) query_begin) in
        let host_begin :=
          match find_char "@" uri_text authority_begin with
          | Some user_info_end =>
              if (user_info_end <? authority_end)%nat then user_info_end + 1 else authority_begin
          | None => authority_begin
          end in
        let port_ok :=
          match scan_port uri_text host_begin authority_end with
          | None => true
          | Some port_text => bool_decide (is_Some (ParseDecimalUint64 port_text (2 ^ 63 - 1)))
          end in
        if negb uri_structure_prevalidated && negb port_ok then None
        else
          match query_begin with
          | None => Some []
          | Some q =>
              match inspect_loop (S (length uri_text)) uri_text (q + 1) None with
              | None => None
              | Some None => Some []
              | Some (Some v) => if IsValidSnapshotVersionToken v then Some v else None
              end
          end
  end.

(** ** The canonical-form fast path *)

Record CanonicalSnapshotUriAppendInfo := mkAppendInfo {
  insertion_offset : nat;
  size : Z;
  has_query : bool;
}.

(** The query loop of [ParseCanonicalUriForSnapshotAppend]: [None] when it
    returns false, otherwise the final insertion offset and size. *)
Fixpoint canonical_loop (fuel : nat) (uri : chars) (param_start : nat) (previous_key : option chars)
    (offset : nat) (sz : Z) : option (nat * Z) :=
  match fuel with
  | 0 => None
  | S fuel =>
      if (param_start <? length uri)%nat then
        let param_end := field_end uri param_start in
        match find_char "=" uri param_start with
        | None => None
        | Some equals =>
            if (param_end <=? equals)%nat then None
            else
              let key := substr uri param_start (equals - param_start) in
              let value := substr uri (equals + 1) (param_end - equals - 1) in
              if (match previous_key with Some p => negb (chars_ltb p key) | None => false end)
                 || bool_decide (key = kSnapshotVersionParam) then None
              else
                let offset :=
                  if (offset =? length uri)%nat && chars_ltb kSnapshotVersionParam key
                  then param_start else offset in
                let sz :=
                  if bool_decide (key = chars_of "size")
                  then default sz (ParseDecimalUint64 value u64_max) else sz in
                if (param_end =? length uri)%nat then Some (offset, sz)
                else if (param_end + 1 =? length uri)%nat then None
                else canonical_loop fuel uri (param_end + 1) (Some key) offset sz
        end
      else Some (offset, sz)
  end.

Definition ParseCanonicalUriForSnapshotAppend (uri : chars) : option CanonicalSnapshotUriAppendInfo :=
  match find_sub (chars_of "://") uri with
  | None | Some 0 => None
  | Some protocol_end =>
      let authority_start := protocol_end + 3 in
      let path_start := find_char "/" uri authority_start in
      let query_start := find_char "?" uri authority_start in
      if (match path_start, query_start with Some p, Some q => (q <? p)%nat | _, _ => false end) then None
      else
        let host_end := Nat.min (default (length uri) path_start) (default (length uri) query_start) in
        match (match find_char "@" uri authority_start with
               | Some user_info_end =>
                   if (user_info_end <? host_end)%nat
                   then if (user_info_end =? authority_start)%nat then None else Some (user_info_end + 1)
                   else Some authority_start
               | None => Some authority_start
               end) with
        | None => None
        | Some host_start =>
            let port_ok :=
              match scan_port uri host_start host_end with
              | None => true
              | Some port_text =>
                  match port_text with
                  | [] | "0" :: _ => false
                  | _ => bool_decide (is_Some (ParseDecimalUint64 port_text (2 ^ 63 - 1)))
                  end
              end in
            if negb port_ok then None
            else
              match query_start with
              | None => Some (mkAppendInfo (length uri) 0 false)
              | Some q =>
                  if (q + 1 =? length uri)%nat then None
                  else
                    '(offset, sz) ← canonical_loop (S (length uri)) uri (q + 1) None (length uri) 0;
                    Some (mkAppendInfo offset sz true)
              end
        end
  end.

Definition AddPrevalidatedSnapshotVersionToCanonicalUri (uri : chars)
    (info : CanonicalSnapshotUriAppendInfo) (version : chars) : option chars :=
  if (length uri <? insertion_offset info)%nat then None
  else if (insertion_offset info =? length uri)%nat then
    Some (uri ++ (if has_query info then "&" else "?") :: kSnapshotVersionParam ++ "=" :: version)
  else
    Some (take (insertion_offset info) uri ++ kSnapshotVersionParam ++ "=" :: version
          ++ "&" :: drop (insertion_offset info) uri).

Definition AddSnapshotVersionToCanonicalUri (uri : chars)
    (info : CanonicalSnapshotUriAppendInfo) (version : chars) : option chars :=
  if negb (IsValidSnapshotVersionToken version) then None
  else AddPrevalidatedSnapshotVersionToCanonicalUri uri info version.

(** ** The parsed-URI path *)

Definition HasEventReportInternalUriMetadata (uri : StandardUri) : bool :=
  HasParam kSnapshotVersionParam uri.

(** [ParseSnapshotUriInfo] of a parsed URI, and of a text. *)
Definition ParseSnapshotUriInfo (uri : StandardUri) : option chars :=
  if negb (Valid uri) then None
  else
    let version := GetParam kSnapshotVersionParam uri in
    if IsValidSnapshotVersionToken version then Some version else None.

Definition ParseSnapshotUriInfo_text (uri_text : chars) : option chars :=
  if negb (CountUriParam uri_text kSnapshotVersionParam =? 1)%nat then None
  else ParseSnapshotUriInfo (Parse uri_text).1.

(** [AddSnapshotVersionToUri] of a parsed URI, and of a text. *)
Definition AddSnapshotVersionToUri (uri : StandardUri) (version : chars) : option chars :=
  if negb (Valid uri) || negb (IsValidSnapshotVersionToken version)
     || HasEventReportInternalUriMetadata uri then None
  else
    let out_uri := ToUriStringWithExtraParam kSnapshotVersionParam version uri in
    if bool_decide (out_uri = []) then None else Some out_uri.

Definition AddSnapshotVersionToUri_text (raw_uri version : chars) : option chars :=
  let uri := (Parse raw_uri).1 in
  if negb (Valid uri) || negb (IsValidSnapshotVersionToken version)
     || negb (CountUriParam raw_uri kSnapshotVersionParam =? 0)%nat then None
  else AddSnapshotVersionToUri uri version.

(** ** Reported location specs *)

(** [ValidatedEventLocationSpec]: the canonical form or the parsed fallback. *)
Inductive ValidatedEventLocationSpec :=
  | CanonicalSpec (name raw_uri : chars) (info : CanonicalSnapshotUriAppendInfo)
  | ParsedSpec (name : chars) (parsed_uri : StandardUri) (spec_size : Z).

Definition validated_size (s : ValidatedEventLocationSpec) : Z :=
  match s with
  | CanonicalSpec _ _ info => size info
  | ParsedSpec _ _ sz => sz
  end.

Definition ValidateEventLocationSpec (name uri : chars) : option ValidatedEventLocationSpec :=
  if bool_decide (name = []) then None
  else
    match ParseCanonicalUriForSnapshotAppend uri with
    | Some info => Some (CanonicalSpec name uri info)
    | None =>
        let parsed_uri := (Parse uri).1 in
        if negb (Valid parsed_uri) || HasEventReportInternalUriMetadata parsed_uri then None
        else Some (ParsedSpec name parsed_uri (GetParamAs_u64 (chars_of "size") parsed_uri 0))
    end.

Definition AddPrevalidatedSnapshotVersion (s : ValidatedEventLocationSpec) (version : chars) : option chars :=
  match s with
  | CanonicalSpec _ raw_uri info => AddPrevalidatedSnapshotVersionToCanonicalUri raw_uri info version
  | ParsedSpec _ parsed_uri _ =>
      let versioned_uri := ToUriStringWithExtraParam kSnapshotVersionParam version parsed_uri in
      if bool_decide (versioned_uri = []) then None else Some versioned_uri
  end.

(** ** Location ids *)

(** [ParseEventReportLocationIdView]: storage type, medium and host. *)
Definition ParseEventReportLocationIdView (location_id : chars) : option (chars * chars * chars) :=
  let root_prefix := chars_of "kvs#" in
  let root_prefix_size := length root_prefix in
  if (length location_id <=? root_prefix_size)%nat
     || negb (bool_decide (substr location_id 0 root_prefix_size = root_prefix)) then None
  else
    match find_char "#" location_id root_prefix_size with
    | None => None
    | Some type_end =>
        if (type_end =? root_prefix_size)%nat then None
        else
          let storage_type := substr location_id root_prefix_size (type_end - root_prefix_size) in
          if negb (bool_decide (storage_type = chars_of "event_report_l1p5"))
             && negb (bool_decide (storage_type = chars_of "event_report_l2")) then None
          else
            let medium_begin := type_end + 1 in
            match find_char "#" location_id medium_begin with
            | None => None
            | Some separator =>
                if (separator =? medium_begin)%nat || (length location_id <=? separator + 1)%nat then None
                else
                  let medium := substr location_id medium_begin (separator - medium_begin) in
                  let host_ip_port := drop (separator + 1) location_id in
                  if bool_decide (host_ip_port = []) || negb (bool_decide (find_char "#" host_ip_port 0 = None))
                  then None else Some (storage_type, medium, host_ip_port)
            end
    end.

Example canonical_ex :
  ParseCanonicalUriForSnapshotAppend (chars_of "hf3fs://me@h:80/a?blkid=3&size=16&t=1") =
    Some (mkAppendInfo 26 16 true) /\
  ParseCanonicalUriForSnapshotAppend (chars_of "hf3fs://h/a?size=16&blkid=3") = None /\
  ParseEventReportLocationIdView (chars_of "kvs#event_report_l2#gpu#h:1") =
    Some (chars_of "event_report_l2", chars_of "gpu", chars_of "h:1").
Proof. vm_compute. done. Qed.

(** ** Lemmas: the fields of a query

    Every scanner is described by what it does on the list of ['&']-separated
    fields of the text it reads. *)

Fixpoint split_on (c : ascii) (s : chars) : list chars :=
  match s with
  | [] => [[]]
  | x :: s =>
      if bool_decide (x = c) then [] :: split_on c s
      else match split_on c s with f :: fs => (x :: f) :: fs | [] => [[x]] end
  end.

Lemma split_on_free c f : c ∉ f -> split_on c f = [f].
Proof.
  induction f as [|x f IH]; intros Hc; simpl; [done|].
  rewrite bool_decide_eq_false_2 by set_solver. rewrite IH by set_solver. done.
Qed.

Lemma split_on_sep c f tl : c ∉ f -> split_on c (f ++ c :: tl) = f :: split_on c tl.
Proof.
  induction f as [|x f IH]; intros Hc; simpl.
  - by rewrite bool_decide_eq_true_2.
  - rewrite bool_decide_eq_false_2 by set_solver. rewrite IH by set_solver. done.
Qed.

(** The first occurrence of a separator splits the text. *)
Lemma first_sep c (s : chars) : c ∉ s \/ exists f tl, s = f ++ c :: tl /\ c ∉ f.
Proof.
  induction s as [|x s IH]; [left; set_solver|].
  destruct (decide (x = c)) as [->|Hne]; [right; exists [], s; split; [done|set_solver]|].
  destruct IH as [IH|(f & tl & -> & Hf)]; [left; set_solver|].
  right. exists (x :: f), tl. split; [done|set_solver].
Qed.

(** Key and value of one field: no value when the field has no ['=']. *)
Definition field_kv (f : chars) : chars * option chars :=
  match pos_of "=" f with
  | Some p => (take p f, Some (drop (p + 1) f))
  | None => (f, None)
  end.

Lemma field_kv_eq k v : "=" ∉ k -> field_kv (k ++ "=" :: v) = (k, Some v).
Proof.
  intros Hk. unfold field_kv. rewrite pos_of_here by done. rewrite take_app_length. do 2 f_equal.
  replace (k ++ "=" :: v) with ((k ++ ["="]) ++ v) by (by rewrite <-app_assoc).
  apply drop_app_length'. rewrite length_app. simpl. lia.
Qed.

Lemma field_kv_none f : "=" ∉ f -> field_kv f = (f, None).
Proof. intros Hf. unfold field_kv. by rewrite pos_of_None. Qed.

Section scan.
Context (pre f tl : chars).
Let uri := pre ++ f ++ tl.

Lemma field_key_end_at : field_key_end uri (length pre) (length pre + length f) =
  length pre + length (field_kv f).1.
Proof.
  unfold field_key_end, uri. rewrite find_char_app by done.
  destruct (first_sep "=" f) as [Hk|(k & v & -> & Hk)].
  - rewrite field_kv_none, pos_of_app by done. simpl.
    destruct (pos_of "=" tl) as [q|] eqn:E; simpl; [|done].
    destruct (Nat.ltb_spec (length pre + (length f + q)) (length pre + length f)); [lia|done].
  - rewrite field_kv_eq, <-app_assoc by done. cbn [app]. rewrite pos_of_here by done. simpl.
    rewrite length_app. simpl.
    destruct (Nat.ltb_spec (length pre + length k) (length pre + (length k + S (length v)))); [done|lia].
Qed.

Lemma field_key_at :
  substr uri (length pre) (length (field_kv f).1) = (field_kv f).1.
Proof.
  unfold uri. destruct (first_sep "=" f) as [Hk|(k & v & -> & Hk)].
  - rewrite field_kv_none by done. by apply substr_mid.
  - rewrite field_kv_eq, <-app_assoc by done. by apply substr_mid.
Qed.

(** Where the first ['='] from the field's start lies. *)
Lemma field_equals_at :
  match (field_kv f).2 with
  | Some v => find_char "=" uri (length pre) = Some (length pre + length (field_kv f).1) /\
      length f = length (field_kv f).1 + 1 + length v /\
      substr uri (length pre + length (field_kv f).1 + 1) (length v) = v
  | None => forall e, find_char "=" uri (length pre) = Some e -> length pre + length f <= e
  end.
Proof.
  unfold uri. rewrite find_char_app by done. destruct (first_sep "=" f) as [Hk|(k & v & -> & Hk)].
  - rewrite field_kv_none by done. simpl. rewrite pos_of_app by done.
    intros e He. destruct (pos_of "=" tl); simplify_eq/=. lia.
  - rewrite field_kv_eq, <-app_assoc by done. cbn [fst snd app]. rewrite pos_of_here by done.
    split_and!; [done|rewrite length_app; simpl; lia|].
    replace (pre ++ k ++ "=" :: v ++ tl) with ((pre ++ k ++ ["="]) ++ v ++ tl)
      by (by rewrite <-!app_assoc).
    apply substr_mid; rewrite ?length_app; simpl; lia.
Qed.

Lemma field_last_at : (length pre + length f =? length uri)%nat = bool_decide (tl = []).
Proof.
  unfold uri. rewrite !length_app. case_bool_decide as E.
  - rewrite E. apply Nat.eqb_eq. simpl. lia.
  - apply Nat.eqb_neq. destruct tl; [done|]. simpl. lia.
Qed.

Hypothesis Hf : "&" ∉ f.
Hypothesis Htl : tl = [] \/ exists tl', tl = "&" :: tl'.

Lemma field_end_at : field_end uri (length pre) = length pre + length f.
Proof.
  unfold field_end, uri. rewrite find_char_app by done. destruct Htl as [->|(tl' & ->)].
  - rewrite app_nil_r, pos_of_None by done. simpl. by rewrite length_app.
  - by rewrite pos_of_here.
Qed.

End scan.

(** The next field of the text at [length pre]. *)
Lemma next_field (rest : chars) :
  ("&" ∉ rest /\ split_on "&" rest = [rest]) \/
  exists f tl, rest = f ++ "&" :: tl /\ "&" ∉ f /\ split_on "&" rest = f :: split_on "&" tl.
Proof.
  destruct (first_sep "&" rest) as [H|(f & tl & -> & H)].
  - left. split; [done|by apply split_on_free].
  - right. exists f, tl. split_and!; [done|done|by apply split_on_sep].
Qed.

Lemma CountUriParam_loop_spec fuel pre rest key count :
  length rest < fuel ->
  CountUriParam_loop fuel (pre ++ rest) key (length pre) count =
  count + length (filter (fun f => (field_kv f).1 = key) (split_on "&" rest)).
Proof.
  revert pre rest count. induction fuel as [|fuel IH]; intros pre rest count Hfuel; [lia|].
  cbn [CountUriParam_loop].
  destruct (Nat.leb_spec (length pre) (length (pre ++ rest))); [|rewrite length_app in *; lia].
  assert (Hstep : forall f tl, rest = f ++ tl -> "&" ∉ f -> tl = [] \/ (exists tl', tl = "&" :: tl') ->
    field_end (pre ++ rest) (length pre) = length pre + length f /\
    (bool_decide (substr (pre ++ rest) (length pre)
       (field_key_end (pre ++ rest) (length pre) (length pre + length f) - length pre) = key)
     && (field_key_end (pre ++ rest) (length pre) (length pre + length f) - length pre =? length key)%nat)
    = bool_decide ((field_kv f).1 = key)).
  { intros f tl -> Hf Htl. rewrite field_end_at, field_key_end_at by done. split; [done|].
    replace (length pre + length (field_kv f).1 - length pre) with (length (field_kv f).1) by lia.
    rewrite field_key_at by done. case_bool_decide as E; [|done]. rewrite E. by rewrite Nat.eqb_refl. }
  destruct (next_field rest) as [[Hf Hs]|(f & tl & Hr & Hf & Hs)]; rewrite Hs.
  - destruct (Hstep rest []) as [He Hk]; [by rewrite app_nil_r|done|by left|].
    cbv zeta. rewrite He, Hk. replace (length pre + length rest) with (length (pre ++ rest)) by apply length_app.
    rewrite Nat.eqb_refl. rewrite filter_cons, filter_nil. case_bool_decide; case_decide; simpl; try done; lia.
  - destruct (Hstep f ("&" :: tl)) as [He Hk]; [done|done|eauto|]. cbv zeta. rewrite He, Hk.
    assert (Hl : (length pre + length f =? length (pre ++ rest))%nat = false).
    { apply Nat.eqb_neq. rewrite Hr, !length_app. simpl. lia. }
    rewrite Hl. subst rest.
    replace (pre ++ f ++ "&" :: tl) with ((pre ++ f ++ ["&"]) ++ tl) by (by rewrite <-!app_assoc).
    replace (length pre + length f + 1) with (length (pre ++ f ++ ["&"])) by (rewrite !length_app; simpl; lia).
    rewrite IH by (rewrite length_app in Hfuel; simpl in Hfuel; lia).
    rewrite filter_cons. case_bool_decide; case_decide; simpl; try done; lia.
Qed.

(** The position after a field and its separator. *)
Lemma advance (pre f tl : chars) :
  pre ++ f ++ "&" :: tl = (pre ++ f ++ ["&"]) ++ tl /\
  length pre + length f + 1 = length (pre ++ f ++ ["&"]).
Proof. split; [by rewrite <-!app_assoc|rewrite !length_app; simpl; lia]. Qed.

(** What [inspect_loop] computes, on fields. *)
Fixpoint inspect_fields (fs : list chars) (found : option chars) : option (option chars) :=
  match fs with
  | [] => Some found
  | f :: fs =>
      if bool_decide ((field_kv f).1 = kSnapshotVersionParam) then
        match found, (field_kv f).2 with
        | None, Some v => inspect_fields fs (Some v)
        | _, _ => None
        end
      else inspect_fields fs found
  end.

Lemma inspect_step fuel pre f tl found :
  "&" ∉ f -> tl = [] \/ (exists tl', tl = "&" :: tl') ->
  inspect_loop (S fuel) (pre ++ f ++ tl) (length pre) found =
  let next found :=
    if bool_decide (tl = []) then Some found
    else inspect_loop fuel (pre ++ f ++ tl) (length pre + length f + 1) found in
  if bool_decide ((field_kv f).1 = kSnapshotVersionParam) then
    match found, (field_kv f).2 with None, Some v => next (Some v) | _, _ => None end
  else next found.
Proof.
  intros Hf Htl. cbn [inspect_loop].
  destruct (Nat.leb_spec (length pre) (length (pre ++ f ++ tl))); [|rewrite length_app in *; lia].
  cbv zeta. rewrite field_end_at, field_key_end_at, field_last_at by done.
  replace (length pre + length (field_kv f).1 - length pre) with (length (field_kv f).1) by lia.
  assert (Htest : ((length (field_kv f).1 =? length kSnapshotVersionParam)%nat
    && bool_decide (substr (pre ++ f ++ tl) (length pre) (length kSnapshotVersionParam) = kSnapshotVersionParam))
    = bool_decide ((field_kv f).1 = kSnapshotVersionParam)).
  { pose proof (field_key_at pre f tl) as Hk.
    destruct (Nat.eqb_spec (length (field_kv f).1) (length kSnapshotVersionParam)) as [E|E].
    - rewrite <-E, Hk. by destruct (bool_decide _).
    - symmetry. apply bool_decide_eq_false. congruence. }
  rewrite Htest. clear Htest. destruct (bool_decide ((field_kv f).1 = _)); [|done].
  pose proof (field_equals_at pre f tl) as He. destruct (field_kv f) as [k [v|]]; simpl in *.
  - destruct He as (-> & Hl & Hv). destruct found; [done|].
    destruct (Nat.leb_spec (length pre + length f) (length pre + length k)); [lia|].
    replace (length pre + length f - (length pre + length k) - 1) with (length v) by lia.
    rewrite Hv. done.
  - destruct found; [done|]. destruct (find_char "=" _ _) as [e|] eqn:E; [|done].
    specialize (He e eq_refl).
    destruct (Nat.leb_spec (length pre + length f) e); [done|lia].
Qed.

Lemma inspect_loop_spec fuel pre rest found :
  length rest < fuel ->
  inspect_loop fuel (pre ++ rest) (length pre) found = inspect_fields (split_on "&" rest) found.
Proof.
  revert pre rest found. induction fuel as [|fuel IH]; intros pre rest found Hfuel; [lia|].
  destruct (next_field rest) as [[Hf Hs]|(f & tl & -> & Hf & Hs)]; rewrite Hs; cbn [inspect_fields].
  - rewrite <-(app_nil_r rest) at 1. rewrite inspect_step by auto.
    cbv zeta. rewrite (bool_decide_eq_true_2 ([] = [])) by done. by repeat case_match.
  - rewrite inspect_step by eauto. cbv zeta.
    rewrite (bool_decide_eq_false_2 ("&" :: tl = [])) by done.
    destruct (advance pre f tl) as [-> ->].
    rewrite length_app in Hfuel. simpl in Hfuel. rewrite !IH by lia.
    repeat case_match; try done; by rewrite IH by lia.
Qed.

Definition version_fields (s : chars) : list chars :=
  filter (fun f => (field_kv f).1 = kSnapshotVersionParam) (split_on "&" s).

(** In terms of the fields that carry the version. *)
Lemma inspect_fields_spec fs found :
  inspect_fields fs found =
  match filter (fun f => (field_kv f).1 = kSnapshotVersionParam) fs, found with
  | [], _ => Some found
  | [f], None => match (field_kv f).2 with Some v => Some (Some v) | None => None end
  | _, _ => None
  end.
Proof.
  revert found. induction fs as [|f fs IH]; intros found; [done|].
  cbn [inspect_fields]. rewrite filter_cons. case_bool_decide as E; case_decide; try done.
  destruct found, (field_kv f).2; try done; rewrite ?IH; try done; by repeat case_match.
Qed.

Lemma ParseParams_loop_done fuel s start ps :
  length s <= start -> ParseParams_loop (S fuel) s start ps = Some ps.
Proof. intros H. cbn [ParseParams_loop]. destruct (Nat.ltb_spec start (length s)); [lia|done]. Qed.

Lemma ParseParams_step fuel pre f tl acc :
  "&" ∉ f -> tl = [] \/ (exists tl', tl = "&" :: tl') -> f ++ tl <> [] ->
  ParseParams_loop (S fuel) (pre ++ f ++ tl) (length pre) acc =
  ParseParams_loop fuel (pre ++ f ++ tl) (length pre + length f + 1)
    (om_set chars_ltb (field_kv f).1 (default [] (field_kv f).2) acc).
Proof.
  intros Hf Htl Hn. cbn [ParseParams_loop].
  destruct (Nat.ltb_spec (length pre) (length (pre ++ f ++ tl))) as [_|Hl].
  2: { rewrite length_app in Hl. destruct (f ++ tl); [done|simpl in Hl; lia]. }
  cbv zeta. pose proof (field_end_at pre f tl Hf Htl) as He. unfold field_end in He. rewrite He.
  f_equal. pose proof (field_key_at pre f tl) as Hk. pose proof (field_equals_at pre f tl) as Hq.
  destruct (first_sep "=" f) as [Hfree|(k & v & -> & Hkf)].
  - rewrite field_kv_none in * by done. simpl in *.
    replace (length pre + length f - length pre) with (length f) by lia. rewrite Hk.
    destruct (find_char "=" _ _) as [e|] eqn:E; [|done]. specialize (Hq e eq_refl).
    destruct (Nat.ltb_spec e (length pre + length f)); [lia|done].
  - rewrite field_kv_eq in * by done. simpl in *. destruct Hq as (-> & Hl & Hv).
    destruct (Nat.ltb_spec (length pre + length k) (length pre + length (k ++ "=" :: v))); [|lia].
    replace (length pre + length k - length pre) with (length k) by lia. rewrite Hk.
    replace (length pre + length (k ++ "=" :: v) - (length pre + length k) - 1) with (length v) by lia.
    by rewrite Hv.
Qed.

(** The value the parser stores for a key: that of the last field with it. *)
Lemma ParseParams_loop_find fuel pre rest acc key :
  key <> [] -> length rest < fuel ->
  exists ps, ParseParams_loop fuel (pre ++ rest) (length pre) acc = Some ps /\
    om_find chars_ltb key ps =
    match last (filter (fun f => (field_kv f).1 = key) (split_on "&" rest)) with
    | Some f => Some (default [] (field_kv f).2)
    | None => om_find chars_ltb key acc
    end.
Proof.
  intros Hkey. revert pre rest acc. induction fuel as [|fuel IH]; intros pre rest acc Hfuel; [lia|].
  assert (Hset : forall f l,
    match last (filter (fun f => (field_kv f).1 = key) l) with
    | Some f => Some (default [] (field_kv f).2)
    | None => om_find chars_ltb key (om_set chars_ltb (field_kv f).1 (default [] (field_kv f).2) acc)
    end =
    match last (filter (fun f => (field_kv f).1 = key) (f :: l)) with
    | Some f => Some (default [] (field_kv f).2)
    | None => om_find chars_ltb key acc
    end).
  { intros f l. rewrite filter_cons. case_decide as Ek.
    - rewrite last_cons. destruct (last _); [done|]. rewrite <-Ek. apply om_find_set_eq; apply _.
    - destruct (last _); [done|]. by rewrite om_find_set_ne by (apply _ || done). }
  destruct (next_field rest) as [[Hf Hs]|(f & tl & -> & Hf & Hs)]; rewrite Hs.
  - destruct (decide (rest = [])) as [->|Hn].
    { exists acc. split; [apply ParseParams_loop_done; by rewrite app_nil_r|].
      rewrite filter_cons_False; [done|]. by rewrite field_kv_none by set_solver. }
    destruct rest as [|x rest]; [done|]. destruct fuel as [|fuel]; [simpl in Hfuel; lia|].
    replace (pre ++ x :: rest) with (pre ++ (x :: rest) ++ []) by (by rewrite app_nil_r).
    rewrite ParseParams_step by (auto; by rewrite app_nil_r).
    rewrite ParseParams_loop_done by (rewrite !length_app; simpl; lia).
    eexists. split; [done|]. rewrite <-Hset. done.
  - rewrite ParseParams_step by (eauto; by destruct f). destruct (advance pre f tl) as [-> ->].
    rewrite length_app in Hfuel. simpl in Hfuel.
    destruct (IH (pre ++ f ++ ["&"]) tl
      (om_set chars_ltb (field_kv f).1 (default [] (field_kv f).2) acc)) as (ps & Hps & Hfind); [lia|].
    exists ps. split; [done|]. by rewrite Hfind, Hset.
Qed.

Lemma ParseParams_find key s :
  key <> [] ->
  om_find chars_ltb key (ParseParams s []) =
  (fun f => default [] (field_kv f).2) <$> last (filter (fun f => (field_kv f).1 = key) (split_on "&" s)).
Proof.
  intros Hkey. destruct (ParseParams_loop_find (S (length s)) [] s [] key) as (ps & Hps & Hfind); [done|lia|].
  unfold ParseParams. cbn [app length] in Hps. rewrite Hps. simpl. rewrite Hfind. by destruct (last _).
Qed.

(** ** Lemmas: numbers and authorities *)

Lemma dec_foldl_ge text value :
  (0 <= value)%Z -> forallb is_digit text = true ->
  (value <= foldl (fun acc c => acc * 10 + digit_val c) value text)%Z.
Proof.
  revert value. induction text as [|c text IH]; intros value Hv Hd; simpl; [lia|].
  simpl in Hd. apply andb_true_iff in Hd as [Hc Hd]. unfold is_digit in Hc. reflect_bools.
  etrans; [|apply IH; [lia|done]]. lia.
Qed.

Lemma ParseDecimalUint64_loop_spec limit text value :
  (9 <= limit)%Z -> (0 <= value <= limit)%Z ->
  ParseDecimalUint64_loop limit value text =
  if forallb is_digit text
     && (foldl (fun acc c => acc * 10 + digit_val c) value text <=? limit)%Z
  then Some (foldl (fun acc c => acc * 10 + digit_val c)%Z value text) else None.
Proof.
  intros Hl. revert value. induction text as [|c text IH]; intros value Hv; simpl.
  { by rewrite (proj2 (Z.leb_le _ _)) by lia. }
  destruct (is_digit c) eqn:Ec; [|done]. simpl.
  assert (0 <= digit_val c <= 9)%Z by (unfold is_digit in Ec; reflect_bools; lia).
  destruct (Z.ltb_spec ((limit - digit_val c) / 10) value) as [Hlt|Hge].
  - destruct (forallb is_digit text) eqn:Ed; [|done]. simpl.
    rewrite (proj2 (Z.leb_gt _ _)); [done|].
    pose proof (dec_foldl_ge text (value * 10 + digit_val c) ltac:(lia) Ed).
    assert (limit < value * 10 + digit_val c)%Z; [|lia].
    pose proof (Z.mul_succ_div_gt (limit - digit_val c) 10 ltac:(lia)). nia.
  - apply IH. pose proof (Z.mul_div_le (limit - digit_val c) 10 ltac:(lia)). nia.
Qed.

Lemma span_digits_all s : span_digits s = (s, []) <-> forallb is_digit s = true.
Proof.
  induction s as [|c s IH]; simpl; [done|]. destruct (is_digit c); simpl.
  - destruct (span_digits s) as [d r]. rewrite <-IH. split; intros; by simplify_eq.
  - split; intros; by simplify_eq.
Qed.

Lemma span_digits_concat s d r : span_digits s = (d, r) -> s = d ++ r.
Proof.
  revert d r. induction s as [|c s IH]; intros d r; simpl; [by intros [= <- <-]|].
  destruct (is_digit c); [|by intros [= <- <-]].
  destruct (span_digits s) as [d' r']. intros [= <- <-]. simpl. f_equal. by apply IH.
Qed.

(** The in-place number reader accepts what [from_chars] consumes wholly. *)
Lemma ParseDecimalUint64_spec text limit :
  (9 <= limit)%Z ->
  ParseDecimalUint64 text limit =
  match from_chars_unsigned limit text with Some (v, []) => Some v | _ => None end.
Proof.
  intros Hl. unfold ParseDecimalUint64. destruct text as [|c text]; [done|].
  rewrite ParseDecimalUint64_loop_spec by lia. unfold from_chars_unsigned.
  destruct (span_digits (c :: text)) as [d r] eqn:E.
  pose proof (span_digits_concat _ _ _ E) as Hc.
  destruct (forallb is_digit (c :: text)) eqn:Ed.
  - pose proof Ed as Ed'. apply span_digits_all in Ed'. rewrite E in Ed'. simplify_eq. simpl andb.
    unfold dec_value. by destruct (_ <=? limit)%Z.
  - simpl andb. destruct r as [|x r]; [|destruct d; [done|]; by destruct (_ <=? limit)%Z].
    rewrite app_nil_r in Hc. subst d. apply span_digits_all in E. congruence.
Qed.

Lemma from_chars_i64_nonneg c text :
  c <> "-" -> from_chars_i64 (c :: text) = from_chars_unsigned (2 ^ 63 - 1) (c :: text).
Proof. intros Hc. destruct c as [[] [] [] [] [] [] [] []]; (reflexivity || by destruct Hc). Qed.

(** Host and port of the parser, through the in-place port scan. *)
Lemma parse_host_port_scan uri hs he :
  parse_host_port uri hs he =
  match scan_port uri hs he with
  | None => Some (substr uri hs (he - hs), 0%Z)
  | Some t =>
      p ← ParseDecimalUint64 t (2 ^ 63 - 1);
      Some (substr uri hs (default 0 (find_char ":" uri hs) - hs), p)
  end.
Proof.
  unfold parse_host_port, scan_port. destruct (find_char ":" uri hs) as [c|]; [|done].
  rewrite Nat.leb_antisym. destruct (c <? he)%nat; [|done]. cbn [negb].
  replace (he - c - 1) with (he - (c + 1)) by lia.
  rewrite ParseDecimalUint64_spec by lia. cbn [default].
  destruct (substr uri (c + 1) (he - (c + 1))) as [|x t]; [done|].
  destruct (decide (x = "-")) as [->|Hx]; [by vm_compute|].
  rewrite <-(from_chars_i64_nonneg x t) by done.
  destruct (from_chars_i64 (x :: t)) as [[v []]|]; destruct x as [[] [] [] [] [] [] [] []];
    (reflexivity || by destruct Hx).
Qed.

(** Where the query starts, seen from the start of the text. *)
Lemma query_pos uri n :
  find_sub (chars_of "://") uri = Some n ->
  ("?" ∈ take n uri -> exists q, find_char "?" uri 0 = Some q /\ q < n + 3) /\
  ("?" ∉ take n uri -> find_char "?" uri 0 = find_char "?" uri (n + 3) /\
     forall q, find_char "?" uri (n + 3) = Some q -> n + 3 <= q).
Proof.
  intros Hn. apply find_sub_take in Hn as Hl. apply find_sub_spec in Hn as (r & Hr & _).
  destruct Hl as (Hl & _ & _). set (P := take n uri) in *. clearbody P. subst uri.
  split.
  - intros Hin. destruct (first_sep "?" P) as [|(f & tl & -> & Hfree)]; [done|].
    exists (length f). rewrite length_app in Hl. simpl in Hl.
    split; [|lia]. unfold find_char. rewrite drop_0, <-app_assoc. cbn [app].
    by rewrite pos_of_here.
  - intros Hfree. split; [|intros q; apply find_char_ge]. rewrite app_assoc.
    rewrite (find_char_app "?" (P ++ chars_of "://") r (n + 3)) by (rewrite length_app, Hl; reflexivity).
    unfold find_char. rewrite drop_0, pos_of_app.
    2: { apply not_elem_of_app. split; [done|]. vm_compute. set_solver. }
    rewrite length_app, Hl. change (length (chars_of "://")) with 3. by destruct (pos_of "?" r).
Qed.

(** The parser's steps by name: where the host starts, the user-info before
    it, and the parameters of the query. *)
Definition host_start (uri : chars) (a he : nat) : nat :=
  match find_char "@" uri a with
  | Some at_ => if (at_ <? he)%nat then at_ + 1 else a
  | None => a
  end.

Definition user_text (uri : chars) (a he : nat) : chars :=
  match find_char "@" uri a with
  | Some at_ => if (at_ <? he)%nat then substr uri a (at_ - a) else []
  | None => []
  end.

Definition query_params (uri : chars) (q : option nat) : list (chars * chars) :=
  match q with Some q => ParseParams (drop (q + 1) uri) [] | None => [] end.

Lemma Parse_parts uri n :
  find_sub (chars_of "://") uri = Some n ->
  let a := n + 3 in
  let pp := find_char "/" uri a in
  let pq := find_char "?" uri a in
  let he := Nat.min (default (length uri) pp) (default (length uri) pq) in
  Parse uri =
  match parse_host_port uri (host_start uri a he) he with
  | None => (empty_uri, false)
  | Some (h, p) =>
      (mkStandardUri (take n uri) (user_text uri a he) h p
         (parse_path_query uri pp pq).1 (query_params uri pq), true)
  end.
Proof.
  intros Hn a pp pq he. unfold Parse. rewrite Hn. fold a. fold pp. fold pq. fold he.
  assert (Hpp : parse_path_query uri pp pq = ((parse_path_query uri pp pq).1, query_params uri pq)).
  { unfold parse_path_query, query_params. destruct pp, pq; try done. by case_match. }
  unfold host_start, user_text.
  destruct (find_char "@" uri a) as [at_|]; [destruct (at_ <? he)%nat|];
    (destruct (parse_host_port uri _ he) as [[h p]|]; [|done]); rewrite Hpp; unfold substr at 1;
    by rewrite drop_0.
Qed.

Lemma Valid_protocol uri n :
  find_sub (chars_of "://") uri = Some n ->
  Valid (Parse uri).1 =
  negb (n =? 0)%nat && bool_decide (is_Some (parse_host_port uri
    (host_start uri (n + 3) (Nat.min (default (length uri) (find_char "/" uri (n + 3)))
       (default (length uri) (find_char "?" uri (n + 3)))))
    (Nat.min (default (length uri) (find_char "/" uri (n + 3)))
       (default (length uri) (find_char "?" uri (n + 3)))))).
Proof.
  intros Hn. rewrite (Parse_parts uri n Hn). cbv zeta. apply find_sub_take in Hn as (Hl & _ & _).
  destruct (parse_host_port _ _ _) as [[h p]|]; cbn [fst].
  - rewrite (bool_decide_eq_true_2 (is_Some _)) by eauto. rewrite andb_true_r. unfold Valid. simpl.
    destruct (take n uri) eqn:E; simpl in Hl; subst n; [done|]. by rewrite bool_decide_eq_false_2.
  - rewrite bool_decide_eq_false_2 by (by intros [? [=]]). by rewrite andb_false_r.
Qed.

(** ** The visibility scanner against the parser *)

(** What the scanner stands for: the parsed URI is valid, its protocol does not
    contain the query delimiter, and either no field names the version or
    [ParseSnapshotUriInfo] accepts the text. *)
Definition inspect_reference (uri_text : chars) : option chars :=
  let u := (Parse uri_text).1 in
  if Valid u && bool_decide ("?" ∉ protocol_ u) then
    if (CountUriParam uri_text kSnapshotVersionParam =? 0)%nat then Some []
    else ParseSnapshotUriInfo_text uri_text
  else None.

(** The query part: the three readers on the fields after position [q]. *)
Lemma inspect_query uri q :
  let u := mkStandardUri ["p"] [] [] 0 [] (ParseParams (drop (q + 1) uri) []) in
  q < length uri ->
  match inspect_loop (S (length uri)) uri (q + 1) None with
  | None => None
  | Some None => Some []
  | Some (Some v) => if IsValidSnapshotVersionToken v then Some v else None
  end =
  let n := CountUriParam_loop (S (length uri)) uri kSnapshotVersionParam (q + 1) 0 in
  if (n =? 0)%nat then Some []
  else if negb (n =? 1)%nat then None else ParseSnapshotUriInfo u.
Proof.
  intros u Hq. set (pre := take (q + 1) uri). set (rest := drop (q + 1) uri).
  assert (Hl : length pre = q + 1) by (unfold pre; rewrite length_take; lia).
  assert (Hu : uri = pre ++ rest) by (unfold pre, rest; by rewrite take_drop).
  assert (Hr : length rest < S (length uri)) by (unfold rest; rewrite length_drop; lia).
  revert Hr. generalize (S (length uri)) as fuel. intros fuel Hr.
  rewrite Hu, <-Hl, inspect_loop_spec, inspect_fields_spec, CountUriParam_loop_spec by done.
  cbn [Nat.add]. unfold ParseSnapshotUriInfo, GetParam. unfold u.
  cbn [params_ Valid protocol_ negb]. rewrite ParseParams_find by done. fold rest.
  destruct (filter _ (split_on "&" rest)) as [|f [|g l]]; [done| |done].
  cbn [length Nat.eqb negb last fmap option_fmap option_map default].
  by destruct (field_kv f).2 as [v|].
Qed.

Lemma InspectSnapshotUriForVisibility_reference uri_text :
  InspectSnapshotUriForVisibility uri_text false = inspect_reference uri_text.
Proof.
  unfold InspectSnapshotUriForVisibility, inspect_reference.
  destruct (find_sub (chars_of "://") uri_text) as [n|] eqn:En.
  2: { unfold Parse. by rewrite En. }
  rewrite (Valid_protocol _ n En). destruct n as [|n']; [done|]. set (n := S n') in *.
  destruct (query_pos uri_text n En) as [Hin Hout]. cbn [negb andb Nat.eqb].
  assert (Hproto : is_Some (parse_host_port uri_text
      (host_start uri_text (n + 3) (Nat.min (default (length uri_text) (find_char "/" uri_text (n + 3)))
         (default (length uri_text) (find_char "?" uri_text (n + 3)))))
      (Nat.min (default (length uri_text) (find_char "/" uri_text (n + 3)))
       (default (length uri_text) (find_char "?" uri_text (n + 3))))) ->
    protocol_ (Parse uri_text).1 = take n uri_text /\
    params_ (Parse uri_text).1 = query_params uri_text (find_char "?" uri_text (n + 3)) /\
    Valid (Parse uri_text).1 = true).
  { intros [[h p] Hhp]. rewrite (Parse_parts _ n En). cbv zeta. rewrite Hhp. split_and!; [done|done|].
    apply find_sub_take in En as (Hl & _ & _). unfold Valid. simpl.
    by destruct (take n uri_text) eqn:E; [simpl in Hl|rewrite bool_decide_eq_false_2]. }
  destruct (decide ("?" ∈ take n uri_text)) as [Hq|Hq].
  - destruct (Hin Hq) as (q & -> & Hlt). destruct (Nat.ltb_spec q (n + 3)); [|lia].
    case_bool_decide as Hs; [|done]. destruct (Hproto Hs) as (-> & _). by rewrite bool_decide_eq_false_2 by tauto.
  - destruct (Hout Hq) as [-> Hge].
    assert (Hno : match find_char "?" uri_text (n + 3) with
      | Some q => (q <? n + 3)%nat | None => false end = false).
    { destruct (find_char "?" uri_text (n + 3)) as [q|]; [|done]. apply Nat.ltb_ge. auto. }
    rewrite Hno.
    set (he := Nat.min _ _) in *. fold (host_start uri_text (n + 3) he).
    rewrite parse_host_port_scan in *. cbn [negb andb].
    destruct (scan_port uri_text (host_start uri_text (n + 3) he) he) as [t|] eqn:Et;
      [destruct (ParseDecimalUint64 t (2 ^ 63 - 1)) as [p|] eqn:Ep|]; cbn [mbind option_bind] in *;
      [|done|];
      (repeat rewrite (bool_decide_eq_true_2 (is_Some _)) by eauto);
      (destruct (Hproto ltac:(eauto)) as (-> & Hpar & Hv)); rewrite bool_decide_eq_true_2 by done;
      cbn [negb andb]; unfold CountUriParam, ParseSnapshotUriInfo_text, CountUriParam; rewrite (proj1 (Hout Hq));
      (destruct (find_char "?" uri_text (n + 3)) as [q|] eqn:Eq; [|done]);
      (rewrite inspect_query by (apply find_char_lookup in Eq as [Eq _]; by apply lookup_lt_Some in Eq));
      cbv zeta; (case_match; [done|]); (case_match; [done|]); unfold ParseSnapshotUriInfo, GetParam;
      by rewrite Hpar, Hv.
Qed.

(** ** Lemmas: the canonical form *)

Lemma print_params_app ps qs :
  ps <> [] -> qs <> [] -> print_params (ps ++ qs) = print_params ps ++ "&" :: print_params qs.
Proof.
  intros Hps Hqs. induction ps as [|[k v] ps IH]; [done|]. cbn [app].
  rewrite print_params_cons by (by destruct ps, qs). destruct ps as [|kv ps].
  - simpl. by rewrite <-app_assoc.
  - rewrite IH by done. rewrite print_params_cons by done. by rewrite <-app_assoc, <-!app_comm_cons, <-app_assoc.
Qed.

Lemma om_set_between k (v : chars) ps qs :
  Forall (fun b => chars_ltb b.1 k = true) ps -> Forall (fun b => chars_ltb k b.1 = true) qs ->
  om_set chars_ltb k v (ps ++ qs) = ps ++ (k, v) :: qs.
Proof.
  intros Hps Hqs. induction Hps as [|[k' v'] ps Hk _ IH]; simpl in *.
  - destruct Hqs as [|[k' v'] qs Hk _]; [done|]. simpl in *. by rewrite Hk.
  - by rewrite (ltb_asym chars_ltb _ _ Hk), Hk, IH.
Qed.

(** What the loop accepts from a text, and the offset and size it returns. *)
Record canonical_query (rest : chars) (prev : option chars) (kvs lo hi : list (chars * chars)) : Prop := {
  cq_text : rest = print_params kvs;
  cq_nonempty : kvs <> [];
  cq_wf : om_wf chars_ltb kvs;
  cq_ok : Forall param_ok kvs;
  cq_above : forall p, prev = Some p -> Forall (fun b => chars_ltb p b.1 = true) kvs;
  cq_split : kvs = lo ++ hi;
  cq_lo : Forall (fun b => chars_ltb b.1 kSnapshotVersionParam = true) lo;
  cq_hi : Forall (fun b => chars_ltb kSnapshotVersionParam b.1 = true) hi;
}.

Definition size_of (kvs : list (chars * chars)) (sz : Z) : Z :=
  match om_find chars_ltb (chars_of "size") kvs with
  | Some value => default sz (ParseDecimalUint64 value u64_max)
  | None => sz
  end.

(** One iteration: the field is [key=value], its key admissible. *)
Lemma canonical_step fuel pre f tl prev off sz r :
  "&" ∉ f -> tl = [] \/ (exists tl', tl = "&" :: tl') -> f ++ tl <> [] ->
  let uri := pre ++ f ++ tl in
  canonical_loop (S fuel) uri (length pre) prev off sz = Some r ->
  exists k v, f = k ++ "=" :: v /\ "=" ∉ k /\ k <> kSnapshotVersionParam /\
    (forall p, prev = Some p -> chars_ltb p k = true) /\
    let off' := if (off =? length uri)%nat && chars_ltb kSnapshotVersionParam k then length pre else off in
    let sz' := if bool_decide (k = chars_of "size") then default sz (ParseDecimalUint64 v u64_max) else sz in
    (tl = [] /\ r = (off', sz') \/
     exists tl', tl = "&" :: tl' /\ tl' <> [] /\
       canonical_loop fuel uri (length pre + length f + 1) (Some k) off' sz' = Some r).
Proof.
  intros Hf Htl Hn uri. cbn [canonical_loop].
  destruct (Nat.ltb_spec (length pre) (length uri)) as [_|Hl].
  2: { unfold uri in Hl. rewrite length_app in Hl. destruct (f ++ tl); [done|simpl in Hl; lia]. }
  cbv zeta. unfold uri. rewrite field_end_at by done.
  pose proof (field_equals_at pre f tl) as He. pose proof (field_key_at pre f tl) as Hk.
  destruct (first_sep "=" f) as [Hfree|(k & v & -> & Hkf)].
  { rewrite field_kv_none in He by done. simpl in He. destruct (find_char "=" _ _) as [e|] eqn:E; [|done].
    specialize (He e eq_refl). by destruct (Nat.leb_spec (length pre + length f) e); [|lia]. }
  rewrite field_kv_eq in He, Hk by done. simpl in He, Hk. destruct He as (-> & Hlen & Hv).
  destruct (Nat.leb_spec (length pre + length (k ++ "=" :: v)) (length pre + length k)); [lia|].
  replace (length pre + length k - length pre) with (length k) by lia. rewrite Hk.
  replace (length pre + length (k ++ "=" :: v) - (length pre + length k) - 1) with (length v) by lia. rewrite Hv.
  destruct (match prev with Some p => negb (chars_ltb p k) | None => false end) eqn:Eprev; [done|].
  case_bool_decide as Esv; [done|]. cbn [orb]. intros Hr. exists k, v.
  split_and!; [done|done|done| |].
  { intros p ->. by apply negb_false_iff in Eprev. }
  rewrite field_last_at in Hr. case_bool_decide as Et; [left; by simplify_eq|right].
  destruct Htl as [->|(tl' & ->)]; [done|]. exists tl'. split; [done|].
  destruct (Nat.eqb_spec (length pre + length (k ++ "=" :: v) + 1)
    (length (pre ++ (k ++ "=" :: v) ++ "&" :: tl'))) as [|Hne]; [done|].
  split; [|done]. intros ->. apply Hne. rewrite (length_app pre), (length_app (k ++ _)). simpl. lia.
Qed.

Lemma canonical_query_cons k v tl prev kvs lo hi :
  param_ok (k, v) -> k <> kSnapshotVersionParam ->
  (forall p, prev = Some p -> chars_ltb p k = true) -> canonical_query tl (Some k) kvs lo hi ->
  canonical_query (k ++ "=" :: v ++ "&" :: tl) prev ((k, v) :: kvs)
    (if chars_ltb kSnapshotVersionParam k then [] else (k, v) :: lo)
    (if chars_ltb kSnapshotVersionParam k then (k, v) :: kvs else hi).
Proof.
  intros Hk Hsv Hprev [-> Hne Hwf Hok Habove Hsplit Hlo Hhi]. specialize (Habove k eq_refl). split.
  - by rewrite print_params_cons.
  - done.
  - by apply om_wf_cons.
  - by constructor.
  - intros p Hp. constructor; [by apply Hprev|]. eapply Forall_impl; [done|].
    intros b Hb. eapply (ltb_trans (ltb := chars_ltb) p k); [by apply Hprev|exact Hb].
  - destruct (chars_ltb kSnapshotVersionParam k); [done|]. by rewrite Hsplit.
  - destruct (chars_ltb kSnapshotVersionParam k) eqn:E; [constructor|]. constructor; [|done].
    destruct (ltb_cases chars_ltb k kSnapshotVersionParam) as [H|[H|H]]; [done|congruence|done].
  - destruct (chars_ltb kSnapshotVersionParam k) eqn:E; [|done]. constructor; [done|].
    eapply Forall_impl; [done|]. intros b Hb. by eapply ltb_trans.
Qed.

Lemma canonical_query_one k v prev :
  param_ok (k, v) -> k <> kSnapshotVersionParam ->
  (forall p, prev = Some p -> chars_ltb p k = true) ->
  canonical_query (k ++ "=" :: v) prev [(k, v)]
    (if chars_ltb kSnapshotVersionParam k then [] else [(k, v)])
    (if chars_ltb kSnapshotVersionParam k then [(k, v)] else []).
Proof.
  intros Hk Hsv Hprev. split; [done|done|repeat constructor|constructor; [done|constructor]| | | |].
  - intros p Hp. constructor; [by apply Hprev|constructor].
  - by destruct (chars_ltb kSnapshotVersionParam k).
  - destruct (chars_ltb kSnapshotVersionParam k) eqn:E; constructor; [|constructor].
    destruct (ltb_cases chars_ltb k kSnapshotVersionParam) as [H|[H|H]]; [done|congruence|done].
  - destruct (chars_ltb kSnapshotVersionParam k) eqn:E; constructor; [done|constructor].
Qed.

Lemma size_of_cons k v kvs sz :
  Forall (fun b => chars_ltb k b.1 = true) kvs ->
  size_of ((k, v) :: kvs) sz =
  size_of kvs (if bool_decide (k = chars_of "size") then default sz (ParseDecimalUint64 v u64_max) else sz).
Proof.
  intros Hall. unfold size_of. cbn [om_find].
  destruct (chars_ltb (chars_of "size") k) eqn:E1.
  - rewrite bool_decide_eq_false_2.
    + rewrite om_find_above; [done|]. eapply Forall_impl; [done|]. intros b Hb. by eapply ltb_trans.
    + intros ->. by rewrite ltb_irrefl in E1.
  - destruct (chars_ltb k (chars_of "size")) eqn:E2.
    + rewrite bool_decide_eq_false_2; [done|]. intros ->. by rewrite ltb_irrefl in E2.
    + assert (k = chars_of "size") as -> by (symmetry; by apply (ltb_total (ltb := chars_ltb))).
      rewrite bool_decide_eq_true_2 by done. by rewrite om_find_above by (apply _ || done).
Qed.

Lemma canonical_loop_spec fuel pre rest prev off sz off' sz' :
  let uri := pre ++ rest in
  rest <> [] -> length rest < fuel ->
  canonical_loop fuel uri (length pre) prev off sz = Some (off', sz') ->
  exists kvs lo hi, canonical_query rest prev kvs lo hi /\ sz' = size_of kvs sz /\
    off' = if (off =? length uri)%nat then length uri - length (print_params hi) else off.
Proof.
  revert pre rest prev off sz. induction fuel as [|fuel IH]; intros pre rest prev off sz uri Hn Hfuel Hr; [lia|].
  unfold uri in *. destruct (next_field rest) as [[Hf _]|(f & tl & -> & Hf & _)].
  - rewrite <-(app_nil_r rest) in Hr.
    apply canonical_step in Hr as (k & v & -> & Hk & Hsv & Hprev & [[_ Heq]|(tl & [=] & _)]);
      [|done|by left|by rewrite app_nil_r].
    eexists _, _, _. split; [apply canonical_query_one; [unfold param_ok; set_solver|done|done]|]. rewrite app_nil_r in Heq.
    clear IH. apply pair_equal_spec in Heq as [-> ->]. split; [by rewrite size_of_cons|].
    destruct (off =? length (pre ++ k ++ "=" :: v))%nat eqn:E; [|done]. apply Nat.eqb_eq in E.
    destruct (chars_ltb kSnapshotVersionParam k); cbn [print_params andb]; [rewrite (length_app pre)|simpl]; lia.
  - apply canonical_step in Hr as (k & v & -> & Hk & Hsv & Hprev & [[[=] _]|(tl' & [= <-] & Hn' & Hr)]);
      [|done|by eauto|by destruct f].
    destruct (advance pre (k ++ "=" :: v) tl) as [E1 E2]. rewrite E1, E2 in Hr. rewrite E1.
    rewrite length_app in Hfuel. simpl in Hfuel.
    apply IH in Hr as (kvs & lo & hi & Hq & -> & ->); [|done|lia].
    exists ((k, v) :: kvs). eexists _, _.
    replace ((k ++ "=" :: v) ++ "&" :: tl) with (k ++ "=" :: v ++ "&" :: tl) by (by rewrite <-app_assoc).
    split; [apply canonical_query_cons; [unfold param_ok; set_solver|done|done|done]|]. split; [by rewrite size_of_cons by (by apply Hq)|].
    rewrite <-E1. set (uri0 := pre ++ (k ++ "=" :: v) ++ "&" :: tl).
    assert (Hlen : length uri0 = length pre + length (print_params ((k, v) :: kvs))).
    { unfold uri0. rewrite print_params_cons by apply Hq. rewrite <-(cq_text _ _ _ _ _ Hq).
      by rewrite length_app, <-app_assoc. }
    assert (length (print_params ((k, v) :: kvs)) > 0).
    { rewrite print_params_cons by apply Hq. rewrite length_app. simpl. lia. }
    destruct (Nat.eqb_spec off (length uri0)) as [E|E]; cbn [andb].
    + destruct (chars_ltb kSnapshotVersionParam k).
      * destruct (Nat.eqb_spec (length pre) (length uri0)); lia.
      * destruct (Nat.eqb_spec off (length uri0)); lia.
    + destruct (Nat.eqb_spec off (length uri0)); lia.
Qed.

Lemma digit_range c : is_digit c = true -> (0 <= digit_val c <= 9)%Z.
Proof. unfold is_digit. intros. reflect_bools. lia. Qed.

(** A canonical decimal is what [to_string] prints. *)
Lemma dec_digits_canonical ds fuel acc :
  Forall (fun c => is_digit c = true) ds -> ds <> [] -> head ds <> Some "0" ->
  (dec_value ds < 2 ^ (Z.of_nat fuel + 1))%Z ->
  dec_digits fuel (dec_value ds) acc = ds ++ acc.
Proof.
  revert fuel acc. induction ds as [|c ds IH] using rev_ind; intros fuel acc Hd Hn Hz Hlt; [done|].
  apply Forall_app in Hd as [Hd Hc]. apply Forall_cons in Hc as [Hc _].
  assert (Hv : dec_value (ds ++ [c]) = (dec_value ds * 10 + digit_val c)%Z).
  { unfold dec_value. by rewrite foldl_app. }
  pose proof (dec_value_nonneg ds Hd).
  assert (Hcr : (0 <= digit_val c <= 9)%Z) by (by apply digit_range).
  assert (Hmod : (dec_value (ds ++ [c]) mod 10 = digit_val c)%Z).
  { rewrite Hv, Z.add_comm, Z.mod_add by lia. apply Z.mod_small. lia. }
  assert (Hdiv : (dec_value (ds ++ [c]) / 10 = dec_value ds)%Z).
  { rewrite Hv, Z.add_comm, Z.div_add by lia. rewrite Z.div_small; lia. }
  assert (Hchar : digit_char (digit_val c) = c).
  { unfold digit_char, digit_val. replace (48 + (Z.of_N (N_of_ascii c) - 48))%Z with (Z.of_N (N_of_ascii c)) by lia.
    rewrite N2Z.id. apply ascii_N_embedding. }
  assert (Hpos : ds <> [] -> (0 < dec_value ds)%Z).
  { intros Hne. destruct ds as [|x ds]; [done|]. apply Forall_cons in Hd as [Hx Hd].
    simpl in Hz. assert (1 <= digit_val x)%Z.
    { apply digit_range in Hx. destruct (decide (digit_val x = 0)%Z) as [E|]; [|lia].
      destruct Hz. f_equal. apply N_of_ascii_inj. unfold digit_val in E. vm_compute (N_of_ascii "0"). lia. }
    change (dec_value (x :: ds)) with (foldl (fun acc c => acc * 10 + digit_val c)%Z (digit_val x) ds).
    pose proof (dec_foldl_ge ds (digit_val x) ltac:(lia)) as Hge.
    specialize (Hge ltac:(apply forallb_forall; intros y Hy; rewrite Forall_forall in Hd; apply Hd;
      by apply list_elem_of_In)). lia. }
  destruct fuel as [|fuel]; cbn [dec_digits]; rewrite Hmod, Hchar.
  - destruct ds as [|x ds]; [done|]. specialize (Hpos ltac:(done)). rewrite Hv in Hlt.
    change (2 ^ (Z.of_nat 0 + 1))%Z with 2%Z in Hlt. lia.
  - rewrite Hdiv. destruct (Z.eqb_spec (dec_value ds) 0) as [E|E].
    + destruct ds as [|x ds]; [done|]. specialize (Hpos ltac:(done)). lia.
    + destruct ds as [|x ds]; [done|]. rewrite IH; [by rewrite <-app_assoc|done|done|by simpl in *|].
      rewrite Hv in Hlt. replace (Z.of_nat (S fuel) + 1)%Z with (Z.of_nat fuel + 1 + 1)%Z in Hlt by lia.
      rewrite Z.pow_add_r in Hlt by lia. lia.
Qed.

Lemma canonical_port t p :
  ParseDecimalUint64 t (2 ^ 63 - 1) = Some p -> t <> [] -> head t <> Some "0" ->
  to_dec p = t /\ (0 < p)%Z.
Proof.
  intros Hp Hn Hz. rewrite ParseDecimalUint64_spec in Hp by lia. unfold from_chars_unsigned in Hp.
  destruct (span_digits t) as [d r] eqn:E. pose proof (span_digits_concat _ _ _ E) as Hc.
  destruct d as [|x d]; [done|]. set (ds := x :: d) in *.
  destruct (dec_value ds <=? 2 ^ 63 - 1)%Z; [|done]. destruct r; [|done]. rewrite app_nil_r in Hc.
  simplify_eq. apply span_digits_digits in E. unfold ds in *.
  pose proof (dec_value_nonneg _ E) as Hge.
  assert (Hpos : (0 < dec_value (x :: d))%Z).
  { apply Forall_cons in E as [Hx Hd]. apply digit_range in Hx as Hr.
    assert (1 <= digit_val x)%Z.
    { destruct (decide (digit_val x = 0)%Z) as [E0|]; [|lia]. destruct Hz. simpl. f_equal.
      apply N_of_ascii_inj. unfold digit_val in E0. vm_compute (N_of_ascii "0"). lia. }
    change (dec_value (x :: d)) with (foldl (fun acc c => acc * 10 + digit_val c)%Z (digit_val x) d).
    pose proof (dec_foldl_ge d (digit_val x) ltac:(lia)) as H1.
    specialize (H1 ltac:(apply forallb_forall; intros y Hy; rewrite Forall_forall in Hd; apply Hd;
      by apply list_elem_of_In)). lia. }
  split; [|done]. unfold to_dec. rewrite dec_digits_canonical, app_nil_r; [done|done|done|done|].
  rewrite Z2Nat.id by apply Z.log2_nonneg. by apply Z.log2_spec.
Qed.

Lemma take_substr (s : chars) b e : b <= e -> take e s = take b s ++ substr s b (e - b).
Proof. intros H. unfold substr. rewrite take_take_drop. f_equal. lia. Qed.

Lemma take_lookup (s : chars) i c : s !! i = Some c -> take (i + 1) s = take i s ++ [c].
Proof. intros H. rewrite Nat.add_1_r. by apply take_S_r. Qed.

(** The authority of an accepted text is what the printer writes for it. *)
Lemma canonical_authority uri a he hs h p :
  a <= he -> he <= length uri ->
  (match find_char "@" uri a with
   | Some e => if (e <? he)%nat then if (e =? a)%nat then None else Some (e + 1) else Some a
   | None => Some a
   end) = Some hs ->
  match scan_port uri hs he with
  | None => true
  | Some [] | Some ("0" :: _) => false
  | Some t => bool_decide (is_Some (ParseDecimalUint64 t (2 ^ 63 - 1)))
  end = true ->
  parse_host_port uri hs he = Some (h, p) ->
  hs = host_start uri a he /\
  take he uri = take a uri
    ++ (if bool_decide (user_text uri a he = []) then [] else user_text uri a he ++ ["@"])
    ++ h ++ (if (0 <? p)%Z then ":" :: to_dec p else []).
Proof.
  intros Ha Hle Hhs Hport Hhp.
  assert (Huser : hs = host_start uri a he /\ a <= hs <= he /\
    take hs uri = take a uri
      ++ (if bool_decide (user_text uri a he = []) then [] else user_text uri a he ++ ["@"])).
  { unfold host_start, user_text. destruct (find_char "@" uri a) as [e|] eqn:Ee.
    2: { simplify_eq. rewrite bool_decide_eq_true_2, app_nil_r by done. split_and!; (done || lia). }
    destruct (Nat.ltb_spec e he).
    2: { simplify_eq. rewrite bool_decide_eq_true_2, app_nil_r by done. split_and!; (done || lia). }
    destruct (Nat.eqb_spec e a); [done|]. simplify_eq. apply find_char_lookup in Ee as [Ee Hge].
    split_and!; [done|lia|lia|]. rewrite (take_lookup _ _ "@") by done.
    rewrite (take_substr uri a e) by lia. rewrite <-app_assoc. f_equal. rewrite bool_decide_eq_false_2; [done|].
    intros E. apply (f_equal length) in E. unfold substr in E. rewrite length_take, length_drop in E. simpl in E. lia. }
  destruct Huser as (Hs & Hb & Ht). split; [done|].
  rewrite (app_assoc (take a uri)), <-Ht. rewrite parse_host_port_scan in Hhp.
  destruct (scan_port uri hs he) as [t|] eqn:Et; cbn [mbind option_bind] in Hhp.
  - destruct (ParseDecimalUint64 t (2 ^ 63 - 1)) as [p'|] eqn:Ep; [|done]. simplify_eq/=.
    destruct (canonical_port t p) as [Hdec Hpos]; [done|by destruct t| |].
    { destruct t as [|x t]; [done|]. intros [= ->]. done. }
    rewrite (proj2 (Z.ltb_lt _ _) Hpos), Hdec. unfold scan_port in Et.
    destruct (find_char ":" uri (host_start uri a he)) as [c|] eqn:Ec; [|done].
    destruct (Nat.ltb_spec c he); [|done]. simplify_eq/=. apply find_char_lookup in Ec as [Ec Hge].
    rewrite (take_substr uri (c + 1) he) by lia. rewrite (take_lookup _ _ ":") by done.
    rewrite (take_substr uri (host_start uri a he) c) by lia. rewrite <-!app_assoc. cbn [app].
    replace (he - (c + 1)) with (he - c - 1) by lia. by rewrite Et.
  - simplify_eq/=. rewrite app_nil_r. apply take_substr. lia.
Qed.

(** What the fast path has established when it accepts a text: the text is the
    canonical form of the URI it parses to, and the returned offset is where the
    version belongs among its parameters. *)
Record canonical_uri (uri : chars) (info : CanonicalSnapshotUriAppendInfo) (u : StandardUri)
    (lo hi : list (chars * chars)) : Prop := {
  cu_parse : Parse uri = (u, true);
  cu_valid : Valid u = true;
  cu_printed : uri = ToUriString u;
  cu_wf : om_wf chars_ltb (params_ u);
  cu_split : params_ u = lo ++ hi;
  cu_lo : Forall (fun b => chars_ltb b.1 kSnapshotVersionParam = true) lo;
  cu_hi : Forall (fun b => chars_ltb kSnapshotVersionParam b.1 = true) hi;
  cu_query : has_query info = negb (bool_decide (params_ u = []));
  cu_size : size info = size_of (params_ u) 0;
  cu_offset : insertion_offset info = length uri - length (print_params hi);
}.

(** The query of an accepted text. *)
Lemma canonical_tail uri q off sz :
  uri !! q = Some "?" -> q + 1 <> length uri ->
  canonical_loop (S (length uri)) uri (q + 1) None (length uri) 0 = Some (off, sz) ->
  exists kvs lo hi, canonical_query (drop (q + 1) uri) None kvs lo hi /\ sz = size_of kvs 0 /\
    off = length uri - length (print_params hi) /\
    uri = take q uri ++ "?" :: print_params kvs /\ ParseParams (drop (q + 1) uri) [] = kvs.
Proof.
  intros Hq Hne Hl. pose proof (lookup_lt_Some _ _ _ Hq) as Hlt.
  assert (Hpre : length (take (q + 1) uri) = q + 1) by (rewrite length_take; lia).
  rewrite <-(take_drop (q + 1) uri) in Hl at 2. rewrite <-Hpre in Hl at 3.
  apply canonical_loop_spec in Hl as (kvs & lo & hi & Hc & Hs & Ho).
  2: { intros E. apply (f_equal length) in E. rewrite length_drop in E. simpl in E. lia. }
  2: { rewrite length_drop. lia. }
  rewrite (take_drop (q + 1) uri), Nat.eqb_refl in Ho.
  exists kvs, lo, hi. split_and!; [done|done|done| |].
  - rewrite <-(cq_text _ _ _ _ _ Hc). rewrite <-(take_drop (q + 1) uri) at 1.
    rewrite (take_lookup _ _ "?") by done. by rewrite <-app_assoc.
  - rewrite (cq_text _ _ _ _ _ Hc). apply ParseParams_print; apply Hc.
Qed.

Lemma canonical_path uri pp pq :
  default (length uri) pp <= length uri -> default (length uri) pq <= length uri ->
  match pp, pq with Some p, Some q => (q <? p)%nat | _, _ => false end = false ->
  take (Nat.min (default (length uri) pp) (default (length uri) pq)) uri
    ++ (parse_path_query uri pp pq).1 = take (default (length uri) pq) uri.
Proof.
  intros Hp Hq Hord. unfold parse_path_query. destruct pp as [p|], pq as [q|]; simpl in *.
  - apply Nat.ltb_ge in Hord. destruct (Nat.ltb_spec p q); simpl.
    + rewrite Nat.min_l by lia. symmetry. apply take_substr. lia.
    + rewrite Nat.min_r by lia. apply app_nil_r.
  - rewrite Nat.min_l by lia. by rewrite take_drop, firstn_all.
  - rewrite Nat.min_r by lia. apply app_nil_r.
  - rewrite Nat.min_id. apply app_nil_r.
Qed.

Lemma ParseCanonicalUriForSnapshotAppend_spec uri info :
  ParseCanonicalUriForSnapshotAppend uri = Some info ->
  exists u lo hi, canonical_uri uri info u lo hi.
Proof.
  unfold ParseCanonicalUriForSnapshotAppend.
  destruct (find_sub (chars_of "://") uri) as [n|] eqn:En; [|done].
  destruct n as [|n']; [done|]. set (n := S n') in *.
  set (pp := find_char "/" uri (n + 3)). set (pq := find_char "?" uri (n + 3)).
  destruct (match pp, pq with Some p, Some q => (q <? p)%nat | _, _ => false end) eqn:Eord; [done|].
  set (he := Nat.min (default (length uri) pp) (default (length uri) pq)).
  destruct (match find_char "@" uri (n + 3) with Some _ => _ | None => _ end) as [hs|] eqn:Ehs; [|done].
  destruct (match scan_port uri hs he with Some _ => _ | None => true end) eqn:Eport; [|done]. cbn [negb].
  intros Hinfo. pose proof (find_sub_take _ _ _ En) as (Hl & _ & Hl3).
  change (length (chars_of "://")) with 3 in Hl3.
  pose proof (find_char_end uri "/" (n + 3) Hl3) as Hpp. fold pp in Hpp.
  pose proof (find_char_end uri "?" (n + 3) Hl3) as Hpq. fold pq in Hpq.
  assert (exists h p, parse_host_port uri hs he = Some (h, p)) as (h & p & Hhp).
  { rewrite parse_host_port_scan. destruct (scan_port uri hs he) as [t|]; [|by eauto].
    assert (is_Some (ParseDecimalUint64 t (2 ^ 63 - 1))) as [v Hv]; [|rewrite Hv; simpl; eauto].
    destruct t as [|[[] [] [] [] [] [] [] []] t]; try done; by apply bool_decide_eq_true in Eport. }
  destruct (canonical_authority uri (n + 3) he hs h p) as [Hhs Hhead]; [lia|lia|exact Ehs| |exact Hhp|].
  { rewrite <-Eport. destruct (scan_port uri hs he) as [[|[[] [] [] [] [] [] [] []] t]|]; reflexivity. }
  pose proof (Parse_parts uri n En) as Hparse. cbv zeta in Hparse. fold pp pq he in Hparse.
  rewrite <-Hhs, Hhp in Hparse. set (u := mkStandardUri _ _ _ _ _ _) in Hparse.
  assert (Hvalid : Valid u = true).
  { unfold Valid, u. simpl. destruct (take n uri) eqn:E; [done|]. by rewrite bool_decide_eq_false_2. }
  assert (Hpath : take he uri ++ path_ u = take (default (length uri) pq) uri).
  { apply canonical_path; [lia|lia|done]. }
  assert (Hprint : print_head u = take (default (length uri) pq) uri).
  { rewrite <-Hpath, Hhead. unfold print_head. cbn [protocol_ user_info_ hostname_ port_ path_ u].
    destruct (find_sub_spec _ _ _ En) as (r & Hr & _).
    assert (take (n + 3) uri = take n uri ++ chars_of "://") as ->; [|by rewrite <-!app_assoc].
    rewrite Hr at 1. rewrite app_assoc. apply take_app_length'. rewrite length_app. change (length (chars_of "://")) with 3. lia. }
  exists u. unfold ToUriString. destruct pq as [q|] eqn:Eq.
  - destruct (Nat.eqb_spec (q + 1) (length uri)) as [|Hne]; [done|].
    destruct (canonical_loop _ _ _ _ _ _) as [[off sz]|] eqn:Ec; [|done]. cbn [mbind option_bind] in Hinfo.
    simplify_eq. assert (Hq : uri !! q = Some "?").
    { by apply find_char_lookup in Eq as [Eq _]. }
    destruct (canonical_tail uri q off sz Hq Hne Ec) as (kvs & lo & hi & Hc & Hs & Ho & Huri & Hkvs).
    assert (Hp : params_ u = kvs) by done.
    exists lo, hi. split; rewrite ?Hp; try done; try apply Hc.
    + unfold ToUriString. rewrite Hvalid, Hprint, Hp. cbn [negb default].
      rewrite bool_decide_eq_false_2 by apply Hc. done.
    + cbn [has_query]. by rewrite bool_decide_eq_false_2 by apply Hc.
  - simplify_eq. exists [], []. assert (Hp : params_ u = []) by done.
    split; rewrite ?Hp; try done; try constructor.
    + unfold ToUriString. rewrite Hvalid, Hprint, Hp. cbn [negb default]. by rewrite bool_decide_eq_true_2, app_nil_r, take_ge by done.
    + simpl. lia.
Qed.

Lemma size_of_GetParam kvs u :
  params_ u = kvs -> size_of kvs 0 = GetParamAs_u64 (chars_of "size") u 0.
Proof.
  intros <-. unfold size_of, GetParamAs_u64.
  destruct (om_find chars_ltb (chars_of "size") (params_ u)) as [value|]; [|done].
  rewrite ParseDecimalUint64_spec by (vm_compute; congruence). destruct value as [|c value]; [done|].
  by destruct (from_chars_unsigned u64_max (c :: value)) as [[v [|]]|].
Qed.

Lemma version_absent lo hi :
  Forall (fun b : chars * chars => chars_ltb b.1 kSnapshotVersionParam = true) lo ->
  Forall (fun b : chars * chars => chars_ltb kSnapshotVersionParam b.1 = true) hi ->
  om_find chars_ltb kSnapshotVersionParam (lo ++ hi) = None.
Proof.
  intros Hlo Hhi. induction Hlo as [|[k v] lo Hk _ IH]; [by apply om_find_above|].
  simpl in Hk. cbn [app om_find]. by rewrite (ltb_asym chars_ltb _ _ Hk), Hk.
Qed.

(** The text with the version inserted at the accepted offset. *)
Lemma AddPrevalidated_canonical uri info u lo hi version :
  canonical_uri uri info u lo hi ->
  AddPrevalidatedSnapshotVersionToCanonicalUri uri info version =
  Some (ToUriStringWithExtraParam kSnapshotVersionParam version u).
Proof.
  intros [Hparse Hvalid Hprint Hwf Hsplit Hlo Hhi Hq Hs Ho].
  assert (Habs : om_find chars_ltb kSnapshotVersionParam (params_ u) = None).
  { rewrite Hsplit. by apply version_absent. }
  unfold ToUriStringWithExtraParam, HasParam. rewrite Hvalid, Habs.
  rewrite (bool_decide_eq_false_2 (is_Some None)) by (by intros [? [=]]).
  rewrite bool_decide_eq_false_2 by done. cbn [negb orb].
  rewrite append_with_extra_spec by done. rewrite Hsplit, om_set_between by done. cbn [app].
  unfold AddPrevalidatedSnapshotVersionToCanonicalUri. rewrite Ho.
  destruct (Nat.ltb_spec (length uri) (length uri - length (print_params hi))); [lia|].
  unfold ToUriString in Hprint. rewrite Hvalid, Hsplit in Hprint. cbn [negb] in Hprint.
  rewrite Hsplit in Hq. destruct (decide (hi = [])) as [->|Hne].
  - rewrite app_nil_r in *. cbn [print_params length]. rewrite Nat.sub_0_r, Nat.eqb_refl. rewrite Hq. f_equal.
    destruct (decide (lo = [])) as [->|Hlo'].
    + rewrite bool_decide_eq_true_2 in * by done. rewrite app_nil_r in Hprint. by rewrite Hprint.
    + rewrite bool_decide_eq_false_2 in * by done. cbn [negb]. rewrite print_params_app by done.
      rewrite Hprint, <-app_assoc. done.
  - assert (Hpos : 0 < length (print_params hi)).
    { destruct hi as [|kv hi]; [done|]. pose proof (length_print_params (kv :: hi)). simpl in *. lia. }
    rewrite bool_decide_eq_false_2 in Hprint by (by destruct lo).
    remember (print_head u ++ "?" :: (if bool_decide (lo = []) then [] else print_params lo ++ ["&"]))
      as pre eqn:Hpre.
    assert (Huri : uri = pre ++ print_params hi).
    { rewrite Hprint, Hpre, <-app_assoc. cbn [app]. f_equal. f_equal. case_bool_decide as E.
      - by rewrite E.
      - rewrite print_params_app by done. by rewrite <-app_assoc. }
    assert (Hlen : length uri - length (print_params hi) = length pre) by (rewrite Huri, length_app; lia).
    rewrite Hlen. destruct (Nat.eqb_spec (length pre) (length uri)) as [E|_].
    { rewrite Huri, length_app in E. lia. }
    f_equal. rewrite Huri, take_app_length, drop_app_length, Hpre, <-app_assoc. cbn [app]. f_equal. f_equal.
    case_bool_decide as E.
    + rewrite E. cbn [app]. by rewrite print_params_cons.
    + rewrite print_params_app by done. rewrite print_params_cons by done. by rewrite <-app_assoc.
Qed.

(** ** The theorems *)

(** What validating a reported spec and appending the version mean: parse the
    URI, refuse an invalid one and one that already names a version, read the
    size, print the URI with the version added. *)
Definition reference_spec (name uri version : chars) : option (Z * chars) :=
  let u := (Parse uri).1 in
  if bool_decide (name = []) || negb (Valid u) || HasParam kSnapshotVersionParam u then None
  else Some (GetParamAs_u64 (chars_of "size") u 0, ToUriStringWithExtraParam kSnapshotVersionParam version u).

Definition versioned_spec (name uri version : chars) : option (Z * chars) :=
  s ← ValidateEventLocationSpec name uri;
  out ← AddPrevalidatedSnapshotVersion s version;
  Some (validated_size s, out).

Lemma extra_param_nonempty version u :
  Valid u = true -> HasParam kSnapshotVersionParam u = false ->
  ToUriStringWithExtraParam kSnapshotVersionParam version u <> [].
Proof.
  intros Hv Hh. unfold ToUriStringWithExtraParam. rewrite Hv, Hh.
  rewrite bool_decide_eq_false_2 by done. cbn [negb orb]. by destruct (print_head u).
Qed.

Lemma versioned_spec_reference name uri version :
  versioned_spec name uri version = reference_spec name uri version.
Proof.
  unfold versioned_spec, reference_spec, ValidateEventLocationSpec.
  destruct (bool_decide (name = [])); [done|]. cbn [orb].
  destruct (ParseCanonicalUriForSnapshotAppend uri) as [info|] eqn:E.
  - apply ParseCanonicalUriForSnapshotAppend_spec in E as (u & lo & hi & Hc).
    rewrite (cu_parse _ _ _ _ _ Hc). cbn [fst]. rewrite (cu_valid _ _ _ _ _ Hc). cbn [negb orb].
    assert (HasParam kSnapshotVersionParam u = false) as ->.
    { unfold HasParam. rewrite (cu_split _ _ _ _ _ Hc), version_absent by apply Hc.
      apply bool_decide_eq_false_2. by intros [? [=]]. }
    cbn [mbind option_bind AddPrevalidatedSnapshotVersion]. rewrite (AddPrevalidated_canonical _ _ _ _ _ _ Hc).
    cbn [mbind option_bind validated_size]. by rewrite (cu_size _ _ _ _ _ Hc), (size_of_GetParam _ u).
  - unfold HasEventReportInternalUriMetadata. destruct (Valid (Parse uri).1) eqn:Hv; [|done]. cbn [negb orb].
    destruct (HasParam kSnapshotVersionParam (Parse uri).1) eqn:Hh; [done|].
    cbn [mbind option_bind AddPrevalidatedSnapshotVersion].
    rewrite bool_decide_eq_false_2 by (by apply extra_param_nonempty). done.
Qed.

(** C20: the in-place fast path for canonical URIs is invisible.  For every spec
    name, URI text and version, validating a reported spec and appending the
    version gives what the parse-and-print reference gives: the same specs are
    refused, the same size is reported and the same versioned text is stored,
    whether the text took the fast path or not. *)
Theorem canonical_fast_path_equiv name uri version :
  versioned_spec name uri version = reference_spec name uri version.
Proof. apply versioned_spec_reference. Qed.

(** The allocation-free visibility scanner decides like the URI parser.
    It returns a version exactly when the parsed URI is valid, its protocol has
    no query delimiter, and the text either has no [s_version] field (the empty
    version) or has exactly one that the strict parser accepts (that version);
    in every other case it refuses. *)
Theorem InspectSnapshotUriForVisibility_equiv uri_text :
  InspectSnapshotUriForVisibility uri_text false = inspect_reference uri_text.
Proof. apply InspectSnapshotUriForVisibility_reference. Qed.

(** The fields of a printed query. *)
Lemma split_on_print ps :
  ps <> [] -> Forall param_ok ps ->
  split_on "&" (print_params ps) = (fun kv => kv.1 ++ "=" :: kv.2) <$> ps.
Proof.
  intros Hne Hok. induction Hok as [|[k v] ps (H1 & H2 & H3) Hok IH]; [done|]. simpl in H1, H2, H3.
  destruct ps as [|kv ps].
  - apply split_on_free. cbn [print_params]. set_solver.
  - rewrite print_params_cons by done.
    replace (k ++ "=" :: v ++ "&" :: print_params (kv :: ps))
      with ((k ++ "=" :: v) ++ "&" :: print_params (kv :: ps)) by (by rewrite <-app_assoc).
    rewrite split_on_sep by set_solver. by rewrite IH.
Qed.

Lemma count_printed ps key :
  ps <> [] -> om_wf chars_ltb ps -> Forall param_ok ps ->
  length (filter (fun f => (field_kv f).1 = key) (split_on "&" (print_params ps))) =
  if bool_decide (is_Some (om_find chars_ltb key ps)) then 1 else 0.
Proof.
  intros Hne Hwf Hok. rewrite split_on_print by done. clear Hne.
  induction ps as [|[k v] ps IH]; [done|]. apply om_wf_cons in Hwf as [Hwf Hall].
  apply Forall_cons in Hok as [(_ & Hk & _) Hok]. simpl in Hk.
  rewrite fmap_cons, filter_cons. cbn [fst snd]. rewrite field_kv_eq by done. cbn [fst om_find].
  specialize (IH Hwf Hok). case_decide as E; [subst key|].
  - rewrite !ltb_irrefl. rewrite bool_decide_eq_true_2 by eauto. cbn [length]. rewrite IH.
    rewrite om_find_above by (apply _ || done). done.
  - rewrite IH. destruct (chars_ltb key k) eqn:E1.
    + rewrite om_find_above; [done|]. eapply Forall_impl; [exact Hall|].
      intros b Hb. eapply (ltb_trans (ltb := chars_ltb)); [exact E1|exact Hb].
    + destruct (chars_ltb k key) eqn:E2; [done|]. destruct E. by apply (ltb_total (ltb := chars_ltb)).
Qed.

Lemma print_head_free u : wf_uri u -> "?" ∉ protocol_ u -> "?" ∉ print_head u.
Proof.
  intros Hwf Hp. pose proof (print_authority_free u "?" Hwf (or_intror eq_refl)) as Ha.
  destruct Hwf as (_ & _ & _ & _ & _ & Hpath & _).
  unfold print_authority, print_host_port in Ha. unfold print_head.
  rewrite !not_elem_of_app in *. split_and!; try tauto.
  - vm_compute. set_solver.
  - destruct Hpath as [-> |(p & -> & Hq)]; [set_solver|]. apply not_elem_of_cons. by split.
Qed.

Lemma CountUriParam_printed u key :
  wf_uri u -> "?" ∉ protocol_ u -> params_ u <> [] ->
  CountUriParam (ToUriString u) key =
  if bool_decide (is_Some (om_find chars_ltb key (params_ u))) then 1 else 0.
Proof.
  intros Hwf Hp Hne. unfold ToUriString.
  assert (Valid u = true) as ->.
  { unfold Valid. destruct Hwf as [H _]. by rewrite bool_decide_eq_false_2. }
  cbn [negb]. rewrite (bool_decide_eq_false_2 (params_ u = [])) by done.
  unfold CountUriParam. unfold find_char. rewrite drop_0, pos_of_here by (by apply print_head_free).
  cbn [fmap option_fmap option_map Nat.add].
  replace (print_head u ++ "?" :: print_params (params_ u))
    with ((print_head u ++ ["?"]) ++ print_params (params_ u)) by (by rewrite <-app_assoc).
  replace (length (print_head u) + 1) with (length (print_head u ++ ["?"])) by (by rewrite length_app).
  destruct Hwf as (_ & _ & _ & _ & _ & _ & Hom & Hok).
  rewrite CountUriParam_loop_spec by (rewrite !length_app; simpl; lia). by rewrite count_printed.
Qed.

Lemma hex_not c : IsAsciiHexDigit c = true -> c <> "&".
Proof. intros H ->. by vm_compute in H. Qed.

Lemma SetParam_wf version u :
  IsValidSnapshotVersionToken version = true -> wf_uri u ->
  wf_uri (SetParam kSnapshotVersionParam version u).
Proof.
  intros Hv (H1 & H2 & H3 & H4 & H5 & H6 & H7 & H8). unfold wf_uri, SetParam. simpl.
  split_and!; try tauto; try lia.
  - apply om_set_wf; [apply _|done].
  - apply om_set_ok; [|done]. unfold param_ok. cbn [fst snd].
    split_and!; [vm_compute; set_solver|vm_compute; set_solver|].
    intros Hin. unfold IsValidSnapshotVersionToken in Hv. apply andb_true_iff in Hv as [_ Hv].
    rewrite forallb_forall in Hv. by destruct (hex_not "&" (Hv "&" (proj1 (list_elem_of_In _ _) Hin))).
Qed.

(** What the manager appends it reads back.  When a reported spec is
    accepted and a valid version is appended to it, the scanner that decides
    visibility finds exactly that version in the stored text; the URI must not
    have a query delimiter in its protocol or an ambiguous user-info. *)
Theorem appended_version_is_read name uri version sz out :
  versioned_spec name uri version = Some (sz, out) ->
  IsValidSnapshotVersionToken version = true ->
  "?" ∉ protocol_ (Parse uri).1 -> at_unambiguous (Parse uri).1 ->
  InspectSnapshotUriForVisibility out false = Some version.
Proof.
  rewrite versioned_spec_reference. unfold reference_spec. intros Hr Hv Hq Hat.
  destruct (bool_decide (name = [])); [done|]. cbn [orb] in Hr.
  destruct (Valid (Parse uri).1) eqn:Hvalid; [|done]. cbn [negb orb] in Hr.
  destruct (HasParam kSnapshotVersionParam (Parse uri).1) eqn:Hh; [done|]. simplify_eq.
  assert (Hp : Parse uri = ((Parse uri).1, true)).
  { unfold Parse in Hvalid |- *. repeat case_match; done. }
  set (u := (Parse uri).1) in *. assert (Hwf : wf_uri u).
  { apply (Parse_wf uri); [done|]. unfold Valid in Hvalid. by reflect_bools. }
  set (u' := SetParam kSnapshotVersionParam version u).
  pose proof (SetParam_wf version u Hv Hwf) as Hwf'. fold u' in Hwf'.
  assert (Hfind : om_find chars_ltb kSnapshotVersionParam (params_ u') = Some version).
  { apply om_find_set_eq. apply _. }
  assert (Hout : ToUriStringWithExtraParam kSnapshotVersionParam version u = ToUriString u').
  { destruct Hwf as (_ & _ & _ & _ & _ & _ & Hom & _). unfold ToUriStringWithExtraParam, ToUriString.
    rewrite Hvalid, Hh. replace (Valid u') with true by (by rewrite <-Hvalid).
    rewrite (bool_decide_eq_false_2 (kSnapshotVersionParam = [])) by done. cbn [negb orb].
    rewrite append_with_extra_spec; [|done|].
    - rewrite bool_decide_eq_false_2; [done|]. intros E. by rewrite E in Hfind.
    - unfold HasParam in Hh. reflect_bools. by apply eq_None_not_Some. }
  rewrite InspectSnapshotUriForVisibility_reference, Hout.
  unfold inspect_reference, ParseSnapshotUriInfo_text.
  rewrite <-(uri_is_printed u' Hwf') at 1. rewrite (CountUriParam_printed u'); [|done|done|].
  2: { intros E. by rewrite E in Hfind. }
  rewrite Hfind. rewrite (bool_decide_eq_true_2 (is_Some _)) by eauto. cbn [Nat.eqb negb].
  rewrite <-(uri_is_printed u' Hwf'). rewrite (Parse_printed u' Hwf') by done. cbn [fst].
  replace (Valid u') with true by (by rewrite <-Hvalid).
  rewrite bool_decide_eq_true_2 by done. cbn [andb].
  unfold ParseSnapshotUriInfo, GetParam. rewrite Hfind. replace (Valid u') with true by (by rewrite <-Hvalid).
  cbn [negb default]. simpl. by rewrite Hv.
Qed.

Definition sample_token : chars := chars_of "0123456789abcdef0123456789ABCDEF".

Lemma appended_version_is_read_witness :
  InspectSnapshotUriForVisibility
    (chars_of "hf3fs://h:80/a?blkid=3&s_version=0123456789abcdef0123456789ABCDEF&size=16") false = Some sample_token.
Proof.
  apply (appended_version_is_read (chars_of "spec") (chars_of "hf3fs://h:80/a?size=16&blkid=3") sample_token 16).
  - vm_compute. reflexivity.
  - vm_compute. reflexivity.
  - vm_compute. set_solver.
  - intros _. vm_compute. set_solver.
Defined.

(** The restriction on the protocol is needed: such a URI is accepted from the
    reporter and stored, and the stored text is then refused by the scanner. *)
Lemma accepted_but_never_visible :
  exists out, versioned_spec (chars_of "spec") (chars_of "a?b://h/x") sample_token = Some (0%Z, out) /\
    Valid (Parse out).1 = true /\ InspectSnapshotUriForVisibility out false = None.
Proof. eexists. split; [vm_compute; reflexivity|]. split; vm_compute; reflexivity. Qed.
