(* ===== verification/EventReport.v ===== *)
(** * EventReport: reporters, snapshots and cleanup leases

    Models [data_storage/event_report_backend.{h,cc}].  A reporter, identified by
    instance and host, registers, sends heartbeats and reports the blocks it
    holds, either as deltas or as a complete snapshot; the backend decides who is
    alive, which generation of reported metadata is current, and whether a
    background task may delete metadata.

    The state is one record.  [instance_nodes_] and [node_generation_] are maps
    of maps in the source; an inner map that is empty behaves like an absent one
    everywhere, so both are maps from the reporter key here.  Every definition
    below is one critical section: an operation that releases the node table's
    lock (to wait, or to take the lifecycle lock) is several definitions.  The
    clock is the argument [now_ms], the random source the argument [draws].
    Gauges are not modelled.  [EventSafe] composes the sections into an
    interleaved system. *)

From stdpp Require Import base gmap sets list strings.
From Stdlib Require Import ZArith Lia Ascii.
From S2P Require Import Prelude StandardUri MetaTypes SnapshotUri.

Local Open Scope Z_scope.

(** [ReporterSnapshotKey]: instance id and host. *)
Definition ReporterSnapshotKey : Type := chars * chars.
Definition instance_id (k : ReporterSnapshotKey) : chars := k.1.
Definition host_ip_port (k : ReporterSnapshotKey) : chars := k.2.

Record NodeInfo := mkNodeInfo {
  last_heartbeat_ms : Z;
  available : bool;
  unavailable_since_ms : Z;
  mediums : list chars;
  last_system_status : list (chars * chars);
}.

Record LifecycleFence := mkFence { generation : Z; registered : bool }.

Record SnapshotVersionState := mkVersionState {
  committed : chars;
  in_flight : chars;
  attempt_epoch : Z;
  active_delta_mutations : Z;
  last_commit_ms : Z;
  strict_query_visibility : bool;
}.

Record EventReportBackend := mkBackend {
  is_open : bool;
  is_available : bool;
  retired : bool;
  storage_type : DataStorageType;
  heartbeat_timeout_ms : Z;
  cleanup_grace_ms : Z;
  snapshot_min_interval_ms : Z;
  snapshot_delta_drain_timeout_ms : Z;
  maintenance_recovery_deadline_ms : Z;
  lifecycle_fences : gmap ReporterSnapshotKey LifecycleFence;
  instance_nodes : gmap ReporterSnapshotKey NodeInfo;
  node_generation : gmap ReporterSnapshotKey Z;
  snapshot_versions : gmap ReporterSnapshotKey SnapshotVersionState;
  snapshot_token_owners : gmap chars ReporterSnapshotKey;
}.

Implicit Types (s : EventReportBackend) (k : ReporterSnapshotKey).

(** *** Field updates *)

Definition set_flags (o a r : bool) s : EventReportBackend :=
  mkBackend o a r (storage_type s) (heartbeat_timeout_ms s) (cleanup_grace_ms s)
    (snapshot_min_interval_ms s) (snapshot_delta_drain_timeout_ms s) (maintenance_recovery_deadline_ms s)
    (lifecycle_fences s) (instance_nodes s) (node_generation s) (snapshot_versions s) (snapshot_token_owners s).

Definition set_deadline (d : Z) s : EventReportBackend :=
  mkBackend (is_open s) (is_available s) (retired s) (storage_type s) (heartbeat_timeout_ms s) (cleanup_grace_ms s)
    (snapshot_min_interval_ms s) (snapshot_delta_drain_timeout_ms s) d
    (lifecycle_fences s) (instance_nodes s) (node_generation s) (snapshot_versions s) (snapshot_token_owners s).

(** The tables guarded by the node-table lock and the fence table, together. *)
Definition set_tables (f : gmap ReporterSnapshotKey LifecycleFence) (n : gmap ReporterSnapshotKey NodeInfo)
    (g : gmap ReporterSnapshotKey Z) (v : gmap ReporterSnapshotKey SnapshotVersionState)
    (o : gmap chars ReporterSnapshotKey) s : EventReportBackend :=
  mkBackend (is_open s) (is_available s) (retired s) (storage_type s) (heartbeat_timeout_ms s) (cleanup_grace_ms s)
    (snapshot_min_interval_ms s) (snapshot_delta_drain_timeout_ms s) (maintenance_recovery_deadline_ms s)
    f n g v o.

Definition set_fence k (f : LifecycleFence) s : EventReportBackend :=
  set_tables (<[k := f]> (lifecycle_fences s)) (instance_nodes s) (node_generation s) (snapshot_versions s)
    (snapshot_token_owners s) s.

Definition set_node k (n : NodeInfo) s : EventReportBackend :=
  set_tables (lifecycle_fences s) (<[k := n]> (instance_nodes s)) (node_generation s) (snapshot_versions s)
    (snapshot_token_owners s) s.

Definition set_generation k (g : Z) s : EventReportBackend :=
  set_tables (lifecycle_fences s) (instance_nodes s) (<[k := g]> (node_generation s)) (snapshot_versions s)
    (snapshot_token_owners s) s.

Definition set_versions (v : gmap ReporterSnapshotKey SnapshotVersionState) (o : gmap chars ReporterSnapshotKey) s
    : EventReportBackend :=
  set_tables (lifecycle_fences s) (instance_nodes s) (node_generation s) v o s.

(** [node_generation_[instance_id][host_ip_port]] read, an absent entry being
    zero. *)
Definition GetNodeGeneration s k : Z := default 0 (node_generation s !! k).

(** ** The backend as a whole *)

Definition AcceptingReports s : bool := negb (retired s) && (negb (is_open s) || is_available s).

Definition Available s : bool := is_open s && is_available s.

Definition int64_max : Z := 2 ^ 63 - 1.

(** The deadline [ResetMaintenanceRecoveryGrace] stores: saturating sums. *)
Definition recovery_deadline (now_ms heartbeat_timeout grace : Z) : Z :=
  let heartbeat_timeout := Z.max 0 heartbeat_timeout in
  let grace := Z.max 0 grace in
  let wait_ms := if int64_max - grace <? heartbeat_timeout then int64_max else heartbeat_timeout + grace in
  if int64_max - wait_ms <? now_ms then int64_max else now_ms + wait_ms.

Definition ResetMaintenanceRecoveryGrace (now_ms : Z) s : EventReportBackend :=
  set_deadline (recovery_deadline now_ms (heartbeat_timeout_ms s) (cleanup_grace_ms s)) s.

Definition GetMaintenanceRecoveryGraceRemainingMs (now_ms : Z) s : Z :=
  if now_ms <? maintenance_recovery_deadline_ms s then maintenance_recovery_deadline_ms s - now_ms else 0.

Definition SetAvailable (a : bool) (now_ms : Z) s : EventReportBackend :=
  let s := set_flags (is_open s) a (retired s) s in
  if a then ResetMaintenanceRecoveryGrace now_ms s else s.

(** [EventReportStorageSpec]: its timings, less the checker's interval, which only
    paces its thread. *)
Record EventReportStorageSpec := mkSpec {
  spec_heartbeat_timeout_ms : Z;
  spec_cleanup_grace_ms : Z;
  spec_snapshot_min_interval_ms : Z;
  spec_snapshot_delta_drain_timeout_ms : Z;
}.

Definition IsEventReportStorageType (t : DataStorageType) : bool :=
  bool_decide (t = DATA_STORAGE_TYPE_EVENT_REPORT_L1P5) || bool_decide (t = DATA_STORAGE_TYPE_EVENT_REPORT_L2).

(** [Open] and [DoOpen]; [spec] is [None] when the configuration's storage spec
    is of another kind, [thread_started] whether the checker thread started. *)
Definition Open (type : DataStorageType) (spec : option EventReportStorageSpec) (thread_started : bool) (now_ms : Z)
    s : ErrorCode * EventReportBackend :=
  if is_open s || retired s then (EC_ERROR, s)
  else
    let s := mkBackend (is_open s) (is_available s) (retired s) type (heartbeat_timeout_ms s) (cleanup_grace_ms s)
      (snapshot_min_interval_ms s) (snapshot_delta_drain_timeout_ms s) (maintenance_recovery_deadline_ms s)
      (lifecycle_fences s) (instance_nodes s) (node_generation s) (snapshot_versions s) (snapshot_token_owners s) in
    match spec with
    | None => (EC_ERROR, s)
    | Some spec =>
        if negb (IsEventReportStorageType type) then (EC_ERROR, s)
        else
          let s := mkBackend true (is_available s) (retired s) type
            (spec_heartbeat_timeout_ms spec) (spec_cleanup_grace_ms spec)
            (spec_snapshot_min_interval_ms spec) (spec_snapshot_delta_drain_timeout_ms spec)
            (maintenance_recovery_deadline_ms s)
            (lifecycle_fences s) (instance_nodes s) (node_generation s) (snapshot_versions s)
            (snapshot_token_owners s) in
          let s := SetAvailable true now_ms s in
          if thread_started then (EC_OK, s)
          else
            let s := SetAvailable false now_ms s in
            (EC_ERROR, set_flags false (is_available s) (retired s) s)
    end.

(** [Close] first retires the backend, then, once no lifecycle lease is held,
    clears the tables. *)
Definition Close_retire s : EventReportBackend := set_flags false false true s.
Definition Close_clear s : EventReportBackend := set_tables ∅ ∅ ∅ ∅ ∅ s.

(** ** Tokens *)

Definition hex_char (d : Z) : ascii := nth (Z.to_nat d) (chars_of "0123456789abcdef") "0"%char.

(** [GenerateSnapshotVersionToken] on sixteen random values, each truncated to a
    byte. *)
Definition token_byte (i : nat) (random : Z) : Z :=
  let byte := random mod 256 in
  if bool_decide (i = 6%nat) then Z.lor (Z.land byte 15) 64
  else if bool_decide (i = 8%nat) then Z.lor (Z.land byte 63) 128
  else byte.

Definition GenerateSnapshotVersionToken (randoms : list Z) : chars :=
  mjoin (imap (fun i r => let b := token_byte i r in [hex_char (Z.shiftr b 4); hex_char (Z.land b 15)])
           (take 16 (randoms ++ replicate 16 0))).

(** The [token_in_use] lambda. *)
Definition token_in_use s (token : chars) : bool :=
  bool_decide (is_Some (snapshot_token_owners s !! token))
  || existsb (fun e => bool_decide (in_flight e.2 = token)) (map_to_list (snapshot_versions s)).

(** The [do ... while (token_in_use(candidate))] loop on the successive outputs
    of the random source: the first token not in use, [None] while every draw so
    far was. *)
Fixpoint draw_token s (draws : list (list Z)) : option chars :=
  match draws with
  | [] => None
  | r :: draws =>
      let candidate := GenerateSnapshotVersionToken r in
      if token_in_use s candidate then draw_token s draws else Some candidate
  end.

(** ** Reporter lifecycle *)

Definition fence_of s k : LifecycleFence := default (mkFence 0 false) (lifecycle_fences s !! k).

(** [GetOrCreateLifecycleFence]: the fence exists afterwards. *)
Definition GetOrCreateLifecycleFence k s : EventReportBackend := set_fence k (fence_of s k) s.
Definition FindLifecycleFence s k : option LifecycleFence := lifecycle_fences s !! k.

Definition valid_reporter k : bool :=
  negb (bool_decide (instance_id k = [])) && IsValidLocationIdComponent (host_ip_port k).

(** The [merge_mediums] lambda. *)
Definition merge_mediums (known new : list chars) : list chars :=
  foldl (fun acc m => if bool_decide (m ∈ acc) then acc else acc ++ [m]) known new.

Definition fresh_node (now_ms : Z) (ms : list chars) : NodeInfo := mkNodeInfo now_ms true 0 ms [].

(** [++node_generation_[...]] with the fence following it, registered. *)
Definition bump_generation k s : EventReportBackend :=
  let g := u64 (GetNodeGeneration s k + 1) in
  set_fence k (mkFence g true) (set_generation k g s).

(** [RegisterNode]; the reporter lifecycle lock is held exclusively. *)
Definition RegisterNode k (ms : list chars) (now_ms : Z) s : ErrorCode * EventReportBackend :=
  if negb (valid_reporter k) || negb (forallb IsValidLocationIdComponent ms) then (EC_BADARGS, s)
  else if negb (AcceptingReports s) then (EC_INSTANCE_NOT_EXIST, s)
  else
    let s := bump_generation k (GetOrCreateLifecycleFence k s) in
    match instance_nodes s !! k with
    | Some info =>
        (EC_OK, set_node k (mkNodeInfo now_ms true 0 (merge_mediums (mediums info) ms) (last_system_status info)) s)
    | None => (EC_OK, set_node k (fresh_node now_ms ms) s)
    end.

(** [EnsureNodeRegistered] in its three sections: the read-only check under the
    shared node lock (true: the operation returns [EC_OK]), the merge under the
    exclusive node lock ([None]: go on), and the creation under the exclusive
    lifecycle lock. *)
Definition Ensure_known k (ms : list chars) s : bool :=
  match instance_nodes s !! k with
  | Some info => forallb (fun m => bool_decide (m ∈ mediums info)) ms
  | None => false
  end.

Definition merge_node k (ms : list chars) (info : NodeInfo) s : EventReportBackend :=
  set_node k (mkNodeInfo (last_heartbeat_ms info) (available info) (unavailable_since_ms info)
                (merge_mediums (mediums info) ms) (last_system_status info)) s.

Definition Ensure_merge k (ms : list chars) s : option ErrorCode * EventReportBackend :=
  if negb (AcceptingReports s) then (Some EC_INSTANCE_NOT_EXIST, s)
  else
    match instance_nodes s !! k with
    | Some info => (Some EC_OK, merge_node k ms info s)
    | None => (None, s)
    end.

Definition Ensure_create k (ms : list chars) (now_ms : Z) s : ErrorCode * EventReportBackend :=
  let s := GetOrCreateLifecycleFence k s in
  if negb (AcceptingReports s) then (EC_INSTANCE_NOT_EXIST, s)
  else
    match instance_nodes s !! k with
    | Some info =>
        let g := GetNodeGeneration s k in
        (EC_OK, set_fence k (mkFence g true) (set_generation k g (merge_node k ms info s)))
    | None =>
        if bool_decide (is_Some (node_generation s !! k)) then (EC_NODE_NOT_REGISTERED, s)
        else (EC_OK, set_node k (fresh_node now_ms ms) (bump_generation k s))
    end.

(** [EnsureNodeRegistered] with nothing in between. *)
Definition EnsureNodeRegistered k (ms : list chars) (now_ms : Z) s : ErrorCode * EventReportBackend :=
  if negb (valid_reporter k) || negb (forallb IsValidLocationIdComponent ms) then (EC_BADARGS, s)
  else if negb (AcceptingReports s) then (EC_INSTANCE_NOT_EXIST, s)
  else if Ensure_known k ms s then (EC_OK, s)
  else
    match Ensure_merge k ms s with
    | (Some ec, s) => (ec, s)
    | (None, s) => Ensure_create k ms now_ms s
    end.

(** [UnregisterNodeLocked]. *)
Definition UnregisterNodeLocked k s : ErrorCode * EventReportBackend :=
  let s := set_generation k (GetNodeGeneration s k) s in
  match instance_nodes s !! k with
  | None => (EC_NOENT, s)
  | Some _ =>
      let owners :=
        match snapshot_versions s !! k with
        | Some st => if bool_decide (committed st = []) then snapshot_token_owners s
                     else delete (committed st) (snapshot_token_owners s)
        | None => snapshot_token_owners s
        end in
      (EC_OK, set_tables (lifecycle_fences s) (delete k (instance_nodes s)) (node_generation s)
                (delete k (snapshot_versions s)) owners s)
  end.

(** The fence after an unregistration: the current generation, down. *)
Definition fence_down k s : EventReportBackend :=
  let g := GetNodeGeneration s k in set_fence k (mkFence g false) (set_generation k g s).

Definition UnregisterNode k s : ErrorCode * EventReportBackend :=
  let s := GetOrCreateLifecycleFence k s in
  if retired s then (EC_INSTANCE_NOT_EXIST, s)
  else let '(ec, s) := UnregisterNodeLocked k s in (ec, fence_down k s).

(** [UnregisterNodeForHostDown]: result and generation reported. *)
Definition UnregisterNodeForHostDown k s : (ErrorCode * Z) * EventReportBackend :=
  let s := GetOrCreateLifecycleFence k s in
  if negb (AcceptingReports s) then ((EC_INSTANCE_NOT_EXIST, 0), s)
  else
    let out_generation := GetNodeGeneration s k in
    let s := fence_down k s in
    match instance_nodes s !! k with
    | None => ((EC_OK, out_generation), s)
    | Some _ => let '(ec, s) := UnregisterNodeLocked k s in ((ec, out_generation), s)
    end.

Definition UnregisterNodeIfGeneration k (expected_generation : Z) s : ErrorCode * EventReportBackend :=
  let s := GetOrCreateLifecycleFence k s in
  if retired s then (EC_INSTANCE_NOT_EXIST, s)
  else
    let current_generation := GetNodeGeneration s k in
    if negb (current_generation =? expected_generation) then (EC_MISMATCH, s)
    else
      let '(ec, s) := UnregisterNodeLocked k s in
      (ec, set_fence k (mkFence current_generation false) s).

(** ** Heartbeats and liveness *)

(** [TryPublishSteadyHeartbeatLocked]: [None] when it returns false. *)
Definition TryPublishSteadyHeartbeatLocked k (system_status : list (chars * chars)) (now_ms : Z) s
    : option EventReportBackend :=
  let fence := fence_of s k in
  if negb (registered fence) then None
  else
    match instance_nodes s !! k, node_generation s !! k with
    | Some info, Some g =>
        if negb (generation fence =? g) || negb (available info) then None
        else Some (set_node k (mkNodeInfo now_ms (available info) (unavailable_since_ms info) (mediums info)
                                 system_status) s)
    | _, _ => None
    end.

(** The fast path of [OnHeartbeat], under a shared lifecycle lease: [None] when
    it falls through. *)
Definition OnHeartbeat_fast k (system_status : list (chars * chars)) (now_ms : Z) s
    : option (ErrorCode * EventReportBackend) :=
  let s := GetOrCreateLifecycleFence k s in
  if negb (AcceptingReports s) then Some (EC_INSTANCE_NOT_EXIST, s)
  else (fun s => (EC_OK, s)) <$> TryPublishSteadyHeartbeatLocked k system_status now_ms s.

(** The end of the slow path, on the node found or created. *)
Definition heartbeat_node k (info : NodeInfo) (system_status : list (chars * chars)) (now_ms : Z) s
    : EventReportBackend :=
  let s := if available info then s else bump_generation k s in
  let since := if available info then unavailable_since_ms info else 0 in
  let g := GetNodeGeneration s k in
  let s := set_fence k (mkFence g true) (set_generation k g s) in
  set_node k (mkNodeInfo now_ms true since (mediums info) system_status) s.

(** The slow path, under the exclusive lifecycle lock. *)
Definition OnHeartbeat_slow k (system_status : list (chars * chars)) (now_ms : Z) s
    : ErrorCode * EventReportBackend :=
  let s := GetOrCreateLifecycleFence k s in
  if negb (AcceptingReports s) then (EC_INSTANCE_NOT_EXIST, s)
  else
    match instance_nodes s !! k with
    | Some info => (EC_OK, heartbeat_node k info system_status now_ms s)
    | None =>
        if bool_decide (is_Some (node_generation s !! k)) then (EC_NODE_NOT_REGISTERED, s)
        else
          let info := fresh_node now_ms [] in
          (EC_OK, heartbeat_node k info system_status now_ms (set_node k info (bump_generation k s)))
    end.

Definition OnHeartbeat k (system_status : list (chars * chars)) (now_ms : Z) s : ErrorCode * EventReportBackend :=
  if negb (valid_reporter k) then (EC_BADARGS, s)
  else
    match OnHeartbeat_fast k system_status now_ms s with
    | Some r => r
    | None => OnHeartbeat_slow k system_status now_ms s
    end.

(** [available.exchange(false)], with the moment of the first loss. *)
Definition mark_unavailable (since : Z) (info : NodeInfo) : NodeInfo :=
  mkNodeInfo (last_heartbeat_ms info) false
    (if available info then since else unavailable_since_ms info) (mediums info) (last_system_status info).

Definition SetNodeUnavailable k (now_ms : Z) s : EventReportBackend :=
  match instance_nodes s !! k with
  | None => s
  | Some info => set_node k (mark_unavailable now_ms info) s
  end.

(** The liveness checker's visit of one node, at [now_ms] with the second clock
    reading [fresh_now]: the generation to clean up, if the grace has passed. *)
Definition liveness_visit k (now_ms fresh_now : Z) s : option Z * EventReportBackend :=
  match instance_nodes s !! k with
  | None => (None, s)
  | Some info =>
      let last_hb := last_heartbeat_ms info in
      if (last_hb =? 0) || (now_ms - last_hb <=? heartbeat_timeout_ms s) then (None, s)
      else if fresh_now - last_hb <=? heartbeat_timeout_ms s then (None, s)
      else
        let info := mark_unavailable now_ms info in
        let s := set_node k info s in
        if (0 <? unavailable_since_ms info) && (cleanup_grace_ms s <=? now_ms - unavailable_since_ms info)
        then (Some (GetNodeGeneration s k), s) else (None, s)
  end.

Definition IsNodeRegistered s k : bool := bool_decide (is_Some (instance_nodes s !! k)).
Definition IsNodeAvailable s k : bool := match instance_nodes s !! k with Some info => available info | None => false end.

(** One round of [LivenessCheckerLoop] with nothing in between: the visits in
    the order [order] of the table's iteration, then the generation-checked
    unregistrations; the result is what the cleanup callback is called with. *)
Fixpoint liveness_visits (order : list ReporterSnapshotKey) (now_ms fresh_now : Z) s
    : list (ReporterSnapshotKey * Z) * EventReportBackend :=
  match order with
  | [] => ([], s)
  | k :: order =>
      let '(sel, s) := liveness_visit k now_ms fresh_now s in
      let '(rest, s) := liveness_visits order now_ms fresh_now s in
      (match sel with Some g => (k, g) :: rest | None => rest end, s)
  end.

Fixpoint expire_selected (to_cleanup : list (ReporterSnapshotKey * Z)) s
    : list (ReporterSnapshotKey * Z) * EventReportBackend :=
  match to_cleanup with
  | [] => ([], s)
  | (k, g) :: to_cleanup =>
      let '(ec, s) := UnregisterNodeIfGeneration k g s in
      let '(called, s) := expire_selected to_cleanup s in
      (if bool_decide (ec = EC_OK) then (k, g) :: called else called, s)
  end.

Definition liveness_round (order : list ReporterSnapshotKey) (now_ms fresh_now : Z) s
    : list (ReporterSnapshotKey * Z) * EventReportBackend :=
  let '(to_cleanup, s) := liveness_visits order now_ms fresh_now s in
  expire_selected to_cleanup s.

(** ** Deltas *)

Definition state_of s k : SnapshotVersionState :=
  default (mkVersionState [] [] 0 0 0 false) (snapshot_versions s !! k).

Definition set_state k (st : SnapshotVersionState) s : EventReportBackend :=
  set_versions (<[k := st]> (snapshot_versions s)) (snapshot_token_owners s) s.

Definition with_committed (c : chars) (st : SnapshotVersionState) : SnapshotVersionState :=
  mkVersionState c (in_flight st) (attempt_epoch st) (active_delta_mutations st) (last_commit_ms st)
    (strict_query_visibility st).
Definition with_in_flight (f : chars) (st : SnapshotVersionState) : SnapshotVersionState :=
  mkVersionState (committed st) f (attempt_epoch st) (active_delta_mutations st) (last_commit_ms st)
    (strict_query_visibility st).
Definition with_active (a : Z) (st : SnapshotVersionState) : SnapshotVersionState :=
  mkVersionState (committed st) (in_flight st) (attempt_epoch st) a (last_commit_ms st)
    (strict_query_visibility st).

(** Before the wait of [BeginDeltaMutation]: an error, or [None] to wait. *)
Definition BeginDelta_enter k s : option ErrorCode :=
  if bool_decide (instance_id k = []) || bool_decide (host_ip_port k = []) then Some EC_BADARGS
  else if negb (AcceptingReports s) then Some EC_INSTANCE_NOT_EXIST
  else None.

(** The predicate the delta waits for. *)
Definition snapshot_finished k s : bool :=
  negb (AcceptingReports s)
  || match snapshot_versions s !! k with Some st => bool_decide (in_flight st = []) | None => true end.

(** What a delta is granted: committed version, lifecycle generation, and
    whether a generation was created. *)
Definition delta_grant : Type := chars * Z * bool.

(** The creation of a committed generation on a reporter's first delta:
    [None] when every draw was in use, [Some None] when there is no node. *)
Definition create_committed k (draws : list (list Z)) s : option (option EventReportBackend) :=
  match instance_nodes s !! k with
  | None => Some None
  | Some _ =>
      candidate ← draw_token s draws;
      Some (Some (set_versions (<[k := with_committed candidate (state_of s k)]> (snapshot_versions s))
                    (<[candidate := k]> (snapshot_token_owners s)) s))
  end.

(** The admission itself, once a committed generation exists. *)
Definition count_delta k (created : bool) s : (ErrorCode * option delta_grant) * EventReportBackend :=
  let st := state_of s k in
  if active_delta_mutations st =? u64_max then ((EC_ERROR, None), s)
  else
    let s := set_state k (with_active (active_delta_mutations st + 1) st) s in
    let g := GetNodeGeneration s k in
    ((EC_OK, Some (committed st, g, created)), set_generation k g s).

(** After the wait, which returns the value of its predicate. *)
Definition BeginDelta_resume k (draws : list (list Z)) s
    : option ((ErrorCode * option delta_grant) * EventReportBackend) :=
  if negb (snapshot_finished k s) then Some ((EC_SNAPSHOT_IN_PROGRESS, None), s)
  else if negb (AcceptingReports s) then Some ((EC_INSTANCE_NOT_EXIST, None), s)
  else if bool_decide (committed (state_of s k) = []) then
    r ← create_committed k draws s;
    match r with
    | None => Some ((EC_SNAPSHOT_REQUIRED, None), s)
    | Some s => Some (count_delta k true s)
    end
  else Some (count_delta k false s).

Definition EndDeltaMutation k (expected_snapshot_version : chars) s : EventReportBackend :=
  match snapshot_versions s !! k with
  | None => s
  | Some st =>
      if negb (bool_decide (expected_snapshot_version = []))
         && negb (bool_decide (committed st = expected_snapshot_version)) then s
      else if active_delta_mutations st =? 0 then s
      else set_state k (with_active (active_delta_mutations st - 1) st) s
  end.

(** ** Snapshots *)

(** What [BeginSnapshot] does before it waits: an error with the retry delay, or
    the candidate and the generation it was granted for. *)
Inductive snapshot_entry :=
  | SnapshotRefused (ec : ErrorCode) (retry_after_ms : Z)
  | SnapshotWaiting (candidate : chars) (generation : Z).

Definition rate_limited (now_ms : Z) (st : SnapshotVersionState) s : bool :=
  (0 <? last_commit_ms st) && (0 <? snapshot_min_interval_ms s)
  && (now_ms - last_commit_ms st <? snapshot_min_interval_ms s).

Definition BeginSnapshot_enter k (draws : list (list Z)) (now_ms : Z) s
    : option (snapshot_entry * EventReportBackend) :=
  if bool_decide (instance_id k = []) || bool_decide (host_ip_port k = [])
  then Some (SnapshotRefused EC_BADARGS 0, s)
  else
    let s := GetOrCreateLifecycleFence k s in
    if negb (AcceptingReports s) then Some (SnapshotRefused EC_INSTANCE_NOT_EXIST 0, s)
    else if negb (IsNodeRegistered s k) || negb (registered (fence_of s k))
    then Some (SnapshotRefused EC_SNAPSHOT_REQUIRED 0, s)
    else
      let admitted := generation (fence_of s k) in
      let st := state_of s k in
      let s := set_state k st s in
      if negb (bool_decide (in_flight st = [])) then Some (SnapshotRefused EC_SNAPSHOT_IN_PROGRESS 0, s)
      else if rate_limited now_ms st s
      then Some (SnapshotRefused EC_SNAPSHOT_RATE_LIMITED
                   (snapshot_min_interval_ms s - (now_ms - last_commit_ms st)), s)
      else
        candidate ← draw_token s draws;
        Some (SnapshotWaiting candidate admitted,
              set_state k (mkVersionState (committed st) candidate (u64 (attempt_epoch st + 1))
                             (active_delta_mutations st) (last_commit_ms st) (strict_query_visibility st)) s).

(** The predicate the snapshot waits for. *)
Definition deltas_drained k (candidate : chars) s : bool :=
  negb (AcceptingReports s)
  || match snapshot_versions s !! k with
     | None => true
     | Some st => negb (bool_decide (in_flight st = candidate)) || (active_delta_mutations st =? 0)
     end.

(** Dropping an abandoned candidate. *)
Definition clear_candidate k (candidate : chars) s : EventReportBackend :=
  match snapshot_versions s !! k with
  | Some st => if bool_decide (in_flight st = candidate) then set_state k (with_in_flight [] st) s else s
  | None => s
  end.

(** After the wait: [EC_OK] hands the candidate out. *)
Definition BeginSnapshot_resume k (candidate : chars) s : ErrorCode * EventReportBackend :=
  if negb (AcceptingReports s) then (EC_INSTANCE_NOT_EXIST, clear_candidate k candidate s)
  else if negb (deltas_drained k candidate s) then (EC_SNAPSHOT_IN_PROGRESS, clear_candidate k candidate s)
  else
    match snapshot_versions s !! k with
    | Some st => if bool_decide (in_flight st = candidate) then (EC_OK, s) else (EC_SNAPSHOT_REQUIRED, s)
    | None => (EC_SNAPSHOT_REQUIRED, s)
    end.

Definition CommitSnapshotVersion k (version : chars) (now_ms : Z) s : bool * EventReportBackend :=
  if negb (IsValidSnapshotVersionToken version) then (false, s)
  else
    match snapshot_versions s !! k with
    | None => (false, s)
    | Some st =>
        if negb (bool_decide (in_flight st = version)) then (false, s)
        else
          let owners := if bool_decide (committed st = []) then snapshot_token_owners s
                        else delete (committed st) (snapshot_token_owners s) in
          (true, set_versions
             (<[k := mkVersionState version [] (attempt_epoch st) (active_delta_mutations st) now_ms true]>
                (snapshot_versions s)) (<[version := k]> owners) s)
    end.

(** Under a shared lifecycle lease held for the duration of the call. *)
Definition CommitSnapshotVersionIfGeneration k (version : chars) (expected_generation now_ms : Z) s
    : ErrorCode * EventReportBackend :=
  match FindLifecycleFence s k with
  | None => (EC_NODE_NOT_REGISTERED, s)
  | Some fence =>
      if negb (AcceptingReports s) then (EC_INSTANCE_NOT_EXIST, s)
      else if negb (registered fence) || negb (generation fence =? expected_generation)
      then (EC_NODE_NOT_REGISTERED, s)
      else
        let '(ok, s) := CommitSnapshotVersion k version now_ms s in
        (if ok then EC_OK else EC_ERROR, s)
  end.

(** Under the exclusive lifecycle lock. *)
Definition AbortSnapshotVersion k (version : chars) s : EventReportBackend :=
  if negb (IsValidSnapshotVersionToken version) || bool_decide (instance_id k = [])
     || bool_decide (host_ip_port k = []) then s
  else
    match FindLifecycleFence s k, snapshot_versions s !! k with
    | Some _, Some st =>
        if bool_decide (in_flight st = version)
        then set_state k (mkVersionState (committed st) [] (attempt_epoch st) (active_delta_mutations st)
                            (last_commit_ms st) false) s
        else s
    | _, _ => s
    end.

(** ** Leases

    A lease is a shared lock of the reporter's lifecycle fence, retained by the
    caller; [owns_lock] is the outcome of a [try_to_lock] that may find a writer
    inside.  The definitions say when the lease is handed out. *)

Inductive CleanupLeaseAcquireResult := kAcquired | kBusy | kStale.

#[global] Instance CleanupLeaseAcquireResult_eq_dec : EqDecision CleanupLeaseAcquireResult.
Proof. solve_decision. Defined.

Definition AcquireLifecycleMutationLease k (expected_generation : Z) (owns_lock : bool) s : ErrorCode :=
  match FindLifecycleFence s k with
  | None => EC_NODE_NOT_REGISTERED
  | Some fence =>
      if negb owns_lock then EC_NODE_NOT_REGISTERED
      else if negb (AcceptingReports s) then EC_INSTANCE_NOT_EXIST
      else if negb (registered fence) || negb (generation fence =? expected_generation)
      then EC_NODE_NOT_REGISTERED else EC_OK
  end.

Definition AcquireLifecycleCleanupLease k (expected_generation : Z) s : ErrorCode :=
  match FindLifecycleFence s k with
  | None => EC_MISMATCH
  | Some fence =>
      if negb (AcceptingReports s) || registered fence || negb (generation fence =? expected_generation)
      then EC_MISMATCH else EC_OK
  end.

Definition AcquireSnapshotCleanupLease k (expected_generation : Z) (expected_snapshot_version : chars)
    (expected_attempt_epoch : Z) s : ErrorCode :=
  match FindLifecycleFence s k with
  | None => EC_MISMATCH
  | Some fence =>
      if negb (AcceptingReports s) || negb (registered fence)
         || negb (generation fence =? expected_generation) then EC_MISMATCH
      else
        match snapshot_versions s !! k with
        | None => EC_MISMATCH
        | Some st =>
            if negb (bool_decide (committed st = expected_snapshot_version))
               || (negb (expected_attempt_epoch =? 0) && negb (attempt_epoch st =? expected_attempt_epoch))
            then EC_MISMATCH else EC_OK
        end
  end.

Definition AcquireDownLifecycleCleanupLease k (expected_generation : Z) (owns_lock : bool) s
    : CleanupLeaseAcquireResult :=
  match FindLifecycleFence s k with
  | None => kStale
  | Some fence =>
      if negb owns_lock then kBusy
      else if negb (generation fence =? expected_generation) then kStale
      else if registered fence then kBusy else kAcquired
  end.

(** Result and generation; the fence is created when missing. *)
Definition AcquireAbsentReporterCleanupLease k (owns_lock : bool) s
    : (CleanupLeaseAcquireResult * Z) * EventReportBackend :=
  let s := GetOrCreateLifecycleFence k s in
  let fence := fence_of s k in
  if negb owns_lock then ((kBusy, 0), s)
  else if registered fence then ((kStale, 0), s) else ((kAcquired, generation fence), s).

Inductive MaintenanceCleanupReason := kStaleSnapshot | kDownHost | kRecoveryAbsentHost.

Record MaintenanceCleanupToken := mkToken {
  reason : MaintenanceCleanupReason;
  reporter_key : ReporterSnapshotKey;
  lifecycle_generation : Z;
  committed_version : chars;
  snapshot_attempt_epoch : Z;
}.

Definition AcquireMaintenanceBackendLease (owns_lock : bool) s : CleanupLeaseAcquireResult :=
  if negb owns_lock || negb (AcceptingReports s) then kBusy else kAcquired.

Definition AcquireMaintenanceCleanupLease (token : MaintenanceCleanupToken) (owns_lock : bool) (now_ms : Z) s
    : CleanupLeaseAcquireResult * EventReportBackend :=
  if negb (AcceptingReports s) then (kBusy, s)
  else
    let k := reporter_key token in
    match reason token with
    | kStaleSnapshot =>
        (match FindLifecycleFence s k with
         | None => kStale
         | Some fence =>
             if negb owns_lock || negb (AcceptingReports s) then kBusy
             else if negb (registered fence) || negb (generation fence =? lifecycle_generation token) then kStale
             else
               match snapshot_versions s !! k with
               | None => kStale
               | Some st =>
                   if negb (strict_query_visibility st)
                      || negb (bool_decide (committed st = committed_version token))
                      || negb (attempt_epoch st =? snapshot_attempt_epoch token)
                   then kStale else kAcquired
               end
         end, s)
    | kDownHost => (AcquireDownLifecycleCleanupLease k (lifecycle_generation token) owns_lock s, s)
    | kRecoveryAbsentHost =>
        if now_ms <? maintenance_recovery_deadline_ms s then (kBusy, s)
        else
          let '((r, generation), s) := AcquireAbsentReporterCleanupLease k owns_lock s in
          (if bool_decide (r = kAcquired) && negb (generation =? lifecycle_generation token) then kStale else r, s)
    end.

(** ** Location ids *)

(** [ToString(DataStorageType)]. *)
Definition type_token (t : DataStorageType) : chars :=
  chars_of match t with
  | DATA_STORAGE_TYPE_UNKNOWN => "unknown"
  | DATA_STORAGE_TYPE_HF3FS => "hf3fs"
  | DATA_STORAGE_TYPE_VCNS_HF3FS => "vcns_hf3fs"
  | DATA_STORAGE_TYPE_MOONCAKE => "mooncake"
  | DATA_STORAGE_TYPE_TAIR_MEMPOOL => "pace"
  | DATA_STORAGE_TYPE_TAIR_MEMPOOL_SSD => "pace_ssd"
  | DATA_STORAGE_TYPE_NFS => "file"
  | DATA_STORAGE_TYPE_DUMMY => "dummy"
  | DATA_STORAGE_TYPE_EVENT_REPORT_L1P5 => "event_report_l1p5"
  | DATA_STORAGE_TYPE_EVENT_REPORT_L2 => "event_report_l2"
  end.

Definition BuildLocationId (medium host : chars) s : chars :=
  if negb (IsValidLocationIdComponent medium) || negb (IsValidLocationIdComponent host) then []
  else chars_of "kvs#" ++ type_token (storage_type s) ++ "#"%char :: medium ++ "#"%char :: host.

(** [ParseLocationIdView]: medium and host. *)
Definition ParseLocationIdView (location_id : chars) s : option (chars * chars) :=
  match ParseEventReportLocationIdView location_id with
  | None => None
  | Some (type, medium, host) =>
      match storage_type s with
      | DATA_STORAGE_TYPE_EVENT_REPORT_L1P5 =>
          if bool_decide (type = chars_of "event_report_l1p5") then Some (medium, host) else None
      | DATA_STORAGE_TYPE_EVENT_REPORT_L2 =>
          if bool_decide (type = chars_of "event_report_l2") then Some (medium, host) else None
      | _ => None
      end
  end.

Definition HostSuffix (host : chars) : chars := "#"%char :: host.

(** ** Maintenance probes *)

Inductive MaintenanceProbeUnknownReason :=
  | kBackendUnavailable | kReporterIdentityMalformed | kSnapshotState | kLocationMalformed | kRecoveryGrace.

(** [MaintenanceLocationProbeResult]: the token accompanies only a deletion, the
    reason only an unknown. *)
Inductive MaintenanceLocationProbeResult :=
  | Keep
  | DeleteMetadata (token : MaintenanceCleanupToken)
  | Unknown (why : MaintenanceProbeUnknownReason).

Record MaintenanceLocationProbe := mkProbe {
  probe_instance : chars;
  probe_location_id : chars;
  probe_uris : list chars;
}.

(** The loop over a location's URIs: whether one is current, whether one is
    malformed. *)
Definition inspect_uris (st : SnapshotVersionState) (uris : list chars) : bool * bool :=
  foldl (fun acc uri_text =>
    match InspectSnapshotUriForVisibility uri_text false with
    | None => (acc.1, true)
    | Some version =>
        (acc.1 || bool_decide (version = committed st)
         || (negb (bool_decide (in_flight st = [])) && bool_decide (version = in_flight st)), acc.2)
    end) (false, false) uris.

Definition ProbeLocation (now_ms : Z) s (probe : MaintenanceLocationProbe) : MaintenanceLocationProbeResult :=
  if bool_decide (probe_instance probe = []) then Unknown kReporterIdentityMalformed
  else
    match ParseLocationIdView (probe_location_id probe) s with
    | None => Unknown kReporterIdentityMalformed
    | Some (_, host) =>
        let k := (probe_instance probe, host) in
        match instance_nodes s !! k with
        | Some node =>
            if negb (available node) then Keep
            else
              match snapshot_versions s !! k with
              | None => Unknown kSnapshotState
              | Some st =>
                  if bool_decide (committed st = []) || negb (strict_query_visibility st)
                  then Unknown kSnapshotState
                  else
                    let '(contains_current, malformed) := inspect_uris st (probe_uris probe) in
                    if contains_current then Keep
                    else if malformed then Unknown kLocationMalformed
                    else DeleteMetadata (mkToken kStaleSnapshot k (GetNodeGeneration s k)
                                           (committed st) (attempt_epoch st))
              end
        | None =>
            match node_generation s !! k with
            | Some g => DeleteMetadata (mkToken kDownHost k g [] 0)
            | None =>
                if now_ms <? maintenance_recovery_deadline_ms s then Unknown kRecoveryGrace
                else DeleteMetadata (mkToken kRecoveryAbsentHost k 0 [] 0)
            end
        end
    end.

Definition ProbeLocationsForMaintenance (now_ms : Z) (probes : list MaintenanceLocationProbe) s
    : list MaintenanceLocationProbeResult :=
  if negb (AcceptingReports s) then (fun _ => Unknown kBackendUnavailable) <$> probes
  else ProbeLocation now_ms s <$> probes.

(** ** Queries *)

Definition GetSnapshotVersion s k : chars := committed (state_of s k).
Definition GetSnapshotVersionTokens s k : chars * chars := (committed (state_of s k), in_flight (state_of s k)).
Definition GetSnapshotAttemptEpoch s k : Z := attempt_epoch (state_of s k).

(** [GetQueryVisibilityState]: [None] is the result false, otherwise whether
    visibility is strict and the committed version. *)
Definition GetQueryVisibilityState s k : option (bool * chars) :=
  if negb (AcceptingReports s) then None
  else
    match instance_nodes s !! k with
    | None => None
    | Some node =>
        if negb (available node) then None
        else Some (strict_query_visibility (state_of s k), committed (state_of s k))
    end.

(** [GetQueryVisibilitySnapshot] of an instance: the state of each queryable
    host. *)
Definition GetQueryVisibilitySnapshot s (instance : chars) : gmap chars (bool * chars) :=
  if negb (AcceptingReports s) then ∅
  else
    list_to_map (omap (fun e : ReporterSnapshotKey * NodeInfo =>
      if bool_decide (instance_id e.1 = instance) && available e.2
      then Some (host_ip_port e.1, (strict_query_visibility (state_of s e.1), committed (state_of s e.1)))
      else None) (map_to_list (instance_nodes s))).

(** [MightExist] of one parsed URI. *)
Definition MightExist_one s (uri : StandardUri) : bool :=
  match ParseSnapshotUriInfo uri with
  | None => false
  | Some version =>
      match snapshot_token_owners s !! version with
      | None => false
      | Some k =>
          match snapshot_versions s !! k with
          | None => false
          | Some st =>
              if negb (bool_decide (committed st = version)) then false
              else match instance_nodes s !! k with Some node => available node | None => false end
          end
      end
  end.

Definition MightExist (uris : list StandardUri) s : list bool :=
  if negb (AcceptingReports s) then (fun _ => false) <$> uris else MightExist_one s <$> uris.

(** [IsEventReportLocationReadable] of the cache manager. *)
Definition IsEventReportLocationReadable (uris : list chars) (uri_structure_prevalidated : bool)
    (strict : bool) (committed_version : chars) : bool :=
  if bool_decide (uris = []) then false
  else
    match mapM (fun u => InspectSnapshotUriForVisibility u uri_structure_prevalidated) uris with
    | None => false
    | Some versions =>
        negb strict
        || existsb (fun v => negb (bool_decide (v = [])) && bool_decide (v = committed_version)) versions
    end.

(** [IsSnapshotLocationStaleForCleanup] of [manager/event_report_cleanup_util.cc]
    on a location's id and URIs. *)
Fixpoint stale_scan (committed_version in_flight_version : chars) (preserve_in_flight : bool)
    (contains_committed contains_in_flight : bool) (uris : list chars) : bool :=
  match uris with
  | [] => negb contains_committed && negb contains_in_flight
  | uri :: uris =>
      if (CountUriParam uri kSnapshotVersionParam =? 0)%nat
      then stale_scan committed_version in_flight_version preserve_in_flight contains_committed contains_in_flight uris
      else
        match ParseSnapshotUriInfo_text uri with
        | None => false
        | Some version =>
            stale_scan committed_version in_flight_version preserve_in_flight
              (contains_committed || (negb (bool_decide (committed_version = []))
                                      && bool_decide (version = committed_version)))
              (contains_in_flight || (preserve_in_flight && negb (bool_decide (in_flight_version = []))
                                      && bool_decide (version = in_flight_version))) uris
        end
  end.

Definition IsSnapshotLocationStaleForCleanup s (instance location_id : chars) (uris : list chars)
    (preserve_in_flight : bool) : bool :=
  match ParseLocationIdView location_id s with
  | None => false
  | Some (_, host) =>
      let '(committed_version, in_flight_version) := GetSnapshotVersionTokens s (instance, host) in
      match uris with
      | [] => true
      | _ => stale_scan committed_version in_flight_version preserve_in_flight false false uris
      end
  end.

(** ** Lemmas: location ids *)

Lemma valid_component_spec c : IsValidLocationIdComponent c = true <-> c <> [] /\ "#"%char ∉ c.
Proof.
  unfold IsValidLocationIdComponent, find_char. rewrite drop_0, andb_true_iff, negb_true_iff.
  rewrite bool_decide_eq_false, bool_decide_eq_true. split; intros [H1 H2]; (split; [done|]).
  - destruct (first_sep "#" c) as [|(f & tl & -> & Hf)]; [done|]. by rewrite pos_of_here in H2.
  - by rewrite pos_of_None.
Qed.

Definition event_type (t : chars) : Prop := t = chars_of "event_report_l1p5" \/ t = chars_of "event_report_l2".

Lemma event_type_free t : event_type t -> "#"%char ∉ t /\ t <> [].
Proof. by intros [-> | ->]; (split; [vm_compute; set_solver|]). Qed.

(** The parser on a text split at its separators. *)
Lemma parse_location_parts t m h :
  event_type t -> "#"%char ∉ m -> m <> [] -> h <> [] ->
  ParseEventReportLocationIdView (chars_of "kvs#" ++ t ++ "#"%char :: m ++ "#"%char :: h) =
  if bool_decide (find_char "#" h 0 = None) then Some (t, m, h) else None.
Proof.
  intros Ht Hm Hmn Hh. destruct (event_type_free t Ht) as [Htf Htn].
  unfold ParseEventReportLocationIdView. set (id := _ ++ _).
  assert (Hlen : length id = (4 + length t + 1 + length m + 1 + length h)%nat).
  { unfold id. rewrite !length_app. cbn [length]. rewrite length_app. cbn [length]. simpl. lia. }
  change (length (chars_of "kvs#")) with 4%nat.
  destruct (Nat.leb_spec (length id) 4); [lia|].
  rewrite (bool_decide_eq_true_2 (substr id 0 4 = chars_of "kvs#")) by done. cbn [negb orb].
  assert (Hf : find_char "#" id 4 = Some (4 + length t)%nat).
  { unfold id. rewrite find_char_app by done. by rewrite pos_of_here. }
  rewrite Hf. destruct (Nat.eqb_spec (4 + length t) 4); [destruct t; simpl in *; [done|lia]|].
  replace (4 + length t - 4)%nat with (length t) by lia.
  assert (Hst : substr id 4 (length t) = t) by (unfold id; by apply substr_mid).
  rewrite Hst. assert (Htype : negb (bool_decide (t = chars_of "event_report_l1p5"))
    && negb (bool_decide (t = chars_of "event_report_l2")) = false).
  { destruct Ht as [-> | ->]; by vm_compute. }
  rewrite Htype.
  assert (Hid : id = (chars_of "kvs#" ++ t ++ ["#"%char]) ++ m ++ "#"%char :: h).
  { unfold id. by rewrite <-!app_assoc. }
  assert (Hpre : length (chars_of "kvs#" ++ t ++ ["#"%char]) = (4 + length t + 1)%nat).
  { rewrite !length_app. simpl. lia. }
  assert (Hs : find_char "#" id (4 + length t + 1) = Some (4 + length t + 1 + length m)%nat).
  { rewrite Hid, find_char_app by done. by rewrite pos_of_here. }
  rewrite Hs. destruct (Nat.eqb_spec (4 + length t + 1 + length m) (4 + length t + 1)); [destruct m; simpl in *; [done|lia]|].
  destruct (Nat.leb_spec (length id) (4 + length t + 1 + length m + 1)); [destruct h; simpl in *; [done|lia]|].
  cbn [orb]. replace (4 + length t + 1 + length m - (4 + length t + 1))%nat with (length m) by lia.
  assert (Hmed : substr id (4 + length t + 1) (length m) = m) by (rewrite Hid; by apply substr_mid).
  assert (Hhost : drop (4 + length t + 1 + length m + 1) id = h).
  { replace id with ((chars_of "kvs#" ++ t ++ "#"%char :: m ++ ["#"%char]) ++ h).
    - apply drop_app_length'. rewrite !length_app. cbn [length]. rewrite length_app. simpl. lia.
    - unfold id. rewrite <-!app_assoc. cbn [app]. by rewrite <-app_assoc. }
  rewrite Hmed, Hhost. rewrite bool_decide_eq_false_2 by done. cbn [orb].
  by destruct (bool_decide (find_char "#" h 0 = None)).
Qed.

(** Anything the parser accepts has that shape. *)
Lemma parse_location_shape id t m h :
  ParseEventReportLocationIdView id = Some (t, m, h) ->
  id = chars_of "kvs#" ++ t ++ "#"%char :: m ++ "#"%char :: h /\
  event_type t /\ "#"%char ∉ m /\ m <> [] /\ h <> [] /\ find_char "#" h 0 = None.
Proof.
  unfold ParseEventReportLocationIdView. change (length (chars_of "kvs#")) with 4%nat.
  destruct (Nat.leb_spec (length id) 4) as [|Hlen]; [done|]. cbn [orb].
  case_bool_decide as Hroot; [|done]. cbn [negb].
  assert (Hid : id = chars_of "kvs#" ++ drop 4 id).
  { rewrite <-Hroot. unfold substr. rewrite drop_0. by rewrite take_drop. }
  set (r := drop 4 id) in *. clearbody r. subst id. clear Hroot. rewrite find_char_app by done.
  destruct (first_sep "#" r) as [Hn|(t0 & r2 & -> & Ht0)]; [by rewrite pos_of_None|].
  rewrite pos_of_here by done. cbn [fmap option_fmap option_map].
  destruct (Nat.eqb_spec (4 + length t0) 4) as [|_]; [done|].
  replace (4 + length t0 - 4)%nat with (length t0) by lia.
  rewrite (substr_mid (chars_of "kvs#") t0) by done.
  set (bad := negb (bool_decide (t0 = _)) && _). destruct bad eqn:Hbad; [done|]. unfold bad in Hbad.
  replace (chars_of "kvs#" ++ t0 ++ "#"%char :: r2) with ((chars_of "kvs#" ++ t0 ++ ["#"%char]) ++ r2)
    by (by rewrite <-!app_assoc).
  assert (Hpre : length (chars_of "kvs#" ++ t0 ++ ["#"%char]) = (4 + length t0 + 1)%nat).
  { rewrite !length_app. simpl. lia. }
  rewrite find_char_app by done.
  destruct (first_sep "#" r2) as [Hn|(m0 & h0 & -> & Hm0)]; [by rewrite pos_of_None|].
  rewrite pos_of_here by done. cbn [fmap option_fmap option_map].
  destruct (Nat.eqb_spec (4 + length t0 + 1 + length m0) (4 + length t0 + 1)) as [|Hmn]; [done|].
  destruct (Nat.leb_spec (length ((chars_of "kvs#" ++ t0 ++ ["#"%char]) ++ m0 ++ "#"%char :: h0))
    (4 + length t0 + 1 + length m0 + 1)) as [|Hhl]; [done|]. cbn [orb].
  replace (4 + length t0 + 1 + length m0 - (4 + length t0 + 1))%nat with (length m0) by lia.
  rewrite (substr_mid (chars_of "kvs#" ++ t0 ++ ["#"%char]) m0) by done.
  assert (Hd : drop (4 + length t0 + 1 + length m0 + 1)
    ((chars_of "kvs#" ++ t0 ++ ["#"%char]) ++ m0 ++ "#"%char :: h0) = h0).
  { replace ((chars_of "kvs#" ++ t0 ++ ["#"%char]) ++ m0 ++ "#"%char :: h0)
      with (((chars_of "kvs#" ++ t0 ++ ["#"%char]) ++ m0 ++ ["#"%char]) ++ h0) by (by rewrite <-!app_assoc).
    apply drop_app_length'. rewrite length_app, Hpre, length_app. simpl. lia. }
  rewrite Hd. destruct (bool_decide (h0 = [])) eqn:Hh; [done|]. cbn [orb].
  destruct (bool_decide (find_char "#" h0 0 = None)) eqn:Hf; [|done]. cbn [negb].
  apply bool_decide_eq_false in Hh. apply bool_decide_eq_true in Hf. intros [= <- <- <-]. split_and!; [by rewrite <-!app_assoc| |done|by intros ->; simpl in *; lia|done|done].
  apply andb_false_iff in Hbad as [H|H]; apply negb_false_iff, bool_decide_eq_true in H; [by left|by right].
Qed.

(** A location id names its reporter.  For a backend of an event-report
    type, [ParseLocationIdView] accepts exactly the texts [BuildLocationId]
    writes for a valid medium and host, and reads back that medium and host; in
    particular two reporters or mediums never share a location id. *)
Theorem location_id_roundtrip s id medium host :
  IsEventReportStorageType (storage_type s) = true ->
  ParseLocationIdView id s = Some (medium, host) <->
  id = BuildLocationId medium host s /\
  IsValidLocationIdComponent medium = true /\ IsValidLocationIdComponent host = true.
Proof.
  intros Hs. set (t := type_token (storage_type s)).
  assert (Ht : event_type t).
  { unfold t, event_type. unfold IsEventReportStorageType in Hs. by destruct (storage_type s); auto. }
  assert (Hview : ParseLocationIdView id s = Some (medium, host) <->
    ParseEventReportLocationIdView id = Some (t, medium, host)).
  { unfold ParseLocationIdView. destruct (ParseEventReportLocationIdView id) as [[[t0 m0] h0]|]; [|by split].
    unfold t. unfold IsEventReportStorageType in Hs.
    destruct (storage_type s); try done; clear Hs; case_bool_decide as E; unfold type_token; split; intros; congruence. }
  rewrite Hview, !valid_component_spec. split.
  - intros (-> & _ & Hm & Hmn & Hhn & Hf)%parse_location_shape.
    assert (Hh : "#"%char ∉ host).
    { destruct (first_sep "#" host) as [|(f & tl & -> & Hff)]; [done|].
      unfold find_char in Hf. rewrite drop_0, pos_of_here in Hf by done. done. }
    split; [|done]. unfold BuildLocationId.
    by rewrite (proj2 (valid_component_spec medium)), (proj2 (valid_component_spec host)) by done.
  - intros (-> & [Hmn Hm] & [Hhn Hh]). unfold BuildLocationId.
    rewrite (proj2 (valid_component_spec medium)), (proj2 (valid_component_spec host)) by done. cbn [negb orb].
    rewrite parse_location_parts by done. fold t.
    rewrite bool_decide_eq_true_2; [done|]. unfold find_char. by rewrite drop_0, pos_of_None.
Qed.

Definition sample_backend : EventReportBackend :=
  mkBackend true true false DATA_STORAGE_TYPE_EVENT_REPORT_L2 10 20 0 5 0 ∅ ∅ ∅ ∅ ∅.

Lemma location_id_roundtrip_witness :
  ParseLocationIdView (chars_of "kvs#event_report_l2#gpu#h:1") sample_backend = Some (chars_of "gpu", chars_of "h:1").
Proof.
  apply (location_id_roundtrip sample_backend (chars_of "kvs#event_report_l2#gpu#h:1")).
  - vm_compute. reflexivity.
  - split_and!; vm_compute; reflexivity.
Defined.

(** ** Lemmas: clocks and tokens *)

(** The recovery deadline never overflows and never shortens the grace.  For
    any 64-bit clock and settings the stored deadline is the exact sum of the
    clock and the two non-negative waits, cut at the largest 64-bit value; no
    intermediate value leaves the 64-bit range. *)
Theorem recovery_deadline_saturates now_ms heartbeat_timeout grace :
  - 2 ^ 63 <= now_ms <= int64_max -> heartbeat_timeout <= int64_max -> grace <= int64_max ->
  recovery_deadline now_ms heartbeat_timeout grace =
    Z.min int64_max (now_ms + Z.min int64_max (Z.max 0 heartbeat_timeout + Z.max 0 grace)) /\
  now_ms <= recovery_deadline now_ms heartbeat_timeout grace <= int64_max.
Proof.
  unfold recovery_deadline, int64_max. intros Hn Hh Hg.
  destruct (Z.ltb_spec (2 ^ 63 - 1 - Z.max 0 grace) (Z.max 0 heartbeat_timeout)).
  - destruct (Z.ltb_spec (2 ^ 63 - 1 - (2 ^ 63 - 1)) now_ms); lia.
  - destruct (Z.ltb_spec (2 ^ 63 - 1 - (Z.max 0 heartbeat_timeout + Z.max 0 grace)) now_ms); lia.
Qed.

Lemma recovery_deadline_saturates_witness :
  recovery_deadline (int64_max - 5) 10 (-3) =
    Z.min int64_max (int64_max - 5 + Z.min int64_max (Z.max 0 10 + Z.max 0 (-3))) /\
  int64_max - 5 <= recovery_deadline (int64_max - 5) 10 (-3) <= int64_max.
Proof. apply (recovery_deadline_saturates (int64_max - 5) 10 (-3)); vm_compute; intuition congruence. Defined.

Lemma hex_char_valid d : 0 <= d < 16 -> IsAsciiHexDigit (hex_char d) = true.
Proof.
  intros Hd. assert (Hall : forallb (fun n => IsAsciiHexDigit (hex_char (Z.of_nat n))) (seq 0 16) = true).
  { vm_compute. reflexivity. }
  rewrite forallb_forall in Hall. rewrite <-(Z2Nat.id d) by lia. apply Hall. apply in_seq. lia.
Qed.

Lemma token_byte_range i r : 0 <= token_byte i r < 256.
Proof.
  assert (Hb : 0 <= r mod 256 < 256) by (apply Z.mod_pos_bound; lia).
  assert (Hall : forallb (fun n => let b := Z.of_nat n in
    (0 <=? Z.lor (Z.land b 15) 64) && (Z.lor (Z.land b 15) 64 <? 256) &&
    ((0 <=? Z.lor (Z.land b 63) 128) && (Z.lor (Z.land b 63) 128 <? 256))) (seq 0 256) = true).
  { vm_compute. reflexivity. }
  rewrite forallb_forall in Hall. specialize (Hall (Z.to_nat (r mod 256))).
  rewrite in_seq in Hall. specialize (Hall ltac:(lia)). cbv zeta in Hall.
  rewrite Z2Nat.id in Hall by lia. reflect_bools.
  unfold token_byte. repeat case_bool_decide; lia.
Qed.

Lemma nibbles b : 0 <= b < 256 -> 0 <= Z.shiftr b 4 < 16 /\ 0 <= Z.land b 15 < 16.
Proof.
  intros Hb. rewrite Z.shiftr_div_pow2 by lia. change 15 with (Z.ones 4). rewrite Z.land_ones by lia.
  split; [split; [apply Z.div_pos; lia|apply Z.div_lt_upper_bound; lia]|apply Z.mod_pos_bound; lia].
Qed.

(** Every generated token passes the validity test the commit applies. *)
Lemma GenerateSnapshotVersionToken_valid randoms :
  IsValidSnapshotVersionToken (GenerateSnapshotVersionToken randoms) = true.
Proof.
  unfold GenerateSnapshotVersionToken. set (rs := take 16 _).
  assert (Hlen : length rs = 16%nat).
  { unfold rs. rewrite length_take, length_app, length_replicate. lia. }
  clearbody rs. unfold IsValidSnapshotVersionToken. apply andb_true_iff.
  do 16 (destruct rs as [|? rs]; [discriminate Hlen|]). destruct rs; [|discriminate Hlen].
  clear Hlen. cbn [imap]. split; [by apply bool_decide_eq_true|].
  cbn [mjoin list_join app forallb imap compose].
  repeat (apply andb_true_iff; split); try reflexivity; apply hex_char_valid, nibbles, token_byte_range.
Qed.

Lemma draw_token_spec s draws token :
  draw_token s draws = Some token ->
  token_in_use s token = false /\ IsValidSnapshotVersionToken token = true.
Proof.
  induction draws as [|r draws IH]; [done|]. cbn [draw_token].
  destruct (token_in_use s (GenerateSnapshotVersionToken r)) eqn:E; [done|].
  intros [= <-]. split; [done|apply GenerateSnapshotVersionToken_valid].
Qed.
