(* ===== verification/EventSafe.v ===== *)
(** * EventSafe: the event-report backend under interleaving

    The critical sections of [EventReport] as the steps of a system that also
    remembers who holds what: the lifecycle leases retained by metadata tasks,
    the deltas admitted and not yet ended, the snapshots waiting for them and the
    snapshots granted.  A section that takes a reporter's lifecycle lock
    exclusively runs only while no lease of that reporter is held; sections of
    different threads may otherwise interleave in any order. *)

From stdpp Require Import base gmap sets list strings relations.
From Stdlib Require Import ZArith Lia Ascii.
From S2P Require Import Prelude StandardUri MetaTypes SnapshotUri EventReport.

Local Open Scope Z_scope.

Implicit Types (k : ReporterSnapshotKey) (b : EventReportBackend).

(** ** The system *)

Record Sys := mkSys {
  be : EventReportBackend;
  leases : list ReporterSnapshotKey;
  deltas : list (ReporterSnapshotKey * chars);
  waiting : list (ReporterSnapshotKey * chars);
  granted : list (ReporterSnapshotKey * chars * Z);
  issued : gset chars;
}.

Definition with_be b (s : Sys) : Sys := mkSys b (leases s) (deltas s) (waiting s) (granted s) (issued s).

(** Sections that hold the lifecycle lock of [k] exclusively. *)
Inductive lifecycle_op k b : EventReportBackend -> Prop :=
  | op_register ms now_ms : lifecycle_op k b (RegisterNode k ms now_ms b).2
  | op_ensure_create ms now_ms : lifecycle_op k b (Ensure_create k ms now_ms b).2
  | op_unregister : lifecycle_op k b (UnregisterNode k b).2
  | op_host_down : lifecycle_op k b (UnregisterNodeForHostDown k b).2
  | op_unregister_if g : lifecycle_op k b (UnregisterNodeIfGeneration k g b).2
  | op_heartbeat_slow st now_ms : lifecycle_op k b (OnHeartbeat_slow k st now_ms b).2
  | op_snapshot_refused draws now_ms ec retry b' :
      BeginSnapshot_enter k draws now_ms b = Some (SnapshotRefused ec retry, b') -> lifecycle_op k b b'.

(** Sections that do not. *)
Inductive shared_op b : EventReportBackend -> Prop :=
  | op_ensure_merge k ms : shared_op b (Ensure_merge k ms b).2
  | op_heartbeat_fast k st now_ms r : OnHeartbeat_fast k st now_ms b = Some r -> shared_op b r.2
  | op_set_node_unavailable k now_ms : shared_op b (SetNodeUnavailable k now_ms b)
  | op_liveness_visit k now_ms fresh_now : shared_op b (liveness_visit k now_ms fresh_now b).2
  | op_find_fence k : shared_op b (GetOrCreateLifecycleFence k b)
  | op_set_available a now_ms : shared_op b (SetAvailable a now_ms b)
  | op_open t spec started now_ms : shared_op b (Open t spec started now_ms b).2
  | op_retire : shared_op b (Close_retire b).

Inductive action : Sys -> Sys -> Prop :=
  | act_lifecycle s k b' : k ∉ leases s -> lifecycle_op k (be s) b' -> action s (with_be b' s)
  | act_shared s b' : shared_op (be s) b' -> action s (with_be b' s)
  | act_clear s : leases s = [] -> retired (be s) = true -> action s (with_be (Close_clear (be s)) s)
  | act_delta_begin s k draws ec v g created b' :
      BeginDelta_resume k draws (be s) = Some ((ec, Some (v, g, created)), b') ->
      (created = true -> v ∉ issued s) ->
      action s (mkSys b' (leases s) ((k, v) :: deltas s) (waiting s) (granted s) ({[v]} ∪ issued s))
  | act_delta_end s k v l1 l2 :
      deltas s = l1 ++ (k, v) :: l2 ->
      action s (mkSys (EndDeltaMutation k v (be s)) (leases s) (l1 ++ l2) (waiting s) (granted s) (issued s))
  | act_snapshot_enter s k draws now_ms v g b' :
      k ∉ leases s -> BeginSnapshot_enter k draws now_ms (be s) = Some (SnapshotWaiting v g, b') ->
      v ∉ issued s ->
      action s (mkSys b' (leases s) (deltas s) ((k, v) :: waiting s) (granted s) ({[v]} ∪ issued s))
  | act_snapshot_resume s k v g ec b' l1 l2 :
      waiting s = l1 ++ (k, v) :: l2 -> BeginSnapshot_resume k v (be s) = (ec, b') ->
      action s (mkSys b' (leases s) (deltas s) (l1 ++ l2)
                  (if bool_decide (ec = EC_OK) then (k, v, g) :: granted s else granted s) (issued s))
  | act_commit s k v g now_ms :
      (k, v, g) ∈ granted s ->
      action s (with_be (CommitSnapshotVersionIfGeneration k v g now_ms (be s)).2 s)
  | act_abort s k v g :
      k ∉ leases s -> (k, v, g) ∈ granted s -> action s (with_be (AbortSnapshotVersion k v (be s)) s)
  | act_acquire s k : action s (mkSys (be s) (k :: leases s) (deltas s) (waiting s) (granted s) (issued s))
  | act_release s k l1 l2 :
      leases s = l1 ++ k :: l2 ->
      action s (mkSys (be s) (l1 ++ l2) (deltas s) (waiting s) (granted s) (issued s)).

(** No 64-bit counter is exhausted: every reporter's generation and attempt
    number can be incremented. *)
Definition counters_left b : Prop :=
  (forall k, GetNodeGeneration b k < u64_max) /\ (forall k, attempt_epoch (state_of b k) < u64_max).

(** One step of the system.  A token drawn by a creating delta or a snapshot has
    not been drawn before ([issued] in [act_delta_begin], [act_snapshot_enter]):
    it carries 122 random bits. *)
Definition step (s s' : Sys) : Prop := counters_left (be s) /\ action s s'.

(** A backend object as constructed. *)
Definition initial (s : Sys) : Prop :=
  retired (be s) = false /\ is_open (be s) = false /\
  lifecycle_fences (be s) = ∅ /\ instance_nodes (be s) = ∅ /\ node_generation (be s) = ∅ /\
  snapshot_versions (be s) = ∅ /\ snapshot_token_owners (be s) = ∅ /\
  leases s = [] /\ deltas s = [] /\ waiting s = [] /\ granted s = [] /\ issued s = ∅.

Definition reachable (s : Sys) : Prop := exists s0, initial s0 /\ rtc step s0 s.

(** ** What one reporter's entries look like *)

Record Entry := mkEntry {
  e_fence : option LifecycleFence;
  e_node : option NodeInfo;
  e_gen : option Z;
  e_state : option SnapshotVersionState;
}.

Definition entry_of b k : Entry :=
  mkEntry (lifecycle_fences b !! k) (instance_nodes b !! k) (node_generation b !! k) (snapshot_versions b !! k).

Definition gen_of (e : Entry) : Z := default 0 (e_gen e).

(** The fence always carries the reporter's generation and says exactly whether
    the node is there; a node has a generation, a generation has a fence, and
    only a registered reporter has snapshot state. *)
Record entry_ok (e : Entry) : Prop := {
  eo_fence : forall f, e_fence e = Some f -> generation f = gen_of e /\ (registered f = true <-> is_Some (e_node e));
  eo_gen : is_Some (e_gen e) -> is_Some (e_fence e);
  eo_node : is_Some (e_node e) -> is_Some (e_gen e);
  eo_state : is_Some (e_state e) -> is_Some (e_node e);
  eo_range : 0 <= gen_of e;
  eo_epoch : forall st, e_state e = Some st -> 0 <= attempt_epoch st;
}.

(** What may happen to an attempt without starting another: it ends, by
    committing its own candidate or by being dropped. *)
Definition same_attempt (st st' : SnapshotVersionState) : Prop :=
  (in_flight st' = in_flight st \/ in_flight st' = []) /\
  (committed st' = committed st \/ committed st = [] \/
   (committed st' = in_flight st /\ in_flight st <> [] /\ in_flight st' = [])).

(** What may happen to a reporter without its generation changing: it may go,
    it may become unavailable, its attempts may advance. *)
Record evolves (e e' : Entry) : Prop := {
  ev_gen : gen_of e <= gen_of e';
  ev_absent : gen_of e = gen_of e' -> e_node e = None -> e_node e' = None;
  ev_down : gen_of e = gen_of e' -> forall i i', e_node e = Some i -> e_node e' = Some i' ->
    available i = false -> available i' = false;
  ev_state : gen_of e = gen_of e' -> is_Some (e_node e') -> forall st, e_state e = Some st ->
    exists st', e_state e' = Some st' /\ attempt_epoch st <= attempt_epoch st' /\
      (attempt_epoch st = attempt_epoch st' -> same_attempt st st');
}.

(** What may happen while a lease of the reporter is held: neither its
    generation, nor its presence, nor its attempt number, nor an authoritative
    visibility change. *)
Record frozen (e e' : Entry) : Prop := {
  fr_gen : gen_of e = gen_of e';
  fr_node : is_Some (e_node e) <-> is_Some (e_node e');
  fr_state : forall st, e_state e = Some st -> exists st', e_state e' = Some st' /\
    attempt_epoch st' = attempt_epoch st /\
    (strict_query_visibility st = true -> strict_query_visibility st' = true);
}.

Lemma same_attempt_refl st : same_attempt st st.
Proof. split; by left. Qed.

Lemma same_attempt_trans st1 st2 st3 : same_attempt st1 st2 -> same_attempt st2 st3 -> same_attempt st1 st3.
Proof. unfold same_attempt. intros [H1 H2] [H3 H4]. naive_solver congruence. Qed.

#[global] Instance evolves_refl : Reflexive evolves.
Proof.
  intros e. split; [done|done|intros; simplify_eq; done|].
  intros _ _ st Hst. exists st. split_and!; [done|done|intros _; apply same_attempt_refl].
Qed.

#[global] Instance evolves_trans : Transitive evolves.
Proof.
  intros e1 e2 e3 [g1 a1 d1 s1] [g2 a2 d2 s2].
  assert (Hg : gen_of e1 = gen_of e3 -> gen_of e1 = gen_of e2 /\ gen_of e2 = gen_of e3) by lia.
  assert (Hn : gen_of e1 = gen_of e3 -> is_Some (e_node e3) -> is_Some (e_node e2)).
  { intros [_ E2]%Hg [i Hi]. destruct (e_node e2) eqn:E; [eauto|]. rewrite a2 in Hi by done. done. }
  split; [lia| | |].
  - intros [E1 E2]%Hg H. auto.
  - intros E i i' Hi Hi' Ha. destruct (Hn E ltac:(eauto)) as [j Hj]. destruct (Hg E). eauto.
  - intros E Hi st Hst. destruct (Hg E) as [E1 E2].
    destruct (s1 E1 (Hn E Hi) st Hst) as (st2 & Hst2 & Hle & Hsame).
    destruct (s2 E2 Hi st2 Hst2) as (st3 & Hst3 & Hle' & Hsame').
    exists st3. split_and!; [done|lia|]. intros Ee. eapply same_attempt_trans; [apply Hsame|apply Hsame']; lia.
Qed.

#[global] Instance frozen_refl : Reflexive frozen.
Proof. intros e. split; [done|done|eauto]. Qed.

#[global] Instance frozen_trans : Transitive frozen.
Proof.
  intros e1 e2 e3 [g1 n1 s1] [g2 n2 s2]. split; [congruence|by rewrite n1|].
  intros st Hst. destruct (s1 st Hst) as (st2 & Hst2 & He & Hs). destruct (s2 st2 Hst2) as (st3 & Hst3 & He' & Hs').
  exists st3. split_and!; [done|congruence|auto].
Qed.

(** ** Effects on entries *)

Definition frame k b b' : Prop := forall j, j <> k -> entry_of b' j = entry_of b j.

#[global] Instance frame_refl k : Reflexive (frame k).
Proof. by intros b j. Qed.

#[global] Instance frame_trans k : Transitive (frame k).
Proof. intros b1 b2 b3 H1 H2 j Hj. by rewrite H2, H1. Qed.

Lemma frame_set_fence k f b : frame k b (set_fence k f b).
Proof. intros j Hj. unfold entry_of. simpl. by rewrite lookup_insert_ne. Qed.
Lemma frame_set_node k n b : frame k b (set_node k n b).
Proof. intros j Hj. unfold entry_of. simpl. by rewrite lookup_insert_ne. Qed.
Lemma frame_set_generation k g b : frame k b (set_generation k g b).
Proof. intros j Hj. unfold entry_of. simpl. by rewrite lookup_insert_ne. Qed.
Lemma frame_set_state k st b : frame k b (set_state k st b).
Proof. intros j Hj. unfold entry_of. simpl. by rewrite lookup_insert_ne. Qed.
Lemma frame_get_fence k b : frame k b (GetOrCreateLifecycleFence k b).
Proof. apply frame_set_fence. Qed.
Lemma frame_bump k b : frame k b (bump_generation k b).
Proof. unfold bump_generation. etrans; [apply frame_set_generation|apply frame_set_fence]. Qed.

Create HintDb frames.
#[export] Hint Resolve frame_set_fence frame_set_node frame_set_generation frame_set_state frame_get_fence
  frame_bump frame_refl : frames.

Ltac frames := repeat (first [apply frame_refl | eassumption | (etrans; [|solve [eauto with frames]]) | eauto with frames]).

(** The shapes an entry can take after a section, and what each preserves. *)

Definition touched (e : Entry) : Entry :=
  mkEntry (Some (default (mkFence 0 false) (e_fence e))) (e_node e) (e_gen e) (e_state e).

Lemma touched_ok e : entry_ok e -> entry_ok (touched e) /\ evolves e (touched e) /\ frozen e (touched e).
Proof.
  intros [Hf Hg Hn Hs Hr Hep]. split_and!.
  - split; simpl; try done.
    intros f [= <-]. unfold gen_of in *. simpl. destruct (e_fence e) as [f|]; [by apply Hf|]. simpl.
    destruct (e_gen e) eqn:Eg; [by destruct Hg|]. split; [done|]. split; [done|].
    intros H. destruct (Hn H). done.
  - split; simpl; [done|done|intros; simplify_eq; done|].
    intros _ _ st Hst. exists st. split_and!; [done|done|intros _; apply same_attempt_refl].
  - split; simpl; [done|done|eauto].
Qed.

(** Registered at generation [g] with node [i]. *)
Definition up (g : Z) (i : NodeInfo) (e : Entry) : Entry :=
  mkEntry (Some (mkFence g true)) (Some i) (Some g) (e_state e).

Lemma up_ok g i e : 0 <= g -> entry_ok e -> entry_ok (up g i e).
Proof. intros Hg He. split; simpl; try done; try (by eauto); try apply He. by intros f [= <-]. Qed.

Lemma up_evolves_next i e : evolves e (up (gen_of e + 1) i e).
Proof. split; unfold gen_of at 2; simpl; [unfold gen_of; lia|..]; intros; unfold gen_of in *; simpl in *; lia. Qed.

Lemma up_evolves_same i i' e :
  e_node e = Some i -> (available i = false -> available i' = false) -> evolves e (up (gen_of e) i' e).
Proof.
  intros Hi Ha. split; simpl; [done|congruence|intros; simplify_eq; auto|].
  intros _ _ st Hst. exists st. split_and!; [done|done|intros _; apply same_attempt_refl].
Qed.

(** Down at generation [g]. *)
Definition down (g : Z) : Entry := mkEntry (Some (mkFence g false)) None (Some g) None.

Lemma down_ok e : entry_ok e -> entry_ok (down (gen_of e)) /\ evolves e (down (gen_of e)).
Proof.
  intros He. split.
  - split; simpl; try done; try (by intros []); try (by eauto); try apply He.
    intros f [= <-]. split; [done|]. split; [done|by intros []].
  - split; simpl; [done|done|done|]. by intros _ [].
Qed.

(** The node alone. *)
Definition renode (i : NodeInfo) (e : Entry) : Entry := mkEntry (e_fence e) (Some i) (e_gen e) (e_state e).

Lemma renode_ok i i' e :
  entry_ok e -> e_node e = Some i -> (available i = false -> available i' = false) ->
  entry_ok (renode i' e) /\ evolves e (renode i' e) /\ frozen e (renode i' e).
Proof.
  intros [Hf Hg Hn Hs Hr Hep] Hi Ha. split_and!.
  - split; simpl; try done; try (by eauto); try (intros _; apply Hn; by eauto).
    intros f Hf'. destruct (Hf f Hf') as [H1 H2]. split; [done|]. rewrite H2, Hi. split; by eauto.
  - split; simpl; [done|congruence|intros; simplify_eq; auto|].
    intros _ _ st Hst. exists st. split_and!; [done|done|intros _; apply same_attempt_refl].
  - split; simpl; [done|rewrite Hi; split; by eauto|eauto].
Qed.

(** The snapshot state alone. *)
Definition restate (st : SnapshotVersionState) (e : Entry) : Entry :=
  mkEntry (e_fence e) (e_node e) (e_gen e) (Some st).

Lemma restate_ok st e : entry_ok e -> is_Some (e_node e) -> 0 <= attempt_epoch st -> entry_ok (restate st e).
Proof. intros [Hf Hg Hn Hs Hr Hep] Hi He. split; simpl; auto. by intros st0 [= <-]. Qed.

Lemma restate_evolves st' e :
  (forall st, e_state e = Some st -> attempt_epoch st <= attempt_epoch st' /\
     (attempt_epoch st = attempt_epoch st' -> same_attempt st st')) -> evolves e (restate st' e).
Proof.
  intros H. split; simpl; [done|done|intros; simplify_eq; done|].
  intros _ _ st Hst. exists st'. split; [done|by apply H].
Qed.

Lemma restate_frozen st' e :
  (forall st, e_state e = Some st -> attempt_epoch st' = attempt_epoch st /\
     (strict_query_visibility st = true -> strict_query_visibility st' = true)) -> frozen e (restate st' e).
Proof. intros H. split; simpl; [done|done|]. intros st Hst. exists st'. split; [done|by apply H]. Qed.

Lemma entry_state k st b : entry_of (set_state k st b) k = restate st (entry_of b k).
Proof. unfold entry_of. simpl. by rewrite lookup_insert_eq. Qed.

Lemma entry_node k i b : entry_of (set_node k i b) k = renode i (entry_of b k).
Proof. unfold entry_of. simpl. by rewrite lookup_insert_eq. Qed.

(** ** The lifecycle sections *)

Record effect k b b' : Prop := {
  ef_frame : frame k b b';
  ef_retired : retired b' = retired b;
  ef_entry : entry_ok (entry_of b k) -> gen_of (entry_of b k) < u64_max ->
    entry_ok (entry_of b' k) /\ evolves (entry_of b k) (entry_of b' k);
}.

Ltac entry_eq :=
  unfold fence_down, bump_generation, up, down, touched, entry_of, gen_of, GetNodeGeneration, fence_of in *; simpl;
  rewrite ?lookup_insert_eq, ?lookup_delete_eq; simpl;
  rewrite ?lookup_insert_eq, ?lookup_delete_eq; simpl.

Lemma entry_get_fence k b : entry_of (GetOrCreateLifecycleFence k b) k = touched (entry_of b k).
Proof. by entry_eq. Qed.

Lemma entry_up k g i b :
  entry_of (set_node k i (set_fence k (mkFence g true) (set_generation k g b))) k = up g i (entry_of b k).
Proof. by entry_eq. Qed.

Lemma ev_effect_refl k b : effect k b b.
Proof. split; [done|done|]. intros He _. split; [done|reflexivity]. Qed.

(** Creating the fence first changes nothing that matters. *)
Lemma effect_after_fence k b b' : effect k (GetOrCreateLifecycleFence k b) b' -> effect k b b'.
Proof.
  intros [Hf Hr He]. split; [etrans; [apply frame_get_fence|done]|done|].
  intros Hok Hg. destruct (touched_ok _ Hok) as (Hok' & Hev & _). rewrite entry_get_fence in He.
  destruct (He Hok' Hg) as [H1 H2]. split; [done|]. by etrans.
Qed.

Lemma effect_fence k b : effect k b (GetOrCreateLifecycleFence k b).
Proof. apply effect_after_fence, ev_effect_refl. Qed.

(** Registration: the next generation. *)
Lemma effect_bump k i b : effect k b (set_node k i (bump_generation k b)).
Proof.
  split; [frames|done|]. intros Hok Hg.
  assert (entry_of (set_node k i (bump_generation k b)) k = up (gen_of (entry_of b k) + 1) i (entry_of b k)) as ->.
  { unfold bump_generation. rewrite entry_up. f_equal. apply u64_small.
    pose proof (eo_range _ Hok). unfold gen_of, u64_max, is_u64 in *. simpl in *. unfold GetNodeGeneration. lia. }
  split; [|apply up_evolves_next]. apply up_ok; [|done]. pose proof (eo_range _ Hok). lia.
Qed.

(** A registered node refreshed at its generation. *)
Lemma effect_same k i i' b :
  instance_nodes b !! k = Some i -> (available i = false -> available i' = false) ->
  effect k b (set_node k i' (set_fence k (mkFence (GetNodeGeneration b k) true)
    (set_generation k (GetNodeGeneration b k) b))).
Proof.
  intros Hi Ha. split; [frames|done|]. intros Hok Hg. rewrite entry_up.
  split; [by apply up_ok; [apply Hok|]|]. by apply (up_evolves_same i).
Qed.

(** Unregistration, whatever the order of its writes. *)
Lemma effect_down k b b' :
  frame k b b' -> retired b' = retired b -> (entry_ok (entry_of b k) -> entry_of b' k = down (gen_of (entry_of b k))) ->
  effect k b b'.
Proof. intros Hf Hr He. split; [done|done|]. intros Hok _. rewrite He by done. by apply down_ok. Qed.

Lemma no_state_without_node b k :
  entry_ok (entry_of b k) -> instance_nodes b !! k = None -> snapshot_versions b !! k = None.
Proof.
  intros He Hn. destruct (snapshot_versions b !! k) eqn:E; [|done].
  destruct (eo_state _ He) as [? H]; [by exists s|]. simpl in H. congruence.
Qed.

Lemma frame_unregister k b : frame k b (UnregisterNodeLocked k b).2.
Proof.
  unfold UnregisterNodeLocked. simpl. destruct (instance_nodes b !! k); [|apply frame_set_generation].
  intros j Hj. unfold entry_of. simpl. by rewrite lookup_insert_ne, !lookup_delete_ne by done.
Qed.

Lemma effect_register k ms now_ms b : effect k b (RegisterNode k ms now_ms b).2.
Proof.
  unfold RegisterNode. destruct (_ || _); [apply ev_effect_refl|]. destruct (negb _); [apply ev_effect_refl|].
  cbv zeta. destruct (instance_nodes _ !! k); apply effect_after_fence, effect_bump.
Qed.

Lemma effect_ensure_create k ms now_ms b : effect k b (Ensure_create k ms now_ms b).2.
Proof.
  unfold Ensure_create. set (b1 := GetOrCreateLifecycleFence k b). destruct (negb _); [apply effect_fence|].
  apply effect_after_fence. fold b1. clearbody b1. destruct (instance_nodes b1 !! k) as [i|] eqn:Ei.
  - refine (effect_same k i _ b1 Ei _). simpl. done.
  - case_bool_decide; [apply ev_effect_refl|]. apply effect_bump.
Qed.

Lemma effect_unregister k b : effect k b (UnregisterNode k b).2.
Proof.
  unfold UnregisterNode. set (b1 := GetOrCreateLifecycleFence k b). destruct (retired b1); [apply effect_fence|].
  apply effect_after_fence. fold b1. clearbody b1. pose proof (frame_unregister k b1) as Hf.
  destruct (UnregisterNodeLocked k b1) as [ec b2] eqn:E. simpl in *. apply effect_down.
  - unfold fence_down. frames.
  - unfold UnregisterNodeLocked in E. simpl in E. destruct (instance_nodes b1 !! k); by simplify_eq.
  - intros Hok. unfold UnregisterNodeLocked in E. simpl in E.
    destruct (instance_nodes b1 !! k) as [i|] eqn:Ei; simplify_eq; entry_eq.
    + done.
    + rewrite Ei. rewrite (no_state_without_node b1 k Hok Ei). done.
Qed.

Lemma effect_host_down k b : effect k b (UnregisterNodeForHostDown k b).2.
Proof.
  unfold UnregisterNodeForHostDown. set (b1 := GetOrCreateLifecycleFence k b). destruct (negb _); [apply effect_fence|].
  apply effect_after_fence. fold b1. clearbody b1. cbv zeta. set (b2 := fence_down k b1).
  pose proof (frame_unregister k b2) as Hf.
  assert (Hb2 : frame k b1 b2) by (unfold b2, fence_down; frames).
  destruct (instance_nodes b2 !! k) as [i|] eqn:Ei.
  - destruct (UnregisterNodeLocked k b2) as [ec b3] eqn:E. simpl in *. apply effect_down.
    + by etrans.
    + unfold UnregisterNodeLocked in E. simpl in E. simpl in Ei. rewrite Ei in E. by simplify_eq.
    + intros Hok. unfold UnregisterNodeLocked in E. simpl in E. simpl in Ei. rewrite Ei in E. simplify_eq.
      by entry_eq.
  - apply effect_down; [done|done|]. intros Hok. simpl in Ei. unfold b2. entry_eq. rewrite Ei.
    by rewrite (no_state_without_node b1 k Hok Ei).
Qed.

Lemma effect_unregister_if k g b : effect k b (UnregisterNodeIfGeneration k g b).2.
Proof.
  unfold UnregisterNodeIfGeneration. set (b1 := GetOrCreateLifecycleFence k b).
  destruct (retired b1); [apply effect_fence|]. apply effect_after_fence. fold b1. clearbody b1.
  destruct (negb _); [apply ev_effect_refl|]. pose proof (frame_unregister k b1) as Hf.
  destruct (UnregisterNodeLocked k b1) as [ec b2] eqn:E. simpl in *. apply effect_down.
  - frames.
  - unfold UnregisterNodeLocked in E. simpl in E. destruct (instance_nodes b1 !! k); by simplify_eq.
  - intros Hok. unfold UnregisterNodeLocked in E. simpl in E.
    destruct (instance_nodes b1 !! k) as [i|] eqn:Ei; simplify_eq; entry_eq.
    + done.
    + rewrite Ei. rewrite (no_state_without_node b1 k Hok Ei). done.
Qed.

(** The next generation, written twice. *)
Lemma effect_bump_again k i i0 b b1 :
  b1 = bump_generation k b \/ b1 = set_node k i0 (bump_generation k b) ->
  effect k b (set_node k i (set_fence k (mkFence (GetNodeGeneration b1 k) true)
    (set_generation k (GetNodeGeneration b1 k) b1))).
Proof.
  intros Hb1. assert (Hg : GetNodeGeneration b1 k = u64 (GetNodeGeneration b k + 1)).
  { unfold GetNodeGeneration at 1. destruct Hb1 as [-> | ->]; simpl; by rewrite lookup_insert_eq. }
  assert (Hs : e_state (entry_of b1 k) = e_state (entry_of b k)) by (by destruct Hb1 as [-> | ->]).
  assert (Hfr : frame k b b1) by (destruct Hb1 as [-> | ->]; frames).
  split; [frames|by destruct Hb1 as [-> | ->]|]. intros Hok Hlt. rewrite entry_up, Hg.
  assert (u64 (GetNodeGeneration b k + 1) = gen_of (entry_of b k) + 1) as ->.
  { apply u64_small. pose proof (eo_range _ Hok). unfold gen_of, u64_max, is_u64, GetNodeGeneration in *. simpl in *. lia. }
  assert (up (gen_of (entry_of b k) + 1) i (entry_of b1 k) = up (gen_of (entry_of b k) + 1) i (entry_of b k)) as ->.
  { unfold up. by rewrite Hs. }
  split; [|apply up_evolves_next]. apply up_ok; [|done]. pose proof (eo_range _ Hok). lia.
Qed.

Lemma effect_heartbeat_slow k st now_ms b : effect k b (OnHeartbeat_slow k st now_ms b).2.
Proof.
  unfold OnHeartbeat_slow. set (b1 := GetOrCreateLifecycleFence k b). destruct (negb _); [apply effect_fence|].
  apply effect_after_fence. fold b1. clearbody b1. destruct (instance_nodes b1 !! k) as [i|] eqn:Ei.
  - simpl. unfold heartbeat_node. destruct (available i) eqn:Ea.
    + apply (effect_same k i); [done|]. congruence.
    + cbv zeta. by apply (effect_bump_again k _ i); left.
  - case_bool_decide; [apply ev_effect_refl|]. simpl. unfold heartbeat_node. cbn [available fresh_node].
    cbv zeta. by eapply (effect_bump_again k); right.
Qed.

Lemma state_of_entry b k : state_of b k = default (mkVersionState [] [] 0 0 0 false) (e_state (entry_of b k)).
Proof. done. Qed.

(** Opening the state of a registered reporter. *)
Lemma effect_open_state k b :
  IsNodeRegistered b k = true -> effect k b (set_state k (state_of b k) b).
Proof.
  intros Hn. unfold IsNodeRegistered in Hn. apply bool_decide_eq_true in Hn. split; [frames|done|].
  intros Hok _. rewrite entry_state. split.
  { apply restate_ok; [done|done|]. unfold state_of. destruct (snapshot_versions b !! k) eqn:E; [by apply (eo_epoch _ Hok)|done]. }
  apply (restate_evolves (state_of b k)). intros st Hst. rewrite state_of_entry, Hst.
  split; [done|]. intros _. apply same_attempt_refl.
Qed.

Lemma effect_snapshot_refused k draws now_ms b ec retry b' :
  BeginSnapshot_enter k draws now_ms b = Some (SnapshotRefused ec retry, b') -> effect k b b'.
Proof.
  unfold BeginSnapshot_enter. destruct (_ || _); [intros [= _ _ <-]; apply ev_effect_refl|].
  set (b1 := GetOrCreateLifecycleFence k b). destruct (negb (AcceptingReports b1)).
  { intros [= _ _ <-]. apply effect_fence. }
  destruct (negb (IsNodeRegistered b1 k)) eqn:En; cbn [orb]; [intros [= _ _ <-]; apply effect_fence|].
  apply negb_false_iff in En. destruct (negb (registered _)); [intros [= _ _ <-]; apply effect_fence|].
  cbv zeta. intros H. apply effect_after_fence. fold b1.
  assert (b' = set_state k (state_of b1 k) b1) as ->; [|by apply effect_open_state].
  destruct (negb _); [by simplify_eq|]. destruct (rate_limited _ _ _); [by simplify_eq|].
  by destruct (draw_token _ _); simplify_eq/=.
Qed.

Lemma lifecycle_effect k b b' : lifecycle_op k b b' -> effect k b b'.
Proof.
  destruct 1; eauto using effect_register, effect_ensure_create, effect_unregister, effect_host_down,
    effect_unregister_if, effect_heartbeat_slow, effect_snapshot_refused.
Qed.

(** ** The other sections *)

(** Harmless to every reporter, leased or not. *)
Record mild b b' : Prop := {
  mi_entry : forall k, entry_ok (entry_of b k) ->
    entry_ok (entry_of b' k) /\ evolves (entry_of b k) (entry_of b' k) /\ frozen (entry_of b k) (entry_of b' k);
  mi_retired : retired b = true -> retired b' = true;
}.

#[global] Instance mild_refl : Reflexive mild.
Proof. intros b. split; [|done]. intros k Hk. split_and!; [done|reflexivity|reflexivity]. Qed.

#[global] Instance mild_trans : Transitive mild.
Proof.
  intros b1 b2 b3 [H1 R1] [H2 R2]. split; [|auto]. intros k Hk.
  destruct (H1 k Hk) as (Hk2 & E1 & F1). destruct (H2 k Hk2) as (Hk3 & E2 & F2).
  split_and!; [done|by etrans|by etrans].
Qed.

(** A section that changes only [k]'s entries is judged at [k]. *)
Lemma mild_at k b b' :
  frame k b b' -> retired b' = retired b ->
  (entry_ok (entry_of b k) -> entry_ok (entry_of b' k) /\ evolves (entry_of b k) (entry_of b' k) /\
     frozen (entry_of b k) (entry_of b' k)) -> mild b b'.
Proof.
  intros Hf Hr He. split; [|by rewrite Hr]. intros j Hj. destruct (decide (j = k)) as [->|Hne]; [by apply He|].
  rewrite (Hf j Hne). split_and!; [done|reflexivity|reflexivity].
Qed.

Lemma mild_fence k b : mild b (GetOrCreateLifecycleFence k b).
Proof.
  apply (mild_at k); [frames|done|]. intros Hk. rewrite entry_get_fence. by apply touched_ok.
Qed.

Lemma mild_node k i i' b :
  instance_nodes b !! k = Some i -> (available i = false -> available i' = false) -> mild b (set_node k i' b).
Proof.
  intros Hi Ha. apply (mild_at k); [frames|done|]. intros Hk. rewrite entry_node. by apply (renode_ok i).
Qed.

(** A change of the state of a reporter that has one, within its attempt. *)
Lemma mild_state k st st' b :
  snapshot_versions b !! k = Some st -> attempt_epoch st' = attempt_epoch st -> same_attempt st st' ->
  (strict_query_visibility st = true -> strict_query_visibility st' = true) -> mild b (set_state k st' b).
Proof.
  intros Hst He Hs Hq. apply (mild_at k); [frames|done|]. intros Hk. rewrite entry_state. split_and!.
  - apply restate_ok; [done|apply (eo_state _ Hk); by exists st|]. rewrite He. by apply (eo_epoch _ Hk).
  - apply restate_evolves. simpl. intros st0 E. simplify_eq. split; [lia|by intros _].
  - apply restate_frozen. simpl. intros st0 E. by simplify_eq.
Qed.

(** Token tables do not belong to entries. *)
Lemma mild_tables b b' :
  (forall k, entry_of b' k = entry_of b k) -> (retired b = true -> retired b' = true) -> mild b b'.
Proof. intros He Hr. split; [|done]. intros k Hk. rewrite He. split_and!; [done|reflexivity|reflexivity]. Qed.

Lemma shared_mild b b' : shared_op b b' -> mild b b'.
Proof.
  destruct 1 as [k ms|k st now_ms r H|k now_ms|k now_ms fresh_now|k|a now_ms|t spec started now_ms|].
  - unfold Ensure_merge. destruct (negb _); [reflexivity|].
    destruct (instance_nodes b !! k) as [i|] eqn:Ei; [|reflexivity]. by apply (mild_node k i).
  - unfold OnHeartbeat_fast in H. destruct (negb _); [simplify_eq; apply mild_fence|].
    apply fmap_Some in H as (b' & Hb' & ->). simpl. etrans; [apply (mild_fence k)|].
    unfold TryPublishSteadyHeartbeatLocked in Hb'. destruct (negb _); [done|].
    destruct (instance_nodes _ !! k) as [i|] eqn:Ei; [|done]. destruct (node_generation _ !! k); [|done].
    destruct (_ || _); [done|]. simplify_eq. by apply (mild_node k i).
  - unfold SetNodeUnavailable. destruct (instance_nodes b !! k) as [i|] eqn:Ei; [|reflexivity].
    by apply (mild_node k i).
  - unfold liveness_visit. destruct (instance_nodes b !! k) as [i|] eqn:Ei; [|reflexivity].
    cbv zeta. destruct (_ || _); [reflexivity|]. destruct (_ <=? _); [reflexivity|].
    assert (mild b (set_node k (mark_unavailable now_ms i) b)) by (by apply (mild_node k i)). by destruct (_ && _).
  - apply mild_fence.
  - apply mild_tables; by destruct a.
  - unfold Open. destruct (is_open b); [reflexivity|]. destruct (retired b) eqn:Er; [reflexivity|].
    apply mild_tables; [|congruence]. intros k. cbn [orb]. destruct spec; [|done].
    destruct (negb _); [done|]. by destruct started.
  - by apply mild_tables.
Qed.

Lemma count_delta_mild k created b r b' :
  is_Some (snapshot_versions b !! k) -> count_delta k created b = (r, b') -> mild b b'.
Proof.
  intros [st Hst]. unfold count_delta. destruct (_ =? _); [intros; by simplify_eq|].
  cbv zeta. intros [= _ <-]. unfold state_of. rewrite Hst. cbn [default from_option].
  etrans; [apply (mild_state k st (with_active (active_delta_mutations st + 1) st));
    [done|done|apply (same_attempt_refl st)|done]|].
  set (b1 := set_state _ _ _). apply (mild_at k); [frames|done|]. intros Hk.
  assert (Hs : is_Some (snapshot_versions b1 !! k)) by (unfold b1; simpl; rewrite lookup_insert_eq; eauto).
  destruct (eo_node _ Hk (eo_state _ Hk Hs)) as [g Hg]. clearbody b1. simpl in Hg.
  assert (entry_of (set_generation k (GetNodeGeneration b1 k) b1) k = entry_of b1 k) as ->.
  { unfold entry_of. simpl. rewrite lookup_insert_eq. unfold GetNodeGeneration. by rewrite Hg. }
  split_and!; [done|reflexivity|reflexivity].
Qed.

Lemma create_committed_mild k draws b b' :
  committed (state_of b k) = [] -> create_committed k draws b = Some (Some b') ->
  mild b b' /\ is_Some (snapshot_versions b' !! k).
Proof.
  intros Hc. unfold create_committed. destruct (instance_nodes b !! k) as [i|] eqn:Ei; [|done].
  destruct (draw_token b draws) as [v|]; [|done]. cbn [mbind option_bind]. intros [= <-].
  split; [|simpl; rewrite lookup_insert_eq; eauto].
  set (st' := with_committed v (state_of b k)).
  assert (Hent : forall j, entry_of (set_versions (<[k:=st']> (snapshot_versions b))
    (<[v:=k]> (snapshot_token_owners b)) b) j = entry_of (set_state k st' b) j) by done.
  apply (mild_at k); [intros j Hj; rewrite Hent; by apply frame_set_state|done|]. intros Hk. rewrite Hent, entry_state.
  assert (Hst : forall st, snapshot_versions b !! k = Some st -> st' = with_committed v st /\ committed st = []).
  { intros st E. unfold st', state_of in *. by rewrite E in *. }
  split_and!.
  - apply restate_ok; [done|simpl; eauto|]. unfold st', state_of. simpl.
    destruct (snapshot_versions b !! k) eqn:E; [by apply (eo_epoch _ Hk)|done].
  - apply restate_evolves. intros st E. destruct (Hst st E) as [-> E']. split; [simpl; lia|]. intros _.
    split; [by left|right; by left].
  - apply restate_frozen. intros st E. by destruct (Hst st E) as [-> _].
Qed.

Lemma delta_begin_mild k draws b r b' : BeginDelta_resume k draws b = Some (r, b') -> mild b b'.
Proof.
  unfold BeginDelta_resume. destruct (negb _); [intros; by simplify_eq|].
  destruct (negb _); [intros; by simplify_eq|]. case_bool_decide as Hc.
  - destruct (create_committed k draws b) as [[b1|]|] eqn:E; cbn [mbind option_bind]; [|intros; by simplify_eq|done].
    intros [= H]. destruct (create_committed_mild _ _ _ _ Hc E) as [Hm Hs].
    etrans; [exact Hm|]. by eapply count_delta_mild.
  - intros [= H]. eapply count_delta_mild; [|exact H]. unfold state_of in Hc.
    destruct (snapshot_versions b !! k); [eauto|done].
Qed.

Lemma delta_end_mild k v b : mild b (EndDeltaMutation k v b).
Proof.
  unfold EndDeltaMutation. destruct (snapshot_versions b !! k) as [st|] eqn:E; [|reflexivity].
  destruct (_ && _); [reflexivity|]. destruct (_ =? _); [reflexivity|].
  apply (mild_state k st); [done|done|apply (same_attempt_refl st)|done].
Qed.

Lemma clear_candidate_mild k v b : mild b (clear_candidate k v b).
Proof.
  unfold clear_candidate. destruct (snapshot_versions b !! k) as [st|] eqn:E; [|reflexivity].
  case_bool_decide; [|reflexivity]. apply (mild_state k st); [done|done| |done]. split; [by right|by left].
Qed.

Lemma snapshot_resume_mild k v b ec b' : BeginSnapshot_resume k v b = (ec, b') -> mild b b'.
Proof.
  unfold BeginSnapshot_resume. destruct (negb _); [intros [= _ <-]; apply clear_candidate_mild|].
  destruct (negb _); [intros [= _ <-]; apply clear_candidate_mild|].
  repeat case_match; intros [= _ <-]; reflexivity.
Qed.

Lemma valid_token_nonempty v : IsValidSnapshotVersionToken v = true -> v <> [].
Proof. by intros H ->. Qed.

Lemma commit_mild k v now_ms b : mild b (CommitSnapshotVersion k v now_ms b).2.
Proof.
  unfold CommitSnapshotVersion. destruct (IsValidSnapshotVersionToken v) eqn:Ev; [|reflexivity]. cbn [negb].
  destruct (snapshot_versions b !! k) as [st|] eqn:E; [|reflexivity]. case_bool_decide as Hf; [|reflexivity]. cbn [negb snd].
  set (st' := mkVersionState _ _ _ _ _ _). set (o := <[v:=k]> _).
  assert (Hent : forall j, entry_of (set_versions (<[k:=st']> (snapshot_versions b)) o b) j =
    entry_of (set_state k st' b) j) by done.
  assert (Hm : mild b (set_state k st' b)).
  { apply (mild_state k st); [done|done| |done]. split; [by right|]. right; right. simpl.
    split_and!; [done| |done]. rewrite Hf. by apply valid_token_nonempty. }
  split; [|done]. intros j Hj. rewrite Hent. by apply Hm.
Qed.

Lemma commit_if_mild k v g now_ms b : mild b (CommitSnapshotVersionIfGeneration k v g now_ms b).2.
Proof.
  unfold CommitSnapshotVersionIfGeneration. destruct (FindLifecycleFence b k); [|reflexivity].
  destruct (negb _); [reflexivity|]. destruct (_ || _); [reflexivity|].
  pose proof (commit_mild k v now_ms b) as H. by destruct (CommitSnapshotVersion k v now_ms b).
Qed.

(** Two more sections take the lifecycle lock: admitting a snapshot and aborting
    one. *)
Lemma effect_snapshot_enter k draws now_ms b v g b' :
  attempt_epoch (state_of b k) < u64_max ->
  BeginSnapshot_enter k draws now_ms b = Some (SnapshotWaiting v g, b') -> effect k b b'.
Proof.
  intros Hlt. unfold BeginSnapshot_enter. destruct (_ || _); [done|].
  set (b1 := GetOrCreateLifecycleFence k b). destruct (negb (AcceptingReports b1)); [done|].
  destruct (negb (IsNodeRegistered b1 k)) eqn:En; cbn [orb]; [done|].
  apply negb_false_iff in En. destruct (negb (registered _)); [done|]. cbv zeta.
  destruct (negb _); [done|]. destruct (rate_limited _ _ _); [done|].
  destruct (draw_token _ _) as [v'|]; [|done]. cbn [mbind option_bind].
  set (st' := mkVersionState _ _ _ _ _ _). intros [= <- <- <-]. apply effect_after_fence. fold b1.
  unfold IsNodeRegistered in En. apply bool_decide_eq_true in En.
  assert (Hst1 : state_of b1 k = state_of b k) by done.
  split; [frames|done|]. intros Hok _. rewrite entry_state, entry_state.
  change (restate st' (restate (state_of b1 k) (entry_of b1 k))) with (restate st' (entry_of b1 k)).
  assert (Hpos : 0 <= attempt_epoch (state_of b1 k)).
  { unfold state_of. destruct (snapshot_versions b1 !! k) eqn:E; [by apply (eo_epoch _ Hok)|done]. }
  assert (Hu : attempt_epoch st' = attempt_epoch (state_of b1 k) + 1).
  { apply u64_small. rewrite <-Hst1 in Hlt. unfold is_u64, u64_max in *. lia. }
  split; [apply restate_ok; [done|done|lia]|].
  apply restate_evolves. intros st Hst. assert (Hs : state_of b1 k = st) by (by rewrite state_of_entry, Hst).
  rewrite Hu, Hs. split; lia.
Qed.

Lemma effect_abort k v b : effect k b (AbortSnapshotVersion k v b).
Proof.
  unfold AbortSnapshotVersion. destruct (_ || _); [apply ev_effect_refl|].
  destruct (FindLifecycleFence b k); [|apply ev_effect_refl].
  destruct (snapshot_versions b !! k) as [st|] eqn:E; [|apply ev_effect_refl].
  case_bool_decide; [|apply ev_effect_refl]. split; [frames|done|]. intros Hok _. rewrite entry_state. split.
  - apply restate_ok; [done|apply (eo_state _ Hok); by exists st|]. exact (eo_epoch _ Hok st E).
  - apply restate_evolves. simpl. intros st0 E0. simplify_eq. split; [lia|]. intros _. split; [by right|by left].
Qed.

(** ** Every step, on entries *)

Definition entries_ok b : Prop := forall k, entry_ok (entry_of b k).

Lemma effect_ok k b b' : counters_left b -> effect k b b' -> entries_ok b ->
  entries_ok b' /\ forall j, evolves (entry_of b j) (entry_of b' j).
Proof.
  intros [Hg _] [Hf _ He] Hok.
  assert (H : forall j, entry_ok (entry_of b' j) /\ evolves (entry_of b j) (entry_of b' j)).
  { intros j. destruct (decide (j = k)) as [->|Hne]; [apply He; [apply Hok|apply Hg]|].
    rewrite (Hf j Hne). split; [apply Hok|reflexivity]. }
  split; intros j; apply H.
Qed.

Lemma mild_ok b b' : mild b b' -> entries_ok b -> entries_ok b' /\ forall j, evolves (entry_of b j) (entry_of b' j).
Proof. intros [He _] Hok. split; intros j; by apply He. Qed.

Lemma step_entries s s' :
  step s s' -> entries_ok (be s) ->
  entries_ok (be s') /\ (retired (be s) = true -> retired (be s') = true) /\
  (retired (be s') = false -> forall k, evolves (entry_of (be s) k) (entry_of (be s') k)).
Proof.
  intros [Hc Ha] Hok.
  assert (He : forall k b', effect k (be s) b' -> entries_ok b' /\ (retired (be s) = true -> retired b' = true) /\
    (retired b' = false -> forall k, evolves (entry_of (be s) k) (entry_of b' k))).
  { intros k b' H. destruct (effect_ok _ _ _ Hc H Hok) as [H1 H2]. split_and!; [done|by rewrite (ef_retired _ _ _ H)|auto]. }
  assert (Hm : forall b', mild (be s) b' -> entries_ok b' /\ (retired (be s) = true -> retired b' = true) /\
    (retired b' = false -> forall k, evolves (entry_of (be s) k) (entry_of b' k))).
  { intros b' H. destruct (mild_ok _ _ H Hok) as [H1 H2]. split_and!; [done|apply H|auto]. }
  destruct Ha; simpl in *.
  - eapply He, lifecycle_effect; eauto.
  - by apply Hm, shared_mild.
  - split_and!; [|done|simpl; congruence]. intros k. unfold entry_of. simpl.
    split; simpl; unfold gen_of; simpl; rewrite ?lookup_empty; try done; by intros [? ?].
  - eapply Hm, delta_begin_mild; eauto.
  - apply Hm, delta_end_mild.
  - eapply He, effect_snapshot_enter; eauto. apply Hc.
  - eapply Hm, snapshot_resume_mild; eauto.
  - apply Hm, commit_if_mild.
  - eapply He, effect_abort.
  - apply Hm. reflexivity.
  - apply Hm. reflexivity.
Qed.

(** A step of another thread while a lease of [k] is held. *)
Lemma step_leased s s' k :
  step s s' -> entries_ok (be s) -> k ∈ leases s -> frozen (entry_of (be s) k) (entry_of (be s') k).
Proof.
  intros [Hc Ha] Hok Hk.
  assert (He : forall j b', j ∉ leases s -> effect j (be s) b' -> frozen (entry_of (be s) k) (entry_of b' k)).
  { intros j b' Hj H. rewrite (ef_frame _ _ _ H k) by (by intros ->). reflexivity. }
  assert (Hm : forall b', mild (be s) b' -> frozen (entry_of (be s) k) (entry_of b' k)).
  { intros b' H. by apply (mi_entry _ _ H). }
  destruct Ha; simpl in *.
  - eapply He, lifecycle_effect; eauto.
  - by apply Hm, shared_mild.
  - rewrite H in Hk. by apply elem_of_nil in Hk.
  - eapply Hm, delta_begin_mild; eauto.
  - apply Hm, delta_end_mild.
  - eapply He, effect_snapshot_enter; eauto. apply Hc.
  - eapply Hm, snapshot_resume_mild; eauto.
  - apply Hm, commit_if_mild.
  - eapply He, effect_abort; eauto.
  - reflexivity.
  - reflexivity.
Qed.

Lemma steps_entries s s' :
  rtc step s s' -> entries_ok (be s) ->
  entries_ok (be s') /\ (retired (be s) = true -> retired (be s') = true) /\
  (retired (be s') = false -> forall k, evolves (entry_of (be s) k) (entry_of (be s') k)).
Proof.
  intros Hr. induction Hr as [s|s1 s2 s3 H1 _ IH]; intros Hok.
  { split_and!; [done|done|]. intros _ k. reflexivity. }
  destruct (step_entries _ _ H1 Hok) as (Hok2 & R1 & E1). destruct (IH Hok2) as (Hok3 & R2 & E2).
  split_and!; [done|auto|]. intros H k. etrans; [apply E1|by apply E2].
  destruct (retired (be s2)); [|done]. by rewrite R2 in H.
Qed.

(** A run in which a lease of [k] is held throughout. *)
Definition leased_step k (s s' : Sys) : Prop := k ∈ leases s /\ step s s'.

Lemma leased_steps k s s' : rtc (leased_step k) s s' -> rtc step s s'.
Proof. apply rtc_subrel. by intros ? ? [_ ?]. Qed.

Lemma steps_leased k s s' :
  rtc (leased_step k) s s' -> entries_ok (be s) -> frozen (entry_of (be s) k) (entry_of (be s') k).
Proof.
  intros Hr. induction Hr as [s|s1 s2 s3 [Hk H1] _ IH]; intros Hok; [reflexivity|].
  etrans; [by apply (step_leased s1 s2)|]. apply IH. by apply (step_entries _ _ H1).
Qed.

Lemma initial_entries s : initial s -> entries_ok (be s).
Proof.
  intros (_ & _ & H1 & H2 & H3 & H4 & _) k. unfold entry_of. rewrite H1, H2, H3, H4.
  split; simpl; unfold gen_of; simpl; rewrite ?lookup_empty; try done; by intros [? ?].
Qed.

Lemma reachable_entries s : reachable s -> entries_ok (be s).
Proof. intros (s0 & Hi & Hr). apply (steps_entries s0 s Hr). by apply initial_entries. Qed.

(** ** Background deletion *)

(** Whether a query of reporter [k] would use a location with these URIs. *)
Definition location_visible b k (uris : list chars) (prevalidated : bool) : bool :=
  match GetQueryVisibilityState b k with
  | None => false
  | Some (strict, committed_version) => IsEventReportLocationReadable uris prevalidated strict committed_version
  end.

Lemma Inspect_prevalidated uri v pre :
  InspectSnapshotUriForVisibility uri false = Some v -> InspectSnapshotUriForVisibility uri pre = Some v.
Proof.
  unfold InspectSnapshotUriForVisibility. destruct (find_sub _ uri) as [[|n]|]; [done| |done].
  cbv zeta. destruct (match find_char "?" uri 0 with Some _ => _ | None => _ end); [done|].
  destruct (match scan_port _ _ _ with Some _ => _ | None => true end); [|done].
  cbn [negb andb]. by rewrite andb_false_r.
Qed.

Lemma inspect_uris_spec st uris :
  inspect_uris st uris = (false, false) ->
  Forall (fun u => exists v, InspectSnapshotUriForVisibility u false = Some v /\ v <> committed st /\
    (in_flight st <> [] -> v <> in_flight st)) uris.
Proof.
  unfold inspect_uris. induction uris as [|u uris IH] using rev_ind; [constructor|].
  rewrite foldl_snoc. destruct (foldl _ _ uris) as [cur bad]. cbn [fst snd].
  destruct (InspectSnapshotUriForVisibility u false) as [v|] eqn:E; [|done]. intros [= Hc Hb]. subst bad.
  apply orb_false_iff in Hc as [[Hcur Hv1]%orb_false_iff Hv2]. subst cur.
  apply Forall_app. split; [by apply IH|]. constructor; [|constructor]. exists v.
  apply bool_decide_eq_false in Hv1. split_and!; [done|done|]. intros Hne ->.
  rewrite bool_decide_eq_false_2, bool_decide_eq_true_2 in Hv2 by done. done.
Qed.

Lemma unreadable uris pre c :
  Forall (fun u => exists v, InspectSnapshotUriForVisibility u false = Some v /\ v <> c) uris ->
  IsEventReportLocationReadable uris pre true c = false.
Proof.
  intros Hall. unfold IsEventReportLocationReadable. case_bool_decide; [done|].
  destruct (mapM _ uris) as [vs|] eqn:E; [|done]. cbn [negb orb].
  apply mapM_Some in E. revert E. clear -Hall. revert vs.
  induction Hall as [|u uris (v & Hv & Hne) _ IH]; intros vs E; inversion E; subst; [done|].
  cbn [existsb]. rewrite IH by done. rewrite (Inspect_prevalidated _ _ pre Hv) in *. simplify_eq.
  rewrite (bool_decide_eq_false_2 (y = c)) by done. by rewrite andb_false_r.
Qed.

Lemma visible_retired b k uris pre : retired b = true -> location_visible b k uris pre = false.
Proof. intros Hr. unfold location_visible, GetQueryVisibilityState, AcceptingReports. by rewrite Hr. Qed.

Lemma visible_absent b k uris pre : e_node (entry_of b k) = None -> location_visible b k uris pre = false.
Proof.
  simpl. intros Hn. unfold location_visible, GetQueryVisibilityState. rewrite Hn. by destruct (negb _).
Qed.

Lemma accepting_live b : AcceptingReports b = true -> retired b = false.
Proof. unfold AcceptingReports. by destruct (retired b). Qed.

(** A fence that is down means the node is gone. *)
Lemma fence_absent b k f :
  entry_ok (entry_of b k) -> lifecycle_fences b !! k = Some f -> registered f = false -> e_node (entry_of b k) = None.
Proof.
  intros Hok Hf Hr. destruct (eo_fence _ Hok f Hf) as [_ H]. destruct (e_node (entry_of b k)); [|done].
  destruct H as [_ H]. rewrite H in Hr by eauto. done.
Qed.

(** What an acquired maintenance lease knows about the reporter. *)
Lemma maintenance_acquired token owns now_ms b b' :
  entries_ok b -> AcquireMaintenanceCleanupLease token owns now_ms b = (kAcquired, b') ->
  let k := reporter_key token in
  mild b b' /\ AcceptingReports b' = true /\
  (e_node (entry_of b' k) = None \/
   reason token = kStaleSnapshot /\ gen_of (entry_of b' k) = lifecycle_generation token /\
   is_Some (e_node (entry_of b' k)) /\
   exists st, snapshot_versions b' !! k = Some st /\ strict_query_visibility st = true /\
     attempt_epoch st = snapshot_attempt_epoch token).
Proof.
  intros Hok. unfold AcquireMaintenanceCleanupLease. destruct (negb (AcceptingReports b)) eqn:Ea; [done|].
  apply negb_false_iff in Ea. destruct (reason token) eqn:Er; set (k := reporter_key token).
  - unfold FindLifecycleFence. destruct (lifecycle_fences b !! k) as [f|] eqn:Ef; [|done].
    destruct owns; [|done]. cbn [negb orb].
    destruct (registered f) eqn:Erf; [|done]. destruct (Z.eqb_spec (generation f) (lifecycle_generation token)) as [Eg|]; [|done].
    cbn [negb orb]. destruct (snapshot_versions b !! k) as [st|] eqn:Es; [|done].
    destruct (strict_query_visibility st) eqn:Eq; [|done]. destruct (bool_decide _); [|done].
    destruct (Z.eqb_spec (attempt_epoch st) (snapshot_attempt_epoch token)); [|done].
    intros [= <-]. destruct (eo_fence _ (Hok k) f Ef) as [Hg Hn]. split_and!; [reflexivity|done|]. right.
    split_and!; [done|congruence|by apply Hn|eauto].
  - unfold AcquireDownLifecycleCleanupLease, FindLifecycleFence.
    destruct (lifecycle_fences b !! k) as [f|] eqn:Ef; [|done]. destruct owns; [|done]. cbn [negb].
    destruct (negb _); [done|]. destruct (registered f) eqn:Erf; [done|]. intros [= <-].
    split_and!; [reflexivity|done|]. left. by apply (fence_absent b k f).
  - destruct (_ <? _); [done|]. unfold AcquireAbsentReporterCleanupLease. destruct owns; [|done]. cbn [negb].
    set (b1 := GetOrCreateLifecycleFence k b). destruct (registered (fence_of b1 k)) eqn:Erf; [done|].
    destruct (_ && _); [done|]. intros [= <-]. pose proof (mild_fence k b) as Hm.
    split_and!; [done|done|]. left. apply (fence_absent b1 k (fence_of b1 k)); [by apply Hm| |done].
    unfold b1, GetOrCreateLifecycleFence, fence_of at 2. simpl. by rewrite !lookup_insert_eq.
Qed.

(** The state of a reporter some steps after a stale-snapshot probe, when
    neither its generation nor its attempt number has moved. *)
Lemma stale_stays_unreadable e e' st st' uris pre :
  evolves e e' -> gen_of e = gen_of e' -> is_Some (e_node e') ->
  e_state e = Some st -> e_state e' = Some st' -> attempt_epoch st = attempt_epoch st' ->
  committed st <> [] -> inspect_uris st uris = (false, false) ->
  IsEventReportLocationReadable uris pre true (committed st') = false.
Proof.
  intros Hev Hg Hn Hs Hs' He Hc Hi. destruct (ev_state _ _ Hev Hg Hn st Hs) as (st2 & Hs2 & _ & Hsame).
  rewrite Hs' in Hs2. injection Hs2 as <-. specialize (Hsame He) as [_ Hcom].
  apply unreadable. apply inspect_uris_spec in Hi. eapply Forall_impl; [exact Hi|].
  intros u (v & Hv & H1 & H2). exists v. split; [done|].
  destruct Hcom as [-> |[E|(-> & Hne & _)]]; [done|done|by apply H2].
Qed.

(** What a probe has seen when it hands out a stale-snapshot token. *)
Lemma probe_stale now_ms probes i probe token b :
  probes !! i = Some probe -> ProbeLocationsForMaintenance now_ms probes b !! i = Some (DeleteMetadata token) ->
  reason token = kStaleSnapshot ->
  exists st, snapshot_versions b !! reporter_key token = Some st /\ committed st <> [] /\
    inspect_uris st (probe_uris probe) = (false, false) /\ attempt_epoch st = snapshot_attempt_epoch token /\
    gen_of (entry_of b (reporter_key token)) = lifecycle_generation token.
Proof.
  intros Hi Hp Hr. unfold ProbeLocationsForMaintenance in Hp.
  destruct (negb (AcceptingReports b)); rewrite list_lookup_fmap, Hi in Hp; [done|].
  cbn [fmap option_fmap option_map] in Hp. injection Hp as Hp. unfold ProbeLocation in Hp.
  destruct (bool_decide _); [done|]. destruct (ParseLocationIdView _ _) as [[m host]|]; [|done].
  set (k := (probe_instance probe, host)) in *. destruct (instance_nodes b !! k) as [node|] eqn:En.
  2: { repeat case_match; by simplify_eq. }
  destruct (negb (available node)); [done|]. destruct (snapshot_versions b !! k) as [st|] eqn:Es; [|done].
  destruct (bool_decide (committed st = [])) eqn:Ec; [done|]. apply bool_decide_eq_false in Ec.
  destruct (negb (strict_query_visibility st)); [done|]. cbn [orb] in Hp.
  destruct (inspect_uris st (probe_uris probe)) as [[|] [|]] eqn:Ei; [done..|]. injection Hp as <-. eauto 10.
Qed.

(** C8: background maintenance deletes only what no query can see.  Take a
    location the probe of a reachable backend marks for deletion, any steps of
    any threads, the acquisition of the cleanup lease the probe's token asks
    for, and any further steps while that lease is held: at that moment the
    location is not visible to queries, under strict or soft visibility,
    whatever heartbeats, registrations, deltas, snapshots, commits or aborts
    happened in between. *)
Theorem maintenance_deletes_only_invisible s0 s1 s2 probes i probe token now0 now1 owns b1 prevalidated :
  reachable s0 ->
  probes !! i = Some probe ->
  ProbeLocationsForMaintenance now0 probes (be s0) !! i = Some (DeleteMetadata token) ->
  rtc step s0 s1 ->
  AcquireMaintenanceCleanupLease token owns now1 (be s1) = (kAcquired, b1) ->
  rtc (leased_step (reporter_key token))
    (mkSys b1 (reporter_key token :: leases s1) (deltas s1) (waiting s1) (granted s1) (issued s1)) s2 ->
  location_visible (be s2) (reporter_key token) (probe_uris probe) prevalidated = false.
Proof.
  intros Hreach Hi Hp H01 Hacq H12. set (k := reporter_key token) in *.
  pose proof (reachable_entries _ Hreach) as Hok0.
  destruct (steps_entries _ _ H01 Hok0) as (Hok1 & _ & E01).
  destruct (maintenance_acquired _ _ _ _ _ Hok1 Hacq) as (Hm & Hacc & Hcase). fold k in Hcase.
  set (s1' := mkSys b1 _ _ _ _ _) in H12.
  assert (Hok1' : entries_ok (be s1')) by (by apply (mild_ok _ _ Hm)).
  pose proof (steps_leased _ _ _ H12 Hok1') as Hfr. simpl in Hfr.
  destruct (steps_entries _ _ (leased_steps _ _ _ H12) Hok1') as (_ & R12 & E12). simpl in E12.
  destruct (retired (be s2)) eqn:Er2; [by apply visible_retired|].
  assert (Hr1 : retired (be s1) = false).
  { destruct (retired (be s1)) eqn:E; [|done]. pose proof (mi_retired _ _ Hm E). rewrite (accepting_live _ Hacc) in *. done. }
  assert (Hev : evolves (entry_of (be s0) k) (entry_of (be s2) k)).
  { etrans; [by apply E01|]. etrans; [apply (mi_entry _ _ Hm), Hok1|by apply E12]. }
  destruct Hcase as [Hnone|(Hreason & Hgen & Hnode & st1 & Hst1 & Hstrict & Hep)].
  { apply visible_absent. destruct (e_node (entry_of (be s2) k)) eqn:E; [|done].
    destruct (proj2 (fr_node _ _ Hfr)) as [x Hx]; [by rewrite E|]. congruence. }
  destruct (probe_stale _ _ _ _ _ _ Hi Hp Hreason) as (st & Hst & Hc & Hins & Hep0 & Hgen0). fold k in Hst, Hgen0.
  destruct (fr_state _ _ Hfr st1 Hst1) as (st2 & Hst2 & Hep2 & Hstr2).
  destruct (proj1 (fr_node _ _ Hfr) Hnode) as [n2 Hn2].
  assert (Hgen2 : gen_of (entry_of (be s0) k) = gen_of (entry_of (be s2) k)).
  { by rewrite <-(fr_gen _ _ Hfr), Hgen. }
  unfold location_visible, GetQueryVisibilityState. destruct (negb _); [done|]. simpl in Hn2. rewrite Hn2.
  destruct (negb _); [done|]. simpl in Hst2. unfold state_of. rewrite Hst2. cbn [default from_option].
  assert (strict_query_visibility (Datatypes.id st2) = true) as -> by (by apply Hstr2).
  eapply (stale_stays_unreadable _ _ st st2); [exact Hev|exact Hgen2| |done|done| |done|done].
  - simpl. rewrite Hn2. eauto.
  - congruence.
Qed.

(** ** Liveness *)

(** C19: the liveness checker never expires a reporter that came back.  Take a
    reporter the checker selects for expiry and any steps of any threads before
    the checker gets to unregister it: if the unregistration succeeds, the
    reporter was still unavailable at that moment -- no heartbeat or
    registration had been accepted in between -- and afterwards it is gone and
    its fence is down at exactly the selected generation, which is what the
    cleanup lease of the callback requires. *)
Theorem expiry_spares_recovered s0 s1 k now_ms fresh_now g b0 b2 :
  reachable s0 ->
  liveness_visit k now_ms fresh_now (be s0) = (Some g, b0) ->
  rtc step (with_be b0 s0) s1 ->
  UnregisterNodeIfGeneration k g (be s1) = (EC_OK, b2) ->
  (exists info, instance_nodes (be s1) !! k = Some info /\ available info = false) /\
  instance_nodes b2 !! k = None /\
  (AcceptingReports b2 = true -> AcquireLifecycleCleanupLease k g b2 = EC_OK).
Proof.
  intros Hreach Hv Hr Hu. pose proof (reachable_entries _ Hreach) as Hok0.
  assert (Hm : mild (be s0) b0).
  { apply shared_mild. change b0 with (Some g, b0).2. rewrite <-Hv. constructor. }
  destruct (steps_entries _ _ Hr) as (Hok1 & _ & Hev); [by apply (mild_ok _ _ Hm)|].
  unfold UnregisterNodeIfGeneration in Hu. set (b1 := GetOrCreateLifecycleFence k (be s1)) in Hu.
  destruct (retired b1) eqn:Er; [done|]. specialize (Hev Er k).
  destruct (Z.eqb_spec (GetNodeGeneration b1 k) g) as [Eg|]; [|done]. cbn [negb] in Hu.
  unfold UnregisterNodeLocked in Hu. simpl in Hu. destruct (instance_nodes (be s1) !! k) as [i1|] eqn:Ei1; [|done].
  unfold liveness_visit in Hv. destruct (instance_nodes (be s0) !! k) as [i0|] eqn:Ei0; [|done].
  destruct (_ || _); [done|]. destruct (_ <=? _); [done|]. destruct (_ && _); [|done].
  injection Hv as Hg Hb0. split_and!.
  - exists i1. split; [done|]. eapply (ev_down _ _ Hev); [| |exact Ei1|].
    + rewrite <-Hb0. simpl. change (gen_of (entry_of (be s1) k)) with (GetNodeGeneration b1 k). by rewrite Eg, <-Hg.
    + rewrite <-Hb0. simpl. apply lookup_insert_eq.
    + done.
  - injection Hu as <-. simpl. apply lookup_delete_eq.
  - injection Hu as <-. intros Hacc. unfold AcquireLifecycleCleanupLease, FindLifecycleFence. rewrite Hacc. simpl.
    rewrite lookup_insert_eq. simpl. by rewrite (proj2 (Z.eqb_eq _ _) Eg).
Qed.

(** ** A concrete run *)

Lemma counters_left_check b :
  bool_decide (map_Forall (fun _ g => g < u64_max) (node_generation b)) &&
  bool_decide (map_Forall (fun _ st => attempt_epoch st < u64_max) (snapshot_versions b)) = true ->
  counters_left b.
Proof.
  intros [H1%bool_decide_eq_true H2%bool_decide_eq_true]%andb_true_iff. split; intros k.
  - unfold GetNodeGeneration. destruct (node_generation b !! k) eqn:E; [by apply (H1 k)|done].
  - unfold state_of. destruct (snapshot_versions b !! k) eqn:E; [by apply (H2 k)|done].
Qed.

Definition demo_key : ReporterSnapshotKey := (chars_of "i", chars_of "h:1").
Definition demo_draws : list (list Z) := [replicate 16 1].
Definition demo_token : chars := GenerateSnapshotVersionToken (replicate 16 1).

Definition demo_b0 : EventReportBackend :=
  mkBackend false false false DATA_STORAGE_TYPE_EVENT_REPORT_L2 10 20 0 5 0 ∅ ∅ ∅ ∅ ∅.
Definition demo_b1 : EventReportBackend := (RegisterNode demo_key [] 100 demo_b0).2.
Definition demo_b2 : EventReportBackend :=
  match BeginSnapshot_enter demo_key demo_draws 200 demo_b1 with Some (_, b) => b | None => demo_b1 end.
Definition demo_b3 : EventReportBackend := (CommitSnapshotVersionIfGeneration demo_key demo_token 1 300 demo_b2).2.

Definition demo_s0 : Sys := mkSys demo_b0 [] [] [] [] ∅.
Definition demo_s1 : Sys := mkSys demo_b1 [] [] [] [] ∅.
Definition demo_s2 : Sys := mkSys demo_b2 [] [] [(demo_key, demo_token)] [] ({[demo_token]} ∪ ∅).
Definition demo_s3 : Sys := mkSys demo_b2 [] [] [] [(demo_key, demo_token, 1)] ({[demo_token]} ∪ ∅).
Definition demo_s4 : Sys := mkSys demo_b3 [] [] [] [(demo_key, demo_token, 1)] ({[demo_token]} ∪ ∅).

Lemma demo_initial : initial demo_s0.
Proof. unfold initial. split_and!; reflexivity. Qed.

Lemma demo_step1 : step demo_s0 demo_s1.
Proof.
  split; [apply counters_left_check; vm_compute; reflexivity|].
  apply (act_lifecycle demo_s0 demo_key); [simpl; set_solver|]. apply op_register.
Qed.

Lemma demo_step2 : step demo_s1 demo_s2.
Proof.
  split; [apply counters_left_check; vm_compute; reflexivity|].
  apply (act_snapshot_enter demo_s1 demo_key demo_draws 200 demo_token 1); [simpl; set_solver| |simpl; set_solver].
  vm_compute. reflexivity.
Qed.

Lemma demo_step3 : step demo_s2 demo_s3.
Proof.
  split; [apply counters_left_check; vm_compute; reflexivity|].
  apply (act_snapshot_resume demo_s2 demo_key demo_token 1 EC_OK demo_b2 [] []); [done|].
  vm_compute. reflexivity.
Qed.

Lemma demo_step4 : step demo_s3 demo_s4.
Proof.
  split; [apply counters_left_check; vm_compute; reflexivity|].
  apply (act_commit demo_s3 demo_key demo_token 1 300). simpl. set_solver.
Qed.

Lemma demo_reachable1 : reachable demo_s1.
Proof. exists demo_s0. split; [apply demo_initial|]. eapply rtc_l; [apply demo_step1|]. apply rtc_refl. Qed.

Lemma demo_reachable3 : reachable demo_s3.
Proof.
  exists demo_s0. split; [apply demo_initial|]. eapply rtc_l; [apply demo_step1|]. eapply rtc_l; [apply demo_step2|].
  eapply rtc_l; [apply demo_step3|]. apply rtc_refl.
Qed.

Lemma demo_reachable4 : reachable demo_s4.
Proof.
  exists demo_s0. split; [apply demo_initial|]. eapply rtc_l; [apply demo_step1|]. eapply rtc_l; [apply demo_step2|].
  eapply rtc_l; [apply demo_step3|]. eapply rtc_l; [apply demo_step4|]. apply rtc_refl.
Qed.

Definition demo_probe : MaintenanceLocationProbe :=
  mkProbe (chars_of "i") (chars_of "kvs#event_report_l2#gpu#h:1")
    [chars_of "p://h/x?s_version=ffffffffffffffffffffffffffffffff"].

Definition demo_cleanup : MaintenanceCleanupToken := mkToken kStaleSnapshot demo_key 1 demo_token 1.

Lemma maintenance_deletes_only_invisible_witness :
  location_visible demo_b3 demo_key (probe_uris demo_probe) false = false.
Proof.
  apply (maintenance_deletes_only_invisible demo_s4 demo_s4
    (mkSys demo_b3 [demo_key] [] [] [(demo_key, demo_token, 1)] ({[demo_token]} ∪ ∅))
    [demo_probe] 0 demo_probe demo_cleanup 400 500 true demo_b3 false).
  - exact demo_reachable4.
  - reflexivity.
  - vm_compute. reflexivity.
  - apply rtc_refl.
  - vm_compute. reflexivity.
  - apply rtc_refl.
Defined.

Definition demo_dead : EventReportBackend := (liveness_visit demo_key 1000 1000 demo_b1).2.
Definition demo_dead2 : EventReportBackend := (liveness_visit demo_key 2000 2000 demo_dead).2.

Lemma demo_reachable_dead : reachable (with_be demo_dead demo_s1).
Proof.
  exists demo_s0. split; [apply demo_initial|]. eapply rtc_l; [apply demo_step1|].
  eapply rtc_l; [|apply rtc_refl]. split; [apply counters_left_check; vm_compute; reflexivity|].
  apply act_shared. apply op_liveness_visit.
Qed.

Lemma expiry_spares_recovered_witness :
  let b2 := (UnregisterNodeIfGeneration demo_key 1 demo_dead2).2 in
  (exists info, instance_nodes demo_dead2 !! demo_key = Some info /\ available info = false) /\
  instance_nodes b2 !! demo_key = None /\
  (AcceptingReports b2 = true -> AcquireLifecycleCleanupLease demo_key 1 b2 = EC_OK).
Proof.
  intros b2. apply (expiry_spares_recovered (with_be demo_dead demo_s1) (with_be demo_dead2 demo_s1) demo_key 2000 2000 1
    demo_dead2 b2).
  - exact demo_reachable_dead.
  - vm_compute. reflexivity.
  - apply rtc_refl.
  - vm_compute. reflexivity.
Defined.
