(* ===== verification/EventTokens.v ===== *)
(** * EventTokens: snapshot tokens, deltas and visibility

    The second invariant of the system of [EventSafe]: who owns which snapshot
    token, which deltas are outstanding, and what a granted snapshot may rely on. *)

From stdpp Require Import base gmap sets list strings relations.
From Stdlib Require Import ZArith Lia Ascii.
From S2P Require Import Prelude StandardUri MetaTypes SnapshotUri EventReport EventSafe.

Local Open Scope Z_scope.

Implicit Types (k : ReporterSnapshotKey) (b : EventReportBackend).

(** ** Tokens and admissions *)

Definition admitted_count k (v : chars) (dl : list (ReporterSnapshotKey * chars)) : Z :=
  Z.of_nat (length (filter (fun d => d = (k, v)) dl)).

(** The token tables and the bookkeeping of the system. *)
Record tokens_ok (vs : gmap ReporterSnapshotKey SnapshotVersionState) (owners : gmap chars ReporterSnapshotKey)
    (dl wt : list (ReporterSnapshotKey * chars)) (gr : list (ReporterSnapshotKey * chars * Z))
    (iss : gset chars) : Prop := {
  tk_owner : forall t k, owners !! t = Some k <-> exists st, vs !! k = Some st /\ committed st = t /\ t <> [];
  tk_flight : forall k st, vs !! k = Some st -> in_flight st <> [] ->
    owners !! in_flight st = None /\ in_flight st ∈ iss /\ forall j, (j, in_flight st) ∉ dl;
  tk_flight_inj : forall k1 k2 st1 st2, vs !! k1 = Some st1 -> vs !! k2 = Some st2 ->
    in_flight st1 = in_flight st2 -> in_flight st1 <> [] -> k1 = k2;
  tk_issued : forall t, is_Some (owners !! t) -> t ∈ iss;
  tk_deltas : forall k v, (k, v) ∈ dl -> v ∈ iss /\ v <> [];
  tk_waiting : forall k v, (k, v) ∈ wt -> v ∈ iss /\ v <> [];
  tk_granted : forall k v g, (k, v, g) ∈ gr -> v ∈ iss /\ v <> [];
  tk_idle : forall k st, vs !! k = Some st -> committed st = [] -> active_delta_mutations st = 0;
  tk_count : forall k st, vs !! k = Some st -> committed st <> [] ->
    active_delta_mutations st = admitted_count k (committed st) dl;
  tk_quiet : forall k v g st, (k, v, g) ∈ gr -> vs !! k = Some st -> in_flight st = v -> active_delta_mutations st = 0;
}.

Definition sys_tokens_ok (s : Sys) : Prop :=
  tokens_ok (snapshot_versions (be s)) (snapshot_token_owners (be s)) (deltas s) (waiting s) (granted s) (issued s).

(** Removing a reporter's state, or all of them. *)
Lemma tokens_delete vs owners dl wt gr iss k owners' :
  tokens_ok vs owners dl wt gr iss ->
  owners' = match vs !! k with
            | Some st => if bool_decide (committed st = []) then owners else delete (committed st) owners
            | None => owners
            end ->
  tokens_ok (delete k vs) owners' dl wt gr iss.
Proof.
  intros H ->. set (owners' := match vs !! k with Some _ => _ | None => _ end).
  assert (Hsub : forall t j, owners' !! t = Some j <-> owners !! t = Some j /\ j <> k).
  { intros t j. unfold owners'. destruct (vs !! k) as [st|] eqn:E.
    - case_bool_decide as Hc.
      + split; [|by intros [? _]]. intros Ho. split; [done|]. intros ->.
        apply (tk_owner _ _ _ _ _ _ H) in Ho as (st' & ? & <- & ?). simplify_eq.
      + rewrite lookup_delete_Some. split.
        * intros [Hne Ho]. split; [done|]. intros ->.
          apply (tk_owner _ _ _ _ _ _ H) in Ho as (st' & ? & <- & ?). simplify_eq.
        * intros [Ho Hne]. split; [|done]. intros <-.
          assert (owners !! committed st = Some k) by (apply (tk_owner _ _ _ _ _ _ H); eauto). congruence.
    - split; [|by intros [? _]]. intros Ho. split; [done|]. intros ->.
      apply (tk_owner _ _ _ _ _ _ H) in Ho as (st' & ? & _). congruence. }
  assert (Hdel : forall j st, delete k vs !! j = Some st -> vs !! j = Some st /\ j <> k).
  { intros j st Hj. apply lookup_delete_Some in Hj as [? ?]. auto. }
  split; try apply H.
  - intros t j. rewrite Hsub, (tk_owner _ _ _ _ _ _ H). split.
    + intros [(st & ? & ? & ?) ?]. exists st. by rewrite lookup_delete_ne.
    + intros (st & [? ?]%Hdel & ? & ?). eauto.
  - intros j st [Hj Hne]%Hdel Hf. destruct (tk_flight _ _ _ _ _ _ H j st Hj Hf) as (Ho & ?). split; [|done].
    destruct (owners' !! in_flight st) eqn:E; [|done]. apply Hsub in E as [E _]. congruence.
  - intros k1 k2 st1 st2 [H1 _]%Hdel [H2 _]%Hdel. by apply (tk_flight_inj _ _ _ _ _ _ H).
  - intros t [j Hj]. apply Hsub in Hj as [Hj _]. apply (tk_issued _ _ _ _ _ _ H). eauto.
  - intros j st [Hj _]%Hdel. by apply (tk_idle _ _ _ _ _ _ H j).
  - intros j st [Hj _]%Hdel. by apply (tk_count _ _ _ _ _ _ H j).
  - intros j v g st Hg [Hj _]%Hdel. by apply (tk_quiet _ _ _ _ _ _ H j v g).
Qed.

Lemma tokens_clear vs owners dl wt gr iss : tokens_ok vs owners dl wt gr iss -> tokens_ok ∅ ∅ dl wt gr iss.
Proof.
  intros H. split; try apply H; intros *; rewrite ?lookup_empty; try done.
  - split; [done|]. by intros (st & Hst & _).
Qed.

Lemma count_app k v l1 l2 : admitted_count k v (l1 ++ l2) = admitted_count k v l1 + admitted_count k v l2.
Proof. unfold admitted_count. rewrite filter_app, length_app. lia. Qed.

Lemma count_one k v j w : admitted_count k v [(j, w)] = if bool_decide ((j, w) = (k, v)) then 1 else 0.
Proof. unfold admitted_count. rewrite filter_cons, filter_nil. case_decide; case_bool_decide; by try congruence. Qed.

Lemma count_absent k v dl : (k, v) ∉ dl -> admitted_count k v dl = 0.
Proof.
  intros H. unfold admitted_count. rewrite filter_none; [done|]. apply Forall_forall. intros d Hd ->. done.
Qed.

Lemma count_present k v dl : (k, v) ∈ dl -> 1 <= admitted_count k v dl.
Proof.
  intros (l1 & l2 & ->)%list_elem_of_split. rewrite (cons_middle _ l1), !count_app, count_one.
  rewrite bool_decide_eq_true_2 by done. unfold admitted_count. lia.
Qed.

Definition no_state : SnapshotVersionState := mkVersionState [] [] 0 0 0 false.

(** A new state with the same committed version and admissions, and no new
    candidate. *)
Lemma tokens_put vs owners dl wt gr iss k st' :
  tokens_ok vs owners dl wt gr iss ->
  let st := default no_state (vs !! k) in
  committed st' = committed st -> (in_flight st' = in_flight st \/ in_flight st' = []) ->
  active_delta_mutations st' = active_delta_mutations st ->
  tokens_ok (<[k := st']> vs) owners dl wt gr iss.
Proof.
  intros H st Hc Hf Ha.
  assert (Hput : forall j st0, <[k := st']> vs !! j = Some st0 ->
    exists st1, (vs !! j = Some st1 \/ vs !! j = None /\ st1 = no_state) /\
      committed st0 = committed st1 /\ (in_flight st0 = in_flight st1 \/ in_flight st0 = []) /\
      active_delta_mutations st0 = active_delta_mutations st1).
  { intros j st0. destruct (decide (j = k)) as [->|Hne].
    - rewrite lookup_insert_eq. intros [= <-]. exists st. unfold st in *. destruct (vs !! k); simpl in *; auto 10.
    - rewrite lookup_insert_ne by done. eauto 10. }
  split; try apply H.
  - intros t j. rewrite (tk_owner _ _ _ _ _ _ H). destruct (decide (j = k)) as [->|Hne].
    + rewrite lookup_insert_eq. unfold st in *. split.
      * intros (st0 & E & ? & ?). rewrite E in *. simpl in *. exists st'. split_and!; congruence.
      * intros (st0 & [= <-] & Ht & Htn). destruct (vs !! k) as [st1|]; simpl in *; [|congruence].
        exists st1. split_and!; congruence.
    + by rewrite lookup_insert_ne.
  - intros j st0 (st1 & Hs & _ & Hfl & _)%Hput Hn. destruct Hfl as [E|]; [|done]. rewrite E in *.
    destruct Hs as [Hs|[_ ->]]; [|done]. by apply (tk_flight _ _ _ _ _ _ H j).
  - intros k1 k2 st1 st2 (st1' & H1 & _ & F1 & _)%Hput (st2' & H2 & _ & F2 & _)%Hput E Hn.
    destruct F1 as [F1|]; [|done]. destruct F2 as [F2|]; [|congruence].
    destruct H1 as [H1|[_ ->]]; [|done]. destruct H2 as [H2|[_ ->]]; [|simpl in F2; congruence].
    apply (tk_flight_inj _ _ _ _ _ _ H k1 k2 st1' st2'); congruence.
  - intros j st0 (st1 & Hs & Hc1 & _ & Ha1)%Hput E. rewrite Ha1. destruct Hs as [Hs|[_ ->]]; [|done].
    apply (tk_idle _ _ _ _ _ _ H j); congruence.
  - intros j st0 (st1 & Hs & Hc1 & _ & Ha1)%Hput E. rewrite Ha1, Hc1. destruct Hs as [Hs|[_ ->]]; [|done].
    apply (tk_count _ _ _ _ _ _ H j); congruence.
  - intros j v g st0 Hg (st1 & Hs & _ & Hfl & Ha1)%Hput E. rewrite Ha1. destruct Hs as [Hs|[_ ->]]; [|done].
    destruct Hfl as [Hfl|Hfl]; [apply (tk_quiet _ _ _ _ _ _ H j v g); congruence|].
    destruct (tk_granted _ _ _ _ _ _ H j v g Hg). congruence.
Qed.

(** The admissions of the current generation counted anew, over another list of
    outstanding deltas. *)
Lemma tokens_recount vs owners dl dl' wt gr iss k st a :
  tokens_ok vs owners dl wt gr iss -> vs !! k = Some st -> committed st <> [] ->
  (forall v g, (k, v, g) ∈ gr -> in_flight st <> v) ->
  (forall d, d ∈ dl' -> d ∈ dl \/ d = (k, committed st)) ->
  (forall j v, (j, v) <> (k, committed st) -> admitted_count j v dl' = admitted_count j v dl) ->
  a = admitted_count k (committed st) dl' ->
  tokens_ok (<[k := with_active a st]> vs) owners dl' wt gr iss.
Proof.
  intros H Hk Hc Hq Hsub Hcnt Ha.
  assert (Hown : owners !! committed st = Some k) by (apply (tk_owner _ _ _ _ _ _ H); eauto).
  assert (Hput : forall j st0, <[k := with_active a st]> vs !! j = Some st0 ->
    exists st1, vs !! j = Some st1 /\ committed st0 = committed st1 /\ in_flight st0 = in_flight st1 /\
      (j = k /\ active_delta_mutations st0 = a \/ j <> k /\ st0 = st1)).
  { intros j st0. destruct (decide (j = k)) as [->|Hne].
    - rewrite lookup_insert_eq. intros [= <-]. exists st. simpl. auto 10.
    - rewrite lookup_insert_ne by done. eauto 10. }
  split; try apply H.
  - intros t j. rewrite (tk_owner _ _ _ _ _ _ H). destruct (decide (j = k)) as [->|Hne].
    + rewrite lookup_insert_eq, Hk. split; intros (st0 & [= <-] & ?); eexists; by split.
    + by rewrite lookup_insert_ne.
  - intros j st0 (st1 & Hs & _ & Hfl & _)%Hput Hn. rewrite Hfl in *.
    destruct (tk_flight _ _ _ _ _ _ H j st1 Hs Hn) as (Ho & Hi & Hd). split_and!; [done|done|].
    intros i Hin. destruct (Hsub _ Hin) as [|[= -> E]]; [by eapply Hd|]. congruence.
  - intros k1 k2 st1 st2 (st1' & H1 & _ & F1 & _)%Hput (st2' & H2 & _ & F2 & _)%Hput E Hn.
    apply (tk_flight_inj _ _ _ _ _ _ H k1 k2 st1' st2'); congruence.
  - intros j v Hin. destruct (Hsub _ Hin) as [|[= -> ->]]; [by apply (tk_deltas _ _ _ _ _ _ H j)|].
    split; [apply (tk_issued _ _ _ _ _ _ H); eauto|done].
  - intros j st0 (st1 & Hs & Hc1 & _ & Hcase)%Hput E. destruct Hcase as [[-> _]|[_ ->]].
    + congruence.
    + by apply (tk_idle _ _ _ _ _ _ H j).
  - intros j st0 (st1 & Hs & Hc1 & _ & Hcase)%Hput E. destruct Hcase as [[-> Hact]|[Hne ->]].
    + rewrite Hact, Ha. congruence.
    + rewrite Hcnt by congruence. by apply (tk_count _ _ _ _ _ _ H j).
  - intros j v g st0 Hg (st1 & Hs & _ & Hfl & Hcase)%Hput E. destruct Hcase as [[-> _]|[_ ->]].
    + exfalso. apply (Hq v g Hg). congruence.
    + by apply (tk_quiet _ _ _ _ _ _ H j v g).
Qed.

(** Forgetting a delta that no live generation counts. *)
Lemma tokens_forget vs owners l1 l2 wt gr iss k v :
  tokens_ok vs owners (l1 ++ (k, v) :: l2) wt gr iss ->
  (forall st, vs !! k = Some st -> committed st <> v) -> tokens_ok vs owners (l1 ++ l2) wt gr iss.
Proof.
  intros H Hn. assert (Hsub : forall d, d ∈ l1 ++ l2 -> d ∈ l1 ++ (k, v) :: l2) by set_solver.
  split; try apply H.
  - intros j st Hj Hf. destruct (tk_flight _ _ _ _ _ _ H j st Hj Hf) as (Ho & Hi & Hd). split_and!; [done|done|].
    intros i Hin. by apply (Hd i), Hsub.
  - intros j w Hin. by apply (tk_deltas _ _ _ _ _ _ H j), Hsub.
  - intros j st Hj Hc. rewrite (tk_count _ _ _ _ _ _ H j st Hj Hc). rewrite (cons_middle _ l1), !count_app, count_one.
    rewrite bool_decide_eq_false_2; [lia|]. intros [= <- E]. by apply (Hn st).
Qed.

(** More tokens drawn, fewer snapshots waiting. *)
Lemma tokens_weaken vs owners dl wt wt' gr iss iss' :
  tokens_ok vs owners dl wt gr iss -> iss ⊆ iss' ->
  (forall k v, (k, v) ∈ wt' -> (k, v) ∈ wt \/ v ∈ iss' /\ v <> []) ->
  tokens_ok vs owners dl wt' gr iss'.
Proof.
  intros H Hi Hw. split; try apply H.
  - intros k st Hk Hf. destruct (tk_flight _ _ _ _ _ _ H k st Hk Hf) as (? & ? & ?). split_and!; auto.
  - intros t Ht. by apply Hi, (tk_issued _ _ _ _ _ _ H).
  - intros k v Hd. destruct (tk_deltas _ _ _ _ _ _ H k v Hd). auto.
  - intros k v [Hin|]%Hw; [|done]. destruct (tk_waiting _ _ _ _ _ _ H k v Hin). auto.
  - intros k v g Hg. destruct (tk_granted _ _ _ _ _ _ H k v g Hg). auto.
Qed.

(** The first committed version of a reporter, a token never drawn before. *)
Lemma tokens_first vs owners dl wt gr iss k v :
  tokens_ok vs owners dl wt gr iss -> v <> [] -> v ∉ iss ->
  committed (default no_state (vs !! k)) = [] ->
  tokens_ok (<[k := with_committed v (default no_state (vs !! k))]> vs) (<[v := k]> owners) dl wt gr ({[v]} ∪ iss).
Proof.
  intros H Hv Hi Hc. set (st := default no_state (vs !! k)) in *.
  assert (Hact : active_delta_mutations st = 0).
  { unfold st in *. destruct (vs !! k) eqn:E; [by apply (tk_idle _ _ _ _ _ _ H k)|done]. }
  assert (Hnew : owners !! v = None).
  { destruct (owners !! v) eqn:E; [|done]. destruct Hi. apply (tk_issued _ _ _ _ _ _ H). eauto. }
  assert (Hfk : in_flight st <> [] -> vs !! k = Some st) by (unfold st; by destruct (vs !! k)).
  assert (Hput : forall j st0, <[k := with_committed v st]> vs !! j = Some st0 -> in_flight st0 <> [] ->
    exists st1, vs !! j = Some st1 /\ in_flight st0 = in_flight st1 /\
      active_delta_mutations st0 = active_delta_mutations st1).
  { intros j st0. destruct (decide (j = k)) as [->|Hne].
    - rewrite lookup_insert_eq. intros [= <-] Hf. exists st. split_and!; [by apply Hfk|done|done].
    - rewrite lookup_insert_ne by done. eauto. }
  split.
  - intros t j. destruct (decide (t = v)) as [->|Htv].
    + rewrite lookup_insert_eq. split.
      * intros [= <-]. eexists. rewrite lookup_insert_eq. by split_and!.
      * intros (st0 & Hst0 & Hcm & _). destruct (decide (j = k)) as [->|Hne]; [done|].
        rewrite lookup_insert_ne in Hst0 by done.
        assert (owners !! v = Some j) by (apply (tk_owner _ _ _ _ _ _ H); eauto). congruence.
    + rewrite lookup_insert_ne, (tk_owner _ _ _ _ _ _ H) by done. destruct (decide (j = k)) as [->|Hne].
      * rewrite lookup_insert_eq. split; intros (st0 & Hst0 & Hcm & Ht).
        -- unfold st in Hc. rewrite Hst0 in Hc. simpl in Hc. congruence.
        -- simplify_eq/=.
      * by rewrite lookup_insert_ne.
  - intros j st0 Hj Hf. destruct (Hput j st0 Hj Hf) as (st1 & H1 & E & _). rewrite E in *.
    destruct (tk_flight _ _ _ _ _ _ H j st1 H1 Hf) as (Ho & Hin & Hd). split_and!; [|set_solver|done].
    rewrite lookup_insert_ne by (intros ->; done). done.
  - intros k1 k2 st1 st2 H1 H2 E Hf. destruct (Hput k1 st1 H1 Hf) as (st1' & ? & ? & _).
    destruct (Hput k2 st2 H2 ltac:(congruence)) as (st2' & ? & ? & _).
    apply (tk_flight_inj _ _ _ _ _ _ H k1 k2 st1' st2'); congruence.
  - intros t [j Hj]. destruct (decide (t = v)) as [->|]; [set_solver|].
    rewrite lookup_insert_ne in Hj by done. apply elem_of_union_r, (tk_issued _ _ _ _ _ _ H). eauto.
  - intros j w Hd. destruct (tk_deltas _ _ _ _ _ _ H j w Hd). set_solver.
  - intros j w Hd. destruct (tk_waiting _ _ _ _ _ _ H j w Hd). set_solver.
  - intros j w g Hd. destruct (tk_granted _ _ _ _ _ _ H j w g Hd). set_solver.
  - intros j st0 Hj Hc0. destruct (decide (j = k)) as [->|Hne].
    + rewrite lookup_insert_eq in Hj. simplify_eq/=.
    + rewrite lookup_insert_ne in Hj by done. by apply (tk_idle _ _ _ _ _ _ H j).
  - intros j st0 Hj Hc0. destruct (decide (j = k)) as [->|Hne].
    + rewrite lookup_insert_eq in Hj. simplify_eq/=. rewrite Hact, count_absent; [done|].
      intros Hd. destruct (tk_deltas _ _ _ _ _ _ H k v Hd). done.
    + rewrite lookup_insert_ne in Hj by done. by apply (tk_count _ _ _ _ _ _ H j).
  - intros j w g st0 Hg Hj E. destruct (tk_granted _ _ _ _ _ _ H j w g Hg).
    destruct (Hput j st0 Hj ltac:(congruence)) as (st1 & ? & ? & ->). apply (tk_quiet _ _ _ _ _ _ H j w g); congruence.
Qed.

(** A candidate, a token never drawn before, for a reporter with none. *)
Lemma tokens_candidate vs owners dl wt gr iss k v st' :
  tokens_ok vs owners dl wt gr iss -> v <> [] -> v ∉ iss ->
  let st := default no_state (vs !! k) in
  committed st' = committed st -> in_flight st' = v -> active_delta_mutations st' = active_delta_mutations st ->
  tokens_ok (<[k := st']> vs) owners dl wt gr ({[v]} ∪ iss).
Proof.
  intros H Hv Hi st Hc Hf Ha.
  assert (H1 : tokens_ok (<[k := with_in_flight [] st']> vs) owners dl wt gr iss).
  { apply tokens_put; [done|done|by right|done]. }
  assert (Hother : forall j st0, j <> k -> <[k := st']> vs !! j = Some st0 ->
    <[k := with_in_flight [] st']> vs !! j = Some st0).
  { intros j st0 Hne. by rewrite !lookup_insert_ne. }
  assert (Hmine : <[k := with_in_flight [] st']> vs !! k = Some (with_in_flight [] st')) by apply lookup_insert_eq.
  assert (Hback : forall j st0, <[k := st']> vs !! j = Some st0 -> exists st1,
    <[k := with_in_flight [] st']> vs !! j = Some st1 /\ committed st0 = committed st1 /\
    active_delta_mutations st0 = active_delta_mutations st1).
  { intros j st0. destruct (decide (j = k)) as [->|Hne]; [|eauto].
    rewrite lookup_insert_eq. intros [= <-]. eauto. }
  split.
  - intros t j. rewrite (tk_owner _ _ _ _ _ _ H1). destruct (decide (j = k)) as [->|Hne].
    + rewrite !lookup_insert_eq. split; intros (st0 & [= <-] & ?); eexists; by split.
    + by rewrite !lookup_insert_ne.
  - intros j st0 Hj Hn. destruct (decide (j = k)) as [->|Hne].
    + rewrite lookup_insert_eq in Hj. injection Hj as <-. rewrite Hf. split_and!; [|set_solver|].
      * destruct (owners !! v) eqn:E; [|done]. destruct Hi. apply (tk_issued _ _ _ _ _ _ H). eauto.
      * intros i Hd. by destruct (tk_deltas _ _ _ _ _ _ H i v Hd).
    + destruct (tk_flight _ _ _ _ _ _ H1 j st0 (Hother _ _ Hne Hj) Hn) as (? & ? & ?). split_and!; [done|set_solver|done].
  - assert (Hfresh : forall j st0, j <> k -> <[k := st']> vs !! j = Some st0 -> in_flight st0 <> v).
    { intros j st0 Hne Hj E. destruct (tk_flight _ _ _ _ _ _ H1 j st0 (Hother _ _ Hne Hj)) as (_ & Hin & _); [by rewrite E|].
      by rewrite E in Hin. }
    intros k1 k2 st1 st2 E1 E2 E Hn. destruct (decide (k1 = k)) as [->|N1], (decide (k2 = k)) as [->|N2]; [done| | |].
    + rewrite lookup_insert_eq in E1. simplify_eq. by destruct (Hfresh k2 st2 N2 E2).
    + rewrite lookup_insert_eq in E2. simplify_eq. by destruct (Hfresh k1 st1 N1 E1).
    + by apply (tk_flight_inj _ _ _ _ _ _ H1 k1 k2 st1 st2); auto.
  - intros t Ht. apply elem_of_union_r. by apply (tk_issued _ _ _ _ _ _ H).
  - intros j w Hd. destruct (tk_deltas _ _ _ _ _ _ H j w Hd). set_solver.
  - intros j w Hd. destruct (tk_waiting _ _ _ _ _ _ H j w Hd). set_solver.
  - intros j w g Hd. destruct (tk_granted _ _ _ _ _ _ H j w g Hd). set_solver.
  - intros j st0 (st1 & Hs & E1 & E2)%Hback Hc0. rewrite E2. apply (tk_idle _ _ _ _ _ _ H1 j); congruence.
  - intros j st0 (st1 & Hs & E1 & E2)%Hback Hc0. rewrite E2, E1. apply (tk_count _ _ _ _ _ _ H1 j); congruence.
  - intros j w g st0 Hg Hj E. destruct (tk_granted _ _ _ _ _ _ H j w g Hg) as [Hin ?]. destruct (decide (j = k)) as [->|Hne].
    + rewrite lookup_insert_eq in Hj. injection Hj as <-. congruence.
    + by apply (tk_quiet _ _ _ _ _ _ H1 j w g); auto.
Qed.

(** A granted candidate becomes the committed version. *)
Lemma tokens_commit vs owners dl wt gr iss k v g st st' :
  tokens_ok vs owners dl wt gr iss -> (k, v, g) ∈ gr -> vs !! k = Some st -> in_flight st = v ->
  committed st' = v -> in_flight st' = [] -> active_delta_mutations st' = active_delta_mutations st ->
  tokens_ok (<[k := st']> vs)
    (<[v := k]> (if bool_decide (committed st = []) then owners else delete (committed st) owners)) dl wt gr iss.
Proof.
  intros H Hg Hk Hf Hc' Hf' Ha. destruct (tk_granted _ _ _ _ _ _ H k v g Hg) as [Hi Hv].
  pose proof (tk_quiet _ _ _ _ _ _ H k v g st Hg Hk Hf) as Hq.
  destruct (tk_flight _ _ _ _ _ _ H k st Hk ltac:(congruence)) as (Ho & _ & Hd). rewrite Hf in Ho, Hd.
  assert (H1 : tokens_ok (delete k vs) (if bool_decide (committed st = []) then owners
    else delete (committed st) owners) dl wt gr iss).
  { apply (tokens_delete vs owners _ _ _ _ k); [done|]. by rewrite Hk. }
  assert (Hold : forall j st0, j <> k -> <[k := st']> vs !! j = Some st0 -> delete k vs !! j = Some st0).
  { intros j st0 Hne. by rewrite lookup_insert_ne, lookup_delete_ne. }
  set (owners' := if bool_decide (committed st = []) then owners else _) in *.
  assert (Hnone : owners' !! v = None).
  { unfold owners'. case_bool_decide; [done|]. rewrite lookup_delete_ne; [done|]. intros E.
    assert (owners !! committed st = Some k) by (apply (tk_owner _ _ _ _ _ _ H); eauto). congruence. }
  split; try apply H1.
  - intros t j. destruct (decide (t = v)) as [->|Htv].
    + rewrite lookup_insert_eq. split.
      * intros [= <-]. exists st'. rewrite lookup_insert_eq. by split_and!.
      * intros (st0 & Hst0 & Hcm & _). destruct (decide (j = k)) as [->|Hne]; [done|].
        assert (owners' !! v = Some j) by (apply (tk_owner _ _ _ _ _ _ H1); eauto). congruence.
    + rewrite lookup_insert_ne, (tk_owner _ _ _ _ _ _ H1) by done. split; intros (st0 & Hst0 & Hcm & Ht).
      * apply lookup_delete_Some in Hst0 as [Hne Hst0]. exists st0. by rewrite lookup_insert_ne.
      * destruct (decide (j = k)) as [->|Hne]; [|eauto]. rewrite lookup_insert_eq in Hst0. congruence.
  - intros j st0 Hj Hn. destruct (decide (j = k)) as [->|Hne].
    { rewrite lookup_insert_eq in Hj. congruence. }
    destruct (tk_flight _ _ _ _ _ _ H1 j st0 (Hold _ _ Hne Hj) Hn) as (Hno & ? & ?). split_and!; [|done|done].
    rewrite lookup_insert_ne; [done|]. intros E. rewrite lookup_insert_ne in Hj by done. destruct Hne.
    apply (tk_flight_inj _ _ _ _ _ _ H j k st0 st); congruence.
  - intros k1 k2 st1 st2 E1 E2 E Hn. destruct (decide (k1 = k)) as [->|N1].
    { rewrite lookup_insert_eq in E1. congruence. }
    destruct (decide (k2 = k)) as [->|N2]; [rewrite lookup_insert_eq in E2; congruence|].
    by apply (tk_flight_inj _ _ _ _ _ _ H1 k1 k2 st1 st2); auto.
  - intros t [j Hj]. destruct (decide (t = v)) as [->|]; [done|]. rewrite lookup_insert_ne in Hj by done.
    apply (tk_issued _ _ _ _ _ _ H1). eauto.
  - intros j st0 Hj Hc0. destruct (decide (j = k)) as [->|Hne].
    + rewrite lookup_insert_eq in Hj. congruence.
    + by apply (tk_idle _ _ _ _ _ _ H1 j); auto.
  - intros j st0 Hj Hc0. destruct (decide (j = k)) as [->|Hne].
    + rewrite lookup_insert_eq in Hj. injection Hj as <-. rewrite Ha, Hq, Hc', count_absent; [done|apply Hd].
    + by apply (tk_count _ _ _ _ _ _ H1 j); auto.
  - intros j w g0 st0 Hg0 Hj E. destruct (tk_granted _ _ _ _ _ _ H j w g0 Hg0) as [_ Hw].
    destruct (decide (j = k)) as [->|Hne].
    + rewrite lookup_insert_eq in Hj. congruence.
    + by apply (tk_quiet _ _ _ _ _ _ H1 j w g0); auto.
Qed.

(** A snapshot granted once no delta is active. *)
Lemma tokens_grant vs owners dl wt gr iss k v g st :
  tokens_ok vs owners dl wt gr iss -> (k, v) ∈ wt -> vs !! k = Some st -> active_delta_mutations st = 0 ->
  tokens_ok vs owners dl wt ((k, v, g) :: gr) iss.
Proof.
  intros H Hw Hk Ha. split; try apply H.
  - intros j w g0 [[= -> -> _]|Hin]%elem_of_cons; [by apply (tk_waiting _ _ _ _ _ _ H k)|].
    by apply (tk_granted _ _ _ _ _ _ H j w g0).
  - intros j w g0 st0 [[= -> -> _]|Hin]%elem_of_cons; [intros; congruence|]. by apply (tk_quiet _ _ _ _ _ _ H j w g0).
Qed.

(** *** Every step, on tokens *)

Definition same_tokens b b' : Prop :=
  snapshot_versions b' = snapshot_versions b /\ snapshot_token_owners b' = snapshot_token_owners b.

Lemma shared_tokens b b' : shared_op b b' -> same_tokens b b'.
Proof.
  unfold same_tokens. destruct 1 as [k ms|k st now_ms r H|k now_ms|k now_ms fresh_now|k|a now_ms|t spec started now_ms|];
    try done.
  - unfold Ensure_merge. by repeat case_match.
  - unfold OnHeartbeat_fast in H. destruct (negb _); [by simplify_eq|].
    apply fmap_Some in H as (b' & Hb' & ->). unfold TryPublishSteadyHeartbeatLocked in Hb'.
    repeat (case_match; try done). by simplify_eq.
  - unfold SetNodeUnavailable. by case_match.
  - unfold liveness_visit. by repeat case_match.
  - by destruct a.
  - unfold Open. by repeat case_match.
Qed.

(** What the lifecycle sections do to the token tables of [k]. *)
Definition drops_tokens k b b' : Prop :=
  snapshot_versions b' = delete k (snapshot_versions b) /\
  snapshot_token_owners b' =
    match snapshot_versions b !! k with
    | Some st => if bool_decide (committed st = []) then snapshot_token_owners b
                 else delete (committed st) (snapshot_token_owners b)
    | None => snapshot_token_owners b
    end.

Lemma unregister_tokens k b : same_tokens b (UnregisterNodeLocked k b).2 \/ drops_tokens k b (UnregisterNodeLocked k b).2.
Proof. unfold UnregisterNodeLocked. simpl. destruct (instance_nodes b !! k); [by right|by left]. Qed.

Lemma lifecycle_tokens k b b' :
  lifecycle_op k b b' ->
  same_tokens b b' \/ drops_tokens k b b' \/
  snapshot_versions b' = <[k := state_of b k]> (snapshot_versions b) /\
  snapshot_token_owners b' = snapshot_token_owners b.
Proof.
  destruct 1 as [ms now_ms|ms now_ms| | |g|st now_ms|draws now_ms ec retry b' H].
  - left. unfold RegisterNode. by repeat case_match.
  - left. unfold Ensure_create. by repeat case_match.
  - unfold UnregisterNode. set (b1 := GetOrCreateLifecycleFence k b). destruct (retired b1); [by left|].
    pose proof (unregister_tokens k b1) as H. destruct (UnregisterNodeLocked k b1) as [ec b2]. simpl in *.
    destruct H; [by left|right; by left].
  - unfold UnregisterNodeForHostDown. set (b1 := GetOrCreateLifecycleFence k b). destruct (negb _); [by left|].
    cbv zeta. pose proof (unregister_tokens k (fence_down k b1)) as H.
    destruct (instance_nodes (fence_down k b1) !! k); [|by left].
    destruct (UnregisterNodeLocked k (fence_down k b1)) as [ec b2]. simpl in *. destruct H; [by left|right; by left].
  - unfold UnregisterNodeIfGeneration. set (b1 := GetOrCreateLifecycleFence k b). destruct (retired b1); [by left|].
    destruct (negb _); [by left|]. pose proof (unregister_tokens k b1) as H.
    destruct (UnregisterNodeLocked k b1) as [ec b2]. simpl in *. destruct H; [by left|right; by left].
  - left. unfold OnHeartbeat_slow, heartbeat_node. by repeat case_match.
  - unfold BeginSnapshot_enter in H. destruct (_ || _); [left; by simplify_eq|].
    destruct (negb _); [left; by simplify_eq|]. destruct (_ || _); [left; by simplify_eq|].
    right; right. destruct (negb _); [by simplify_eq|]. destruct (rate_limited _ _ _); [by simplify_eq|].
    by destruct (draw_token _ _); simplify_eq/=.
Qed.

(** An admission: the delta joins the outstanding ones and is counted. *)
Lemma tokens_count_delta k created b ec v g c b' dl wt gr iss st :
  tokens_ok (snapshot_versions b) (snapshot_token_owners b) dl wt gr iss ->
  snapshot_versions b !! k = Some st -> committed st <> [] -> in_flight st = [] ->
  count_delta k created b = ((ec, Some (v, g, c)), b') ->
  v = committed st /\ c = created /\
  tokens_ok (snapshot_versions b') (snapshot_token_owners b') ((k, v) :: dl) wt gr iss.
Proof.
  intros H Hk Hc Hf. unfold count_delta, state_of. rewrite Hk. cbn [default from_option].
  destruct (_ =? _); [done|]. cbv zeta. intros [= _ <- _ <- <-]. split; [done|]. split; [done|].
  apply (tokens_recount _ _ dl); [done|done|done| | | |].
  - intros w g0 Hg. rewrite Hf. destruct (tk_granted _ _ _ _ _ _ H k w g0 Hg). congruence.
  - intros d [->|Hd]%elem_of_cons; auto.
  - intros j w Hne. rewrite (count_app j w [_] dl : admitted_count j w (_ :: dl) = _), count_one.
    rewrite bool_decide_eq_false_2 by (intros E; by apply Hne). lia.
  - rewrite (count_app k _ [_] dl : admitted_count k _ (_ :: dl) = _), count_one.
    rewrite bool_decide_eq_true_2 by done. rewrite (tk_count _ _ _ _ _ _ H k st Hk Hc). simpl. lia.
Qed.

Lemma no_state_default b k : state_of b k = default no_state (snapshot_versions b !! k).
Proof. done. Qed.

Lemma tokens_delta_begin s k draws ec v g created b' :
  sys_tokens_ok s -> BeginDelta_resume k draws (be s) = Some ((ec, Some (v, g, created)), b') ->
  (created = true -> v ∉ issued s) ->
  tokens_ok (snapshot_versions b') (snapshot_token_owners b') ((k, v) :: deltas s) (waiting s) (granted s) ({[v]} ∪ issued s).
Proof.
  intros H. unfold BeginDelta_resume. destruct (snapshot_finished k (be s)) eqn:Ef; [|done]. cbn [negb].
  destruct (AcceptingReports (be s)) eqn:Ea; [|done]. cbn [negb].
  assert (Hidle : in_flight (state_of (be s) k) = []).
  { unfold snapshot_finished in Ef. rewrite Ea in Ef. cbn [negb orb] in Ef. unfold state_of.
    destruct (snapshot_versions (be s) !! k); [|done]. by apply bool_decide_eq_true in Ef. }
  case_bool_decide as Hc.
  - unfold create_committed. destruct (instance_nodes (be s) !! k); [|done].
    destruct (draw_token (be s) draws) as [w|] eqn:Ew; [|done]. cbn [mbind option_bind]. intros [= Hcd] Hnew.
    apply draw_token_spec in Ew as [_ Hw%valid_token_nonempty].
    assert (created = true) as ->.
    { unfold count_delta in Hcd. destruct (_ =? _); [done|]. congruence. }
    assert (v = w) as ->.
    { unfold count_delta, state_of in Hcd. simpl in Hcd. rewrite lookup_insert_eq in Hcd. simpl in Hcd.
      destruct (_ =? _); [done|]. congruence. }
    specialize (Hnew eq_refl). rewrite no_state_default in Hc.
    pose proof (tokens_first _ _ _ _ _ _ k w H Hw Hnew Hc) as H1.
    eapply (tokens_count_delta k true (set_versions _ _ _)) in Hcd as (_ & _ & H2);
      [exact H2|exact H1|apply lookup_insert_eq|done|]. simpl. by rewrite no_state_default in Hidle.
  - intros [= Hcd] _. unfold state_of in Hc, Hidle. destruct (snapshot_versions (be s) !! k) as [st|] eqn:Ek; [|done].
    eapply (tokens_count_delta k false (be s)) in Hcd as (-> & _ & H2); [|exact H|exact Ek|done|done].
    eapply tokens_weaken; [exact H2|set_solver|auto].
Qed.

Lemma tokens_delta_end s k v l1 l2 :
  sys_tokens_ok s -> deltas s = l1 ++ (k, v) :: l2 ->
  tokens_ok (snapshot_versions (EndDeltaMutation k v (be s))) (snapshot_token_owners (EndDeltaMutation k v (be s)))
    (l1 ++ l2) (waiting s) (granted s) (issued s).
Proof.
  intros H Hd. unfold sys_tokens_ok in H. rewrite Hd in H.
  destruct (tk_deltas _ _ _ _ _ _ H k v) as [_ Hv]; [set_solver|]. unfold EndDeltaMutation.
  destruct (snapshot_versions (be s) !! k) as [st|] eqn:Ek.
  2: { apply (tokens_forget _ _ l1 l2 _ _ _ k v); [done|]. intros st E. congruence. }
  rewrite (bool_decide_eq_false_2 (v = [])) by done. cbn [negb andb].
  case_bool_decide as Hc; cbn [negb].
  2: { apply (tokens_forget _ _ l1 l2 _ _ _ k v); [done|]. intros st' E. congruence. }
  assert (Hcnt : active_delta_mutations st = admitted_count k v (l1 ++ (k, v) :: l2)).
  { rewrite (tk_count _ _ _ _ _ _ H k st Ek); congruence. }
  assert (Hpos : 1 <= active_delta_mutations st) by (rewrite Hcnt; apply count_present; set_solver).
  destruct (Z.eqb_spec (active_delta_mutations st) 0); [lia|].
  apply (tokens_recount _ _ (l1 ++ (k, v) :: l2)); [done|done|congruence| | | |].
  - intros w g Hg E. pose proof (tk_quiet _ _ _ _ _ _ H k w g st Hg Ek E). lia.
  - intros d Hin. left. set_solver.
  - intros j w Hne. rewrite (cons_middle _ l1), !count_app, count_one.
    rewrite bool_decide_eq_false_2 by (rewrite Hc in Hne; by intros [= -> ->]). lia.
  - rewrite Hcnt, Hc, (cons_middle _ l1), !count_app, count_one. rewrite bool_decide_eq_true_2 by done. lia.
Qed.

Lemma tokens_snapshot_enter s k draws now_ms v g b' :
  sys_tokens_ok s -> BeginSnapshot_enter k draws now_ms (be s) = Some (SnapshotWaiting v g, b') -> v ∉ issued s ->
  tokens_ok (snapshot_versions b') (snapshot_token_owners b') (deltas s) ((k, v) :: waiting s) (granted s)
    ({[v]} ∪ issued s).
Proof.
  intros H. unfold BeginSnapshot_enter. destruct (_ || _); [done|]. set (b1 := GetOrCreateLifecycleFence k (be s)).
  destruct (negb _); [done|]. destruct (_ || _); [done|]. cbv zeta. destruct (negb _); [done|].
  destruct (rate_limited _ _ _); [done|]. destruct (draw_token _ draws) as [w|] eqn:Ew; [|done].
  cbn [mbind option_bind]. intros [= -> _ <-] Hnew. apply draw_token_spec in Ew as [_ Hw%valid_token_nonempty].
  set (st := state_of b1 k). simpl. rewrite insert_insert_eq.
  eapply (tokens_weaken _ _ _ (waiting s)); [apply (tokens_candidate _ _ _ _ _ (issued s) k v); try done|done|].
  - intros j u [[= -> ->]|Hin]%elem_of_cons; [right; set_solver|by left].
Qed.

Lemma tokens_clear_candidate k v b dl wt gr iss :
  tokens_ok (snapshot_versions b) (snapshot_token_owners b) dl wt gr iss ->
  tokens_ok (snapshot_versions (clear_candidate k v b)) (snapshot_token_owners (clear_candidate k v b)) dl wt gr iss.
Proof.
  intros H. unfold clear_candidate. destruct (snapshot_versions b !! k) as [st|] eqn:E; [|done].
  case_bool_decide; [|done]. apply tokens_put; [done| | |]; rewrite E; simpl; auto.
Qed.

Lemma tokens_snapshot_resume s k v g ec b' l1 l2 :
  sys_tokens_ok s -> waiting s = l1 ++ (k, v) :: l2 -> BeginSnapshot_resume k v (be s) = (ec, b') ->
  tokens_ok (snapshot_versions b') (snapshot_token_owners b') (deltas s) (l1 ++ l2)
    (if bool_decide (ec = EC_OK) then (k, v, g) :: granted s else granted s) (issued s).
Proof.
  intros H Hw Hr.
  assert (Hsub : forall b', tokens_ok (snapshot_versions b') (snapshot_token_owners b') (deltas s) (waiting s) (granted s) (issued s) ->
    tokens_ok (snapshot_versions b') (snapshot_token_owners b') (deltas s) (l1 ++ l2) (granted s) (issued s)).
  { intros b0 H0. eapply tokens_weaken; [exact H0|done|]. rewrite Hw. intros j w Hin. left. set_solver. }
  unfold BeginSnapshot_resume in Hr. destruct (AcceptingReports (be s)) eqn:Ea; cbn [negb] in Hr.
  2: { simplify_eq. by apply Hsub, tokens_clear_candidate. }
  destruct (deltas_drained k v (be s)) eqn:Ed; cbn [negb] in Hr.
  2: { simplify_eq. by apply Hsub, tokens_clear_candidate. }
  destruct (snapshot_versions (be s) !! k) as [st|] eqn:Ek; [|simplify_eq; by apply Hsub].
  case_bool_decide as Hf; simplify_eq; [|by apply Hsub]. rewrite bool_decide_eq_true_2 by done.
  unfold deltas_drained in Ed. rewrite Ea, Ek in Ed. cbn [negb orb] in Ed. rewrite bool_decide_eq_true_2 in Ed by done.
  apply Z.eqb_eq in Ed.
  eapply (tokens_weaken _ _ _ (waiting s)); [|done|rewrite Hw; intros j w Hin; left; set_solver].
  eapply tokens_grant; [exact H| |exact Ek|done]. rewrite Hw. set_solver.
Qed.

Lemma tokens_commit_if s k v g now_ms :
  sys_tokens_ok s -> (k, v, g) ∈ granted s ->
  sys_tokens_ok (with_be (CommitSnapshotVersionIfGeneration k v g now_ms (be s)).2 s).
Proof.
  intros H Hg. unfold CommitSnapshotVersionIfGeneration. destruct (FindLifecycleFence _ _); [|done].
  destruct (negb _); [done|]. destruct (_ || _); [done|]. unfold CommitSnapshotVersion.
  destruct (negb _); [done|]. destruct (snapshot_versions (be s) !! k) as [st|] eqn:E; [|done].
  case_bool_decide as Hf; [|done]. cbn [negb]. by eapply (tokens_commit _ _ _ _ _ _ k v g st).
Qed.

Lemma tokens_abort s k v : sys_tokens_ok s -> sys_tokens_ok (with_be (AbortSnapshotVersion k v (be s)) s).
Proof.
  intros H. unfold AbortSnapshotVersion. destruct (_ || _); [done|]. destruct (FindLifecycleFence _ _); [|done].
  destruct (snapshot_versions (be s) !! k) as [st|] eqn:E; [|done]. case_bool_decide; [|done].
  unfold sys_tokens_ok. apply tokens_put; [done| | |]; rewrite E; simpl; auto.
Qed.

Lemma step_tokens s s' : step s s' -> sys_tokens_ok s -> sys_tokens_ok s'.
Proof.
  intros [_ Ha] H. unfold sys_tokens_ok in *.
  assert (Hsame : forall b', same_tokens (be s) b' -> sys_tokens_ok (with_be b' s)).
  { intros b' [E1 E2]. unfold sys_tokens_ok. simpl. by rewrite E1, E2. }
  destruct Ha; simpl in *.
  - destruct (lifecycle_tokens _ _ _ H1) as [Hs|[[E1 E2]|[E1 E2]]]; [by apply Hsame| |]; rewrite E1, E2.
    + by eapply tokens_delete.
    + apply tokens_put; [done|done|by left|done].
  - by apply Hsame, shared_tokens.
  - by eapply tokens_clear.
  - by eapply tokens_delta_begin.
  - by apply tokens_delta_end.
  - by eapply tokens_snapshot_enter.
  - by eapply tokens_snapshot_resume.
  - by apply tokens_commit_if.
  - by apply tokens_abort.
  - done.
  - done.
Qed.

Lemma initial_tokens s : initial s -> sys_tokens_ok s.
Proof.
  intros (_ & _ & _ & _ & _ & H1 & H2 & _ & H3 & H4 & H5 & H6). unfold sys_tokens_ok. rewrite H1, H2, H3, H4, H5, H6.
  split; intros *; rewrite ?lookup_empty; try done; try (by intros ?%elem_of_nil); try (by intros []).
  split; [done|]. by intros (st & Hst & _).
Qed.

Lemma reachable_tokens s : reachable s -> sys_tokens_ok s.
Proof.
  intros (s0 & Hi & Hr). apply initial_tokens in Hi. revert Hi.
  induction Hr as [s|s1 s2 s3 H1 _ IH]; [done|]. intros Hi. by apply IH, (step_tokens s1).
Qed.

(** ** The theorems *)

(** C9: a granted snapshot has the reporter to itself.  In every reachable
    system, while the candidate of a granted snapshot is in flight, no delta
    admitted under the committed generation is outstanding, the admission
    counter is zero, and a delta that arrives is refused without changing the
    backend: the candidate's metadata writes race with no delta. *)
Theorem granted_snapshot_is_exclusive s k v g st draws :
  reachable s -> (k, v, g) ∈ granted s -> snapshot_versions (be s) !! k = Some st -> in_flight st = v ->
  active_delta_mutations st = 0 /\ (k, committed st) ∉ deltas s /\
  (AcceptingReports (be s) = true ->
   BeginDelta_resume k draws (be s) = Some ((EC_SNAPSHOT_IN_PROGRESS, None), be s)).
Proof.
  intros Hr Hg Hk Hf. pose proof (reachable_tokens s Hr) as H. unfold sys_tokens_ok in H.
  destruct (tk_granted _ _ _ _ _ _ H k v g Hg) as [_ Hv].
  pose proof (tk_quiet _ _ _ _ _ _ H k v g st Hg Hk Hf) as Hq. split_and!; [done| |].
  - intros Hd. destruct (tk_deltas _ _ _ _ _ _ H _ _ Hd) as [_ Hc].
    pose proof (tk_count _ _ _ _ _ _ H k st Hk Hc). pose proof (count_present _ _ _ Hd). lia.
  - intros Ha. unfold BeginDelta_resume, snapshot_finished. rewrite Ha, Hk. cbn [negb orb].
    by rewrite bool_decide_eq_false_2 by congruence.
Qed.

Lemma granted_snapshot_is_exclusive_witness :
  let st := state_of demo_b2 demo_key in
  active_delta_mutations st = 0 /\ (demo_key, committed st) ∉ deltas demo_s3 /\
  (AcceptingReports demo_b2 = true ->
   BeginDelta_resume demo_key [] demo_b2 = Some ((EC_SNAPSHOT_IN_PROGRESS, None), demo_b2)).
Proof.
  intros st. apply (granted_snapshot_is_exclusive demo_s3 demo_key demo_token 1 st []).
  - exact demo_reachable3.
  - simpl. set_solver.
  - vm_compute. reflexivity.
  - vm_compute. reflexivity.
Defined.

(** The context-free existence check is exact.  In every reachable system,
    [MightExist] says yes to a URI exactly when the backend accepts reports and
    the version the URI carries is the committed version of some reporter that is
    registered and available: the token table never points to the wrong reporter
    and never misses one. *)
Theorem MightExist_exact s uris i u :
  reachable s -> uris !! i = Some u ->
  MightExist uris (be s) !! i = Some true <->
  AcceptingReports (be s) = true /\ exists v k st node,
    ParseSnapshotUriInfo u = Some v /\ snapshot_versions (be s) !! k = Some st /\ committed st = v /\
    instance_nodes (be s) !! k = Some node /\ available node = true.
Proof.
  intros Hr Hi. pose proof (reachable_tokens s Hr) as H. unfold sys_tokens_ok in H. unfold MightExist.
  destruct (AcceptingReports (be s)); cbn [negb]; rewrite list_lookup_fmap, Hi; cbn [fmap option_fmap option_map].
  2: { split; [done|by intros [? _]]. }
  unfold MightExist_one. destruct (ParseSnapshotUriInfo u) as [v|] eqn:Ev.
  2: { split; [done|]. intros [_ (v & k & st & node & ? & _)]. done. }
  assert (Hv : v <> []).
  { unfold ParseSnapshotUriInfo in Ev. destruct (negb _); [done|]. cbv zeta in Ev.
    destruct (IsValidSnapshotVersionToken _) eqn:E; [|done]. simplify_eq. by apply valid_token_nonempty. }
  split.
  - intros [= Hm]. split; [done|]. destruct (snapshot_token_owners (be s) !! v) as [k|]; [|done].
    destruct (snapshot_versions (be s) !! k) as [st|] eqn:Ek; [|done]. case_bool_decide as Hc; [|done]. cbn [negb] in Hm.
    destruct (instance_nodes (be s) !! k) as [node|] eqn:En; [|done]. eauto 10.
  - intros [_ (v' & k & st & node & [= <-] & Hk & Hc & Hn & Ha)].
    assert (snapshot_token_owners (be s) !! v = Some k) as -> by (apply (tk_owner _ _ _ _ _ _ H); eauto).
    rewrite Hk, Hn. rewrite bool_decide_eq_true_2 by done. cbn [negb]. by rewrite Ha.
Qed.

Definition demo_uri : StandardUri :=
  mkStandardUri (chars_of "p") [] (chars_of "h") 0 [] [(kSnapshotVersionParam, demo_token)].

Lemma MightExist_exact_witness : MightExist [demo_uri] demo_b3 !! 0%nat = Some true.
Proof.
  apply (MightExist_exact demo_s4 [demo_uri] 0 demo_uri).
  - exact demo_reachable4.
  - reflexivity.
  - split; [vm_compute; reflexivity|].
    exists demo_token, demo_key, (state_of demo_b3 demo_key), (default (fresh_node 0 []) (instance_nodes demo_b3 !! demo_key)).
    split_and!; vm_compute; reflexivity.
Defined.
