(* ===== verification/StorageUsage.v ===== *)
(** * StorageUsage: the per-type usage counters of [meta/storage_usage_data.cc]

    [StorageUsageData] is an array of atomic 64-bit counters indexed by
    storage type. An atomic load, store or [fetch_add] is one step on the
    array; the compare-exchange loop of [SubStorageUsageByType] is modelled
    with the values other threads put in the cell between its attempts. The
    JSON document, a type of an external library, is the list of its members. *)

From stdpp Require Import base gmap sets list strings.
From Stdlib Require Import ZArith Lia.
From S2P Require Import Prelude MetaTypes.

Local Open Scope Z_scope.

(** [storage_usage_by_type_]. *)
Abbreviation StorageUsageData := (list Z).

Definition wf_usage (d : StorageUsageData) : Prop :=
  length d = storage_type_COUNT /\ Forall is_u64 d.

Definition usage_zero : StorageUsageData := replicate storage_type_COUNT 0.

(** The types whose slots count towards the total. *)
Definition counted_type (type : DataStorageType) : bool :=
  negb (bool_decide (type = DATA_STORAGE_TYPE_UNKNOWN)
        || bool_decide (type = DATA_STORAGE_TYPE_VCNS_HF3FS)
        || IsEventReportStorageType type).

Definition GetStorageUsage (d : StorageUsageData) : Z :=
  foldl (fun acc '(type, v) => if counted_type type then u64 (acc + v) else acc) 0
    (zip all_storage_types d).

Definition GetStorageUsageByType (type : DataStorageType) (d : StorageUsageData) : Z :=
  let idx := ToIndex (ToBaseType type) in
  if (length d <=? idx)%nat then 0 else default 0 (d !! idx).

Definition Reset (d : StorageUsageData) : StorageUsageData := (fun _ => 0) <$> d.

Definition SetStorageUsageByType (type : DataStorageType) (value : Z) (d : StorageUsageData)
    : StorageUsageData :=
  let idx := ToIndex (ToBaseType type) in
  if (length d <=? idx)%nat then d else <[idx := value]> d.

(** [fetch_add]: the returned value is the old one. *)
Definition AddStorageUsageByType (type : DataStorageType) (value : Z) (d : StorageUsageData)
    : Z * StorageUsageData :=
  let idx := ToIndex (ToBaseType type) in
  if (length d <=? idx)%nat then (0, d)
  else let old := default 0 (d !! idx) in (old, <[idx := u64 (old + value)]> d).

Definition sub_desired (expected value : Z) : Z :=
  if expected <? value then 0 else u64 (expected - value).

(** The [do ... while] of [SubStorageUsageByType] on one cell. [cells] are the
    values the cell holds when the successive exchanges are attempted and
    [spurious] tells which attempts fail although the values agree (the
    exchange is weak); a failed attempt loads the cell. The result is the cell
    before and after the exchange that succeeds, or [None] if none of the
    attempts given succeeds. *)
Fixpoint sub_loop (value expected : Z) (attempts : list (Z * bool)) : option (Z * Z) :=
  match attempts with
  | [] => None
  | (cell, spurious) :: rest =>
      let desired := sub_desired expected value in
      if (cell =? expected) && negb spurious then Some (cell, desired)
      else sub_loop value cell rest
  end.

(** Without interference; the returned value is the new one. *)
Definition SubStorageUsageByType (type : DataStorageType) (value : Z) (d : StorageUsageData)
    : Z * StorageUsageData :=
  let idx := ToIndex (ToBaseType type) in
  if (length d <=? idx)%nat then (0, d)
  else
    let expected := default 0 (d !! idx) in
    match sub_loop value expected [(expected, false)] with
    | Some (_, desired) => (desired, <[idx := desired]> d)
    | None => (0, d)
    end.

(** A JSON member value: an unsigned 64-bit integer or anything else. *)
Inductive JsonValue := JUint64 (v : Z) | JOther.

(** [ToRapidWriter]: the members written, in order. *)
Definition ToRapidWriter (d : StorageUsageData) : list (string * JsonValue) :=
  omap (fun '(type, usage) =>
          if bool_decide (type = DATA_STORAGE_TYPE_TAIR_MEMPOOL_SSD) && (usage =? 0) then None
          else Some (storage_type_ToString type, JUint64 usage))
    (zip all_storage_types d).

(** The loop over the members into the temporary buffer. *)
Fixpoint parse_members (members : list (string * JsonValue)) (buf : StorageUsageData)
    : option StorageUsageData :=
  match members with
  | [] => Some buf
  | (key, v) :: rest =>
      let type := ToDataStorageType key in
      if negb (bool_decide (storage_type_ToString type = key)) then None
      else match v with
           | JUint64 n => parse_members rest (<[ToIndex type := n]> buf)
           | JOther => None
           end
  end.

(** [FromRapidValue]: the flag and the object afterwards ([None] as the
    document stands for a value that is not an object). *)
Definition FromRapidValue (doc : option (list (string * JsonValue))) (d : StorageUsageData)
    : bool * StorageUsageData :=
  match doc with
  | None => (false, d)
  | Some members =>
      match parse_members members usage_zero with
      | Some buf => (true, buf)
      | None => (false, d)
      end
  end.

(** ** Lemmas *)

Lemma usage_idx type d :
  wf_usage d -> (length d <=? ToIndex (ToBaseType type))%nat = false.
Proof.
  intros [Hl _]. apply Nat.leb_gt. rewrite Hl. apply ToIndex_lt.
Qed.

Lemma usage_lookup type d :
  wf_usage d -> exists v, d !! ToIndex (ToBaseType type) = Some v /\ is_u64 v.
Proof.
  intros [Hl Hu]. destruct (lookup_lt_is_Some_2 d (ToIndex (ToBaseType type))) as [v Hv].
  { rewrite Hl. apply ToIndex_lt. }
  exists v. split; [done|]. by eapply Forall_lookup_1 in Hu.
Qed.

Lemma usage_set_wf idx v d : wf_usage d -> is_u64 v -> wf_usage (<[idx := v]> d).
Proof.
  intros [Hl Hu] Hv. split; [by rewrite length_insert|]. by apply Forall_insert.
Qed.

Lemma usage_get_set type type' v d :
  wf_usage d ->
  GetStorageUsageByType type' (<[ToIndex (ToBaseType type) := v]> d) =
  if bool_decide (ToBaseType type' = ToBaseType type) then v else GetStorageUsageByType type' d.
Proof.
  intros Hwf. pose proof Hwf as [Hl _]. unfold GetStorageUsageByType.
  rewrite length_insert, (usage_idx type') by done. case_bool_decide as E.
  - rewrite E, list_lookup_insert_eq; [done|]. rewrite Hl. apply ToIndex_lt.
  - rewrite list_lookup_insert_ne; [done|]. intros H%(inj ToIndex). congruence.
Qed.

Lemma sub_desired_spec e v : is_u64 e -> is_u64 v -> sub_desired e v = Z.max 0 (e - v) /\ is_u64 (sub_desired e v).
Proof.
  unfold sub_desired, is_u64. intros He Hv. destruct (Z.ltb_spec e v).
  - lia.
  - rewrite u64_small; unfold is_u64; lia.
Qed.

Lemma u64_add x y : u64 (u64 x + y) = u64 (x + y).
Proof. unfold u64. by rewrite Zplus_mod_idemp_l. Qed.

(** ** Properties *)

(** Adding and then subtracting the same amount on a storage type (or on a
    sub-type that shares its base type) restores every counter, as long as the
    64-bit counter does not wrap; no other base type is touched, and every
    counter stays a 64-bit value. *)
Theorem add_sub_cancel type type' v d :
  wf_usage d -> is_u64 v -> ToBaseType type' = ToBaseType type ->
  GetStorageUsageByType type d + v < 2 ^ 64 ->
  let d1 := (AddStorageUsageByType type v d).2 in
  wf_usage d1 /\
  (forall t, GetStorageUsageByType t d1 =
     GetStorageUsageByType t d + (if bool_decide (ToBaseType t = ToBaseType type) then v else 0)) /\
  SubStorageUsageByType type' v d1 = (GetStorageUsageByType type d, d).
Proof.
  intros Hwf Hv Hb Hno. destruct (usage_lookup type d Hwf) as (x & Hx & Hxu).
  assert (Hget : GetStorageUsageByType type d = x).
  { unfold GetStorageUsageByType. rewrite usage_idx by done. by rewrite Hx. }
  rewrite Hget in *. unfold AddStorageUsageByType. rewrite usage_idx, Hx by done. simpl.
  assert (Hs : is_u64 (x + v)) by (unfold is_u64 in *; lia).
  rewrite (u64_small (x + v)) by done.
  assert (Hwf1 : wf_usage (<[ToIndex (ToBaseType type):=x + v]> d)) by (by apply usage_set_wf).
  split_and!; [done| |].
  - intros t. rewrite usage_get_set by done. case_bool_decide as E; [|lia].
    unfold GetStorageUsageByType. rewrite usage_idx, E, Hx by done. done.
  - unfold SubStorageUsageByType. rewrite Hb, (usage_idx type) by done.
    rewrite list_lookup_insert_eq by (eapply lookup_lt_Some; done). simpl.
    rewrite Z.eqb_refl. simpl.
    destruct (sub_desired_spec (x + v) v Hs Hv) as [-> _].
    replace (Z.max 0 (x + v - v)) with x by (unfold is_u64 in *; lia).
    rewrite list_insert_insert_eq. f_equal. by apply list_insert_id.
Qed.

Lemma add_sub_cancel_witness :
  SubStorageUsageByType DATA_STORAGE_TYPE_HF3FS 5
    (AddStorageUsageByType DATA_STORAGE_TYPE_VCNS_HF3FS 5 usage_zero).2 = (0, usage_zero).
Proof.
  apply (add_sub_cancel DATA_STORAGE_TYPE_VCNS_HF3FS DATA_STORAGE_TYPE_HF3FS 5 usage_zero).
  - split; [done|]. unfold usage_zero, is_u64. repeat constructor; lia.
  - unfold is_u64. lia.
  - done.
  - vm_compute. done.
Defined.

(** Whatever other threads store in a counter between the attempts of the
    compare-exchange loop of [SubStorageUsageByType], and however often the
    weak exchange fails, the exchange that succeeds replaces the value [cell]
    the counter then holds by [max(0, cell - value)]: the subtraction is
    atomic and never underflows; and the loop ends as soon as two consecutive
    attempts see the same value and the second does not fail spuriously. *)
Theorem sub_loop_linearizable value expected attempts :
  is_u64 value -> is_u64 expected -> Forall (fun a => is_u64 a.1) attempts ->
  (forall cell desired, sub_loop value expected attempts = Some (cell, desired) ->
     cell ∈ attempts.*1 /\ desired = Z.max 0 (cell - value) /\ is_u64 desired) /\
  (forall c sp l1 l2, attempts = l1 ++ (c, sp) :: (c, false) :: l2 ->
     is_Some (sub_loop value expected attempts)).
Proof.
  intros Hv. revert expected. induction attempts as [|[cell sp] rest IH]; intros expected He Hall.
  { split; [done|]. intros c sp' [|? l1] l2 [=]. }
  apply Forall_cons in Hall as [Hc Hall]. simpl in Hc. destruct (IH cell Hc Hall) as [IH1 IH2].
  simpl. destruct ((cell =? expected) && negb sp) eqn:E.
  - reflect_bools. subst cell. split; [|eauto].
    intros c d [= <- <-]. destruct (sub_desired_spec expected value He Hv) as [H1 H2].
    split_and!; [left|done|done].
  - split.
    + intros c d H. destruct (IH1 c d H) as (H1 & H2 & H3). split_and!; [by right|done|done].
    + intros c s [|? l1] l2 Heq; simplify_eq/=; [rewrite Z.eqb_refl; simpl; eauto|].
      by eapply IH2.
Qed.

Lemma sub_loop_linearizable_witness :
  sub_loop 10 7 [(30, false); (30, true); (4, false); (4, false)] = Some (4, 0) /\
  4 ∈ [30; 30; 4; 4] /\ 0 = Z.max 0 (4 - 10) /\ is_u64 0.
Proof.
  split; [vm_compute; reflexivity|].
  apply (sub_loop_linearizable 10 7 [(30, false); (30, true); (4, false); (4, false)]).
  - unfold is_u64; lia.
  - unfold is_u64; lia.
  - repeat constructor; unfold is_u64; simpl; lia.
  - vm_compute. reflexivity.
Defined.

Lemma parse_members_app ms1 ms2 buf buf' :
  parse_members ms1 buf = Some buf' -> parse_members (ms1 ++ ms2) buf = parse_members ms2 buf'.
Proof.
  revert buf. induction ms1 as [|[k v] ms IH]; intros buf; simpl; [by intros [= ->]|].
  case_match; [done|]. destruct v; [apply IH|done].
Qed.

Lemma parse_members_written (ts : list DataStorageType) : forall (vs buf : list Z),
  length ts = length vs ->
  parse_members (omap (fun '(type, usage) =>
          if bool_decide (type = DATA_STORAGE_TYPE_TAIR_MEMPOOL_SSD) && (usage =? 0) then None
          else Some (storage_type_ToString type, JUint64 usage)) (zip ts vs)) buf =
  Some (foldl (fun b '(t, v) => if bool_decide (t = DATA_STORAGE_TYPE_TAIR_MEMPOOL_SSD) && (v =? 0)
                 then b else <[ToIndex t := v]> b) buf (zip ts vs)).
Proof.
  induction ts as [|t ts IH]; intros [|v vs] buf Hl; try done. simpl in Hl.
  cbn [zip zip_with omap list_omap foldl].
  destruct (bool_decide (t = DATA_STORAGE_TYPE_TAIR_MEMPOOL_SSD) && (v =? 0)) eqn:E.
  - apply IH. lia.
  - cbn [parse_members]. rewrite ToDataStorageType_ToString, bool_decide_eq_true_2 by done.
    simpl. apply IH. lia.
Qed.

(** Usage counters survive persistence: reading back the members
    [ToRapidWriter] wrote restores every counter of any well-formed object
    (the omitted zero SSD slot included), and a document with an unrecognised
    key or a value that is not a 64-bit unsigned integer is refused and leaves
    the object untouched. *)
Theorem usage_json_roundtrip d old :
  wf_usage d ->
  FromRapidValue (Some (ToRapidWriter d)) old = (true, d) /\
  (forall ms1 ms2 key v,
     (ToDataStorageType key = DATA_STORAGE_TYPE_UNKNOWN /\ key <> "unknown"%string) \/ v = JOther ->
     FromRapidValue (Some (ms1 ++ (key, v) :: ms2)) old = (false, old)).
Proof.
  intros [Hl _]. split.
  - unfold FromRapidValue, ToRapidWriter.
    do 10 (destruct d as [|? d]; [done|]). destruct d; [|done].
    rewrite parse_members_written by done. cbn -[Z.eqb]. destruct (Z.eqb_spec z8 0); by subst.
  - intros ms1 ms2 key v Hbad. unfold FromRapidValue.
    destruct (parse_members (ms1 ++ (key, v) :: ms2) usage_zero) eqn:E; [exfalso|done].
    revert E. generalize usage_zero. induction ms1 as [|[k w] ms IH]; intros buf; simpl.
    + case_bool_decide as Hk; simpl; [|done].
      destruct Hbad as [[Hu Hne]| ->]; [|done]. rewrite Hu in Hk. by destruct Hne.
    + case_match; [done|]. destruct w; [apply IH|done].
Qed.

Lemma usage_json_roundtrip_witness :
  FromRapidValue (Some (ToRapidWriter [0; 1; 2; 3; 4; 0; 6; 7; 8; 0])) usage_zero =
  (true, [0; 1; 2; 3; 4; 0; 6; 7; 8; 0]).
Proof.
  apply (usage_json_roundtrip [0; 1; 2; 3; 4; 0; 6; 7; 8; 0] usage_zero).
  split; [done|]. unfold is_u64. repeat constructor; lia.
Defined.
