(* ===== verification/MetaBackend.v ===== *)
(** * MetaBackend: the storage interface of [meta/meta_storage_backend.h]

    [MetaStorageBackend], the abstract class every metadata store implements,
    as a class of operations in state-passing style. Vectors indexed by key
    position are lists; the vectors passed in have the length of [keys] (the
    documented contract), output vectors start empty. What an implementation
    promises, as documented in the header, is the class [LawfulBackend]: the
    store has a [be_view], and every per-key result code tells the truth about
    it. The non-virtual default methods of the class are defined over the
    operations and verified against the promises. *)

From stdpp Require Import base gmap sets list strings.
From Stdlib Require Import ZArith Lia.
From S2P Require Import Prelude MetaTypes.

(** ** Loops that thread a state over the positions of a vector *)

Fixpoint map_st {S A B} (f : A -> S -> B * S) (l : list A) (s : S) : list B * S :=
  match l with
  | [] => ([], s)
  | a :: l =>
      let '(b, s1) := f a s in
      let '(bs, s2) := map_st f l s1 in (b :: bs, s2)
  end.

(** [steps R as bs m m']: the per-position outcomes [bs] for the inputs [as],
    each relating the state before and after its position. *)
Inductive steps {M A B} (R : A -> M -> B -> M -> Prop) : list A -> list B -> M -> M -> Prop :=
  | steps_nil m : steps R [] [] m m
  | steps_cons a b l bs m1 m2 m3 :
      R a m1 b m2 -> steps R l bs m2 m3 -> steps R (a :: l) (b :: bs) m1 m3.

Section map_st.
Context {S A B M : Type}.

Lemma map_st_steps (f : A -> S -> B * S) (view : S -> M) (R : A -> M -> B -> M -> Prop) l s bs s' :
  (forall a s b s1, f a s = (b, s1) -> R a (view s) b (view s1)) ->
  map_st f l s = (bs, s') -> steps R l bs (view s) (view s').
Proof.
  intros Hf. revert s bs. induction l as [|a l IH]; intros s bs; simpl.
  { intros [= <- <-]. constructor. }
  destruct (f a s) as [b s1] eqn:Ef. destruct (map_st f l s1) as [bs1 s2] eqn:Em.
  intros [= <- <-]. econstructor; eauto.
Qed.

Lemma map_st_inv (f : A -> S -> B * S) (P : S -> Prop) l s :
  (forall a s, P s -> P (f a s).2) -> P s -> P (map_st f l s).2.
Proof.
  intros Hf. revert s. induction l as [|a l IH]; intros s Hs; simpl; [done|].
  specialize (Hf a s Hs). destruct (f a s) as [b s1]. specialize (IH s1 Hf).
  by destruct (map_st f l s1).
Qed.

Lemma steps_length (R : A -> M -> B -> M -> Prop) l bs m m' :
  steps R l bs m m' -> length bs = length l.
Proof. induction 1; simpl; auto. Qed.

Lemma steps_impl (R R' : A -> M -> B -> M -> Prop) l bs m m' :
  (forall a m b m', R a m b m' -> R' a m b m') -> steps R l bs m m' -> steps R' l bs m m'.
Proof. intros HR. induction 1; econstructor; eauto. Qed.

(** A loop that only reads the view. *)
Lemma steps_read (R : A -> M -> B -> M -> Prop) l bs m m' :
  (forall a m b m', R a m b m' -> m' = m) -> steps R l bs m m' ->
  m' = m /\ Forall2 (fun a b => R a m b m) l bs.
Proof.
  intros Hr. induction 1 as [|a b l bs m1 m2 m3 HR _ IH]; [done|].
  apply Hr in HR as E. subst m2. destruct IH as [-> IH]. split; [done|]. by constructor.
Qed.

(** An invariant of the view preserved by every position. *)
Lemma steps_inv (R : A -> M -> B -> M -> Prop) (P : M -> Prop) l bs m m' :
  (forall a m b m', R a m b m' -> P m -> P m') -> steps R l bs m m' -> P m -> P m'.
Proof. intros HR. induction 1; eauto. Qed.

(** A loop every position of which reads the view. *)
Lemma map_st_read (f : A -> S -> B * S) (view : S -> M) (Q : M -> A -> B -> Prop) l s bs s' :
  (forall a s b s1, f a s = (b, s1) -> view s1 = view s /\ Q (view s) a b) ->
  map_st f l s = (bs, s') -> view s' = view s /\ Forall2 (Q (view s)) l bs.
Proof.
  intros Hf Hrun.
  apply (map_st_steps f view (fun a m b m' => m' = m /\ Q m a b)) in Hrun.
  - apply steps_read in Hrun as [-> Hall]; [|by intros ???? []]. split; [done|].
    eapply Forall2_impl; [exact Hall|]. by intros a b [].
  - intros a s0 b s1 E. by apply Hf.
Qed.

Lemma steps_fmap {A'} (g : A' -> A) (R : A -> M -> B -> M -> Prop) l bs m m' :
  steps (fun a => R (g a)) l bs m m' -> steps R (g <$> l) bs m m'.
Proof. induction 1; simpl; econstructor; eauto. Qed.

End map_st.

Lemma zip_drop_third {A B C} (la : list A) (lb : list B) (lc : list C) :
  length lb = length la -> length lc = length la ->
  (fun x => (x.1, x.2.1)) <$> zip la (zip lb lc) = zip la lb.
Proof.
  revert lb lc. induction la as [|a la IH]; intros [|b lb] [|c lc] H1 H2; try done.
  simpl. f_equal. apply IH; simpl in *; lia.
Qed.

(** ** The operations *)

Class MetaStorageBackend (ST : Type) := {
  be_Put : list KeyType -> list CacheLocationMap -> list PropertyMap ->
    ST -> list ErrorCode * ST;
  be_Upsert : list KeyType -> list CacheLocationMap -> list PropertyMap ->
    ST -> list ErrorCode * ST;
  be_Delete : list KeyType -> ST -> list ErrorCode * ST;
  be_DeleteLocations : list KeyType -> list (list LocationId) -> ST -> list ErrorCode * ST;
  be_Get : list KeyType -> ST ->
    (list ErrorCode * list CacheLocationMap * list PropertyMap) * ST;
  be_GetLocations : list KeyType -> ST -> (list ErrorCode * list CacheLocationMap) * ST;
  be_GetLocationsById : list KeyType -> list (list LocationId) -> ST ->
    (list (list ErrorCode) * list (list CacheLocationConstPtr)) * ST;
  be_GetLocationIds : list KeyType -> ST -> (list ErrorCode * list (list LocationId)) * ST;
  be_ExistsLocation : list KeyType -> ST -> (list ErrorCode * list bool) * ST;
  be_Exists : list KeyType -> ST -> (list ErrorCode * list bool) * ST;
}.

(** ** What the operations promise *)

(** Per key, the locations stored for it. *)
Abbreviation StoreView := (gmap KeyType CacheLocationMap).

Definition hard (ec : ErrorCode) : Prop := ec <> EC_OK /\ ec <> EC_NOENT.

(** Replaces the whole entry. *)
Definition put_step (kl : KeyType * CacheLocationMap) (m : StoreView) (ec : ErrorCode)
    (m' : StoreView) : Prop :=
  (ec = EC_OK /\ m' = <[kl.1 := kl.2]> m) \/ (hard ec /\ m' = m).

(** Merges into the entry, creating it when missing. *)
Definition upsert_step (kl : KeyType * CacheLocationMap) (m : StoreView) (ec : ErrorCode)
    (m' : StoreView) : Prop :=
  (ec = EC_OK /\ m' = <[kl.1 := kl.2 ∪ default ∅ (m !! kl.1)]> m) \/ (hard ec /\ m' = m).

Definition delete_step (k : KeyType) (m : StoreView) (ec : ErrorCode) (m' : StoreView) : Prop :=
  (ec = EC_OK /\ is_Some (m !! k) /\ m' = delete k m) \/
  (ec = EC_NOENT /\ m !! k = None /\ m' = m) \/ (hard ec /\ m' = m).

Definition remove_ids (ids : list LocationId) (ls : CacheLocationMap) : CacheLocationMap :=
  foldl (fun ls i => delete i ls) ls ids.

Definition delete_locations_step (ki : KeyType * list LocationId) (m : StoreView)
    (ec : ErrorCode) (m' : StoreView) : Prop :=
  (ki.2 = [] /\ ec = EC_OK /\ m' = m) \/
  (ki.2 <> [] /\ exists ls, m !! ki.1 = Some ls /\ ec = EC_OK /\
     m' = <[ki.1 := remove_ids ki.2 ls]> m) \/
  (ki.2 <> [] /\ m !! ki.1 = None /\ ec = EC_NOENT /\ m' = m) \/
  (hard ec /\ m' = m).

(** A per-key read: [EC_OK] with the value, [EC_NOENT] exactly for a missing
    key, or a hard error. *)
Definition read_ok {X} (proj : CacheLocationMap -> X -> Prop) (m : StoreView)
    (k : KeyType) (r : ErrorCode) (x : X) : Prop :=
  (r = EC_OK /\ exists ls, m !! k = Some ls /\ proj ls x) \/
  (r = EC_NOENT /\ m !! k = None) \/ hard r.

Definition loc_read_ok (m : StoreView) (k : KeyType) (i : LocationId) (r : ErrorCode)
    (p : CacheLocationConstPtr) : Prop :=
  (r = EC_OK /\ exists ls, m !! k = Some ls /\ ls !! i = Some p) \/
  (r = EC_NOENT /\ forall ls, m !! k = Some ls -> ls !! i = None) \/ hard r.

Definition exists_ok (m : StoreView) (k : KeyType) (r : ErrorCode) (b : bool) : Prop :=
  (r = EC_OK /\ b = bool_decide (is_Some (m !! k))) \/ hard r.

(** A read of location ids: those of the key, none for a missing key. *)
Definition ids_read (m : StoreView) (k : KeyType) (g : ErrorCode) (ids : list LocationId) : Prop :=
  read_ok (fun ls ids => NoDup ids /\ forall i, i ∈ ids <-> is_Some (ls !! i)) m k g ids /\
  (g = EC_NOENT -> ids = []).

(** Position-wise relations between three lists of the same length. *)
Inductive Forall3i {A B C} (R : A -> B -> C -> Prop) : list A -> list B -> list C -> Prop :=
  | Forall3i_nil : Forall3i R [] [] []
  | Forall3i_cons a b c la lb lc :
      R a b c -> Forall3i R la lb lc -> Forall3i R (a :: la) (b :: lb) (c :: lc).

Lemma Forall3i_length {A B C} (R : A -> B -> C -> Prop) la lb lc :
  Forall3i R la lb lc -> length lb = length la /\ length lc = length la.
Proof. induction 1; simpl; lia. Qed.

Lemma Forall3i_lookup {A B C} (R : A -> B -> C -> Prop) la lb lc i a :
  Forall3i R la lb lc -> la !! i = Some a ->
  exists b c, lb !! i = Some b /\ lc !! i = Some c /\ R a b c.
Proof.
  intros H. revert i. induction H as [|a' b' c' la lb lc HR _ IH]; intros [|i] Hi; simplify_eq/=; eauto.
Qed.

Lemma Forall3i_impl {A B C} (R R' : A -> B -> C -> Prop) la lb lc :
  (forall a b c, R a b c -> R' a b c) -> Forall3i R la lb lc -> Forall3i R' la lb lc.
Proof. intros HR. induction 1; constructor; auto. Qed.

Lemma Forall3i_of_lookup {A B C} (R : A -> B -> C -> Prop) la lb lc :
  length lb = length la -> length lc = length la ->
  (forall i a b c, la !! i = Some a -> lb !! i = Some b -> lc !! i = Some c -> R a b c) ->
  Forall3i R la lb lc.
Proof.
  revert lb lc. induction la as [|a la IH]; intros [|b lb] [|c lc] H1 H2 HR; try done; constructor.
  - by apply (HR 0).
  - apply IH; [simpl in *; lia..|]. intros i. apply (HR (S i)).
Qed.

Lemma Forall3i_of_Forall2 {A B C X} (f : X -> B) (g : X -> C) (R : A -> B -> C -> Prop) la xs :
  Forall2 (fun a x => R a (f x) (g x)) la xs -> Forall3i R la (f <$> xs) (g <$> xs).
Proof. induction 1; simpl; constructor; auto. Qed.

Class LawfulBackend (ST : Type) `{MetaStorageBackend ST} := {
  be_view : ST -> StoreView;
  be_Put_law keys locs props s r s' :
    length locs = length keys -> length props = length keys ->
    be_Put keys locs props s = (r, s') ->
    steps put_step (zip keys locs) r (be_view s) (be_view s');
  be_Upsert_law keys locs props s r s' :
    length locs = length keys -> length props = length keys ->
    be_Upsert keys locs props s = (r, s') ->
    steps upsert_step (zip keys locs) r (be_view s) (be_view s');
  be_Delete_law keys s r s' :
    be_Delete keys s = (r, s') -> steps delete_step keys r (be_view s) (be_view s');
  be_DeleteLocations_law keys ids s r s' :
    length ids = length keys ->
    be_DeleteLocations keys ids s = (r, s') ->
    steps delete_locations_step (zip keys ids) r (be_view s) (be_view s');
  be_Get_law keys s r locs props s' :
    be_Get keys s = ((r, locs, props), s') ->
    be_view s' = be_view s /\ length props = length keys /\
    Forall3i (read_ok eq (be_view s)) keys r locs;
  be_GetLocations_law keys s r locs s' :
    be_GetLocations keys s = ((r, locs), s') ->
    be_view s' = be_view s /\ Forall3i (read_ok eq (be_view s)) keys r locs;
  be_GetLocationsById_law keys ids s rs ps s' :
    length ids = length keys ->
    be_GetLocationsById keys ids s = ((rs, ps), s') ->
    be_view s' = be_view s /\
    Forall3i (fun ki r p => Forall3i (loc_read_ok (be_view s) ki.1) ki.2 r p) (zip keys ids) rs ps;
  be_GetLocationIds_law keys s r idss s' :
    be_GetLocationIds keys s = ((r, idss), s') ->
    be_view s' = be_view s /\
    Forall3i (read_ok (fun ls ids => NoDup ids /\ forall i, i ∈ ids <-> is_Some (ls !! i)) (be_view s))
      keys r idss;
  be_GetLocationIds_missing keys s r idss s' :
    be_GetLocationIds keys s = ((r, idss), s') -> Forall2 (fun e ids => e = EC_NOENT -> ids = []) r idss;
  be_ExistsLocation_law keys s r bs s' :
    be_ExistsLocation keys s = ((r, bs), s') ->
    be_view s' = be_view s /\
    Forall3i (read_ok (fun ls b => b = bool_decide (ls <> ∅)) (be_view s)) keys r bs;
  be_Exists_law keys s r bs s' :
    be_Exists keys s = ((r, bs), s') ->
    be_view s' = be_view s /\ Forall3i (exists_ok (be_view s)) keys r bs;
}.

(** ** Default methods *)

Section defaults.
Context {ST : Type} `{MetaStorageBackend ST}.

(** [UpsertSingleLocations]; a null id pointer is [None]. *)
Definition UpsertSingleLocations (keys : list KeyType) (location_ids : list (option LocationId))
    (locations : list CacheLocationConstPtr) (s : ST) : list ErrorCode * ST :=
  if negb (length keys =? length location_ids)%nat || negb (length keys =? length locations)%nat
  then (replicate (length keys) EC_BADARGS, s)
  else match mapM (fun x => x) location_ids with
       | None => (replicate (length keys) EC_BADARGS, s)
       | Some ids =>
           be_Upsert keys (zip_with (fun i l => {[ i := l ]}) ids locations)
             (replicate (length keys) ∅) s
       end.

(** [GetLocationValues]: the values of each map, in its iteration order. *)
Definition GetLocationValues (keys : list KeyType) (s : ST)
    : (list ErrorCode * list (list CacheLocationConstPtr)) * ST :=
  let '((results, location_maps), s) := be_GetLocations keys s in
  let count := Nat.min (length keys) (length location_maps) in
  let vals := (fun m => (map_to_list m).*2) <$> take count location_maps in
  ((results, vals ++ replicate (length keys - count) []), s).

(** [GetLocationValuesCompact] on a non-null key range. *)
Definition GetLocationValuesCompact (keys : list KeyType) (s : ST)
    : (list ErrorCode * CompactLocationsPerKey) * ST :=
  let '((results, locations), s) := GetLocationValues keys s in
  let value_count := Nat.min (length keys) (length locations) in
  let rows := imap (fun i _ => if (i <? value_count)%nat then default [] (locations !! i) else []) keys in
  ((results, compact_build rows), s).

(** The key status the location results of one key determine on their own;
    [None] when every location is missing and the key must be probed. *)
Fixpoint key_status_of (results : list ErrorCode) (hard_error : ErrorCode) : option ErrorCode :=
  match results with
  | [] => if bool_decide (hard_error = EC_OK) then None else Some hard_error
  | ec :: rest =>
      if bool_decide (ec = EC_OK) then Some EC_OK
      else key_status_of rest
             (if bool_decide (ec <> EC_NOENT) && bool_decide (hard_error = EC_OK)
              then ec else hard_error)
  end.

(** The first loop of [GetLocationsWithKeyStatus]: the codes known so far and
    the ambiguous keys with their positions. *)
Fixpoint classify_keys (i : nat) (keys : list KeyType) (ids : list (list LocationId))
    (results : list (list ErrorCode)) (outs : list (list CacheLocationConstPtr))
    : list ErrorCode * list (KeyType * nat) :=
  match keys, ids, results, outs with
  | k :: keys, id :: ids, r :: results, o :: outs =>
      let '(codes, amb) := classify_keys (S i) keys ids results outs in
      if negb (length r =? length id)%nat || negb (length o =? length id)%nat
      then (EC_MISMATCH :: codes, amb)
      else match key_status_of r EC_OK with
           | Some ec => (ec :: codes, amb)
           | None => (EC_MISMATCH :: codes, (k, i) :: amb)
           end
  | _, _, _, _ => ([], [])
  end.

Definition GetLocationsWithKeyStatus (keys : list KeyType) (ids : list (list LocationId)) (s : ST)
    : (list (list ErrorCode) * list (list CacheLocationConstPtr) * list ErrorCode) * ST :=
  let '((results, outs), s) := be_GetLocationsById keys ids s in
  if negb (length results =? length keys)%nat || negb (length outs =? length keys)%nat
  then ((results, outs, replicate (length keys) EC_MISMATCH), s)
  else
    let '(codes, amb) := classify_keys 0 keys ids results outs in
    match amb with
    | [] => ((results, outs, codes), s)
    | _ =>
        let '((exists_results, exists_), s) := be_Exists amb.*1 s in
        if negb (length exists_results =? length amb)%nat || negb (length exists_ =? length amb)%nat
        then ((results, outs, codes), s)
        else
          let upd := zip_with (fun (r : ErrorCode) (e : bool) =>
                       if bool_decide (r = EC_OK) then (if e then EC_OK else EC_NOENT) else r)
                       exists_results exists_ in
          ((results, outs, scatter amb.*2 upd codes), s)
    end.

(** [GetSingleLocationsWithKeyStatus]. *)
Definition GetSingleLocationsWithKeyStatus (keys : list KeyType)
    (location_ids : list (option LocationId)) (s : ST)
    : (list ErrorCode * list CacheLocationConstPtr * list ErrorCode) * ST :=
  let n := length keys in
  let bad := ((replicate n EC_BADARGS, replicate n None, replicate n EC_BADARGS), s) in
  if negb (n =? length location_ids)%nat then bad
  else match mapM (fun x => x) location_ids with
       | None => bad
       | Some ids =>
           let '((nested, locs, codes), s) :=
             GetLocationsWithKeyStatus keys ((fun i => [i]) <$> ids) s in
           if negb (length nested =? n)%nat || negb (length locs =? n)%nat
              || negb (length codes =? n)%nat
           then ((replicate n EC_MISMATCH, replicate n None, codes), s)
           else
             let one := zip_with (fun r l =>
                          match r, l with [r], [l] => (r, l) | _, _ => (EC_MISMATCH, None) end)
                          nested locs in
             ((one.*1, one.*2, codes), s)
       end.

End defaults.

(** ** The default methods keep the promises *)

Lemma key_status_of_spec rs h :
  h <> EC_NOENT ->
  match key_status_of rs h with
  | None => h = EC_OK /\ Forall (fun r => r = EC_NOENT) rs
  | Some c => (c = EC_OK /\ EC_OK ∈ rs) \/ (hard c /\ (c = h \/ c ∈ rs))
  end.
Proof.
  revert h. induction rs as [|r rs IH]; intros h Hh; simpl.
  { case_bool_decide; [done|]. right. unfold hard. auto. }
  case_bool_decide as Hr; [subst; left; split; [done|left]|].
  set (h' := if _ && _ then r else h).
  assert (Hh' : h' <> EC_NOENT /\ (h' = h \/ h' = r) /\ (h' = EC_OK -> h = EC_OK /\ r = EC_NOENT)).
  { unfold h'. destruct (decide (r = EC_NOENT)) as [->|].
    - rewrite bool_decide_eq_false_2 by naive_solver. simpl. auto.
    - rewrite bool_decide_eq_true_2 by done. simpl. case_bool_decide; subst; split_and!; auto; done. }
  destruct Hh' as (Hn & Hor & Hok). specialize (IH h' Hn).
  destruct (key_status_of rs h') as [c|].
  - destruct IH as [[-> ?]|[? [->|?]]]; [left; split; [done|by right]|right; split; [done|]..].
    + destruct Hor as [-> | ->]; [by left|right; left].
    + right. by right.
  - destruct IH as [E ?]. destruct (Hok E) as [-> ->]. split; [done|by constructor].
Qed.

Lemma classify_keys_spec keys : forall i0 ids rs outs codes amb,
  length ids = length keys ->
  Forall3i (fun ki r p => length r = length ki.2 /\ length p = length ki.2)
    (zip keys ids) rs outs ->
  classify_keys i0 keys ids rs outs = (codes, amb) ->
  length codes = length keys /\ NoDup amb.*2 /\
  Forall (fun x => i0 <= x.2 < i0 + length keys /\ keys !! (x.2 - i0) = Some x.1) amb /\
  forall j k r, keys !! j = Some k -> rs !! j = Some r ->
    match key_status_of r EC_OK with
    | Some c => codes !! j = Some c /\ i0 + j ∉ amb.*2
    | None => (k, i0 + j) ∈ amb
    end.
Proof.
  induction keys as [|k keys IH]; intros i0 [|id ids] rs outs codes amb Hl Hall Hc; try done.
  { inversion Hall; subst. simplify_eq/=. split_and!; constructor || done. }
  simpl in Hall. inversion Hall as [|? r o ? rs' outs' [Hr Ho] Hall']; subst. simpl in Hc, Hr, Ho.
  destruct (classify_keys (S i0) keys ids rs' outs') as [codes' amb'] eqn:E.
  destruct (IH (S i0) ids rs' outs' codes' amb' ltac:(simpl in *; lia) Hall' E)
    as (Hlen & Hnd & Hin & Hst).
  rewrite Hr, Ho, !Nat.eqb_refl in Hc. simpl in Hc.
  assert (Hfresh : i0 ∉ amb'.*2).
  { intros (x & -> & Hx)%list_elem_of_fmap. apply (proj1 (Forall_forall _ _) Hin) in Hx. lia. }
  assert (Hin' : Forall (fun x => i0 <= x.2 < i0 + length (k :: keys) /\
    (k :: keys) !! (x.2 - i0) = Some x.1) amb').
  { eapply Forall_impl; [exact Hin|]. intros [k' j] [Hj Hk]. simpl in *. split; [lia|].
    replace (j - i0) with (S (j - S i0)) by lia. done. }
  destruct (key_status_of r EC_OK) as [c|] eqn:Ek; simplify_eq/=.
  - split_and!; [lia|done|done|]. intros [|j] k' r' Hk Hr'; simplify_eq/=.
    + rewrite Ek. split; [done|]. by rewrite Nat.add_0_r.
    + specialize (Hst j k' r' Hk Hr'). replace (i0 + S j) with (S i0 + j) by lia. done.
  - split_and!; [lia|by constructor| |].
    + constructor; [|done]. simpl. split; [lia|]. by rewrite Nat.sub_diag.
    + intros [|j] k' r' Hk Hr'; simplify_eq/=.
      * rewrite Ek, Nat.add_0_r. left.
      * specialize (Hst j k' r' Hk Hr'). replace (i0 + S j) with (S i0 + j) by lia.
        destruct (key_status_of r' EC_OK); [|by right].
        destruct Hst as [? Hni]. split; [done|]. apply not_elem_of_cons. split; [lia|done].
Qed.

Section defaults_spec.
Context {ST : Type} `{LawfulBackend ST}.
Implicit Types s : ST.

(** The code of a key whose location results determine it. *)
Lemma key_status_settled m k ids r p c :
  Forall3i (loc_read_ok m k) ids r p -> key_status_of r EC_OK = Some c ->
  (c = EC_OK /\ is_Some (m !! k)) \/ (hard c /\ c ∈ r).
Proof.
  intros Hall Hc. pose proof (key_status_of_spec r EC_OK ltac:(done)) as Hs. rewrite Hc in Hs.
  destruct Hs as [[-> Hs]|[Hh Hs]].
  - left. split; [done|]. apply list_elem_of_lookup in Hs as (j & Hj).
    destruct (Forall3i_length _ _ _ _ Hall) as [Hl _]. apply lookup_lt_Some in Hj as Hlt.
    destruct (lookup_lt_is_Some_2 ids j ltac:(lia)) as [i Hi].
    destruct (Forall3i_lookup _ _ _ _ _ _ Hall Hi) as (b & q & Hb & _ & Hok). simplify_eq.
    destruct Hok as [(_ & ls & Hls & _)|[[]|[]]]; [by rewrite Hls|done|done].
  - right. split; [done|]. destruct Hs as [->|?]; [by destruct Hh|done].
Qed.

Lemma GetLocationsWithKeyStatus_spec keys ids s rs outs codes s' :
  length ids = length keys ->
  GetLocationsWithKeyStatus keys ids s = ((rs, outs, codes), s') ->
  be_view s' = be_view s /\ length codes = length keys /\
  Forall3i (fun ki r p => Forall3i (loc_read_ok (be_view s) ki.1) ki.2 r p) (zip keys ids) rs outs /\
  forall j k r c, keys !! j = Some k -> rs !! j = Some r -> codes !! j = Some c ->
    (c = EC_OK /\ is_Some (be_view s !! k)) \/ (c = EC_NOENT /\ be_view s !! k = None) \/
    (hard c /\ (c ∈ r \/ exists ks s1 er eb s2, be_Exists ks s1 = ((er, eb), s2) /\ c ∈ er)).
Proof.
  intros Hl Hrun. unfold GetLocationsWithKeyStatus in Hrun.
  destruct (be_GetLocationsById keys ids s) as [[rs0 outs0] s1] eqn:E1.
  destruct (be_GetLocationsById_law _ _ _ _ _ _ Hl E1) as [Hv1 Hrd].
  destruct (Forall3i_length _ _ _ _ Hrd) as [Hlr Hlo]. rewrite length_zip in Hlr, Hlo.
  rewrite Hl, Nat.min_id in Hlr, Hlo. rewrite Hlr, Hlo, Nat.eqb_refl in Hrun. simpl in Hrun.
  destruct (classify_keys 0 keys ids rs0 outs0) as [codes0 amb] eqn:E2.
  assert (Hsz : Forall3i (fun ki r p => length r = length ki.2 /\ length p = length ki.2)
    (zip keys ids) rs0 outs0).
  { eapply Forall3i_impl; [|exact Hrd]. intros [k i] r p HF. by apply Forall3i_length in HF. }
  destruct (classify_keys_spec _ _ _ _ _ _ _ Hl Hsz E2) as (Hlc & Hnd & Hin & Hst).
  assert (Hset : forall j k r c, keys !! j = Some k -> rs0 !! j = Some r ->
    key_status_of r EC_OK = Some c -> (c = EC_OK /\ is_Some (be_view s !! k)) \/ (hard c /\ c ∈ r)).
  { intros j k r c Hk Hr Hc. destruct (lookup_lt_is_Some_2 ids j) as [id Hid].
    { rewrite Hl. by eapply lookup_lt_Some. }
    destruct (Forall3i_lookup _ _ _ _ j (k, id) Hrd) as (r' & p & Hr' & _ & HF).
    { apply lookup_zip_with_Some. eauto. }
    simplify_eq. by eapply key_status_settled. }
  destruct amb as [|a amb].
  - simplify_eq. split_and!; [done|done|done|]. intros j k r c Hk Hr Hc.
    specialize (Hst j k r Hk Hr). destruct (key_status_of r EC_OK) as [c'|] eqn:Ec.
    + destruct Hst as [Hst _]. simplify_eq. destruct (Hset j k r _ Hk Hr Ec) as [?|[? ?]]; auto 6.
    + by apply not_elem_of_nil in Hst.
  - remember (a :: amb) as ambs eqn:Hambs in *. clear Hambs.
    destruct (be_Exists ambs.*1 s1) as [[er eb] s2] eqn:E3.
    destruct (be_Exists_law _ _ _ _ _ E3) as [Hv2 Hex].
    destruct (Forall3i_length _ _ _ _ Hex) as [Hle Hlb]. rewrite length_fmap in Hle, Hlb.
    rewrite Hle, Hlb, Nat.eqb_refl in Hrun. cbn [negb orb] in Hrun.
    injection Hrun as <- <- <- <-. rewrite length_scatter, Hv2, Hv1.
    split_and!; [done|done|done|]. intros j k r c Hk Hr Hc.
    specialize (Hst j k r Hk Hr). destruct (key_status_of r EC_OK) as [c'|] eqn:Ec.
    + destruct Hst as [Hst Hni]. rewrite lookup_scatter_ne in Hc by done.
      simplify_eq. destruct (Hset j k r _ Hk Hr Ec) as [?|[? ?]]; auto 6.
    + simpl in Hst. apply list_elem_of_lookup in Hst as (q & Hq).
      destruct (Forall3i_lookup _ _ _ _ q k Hex) as (e & b & He & Hb & Hok).
      { rewrite list_lookup_fmap, Hq. done. }
      rewrite (lookup_scatter _ _ _ q j (if bool_decide (e = EC_OK)
        then if b then EC_OK else EC_NOENT else e) Hnd) in Hc.
      * rewrite Hv1 in Hok. injection Hc as <-. destruct Hok as [[-> ->]|[Hh1 Hh2]].
        -- rewrite bool_decide_eq_true_2 by done. case_bool_decide as Hs; [auto|].
           right; left. split; [done|]. by apply eq_None_not_Some.
        -- rewrite bool_decide_eq_false_2 by done. right; right. split; [done|]. right.
           exists ambs.*1, s1, er, eb, s2. split; [done|]. apply list_elem_of_lookup. eauto.
      * rewrite list_lookup_fmap, Hq. done.
      * apply lookup_zip_with_Some. eauto.
      * rewrite Hlc. by eapply lookup_lt_Some.
Qed.

End defaults_spec.
