(* ===== verification/DummyBackend.v ===== *)
(** * DummyBackend: the in-memory metadata store of [meta/meta_dummy_backend.cc]

    [MetaDummyBackend] without file persistence (an empty storage URI, where
    [PersistToPath] returns at once). The concurrent hash map is a finite map;
    its iteration order, which the library leaves open, is that of the model's
    map. The wall clock is the stream of its future readings, part of the
    state. The file shows that the store keeps the promises of
    [LawfulBackend], that its time stamps do not disturb anything else, and
    that its cursor scan enumerates every key exactly once. *)

From stdpp Require Import base gmap sets list strings.
From Stdlib Require Import ZArith Lia Ascii.
From S2P Require Import Prelude MetaTypes MetaBackend.

Record DummyItem := mkDummyItem {
  di_locations : CacheLocationMap;
  di_properties : PropertyMap;
}.

Record MetaDummyBackend := mkDummy {
  table_ : gmap KeyType DummyItem;
  metadata_ : gmap string string;
  clock_ : nat -> Z;
}.

Definition set_table (t : gmap KeyType DummyItem) (s : MetaDummyBackend) : MetaDummyBackend :=
  mkDummy t (metadata_ s) (clock_ s).

(** [TimestampUtil::GetCurrentTimeUs()]. *)
Definition GetCurrentTimeUs (s : MetaDummyBackend) : Z * MetaDummyBackend :=
  (clock_ s 0, mkDummy (table_ s) (metadata_ s) (fun n => clock_ s (S n))).

Definition PROPERTY_LRU_TIME : string := "BP#lru_time".

Definition to_string (z : Z) : string := String.string_of_list_ascii (to_dec z).

Definition touch_props (now : Z) (ps : PropertyMap) : PropertyMap :=
  <[PROPERTY_LRU_TIME := to_string now]> ps.

(** [table_.FindAndModify(key, stamp)], one clock reading when found. *)
Definition touch (k : KeyType) (s : MetaDummyBackend) : MetaDummyBackend :=
  match table_ s !! k with
  | None => s
  | Some it =>
      let '(now, s) := GetCurrentTimeUs s in
      set_table (<[k := mkDummyItem (di_locations it) (touch_props now (di_properties it))]>
        (table_ s)) s
  end.

(** ** Write operations *)

Definition put_one (kv : KeyType * (CacheLocationMap * PropertyMap)) (s : MetaDummyBackend)
    : ErrorCode * MetaDummyBackend :=
  let '(k, (locs, props)) := kv in
  let '(now, s) := GetCurrentTimeUs s in
  (EC_OK, set_table (<[k := mkDummyItem locs (touch_props now props)]> (table_ s)) s).

Definition Put (keys : list KeyType) (locations : list CacheLocationMap)
    (properties : list PropertyMap) (s : MetaDummyBackend) : list ErrorCode * MetaDummyBackend :=
  map_st put_one (zip keys (zip locations properties)) s.

Definition upsert_one (kv : KeyType * (CacheLocationMap * PropertyMap)) (s : MetaDummyBackend)
    : ErrorCode * MetaDummyBackend :=
  let '(k, (locs, props)) := kv in
  match table_ s !! k with
  | Some existing =>
      let '(now, s) := GetCurrentTimeUs s in
      let it := mkDummyItem (locs ∪ di_locations existing)
                  (touch_props now (props ∪ di_properties existing)) in
      (EC_OK, set_table (<[k := it]> (table_ s)) s)
  | None =>
      let '(now, s) := GetCurrentTimeUs s in
      (EC_OK, set_table (<[k := mkDummyItem locs (touch_props now props)]> (table_ s)) s)
  end.

Definition Upsert (keys : list KeyType) (locations : list CacheLocationMap)
    (properties : list PropertyMap) (s : MetaDummyBackend) : list ErrorCode * MetaDummyBackend :=
  map_st upsert_one (zip keys (zip locations properties)) s.

Definition delete_one (k : KeyType) (s : MetaDummyBackend) : ErrorCode * MetaDummyBackend :=
  match table_ s !! k with
  | None => (EC_NOENT, s)
  | Some _ => (EC_OK, set_table (delete k (table_ s)) s)
  end.

Definition Delete (keys : list KeyType) (s : MetaDummyBackend) : list ErrorCode * MetaDummyBackend :=
  map_st delete_one keys s.

Definition delete_locations_one (ki : KeyType * list LocationId) (s : MetaDummyBackend)
    : ErrorCode * MetaDummyBackend :=
  let '(k, ids) := ki in
  match ids with
  | [] => (EC_OK, s)
  | _ =>
      match table_ s !! k with
      | None => (EC_NOENT, s)
      | Some it =>
          (EC_OK, set_table (<[k := mkDummyItem (remove_ids ids (di_locations it)) (di_properties it)]>
                    (table_ s)) s)
      end
  end.

Definition DeleteLocations (keys : list KeyType) (location_ids : list (list LocationId))
    (s : MetaDummyBackend) : list ErrorCode * MetaDummyBackend :=
  map_st delete_locations_one (zip keys location_ids) s.

(** ** Read operations *)

Definition get_one (k : KeyType) (s : MetaDummyBackend)
    : (ErrorCode * CacheLocationMap * PropertyMap) * MetaDummyBackend :=
  match table_ s !! k with
  | None => ((EC_NOENT, ∅, ∅), s)
  | Some it => ((EC_OK, di_locations it, di_properties it), touch k s)
  end.

Definition Get (keys : list KeyType) (s : MetaDummyBackend)
    : (list ErrorCode * list CacheLocationMap * list PropertyMap) * MetaDummyBackend :=
  let '(rs, s) := map_st get_one keys s in
  (((fun x => x.1.1) <$> rs, (fun x => x.1.2) <$> rs, (fun x => x.2) <$> rs), s).

Definition get_locations_one (k : KeyType) (s : MetaDummyBackend)
    : (ErrorCode * CacheLocationMap) * MetaDummyBackend :=
  match table_ s !! k with
  | None => ((EC_NOENT, ∅), s)
  | Some it => ((EC_OK, di_locations it), touch k s)
  end.

Definition GetLocations (keys : list KeyType) (s : MetaDummyBackend)
    : (list ErrorCode * list CacheLocationMap) * MetaDummyBackend :=
  let '(rs, s) := map_st get_locations_one keys s in ((rs.*1, rs.*2), s).

Definition get_by_id_one (ki : KeyType * list LocationId) (s : MetaDummyBackend)
    : (list ErrorCode * list CacheLocationConstPtr) * MetaDummyBackend :=
  let '(k, ids) := ki in
  match table_ s !! k with
  | None => (((fun _ => EC_NOENT) <$> ids, (fun _ => None) <$> ids), s)
  | Some it =>
      let out := (fun i => match di_locations it !! i with
                           | Some p => (EC_OK, p)
                           | None => (EC_NOENT, None)
                           end) <$> ids in
      ((out.*1, out.*2), touch k s)
  end.

(** [GetLocations] for given location ids. *)
Definition GetLocationsById (keys : list KeyType) (location_ids : list (list LocationId))
    (s : MetaDummyBackend)
    : (list (list ErrorCode) * list (list CacheLocationConstPtr)) * MetaDummyBackend :=
  let '(rs, s) := map_st get_by_id_one (zip keys location_ids) s in ((rs.*1, rs.*2), s).

Definition get_location_ids_one (k : KeyType) (s : MetaDummyBackend)
    : (ErrorCode * list LocationId) * MetaDummyBackend :=
  match table_ s !! k with
  | None => ((EC_NOENT, []), s)
  | Some it => ((EC_OK, (map_to_list (di_locations it)).*1), s)
  end.

Definition GetLocationIds (keys : list KeyType) (s : MetaDummyBackend)
    : (list ErrorCode * list (list LocationId)) * MetaDummyBackend :=
  let '(rs, s) := map_st get_location_ids_one keys s in ((rs.*1, rs.*2), s).

Definition exists_location_one (k : KeyType) (s : MetaDummyBackend)
    : (ErrorCode * bool) * MetaDummyBackend :=
  match table_ s !! k with
  | None => ((EC_NOENT, false), s)
  | Some it => ((EC_OK, negb (bool_decide (di_locations it = ∅))), s)
  end.

Definition ExistsLocation (keys : list KeyType) (s : MetaDummyBackend)
    : (list ErrorCode * list bool) * MetaDummyBackend :=
  let '(rs, s) := map_st exists_location_one keys s in ((rs.*1, rs.*2), s).

Definition get_properties_one (field_names : list string) (k : KeyType) (s : MetaDummyBackend)
    : (ErrorCode * PropertyMap) * MetaDummyBackend :=
  match table_ s !! k with
  | None => ((EC_NOENT, ∅), s)
  | Some it =>
      let out := foldl (fun out f => match di_properties it !! f with
                                     | Some v => <[f := v]> out
                                     | None => out
                                     end) ∅ field_names in
      ((EC_OK, out), touch k s)
  end.

Definition GetProperties (keys : list KeyType) (field_names : list string) (s : MetaDummyBackend)
    : (list ErrorCode * list PropertyMap) * MetaDummyBackend :=
  let '(rs, s) := map_st (get_properties_one field_names) keys s in ((rs.*1, rs.*2), s).

Definition exists_one (k : KeyType) (s : MetaDummyBackend) : bool * MetaDummyBackend :=
  match table_ s !! k with
  | None => (false, s)
  | Some _ => (true, touch k s)
  end.

Definition Exists (keys : list KeyType) (s : MetaDummyBackend)
    : (list ErrorCode * list bool) * MetaDummyBackend :=
  let '(bs, s) := map_st exists_one keys s in ((replicate (length keys) EC_OK, bs), s).

(** ** Scans *)

Definition SCAN_BASE_CURSOR : string := "0".

Definition is_space (c : ascii) : bool :=
  let n := N_of_ascii c in ((n =? 32) || ((9 <=? n) && (n <=? 13)))%N.

Fixpoint skip_space (s : chars) : chars :=
  match s with
  | c :: s' => if is_space c then skip_space s' else s
  | [] => []
  end.

(** [StringUtil::StrToInt64]: [strtoll] in base ten must consume everything. *)
Definition StrToInt64 (str : string) : option Z :=
  match skip_space (chars_of str) with
  | "-"%char :: s =>
      match from_chars_unsigned (2 ^ 63) s with Some (v, []) => Some (- v)%Z | _ => None end
  | "+"%char :: s =>
      match from_chars_unsigned (2 ^ 63 - 1) s with Some (v, []) => Some v | _ => None end
  | s => match from_chars_unsigned (2 ^ 63 - 1) s with Some (v, []) => Some v | _ => None end
  end.

(** The [ForEachKV] callback of [ListKeys] over the remaining keys: the keys
    emitted, the index reached and whether the limit stopped the loop. *)
Fixpoint list_keys_loop (start_index end_index current_index : Z) (ks : list KeyType)
    : list KeyType * Z * bool :=
  match ks with
  | [] => ([], current_index, false)
  | k :: ks =>
      if (end_index <=? current_index)%Z then ([], current_index, true)
      else
        let '(out, idx, lim) := list_keys_loop start_index end_index (current_index + 1) ks in
        ((if (start_index <=? current_index)%Z then k :: out else out), idx, lim)
  end.

(** The keys in iteration order. *)
Definition table_keys (s : MetaDummyBackend) : list KeyType := (map_to_list (table_ s)).*1.

Definition ListKeys (cursor : string) (limit : Z) (s : MetaDummyBackend)
    : ErrorCode * string * list KeyType :=
  let start := if bool_decide (cursor = SCAN_BASE_CURSOR) then Some 0%Z else StrToInt64 cursor in
  match start with
  | None => (EC_BADARGS, "", [])
  | Some start_index =>
      let '(out, idx, reached_limit) :=
        list_keys_loop start_index (start_index + limit)%Z 0 (table_keys s) in
      (EC_OK, (if reached_limit : bool then to_string idx else SCAN_BASE_CURSOR), out)
  end.

Definition ScanLocationsForMaintenance (cursor : string) (limit : Z) (s : MetaDummyBackend)
    : ErrorCode * (string * list KeyType * list CacheLocationMap * list ErrorCode) :=
  let '(ec, next, keys) := ListKeys cursor limit s in
  if bool_decide (ec <> EC_OK) then (ec, ("", [], [], []))
  else
    let rows := (fun k => match table_ s !! k with
                          | Some it => (di_locations it, EC_OK)
                          | None => (∅, EC_NOENT)
                          end) <$> keys in
    (EC_OK, (next, keys, rows.*1, rows.*2)).

Definition RandomSample (count : Z) (s : MetaDummyBackend) : ErrorCode * list KeyType :=
  (EC_OK, take (Z.to_nat count) (table_keys s)).

Definition SampleReclaimKeys (count : Z) (s : MetaDummyBackend) : ErrorCode * list KeyType :=
  RandomSample count s.

Definition PutMetaData (field_map : gmap string string) (s : MetaDummyBackend)
    : ErrorCode * MetaDummyBackend :=
  (EC_OK, mkDummy (table_ s) field_map (clock_ s)).

Definition GetMetaData (s : MetaDummyBackend) : ErrorCode * gmap string string :=
  if bool_decide (metadata_ s = ∅) then (EC_NOENT, ∅) else (EC_OK, metadata_ s).

(** ** The store keeps the promises of the interface *)

#[global] Instance dummy_ops : MetaStorageBackend MetaDummyBackend := {
  be_Put := Put;
  be_Upsert := Upsert;
  be_Delete := Delete;
  be_DeleteLocations := DeleteLocations;
  be_Get := Get;
  be_GetLocations := GetLocations;
  be_GetLocationsById := GetLocationsById;
  be_GetLocationIds := GetLocationIds;
  be_ExistsLocation := ExistsLocation;
  be_Exists := Exists;
}.

Definition view (s : MetaDummyBackend) : StoreView := di_locations <$> table_ s.

Lemma view_lookup s k : view s !! k = di_locations <$> (table_ s !! k).
Proof. apply lookup_fmap. Qed.

Lemma view_touch k s : view (touch k s) = view s.
Proof.
  unfold touch, view. destruct (table_ s !! k) as [it|] eqn:E; [|done]. simpl.
  rewrite fmap_insert. simpl. apply insert_id. by rewrite lookup_fmap, E.
Qed.

Lemma put_one_spec kv s ec s' :
  put_one kv s = (ec, s') -> put_step (kv.1, kv.2.1) (view s) ec (view s').
Proof.
  destruct kv as [k [l p]]. intros [= <- <-]. left. split; [done|].
  unfold view. simpl. by rewrite fmap_insert.
Qed.

Lemma upsert_one_spec kv s ec s' :
  upsert_one kv s = (ec, s') -> upsert_step (kv.1, kv.2.1) (view s) ec (view s').
Proof.
  destruct kv as [k [l p]]. unfold upsert_one. intros H.
  left. simpl. destruct (table_ s !! k) as [it|] eqn:E; simpl in H; simplify_eq/=; split; try done;
    unfold view at 1; simpl; rewrite fmap_insert; simpl; f_equal;
    rewrite view_lookup, E; simpl; [done|]. by rewrite (right_id_L ∅ (∪)).
Qed.

Lemma delete_one_spec k s ec s' :
  delete_one k s = (ec, s') -> delete_step k (view s) ec (view s').
Proof.
  unfold delete_one. destruct (table_ s !! k) as [it|] eqn:E; intros [= <- <-].
  - left. rewrite view_lookup, E. split_and!; [done|by eauto|].
    unfold view. simpl. apply fmap_delete.
  - right; left. by rewrite view_lookup, E.
Qed.

Lemma delete_locations_one_spec ki s ec s' :
  delete_locations_one ki s = (ec, s') -> delete_locations_step ki (view s) ec (view s').
Proof.
  destruct ki as [k ids]. unfold delete_locations_one, delete_locations_step. simpl.
  destruct ids as [|i ids]; [intros [= <- <-]; by left|].
  rewrite view_lookup. destruct (table_ s !! k) as [it|] eqn:E; intros [= <- <-]; simpl.
  - right; left. split; [done|]. exists (di_locations it). split_and!; [done|done|].
    unfold view. simpl. by rewrite fmap_insert.
  - right; right; left. done.
Qed.

Lemma get_one_spec k s r s1 :
  get_one k s = (r, s1) ->
  view s1 = view s /\ read_ok eq (view s) k r.1.1 r.1.2.
Proof.
  unfold get_one, read_ok. rewrite view_lookup.
  destruct (table_ s !! k) as [it|] eqn:E; intros [= <- <-]; simpl; rewrite ?view_touch;
    split; eauto 8.
Qed.

Lemma get_locations_one_spec k s r s1 :
  get_locations_one k s = (r, s1) -> view s1 = view s /\ read_ok eq (view s) k r.1 r.2.
Proof.
  unfold get_locations_one, read_ok. rewrite view_lookup.
  destruct (table_ s !! k) as [it|] eqn:E; intros [= <- <-]; simpl; rewrite ?view_touch;
    split; eauto 8.
Qed.

Lemma get_by_id_one_spec ki s r s1 :
  get_by_id_one ki s = (r, s1) ->
  view s1 = view s /\ Forall3i (loc_read_ok (view s) ki.1) ki.2 r.1 r.2.
Proof.
  destruct ki as [k ids]. unfold get_by_id_one. simpl.
  destruct (table_ s !! k) as [it|] eqn:E; intros [= <- <-]; simpl; rewrite ?view_touch; (split; [done|]).
  - apply Forall3i_of_Forall2, Forall2_fmap_r, Forall_Forall2_diag, Forall_forall. intros i _.
    unfold loc_read_ok. rewrite view_lookup, E. simpl.
    destruct (di_locations it !! i) eqn:Ei; simpl; [left; eauto|right; left].
    split; [done|]. by intros ls [= <-].
  - apply (Forall3i_of_Forall2 (fun _ => EC_NOENT) (fun _ => None)), Forall_Forall2_diag, Forall_forall.
    intros i _. right; left. split; [done|]. rewrite view_lookup, E. done.
Qed.

#[global] Program Instance dummy_lawful : LawfulBackend MetaDummyBackend := {
  be_view := view;
}.
Next Obligation.
  intros keys locs props s r s' Hl1 Hl2 H. rewrite <-(zip_drop_third keys locs props) by done.
  apply steps_fmap. eapply map_st_steps, H. intros. by apply put_one_spec.
Qed.
Next Obligation.
  intros keys locs props s r s' Hl1 Hl2 H. rewrite <-(zip_drop_third keys locs props) by done.
  apply steps_fmap. eapply map_st_steps, H. intros. by apply upsert_one_spec.
Qed.
Next Obligation.
  intros keys s r s' H. eapply map_st_steps, H. intros. by apply delete_one_spec.
Qed.
Next Obligation.
  intros keys ids s r s' _ H. eapply map_st_steps, H. intros. by apply delete_locations_one_spec.
Qed.
Next Obligation.
  intros keys s r locs props s' H. simpl in H. unfold Get in H.
  destruct (map_st get_one keys s) as [rs s1] eqn:E. simplify_eq.
  apply (map_st_read get_one view (fun m k r => read_ok eq m k r.1.1 r.1.2)) in E as [Hv Hall];
    [|intros; by apply get_one_spec].
  split_and!; [done| |by apply Forall3i_of_Forall2].
  rewrite length_fmap. symmetry. by eapply Forall2_length.
Qed.
Next Obligation.
  intros keys s r locs s' H. simpl in H. unfold GetLocations in H.
  destruct (map_st get_locations_one keys s) as [rs s1] eqn:E. simplify_eq.
  apply (map_st_read get_locations_one view (fun m k r => read_ok eq m k r.1 r.2)) in E as [Hv Hall];
    [|intros; by apply get_locations_one_spec].
  split; [done|by apply Forall3i_of_Forall2].
Qed.
Next Obligation.
  intros keys ids s rs ps s' _ H. simpl in H. unfold GetLocationsById in H.
  destruct (map_st get_by_id_one (zip keys ids) s) as [out s1] eqn:E. simplify_eq.
  apply (map_st_read get_by_id_one view
    (fun m ki r => Forall3i (loc_read_ok m ki.1) ki.2 r.1 r.2)) in E as [Hv Hall];
    [|intros; by apply get_by_id_one_spec].
  split; [done|by apply Forall3i_of_Forall2].
Qed.
Next Obligation.
  intros keys s r idss s' H. simpl in H. unfold GetLocationIds in H.
  destruct (map_st get_location_ids_one keys s) as [out s1] eqn:E. simplify_eq.
  apply (map_st_read get_location_ids_one view (fun m k r => read_ok (fun ls ids =>
    NoDup ids /\ forall i, i ∈ ids <-> is_Some (ls !! i)) m k r.1 r.2)) in E as [Hv Hall].
  { split; [done|by apply Forall3i_of_Forall2]. }
  intros k t b t1. unfold get_location_ids_one, read_ok. rewrite view_lookup.
  destruct (table_ t !! k) as [it|] eqn:Ek; intros [= <- <-]; (split; [done|]); simpl; [left|by eauto].
  split; [done|]. eexists. split_and!; [done|apply NoDup_fst_map_to_list|]. intros i.
  rewrite list_elem_of_fmap. split.
  - intros ([i' p] & -> & Hin%elem_of_map_to_list). simpl. by rewrite Hin.
  - intros [p Hp]. exists (i, p). split; [done|]. by apply elem_of_map_to_list.
Qed.
Next Obligation.
  intros keys s r idss s' H. simpl in H. unfold GetLocationIds in H.
  destruct (map_st get_location_ids_one keys s) as [out s1] eqn:E. simplify_eq.
  apply (map_st_read get_location_ids_one (fun _ => tt) (fun _ _ r => r.1 = EC_NOENT -> r.2 = [])) in E as [_ Hall].
  - apply Forall2_fmap_2, Forall_Forall2_diag, Forall_forall. intros r (q & Hq)%list_elem_of_lookup.
    destruct (Forall2_lookup_r _ _ _ _ _ Hall Hq) as (k & _ & Hr). exact Hr.
  - intros k t b t1. unfold get_location_ids_one. destruct (table_ t !! k); by intros [= <- <-].
Qed.
Next Obligation.
  intros keys s r bs s' H. simpl in H. unfold ExistsLocation in H.
  destruct (map_st exists_location_one keys s) as [out s1] eqn:E. simplify_eq.
  apply (map_st_read exists_location_one view (fun m k r => read_ok (fun ls b =>
    b = bool_decide (ls <> ∅)) m k r.1 r.2)) in E as [Hv Hall].
  { split; [done|by apply Forall3i_of_Forall2]. }
  intros k t b t1. unfold exists_location_one, read_ok. rewrite view_lookup.
  destruct (table_ t !! k) as [it|] eqn:Ek; intros [= <- <-]; (split; [done|]); simpl; [left|by eauto].
  split; [done|]. eexists. split; [done|]. by rewrite <-bool_decide_not.
Qed.
Next Obligation.
  intros keys s r bs s' H. simpl in H. unfold Exists in H.
  destruct (map_st exists_one keys s) as [out s1] eqn:E. simplify_eq.
  apply (map_st_read exists_one view (fun m k b => exists_ok m k EC_OK b)) in E as [Hv Hall].
  { split; [done|]. pose proof (Forall2_length _ _ _ Hall) as Hlen.
    apply (Forall3i_of_Forall2 (fun _ => EC_OK) (fun b => b)) in Hall.
    rewrite list_fmap_id in Hall. rewrite Hlen. by rewrite <-const_fmap with (f := fun _ : bool => EC_OK). }
  intros k t b t1. unfold exists_one, exists_ok. rewrite view_lookup.
  destruct (table_ t !! k) as [it|] eqn:Ek; intros [= <- <-]; simpl; rewrite ?view_touch;
    (split; [done|]); left; by split.
Qed.

(** ** Properties *)

(** Every promise is about the locations; the dummy store's own contract for
    properties: a put stores exactly the given ones, an upsert overrides and
    keeps the rest, and the only property a read changes is the time stamp. *)
Lemma upsert_properties k locs props s it f :
  table_ s !! k = Some it -> f <> PROPERTY_LRU_TIME ->
  exists it', table_ (Upsert [k] [locs] [props] s).2 !! k = Some it' /\
    di_properties it' !! f = match props !! f with Some v => Some v | None => di_properties it !! f end.
Proof.
  intros Hk Hf. unfold Upsert. cbn [zip zip_with map_st]. unfold upsert_one at 1. rewrite Hk.
  cbn -[touch_props insert union]. rewrite lookup_insert_eq. eexists. split; [done|]. simpl.
  unfold touch_props. rewrite lookup_insert_ne by done. rewrite lookup_union.
  destruct (props !! f), (di_properties it !! f); done.
Qed.

(** The default [GetLocationsWithKeyStatus] of the storage interface tells
    a missing key from a key without the requested locations: over any store
    that keeps the interface's promises, when the location reads of a key
    report no error and the existence probe does not fail, the key's code is
    [EC_OK] exactly if the key exists and [EC_NOENT] exactly if it does not,
    and nothing in the store changes. *)
Theorem key_status_distinguishes {ST} `{LawfulBackend ST} keys ids (s : ST) rs outs codes s' j k r :
  length ids = length keys ->
  GetLocationsWithKeyStatus keys ids s = ((rs, outs, codes), s') ->
  (forall ks (s1 : ST), Forall (eq EC_OK) (be_Exists ks s1).1.1) ->
  keys !! j = Some k -> rs !! j = Some r -> Forall (fun c => c = EC_OK \/ c = EC_NOENT) r ->
  be_view s' = be_view s /\
  codes !! j = Some (if bool_decide (is_Some (be_view s !! k)) then EC_OK else EC_NOENT).
Proof.
  intros Hl Hrun Hex Hk Hr Hall.
  destruct (GetLocationsWithKeyStatus_spec _ _ _ _ _ _ _ Hl Hrun) as (Hv & Hlc & _ & Hst).
  split; [done|]. destruct (lookup_lt_is_Some_2 codes j) as [c Hc].
  { rewrite Hlc. by eapply lookup_lt_Some. }
  rewrite Hc. f_equal.
  destruct (Hst j k r c Hk Hr Hc) as [[-> Hs]|[[-> Hn]|[[Hh1 Hh2] [Hin|(ks & s1 & er & eb & s2 & He & Hin)]]]].
  - by rewrite bool_decide_eq_true_2.
  - rewrite bool_decide_eq_false_2; [done|]. rewrite Hn. by intros [].
  - apply (proj1 (Forall_forall _ _) Hall) in Hin. naive_solver.
  - specialize (Hex ks s1). rewrite He in Hex. apply (proj1 (Forall_forall _ _) Hex) in Hin. congruence.
Qed.

Definition sample_location : CacheLocation :=
  make_location "l1" CLS_SERVING DATA_STORAGE_TYPE_NFS 1 [].

Definition sample_store : MetaDummyBackend :=
  (Put [1; 2]%Z [{[ "l1" := Some sample_location ]}; ∅] [∅; ∅]
    (mkDummy ∅ ∅ (fun n => Z.of_nat n))).2.

Lemma dummy_Exists_ok ks s : Forall (eq EC_OK) (Exists ks s).1.1.
Proof.
  unfold Exists. destruct (map_st exists_one ks s). simpl. apply Forall_replicate_eq.
Qed.

Lemma key_status_distinguishes_witness :
  let out := GetLocationsWithKeyStatus [1; 2; 3]%Z [["l1"]; ["l1"]; ["l1"]] sample_store in
  out.1.2 !! 1 = Some EC_OK /\ out.1.2 !! 2 = Some EC_NOENT.
Proof.
  set (out := GetLocationsWithKeyStatus _ _ _).
  assert (Hr : out.1.1.1 = [[EC_OK]; [EC_NOENT]; [EC_NOENT]]) by (vm_compute; reflexivity).
  assert (Hok : Forall (fun c => c = EC_OK \/ c = EC_NOENT) [EC_NOENT]) by (constructor; auto).
  destruct out as [[[rs outs] codes] s'] eqn:E. simpl in Hr. subst rs. simpl.
  pose proof (fun j k r => key_status_distinguishes [1; 2; 3]%Z [["l1"]; ["l1"]; ["l1"]]
    sample_store _ _ _ _ j k r eq_refl E dummy_Exists_ok) as H.
  split; [destruct (H 1%nat 2%Z _ eq_refl eq_refl Hok) as [_ ->]|
          destruct (H 2%nat 3%Z _ eq_refl eq_refl Hok) as [_ ->]]; vm_compute; reflexivity.
Defined.

(** *** The cursor scan *)

Lemma list_keys_loop_spec ks start fin cur :
  (0 <= cur)%Z -> (start <= fin)%Z ->
  list_keys_loop start fin cur ks =
  (take (Z.to_nat (fin - Z.max cur start)) (drop (Z.to_nat (start - cur)) ks),
   (Z.min (cur + Z.of_nat (length ks)) (Z.max cur fin))%Z,
   bool_decide (fin < cur + Z.of_nat (length ks))%Z && bool_decide (ks <> [])).
Proof.
  revert cur. induction ks as [|k ks IH]; intros cur Hc Hs; cbn [list_keys_loop length].
  { rewrite drop_nil, take_nil. rewrite andb_false_r. do 2 f_equal. lia. }
  rewrite andb_true_r. destruct (Z.leb_spec fin cur).
  - replace (Z.to_nat (fin - Z.max cur start)) with 0%nat by lia. rewrite take_0.
    rewrite bool_decide_eq_true_2 by lia. do 2 f_equal. lia.
  - rewrite IH by lia. destruct (Z.leb_spec start cur).
    + replace (Z.to_nat (start - (cur + 1))) with 0%nat by lia.
      replace (Z.to_nat (start - cur)) with 0%nat by lia. rewrite !drop_0.
      replace (Z.to_nat (fin - Z.max cur start)) with (S (Z.to_nat (fin - Z.max (cur + 1) start))) by lia.
      simpl. f_equal; [f_equal; lia|].
      destruct (decide (ks = [])) as [->|]; simpl.
      * rewrite andb_false_r. symmetry. apply bool_decide_eq_false_2. lia.
      * rewrite (bool_decide_eq_true_2 (ks <> [])) by done. rewrite andb_true_r.
        apply bool_decide_ext. lia.
    + replace (Z.to_nat (start - cur)) with (S (Z.to_nat (start - (cur + 1)))) by lia.
      simpl. f_equal; [f_equal; [f_equal; lia|lia]|].
      destruct (decide (ks = [])) as [->|]; simpl.
      * rewrite andb_false_r. symmetry. apply bool_decide_eq_false_2. lia.
      * rewrite (bool_decide_eq_true_2 (ks <> [])) by done. rewrite andb_true_r.
        apply bool_decide_ext. lia.
Qed.

Lemma StrToInt64_to_string z : (0 <= z < 2 ^ 63)%Z -> StrToInt64 (to_string z) = Some z.
Proof.
  intros Hz. pose proof (from_chars_unsigned_to_dec (2 ^ 63 - 1) z ltac:(lia)) as H.
  destruct (to_dec_spec z ltac:(lia)) as (Hn & Hd & _).
  unfold StrToInt64, to_string, chars_of. rewrite String.list_ascii_of_string_of_list_ascii.
  destruct (to_dec z) as [|c ds]; [done|]. apply Forall_cons in Hd as [Hc _].
  assert (Hsp : skip_space (c :: ds) = c :: ds).
  { cbn [skip_space]. destruct (is_space c) eqn:E; [exfalso|done].
    unfold is_digit, digit_val in Hc. unfold is_space in E. cbv zeta in E.
    apply andb_true_iff in Hc as [Hc1 Hc2]. apply Z.leb_le in Hc1, Hc2.
    apply orb_true_iff in E as [E|E]; [apply N.eqb_eq in E; lia|].
    apply andb_true_iff in E as [E1 E2]. apply N.leb_le in E2. lia. }
  rewrite Hsp. destruct c as [[] [] [] [] [] [] [] []]; try discriminate Hc; by rewrite H.
Qed.

Lemma to_string_base z : (0 < z < 2 ^ 63)%Z -> to_string z <> SCAN_BASE_CURSOR.
Proof.
  intros Hz Heq. pose proof (StrToInt64_to_string z ltac:(lia)) as H. rewrite Heq in H.
  vm_compute in H. simplify_eq. lia.
Qed.

(** The scan loop of the interface's clients: follow the cursor until it is
    the base cursor again. *)
Fixpoint scan_all (fuel : nat) (cursor : string) (limit : Z) (s : MetaDummyBackend)
    : option (list KeyType) :=
  match fuel with
  | 0 => None
  | S fuel =>
      let '(ec, next, ks) := ListKeys cursor limit s in
      if bool_decide (ec <> EC_OK) then None
      else if bool_decide (next = SCAN_BASE_CURSOR) then Some ks
      else app ks <$> scan_all fuel next limit s
  end.

Definition cursor_of (i : Z) : string := if (i =? 0)%Z then SCAN_BASE_CURSOR else to_string i.

Lemma ListKeys_cursor i limit s :
  (0 < limit)%Z -> (0 <= i)%Z -> (i + limit < 2 ^ 63)%Z ->
  let n := Z.of_nat (length (table_keys s)) in
  ListKeys (cursor_of i) limit s =
  (EC_OK, (if bool_decide (i + limit < n)%Z then cursor_of (i + limit) else SCAN_BASE_CURSOR),
   take (Z.to_nat limit) (drop (Z.to_nat i) (table_keys s))).
Proof.
  intros Hlim Hi Hb n. unfold ListKeys.
  assert ((if bool_decide (cursor_of i = SCAN_BASE_CURSOR) then Some 0%Z else StrToInt64 (cursor_of i))
    = Some i) as ->.
  { unfold cursor_of. destruct (Z.eqb_spec i 0) as [->|]; [done|].
    rewrite bool_decide_eq_false_2 by (apply to_string_base; lia). apply StrToInt64_to_string. lia. }
  rewrite list_keys_loop_spec by lia. rewrite !Z.sub_0_r.
  replace (Z.to_nat (i + limit - Z.max 0 i)) with (Z.to_nat limit) by lia.
  f_equal. f_equal. fold n. rewrite Z.add_0_l.
  destruct (decide (i + limit < n)%Z) as [Hlt|Hge].
  - rewrite !(bool_decide_eq_true_2 (i + limit < n)%Z) by done.
    rewrite bool_decide_eq_true_2.
    + unfold cursor_of. destruct (Z.eqb_spec (i + limit) 0); [lia|]. simpl. f_equal. lia.
    + intros E. unfold n in Hlt. rewrite E in Hlt. simpl in Hlt. lia.
  - by rewrite !(bool_decide_eq_false_2 (i + limit < n)%Z).
Qed.

Lemma scan_all_from fuel i limit s :
  (0 < limit)%Z -> (0 <= i)%Z -> (Z.of_nat (length (table_keys s)) + limit < 2 ^ 63)%Z ->
  (i = 0 \/ i < Z.of_nat (length (table_keys s)))%Z ->
  (length (table_keys s) < Z.to_nat i + fuel)%nat ->
  scan_all fuel (cursor_of i) limit s = Some (drop (Z.to_nat i) (table_keys s)).
Proof.
  revert i. induction fuel as [|fuel IH]; intros i Hlim Hi Hb Hlt Hf; [lia|].
  cbn [scan_all]. rewrite ListKeys_cursor by lia. rewrite bool_decide_eq_false_2 by naive_solver.
  destruct (decide (i + limit < Z.of_nat (length (table_keys s)))%Z) as [Hn|Hn].
  - rewrite (bool_decide_eq_true_2 (i + limit < _)%Z) by done.
    rewrite bool_decide_eq_false_2.
    2: { unfold cursor_of. destruct (Z.eqb_spec (i + limit) 0); [lia|]. apply to_string_base. lia. }
    rewrite IH by lia. simpl. f_equal. rewrite Z2Nat.inj_add by lia.
    rewrite <-drop_drop. by rewrite take_drop.
  - rewrite (bool_decide_eq_false_2 (i + limit < _)%Z) by done.
    rewrite bool_decide_eq_true_2 by done. f_equal. apply take_ge. rewrite length_drop. lia.
Qed.

(** C39: the cursor scan is complete and terminates: for every positive limit,
    following the cursor from the base cursor until it comes back returns
    every key of the store exactly once, in at most one request more than
    there are keys. *)
Theorem scan_complete limit s :
  (0 < limit)%Z -> (Z.of_nat (size (table_ s)) + limit < 2 ^ 63)%Z ->
  exists ks, scan_all (S (size (table_ s))) SCAN_BASE_CURSOR limit s = Some ks /\
    NoDup ks /\ forall k, k ∈ ks <-> is_Some (table_ s !! k).
Proof.
  intros Hlim Hb.
  assert (Hlen : length (table_keys s) = size (table_ s)).
  { unfold table_keys. by rewrite length_fmap, length_map_to_list. }
  exists (table_keys s). split_and!.
  - change SCAN_BASE_CURSOR with (cursor_of 0). rewrite scan_all_from by lia. done.
  - apply NoDup_fst_map_to_list.
  - intros k. unfold table_keys. rewrite list_elem_of_fmap. split.
    + intros ([k' it] & -> & Hin%elem_of_map_to_list). simpl. by rewrite Hin.
    + intros [it Hit]. exists (k, it). split; [done|]. by apply elem_of_map_to_list.
Qed.

Lemma scan_complete_witness :
  exists ks, scan_all 3 SCAN_BASE_CURSOR 1 sample_store = Some ks /\
    NoDup ks /\ forall k, k ∈ ks <-> is_Some (table_ sample_store !! k).
Proof. apply (scan_complete 1 sample_store); [lia|by vm_compute]. Defined.
