(* ===== verification/LocalBackend.v ===== *)
(** * LocalBackend: the in-memory cache store of [meta/meta_local_backend.cc]

    [MetaLocalBackend] keeps one [MetaMemCacheItem] per key in a sharded cache
    with strict per-shard capacity and no eviction on insertion
    ([common/cache/lru_cache.cc]). Modelled: the cache table with the charge
    of each entry and the usage counter of each shard, admission, in-place
    updates with their charge adjustment, and every read and write of the
    store, conditional writes included. The recency order inside a shard (and
    with it the reclaim sampling) is not modelled: without eviction it is not
    observable by the operations here. An external reference to an entry is
    always released before the operation that took it ends, so an entry that
    leaves the table gives its charge back at once. *)

From stdpp Require Import base gmap sets list strings sorting.
From Stdlib Require Import ZArith Lia.
From S2P Require Import Prelude MetaTypes MetaBackend.

Record MetaMemCacheItem := mkItem {
  locations_ : CacheLocationMap;
  properties_ : PropertyMap;
  last_access_time_ : Z;
}.

(** The handle of an entry: its value and [total_charge]. *)
Record LRUHandle := mkHandle { value : MetaMemCacheItem; total_charge : Z }.

(** Compile-time sizes and the configuration of the cache: the shard a key
    hashes to and the capacity of one shard. *)
Record LocalConfig := mkConfig {
  sizeof_ptr : Z;
  sizeof_shared_ptr : Z;
  sizeof_CacheLocation : Z;
  sizeof_LocationSpec : Z;
  sizeof_MetaMemCacheItem : Z;
  shard_of : KeyType -> nat;
  capacity_ : Z;
}.

Record MetaLocalBackend := mkLocal {
  cfg : LocalConfig;
  table_ : gmap KeyType LRUHandle;
  usage_ : nat -> Z;
  clock_ : nat -> Z;
}.

Definition str_size (s : string) : Z := Z.of_nat (String.length s).

Section sizes.
Variable c : LocalConfig.
Local Open Scope Z_scope.

Definition EstimateMemUsage (l : CacheLocation) : Z :=
  foldl (fun usage sp => usage + (sizeof_LocationSpec c + str_size (name sp) + str_size (uri sp)))
    (sizeof_CacheLocation c + str_size (id l)) (location_specs l).

Definition ptr_usage (p : CacheLocationConstPtr) : Z :=
  match p with Some l => EstimateMemUsage l | None => 0 end.

Definition EstimateLocationEntryUsage (i : LocationId) (p : CacheLocationConstPtr) : Z :=
  sizeof_ptr c * 4 + str_size i + sizeof_shared_ptr c + ptr_usage p.

Definition prop_usage (n v : string) : Z := sizeof_ptr c * 4 + str_size n + str_size v.

Definition Size (it : MetaMemCacheItem) : Z :=
  sizeof_MetaMemCacheItem c + map_sum EstimateLocationEntryUsage (locations_ it)
  + map_sum prop_usage (properties_ it).

End sizes.

(** ** The cache operations the store uses *)

Definition GetCurrentTimeUs (s : MetaLocalBackend) : Z * MetaLocalBackend :=
  (clock_ s 0, mkLocal (cfg s) (table_ s) (usage_ s) (fun n => clock_ s (S n))).

Definition add_usage (sh : nat) (delta : Z) (u : nat -> Z) : nat -> Z :=
  fun n => if bool_decide (n = sh) then (u n + delta)%Z else u n.

(** [DoInsertItemUnsafe] with a handle requested: strict capacity, no
    eviction, a replaced entry gives its charge back. *)
Definition DoInsertItemUnsafe (k : KeyType) (e : LRUHandle) (s : MetaLocalBackend)
    : ErrorCode * MetaLocalBackend :=
  let sh := shard_of (cfg s) k in
  if (capacity_ (cfg s) <? usage_ s sh + total_charge e)%Z then (EC_NOSPC, s)
  else
    let u := add_usage sh (total_charge e) (usage_ s) in
    let u := match table_ s !! k with
             | Some old => add_usage sh (- total_charge old) u
             | None => u
             end in
    (EC_OK, mkLocal (cfg s) (<[k := e]> (table_ s)) u (clock_ s)).

(** [InsertItemIfAbsent]. *)
Definition InsertItemIfAbsent (k : KeyType) (e : LRUHandle) (s : MetaLocalBackend)
    : ErrorCode * MetaLocalBackend :=
  match table_ s !! k with
  | Some _ => (EC_EXIST, s)
  | None => DoInsertItemUnsafe k e s
  end.

(** [AdjustCharge] on the entry of [k]. *)
Definition AdjustCharge (k : KeyType) (delta : Z) (s : MetaLocalBackend) : MetaLocalBackend :=
  match table_ s !! k with
  | None => s
  | Some e =>
      let sh := shard_of (cfg s) k in
      if (0 <? delta)%Z then
        mkLocal (cfg s) (<[k := mkHandle (value e) (total_charge e + delta)%Z]> (table_ s))
          (add_usage sh delta (usage_ s)) (clock_ s)
      else if (delta <? 0)%Z then
        let decrease := Z.min (Z.min (- delta) (total_charge e)) (usage_ s sh) in
        mkLocal (cfg s) (<[k := mkHandle (value e) (total_charge e - decrease)%Z]> (table_ s))
          (add_usage sh (- decrease) (usage_ s)) (clock_ s)
      else s
  end.

(** [Erase]. *)
Definition Erase (k : KeyType) (s : MetaLocalBackend) : bool * MetaLocalBackend :=
  match table_ s !! k with
  | None => (false, s)
  | Some e =>
      (true, mkLocal (cfg s) (delete k (table_ s))
               (add_usage (shard_of (cfg s) k) (- total_charge e) (usage_ s)) (clock_ s))
  end.

(** Writes the item of an entry, its charge unchanged. *)
Definition set_item (k : KeyType) (it : MetaMemCacheItem) (s : MetaLocalBackend) : MetaLocalBackend :=
  match table_ s !! k with
  | None => s
  | Some e =>
      mkLocal (cfg s) (<[k := mkHandle it (total_charge e)]> (table_ s)) (usage_ s) (clock_ s)
  end.

(** [TouchAccessTime()] and [TouchAccessTime(t)] on an item. *)
Definition touch_item (now : Z) (it : MetaMemCacheItem) : MetaMemCacheItem :=
  mkItem (locations_ it) (properties_ it) now.

Definition touch_item_max (t : Z) (it : MetaMemCacheItem) : MetaMemCacheItem :=
  if (last_access_time_ it <? t)%Z then touch_item t it else it.

(** ** Private helpers of the store *)

Definition new_item (locs : CacheLocationMap) (props : PropertyMap) (s : MetaLocalBackend)
    : LRUHandle * MetaLocalBackend :=
  let '(now, s) := GetCurrentTimeUs s in
  let it := mkItem locs props now in (mkHandle it (Size (cfg s) it), s).

Definition CreateAndInsert (k : KeyType) (locs : CacheLocationMap) (props : PropertyMap)
    (s : MetaLocalBackend) : ErrorCode * MetaLocalBackend :=
  let '(e, s) := new_item locs props s in DoInsertItemUnsafe k e s.

Definition CreateAndInsertIfAbsent (k : KeyType) (locs : CacheLocationMap) (props : PropertyMap)
    (s : MetaLocalBackend) : ErrorCode * MetaLocalBackend :=
  let '(e, s) := new_item locs props s in InsertItemIfAbsent k e s.

(** The two loops of [UpdateHandleInPlace]: the map updated so far and the
    charge delta. *)
Definition merge_location (c : LocalConfig) (acc : CacheLocationMap * Z)
    (e : LocationId * CacheLocationConstPtr) : CacheLocationMap * Z :=
  let '(m, delta) := acc in let '(loc_id, loc_ptr) := e in
  match m !! loc_id with
  | Some old => (<[loc_id := loc_ptr]> m, (delta + (ptr_usage c loc_ptr - ptr_usage c old))%Z)
  | None => (<[loc_id := loc_ptr]> m, (delta + EstimateLocationEntryUsage c loc_id loc_ptr)%Z)
  end.

Definition merge_property (c : LocalConfig) (acc : PropertyMap * Z) (e : string * string)
    : PropertyMap * Z :=
  let '(m, delta) := acc in let '(n, v) := e in
  match m !! n with
  | Some old => (<[n := v]> m, (delta + (str_size v - str_size old))%Z)
  | None => (<[n := v]> m, (delta + prop_usage c n v)%Z)
  end.

Definition UpdateHandleInPlace (k : KeyType) (locs : CacheLocationMap) (props : PropertyMap)
    (s : MetaLocalBackend) : ErrorCode * MetaLocalBackend :=
  let '(now, s) := GetCurrentTimeUs s in
  match table_ s !! k with
  | None => (EC_OK, s)
  | Some e =>
      let it := touch_item now (value e) in
      let '(ls, d1) := foldl (merge_location (cfg s)) (locations_ it, 0%Z) (map_to_list locs) in
      let '(ps, d2) := foldl (merge_property (cfg s)) (properties_ it, d1) (map_to_list props) in
      let s := set_item k (mkItem ls ps (last_access_time_ it)) s in
      (EC_OK, if (d2 =? 0)%Z then s else AdjustCharge k d2 s)
  end.

Definition UpdateInPlace (k : KeyType) (locs : CacheLocationMap) (props : PropertyMap)
    (s : MetaLocalBackend) : ErrorCode * MetaLocalBackend :=
  match table_ s !! k with
  | None => (EC_NOENT, s)
  | Some _ => UpdateHandleInPlace k locs props s
  end.

Definition UpsertForOneKey (kv : KeyType * (CacheLocationMap * PropertyMap)) (s : MetaLocalBackend)
    : ErrorCode * MetaLocalBackend :=
  let '(k, (locs, props)) := kv in
  let '(update_ec, s) := UpdateInPlace k locs props s in
  if bool_decide (update_ec <> EC_OK) && bool_decide (update_ec <> EC_NOENT) then (update_ec, s)
  else if bool_decide (update_ec = EC_OK) then (EC_OK, s)
  else
    let '(insert_ec, s) := CreateAndInsert k locs props s in
    if bool_decide (insert_ec <> EC_OK) then (insert_ec, s) else (EC_OK, s).

Definition DeleteForOneKey (k : KeyType) (s : MetaLocalBackend) : ErrorCode * MetaLocalBackend :=
  let '(found, s) := Erase k s in (if found : bool then EC_OK else EC_NOENT, s).

Definition drop_location (c : LocalConfig) (acc : CacheLocationMap * Z) (loc_id : LocationId)
    : CacheLocationMap * Z :=
  let '(m, delta) := acc in
  match m !! loc_id with
  | Some p => (delete loc_id m, (delta - EstimateLocationEntryUsage c loc_id p)%Z)
  | None => (m, delta)
  end.

Definition DeleteLocationsForOneKey (k : KeyType) (ids : list LocationId) (s : MetaLocalBackend)
    : ErrorCode * MetaLocalBackend :=
  match table_ s !! k with
  | None => (EC_NOENT, s)
  | Some e =>
      let '(now, s) := GetCurrentTimeUs s in
      let it := touch_item now (value e) in
      let '(ls, delta) := foldl (drop_location (cfg s)) (locations_ it, 0%Z) ids in
      let s := set_item k (mkItem ls (properties_ it) (last_access_time_ it)) s in
      (EC_OK, if (delta =? 0)%Z then s else AdjustCharge k delta s)
  end.

(** ** Unconditional writes *)

Definition Put (keys : list KeyType) (locations : list CacheLocationMap)
    (properties : list PropertyMap) : MetaLocalBackend -> list ErrorCode * MetaLocalBackend :=
  map_st (fun '(k, (l, p)) => CreateAndInsert k l p) (zip keys (zip locations properties)).

Definition PutIfAbsent (keys : list KeyType) (locations : list CacheLocationMap)
    (properties : list PropertyMap) : MetaLocalBackend -> list ErrorCode * MetaLocalBackend :=
  map_st (fun '(k, (l, p)) => CreateAndInsertIfAbsent k l p) (zip keys (zip locations properties)).

(** The duplicate test of [Upsert]: adjacent keys first, a hash set only when
    the keys are not sorted. *)
Fixpoint adjacent_equal (ks : list KeyType) : bool :=
  match ks with
  | a :: ((b :: _) as ks') => (b =? a)%Z || adjacent_equal ks'
  | _ => false
  end.

Fixpoint keys_sorted (ks : list KeyType) : bool :=
  match ks with
  | a :: ((b :: _) as ks') => (a <=? b)%Z && keys_sorted ks'
  | _ => true
  end.

Fixpoint seen_twice (seen : gset KeyType) (ks : list KeyType) : bool :=
  match ks with
  | [] => false
  | k :: ks => if bool_decide (k ∈ seen) then true else seen_twice ({[k]} ∪ seen) ks
  end.

Definition has_duplicate_keys (ks : list KeyType) : bool :=
  adjacent_equal ks || (negb (adjacent_equal ks) && negb (keys_sorted ks) && seen_twice ∅ ks).

(** One position of the batched path, the handle looked up beforehand. *)
Definition upsert_with_handle (x : (KeyType * (CacheLocationMap * PropertyMap)) * bool)
    (s : MetaLocalBackend) : ErrorCode * MetaLocalBackend :=
  let '((k, (locs, props)), found) := x in
  if found : bool then UpdateHandleInPlace k locs props s else CreateAndInsert k locs props s.

Definition Upsert (keys : list KeyType) (locations : list CacheLocationMap)
    (properties : list PropertyMap) (s : MetaLocalBackend) : list ErrorCode * MetaLocalBackend :=
  let rows := zip keys (zip locations properties) in
  if has_duplicate_keys keys then map_st UpsertForOneKey rows s
  else
    let handles := (fun k => bool_decide (is_Some (table_ s !! k))) <$> keys in
    map_st upsert_with_handle (zip rows handles) s.

Definition Delete (keys : list KeyType) : MetaLocalBackend -> list ErrorCode * MetaLocalBackend :=
  map_st DeleteForOneKey keys.

Definition DeleteLocations (keys : list KeyType) (location_ids : list (list LocationId))
    : MetaLocalBackend -> list ErrorCode * MetaLocalBackend :=
  map_st (fun '(k, ids) s =>
            if bool_decide (ids = []) then (EC_OK, s) else DeleteLocationsForOneKey k ids s)
    (zip keys location_ids).

(** ** Writes conditional on the codes of an earlier stage *)

Definition when_ok {A S} (f : A -> S -> ErrorCode * S) (x : A * ErrorCode) (s : S)
    : ErrorCode * S :=
  let '(a, prev) := x in if bool_decide (prev = EC_OK) then f a s else (prev, s).

Definition PutCond (keys : list KeyType) (locations : list CacheLocationMap)
    (properties : list PropertyMap) (prev : list ErrorCode)
    : MetaLocalBackend -> list ErrorCode * MetaLocalBackend :=
  map_st (when_ok (fun '(k, (l, p)) => CreateAndInsert k l p))
    (zip (zip keys (zip locations properties)) prev).

Definition PutIfAbsentCond (keys : list KeyType) (locations : list CacheLocationMap)
    (properties : list PropertyMap) (prev : list ErrorCode)
    : MetaLocalBackend -> list ErrorCode * MetaLocalBackend :=
  map_st (when_ok (fun '(k, (l, p)) => CreateAndInsertIfAbsent k l p))
    (zip (zip keys (zip locations properties)) prev).

Definition UpsertCond (keys : list KeyType) (locations : list CacheLocationMap)
    (properties : list PropertyMap) (prev : list ErrorCode)
    : MetaLocalBackend -> list ErrorCode * MetaLocalBackend :=
  map_st (when_ok UpsertForOneKey) (zip (zip keys (zip locations properties)) prev).

Definition DeleteCond (keys : list KeyType) (prev : list ErrorCode)
    : MetaLocalBackend -> list ErrorCode * MetaLocalBackend :=
  map_st (when_ok DeleteForOneKey) (zip keys prev).

Definition DeleteLocationsCond (keys : list KeyType) (location_ids : list (list LocationId))
    (prev : list ErrorCode) : MetaLocalBackend -> list ErrorCode * MetaLocalBackend :=
  map_st (fun '((k, ids), prev) s =>
            if bool_decide (ids = []) then (prev, s)
            else if bool_decide (prev = EC_OK) then DeleteLocationsForOneKey k ids s
            else (prev, s))
    (zip (zip keys location_ids) prev).

(** ** Reads *)

(** [GetForOneKey]: the item as stored, then its access time is touched. *)
Definition GetForOneKey (k : KeyType) (s : MetaLocalBackend)
    : option MetaMemCacheItem * MetaLocalBackend :=
  match table_ s !! k with
  | None => (None, s)
  | Some e =>
      let '(now, s) := GetCurrentTimeUs s in
      (Some (value e), set_item k (touch_item now (value e)) s)
  end.

Definition PROPERTY_LRU_TIME : string := "BP#lru_time".

Definition Get (keys : list KeyType) (s : MetaLocalBackend)
    : (list ErrorCode * list CacheLocationMap * list PropertyMap) * MetaLocalBackend :=
  let '(rs, s) := map_st GetForOneKey keys s in
  ((fun r => if r is Some _ then EC_OK else EC_NOENT) <$> rs,
   (fun r => if r is Some it then locations_ it else ∅) <$> rs,
   (fun r => if r is Some it
             then <[PROPERTY_LRU_TIME := String.string_of_list_ascii (to_dec (last_access_time_ it))]>
                    (properties_ it)
             else ∅) <$> rs, s).

Definition GetLocations (keys : list KeyType) (s : MetaLocalBackend)
    : (list ErrorCode * list CacheLocationMap) * MetaLocalBackend :=
  let '(rs, s) := map_st GetForOneKey keys s in
  ((fun r => if r is Some _ then EC_OK else EC_NOENT) <$> rs,
   (fun r => if r is Some it then locations_ it else ∅) <$> rs, s).

Definition GetLocationIds (keys : list KeyType) (s : MetaLocalBackend)
    : (list ErrorCode * list (list LocationId)) * MetaLocalBackend :=
  let '(rs, s) := map_st GetForOneKey keys s in
  ((fun r => if r is Some _ then EC_OK else EC_NOENT) <$> rs,
   (fun r => if r is Some it then (map_to_list (locations_ it)).*1 else []) <$> rs, s).

(** One position of [GetLocationsWithKeyStatus], at one batch time stamp. *)
Definition get_by_id_one (access_time_us : Z) (ki : KeyType * list LocationId) (s : MetaLocalBackend)
    : (ErrorCode * (list ErrorCode * list CacheLocationConstPtr)) * MetaLocalBackend :=
  let '(k, ids) := ki in
  match table_ s !! k with
  | None => ((EC_NOENT, ((fun _ => EC_NOENT) <$> ids, (fun _ => None) <$> ids)), s)
  | Some e =>
      let out := (fun i => match locations_ (value e) !! i with
                           | Some p => (EC_OK, p)
                           | None => (EC_NOENT, None)
                           end) <$> ids in
      ((EC_OK, (out.*1, out.*2)), set_item k (touch_item_max access_time_us (value e)) s)
  end.

(** The override of [GetLocationsWithKeyStatus]. *)
Definition GetLocationsWithKeyStatus (keys : list KeyType) (location_ids : list (list LocationId))
    (s : MetaLocalBackend)
    : (list (list ErrorCode) * list (list CacheLocationConstPtr) * list ErrorCode) * MetaLocalBackend :=
  let '(now, s) := GetCurrentTimeUs s in
  let '(rs, s) := map_st (get_by_id_one now) (zip keys location_ids) s in
  (((fun r => r.2.1) <$> rs, (fun r => r.2.2) <$> rs, rs.*1), s).

Definition GetLocationsById (keys : list KeyType) (location_ids : list (list LocationId))
    (s : MetaLocalBackend)
    : (list (list ErrorCode) * list (list CacheLocationConstPtr)) * MetaLocalBackend :=
  let '((rs, outs, _), s) := GetLocationsWithKeyStatus keys location_ids s in ((rs, outs), s).

Definition Exists (keys : list KeyType) (s : MetaLocalBackend)
    : (list ErrorCode * list bool) * MetaLocalBackend :=
  ((replicate (length keys) EC_OK, (fun k => bool_decide (is_Some (table_ s !! k))) <$> keys), s).

Definition ExistsLocation (keys : list KeyType) (s : MetaLocalBackend)
    : (list ErrorCode * list bool) * MetaLocalBackend :=
  ((fun k => if table_ s !! k is Some _ then EC_OK else EC_NOENT) <$> keys,
   (fun k => if table_ s !! k is Some e
             then negb (bool_decide (locations_ (value e) = ∅)) else false) <$> keys, s).

(** ** The batched upsert agrees with the key-by-key one *)

Lemma adjacent_sorted_lt ks :
  adjacent_equal ks = false -> keys_sorted ks = true -> StronglySorted Z.lt ks.
Proof.
  intros Ha Hs. apply Sorted_StronglySorted; [intros x y z; lia|].
  induction ks as [|a [|b ks] IH]; [constructor|repeat constructor|].
  cbn [adjacent_equal keys_sorted] in *. reflect_bools. constructor; [auto|]. constructor. lia.
Qed.

Lemma seen_twice_NoDup seen ks :
  seen_twice seen ks = false -> NoDup ks /\ forall k, k ∈ ks -> k ∉ seen.
Proof.
  revert seen. induction ks as [|k ks IH]; intros seen; simpl.
  { intros _. split; [constructor|set_solver]. }
  case_bool_decide as Hk; [done|]. intros H. destruct (IH _ H) as [Hnd Hni].
  split; [constructor; [intros Hin; apply Hni in Hin; set_solver|done]|].
  intros k'. rewrite elem_of_cons. intros [->|Hin]; [done|]. apply Hni in Hin. set_solver.
Qed.

Lemma has_duplicate_keys_false ks : has_duplicate_keys ks = false -> NoDup ks.
Proof.
  unfold has_duplicate_keys. intros [Ha H]%orb_false_iff. rewrite Ha in H. simpl in H.
  apply andb_false_iff in H as [H|H]; [|by apply seen_twice_NoDup in H as [? _]].
  apply negb_false_iff in H. pose proof (adjacent_sorted_lt ks Ha H) as Hs. clear Ha H.
  induction Hs as [|a ks Hs IH Hall]; constructor; [|done].
  intros Hin. apply (proj1 (Forall_forall _ _) Hall) in Hin. lia.
Qed.

(** Frames: an operation on a key leaves the other entries alone. *)

Lemma DoInsert_frame k e s k' : k' <> k -> table_ (DoInsertItemUnsafe k e s).2 !! k' = table_ s !! k'.
Proof. intros. unfold DoInsertItemUnsafe. case_match; simpl; [done|]. by rewrite lookup_insert_ne. Qed.

Lemma set_item_frame k it s k' : k' <> k -> table_ (set_item k it s) !! k' = table_ s !! k'.
Proof. intros. unfold set_item. case_match; simpl; [|done]. by rewrite lookup_insert_ne. Qed.

Lemma AdjustCharge_frame k d s k' : k' <> k -> table_ (AdjustCharge k d s) !! k' = table_ s !! k'.
Proof.
  intros. unfold AdjustCharge. destruct (table_ s !! k); [|done].
  repeat case_match; simpl; by rewrite ?lookup_insert_ne.
Qed.

Lemma CreateAndInsert_frame k l p s k' :
  k' <> k -> table_ (CreateAndInsert k l p s).2 !! k' = table_ s !! k'.
Proof. intros. unfold CreateAndInsert, new_item. simpl. by rewrite DoInsert_frame. Qed.

Lemma UpdateHandleInPlace_frame k l p s k' :
  k' <> k -> table_ (UpdateHandleInPlace k l p s).2 !! k' = table_ s !! k'.
Proof.
  intros. unfold UpdateHandleInPlace. simpl. destruct (table_ s !! k); [|done].
  destruct (foldl (merge_location _) _ _). destruct (foldl (merge_property _) _ _). simpl.
  case_match; rewrite ?AdjustCharge_frame, ?set_item_frame by done; done.
Qed.

Lemma upsert_one_handle kv s :
  UpsertForOneKey kv s = upsert_with_handle (kv, bool_decide (is_Some (table_ s !! kv.1))) s.
Proof.
  destruct kv as [k [l p]]. unfold UpsertForOneKey, UpdateInPlace, upsert_with_handle. simpl.
  destruct (table_ s !! k) as [e|] eqn:E.
  - rewrite (bool_decide_eq_true_2 (is_Some (Some e))) by eauto.
    destruct (UpdateHandleInPlace k l p s) as [ec s'] eqn:Eu.
    assert (ec = EC_OK) as ->; [|done].
    unfold UpdateHandleInPlace in Eu. simpl in Eu. rewrite E in Eu.
    by destruct (foldl (merge_location _) _ _), (foldl (merge_property _) _ _); simplify_eq.
  - rewrite (bool_decide_eq_false_2 (is_Some None)) by (by intros []).
    rewrite bool_decide_eq_true_2, bool_decide_eq_false_2, bool_decide_eq_false_2 by naive_solver. simpl.
    destruct (CreateAndInsert k l p s) as [ec s'].
    destruct (decide (ec = EC_OK)) as [->|]; [done|]. by rewrite bool_decide_eq_true_2.
Qed.

Lemma upsert_handle_frame x s k' :
  k' <> x.1.1 -> table_ (upsert_with_handle x s).2 !! k' = table_ s !! k'.
Proof.
  destruct x as [[k [l p]] []]; intros; [by apply UpdateHandleInPlace_frame|by apply CreateAndInsert_frame].
Qed.

Lemma batched_upsert_eq rows s0 s :
  NoDup rows.*1 ->
  (forall k, k ∈ rows.*1 -> is_Some (table_ s !! k) <-> is_Some (table_ s0 !! k)) ->
  map_st upsert_with_handle
    (zip rows ((fun k => bool_decide (is_Some (table_ s0 !! k))) <$> rows.*1)) s =
  map_st UpsertForOneKey rows s.
Proof.
  revert s. induction rows as [|kv rows IH]; intros s Hnd Hsame; [done|].
  apply NoDup_cons in Hnd as [Hni Hnd]. cbn [fmap list_fmap zip zip_with map_st].
  rewrite upsert_one_handle.
  assert (bool_decide (is_Some (table_ s !! kv.1)) = bool_decide (is_Some (table_ s0 !! kv.1))) as ->.
  { apply bool_decide_ext, Hsame. left. }
  destruct (upsert_with_handle _ s) as [ec s1] eqn:E.
  rewrite IH; [done|done|]. intros k Hk.
  pose proof (upsert_handle_frame (kv, bool_decide (is_Some (table_ s0 !! kv.1))) s k) as Hf.
  rewrite E in Hf. simpl in Hf. rewrite Hf by (intros ->; done). apply Hsame. by right.
Qed.

Lemma zip_fst_keys {A B} (ks : list A) (xs : list B) : length xs = length ks -> (zip ks xs).*1 = ks.
Proof. intros. apply fst_zip. lia. Qed.

(** Whatever the shape of a batch (duplicates, all hits, all misses, mixed),
    the batched [Upsert] is the key-by-key one. *)
Lemma Upsert_sequential keys locs props s :
  length locs = length keys -> length props = length keys ->
  Upsert keys locs props s = map_st UpsertForOneKey (zip keys (zip locs props)) s.
Proof.
  intros Hl Hp. unfold Upsert. destruct (has_duplicate_keys keys) eqn:Ed; [done|].
  apply has_duplicate_keys_false in Ed.
  assert (Hz : (zip keys (zip locs props)).*1 = keys).
  { apply zip_fst_keys. rewrite length_zip. lia. }
  pose proof (batched_upsert_eq (zip keys (zip locs props)) s s) as H. rewrite Hz in H. by apply H.
Qed.

(** ** Charge accounting *)

Definition wf_config (c : LocalConfig) : Prop :=
  (0 <= sizeof_ptr c /\ 0 <= sizeof_shared_ptr c /\ 0 <= sizeof_CacheLocation c /\
   0 <= sizeof_LocationSpec c /\ 0 <= sizeof_MetaMemCacheItem c)%Z.

Definition shard_charge (c : LocalConfig) (sh : nat) (k : KeyType) (e : LRUHandle) : Z :=
  if bool_decide (shard_of c k = sh) then total_charge e else 0%Z.

(** Every entry is charged exactly the size of its current item, and the
    usage of a shard is the sum of the charges of its entries. *)
Definition accounted (s : MetaLocalBackend) : Prop :=
  wf_config (cfg s) /\
  (forall k e, table_ s !! k = Some e -> total_charge e = Size (cfg s) (value e)) /\
  (forall sh, usage_ s sh = map_sum (shard_charge (cfg s) sh) (table_ s)).

Definition insert_all {V} (m : gmap string V) (l : list (string * V)) : gmap string V :=
  foldl (fun m e => <[e.1 := e.2]> m) m l.

Lemma insert_all_union {V} (m locs : gmap string V) : insert_all m (map_to_list locs) = locs ∪ m.
Proof.
  enough (H : forall (l : list (string * V)) m, NoDup l.*1 -> insert_all m l = list_to_map l ∪ m).
  { rewrite H by apply NoDup_fst_map_to_list. by rewrite list_to_map_to_list. }
  clear. induction l as [|[i p] l IH]; intros m Hnd; simpl.
  { by rewrite (left_id_L ∅ (∪)). }
  apply NoDup_cons in Hnd as [Hni Hnd]. rewrite IH by done.
  rewrite <-insert_union_l. symmetry. apply insert_union_r. by apply not_elem_of_list_to_map_1.
Qed.

Section accounting.
Variable c : LocalConfig.
Local Open Scope Z_scope.

Lemma merge_location_spec l m d m' d' :
  foldl (merge_location c) (m, d) l = (m', d') ->
  m' = insert_all m l /\
  d' - d = map_sum (EstimateLocationEntryUsage c) m' - map_sum (EstimateLocationEntryUsage c) m.
Proof.
  revert m d. induction l as [|[i p] l IH]; intros m d; simpl.
  { intros [= <- <-]. split; [done|lia]. }
  destruct (m !! i) as [old|] eqn:E; intros H; apply IH in H as [-> Hd]; (split; [done|]);
    [rewrite (map_sum_update _ _ _ old) in Hd by done|rewrite map_sum_insert in Hd by done];
    unfold EstimateLocationEntryUsage in *; lia.
Qed.

Lemma merge_property_spec l m d m' d' :
  foldl (merge_property c) (m, d) l = (m', d') ->
  m' = insert_all m l /\ d' - d = map_sum (prop_usage c) m' - map_sum (prop_usage c) m.
Proof.
  revert m d. induction l as [|[i p] l IH]; intros m d; simpl.
  { intros [= <- <-]. split; [done|lia]. }
  destruct (m !! i) as [old|] eqn:E; intros H; apply IH in H as [-> Hd]; (split; [done|]);
    [rewrite (map_sum_update _ _ _ old) in Hd by done|rewrite map_sum_insert in Hd by done];
    unfold prop_usage in *; lia.
Qed.

Lemma drop_location_spec ids m d m' d' :
  foldl (drop_location c) (m, d) ids = (m', d') ->
  m' = remove_ids ids m /\
  d' - d = map_sum (EstimateLocationEntryUsage c) m' - map_sum (EstimateLocationEntryUsage c) m.
Proof.
  revert m d. induction ids as [|i ids IH]; intros m d; simpl.
  { intros [= <- <-]. split; [done|lia]. }
  destruct (m !! i) as [p|] eqn:E; intros H; apply IH in H as [-> Hd].
  - split; [done|]. rewrite (map_sum_delete _ _ _ p) in Hd by done. lia.
  - by rewrite (delete_id m i) by done.
Qed.

Lemma str_size_nonneg s : 0 <= str_size s.
Proof. unfold str_size. lia. Qed.

Lemma EstimateMemUsage_nonneg l : wf_config c -> 0 <= EstimateMemUsage c l.
Proof.
  intros Hc. unfold EstimateMemUsage.
  enough (H : forall sps z, 0 <= z -> 0 <= foldl (fun usage sp =>
    usage + (sizeof_LocationSpec c + str_size (name sp) + str_size (uri sp))) z sps).
  { apply H. pose proof (str_size_nonneg (id l)). unfold wf_config in Hc. lia. }
  induction sps as [|sp sps IH]; intros z Hz; simpl; [done|]. apply IH.
  pose proof (str_size_nonneg (name sp)). pose proof (str_size_nonneg (uri sp)).
  unfold wf_config in Hc. lia.
Qed.

Lemma Size_nonneg it : wf_config c -> 0 <= Size c it.
Proof.
  intros Hc. unfold Size.
  assert (0 <= map_sum (EstimateLocationEntryUsage c) (locations_ it)).
  { apply map_sum_nonneg. intros i p _. unfold EstimateLocationEntryUsage, ptr_usage.
    pose proof (str_size_nonneg i). unfold wf_config in Hc.
    destruct p as [l|]; [pose proof (EstimateMemUsage_nonneg l Hc)|]; lia. }
  assert (0 <= map_sum (prop_usage c) (properties_ it)).
  { apply map_sum_nonneg. intros n v _. unfold prop_usage.
    pose proof (str_size_nonneg n). pose proof (str_size_nonneg v). unfold wf_config in Hc. lia. }
  unfold wf_config in Hc. lia.
Qed.

End accounting.

Lemma shard_charge_nonneg s k e sh :
  accounted s -> table_ s !! k = Some e -> (0 <= shard_charge (cfg s) sh k e)%Z.
Proof.
  intros (Hc & Hs & _) Hk. unfold shard_charge. case_bool_decide; [|done].
  rewrite (Hs k e Hk). by apply Size_nonneg.
Qed.

Lemma usage_ge_charge s k e :
  accounted s -> table_ s !! k = Some e ->
  (0 <= total_charge e <= usage_ s (shard_of (cfg s) k))%Z.
Proof.
  intros Hacc Hk. pose proof Hacc as (Hc & Hs & Hu). split.
  - rewrite (Hs k e Hk). by apply Size_nonneg.
  - rewrite Hu. pose proof (map_sum_ge (shard_charge (cfg s) (shard_of (cfg s) k)) (table_ s) k e) as H.
    unfold shard_charge in H at 2. rewrite bool_decide_eq_true_2 in H by done. apply H; [|done].
    intros. by apply shard_charge_nonneg.
Qed.

Lemma DoInsert_accounted k it s :
  accounted s -> accounted (DoInsertItemUnsafe k (mkHandle it (Size (cfg s) it)) s).2.
Proof.
  intros Hacc. pose proof Hacc as (Hc & Hs & Hu). unfold DoInsertItemUnsafe. simpl.
  case_match; simpl; [done|]. split_and!; simpl; [done| |].
  - intros k' e. destruct (decide (k' = k)) as [->|].
    + rewrite lookup_insert_eq. by intros [= <-].
    + rewrite lookup_insert_ne by done. apply Hs.
  - intros sh. destruct (table_ s !! k) as [old|] eqn:E.
    + rewrite (map_sum_update _ _ _ old) by done. rewrite <-Hu.
      unfold add_usage, shard_charge. simpl. do 2 case_bool_decide; subst; try done; lia.
    + rewrite map_sum_insert by done. rewrite <-Hu. unfold add_usage, shard_charge. simpl.
      do 2 case_bool_decide; subst; try done; lia.
Qed.

(** Replacing the item of an entry and adjusting the charge by the difference
    of the sizes. *)
Lemma set_adjust_spec k e it d s :
  accounted s -> table_ s !! k = Some e -> Size (cfg s) it = (total_charge e + d)%Z ->
  let s' := if (d =? 0)%Z then set_item k it s else AdjustCharge k d (set_item k it s) in
  accounted s' /\ table_ s' = <[k := mkHandle it (Size (cfg s) it)]> (table_ s) /\ cfg s' = cfg s.
Proof.
  intros Hacc Hk Hd s'. pose proof Hacc as (Hc & Hs & Hu).
  destruct (usage_ge_charge _ _ _ Hacc Hk) as [Hge Hle].
  pose proof (Size_nonneg (cfg s) it Hc) as Hn.
  assert (Hform : s' = mkLocal (cfg s) (<[k := mkHandle it (Size (cfg s) it)]> (table_ s))
    (if (d =? 0)%Z then usage_ s else add_usage (shard_of (cfg s) k) d (usage_ s)) (clock_ s)).
  { unfold s', set_item, AdjustCharge. rewrite Hk. destruct (Z.eqb_spec d 0) as [->|Hd0].
    { by rewrite Hd, Z.add_0_r. }
    simpl. rewrite lookup_insert_eq. simpl. rewrite !insert_insert_eq, Hd.
    destruct (Z.ltb_spec 0 d); [done|]. destruct (Z.ltb_spec d 0); [|lia].
    replace (Z.min (Z.min (- d) (total_charge e)) (usage_ s (shard_of (cfg s) k))) with (- d)%Z by lia.
    replace (total_charge e - - d)%Z with (total_charge e + d)%Z by lia.
    by replace (- - d)%Z with d by lia. }
  rewrite Hform. simpl. split_and!; [|done|done]. split_and!; simpl; [done| |].
  - intros k' e'. destruct (decide (k' = k)) as [->|].
    + rewrite lookup_insert_eq. by intros [= <-].
    + rewrite lookup_insert_ne by done. apply Hs.
  - intros sh. rewrite (map_sum_update _ _ _ e) by done. rewrite <-Hu.
    unfold shard_charge, add_usage. simpl. destruct (Z.eqb_spec d 0) as [->|];
      repeat case_bool_decide; subst; try done; lia.
Qed.

(** ** The locations held, and the promises of the interface *)

Definition view (s : MetaLocalBackend) : StoreView := (fun e => locations_ (value e)) <$> table_ s.

Lemma local_view_lookup s k : view s !! k = (fun e => locations_ (value e)) <$> (table_ s !! k).
Proof. apply lookup_fmap. Qed.

Lemma view_AdjustCharge k d s : view (AdjustCharge k d s) = view s.
Proof.
  unfold AdjustCharge. destruct (table_ s !! k) as [e|] eqn:E; [|done].
  repeat case_match; try done; unfold view; simpl; rewrite fmap_insert; apply insert_id;
    by rewrite lookup_fmap, E.
Qed.

Lemma view_set_item k it s e :
  table_ s !! k = Some e -> view (set_item k it s) = <[k := locations_ it]> (view s).
Proof. intros E. unfold set_item. rewrite E. unfold view. simpl. by rewrite fmap_insert. Qed.

Lemma view_set_item_same k it s e :
  table_ s !! k = Some e -> locations_ it = locations_ (value e) -> view (set_item k it s) = view s.
Proof.
  intros E Hl. rewrite (view_set_item k it s e E), Hl. apply insert_id. by rewrite local_view_lookup, E.
Qed.

Lemma DoInsert_view k e s ec s' :
  DoInsertItemUnsafe k e s = (ec, s') -> put_step (k, locations_ (value e)) (view s) ec (view s').
Proof.
  unfold DoInsertItemUnsafe, put_step. case_match; intros [= <- <-]; simpl.
  - right. done.
  - left. split; [done|]. unfold view. simpl. by rewrite fmap_insert.
Qed.

Lemma CreateAndInsert_view k l p s ec s' :
  CreateAndInsert k l p s = (ec, s') -> put_step (k, l) (view s) ec (view s').
Proof. unfold CreateAndInsert, new_item. simpl. intros H. by apply DoInsert_view in H. Qed.

Lemma UpdateHandleInPlace_view k l p s e :
  table_ s !! k = Some e ->
  (UpdateHandleInPlace k l p s).1 = EC_OK /\
  view (UpdateHandleInPlace k l p s).2 = <[k := l ∪ locations_ (value e)]> (view s).
Proof.
  intros E. unfold UpdateHandleInPlace. simpl. rewrite E.
  destruct (foldl (merge_location _) _ _) as [ls d1] eqn:E1.
  destruct (foldl (merge_property _) _ _) as [ps d2]. simpl.
  apply merge_location_spec in E1 as [-> _]. rewrite insert_all_union. simpl. split; [done|].
  case_match; rewrite ?view_AdjustCharge; by erewrite view_set_item by (simpl; done).
Qed.

Lemma UpsertForOneKey_view kv s ec s' :
  UpsertForOneKey kv s = (ec, s') -> upsert_step (kv.1, kv.2.1) (view s) ec (view s').
Proof.
  rewrite upsert_one_handle. destruct kv as [k [l p]]. simpl. unfold upsert_step. simpl.
  case_bool_decide as Hs; intros H.
  - destruct Hs as [e He]. destruct (UpdateHandleInPlace_view k l p s e He) as [H1 H2].
    rewrite H in H1, H2. simpl in H1, H2. left. rewrite local_view_lookup, He. done.
  - apply eq_None_not_Some in Hs. apply CreateAndInsert_view in H as [[-> ->]|?]; [left|by right].
    rewrite local_view_lookup, Hs. simpl. by rewrite (right_id_L ∅ (∪)).
Qed.

Lemma DeleteForOneKey_view k s ec s' :
  DeleteForOneKey k s = (ec, s') -> delete_step k (view s) ec (view s').
Proof.
  unfold DeleteForOneKey, Erase.
  destruct (table_ s !! k) as [e|] eqn:E; intros [= <- <-].
  - left. rewrite local_view_lookup, E. split_and!; [done|by eauto|]. unfold view. simpl. apply fmap_delete.
  - right; left. by rewrite local_view_lookup, E.
Qed.

Lemma DeleteLocationsForOneKey_view k ids s :
  match table_ s !! k with
  | None => DeleteLocationsForOneKey k ids s = (EC_NOENT, s)
  | Some e =>
      (DeleteLocationsForOneKey k ids s).1 = EC_OK /\
      view (DeleteLocationsForOneKey k ids s).2 = <[k := remove_ids ids (locations_ (value e))]> (view s)
  end.
Proof.
  unfold DeleteLocationsForOneKey. destruct (table_ s !! k) as [e|] eqn:E; [|done]. simpl.
  destruct (foldl (drop_location _) _ _) as [ls d] eqn:E1.
  apply drop_location_spec in E1 as [-> _]. simpl. split; [done|].
  case_match; rewrite ?view_AdjustCharge; by erewrite view_set_item by (simpl; done).
Qed.

Lemma delete_locations_view k ids s ec s' :
  (if bool_decide (ids = []) then (EC_OK, s) else DeleteLocationsForOneKey k ids s) = (ec, s') ->
  delete_locations_step (k, ids) (view s) ec (view s').
Proof.
  unfold delete_locations_step. simpl. case_bool_decide as Hi; [intros [= <- <-]; by left|].
  intros H. pose proof (DeleteLocationsForOneKey_view k ids s) as Hv. rewrite local_view_lookup.
  destruct (table_ s !! k) as [e|] eqn:E.
  - rewrite H in Hv. simpl in Hv. destruct Hv as [-> ->]. right; left. split; [done|]. eauto.
  - rewrite H in Hv. simplify_eq. right; right; left. done.
Qed.

Lemma GetForOneKey_view k s r s' :
  GetForOneKey k s = (r, s') ->
  view s' = view s /\ locations_ <$> r = view s !! k.
Proof.
  unfold GetForOneKey. rewrite local_view_lookup. destruct (table_ s !! k) as [e|] eqn:E; intros [= <- <-]; [|done].
  split; [|done]. by erewrite view_set_item_same by (simpl; done).
Qed.

Lemma get_by_id_one_view t ki s r s' :
  get_by_id_one t ki s = (r, s') ->
  view s' = view s /\ Forall3i (loc_read_ok (view s) ki.1) ki.2 r.2.1 r.2.2 /\
  r.1 = (if bool_decide (is_Some (view s !! ki.1)) then EC_OK else EC_NOENT).
Proof.
  destruct ki as [k ids]. unfold get_by_id_one. simpl. rewrite local_view_lookup.
  destruct (table_ s !! k) as [e|] eqn:E; intros [= <- <-]; simpl.
  - split_and!; [|apply Forall3i_of_Forall2, Forall2_fmap_r, Forall_Forall2_diag, Forall_forall|done].
    + erewrite view_set_item_same; [done|done|]. unfold touch_item_max. by case_match.
    + intros i _. unfold loc_read_ok. rewrite local_view_lookup, E. simpl.
      destruct (locations_ (value e) !! i) eqn:Ei; simpl; [left; eauto|right; left].
      split; [done|]. by intros ls [= <-].
  - split_and!; [done| |done].
    apply (Forall3i_of_Forall2 (fun _ => EC_NOENT) (fun _ => None)), Forall_Forall2_diag, Forall_forall.
    intros i _. right; left. split; [done|]. by rewrite local_view_lookup, E.
Qed.

#[global] Instance local_ops : MetaStorageBackend MetaLocalBackend := {
  be_Put := Put;
  be_Upsert := Upsert;
  be_Delete := Delete;
  be_DeleteLocations := DeleteLocations;
  be_Get := Get;
  be_GetLocations := GetLocations;
  be_GetLocationsById := GetLocationsById;
  be_GetLocationIds := GetLocationIds;
  be_ExistsLocation := ExistsLocation;
  be_Exists := Exists;
}.

(** The codes and values a read loop reports, from the items it found. *)
Lemma get_reads {X} (f : option MetaMemCacheItem -> X) (proj : CacheLocationMap -> X -> Prop) keys s rs s' :
  map_st GetForOneKey keys s = (rs, s') ->
  (forall it, proj (locations_ it) (f (Some it))) ->
  view s' = view s /\
  Forall3i (read_ok proj (view s)) keys
    ((fun r => if r is Some _ then EC_OK else EC_NOENT) <$> rs) (f <$> rs).
Proof.
  intros E Hf.
  apply (map_st_read GetForOneKey view (fun m k r => locations_ <$> r = m !! k)) in E as [Hv Hall].
  - split; [done|]. apply Forall3i_of_Forall2. eapply Forall2_impl; [exact Hall|].
    intros k [it|] Hk; simpl in Hk; unfold read_ok; rewrite <-Hk; [left|right; left]; eauto.
  - intros k t r t' H. by apply GetForOneKey_view.
Qed.

#[global] Program Instance local_lawful : LawfulBackend MetaLocalBackend := { be_view := view }.
Next Obligation.
  intros keys locs props s r s' Hl1 Hl2 H. rewrite <-(zip_drop_third keys locs props) by done.
  apply steps_fmap. eapply map_st_steps, H. intros [k [l p]] ??? E. by apply CreateAndInsert_view in E.
Qed.
Next Obligation.
  intros keys locs props s r s' Hl1 Hl2 H. simpl in H. rewrite Upsert_sequential in H by done.
  rewrite <-(zip_drop_third keys locs props) by done.
  apply steps_fmap. eapply map_st_steps, H. intros. by apply UpsertForOneKey_view.
Qed.
Next Obligation.
  intros keys s r s' H. eapply map_st_steps, H. intros. by apply DeleteForOneKey_view.
Qed.
Next Obligation.
  intros keys ids s r s' _ H. eapply map_st_steps, H. intros [k i] ??? E. by apply delete_locations_view.
Qed.
Next Obligation.
  intros keys s r locs props s' H. simpl in H. unfold Get in H.
  destruct (map_st GetForOneKey keys s) as [rs s1] eqn:E. simplify_eq.
  destruct (get_reads (fun r => if r is Some it then locations_ it else ∅) eq _ _ _ _ E) as [Hv Hall]; [done|].
  split_and!; [done| |done]. rewrite length_fmap.
  apply Forall3i_length in Hall as [Hall _]. by rewrite length_fmap in Hall.
Qed.
Next Obligation.
  intros keys s r locs s' H. simpl in H. unfold GetLocations in H.
  destruct (map_st GetForOneKey keys s) as [rs s1] eqn:E. simplify_eq.
  by apply (get_reads (fun r => if r is Some it then locations_ it else ∅) eq).
Qed.
Next Obligation.
  intros keys ids s rs ps s' _ H. simpl in H. unfold GetLocationsById, GetLocationsWithKeyStatus in H.
  simpl in H. destruct (map_st _ (zip keys ids) _) as [out s1] eqn:E. simplify_eq.
  apply (map_st_read _ view
    (fun m ki r => Forall3i (loc_read_ok m ki.1) ki.2 r.2.1 r.2.2)) in E as [Hv Hall].
  - split; [done|by apply (Forall3i_of_Forall2 (fun r => r.2.1) (fun r => r.2.2))].
  - intros ki t r t' Hr. apply get_by_id_one_view in Hr as (? & ? & _). done.
Qed.
Next Obligation.
  intros keys s r idss s' H. simpl in H. unfold GetLocationIds in H.
  destruct (map_st GetForOneKey keys s) as [rs s1] eqn:E. simplify_eq.
  apply (get_reads (fun r => if r is Some it then (map_to_list (locations_ it)).*1 else [])); [done|].
  intros it. split; [apply NoDup_fst_map_to_list|]. intros i. rewrite list_elem_of_fmap. split.
  - intros ([i' p] & -> & Hin%elem_of_map_to_list). simpl. by rewrite Hin.
  - intros [p Hp]. exists (i, p). split; [done|]. by apply elem_of_map_to_list.
Qed.
Next Obligation.
  intros keys s r idss s' H. simpl in H. unfold GetLocationIds in H.
  destruct (map_st GetForOneKey keys s) as [rs s1] eqn:E. simplify_eq.
  apply Forall2_fmap_2, Forall_Forall2_diag, Forall_forall. by intros [it|].
Qed.
Next Obligation.
  intros keys s r bs s' H. simpl in H. unfold ExistsLocation in H. simplify_eq. split; [done|].
  apply Forall3i_of_Forall2, Forall_Forall2_diag, Forall_forall. intros k _.
  unfold read_ok. rewrite local_view_lookup. destruct (table_ _ !! k) as [e|]; [left|by eauto]. simpl.
  split; [done|]. eexists. split; [done|]. by rewrite bool_decide_not.
Qed.
Next Obligation.
  intros keys s r bs s' H. simpl in H. unfold Exists in H. simplify_eq. split; [done|].
  rewrite <-(const_fmap (fun _ => EC_OK) keys EC_OK) by done.
  apply Forall3i_of_Forall2, Forall_Forall2_diag, Forall_forall. intros k _. left. split; [done|].
  rewrite local_view_lookup. apply bool_decide_ext. by rewrite fmap_is_Some.
Qed.

(** ** Accounting is an invariant of every operation *)

Lemma clock_accounted s : accounted s -> accounted (GetCurrentTimeUs s).2.
Proof. done. Qed.

Lemma CreateAndInsert_accounted k l p s : accounted s -> accounted (CreateAndInsert k l p s).2.
Proof.
  intros H. unfold CreateAndInsert, new_item. simpl.
  apply (DoInsert_accounted k (mkItem l p (clock_ s 0)) (GetCurrentTimeUs s).2), H.
Qed.

Lemma CreateAndInsertIfAbsent_accounted k l p s :
  accounted s -> accounted (CreateAndInsertIfAbsent k l p s).2.
Proof.
  intros H. unfold CreateAndInsertIfAbsent, new_item, InsertItemIfAbsent. simpl.
  destruct (table_ s !! k); [done|].
  apply (DoInsert_accounted k (mkItem l p (clock_ s 0)) (GetCurrentTimeUs s).2), H.
Qed.

Lemma UpdateHandleInPlace_accounted k l p s :
  accounted s -> accounted (UpdateHandleInPlace k l p s).2.
Proof.
  intros H. unfold UpdateHandleInPlace. simpl. destruct (table_ s !! k) as [e|] eqn:E; [|done].
  destruct (foldl (merge_location _) _ _) as [ls d1] eqn:E1.
  destruct (foldl (merge_property _) _ _) as [ps d2] eqn:E2. simpl.
  apply merge_location_spec in E1 as [_ Hd1]. apply merge_property_spec in E2 as [_ Hd2].
  eapply (set_adjust_spec k e _ d2 (GetCurrentTimeUs s).2); [done|done|].
  pose proof H as (_ & Hs & _). rewrite (Hs k e E). unfold Size. simpl in *. lia.
Qed.

Lemma UpsertForOneKey_accounted kv s : accounted s -> accounted (UpsertForOneKey kv s).2.
Proof.
  intros H. rewrite upsert_one_handle. destruct kv as [k [l p]]. simpl. case_bool_decide.
  - by apply UpdateHandleInPlace_accounted.
  - by apply CreateAndInsert_accounted.
Qed.

Lemma DeleteForOneKey_accounted k s : accounted s -> accounted (DeleteForOneKey k s).2.
Proof.
  intros H. unfold DeleteForOneKey, Erase. destruct (table_ s !! k) as [e|] eqn:E; [|done].
  pose proof H as (Hc & Hs & Hu). split_and!; simpl; [done| |].
  - intros k' e'. rewrite lookup_delete_Some. intros [_ ?]. by apply (Hs k').
  - intros sh. rewrite (map_sum_delete _ _ _ e) by done. rewrite <-Hu.
    unfold add_usage, shard_charge. do 2 case_bool_decide; subst; try done; lia.
Qed.

Lemma DeleteLocationsForOneKey_accounted k ids s :
  accounted s -> accounted (DeleteLocationsForOneKey k ids s).2.
Proof.
  intros H. unfold DeleteLocationsForOneKey. destruct (table_ s !! k) as [e|] eqn:E; [|done]. simpl.
  destruct (foldl (drop_location _) _ _) as [ls d] eqn:E1. simpl.
  apply drop_location_spec in E1 as [_ Hd].
  eapply (set_adjust_spec k e _ d (GetCurrentTimeUs s).2); [done|done|].
  pose proof H as (_ & Hs & _). rewrite (Hs k e E). unfold Size. simpl in *. lia.
Qed.

Lemma touch_accounted k e it s :
  accounted s -> table_ s !! k = Some e -> locations_ it = locations_ (value e) ->
  properties_ it = properties_ (value e) -> accounted (set_item k it s).
Proof.
  intros H E H1 H2. apply (set_adjust_spec k e it 0 s); [done|done|].
  pose proof H as (_ & Hs & _). rewrite (Hs k e E). unfold Size. rewrite H1, H2. lia.
Qed.

Lemma GetForOneKey_accounted k s : accounted s -> accounted (GetForOneKey k s).2.
Proof.
  intros H. unfold GetForOneKey. destruct (table_ s !! k) as [e|] eqn:E; [|done]. simpl.
  by eapply (touch_accounted k e _ (GetCurrentTimeUs s).2).
Qed.

Lemma get_by_id_one_accounted t ki s : accounted s -> accounted (get_by_id_one t ki s).2.
Proof.
  intros H. destruct ki as [k ids]. unfold get_by_id_one.
  destruct (table_ s !! k) as [e|] eqn:E; [|done]. simpl.
  eapply touch_accounted; [done|done| |]; unfold touch_item_max; by case_match.
Qed.

Lemma when_ok_accounted {A} (f : A -> MetaLocalBackend -> ErrorCode * MetaLocalBackend) x s :
  (forall a s, accounted s -> accounted (f a s).2) -> accounted s -> accounted (when_ok f x s).2.
Proof. intros Hf H. destruct x as [a prev]. unfold when_ok. case_bool_decide; auto. Qed.

(** The operations of the store, one per method. *)
Inductive LocalOp :=
  | OpPut (keys : list KeyType) (locs : list CacheLocationMap) (props : list PropertyMap)
  | OpPutIfAbsent (keys : list KeyType) (locs : list CacheLocationMap) (props : list PropertyMap)
  | OpUpsert (keys : list KeyType) (locs : list CacheLocationMap) (props : list PropertyMap)
  | OpDelete (keys : list KeyType)
  | OpDeleteLocations (keys : list KeyType) (ids : list (list LocationId))
  | OpPutCond (keys : list KeyType) (locs : list CacheLocationMap) (props : list PropertyMap)
      (prev : list ErrorCode)
  | OpPutIfAbsentCond (keys : list KeyType) (locs : list CacheLocationMap)
      (props : list PropertyMap) (prev : list ErrorCode)
  | OpUpsertCond (keys : list KeyType) (locs : list CacheLocationMap) (props : list PropertyMap)
      (prev : list ErrorCode)
  | OpDeleteCond (keys : list KeyType) (prev : list ErrorCode)
  | OpDeleteLocationsCond (keys : list KeyType) (ids : list (list LocationId)) (prev : list ErrorCode)
  | OpGet (keys : list KeyType)
  | OpGetById (keys : list KeyType) (ids : list (list LocationId)).

Definition run_op (op : LocalOp) (s : MetaLocalBackend) : MetaLocalBackend :=
  match op with
  | OpPut ks ls ps => (Put ks ls ps s).2
  | OpPutIfAbsent ks ls ps => (PutIfAbsent ks ls ps s).2
  | OpUpsert ks ls ps => (Upsert ks ls ps s).2
  | OpDelete ks => (Delete ks s).2
  | OpDeleteLocations ks ids => (DeleteLocations ks ids s).2
  | OpPutCond ks ls ps prev => (PutCond ks ls ps prev s).2
  | OpPutIfAbsentCond ks ls ps prev => (PutIfAbsentCond ks ls ps prev s).2
  | OpUpsertCond ks ls ps prev => (UpsertCond ks ls ps prev s).2
  | OpDeleteCond ks prev => (DeleteCond ks prev s).2
  | OpDeleteLocationsCond ks ids prev => (DeleteLocationsCond ks ids prev s).2
  | OpGet ks => (Get ks s).2
  | OpGetById ks ids => (GetLocationsById ks ids s).2
  end.

Lemma run_op_accounted op s : accounted s -> accounted (run_op op s).
Proof.
  intros H. destruct op as [ks ls ps|ks ls ps|ks ls ps|ks|ks ids|ks ls ps prev|ks ls ps prev
    |ks ls ps prev|ks prev|ks ids prev|ks|ks ids]; cbn [run_op];
    unfold Put, PutIfAbsent, Delete, DeleteLocations, PutCond, PutIfAbsentCond, UpsertCond,
      DeleteCond, DeleteLocationsCond.
  - apply map_st_inv; [|done]. intros [k [l p]] t Ht. by apply CreateAndInsert_accounted.
  - apply map_st_inv; [|done]. intros [k [l p]] t Ht. by apply CreateAndInsertIfAbsent_accounted.
  - unfold Upsert. case_match; (apply map_st_inv; [|done]).
    + intros kv t Ht. by apply UpsertForOneKey_accounted.
    + intros [[k [l p]] b] t Ht. unfold upsert_with_handle. destruct b.
      * by apply UpdateHandleInPlace_accounted.
      * by apply CreateAndInsert_accounted.
  - apply map_st_inv; [|done]. intros. by apply DeleteForOneKey_accounted.
  - apply map_st_inv; [|done]. intros [k i] t Ht. case_bool_decide; [done|].
    by apply DeleteLocationsForOneKey_accounted.
  - apply map_st_inv; [|done]. intros x t Ht. apply when_ok_accounted; [|done].
    intros [k [l p]] u Hu. by apply CreateAndInsert_accounted.
  - apply map_st_inv; [|done]. intros x t Ht. apply when_ok_accounted; [|done].
    intros [k [l p]] u Hu. by apply CreateAndInsertIfAbsent_accounted.
  - apply map_st_inv; [|done]. intros x t Ht. apply when_ok_accounted; [|done].
    intros kv u Hu. by apply UpsertForOneKey_accounted.
  - apply map_st_inv; [|done]. intros x t Ht. apply when_ok_accounted; [|done].
    intros k u Hu. by apply DeleteForOneKey_accounted.
  - apply map_st_inv; [|done]. intros [[k i] pr] t Ht. repeat case_bool_decide; try done.
    by apply DeleteLocationsForOneKey_accounted.
  - unfold Get. pose proof (map_st_inv GetForOneKey accounted ks s) as Hi.
    destruct (map_st GetForOneKey ks s). apply Hi; [|done]. intros. by apply GetForOneKey_accounted.
  - unfold GetLocationsById, GetLocationsWithKeyStatus. simpl.
    pose proof (map_st_inv (get_by_id_one (clock_ s 0)) accounted (zip ks ids)
      (GetCurrentTimeUs s).2) as Hi. simpl in Hi.
    destruct (map_st _ _ _). apply Hi; [|done]. intros. by apply get_by_id_one_accounted.
Qed.

Definition init_local (c : LocalConfig) (clock : nat -> Z) : MetaLocalBackend :=
  mkLocal c ∅ (fun _ => 0%Z) clock.

(** Memory accounting of the local store is exact in every reachable
    state: after any sequence of operations on an empty store, each entry is
    charged exactly the footprint [Size()] of its current item although the
    updates only apply charge differences, and the usage counter of every
    shard is the sum of the charges of its entries; so it is non-negative, and
    a successful insertion leaves the shard within its capacity while a
    refused one ([EC_NOSPC]) changes no entry. *)
Theorem accounting_exact c clock ops k l p :
  wf_config c ->
  let s := foldl (fun s op => run_op op s) (init_local c clock) ops in
  accounted s /\
  (let '(ec, s') := CreateAndInsert k l p s in
   match ec with
   | EC_OK => (0 <= usage_ s' (shard_of (cfg s) k) <= capacity_ (cfg s))%Z
   | _ => ec = EC_NOSPC /\ table_ s' = table_ s
   end).
Proof.
  intros Hc s.
  assert (Hacc : accounted s).
  { subst s. assert (H0 : accounted (init_local c clock)).
    { split_and!; [done|done|]. intros sh. symmetry. apply map_sum_empty. }
    revert H0. generalize (init_local c clock). induction ops as [|op ops IH]; intros s Hs; [done|].
    by apply IH, run_op_accounted. }
  split; [done|]. clearbody s. pose proof (CreateAndInsert_accounted k l p s Hacc) as Hacc'.
  unfold CreateAndInsert, new_item in *. simpl in *.
  unfold DoInsertItemUnsafe in *. simpl in *. case_match; [done|]. simpl in *. reflect_bools.
  set (e := mkHandle _ _) in *.
  pose proof (usage_ge_charge _ k e Hacc') as Hu. simpl in Hu.
  split; [etransitivity; [apply Hu, lookup_insert_eq|apply Hu, lookup_insert_eq]|].
  destruct (table_ s !! k) as [old|] eqn:E; unfold add_usage; simpl;
    rewrite ?bool_decide_eq_true_2 by done.
  - destruct (usage_ge_charge _ _ _ Hacc E). lia.
  - lia.
Qed.

Definition sample_config : LocalConfig := mkConfig 8 16 160 72 200 (fun k => Z.to_nat (k mod 4)) 1000.

Lemma accounting_exact_witness :
  let ops := [OpPut [1; 2; 5]%Z
                [{[ "a" := Some (make_location "a" CLS_SERVING DATA_STORAGE_TYPE_NFS 1 []) ]}; ∅; ∅] [∅; ∅; ∅];
              OpUpsert [1; 2]%Z [{[ "a" := None ]}; {[ "b" := None ]}] [{[ "p" := "v" ]}; ∅];
              OpDeleteLocations [2]%Z [["b"; "c"]]; OpDelete [5]%Z] in
  accounted (foldl (fun s op => run_op op s) (init_local sample_config (fun n => Z.of_nat n)) ops).
Proof.
  intros ops. refine (proj1 (accounting_exact sample_config (fun n => Z.of_nat n) ops 1%Z ∅ ∅ _)).
  unfold wf_config. simpl. lia.
Defined.

(** The batched [Upsert] fast paths of the local store are equivalent to
    upserting the keys one by one in request order: for every batch (with
    duplicate keys, all present, all missing or mixed) the results, the
    entries, the charges and the access times are the same. *)
Theorem Upsert_batched_equiv keys locs props s :
  length locs = length keys -> length props = length keys ->
  Upsert keys locs props s = map_st UpsertForOneKey (zip keys (zip locs props)) s.
Proof. apply Upsert_sequential. Qed.

Lemma Upsert_batched_equiv_witness :
  let s := (Put [1]%Z [∅] [∅] (init_local sample_config (fun n => Z.of_nat n))).2 in
  Upsert [7; 1; 3]%Z [{[ "a" := None ]}; {[ "b" := None ]}; ∅] [∅; ∅; ∅] s =
  map_st UpsertForOneKey
    (zip [7; 1; 3]%Z (zip [{[ "a" := None ]}; {[ "b" := None ]}; ∅] [∅; ∅; ∅])) s.
Proof. intros s. apply (Upsert_batched_equiv [7; 1; 3]%Z); done. Defined.
