(* ===== verification/BackendManager.v ===== *)
(** * BackendManager: the two-tier metadata store of
    [meta/meta_storage_backend_manager.cc]

    [MetaStorageBackendManager] puts an optional cache tier in front of a
    persistent store. Writes go to the persistent tier first and are mirrored
    to the cache for the keys that succeeded; reads are served by the cache,
    and fall back to the persistent tier while the cache is being recovered
    ([kRecover]). A recovery thread scans the persistent tier and backfills
    the cache; keys deleted meanwhile are tombstoned. Both tiers are accessed
    through the interface classes, so the theorems hold for every pair of
    stores that keeps its promises; each manager operation is one atomic step,
    the recovery thread interleaves with them between its read of a batch and
    its backfill. *)

From stdpp Require Import base gmap sets list strings.
From Stdlib Require Import ZArith Lia.
From S2P Require Import Prelude MetaTypes MetaBackend LocalBackend.

(** ** The cache tier's conditional writes ([meta/meta_cache_base_backend.h]) *)

Class MetaCacheBaseBackend (CT : Type) := {
  ct_ops :: MetaStorageBackend CT;
  ct_PutCond : list KeyType -> list CacheLocationMap -> list PropertyMap -> list ErrorCode ->
    CT -> list ErrorCode * CT;
  ct_PutIfAbsentCond : list KeyType -> list CacheLocationMap -> list PropertyMap -> list ErrorCode ->
    CT -> list ErrorCode * CT;
  ct_UpsertCond : list KeyType -> list CacheLocationMap -> list PropertyMap -> list ErrorCode ->
    CT -> list ErrorCode * CT;
  ct_DeleteCond : list KeyType -> list ErrorCode -> CT -> list ErrorCode * CT;
  ct_DeleteLocationsCond : list KeyType -> list (list LocationId) -> list ErrorCode ->
    CT -> list ErrorCode * CT;
}.

(** A key that failed before is skipped and keeps its code. *)
Definition cond_step {A} (R : A -> StoreView -> ErrorCode -> StoreView -> Prop)
    (x : A * ErrorCode) (m : StoreView) (ec : ErrorCode) (m' : StoreView) : Prop :=
  if bool_decide (x.2 = EC_OK) then R x.1 m ec m' else ec = x.2 /\ m' = m.

Definition put_if_absent_step (kl : KeyType * CacheLocationMap) (m : StoreView) (ec : ErrorCode)
    (m' : StoreView) : Prop :=
  (ec = EC_EXIST /\ is_Some (m !! kl.1) /\ m' = m) \/
  (ec = EC_OK /\ m !! kl.1 = None /\ m' = <[kl.1 := kl.2]> m) \/
  (hard ec /\ ec <> EC_EXIST /\ m' = m).

(** Removing from memory cannot fail. *)
Definition total {A} (R : A -> StoreView -> ErrorCode -> StoreView -> Prop)
    (a : A) (m : StoreView) (ec : ErrorCode) (m' : StoreView) : Prop :=
  R a m ec m' /\ ~ hard ec.

(** With no location to delete the earlier code is passed on. *)
Definition delete_locations_cond_step (x : (KeyType * list LocationId) * ErrorCode) (m : StoreView)
    (ec : ErrorCode) (m' : StoreView) : Prop :=
  if bool_decide (x.1.2 = []) then ec = x.2 /\ m' = m else cond_step (total delete_locations_step) x m ec m'.

Class LawfulCache (CT : Type) `{MetaCacheBaseBackend CT} := {
  ct_lawful :: LawfulBackend CT;
  ct_PutCond_law keys locs props prev s r s' :
    length locs = length keys -> length props = length keys -> length prev = length keys ->
    ct_PutCond keys locs props prev s = (r, s') ->
    steps (cond_step put_step) (zip (zip keys locs) prev) r (be_view s) (be_view s');
  ct_PutIfAbsentCond_law keys locs props prev s r s' :
    length locs = length keys -> length props = length keys -> length prev = length keys ->
    ct_PutIfAbsentCond keys locs props prev s = (r, s') ->
    steps (cond_step put_if_absent_step) (zip (zip keys locs) prev) r (be_view s) (be_view s');
  ct_UpsertCond_law keys locs props prev s r s' :
    length locs = length keys -> length props = length keys -> length prev = length keys ->
    ct_UpsertCond keys locs props prev s = (r, s') ->
    steps (cond_step upsert_step) (zip (zip keys locs) prev) r (be_view s) (be_view s');
  ct_DeleteCond_law keys prev s r s' :
    length prev = length keys ->
    ct_DeleteCond keys prev s = (r, s') ->
    steps (cond_step (total delete_step)) (zip keys prev) r (be_view s) (be_view s');
  ct_DeleteLocationsCond_law keys ids prev s r s' :
    length ids = length keys -> length prev = length keys ->
    ct_DeleteLocationsCond keys ids prev s = (r, s') ->
    steps delete_locations_cond_step (zip (zip keys ids) prev) r (be_view s) (be_view s');
}.

(** The local store is such a tier. *)

#[global] Instance local_cache_ops : MetaCacheBaseBackend MetaLocalBackend := {
  ct_PutCond := PutCond;
  ct_PutIfAbsentCond := PutIfAbsentCond;
  ct_UpsertCond := UpsertCond;
  ct_DeleteCond := DeleteCond;
  ct_DeleteLocationsCond := DeleteLocationsCond;
}.

Lemma zip_drop_third_prev {A B C D} (la : list A) (lb : list B) (lc : list C) (ld : list D) :
  length lb = length la -> length lc = length la ->
  (fun x => ((x.1.1, x.1.2.1), x.2)) <$> zip (zip la (zip lb lc)) ld = zip (zip la lb) ld.
Proof.
  intros H1 H2. rewrite <-(zip_drop_third la lb lc) by done.
  generalize (zip la (zip lb lc)). intros l. revert ld.
  induction l as [|x l IH]; intros [|d ld]; simpl; [done..|]. by f_equal.
Qed.

Lemma when_ok_view {A} (f : A -> MetaLocalBackend -> ErrorCode * MetaLocalBackend) R x s ec s' :
  (forall a s ec s', f a s = (ec, s') -> R a (LocalBackend.view s) ec (LocalBackend.view s')) ->
  when_ok f x s = (ec, s') -> cond_step R x (LocalBackend.view s) ec (LocalBackend.view s').
Proof.
  intros Hf. destruct x as [a prev]. unfold when_ok, cond_step. simpl.
  case_bool_decide; [apply Hf|]. by intros [= <- <-].
Qed.

#[global] Program Instance local_cache_lawful : LawfulCache MetaLocalBackend := {}.
Next Obligation.
  intros keys locs props prev s r s' H1 H2 H3 H. rewrite <-(zip_drop_third_prev _ locs props) by done.
  apply steps_fmap. eapply (map_st_steps _ LocalBackend.view), H. intros [[k [l p]] e] t ec t' E.
  eapply (when_ok_view _ (fun kv => put_step (kv.1, kv.2.1))) in E; [exact E|].
  intros [k0 [l0 p0]] ??? E0. by apply CreateAndInsert_view in E0.
Qed.
Next Obligation.
  intros keys locs props prev s r s' H1 H2 H3 H. rewrite <-(zip_drop_third_prev _ locs props) by done.
  apply steps_fmap. eapply (map_st_steps _ LocalBackend.view), H. intros [[k [l p]] e] t ec t' E.
  eapply (when_ok_view _ (fun kv => put_if_absent_step (kv.1, kv.2.1))) in E; [exact E|].
  intros [k0 [l0 p0]] u c u' E0. unfold CreateAndInsertIfAbsent, InsertItemIfAbsent, new_item in E0.
  simpl in E0. unfold put_if_absent_step. simpl. rewrite LocalBackend.local_view_lookup.
  destruct (table_ u !! k0) eqn:Ek; simplify_eq/=; [left; eauto|].
  unfold DoInsertItemUnsafe in E0. simpl in E0. rewrite Ek in E0.
  case_match; simplify_eq/=; right; [by right|left]. split_and!; [done|done|].
  unfold LocalBackend.view. simpl. by rewrite fmap_insert.
Qed.
Next Obligation.
  intros keys locs props prev s r s' H1 H2 H3 H. rewrite <-(zip_drop_third_prev _ locs props) by done.
  apply steps_fmap. eapply (map_st_steps _ LocalBackend.view), H. intros [[k [l p]] e] t ec t' E.
  eapply (when_ok_view _ (fun kv => upsert_step (kv.1, kv.2.1))) in E; [exact E|].
  intros ???? E0. by apply UpsertForOneKey_view.
Qed.
Next Obligation.
  intros keys prev s r s' H1 H. eapply (map_st_steps _ LocalBackend.view), H. intros [k e] t ec t' E.
  eapply when_ok_view in E; [exact E|]. intros k0 u c u' E0. split; [by apply DeleteForOneKey_view|].
  unfold DeleteForOneKey in E0. destruct (Erase k0 u) as [[] ?]; simplify_eq; by intros [].
Qed.
Next Obligation.
  intros keys ids prev s r s' H1 H2 H. eapply (map_st_steps _ LocalBackend.view), H.
  intros [[k i] e] t ec t' E. unfold delete_locations_cond_step, cond_step. simpl in *.
  case_bool_decide as Hi; [by simplify_eq|]. case_bool_decide; [|by simplify_eq]. split.
  - apply delete_locations_view. by rewrite bool_decide_eq_false_2.
  - pose proof (DeleteLocationsForOneKey_view k i t) as Hv. rewrite E in Hv.
    destruct (table_ t !! k); simplify_eq/=; [destruct Hv as [-> _]|]; by intros [].
Qed.

(** ** The manager *)

Inductive RecoverState := kRecover | kRunning.

#[global] Instance RecoverState_eq_dec : EqDecision RecoverState.
Proof. solve_decision. Defined.

Section manager.
Context {PT CT : Type} `{PB : MetaStorageBackend PT} `{CB : MetaCacheBaseBackend CT}.

Record MetaStorageBackendManager := mkManager {
  persistent_backend_ : PT;
  cache_backend_ : option CT;
  recover_state_ : RecoverState;
  deleted_keys_ : gset KeyType;
}.

Definition set_persistent (p : PT) (m : MetaStorageBackendManager) :=
  mkManager p (cache_backend_ m) (recover_state_ m) (deleted_keys_ m).
Definition set_cache (c : CT) (m : MetaStorageBackendManager) :=
  mkManager (persistent_backend_ m) (Some c) (recover_state_ m) (deleted_keys_ m).

Definition wrong_size {A B} (l : list A) (keys : list B) : bool :=
  negb (length l =? length keys)%nat.

Definition all_codes {B} (keys : list B) (ec : ErrorCode) : list ErrorCode :=
  replicate (length keys) ec.

(** [CollectMissingKeys]: keys and positions reported [EC_NOENT]. *)
Fixpoint CollectMissingKeys_from (i : nat) (keys : list KeyType) (results : list ErrorCode)
    : list (KeyType * nat) :=
  match keys, results with
  | k :: keys, r :: results =>
      let rest := CollectMissingKeys_from (S i) keys results in
      if bool_decide (r = EC_NOENT) then (k, i) :: rest else rest
  | _, _ => []
  end.

Definition CollectMissingKeys (keys : list KeyType) (results : list ErrorCode) :=
  CollectMissingKeys_from 0 keys results.

(** The keys the existence probe does not confirm. *)
Definition unconfirmed (keys : list KeyType) (results : list ErrorCode) (exists_ : list bool)
    : list KeyType :=
  omap (fun '(k, (r, b)) =>
          if bool_decide (r <> EC_OK) || negb b then Some k else None)
    (zip keys (zip results exists_)).

(** [EnsureKeyInCache]: hydrates the missing keys, [false] when it cannot. *)
Definition EnsureKeyInCache (keys : list KeyType) (c : CT) (m : MetaStorageBackendManager)
    : bool * MetaStorageBackendManager :=
  match keys with
  | [] => (true, m)
  | _ =>
      let '((exists_results, exists_vec), c) := be_Exists keys c in
      let m := set_cache c m in
      if wrong_size exists_results keys || wrong_size exists_vec keys then (false, m)
      else
        let missing_keys := unconfirmed keys exists_results exists_vec in
        match missing_keys with
        | [] => (true, m)
        | _ =>
            let '((get_results, locations, properties), p) :=
              be_Get missing_keys (persistent_backend_ m) in
            let m := set_persistent p m in
            if wrong_size get_results missing_keys || wrong_size locations missing_keys
               || wrong_size properties missing_keys
            then (false, m)
            else
              let '(put_results, c) :=
                ct_PutIfAbsentCond missing_keys locations properties get_results c in
              let m := set_cache c m in
              if wrong_size put_results missing_keys then (false, m)
              else
                (forallb (fun '(g, pr) =>
                   bool_decide (g = EC_NOENT)
                   || (bool_decide (g = EC_OK)
                       && (bool_decide (pr = EC_OK) || bool_decide (pr = EC_EXIST))))
                   (zip get_results put_results), m)
        end
  end.

(** Source codes merged with the tombstones; [None] when a source read failed. *)
Fixpoint merge_tombstones (deleted : gset KeyType) (keys : list KeyType) (codes : list ErrorCode)
    : option (list ErrorCode) :=
  match keys, codes with
  | k :: keys, ec :: codes =>
      if bool_decide (ec <> EC_OK) && bool_decide (ec <> EC_NOENT) then None
      else
        let ec := if bool_decide (ec = EC_OK) && bool_decide (k ∈ deleted) then EC_NOENT else ec in
        cons ec <$> merge_tombstones deleted keys codes
  | _, _ => Some []
  end.

(** [BackfillKeysToCache]: the keys backfilled and [*out_success]. *)
Definition BackfillKeysToCache (keys : list KeyType) (locations : list CacheLocationMap)
    (properties : list PropertyMap) (get_error_codes : list ErrorCode) (c : CT)
    (m : MetaStorageBackendManager) : (Z * bool) * MetaStorageBackendManager :=
  if wrong_size get_error_codes keys || wrong_size locations keys || wrong_size properties keys
  then ((0%Z, false), m)
  else
    match merge_tombstones (deleted_keys_ m) keys get_error_codes with
    | None => ((0%Z, false), m)
    | Some merged =>
        if negb (existsb (fun ec => bool_decide (ec = EC_OK)) merged) then ((0%Z, true), m)
        else
          let '(put_results, c) := ct_PutIfAbsentCond keys locations properties merged c in
          let m := set_cache c m in
          if wrong_size put_results keys then ((0%Z, false), m)
          else
            let count := length (filter (fun x : ErrorCode * ErrorCode => x.1 = EC_OK /\ x.2 = EC_OK)
                                   (zip merged put_results)) in
            let write_complete :=
              forallb (fun '(me, pr) =>
                if bool_decide (me = EC_OK)
                then bool_decide (pr = EC_OK) || bool_decide (pr = EC_EXIST)
                else bool_decide (pr = me)) (zip merged put_results) in
            ((Z.of_nat count, write_complete), m)
    end.

(** ** Writes *)

(** [EnsureLocationsAndPropertiesResized] of the batch. *)
Definition resized {A} (keys : list KeyType) (d : A) (l : list A) : list A :=
  match l with [] => replicate (length keys) d | _ => l end.

Definition Put (keys : list KeyType) (locations : list CacheLocationMap)
    (properties : list PropertyMap) (m : MetaStorageBackendManager)
    : list ErrorCode * MetaStorageBackendManager :=
  let locations := resized keys ∅ locations in
  let properties := resized keys ∅ properties in
  let '(persistent_results, p) := be_Put keys locations properties (persistent_backend_ m) in
  let m := set_persistent p m in
  if wrong_size persistent_results keys then (all_codes keys EC_ERROR, m)
  else match cache_backend_ m with
       | None => (persistent_results, m)
       | Some c =>
           let '(results, c) := ct_PutCond keys locations properties persistent_results c in
           let m := set_cache c m in
           if wrong_size results keys then (all_codes keys EC_ERROR, m) else (results, m)
       end.

(** Hydration before a partial write during recovery. *)
Definition hydrate_if_recovering (keys : list KeyType) (m : MetaStorageBackendManager)
    : bool * MetaStorageBackendManager :=
  match cache_backend_ m with
  | Some c =>
      if bool_decide (recover_state_ m = kRecover) then EnsureKeyInCache keys c m else (true, m)
  | None => (true, m)
  end.

Definition Upsert (keys : list KeyType) (locations : list CacheLocationMap)
    (properties : list PropertyMap) (m : MetaStorageBackendManager)
    : list ErrorCode * MetaStorageBackendManager :=
  let locations := resized keys ∅ locations in
  let properties := resized keys ∅ properties in
  let '(ok, m) := hydrate_if_recovering keys m in
  if negb ok then (all_codes keys EC_ERROR, m)
  else
    let '(persistent_results, p) := be_Upsert keys locations properties (persistent_backend_ m) in
    let m := set_persistent p m in
    if wrong_size persistent_results keys then (all_codes keys EC_ERROR, m)
    else match cache_backend_ m with
         | None => (persistent_results, m)
         | Some c =>
             let '(results, c) := ct_UpsertCond keys locations properties persistent_results c in
             let m := set_cache c m in
             if wrong_size results keys then (all_codes keys EC_ERROR, m) else (results, m)
         end.

(** The keys a delete tombstones while the cache recovers. *)
Definition tombstones (keys : list KeyType) (results : list ErrorCode) : gset KeyType :=
  list_to_set (omap (fun '(k, r) =>
    if bool_decide (r = EC_OK) || bool_decide (r = EC_NOENT) then Some k else None)
    (zip keys results)).

(** [Delete] of whole keys. *)
Definition Delete (keys : list KeyType) (m : MetaStorageBackendManager)
    : list ErrorCode * MetaStorageBackendManager :=
  let '(persistent_results, p) := be_Delete keys (persistent_backend_ m) in
  let m := set_persistent p m in
  if wrong_size persistent_results keys then (all_codes keys EC_ERROR, m)
  else match cache_backend_ m with
       | None => (persistent_results, m)
       | Some c =>
           let dk := if bool_decide (recover_state_ m = kRecover)
                     then tombstones keys persistent_results ∪ deleted_keys_ m
                     else deleted_keys_ m in
           let '(results, c) := ct_DeleteCond keys persistent_results c in
           let m := mkManager (persistent_backend_ m) (Some c) (recover_state_ m) dk in
           if wrong_size results keys then (all_codes keys EC_ERROR, m) else (results, m)
       end.

(** The keys deleted from successfully, each once, in request order. *)
Fixpoint candidates (seen : gset KeyType) (keys : list KeyType) (results : list ErrorCode)
    : list KeyType :=
  match keys, results with
  | k :: keys, r :: results =>
      if bool_decide (r = EC_OK) && negb (bool_decide (k ∈ seen))
      then k :: candidates ({[k]} ∪ seen) keys results
      else candidates seen keys results
  | _, _ => []
  end.

(** [ExistsLocation] of the tier that serves reads. *)
Definition tier_ExistsLocation (keys : list KeyType) (m : MetaStorageBackendManager)
    : (list ErrorCode * list bool) * MetaStorageBackendManager :=
  match cache_backend_ m with
  | Some c => let '(r, c) := be_ExistsLocation keys c in (r, set_cache c m)
  | None => let '(r, p) := be_ExistsLocation keys (persistent_backend_ m) in (r, set_persistent p m)
  end.

Definition MaybeReclaimEmptyKeys (keys : list KeyType) (delete_results : list ErrorCode)
    (m : MetaStorageBackendManager) : nat * MetaStorageBackendManager :=
  if wrong_size delete_results keys then (0, m)
  else
    let candidate_keys := candidates ∅ keys delete_results in
    match candidate_keys with
    | [] => (0, m)
    | _ =>
        let '((exists_ecs, has_locations), m) := tier_ExistsLocation candidate_keys m in
        if wrong_size exists_ecs candidate_keys || wrong_size has_locations candidate_keys then (0, m)
        else
          let reclaimed_keys :=
            omap (fun '(k, (e, h)) =>
              if bool_decide (e = EC_OK) && negb h then Some k else None)
              (zip candidate_keys (zip exists_ecs has_locations)) in
          match reclaimed_keys with
          | [] => (0, m)
          | _ =>
              let '(whole_ecs, m) := Delete reclaimed_keys m in
              if wrong_size whole_ecs reclaimed_keys then (0, m)
              else (length (filter (fun ec => ec = EC_OK \/ ec = EC_NOENT) whole_ecs), m)
          end
    end.

(** [Delete] of locations: the codes and the number of keys reclaimed. *)
Definition DeleteLocations (keys : list KeyType) (location_ids : list (list LocationId))
    (m : MetaStorageBackendManager) : (list ErrorCode * nat) * MetaStorageBackendManager :=
  match keys with
  | [] => (([], 0), m)
  | _ =>
      if wrong_size location_ids keys then ((all_codes keys EC_BADARGS, 0), m)
      else
        let '(ok, m) := hydrate_if_recovering keys m in
        if negb ok then ((all_codes keys EC_ERROR, 0), m)
        else
          let '(persistent_results, p) := be_DeleteLocations keys location_ids (persistent_backend_ m) in
          let m := set_persistent p m in
          if wrong_size persistent_results keys then ((all_codes keys EC_ERROR, 0), m)
          else
            let '(results, m) :=
              match cache_backend_ m with
              | None => (persistent_results, m)
              | Some c =>
                  let '(results, c) := ct_DeleteLocationsCond keys location_ids persistent_results c in
                  (results, set_cache c m)
              end in
            if wrong_size results keys then ((all_codes keys EC_ERROR, 0), m)
            else
              let '(reclaimed, m) := MaybeReclaimEmptyKeys keys results m in
              ((results, reclaimed), m)
  end.

(** ** Reads *)

(** The shape shared by the per-key reads: the cache answers, and during
    recovery the keys it misses are read from the persistent tier. [clear]
    tells whether a malformed persistent answer also clears the outputs. *)
Definition tiered_read {X} (dflt : X) (clear : bool)
    (cget : list KeyType -> CT -> (list ErrorCode * list X) * CT)
    (pget : list KeyType -> PT -> (list ErrorCode * list X) * PT)
    (keys : list KeyType) (m : MetaStorageBackendManager)
    : (list ErrorCode * list X) * MetaStorageBackendManager :=
  match cache_backend_ m with
  | None =>
      let '(r, p) := pget keys (persistent_backend_ m) in (r, set_persistent p m)
  | Some c =>
      let '((results, out), c) := cget keys c in
      let m := set_cache c m in
      let '(results, out) :=
        if wrong_size results keys || wrong_size out keys
        then (all_codes keys EC_ERROR, replicate (length keys) dflt) else (results, out) in
      if bool_decide (recover_state_ m = kRunning) then ((results, out), m)
      else
        let missing := CollectMissingKeys keys results in
        match missing with
        | [] => ((results, out), m)
        | _ =>
            let '((presults, pout), p) := pget missing.*1 (persistent_backend_ m) in
            let m := set_persistent p m in
            if wrong_size presults missing || wrong_size pout missing
            then ((scatter missing.*2 (all_codes missing EC_ERROR) results,
                   if clear then scatter missing.*2 (replicate (length missing) dflt) out else out), m)
            else
              let ok := filter (fun x : nat * (ErrorCode * X) => x.2.1 = EC_OK)
                          (zip missing.*2 (zip presults pout)) in
              ((scatter missing.*2 presults results,
                scatter ok.*1 ((fun x => x.2.2) <$> ok) out), m)
        end
  end.

Definition GetLocations (keys : list KeyType) (m : MetaStorageBackendManager) :=
  tiered_read ∅ true be_GetLocations be_GetLocations keys m.

Definition GetLocationIds (keys : list KeyType) (m : MetaStorageBackendManager) :=
  tiered_read [] false be_GetLocationIds be_GetLocationIds keys m.

(** [RefreshCacheFromPersistent]. *)
Definition RefreshCacheFromPersistent (keys : list KeyType) (m : MetaStorageBackendManager)
    : list ErrorCode * MetaStorageBackendManager :=
  match keys, cache_backend_ m with
  | [], _ => ([], m)
  | _, None => (all_codes keys EC_OK, m)
  | _, Some c =>
      let '((presults, locations, properties), p) := be_Get keys (persistent_backend_ m) in
      let m := set_persistent p m in
      if wrong_size presults keys || wrong_size locations keys || wrong_size properties keys
      then (all_codes keys EC_ERROR, m)
      else
        let '(put_results, c) := ct_PutCond keys locations properties presults c in
        let m := set_cache c m in
        if wrong_size put_results keys then (all_codes keys EC_ERROR, m)
        else
          let results := zip_with (fun pr cr => if bool_decide (pr = EC_OK) then cr else pr)
                           presults put_results in
          let missing_keys := (CollectMissingKeys keys presults).*1 in
          match missing_keys with
          | [] => (results, m)
          | _ => let '(_, c) := be_Delete missing_keys c in (results, set_cache c m)
          end
  end.

End manager.

Arguments MetaStorageBackendManager : clear implicits.

(** ** Coherence of the tiers *)

(** A cached entry is the persistent one; a key may only be missing from the
    cache while it recovers. *)
Definition coherent_at (st : RecoverState) (P C : StoreView) (k : KeyType) : Prop :=
  C !! k = P !! k \/ (st = kRecover /\ C !! k = None).

(** What a successful operation may do to one key: nothing but hydrate it
    (E1), leave it present and equal in both tiers (E2), or remove it from
    both, tombstoned while the cache recovers (E3). *)
Definition key_effect (st : RecoverState) (P C : StoreView) (T : gset KeyType)
    (P' C' : StoreView) (T' : gset KeyType) (k : KeyType) : Prop :=
  (P' !! k = P !! k /\ (C' !! k = C !! k \/ C' !! k = P !! k) /\ (k ∈ T' -> k ∈ T)) \/
  (C' !! k = P' !! k /\ is_Some (P' !! k)) \/
  (P' !! k = None /\ C' !! k = None /\ (st = kRecover -> k ∈ T')).

Lemma key_effect_refl st P C T k : key_effect st P C T P C T k.
Proof. left. auto. Qed.

Lemma key_effect_trans st P C T P1 C1 T1 P2 C2 T2 k :
  T1 ⊆ T2 -> key_effect st P C T P1 C1 T1 k -> key_effect st P1 C1 T1 P2 C2 T2 k ->
  key_effect st P C T P2 C2 T2 k.
Proof.
  unfold key_effect. intros HT [(H1 & H2 & H3)|[(H1 & H2)|(H1 & H2 & H3)]]
    [(G1 & G2 & G3)|[(G1 & G2)|(G1 & G2 & G3)]]; auto.
  - left. split_and!; [congruence| |auto]. destruct G2 as [E|E]; rewrite E; auto.
  - right; left. rewrite G1. split; [|done]. destruct G2 as [E|E]; congruence.
  - right; right. split_and!; [congruence|destruct G2 as [E|E]; congruence|].
    intros Hst. specialize (H3 Hst). set_solver.
Qed.

Lemma key_effect_coherent st P C T P' C' T' k :
  coherent_at st P C k -> key_effect st P C T P' C' T' k -> coherent_at st P' C' k.
Proof.
  unfold coherent_at. intros Hc [(H1 & [H2|H2] & _)|[(H1 & _)|(H1 & H2 & _)]].
  - rewrite H1, H2. done.
  - left. congruence.
  - by left.
  - left. congruence.
Qed.

(** Running the persistent loop and then the mirrored one preserves an
    invariant that every position preserves. *)
Lemma steps_sim {A M} (R1 : A -> M -> ErrorCode -> M -> Prop)
    (R2 : A * ErrorCode -> M -> ErrorCode -> M -> Prop) (I : M -> M -> Prop)
    (good : ErrorCode -> ErrorCode -> Prop) l r1 r2 P P' C C' :
  (forall a P e1 P1 C e2 C1, (a, e1) ∈ zip l r1 -> I P C -> R1 a P e1 P1 ->
     R2 (a, e1) C e2 C1 -> good e1 e2 -> I P1 C1) ->
  steps R1 l r1 P P' -> steps R2 (zip l r1) r2 C C' ->
  (forall i e1 e2, r1 !! i = Some e1 -> r2 !! i = Some e2 -> good e1 e2) -> I P C -> I P' C'.
Proof.
  intros Hstep H1. revert r2 C. induction H1 as [m|a e1 l r1 m1 m2 m3 HR1 Hs IH]; intros r2 C H2 Hg HI.
  { inversion H2; subst. done. }
  simpl in H2. inversion H2 as [|? e2 ? r2' ? C1 ? HR2 Hs2]; subst.
  apply (IH ltac:(intros; eapply Hstep; eauto; by right) r2' C1); [done|intros i; apply (Hg (S i))|].
  eapply Hstep; eauto; [left|by apply (Hg 0)].
Qed.

(** The cache kept up: what the persistent tier accepted is reported as
    accepted. *)
Definition mirrored (persistent_results results : list ErrorCode) : Prop :=
  forall i e1 e2, persistent_results !! i = Some e1 -> results !! i = Some e2 -> e1 = EC_OK -> e2 = EC_OK.

Section coherence.
Variable st : RecoverState.
Implicit Types P C : StoreView.

(** Hydrating and backfilling: entries put if absent are persistent ones. *)
Lemma put_absent_sync P rows codes r C C' :
  steps (cond_step put_if_absent_step) (zip rows codes) r C C' ->
  (forall k, coherent_at kRecover P C k) ->
  (forall i kl, rows !! i = Some kl -> codes !! i = Some EC_OK ->
     is_Some (C !! kl.1) \/ P !! kl.1 = Some kl.2) ->
  (forall k, C' !! k = C !! k \/ C' !! k = P !! k) /\
  (forall k, is_Some (C !! k) -> is_Some (C' !! k)) /\
  (forall i kl e, rows !! i = Some kl -> codes !! i = Some EC_OK -> r !! i = Some e ->
     e = EC_OK \/ e = EC_EXIST -> is_Some (C' !! kl.1)).
Proof.
  revert codes r C. induction rows as [|[k ls] rows IH]; intros codes r C Hs Hco Hrows.
  { simpl in Hs. inversion Hs; subst. split_and!; auto. done. }
  destruct codes as [|g codes]; simpl in Hs.
  { inversion Hs; subst. split_and!; auto. done. }
  inversion Hs as [|? e ? r' ? C1 ? HR Hs']; subst.
  assert (Hone : (forall k', C1 !! k' = C !! k' \/ C1 !! k' = P !! k') /\
    (forall k', is_Some (C !! k') -> is_Some (C1 !! k')) /\
    (g = EC_OK -> e = EC_OK \/ e = EC_EXIST -> is_Some (C1 !! k))).
  { unfold cond_step in HR. simpl in HR. case_bool_decide as Hg; [|destruct HR as [_ ->]; split_and!; auto; done].
    destruct HR as [(-> & Hk & ->)|[(-> & Hk & ->)|([Hh1 Hh2] & Hx & ->)]]; simpl in *.
    - split_and!; auto.
    - subst g. destruct (Hrows 0 (k, ls) eq_refl eq_refl) as [[x Hx]|Hp]; simpl in *; [congruence|].
      split_and!.
      + intros k'. destruct (decide (k' = k)) as [->|]; [right; by rewrite lookup_insert_eq, Hp|].
        left. by rewrite lookup_insert_ne.
      + intros k' Hk'. destruct (decide (k' = k)) as [->|]; [by rewrite lookup_insert_eq|].
        by rewrite lookup_insert_ne.
      + intros. by rewrite lookup_insert_eq.
    - split_and!; auto. intros _ [?|?]; congruence. }
  destruct Hone as (H1 & H2 & H3).
  destruct (IH codes r' C1 Hs') as (G1 & G2 & G3).
  { intros k'. destruct (H1 k') as [E|E]; unfold coherent_at; rewrite E; [apply Hco|by left]. }
  { intros i kl Hi Hc. destruct (Hrows (S i) kl Hi Hc) as [?|?]; [left; auto|by right]. }
  split_and!.
  - intros k'. destruct (G1 k') as [->|]; auto.
  - auto.
  - intros [|i] kl e' Hi Hc He Hor; simplify_eq/=; [by apply G2, H3|by eapply G3].
Qed.

Definition synced (K : list KeyType) P C : Prop :=
  forall k, coherent_at st P C k /\ (k ∈ K -> C !! k = P !! k).

(** The three effects of a mirrored step on the keys of the batch. *)
Lemma put_sim (a : KeyType * CacheLocationMap) P e1 P1 C e2 C1 :
  put_step a P e1 P1 -> cond_step put_step (a, e1) C e2 C1 -> (e1 = EC_OK -> e2 = EC_OK) ->
  (P1 = <[a.1 := a.2]> P /\ C1 = <[a.1 := a.2]> C) \/ (P1 = P /\ C1 = C).
Proof.
  intros H1 H2 Hm. unfold cond_step in H2. simpl in H2. case_bool_decide as E.
  - subst. rewrite (Hm eq_refl) in H2. left. destruct H1 as [[_ ->]|[[] _]]; [|done]. destruct H2 as [[_ ->]|[[] _]]; done.
  - destruct H2 as [_ ->]. right. by destruct H1 as [[? _]|[_ ->]].
Qed.

Lemma upsert_sim (a : KeyType * CacheLocationMap) P e1 P1 C e2 C1 :
  upsert_step a P e1 P1 -> cond_step upsert_step (a, e1) C e2 C1 -> (e1 = EC_OK -> e2 = EC_OK) ->
  (P1 = <[a.1 := a.2 ∪ default ∅ (P !! a.1)]> P /\ C1 = <[a.1 := a.2 ∪ default ∅ (C !! a.1)]> C) \/ (P1 = P /\ C1 = C).
Proof.
  intros H1 H2 Hm. unfold cond_step in H2. simpl in H2. case_bool_decide as E.
  - subst. rewrite (Hm eq_refl) in H2. left. destruct H1 as [[_ ->]|[[] _]]; [|done]. destruct H2 as [[_ ->]|[[] _]]; done.
  - destruct H2 as [_ ->]. right. by destruct H1 as [[? _]|[_ ->]].
Qed.

Lemma delete_sim k P e1 P1 C e2 C1 :
  coherent_at st P C k ->
  delete_step k P e1 P1 -> cond_step (total delete_step) (k, e1) C e2 C1 ->
  ((e1 = EC_OK \/ e1 = EC_NOENT) /\ P1 = delete k P /\ C1 = delete k C) \/
  (hard e1 /\ P1 = P /\ C1 = C).
Proof.
  intros Hco H1 H2. unfold cond_step in H2. simpl in H2. case_bool_decide as E.
  - subst. left. split; [by left|]. destruct H1 as [(_ & _ & ->)|[(? & _)|[[] _]]]; [|done..].
    split; [done|]. destruct H2 as [[(_ & _ & ->)|[(_ & Hn & ->)|[? _]]] Ht]; [done| |done].
    symmetry. by apply delete_id.
  - destruct H2 as [-> ->]. destruct H1 as [(? & _)|[(-> & Hn & ->)|[? ->]]]; [done| |by right].
    left. split; [by right|]. rewrite (delete_id P k Hn). split; [done|]. symmetry. apply delete_id.
    destruct Hco as [->|[_ ->]]; done.
Qed.

(** The result of deleting locations from one entry. *)
Definition removed (a : KeyType * list LocationId) (m : StoreView) : StoreView :=
  match a.2, m !! a.1 with
  | _ :: _, Some ls => <[a.1 := remove_ids a.2 ls]> m
  | _, _ => m
  end.

Lemma removed_lookup a m k :
  removed a m !! k = (if bool_decide (k = a.1) then remove_ids a.2 <$> m !! k else m !! k).
Proof.
  unfold removed. destruct a as [k0 [|i ids]]; simpl; case_bool_decide as E; subst; try done.
  - by destruct (m !! k0).
  - destruct (m !! k0) eqn:Em; [by rewrite lookup_insert_eq|by rewrite Em].
  - destruct (m !! k0); [by rewrite lookup_insert_ne|done].
Qed.

Lemma delete_locations_sim a P e1 P1 C e2 C1 :
  C !! a.1 = P !! a.1 ->
  delete_locations_step a P e1 P1 -> delete_locations_cond_step (a, e1) C e2 C1 ->
  (P1 = removed a P /\ C1 = removed a C) \/ (P1 = P /\ C1 = C).
Proof.
  intros Hsy H1 H2. unfold delete_locations_cond_step, cond_step in H2. simpl in H2.
  unfold removed. destruct a as [k ids]. simpl in *. unfold delete_locations_step in *. simpl in *.
  destruct ids as [|i ids].
  - rewrite bool_decide_eq_true_2 in H2 by done. destruct H2 as [-> ->]. left. split; [|done].
    destruct H1 as [(_ & _ & ->)|[(? & _)|[(? & _)|(_ & ->)]]]; done.
  - rewrite bool_decide_eq_false_2 in H2 by done. rewrite Hsy in *.
    case_bool_decide as E.
    + subst. destruct H1 as [(? & _)|[(_ & ls & Hls & _ & ->)|[(_ & _ & ? & _)|([] & _)]]]; [done| |done..].
      unfold total, delete_locations_step in H2. simpl in H2. rewrite Hsy, Hls in *. left. split; [done|].
      by destruct H2 as [[(? & _)|[(_ & ls' & [= <-] & _ & ->)|[(_ & ? & _)|(? & _)]]] Ht].
    + destruct H2 as [-> ->].
      destruct H1 as [(? & _)|[(_ & ls & _ & ? & _)|[(_ & Hn & _ & ->)|(_ & ->)]]]; [done..| |by right].
      rewrite Hn. by left.
Qed.

End coherence.

(** ** Effects of the manager operations *)

Section effects.
Context {PT CT : Type} `{PB : !MetaStorageBackend PT} `{PL : !LawfulBackend PT}
  `{CB : !MetaCacheBaseBackend CT} `{CL : !LawfulCache CT}.
Local Abbreviation Manager := (MetaStorageBackendManager PT CT).
Implicit Types m : Manager.

Definition pview m : StoreView := be_view (persistent_backend_ m).

Definition coherent m : Prop :=
  forall c, cache_backend_ m = Some c ->
  forall k, coherent_at (recover_state_ m) (pview m) (be_view c) k.

(** Successful operations, seen from the outside. *)
Definition effect m m' : Prop :=
  recover_state_ m' = recover_state_ m /\ deleted_keys_ m ⊆ deleted_keys_ m' /\
  match cache_backend_ m, cache_backend_ m' with
  | Some c, Some c' =>
      forall k, key_effect (recover_state_ m) (pview m) (be_view c) (deleted_keys_ m)
                  (pview m') (be_view c') (deleted_keys_ m') k
  | None, None => True
  | _, _ => False
  end.

Lemma effect_refl m : effect m m.
Proof. split_and!; [done|done|]. destruct (cache_backend_ m); [|done]. intros. apply key_effect_refl. Qed.

Lemma effect_trans m m1 m2 : effect m m1 -> effect m1 m2 -> effect m m2.
Proof.
  intros (H1 & H2 & H3) (G1 & G2 & G3). split_and!; [congruence|set_solver|].
  destruct (cache_backend_ m), (cache_backend_ m1), (cache_backend_ m2); try done.
  intros k. rewrite H1 in G3. by eapply key_effect_trans.
Qed.

Lemma effect_coherent m m' : effect m m' -> coherent m -> coherent m'.
Proof.
  intros (H1 & H2 & H3) Hco c' Hc' k. rewrite Hc' in H3.
  destruct (cache_backend_ m) as [c|] eqn:E; [|done]. rewrite H1.
  eapply key_effect_coherent; [by apply Hco|apply H3].
Qed.

Lemma elem_of_unconfirmed k keys rs bs :
  k ∈ unconfirmed keys rs bs <->
  exists i r b, keys !! i = Some k /\ rs !! i = Some r /\ bs !! i = Some b /\ (r <> EC_OK \/ b = false).
Proof.
  unfold unconfirmed. rewrite list_elem_of_omap. split.
  - intros ([k' [r b]] & Hin & Hk). apply list_elem_of_lookup in Hin as (i & Hi).
    apply lookup_zip_with_Some in Hi as (k1 & x & Heq & Hk' & Hz). simplify_eq.
    apply lookup_zip_with_Some in Hz as (r1 & b1 & Heq & Hr & Hb). simplify_eq.
    exists i, r1, b1. case_bool_decide; [simplify_eq/=; auto 6|]. destruct b1; simplify_eq/=; auto 6.
  - intros (i & r & b & Hk & Hr & Hb & Hor). exists (k, (r, b)). split.
    + apply list_elem_of_lookup. exists i. apply lookup_zip_with_Some. eexists _, _.
      split_and!; [done|done|]. apply lookup_zip_with_Some. eauto.
    + case_bool_decide; [done|]. destruct Hor as [?| ->]; done.
Qed.

Lemma ensure_effect keys c m ok m' :
  coherent m -> cache_backend_ m = Some c -> recover_state_ m = kRecover ->
  EnsureKeyInCache keys c m = (ok, m') ->
  pview m' = pview m /\ recover_state_ m' = kRecover /\ deleted_keys_ m' = deleted_keys_ m /\
  exists c', cache_backend_ m' = Some c' /\
    (forall k, be_view c' !! k = be_view c !! k \/ be_view c' !! k = pview m !! k) /\
    (ok = true -> forall k, k ∈ keys -> be_view c' !! k = pview m !! k).
Proof.
  intros Hco Hc Hst. specialize (Hco c Hc). rewrite Hst in Hco. unfold EnsureKeyInCache.
  destruct keys as [|k0 keys0]; [intros [= <- <-]; split_and!; try done; eexists; split_and!; [done|by left|set_solver]|].
  set (keys := k0 :: keys0).
  destruct (be_Exists keys c) as [[er eb] c1] eqn:Ee.
  destruct (be_Exists_law _ _ _ _ _ Ee) as [Hv1 Hex].
  destruct (Forall3i_length _ _ _ _ Hex) as [Hl1 Hl2].
  unfold wrong_size at 1 2. rewrite Hl1, Hl2, !Nat.eqb_refl. cbn [negb orb].
  assert (Hfound : forall k, k ∈ keys -> k ∉ unconfirmed keys er eb -> be_view c !! k = pview m !! k).
  { intros k Hk Hni. apply list_elem_of_lookup in Hk as (i & Hi).
    destruct (Forall3i_lookup _ _ _ _ _ _ Hex Hi) as (r & b & Hr & Hb & Hok).
    destruct Hok as [[-> ->]|[? _]].
    - case_bool_decide as Hs; [by destruct (Hco k) as [?|[_ Hn]]; [|rewrite Hn in Hs; destruct Hs]|].
      destruct Hni. apply elem_of_unconfirmed. exists i, EC_OK, false. auto.
    - destruct Hni. apply elem_of_unconfirmed. exists i, r, b. auto. }
  destruct (unconfirmed keys er eb) as [|k1 miss] eqn:Em.
  { intros [= <- <-]. split_and!; try done. exists c1. rewrite Hv1. split_and!; [done|by left|].
    intros _ k Hk. apply Hfound; [done|set_solver]. }
  remember (k1 :: miss) as missing eqn:Hmiss. clear Hmiss k1 miss.
  cbn [persistent_backend_ set_cache].
  destruct (be_Get missing (persistent_backend_ m)) as [[[gr locs] props] p] eqn:Eg.
  destruct (be_Get_law _ _ _ _ _ _ Eg) as (Hvp & Hlp & Hrd).
  destruct (Forall3i_length _ _ _ _ Hrd) as [Hl3 Hl4].
  unfold wrong_size at 1 2 3. rewrite Hl3, Hl4, Hlp, !Nat.eqb_refl. cbn [negb orb].
  destruct (ct_PutIfAbsentCond missing locs props gr c1) as [pr c2] eqn:Ep.
  pose proof (ct_PutIfAbsentCond_law _ _ _ _ _ _ _ Hl4 Hlp Hl3 Ep) as Hps. rewrite Hv1 in Hps.
  pose proof (steps_length _ _ _ _ _ Hps) as Hl5. rewrite !length_zip in Hl5.
  unfold wrong_size. replace (length pr) with (length missing) by lia. rewrite Nat.eqb_refl. cbn [negb].
  destruct (put_absent_sync (pview m) _ _ _ _ _ Hps Hco) as (G1 & G2 & G3).
  { intros i [k ls] Hi Hg. right. simpl.
    apply lookup_zip_with_Some in Hi as (k' & ls' & Heq & Hk & Hls). simplify_eq.
    destruct (Forall3i_lookup _ _ _ _ _ _ Hrd Hk) as (g & ls'' & Hg' & Hls' & Hok). simplify_eq.
    by destruct Hok as [(_ & x & Hx & ->)|[[? _]|[? _]]]. }
  intros [= <- <-]. unfold pview in *. simpl. split_and!; [done|done|done|]. exists c2.
  split_and!; [done|done|]. intros Hall k Hk.
  destruct (decide (k ∈ missing)) as [Hin|Hni].
  - apply list_elem_of_lookup in Hin as (i & Hi).
    destruct (Forall3i_lookup _ _ _ _ _ _ Hrd Hi) as (g & ls & Hg & Hls & Hok).
    destruct (lookup_lt_is_Some_2 pr i) as [e He].
    { apply lookup_lt_Some in Hi. lia. }
    apply Is_true_eq_left, forallb_True in Hall. rewrite Forall_forall in Hall.
    specialize (Hall (g, e) ltac:(apply list_elem_of_lookup; exists i; apply lookup_zip_with_Some; eauto)).
    simpl in Hall. destruct Hok as [(-> & x & Hx & <-)|[[-> Hn]|[Ha Hb]]].
    + assert (Hs : is_Some (be_view c2 !! k)).
      { eapply (G3 i (k, x)); [apply lookup_zip_with_Some; eauto|done|done|].
        simpl in Hall. apply orb_True in Hall as [E|E]; apply bool_decide_spec in E; auto. }
      destruct (G1 k) as [E|E]; [|done]. rewrite E in *. destruct (Hco k) as [?|[_ Hcn]]; [done|].
      rewrite Hcn in Hs. by destruct Hs.
    + destruct (G1 k) as [E|E]; [|done]. rewrite E. destruct (Hco k) as [?|[_ Hcn]]; [done|].
      by rewrite Hcn, Hn.
    + rewrite (bool_decide_eq_false_2 (g = EC_NOENT)), (bool_decide_eq_false_2 (g = EC_OK)) in Hall; done.
  - destruct (G1 k) as [E|E]; [|done]. rewrite E. by apply Hfound.
Qed.

Lemma hydrate_effect keys m ok m' :
  coherent m -> hydrate_if_recovering keys m = (ok, m') ->
  effect m m' /\ pview m' = pview m /\
  (forall c', cache_backend_ m' = Some c' -> ok = true ->
     forall k, k ∈ keys -> be_view c' !! k = pview m !! k).
Proof.
  intros Hco. unfold hydrate_if_recovering. destruct (cache_backend_ m) as [c|] eqn:Ec.
  2: { intros [= <- <-]. split_and!; [apply effect_refl|done|congruence]. }
  case_bool_decide as Hst.
  - intros Hrun. destruct (ensure_effect _ _ _ _ _ Hco Ec Hst Hrun) as (Hp & Hr & Hd & c' & Hc' & H1' & H2').
    split_and!; [|done|intros c'' E; by simplify_eq].
    split_and!; [congruence|by rewrite Hd|]. rewrite Ec, Hc'. intros k. left. rewrite Hp, Hd. auto.
  - intros [= <- <-]. split_and!; [apply effect_refl|done|]. intros c' E _ k _. rewrite Ec in E. simplify_eq.
    destruct (Hco c' Ec k) as [?|[? _]]; done.
Qed.

Lemma length_resized {A} keys (d : A) l :
  l = [] \/ length l = length keys -> length (resized keys d l) = length keys.
Proof. destruct l; intros Hl; [apply length_replicate|by destruct Hl]. Qed.

Lemma wrong_size_eq {A B} (l : list A) (keys : list B) : length l = length keys -> wrong_size l keys = false.
Proof. intros Hl. unfold wrong_size. by rewrite Hl, Nat.eqb_refl. Qed.

(** What the persistent tier answers a put, and an upsert once its keys are
    hydrated. *)
Definition Put_codes (keys : list KeyType) (locs : list CacheLocationMap) (props : list PropertyMap) m : list ErrorCode :=
  (be_Put keys (resized keys ∅ locs) (resized keys ∅ props) (persistent_backend_ m)).1.

Definition Upsert_codes (keys : list KeyType) (locs : list CacheLocationMap) (props : list PropertyMap) m : list ErrorCode :=
  let '(ok, m) := hydrate_if_recovering keys m in
  if (ok : bool) then (be_Upsert keys (resized keys ∅ locs) (resized keys ∅ props) (persistent_backend_ m)).1 else [].

Lemma Put_effect keys locs props m r m' :
  locs = [] \/ length locs = length keys -> props = [] \/ length props = length keys ->
  Put keys locs props m = (r, m') -> mirrored (Put_codes keys locs props m) r -> effect m m'.
Proof.
  intros Hl Hp Hrun Hok. apply (length_resized _ ∅) in Hl, Hp. unfold Put in Hrun. unfold Put_codes in Hok.
  destruct (be_Put _ _ _ _) as [r1 p] eqn:E1. pose proof (be_Put_law _ _ _ _ _ _ Hl Hp E1) as Hs1.
  pose proof (steps_length _ _ _ _ _ Hs1) as Hlr. rewrite length_zip, Hl, Nat.min_id in Hlr.
  rewrite (wrong_size_eq r1 keys) in Hrun by lia. simpl in Hrun.
  destruct (cache_backend_ m) as [c|] eqn:Ec.
  2: { simplify_eq. split_and!; [done|done|]. by rewrite Ec; simpl; rewrite Ec. }
  destruct (ct_PutCond _ _ _ _ _) as [r2 c'] eqn:E2.
  pose proof (ct_PutCond_law _ _ _ _ _ _ _ Hl Hp Hlr E2) as Hs2.
  pose proof (steps_length _ _ _ _ _ Hs2) as Hlr2. rewrite !length_zip in Hlr2.
  rewrite (wrong_size_eq r2 keys) in Hrun by lia. simplify_eq.
  split_and!; [done|done|]. rewrite Ec. simpl. unfold pview at 2. simpl.
  eapply (steps_sim _ _ (fun P C => forall k, key_effect (recover_state_ m) (pview m) (be_view c)
    (deleted_keys_ m) P C (deleted_keys_ m) k)); [|exact Hs1|exact Hs2|exact Hok|apply key_effect_refl].
  intros a P e1 P1 C e2 C1 _ HI HR1 HR2 Hm.
  destruct (put_sim _ _ _ _ _ _ _ HR1 HR2 Hm) as [[-> ->]|[-> ->]]; [|exact HI]. intros k.
  destruct (decide (k = a.1)) as [->|Hne].
  - right; left. by rewrite !lookup_insert_eq.
  - specialize (HI k). unfold key_effect in *. by rewrite !lookup_insert_ne by done.
Qed.

Lemma Upsert_effect keys locs props m r m' :
  coherent m ->
  locs = [] \/ length locs = length keys -> props = [] \/ length props = length keys ->
  Upsert keys locs props m = (r, m') -> mirrored (Upsert_codes keys locs props m) r -> effect m m'.
Proof.
  intros Hco Hl Hp Hrun Hok. apply (length_resized _ ∅) in Hl, Hp. unfold Upsert in Hrun. unfold Upsert_codes in Hok.
  destruct (hydrate_if_recovering keys m) as [ok m1] eqn:Eh.
  destruct (hydrate_effect _ _ _ _ Hco Eh) as (Heff & Hpv & Hsync).
  destruct ok; simpl in Hrun; [|simplify_eq; exact Heff].
  eapply effect_trans; [exact Heff|]. clear Eh.
  destruct (be_Upsert _ _ _ _) as [r1 p] eqn:E1. pose proof (be_Upsert_law _ _ _ _ _ _ Hl Hp E1) as Hs1.
  pose proof (steps_length _ _ _ _ _ Hs1) as Hlr. rewrite length_zip, Hl, Nat.min_id in Hlr.
  rewrite (wrong_size_eq r1 keys) in Hrun by lia. simpl in Hrun.
  destruct (cache_backend_ m1) as [c|] eqn:Ec.
  2: { simplify_eq. split_and!; [done|done|]. by rewrite Ec; simpl; rewrite Ec. }
  destruct (ct_UpsertCond _ _ _ _ _) as [r2 c'] eqn:E2.
  pose proof (ct_UpsertCond_law _ _ _ _ _ _ _ Hl Hp Hlr E2) as Hs2.
  pose proof (steps_length _ _ _ _ _ Hs2) as Hlr2. rewrite !length_zip in Hlr2.
  rewrite (wrong_size_eq r2 keys) in Hrun by lia. simplify_eq.
  split_and!; [done|done|]. rewrite Ec. simpl. unfold pview at 2. simpl. intros k.
  eapply (steps_sim _ _ (fun P C => forall k, key_effect (recover_state_ m1) (pview m1) (be_view c)
    (deleted_keys_ m1) P C (deleted_keys_ m1) k /\ (k ∈ keys -> C !! k = P !! k)));
    [|exact Hs1|exact Hs2|exact Hok|].
  - intros a P e1 P1 C e2 C1 Hin HI HR1 HR2 Hm.
    destruct (upsert_sim _ _ _ _ _ _ _ HR1 HR2 Hm) as [[-> ->]|[-> ->]]; [|exact HI].
    apply elem_of_zip_l in Hin. destruct a as [ka la]. apply elem_of_zip_l in Hin. simpl.
    pose proof (proj2 (HI ka) Hin) as Hsy. rewrite Hsy. intros k'.
    destruct (decide (k' = ka)) as [->|Hne].
    + rewrite !lookup_insert_eq. split; [|done]. right; left. by rewrite !lookup_insert_eq.
    + specialize (HI k'). unfold key_effect in *. by rewrite !lookup_insert_ne by done.
  - intros k'. split; [apply key_effect_refl|]. intros Hk'.
    etrans; [by apply Hsync|]. by rewrite <-Hpv.
Qed.

Lemma delete_steps_gone keys r P P' :
  steps delete_step keys r P P' ->
  (forall k, P' !! k = P !! k \/ P' !! k = None) /\
  (forall k e, (k, e) ∈ zip keys r -> e = EC_OK \/ e = EC_NOENT -> P' !! k = None).
Proof.
  induction 1 as [|k0 e l r m1 m2 m3 HR Hs [IH1 IH2]].
  { split; [by left|]. intros k e Hin. by apply not_elem_of_nil in Hin. }
  assert (Hone : (forall k, m2 !! k = m1 !! k \/ m2 !! k = None) /\
    (e = EC_OK \/ e = EC_NOENT -> m2 !! k0 = None)).
  { destruct HR as [(-> & _ & ->)|[(-> & Hn & ->)|[[Ha Hb] ->]]].
    - split; [|intros; apply lookup_delete_eq]. intros k.
      destruct (decide (k = k0)) as [->|]; [right; apply lookup_delete_eq|left; by rewrite lookup_delete_ne].
    - auto.
    - split; [auto|]. intros [?|?]; congruence. }
  destruct Hone as [Ho1 Ho2]. split.
  - intros k. destruct (IH1 k) as [->|]; auto.
  - intros k e'. simpl. rewrite elem_of_cons. intros [[= -> ->]|Hin] He; [|eauto].
    destruct (IH1 k0) as [->|]; auto.
Qed.

Lemma elem_of_tombstones k keys r :
  k ∈ tombstones keys r <-> exists e, (k, e) ∈ zip keys r /\ (e = EC_OK \/ e = EC_NOENT).
Proof.
  unfold tombstones. rewrite elem_of_list_to_set, list_elem_of_omap. split.
  - intros ([k' e] & Hin & He). exists e. do 2 case_bool_decide; simplify_eq/=; auto.
  - intros (e & Hin & He). exists (k, e). split; [done|].
    destruct He as [->| ->]; by rewrite ?bool_decide_eq_true_2 by done.
Qed.

Lemma Delete_effect keys m r m' :
  coherent m -> Delete keys m = (r, m') -> effect m m'.
Proof.
  intros Hco Hrun. unfold Delete in Hrun.
  destruct (be_Delete _ _) as [r1 p] eqn:E1. pose proof (be_Delete_law _ _ _ _ E1) as Hs1.
  pose proof (steps_length _ _ _ _ _ Hs1) as Hlr.
  rewrite (wrong_size_eq r1 keys) in Hrun by lia. simpl in Hrun.
  destruct (cache_backend_ m) as [c|] eqn:Ec.
  2: { simplify_eq. split_and!; [done|done|]. by rewrite Ec; simpl; rewrite Ec. }
  destruct (ct_DeleteCond _ _ _) as [r2 c'] eqn:E2.
  pose proof (ct_DeleteCond_law _ _ _ _ _ Hlr E2) as Hs2.
  pose proof (steps_length _ _ _ _ _ Hs2) as Hlr2. rewrite !length_zip in Hlr2.
  rewrite (wrong_size_eq r2 keys) in Hrun by lia. simplify_eq.
  set (T' := if bool_decide _ then _ else _). fold (pview m) in Hs1.
  assert (HT : deleted_keys_ m ⊆ T') by (unfold T'; case_bool_decide; set_solver).
  destruct (delete_steps_gone _ _ _ _ Hs1) as [_ Hgone].
  assert (Hall : forall k, coherent_at (recover_state_ m) (be_view p) (be_view c') k /\
    ((be_view p !! k = pview m !! k /\ be_view c' !! k = be_view c !! k) \/
     (be_view p !! k = None /\ be_view c' !! k = None /\ k ∈ tombstones keys r1))).
  { eapply (steps_sim _ _ (fun P C => forall k, coherent_at (recover_state_ m) P C k /\
      ((P !! k = pview m !! k /\ C !! k = be_view c !! k) \/
       (P !! k = None /\ C !! k = None /\ k ∈ tombstones keys r1))) (fun _ _ => True));
      [|exact Hs1|exact Hs2|done
       |intros k; split; [by apply Hco|by left]].
    intros a P e1 P1 C e2 C1 Hin HI HR1 HR2 _.
    destruct (delete_sim (recover_state_ m) _ _ _ _ _ _ _ (proj1 (HI a)) HR1 HR2)
      as [(He1 & -> & ->)|(_ & -> & ->)]; [|exact HI].
    intros k. destruct (decide (k = a)) as [->|Hne].
    - unfold coherent_at. rewrite !lookup_delete_eq. split; [by left|]. right. split_and!; [done|done|].
      apply elem_of_tombstones. eauto.
    - specialize (HI k). unfold coherent_at in *. by rewrite !lookup_delete_ne by done. }
  split_and!; [done|done|]. rewrite Ec. simpl. unfold pview at 2. simpl. fold T'. intros k.
  destruct (Hall k) as [Hcok [[Hp Hc]|(Hp & Hc & Ht)]].
  - destruct (decide (k ∈ T' /\ k ∉ deleted_keys_ m)) as [[Hin Hni]|Hno].
    + right; right. assert (be_view p !! k = None) as Hpn.
      { unfold T' in Hin. case_bool_decide; [|done]. apply elem_of_union in Hin as [Hin|?]; [|done].
        apply elem_of_tombstones in Hin as (e & ? & ?). eauto. }
      split_and!; [done| |done]. destruct Hcok as [->|[_ ->]]; done.
    + left. split_and!; [done|by left|]. intros Hin. destruct (decide (k ∈ deleted_keys_ m)); [done|].
      by destruct Hno.
  - right; right. split_and!; [done|done|]. intros Hst. unfold T'. rewrite bool_decide_eq_true_2 by done.
    set_solver.
Qed.

Lemma tier_exists_effect keys m r m' :
  tier_ExistsLocation keys m = (r, m') ->
  effect m m' /\ pview m' = pview m /\ recover_state_ m' = recover_state_ m /\
  Forall3i (read_ok (fun ls b => b = bool_decide (ls <> ∅))
    (match cache_backend_ m with Some c => be_view c | None => pview m end)) keys r.1 r.2.
Proof.
  unfold tier_ExistsLocation. destruct (cache_backend_ m) as [c|] eqn:Ec.
  - destruct (be_ExistsLocation keys c) as [[rs bs] c'] eqn:E. intros [= <- <-].
    destruct (be_ExistsLocation_law _ _ _ _ _ E) as [Hv Hrd]. split_and!; [|done|done|done].
    split_and!; [done|done|]. rewrite Ec. simpl. intros k. left. rewrite Hv. auto.
  - destruct (be_ExistsLocation keys (persistent_backend_ m)) as [[rs bs] p] eqn:E. intros [= <- <-].
    destruct (be_ExistsLocation_law _ _ _ _ _ E) as [Hv Hrd]. split_and!; [|done|done|done].
    split_and!; [done|done|]. rewrite Ec. simpl. by rewrite Ec.
Qed.

Lemma Reclaim_effect keys r m n m' :
  coherent m -> MaybeReclaimEmptyKeys keys r m = (n, m') -> effect m m'.
Proof.
  intros Hco Hrun. unfold MaybeReclaimEmptyKeys in Hrun.
  destruct (wrong_size r keys); [by simplify_eq; apply effect_refl|].
  destruct (candidates ∅ keys r) as [|k0 cs] eqn:Ec; [by simplify_eq; apply effect_refl|].
  remember (k0 :: cs) as cands eqn:Hc. clear Hc k0 cs Ec.
  destruct (tier_ExistsLocation cands m) as [[es hs] m1] eqn:Et.
  destruct (tier_exists_effect _ _ _ _ Et) as (Heff & _).
  destruct (_ || _); [by simplify_eq|].
  destruct (omap _ _) as [|k1 rk]; [by simplify_eq|].
  destruct (Delete (k1 :: rk) m1) as [ws m2] eqn:Ed.
  assert (effect m1 m2) by (eapply Delete_effect; [by eapply effect_coherent|done]).
  eapply effect_trans; [exact Heff|]. destruct (wrong_size ws _); by simplify_eq.
Qed.

Lemma DeleteLocations_effect keys ids m r n m' :
  coherent m -> DeleteLocations keys ids m = ((r, n), m') -> effect m m'.
Proof.
  intros Hco Hrun. unfold DeleteLocations in Hrun.
  destruct keys as [|k0 ks]; [simplify_eq; apply effect_refl|].
  remember (k0 :: ks) as keys eqn:Hk. clear Hk k0 ks.
  destruct (wrong_size ids keys) eqn:Ew; [simplify_eq; apply effect_refl|].
  unfold wrong_size in Ew. apply negb_false_iff, Nat.eqb_eq in Ew.
  destruct (hydrate_if_recovering keys m) as [ok m1] eqn:Eh.
  destruct (hydrate_effect _ _ _ _ Hco Eh) as (Heff & Hpv & Hsync).
  destruct ok; simpl in Hrun; [|simplify_eq; exact Heff].
  eapply effect_trans; [exact Heff|]. assert (Hco1 : coherent m1) by (by eapply effect_coherent).
  clear Eh Heff Hco. destruct (be_DeleteLocations _ _ _) as [r1 p] eqn:E1.
  pose proof (be_DeleteLocations_law _ _ _ _ _ Ew E1) as Hs1.
  pose proof (steps_length _ _ _ _ _ Hs1) as Hlr. rewrite length_zip, Ew, Nat.min_id in Hlr.
  rewrite (wrong_size_eq r1 keys) in Hrun by lia. simpl in Hrun.
  assert (Hmid : forall r2 m2, match cache_backend_ m1 with
      | None => (r1, set_persistent p m1)
      | Some c => let '(results, c) := ct_DeleteLocationsCond keys ids r1 c in
                  (results, set_cache c (set_persistent p m1))
      end = (r2, m2) -> effect m1 m2).
  { intros r2 m2. destruct (cache_backend_ m1) as [c|] eqn:Ec.
    2: { intros [= <- <-]. split_and!; [done|done|]. rewrite Ec. simpl. by rewrite Ec. }
    destruct (ct_DeleteLocationsCond _ _ _ _) as [rc c'] eqn:E2. intros [= <- <-].
    pose proof (ct_DeleteLocationsCond_law _ _ _ _ _ _ Ew Hlr E2) as Hs2.
    split_and!; [done|done|]. rewrite Ec. simpl. unfold pview at 2. simpl. intros k.
    eapply (steps_sim _ _ (fun P C => forall k, key_effect (recover_state_ m1) (pview m1) (be_view c)
      (deleted_keys_ m1) P C (deleted_keys_ m1) k /\ (k ∈ keys -> C !! k = P !! k)) (fun _ _ => True));
      [|exact Hs1|exact Hs2|done|].
    - intros a P e1 P1 C e2 C1 Hin HI HR1 HR2 _.
      apply elem_of_zip_l in Hin. destruct a as [ka ia]. apply elem_of_zip_l in Hin.
      pose proof (proj2 (HI ka) Hin) as Hsy.
      destruct (delete_locations_sim (ka, ia) _ _ _ _ _ _ Hsy HR1 HR2) as [[-> ->]|[-> ->]]; [|exact HI].
      intros k'. destruct (HI k') as [He Hs]. unfold key_effect in *. rewrite !removed_lookup. simpl.
      case_bool_decide as Eq; [subst k'|done]. rewrite Hsy in *. split; [|done].
      destruct (P !! ka) eqn:EP; simpl; [right; left; eauto|].
      destruct He as [He|[[_ [? ?]]|He]]; [left|done|by right; right]; exact He.
    - intros k'. split; [apply key_effect_refl|]. intros Hk'.
      etrans; [by apply Hsync|]. by rewrite <-Hpv. }
  destruct (match cache_backend_ m1 with None => _ | Some c => _ end) as [r2 m2] eqn:Em.
  specialize (Hmid r2 m2 eq_refl). eapply effect_trans; [exact Hmid|].
  destruct (wrong_size r2 keys); [simplify_eq; apply effect_refl|].
  destruct (MaybeReclaimEmptyKeys keys r2 m2) as [n' m3] eqn:Er. simplify_eq.
  eapply Reclaim_effect; [by eapply effect_coherent|done].
Qed.

Lemma CollectMissingKeys_spec keys : forall i0 rs k p,
  (k, p) ∈ CollectMissingKeys_from i0 keys rs <->
  exists j, p = i0 + j /\ keys !! j = Some k /\ rs !! j = Some EC_NOENT.
Proof.
  induction keys as [|k0 keys IH]; intros i0 rs k p; simpl.
  { split; [intros Hin; by apply not_elem_of_nil in Hin|intros (j & _ & ? & _); done]. }
  destruct rs as [|r rs].
  { split; [intros Hin; by apply not_elem_of_nil in Hin|intros (j & _ & _ & ?); done]. }
  assert (Hrest : (k, p) ∈ CollectMissingKeys_from (S i0) keys rs <->
    exists j, p = i0 + S j /\ keys !! j = Some k /\ rs !! j = Some EC_NOENT).
  { rewrite IH. split; intros (j & -> & Hj); exists j; (split; [lia|done]). }
  case_bool_decide as Hr; rewrite ?elem_of_cons, Hrest; split.
  - intros [[= -> ->]|(j & -> & Hj)]; [exists 0; subst; split; [lia|done]|by exists (S j)].
  - intros ([|j] & -> & Hk & Hn); simplify_eq/=; [left; f_equal; lia|right; eauto].
  - intros (j & -> & Hj). by exists (S j).
  - intros ([|j] & -> & Hk & Hn); simplify_eq/=. eauto.
Qed.

Lemma CollectMissingKeys_NoDup keys : forall i0 rs, NoDup (CollectMissingKeys_from i0 keys rs).*2.
Proof.
  induction keys as [|k0 keys IH]; intros i0 [|r rs]; simpl; try constructor.
  case_bool_decide; simpl; [|apply IH]. constructor; [|apply IH].
  intros ([k p] & Hp & Hin)%list_elem_of_fmap. apply CollectMissingKeys_spec in Hin as (j & -> & _).
  simpl in Hp. lia.
Qed.

(** The value a position has after the answers of the persistent tier have
    been scattered into the outputs. *)
Lemma scatter_ok {X} (missing : list (KeyType * nat)) (rs : list ErrorCode) (xs out : list X) q k j x :
  NoDup missing.*2 -> length rs = length missing -> length xs = length missing ->
  missing !! q = Some (k, j) -> rs !! q = Some EC_OK -> xs !! q = Some x -> j < length out ->
  let ok := filter (fun y : nat * (ErrorCode * X) => y.2.1 = EC_OK) (zip missing.*2 (zip rs xs)) in
  scatter ok.*1 ((fun y => y.2.2) <$> ok) out !! j = Some x.
Proof.
  intros Hnd Hl1 Hl2 Hq Hr Hx Hj ok.
  assert (Hin : (j, (EC_OK, x)) ∈ ok).
  { apply list_elem_of_filter. split; [done|]. apply list_elem_of_lookup. exists q.
    apply lookup_zip_with_Some. eexists _, _. split; [done|]. split; [by rewrite list_lookup_fmap, Hq|].
    apply lookup_zip_with_Some. eauto. }
  apply list_elem_of_lookup in Hin as (q' & Hq').
  eapply (lookup_scatter _ _ _ q'); [|by rewrite list_lookup_fmap, Hq'|by rewrite list_lookup_fmap, Hq'|done].
  eapply sublist_NoDup; [|apply fmap_sublist, sublist_filter].
  rewrite fst_zip; [done|]. rewrite length_zip, length_fmap. lia.
Qed.

Lemma scatter_ok_other {X} (missing : list (KeyType * nat)) (rs : list ErrorCode) (xs out : list X) j :
  j ∉ missing.*2 ->
  let ok := filter (fun y : nat * (ErrorCode * X) => y.2.1 = EC_OK) (zip missing.*2 (zip rs xs)) in
  scatter ok.*1 ((fun y => y.2.2) <$> ok) out !! j = out !! j.
Proof.
  intros Hni ok. apply lookup_scatter_ne. intros ([j' y] & -> & Hin)%list_elem_of_fmap.
  apply list_elem_of_filter in Hin as [_ Hin]. apply elem_of_zip_l in Hin. done.
Qed.

(** The per-key reads of the manager are reads of the persistent tier. *)
Section tiered.
Context {X : Type} (dflt : X) (clear : bool) (proj : CacheLocationMap -> X -> Prop).
Variable cget : list KeyType -> CT -> (list ErrorCode * list X) * CT.
Variable pget : list KeyType -> PT -> (list ErrorCode * list X) * PT.
Hypothesis cget_law : forall keys c r out c', cget keys c = ((r, out), c') ->
  be_view c' = be_view c /\ Forall3i (read_ok proj (be_view c)) keys r out.
Hypothesis pget_law : forall keys p r out p', pget keys p = ((r, out), p') ->
  be_view p' = be_view p /\ Forall3i (read_ok proj (be_view p)) keys r out.

Lemma tiered_read_spec keys m r out m' :
  coherent m -> tiered_read dflt clear cget pget keys m = ((r, out), m') ->
  effect m m' /\ pview m' = pview m /\ Forall3i (read_ok proj (pview m)) keys r out.
Proof.
  intros Hco. unfold tiered_read. destruct (cache_backend_ m) as [c|] eqn:Ec.
  2: { destruct (pget keys (persistent_backend_ m)) as [[r' out'] p] eqn:E. intros [= <- <- <-].
       destruct (pget_law _ _ _ _ _ E) as [Hv Hrd]. split_and!; [|done|done].
       split_and!; [done|done|]. rewrite Ec. simpl. by rewrite Ec. }
  destruct (cget keys c) as [[r0 out0] c'] eqn:E. destruct (cget_law _ _ _ _ _ E) as [Hv Hrd].
  destruct (Forall3i_length _ _ _ _ Hrd) as [Hl1 Hl2].
  rewrite !wrong_size_eq by done. cbn [orb]. cbn [recover_state_ set_cache].
  assert (Hce : effect m (set_cache c' m)).
  { split_and!; [done|done|]. rewrite Ec. simpl. intros k. left. rewrite Hv. auto. }
  specialize (Hco c Ec). case_bool_decide as Hst.
  { intros [= <- <- <-]. split_and!; [done|done|]. eapply Forall3i_impl; [|exact Hrd].
    intros k e x. unfold read_ok. destruct (Hco k) as [->|[? _]]; [done|congruence]. }
  assert (Hkeep : forall k e x, read_ok proj (be_view c) k e x -> e <> EC_NOENT ->
    read_ok proj (pview m) k e x).
  { intros k e x [(-> & ls & Hls & Hp)|[[? _]|?]] Hne; [left|done|by right; right].
    split; [done|]. exists ls. split; [|done]. destruct (Hco k) as [<-|[_ Hn]]; [done|congruence]. }
  assert (Hsame : forall k e x j, keys !! j = Some k -> r0 !! j = Some e -> out0 !! j = Some x ->
    e <> EC_NOENT -> read_ok proj (pview m) k e x).
  { intros k e x j Hk He Hx Hne. destruct (Forall3i_lookup _ _ _ _ _ _ Hrd Hk) as (e' & x' & ? & ? & ?).
    simplify_eq. by apply Hkeep. }
  set (missing := CollectMissingKeys keys r0).
  assert (Hmiss : forall j k, keys !! j = Some k -> r0 !! j = Some EC_NOENT -> (k, j) ∈ missing).
  { intros j k Hk Hr. apply CollectMissingKeys_spec. eauto. }
  assert (Hother : forall j e, r0 !! j = Some e -> e <> EC_NOENT -> j ∉ missing.*2).
  { intros j e He Hne ([k p] & -> & Hin)%list_elem_of_fmap.
    apply CollectMissingKeys_spec in Hin as (j' & -> & _ & Hn). simpl in He. congruence. }
  assert (Hnd : NoDup missing.*2) by apply CollectMissingKeys_NoDup.
  destruct missing as [|m0 ms] eqn:Em.
  { intros [= <- <- <-]. split_and!; [done|done|]. apply Forall3i_of_lookup; [done|done|].
    intros j k e x Hk He Hx. eapply Hsame; eauto. intros ->. specialize (Hmiss j k Hk He).
    by apply not_elem_of_nil in Hmiss. }
  remember (m0 :: ms) as miss eqn:Hmiss'. clear Hmiss' Em missing m0 ms.
  cbn [persistent_backend_ set_cache].
  destruct (pget miss.*1 (persistent_backend_ m)) as [[pr pout] p] eqn:Ep.
  destruct (pget_law _ _ _ _ _ Ep) as [Hvp Hrdp]. destruct (Forall3i_length _ _ _ _ Hrdp) as [Hl3 Hl4].
  rewrite length_fmap in Hl3, Hl4. rewrite !wrong_size_eq by done. cbn [orb].
  intros [= <- <- <-].
  split_and!.
  { eapply effect_trans; [exact Hce|]. split_and!; [done|done|]. simpl. intros k. left.
    unfold pview. simpl. rewrite Hvp. auto. }
  { unfold pview. simpl. exact Hvp. }
  apply Forall3i_of_lookup; [by rewrite length_scatter|by rewrite length_scatter|].
  intros j k e x Hk He Hx.
  destruct (Forall3i_lookup _ _ _ _ _ _ Hrd Hk) as (e0 & x0 & He0 & Hx0 & Hok0).
  destruct (decide (e0 = EC_NOENT)) as [->|Hne].
  - pose proof (Hmiss j k Hk He0) as Hin. apply list_elem_of_lookup in Hin as (q & Hq).
    destruct (Forall3i_lookup _ _ _ _ q k Hrdp) as (pe & px & Hpe & Hpx & Hpok).
    { by rewrite list_lookup_fmap, Hq. }
    assert (e = pe) as ->.
    { rewrite (lookup_scatter _ _ _ q j pe Hnd) in He; [congruence| |done|].
      - by rewrite list_lookup_fmap, Hq.
      - by eapply lookup_lt_Some. }
    destruct (decide (pe = EC_OK)) as [->|Hpne].
    + rewrite (scatter_ok miss pr pout out0 q k j px) in Hx; try done; [by simplify_eq|].
      by eapply lookup_lt_Some.
    + destruct Hpok as [[? _]|[Hn|Hh]]; [done|by right; left|by right; right].
  - pose proof (Hother j e0 He0 Hne) as Hni.
    rewrite lookup_scatter_ne in He by done. rewrite scatter_ok_other in Hx by done.
    simplify_eq. by apply Hkeep.
Qed.

End tiered.

End effects.
