(* ===== verification/BackendReads.v ===== *)
(** * BackendReads: the targeted and derived reads of the two-tier store

    The reads of [meta/meta_storage_backend_manager.cc] that ask for given
    locations of the keys, for existence, and for the flattened location
    values. While the cache recovers, an absent location must not be confused
    with an absent key: [GetLocations] by id probes the cache before it falls
    back to the persistent tier. *)

From stdpp Require Import base gmap sets list strings.
From Stdlib Require Import ZArith Lia.
From S2P Require Import Prelude MetaTypes MetaBackend DummyBackend LocalBackend BackendManager.

(** The codes and values of the requested locations of one key. *)
Abbreviation KeyAnswer := (list ErrorCode * list CacheLocationConstPtr)%type.

Section reads.
Context {PT CT : Type} `{PB : !MetaStorageBackend PT} `{CB : !MetaCacheBaseBackend CT}.
Local Abbreviation Manager := (MetaStorageBackendManager PT CT).

Definition failed_answer (ids : list LocationId) (ec : ErrorCode) : KeyAnswer :=
  (replicate (length ids) ec, replicate (length ids) None).

Definition well_shaped (ids : list LocationId) (a : KeyAnswer) : bool :=
  negb (wrong_size a.1 ids) && negb (wrong_size a.2 ids).

(** Per-key shape check: a malformed answer becomes an error. *)
Definition checked (ids : list LocationId) (a : KeyAnswer) : KeyAnswer :=
  if well_shaped ids a then a else failed_answer ids EC_ERROR.

(** Some location was requested and all were reported absent. *)
Definition all_noent (r : list ErrorCode) : bool :=
  negb (bool_decide (r = [])) && forallb (fun ec => bool_decide (ec = EC_NOENT)) r.

(** Position, key, requested ids and answer so far. *)
Definition answer_rows (keys : list KeyType) (ids : list (list LocationId)) (ans : list KeyAnswer)
    : list (nat * ((KeyType * list LocationId) * KeyAnswer)) :=
  imap pair (zip (zip keys ids) ans).

(** The ambiguous keys, those whose probe failed, and those the cache lacks. *)
Definition ambiguous_rows keys ids ans :=
  filter (fun x : nat * ((KeyType * list LocationId) * KeyAnswer) => all_noent x.2.2.1 = true)
    (answer_rows keys ids ans).

Definition probe_failed (probed : list ((nat * ((KeyType * list LocationId) * KeyAnswer)) * (ErrorCode * bool))) :=
  filter (fun y => y.2.1 <> EC_OK) probed.

Definition probe_missing (probed : list ((nat * ((KeyType * list LocationId) * KeyAnswer)) * (ErrorCode * bool))) :=
  (filter (fun y => y.2.1 = EC_OK /\ y.2.2 = false) probed).*1.

(** Answers after the probe of the ambiguous keys. *)
Definition apply_probe (probed : list ((nat * ((KeyType * list LocationId) * KeyAnswer)) * (ErrorCode * bool)))
    (ans : list KeyAnswer) : list KeyAnswer :=
  scatter ((fun y => y.1.1) <$> probe_failed probed)
    ((fun y => failed_answer y.1.2.1.2 y.2.1) <$> probe_failed probed) ans.

(** The part of [GetLocations] that runs while the cache recovers. *)
Definition fall_back (keys : list KeyType) (ids : list (list LocationId)) (ans : list KeyAnswer)
    (c : CT) (m : Manager) : list KeyAnswer * Manager :=
  let ambiguous := ambiguous_rows keys ids ans in
  match ambiguous with
  | [] => (ans, m)
  | _ =>
      let '((exists_results, cache_key_exists), c) := be_Exists ((fun x => x.2.1.1) <$> ambiguous) c in
      let m := set_cache c m in
      if wrong_size exists_results ambiguous || wrong_size cache_key_exists ambiguous
      then (scatter ambiguous.*1 ((fun x => failed_answer x.2.1.2 EC_ERROR) <$> ambiguous) ans, m)
      else
        let probed := zip ambiguous (zip exists_results cache_key_exists) in
        let ans := apply_probe probed ans in
        let missing := probe_missing probed in
        match missing with
        | [] => (ans, m)
        | _ =>
            let '((presults, plocations), p) :=
              be_GetLocationsById ((fun x => x.2.1.1) <$> missing) ((fun x => x.2.1.2) <$> missing)
                (persistent_backend_ m) in
            let m := set_persistent p m in
            if wrong_size presults missing || wrong_size plocations missing
            then (scatter missing.*1
                    ((fun x => (replicate (length x.2.1.2) EC_ERROR, x.2.2.2)) <$> missing) ans, m)
            else (scatter missing.*1
                    (zip_with (fun x a => checked x.2.1.2 a) missing (zip presults plocations)) ans, m)
        end
  end.

(** [GetLocations] of given locations. *)
Definition GetLocationsById (keys : list KeyType) (ids : list (list LocationId)) (m : Manager)
    : (list (list ErrorCode) * list (list CacheLocationConstPtr)) * Manager :=
  if wrong_size ids keys
  then ((replicate (length keys) [EC_BADARGS], replicate (length keys) []), m)
  else match cache_backend_ m with
       | None =>
           let '(r, p) := be_GetLocationsById keys ids (persistent_backend_ m) in (r, set_persistent p m)
       | Some c =>
           let '((results, outs), c) := be_GetLocationsById keys ids c in
           let m := set_cache c m in
           if wrong_size results keys || wrong_size outs keys
           then (((fun i => replicate (length i) EC_ERROR) <$> ids,
                  (fun i => replicate (length i) None) <$> ids), m)
           else
             let ans := zip_with checked ids (zip results outs) in
             let '(ans, m) :=
               if bool_decide (recover_state_ m = kRunning) then (ans, m)
               else fall_back keys ids ans c m in
             ((ans.*1, ans.*2), m)
       end.

(** [GetLocationValues] and [GetLocationValuesCompact]. *)
Definition GetLocationValues (keys : list KeyType) (m : Manager) :=
  tiered_read [] false MetaBackend.GetLocationValues MetaBackend.GetLocationValues keys m.

Definition GetLocationValuesCompact (keys : list KeyType) (m : Manager)
    : (list ErrorCode * CompactLocationsPerKey) * Manager :=
  match cache_backend_ m with
  | None =>
      let '(r, p) := MetaBackend.GetLocationValuesCompact keys (persistent_backend_ m) in
      (r, set_persistent p m)
  | Some _ =>
      let '((results, locations), m) := GetLocationValues keys m in
      let value_count := Nat.min (length keys) (length locations) in
      let rows := imap (fun i _ => if (i <? value_count)%nat then default [] (locations !! i) else []) keys in
      ((results, compact_build rows), m)
  end.

(** The keys the cache does not hold, as [Exists] collects them. *)
Definition collect_absent (keys : list KeyType) (results : list ErrorCode) (bs : list bool)
    : list (nat * (KeyType * (ErrorCode * bool))) :=
  filter (fun x => (x.2.2.1 = EC_OK /\ x.2.2.2 = false) \/ x.2.2.1 = EC_NOENT)
    (imap pair (zip keys (zip results bs))).

Definition Exists (keys : list KeyType) (m : Manager) : (list ErrorCode * list bool) * Manager :=
  match cache_backend_ m with
  | None => let '(r, p) := be_Exists keys (persistent_backend_ m) in (r, set_persistent p m)
  | Some c =>
      let '((results, bs), c) := be_Exists keys c in
      let m := set_cache c m in
      let '(results, bs) :=
        if wrong_size results keys || wrong_size bs keys
        then (all_codes keys EC_ERROR, replicate (length keys) false) else (results, bs) in
      if bool_decide (recover_state_ m = kRunning) then ((results, bs), m)
      else
        let missing := collect_absent keys results bs in
        match missing with
        | [] => ((results, bs), m)
        | _ =>
            let '((presults, pbs), p) := be_Exists ((fun x => x.2.1) <$> missing) (persistent_backend_ m) in
            let m := set_persistent p m in
            if wrong_size presults missing || wrong_size pbs missing
            then ((scatter missing.*1 (all_codes missing EC_ERROR) results,
                   scatter missing.*1 (replicate (length missing) false) bs), m)
            else ((scatter missing.*1 presults results, scatter missing.*1 pbs bs), m)
        end
  end.

End reads.

(** ** The targeted reads are truthful *)

Section truthful.
Context {PT CT : Type} `{PB : !MetaStorageBackend PT} `{PL : !LawfulBackend PT}
  `{CB : !MetaCacheBaseBackend CT} `{CL : !LawfulCache CT}.
Local Abbreviation Manager := (MetaStorageBackendManager PT CT).
Implicit Types m : Manager.

(** The answer for one key agrees with the view, unless the store reported a
    failure for one of its locations. *)
Definition answer_ok (V : StoreView) (ki : KeyType * list LocationId) (r : list ErrorCode)
    (o : list CacheLocationConstPtr) : Prop :=
  Forall (fun ec => ~ hard ec) r -> Forall3i (loc_read_ok V ki.1) ki.2 r o.

Lemma failed_answer_ok V k ids ec :
  hard ec -> answer_ok V (k, ids) (failed_answer ids ec).1 (failed_answer ids ec).2.
Proof.
  intros Hh. unfold answer_ok, failed_answer. simpl. destruct ids as [|i ids]; simpl; [constructor|].
  intros Hf. by apply Forall_cons in Hf as [? _].
Qed.

Lemma checked_shaped V k ids r o :
  Forall3i (loc_read_ok V k) ids r o -> checked ids (r, o) = (r, o).
Proof.
  intros H. destruct (Forall3i_length _ _ _ _ H) as [H1 H2].
  unfold checked, well_shaped. simpl. by rewrite !wrong_size_eq by done.
Qed.

(** An answer that does not report every location absent tells whether the
    cache holds the key. *)
Lemma answer_transfer st (P C : StoreView) k ids r o :
  coherent_at st P C k -> Forall3i (loc_read_ok C k) ids r o ->
  all_noent r = false \/ is_Some (C !! k) -> answer_ok P (k, ids) r o.
Proof.
  intros Hco H Hor Hh. simpl. destruct ids as [|i ids]; [by inversion H; subst; constructor|].
  assert (HC : is_Some (C !! k)).
  { destruct Hor as [Ha|?]; [|done]. unfold all_noent in Ha.
    destruct (Forall3i_length _ _ _ _ H) as [Hl _].
    rewrite bool_decide_eq_false_2 in Ha by (by destruct r). simpl in Ha.
    apply not_true_iff_false in Ha. rewrite forallb_forall in Ha.
    assert (Hex : List.Exists (fun ec => ec <> EC_NOENT) r).
    { apply not_Forall_Exists; [solve_decision|]. rewrite Forall_forall. intros Hall. apply Ha.
      intros ec Hin. apply bool_decide_eq_true_2, Hall, list_elem_of_In, Hin. }
    apply Exists_exists in Hex as (ec & Hin & Hne). apply list_elem_of_lookup in Hin as (q & Hq).
    destruct (lookup_lt_is_Some_2 (i :: ids) q) as [i' Hi']; [apply lookup_lt_Some in Hq; lia|].
    destruct (Forall3i_lookup _ _ _ _ _ _ H Hi') as (ec' & p & Hec & _ & Hok). simplify_eq.
    destruct Hok as [(_ & ls & Hls & _)|[[? _]|Hhd]]; [eauto|done|].
    rewrite Forall_forall in Hh. eapply Hh in Hhd; [done|]. apply list_elem_of_lookup. eauto. }
  destruct Hco as [Hco|[_ Hn]]; [|by rewrite Hn in HC; destruct HC].
  eapply Forall3i_impl; [|exact H]. intros i' ec p. unfold loc_read_ok. by rewrite Hco.
Qed.

Lemma lookup_answer_rows keys ids ans p j k i a :
  answer_rows keys ids ans !! p = Some (j, ((k, i), a)) <->
  p = j /\ keys !! j = Some k /\ ids !! j = Some i /\ ans !! j = Some a.
Proof.
  unfold answer_rows. rewrite list_lookup_imap_Some. split.
  - intros (x & Hx & [= -> <-]). apply lookup_zip_with_Some in Hx as (y & a' & Heq & Hy & Ha).
    apply lookup_zip_with_Some in Hy as (k' & i' & -> & Hk & Hi). by simplify_eq.
  - intros (-> & Hk & Hi & Ha). eexists. split; [|done]. apply lookup_zip_with_Some.
    eexists _, _. split_and!; [done| |done]. apply lookup_zip_with_Some. eauto.
Qed.

Lemma elem_of_answer_rows keys ids ans j k i a :
  (j, ((k, i), a)) ∈ answer_rows keys ids ans ->
  keys !! j = Some k /\ ids !! j = Some i /\ ans !! j = Some a.
Proof. intros (p & Hp)%list_elem_of_lookup. by apply lookup_answer_rows in Hp as (_ & ?). Qed.

(** The invariants of the fall-back, over the answers of a coherent cache. *)
Section fall_back.
Variables (P C : StoreView) (keys : list KeyType) (ids : list (list LocationId)) (ans : list KeyAnswer).
Hypothesis Hcoh : forall k, coherent_at kRecover P C k.
Hypothesis Hans : forall j k i a, keys !! j = Some k -> ids !! j = Some i -> ans !! j = Some a ->
  Forall3i (loc_read_ok C k) i a.1 a.2.

Definition position_ok (j : nat) (a : KeyAnswer) : Prop :=
  forall k i, keys !! j = Some k -> ids !! j = Some i -> answer_ok P (k, i) a.1 a.2.

Lemma ambiguous_row x : x ∈ ambiguous_rows keys ids ans ->
  keys !! x.1 = Some x.2.1.1 /\ ids !! x.1 = Some x.2.1.2 /\ ans !! x.1 = Some x.2.2.
Proof.
  destruct x as [j [[k i] a]]. intros [_ Hin]%list_elem_of_filter. by apply elem_of_answer_rows.
Qed.

Lemma unambiguous_ok j a :
  ans !! j = Some a -> j ∉ (ambiguous_rows keys ids ans).*1 -> position_ok j a.
Proof.
  intros Ha Hni k i Hk Hi. eapply answer_transfer; [apply Hcoh|by eapply Hans|]. left.
  apply not_true_iff_false. intros Hall. apply Hni, list_elem_of_fmap. exists (j, ((k, i), a)).
  split; [done|]. apply list_elem_of_filter. split; [done|]. apply list_elem_of_lookup. exists j.
  by apply lookup_answer_rows.
Qed.

(** The rows with the outcome of the probe. *)
Definition probed_ok (probed : list ((nat * ((KeyType * list LocationId) * KeyAnswer)) * (ErrorCode * bool))) : Prop :=
  (forall x e b, (x, (e, b)) ∈ probed ->
     x ∈ ambiguous_rows keys ids ans /\ exists_ok C x.2.1.1 e b) /\
  (forall x, x ∈ ambiguous_rows keys ids ans -> exists e b, (x, (e, b)) ∈ probed).

Lemma probed_zip er eb :
  Forall3i (exists_ok C) ((fun x => x.2.1.1) <$> ambiguous_rows keys ids ans) er eb ->
  probed_ok (zip (ambiguous_rows keys ids ans) (zip er eb)).
Proof.
  intros Hex. destruct (Forall3i_length _ _ _ _ Hex) as [Hl1 Hl2]. rewrite length_fmap in Hl1, Hl2. split.
  - intros x e b (q & Hq)%list_elem_of_lookup.
    apply lookup_zip_with_Some in Hq as (x' & eb' & Heq & Hx & Heb). simplify_eq.
    apply lookup_zip_with_Some in Heb as (e' & b' & Heq & He & Hb). simplify_eq.
    split; [apply list_elem_of_lookup; eauto|].
    destruct (Forall3i_lookup _ _ _ _ q x'.2.1.1 Hex) as (e & b & ? & ? & ?).
    { by rewrite list_lookup_fmap, Hx. }
    by simplify_eq.
  - intros x (q & Hq)%list_elem_of_lookup.
    destruct (lookup_lt_is_Some_2 er q) as [e He]; [apply lookup_lt_Some in Hq; lia|].
    destruct (lookup_lt_is_Some_2 eb q) as [b Hb]; [apply lookup_lt_Some in Hq; lia|].
    exists e, b. apply list_elem_of_lookup. exists q. apply lookup_zip_with_Some. eexists _, _.
    split_and!; [done|done|]. apply lookup_zip_with_Some. eauto.
Qed.

Lemma apply_probe_ok probed j a :
  probed_ok probed -> apply_probe probed ans !! j = Some a ->
  j ∈ (probe_missing probed).*1 \/ position_ok j a.
Proof.
  intros [Hp1 Hp2]. revert j a. apply scatter_pointwise; [by rewrite !length_fmap| |].
  - intros j a Ha Hni. destruct (decide (j ∈ (ambiguous_rows keys ids ans).*1)) as [Hin|?];
      [|right; by apply unambiguous_ok].
    apply list_elem_of_fmap in Hin as (x & -> & Hx). destruct (ambiguous_row x Hx) as (Hk & Hi & Ha').
    destruct (Hp2 x Hx) as (e & b & Hin). destruct (Hp1 _ _ _ Hin) as [_ Hok].
    destruct (decide (e = EC_OK)) as [->|Hne].
    2: { destruct Hni. apply list_elem_of_fmap. exists (x, (e, b)). split; [done|].
         by apply list_elem_of_filter. }
    destruct Hok as [[_ Hbv]|[? _]]; [|done]. destruct b.
    + right. intros k i Hk' Hi'. eapply answer_transfer; [apply Hcoh|by eapply Hans|].
      right. rewrite Hk in Hk'. simplify_eq. symmetry in Hbv. by apply bool_decide_eq_true in Hbv.
    + left. apply list_elem_of_fmap. exists x. split; [done|]. apply list_elem_of_fmap.
      exists (x, (EC_OK, false)). split; [done|]. by apply list_elem_of_filter.
  - intros q j v Hj Hv. right. intros k i Hk Hi.
    rewrite list_lookup_fmap in Hj. rewrite list_lookup_fmap in Hv. destruct (probe_failed probed !! q) as [y|] eqn:Ey; simplify_eq/=.
    assert (Hy : y ∈ probe_failed probed) by (apply list_elem_of_lookup; eauto).
    apply list_elem_of_filter in Hy as [Hne Hy]. destruct y as [x [e b]].
    destruct (Hp1 _ _ _ Hy) as [Hx Hok]. destruct (ambiguous_row x Hx) as (Hk' & Hi' & _).
    simpl in *. rewrite Hi in Hi'. injection Hi' as ->. apply failed_answer_ok. destruct Hok as [[? _]|?]; done.
Qed.

(** Answers of the persistent tier for the missing keys are final. *)
Lemma persistent_answers_ok (missing : list (nat * ((KeyType * list LocationId) * KeyAnswer))) ans1 pr po :
  (forall x, x ∈ missing -> x ∈ ambiguous_rows keys ids ans) ->
  (forall j a, ans1 !! j = Some a -> j ∈ missing.*1 \/ position_ok j a) ->
  Forall3i (fun ki r p => Forall3i (loc_read_ok P ki.1) ki.2 r p)
    (zip ((fun x => x.2.1.1) <$> missing) ((fun x => x.2.1.2) <$> missing)) pr po ->
  forall j a, scatter missing.*1 (zip_with (fun x a => checked x.2.1.2 a) missing (zip pr po)) ans1 !! j = Some a ->
  position_ok j a.
Proof.
  intros Hmiss H1 Hrd. destruct (Forall3i_length _ _ _ _ Hrd) as [Hl3 Hl4].
  rewrite length_zip, !length_fmap in Hl3, Hl4. apply scatter_pointwise.
  - rewrite length_zip_with, length_zip, length_fmap. lia.
  - intros j a Ha Hni. by destruct (H1 j a Ha).
  - intros q j v Hj Hv k i Hk Hi. rewrite list_lookup_fmap in Hj.
    destruct (missing !! q) as [x|] eqn:Ex; simplify_eq/=.
    apply lookup_zip_with_Some in Hv as (x' & a & -> & Hx' & Ha).
    apply lookup_zip_with_Some in Ha as (r & o & -> & Hr & Ho). rewrite Ex in Hx'. injection Hx' as <-.
    destruct (ambiguous_row x) as (Hk' & Hi' & _); [apply Hmiss, list_elem_of_lookup; eauto|].
    destruct (Forall3i_lookup _ _ _ _ q (x.2.1.1, x.2.1.2) Hrd) as (r' & o' & Hr' & Ho' & Hok).
    { apply lookup_zip_with_Some. eexists _, _. split; [done|]. by rewrite !list_lookup_fmap, Ex. }
    rewrite Hr in Hr'. rewrite Ho in Ho'. rewrite Hk in Hk'. rewrite Hi in Hi'. simplify_eq/=.
    intros _. by rewrite (checked_shaped _ _ _ _ _ Hok).
Qed.

End fall_back.

(** What [fall_back] returns at every position. *)
Lemma fall_back_spec keys ids ans c m ans' m' :
  coherent m -> cache_backend_ m = Some c -> recover_state_ m = kRecover ->
  (forall j k i a, keys !! j = Some k -> ids !! j = Some i -> ans !! j = Some a ->
     Forall3i (loc_read_ok (be_view c) k) i a.1 a.2) ->
  fall_back keys ids ans c m = (ans', m') ->
  effect m m' /\ pview m' = pview m /\ length ans' = length ans /\
  (forall j a, ans' !! j = Some a -> position_ok (pview m) keys ids j a).
Proof.
  intros Hco Hc Hst Hans Hrun. pose proof (Hco c Hc) as Hcoh. rewrite Hst in Hcoh.
  unfold fall_back in Hrun. remember (ambiguous_rows keys ids ans) as ab eqn:Hab.
  destruct ab as [|x0 xs].
  { simplify_eq. split_and!; [apply effect_refl|done|done|]. intros j a Ha.
    eapply unambiguous_ok; eauto. rewrite <-Hab. set_solver. }
  rewrite Hab in Hrun. clear Hab x0 xs.
  destruct (be_Exists _ c) as [[er eb] c1] eqn:Ee. destruct (be_Exists_law _ _ _ _ _ Ee) as [Hv1 Hex].
  destruct (Forall3i_length _ _ _ _ Hex) as [Hl1 Hl2]. rewrite length_fmap in Hl1, Hl2.
  rewrite !wrong_size_eq in Hrun by done. cbn [orb] in Hrun.
  apply probed_zip in Hex. remember (zip (ambiguous_rows keys ids ans) (zip er eb)) as probed eqn:Hpd. clear Hpd.
  pose proof (apply_probe_ok _ _ _ _ _ Hcoh Hans probed) as H1.
  assert (Hlen : length (apply_probe probed ans) = length ans) by apply length_scatter.
  assert (Heff1 : effect m (set_cache c1 m)).
  { split_and!; [done|done|]. rewrite Hc. simpl. intros k. left. rewrite Hv1. auto. }
  remember (probe_missing probed) as miss eqn:Hm. destruct miss as [|x1 xs1].
  { simplify_eq. split_and!; [done|done|done|]. intros j a Ha.
    destruct (H1 j a Hex Ha) as [Hin|Hok]; [by apply not_elem_of_nil in Hin|done]. }
  rewrite Hm in Hrun, H1. clear Hm x1 xs1.
  destruct (be_GetLocationsById _ _ _) as [[pr po] p] eqn:Ep.
  apply be_GetLocationsById_law in Ep as [Hvp Hrd]; [|by rewrite !length_fmap].
  destruct (Forall3i_length _ _ _ _ Hrd) as [Hl3 Hl4]. rewrite length_zip, !length_fmap in Hl3, Hl4.
  rewrite Nat.min_id in Hl3, Hl4. rewrite !wrong_size_eq in Hrun by done. cbn [orb] in Hrun.
  injection Hrun as <- <-. split_and!.
  - eapply effect_trans; [exact Heff1|]. split_and!; [done|done|]. simpl. intros k. left.
    unfold pview. simpl. rewrite Hvp. auto.
  - unfold pview. simpl. exact Hvp.
  - by rewrite length_scatter.
  - eapply persistent_answers_ok; [|intros; by apply H1|exact Hrd].
    intros x ([x' [e b]] & -> & [_ Hin]%list_elem_of_filter)%list_elem_of_fmap. by apply Hex in Hin as [? _].
Qed.

Lemma zip_with_checked V keys ids rs os :
  length ids = length keys ->
  Forall3i (fun ki r p => Forall3i (loc_read_ok V ki.1) ki.2 r p) (zip keys ids) rs os ->
  zip_with checked ids (zip rs os) = zip rs os /\
  (forall j k i a, keys !! j = Some k -> ids !! j = Some i -> zip rs os !! j = Some a ->
     Forall3i (loc_read_ok V k) i a.1 a.2).
Proof.
  intros Hl H. split.
  - revert ids rs os Hl H. induction keys as [|k keys IH]; intros [|i ids] rs os Hl H; simplify_eq/=;
      inversion H; subst; simpl; [done|]. f_equal; [by eapply checked_shaped|]. by eapply IH.
  - intros j k i a Hk Hi Ha. apply lookup_zip_with_Some in Ha as (r & o & -> & Hr & Ho).
    destruct (Forall3i_lookup _ _ _ _ j (k, i) H) as (r' & o' & ? & ? & ?);
      [apply lookup_zip_with_Some; eauto|]. by simplify_eq.
Qed.

(** Reading given locations of the keys is truthful in every coherent
    state, during recovery too: for every key for which no failure is
    reported, an [EC_OK] slot carries the location the persistent tier
    stores and an [EC_NOENT] slot means that it stores none (a key missing
    from the recovering cache is never taken for a missing location). *)
Theorem targeted_reads_truthful keys ids m rs os m' :
  coherent m -> length ids = length keys ->
  GetLocationsById keys ids m = ((rs, os), m') ->
  pview m' = pview m /\ coherent m' /\ Forall3i (answer_ok (pview m)) (zip keys ids) rs os.
Proof.
  intros Hco Hl. unfold GetLocationsById. rewrite wrong_size_eq by done.
  destruct (cache_backend_ m) as [c|] eqn:Hc.
  2: { destruct (be_GetLocationsById keys ids _) as [[r o] p] eqn:E. intros [= <- <- <-].
       destruct (be_GetLocationsById_law _ _ _ _ _ _ Hl E) as [Hv Hrd]. split_and!; [done| |].
       - intros c' Hc'. simpl in Hc'. congruence.
       - eapply Forall3i_impl; [|exact Hrd]. intros ki r' o' Hok _. exact Hok. }
  destruct (be_GetLocationsById keys ids c) as [[r o] c1] eqn:E.
  destruct (be_GetLocationsById_law _ _ _ _ _ _ Hl E) as [Hv Hrd].
  destruct (Forall3i_length _ _ _ _ Hrd) as [Hl1 Hl2]. rewrite length_zip, Hl, Nat.min_id in Hl1, Hl2.
  rewrite !wrong_size_eq by done. cbn [orb]. destruct (zip_with_checked _ _ _ _ _ Hl Hrd) as [-> Hans].
  cbn [recover_state_ set_cache].
  assert (He : effect m (set_cache c1 m)).
  { split_and!; [done|done|]. rewrite Hc. simpl. intros k. left. rewrite Hv. auto. }
  assert (Hco1 : coherent (set_cache c1 m)) by (by eapply effect_coherent).
  assert (Hfin : forall ans m2, effect (set_cache c1 m) m2 -> pview m2 = pview m -> length ans = length keys ->
    (forall j a, ans !! j = Some a -> position_ok (pview m) keys ids j a) ->
    pview m2 = pview m /\ coherent m2 /\ Forall3i (answer_ok (pview m)) (zip keys ids) ans.*1 ans.*2).
  { intros ans m2 He2 Hp2 Hla Hpos. split_and!; [done|by eapply effect_coherent|].
    apply Forall3i_of_lookup; [rewrite length_fmap, length_zip; lia..|].
    intros j [k i] r' o' Hki Hr' Ho'. apply lookup_zip_with_Some in Hki as (k' & i' & [= <- <-] & Hk & Hi).
    rewrite list_lookup_fmap in Hr'. rewrite list_lookup_fmap in Ho'. destruct (ans !! j) as [a|] eqn:Ea; simplify_eq/=.
    by eapply Hpos. }
  case_bool_decide as Hst.
  - intros [= <- <- <-]. apply (Hfin (zip r o) _); [apply effect_refl|done|rewrite length_zip; lia|].
    intros j a Ha k i Hk Hi _. eapply Forall3i_impl; [|by eapply Hans]. intros i' e q.
    unfold loc_read_ok. destruct (Hco c Hc k) as [->|[? _]]; [done|congruence].
  - destruct (fall_back _ _ _ _ _) as [ans m2] eqn:Ef. intros [= <- <- <-].
    apply fall_back_spec in Ef as (He2 & Hp2 & Hl' & Hpos); [|done|done|simpl; by destruct (recover_state_ m)|by rewrite Hv].
    apply Hfin; [done|exact Hp2|rewrite Hl', length_zip; lia|exact Hpos].
Qed.

End truthful.

(** The recovering cache holds key 3 without the requested location, lacks
    key 1, and key 9 does not exist. *)
Definition sample_reading : MetaStorageBackendManager MetaDummyBackend MetaLocalBackend :=
  (Put [3]%Z [{[ "l2" := Some sample_location ]}] [∅]
     (mkManager sample_store (Some (init_local sample_config (fun n => Z.of_nat n))) kRecover ∅)).2.

Lemma targeted_reads_truthful_witness :
  let r := GetLocationsById [3; 1; 9]%Z [["l1"]; ["l1"]; ["l1"]] sample_reading in
  r.1.1 = [[EC_NOENT]; [EC_OK]; [EC_NOENT]] /\
  Forall3i (answer_ok (pview sample_reading)) (zip [3; 1; 9]%Z [["l1"]; ["l1"]; ["l1"]]) r.1.1 r.1.2.
Proof.
  assert (Hm : effect (mkManager sample_store (Some (init_local sample_config (fun n => Z.of_nat n))) kRecover ∅)
                 sample_reading).
  { eapply (Put_effect [3]%Z [{[ "l2" := Some sample_location ]}] [∅] _ [EC_OK]);
      [by right|by right|vm_compute; reflexivity|]. intros [|i] e1 e2 _ Hi; [by injection Hi as <-|done]. }
  assert (Hco : coherent sample_reading).
  { eapply effect_coherent; [exact Hm|]. intros c [= <-] k. right. split; [reflexivity|].
    vm_compute. reflexivity. }
  intros r. split; [vm_compute; reflexivity|]. destruct r as [[rs os] m'] eqn:E.
  apply (targeted_reads_truthful [3; 1; 9]%Z [["l1"]; ["l1"]; ["l1"]] sample_reading rs os m' Hco eq_refl E).
Defined.
