(* ===== verification/MetaIndexer.v ===== *)
(** * MetaIndexer: the sharded index of [meta/meta_indexer.cc]

    [MetaIndexer] splits a request into batches of keys by mutex shard, runs
    each batch under its shard locks against the two-tier store, and collects
    the per-key results and the key count. A batch is atomic (its shard locks
    are held), so the indexer is modelled as the sequence of its batches. The
    shard of a key ([GetMutexShardIndex], a hash) is a field of the
    configuration: everything holds for every shard function. Metrics, logging
    and time measurements are left out. *)

From stdpp Require Import base gmap sets list strings sorting.
From Stdlib Require Import ZArith Lia.
From S2P Require Import Prelude MetaTypes MetaBackend DummyBackend LocalBackend BackendManager BackendReads.

(** ** Data *)

(** [MetaIndexer::Result]. *)
Record Result := mkResult { ec : ErrorCode; error_codes : list ErrorCode }.

(** [MetaIndexer::LocationResult]. *)
Record LocationResult := mkLocationResult {
  loc_ec : ErrorCode;
  per_location_error_codes : list (list ErrorCode);
}.

(** [MetaIndexer::IndexBatch]. *)
Record IndexBatch := mkBatch { shard_indices : list Z; global_indices : list nat }.

(** [BatchMetaData] of a read-modify-write: positions in the request, keys,
    and what to write or delete. *)
Record UpsertRow := mkUpsert {
  up_index : nat; up_key : KeyType; up_locations : CacheLocationMap; up_properties : PropertyMap }.
Record DeleteRow := mkDelete { del_index : nat; del_key : KeyType; del_ids : list LocationId }.

Section indexer.
Context {PT CT : Type} `{PB : !MetaStorageBackend PT} `{CB : !MetaCacheBaseBackend CT}.
Local Abbreviation Manager := (MetaStorageBackendManager PT CT).

Record MetaIndexer := mkIndexer {
  backend_manager_ : Manager;
  key_count_ : Z;
  max_key_count_ : Z;
  batch_key_size_ : nat;
  GetMutexShardIndex : KeyType -> Z;
}.

Definition with_manager (m : Manager) (x : MetaIndexer) : MetaIndexer :=
  mkIndexer m (key_count_ x) (max_key_count_ x) (batch_key_size_ x) (GetMutexShardIndex x).
Definition with_count (n : Z) (x : MetaIndexer) : MetaIndexer :=
  mkIndexer (backend_manager_ x) n (max_key_count_ x) (batch_key_size_ x) (GetMutexShardIndex x).

(** [AdjustKeyCountMeta]; the delta is narrowed to [int32_t] by its callers. *)
Definition AdjustKeyCountMeta (delta : Z) (x : MetaIndexer) : MetaIndexer :=
  if (0 <=? delta)%Z then with_count (key_count_ x + delta) x
  else with_count (Z.max (key_count_ x + delta) 0) x.

(** ** Batches *)

(** The ordered [shard_map]: positions per shard, shards ascending. *)
Definition shard_push (s : Z) (i : nat) (sm : list (Z * list nat)) : list (Z * list nat) :=
  om_set Z.ltb s (default [] (om_find Z.ltb s sm) ++ [i]) sm.

Fixpoint build_shard_map (shard : KeyType -> Z) (i : nat) (keys : list KeyType)
    (sm : list (Z * list nat)) : list (Z * list nat) :=
  match keys with
  | [] => sm
  | k :: keys => build_shard_map shard (S i) keys (shard_push (shard k) i sm)
  end.

(** The second loop of [MakeBatches]: shards are added to [current], which is
    flushed at the soft limit and after the last shard. *)
Fixpoint flush_shards (batch_key_size : nat) (sm : list (Z * list nat)) (current : IndexBatch)
    : list IndexBatch :=
  match sm with
  | [] => []
  | (s, l) :: rest =>
      let current := mkBatch (shard_indices current ++ [s]) (global_indices current ++ l) in
      if (batch_key_size <=? length (global_indices current))%nat || bool_decide (rest = [])
      then current :: flush_shards batch_key_size rest (mkBatch [] [])
      else flush_shards batch_key_size rest current
  end.

Definition MakeBatches (keys : list KeyType) (x : MetaIndexer) : list IndexBatch :=
  flush_shards (batch_key_size_ x) (build_shard_map (GetMutexShardIndex x) 0 keys []) (mkBatch [] []).

(** ** Result collection *)

(** [ProcessErrorCodes] when the backend answered with another number of
    codes: every position of the batch becomes [EC_MISMATCH]. *)
Fixpoint mark_mismatch (idxs : list nat) (codes : list ErrorCode) : nat * list ErrorCode :=
  match idxs with
  | [] => (0, codes)
  | i :: idxs =>
      if (i <? length codes)%nat
      then let '(n, codes) := mark_mismatch idxs (<[i := EC_MISMATCH]> codes) in (S n, codes)
      else mark_mismatch idxs codes
  end.

(** Its main loop: the codes that are not [EC_OK] are stored and counted. *)
Fixpoint store_codes (rows : list (nat * ErrorCode)) (key_num : nat) (result : Result) : nat * Result :=
  match rows with
  | [] => (0, result)
  | (i, code) :: rows =>
      if negb (i <? length (error_codes result))%nat || negb (i <? key_num)%nat
      then let '(n, result) := store_codes rows key_num (mkResult EC_MISMATCH (error_codes result)) in
           (S n, result)
      else if bool_decide (code <> EC_OK)
           then let '(n, result) :=
                  store_codes rows key_num (mkResult (ec result) (<[i := code]> (error_codes result))) in
                (S n, result)
           else store_codes rows key_num result
  end.

Definition ProcessErrorCodes (codes : list ErrorCode) (indexs : list nat) (key_num : nat)
    (result : Result) : nat * Result :=
  let idxs := match indexs with [] => seq 0 key_num | _ => indexs end in
  if negb (length codes =? length idxs)%nat
  then let '(n, cs) := mark_mismatch idxs (error_codes result) in (n, mkResult EC_MISMATCH cs)
  else store_codes (zip idxs codes) key_num result.

Definition ProcessErrorResult (error_count key_count : nat) (result : Result) : Result :=
  if bool_decide (ec result <> EC_OK) then result
  else if (error_count =? key_count)%nat then mkResult EC_ERROR (error_codes result)
  else if (0 <? error_count)%nat then mkResult EC_PARTIAL_OK (error_codes result)
  else result.

(** ** Whole-key writes *)

(** One batch of a whole-key operation under its shard locks: [op] runs on the
    positions of the batch, the codes are collected. *)
Definition run_batch (op : list nat -> Manager -> list ErrorCode * Manager) (key_num : nat)
    (batch : IndexBatch) (st : nat * Result * MetaIndexer) : nat * Result * MetaIndexer :=
  let '(error_count, result, x) := st in
  let '(codes, m) := op (global_indices batch) (backend_manager_ x) in
  let '(n, result) := ProcessErrorCodes codes (global_indices batch) key_num result in
  (error_count + n, result, with_manager m x).

(** The optional vectors are gathered only when they were given. *)
Definition gather_opt {A} (idxs : list nat) (l : list A) : list A :=
  match l with [] => [] | _ => gather idxs l end.

Definition put_op (keys : list KeyType) (location_maps : list CacheLocationMap)
    (properties : list PropertyMap) (idxs : list nat) (m : Manager) : list ErrorCode * Manager :=
  BackendManager.Put (gather idxs keys) (gather_opt idxs location_maps) (gather_opt idxs properties) m.

Definition delete_op (keys : list KeyType) (idxs : list nat) (m : Manager) : list ErrorCode * Manager :=
  BackendManager.Delete (gather idxs keys) m.

Definition given_wrong_size {A B} (l : list A) (keys : list B) : bool :=
  match l with [] => false | _ => wrong_size l keys end.

Definition Put (keys : list KeyType) (location_maps : list CacheLocationMap)
    (properties : list PropertyMap) (x : MetaIndexer) : Result * MetaIndexer :=
  match keys with
  | [] => (mkResult EC_OK [], x)
  | _ =>
      if given_wrong_size location_maps keys || given_wrong_size properties keys
      then (mkResult EC_ERROR [], x)
      else if (max_key_count_ x <? Z.of_nat (length keys) + key_count_ x)%Z
      then (mkResult EC_NOSPC [], x)
      else
        let '(error_count, result, x) :=
          foldl (fun st b => run_batch (put_op keys location_maps properties) (length keys) b st)
            (0, mkResult EC_OK (all_codes keys EC_OK), x) (MakeBatches keys x) in
        let x := AdjustKeyCountMeta (i32 (Z.of_nat (length keys) - Z.of_nat error_count)) x in
        (ProcessErrorResult error_count (length keys) result, x)
  end.

Definition Delete (keys : list KeyType) (x : MetaIndexer) : Result * MetaIndexer :=
  match keys with
  | [] => (mkResult EC_OK [], x)
  | _ =>
      let '(error_count, result, x) :=
        foldl (fun st b => run_batch (delete_op keys) (length keys) b st)
          (0, mkResult EC_OK (all_codes keys EC_OK), x) (MakeBatches keys x) in
      let x := AdjustKeyCountMeta (i32 (Z.of_nat error_count - Z.of_nat (length keys))) x in
      (ProcessErrorResult error_count (length keys) result, x)
  end.

End indexer.
Arguments MetaIndexer : clear implicits.

(** ** Batches: lock order, completeness, order of same-key operations *)

Section batches.
Variable shard : KeyType -> Z.

(** The positions of the keys of one shard, ascending. *)
Fixpoint positions (s : Z) (i : nat) (keys : list KeyType) : list nat :=
  match keys with
  | [] => []
  | k :: keys =>
      if (shard k =? s)%Z then i :: positions s (S i) keys else positions s (S i) keys
  end.

Lemma elem_of_positions s i keys j :
  j ∈ positions s i keys <-> exists q k, j = i + q /\ keys !! q = Some k /\ shard k = s.
Proof.
  revert i. induction keys as [|k keys IH]; intros i; simpl.
  { split; [by intros ?%not_elem_of_nil|]. by intros (? & ? & _ & ? & _). }
  assert (Hrest : j ∈ positions s (S i) keys <->
    exists q k', j = i + S q /\ keys !! q = Some k' /\ shard k' = s).
  { rewrite IH. split; intros (q & k' & -> & ?); exists q, k'; (split; [lia|done]). }
  destruct (Z.eqb_spec (shard k) s) as [He|He]; rewrite ?elem_of_cons, Hrest; split.
  - intros [->|(q & k' & -> & ?)]; [exists 0, k; split; [lia|done]|by exists (S q), k'].
  - intros ([|q] & k' & -> & Hk & Hs); simplify_eq/=; [left; lia|right; eauto].
  - intros (q & k' & -> & ?). by exists (S q), k'.
  - intros ([|q] & k' & -> & Hk & Hs); simplify_eq/=. eauto.
Qed.

Definition sm_get (s : Z) (sm : list (Z * list nat)) : list nat := default [] (om_find Z.ltb s sm).

Lemma sm_elem_of s l (sm : list (Z * list nat)) : om_wf Z.ltb sm -> (s, l) ∈ sm <-> om_find Z.ltb s sm = Some l.
Proof. intros Hwf. by apply (om_elem_of_find Z.ltb). Qed.

Lemma shard_push_wf s i (sm : list (Z * list nat)) : om_wf Z.ltb sm -> om_wf Z.ltb (shard_push s i sm).
Proof. intros Hwf. by apply (om_set_wf Z.ltb). Qed.

Lemma sm_find_push s s' i sm :
  om_find Z.ltb s' (shard_push s i sm) =
  if bool_decide (s = s') then Some (sm_get s sm ++ [i]) else om_find Z.ltb s' sm.
Proof.
  unfold shard_push. case_bool_decide as Hs; [subst s'; apply (om_find_set_eq Z.ltb)|].
  by apply (om_find_set_ne Z.ltb).
Qed.

Lemma build_shard_map_spec keys : forall i sm,
  om_wf Z.ltb sm -> Forall (fun e => e.2 <> []) sm ->
  let sm' := build_shard_map shard i keys sm in
  om_wf Z.ltb sm' /\ Forall (fun e => e.2 <> []) sm' /\
  forall s, sm_get s sm' = sm_get s sm ++ positions s i keys.
Proof.
  induction keys as [|k keys IH]; intros i sm Hwf Hne; simpl.
  { split_and!; [done|done|]. intros. by rewrite app_nil_r. }
  destruct (IH (S i) (shard_push (shard k) i sm)) as (H1 & H2 & H3).
  - by apply shard_push_wf.
  - apply Forall_forall. intros [s l] Hin. apply sm_elem_of in Hin; [|by apply shard_push_wf].
    rewrite sm_find_push in Hin. simpl. case_bool_decide as Hs.
    + injection Hin as <-. intros ?%app_nil. naive_solver.
    + apply sm_elem_of in Hin; [|done]. rewrite Forall_forall in Hne. by apply (Hne (s, l)).
  - split_and!; [done|done|]. intros s. rewrite H3. unfold sm_get at 1. rewrite sm_find_push.
    destruct (Z.eqb_spec (shard k) s) as [<-|Hs].
    + rewrite bool_decide_eq_true_2 by done. simpl. by rewrite <-app_assoc.
    + by rewrite bool_decide_eq_false_2.
Qed.

(** The shards of a batch determine its positions. *)
Lemma flush_shards_spec get size sm : forall cur,
  Forall (fun e : Z * list nat => e.2 = get e.1 /\ e.2 <> []) sm ->
  global_indices cur = shard_indices cur ≫= get ->
  (shard_indices cur = [] \/ length (global_indices cur) < size) ->
  let bs := flush_shards size sm cur in
  (sm <> [] -> bs ≫= shard_indices = shard_indices cur ++ sm.*1) /\
  Forall (fun b => global_indices b = shard_indices b ≫= get /\ global_indices b <> [] /\
    exists pre s, shard_indices b = pre ++ [s] /\ (pre = [] \/ length (pre ≫= get) < size)) bs.
Proof.
  induction sm as [|[s l] sm IH]; intros cur Hget Hcur Hlim; simpl; [by split|].
  apply Forall_cons in Hget as [[Hl Hnil] Hget]. simpl in Hl, Hnil. subst l.
  assert (Hnew : global_indices cur ++ get s = (shard_indices cur ++ [s]) ≫= get).
  { rewrite bind_app. simpl. rewrite app_nil_r. by rewrite Hcur. }
  destruct (_ || _) eqn:Ef; simpl.
  - destruct (IH (mkBatch [] [])) as [H1 H2]; [done|done|by left|]. split.
    + intros _. destruct (decide (sm = [])) as [->|Hn]; [simpl; by rewrite app_nil_r|].
      etrans; [apply f_equal, (H1 Hn)|]. simpl. by rewrite <-app_assoc.
    + constructor; [|done]. simpl. split_and!; [done|by intros [_ ?]%app_nil|].
      exists (shard_indices cur), s. split; [done|]. by rewrite <-Hcur.
  - apply orb_false_iff in Ef as [Hlt Hne]. apply Nat.leb_gt in Hlt. apply bool_decide_eq_false in Hne.
    destruct (IH (mkBatch (shard_indices cur ++ [s]) (global_indices cur ++ get s))) as [H1 H2];
      [done|done|by right|]. split; [|done]. intros _. rewrite H1 by done. simpl. by rewrite <-app_assoc.
Qed.

End batches.

Section order.
Context {PT CT : Type}.
Implicit Types x : MetaIndexer PT CT.

(** The order in which the positions of a request are processed. *)
Definition processing_order (keys : list KeyType) x : list nat := MakeBatches keys x ≫= global_indices.

(** The properties of [MakeBatches]. *)
Definition batches_ok (keys : list KeyType) x (bs : list IndexBatch) : Prop :=
  StronglySorted Z.lt (bs ≫= shard_indices) /\
  Forall (fun b => global_indices b =
    shard_indices b ≫= (fun s => positions (GetMutexShardIndex x) s 0 keys) /\ global_indices b <> []) bs /\
  (forall k, k ∈ keys -> GetMutexShardIndex x k ∈ bs ≫= shard_indices) /\
  Forall (fun b => exists pre s, shard_indices b = pre ++ [s] /\
    (pre = [] \/ length (pre ≫= (fun s => positions (GetMutexShardIndex x) s 0 keys)) < batch_key_size_ x)) bs.

Lemma MakeBatches_ok keys x : batches_ok keys x (MakeBatches keys x).
Proof.
  unfold MakeBatches. set (sm := build_shard_map _ 0 keys []).
  destruct (build_shard_map_spec (GetMutexShardIndex x) keys 0 []) as (Hwf & Hne & Hget);
    [constructor|constructor|]. fold sm in Hwf, Hne, Hget.
  assert (Hl : Forall (fun e => e.2 = positions (GetMutexShardIndex x) e.1 0 keys /\ e.2 <> []) sm).
  { apply Forall_forall. intros [s l] Hin. rewrite Forall_forall in Hne. split; [|by apply Hne]. apply sm_elem_of in Hin; [|done].
    specialize (Hget s). unfold sm_get in Hget. by rewrite Hin in Hget. }
  destruct (flush_shards_spec (fun s => positions (GetMutexShardIndex x) s 0 keys) (batch_key_size_ x) sm (mkBatch [] []) Hl eq_refl) as [Hs Hb]; [by left|].
  simpl in Hs.
  assert (Hshards : flush_shards (batch_key_size_ x) sm (mkBatch [] []) ≫= shard_indices = sm.*1).
  { destruct sm; [done|]. by apply Hs. }
  unfold batches_ok. rewrite Hshards. split_and!.
  - clear -Hwf. induction sm as [|[s l] sm IH]; simpl; [constructor|].
    apply om_wf_cons in Hwf as [Hwf Hall]. constructor; [auto|]. apply Forall_fmap.
    eapply Forall_impl; [exact Hall|]. intros e He. by apply Z.ltb_lt.
  - eapply Forall_impl; [exact Hb|]. by intros b (? & ? & _).
  - intros k (q & Hq)%list_elem_of_lookup. specialize (Hget (GetMutexShardIndex x k)).
    assert (Hin : q ∈ positions (GetMutexShardIndex x) (GetMutexShardIndex x k) 0 keys).
    { apply elem_of_positions. eauto. }
    unfold sm_get in Hget. simpl in Hget. destruct (om_find Z.ltb _ sm) as [l|] eqn:Ef.
    + apply sm_elem_of in Ef; [|done]. apply list_elem_of_fmap. by eexists (_, _).
    + simpl in Hget. rewrite <-Hget in Hin. by apply not_elem_of_nil in Hin.
  - eapply Forall_impl; [exact Hb|]. by intros b (_ & _ & ?).
Qed.

Lemma positions_NoDup shard s keys : forall i, NoDup (positions shard s i keys).
Proof.
  induction keys as [|k keys IH]; intros i; simpl; [constructor|].
  destruct (_ =? _)%Z; [|auto]. constructor; [|auto].
  intros (q & k' & Hq & _)%elem_of_positions. lia.
Qed.

Lemma sorted_NoDup (l : list Z) : StronglySorted Z.lt l -> NoDup l.
Proof.
  induction 1 as [|a l _ IH Hall]; constructor; [|done]. intros Hin.
  rewrite Forall_forall in Hall. specialize (Hall a Hin). lia.
Qed.

Lemma processing_order_shards keys x :
  processing_order keys x =
  (MakeBatches keys x ≫= shard_indices) ≫= (fun s => positions (GetMutexShardIndex x) s 0 keys).
Proof.
  destruct (MakeBatches_ok keys x) as (_ & Hb & _). unfold processing_order.
  induction Hb as [|b bs [Hb _] _ IH]; csimpl; [done|]. by rewrite bind_app, IH, Hb.
Qed.

Lemma elem_of_processing_order keys x i : i ∈ processing_order keys x <-> i < length keys.
Proof.
  rewrite processing_order_shards, list_elem_of_bind. split.
  - intros (s & Hi & _). apply elem_of_positions in Hi as (q & k & -> & Hk & _). by eapply lookup_lt_Some.
  - intros Hi. destruct (lookup_lt_is_Some_2 keys i Hi) as [k Hk].
    exists (GetMutexShardIndex x k). split; [apply elem_of_positions; eauto|].
    apply MakeBatches_ok, list_elem_of_lookup. eauto.
Qed.

Lemma processing_order_NoDup keys x : NoDup (processing_order keys x).
Proof.
  rewrite processing_order_shards. apply NoDup_bind; [|by auto using positions_NoDup|].
  2: { apply sorted_NoDup, MakeBatches_ok. }
  - intros s s' i _ _ (q & k & -> & Hk & <-)%elem_of_positions (q' & k' & Hq & Hk' & <-)%elem_of_positions.
    simpl in Hq. by simplify_eq.
Qed.

(** Operations on the same key keep their request order. *)
Lemma processing_order_same_key keys x k :
  filter (fun i => keys !! i = Some k) (processing_order keys x) =
  filter (fun i => keys !! i = Some k) (seq 0 (length keys)).
Proof.
  rewrite processing_order_shards.
  destruct (MakeBatches_ok keys x) as (Hs & _ & Hall & _). apply sorted_NoDup in Hs.
  set (shards := MakeBatches keys x ≫= shard_indices) in *. set (shard := GetMutexShardIndex x) in *.
  assert (Hsub : forall s i ks pre, keys = pre ++ ks -> i = length pre ->
    filter (fun i => keys !! i = Some k) (positions shard s i ks) =
    if (shard k =? s)%Z then filter (fun i => keys !! i = Some k) (seq i (length ks)) else []).
  { intros s i ks. revert i. induction ks as [|k' ks IH]; intros i pre Hpre ->; simpl.
    { by destruct (_ =? _)%Z. }
    assert (Hki : keys !! length pre = Some k').
    { rewrite Hpre, lookup_app_r, Nat.sub_diag by lia. done. }
    specialize (IH (S (length pre)) (pre ++ [k'])). rewrite <-app_assoc in IH.
    specialize (IH Hpre ltac:(rewrite length_app; simpl; lia)).
    destruct (Z.eqb_spec (shard k') s) as [Hs'|Hs'].
    - rewrite filter_cons, IH. case_decide as Hd.
      + rewrite Hki in Hd. injection Hd as ->. rewrite (proj2 (Z.eqb_eq _ _) Hs').
        rewrite filter_cons. by rewrite decide_True by congruence.
      + destruct (_ =? _)%Z; [|done]. rewrite filter_cons. by rewrite decide_False.
    - rewrite IH. destruct (Z.eqb_spec (shard k) s); [|done]. rewrite filter_cons.
      rewrite decide_False; [done|]. rewrite Hki. congruence. }
  destruct (decide (k ∈ keys)) as [Hk|Hk].
  - specialize (Hall k Hk). fold shard in Hall. clear Hk. clearbody shards.
    induction Hs as [|s shards Hni Hs IH]; [by apply not_elem_of_nil in Hall|]. csimpl.
    rewrite filter_app, (Hsub s 0 keys []) by done.
    destruct (Z.eqb_spec (shard k) s) as [<-|Hne].
    + rewrite <-(app_nil_r (filter _ (seq _ _))) at 2. f_equal. clear IH Hall Hs.
      induction shards as [|s shards IH]; csimpl; [done|]. rewrite filter_app, (Hsub s 0 keys []) by done.
      rewrite (proj2 (Z.eqb_neq _ _)) by set_solver. apply IH. set_solver.
    + apply IH. set_solver.
  - assert (Hnil : forall l, filter (fun i => keys !! i = Some k) l = []); [|by rewrite !Hnil].
    intros l. induction l as [|i l IH]; [done|]. rewrite filter_cons, decide_False; [done|].
    intros Hi. apply Hk, list_elem_of_lookup. eauto.
Qed.

End order.

(** ** Result collection *)

Definition failures (codes : list ErrorCode) : nat := length (filter (fun c => c <> EC_OK) codes).

Lemma failures_app l1 l2 : failures (l1 ++ l2) = failures l1 + failures l2.
Proof. unfold failures. by rewrite filter_app, length_app. Qed.

(** What the codes of a batch leave in the result vector. *)
Definition collected (idxs : list nat) (codes old new : list ErrorCode) : Prop :=
  length new = length old /\
  (forall p i c, idxs !! p = Some i -> codes !! p = Some c -> old !! i = Some EC_OK -> new !! i = Some c) /\
  (forall i, i ∉ idxs -> new !! i = old !! i).

Lemma store_codes_spec idxs : forall codes key_num r n r',
  length codes = length idxs -> NoDup idxs ->
  Forall (fun i => i < length (error_codes r) /\ i < key_num) idxs ->
  store_codes (zip idxs codes) key_num r = (n, r') ->
  n = failures codes /\ ec r' = ec r /\ collected idxs codes (error_codes r) (error_codes r').
Proof.
  induction idxs as [|i idxs IH]; intros [|c codes] key_num r n r' Hl Hnd Hall Hrun; simplify_eq/=.
  { split_and!; [done|done|]. by split_and!. }
  apply NoDup_cons in Hnd as [Hni Hnd]. apply Forall_cons in Hall as [[Hi1 Hi2] Hall].
  rewrite (proj2 (Nat.ltb_lt _ _) Hi1), (proj2 (Nat.ltb_lt _ _) Hi2) in Hrun. simpl in Hrun.
  unfold failures. rewrite filter_cons. case_bool_decide as Hc.
  - destruct (store_codes _ _ _) as [n1 r1] eqn:E in Hrun. simplify_eq.
    apply IH in E as (-> & Hec & Hlen & Hset & Hoth); [|done|done|].
    2: { simpl. by rewrite length_insert. }
    rewrite decide_True by done. simpl in *. split_and!; [done|done|]. rewrite length_insert in Hlen.
    split_and!; [done| |].
    + intros [|p] i' c' Hi' Hc' Hold; simplify_eq/=.
      * rewrite Hoth by done. by apply list_lookup_insert_eq.
      * apply (Hset p); [done|done|]. rewrite list_lookup_insert_ne; [done|].
        intros <-. apply Hni, list_elem_of_lookup. eauto.
    + intros i' Hn. rewrite Hoth by set_solver. apply list_lookup_insert_ne. set_solver.
  - case_decide; [done|]. apply IH in Hrun as (-> & Hec & Hlen & Hset & Hoth); [|done..].
    split_and!; [done|done|]. split_and!; [done| |].
    + intros [|p] i' c' Hi' Hc' Hold; simplify_eq/=; [|by apply (Hset p)].
      by rewrite Hoth.
    + intros i' Hn. apply Hoth. set_solver.
Qed.

Lemma ProcessErrorCodes_spec codes idxs key_num r n r' :
  idxs <> [] -> length codes = length idxs -> NoDup idxs ->
  Forall (fun i => i < key_num) idxs -> length (error_codes r) = key_num ->
  ProcessErrorCodes codes idxs key_num r = (n, r') ->
  n = failures codes /\ ec r' = ec r /\ collected idxs codes (error_codes r) (error_codes r').
Proof.
  intros Hne Hl Hnd Hall Hlr. unfold ProcessErrorCodes.
  replace (match idxs with [] => seq 0 key_num | _ => idxs end) with idxs by (by destruct idxs).
  rewrite (proj2 (Nat.eqb_eq _ _) Hl). simpl. intros Hrun. eapply store_codes_spec; eauto.
  eapply Forall_impl; [exact Hall|]. intros i Hi. simpl in *. lia.
Qed.

Lemma gather_app {A} (l1 l2 : list nat) (l : list A) : gather (l1 ++ l2) l = gather l1 l ++ gather l2 l.
Proof. unfold gather. by rewrite omap_app. Qed.

Lemma gather_seq {A} (l : list A) : gather (seq 0 (length l)) l = l.
Proof.
  apply list_eq. intros i. destruct (decide (i < length l)) as [Hi|Hi].
  - rewrite (lookup_gather _ _ i i); [done| |by apply lookup_seq_lt].
    apply Forall_seq. lia.
  - rewrite !lookup_ge_None_2; [done|lia|]. rewrite length_gather, length_seq; [lia|]. apply Forall_seq. lia.
Qed.

Lemma steps_app {M A B} (R : A -> M -> B -> M -> Prop) l1 l2 b1 b2 m1 m2 m3 :
  steps R l1 b1 m1 m2 -> steps R l2 b2 m2 m3 -> steps R (l1 ++ l2) (b1 ++ b2) m1 m3.
Proof. induction 1; simpl; [done|]. intros. econstructor; eauto. Qed.

(** The loop over the batches, for an operation that runs [steps R] on the
    rows of the positions it is given. *)
Section run_batches.
Context {PT CT : Type} {A : Type}.
Local Abbreviation Manager := (MetaStorageBackendManager PT CT).
Variables (op : list nat -> Manager -> list ErrorCode * Manager) (rows : list A)
  (R : A -> StoreView -> ErrorCode -> StoreView -> Prop) (inv : Manager -> Prop) (view : Manager -> StoreView).
Hypothesis op_steps : forall idxs m codes m', Forall (fun i => i < length rows) idxs -> inv m ->
  op idxs m = (codes, m') -> inv m' /\ steps R (gather idxs rows) codes (view m) (view m').

Lemma run_batches_spec bs : forall e r x e' r' x',
  let D := bs ≫= global_indices in
  Forall (fun b => global_indices b <> []) bs -> NoDup D -> Forall (fun i => i < length rows) D ->
  length (error_codes r) = length rows -> inv (backend_manager_ x) ->
  foldl (fun st b => run_batch op (length rows) b st) (e, r, x) bs = (e', r', x') ->
  x' = with_manager (backend_manager_ x') x /\ inv (backend_manager_ x') /\ ec r' = ec r /\
  exists codes, length codes = length D /\
    steps R (gather D rows) codes (view (backend_manager_ x)) (view (backend_manager_ x')) /\
    e' = e + failures codes /\ collected D codes (error_codes r) (error_codes r').
Proof.
  induction bs as [|b bs IH]; intros e r x e' r' x' D Hne Hnd Hall Hlr Hinv Hrun.
  { simpl in Hrun. simplify_eq. split_and!; [by destruct x'|done|done|]. exists [].
    split_and!; [done|constructor|unfold failures; simpl; lia|by split_and!]. }
  apply Forall_cons in Hne as [Hne Hnes]. unfold D in *. csimpl in *.
  apply NoDup_app in Hnd as (Hnd1 & Hdis & Hnd2). apply Forall_app in Hall as [Hall1 Hall2].
  destruct (run_batch op (length rows) b (e, r, x)) as [[e1 r1] x1] eqn:Eb in Hrun. unfold run_batch in Eb.
  destruct (op (global_indices b) (backend_manager_ x)) as [codes1 m1] eqn:Eop.
  destruct (op_steps _ _ _ _ Hall1 Hinv Eop) as [Hinv1 Hs1].
  pose proof (steps_length _ _ _ _ _ Hs1) as Hl1. rewrite length_gather in Hl1 by done.
  destruct (ProcessErrorCodes codes1 _ _ r) as [n1 r2] eqn:Ep. injection Eb as <- -> <-.
  apply ProcessErrorCodes_spec in Ep as (-> & Hec1 & Hlen1 & Hset1 & Hoth1); [|done..].
  apply IH in Hrun as (Hx & Hinv' & Hec & codes2 & Hl2 & Hs2 & -> & Hlen2 & Hset2 & Hoth2); [|try done; lia..].
  split_and!; [|done|congruence|].
  { rewrite Hx. by destruct x. }
  exists (codes1 ++ codes2). split_and!.
  - rewrite !length_app. lia.
  - rewrite gather_app. eapply steps_app; [exact Hs1|exact Hs2].
  - rewrite failures_app. lia.
  - split_and!; [lia| |].
    + intros p i c Hp Hc Hold. destruct (decide (p < length (global_indices b))) as [Hlt|Hge].
      * rewrite lookup_app_l in Hp by done. rewrite lookup_app_l in Hc by lia.
        rewrite Hoth2; [by apply (Hset1 p)|]. apply Hdis, list_elem_of_lookup. eauto.
      * rewrite lookup_app_r in Hp by lia. rewrite lookup_app_r in Hc by lia. rewrite Hl1 in Hc.
        apply (Hset2 (p - length (global_indices b))); [done|done|]. rewrite Hoth1; [done|].
        intros Hin. apply (Hdis i Hin), list_elem_of_lookup. eauto.
    + intros i [Hni1 Hni2]%not_elem_of_app. by rewrite Hoth2, Hoth1.
Qed.

(** Over all the batches of a request, the codes end up at their positions. *)
Lemma run_MakeBatches_spec keys x e' r' x' :
  length keys = length rows -> inv (backend_manager_ x) ->
  foldl (fun st b => run_batch op (length keys) b st)
    (0, mkResult EC_OK (all_codes keys EC_OK), x) (MakeBatches keys x) = (e', r', x') ->
  x' = with_manager (backend_manager_ x') x /\ inv (backend_manager_ x') /\ ec r' = EC_OK /\
  length (error_codes r') = length keys /\ e' = failures (error_codes r') /\
  steps R (gather (processing_order keys x) rows) (gather (processing_order keys x) (error_codes r'))
    (view (backend_manager_ x)) (view (backend_manager_ x')).
Proof.
  intros Hlk Hinv Hrun. rewrite Hlk in Hrun. destruct (MakeBatches_ok keys x) as (_ & Hb & _).
  assert (HD : Forall (fun i => i < length rows) (processing_order keys x)).
  { apply Forall_forall. intros i Hi%elem_of_processing_order. lia. }
  apply run_batches_spec in Hrun as (Hx & Hinv' & Hec & codes & Hl & Hs & -> & Hlen & Hset & _);
    [|eapply Forall_impl; [exact Hb|]; by intros b [_ Hg]
     |apply processing_order_NoDup|exact HD|simpl; unfold all_codes; by rewrite length_replicate|done].
  fold (processing_order keys x) in *.
  simpl in Hlen. unfold all_codes in Hlen. rewrite length_replicate in Hlen.
  assert (Hcodes : gather (processing_order keys x) (error_codes r') = codes).
  { apply list_eq. intros p. destruct (processing_order keys x !! p) as [i|] eqn:Ep.
    - rewrite (lookup_gather _ _ p i); [|by rewrite Hlen, Hlk|done].
      destruct (lookup_lt_is_Some_2 codes p) as [c Hc]; [apply lookup_lt_Some in Ep; lia|].
      rewrite Hc. apply (Hset p); [done|done|]. simpl. unfold all_codes. apply lookup_replicate_2.
      rewrite Forall_forall in HD. rewrite Hlk. apply HD, list_elem_of_lookup. eauto.
    - apply lookup_ge_None in Ep. rewrite !lookup_ge_None_2; [done|lia|].
      rewrite length_gather; [lia|]. by rewrite Hlen, Hlk. }
  split_and!; [done|done|done|done| |by rewrite Hcodes]. simpl.
  rewrite <-Hcodes. transitivity (failures (gather (seq 0 (length keys)) (error_codes r'))).
  2: { by rewrite <-Hlen, gather_seq. }
  unfold failures, gather. apply Permutation_length, filter_Permutation, omap_Permutation.
  apply NoDup_Permutation; [apply processing_order_NoDup|apply NoDup_seq|].
  intros i. rewrite elem_of_processing_order, elem_of_seq. lia.
Qed.

End run_batches.

(** ** Whole-key writes against a single-tier store *)

Definition put_row (V : StoreView) (z : (KeyType * CacheLocationMap) * ErrorCode) : StoreView :=
  if bool_decide (z.2 = EC_OK) then <[z.1.1 := z.1.2]> V else V.

(** The rows whose code is [EC_OK], put one after the other. *)
Definition apply_puts (rows : list (KeyType * CacheLocationMap)) (codes : list ErrorCode)
    (V : StoreView) : StoreView := foldl put_row V (zip rows codes).

Lemma put_steps_apply rows codes V V' : steps put_step rows codes V V' -> V' = apply_puts rows codes V.
Proof.
  unfold apply_puts. induction 1 as [|kl e l r m1 m2 m3 HR _ IH]; [done|]. simpl. rewrite IH. f_equal.
  unfold put_row. simpl. destruct HR as [[-> ->]|[[] ->]]; [by rewrite bool_decide_eq_true_2|].
  by rewrite bool_decide_eq_false_2.
Qed.

Lemma put_rows_lookup k l : forall V W : StoreView, V !! k = W !! k ->
  foldl put_row V l !! k = foldl put_row W (filter (fun z => z.1.1 = k) l) !! k.
Proof.
  induction l as [|z l IH]; intros V W HVW; [done|]. simpl. rewrite filter_cons. case_decide as Hz; simpl.
  - apply IH. unfold put_row. case_bool_decide; [|done]. by rewrite Hz, !lookup_insert_eq.
  - apply IH. unfold put_row. case_bool_decide; [|done]. by rewrite lookup_insert_ne.
Qed.

Lemma gather_zip {A B} (D : list nat) (la : list A) (lb : list B) :
  length lb = length la -> zip (gather D la) (gather D lb) = gather D (zip la lb).
Proof.
  intros Hl. induction D as [|i D IH]; [done|]. unfold gather in *. csimpl.
  destruct (decide (i < length la)) as [Hi|Hi].
  - destruct (lookup_lt_is_Some_2 la i Hi) as [a Ha]. destruct (lookup_lt_is_Some_2 lb i) as [b Hb]; [lia|].
    rewrite Ha, Hb, (proj2 (lookup_zip_Some la lb i a b) (conj Ha Hb)). simpl. by rewrite IH.
  - rewrite !lookup_ge_None_2; [done|rewrite length_zip; lia|lia|lia].
Qed.

Lemma filter_gather_key {B} (D : list nat) (Z : list ((KeyType * B) * ErrorCode)) k :
  filter (fun z => z.1.1 = k) (gather D Z) = gather (filter (fun i => Z.*1.*1 !! i = Some k) D) Z.
Proof.
  induction D as [|i D IH]; [done|]. unfold gather in *. csimpl. rewrite filter_cons.
  destruct (Z !! i) as [z|] eqn:Ez.
  - rewrite filter_cons, IH, !list_lookup_fmap, Ez. do 2 case_decide; simplify_eq/=; [by rewrite Ez|done].
  - rewrite !list_lookup_fmap, Ez. by case_decide.
Qed.

(** Processing the rows in batch order has the effect of request order. *)
Lemma apply_puts_order {PT CT} (x : MetaIndexer PT CT) keys (locs : list CacheLocationMap) codes V :
  length locs = length keys -> length codes = length keys ->
  let D := processing_order keys x in
  apply_puts (gather D (zip keys locs)) (gather D codes) V = apply_puts (zip keys locs) codes V.
Proof.
  intros Hl Hc D. apply map_eq. intros k. unfold apply_puts.
  rewrite gather_zip by (rewrite length_zip; lia).
  rewrite (put_rows_lookup k _ V V) by done. rewrite (put_rows_lookup k (zip _ _) V V) by done.
  set (Z := zip (zip keys locs) codes).
  assert (Hk : Z.*1.*1 = keys).
  { unfold Z. rewrite fst_zip by (rewrite length_zip; lia). by rewrite fst_zip by lia. }
  assert (HZ : gather (seq 0 (length keys)) Z = Z).
  { rewrite <-Hk at 1. rewrite !length_fmap. apply gather_seq. }
  rewrite <-HZ at 2. rewrite !filter_gather_key, Hk. unfold D. by rewrite processing_order_same_key.
Qed.

Lemma ProcessErrorResult_spec r :
  ec r = EC_OK -> error_codes r <> [] ->
  let r' := ProcessErrorResult (failures (error_codes r)) (length (error_codes r)) r in
  error_codes r' = error_codes r /\
  (ec r' = EC_OK <-> Forall (eq EC_OK) (error_codes r)) /\
  (ec r' = EC_ERROR <-> Forall (fun c => c <> EC_OK) (error_codes r)).
Proof.
  intros Hec Hne. unfold ProcessErrorResult. rewrite bool_decide_eq_false_2 by naive_solver.
  set (cs := error_codes r) in *.
  assert (H0 : failures cs = 0 <-> Forall (eq EC_OK) cs).
  { unfold failures. clear. induction cs as [|c cs IH]; [done|]. rewrite filter_cons, Forall_cons.
    case_decide; simpl; [split; [done|naive_solver]|]. rewrite IH. naive_solver. }
  assert (H1 : failures cs = length cs <-> Forall (fun c => c <> EC_OK) cs).
  { unfold failures. clear. induction cs as [|c cs IH]; [done|]. rewrite filter_cons, Forall_cons.
    pose proof (length_filter (fun c => c <> EC_OK) cs). case_decide; simpl; [|naive_solver lia].
    rewrite <-IH. intuition lia. }
  destruct (Nat.eqb_spec (failures cs) (length cs)) as [E|E]; simpl.
  - split_and!; [done| |tauto]. rewrite <-H0. split; [done|]. intros Hz. rewrite Hz in E.
    destruct cs; done.
  - destruct (Nat.ltb_spec 0 (failures cs)) as [E1|E1]; simpl; split_and!; [done| | |done| |].
    + rewrite <-H0. split; [done|lia].
    + rewrite <-H1. split; [done|lia].
    + rewrite Hec, <-H0. split; [lia|done].
    + rewrite Hec, <-H1. split; [done|]. intros. lia.
Qed.

Section single_tier.
Context {PT CT : Type} `{PB : !MetaStorageBackend PT} `{PL : !LawfulBackend PT}
  `{CB : !MetaCacheBaseBackend CT}.
Implicit Types x : MetaIndexer PT CT.

Definition single_tier (m : MetaStorageBackendManager PT CT) : Prop := cache_backend_ m = None.
Definition stored x : StoreView := be_view (persistent_backend_ (backend_manager_ x)).

Lemma put_op_steps keys locs props idxs m codes m' :
  length locs = length keys -> props = [] \/ length props = length keys ->
  Forall (fun i => i < length (zip keys locs)) idxs -> single_tier m ->
  put_op keys locs props idxs m = (codes, m') ->
  single_tier m' /\
  steps put_step (gather idxs (zip keys locs)) codes
    (be_view (persistent_backend_ m)) (be_view (persistent_backend_ m')).
Proof.
  intros Hl Hp Hall Hst. rewrite length_zip, Hl, Nat.min_id in Hall.
  assert (Hg : forall (B : Type) (l : list B), length l = length keys -> length (gather idxs l) = length idxs).
  { intros B l Hlb. apply length_gather. by rewrite Hlb. }
  assert (Hgo : length (resized (gather idxs keys) ∅ (gather_opt idxs locs)) = length (gather idxs keys)).
  { apply length_resized. unfold gather_opt. destruct locs; [by left|right]. rewrite !Hg; done. }
  assert (Hgp : length (resized (gather idxs keys) ∅ (gather_opt idxs props)) = length (gather idxs keys)).
  { apply length_resized. unfold gather_opt. destruct props; [by left|right].
    rewrite !Hg; [done|done|]. by destruct Hp. }
  unfold put_op, BackendManager.Put. unfold single_tier in *.
  destruct (be_Put _ _ _ _) as [r p] eqn:E.
  pose proof (be_Put_law _ _ _ _ _ _ Hgo Hgp E) as Hs.
  pose proof (steps_length _ _ _ _ _ Hs) as Hlen. rewrite length_zip in Hlen.
  rewrite (wrong_size_eq r (gather idxs keys)) by lia. simpl. rewrite Hst. intros [= <- <-]. split; [done|].
  simpl. rewrite <-gather_zip by done.
  replace (gather idxs locs) with (resized (gather idxs keys) ∅ (gather_opt idxs locs)); [exact Hs|].
  unfold gather_opt. destruct locs as [|l locs].
  - destruct keys; [|done]. destruct idxs as [|i idxs]; [done|]. apply Forall_cons in Hall as [Hi _]. simpl in Hi. lia.
  - unfold resized. destruct (gather idxs (l :: locs)) eqn:Eg; [|done].
    apply (f_equal length) in Eg. rewrite Hg in Eg by done. simpl in Eg. rewrite Hg by done. by rewrite Eg.
Qed.

Lemma AdjustKeyCount_nonneg n x :
  (Z.of_nat n < 2 ^ 31)%Z -> key_count_ (AdjustKeyCountMeta (i32 (Z.of_nat n)) x) = (key_count_ x + Z.of_nat n)%Z.
Proof.
  intros Hn. rewrite i32_small by lia. unfold AdjustKeyCountMeta. by rewrite (proj2 (Z.leb_le _ _)) by lia.
Qed.

Lemma failures_le cs : failures cs <= length cs.
Proof. apply length_filter. Qed.

(** C31: on an index without a cache tier, putting a batch of fewer than 2^31
    keys that fits the configured capacity through the sharded, batched
    indexer has exactly the effect of putting the keys one by one in request order: the entries
    afterwards are those of the successful puts in that order (also for
    repeated keys), each result code sits at its request position, the
    overall code is [EC_OK] exactly when all succeeded and [EC_ERROR] exactly
    when none did, and the key count grows by the number of successes. *)
Theorem Put_refines_sequential keys locs props x r x' :
  cache_backend_ (backend_manager_ x) = None ->
  keys <> [] -> length locs = length keys -> props = [] \/ length props = length keys ->
  (Z.of_nat (length keys) + key_count_ x <= max_key_count_ x)%Z -> (Z.of_nat (length keys) < 2 ^ 31)%Z ->
  Put keys locs props x = (r, x') ->
  length (error_codes r) = length keys /\
  stored x' = apply_puts (zip keys locs) (error_codes r) (stored x) /\
  (ec r = EC_OK <-> Forall (eq EC_OK) (error_codes r)) /\
  (ec r = EC_ERROR <-> Forall (fun c => c <> EC_OK) (error_codes r)) /\
  key_count_ x' = (key_count_ x + Z.of_nat (length keys - failures (error_codes r)))%Z.
Proof.
  intros Hst Hne Hl Hp Hcap H31 Hrun.
  assert (Hz : length keys = length (zip keys locs)) by (rewrite length_zip; lia).
  unfold Put in Hrun. destruct keys as [|k0 ks]; [done|]. remember (k0 :: ks) as keys eqn:Hk. clear Hk k0 ks.
  rewrite (proj2 (Z.ltb_ge _ _)) in Hrun by lia.
  assert (Hw : given_wrong_size locs keys || given_wrong_size props keys = false).
  { unfold given_wrong_size. destruct locs; [by destruct keys|]. rewrite wrong_size_eq by done.
    destruct props; [done|]. destruct Hp as [?|Hp]; [done|]. by rewrite wrong_size_eq. }
  rewrite Hw in Hrun. destruct (foldl _ _ _) as [[e r1] x1] eqn:Ef.
  apply (run_MakeBatches_spec _ (zip keys locs) put_step single_tier (fun m => be_view (persistent_backend_ m)))
    in Ef as (Hx & _ & Hec & Hlen & -> & Hs); [|intros; by eapply put_op_steps|done|done].
  apply put_steps_apply in Hs. rewrite apply_puts_order in Hs by done.
  injection Hrun as <- <-. rewrite <-Hlen.
  destruct (ProcessErrorResult_spec r1 Hec) as (Hcs & Hok & Herr); [by intros E; rewrite E in Hlen; destruct keys|].
  rewrite Hcs. split_and!; [done| |done|done|].
  - unfold stored. unfold AdjustKeyCountMeta. destruct (_ <=? _)%Z; exact Hs.
  - pose proof (failures_le (error_codes r1)).
    rewrite <-Nat2Z.inj_sub, AdjustKeyCount_nonneg by lia. by rewrite Hx.
Qed.

Lemma delete_op_steps keys idxs m codes m' :
  single_tier m -> delete_op keys idxs m = (codes, m') ->
  single_tier m' /\
  steps delete_step (gather idxs keys) codes
    (be_view (persistent_backend_ m)) (be_view (persistent_backend_ m')).
Proof.
  intros Hst. unfold delete_op, BackendManager.Delete, single_tier in *.
  destruct (be_Delete _ _) as [r p] eqn:E. pose proof (be_Delete_law _ _ _ _ E) as Hs.
  pose proof (steps_length _ _ _ _ _ Hs) as Hlen. rewrite wrong_size_eq by done. simpl. rewrite Hst.
  by intros [= <- <-].
Qed.

(** Every successful delete removes one entry, and only from the request. *)
Lemma delete_steps_size rows codes V V' :
  steps delete_step rows codes V V' -> size V' + (length codes - failures codes) = size V.
Proof.
  induction 1 as [|k e l r m1 m2 m3 HR _ IH]; [simpl; lia|]. unfold failures in *. rewrite filter_cons.
  pose proof (length_filter (fun c => c <> EC_OK) r).
  destruct HR as [(-> & Hk & ->)|[(-> & Hk & ->)|[[Hh1 Hh2] ->]]].
  - rewrite decide_False by naive_solver. simpl in *. destruct Hk as [ls Hk].
    assert (size (delete k m1) = pred (size m1)) by (apply map_size_delete_Some; eauto).
    assert (size m1 <> 0) by (by apply map_size_non_empty_iff; intros ->). lia.
  - rewrite decide_True by done. simpl in *. lia.
  - rewrite decide_True by done. simpl in *. lia.
Qed.

Lemma delete_steps_other rows codes V V' k :
  steps delete_step rows codes V V' -> k ∉ rows -> V' !! k = V !! k.
Proof.
  induction 1 as [|k' e l cs m1 m2 m3 HR _ IH]; [done|]. intros [Hk Hkl]%not_elem_of_cons.
  rewrite IH by done. destruct HR as [(_ & _ & ->)|[(_ & _ & ->)|[_ ->]]]; try done.
  by apply lookup_delete_ne.
Qed.

(** Deleting keys through the indexer keeps the key count exact: when it
    was the number of stored keys before, it is afterwards, with repeated,
    missing and failing keys in the batch; the keys reported deleted or
    missing are gone and no other key is touched. *)
Theorem Delete_count_exact keys x r x' :
  cache_backend_ (backend_manager_ x) = None ->
  keys <> [] -> (Z.of_nat (length keys) < 2 ^ 31)%Z ->
  key_count_ x = Z.of_nat (size (stored x)) ->
  Delete keys x = (r, x') ->
  key_count_ x' = Z.of_nat (size (stored x')) /\
  (forall i k c, keys !! i = Some k -> error_codes r !! i = Some c -> c = EC_OK \/ c = EC_NOENT ->
     stored x' !! k = None) /\
  (forall k, k ∉ keys -> stored x' !! k = stored x !! k).
Proof.
  intros Hst Hne H31 Hcnt Hrun. unfold Delete in Hrun.
  destruct keys as [|k0 ks]; [done|]. remember (k0 :: ks) as keys eqn:Hk. clear Hk k0 ks.
  destruct (foldl _ _ _) as [[e r1] x1] eqn:Ef.
  apply (run_MakeBatches_spec _ keys delete_step single_tier (fun m => be_view (persistent_backend_ m)))
    in Ef as (Hx & _ & Hec & Hlen & -> & Hs); [|intros; by eapply delete_op_steps|done|done].
  set (D := processing_order keys x) in Hs. fold (stored x) (stored x1) in Hs.
  assert (HD : Forall (fun i => i < length keys) D).
  { apply Forall_forall. intros i Hi. by apply elem_of_processing_order in Hi. }
  assert (HDr : Forall (fun i => i < length (error_codes r1)) D) by (by rewrite Hlen).
  destruct (ProcessErrorResult_spec r1 Hec) as (Hcs & _); [by intros E; rewrite E in Hlen; destruct keys|].
  injection Hrun as <- <-. rewrite <-Hlen, Hcs.
  set (x2 := AdjustKeyCountMeta _ x1).
  assert (Hv : stored x2 = stored x1) by (unfold x2, AdjustKeyCountMeta; by destruct (_ <=? _)%Z).
  rewrite Hv. destruct (delete_steps_gone _ _ _ _ Hs) as [_ Hgone].
  split_and!.
  - pose proof (delete_steps_size _ _ _ _ Hs) as Hsz. rewrite length_gather in Hsz by done.
    assert (HlD : length D = length keys).
    { rewrite <-(length_seq (length keys) 0). apply Permutation_length, NoDup_Permutation;
        [apply processing_order_NoDup|apply NoDup_seq|]. intros i.
      rewrite elem_of_seq. unfold D. rewrite elem_of_processing_order. lia. }
    assert (Hf : failures (gather D (error_codes r1)) = failures (error_codes r1)).
    { transitivity (failures (gather (seq 0 (length keys)) (error_codes r1)));
        [|by rewrite <-Hlen, gather_seq].
      unfold failures, gather. apply Permutation_length, filter_Permutation, omap_Permutation, NoDup_Permutation;
        [apply processing_order_NoDup|apply NoDup_seq|]. intros i.
      rewrite elem_of_seq. unfold D. rewrite elem_of_processing_order. lia. }
    rewrite Hf, HlD in Hsz. pose proof (failures_le (error_codes r1)).
    unfold x2, AdjustKeyCountMeta. rewrite i32_small by lia.
    assert (Hk1 : key_count_ x1 = key_count_ x) by (by rewrite Hx).
    destruct (Z.leb_spec 0 (Z.of_nat (failures (error_codes r1)) - Z.of_nat (length (error_codes r1)))); simpl; lia.
  - intros i k c Hk Hc Hor.
    assert (Hi : i ∈ D) by (unfold D; apply elem_of_processing_order; by eapply lookup_lt_Some).
    apply list_elem_of_lookup in Hi as (p & Hp). apply (Hgone k c); [|done].
    apply list_elem_of_lookup. exists p. apply lookup_zip_with_Some. eexists _, _.
    split_and!; [done|by rewrite (lookup_gather _ _ p i)|by rewrite (lookup_gather _ _ p i)].
  - intros k Hni. assert (Hk : k ∉ gather D keys).
    { unfold gather. intros (i & _ & Hi)%list_elem_of_omap. apply Hni, list_elem_of_lookup. eauto. }
    by eapply delete_steps_other.
Qed.

End single_tier.

(** C33: the batches [MakeBatches] cuts a request into visit every position
    exactly once; the shard locks are taken in one strictly ascending order
    over the whole request, so no shard is locked twice and lock acquisition
    cannot deadlock; operations on the same key keep their request order; and
    a batch exceeds the soft size limit only through its last shard. *)
Theorem MakeBatches_sound {PT CT} (keys : list KeyType) (x : MetaIndexer PT CT) :
  let bs := MakeBatches keys x in
  bs ≫= global_indices ≡ₚ seq 0 (length keys) /\
  StronglySorted Z.lt (bs ≫= shard_indices) /\
  (forall k, filter (fun i => keys !! i = Some k) (bs ≫= global_indices) =
             filter (fun i => keys !! i = Some k) (seq 0 (length keys))) /\
  (forall b, b ∈ bs -> exists pre s, shard_indices b = pre ++ [s] /\
     (pre = [] \/ length (pre ≫= (fun s => positions (GetMutexShardIndex x) s 0 keys)) < batch_key_size_ x)).
Proof.
  intros bs. destruct (MakeBatches_ok keys x) as (Hs & _ & _ & Hlim). split_and!.
  - apply NoDup_Permutation; [apply processing_order_NoDup|apply NoDup_seq|]. intros i.
    etrans; [apply (elem_of_processing_order keys x)|]. rewrite elem_of_seq. lia.
  - done.
  - apply processing_order_same_key.
  - by apply Forall_forall.
Qed.

(** ** Samples *)

Definition sample_indexer : MetaIndexer MetaDummyBackend MetaLocalBackend :=
  mkIndexer (mkManager sample_store None kRunning ∅) 2 10 2 (fun k => (k mod 3)%Z).

Lemma Put_refines_sequential_witness :
  let locs := [∅; {[ "a" := None ]}; ∅; {[ "b" := None ]}] in
  let out := Put [5; 1; 3; 1]%Z locs [] sample_indexer in
  ec out.1 = EC_OK /\
  stored out.2 = apply_puts (zip [5; 1; 3; 1]%Z locs) (error_codes out.1) (stored sample_indexer).
Proof.
  intros locs out. split; [vm_compute; reflexivity|]. destruct out as [r x'] eqn:E.
  apply (Put_refines_sequential [5; 1; 3; 1]%Z locs [] sample_indexer r x'); try done; [by left|..];
    vm_compute; congruence.
Defined.

Lemma Delete_count_exact_witness :
  let out := Delete [2; 9; 2]%Z sample_indexer in
  error_codes out.1 = [EC_OK; EC_NOENT; EC_NOENT] /\
  key_count_ out.2 = Z.of_nat (size (stored out.2)).
Proof.
  intros out. split; [vm_compute; reflexivity|]. destruct out as [r x'] eqn:E.
  refine (proj1 (Delete_count_exact [2; 9; 2]%Z sample_indexer r x' eq_refl _ _ _ E));
    [done|vm_compute; reflexivity|vm_compute; reflexivity].
Defined.
