(* ===== verification/IndexerRmw.v ===== *)
(** * IndexerRmw: the read-modify-write engine of [meta/meta_indexer.cc]

    [ReadModifyWriteBlock] and [ReadModifyWriteLocation] run, per batch and
    under its shard locks: a read of the batch, a caller-supplied modifier per
    key, then one upsert and one delete of what the modifiers decided. A
    modifier is a function with its own state [W] (what the C++ lambda
    captures by reference). The maintenance variant (no-touch reads, [Sync])
    and the created-key tracking of [ReadModifyWriteTargetLocations] are not
    modelled. *)

From stdpp Require Import base gmap sets list strings.
From Stdlib Require Import ZArith Lia.
From S2P Require Import Prelude MetaTypes MetaBackend DummyBackend LocalBackend BackendManager BackendReads MetaIndexer.

(** [BlockIdsOnlyModifierFunc]: existing ids, read code, position; the action
    with its code, the properties and the new locations to upsert. *)
Definition BlockModifier (W : Type) : Type :=
  list LocationId -> ErrorCode -> nat -> W ->
  ((ModifierAction * ErrorCode) * (PropertyMap * CacheLocationMap)) * W.

(** [LocationModifierFunc]: read codes, ids, position and values; the action
    with its codes, the values left in [locs] and the properties. *)
Definition LocationModifier (W : Type) : Type :=
  list ErrorCode -> list LocationId -> nat -> list CacheLocationConstPtr -> W ->
  ((ModifierAction * list ErrorCode) * (list CacheLocationConstPtr * PropertyMap)) * W.

Section rmw.
Context {PT CT W : Type} `{PB : !MetaStorageBackend PT} `{CB : !MetaCacheBaseBackend CT}.
Local Abbreviation Indexer := (MetaIndexer PT CT).

(** The upsert part of a batch and the delete part; [delete_ids] is empty
    for whole-key deletes. *)
Record RmwBatch := mkRmwBatch {
  upsert_batch : list UpsertRow;
  put_global_indexs : list nat;
  delete_rows : list (nat * KeyType);
  delete_ids : list (list LocationId);
}.

Definition empty_rmw : RmwBatch := mkRmwBatch [] [] [] [].

(** ** Dispatch *)

Definition run_upsert (rows : list UpsertRow) (x : Indexer) : list ErrorCode * Indexer :=
  let '(codes, m) := Upsert (up_key <$> rows) (up_locations <$> rows) (up_properties <$> rows)
                       (backend_manager_ x) in
  (codes, with_manager m x).

(** The rows with their positions in the batch that update existing keys. *)
Definition existing_updates (rows : list UpsertRow) (put_indexs : list nat) (key_num : nat)
    : list (nat * UpsertRow) :=
  filter (fun ir => (up_index ir.2 < key_num)%nat /\ up_index ir.2 ∉ put_indexs) (imap pair rows).

(** The codes of [ExecuteRmwUpsert]'s backend write, with the capacity check. *)
Definition upsert_codes (rows : list UpsertRow) (put_indexs : list nat) (all_keys : list KeyType)
    (preserve_existing_updates_when_full : bool) (x : Indexer) : list ErrorCode * Indexer :=
  let unique_put_keys : gset KeyType := list_to_set (gather put_indexs all_keys) in
  if negb (max_key_count_ x <? Z.of_nat (size unique_put_keys) + key_count_ x)%Z
  then run_upsert rows x
  else if negb preserve_existing_updates_when_full
  then (replicate (length rows) EC_NOSPC, x)
  else
    let existing := existing_updates rows put_indexs (length all_keys) in
    match existing with
    | [] => (replicate (length rows) EC_NOSPC, x)
    | _ =>
        let '(backend_ecs, x) := run_upsert existing.*2 x in
        let upsert_ecs := replicate (length rows) EC_NOSPC in
        if wrong_size backend_ecs existing
        then (scatter existing.*1 (replicate (length existing) EC_MISMATCH) upsert_ecs, x)
        else (scatter existing.*1 backend_ecs upsert_ecs, x)
    end.

(** [ExecuteRmwUpsert]: the failures and the number of keys created. *)
Definition ExecuteRmwUpsert (rows : list UpsertRow) (put_indexs : list nat) (all_keys : list KeyType)
    (result : Result) (preserve_existing_updates_when_full : bool) (x : Indexer)
    : (nat * nat) * Result * Indexer :=
  match rows with
  | [] => ((0, 0), result, x)
  | _ =>
      let '(upsert_ecs, x) :=
        upsert_codes rows put_indexs all_keys preserve_existing_updates_when_full x in
      let '(error_count, result) :=
        ProcessErrorCodes upsert_ecs (up_index <$> rows) (length all_keys) result in
      let counted := if (error_count =? 0)%nat then put_indexs
                     else filter (fun i => error_codes result !! i = Some EC_OK) put_indexs in
      ((error_count, size (list_to_set (gather counted all_keys) : gset KeyType)), result, x)
  end.

(** [ExecuteRmwDelete]: the failures and the number of keys removed. *)
Definition ExecuteRmwDelete (rows : list (nat * KeyType)) (ids : list (list LocationId))
    (key_num : nat) (result : Result) (x : Indexer) : (nat * nat) * Result * Indexer :=
  match rows with
  | [] => ((0, 0), result, x)
  | _ =>
      let '(delete_ecs, reclaimed_count, m) :=
        match ids with
        | [] => let '(r, m) := BackendManager.Delete rows.*2 (backend_manager_ x) in (r, 0, m)
        | _ => let '((r, n), m) := BackendManager.DeleteLocations rows.*2 ids (backend_manager_ x) in (r, n, m)
        end in
      let x := with_manager m x in
      let '(error_count, result) := ProcessErrorCodes delete_ecs rows.*1 key_num result in
      let delete_success_count :=
        match ids with [] => length rows - error_count | _ => reclaimed_count end in
      ((error_count, delete_success_count), result, x)
  end.

(** ** Whole blocks *)

(** What the modifier decides for one key of [ReadModifyWriteBlock]; a code
    that is reported without a write is the last component. *)
Definition block_row (idx : nat) (k : KeyType) (get_ec : ErrorCode)
    (r : (ModifierAction * ErrorCode) * (PropertyMap * CacheLocationMap))
    : RmwBatch * list (nat * ErrorCode) :=
  let '((action, modifier_ec), (props, new_locations)) := r in
  match action with
  | MA_OK =>
      if bool_decide (get_ec <> EC_OK) && bool_decide (get_ec <> EC_NOENT)
      then (empty_rmw, [(idx, get_ec)])
      else (mkRmwBatch [mkUpsert idx k new_locations props]
              (if bool_decide (get_ec = EC_NOENT) then [idx] else []) [] [], [])
  | MA_DELETE =>
      if bool_decide (modifier_ec = EC_OK) then (mkRmwBatch [] [] [(idx, k)] [], [])
      else (empty_rmw, [(idx, modifier_ec)])
  | _ =>
      (empty_rmw, if bool_decide (modifier_ec <> EC_OK) then [(idx, modifier_ec)] else [])
  end.

Definition rmw_app (a b : RmwBatch) : RmwBatch :=
  mkRmwBatch (upsert_batch a ++ upsert_batch b) (put_global_indexs a ++ put_global_indexs b)
    (delete_rows a ++ delete_rows b) (delete_ids a ++ delete_ids b).

Fixpoint classify_block (modifier : BlockModifier W)
    (rows : list ((nat * KeyType) * (ErrorCode * list LocationId))) (w : W)
    : (RmwBatch * list (nat * ErrorCode)) * W :=
  match rows with
  | [] => ((empty_rmw, []), w)
  | ((idx, k), (get_ec, ids)) :: rows =>
      let '(r, w) := modifier ids get_ec idx w in
      let '(b, codes) := block_row idx k get_ec r in
      let '((bs, rest), w) := classify_block modifier rows w in
      ((rmw_app b bs, codes ++ rest), w)
  end.

Definition block_batch (modifier : BlockModifier W) (keys : list KeyType) (batch : IndexBatch)
    (st : nat * Result * Indexer * W) : nat * Result * Indexer * W :=
  let '(error_count, result, x, w) := st in
  let idxs := global_indices batch in
  let batch_keys := gather idxs keys in
  let '((get_ecs, location_ids), m) := BackendManager.GetLocationIds batch_keys (backend_manager_ x) in
  let x := with_manager m x in
  if wrong_size get_ecs batch_keys || wrong_size location_ids batch_keys
  then (error_count + length idxs,
        mkResult EC_MISMATCH (scatter idxs (replicate (length idxs) EC_MISMATCH) (error_codes result)), x, w)
  else
    let '((b, codes), w) :=
      classify_block modifier (zip (zip idxs batch_keys) (zip get_ecs location_ids)) w in
    let result := mkResult (ec result) (scatter codes.*1 codes.*2 (error_codes result)) in
    let '((upsert_errs, put_success_count), result, x) :=
      ExecuteRmwUpsert (upsert_batch b) (put_global_indexs b) keys result false x in
    let '((delete_errs, delete_success_count), result, x) :=
      ExecuteRmwDelete (delete_rows b) (delete_ids b) (length keys) result x in
    (error_count + length codes + upsert_errs + delete_errs, result,
     AdjustKeyCountMeta (i32 (Z.of_nat put_success_count - Z.of_nat delete_success_count)) x, w).

Definition ReadModifyWriteBlock (keys : list KeyType) (modifier : BlockModifier W) (x : Indexer) (w : W)
    : Result * Indexer * W :=
  match keys with
  | [] => (mkResult EC_OK [], x, w)
  | _ =>
      let '(error_count, result, x, w) :=
        foldl (fun st b => block_batch modifier keys b st)
          (0, mkResult EC_OK (all_codes keys EC_OK), x, w) (MakeBatches keys x) in
      (ProcessErrorResult error_count (length keys) result, x, w)
  end.

(** ** Single locations *)

(** [EC_OK] promises a usable value for the requested id; a null or mis-keyed
    value is turned into [EC_MISMATCH]. *)
Definition validate_slot (want : LocationId) (ec : ErrorCode) (v : CacheLocationConstPtr)
    : ErrorCode * CacheLocationConstPtr :=
  if bool_decide (ec = EC_OK)
  then match v with
       | Some l => if bool_decide (id l = want) then (ec, v) else (EC_MISMATCH, None)
       | None => (EC_MISMATCH, None)
       end
  else (ec, v).

(** The value the modifier left carries the id it is written under. *)
Definition usable_slot (s : LocationId * (ErrorCode * CacheLocationConstPtr)) : bool :=
  match s.2.2 with Some l => bool_decide (id l = s.1) | None => false end.

(** One key of [ReadModifyWriteLocationImpl] after its read: the rows to
    write, the codes stored for its locations, and whether the key failed. *)
Definition location_row (idx : nat) (k : KeyType) (ids : list LocationId) (get_ecs : list ErrorCode)
    (values : list CacheLocationConstPtr) (modifier : LocationModifier W) (w : W)
    : (RmwBatch * list ErrorCode * bool) * W :=
  if wrong_size get_ecs ids || wrong_size values ids
  then ((empty_rmw, replicate (length ids) EC_MISMATCH, true), w)
  else
    let checked := zip_with (fun i ev => validate_slot i ev.1 ev.2) ids (zip get_ecs values) in
    let get_ecs := checked.*1 in
    let read_failed := existsb (fun ec => negb (bool_decide (ec = EC_OK) || bool_decide (ec = EC_NOENT))) get_ecs in
    let '(((action, modifier_ecs), (locs, props)), w) := modifier get_ecs ids idx checked.*2 w in
    let bad := wrong_size modifier_ecs ids in
    let '(action, modifier_ecs) :=
      if bad then (MA_FAIL, replicate (length ids) EC_ERROR) else (action, modifier_ecs) in
    let modifier_ecs :=
      zip_with (fun g e => if bool_decide (g = EC_OK) || bool_decide (g = EC_NOENT) then e else g)
        get_ecs modifier_ecs in
    let '(modifier_ecs, unexplained) :=
      if bool_decide (action = MA_FAIL) && forallb (fun ec => bool_decide (ec = EC_OK)) modifier_ecs
      then (replicate (length ids) EC_ERROR, true) else (modifier_ecs, false) in
    let failed := read_failed || bad || unexplained in
    match action with
    | MA_OK =>
        let slots := zip ids (zip modifier_ecs locs) in
        let codes := (fun s : LocationId * (ErrorCode * CacheLocationConstPtr) =>
          if bool_decide (s.2.1 <> EC_OK) then s.2.1 else if usable_slot s then EC_OK else EC_MISMATCH) <$> slots in
        let broken := existsb (fun s => bool_decide (s.2.1 = EC_OK) && negb (usable_slot s)) slots in
        let upsert_loc_map : CacheLocationMap :=
          list_to_map (omap (fun s => if bool_decide (s.2.1 = EC_OK) && usable_slot s
                                      then Some (s.1, s.2.2) else None) slots) in
        let rows := if bool_decide (upsert_loc_map = ∅) && bool_decide (props = ∅) then []
                    else [mkUpsert idx k upsert_loc_map props] in
        ((mkRmwBatch rows [] [] [], codes, failed || broken), w)
    | MA_DELETE =>
        let alive_ids := omap (fun s : LocationId * ErrorCode =>
          if bool_decide (s.2 = EC_OK) then Some s.1 else None) (zip ids modifier_ecs) in
        ((match alive_ids with
          | [] => empty_rmw
          | _ => mkRmwBatch [] [] [(idx, k)] [alive_ids]
          end, modifier_ecs, failed), w)
    | MA_FAIL => ((empty_rmw, modifier_ecs, true), w)
    | MA_SKIP => ((empty_rmw, modifier_ecs, failed), w)
    end.

(** The modifiers of a batch in order; codes and failures per position. *)
Fixpoint classify_locations (modifier : LocationModifier W)
    (rows : list ((nat * KeyType) * (list LocationId * KeyAnswer))) (w : W)
    : (RmwBatch * list (nat * (list ErrorCode * bool))) * W :=
  match rows with
  | [] => ((empty_rmw, []), w)
  | ((idx, k), (ids, (get_ecs, values))) :: rows =>
      let '((b, codes, failed), w) := location_row idx k ids get_ecs values modifier w in
      let '((bs, rest), w) := classify_locations modifier rows w in
      ((rmw_app b bs, (idx, (codes, failed)) :: rest), w)
  end.

(** The write codes of the positions [idxs] spread over their locations. *)
Definition spread (idxs : list nat) (result : Result)
    (st : list (list ErrorCode) * list bool) : list (list ErrorCode) * list bool :=
  foldl (fun st i =>
    match error_codes result !! i with
    | Some e =>
        (alter (fmap (fun c => if bool_decide (c = EC_OK) then e else c)) i st.1,
         if bool_decide (e <> EC_OK) then <[i := true]> st.2 else st.2)
    | None => st
    end) st idxs.

Definition location_batch (modifier : LocationModifier W) (keys : list KeyType)
    (location_ids : list (list LocationId)) (adjust_reclaimed_key_count refresh_cache_from_persistent : bool)
    (batch : IndexBatch)
    (st : (list (list ErrorCode) * list bool) * Result * Indexer * W)
    : (list (list ErrorCode) * list bool) * Result * Indexer * W :=
  let '((per_location, failures), rmw_result, x, w) := st in
  let idxs := global_indices batch in
  let batch_keys := gather idxs keys in
  let batch_ids := gather idxs location_ids in
  let '(refresh_results, m) :=
    if refresh_cache_from_persistent
    then BackendManager.RefreshCacheFromPersistent batch_keys (backend_manager_ x)
    else ([], backend_manager_ x) in
  let '((get_ecs_per_key, locations_per_key), m) := BackendReads.GetLocationsById batch_keys batch_ids m in
  let x := with_manager m x in
  if wrong_size get_ecs_per_key batch_keys || wrong_size locations_per_key batch_keys
     || (refresh_cache_from_persistent && wrong_size refresh_results batch_keys)
  then (((scatter idxs ((fun i => replicate (length i) EC_MISMATCH) <$> batch_ids) per_location,
          scatter idxs (replicate (length idxs) true) failures), rmw_result, x), w)
  else
    let answers := zip get_ecs_per_key locations_per_key in
    let answers :=
      if refresh_cache_from_persistent
      then zip_with (fun (ri : ErrorCode * list LocationId) a =>
             if bool_decide (ri.1 = EC_OK) then a else failed_answer ri.2 ri.1)
             (zip refresh_results batch_ids) answers
      else answers in
    let '((b, outcomes), w) :=
      classify_locations modifier (zip (zip idxs batch_keys) (zip batch_ids answers)) w in
    let per_location := scatter outcomes.*1 (fst <$> outcomes.*2) per_location in
    let failures := scatter (filter (fun o => o.2.2 = true) outcomes).*1
                      (replicate (length outcomes) true) failures in
    let '((_, put_success_count), rmw_result, x) :=
      ExecuteRmwUpsert (upsert_batch b) (put_global_indexs b) keys rmw_result false x in
    let '(per_location, failures) := spread (up_index <$> upsert_batch b) rmw_result (per_location, failures) in
    let '((_, delete_success_count), rmw_result, x) :=
      ExecuteRmwDelete (delete_rows b) (delete_ids b) (length keys) rmw_result x in
    let '(per_location, failures) := spread (delete_rows b).*1 rmw_result (per_location, failures) in
    let x := AdjustKeyCountMeta
               (i32 (Z.of_nat put_success_count -
                     (if adjust_reclaimed_key_count then Z.of_nat delete_success_count else 0))) x in
    ((((per_location, failures), rmw_result), x), w).

(** [ReadModifyWriteLocation]. *)
Definition ReadModifyWriteLocation (keys : list KeyType) (location_ids : list (list LocationId))
    (modifier : LocationModifier W) (adjust_reclaimed_key_count refresh_cache_from_persistent : bool)
    (x : Indexer) (w : W) : LocationResult * Indexer * W :=
  match keys with
  | [] => (mkLocationResult EC_OK [], x, w)
  | _ =>
      if wrong_size location_ids keys then (mkLocationResult EC_BADARGS [], x, w)
      else
        let '((per_location, failures), _, x, w) :=
          foldl (fun st b => location_batch modifier keys location_ids adjust_reclaimed_key_count
                               refresh_cache_from_persistent b st)
            (((fun i => replicate (length i) EC_OK) <$> location_ids, replicate (length keys) false),
             mkResult EC_OK (all_codes keys EC_OK), x, w) (MakeBatches keys x) in
        let failed_key_count := length (filter (fun b => b = true) failures) in
        let ec := if (failed_key_count =? length keys)%nat then EC_ERROR
                  else if (0 <? failed_key_count)%nat then EC_PARTIAL_OK else EC_OK in
        (mkLocationResult ec per_location, x, w)
  end.

End rmw.

(** ** The key count of block read-modify-writes *)

Section block_count.
Context {PT CT W : Type} `{PB : !MetaStorageBackend PT} `{PL : !LawfulBackend PT}
  `{CB : !MetaCacheBaseBackend CT}.
Local Abbreviation Indexer := (MetaIndexer PT CT).
Implicit Types x : Indexer.

(** The positions of a row go to at most one of the sub-batches. *)
Definition batch_positions (b : RmwBatch) (codes : list (nat * ErrorCode)) : list nat :=
  (up_index <$> upsert_batch b) ++ (delete_rows b).*1 ++ codes.*1.

(** The upserts of a batch against the store it was read from. *)
Definition upserts_ok (V : StoreView) (rows : list (nat * KeyType)) (b : RmwBatch) : Prop :=
  Forall (fun u => (up_index u, up_key u) ∈ rows /\
    (up_index u ∈ put_global_indexs b <-> V !! up_key u = None)) (upsert_batch b) /\
  (forall i, i ∈ put_global_indexs b -> i ∈ up_index <$> upsert_batch b).

Lemma block_row_spec V idx k g (r : (ModifierAction * ErrorCode) * (PropertyMap * CacheLocationMap)) b codes :
  (g = EC_OK -> is_Some (V !! k)) -> (g = EC_NOENT -> V !! k = None) ->
  block_row idx k g r = (b, codes) ->
  batch_positions b codes ⊆+ [idx] /\ upserts_ok V [(idx, k)] b /\ delete_ids b = [] /\
  Forall (fun d => d = (idx, k)) (delete_rows b).
Proof.
  intros Hok Hno. destruct r as [[action mec] [props nl]]. unfold block_row.
  assert (Hemp : upserts_ok V [(idx, k)] empty_rmw) by (by split; [constructor|]).
  assert (Hnil : forall cs, length cs <= 1 -> Forall (eq idx) cs.*1 -> 
    batch_positions empty_rmw cs ⊆+ [idx] /\ upserts_ok V [(idx, k)] empty_rmw /\
    delete_ids empty_rmw = [] /\ Forall (fun d => d = (idx, k)) (delete_rows empty_rmw)).
  { intros cs Hl Hf. split_and!; [|done|done|constructor]. unfold batch_positions. simpl.
    destruct cs as [|[i c] [|]]; simpl in *; [apply submseteq_nil_l|apply Forall_cons in Hf as [-> _]; done|lia]. }
  destruct action; simpl.
  - destruct (bool_decide (g <> EC_OK) && bool_decide (g <> EC_NOENT)) eqn:Eg.
    { intros [= <- <-]. apply Hnil; [done|by constructor]. }
    intros [= <- <-]. unfold batch_positions. simpl. split_and!; [done| |done|constructor].
    apply andb_false_iff in Eg. destruct (decide (g = EC_NOENT)) as [->|Hn].
    + rewrite bool_decide_eq_true_2 by done. split; [|simpl; set_solver]. constructor; [|constructor].
      split; [left|]. simpl. rewrite Hno by done. split; [done|]. intros _. left.
    + rewrite bool_decide_eq_false_2 by done. split; [|simpl; set_solver].
      constructor; [|constructor]. split; [left|]. simpl.
      destruct Eg as [Eg%bool_decide_eq_false|Eg%bool_decide_eq_false]; [|done]. apply dec_stable in Eg.
      destruct (Hok Eg) as [ls Hls]. rewrite Hls. split; [by intros ?%not_elem_of_nil|done].
  - intros [= <- <-]. case_bool_decide; apply Hnil; (done || by constructor).
  - intros [= <- <-]. case_bool_decide; apply Hnil; (done || by constructor).
  - case_bool_decide; intros [= <- <-]; [|apply Hnil; (done || by constructor)].
    unfold batch_positions. simpl. split_and!; [done|by split; [constructor|]|done|by constructor].
Qed.

Lemma upserts_ok_app V r1 r2 a b :
  upserts_ok V r1 a -> upserts_ok V r2 b ->
  (forall i, i ∈ up_index <$> upsert_batch a -> i ∈ up_index <$> upsert_batch b -> False) ->
  upserts_ok V (r1 ++ r2) (rmw_app a b).
Proof.
  intros [Ha1 Ha2] [Hb1 Hb2] Hdis. split; simpl.
  - apply Forall_app. rewrite Forall_forall in Ha1, Hb1. split; apply Forall_forall; intros u Hu.
    + destruct (Ha1 u Hu) as [Hr Hp]. split; [set_solver|]. rewrite elem_of_app, <-Hp. split; [|auto].
      intros [?|Hin]; [done|]. destruct (Hdis (up_index u)); [by apply list_elem_of_fmap_2|by apply Hb2].
    + destruct (Hb1 u Hu) as [Hr Hp]. split; [set_solver|]. rewrite elem_of_app, <-Hp. split; [|auto].
      intros [Hin|?]; [|done]. destruct (Hdis (up_index u)); [by apply Ha2|by apply list_elem_of_fmap_2].
  - intros i. rewrite fmap_app, !elem_of_app. naive_solver.
Qed.

Lemma classify_block_spec (modifier : BlockModifier W) V rows : forall w b codes w',
  Forall (fun r => (r.2.1 = EC_OK -> is_Some (V !! r.1.2)) /\ (r.2.1 = EC_NOENT -> V !! r.1.2 = None)) rows ->
  NoDup rows.*1.*1 -> classify_block modifier rows w = ((b, codes), w') ->
  batch_positions b codes ⊆+ rows.*1.*1 /\ upserts_ok V rows.*1 b /\ delete_ids b = [] /\
  Forall (fun d => d ∈ rows.*1) (delete_rows b).
Proof.
  induction rows as [|[[idx k] [g ids]] rows IH]; intros w b codes w' Hall Hnd Hrun; simpl in Hrun.
  { simplify_eq. split_and!; [apply submseteq_nil_l|by split; [constructor|]|done|constructor]. }
  apply Forall_cons in Hall as [[Hg1 Hg2] Hall]. simpl in Hg1, Hg2. csimpl in *.
  apply NoDup_cons in Hnd as [Hni Hnd].
  destruct (modifier ids g idx w) as [r w1]. destruct (block_row idx k g r) as [b1 c1] eqn:Eb.
  destruct (classify_block modifier rows w1) as [[b2 c2] w2] eqn:Ec. simplify_eq.
  destruct (block_row_spec V _ _ _ _ _ _ Hg1 Hg2 Eb) as (Hp1 & Hu1 & Hi1 & Hd1).
  destruct (IH _ _ _ _ Hall Hnd Ec) as (Hp2 & Hu2 & Hi2 & Hd2).
  assert (Hperm : batch_positions (rmw_app b1 b2) (c1 ++ c2) ≡ₚ batch_positions b1 c1 ++ batch_positions b2 c2).
  { unfold batch_positions. simpl. rewrite !fmap_app. solve_Permutation. }
  split_and!.
  - rewrite Hperm. apply (submseteq_app _ [idx] _ (rows.*1.*1)); done.
  - apply (upserts_ok_app V [(idx, k)] rows.*1 b1 b2 Hu1 Hu2). intros i Hi1' Hi2'.
    assert (i = idx) as ->.
    { apply list_elem_of_singleton. eapply elem_of_submseteq; [|exact Hp1].
      unfold batch_positions. rewrite !elem_of_app. auto. }
    apply Hni. eapply elem_of_submseteq; [|exact Hp2]. unfold batch_positions. rewrite !elem_of_app. auto.
  - simpl. by rewrite Hi1, Hi2.
  - apply Forall_app. split; eapply Forall_impl; [exact Hd1| |exact Hd2|]; intros d; set_solver.
Qed.

(** The keys after a batch of upserts. *)
Lemma upsert_steps_dom rows codes V V' :
  steps upsert_step rows codes V V' ->
  dom V' = dom V ∪ list_to_set (filter (fun z => z.2 = EC_OK) (zip rows.*1 codes)).*1.
Proof.
  induction 1 as [|[k ls] e l r m1 m2 m3 HR _ IH]; [set_solver|]. csimpl. rewrite IH, filter_cons.
  unfold upsert_step in HR. simpl in HR. destruct HR as [[-> ->]|[[Hh _] ->]].
  - rewrite decide_True by done. csimpl. rewrite dom_insert_L. set_solver.
  - by rewrite decide_False.
Qed.

Lemma resized_id {A} keys (d : A) l : length l = length keys -> resized keys d l = l.
Proof. destruct l; [|done]. by destruct keys. Qed.

Lemma run_upsert_steps rows x codes x' :
  single_tier (backend_manager_ x) -> run_upsert rows x = (codes, x') ->
  x' = with_manager (backend_manager_ x') x /\ single_tier (backend_manager_ x') /\
  length codes = length rows /\
  steps upsert_step (zip (up_key <$> rows) (up_locations <$> rows)) codes (stored x) (stored x').
Proof.
  unfold single_tier, run_upsert. intros Hst. unfold Upsert, hydrate_if_recovering. rewrite Hst. simpl.
  rewrite !resized_id by (by rewrite !length_fmap).
  destruct (be_Upsert _ _ _ _) as [r p] eqn:E.
  apply be_Upsert_law in E as Hs; [|by rewrite !length_fmap..].
  pose proof (steps_length _ _ _ _ _ Hs) as Hlr. rewrite length_zip, !length_fmap, Nat.min_id in Hlr.
  rewrite wrong_size_eq by (by rewrite length_fmap). rewrite Hst. intros [= <- <-]. simpl.
  split_and!; [by destruct x|done|done|exact Hs].
Qed.

(** The keys whose upsert succeeded. *)
Definition upserted (rows : list UpsertRow) (codes : list ErrorCode) : gset KeyType :=
  list_to_set (filter (fun z => z.2 = EC_OK) (zip (up_key <$> rows) codes)).*1.

Lemma elem_of_upserted rows codes k :
  k ∈ upserted rows codes <->
  exists p u, rows !! p = Some u /\ up_key u = k /\ codes !! p = Some EC_OK.
Proof.
  unfold upserted. rewrite elem_of_list_to_set, list_elem_of_fmap. split.
  - intros ([k' c] & -> & [Hc Hin]%list_elem_of_filter). simpl in *. subst c.
    apply list_elem_of_lookup in Hin as (p & Hp).
    apply lookup_zip_with_Some in Hp as (k & c & Heq & Hk & Hc). simplify_eq/=.
    rewrite list_lookup_fmap in Hk. destruct (rows !! p) as [u|] eqn:Eu; simplify_eq/=. eauto.
  - intros (p & u & Hu & <- & Hc). exists (up_key u, EC_OK). split; [done|]. apply list_elem_of_filter.
    split; [done|]. apply list_elem_of_lookup. exists p. apply lookup_zip_with_Some.
    eexists _, _. split_and!; [done|by rewrite list_lookup_fmap, Hu|done].
Qed.

Definition created_keys (puts : list nat) (keys : list KeyType) : gset KeyType :=
  list_to_set (gather puts keys).

Lemma elem_of_created puts keys k : k ∈ created_keys puts keys <-> exists i, i ∈ puts /\ keys !! i = Some k.
Proof. unfold created_keys, gather. by rewrite elem_of_list_to_set, list_elem_of_omap. Qed.

Lemma upsert_codes_spec rows puts keys x codes x1 :
  single_tier (backend_manager_ x) -> upsert_codes rows puts keys false x = (codes, x1) ->
  x1 = with_manager (backend_manager_ x1) x /\ single_tier (backend_manager_ x1) /\
  length codes = length rows /\ dom (stored x1) = dom (stored x) ∪ upserted rows codes /\
  (upserted rows codes = ∅ \/ (Z.of_nat (size (created_keys puts keys)) + key_count_ x <= max_key_count_ x)%Z).
Proof.
  intros Hst Ec. unfold upsert_codes in Ec. fold (created_keys puts keys) in Ec.
  destruct (Z.ltb_spec (max_key_count_ x) (Z.of_nat (size (created_keys puts keys)) + key_count_ x))
    as [Hcap|Hcap]; simpl in Ec.
  - injection Ec as <- <-. rewrite length_replicate.
    assert (Hnil : upserted rows (replicate (length rows) EC_NOSPC) = ∅).
    { apply set_eq. intros k. rewrite elem_of_upserted. split; [|set_solver].
      intros (p & u & _ & _ & Hc). by apply lookup_replicate in Hc as [? _]. }
    rewrite Hnil. split_and!; [by destruct x|done|done|set_solver|by left].
  - apply run_upsert_steps in Ec as (? & ? & ? & Hs); [|done]. split_and!; try done; [|by right].
    apply upsert_steps_dom in Hs. by rewrite fst_zip in Hs by (by rewrite !length_fmap).
Qed.

(** The keys [ExecuteRmwUpsert] counts as created. *)
Definition counted_puts (puts : list nat) (codes result_codes : list ErrorCode) : list nat :=
  if (failures codes =? 0)%nat then puts else filter (fun i => result_codes !! i = Some EC_OK) puts.

Section counting.
Variables (rows : list UpsertRow) (puts : list nat) (keys : list KeyType) (codes old new : list ErrorCode)
  (V : StoreView).
Hypothesis Hlc : length codes = length rows.
Hypothesis Hrows : forall u, u ∈ rows ->
  keys !! up_index u = Some (up_key u) /\ (up_index u ∈ puts <-> V !! up_key u = None).
Hypothesis Hputs : forall i, i ∈ puts -> i ∈ up_index <$> rows.
Hypothesis Hok : forall i, i ∈ up_index <$> rows -> old !! i = Some EC_OK.
Hypothesis Hcol : collected (up_index <$> rows) codes old new.

Lemma row_code p u : rows !! p = Some u -> exists c, codes !! p = Some c /\ new !! up_index u = Some c.
Proof.
  intros Hu. destruct (lookup_lt_is_Some_2 codes p) as [c Hc]; [apply lookup_lt_Some in Hu; lia|].
  exists c. split; [done|]. destruct Hcol as (_ & Hset & _).
  apply (Hset p); [by rewrite list_lookup_fmap, Hu|done|]. apply Hok.
  apply list_elem_of_fmap_2. by eapply list_elem_of_lookup_2.
Qed.

Lemma put_row_of i : i ∈ puts -> exists p u, rows !! p = Some u /\ up_index u = i.
Proof.
  intros Hi. apply Hputs, list_elem_of_fmap in Hi as (u & -> & Hu).
  apply list_elem_of_lookup in Hu as (p & Hp). eauto.
Qed.

Lemma elem_of_counted i : i ∈ counted_puts puts codes new <-> i ∈ puts /\ new !! i = Some EC_OK.
Proof.
  unfold counted_puts. destruct (Nat.eqb_spec (failures codes) 0) as [H0|H0].
  - split; [|tauto]. intros Hi. split; [done|]. destruct (put_row_of i Hi) as (p & u & Hp & <-).
    destruct (row_code p u Hp) as (c & Hc & ->). f_equal. apply dec_stable. intros Hcn.
    apply list_elem_of_lookup_2 in Hc. unfold failures in H0. apply length_zero_iff_nil in H0.
    assert (Hin : c ∈ filter (fun c => c <> EC_OK) codes) by (by apply list_elem_of_filter).
    rewrite H0 in Hin. by apply not_elem_of_nil in Hin.
  - rewrite list_elem_of_filter. tauto.
Qed.

Lemma created_spec : created_keys (counted_puts puts codes new) keys = upserted rows codes ∖ dom V.
Proof.
  apply set_eq. intros k. rewrite elem_of_difference, not_elem_of_dom, elem_of_created, elem_of_upserted. split.
  - intros (i & Hi & Hk). apply elem_of_counted in Hi as [Hi Hci]. destruct (put_row_of i Hi) as (p & u & Hp & <-).
    destruct (Hrows u) as [Hk' Hpu]; [by eapply list_elem_of_lookup_2|]. rewrite Hk in Hk'. simplify_eq.
    split; [|by apply Hpu]. destruct (row_code p u Hp) as (c & Hc & Hn). rewrite Hn in Hci. simplify_eq. eauto.
  - intros [(p & u & Hp & <- & Hc) Hn]. destruct (Hrows u) as [Hk' Hpu]; [by eapply list_elem_of_lookup_2|].
    exists (up_index u). split; [|done]. apply elem_of_counted. split; [by apply Hpu|].
    destruct (row_code p u Hp) as (c & Hc' & Hn'). by simplify_eq.
Qed.

Lemma created_bounds :
  size (created_keys (counted_puts puts codes new) keys) <= length rows /\
  size (created_keys (counted_puts puts codes new) keys) <= size (created_keys puts keys).
Proof.
  split.
  - rewrite created_spec. trans (size (upserted rows codes)); [apply subseteq_size; set_solver|].
    unfold upserted. etrans; [apply size_list_to_set_le|]. rewrite length_fmap.
    etrans; [apply length_filter|]. rewrite length_zip, length_fmap. lia.
  - apply subseteq_size. intros k. rewrite !elem_of_created. intros (i & Hi & Hk).
    apply elem_of_counted in Hi as [Hi _]. eauto.
Qed.

End counting.

(** A batch of upserts creates exactly the keys it counts, within capacity. *)
Lemma ExecuteRmwUpsert_spec rows puts keys r x e n r' x' :
  single_tier (backend_manager_ x) -> length (error_codes r) = length keys ->
  NoDup (up_index <$> rows) ->
  (forall u, u ∈ rows -> keys !! up_index u = Some (up_key u) /\
    (up_index u ∈ puts <-> stored x !! up_key u = None)) ->
  (forall i, i ∈ puts -> i ∈ up_index <$> rows) ->
  (forall i, i ∈ up_index <$> rows -> error_codes r !! i = Some EC_OK) ->
  ExecuteRmwUpsert rows puts keys r false x = ((e, n), r', x') ->
  x' = with_manager (backend_manager_ x') x /\ single_tier (backend_manager_ x') /\
  size (stored x') = size (stored x) + n /\ n <= length rows /\
  (n = 0 \/ (Z.of_nat n + key_count_ x <= max_key_count_ x)%Z) /\
  length (error_codes r') = length keys /\
  (forall i, i ∉ up_index <$> rows -> error_codes r' !! i = error_codes r !! i).
Proof.
  intros Hst Hlr Hnd Hrows Hputs Hok Hrun. unfold ExecuteRmwUpsert in Hrun.
  destruct rows as [|u0 us]; [simplify_eq; split_and!; [by destruct x'|done|lia|lia|by left|done|done]|].
  remember (u0 :: us) as rows eqn:Hne. assert (Hne' : up_index <$> rows <> []) by (by rewrite Hne).
  clear Hne u0 us.
  destruct (upsert_codes rows puts keys false x) as [codes x1] eqn:Ec.
  destruct (upsert_codes_spec _ _ _ _ _ _ Hst Ec) as (Hx1 & Hst1 & Hlc & Hdom & Hcap).
  destruct (ProcessErrorCodes codes _ _ r) as [e1 r1] eqn:Ep.
  apply ProcessErrorCodes_spec in Ep as (-> & Hec & Hcol); [|done|by rewrite length_fmap|done| |done].
  2: { apply Forall_forall. intros i (u & -> & Hu)%list_elem_of_fmap.
       destruct (Hrows u Hu) as [Hk _]. by eapply lookup_lt_Some. }
  injection Hrun as <- <- <- <-. fold (counted_puts puts codes (error_codes r1)).
  fold (created_keys (counted_puts puts codes (error_codes r1)) keys).
  pose proof (created_spec rows puts keys codes _ _ _ Hlc Hrows Hputs Hok Hcol) as Hcr.
  destruct (created_bounds rows puts keys codes _ _ _ Hlc Hrows Hputs Hok Hcol) as [Hb1 Hb2].
  destruct Hcol as (Hlen & _ & Hoth). split_and!; [done|done| |done| |lia|exact Hoth].
  - rewrite <-!size_dom, Hdom, size_union_alt, Hcr. done.
  - destruct Hcap as [Hnil|Hcap]; [left|right; lia]. rewrite Hcr, Hnil. apply size_empty_iff. set_solver.
Qed.

Lemma ExecuteRmwDelete_spec rows (keys : list KeyType) r x e n r' x' :
  single_tier (backend_manager_ x) -> length (error_codes r) = length keys ->
  NoDup rows.*1 -> Forall (fun d => d.1 < length keys) rows ->
  ExecuteRmwDelete rows [] (length keys) r x = ((e, n), r', x') ->
  x' = with_manager (backend_manager_ x') x /\ single_tier (backend_manager_ x') /\
  size (stored x') + n = size (stored x) /\ n <= length rows /\
  length (error_codes r') = length keys /\
  (forall i, i ∉ rows.*1 -> error_codes r' !! i = error_codes r !! i).
Proof.
  intros Hst Hlr Hnd Hin Hrun. unfold ExecuteRmwDelete in Hrun.
  destruct rows as [|d0 ds]; [simplify_eq; split_and!; [by destruct x'|done|lia|lia|done|done]|].
  remember (d0 :: ds) as rows eqn:Hne. assert (Hne' : rows.*1 <> []) by (by rewrite Hne). clear Hne d0 ds.
  destruct (BackendManager.Delete rows.*2 (backend_manager_ x)) as [codes m] eqn:Ed.
  assert (Hd : delete_op rows.*2 (seq 0 (length rows.*2)) (backend_manager_ x) = (codes, m))
    by (unfold delete_op; by rewrite gather_seq).
  apply delete_op_steps in Hd as [Hst1 Hs]; [|done]. rewrite gather_seq in Hs.
  pose proof (steps_length _ _ _ _ _ Hs) as Hlc. rewrite length_fmap in Hlc.
  destruct (ProcessErrorCodes codes _ _ r) as [e1 r1] eqn:Ep.
  apply ProcessErrorCodes_spec in Ep as (-> & Hec & Hlen & _ & Hoth); [|done|by rewrite length_fmap|done| |done].
  2: { rewrite Forall_forall in Hin. apply Forall_forall. intros i (d & -> & Hd)%list_elem_of_fmap. by apply Hin. }
  injection Hrun as <- <- <- <-. apply delete_steps_size in Hs. rewrite Hlc in Hs.
  split_and!; [by destruct x|done|exact Hs|lia|lia|exact Hoth].
Qed.

Definition count_exact x : Prop :=
  single_tier (backend_manager_ x) /\ key_count_ x = Z.of_nat (size (stored x)) /\
  (key_count_ x <= max_key_count_ x)%Z.

Lemma AdjustKeyCount_exact x y (n d len : nat) :
  y = with_manager (backend_manager_ y) x -> single_tier (backend_manager_ y) ->
  key_count_ x = Z.of_nat (size (stored x)) -> (key_count_ x <= max_key_count_ x)%Z ->
  size (stored y) + d = size (stored x) + n -> n <= len -> d <= len -> (Z.of_nat len < 2 ^ 31)%Z ->
  (n = 0 \/ (Z.of_nat n + key_count_ x <= max_key_count_ x)%Z) ->
  count_exact (AdjustKeyCountMeta (i32 (Z.of_nat n - Z.of_nat d)) y).
Proof.
  intros Hy Hst Hcnt Hmax Hsz Hn Hd H31 Hcap. rewrite i32_small by lia.
  assert (Hky : key_count_ y = key_count_ x) by (by rewrite Hy).
  assert (Hmy : max_key_count_ y = max_key_count_ x) by (by rewrite Hy).
  unfold count_exact, AdjustKeyCountMeta.
  destruct (Z.leb_spec 0 (Z.of_nat n - Z.of_nat d)); simpl;
    change (stored (with_count _ y)) with (stored y); split_and!; try done; lia.
Qed.

Lemma block_batch_spec (modifier : BlockModifier W) keys batch e r x w e' r' x' w' :
  count_exact x -> (Z.of_nat (length keys) < 2 ^ 31)%Z -> length (error_codes r) = length keys ->
  NoDup (global_indices batch) -> Forall (fun i => i < length keys) (global_indices batch) ->
  (forall i, i ∈ global_indices batch -> error_codes r !! i = Some EC_OK) ->
  block_batch modifier keys batch (e, r, x, w) = (e', r', x', w') ->
  count_exact x' /\ length (error_codes r') = length keys /\
  (forall i, i ∉ global_indices batch -> error_codes r' !! i = error_codes r !! i).
Proof.
  intros (Hst & Hcnt & Hmax) H31 Hlr Hnd Hall Hok Hrun. unfold block_batch in Hrun.
  set (idxs := global_indices batch) in *. set (bkeys := gather idxs keys) in *.
  assert (Hlb : length bkeys = length idxs) by (by apply length_gather).
  unfold BackendManager.GetLocationIds, tiered_read in Hrun. unfold single_tier in Hst. rewrite Hst in Hrun.
  destruct (be_GetLocationIds bkeys _) as [[gs lids] p] eqn:Eg.
  destruct (be_GetLocationIds_law _ _ _ _ _ Eg) as [Hv Hrd].
  destruct (Forall3i_length _ _ _ _ Hrd) as [Hl1 Hl2]. rewrite !wrong_size_eq in Hrun by done. cbn [orb] in Hrun.
  set (x1 := with_manager (set_persistent p (backend_manager_ x)) x) in Hrun.
  assert (Hs1 : stored x1 = stored x) by exact Hv.
  set (rows := zip (zip idxs bkeys) (zip gs lids)) in Hrun.
  assert (Hr1 : rows.*1 = zip idxs bkeys) by (unfold rows; apply fst_zip; rewrite !length_zip; lia).
  assert (Hr2 : rows.*1.*1 = idxs) by (rewrite Hr1; apply fst_zip; lia).
  assert (Hrk : forall i k, (i, k) ∈ rows.*1 -> keys !! i = Some k).
  { intros i k Hik. rewrite Hr1 in Hik. apply list_elem_of_lookup in Hik as (q & Hq).
    apply lookup_zip_with_Some in Hq as (i' & k' & [= <- <-] & Hi & Hk). unfold bkeys in Hk.
    by rewrite (lookup_gather _ _ q i) in Hk. }
  destruct (classify_block modifier rows w) as [[b codes] w1] eqn:Ec.
  apply (classify_block_spec modifier (stored x1)) in Ec as (Hpos & [Hu1 Hu2] & Hdi & Hdr); [| |by rewrite Hr2].
  2: { apply Forall_forall. intros [[i k] [g l]] (q & Hq)%list_elem_of_lookup.
       apply lookup_zip_with_Some in Hq as (ik & gl & Heq & Hik & Hgl). simplify_eq.
       apply lookup_zip_with_Some in Hik as (i' & k' & Heq & Hi & Hk). simplify_eq.
       apply lookup_zip_with_Some in Hgl as (g' & l' & Heq & Hg & Hl). simplify_eq. simpl.
       destruct (Forall3i_lookup _ _ _ _ _ _ Hrd Hk) as (g & l & Hg' & _ & Hrok). simplify_eq.
       change (be_view (persistent_backend_ (backend_manager_ x))) with (stored x) in Hrok. rewrite <-Hs1 in Hrok.
       destruct Hrok as [(-> & ls & Hls & _)|[[-> Hn]|[Hh1 Hh2]]]; split; done. }
  rewrite Hr2 in Hpos. rewrite Forall_forall in Hu1. rewrite Forall_forall in Hdr.
  assert (Hndp : NoDup (batch_positions b codes)).
  { apply submseteq_Permutation in Hpos as [l Hl]. rewrite Hl in Hnd. by apply NoDup_app in Hnd as [? _]. }
  assert (Hlen : length (upsert_batch b) <= length keys /\ length (delete_rows b) <= length keys).
  { apply submseteq_length in Hpos. unfold batch_positions in Hpos. rewrite !length_app, !length_fmap in Hpos.
    assert (length idxs <= length keys); [|lia].
    rewrite <-(length_seq (length keys) 0). apply submseteq_length, NoDup_submseteq; [done|].
    intros i Hi. apply elem_of_seq. rewrite Forall_forall in Hall. specialize (Hall i Hi). lia. }
  unfold batch_positions in Hndp, Hpos. apply NoDup_app in Hndp as (Hnu & Hdu & Hnd2).
  apply NoDup_app in Hnd2 as (Hndd & Hdd & _).
  assert (Hin : forall i, i ∈ (up_index <$> upsert_batch b) ++ (delete_rows b).*1 ++ codes.*1 -> i ∈ idxs)
    by (intros i Hi; by eapply elem_of_submseteq).
  destruct (ExecuteRmwUpsert _ _ _ _ _ _) as [[[ue n] r2] x2] eqn:Eu.
  apply ExecuteRmwUpsert_spec in Eu as (Hx2 & Hst2 & Hsz2 & Hn & Hcap & Hl2' & Ho2);
    [|exact Hst|simpl; by rewrite length_scatter|done| |done|].
  2: { intros u Hu. destruct (Hu1 u Hu) as [Hik Hp]. split; [by apply Hrk|exact Hp]. }
  2: { intros i Hi. simpl. rewrite lookup_scatter_ne; [apply Hok, Hin; set_solver|].
       intros Hc. apply (Hdu i Hi). set_solver. }
  rewrite Hdi in Hrun. destruct (ExecuteRmwDelete _ _ _ _ _) as [[[de d] r3] x3] eqn:Ed.
  apply ExecuteRmwDelete_spec in Ed as (Hx3 & Hst3 & Hsz3 & Hd & Hl3 & Ho3); [|exact Hst2|done|done|].
  2: { apply Forall_forall. intros [i k] Hik. eapply lookup_lt_Some. by apply Hrk, Hdr. }
  injection Hrun as <- <- <- <-. split_and!; [|done|].
  - apply (AdjustKeyCount_exact x1 x3 n d (length keys)); try done; try lia.
    + rewrite Hx3, Hx2. done.
    + by rewrite Hs1.
  - intros i Hi. rewrite Ho3, Ho2; [simpl; apply lookup_scatter_ne| |]; intros Hc; apply Hi, Hin; set_solver.
Qed.

Lemma block_batches_spec (modifier : BlockModifier W) keys bs : forall e r x w e' r' x' w',
  let D := bs ≫= global_indices in
  count_exact x -> (Z.of_nat (length keys) < 2 ^ 31)%Z -> length (error_codes r) = length keys ->
  NoDup D -> Forall (fun i => i < length keys) D ->
  (forall i, i ∈ D -> error_codes r !! i = Some EC_OK) ->
  foldl (fun st b => block_batch modifier keys b st) (e, r, x, w) bs = (e', r', x', w') ->
  count_exact x'.
Proof.
  induction bs as [|b bs IH]; intros e r x w e' r' x' w' D Hc H31 Hlr Hnd Hall Hok Hrun.
  { simpl in Hrun. by simplify_eq. }
  cbn [foldl] in Hrun.
  destruct (block_batch modifier keys b (e, r, x, w)) as [[[e1 r1] x1] w1] eqn:Eb.
  unfold D in *. clear D. csimpl in Hnd. csimpl in Hall. csimpl in Hok. apply NoDup_app in Hnd as (Hnd1 & Hdis & Hnd2).
  apply Forall_app in Hall as [Hall1 Hall2].
  apply block_batch_spec in Eb as (Hc1 & Hl1 & Ho1); [|done..|intros i Hi; apply Hok; set_solver].
  eapply IH; [| | | | | |exact Hrun]; try done. intros i Hi. rewrite Ho1; [apply Hok; set_solver|].
  intros Hb. by apply (Hdis i Hb).
Qed.

(** C17: a block-level read-modify-write on an index without a cache tier,
    for every modifier and batch of fewer than 2^31 keys (with repeated keys,
    deletes mixed with upserts, failing reads and writes), keeps the key count
    equal to the number of stored keys and within the configured maximum.
    (With a cache tier a key that the persistent tier stored and the cache
    refused is reported as failed and not counted.) *)
Theorem ReadModifyWriteBlock_count_exact keys (modifier : BlockModifier W) x w r x' w' :
  cache_backend_ (backend_manager_ x) = None -> (Z.of_nat (length keys) < 2 ^ 31)%Z ->
  key_count_ x = Z.of_nat (size (stored x)) -> (key_count_ x <= max_key_count_ x)%Z ->
  ReadModifyWriteBlock keys modifier x w = (r, x', w') ->
  key_count_ x' = Z.of_nat (size (stored x')) /\ (key_count_ x' <= max_key_count_ x')%Z.
Proof.
  intros Hst H31 Hcnt Hmax Hrun. assert (Hc : count_exact x') by (
    unfold ReadModifyWriteBlock in Hrun; destruct keys as [|k0 ks]; [by simplify_eq|];
    remember (k0 :: ks) as keys eqn:Hk; clear Hk k0 ks;
    destruct (foldl _ _ _) as [[[e1 r1] x1] w1] eqn:Ef; injection Hrun as _ <- _;
    apply block_batches_spec in Ef; try done;
    [simpl; unfold all_codes; by rewrite length_replicate
    |apply processing_order_NoDup
    |apply Forall_forall; intros i Hi; by apply elem_of_processing_order in Hi
    |intros i Hi; simpl; unfold all_codes; apply lookup_replicate_2; by apply elem_of_processing_order in Hi]).
  by destruct Hc as (_ & ? & ?).
Qed.

End block_count.

(** A modifier that creates a location for missing keys and deletes the others. *)
Definition sample_modifier : BlockModifier nat := fun ids get_ec idx w =>
  if bool_decide (get_ec = EC_NOENT)
  then (((MA_OK, EC_OK), (∅, {[ "new" := None ]})), S w)
  else (((MA_DELETE, EC_OK), (∅, ∅)), S w).

Lemma ReadModifyWriteBlock_count_exact_witness :
  let out := ReadModifyWriteBlock [7; 1; 7; 8]%Z sample_modifier sample_indexer 0 in
  key_count_ out.1.2 = 3%Z /\ key_count_ out.1.2 = Z.of_nat (size (stored out.1.2)).
Proof.
  intros out. split; [vm_compute; reflexivity|]. destruct out as [[r x'] w'] eqn:E.
  refine (proj1 (ReadModifyWriteBlock_count_exact [7; 1; 7; 8]%Z sample_modifier sample_indexer 0 r x' w'
    eq_refl _ _ _ E)); vm_compute; congruence.
Defined.

(** Spreading codes keeps the shape. *)
Lemma length_spread idxs r : forall st,
  length (spread idxs r st).1 = length st.1 /\ length (spread idxs r st).2 = length st.2.
Proof.
  induction idxs as [|i idxs IH]; intros st; [done|]. unfold spread. cbn [foldl].
  match goal with |- context [foldl ?f ?s idxs] => change (foldl f s idxs) with (spread idxs r s); destruct (IH s) as [-> ->] end.
  destruct (error_codes r !! i); [|done]. simpl. rewrite length_alter. split; [done|].
  case_bool_decide; [by rewrite length_insert|done].
Qed.
