(* ===== verification/RmwLocation.v ===== *)
(** * RmwLocation: what a location read-modify-write does to the store

    The semantics of [ReadModifyWriteLocation] ([meta/meta_indexer.cc]) for
    modifiers that keep no state and delete nothing, on a single-tier store
    and a request without repeated keys: every key is treated as if it were
    alone: its locations are read, its modifier decides, and its entry is
    updated (or left alone, with the failure reported). *)

From stdpp Require Import base gmap sets list strings.
From Stdlib Require Import ZArith Lia.
From S2P Require Import Prelude MetaTypes MetaBackend DummyBackend LocalBackend BackendManager BackendReads MetaIndexer IndexerRmw.

Lemma sublist_elem_of {A} (l k : list A) a : sublist l k -> a ∈ l -> a ∈ k.
Proof. intros Hs Ha. eapply elem_of_submseteq; [exact Ha|by apply sublist_submseteq]. Qed.

Lemma gather_NoDup {A} idxs (keys : list A) :
  NoDup keys -> NoDup idxs -> Forall (fun i => i < length keys) idxs -> NoDup (gather idxs keys).
Proof.
  intros Hndk Hnd Hall. pose proof (length_gather idxs keys Hall) as Hlb. apply NoDup_alt. intros q1 q2 k H1 H2.
  destruct (lookup_lt_is_Some_2 idxs q1) as [i1 Hi1]; [apply lookup_lt_Some in H1; lia|].
  destruct (lookup_lt_is_Some_2 idxs q2) as [i2 Hi2]; [apply lookup_lt_Some in H2; lia|].
  rewrite (lookup_gather _ _ q1 i1) in H1 by done. rewrite (lookup_gather _ _ q2 i2) in H2 by done.
  pose proof (NoDup_lookup keys i1 i2 k Hndk H1 H2) as ->. by apply (NoDup_lookup idxs q1 q2 i2).
Qed.

(** Steps on distinct keys are independent: each sees its own key as it was. *)
Lemma steps_distinct {A B} (R : A -> StoreView -> B -> StoreView -> Prop) (key : A -> KeyType) rows codes V V' :
  (forall a m b m', R a m b m' -> forall k, k <> key a -> m' !! k = m !! k) ->
  steps R rows codes V V' -> NoDup (key <$> rows) ->
  (forall p a c, rows !! p = Some a -> codes !! p = Some c ->
     exists V1 V1', R a V1 c V1' /\ V1 !! key a = V !! key a /\ V' !! key a = V1' !! key a) /\
  (forall k, k ∉ key <$> rows -> V' !! k = V !! k).
Proof.
  intros Hloc. induction 1 as [|a0 c0 rows codes m1 m2 m3 HR _ IH]; intros Hnd; [by split|].
  csimpl in Hnd. apply NoDup_cons in Hnd as [Hni Hnd]. destruct (IH Hnd) as [IH1 IH2]. split.
  - intros [|p] a c Hp Hc; simplify_eq/=.
    + exists m1, m2. split_and!; [done|done|]. by apply IH2.
    + destruct (IH1 p a c Hp Hc) as (V1 & V1' & H1 & H2 & H3). exists V1, V1'. split_and!; [done| |done].
      rewrite H2. eapply Hloc; [done|]. intros Heq. apply Hni. rewrite <-Heq. apply list_elem_of_fmap_2.
      by eapply list_elem_of_lookup_2.
  - intros k [Hk1 Hk2]%not_elem_of_cons. rewrite IH2 by done. by eapply Hloc.
Qed.

(** ** Every key by itself

    When each batch treats its keys one by one, so does the request. *)

Section each.
Context {PT CT W : Type} `{PB : !MetaStorageBackend PT} `{PL : !LawfulBackend PT}
  `{CB : !MetaCacheBaseBackend CT}.
Implicit Types x : MetaIndexer PT CT.
Variable modifier : LocationModifier W.
(** What happens to position [i] with key [k] and its locations. *)
Variable effect : StoreView -> StoreView -> nat -> KeyType -> list LocationId -> list ErrorCode -> Prop.
Hypothesis effect_frame : forall V1 V2 V1' V2' i k ids codes',
  V2 !! k = V1 !! k -> V2' !! k = V1' !! k -> effect V1 V1' i k ids codes' -> effect V2 V2' i k ids codes'.
Hypothesis batch_spec : forall keys lids adj batch per fl r x w per' fl' r' x' w',
  single_tier (backend_manager_ x) -> NoDup keys -> length lids = length keys ->
  length per = length keys -> length (error_codes r) = length keys ->
  NoDup (global_indices batch) -> Forall (fun i => i < length keys) (global_indices batch) ->
  (forall i, i ∈ global_indices batch -> error_codes r !! i = Some EC_OK) ->
  location_batch modifier keys lids adj false batch ((per, fl), r, x, w) = ((per', fl'), r', x', w') ->
  single_tier (backend_manager_ x') /\ length per' = length keys /\ length (error_codes r') = length keys /\
  (forall i, i ∉ global_indices batch -> error_codes r' !! i = error_codes r !! i /\ per' !! i = per !! i) /\
  (forall k, (forall i, i ∈ global_indices batch -> keys !! i <> Some k) -> stored x' !! k = stored x !! k) /\
  (forall i k ids, i ∈ global_indices batch -> keys !! i = Some k -> lids !! i = Some ids ->
     exists codes', per' !! i = Some codes' /\ effect (stored x) (stored x') i k ids codes').

Lemma location_batches_spec keys lids adj bs : forall per fl r x w per' fl' r' x' w',
  let D := bs ≫= global_indices in
  single_tier (backend_manager_ x) -> NoDup keys -> length lids = length keys ->
  length per = length keys -> length (error_codes r) = length keys ->
  NoDup D -> Forall (fun i => i < length keys) D ->
  (forall i, i ∈ D -> error_codes r !! i = Some EC_OK) ->
  foldl (fun st b => location_batch modifier keys lids adj false b st) ((per, fl), r, x, w) bs =
    ((per', fl'), r', x', w') ->
  single_tier (backend_manager_ x') /\ length per' = length keys /\
  (forall i, i ∉ D -> per' !! i = per !! i) /\
  (forall k, (forall i, i ∈ D -> keys !! i <> Some k) -> stored x' !! k = stored x !! k) /\
  (forall i k ids, i ∈ D -> keys !! i = Some k -> lids !! i = Some ids ->
     exists codes', per' !! i = Some codes' /\ effect (stored x) (stored x') i k ids codes').
Proof.
  induction bs as [|b bs IH]; intros per fl r x w per' fl' r' x' w' D Hst Hndk Hll Hlp Hlr Hnd Hall Hok Hrun.
  { cbn [foldl] in Hrun. simplify_eq. split_and!; [done|done|done|done|].
    intros i k ids Hi. by apply not_elem_of_nil in Hi. }
  cbn [foldl] in Hrun.
  destruct (location_batch modifier keys lids adj false b ((per, fl), r, x, w))
    as [[[[per1 fl1] r1] x1] w1] eqn:Eb.
  unfold D in *. clear D. csimpl in Hnd. csimpl in Hall. csimpl in Hok. csimpl.
  apply NoDup_app in Hnd as (Hnd1 & Hdis & Hnd2). apply Forall_app in Hall as [Hall1 Hall2].
  apply batch_spec in Eb as (Hst1 & Hlp1 & Hlr1 & Ho1 & Hk1 & Hp1); [|done..|].
  2: { intros i Hi. apply Hok, elem_of_app. by left. }
  apply IH in Hrun as (Hst2 & Hlp2 & Ho2 & Hk2 & Hp2); [|done..|].
  2: { intros i Hi. rewrite (proj1 (Ho1 i ltac:(intros Hb; by apply (Hdis i Hb)))).
       apply Hok, elem_of_app. by right. }
  assert (Hsep : forall i j k, i ∈ global_indices b -> j ∈ bs ≫= global_indices ->
    keys !! i = Some k -> keys !! j <> Some k).
  { intros i j k Hi Hj Hki Hkj. pose proof (NoDup_lookup keys i j k Hndk Hki Hkj) as ->. by apply (Hdis j). }
  split_and!; [done|done| | |].
  - intros i [Hi1 Hi2]%not_elem_of_app. rewrite Ho2 by done. by apply Ho1.
  - intros k Hk. rewrite Hk2, Hk1; [done| |]; intros i Hi; apply Hk, elem_of_app; auto.
  - intros i k ids [Hi|Hi]%elem_of_app Hki Hids.
    + destruct (Hp1 i k ids Hi Hki Hids) as (codes' & Hc & He). exists codes'. split.
      * rewrite Ho2; [done|]. by apply Hdis.
      * eapply effect_frame; [reflexivity| |exact He]. apply Hk2. intros j Hj. by eapply Hsep.
    + destruct (Hp2 i k ids Hi Hki Hids) as (codes' & Hc & He). exists codes'. split; [done|].
      eapply effect_frame; [|reflexivity|exact He]. symmetry. apply Hk1. intros j Hj Hkj.
      by apply (Hsep j i k).
Qed.

Lemma ReadModifyWriteLocation_each keys lids adj x w lr x' w' :
  single_tier (backend_manager_ x) -> NoDup keys -> length lids = length keys ->
  ReadModifyWriteLocation keys lids modifier adj false x w = (lr, x', w') ->
  single_tier (backend_manager_ x') /\ (forall i k ids, keys !! i = Some k -> lids !! i = Some ids ->
     exists codes', per_location_error_codes lr !! i = Some codes' /\
       effect (stored x) (stored x') i k ids codes') /\
  (forall k, k ∉ keys -> stored x' !! k = stored x !! k).
Proof.
  intros Hst Hndk Hll Hrun. unfold ReadModifyWriteLocation in Hrun.
  destruct keys as [|k0 ks]; [simplify_eq; split_and!; [done|done|by intros]|].
  remember (k0 :: ks) as keys eqn:Hk. clear Hk k0 ks. rewrite wrong_size_eq in Hrun by done.
  destruct (foldl _ _ _) as [[[[per fl] r] x1] w1] eqn:Ef. injection Hrun as <- <- _.
  apply location_batches_spec in Ef as (Hst' & Hlp & _ & Hoth & Hpos); try done.
  - split; [done|]. split; [|intros k Hk; apply Hoth; intros i _ Hi; by apply Hk, (list_elem_of_lookup_2 _ i)].
    intros i k ids Hki Hids. apply Hpos; [|done|done].
    change (i ∈ processing_order keys x). apply elem_of_processing_order. by eapply lookup_lt_Some.
  - by rewrite length_fmap.
  - simpl. unfold all_codes. by rewrite length_replicate.
  - apply processing_order_NoDup.
  - apply Forall_forall. intros i Hi. by apply elem_of_processing_order in Hi.
  - intros i Hi. simpl. unfold all_codes. apply lookup_replicate_2. by apply elem_of_processing_order in Hi.
Qed.

End each.

(** A request answers every key. *)
Lemma ReadModifyWriteLocation_length {PT CT W} `{PB : !MetaStorageBackend PT} `{CB : !MetaCacheBaseBackend CT}
    (modifier : LocationModifier W) keys lids adj refresh (x : MetaIndexer PT CT) w lr x' w' :
  length lids = length keys -> ReadModifyWriteLocation keys lids modifier adj refresh x w = (lr, x', w') ->
  length (per_location_error_codes lr) = length keys.
Proof.
  intros Hll. unfold ReadModifyWriteLocation. destruct keys as [|k0 ks]; [by intros [= <- _ _]|].
  set (keys := k0 :: ks) in *. rewrite wrong_size_eq by done.
  destruct (foldl _ _ _) as [[[[per fl] r] x1] w1] eqn:Ef. intros [= <- _ _]. etrans; [|exact Hll]. cbn [per_location_error_codes].
  assert (Hb : forall b st, length (location_batch modifier keys lids adj refresh b st).1.1.1.1 = length st.1.1.1.1).
  { intros b [[[[p f] q] y] v]. unfold location_batch.
    destruct (if refresh then _ else _) as [rr m]. destruct (GetLocationsById _ _ m) as [[gs ls] m'].
    destruct (_ || _); [simpl; apply length_scatter|]. destruct (classify_locations _ _ _) as [[bb outs] v'].
    destruct (ExecuteRmwUpsert _ _ _ _ _ _) as [[[? ?] r1] x2].
    destruct (spread _ r1 _) as [per1 fl1] eqn:E1. destruct (ExecuteRmwDelete _ _ _ _ _) as [[[? ?] r2] x3].
    destruct (spread _ r2 _) as [per2 fl2] eqn:E2. simpl.
    pose proof (f_equal (length ∘ fst) E1) as H1. pose proof (f_equal (length ∘ fst) E2) as H2. simpl in H1, H2.
    rewrite (proj1 (length_spread _ _ _)) in H1. rewrite (proj1 (length_spread _ _ _)) in H2. simpl in H1, H2. rewrite length_scatter in H1. lia. }
  assert (Hf : forall bs st, length (foldl (fun st b => location_batch modifier keys lids adj refresh b st) st bs).1.1.1.1 =
    length st.1.1.1.1).
  { induction bs as [|b bs IH]; intros st; [done|]. cbn [foldl]. by rewrite IH, Hb. }
  specialize (Hf (MakeBatches keys x) (((fun i => replicate (length i) EC_OK) <$> lids, replicate (length keys) false),
    mkResult EC_OK (all_codes keys EC_OK), x, w)). rewrite Ef in Hf. simpl in Hf. by rewrite length_fmap in Hf.
Qed.

(** The entry of one key after its row was dispatched, and the codes its
    locations end up with. *)
Definition row_effect (V V' : StoreView) (k : KeyType) (b : RmwBatch) (codes codes' : list ErrorCode) : Prop :=
  match upsert_batch b with
  | [] => V' !! k = V !! k /\ codes' = codes
  | u :: _ =>
      exists e, codes' = (fun c => if bool_decide (c = EC_OK) then e else c) <$> codes /\
        ((e = EC_OK /\ V' !! k = Some (up_locations u ∪ default ∅ (V !! k))) \/
         (hard e /\ V' !! k = V !! k))
  end.

Section location.
Context {PT CT : Type} `{PB : !MetaStorageBackend PT} `{PL : !LawfulBackend PT}
  `{CB : !MetaCacheBaseBackend CT}.
Local Abbreviation Indexer := (MetaIndexer PT CT).
Implicit Types x : Indexer.

Variable modifier : LocationModifier unit.
Hypothesis no_delete : forall gs ids i vs, (modifier gs ids i vs tt).1.1.1 <> MA_DELETE.

(** The outcome of a row; the modifier has no state. *)
Definition row_outcome (r : (nat * KeyType) * (list LocationId * KeyAnswer)) : RmwBatch * list ErrorCode * bool :=
  (location_row r.1.1 r.1.2 r.2.1 r.2.2.1 r.2.2.2 modifier tt).1.

Lemma row_outcome_spec r :
  let b := (row_outcome r).1.1 in
  put_global_indexs b = [] /\ delete_rows b = [] /\ delete_ids b = [] /\
  (upsert_batch b = [] \/ exists m p, upsert_batch b = [mkUpsert r.1.1 r.1.2 m p]).
Proof.
  destruct r as [[idx k] [ids [gs vs]]]. unfold row_outcome, location_row. simpl.
  destruct (_ || _); [by split_and!; [..|left]|].
  set (ch := zip_with _ _ _). specialize (no_delete ch.*1 ids idx ch.*2).
  destruct (modifier ch.*1 ids idx ch.*2 tt) as [[[action mecs] [locs props]] []]. simpl in no_delete.
  assert (Ha : exists action' mecs', (if wrong_size mecs ids then (MA_FAIL, replicate (length ids) EC_ERROR)
    else (action, mecs)) = (action', mecs') /\ action' <> MA_DELETE).
  { destruct (wrong_size mecs ids); eauto. }
  destruct Ha as (action' & mecs' & -> & Hnd). set (me := zip_with _ ch.*1 mecs').
  destruct (bool_decide (action' = MA_FAIL) && _); simpl; (destruct action'; [|by split_and!; [..|left]..|done]);
    simpl; (destruct (_ && _); (split_and!; [done|done|done|]); [by left|right; eauto]).
Qed.

Lemma classify_locations_spec rows :
  let '((b, outs), _) := classify_locations modifier rows tt in
  upsert_batch b = rows ≫= (fun r => upsert_batch (row_outcome r).1.1) /\
  put_global_indexs b = [] /\ delete_rows b = [] /\ delete_ids b = [] /\
  outs = (fun r => (r.1.1, ((row_outcome r).1.2, (row_outcome r).2))) <$> rows.
Proof.
  induction rows as [|[[idx k] [ids [gs vs]]] rows IH]; [by split_and!|].
  cbn [classify_locations]. pose proof (row_outcome_spec ((idx, k), (ids, (gs, vs)))) as Hr.
  unfold row_outcome in Hr. simpl in Hr.
  destruct (location_row idx k ids gs vs modifier tt) as [[[b1 c1] f1] []] eqn:El.
  simpl in Hr. destruct Hr as (Hp & Hd & Hi & _).
  destruct (classify_locations modifier rows tt) as [[b2 outs] u2]. simpl.
  destruct IH as (Hu & Hp2 & Hd2 & Hi2 & ->).
  assert (Hro : row_outcome ((idx, k), (ids, (gs, vs))) = (b1, c1, f1)) by (unfold row_outcome; simpl; by rewrite El).
  csimpl. rewrite Hro. simpl. rewrite Hp, Hd, Hi, Hp2, Hd2, Hi2, Hu. done.
Qed.

(** Upserts of distinct keys are independent. *)
Lemma upsert_steps_distinct rows codes V V' :
  steps upsert_step rows codes V V' -> NoDup rows.*1 ->
  (forall p k l c, rows !! p = Some (k, l) -> codes !! p = Some c ->
     (c = EC_OK /\ V' !! k = Some (l ∪ default ∅ (V !! k))) \/ (hard c /\ V' !! k = V !! k)) /\
  (forall k, k ∉ rows.*1 -> V' !! k = V !! k).
Proof.
  intros Hs Hnd. apply (steps_distinct upsert_step fst) in Hs as [Hp Ho]; [|  |done].
  - split; [|done]. intros p k l c Hr Hc. destruct (Hp p (k, l) c Hr Hc) as (V1 & V1' & HR & H1 & H2).
    unfold upsert_step in HR. simpl in *. rewrite H2, <-H1. destruct HR as [[-> ->]|[? ->]]; [left|by right].
    by rewrite lookup_insert_eq.
  - intros [k l] m c m' [[_ ->]|[_ ->]] k' Hk; [by rewrite lookup_insert_ne|done].
Qed.

Lemma spread_spec idxs r : forall per fl per' fl',
  NoDup idxs -> length per = length (error_codes r) ->
  spread idxs r (per, fl) = (per', fl') ->
  length per' = length per /\
  (forall i cs e, i ∈ idxs -> per !! i = Some cs -> error_codes r !! i = Some e ->
     per' !! i = Some ((fun c => if bool_decide (c = EC_OK) then e else c) <$> cs)) /\
  (forall i, i ∉ idxs -> per' !! i = per !! i).
Proof.
  induction idxs as [|i idxs IH]; intros per fl per' fl' Hnd Hl Hrun.
  { simpl in Hrun. simplify_eq. split_and!; [done| |done]. intros i cs e Hi. by apply not_elem_of_nil in Hi. }
  apply NoDup_cons in Hnd as [Hni Hnd]. unfold spread in Hrun. cbn [foldl fst snd] in Hrun.
  destruct (error_codes r !! i) as [e0|] eqn:Ee.
  - apply IH in Hrun as (Hlen & Hin & Hout); [|done|by rewrite length_alter].
    rewrite length_alter in Hlen. split_and!; [done| |].
    + intros j cs e Hj Hcs He. apply elem_of_cons in Hj as [->|Hj].
      * rewrite Hout by done. rewrite list_lookup_alter_eq, Hcs. simpl. by simplify_eq.
      * apply Hin; [done| |done]. rewrite list_lookup_alter_ne; [done|]. by intros ->.
    + intros j Hj. apply not_elem_of_cons in Hj as [Hj1 Hj2]. rewrite Hout by done.
      by apply list_lookup_alter_ne.
  - apply IH in Hrun as (Hlen & Hin & Hout); [|done|done]. split_and!; [done| |].
    + intros j cs e Hj Hcs He. apply elem_of_cons in Hj as [->|Hj]; [congruence|by apply Hin].
    + intros j Hj. apply not_elem_of_cons in Hj as [_ Hj]. by apply Hout.
Qed.

(** Dispatching upserts of distinct keys: each key succeeds or is untouched. *)
Lemma ExecuteRmwUpsert_effect rows puts keys r x e n r' x' :
  single_tier (backend_manager_ x) -> length (error_codes r) = length keys ->
  NoDup (up_index <$> rows) -> NoDup (up_key <$> rows) ->
  Forall (fun u => up_index u < length keys) rows ->
  (forall i, i ∈ up_index <$> rows -> error_codes r !! i = Some EC_OK) ->
  ExecuteRmwUpsert rows puts keys r false x = ((e, n), r', x') ->
  single_tier (backend_manager_ x') /\ length (error_codes r') = length keys /\
  (forall u, u ∈ rows -> exists c, error_codes r' !! up_index u = Some c /\
     ((c = EC_OK /\ stored x' !! up_key u = Some (up_locations u ∪ default ∅ (stored x !! up_key u))) \/
      (hard c /\ stored x' !! up_key u = stored x !! up_key u))) /\
  (forall i, i ∉ up_index <$> rows -> error_codes r' !! i = error_codes r !! i) /\
  (forall k, k ∉ up_key <$> rows -> stored x' !! k = stored x !! k).
Proof.
  intros Hst Hlr Hndi Hndk Hin Hok Hrun. unfold ExecuteRmwUpsert in Hrun.
  destruct rows as [|u0 us]; [simplify_eq; split_and!; try done; intros u Hu; by apply not_elem_of_nil in Hu|].
  remember (u0 :: us) as rows eqn:Hne. assert (Hne' : up_index <$> rows <> []) by (by rewrite Hne). clear Hne u0 us.
  destruct (upsert_codes rows puts keys false x) as [codes x1] eqn:Ec.
  assert (Hc : single_tier (backend_manager_ x1) /\ length codes = length rows /\
    (forall p u c, rows !! p = Some u -> codes !! p = Some c ->
       (c = EC_OK /\ stored x1 !! up_key u = Some (up_locations u ∪ default ∅ (stored x !! up_key u))) \/
       (hard c /\ stored x1 !! up_key u = stored x !! up_key u)) /\
    (forall k, k ∉ up_key <$> rows -> stored x1 !! k = stored x !! k)).
  { unfold upsert_codes in Ec. destruct (_ <? _)%Z; simpl in Ec.
    - injection Ec as <- <-. rewrite length_replicate. split_and!; [done|done| |done].
      intros p u c _ Hc. apply lookup_replicate in Hc as [-> _]. by right.
    - apply run_upsert_steps in Ec as (_ & Hst1 & Hlc & Hs); [|done].
      assert (Hk : (zip (up_key <$> rows) (up_locations <$> rows)).*1 = up_key <$> rows)
        by (apply fst_zip; by rewrite !length_fmap).
      apply upsert_steps_distinct in Hs as [Hd Ho]; [|by rewrite Hk]. split_and!; [done|done| |by rewrite <-Hk].
      intros p u c Hu Hc. eapply (Hd p); [|done]. apply lookup_zip_with_Some. eexists _, _.
      split; [done|]. by rewrite !list_lookup_fmap, Hu. }
  destruct Hc as (Hst1 & Hlc & Heff & Hother).
  destruct (ProcessErrorCodes codes _ _ r) as [e1 r1] eqn:Ep.
  apply ProcessErrorCodes_spec in Ep as (_ & _ & Hlen & Hset & Hoth); [|done|by rewrite length_fmap|done| |done].
  2: { by apply Forall_fmap. }
  injection Hrun as _ _ <- <-. split_and!; [done|lia| |done|done].
  intros u Hu. apply list_elem_of_lookup in Hu as (p & Hp).
  destruct (lookup_lt_is_Some_2 codes p) as [c Hc]; [apply lookup_lt_Some in Hp; lia|].
  exists c. split; [|by eapply Heff]. apply (Hset p); [by rewrite list_lookup_fmap, Hp|done|].
  apply Hok, list_elem_of_fmap_2. by eapply list_elem_of_lookup_2.
Qed.

Definition row_upserts (r : (nat * KeyType) * (list LocationId * KeyAnswer)) : list UpsertRow :=
  upsert_batch (row_outcome r).1.1.

Lemma row_upserts_sublist rows :
  sublist (up_index <$> (rows ≫= row_upserts)) rows.*1.*1 /\
  sublist (up_key <$> (rows ≫= row_upserts)) rows.*1.*2.
Proof.
  induction rows as [|r rows [IH1 IH2]]; [by split|]. csimpl. rewrite !fmap_app.
  destruct (row_outcome_spec r) as (_ & _ & _ & Hu). unfold row_upserts at 1 3.
  destruct Hu as [->|(m & p & ->)]; csimpl; split; by constructor.
Qed.

Lemma elem_of_row_upserts r u : u ∈ row_upserts r -> row_upserts r = [u] /\ up_index u = r.1.1 /\ up_key u = r.1.2.
Proof.
  destruct (row_outcome_spec r) as (_ & _ & _ & Hu). unfold row_upserts.
  destruct Hu as [->|(m & p & ->)]; [by intros ?%not_elem_of_nil|]. intros ->%list_elem_of_singleton. done.
Qed.

(** What a location request guarantees for position [i]. *)
Definition position_effect (V V' : StoreView) (i : nat) (k : KeyType) (ids : list LocationId)
    (codes' : list ErrorCode) : Prop :=
  exists r o, Forall3i (loc_read_ok V k) ids r o /\
    let out := row_outcome ((i, k), (ids, (r, o))) in row_effect V V' k out.1.1 out.1.2 codes'.

(** The rows of a batch: position, key, requested ids and what was read. *)
Definition batch_rows (idxs : list nat) (keys : list KeyType) (lids : list (list LocationId))
    (rs : list (list ErrorCode)) (os : list (list CacheLocationConstPtr)) :=
  zip (zip idxs (gather idxs keys)) (zip (gather idxs lids) (zip rs os)).

Lemma batch_rows_spec V idxs keys lids rs os :
  NoDup keys -> length lids = length keys -> NoDup idxs -> Forall (fun i => i < length keys) idxs ->
  Forall3i (fun ki r p => Forall3i (loc_read_ok V ki.1) ki.2 r p)
    (zip (gather idxs keys) (gather idxs lids)) rs os ->
  let rows := batch_rows idxs keys lids rs os in
  rows.*1.*1 = idxs /\ rows.*1.*2 = gather idxs keys /\ NoDup (gather idxs keys) /\
  (forall q i, idxs !! q = Some i -> exists k ids rr oo, keys !! i = Some k /\ lids !! i = Some ids /\
     rows !! q = Some ((i, k), (ids, (rr, oo))) /\ Forall3i (loc_read_ok V k) ids rr oo).
Proof.
  intros Hndk Hll Hnd Hall Hrd rows. unfold rows, batch_rows.
  assert (Hlb : length (gather idxs keys) = length idxs) by (by apply length_gather).
  assert (Hli : length (gather idxs lids) = length idxs) by (apply length_gather; by rewrite Hll).
  destruct (Forall3i_length _ _ _ _ Hrd) as [Hl1 Hl2]. rewrite length_zip in Hl1, Hl2.
  rewrite fst_zip by (rewrite !length_zip; lia). rewrite fst_zip, snd_zip by lia. split_and!; [done|done| |].
  - by apply gather_NoDup.
  - intros q i Hq. pose proof (lookup_lt_Some _ _ _ Hq) as Hlt.
    destruct (lookup_lt_is_Some_2 (gather idxs keys) q) as [k Hk]; [lia|].
    destruct (lookup_lt_is_Some_2 (gather idxs lids) q) as [ids Hi]; [lia|].
    destruct (Forall3i_lookup _ _ _ _ q (k, ids) Hrd) as (rr & oo & Hrr & Hoo & Hf);
      [apply lookup_zip_with_Some; eauto|].
    exists k, ids, rr, oo. split_and!; [| | |exact Hf].
    + by rewrite (lookup_gather _ _ q i) in Hk.
    + rewrite (lookup_gather _ _ q i) in Hi; [done|by rewrite Hll|done].
    + apply lookup_zip_with_Some. eexists _, _. split; [done|]. split; [apply lookup_zip_with_Some; eauto|].
      apply lookup_zip_with_Some. eexists _, _. split; [done|]. split; [done|]. apply lookup_zip_with_Some. eauto.
Qed.

(** Dispatching the rows of a batch and spreading the write codes. *)
Lemma dispatch_rows_spec V keys rows r x per fl e n r' x' per' fl' :
  stored x = V -> single_tier (backend_manager_ x) -> length per = length keys ->
  length (error_codes r) = length keys ->
  NoDup rows.*1.*1 -> NoDup rows.*1.*2 -> Forall (fun w => w.1.1 < length keys) rows ->
  (forall i, i ∈ rows.*1.*1 -> error_codes r !! i = Some EC_OK) ->
  ExecuteRmwUpsert (rows ≫= row_upserts) [] keys r false x = ((e, n), r', x') ->
  spread (up_index <$> (rows ≫= row_upserts)) r'
    (scatter rows.*1.*1 ((fun w => (row_outcome w).1.2) <$> rows) per, fl) = (per', fl') ->
  single_tier (backend_manager_ x') /\ length per' = length keys /\ length (error_codes r') = length keys /\
  (forall i, i ∉ rows.*1.*1 -> error_codes r' !! i = error_codes r !! i /\ per' !! i = per !! i) /\
  (forall k, k ∉ rows.*1.*2 -> stored x' !! k = V !! k) /\
  (forall w, w ∈ rows -> exists codes', per' !! w.1.1 = Some codes' /\
     row_effect V (stored x') w.1.2 (row_outcome w).1.1 (row_outcome w).1.2 codes').
Proof.
  intros HV Hst Hlp Hlr Hndi Hndk Hin Hok Hup Hsp. destruct (row_upserts_sublist rows) as [Hsi Hsk].
  assert (Hups : forall u, u ∈ rows ≫= row_upserts -> exists w, w ∈ rows /\ row_upserts w = [u] /\
    up_index u = w.1.1 /\ up_key u = w.1.2).
  { intros u (w & Hu & Hw)%list_elem_of_bind. apply elem_of_row_upserts in Hu as (? & ? & ?). eauto. }
  apply ExecuteRmwUpsert_effect in Hup as (Hst' & Hlr' & Heff & Hoi & Hok');
    [|done|done|by eapply sublist_NoDup|by eapply sublist_NoDup| |].
  2: { rewrite Forall_forall in Hin. apply Forall_forall. intros u Hu. destruct (Hups u Hu) as (w & Hw & _ & -> & _).
       by apply Hin. }
  2: { intros i Hi. apply Hok. by eapply sublist_elem_of. }
  apply spread_spec in Hsp as (Hlen & Hspi & Hspo); [|by eapply sublist_NoDup|rewrite length_scatter; lia].
  rewrite length_scatter in Hlen. rewrite HV in *.
  assert (Hni : forall i, i ∉ rows.*1.*1 -> i ∉ up_index <$> (rows ≫= row_upserts)).
  { intros i Hi Hc. apply Hi. by eapply sublist_elem_of. }
  split_and!; [done|lia|done| | |].
  - intros i Hi. rewrite Hoi, Hspo by auto. split; [done|]. by apply lookup_scatter_ne.
  - intros k Hk. apply Hok'. intros Hc. apply Hk. by eapply sublist_elem_of.
  - intros w Hw. pose proof Hw as (q & Hq)%list_elem_of_lookup.
    assert (Hi : rows.*1.*1 !! q = Some w.1.1) by (by rewrite !list_lookup_fmap, Hq).
    assert (Hper : scatter rows.*1.*1 ((fun w => (row_outcome w).1.2) <$> rows) per !! w.1.1 =
      Some (row_outcome w).1.2).
    { eapply (lookup_scatter _ _ _ q); [done|done|by rewrite list_lookup_fmap, Hq|].
      rewrite Hlp. rewrite Forall_forall in Hin. by apply Hin. }
    unfold row_effect. fold (row_upserts w). destruct (row_upserts w) as [|u us] eqn:Eu.
    + exists (row_outcome w).1.2. split_and!; [|apply Hok'|done].
      * rewrite Hspo; [done|]. intros (u & Hiu & Hu)%list_elem_of_fmap. destruct (Hups u Hu) as (w' & Hw' & Hu' & Hi' & _).
        assert (w' = w) as ->; [|congruence].
        apply list_elem_of_lookup in Hw' as (q' & Hq').
        assert (Hi2 : rows.*1.*1 !! q' = Some w.1.1) by (rewrite !list_lookup_fmap, Hq'; simpl; congruence).
        pose proof (NoDup_lookup _ _ _ _ Hndi Hi Hi2) as ->. congruence.
      * intros (u & Hiu & Hu)%list_elem_of_fmap. destruct (Hups u Hu) as (w' & Hw' & Hu' & _ & Hk').
        assert (w' = w) as ->; [|congruence].
        apply list_elem_of_lookup in Hw' as (q' & Hq').
        assert (Hk1 : rows.*1.*2 !! q = Some w.1.2) by (by rewrite !list_lookup_fmap, Hq).
        assert (Hk2 : rows.*1.*2 !! q' = Some w.1.2) by (rewrite !list_lookup_fmap, Hq'; simpl; congruence).
        pose proof (NoDup_lookup _ _ _ _ Hndk Hk1 Hk2) as ->. congruence.
    + assert (Hu : u ∈ row_upserts w) by (rewrite Eu; left). pose proof Hu as Hu'.
      apply elem_of_row_upserts in Hu as (_ & Hiu & Hku).
      assert (Hb : u ∈ rows ≫= row_upserts) by (apply list_elem_of_bind; eauto).
      destruct (Heff u Hb) as (c & Hc & Hor). rewrite Hiu in Hc. rewrite Hku in Hor.
      eexists. split; [apply Hspi; [rewrite <-Hiu; by apply list_elem_of_fmap_2|exact Hper|exact Hc]|].
      exists c. by split.
Qed.

Lemma location_batch_spec keys lids adj batch per fl r x per' fl' r' x' w :
  single_tier (backend_manager_ x) -> NoDup keys -> length lids = length keys ->
  length per = length keys -> length (error_codes r) = length keys ->
  NoDup (global_indices batch) -> Forall (fun i => i < length keys) (global_indices batch) ->
  (forall i, i ∈ global_indices batch -> error_codes r !! i = Some EC_OK) ->
  location_batch modifier keys lids adj false batch ((per, fl), r, x, tt) = ((per', fl'), r', x', w) ->
  single_tier (backend_manager_ x') /\ length per' = length keys /\ length (error_codes r') = length keys /\
  (forall i, i ∉ global_indices batch -> error_codes r' !! i = error_codes r !! i /\ per' !! i = per !! i) /\
  (forall k, (forall i, i ∈ global_indices batch -> keys !! i <> Some k) -> stored x' !! k = stored x !! k) /\
  (forall i k ids, i ∈ global_indices batch -> keys !! i = Some k -> lids !! i = Some ids ->
     exists codes', per' !! i = Some codes' /\ position_effect (stored x) (stored x') i k ids codes').
Proof.
  intros Hst Hndk Hll Hlp Hlr Hnd Hall Hok Hrun. unfold location_batch in Hrun.
  set (idxs := global_indices batch) in *.
  assert (Hlb : length (gather idxs keys) = length idxs) by (by apply length_gather).
  assert (Hli : length (gather idxs lids) = length idxs) by (apply length_gather; by rewrite Hll).
  unfold BackendReads.GetLocationsById in Hrun. rewrite wrong_size_eq in Hrun by lia.
  unfold single_tier in Hst. rewrite Hst in Hrun.
  destruct (be_GetLocationsById _ _ _) as [[rs os] p] eqn:Eg.
  apply be_GetLocationsById_law in Eg as [Hv Hrd]; [|lia].
  destruct (Forall3i_length _ _ _ _ Hrd) as [Hl1 Hl2]. rewrite length_zip in Hl1, Hl2.
  rewrite !wrong_size_eq in Hrun by lia. cbn [orb andb] in Hrun.
  set (x1 := with_manager (set_persistent p (backend_manager_ x)) x) in Hrun.
  destruct (batch_rows_spec (stored x) _ _ _ _ _ Hndk Hll Hnd Hall Hrd) as (Hri & Hrk & Hndb & Hrow).
  change (zip (zip idxs _) _) with (batch_rows idxs keys lids rs os) in Hrun.
  set (rows := batch_rows idxs keys lids rs os) in *.
  pose proof (classify_locations_spec rows) as Hcl.
  destruct (classify_locations modifier rows tt) as [[b outs] w1].
  destruct Hcl as (Hub & Hpb & Hdb & Hib & Houts). fold row_upserts in Hub.
  assert (Ho1 : outs.*1 = rows.*1.*1) by (rewrite Houts, <-!list_fmap_compose; done).
  assert (Ho2 : fst <$> outs.*2 = (fun w => (row_outcome w).1.2) <$> rows)
    by (rewrite Houts, <-!list_fmap_compose; done).
  rewrite Ho1, Ho2, Hub, Hpb, Hdb, Hib in Hrun.
  set (fl1 := scatter (filter _ outs).*1 _ fl) in Hrun.
  destruct (ExecuteRmwUpsert _ _ _ _ _ _) as [[[e n] r2] x2] eqn:Eu.
  destruct (spread _ r2 _) as [per2 fl2] eqn:Es. simpl in Hrun. injection Hrun as <- _ <- <- _.
  assert (Hrin : Forall (fun w => w.1.1 < length keys) rows).
  { apply Forall_forall. intros w0 Hw. rewrite Forall_forall in Hall. apply Hall. rewrite <-Hri.
    by do 2 apply list_elem_of_fmap_2. }
  pose proof (dispatch_rows_spec (stored x) keys rows r x1 per fl1 e n r2 x2 per2 fl2) as Hdis.
  rewrite Hri, Hrk in Hdis. rewrite Hri in Es.
  destruct Hdis as (Hst2 & Hlp2 & Hlr2 & Hout & Hoth & Hrows); try done.
  assert (Hadj : forall d, stored (AdjustKeyCountMeta d x2) = stored x2 /\
    single_tier (backend_manager_ (AdjustKeyCountMeta d x2))).
  { intros d. unfold AdjustKeyCountMeta. by destruct (_ <=? _)%Z. }
  set (d := i32 _). destruct (Hadj d) as [Hsd Hstd]. rewrite Hsd.
  split_and!; [done|done|done|done| |].
  - intros k Hk. apply Hoth. unfold gather. intros (i & Hi & Hik)%list_elem_of_omap. by apply (Hk i).
  - intros i k ids Hi Hk Hids. apply list_elem_of_lookup in Hi as (q & Hq).
    destruct (Hrow q i Hq) as (k' & ids' & rr & oo & Hk' & Hi' & Hq' & Hf). simplify_eq.
    destruct (Hrows _ ltac:(by eapply list_elem_of_lookup_2)) as (codes' & Hc' & He). exists codes'.
    split; [done|]. exists rr, oo. by split.
Qed.

Lemma row_effect_frame V1 V2 V1' V2' k b codes codes' :
  V2 !! k = V1 !! k -> V2' !! k = V1' !! k ->
  row_effect V1 V1' k b codes codes' -> row_effect V2 V2' k b codes codes'.
Proof. intros H1 H2. unfold row_effect. by rewrite H1, H2. Qed.

Lemma position_effect_frame V1 V2 V1' V2' i k ids codes' :
  V2 !! k = V1 !! k -> V2' !! k = V1' !! k ->
  position_effect V1 V1' i k ids codes' -> position_effect V2 V2' i k ids codes'.
Proof.
  intros H1 H2 (r & o & Hrd & He). exists r, o. split; [|by eapply row_effect_frame].
  eapply Forall3i_impl; [|exact Hrd]. intros ???. unfold loc_read_ok. by rewrite H1.
Qed.

(** Every key of a request behaves as if it were alone; other keys are untouched. *)
Lemma ReadModifyWriteLocation_spec keys lids adj x lr x' w' :
  single_tier (backend_manager_ x) -> NoDup keys -> length lids = length keys ->
  ReadModifyWriteLocation keys lids modifier adj false x tt = (lr, x', w') ->
  single_tier (backend_manager_ x') /\ (forall i k ids, keys !! i = Some k -> lids !! i = Some ids ->
     exists codes', per_location_error_codes lr !! i = Some codes' /\
       position_effect (stored x) (stored x') i k ids codes') /\
  (forall k, k ∉ keys -> stored x' !! k = stored x !! k).
Proof.
  apply (ReadModifyWriteLocation_each modifier position_effect position_effect_frame).
  intros ks ls ad batch per fl r y [] per' fl' r' y' w. apply location_batch_spec.
Qed.

End location.
