(* ===== verification/RmwBlock.v ===== *)
(** * RmwBlock: what a block read-modify-write does to the store

    The semantics of [ReadModifyWriteBlock] ([meta/meta_indexer.cc]) for
    modifiers that delete nothing, on a single-tier store and a request
    without repeated keys. A modifier may keep state (what its lambda captures
    by reference): a position sees the state the calls at other positions
    left, and what it stores there survives the calls that follow. *)

From stdpp Require Import base gmap sets list strings.
From Stdlib Require Import ZArith Lia.
From S2P Require Import Prelude MetaTypes MetaBackend DummyBackend LocalBackend BackendManager BackendReads MetaIndexer IndexerRmw RmwLocation.

(** An element is determined by a key without repetitions. *)
Lemma NoDup_fmap_determines {A B} (f : A -> B) l a a' :
  NoDup (f <$> l) -> a ∈ l -> a' ∈ l -> f a = f a' -> a = a'.
Proof.
  intros Hnd (q & Hq)%list_elem_of_lookup (q' & Hq')%list_elem_of_lookup Hf.
  assert (H1 : (f <$> l) !! q = Some (f a)) by (by rewrite list_lookup_fmap, Hq).
  assert (H2 : (f <$> l) !! q' = Some (f a)) by (by rewrite list_lookup_fmap, Hq', Hf).
  pose proof (NoDup_lookup _ _ _ _ Hnd H1 H2) as ->. congruence.
Qed.

(** The answer of a modifier. *)
Abbreviation BlockAnswer := ((ModifierAction * ErrorCode) * (PropertyMap * CacheLocationMap))%type.

(** A row of a batch (position, key, read code, ids) with the answer to it. *)
Abbreviation BlockCall := (((nat * KeyType) * (ErrorCode * list LocationId)) * BlockAnswer)%type.

Definition call_outcome (c : BlockCall) : RmwBatch * list (nat * ErrorCode) :=
  block_row c.1.1.1 c.1.1.2 c.1.2.1 c.2.

Definition call_upserts (c : BlockCall) : list UpsertRow := upsert_batch (call_outcome c).1.

(** The entry of one key after its call was dispatched, and its code. *)
Definition block_effect (V V' : StoreView) (c : BlockCall) (e : ErrorCode) : Prop :=
  match call_upserts c with
  | u :: _ =>
      (e = EC_OK /\ V' !! c.1.1.2 = Some (up_locations u ∪ default ∅ (V !! c.1.1.2))) \/
      (e <> EC_OK /\ V' !! c.1.1.2 = V !! c.1.1.2)
  | [] => V' !! c.1.1.2 = V !! c.1.1.2 /\ e = default EC_OK (snd <$> head (call_outcome c).2)
  end.

Lemma block_effect_frame V1 V2 V1' V2' c e :
  V2 !! c.1.1.2 = V1 !! c.1.1.2 -> V2' !! c.1.1.2 = V1' !! c.1.1.2 ->
  block_effect V1 V1' c e -> block_effect V2 V2' c e.
Proof. intros H1 H2. unfold block_effect. by rewrite H1, H2. Qed.

Section block.
Context {PT CT W : Type} `{PB : !MetaStorageBackend PT} `{PL : !LawfulBackend PT}
  `{CB : !MetaCacheBaseBackend CT}.
Local Abbreviation Indexer := (MetaIndexer PT CT).
Implicit Types x : Indexer.

Variable modifier : BlockModifier W.
Hypothesis no_delete : forall ids g i w, (modifier ids g i w).1.1.1 <> MA_DELETE.

(** The answers of the reads at a position. *)
Variable ok : nat -> list LocationId -> ErrorCode -> Prop.

(** The state changes of calls at positions other than [i]. *)
Definition others (i : nat) : relation W :=
  rtc (fun w w' => exists j ids g, j <> i /\ ok j ids g /\ (modifier ids g j w).2 = w').

(** The call [c] happened between the states [w] and [w']. *)
Definition called (c : BlockCall) (w w' : W) : Prop :=
  exists w1 w2, others c.1.1.1 w w1 /\ modifier c.1.2.2 c.1.2.1 c.1.1.1 w1 = (c.2, w2) /\
    others c.1.1.1 w2 w'.

Lemma called_l c w w1 w' : others c.1.1.1 w w1 -> called c w1 w' -> called c w w'.
Proof. intros Hw (a & b & ? & ? & ?). exists a, b. split_and!; [by etrans|done|done]. Qed.

Lemma called_r c w w1 w' : others c.1.1.1 w1 w' -> called c w w1 -> called c w w'.
Proof. intros Hw (a & b & ? & ? & ?). exists a, b. split_and!; [done|done|by etrans]. Qed.

(** A call that deletes nothing upserts its own row or reports a code. *)
Lemma call_outcome_spec c :
  c.2.1.1 <> MA_DELETE ->
  delete_rows (call_outcome c).1 = [] /\ delete_ids (call_outcome c).1 = [] /\
  ((exists m p, call_upserts c = [mkUpsert c.1.1.1 c.1.1.2 m p] /\ (call_outcome c).2 = []) \/
   (call_upserts c = [] /\ ((call_outcome c).2 = [] \/ exists e, (call_outcome c).2 = [(c.1.1.1, e)]))).
Proof.
  destruct c as [[[i k] [g ids]] [[[] mec] [props nl]]]; intros Hd; try done;
    unfold call_upserts, call_outcome, block_row; simpl; [destruct (_ && _)|case_bool_decide..]; simpl;
    (split; [done|]); (split; [done|]); [right|left|right..]; eauto.
Qed.

Lemma classify_block_calls rows : forall w b codes w',
  NoDup rows.*1.*1 -> Forall (fun r => ok r.1.1 r.2.2 r.2.1) rows -> classify_block modifier rows w = ((b, codes), w') ->
  (forall i, i ∉ rows.*1.*1 -> others i w w') /\
  exists calls : list BlockCall, calls.*1 = rows /\ Forall (fun c => called c w w' /\ c.2.1.1 <> MA_DELETE) calls /\
    upsert_batch b = calls ≫= call_upserts /\ codes = calls ≫= (fun c => (call_outcome c).2) /\
    delete_rows b = [] /\ delete_ids b = [].
Proof.
  induction rows as [|[[idx k] [g ids]] rows IH]; intros w b codes w' Hnd Hall Hrun; simpl in Hrun.
  { simplify_eq. split; [intros i _; apply rtc_refl|]. exists []. by split_and!. }
  csimpl in Hnd. apply NoDup_cons in Hnd as [Hni Hnd]. apply Forall_cons in Hall as [Hlt Hall]. simpl in Hlt.
  destruct (modifier ids g idx w) as [r w1] eqn:Em. destruct (block_row idx k g r) as [b1 c1] eqn:Eb.
  destruct (classify_block modifier rows w1) as [[b2 c2] w2] eqn:Ec. simplify_eq.
  destruct (IH _ _ _ _ Hnd Hall Ec) as (Hoth & calls & Hrows & Hcalls & Hu & Hcs & Hd & Hi).
  assert (Hstep : forall i, i <> idx -> others i w w1).
  { intros i Hne. apply rtc_once. exists idx, ids, g. by rewrite Em. }
  split. { intros i Hi'. csimpl in Hi'. apply not_elem_of_cons in Hi' as [Hi1 Hi2]. etrans; [by apply Hstep|by apply Hoth]. }
  assert (Hnod : r.1.1 <> MA_DELETE) by (specialize (no_delete ids g idx w); by rewrite Em in no_delete).
  set (c := (((idx, k), (g, ids)), r) : BlockCall).
  assert (Ho : call_outcome c = (b1, c1)) by exact Eb.
  destruct (call_outcome_spec c Hnod) as (Hd1 & Hi1 & _). rewrite Ho in Hd1, Hi1. simpl in Hd1, Hi1.
  exists (c :: calls). csimpl. unfold call_upserts at 1. rewrite Ho. simpl. rewrite Hrows, Hu, Hcs, Hd, Hi, Hd1, Hi1.
  split_and!; try done. constructor.
  - split; [|done]. exists w, w1. split_and!; [apply rtc_refl|exact Em|by apply Hoth].
  - rewrite Forall_forall in Hcalls. apply Forall_forall. intros c' Hc'. destruct (Hcalls c' Hc') as [Hcal ?].
    split; [|done].
    eapply called_l; [|exact Hcal]. apply Hstep. intros Heq. apply Hni. rewrite <-Hrows, <-Heq.
    by do 3 apply list_elem_of_fmap_2.
Qed.

(** The upserts and the reported codes of calls at distinct positions. *)
Lemma calls_sublist calls :
  Forall (fun c => c.2.1.1 <> MA_DELETE) calls ->
  sublist (up_index <$> (calls ≫= call_upserts)) calls.*1.*1.*1 /\
  sublist (up_key <$> (calls ≫= call_upserts)) calls.*1.*1.*2 /\
  sublist (calls ≫= (fun c => (call_outcome c).2)).*1 calls.*1.*1.*1.
Proof.
  induction 1 as [|c calls Hc _ (IH1 & IH2 & IH3)]; [by split_and!|]. csimpl. rewrite !fmap_app.
  destruct (call_outcome_spec c Hc) as (_ & _ & [(m & p & -> & ->)|(-> & [->|(e & ->)])]); csimpl;
    split_and!; by constructor.
Qed.

Lemma elem_of_call_upserts c u :
  c.2.1.1 <> MA_DELETE -> u ∈ call_upserts c ->
  call_upserts c = [u] /\ up_index u = c.1.1.1 /\ up_key u = c.1.1.2 /\ (call_outcome c).2 = [].
Proof.
  intros Hc Hu. destruct (call_outcome_spec c Hc) as (_ & _ & [(m & p & E & ?)|(E & _)]); rewrite E in Hu |- *.
  - by apply list_elem_of_singleton in Hu as ->.
  - by apply not_elem_of_nil in Hu.
Qed.

Section dispatch.
Variable calls : list BlockCall.
Hypothesis Hnod : Forall (fun c => c.2.1.1 <> MA_DELETE) calls.
Hypothesis Hndi : NoDup calls.*1.*1.*1.
Hypothesis Hndk : NoDup calls.*1.*1.*2.
Local Abbreviation codes := (calls ≫= (fun c => (call_outcome c).2)).

Lemma call_nodelete c : c ∈ calls -> c.2.1.1 <> MA_DELETE.
Proof. intros Hc. rewrite Forall_forall in Hnod. by apply Hnod. Qed.

Lemma call_by_position c c' : c ∈ calls -> c' ∈ calls -> c.1.1.1 = c'.1.1.1 -> c = c'.
Proof.
  apply (NoDup_fmap_determines (fun c : BlockCall => c.1.1.1)). by rewrite <-!list_fmap_compose in Hndi.
Qed.

Lemma call_by_key c c' : c ∈ calls -> c' ∈ calls -> c.1.1.2 = c'.1.1.2 -> c = c'.
Proof.
  apply (NoDup_fmap_determines (fun c : BlockCall => c.1.1.2)). by rewrite <-!list_fmap_compose in Hndk.
Qed.

Lemma call_of_upsert u : u ∈ calls ≫= call_upserts ->
  exists c, c ∈ calls /\ call_upserts c = [u] /\ up_index u = c.1.1.1 /\ up_key u = c.1.1.2 /\ (call_outcome c).2 = [].
Proof.
  intros (c & Hu & Hc)%list_elem_of_bind.
  apply elem_of_call_upserts in Hu as (? & ? & ? & ?); eauto 8 using call_nodelete.
Qed.

(** The code a call reports before the write. *)
Definition reported (c : BlockCall) : ErrorCode := default EC_OK (snd <$> head (call_outcome c).2).

Lemma reported_spec c r n :
  c ∈ calls -> length r = n -> c.1.1.1 < n -> r !! c.1.1.1 = Some EC_OK ->
  scatter codes.*1 codes.*2 r !! c.1.1.1 = Some (reported c).
Proof.
  intros Hc Hlr Hlt Hok. unfold reported. destruct (calls_sublist calls Hnod) as (_ & _ & Hsc).
  destruct (call_outcome c).2 as [|[i e] cs] eqn:E; simpl.
  - rewrite lookup_scatter_ne; [done|]. intros ([i e] & Hi & Hie)%list_elem_of_fmap. simpl in Hi.
    apply list_elem_of_bind in Hie as (c' & Hie & Hc').
    destruct (call_outcome_spec c' (call_nodelete c' Hc')) as (_ & _ & [(m & p & _ & E')|(_ & [E'|(e1 & E')])]);
      pose proof Hie as Hie'; rewrite E' in Hie'; [by apply not_elem_of_nil in Hie'..|].
    apply list_elem_of_singleton in Hie'. simplify_eq.
    rewrite <-(call_by_position c c'), E in Hie by congruence. by apply not_elem_of_nil in Hie.
  - destruct (call_outcome_spec c (call_nodelete c Hc)) as (_ & _ & [(m & p & _ & E')|(_ & [E'|(e1 & E')])]);
      rewrite E in E'; simplify_eq.
    assert (Hin : (c.1.1.1, e1) ∈ codes) by (apply list_elem_of_bind; exists c; rewrite E; split; [left|done]).
    apply list_elem_of_lookup in Hin as (q & Hq).
    apply (lookup_scatter _ _ _ q); [by eapply sublist_NoDup|by rewrite list_lookup_fmap, Hq..|done].
Qed.

(** Writing the upserts of a batch after reporting the codes of its calls. *)
Lemma dispatch_calls_spec keys puts r x e n r' x' :
  single_tier (backend_manager_ x) -> length (error_codes r) = length keys ->
  (forall c, c ∈ calls -> c.1.1.1 < length keys /\ error_codes r !! c.1.1.1 = Some EC_OK) ->
  ExecuteRmwUpsert (calls ≫= call_upserts) puts keys
    (mkResult (ec r) (scatter codes.*1 codes.*2 (error_codes r))) false x = ((e, n), r', x') ->
  single_tier (backend_manager_ x') /\ length (error_codes r') = length keys /\
  (forall i, i ∉ calls.*1.*1.*1 -> error_codes r' !! i = error_codes r !! i) /\
  (forall k, k ∉ calls.*1.*1.*2 -> stored x' !! k = stored x !! k) /\
  (forall c, c ∈ calls -> exists e, error_codes r' !! c.1.1.1 = Some e /\ block_effect (stored x) (stored x') c e).
Proof.
  intros Hst Hlr Hin Hup. destruct (calls_sublist calls Hnod) as (Hsi & Hsk & Hsc).
  assert (Hrep : forall c, c ∈ calls -> scatter codes.*1 codes.*2 (error_codes r) !! c.1.1.1 = Some (reported c)).
  { intros c Hc. destruct (Hin c Hc) as [??]. by eapply reported_spec. }
  apply ExecuteRmwUpsert_effect in Hup as (Hst' & Hlr' & Heff & Hoi & Hoth);
    [|done|simpl; by rewrite length_scatter|by eapply sublist_NoDup|by eapply sublist_NoDup| |].
  2: { apply Forall_forall. intros u Hu. destruct (call_of_upsert u Hu) as (c & Hc & _ & -> & _). by apply Hin. }
  2: { intros i (u & -> & Hu)%list_elem_of_fmap. destruct (call_of_upsert u Hu) as (c & Hc & _ & -> & _ & Ho).
       simpl. rewrite Hrep by done. unfold reported. by rewrite Ho. }
  simpl in Hoi. split_and!; [done|done| | |].
  - intros i Hi. rewrite Hoi, lookup_scatter_ne; [done| |]; intros Hc; apply Hi;
      (eapply sublist_elem_of; [|exact Hc]; done).
  - intros k Hk. apply Hoth. intros Hc. apply Hk. by eapply sublist_elem_of.
  - intros c Hc. destruct (call_upserts c) as [|u us] eqn:Eu.
    + exists (reported c). unfold block_effect. rewrite Eu. split_and!; [rewrite Hoi; [by apply Hrep|]|apply Hoth|done];
        intros (u & Hiu & Hu)%list_elem_of_fmap; destruct (call_of_upsert u Hu) as (c' & Hc' & Hcu & Hi' & Hk' & _);
        [rewrite <-(call_by_position c c') in Hcu by congruence|rewrite <-(call_by_key c c') in Hcu by congruence];
        congruence.
    + assert (Hu : u ∈ call_upserts c) by (rewrite Eu; left). pose proof Hu as Hu'.
      apply elem_of_call_upserts in Hu as (_ & Hiu & Hku & _); [|by apply call_nodelete].
      destruct (Heff u) as (c0 & Hc0 & Hor); [apply list_elem_of_bind; eauto|]. rewrite Hiu in Hc0. rewrite Hku in Hor.
      exists c0. split; [done|]. unfold block_effect. rewrite Eu. destruct Hor as [?|[[? _] ?]]; auto.
Qed.

End dispatch.

(** What a request guarantees for position [i] with key [k]. *)
Definition block_position (V V' : StoreView) (w w' : W) (i : nat) (k : KeyType) (e : ErrorCode) : Prop :=
  exists g ids res, let c := (((i, k), (g, ids)), res) : BlockCall in
    ids_read V k g ids /\
    called c w w' /\ block_effect V V' c e.

(** The rows of a batch against the store they were read from. *)
Lemma block_rows_spec V idxs keys gs lids :
  NoDup keys -> NoDup idxs -> Forall (fun i => i < length keys) idxs ->
  Forall3i (read_ok (fun ls ids => NoDup ids /\ forall i, i ∈ ids <-> is_Some (ls !! i)) V) (gather idxs keys) gs lids ->
  Forall2 (fun e ids => e = EC_NOENT -> ids = []) gs lids ->
  let rows := zip (zip idxs (gather idxs keys)) (zip gs lids) in
  rows.*1.*1 = idxs /\ rows.*1.*2 = gather idxs keys /\
  Forall (fun r => r.1.1 ∈ idxs /\ keys !! r.1.1 = Some r.1.2 /\ ids_read V r.1.2 r.2.1 r.2.2) rows /\
  (forall i k, i ∈ idxs -> keys !! i = Some k -> exists g ids, ((i, k), (g, ids)) ∈ rows /\
     ids_read V k g ids).
Proof.
  intros Hndk Hnd Hall Hrd Hmiss rows.
  assert (Hlb : length (gather idxs keys) = length idxs) by (by apply length_gather).
  destruct (Forall3i_length _ _ _ _ Hrd) as [Hl1 Hl2].
  assert (Hq : forall q i k, idxs !! q = Some i -> keys !! i = Some k ->
    exists g ids, rows !! q = Some ((i, k), (g, ids)) /\ ids_read V k g ids).
  { intros q i k Hq Hk. assert (Hqk : gather idxs keys !! q = Some k) by (by rewrite (lookup_gather _ _ q i)).
    destruct (Forall3i_lookup _ _ _ _ q k Hrd Hqk) as (g & ids & Hg & Hids & Hok). exists g, ids. split.
    - apply lookup_zip_with_Some. eexists _, _. split; [done|]. split; apply lookup_zip_with_Some; eauto.
    - split; [done|]. destruct (Forall2_lookup_l _ _ _ _ _ Hmiss Hg) as (ids' & Hids' & Hm). by simplify_eq. }
  assert (Hr1 : rows.*1.*1 = idxs /\ rows.*1.*2 = gather idxs keys).
  { unfold rows. rewrite fst_zip by (rewrite !length_zip; lia). by rewrite fst_zip, snd_zip by lia. }
  destruct Hr1 as [Hr1 Hr2]. split_and!; [done|done| |].
  - apply Forall_forall. intros r (q & Hr)%list_elem_of_lookup.
    assert (Hi : idxs !! q = Some r.1.1) by (rewrite <-Hr1, !list_lookup_fmap, Hr; done).
    rewrite Forall_forall in Hall. destruct (lookup_lt_is_Some_2 keys r.1.1) as [k Hk].
    { apply Hall. by eapply list_elem_of_lookup_2. }
    destruct (Hq q _ k Hi Hk) as (g & ids & Hr' & Hrd'). rewrite Hr in Hr'. injection Hr' as ->. simpl in *.
    split; [by eapply list_elem_of_lookup_2|done].
  - intros i k (q & Hi)%list_elem_of_lookup Hk. destruct (Hq q i k Hi Hk) as (g & ids & Hr & ?). exists g, ids.
    split; [by eapply list_elem_of_lookup_2|done].
Qed.

Lemma block_batch_effect keys batch e r x w e' r' x' w' :
  single_tier (backend_manager_ x) -> NoDup keys -> length (error_codes r) = length keys ->
  NoDup (global_indices batch) -> Forall (fun i => i < length keys) (global_indices batch) ->
  (forall i, i ∈ global_indices batch -> error_codes r !! i = Some EC_OK) ->
  (forall i k g ids, i ∈ global_indices batch -> keys !! i = Some k -> ids_read (stored x) k g ids -> ok i ids g) ->
  block_batch modifier keys batch (e, r, x, w) = (e', r', x', w') ->
  single_tier (backend_manager_ x') /\ length (error_codes r') = length keys /\
  (forall i, i ∉ global_indices batch -> error_codes r' !! i = error_codes r !! i /\ others i w w') /\
  (forall k, (forall i, i ∈ global_indices batch -> keys !! i <> Some k) -> stored x' !! k = stored x !! k) /\
  (forall i k, i ∈ global_indices batch -> keys !! i = Some k ->
     exists c, error_codes r' !! i = Some c /\ block_position (stored x) (stored x') w w' i k c).
Proof.
  intros Hst Hndk Hlr Hnd Hall Hok Hadm Hrun. unfold block_batch in Hrun.
  set (idxs := global_indices batch) in *. set (bkeys := gather idxs keys) in *.
  assert (Hlb : length bkeys = length idxs) by (by apply length_gather).
  unfold BackendManager.GetLocationIds, tiered_read in Hrun. unfold single_tier in Hst. rewrite Hst in Hrun.
  destruct (be_GetLocationIds bkeys _) as [[gs lids] p] eqn:Eg.
  destruct (be_GetLocationIds_law _ _ _ _ _ Eg) as [Hv Hrd].
  destruct (Forall3i_length _ _ _ _ Hrd) as [Hl1 Hl2]. rewrite !wrong_size_eq in Hrun by done. cbn [orb] in Hrun.
  set (x1 := with_manager (set_persistent p (backend_manager_ x)) x) in Hrun.
  assert (Hs1 : stored x1 = stored x) by exact Hv.
  destruct (block_rows_spec (stored x) idxs keys gs lids Hndk Hnd Hall Hrd (be_GetLocationIds_missing _ _ _ _ _ Eg))
    as (Hri & Hrk & Hrd' & Hrow).
  unfold bkeys in Hrun. set (rows := zip (zip idxs (gather idxs keys)) (zip gs lids)) in *.
  destruct (classify_block modifier rows w) as [[b codes] w1] eqn:Ec.
  apply classify_block_calls in Ec as (Hoth & calls & Hcr & Hcalls & Hu & Hcs & Hd & Hdi); [|by rewrite Hri|].
  2: { eapply Forall_impl; [exact Hrd'|]. intros [[i k] [g ids]] (? & ? & ?). by eapply Hadm. }
  rewrite Hu, Hcs, Hd, Hdi in Hrun.
  destruct (ExecuteRmwUpsert _ _ _ _ _ _) as [[[ue n] r2] x2] eqn:Eu. simpl in Hrun. injection Hrun as _ <- <- <-.
  assert (Hadj : forall d, stored (AdjustKeyCountMeta d x2) = stored x2 /\
    backend_manager_ (AdjustKeyCountMeta d x2) = backend_manager_ x2) by (intros d; unfold AdjustKeyCountMeta; by destruct (_ <=? _)%Z).
  set (d := i32 _). destruct (Hadj d) as [Hsd Hbd]. rewrite Hsd, Hbd.
  assert (Hi3 : calls.*1.*1.*1 = idxs) by (by rewrite Hcr). assert (Hk3 : calls.*1.*1.*2 = bkeys) by (by rewrite Hcr).
  apply dispatch_calls_spec in Eu as (Hst2 & Hlr2 & Ho2 & Hk2 & Hc2); [|by eapply Forall_impl; [exact Hcalls|]; intros ? []
    |by rewrite Hi3|rewrite Hk3; by apply gather_NoDup|exact Hst|done|].
  2: { intros c Hc. assert (Hci : c.1.1.1 ∈ idxs) by (rewrite <-Hi3; by do 3 apply list_elem_of_fmap_2).
       rewrite Forall_forall in Hall. auto. }
  rewrite Hi3 in Ho2. rewrite Hk3 in Hk2. rewrite Hs1 in Hk2, Hc2. rewrite Hri in Hoth.
  split_and!; [done|done|by auto| |].
  - intros k Hk. apply Hk2. unfold bkeys, gather. intros (i & Hi & Hik)%list_elem_of_omap. by apply (Hk i).
  - intros i k Hi Hk. destruct (Hrow i k Hi Hk) as (g & ids & Hin & Hok'). rewrite <-Hcr in Hin.
    apply list_elem_of_fmap in Hin as ([row res] & Heq & Hc). simpl in Heq. subst row. rewrite Forall_forall in Hcalls.
    destruct (Hc2 _ Hc) as (c & Hcc & He). exists c. split; [exact Hcc|]. exists g, ids, res.
    split_and!; [done|by apply Hcalls|done].
Qed.

Lemma block_position_frame V1 V2 V1' V2' w1 w2 w1' w2' i k e :
  V2 !! k = V1 !! k -> V2' !! k = V1' !! k -> others i w2 w1 -> others i w1' w2' ->
  block_position V1 V1' w1 w1' i k e -> block_position V2 V2' w2 w2' i k e.
Proof.
  intros H1 H2 Ho Ho' (g & ids & res & Hrd & Hc & He). exists g, ids, res. split_and!.
  - unfold ids_read, read_ok in *. by rewrite H1.
  - eapply called_l; [exact Ho|]. by eapply called_r.
  - by eapply block_effect_frame.
Qed.

Lemma block_batches_effect keys bs : forall e r x w e' r' x' w',
  let D := bs ≫= global_indices in
  single_tier (backend_manager_ x) -> NoDup keys -> length (error_codes r) = length keys ->
  NoDup D -> Forall (fun i => i < length keys) D ->
  (forall i, i ∈ D -> error_codes r !! i = Some EC_OK) ->
  (forall i k g ids, i ∈ D -> keys !! i = Some k -> ids_read (stored x) k g ids -> ok i ids g) ->
  foldl (fun st b => block_batch modifier keys b st) (e, r, x, w) bs = (e', r', x', w') ->
  single_tier (backend_manager_ x') /\ length (error_codes r') = length keys /\
  (forall i, i ∉ D -> error_codes r' !! i = error_codes r !! i /\ others i w w') /\
  (forall k, (forall i, i ∈ D -> keys !! i <> Some k) -> stored x' !! k = stored x !! k) /\
  (forall i k, i ∈ D -> keys !! i = Some k ->
     exists c, error_codes r' !! i = Some c /\ block_position (stored x) (stored x') w w' i k c).
Proof.
  induction bs as [|b bs IH]; intros e r x w e' r' x' w' D Hst Hndk Hlr Hnd Hall Hok Hadm Hrun.
  { cbn [foldl] in Hrun. simplify_eq. split_and!; [done|done|by split; [|apply rtc_refl]|done|].
    intros i k Hi. by apply not_elem_of_nil in Hi. }
  cbn [foldl] in Hrun.
  destruct (block_batch modifier keys b (e, r, x, w)) as [[[e1 r1] x1] w1] eqn:Eb.
  unfold D in *. clear D. csimpl in Hnd. csimpl in Hall. csimpl in Hok. csimpl in Hadm. csimpl.
  apply NoDup_app in Hnd as (Hnd1 & Hdis & Hnd2). apply Forall_app in Hall as [Hall1 Hall2].
  apply block_batch_effect in Eb as (Hst1 & Hlr1 & Ho1 & Hk1 & Hp1); [|done..| |].
  2: { intros i Hi. apply Hok, elem_of_app. by left. }
  2: { intros i k g ids Hi. apply Hadm, elem_of_app. by left. }
  assert (Hsep : forall i j k, i ∈ global_indices b -> j ∈ bs ≫= global_indices ->
    keys !! i = Some k -> keys !! j <> Some k).
  { intros i j k Hi Hj Hki Hkj. pose proof (NoDup_lookup keys i j k Hndk Hki Hkj) as ->. by apply (Hdis j). }
  apply IH in Hrun as (Hst2 & Hlr2 & Ho2 & Hk2 & Hp2); [|done..| |].
  2: { intros i Hi. rewrite (proj1 (Ho1 i ltac:(intros Hb; by apply (Hdis i Hb)))).
       apply Hok, elem_of_app. by right. }
  2: { intros i k g ids Hi Hki. unfold ids_read, read_ok. rewrite Hk1 by (intros j Hj Hkj; by apply (Hsep j i k)).
       apply Hadm; [apply elem_of_app; by right|done]. }
  split_and!; [done|done| | |].
  - intros i [Hi1 Hi2]%not_elem_of_app. destruct (Ho1 i Hi1), (Ho2 i Hi2). split; [congruence|by etrans].
  - intros k Hk. rewrite Hk2, Hk1; [done| |]; intros i Hi; apply Hk, elem_of_app; auto.
  - intros i k [Hi|Hi]%elem_of_app Hki.
    + destruct (Hp1 i k Hi Hki) as (c & Hc & He). destruct (Ho2 i (Hdis i Hi)) as [Ho Hw]. exists c. split; [congruence|].
      eapply block_position_frame; [reflexivity| |apply rtc_refl|exact Hw|exact He].
      apply Hk2. intros j Hj. by eapply Hsep.
    + destruct (Hp2 i k Hi Hki) as (c & Hc & He). exists c. split; [done|].
      eapply block_position_frame; [|reflexivity| |apply rtc_refl|exact He].
      * symmetry. apply Hk1. intros j Hj Hkj. by apply (Hsep j i k).
      * apply Ho1. intros Hb. by apply (Hdis i Hb).
Qed.

(** Every key of a request behaves as if it were alone; other keys are
    untouched. *)
Lemma ReadModifyWriteBlock_effect keys x w r x' w' :
  single_tier (backend_manager_ x) -> NoDup keys ->
  (forall i k g ids, keys !! i = Some k -> ids_read (stored x) k g ids -> ok i ids g) ->
  ReadModifyWriteBlock keys modifier x w = (r, x', w') ->
  single_tier (backend_manager_ x') /\ length (error_codes r) = length keys /\
  (forall i k, keys !! i = Some k -> exists c, error_codes r !! i = Some c /\
     block_position (stored x) (stored x') w w' i k c) /\
  (forall k, k ∉ keys -> stored x' !! k = stored x !! k).
Proof.
  intros Hst Hndk Hadm Hrun. unfold ReadModifyWriteBlock in Hrun.
  destruct keys as [|k0 ks]; [simplify_eq; split_and!; [done|done|by intros|by intros]|].
  remember (k0 :: ks) as keys eqn:Hk. clear Hk k0 ks.
  destruct (foldl _ _ _) as [[[e1 r1] x1] w1] eqn:Ef. injection Hrun as <- <- <-.
  assert (Hpe : forall n m r, error_codes (ProcessErrorResult n m r) = error_codes r)
    by (intros n m r; unfold ProcessErrorResult; by repeat case_match). rewrite Hpe.
  apply block_batches_effect in Ef as (Hst' & Hlp & _ & Hoth & Hpos); try done.
  - split_and!; [done|done| |].
    + intros i k Hki. apply Hpos; [|done]. apply elem_of_processing_order. by eapply lookup_lt_Some.
    + intros k Hk. apply Hoth. intros i _ Hi. by apply Hk, (list_elem_of_lookup_2 _ i).
  - simpl. unfold all_codes. by rewrite length_replicate.
  - apply processing_order_NoDup.
  - apply Forall_forall. intros i Hi. by apply elem_of_processing_order in Hi.
  - intros i Hi. simpl. unfold all_codes. apply lookup_replicate_2. by apply elem_of_processing_order in Hi.
  - intros i k g ids _. by apply Hadm.
Qed.

End block.
