(* ===== verification/RmwCodes.v ===== *)
(** * RmwCodes: what the overall code of a read-modify-write says

    [ReadModifyWriteBlock] and [ReadModifyWriteLocation]
    ([meta/meta_indexer.cc]) summarise the codes of a request in one: here it
    is shown what a caller may conclude from [EC_OK]. For whole blocks every
    key succeeded; for single locations every slot was written or its
    location was not found (which does not count as a failure). *)

From stdpp Require Import base gmap sets list strings.
From Stdlib Require Import ZArith Lia.
From S2P Require Import Prelude MetaTypes MetaBackend DummyBackend LocalBackend BackendManager BackendReads MetaIndexer IndexerRmw.

Lemma lookup_scatter_const {A} (v : A) idx n l j :
  length idx <= n -> j < length l -> j ∈ idx -> scatter idx (replicate n v) l !! j = Some v.
Proof.
  revert n l. induction idx as [|i idx IH]; intros n l Hn Hj Hin; [by apply not_elem_of_nil in Hin|].
  destruct n as [|n]; simpl in Hn; [lia|]. simpl. destruct (decide (j ∈ idx)) as [Hi|Hni].
  - apply IH; [lia|by rewrite length_insert|done].
  - apply elem_of_cons in Hin as [->|?]; [|done]. rewrite lookup_scatter_ne by done. by apply list_lookup_insert_eq.
Qed.

Lemma NoDup_bind_elem {A B} (f : A -> list B) l a : NoDup (l ≫= f) -> a ∈ l -> NoDup (f a).
Proof.
  intros Hnd (l1 & l2 & ->)%list_elem_of_split. rewrite bind_app, bind_cons in Hnd.
  apply NoDup_app in Hnd as (_ & _ & Hnd). by apply NoDup_app in Hnd as (? & _ & _).
Qed.

(** ** Single locations *)

(** Codes that do not count as a failure. *)
Definition benign (c : ErrorCode) : Prop := c = EC_OK \/ c = EC_NOENT.

Section location.
Context {PT CT W : Type} `{PB : !MetaStorageBackend PT} `{CB : !MetaCacheBaseBackend CT}.
Local Abbreviation Indexer := (MetaIndexer PT CT).
Implicit Types x : Indexer.

Variable modifier : LocationModifier W.
(** The modifier passes errors of the read on and adds none. *)
Hypothesis passes_errors : forall gs ids i vs w, length gs = length ids -> length vs = length ids ->
  Forall2 (fun g c => c = EC_OK \/ c = g) gs (modifier gs ids i vs w).1.1.2.

Lemma location_row_clean idx k ids gs vs w b codes w' :
  location_row idx k ids gs vs modifier w = ((b, codes, false), w') -> Forall benign codes.
Proof.
  unfold location_row. destruct (wrong_size gs ids) eqn:E1; [done|]. destruct (wrong_size vs ids) eqn:E2; [done|]. simpl.
  unfold wrong_size in E1, E2. apply negb_false_iff, Nat.eqb_eq in E1, E2.
  set (ch := zip_with _ ids (zip gs vs)).
  assert (Hlc : length ch = length ids) by (unfold ch; rewrite length_zip_with, length_zip; lia).
  pose proof (passes_errors ch.*1 ids idx ch.*2 w) as Hp. rewrite !length_fmap in Hp. specialize (Hp Hlc Hlc).
  destruct (modifier ch.*1 ids idx ch.*2 w) as [[[action mecs] [locs props]] w1]. simpl in Hp.
  destruct (existsb _ ch.*1) eqn:Ef.
  { simpl. intros Hrun. exfalso. repeat case_match; simplify_eq. }
  assert (Hb : Forall benign ch.*1).
  { apply Forall_forall. intros g Hg. destruct (decide (benign g)) as [?|Hn]; [done|]. exfalso.
    apply not_true_iff_false in Ef. apply Ef, existsb_exists. exists g. split; [by apply list_elem_of_In|].
    unfold benign in Hn. apply negb_true_iff, orb_false_iff. rewrite !bool_decide_eq_false. tauto. }
  assert (Hlm : length mecs = length ids) by (apply Forall2_length in Hp; rewrite length_fmap in Hp; lia).
  assert (Hw : wrong_size mecs ids = false) by (unfold wrong_size; by apply negb_false_iff, Nat.eqb_eq).
  rewrite Hw. set (me := zip_with _ ch.*1 mecs).
  assert (Hme : Forall benign me).
  { unfold me. clear Hw Hlm me Ef. revert Hb. induction Hp as [|g c gs' cs Hgc _ IH]; intros Hb; [constructor|].
    apply Forall_cons in Hb as [Hg Hb]. simpl. constructor; [|by apply IH].
    destruct (_ || _); [|done]. unfold benign in *. destruct Hgc as [->| ->]; tauto. }
  destruct (bool_decide (action = MA_FAIL) && _); [simpl; intros; by case_match; simplify_eq|]. simpl.
  destruct action; simpl; intros Hrun; simplify_eq; [|done..].
  match goal with H : existsb ?f ?l = false |- _ => rename H into Hbr; set (sl := l) in * end.
  apply Forall_fmap, Forall_forall. intros [lid [c v]] Hin. simpl. case_bool_decide as Hc.
  - unfold sl in Hin. apply elem_of_zip_r, elem_of_zip_l in Hin. rewrite Forall_forall in Hme. by apply Hme.
  - subst c. destruct (usable_slot (lid, (EC_OK, v))) eqn:Eu; [by left|]. exfalso.
    apply not_true_iff_false in Hbr. apply Hbr, existsb_exists. exists (lid, (EC_OK, v)).
    split; [by apply list_elem_of_In|]. simpl. by rewrite Eu.
Qed.

Lemma classify_clean rows : forall w b outs w',
  classify_locations modifier rows w = ((b, outs), w') ->
  outs.*1 = rows.*1.*1 /\ Forall (fun o => o.2.2 = false -> Forall benign o.2.1) outs.
Proof.
  induction rows as [|[[idx k] [ids [gs vs]]] rows IH]; intros w b outs w' Hrun; cbn [classify_locations] in Hrun.
  { simplify_eq. split; [done|constructor]. }
  destruct (location_row idx k ids gs vs modifier w) as [[[b1 c1] f1] w1] eqn:El.
  destruct (classify_locations modifier rows w1) as [[b2 outs2] w2] eqn:Ec. simplify_eq.
  destruct (IH _ _ _ _ Ec) as [Hf Hall]. csimpl. rewrite Hf. split; [done|]. constructor; [|done]. simpl.
  intros ->. by eapply location_row_clean.
Qed.

(** Positions that are not flagged have benign codes. *)
Definition clean (st : list (list ErrorCode) * list bool) : Prop :=
  forall i cs, st.1 !! i = Some cs -> st.2 !! i = Some false -> Forall benign cs.

Lemma spread_clean idxs r : forall st, clean st -> clean (spread idxs r st).
Proof.
  induction idxs as [|i idxs IH]; intros st Hc; [done|]. unfold spread. cbn [foldl]. apply IH. clear IH.
  destruct (error_codes r !! i) as [e|]; [|done]. intros j cs Hj Hf. simpl in Hj, Hf.
  destruct (decide (i = j)) as [->|Hne].
  - rewrite list_lookup_alter_eq in Hj. destruct (st.1 !! j) as [cs0|] eqn:E; [|done]. simpl in Hj. simplify_eq.
    case_bool_decide as He.
    + destruct (decide (j < length st.2)) as [Hl|Hl]; [by rewrite list_lookup_insert_eq in Hf|].
      rewrite lookup_ge_None_2 in Hf by (rewrite length_insert; lia). done.
    + subst e. apply Forall_fmap. eapply Forall_impl; [by eapply Hc|]. intros c Hb. simpl.
      by case_bool_decide; [left|].
  - rewrite list_lookup_alter_ne in Hj by done. apply (Hc j); [done|]. case_bool_decide; [|done].
    by rewrite list_lookup_insert_ne in Hf.
Qed.

Lemma location_batch_clean keys lids adj batch per fl r x w per' fl' r' x' w' :
  NoDup (global_indices batch) -> Forall (fun i => i < length fl) (global_indices batch) -> length lids = length keys ->
  length keys = length fl -> clean (per, fl) ->
  location_batch modifier keys lids adj false batch ((per, fl), r, x, w) = ((per', fl'), r', x', w') ->
  clean (per', fl') /\ length per' = length per /\ length fl' = length fl.
Proof.
  intros Hnd Hall Hll Hlk Hc Hrun. unfold location_batch in Hrun. set (idxs := global_indices batch) in *.
  destruct (BackendReads.GetLocationsById _ _ _) as [[rs os] m].
  assert (Hlb : length (gather idxs keys) = length idxs) by (apply length_gather; by rewrite Hlk).
  assert (Hli : length (gather idxs lids) = length idxs) by (apply length_gather; by rewrite Hll, Hlk).
  destruct (wrong_size rs _ || _ || _) eqn:Ew.
  { injection Hrun as <- <- _ _ _. split; [|by rewrite !length_scatter].
    intros i cs Hi Hf. simpl in *. destruct (decide (i ∈ idxs)) as [Hin|Hni].
    - rewrite lookup_scatter_const in Hf; [done|done| |done]. rewrite Forall_forall in Hall. by apply Hall.
    - rewrite lookup_scatter_ne in Hi by done. rewrite lookup_scatter_ne in Hf by done. by apply (Hc i). }
  apply orb_false_iff in Ew as [[Ew1 Ew2]%orb_false_iff _]. unfold wrong_size in Ew1, Ew2.
  apply negb_false_iff, Nat.eqb_eq in Ew1, Ew2.
  destruct (classify_locations modifier _ w) as [[b outs] w1] eqn:Ecl. apply classify_clean in Ecl as [Hf Hb].
  rewrite !fst_zip in Hf by (rewrite ?length_zip; lia).
  set (per1 := scatter outs.*1 _ per) in Hrun. set (fl1 := scatter (filter _ outs).*1 _ fl) in Hrun.
  assert (Hc1 : clean (per1, fl1)).
  { intros i cs Hi Hfi. simpl in *. unfold per1, fl1 in *. destruct (decide (i ∈ outs.*1)) as [Hin|Hni].
    - apply list_elem_of_lookup in Hin as (q & Hq). rewrite list_lookup_fmap in Hq.
      destruct (outs !! q) as [[i' [cs' f]]|] eqn:Eo; [|done]. simpl in Hq. injection Hq as ->.
      rewrite Forall_forall in Hb. rewrite Forall_forall in Hall. pose proof (list_elem_of_lookup_2 _ _ _ Eo) as Hino.
      assert (Hii : i ∈ idxs) by (rewrite <-Hf; apply list_elem_of_fmap; by exists (i, (cs', f))).
      destruct f.
      + rewrite lookup_scatter_const in Hfi; [done| |by apply Hall|].
        * rewrite length_fmap. apply length_filter.
        * apply list_elem_of_fmap. exists (i, (cs', true)). split; [done|]. by apply list_elem_of_filter.
      + destruct (decide (i < length per)) as [Hl|Hl].
        * rewrite (lookup_scatter _ _ _ q i cs') in Hi; [simplify_eq; by apply (Hb _ Hino)|by rewrite Hf| | |done];
            by rewrite !list_lookup_fmap, Eo.
        * rewrite lookup_ge_None_2 in Hi by (rewrite length_scatter; lia). done.
    - rewrite lookup_scatter_ne in Hi by done. rewrite lookup_scatter_ne in Hfi; [by apply (Hc i)|].
      intros (o & -> & Ho)%list_elem_of_fmap. apply Hni, list_elem_of_fmap_2. by apply list_elem_of_filter in Ho as [_ ?]. }
  assert (Hl1 : length per1 = length per /\ length fl1 = length fl) by (unfold per1, fl1; by rewrite !length_scatter).
  destruct (ExecuteRmwUpsert _ _ _ _ _ _) as [[[ue n] r1] x1].
  pose proof (spread_clean (up_index <$> upsert_batch b) r1 _ Hc1) as Hc2.
  pose proof (length_spread (up_index <$> upsert_batch b) r1 (per1, fl1)) as Hl2.
  destruct (spread _ r1 _) as [per2 fl2]. destruct (ExecuteRmwDelete _ _ _ _ _) as [[[de dn] r2] x2].
  pose proof (spread_clean (delete_rows b).*1 r2 _ Hc2) as Hc3.
  pose proof (length_spread (delete_rows b).*1 r2 (per2, fl2)) as Hl3.
  destruct (spread _ r2 _) as [per3 fl3]. injection Hrun as <- <- _ _ _. simpl in *. split; [done|].
  destruct Hl1, Hl2, Hl3. split; congruence.
Qed.

(** [EC_OK]: every slot was written or not found. *)
Lemma ReadModifyWriteLocation_ok keys lids adj x w lr x' w' :
  length lids = length keys ->
  ReadModifyWriteLocation keys lids modifier adj false x w = (lr, x', w') -> loc_ec lr = EC_OK ->
  forall i cs, per_location_error_codes lr !! i = Some cs -> Forall benign cs.
Proof.
  intros Hll Hrun Hec i cs Hi. unfold ReadModifyWriteLocation in Hrun.
  destruct keys as [|k0 ks]; [by simplify_eq|]. remember (k0 :: ks) as keys eqn:Hk.
  assert (Hne : 0 < length keys) by (rewrite Hk; simpl; lia). clear Hk k0 ks.
  assert (Hws : wrong_size lids keys = false) by (unfold wrong_size; by apply negb_false_iff, Nat.eqb_eq).
  rewrite Hws in Hrun. destruct (foldl _ _ _) as [[[[per fl] r] x1] w1] eqn:Ef. injection Hrun as <- _ _. simpl in *.
  assert (Hgen : forall bs st per fl r x w, Forall (fun b => NoDup (global_indices b) /\
      Forall (fun i => i < length keys) (global_indices b)) bs -> clean st.1.1.1 -> length st.1.1.1.1 = length keys -> length st.1.1.1.2 = length keys ->
    foldl (fun st b => location_batch modifier keys lids adj false b st) st bs = ((per, fl), r, x, w) ->
    clean (per, fl) /\ length per = length fl).
  { clear -passes_errors Hll. intros bs. induction bs as [|b bs IH]; intros st per fl r x w Hall Hc Hl1 Hl2 Hrun.
    { simpl in Hrun. subst st. simpl in *. split; [done|congruence]. }
    apply Forall_cons in Hall as [[Hnd Hr] Hall]. cbn [foldl] in Hrun.
    destruct st as [[[[per0 fl0] r0] x0] w0]. simpl in Hc, Hl1, Hl2.
    destruct (location_batch modifier keys lids adj false b (((per0, fl0), r0), x0, w0)) as [[[[per1 fl1] r1] x1] w1] eqn:Eb.
    apply location_batch_clean in Eb as (Hc1 & ? & ?); [|done|by rewrite Hl2|done|done|done].
    eapply IH; [exact Hall| | | |exact Hrun]; simpl; [done|congruence..]. }
  apply Hgen in Ef as [Hc Hl].
  - destruct (_ =? _)%nat eqn:E1; [done|]. destruct (0 <? _)%nat eqn:E2; [done|]. apply Nat.ltb_ge in E2.
    destruct (fl !! i) as [f|] eqn:Efl.
    + destruct f; [exfalso|by apply (Hc i)].
      assert (Hin : true ∈ filter (fun b => b = true) fl)
        by (apply list_elem_of_filter; split; [done|by eapply list_elem_of_lookup_2]).
      destruct (filter _ fl); [by apply not_elem_of_nil in Hin|simpl in E2; lia].
    + apply lookup_ge_None in Efl. apply lookup_lt_Some in Hi. lia.
  - apply Forall_forall. intros b Hb. split.
    + by eapply NoDup_bind_elem, Hb; apply (processing_order_NoDup keys x).
    + apply Forall_forall. intros j Hj. apply (elem_of_processing_order keys x). apply list_elem_of_bind. eauto.
  - intros j cs' Hj _. simpl in Hj. rewrite list_lookup_fmap in Hj. destruct (lids !! j); simplify_eq/=.
    apply Forall_replicate. by left.
  - simpl. by rewrite length_fmap.
  - simpl. by rewrite length_replicate.
Qed.

End location.

(** ** Whole blocks *)

Lemma store_codes_clean rows n : forall r r', store_codes rows n r = (0, r') -> r' = r.
Proof.
  induction rows as [|[i c] rows IH]; intros r r' Hrun; cbn [store_codes] in Hrun; [congruence|].
  destruct (_ || _); [by destruct (store_codes rows n _)|]. case_bool_decide; [by destruct (store_codes rows n _)|].
  by apply IH.
Qed.

Lemma ProcessErrorCodes_clean codes idxs n r r' :
  ProcessErrorCodes codes idxs n r = (0, r') -> ec r' = EC_OK -> r' = r.
Proof.
  unfold ProcessErrorCodes. destruct (negb _); [|intros H _; by eapply store_codes_clean].
  destruct (mark_mismatch _ _) as [m cs]. by intros [= -> <-].
Qed.

Section block.
Context {PT CT W : Type} `{PB : !MetaStorageBackend PT} `{CB : !MetaCacheBaseBackend CT}.
Local Abbreviation Indexer := (MetaIndexer PT CT).
Implicit Types x : Indexer.
Variable modifier : BlockModifier W.

Lemma ExecuteRmwUpsert_clean rows puts keys r b x n r' x' :
  ExecuteRmwUpsert rows puts keys r b x = ((0, n), r', x') -> ec r' = EC_OK -> r' = r.
Proof.
  unfold ExecuteRmwUpsert. destruct rows as [|u us]; [by intros [= _ <- _]|].
  destruct (upsert_codes _ _ _ _ _) as [cs x1]. destruct (ProcessErrorCodes _ _ _ _) as [e r1] eqn:E.
  intros [= -> _ <- _]. by eapply ProcessErrorCodes_clean.
Qed.

Lemma ExecuteRmwDelete_clean rows ids n r x d r' x' :
  ExecuteRmwDelete rows ids n r x = ((0, d), r', x') -> ec r' = EC_OK -> r' = r.
Proof.
  unfold ExecuteRmwDelete. destruct rows as [|u us]; [by intros [= _ <- _]|].
  destruct (match ids with [] => _ | _ => _ end) as [[cs m] y]. destruct (ProcessErrorCodes _ _ _ _) as [e r1] eqn:E.
  intros [= -> _ <- _]. by eapply ProcessErrorCodes_clean.
Qed.

Lemma block_batch_clean keys batch e r x w r' x' w' :
  block_batch modifier keys batch (e, r, x, w) = (0, r', x', w') -> ec r' = EC_OK -> e = 0 /\ r' = r.
Proof.
  unfold block_batch. destruct (BackendManager.GetLocationIds _ _) as [[gs ids] m].
  destruct (_ || _); [intros [= He <- _ _]; done|].
  destruct (classify_block _ _ w) as [[b codes] w1].
  destruct (ExecuteRmwUpsert _ _ _ _ _ _) as [[[ue n] r1] x1] eqn:Eu.
  destruct (ExecuteRmwDelete _ _ _ _ _) as [[[de d] r2] x2] eqn:Ed. intros [= He <- _ _] Hec.
  assert (e = 0 /\ length codes = 0 /\ ue = 0 /\ de = 0) as (-> & Hc & -> & ->) by lia.
  apply nil_length_inv in Hc. subst codes. apply ExecuteRmwDelete_clean in Ed; [|done]. subst r2.
  apply ExecuteRmwUpsert_clean in Eu; [|done]. subst r1. split; [done|]. by destruct r.
Qed.

(** [EC_OK]: every key of the request succeeded. *)
Lemma ReadModifyWriteBlock_ok keys x w r x' w' :
  ReadModifyWriteBlock keys modifier x w = (r, x', w') -> ec r = EC_OK -> Forall (eq EC_OK) (error_codes r).
Proof.
  unfold ReadModifyWriteBlock. destruct keys as [|k0 ks]; [intros [= <- _ _] _; constructor|].
  remember (k0 :: ks) as keys eqn:Hk. assert (Hne : 0 < length keys) by (rewrite Hk; simpl; lia). clear Hk k0 ks.
  assert (Hgen : forall bs st r' x' w', foldl (fun st b => block_batch modifier keys b st) st bs = (0, r', x', w') ->
    ec r' = EC_OK -> st.1.1 = (0, r')).
  { induction bs as [|b bs IH]; intros st r1 x1 w1 Hrun Hec; [by simpl in Hrun; subst st|].
    cbn [foldl] in Hrun. apply IH in Hrun; [|done].
    destruct st as [[[e0 r0] x0] w0]. destruct (block_batch modifier keys b (e0, r0, x0, w0)) as [[[e2 r2] x2] w2] eqn:Eb.
    simpl in Hrun. simplify_eq. by apply block_batch_clean in Eb as [-> ->]. }
  destruct (foldl _ _ _) as [[[e r1] x1] w1] eqn:Ef. intros [= <- _ _]. unfold ProcessErrorResult.
  case_bool_decide as Hec; [done|]. destruct (e =? length keys)%nat eqn:E1; [done|].
  destruct (0 <? e)%nat eqn:E2; [done|]. apply Nat.ltb_ge in E2. assert (e = 0) as -> by lia. intros _.
  apply Hgen in Ef; [|done]. simpl in Ef. injection Ef as <-. simpl. unfold all_codes. by apply Forall_replicate.
Qed.

End block.
