(* ===== verification/MetaMutate.v ===== *)
(** * MetaMutate: the metadata mutations of [manager/meta_searcher.cc]

    [MetaSearcher] adds, updates, compares-and-swaps, compares-and-deletes
    and deletes cache locations through the indexer's read-modify-write
    engine, and keeps the per-type storage usage. Its lambdas are the
    modifiers of the engine; what a lambda captures by reference is the
    modifier's state. [ToJsonString] (the rapidjson serialization of a
    location) is a parameter. *)

From stdpp Require Import base gmap sets list strings.
From Stdlib Require Import ZArith Lia.
From S2P Require Import Prelude StandardUri MetaTypes StorageUsage MetaBackend DummyBackend LocalBackend BackendManager BackendReads MetaIndexer IndexerRmw RmwLocation RmwCodes.

Record LocationUpdateTask := mkUpdateTask { ut_location_id : LocationId; ut_new_status : CacheLocationStatus }.
Record LocationCASTask := mkCASTask {
  cas_location_id : LocationId;
  cas_old_status : CacheLocationStatus;
  cas_new_status : CacheLocationStatus;
  cas_expected_location_value : string;
}.
Record LocationCADTask := mkCADTask { cad_location_id : LocationId; cad_expect_status : CacheLocationStatus }.
Record AddLocationResult := mkAddResult { add_ec : ErrorCode; add_location_id : LocationId }.

(** [AddLocationRollbackPlan]. *)
Record AddLocationRollbackPlan := mkPlan {
  pipeline_keys : list KeyType;
  pipeline_location_ids : list LocationId;
  direct_delete_indices : list nat;
}.

(** The bytes a location accounts for: the [size] parameters of its valid
    spec URIs, [spec_sz j] being what the variable holds before the parameter
    of the [j]-th spec is read into it. *)
Definition location_bytes (spec_sz : nat -> Z) (l : CacheLocation) : Z :=
  foldl (fun sz (js : nat * LocationSpec) =>
    let ds_uri := (Parse (chars_of (uri js.2))).1 in
    if Valid ds_uri then u64 (sz + GetParamAs_u64 (chars_of "size") ds_uri (spec_sz js.1)) else sz)
    0%Z (imap pair (location_specs l)).

(** The location ids of the tasks of every key. *)
Definition task_ids {A} (f : A -> LocationId) (tasks : list (list A)) : list (list LocationId) :=
  (fun ts : list A => f <$> ts) <$> tasks.

(** A modifier that decides slot by slot; a slot is written exactly when its
    code is [EC_OK]. *)
Definition slot_modifier
    (slot : nat -> nat -> ErrorCode -> CacheLocationConstPtr -> ErrorCode * CacheLocationConstPtr)
    : LocationModifier unit :=
  fun get_ecs _ key_index locs w =>
    let outs := imap (fun j gv => slot key_index j gv.1 gv.2) (zip get_ecs locs) in
    let updated := existsb (fun o => bool_decide (o.1 = EC_OK)) outs in
    (((if updated then MA_OK else MA_SKIP, outs.*1), (outs.*2, ∅)), w).

Section mutate.
Context {PT CT : Type} `{PB : !MetaStorageBackend PT} `{CB : !MetaCacheBaseBackend CT}.
Variable ToJsonString : CacheLocation -> string.
Local Abbreviation Indexer := (MetaIndexer PT CT).

(** The slot of the status update: loaded locations get the new status. *)
Definition update_slot (tasks : list (list LocationUpdateTask)) (i j : nat) (ec : ErrorCode)
    (loc : CacheLocationConstPtr) : ErrorCode * CacheLocationConstPtr :=
  if bool_decide (ec <> EC_OK) then (ec, loc)
  else match tasks !! i ≫= (.!! j), loc with
       | Some task, Some l => (EC_OK, Some (set_status (ut_new_status task) l))
       | _, _ => (EC_OK, loc)
       end.

Definition BatchUpdateLocationStatus (keys : list KeyType) (batch_tasks : list (list LocationUpdateTask))
    (x : Indexer) : ErrorCode * list (list ErrorCode) * Indexer :=
  if wrong_size batch_tasks keys then (EC_BADARGS, [], x)
  else
    let '(result, x, _) :=
      ReadModifyWriteLocation keys (task_ids ut_location_id batch_tasks)
        (slot_modifier (update_slot batch_tasks)) true false x tt in
    (loc_ec result, per_location_error_codes result, x).

(** The slot of the compare-and-swap. *)
Definition cas_slot (tasks : list (list LocationCASTask)) (i j : nat) (ec : ErrorCode)
    (loc : CacheLocationConstPtr) : ErrorCode * CacheLocationConstPtr :=
  if bool_decide (ec <> EC_OK) then (ec, loc)
  else match tasks !! i ≫= (.!! j), loc with
       | Some task, Some l =>
           if (negb (bool_decide (cas_expected_location_value task = ""))
               && negb (bool_decide (ToJsonString l = cas_expected_location_value task)))
              || negb (bool_decide (status l = cas_old_status task))
           then (EC_MISMATCH, loc)
           else (EC_OK, Some (set_status (cas_new_status task) l))
       | _, _ => (EC_MISMATCH, loc)
       end.

Definition BatchCASLocationStatus (keys : list KeyType) (batch_tasks : list (list LocationCASTask))
    (refresh_cache_from_persistent : bool) (x : Indexer)
    : ErrorCode * list (list ErrorCode) * Indexer :=
  if wrong_size batch_tasks keys then (EC_BADARGS, [], x)
  else
    let '(result, x, _) :=
      ReadModifyWriteLocation keys (task_ids cas_location_id batch_tasks)
        (slot_modifier (cas_slot batch_tasks)) true refresh_cache_from_persistent x tt in
    (loc_ec result, per_location_error_codes result, x).

(** Type and bytes of the locations a delete removed, per key and slot. *)
Abbreviation LocsSz := (list (list (DataStorageType * Z))).

Definition no_sizes {A} (per_key : list (list A)) : LocsSz :=
  (fun l => replicate (length l) (DATA_STORAGE_TYPE_UNKNOWN, 0%Z)) <$> per_key.

(** Codes of the slots of one key, and the sizes of those to delete. *)
Definition delete_modifier (slot : nat -> nat -> LocationId -> ErrorCode -> CacheLocationConstPtr -> ErrorCode)
    : LocationModifier LocsSz :=
  fun get_ecs loc_ids key_index locs locs_sz =>
    let outs := imap (fun j (s : LocationId * (ErrorCode * CacheLocationConstPtr)) =>
                  slot key_index j s.1 s.2.1 s.2.2) (zip loc_ids (zip get_ecs locs)) in
    let sizes := (fun (o : (ErrorCode * CacheLocationConstPtr) * (DataStorageType * Z)) =>
                    match o.1 with
                    | (EC_OK, Some l) => (type l, location_bytes (fun _ => 0%Z) l)
                    | _ => o.2
                    end) <$> zip (zip outs locs) (default [] (locs_sz !! key_index)) in
    let found := existsb (fun c => bool_decide (c = EC_OK)) outs in
    (((if found then MA_DELETE else MA_SKIP, outs), (locs, ∅)), <[key_index := sizes]> locs_sz).

(** Subtracting the sizes of the slots that were deleted. *)
Definition sub_deleted (results : list (list ErrorCode)) (locs_sz : LocsSz) (usage : StorageUsageData)
    : StorageUsageData :=
  foldl (fun usage (s : ErrorCode * (DataStorageType * Z)) =>
    if bool_decide (s.1 = EC_OK) then (SubStorageUsageByType s.2.1 s.2.2 usage).2 else usage)
    usage (concat (zip_with zip results locs_sz)).

(** The slot of the compare-and-delete. *)
Definition cad_slot (tasks : list (list LocationCADTask)) (i j : nat) (_ : LocationId) (ec : ErrorCode)
    (loc : CacheLocationConstPtr) : ErrorCode :=
  if bool_decide (ec <> EC_OK) then ec
  else match tasks !! i ≫= (.!! j), loc with
       | Some task, Some l =>
           if bool_decide (status l = cad_expect_status task) then EC_OK else EC_MISMATCH
       | _, _ => EC_MISMATCH
       end.

Definition BatchCADLocationStatus (keys : list KeyType) (batch_tasks : list (list LocationCADTask))
    (usage : StorageUsageData) (x : Indexer)
    : ErrorCode * list (list ErrorCode) * StorageUsageData * Indexer :=
  if wrong_size batch_tasks keys then (EC_BADARGS, [], usage, x)
  else
    let '(result, x, locs_sz) :=
      ReadModifyWriteLocation keys (task_ids cad_location_id batch_tasks)
        (delete_modifier (cad_slot batch_tasks)) true false x (no_sizes batch_tasks) in
    (loc_ec result, per_location_error_codes result,
     sub_deleted (per_location_error_codes result) locs_sz usage, x).

(** The slot of [BatchDeleteLocations]; [expected] is empty when the values
    are not checked. *)
Definition delete_slot (expected : list (list string)) (i j : nat) (loc_id : LocationId) (ec : ErrorCode)
    (loc : CacheLocationConstPtr) : ErrorCode :=
  if bool_decide (ec = EC_NOENT) || bool_decide (loc_id = "")
  then (if bool_decide (ec <> EC_OK) then ec else EC_NOENT)
  else if bool_decide (ec <> EC_OK) then ec
  else if negb (bool_decide (expected = []))
          && match loc with
             | None => true
             | Some l => negb (bool_decide (Some (ToJsonString l) = (expected !! i ≫= (.!! j))))
             end
  then EC_MISMATCH
  else EC_OK.

Definition expected_shape_ok (expected : list (list string)) (ids : list (list LocationId)) : bool :=
  bool_decide (expected = [])
  || (negb (wrong_size expected ids) && forallb (fun ei => negb (wrong_size ei.1 ei.2)) (zip expected ids)).

(** Slots without a location id never count as deleted. *)
Definition skip_empty_ids (ids : list (list LocationId)) (results : list (list ErrorCode)) : list (list ErrorCode) :=
  zip_with (zip_with (fun lid c => if bool_decide (lid = "") then EC_NOENT else c)) ids results.

Definition BatchDeleteLocations (keys : list KeyType) (ids : list (list LocationId))
    (expected_location_values : list (list string)) (adjust_storage_usage adjust_reclaimed_key_count : bool)
    (usage : StorageUsageData) (x : Indexer)
    : ErrorCode * list (list ErrorCode) * StorageUsageData * Indexer :=
  if wrong_size ids keys || negb (expected_shape_ok expected_location_values ids)
  then (EC_BADARGS, [], usage, x)
  else
    let '(result, x, locs_sz) :=
      ReadModifyWriteLocation keys ids (delete_modifier (delete_slot expected_location_values))
        adjust_reclaimed_key_count false x (no_sizes ids) in
    (loc_ec result, per_location_error_codes result,
     if adjust_storage_usage
     then sub_deleted (skip_empty_ids ids (per_location_error_codes result)) locs_sz usage else usage, x).

(** ** Rolling back failed additions *)

(** [ClassifyAddLocationRollbackItems]: the plan so far and the uncertain items. *)
Fixpoint ClassifyAddLocationRollbackItems (i : nat) (keys : list KeyType) (results : list AddLocationResult)
    : AddLocationRollbackPlan * list (nat * (KeyType * LocationId)) :=
  match keys, results with
  | k :: keys, r :: results =>
      let '(plan, uncertain) := ClassifyAddLocationRollbackItems (S i) keys results in
      if bool_decide (add_ec r = EC_OK) && negb (bool_decide (add_location_id r = ""))
      then (mkPlan (k :: pipeline_keys plan) (add_location_id r :: pipeline_location_ids plan)
              (direct_delete_indices plan), uncertain)
      else if negb (bool_decide (add_location_id r = ""))
      then (plan, (i, (k, add_location_id r)) :: uncertain)
      else (mkPlan (pipeline_keys plan) (pipeline_location_ids plan) (i :: direct_delete_indices plan), uncertain)
  | _, _ => (mkPlan [] [] [], [])
  end.

Definition ClassifyAddLocationRollback (keys : list KeyType) (results : list AddLocationResult)
    : nat * AddLocationRollbackPlan :=
  let '(plan, uncertain) := ClassifyAddLocationRollbackItems 0 keys results in (length uncertain, plan).

(** [ReconcileAddLocationRollback]; [Sync] of the indexer is the parameter
    [sync]. *)
Definition ReconcileAddLocationRollback (sync : list KeyType -> bool) (keys : list KeyType)
    (results : list AddLocationResult) (usage : StorageUsageData) (x : Indexer)
    : ErrorCode * AddLocationRollbackPlan * Indexer :=
  if wrong_size results keys then (EC_BADARGS, mkPlan [] [] [], x)
  else
    let '(plan, uncertain) := ClassifyAddLocationRollbackItems 0 keys results in
    match uncertain with
    | [] => (EC_OK, plan, x)
    | _ =>
        let '(_, delete_results, _, x) :=
          BatchDeleteLocations ((fun u => u.2.1) <$> uncertain) ((fun u => [u.2.2]) <$> uncertain)
            [] false false usage x in
        if wrong_size delete_results uncertain
           || existsb (fun r => negb (length r =? 1)%nat) delete_results
        then (EC_OK, plan, x)
        else
          let codes := default EC_UNKNOWN ∘ head <$> delete_results in
          let rows := zip uncertain codes in
          let sync_keys := (fun r => r.1.2.1) <$> filter (fun r => r.2 = EC_OK) rows in
          let metadata_synced := match sync_keys with [] => true | _ => sync sync_keys end in
          let confirmed := filter (fun r => r.2 = EC_NOENT \/ (r.2 = EC_OK /\ metadata_synced = true)) rows in
          (EC_OK, mkPlan (pipeline_keys plan) (pipeline_location_ids plan)
                    (direct_delete_indices plan ++ ((fun r => r.1.1) <$> confirmed)), x)
    end.

End mutate.

(** ** Slot-wise modifiers *)

(** Stored locations are not null and sit under their own id. *)
Definition well_keyed (V : StoreView) : Prop :=
  forall k ls i p, V !! k = Some ls -> ls !! i = Some p -> exists l, p = Some l /\ id l = i.

(** The location of [k] stored under [lid]. *)
Definition location_at (V : StoreView) (k : KeyType) (lid : LocationId) : option CacheLocationConstPtr :=
  V !! k ≫= (.!! lid).

Section slotwise.
Variable slot : nat -> nat -> ErrorCode -> CacheLocationConstPtr -> ErrorCode * CacheLocationConstPtr.
Hypothesis slot_error : forall i j g v, g <> EC_OK -> slot i j g v = (g, v).
Hypothesis slot_keeps_id : forall i j g v v', slot i j g v = (EC_OK, v') ->
  forall l, v = Some l -> exists l', v' = Some l' /\ id l' = id l.

Implicit Types V : StoreView.

(** The slots of one key: requested id, code and value after the modifier. *)
Definition slot_outs (i : nat) (ids : list LocationId) (r : list ErrorCode) (o : list CacheLocationConstPtr)
    : list (ErrorCode * CacheLocationConstPtr) :=
  imap (fun j gv => slot i j gv.1 gv.2) (zip_with (fun i ev => validate_slot i ev.1 ev.2) ids (zip r o)).

Lemma zip_fst_snd {A B} (l : list (A * B)) : zip l.*1 l.*2 = l.
Proof. induction l as [|[a b] l IH]; [done|]. csimpl. by rewrite IH. Qed.

(** What was read at a slot, against the store. *)
Lemma slot_read V k i ids r o j lid :
  well_keyed V -> Forall3i (loc_read_ok V k) ids r o -> ids !! j = Some lid ->
  exists c v, slot_outs i ids r o !! j = Some (c, v) /\
    ((exists l, location_at V k lid = Some (Some l) /\ id l = lid /\ slot i j EC_OK (Some l) = (c, v)) \/
     (c <> EC_OK /\ (c = EC_NOENT -> location_at V k lid = None) /\ exists g w, g <> EC_OK /\ slot i j g w = (c, v))).
Proof.
  intros Hwk Hrd Hj. destruct (Forall3i_lookup _ _ _ _ _ _ Hrd Hj) as (g & p & Hg & Hp & Hok).
  set (gv := validate_slot lid g p).
  assert (Hgv : zip_with (fun i ev => validate_slot i ev.1 ev.2) ids (zip r o) !! j = Some gv).
  { apply lookup_zip_with_Some. exists lid, (g, p). split_and!; [done|done|]. apply lookup_zip_with_Some. eauto. }
  assert (Ho : slot_outs i ids r o !! j = Some (slot i j gv.1 gv.2)).
  { unfold slot_outs. rewrite list_lookup_imap, Hgv. done. }
  destruct (slot i j gv.1 gv.2) as [c v] eqn:Es. exists c, v. split; [done|].
  unfold gv, validate_slot in Es.
  destruct Hok as [(-> & ls & Hls & Hi)|Hok].
  - left. destruct (Hwk _ _ _ _ Hls Hi) as (l & -> & Hid). exists l.
    rewrite !bool_decide_eq_true_2 in Es by done. split_and!; [unfold location_at; by rewrite Hls|done|done].
  - right. assert (Hne : g <> EC_OK) by (destruct Hok as [[-> _]|[? _]]; done).
    rewrite bool_decide_eq_false_2 in Es by done. simpl in Es.
    assert (Hcg : c = g) by (rewrite slot_error in Es by done; congruence). split_and!; [congruence| |eauto].
    intros ->. subst g. destruct Hok as [[_ Hno]|[_ ?]]; [|done]. unfold location_at.
    destruct (V !! k) as [ls|] eqn:E; [by apply Hno|done].
Qed.

Lemma length_slot_outs i ids r o : length r = length ids -> length o = length ids ->
  length (slot_outs i ids r o) = length ids.
Proof. intros. unfold slot_outs. rewrite length_imap, length_zip_with, length_zip. lia. Qed.

(** The locations a row writes. *)
Definition slot_updates (i : nat) (ids : list LocationId) (r : list ErrorCode) (o : list CacheLocationConstPtr)
    : CacheLocationMap :=
  list_to_map (omap (fun s : LocationId * (ErrorCode * CacheLocationConstPtr) =>
    if bool_decide (s.2.1 = EC_OK) then Some (s.1, s.2.2) else None) (zip ids (slot_outs i ids r o))).

Definition some_ok (outs : list (ErrorCode * CacheLocationConstPtr)) : bool :=
  existsb (fun o => bool_decide (o.1 = EC_OK)) outs.

Lemma slot_updates_lookup i ids r o lid :
  NoDup ids -> length r = length ids -> length o = length ids ->
  (forall j v, ids !! j = Some lid -> slot_outs i ids r o !! j = Some (EC_OK, v) ->
     slot_updates i ids r o !! lid = Some v) /\
  ((forall j v, ids !! j = Some lid -> slot_outs i ids r o !! j <> Some (EC_OK, v)) ->
     slot_updates i ids r o !! lid = None).
Proof.
  intros Hnd Hr Ho. unfold slot_updates.
  set (f := fun s : LocationId * (ErrorCode * CacheLocationConstPtr) => _).
  assert (Hlen := length_slot_outs i ids r o Hr Ho).
  assert (Hnd1 : NoDup (omap f (zip ids (slot_outs i ids r o))).*1).
  { eapply sublist_NoDup; [exact Hnd|]. generalize (slot_outs i ids r o). clear. intros outs.
    revert outs. induction ids as [|a ids IH]; intros [|[c v] outs]; csimpl; try apply sublist_nil_l.
    unfold f at 1. simpl. case_bool_decide; csimpl; by constructor. }
  split.
  - intros j v Hj Hv. apply elem_of_list_to_map_1; [done|]. apply list_elem_of_omap.
    exists (lid, (EC_OK, v)). split; [|done].
    apply list_elem_of_lookup. exists j. apply lookup_zip_with_Some. eauto.
  - intros Hno. apply not_elem_of_list_to_map_1. intros ([lid' v] & -> & Hin)%list_elem_of_fmap.
    apply list_elem_of_omap in Hin as ([a [c w]] & Hin & Hf). unfold f in Hf. simpl in Hf.
    case_bool_decide as Hc; simplify_eq/=. apply list_elem_of_lookup in Hin as (j & Hj).
    apply lookup_zip_with_Some in Hj as (? & ? & [= <- <-] & Hi & Hs). by apply (Hno j v).
Qed.

(** The row of a slot-wise modifier. *)
Lemma slot_row V k i ids r o :
  well_keyed V -> NoDup ids -> Forall3i (loc_read_ok V k) ids r o ->
  let out := row_outcome (slot_modifier slot) ((i, k), (ids, (r, o))) in
  out.1.2 = (slot_outs i ids r o).*1 /\
  upsert_batch out.1.1 =
    (if some_ok (slot_outs i ids r o) then [mkUpsert i k (slot_updates i ids r o) ∅] else []).
Proof.
  intros Hwk Hnd Hrd. destruct (Forall3i_length _ _ _ _ Hrd) as [Hlr Hlo].
  assert (Hlen := length_slot_outs i ids r o Hlr Hlo).
  unfold row_outcome, location_row. simpl. rewrite !wrong_size_eq by done. cbn [orb].
  unfold slot_modifier. rewrite zip_fst_snd. fold (slot_outs i ids r o).
  set (outs := slot_outs i ids r o) in *. fold (some_ok outs).
  rewrite wrong_size_eq by (by rewrite length_fmap).
  set (ch := zip_with _ ids (zip r o)).
  assert (Hme : zip_with (fun g e => if bool_decide (g = EC_OK) || bool_decide (g = EC_NOENT) then e else g)
    ch.*1 outs.*1 = outs.*1).
  { apply list_eq. intros j. destruct (outs.*1 !! j) as [c|] eqn:Ec.
    - rewrite list_lookup_fmap in Ec. destruct (outs !! j) as [[c' v]|] eqn:Eo; simplify_eq/=.
      unfold outs, slot_outs in Eo. rewrite list_lookup_imap in Eo. fold ch in Eo.
      destruct (ch !! j) as [[g w]|] eqn:Eg; simplify_eq/=.
      apply lookup_zip_with_Some. exists g, c. split_and!; [|by rewrite list_lookup_fmap, Eg|].
      + destruct (decide (g = EC_OK)) as [->|Hg]; [done|]. rewrite slot_error in Eo by done.
        simplify_eq. by destruct (_ || _).
      + rewrite list_lookup_fmap. unfold outs, slot_outs. rewrite list_lookup_imap. fold ch. rewrite Eg. simpl.
        by rewrite Eo.
    - apply lookup_ge_None in Ec. apply lookup_ge_None. rewrite length_zip_with, !length_fmap in *. lia. }
  assert (Hact : bool_decide ((if some_ok outs then MA_OK else MA_SKIP) = MA_FAIL) = false)
    by (apply bool_decide_eq_false; by destruct (some_ok outs)).
  rewrite Hme, Hact. clear Hme Hact. cbn [andb]. destruct (some_ok outs) eqn:Eok; simpl; [|done].
  rewrite zip_fst_snd.
  assert (Huse : forall s, s ∈ zip ids outs -> s.2.1 = EC_OK -> usable_slot s = true).
  { intros [lid [c v]] (j & Hj)%list_elem_of_lookup Hc. simpl in Hc. subst c.
    apply lookup_zip_with_Some in Hj as (lid' & cv & [= <- <-] & Hi & Hs).
    destruct (slot_read V k i ids r o j lid Hwk Hrd Hi) as (c & v' & Hs' & Hor).
    fold outs in Hs'. rewrite Hs in Hs'. simplify_eq. unfold usable_slot. simpl.
    destruct Hor as [(l & _ & Hid & Hsl)|[? _]]; [|done].
    destruct (slot_keeps_id _ _ _ _ _ Hsl l eq_refl) as (l' & -> & Hid'). apply bool_decide_eq_true. congruence. }
  split.
  - rewrite <-(snd_zip ids outs) at 2 by lia. rewrite <-list_fmap_compose. apply list_fmap_ext.
    intros j s Hs. simpl. case_bool_decide as Hc; [done|].
    rewrite Huse; [done| |done]. by eapply list_elem_of_lookup_2.
  - assert (Hom : omap (fun s => if bool_decide (s.2.1 = EC_OK) && usable_slot s then Some (s.1, s.2.2) else None)
      (zip ids outs) = omap (fun s : LocationId * (ErrorCode * CacheLocationConstPtr) =>
        if bool_decide (s.2.1 = EC_OK) then Some (s.1, s.2.2) else None) (zip ids outs)).
    { revert Huse. generalize (zip ids outs). induction l as [|s l IH]; [done|]. intros Huse. csimpl.
      rewrite IH by (intros; apply Huse; [by right|done]). case_bool_decide; [|done].
      by rewrite Huse by (by left || done). }
    rewrite Hom. fold (slot_updates i ids r o). rewrite bool_decide_eq_false_2; [done|].
    apply existsb_exists in Eok as ([c v] & Hin%list_elem_of_In & Hc). apply bool_decide_eq_true in Hc.
    simpl in Hc. subst c. apply list_elem_of_lookup in Hin as (j & Hj).
    destruct (lookup_lt_is_Some_2 ids j) as [lid Hlid]; [apply lookup_lt_Some in Hj; lia|].
    destruct (slot_updates_lookup i ids r o lid Hnd Hlr Hlo) as [Hup _].
    intros Hemp. specialize (Hup j v Hlid Hj). change (slot_updates i ids r o = ∅) in Hemp.
    by rewrite Hemp, lookup_empty in Hup.
Qed.

(** The effect of a slot-wise modifier on one key, slot by slot. *)
Lemma slot_position V V' i k ids codes' :
  well_keyed V -> NoDup ids -> position_effect (slot_modifier slot) V V' i k ids codes' ->
  length codes' = length ids /\
  (forall j lid c, ids !! j = Some lid -> codes' !! j = Some c ->
     (c = EC_OK /\ exists l l', location_at V k lid = Some (Some l) /\
        slot i j EC_OK (Some l) = (EC_OK, Some l') /\ location_at V' k lid = Some (Some l')) \/
     (c <> EC_OK /\ location_at V' k lid = location_at V k lid /\
      (c = EC_NOENT -> location_at V k lid = None \/
         exists l v, location_at V k lid = Some (Some l) /\ slot i j EC_OK (Some l) = (c, v)))) /\
  (forall lid, lid ∉ ids -> location_at V' k lid = location_at V k lid).
Proof.
  intros Hwk Hnd (r & o & Hrd & Heff). destruct (Forall3i_length _ _ _ _ Hrd) as [Hlr Hlo].
  assert (Hlen := length_slot_outs i ids r o Hlr Hlo).
  assert (Hnoent : forall j lid c v, ids !! j = Some lid -> slot_outs i ids r o !! j = Some (c, v) -> c = EC_NOENT ->
    location_at V k lid = None \/ exists l v, location_at V k lid = Some (Some l) /\ slot i j EC_OK (Some l) = (c, v)).
  { intros j lid c v Hj Ho ->. destruct (slot_read V k i ids r o j lid Hwk Hrd Hj) as (c & v' & Hs & Hor).
    rewrite Ho in Hs. simplify_eq. destruct Hor as [(l & ? & _ & ?)|(_ & Hn & _)]; [right; eauto|left; auto]. }
  destruct (slot_row V k i ids r o Hwk Hnd Hrd) as [Hcodes Hup].
  cbv zeta in Heff. unfold row_effect in Heff. rewrite Hcodes, Hup in Heff. clear Hcodes Hup.
  destruct (some_ok (slot_outs i ids r o)) eqn:Eok.
  2: { destruct Heff as [HV ->]. assert (Hl : forall lid, location_at V' k lid = location_at V k lid)
         by (intros; unfold location_at; by rewrite HV).
       split_and!; [by rewrite length_fmap|intros j lid c Hj Hc; right|auto].
       rewrite list_lookup_fmap in Hc. destruct (slot_outs i ids r o !! j) as [[c' v]|] eqn:Eo; simplify_eq/=.
       split_and!; [|done|by eapply Hnoent]. intros ->.
       apply not_true_iff_false in Eok. apply Eok, existsb_exists. exists (EC_OK, v).
       split; [|done]. apply list_elem_of_In. by eapply list_elem_of_lookup_2. }
  destruct Heff as (e & -> & [[-> HV]|[He HV]]); simpl in *.
  - assert (Hkey : is_Some (V !! k)).
    { apply existsb_exists in Eok as ([c v] & Hin%list_elem_of_In & Hc%bool_decide_eq_true). simpl in Hc. subst c.
      apply list_elem_of_lookup in Hin as (j & Hj).
      destruct (lookup_lt_is_Some_2 ids j) as [lid Hlid]; [apply lookup_lt_Some in Hj; lia|].
      destruct (slot_read V k i ids r o j lid Hwk Hrd Hlid) as (c & v' & Hs & Hor). rewrite Hj in Hs. simplify_eq.
      destruct Hor as [(l & Hl & _)|[? _]]; [|done]. unfold location_at in Hl. by destruct (V !! k). }
    destruct Hkey as [ls Hls]. rewrite Hls in HV. simpl in HV.
    assert (Hat : forall lid, location_at V' k lid = (slot_updates i ids r o ∪ ls) !! lid)
      by (intros; unfold location_at; by rewrite HV).
    assert (Hold : forall lid, slot_updates i ids r o !! lid = None -> location_at V' k lid = location_at V k lid).
    { intros lid Hn. rewrite Hat, lookup_union_r by done. unfold location_at. by rewrite Hls. }
    split_and!; [by rewrite !length_fmap| |].
    + intros j lid c Hj Hc. destruct (slot_updates_lookup i ids r o lid Hnd Hlr Hlo) as [Hu1 Hu2].
      rewrite !list_lookup_fmap in Hc. destruct (slot_outs i ids r o !! j) as [[c0 v]|] eqn:Eo; simplify_eq/=.
      destruct (slot_read V k i ids r o j lid Hwk Hrd Hj) as (c1 & v1 & Hs & Hor). rewrite Eo in Hs. simplify_eq.
      case_bool_decide as Hc1.
      * subst c1. left. split; [done|]. destruct Hor as [(l & Hl & Hid & Hsl)|[? _]]; [|done].
        destruct (slot_keeps_id _ _ _ _ _ Hsl l eq_refl) as (l' & -> & Hid'). exists l, l'. split_and!; [done|done|].
        rewrite Hat. apply lookup_union_Some_l. by apply (Hu1 j).
      * right. split; [done|]. split; [|by eapply Hnoent]. apply Hold, Hu2. intros j' v' Hj' Hs'.
        pose proof (NoDup_lookup _ _ _ _ Hnd Hj Hj') as <-. congruence.
    + intros lid Hni. apply Hold. destruct (slot_updates_lookup i ids r o lid Hnd Hlr Hlo) as [_ Hu2].
      apply Hu2. intros j v Hj. destruct Hni. by eapply list_elem_of_lookup_2.
  - assert (Hl : forall lid, location_at V' k lid = location_at V k lid)
      by (intros; unfold location_at; by rewrite HV).
    split_and!; [by rewrite !length_fmap|intros j lid c Hj Hc; right|auto].
    rewrite !list_lookup_fmap in Hc. destruct (slot_outs i ids r o !! j) as [[c0 v]|] eqn:Eo; simplify_eq/=.
    destruct He as [He1 He2]. case_bool_decide; (split_and!; [done|done|]); [done|by eapply Hnoent].
Qed.

End slotwise.

Lemma slot_modifier_no_delete slot gs ids i vs : (slot_modifier slot gs ids i vs tt).1.1.1 <> MA_DELETE.
Proof. unfold slot_modifier. simpl. by destruct (existsb _ _). Qed.

(** A slot-wise modifier that adds no errors of its own. *)
Lemma slot_modifier_passes slot gs ids i vs w :
  (forall i j g v, (slot i j g v).1 = EC_OK \/ (slot i j g v).1 = g) ->
  length gs = length ids -> length vs = length ids ->
  Forall2 (fun g c => c = EC_OK \/ c = g) gs (slot_modifier slot gs ids i vs w).1.1.2.
Proof.
  intros Hs H1 H2. unfold slot_modifier. simpl. apply Forall2_same_length_lookup_2.
  - rewrite length_fmap, length_imap, length_zip. lia.
  - intros j g c Hg Hc. rewrite list_lookup_fmap, list_lookup_imap in Hc.
    destruct (zip gs vs !! j) as [[g' v]|] eqn:Ez; [|done]. simpl in Hc. simplify_eq.
    apply lookup_zip_with_Some in Ez as (? & ? & [= <- <-] & Hg' & _). simplify_eq. apply Hs.
Qed.

Lemma update_slot_passes tasks i j g v : (update_slot tasks i j g v).1 = EC_OK \/ (update_slot tasks i j g v).1 = g.
Proof. unfold update_slot. case_bool_decide; [by right|]. by repeat case_match; left. Qed.

Section cas.
Context {PT CT : Type} `{PB : !MetaStorageBackend PT} `{PL : !LawfulBackend PT}
  `{CB : !MetaCacheBaseBackend CT}.
Variable ToJsonString : CacheLocation -> string.
Local Abbreviation Indexer := (MetaIndexer PT CT).
Implicit Types x : Indexer.

Lemma cas_slot_error tasks i j g v : g <> EC_OK -> cas_slot ToJsonString tasks i j g v = (g, v).
Proof. intros Hg. unfold cas_slot. by rewrite bool_decide_eq_true_2. Qed.

Lemma cas_slot_ok tasks i j g v v' :
  cas_slot ToJsonString tasks i j g v = (EC_OK, v') ->
  exists t l, tasks !! i ≫= (.!! j) = Some t /\ v = Some l /\ v' = Some (set_status (cas_new_status t) l) /\
    status l = cas_old_status t /\
    (cas_expected_location_value t = "" \/ ToJsonString l = cas_expected_location_value t).
Proof.
  unfold cas_slot. case_bool_decide as Hg; [by intros [= ?]|].
  destruct (tasks !! i ≫= (.!! j)) as [t|], v as [l|]; [|by intros [= ?]..].
  destruct (_ || _) eqn:E; intros [= <-]. apply orb_false_iff in E as [E1 E2].
  apply negb_false_iff, bool_decide_eq_true in E2. exists t, l. split_and!; try done.
  apply andb_false_iff in E1 as [E1|E1]; apply negb_false_iff, bool_decide_eq_true in E1; auto.
Qed.

(** Requests that name no key and no location of a key twice. *)
Definition distinct_request (keys : list KeyType) (ids : list (list LocationId)) : Prop :=
  NoDup keys /\ length ids = length keys /\ Forall NoDup ids.

Lemma slotwise_request slot keys ids adj x lr x' w' :
  (forall i j g v, g <> EC_OK -> slot i j g v = (g, v)) ->
  (forall i j g v v', slot i j g v = (EC_OK, v') -> forall l, v = Some l -> exists l', v' = Some l' /\ id l' = id l) ->
  single_tier (backend_manager_ x) -> distinct_request keys ids -> well_keyed (stored x) ->
  ReadModifyWriteLocation keys ids (slot_modifier slot) adj false x tt = (lr, x', w') ->
  single_tier (backend_manager_ x') /\ well_keyed (stored x') /\
  (forall i k lids, keys !! i = Some k -> ids !! i = Some lids ->
     exists codes, per_location_error_codes lr !! i = Some codes /\ length codes = length lids /\
     forall j lid c, lids !! j = Some lid -> codes !! j = Some c ->
       (c = EC_OK /\ exists l l', location_at (stored x) k lid = Some (Some l) /\
          slot i j EC_OK (Some l) = (EC_OK, Some l') /\ location_at (stored x') k lid = Some (Some l')) \/
       (c <> EC_OK /\ location_at (stored x') k lid = location_at (stored x) k lid /\
        (c = EC_NOENT -> location_at (stored x) k lid = None \/
           exists l v, location_at (stored x) k lid = Some (Some l) /\ slot i j EC_OK (Some l) = (c, v)))) /\
  (forall k lid, (forall i lids, keys !! i = Some k -> ids !! i = Some lids -> lid ∉ lids) ->
     location_at (stored x') k lid = location_at (stored x) k lid).
Proof.
  intros Hs1 Hs2 Hst (Hndk & Hll & Hndi) Hwk Hrun.
  destruct (ReadModifyWriteLocation_spec (slot_modifier slot) (slot_modifier_no_delete slot)
    _ _ _ _ _ _ _ Hst Hndk Hll Hrun) as (Hst' & Hpos & Hoth).
  rewrite Forall_forall in Hndi.
  assert (Hp : forall i k lids, keys !! i = Some k -> ids !! i = Some lids -> exists codes,
    per_location_error_codes lr !! i = Some codes /\ length codes = length lids /\
    (forall j lid c, lids !! j = Some lid -> codes !! j = Some c ->
       (c = EC_OK /\ exists l l', location_at (stored x) k lid = Some (Some l) /\
          slot i j EC_OK (Some l) = (EC_OK, Some l') /\ location_at (stored x') k lid = Some (Some l')) \/
       (c <> EC_OK /\ location_at (stored x') k lid = location_at (stored x) k lid /\
        (c = EC_NOENT -> location_at (stored x) k lid = None \/
           exists l v, location_at (stored x) k lid = Some (Some l) /\ slot i j EC_OK (Some l) = (c, v)))) /\
    (forall lid, lid ∉ lids -> location_at (stored x') k lid = location_at (stored x) k lid)).
  { intros i k lids Hk Hi. destruct (Hpos i k lids Hk Hi) as (codes & Hc & He).
    apply slot_position in He as (H1 & H2 & H3); [eauto 6|done|done|done|].
    apply Hndi. by eapply list_elem_of_lookup_2. }
  assert (Hframe : forall k, k ∉ keys -> forall lid, location_at (stored x') k lid = location_at (stored x) k lid).
  { intros k Hk lid. unfold location_at. by rewrite Hoth. }
  assert (Hkeys : forall k, k ∈ keys -> exists i lids, keys !! i = Some k /\ ids !! i = Some lids).
  { intros k (i & Hi)%list_elem_of_lookup. destruct (lookup_lt_is_Some_2 ids i) as [lids Hl];
      [apply lookup_lt_Some in Hi; lia|eauto]. }
  split_and!; [done| | |].
  - intros k ls lid p Hls Hlid. assert (Hat : location_at (stored x') k lid = Some p)
      by (unfold location_at; by rewrite Hls).
    assert (Hold : location_at (stored x) k lid = Some p -> exists l, p = Some l /\ id l = lid).
    { unfold location_at. destruct (stored x !! k) as [ls0|] eqn:E0; [|done]. simpl. intros. by eapply Hwk. }
    destruct (decide (k ∈ keys)) as [Hk|Hk]; [|apply Hold; by rewrite <-Hframe].
    destruct (Hkeys k Hk) as (i & lids & Hi & Hl). destruct (Hp i k lids Hi Hl) as (codes & _ & Hlc & Hj & Hf).
    destruct (decide (lid ∈ lids)) as [Hin|Hni]; [|apply Hold; by rewrite <-Hf].
    apply list_elem_of_lookup in Hin as (j & Hjl).
    destruct (lookup_lt_is_Some_2 codes j) as [c Hc]; [apply lookup_lt_Some in Hjl; lia|].
    destruct (Hj j lid c Hjl Hc) as [(_ & l & l' & Hl0 & Hsl & Hl1)|(_ & Heq & _)]; [|apply Hold; by rewrite <-Heq].
    rewrite Hat in Hl1. injection Hl1 as ->. exists l'. split; [done|].
    destruct (Hs2 _ _ _ _ _ Hsl l eq_refl) as (l2 & [= <-] & Hid). rewrite Hid.
    unfold location_at in Hl0. destruct (stored x !! k) as [ls0|] eqn:E0; [|done]. simpl in Hl0.
    destruct (Hwk _ _ _ _ E0 Hl0) as (l3 & [= <-] & ?). done.
  - intros i k lids Hk Hi. destruct (Hp i k lids Hk Hi) as (codes & ? & ? & ? & _). eauto.
  - intros k lid Hno. destruct (decide (k ∈ keys)) as [Hk|Hk]; [|by apply Hframe].
    destruct (Hkeys k Hk) as (i & lids & Hi & Hl). destruct (Hp i k lids Hi Hl) as (codes & _ & _ & _ & Hf).
    apply Hf. by eapply Hno.
Qed.

(** The compare-and-swap, slot by slot. *)
Lemma BatchCASLocationStatus_spec keys tasks x r codes x' :
  cache_backend_ (backend_manager_ x) = None ->
  distinct_request keys (task_ids cas_location_id tasks) -> well_keyed (stored x) ->
  BatchCASLocationStatus ToJsonString keys tasks false x = (r, codes, x') ->
  single_tier (backend_manager_ x') /\ well_keyed (stored x') /\
  (forall i j k ts t, keys !! i = Some k -> tasks !! i = Some ts -> ts !! j = Some t ->
     exists cs c, codes !! i = Some cs /\ length cs = length ts /\ cs !! j = Some c /\
     ((c = EC_OK /\ exists l, location_at (stored x) k (cas_location_id t) = Some (Some l) /\
         status l = cas_old_status t /\
         (cas_expected_location_value t = "" \/ ToJsonString l = cas_expected_location_value t) /\
         location_at (stored x') k (cas_location_id t) = Some (Some (set_status (cas_new_status t) l))) \/
      (c <> EC_OK /\ location_at (stored x') k (cas_location_id t) = location_at (stored x) k (cas_location_id t)))) /\
  (forall k lid, (forall i ts t, keys !! i = Some k -> tasks !! i = Some ts -> t ∈ ts -> cas_location_id t <> lid) ->
     location_at (stored x') k lid = location_at (stored x) k lid).
Proof.
  intros Hst Hd Hwk Hrun. unfold BatchCASLocationStatus in Hrun. pose proof Hd as (_ & Hll & _).
  unfold task_ids in Hll. rewrite length_fmap in Hll. rewrite wrong_size_eq in Hrun by done.
  destruct (ReadModifyWriteLocation _ _ _ _ _ _ _) as [[lr x1] w1] eqn:Er. simplify_eq.
  apply slotwise_request in Er as (Hst' & Hwk' & Hpos & Hoth); [|apply cas_slot_error| |done|done|done].
  2: { intros i j g v v' Hs l ->. apply cas_slot_ok in Hs as (t & l' & _ & [= <-] & -> & _). by eexists. }
  assert (Hids : forall i ts, tasks !! i = Some ts ->
    task_ids cas_location_id tasks !! i = Some (cas_location_id <$> ts)).
  { intros i ts Hi. unfold task_ids. by rewrite list_lookup_fmap, Hi. }
  split_and!; [done|done| |].
  - intros i j k ts t Hk Hts Ht. destruct (Hpos i k _ Hk (Hids i ts Hts)) as (cs & Hcs & Hlc & Hj).
    rewrite length_fmap in Hlc.
    destruct (lookup_lt_is_Some_2 cs j) as [c Hc]; [apply lookup_lt_Some in Ht; lia|].
    exists cs, c. split_and!; [done|done|done|].
    destruct (Hj j (cas_location_id t) c) as [(-> & l & l' & Hl & Hsl & Hl')|(? & ? & _)];
      [by rewrite list_lookup_fmap, Ht|done| |by right].
    left. split; [done|]. apply cas_slot_ok in Hsl as (t' & l0 & Ht' & [= <-] & [= ->] & Hold & Hex).
    rewrite Hts in Ht'. simpl in Ht'. rewrite Ht in Ht'. injection Ht' as <-. eauto 6.
  - intros k lid Hno. apply Hoth. intros i lids Hk Hi Hin. unfold task_ids in Hi. rewrite list_lookup_fmap in Hi.
    destruct (tasks !! i) as [ts|] eqn:Ets; simplify_eq/=.
    apply list_elem_of_fmap in Hin as (t & -> & Ht). by apply (Hno i ts t).
Qed.

(** C11: the batched status compare-and-swap is exact per location (on an index
    without a cache tier, for a request that names no key and no location of a
    key twice, without the refresh of the cached view). For every slot whose
    location is stored: either the slot is reported [EC_OK], the location had
    the expected old status (and the expected value, when one was given), and
    it is now the same location with the new status; or the slot is reported
    otherwise and the location is unchanged. A slot without a stored location
    changes nothing, nor does any location the request does not name, and
    locations stay stored under their own ids. *)
Theorem BatchCASLocationStatus_exact keys tasks x r codes x' :
  cache_backend_ (backend_manager_ x) = None ->
  distinct_request keys (task_ids cas_location_id tasks) -> well_keyed (stored x) ->
  BatchCASLocationStatus ToJsonString keys tasks false x = (r, codes, x') ->
  well_keyed (stored x') /\
  (forall i j k ts t, keys !! i = Some k -> tasks !! i = Some ts -> ts !! j = Some t ->
     exists c, codes !! i ≫= (.!! j) = Some c /\
     (forall l, location_at (stored x) k (cas_location_id t) = Some (Some l) ->
       (c = EC_OK /\ status l = cas_old_status t /\
          (cas_expected_location_value t = "" \/ ToJsonString l = cas_expected_location_value t) /\
          location_at (stored x') k (cas_location_id t) = Some (Some (set_status (cas_new_status t) l))) \/
       (c <> EC_OK /\ location_at (stored x') k (cas_location_id t) = Some (Some l))) /\
     ((forall l, location_at (stored x) k (cas_location_id t) <> Some (Some l)) ->
       location_at (stored x') k (cas_location_id t) = location_at (stored x) k (cas_location_id t))) /\
  (forall k lid, (forall i ts t, keys !! i = Some k -> tasks !! i = Some ts -> t ∈ ts -> cas_location_id t <> lid) ->
     location_at (stored x') k lid = location_at (stored x) k lid).
Proof.
  intros Hst Hd Hwk Hrun. apply BatchCASLocationStatus_spec in Hrun as (_ & Hwk' & Hpos & Hoth); [|done..].
  split_and!; [done| |done]. intros i j k ts t Hk Hts Ht. destruct (Hpos i j k ts t Hk Hts Ht) as (cs & c & Hcs & _ & Hc & Hor).
  exists c. rewrite Hcs. split; [done|]. destruct Hor as [(-> & l & Hl & Hst' & Hv & Hl')|[Hne Heq]]; rewrite Hl || rewrite Heq.
  - split; [|intros Hn; by destruct (Hn l)]. intros l2 [= <-]. left. by split_and!.
  - split; [|done]. intros l Hl. right. by rewrite Hl.
Qed.

End cas.

Section update.
Context {PT CT : Type} `{PB : !MetaStorageBackend PT} `{PL : !LawfulBackend PT}
  `{CB : !MetaCacheBaseBackend CT}.
Implicit Types x : MetaIndexer PT CT.

(** Updating the status of one location per key: a location is updated or
    left alone, and on [EC_OK] every location that exists is updated. *)
Lemma BatchUpdateLocationStatus_one (blocks : list (KeyType * LocationId)) st x r codes x' :
  single_tier (backend_manager_ x) -> NoDup blocks.*1 -> well_keyed (stored x) ->
  BatchUpdateLocationStatus blocks.*1 ((fun b => [mkUpdateTask b.2 st]) <$> blocks) x = (r, codes, x') ->
  single_tier (backend_manager_ x') /\ well_keyed (stored x') /\
  (forall i k lid, blocks !! i = Some (k, lid) -> exists c, codes !! i = Some [c] /\
     ((c = EC_OK /\ exists l, location_at (stored x) k lid = Some (Some l) /\
         location_at (stored x') k lid = Some (Some (set_status st l))) \/
      (c <> EC_OK /\ location_at (stored x') k lid = location_at (stored x) k lid /\
       (r = EC_OK -> location_at (stored x) k lid = None)))) /\
  (forall k lid, (k, lid) ∉ blocks -> location_at (stored x') k lid = location_at (stored x) k lid).
Proof.
  intros Hst Hnd Hwk Hrun. unfold BatchUpdateLocationStatus in Hrun.
  set (tasks := (fun b => [mkUpdateTask b.2 st]) <$> blocks) in *.
  assert (Hids : task_ids ut_location_id tasks = (fun b => [b.2]) <$> blocks).
  { unfold task_ids, tasks. by rewrite <-list_fmap_compose. }
  rewrite wrong_size_eq in Hrun by (unfold tasks; by rewrite !length_fmap). rewrite Hids in Hrun.
  destruct (ReadModifyWriteLocation _ _ _ _ _ _ _) as [[lr x1] w1] eqn:Er. simplify_eq.
  assert (Hlen : length ((fun b => [b.2]) <$> blocks) = length blocks.*1) by (by rewrite !length_fmap).
  pose proof (ReadModifyWriteLocation_ok (slot_modifier (update_slot tasks)) (fun gs ids i vs w =>
    slot_modifier_passes _ gs ids i vs w (update_slot_passes tasks)) _ _ _ _ _ _ _ _ Hlen Er) as Hben.
  apply slotwise_request in Er as (Hst' & Hwk' & Hpos & Hoth); [|by intros; unfold update_slot; rewrite bool_decide_eq_true_2| |done| |done].
  2: { intros i j g v v' Hs l ->. unfold update_slot in Hs. case_bool_decide; [by simplify_eq|].
       destruct (tasks !! i ≫= (.!! j)); simplify_eq; by eexists. }
  2: { split_and!; [done|done|]. apply Forall_fmap, Forall_forall. intros b _. apply NoDup_singleton. }
  assert (Htask : forall i k lid, blocks !! i = Some (k, lid) -> tasks !! i ≫= (.!! 0) = Some (mkUpdateTask lid st)).
  { intros i k lid Hi. unfold tasks. by rewrite list_lookup_fmap, Hi. }
  split_and!; [done|done| |].
  - intros i k lid Hi. destruct (Hpos i k [lid]) as (cs & Hcs & Hl & Hj); [by rewrite list_lookup_fmap, Hi..|].
    destruct cs as [|c [|]]; simpl in Hl; [lia| |lia]. exists c. split; [done|].
    destruct (Hj 0 lid c eq_refl eq_refl) as [(-> & l & l' & Hl0 & Hs & Hl1)|(Hne & Heq & Hno)]; [left|right].
    + split; [done|]. exists l. split; [done|]. unfold update_slot in Hs. rewrite bool_decide_eq_false_2 in Hs by naive_solver.
      rewrite (Htask i k lid Hi) in Hs. simpl in Hs. congruence.
    + split_and!; [done|done|]. intros Hr. specialize (Hben Hr _ _ Hcs). apply Forall_singleton in Hben as [?|Hb]; [done|].
      destruct (Hno Hb) as [?|(l & v & Hl0 & Hs)]; [done|]. exfalso. unfold update_slot in Hs.
      rewrite bool_decide_eq_false_2 in Hs by naive_solver. rewrite (Htask i k lid Hi) in Hs. simpl in Hs. congruence.
  - intros k lid Hni. apply Hoth. intros i lids Hk Hl Hin. apply Hni. rewrite list_lookup_fmap in Hk. rewrite list_lookup_fmap in Hl.
    destruct (blocks !! i) as [[k' l']|] eqn:E; [|done]. simpl in *. simplify_eq. apply list_elem_of_singleton in Hin as ->.
    by eapply list_elem_of_lookup_2.
Qed.

End update.

(** A store with one location being written. *)
Definition sample_writing : CacheLocation := make_location "l1" CLS_WRITING DATA_STORAGE_TYPE_NFS 1 [].

Definition sample_writing_indexer : MetaIndexer MetaDummyBackend MetaLocalBackend :=
  mkIndexer (mkManager (DummyBackend.Put [1]%Z [{[ "l1" := Some sample_writing ]}] [∅]
    (mkDummy ∅ ∅ (fun n => Z.of_nat n))).2 None kRunning ∅) 1 10 2 (fun k => (k mod 3)%Z).

Lemma BatchCASLocationStatus_exact_witness :
  let out := BatchCASLocationStatus (fun _ => "") [1; 4]%Z
    [[mkCASTask "l1" CLS_WRITING CLS_SERVING ""]; [mkCASTask "l1" CLS_WRITING CLS_SERVING ""]]
    false sample_writing_indexer in
  out.1.2 = [[EC_OK]; [EC_NOENT]] /\ well_keyed (stored out.2).
Proof.
  intros out. split; [vm_compute; reflexivity|]. destruct out as [[r codes] x'] eqn:E.
  refine (proj1 (BatchCASLocationStatus_exact (fun _ => "") [1; 4]%Z _ sample_writing_indexer r codes x'
    eq_refl _ _ E)).
  - split_and!; [by apply (bool_decide_unpack _); vm_compute|reflexivity|].
    repeat constructor; by apply not_elem_of_nil.
  - intros k ls i p Hk Hi. assert (Hv : stored sample_writing_indexer = {[ 1%Z := {[ "l1" := Some sample_writing ]} ]})
      by (vm_compute; reflexivity). rewrite Hv in Hk. apply lookup_singleton_Some in Hk as [<- <-].
    apply lookup_singleton_Some in Hi as [<- <-]. by eexists.
Defined.
