(* ===== verification/RmwDelete.v ===== *)
(** * RmwDelete: location read-modify-writes that delete

    The counterpart of [RmwLocation] for the deleting modifiers of
    [manager/meta_searcher.cc] ([delete_modifier]): on a single-tier store and
    a request without repeated keys, exactly the locations whose slot answers
    [EC_OK] disappear, and a key left without locations is reclaimed without
    touching anything else. *)

From stdpp Require Import base gmap sets list strings.
From Stdlib Require Import ZArith Lia.
From S2P Require Import Prelude StandardUri MetaTypes StorageUsage MetaBackend DummyBackend LocalBackend BackendManager BackendReads MetaIndexer IndexerRmw RmwLocation RmwCodes MetaMutate.

(** ** Deleting locations in a single tier *)

(** The locations of a key; a key without an entry has none. *)
Definition entry (V : StoreView) (k : KeyType) : CacheLocationMap := default ∅ (V !! k).

Lemma location_at_entry V k lid : location_at V k lid = entry V k !! lid.
Proof. unfold location_at, entry. by destruct (V !! k). Qed.

Lemma remove_ids_lookup ids ls i : remove_ids ids ls !! i = if bool_decide (i ∈ ids) then None else ls !! i.
Proof.
  unfold remove_ids. revert ls. induction ids as [|j ids IH]; intros ls; [done|]. cbn [foldl]. rewrite IH.
  destruct (decide (i = j)) as [->|Hne].
  - rewrite lookup_delete_eq, (bool_decide_eq_true_2 (j ∈ j :: ids)) by left. by case_bool_decide.
  - rewrite lookup_delete_ne by done. do 2 case_bool_decide; [done| | |done]; exfalso; set_solver.
Qed.

Lemma candidates_subset keys : forall seen results k, k ∈ candidates seen keys results -> k ∈ keys.
Proof.
  induction keys as [|k0 keys IH]; intros seen [|r results] k; simpl; try (by intros ?%not_elem_of_nil).
  destruct (_ && _); [|intros ?%IH; by right]. intros [->|?%IH]%elem_of_cons; [left|by right].
Qed.

Lemma candidates_NoDup keys : forall seen results,
  NoDup (candidates seen keys results) /\ forall k, k ∈ candidates seen keys results -> k ∉ seen.
Proof.
  induction keys as [|k0 keys IH]; intros seen [|r results]; simpl;
    try (split; [constructor|by intros ? ?%not_elem_of_nil]).
  destruct (bool_decide (r = EC_OK) && negb (bool_decide (k0 ∈ seen))) eqn:E; [|apply IH].
  apply andb_true_iff in E as [_ Hs%negb_true_iff%bool_decide_eq_false].
  destruct (IH ({[k0]} ∪ seen) results) as [Hnd Hni]. split.
  - constructor; [|done]. intros Hk%Hni. set_solver.
  - intros k [->|Hk%Hni]%elem_of_cons; [done|set_solver].
Qed.

Section single.
Context {PT CT : Type} `{PB : !MetaStorageBackend PT} `{PL : !LawfulBackend PT}
  `{CB : !MetaCacheBaseBackend CT}.
Local Abbreviation Manager := (MetaStorageBackendManager PT CT).
Implicit Types m : Manager.

Definition mview m : StoreView := be_view (persistent_backend_ m).

Lemma Delete_single keys m r m' :
  single_tier m -> NoDup keys -> BackendManager.Delete keys m = (r, m') ->
  single_tier m' /\ (forall k, k ∉ keys -> mview m' !! k = mview m !! k) /\
  (forall k, k ∈ keys -> mview m' !! k = None \/ mview m' !! k = mview m !! k).
Proof.
  unfold single_tier, BackendManager.Delete. intros Hst Hnd. destruct (be_Delete keys _) as [codes p] eqn:E.
  apply be_Delete_law in E. pose proof (steps_length _ _ _ _ _ E) as Hl. rewrite wrong_size_eq by done.
  cbn [set_persistent cache_backend_]. rewrite Hst. intros [= <- <-].
  apply (steps_distinct delete_step Datatypes.id) in E as [Hp Ho]; [| |by rewrite list_fmap_id].
  - rewrite list_fmap_id in Ho. split_and!; [done|done|]. intros k (q & Hq)%list_elem_of_lookup.
    destruct (lookup_lt_is_Some_2 codes q) as [c Hc]; [apply lookup_lt_Some in Hq; lia|].
    destruct (Hp q k c Hq Hc) as (V1 & V1' & HR & H1 & H2). unfold mview. simpl in *. rewrite H2, <-H1.
    destruct HR as [(_ & _ & ->)|[(_ & _ & ->)|[_ ->]]]; [left; by rewrite lookup_delete_eq|by right..].
  - intros k m1 c m2 [(_ & _ & ->)|[(_ & _ & ->)|[_ ->]]] k' Hk; [by rewrite lookup_delete_ne|done..].
Qed.

(** Reclaiming empty keys removes no location. *)
Lemma Reclaim_single keys results m n m' :
  single_tier m -> MaybeReclaimEmptyKeys keys results m = (n, m') ->
  single_tier m' /\ (forall k, entry (mview m') k = entry (mview m) k) /\
  (forall k, k ∉ keys -> mview m' !! k = mview m !! k).
Proof.
  intros Hst. unfold MaybeReclaimEmptyKeys. destruct (wrong_size _ _); [by intros [= _ <-]|].
  destruct (candidates ∅ keys results) as [|k0 cs] eqn:Ec; [by intros [= _ <-]|].
  set (cand := k0 :: cs) in *. unfold tier_ExistsLocation. unfold single_tier in Hst. rewrite Hst.
  destruct (be_ExistsLocation cand _) as [[es hs] p] eqn:Ee. apply be_ExistsLocation_law in Ee as [Hv Hrd].
  destruct (Forall3i_length _ _ _ _ Hrd) as [H1 H2]. rewrite !wrong_size_eq by done. cbn [orb].
  assert (Hm1 : single_tier (set_persistent p m)) by done.
  set (rk := omap _ _). assert (Hrk : forall k, k ∈ rk -> k ∈ keys /\ mview m !! k = Some ∅).
  { intros k ([k' [e h]] & Hin & Hd)%list_elem_of_omap. apply list_elem_of_lookup in Hin as (q & Hq).
    apply lookup_zip_with_Some in Hq as (? & [? ?] & [= <- <- <-] & Hk & Hq).
    apply lookup_zip_with_Some in Hq as (? & ? & [= <- <-] & He & Hh).
    destruct (Forall3i_lookup _ _ _ _ _ _ Hrd Hk) as (e' & h' & He' & Hh' & Hok). simplify_eq.
    case_bool_decide; [subst|done]. destruct h; simpl in Hd; [done|]. injection Hd as <-.
    destruct Hok as [(_ & ls & Hls & Hb)|[[? _]|[? _]]]; [|done..].
    symmetry in Hb. apply bool_decide_eq_false, dec_stable in Hb. subst ls. split; [|done].
    apply (candidates_subset keys ∅ results). rewrite Ec. by eapply list_elem_of_lookup_2. }
  assert (Hnd : NoDup rk).
  { assert (Hc : NoDup cand) by (rewrite <-Ec; apply candidates_NoDup).
    eapply sublist_NoDup; [exact Hc|]. unfold rk. generalize (zip es hs), cand. clear.
    intros z l. revert z. induction l as [|k l IH]; intros [|[e h] z]; csimpl; [constructor|constructor|apply sublist_nil_l|].
    destruct (_ && _); constructor; apply IH. }
  destruct rk as [|k1 rs] eqn:Erk; [intros [= _ <-]; unfold mview; simpl; by rewrite Hv|]. rewrite <-Erk in *.
  destruct (BackendManager.Delete rk _) as [ws m2] eqn:Ed. apply Delete_single in Ed as (Hst2 & Ho & Hi); [|done|done].
  assert (Hm1v : mview (set_persistent p m) = mview m) by exact Hv. rewrite Hm1v in *.
  intros Hrun. assert (m' = m2) as -> by (destruct (wrong_size ws rk); by simplify_eq).
  split_and!; [done| |].
  - intros k. unfold entry. destruct (decide (k ∈ rk)) as [Hk|Hk]; [|by rewrite Ho].
    destruct (Hrk k Hk) as [_ Hem]. destruct (Hi k Hk) as [->| ->]; by rewrite Hem.
  - intros k Hk. apply Ho. by intros [? _]%Hrk.
Qed.

(** Deleting locations of distinct keys: each key loses its ids or nothing. *)
Lemma DeleteLocations_single keys ids m r n m' :
  single_tier m -> NoDup keys -> length ids = length keys ->
  BackendManager.DeleteLocations keys ids m = ((r, n), m') ->
  single_tier m' /\ length r = length keys /\ (forall k, k ∉ keys -> mview m' !! k = mview m !! k) /\
  (forall p k lids c, keys !! p = Some k -> ids !! p = Some lids -> r !! p = Some c ->
     (c = EC_OK /\ entry (mview m') k = remove_ids lids (entry (mview m) k)) \/
     (c <> EC_OK /\ entry (mview m') k = entry (mview m) k)).
Proof.
  intros Hst Hnd Hl. unfold BackendManager.DeleteLocations. destruct keys as [|k0 ks]; [by intros [= <- _ <-]|].
  set (keys := k0 :: ks) in *. rewrite wrong_size_eq by done. unfold hydrate_if_recovering, single_tier in *.
  rewrite Hst. cbn [negb]. destruct (be_DeleteLocations keys ids _) as [codes p] eqn:E.
  apply be_DeleteLocations_law in E; [|done]. pose proof (steps_length _ _ _ _ _ E) as Hlc.
  rewrite length_zip in Hlc. rewrite !wrong_size_eq by lia. cbn [set_persistent cache_backend_]. rewrite Hst.
  rewrite wrong_size_eq by lia.
  destruct (MaybeReclaimEmptyKeys _ _ _) as [n1 m1] eqn:Er. intros [= <- _ <-].
  apply Reclaim_single in Er as (Hst1 & He & Ho1); [|done]. unfold mview in He at 2, Ho1 at 2. simpl in He, Ho1.
  apply (steps_distinct delete_locations_step fst) in E as [Hp Ho]; [| |by rewrite fst_zip by lia].
  - rewrite fst_zip in Ho by lia. split_and!; [done|lia| |].
    + intros k Hk. rewrite Ho1 by done. by apply Ho.
    + intros q k lids c Hk Hi Hc. rewrite He.
      destruct (Hp q (k, lids) c) as (V1 & V1' & HR & H1 & H2); [apply lookup_zip_with_Some; eauto|done|].
      unfold delete_locations_step in HR. simpl in *. unfold entry, mview. rewrite H2, <-H1.
      destruct HR as [(-> & -> & ->)|[(_ & ls & Hls & -> & ->)|[(_ & _ & -> & ->)|[[? _] ->]]]];
        [by left|left; rewrite lookup_insert_eq, Hls; done|by right..].
  - intros [k lids] m2 c m3 [(_ & _ & ->)|[(_ & ls & _ & _ & ->)|[(_ & _ & _ & ->)|[_ ->]]]] k' Hk;
      [done|by rewrite lookup_insert_ne|done..].
Qed.

End single.

(** ** Deleting modifiers *)

(** A row of a batch: position, key, requested ids and what was read. *)
Abbreviation LocRow := ((nat * KeyType) * (list LocationId * KeyAnswer))%type.

Section deleting.
Variable slot : nat -> nat -> LocationId -> ErrorCode -> CacheLocationConstPtr -> ErrorCode.

(** The codes of one key: those of the modifier, unless the read failed. *)
Definition del_codes (i : nat) (ids : list LocationId) (r : list ErrorCode) (o : list CacheLocationConstPtr)
    : list ErrorCode :=
  let checked := zip_with (fun i ev => validate_slot i ev.1 ev.2) ids (zip r o) in
  zip_with (fun g e => if bool_decide (g = EC_OK) || bool_decide (g = EC_NOENT) then e else g) checked.*1
    (imap (fun j (s : LocationId * (ErrorCode * CacheLocationConstPtr)) => slot i j s.1 s.2.1 s.2.2)
       (zip ids checked)).

Definition alive_ids (ids : list LocationId) (codes : list ErrorCode) : list LocationId :=
  omap (fun s : LocationId * ErrorCode => if bool_decide (s.2 = EC_OK) then Some s.1 else None) (zip ids codes).

Definition row_codes (r : LocRow) : list ErrorCode := del_codes r.1.1 r.2.1 r.2.2.1 r.2.2.2.
Definition row_alive (r : LocRow) : list LocationId := alive_ids r.2.1 (row_codes r).
Definition row_shape (r : LocRow) : Prop := length r.2.2.1 = length r.2.1 /\ length r.2.2.2 = length r.2.1.

Lemma length_checked ids (r : list ErrorCode) (o : list CacheLocationConstPtr) :
  length r = length ids -> length o = length ids ->
  length (zip_with (fun i ev => validate_slot i ev.1 ev.2) ids (zip r o)) = length ids.
Proof. intros. rewrite length_zip_with, length_zip. lia. Qed.

Lemma length_del_codes i ids r o :
  length r = length ids -> length o = length ids -> length (del_codes i ids r o) = length ids.
Proof.
  intros. unfold del_codes. cbv zeta. rewrite length_zip_with, length_imap, length_zip, length_fmap, !length_checked by done.
  lia.
Qed.

(** A row: the ids that go and the codes. *)
Lemma delete_row idx k ids gs vs w :
  length gs = length ids -> length vs = length ids ->
  (location_row idx k ids gs vs (delete_modifier slot) w).1.1 =
    (match alive_ids ids (del_codes idx ids gs vs) with
     | [] => empty_rmw
     | _ => mkRmwBatch [] [] [(idx, k)] [alive_ids ids (del_codes idx ids gs vs)]
     end, del_codes idx ids gs vs).
Proof.
  intros Hg Hv. unfold location_row. rewrite !wrong_size_eq by done. cbn [orb].
  pose proof (length_del_codes idx ids gs vs Hg Hv) as Hlc. unfold del_codes in *. cbv zeta in *.
  set (checked := zip_with _ ids (zip gs vs)) in *.
  assert (Hck : length checked = length ids) by (by apply length_checked).
  unfold delete_modifier. rewrite MetaMutate.zip_fst_snd.
  set (outs := imap _ (zip ids checked)) in *.
  assert (Hlo : length outs = length ids) by (unfold outs; rewrite length_imap, length_zip; lia).
  rewrite wrong_size_eq by done. set (codes := zip_with _ checked.*1 outs) in *.
  destruct (existsb (fun c => bool_decide (c = EC_OK)) outs) eqn:Ef.
  { cbn. rewrite (bool_decide_eq_false_2 (MA_DELETE = MA_FAIL)) by done. cbn. fold (alive_ids ids codes).
    by destruct (alive_ids ids codes). }
  cbn. rewrite (bool_decide_eq_false_2 (MA_SKIP = MA_FAIL)) by done. cbn.
  assert (Hal : alive_ids ids codes = []); [|by rewrite Hal].
  apply elem_of_nil_inv. intros lid ([i c] & Hin & Hd)%list_elem_of_omap. simpl in Hd. case_bool_decide; [subst c|done].
  apply list_elem_of_lookup in Hin as (j & Hj). apply lookup_zip_with_Some in Hj as (? & ? & [= <- <-] & _ & Hc).
  unfold codes in Hc. apply lookup_zip_with_Some in Hc as (g & e & Hc & _ & He).
  assert (Hne : e <> EC_OK).
  { intros ->. apply not_true_iff_false in Ef. apply Ef, existsb_exists. exists EC_OK. split; [|done].
    apply list_elem_of_In. by eapply list_elem_of_lookup_2. }
  do 2 case_bool_decide; simpl in Hc; congruence.
Qed.

Lemma classify_deletes rows w :
  Forall row_shape rows ->
  let '((b, outs), _) := classify_locations (delete_modifier slot) rows w in
  let gone := filter (fun r => row_alive r <> []) rows in
  upsert_batch b = [] /\ put_global_indexs b = [] /\ delete_rows b = gone.*1 /\ delete_ids b = row_alive <$> gone /\
  outs.*1 = rows.*1.*1 /\ fst <$> outs.*2 = row_codes <$> rows.
Proof.
  intros Hall. revert w. induction Hall as [|[[idx k] [ids [gs vs]]] rows [Hg Hv] _ IH]; intros w; [by split_and!|].
  cbn [classify_locations]. pose proof (delete_row idx k ids gs vs w Hg Hv) as Hr.
  destruct (location_row idx k ids gs vs (delete_modifier slot) w) as [[[b1 c1] f1] w1]. simpl in Hr.
  injection Hr as -> ->. specialize (IH w1). destruct (classify_locations _ rows w1) as [[b2 outs] w2]. simpl.
  destruct IH as (Hu & Hp & Hd & Hi & Ho1 & Ho2). rewrite filter_cons.
  assert (Hra : row_alive ((idx, k), (ids, (gs, vs))) = alive_ids ids (del_codes idx ids gs vs)) by done.
  destruct (alive_ids ids (del_codes idx ids gs vs)) as [|a al] eqn:Ea; rewrite <-Ea in Hra at 1.
  - rewrite decide_False by (rewrite Hra, Ea; naive_solver). csimpl. rewrite Hu, Hp, Hd, Hi. split_and!; [done..| |].
    + by f_equal.
    + by f_equal.
  - rewrite decide_True by (by rewrite Hra, Ea). csimpl. rewrite Hu, Hp, Hd, Hi, Hra, Ea. split_and!; [done..| |].
    + by f_equal.
    + by f_equal.
Qed.

(** What happens to one position. *)
Definition delete_effect (V V' : StoreView) (i : nat) (k : KeyType) (ids : list LocationId) (codes' : list ErrorCode)
    : Prop :=
  exists r o, Forall3i (loc_read_ok V k) ids r o /\
  let codes := del_codes i ids r o in
  match alive_ids ids codes with
  | [] => V' !! k = V !! k /\ codes' = codes
  | alive => exists e, codes' = (fun c => if bool_decide (c = EC_OK) then e else c) <$> codes /\
      ((e = EC_OK /\ entry V' k = remove_ids alive (entry V k)) \/ (e <> EC_OK /\ entry V' k = entry V k))
  end.

Lemma delete_effect_frame V1 V2 V1' V2' i k ids codes' :
  V2 !! k = V1 !! k -> V2' !! k = V1' !! k -> delete_effect V1 V1' i k ids codes' -> delete_effect V2 V2' i k ids codes'.
Proof.
  intros H1 H2 (r & o & Hrd & He). exists r, o. split.
  - eapply Forall3i_impl; [|exact Hrd]. intros ???. unfold loc_read_ok. by rewrite H1.
  - unfold entry in *. by rewrite H1, H2.
Qed.

End deleting.

Section delete_request.
Context {PT CT : Type} `{PB : !MetaStorageBackend PT} `{PL : !LawfulBackend PT}
  `{CB : !MetaCacheBaseBackend CT}.
Implicit Types x : MetaIndexer PT CT.
Variable slot : nat -> nat -> LocationId -> ErrorCode -> CacheLocationConstPtr -> ErrorCode.

(** Dispatching deletes of distinct keys. *)
Lemma ExecuteRmwDelete_effect (rows : list (nat * KeyType)) ids (keys : list KeyType) r x e n r' x' :
  single_tier (backend_manager_ x) -> length (error_codes r) = length keys -> length ids = length rows ->
  NoDup rows.*1 -> NoDup rows.*2 -> Forall (fun w => w.1 < length keys) rows ->
  (forall i, i ∈ rows.*1 -> error_codes r !! i = Some EC_OK) ->
  ExecuteRmwDelete rows ids (length keys) r x = ((e, n), r', x') ->
  single_tier (backend_manager_ x') /\ length (error_codes r') = length keys /\
  (forall p i k lids, rows !! p = Some (i, k) -> ids !! p = Some lids -> exists c, error_codes r' !! i = Some c /\
     ((c = EC_OK /\ entry (stored x') k = remove_ids lids (entry (stored x) k)) \/
      (c <> EC_OK /\ entry (stored x') k = entry (stored x) k))) /\
  (forall i, i ∉ rows.*1 -> error_codes r' !! i = error_codes r !! i) /\
  (forall k, k ∉ rows.*2 -> stored x' !! k = stored x !! k).
Proof.
  intros Hst Hlr Hli Hndi Hndk Hin Hok. unfold ExecuteRmwDelete. destruct rows as [|r0 rs]; [by intros [= _ _ <- <-]|].
  destruct ids as [|i0 is_]; [done|]. remember (r0 :: rs) as rows eqn:Er. remember (i0 :: is_) as ids eqn:Ei.
  assert (Hne : rows.*1 <> []) by (by rewrite Er).
  destruct (BackendManager.DeleteLocations rows.*2 ids (backend_manager_ x)) as [[codes n1] m] eqn:Ed.
  apply DeleteLocations_single in Ed as (Hst' & Hlc & Ho & Hp); [|done|done|by rewrite length_fmap]. rewrite length_fmap in Hlc.
  destruct (ProcessErrorCodes codes _ _ r) as [e1 r1] eqn:Ep.
  apply ProcessErrorCodes_spec in Ep as (_ & _ & Hlen & Hset & Hoth); [|done|by rewrite length_fmap|done| |done].
  2: { by apply Forall_fmap. }
  intros [= _ _ <- <-]. split_and!; [done|lia| |done|done].
  intros p i k lids Hr Hi. destruct (lookup_lt_is_Some_2 codes p) as [c Hc]; [apply lookup_lt_Some in Hr; lia|].
  assert (H1 : rows.*1 !! p = Some i) by (by rewrite list_lookup_fmap, Hr). exists c. split.
  - apply (Hset p); [done|done|]. apply Hok. by eapply list_elem_of_lookup_2.
  - apply (Hp p k lids c); [by rewrite list_lookup_fmap, Hr|done|done].
Qed.

(** Dispatching the rows of a batch and spreading the delete codes. *)
Lemma dispatch_deletes_spec (keys : list KeyType) (rows : list LocRow) r x per fl e n r' x' per' fl' :
  let gone := filter (fun w => row_alive slot w <> []) rows in
  single_tier (backend_manager_ x) -> length per = length keys -> length (error_codes r) = length keys ->
  NoDup rows.*1.*1 -> NoDup rows.*1.*2 -> Forall (fun w => w.1.1 < length keys) rows ->
  (forall i, i ∈ rows.*1.*1 -> error_codes r !! i = Some EC_OK) ->
  ExecuteRmwDelete gone.*1 (row_alive slot <$> gone) (length keys) r x = ((e, n), r', x') ->
  spread gone.*1.*1 r' (scatter rows.*1.*1 (row_codes slot <$> rows) per, fl) = (per', fl') ->
  single_tier (backend_manager_ x') /\ length per' = length keys /\ length (error_codes r') = length keys /\
  (forall i, i ∉ rows.*1.*1 -> error_codes r' !! i = error_codes r !! i /\ per' !! i = per !! i) /\
  (forall k, k ∉ rows.*1.*2 -> stored x' !! k = stored x !! k) /\
  (forall w, w ∈ rows -> exists codes', per' !! w.1.1 = Some codes' /\
     match row_alive slot w with
     | [] => stored x' !! w.1.2 = stored x !! w.1.2 /\ codes' = row_codes slot w
     | alive => exists e, codes' = (fun c => if bool_decide (c = EC_OK) then e else c) <$> row_codes slot w /\
         ((e = EC_OK /\ entry (stored x') w.1.2 = remove_ids alive (entry (stored x) w.1.2)) \/
          (e <> EC_OK /\ entry (stored x') w.1.2 = entry (stored x) w.1.2))
     end).
Proof.
  intros gone Hst Hlp Hlr Hndi Hndk Hin Hok Hdel Hsp.
  assert (Hsub : sublist gone rows) by (apply sublist_filter).
  assert (Hsi : sublist gone.*1.*1 rows.*1.*1) by (by do 2 apply fmap_sublist).
  assert (Hsk : sublist gone.*1.*2 rows.*1.*2) by (by do 2 apply fmap_sublist).
  apply ExecuteRmwDelete_effect in Hdel as (Hst' & Hlr' & Heff & Hoi & Hok');
    [|done|done|by rewrite !length_fmap|by eapply sublist_NoDup|by eapply sublist_NoDup| |].
  2: { rewrite Forall_forall in Hin. apply Forall_fmap, Forall_forall. intros w Hw. apply Hin. by eapply sublist_elem_of. }
  2: { intros i Hi. apply Hok. by eapply sublist_elem_of. }
  apply spread_spec in Hsp as (Hlen & Hspi & Hspo); [|by eapply sublist_NoDup|rewrite length_scatter; lia].
  rewrite length_scatter in Hlen.
  assert (Hni : forall i, i ∉ rows.*1.*1 -> i ∉ gone.*1.*1) by (intros i Hi Hc; apply Hi; by eapply sublist_elem_of).
  split_and!; [done|lia|done| | |].
  - intros i Hi. rewrite Hoi, Hspo by auto. split; [done|]. by apply lookup_scatter_ne.
  - intros k Hk. apply Hok'. intros Hc. apply Hk. by eapply sublist_elem_of.
  - intros w Hw. pose proof Hw as (q & Hq)%list_elem_of_lookup.
    assert (Hi : rows.*1.*1 !! q = Some w.1.1) by (by rewrite !list_lookup_fmap, Hq).
    assert (Hk : rows.*1.*2 !! q = Some w.1.2) by (by rewrite !list_lookup_fmap, Hq).
    assert (Hper : scatter rows.*1.*1 (row_codes slot <$> rows) per !! w.1.1 = Some (row_codes slot w)).
    { eapply (lookup_scatter _ _ _ q); [done|done|by rewrite list_lookup_fmap, Hq|].
      rewrite Hlp. rewrite Forall_forall in Hin. by apply Hin. }
    assert (Honly : forall w', w' ∈ gone -> w'.1.1 = w.1.1 \/ w'.1.2 = w.1.2 -> w' = w).
    { intros w' Hw' Hor. apply (sublist_elem_of _ rows) in Hw' as (q' & Hq')%list_elem_of_lookup; [|done].
      assert (q' = q) as ->; [|congruence]. destruct Hor as [Hor|Hor].
      - apply (NoDup_lookup rows.*1.*1 q' q w.1.1); [done| |done]. by rewrite !list_lookup_fmap, Hq', <-Hor.
      - apply (NoDup_lookup rows.*1.*2 q' q w.1.2); [done| |done]. by rewrite !list_lookup_fmap, Hq', <-Hor. }
    destruct (row_alive slot w) as [|a al] eqn:Ea.
    + assert (Hng : w ∉ gone) by (intros [? _]%list_elem_of_filter; done).
      exists (row_codes slot w). split_and!; [|apply Hok'|done].
      * rewrite Hspo; [done|]. intros (ik & Hiw & (w' & -> & Hw')%list_elem_of_fmap)%list_elem_of_fmap.
        apply Hng. rewrite <-(Honly w'); [done|done|]. left. by rewrite Hiw.
      * intros (ik & Hiw & (w' & -> & Hw')%list_elem_of_fmap)%list_elem_of_fmap.
        apply Hng. rewrite <-(Honly w'); [done|done|]. right. by rewrite Hiw.
    + assert (Hg : w ∈ gone) by (apply list_elem_of_filter; rewrite Ea; done). pose proof Hg as (p & Hp)%list_elem_of_lookup.
      destruct (Heff p w.1.1 w.1.2 (row_alive slot w)) as (c & Hc & Hor);
        [rewrite list_lookup_fmap, Hp; simpl; by destruct w as [[]]|by rewrite list_lookup_fmap, Hp|].
      rewrite Ea in Hor. eexists. split; [apply Hspi; [by do 2 apply list_elem_of_fmap_2|exact Hper|exact Hc]|]. eauto.
Qed.

Lemma delete_batch_spec keys lids adj batch per fl r x w per' fl' r' x' w' :
  single_tier (backend_manager_ x) -> NoDup keys -> length lids = length keys ->
  length per = length keys -> length (error_codes r) = length keys ->
  NoDup (global_indices batch) -> Forall (fun i => i < length keys) (global_indices batch) ->
  (forall i, i ∈ global_indices batch -> error_codes r !! i = Some EC_OK) ->
  location_batch (delete_modifier slot) keys lids adj false batch ((per, fl), r, x, w) = ((per', fl'), r', x', w') ->
  single_tier (backend_manager_ x') /\ length per' = length keys /\ length (error_codes r') = length keys /\
  (forall i, i ∉ global_indices batch -> error_codes r' !! i = error_codes r !! i /\ per' !! i = per !! i) /\
  (forall k, (forall i, i ∈ global_indices batch -> keys !! i <> Some k) -> stored x' !! k = stored x !! k) /\
  (forall i k ids, i ∈ global_indices batch -> keys !! i = Some k -> lids !! i = Some ids ->
     exists codes', per' !! i = Some codes' /\ delete_effect slot (stored x) (stored x') i k ids codes').
Proof.
  intros Hst Hndk Hll Hlp Hlr Hnd Hall Hok Hrun. unfold location_batch in Hrun.
  set (idxs := global_indices batch) in *.
  assert (Hlb : length (gather idxs keys) = length idxs) by (by apply length_gather).
  assert (Hli : length (gather idxs lids) = length idxs) by (apply length_gather; by rewrite Hll).
  unfold BackendReads.GetLocationsById in Hrun. rewrite wrong_size_eq in Hrun by lia.
  unfold single_tier in Hst. rewrite Hst in Hrun.
  destruct (be_GetLocationsById _ _ _) as [[rs os] p] eqn:Eg.
  apply be_GetLocationsById_law in Eg as [Hv Hrd]; [|lia].
  destruct (Forall3i_length _ _ _ _ Hrd) as [Hl1 Hl2]. rewrite length_zip in Hl1, Hl2.
  rewrite !wrong_size_eq in Hrun by lia. cbn [orb andb] in Hrun.
  set (x1 := with_manager (set_persistent p (backend_manager_ x)) x) in Hrun.
  destruct (batch_rows_spec (stored x) _ _ _ _ _ Hndk Hll Hnd Hall Hrd) as (Hri & Hrk & Hndb & Hrow).
  change (zip (zip idxs _) _) with (batch_rows idxs keys lids rs os) in Hrun.
  set (rows := batch_rows idxs keys lids rs os) in *.
  assert (Hlrow : length rows = length idxs) by (rewrite <-Hri, !length_fmap; done).
  assert (Hshape : Forall row_shape rows).
  { apply Forall_forall. intros w0 (q & Hq)%list_elem_of_lookup.
    destruct (lookup_lt_is_Some_2 idxs q) as [i Hi]; [apply lookup_lt_Some in Hq; lia|].
    destruct (Hrow q i Hi) as (k & ids & rr & oo & _ & _ & Hq' & Hf). simplify_eq.
    by destruct (Forall3i_length _ _ _ _ Hf). }
  pose proof (classify_deletes slot rows w Hshape) as Hcl.
  destruct (classify_locations _ rows w) as [[b outs] w1]. cbv zeta in Hcl.
  destruct Hcl as (Hub & Hpb & Hdb & Hib & Ho1 & Ho2).
  rewrite Ho1, Ho2, Hub, Hpb, Hdb, Hib in Hrun. cbn [ExecuteRmwUpsert fmap list_fmap spread foldl] in Hrun.
  set (fl1 := scatter (filter _ outs).*1 _ fl) in Hrun.
  destruct (ExecuteRmwDelete _ _ _ _ _) as [[[e n] r2] x2] eqn:Eu.
  destruct (spread _ r2 _) as [per2 fl2] eqn:Es. injection Hrun as <- _ <- <- _.
  assert (Hrin : Forall (fun w => w.1.1 < length keys) rows).
  { apply Forall_forall. intros w0 Hw. rewrite Forall_forall in Hall. apply Hall. rewrite <-Hri.
    by do 2 apply list_elem_of_fmap_2. }
  pose proof (dispatch_deletes_spec keys rows r x1 per fl1 e n r2 x2 per2 fl2) as Hdis. cbv zeta in Hdis.
  rewrite Hri, Hrk in Hdis. rewrite Hri in Es. assert (Hx1 : stored x1 = stored x) by exact Hv. rewrite Hx1 in Hdis.
  destruct Hdis as (Hst2 & Hlp2 & Hlr2 & Hout & Hoth & Hrows); try done.
  set (d := i32 _).
  assert (Hadj : stored (AdjustKeyCountMeta d x2) = stored x2 /\ single_tier (backend_manager_ (AdjustKeyCountMeta d x2))).
  { unfold AdjustKeyCountMeta. by destruct (_ <=? _)%Z. }
  destruct Hadj as [Hsd Hstd]. rewrite Hsd. split_and!; [done|done|done|done| |].
  - intros k Hk. apply Hoth. unfold gather. intros (i & Hi & Hik)%list_elem_of_omap. by apply (Hk i).
  - intros i k ids Hi Hk Hids. apply list_elem_of_lookup in Hi as (q & Hq).
    destruct (Hrow q i Hq) as (k' & ids' & rr & oo & Hk' & Hi' & Hq' & Hf). simplify_eq.
    destruct (Hrows _ ltac:(by eapply list_elem_of_lookup_2)) as (codes' & Hc' & He). exists codes'.
    split; [done|]. exists rr, oo. by split.
Qed.

Lemma del_code_at V k i ids r o j lid c :
  well_keyed V -> (forall i j lid g v, slot i j lid g v = EC_OK -> g = EC_OK) ->
  Forall3i (loc_read_ok V k) ids r o -> ids !! j = Some lid -> del_codes slot i ids r o !! j = Some c ->
  c = EC_OK -> exists l, location_at V k lid = Some (Some l) /\ slot i j lid EC_OK (Some l) = EC_OK.
Proof.
  intros Hwk Hslot Hrd Hj Hc ->. destruct (Forall3i_lookup _ _ _ _ _ _ Hrd Hj) as (g & p & Hg & Hp & Hok).
  unfold del_codes in Hc. cbv zeta in Hc. apply lookup_zip_with_Some in Hc as (g' & e & Hc & Hg' & He).
  rewrite list_lookup_fmap in Hg'. rewrite list_lookup_imap in He.
  assert (Hck : zip_with (fun i ev => validate_slot i ev.1 ev.2) ids (zip r o) !! j = Some (validate_slot lid g p)).
  { apply lookup_zip_with_Some. exists lid, (g, p). split_and!; [done|done|]. apply lookup_zip_with_Some. eauto. }
  assert (Hz : zip ids (zip_with (fun i ev => validate_slot i ev.1 ev.2) ids (zip r o)) !! j = Some (lid, validate_slot lid g p))
    by (apply lookup_zip_with_Some; eauto).
  rewrite Hck in Hg'. rewrite Hz in He. simpl in Hg', He. injection Hg' as <-. injection He as <-.
  assert (Hok' : (validate_slot lid g p).1 = EC_OK /\
    slot i j lid (validate_slot lid g p).1 (validate_slot lid g p).2 = EC_OK).
  { destruct (bool_decide _ || _) eqn:Eb; [by split; [eapply Hslot|]|]. rewrite <-Hc in Eb. simpl in Eb. done. }
  destruct Hok' as [H1 H2]. rewrite H1 in H2. unfold validate_slot in H1, H2.
  case_bool_decide as Hgo; [subst g|simpl in H1; congruence].
  destruct Hok as [(_ & ls & Hls & Hi)|[[? _]|[? _]]]; [|done..].
  destruct (Hwk _ _ _ _ Hls Hi) as (l & -> & Hid). rewrite bool_decide_eq_true_2 in H2 by done. exists l.
  split; [unfold location_at; by rewrite Hls|done].
Qed.

Lemma elem_of_alive ids codes lid :
  lid ∈ alive_ids ids codes <-> exists j, ids !! j = Some lid /\ codes !! j = Some EC_OK.
Proof.
  unfold alive_ids. rewrite list_elem_of_omap. split.
  - intros ([i c] & (j & Hj)%list_elem_of_lookup & Hd). simpl in Hd. case_bool_decide; [|done]. simplify_eq.
    apply lookup_zip_with_Some in Hj as (? & ? & [= <- <-] & ? & ?). eauto.
  - intros (j & Hi & Hc). exists (lid, EC_OK). split; [|by rewrite bool_decide_eq_true_2].
    apply list_elem_of_lookup. exists j. apply lookup_zip_with_Some. eauto.
Qed.

(** The effect on one key, slot by slot. *)
Lemma delete_position V V' i k ids codes' :
  (forall i j lid g v, slot i j lid g v = EC_OK -> g = EC_OK) ->
  well_keyed V -> NoDup ids -> delete_effect slot V V' i k ids codes' ->
  length codes' = length ids /\
  (forall j lid c, ids !! j = Some lid -> codes' !! j = Some c ->
     (c = EC_OK /\ exists l, location_at V k lid = Some (Some l) /\ slot i j lid EC_OK (Some l) = EC_OK /\
        location_at V' k lid = None) \/
     (c <> EC_OK /\ location_at V' k lid = location_at V k lid)) /\
  (forall lid, lid ∉ ids -> location_at V' k lid = location_at V k lid).
Proof.
  intros Hslot Hwk Hnd (r & o & Hrd & He). cbv zeta in He. destruct (Forall3i_length _ _ _ _ Hrd) as [Hr Ho].
  pose proof (length_del_codes slot i ids r o Hr Ho) as Hl. pose proof (elem_of_alive ids (del_codes slot i ids r o)) as Hal.
  destruct (alive_ids ids (del_codes slot i ids r o)) as [|a al] eqn:Ea.
  - destruct He as [HV ->]. assert (Heq : forall lid, location_at V' k lid = location_at V k lid)
      by (intros lid; unfold location_at; by rewrite HV).
    split_and!; [done| |done]. intros j lid c Hj Hc. right. split; [|done]. intros ->.
    apply (not_elem_of_nil lid), Hal. eauto.
  - rewrite <-Ea in *. destruct He as (e & -> & He). rewrite length_fmap. setoid_rewrite location_at_entry.
    split_and!; [done| |].
    + intros j lid c Hj Hc. rewrite list_lookup_fmap in Hc.
      destruct (del_codes slot i ids r o !! j) as [c0|] eqn:Ec; [|done]. simpl in Hc. injection Hc as <-.
      assert (Hne : c0 <> EC_OK -> lid ∉ alive_ids ids (del_codes slot i ids r o)).
      { intros Hc0 (j' & Hj' & Hc')%Hal. pose proof (NoDup_lookup _ _ _ _ Hnd Hj Hj') as <-. congruence. }
      destruct He as [[-> ->]|[He ->]].
      * case_bool_decide as Hc0; [left|right]; (split; [done|]); rewrite remove_ids_lookup.
        { destruct (del_code_at V k i ids r o j lid c0 Hwk Hslot Hrd Hj Ec Hc0) as (l & Hl1 & Hl2). exists l.
          rewrite <-location_at_entry. split_and!; [done|done|]. rewrite bool_decide_eq_true_2; [done|].
          apply Hal. exists j. by rewrite <-Hc0. }
        by rewrite bool_decide_eq_false_2 by auto.
      * right. split; [by case_bool_decide|done].
    + intros lid Hni. destruct He as [[_ ->]|[_ ->]]; [|done]. rewrite remove_ids_lookup, bool_decide_eq_false_2; [done|].
      intros (j & Hj & _)%Hal. apply Hni. by eapply list_elem_of_lookup_2.
Qed.

(** A deleting request: exactly the slots answered [EC_OK] lose their location. *)
Lemma delete_request_spec keys ids adj x w lr x' w' :
  (forall i j lid g v, slot i j lid g v = EC_OK -> g = EC_OK) ->
  single_tier (backend_manager_ x) -> distinct_request keys ids -> well_keyed (stored x) ->
  ReadModifyWriteLocation keys ids (delete_modifier slot) adj false x w = (lr, x', w') ->
  single_tier (backend_manager_ x') /\ well_keyed (stored x') /\
  (forall i k lids, keys !! i = Some k -> ids !! i = Some lids ->
     exists codes, per_location_error_codes lr !! i = Some codes /\ length codes = length lids /\
     forall j lid c, lids !! j = Some lid -> codes !! j = Some c ->
       (c = EC_OK /\ exists l, location_at (stored x) k lid = Some (Some l) /\ slot i j lid EC_OK (Some l) = EC_OK /\
          location_at (stored x') k lid = None) \/
       (c <> EC_OK /\ location_at (stored x') k lid = location_at (stored x) k lid)) /\
  (forall k lid, (forall i lids, keys !! i = Some k -> ids !! i = Some lids -> lid ∉ lids) ->
     location_at (stored x') k lid = location_at (stored x) k lid).
Proof.
  intros Hslot Hst (Hndk & Hll & Hndi) Hwk Hrun. rewrite Forall_forall in Hndi.
  destruct (ReadModifyWriteLocation_each (delete_modifier slot) (delete_effect slot) (delete_effect_frame slot)
    delete_batch_spec _ _ _ _ _ _ _ _ Hst Hndk Hll Hrun) as (Hst' & Hpos & Hoth).
  assert (Hp : forall i k lids, keys !! i = Some k -> ids !! i = Some lids -> exists codes,
    per_location_error_codes lr !! i = Some codes /\ length codes = length lids /\
    (forall j lid c, lids !! j = Some lid -> codes !! j = Some c ->
       (c = EC_OK /\ exists l, location_at (stored x) k lid = Some (Some l) /\ slot i j lid EC_OK (Some l) = EC_OK /\
          location_at (stored x') k lid = None) \/
       (c <> EC_OK /\ location_at (stored x') k lid = location_at (stored x) k lid)) /\
    (forall lid, lid ∉ lids -> location_at (stored x') k lid = location_at (stored x) k lid)).
  { intros i k lids Hk Hi. destruct (Hpos i k lids Hk Hi) as (codes & Hc & He).
    apply delete_position in He as (H1 & H2 & H3); [eauto 6|done|done|]. apply Hndi. by eapply list_elem_of_lookup_2. }
  assert (Hsubset : forall k lid, location_at (stored x') k lid = None \/ location_at (stored x') k lid = location_at (stored x) k lid).
  { intros k lid. destruct (decide (k ∈ keys)) as [(i & Hi)%list_elem_of_lookup|Hk];
      [|right; unfold location_at; by rewrite Hoth].
    destruct (lookup_lt_is_Some_2 ids i) as [lids Hl]; [apply lookup_lt_Some in Hi; lia|].
    destruct (Hp i k lids Hi Hl) as (codes & _ & Hlc & Hj & Hf).
    destruct (decide (lid ∈ lids)) as [(j & Hjl)%list_elem_of_lookup|Hni]; [|right; by apply Hf].
    destruct (lookup_lt_is_Some_2 codes j) as [c Hc]; [apply lookup_lt_Some in Hjl; lia|].
    destruct (Hj j lid c Hjl Hc) as [(_ & l & _ & _ & ?)|[_ ?]]; auto. }
  split_and!; [done| | |].
  - intros k ls lid p Hls Hlid. assert (Hat : location_at (stored x') k lid = Some p) by (unfold location_at; by rewrite Hls).
    destruct (Hsubset k lid) as [Hn|Heq]; [congruence|]. rewrite Hat in Heq. symmetry in Heq. unfold location_at in Heq.
    destruct (stored x !! k) as [ls0|] eqn:E0; [|done]. by eapply Hwk.
  - intros i k lids Hk Hi. destruct (Hp i k lids Hk Hi) as (codes & ? & ? & ? & _). eauto.
  - intros k lid Hno. destruct (decide (k ∈ keys)) as [(i & Hi)%list_elem_of_lookup|Hk]; [|unfold location_at; by rewrite Hoth].
    destruct (lookup_lt_is_Some_2 ids i) as [lids Hl]; [apply lookup_lt_Some in Hi; lia|].
    destruct (Hp i k lids Hi Hl) as (codes & _ & _ & _ & Hf). apply Hf. by eapply Hno.
Qed.

End delete_request.
