(* ===== verification/MetaAdd.v ===== *)
(** * MetaAdd: adding locations ([MetaSearcher::BatchAddLocation])

    [BatchAddLocation] of [manager/meta_searcher.cc] gives every block of a
    request a new location in state [CLS_WRITING], under a random id of
    [StringUtil::GenerateRandomString] that the block does not use yet, and
    counts its bytes. The random generator is a parameter: [dist n] is the
    [n]-th value its distribution returns in this thread. The locations of a
    request are non-null pointers. *)

From stdpp Require Import base gmap sets list strings pretty.
From Stdlib Require Import ZArith Lia Ascii.
From S2P Require Import Prelude StandardUri MetaTypes StorageUsage MetaBackend DummyBackend LocalBackend BackendManager BackendReads MetaIndexer IndexerRmw RmwLocation RmwBlock RmwCodes MetaMutate.

Definition PROPERTY_PREV_BLOCK_KEY : string := "BP#prev_key".

(** [std::to_string] of a block key. *)
Definition to_string (k : KeyType) : string := pretty k.

Section random.
Variable dist : nat -> nat.

Definition charset : list ascii := String.list_ascii_of_string "abcdefghijklmnopqrstuvwxyz0123456789".

(** [StringUtil::GenerateRandomString] with the generator at position [p]. *)
Definition GenerateRandomString (len p : nat) : string :=
  String.string_of_list_ascii ((fun i => default "a"%char (charset !! dist (p + i))) <$> seq 0 len).

(** The [do ... while] that looks for an unused id: the id and the generator
    after it; [None] when [fuel] tries all collide. *)
Fixpoint draw_fresh (fuel : nat) (existing_id_set : list LocationId) (p : nat) : option (LocationId * nat) :=
  match fuel with
  | 0 => None
  | S fuel =>
      let location_id := GenerateRandomString 8 p in
      if bool_decide (location_id ∈ existing_id_set) then draw_fresh fuel existing_id_set (p + 8)
      else Some (location_id, p + 8)
  end.

End random.

(** What the lambda captures by reference: the generator, the ids given out
    so far and the bytes to count; [add_stuck] is set when the search for an
    id did not end within the fuel. *)
Record AddState := mkAddState {
  add_pos : nat;
  add_ids : list LocationId;
  add_sz : list (DataStorageType * Z);
  add_stuck : bool;
}.

Section add.
Context {PT CT : Type} `{PB : !MetaStorageBackend PT} `{CB : !MetaCacheBaseBackend CT}.
Local Abbreviation Indexer := (MetaIndexer PT CT).
(** The generator, the tries allowed per id, the clock, and what the
    uninitialised [spec_sz] holds each time, by location and spec. *)
Variables (dist : nat -> nat) (fuel : nat) (batch_create_time : Z) (spec_sz : nat -> nat -> Z).

(** The location stored for a request. *)
Definition new_location (location_id : LocationId) (loc : CacheLocation) : CacheLocation :=
  set_create_time batch_create_time (set_status CLS_WRITING (set_id location_id loc)).

(** The lambda of [BatchAddLocation]. *)
Definition add_modifier (keys : list KeyType) (locations : list CacheLocation) : BlockModifier AddState :=
  fun existing_location_ids get_ec index st =>
    if bool_decide (get_ec <> EC_OK) && bool_decide (get_ec <> EC_NOENT)
    then (((MA_FAIL, get_ec), (∅, ∅)), st)
    else
      let upsert_property_map : PropertyMap :=
        if bool_decide (get_ec = EC_NOENT)
        then {[ PROPERTY_PREV_BLOCK_KEY :=
                  if (0 <? index)%nat then to_string (default 0%Z (keys !! (index - 1))) else "" ]}
        else ∅ in
      match draw_fresh dist fuel existing_location_ids (add_pos st), locations !! index with
      | Some (location_id, p), Some loc =>
          (((MA_OK, EC_OK), (upsert_property_map, {[ location_id := Some (new_location location_id loc) ]})),
           mkAddState p (<[index := location_id]> (add_ids st))
             (<[index := (type loc, location_bytes (spec_sz index) loc)]> (add_sz st)) (add_stuck st))
      | _, _ => (((MA_SKIP, EC_OK), (∅, ∅)), mkAddState (add_pos st) (add_ids st) (add_sz st) true)
      end.

(** The code of a result, once the id is known. *)
Definition add_result (r : ErrorCode * LocationId) : AddLocationResult :=
  mkAddResult (if bool_decide (r.1 = EC_OK) && bool_decide (r.2 = "") then EC_MISMATCH else r.1) r.2.

(** The usage of the locations that were added. *)
Definition add_usage (results : list AddLocationResult) (loc_sz : list (DataStorageType * Z))
    (usage : StorageUsageData) : StorageUsageData :=
  foldl (fun usage (r : AddLocationResult * (DataStorageType * Z)) =>
    if bool_decide (add_ec r.1 = EC_OK) then (AddStorageUsageByType r.2.1 r.2.2 usage).2 else usage)
    usage (zip results loc_sz).

(** [BatchAddLocation] with the generator at [p]; [None] while an id is
    still being searched. *)
Definition BatchAddLocation (keys : list KeyType) (locations : list CacheLocation) (p : nat)
    (usage : StorageUsageData) (x : Indexer)
    : option (ErrorCode * list AddLocationResult * StorageUsageData * Indexer) :=
  if wrong_size locations keys
  then Some (EC_BADARGS, replicate (length keys) (mkAddResult EC_BADARGS ""), usage, x)
  else
    let st := mkAddState p (replicate (length keys) "")
                (replicate (length keys) (DATA_STORAGE_TYPE_UNKNOWN, 0%Z)) false in
    let '(result, x, st) := ReadModifyWriteBlock keys (add_modifier keys locations) x st in
    if add_stuck st then None
    else
      let '(aggregate_ec, out_results) :=
        if wrong_size (error_codes result) keys
        then (EC_MISMATCH, mkAddResult EC_MISMATCH <$> add_ids st)
        else
          let rows := zip (error_codes result) (add_ids st) in
          (if existsb (fun r => bool_decide (r.1 = EC_OK) && bool_decide (r.2 = "")) rows
           then EC_MISMATCH else ec result, add_result <$> rows) in
      Some (aggregate_ec, out_results, add_usage out_results (add_sz st) usage, x).

End add.

Lemma add_modifier_nodelete dist fuel now spec_sz keys locations ids g i st :
  (add_modifier dist fuel now spec_sz keys locations ids g i st).1.1.1 <> MA_DELETE.
Proof. unfold add_modifier. by repeat case_match. Qed.

(** ** The search for an id *)

Section fresh.
Variable dist : nat -> nat.

Lemma draw_fresh_spec fuel ids : forall p lid q,
  draw_fresh dist fuel ids p = Some (lid, q) -> lid ∉ ids /\ lid <> "".
Proof.
  induction fuel as [|fuel IH]; intros p lid q Hrun; [done|]. cbn [draw_fresh] in Hrun.
  case_bool_decide; [by eapply IH|]. injection Hrun as <- _. split; [done|].
  unfold GenerateRandomString. simpl. done.
Qed.

Lemma draw_fresh_found fuel ids : forall p q,
  q < fuel -> GenerateRandomString dist 8 (p + 8 * q) ∉ ids -> is_Some (draw_fresh dist fuel ids p).
Proof.
  induction fuel as [|fuel IH]; intros p q Hq Hn; [lia|]. cbn [draw_fresh].
  case_bool_decide as Hin; [|by eexists]. destruct q as [|q]; [by rewrite Nat.mul_0_r, Nat.add_0_r in Hn|].
  apply (IH _ q); [lia|]. by replace (p + 8 + 8 * q) with (p + 8 * S q) by lia.
Qed.

End fresh.

(** ** What an addition does *)

Section add_spec.
Context {PT CT : Type} `{PB : !MetaStorageBackend PT} `{PL : !LawfulBackend PT} `{CB : !MetaCacheBaseBackend CT}.
Local Abbreviation Indexer := (MetaIndexer PT CT).
Variables (dist : nat -> nat) (fuel : nat) (now : Z) (spec_sz : nat -> nat -> Z).
Variables (keys : list KeyType) (locations : list CacheLocation) (V : StoreView).

(** Wherever the generator is, the tries allowed reach an id that a requested
    block does not use. *)
Definition ids_reachable : Prop :=
  forall p k, k ∈ keys -> exists q, q < fuel /\
    forall ls, V !! k = Some ls -> ls !! GenerateRandomString dist 8 (p + 8 * q) = None.

Hypothesis Hfresh : ids_reachable.
Hypothesis Hll : length locations = length keys.

Local Abbreviation modifier := (add_modifier dist fuel now spec_sz keys locations).

Definition add_read (i : nat) (ids : list LocationId) (g : ErrorCode) : Prop :=
  exists k, keys !! i = Some k /\ ids_read V k g ids.

Definition add_inv (st : AddState) : Prop :=
  length (add_ids st) = length keys /\ length (add_sz st) = length keys /\ add_stuck st = false.

(** A call either fails with the read's code or hands out a new id. *)
Lemma add_modifier_spec i k loc ids g st r st' :
  keys !! i = Some k -> locations !! i = Some loc -> ids_read V k g ids -> add_inv st ->
  modifier ids g i st = (r, st') ->
  add_inv st' /\ (forall j, j <> i -> add_ids st' !! j = add_ids st !! j /\ add_sz st' !! j = add_sz st !! j) /\
  ((g <> EC_OK /\ g <> EC_NOENT /\ r = ((MA_FAIL, g), (∅, ∅))) \/
   (exists lid props, (g = EC_OK \/ g = EC_NOENT) /\ location_at V k lid = None /\ lid <> "" /\
      r = ((MA_OK, EC_OK), (props, {[ lid := Some (new_location now lid loc) ]})) /\
      add_ids st' !! i = Some lid /\ add_sz st' !! i = Some (type loc, location_bytes (spec_sz i) loc))).
Proof.
  intros Hk Hloc [Hrd Hmiss] (Hl1 & Hl2 & Hs) Hrun. pose proof (lookup_lt_Some _ _ _ Hk) as Hlt.
  unfold add_modifier in Hrun. destruct (_ && _) eqn:Eg.
  { reflect_bools. simplify_eq. split_and!; [done|done|by auto]. }
  assert (Hg : g = EC_OK \/ g = EC_NOENT).
  { apply andb_false_iff in Eg as [Eg%bool_decide_eq_false|Eg%bool_decide_eq_false]; apply dec_stable in Eg; auto. }
  assert (Hids : forall lid, lid ∈ ids <-> is_Some (location_at V k lid)).
  { intros lid. unfold location_at. destruct Hrd as [(_ & ls & -> & _ & Hi)|[[-> ->]|[Hh1 Hh2]]]; [apply Hi| |by destruct Hg].
    rewrite Hmiss by done. split; [by intros ?%not_elem_of_nil|by intros []]. }
  destruct (Hfresh (add_pos st) k) as (q & Hq & Hnew); [by eapply list_elem_of_lookup_2|].
  destruct (draw_fresh_found dist fuel ids (add_pos st) q Hq) as [[lid p] Hd].
  { rewrite Hids. unfold location_at. destruct (V !! k) as [ls|]; simpl; [rewrite Hnew by done|]; by intros []. }
  rewrite Hd, Hloc in Hrun. injection Hrun as <- <-. apply draw_fresh_spec in Hd as [Hni Hne].
  unfold add_inv. simpl. rewrite !length_insert. split_and!; [done..| |].
  - intros j Hj. by rewrite !list_lookup_insert_ne by done.
  - right. eexists lid, _. split_and!; [done| |done|done|..]; [|by apply list_lookup_insert_eq; lia..].
    apply eq_None_not_Some. by rewrite <-Hids.
Qed.

Lemma add_others_inv i st st' :
  others modifier add_read i st st' -> add_inv st ->
  add_inv st' /\ add_ids st' !! i = add_ids st !! i /\ add_sz st' !! i = add_sz st !! i.
Proof.
  induction 1 as [st|st st1 st2 (j & ids & g & Hj & (k & Hk & Hrd) & Hst) _ IH]; intros Hinv; [done|].
  destruct (lookup_lt_is_Some_2 locations j) as [loc Hloc]; [rewrite Hll; by eapply lookup_lt_Some|].
  destruct (modifier ids g j st) as [r st1'] eqn:E. simpl in Hst. subst st1'.
  destruct (add_modifier_spec j k loc ids g st r st1 Hk Hloc Hrd Hinv E) as (Hinv1 & Hoth & _).
  destruct (IH Hinv1) as (? & Hi & Hs). destruct (Hoth i) as [Hi' Hs']; [done|]. split_and!; [done|congruence|congruence].
Qed.

(** The outcome of position [i]. *)
Definition added (V' : StoreView) (st' : AddState) (i : nat) (k : KeyType) (loc : CacheLocation) (e : ErrorCode) : Prop :=
  exists lid, add_ids st' !! i = Some lid /\
  ((e = EC_OK /\ lid <> "" /\ location_at V k lid = None /\
    V' !! k = Some (<[lid := Some (new_location now lid loc)]> (default ∅ (V !! k))) /\
    add_sz st' !! i = Some (type loc, location_bytes (spec_sz i) loc)) \/
   (e <> EC_OK /\ V' !! k = V !! k)).

Lemma add_position V' i k loc e st st' :
  add_inv st -> keys !! i = Some k -> locations !! i = Some loc ->
  block_position modifier add_read V V' st st' i k e ->
  add_inv st' /\ added V' st' i k loc e.
Proof.
  intros Hinv Hk Hloc (g & ids & res & Hrd & (st1 & st2 & Ho1 & Hm & Ho2) & He). simpl in *.
  apply add_others_inv in Ho1 as (Hinv1 & _); [|done].
  destruct (add_modifier_spec i k loc ids g st1 res st2 Hk Hloc Hrd Hinv1 Hm) as (Hinv2 & _ & Hcase).
  apply add_others_inv in Ho2 as (Hinv' & Hi & Hs); [|done]. split; [done|].
  unfold block_effect, call_upserts, call_outcome in He. simpl in He.
  destruct Hcase as [(Hg1 & Hg2 & ->)|(lid & props & Hg & Hnone & Hne & -> & Hlid & Hsz)].
  - simpl in He. rewrite bool_decide_eq_true_2 in He by done. destruct He as [HV ->].
    destruct (lookup_lt_is_Some_2 (add_ids st') i) as [lid Hlid].
    { destruct Hinv' as (-> & _). by eapply lookup_lt_Some. }
    exists lid. split; [done|]. by right.
  - assert (Eg : bool_decide (g <> EC_OK) && bool_decide (g <> EC_NOENT) = false).
    { destruct Hg as [-> | ->]; by rewrite ?andb_false_r. }
    simpl in He. rewrite Eg in He. simpl in He. exists lid. split; [congruence|].
    destruct He as [[-> HV]|He]; [left|by right]. split_and!; [done|done|done| |congruence].
    by rewrite HV, insert_union_singleton_l.
Qed.

End add_spec.

(** The usage counts the bytes of the locations whose result is [EC_OK]. *)
Fixpoint counted_usage (spec_sz : nat -> nat -> Z) (results : list AddLocationResult) (locations : list CacheLocation)
    (usage : StorageUsageData) : StorageUsageData :=
  match results, locations with
  | r :: results, l :: locations =>
      counted_usage (fun i => spec_sz (S i)) results locations
        (if bool_decide (add_ec r = EC_OK) then (AddStorageUsageByType (type l) (location_bytes (spec_sz 0) l) usage).2 else usage)
  | _, _ => usage
  end.

Lemma add_usage_counted results : forall spec_sz locations sz usage,
  length sz = length results -> length locations = length results ->
  (forall i r l, results !! i = Some r -> locations !! i = Some l -> add_ec r = EC_OK ->
     sz !! i = Some (type l, location_bytes (spec_sz i) l)) ->
  add_usage results sz usage = counted_usage spec_sz results locations usage.
Proof.
  induction results as [|r results IH]; intros spec_sz [|l locations] [|s sz] usage H1 H2 Hall; try done.
  unfold add_usage in *. cbn [zip zip_with foldl fst snd counted_usage].
  rewrite (IH (fun i => spec_sz (S i)) locations); [|by injection H1|by injection H2|intros i r' l' Hi; by apply (Hall (S i))].
  f_equal. case_bool_decide as Hr; [|done]. specialize (Hall 0 r l eq_refl eq_refl Hr). by simplify_eq/=.
Qed.

Section add_exact.
Context {PT CT : Type} `{PB : !MetaStorageBackend PT} `{PL : !LawfulBackend PT} `{CB : !MetaCacheBaseBackend CT}.

(** What adding locations does, block by block. *)
Lemma BatchAddLocation_spec dist fuel now spec_sz keys locations p usage (x : MetaIndexer PT CT) :
  cache_backend_ (backend_manager_ x) = None -> NoDup keys -> length locations = length keys ->
  ids_reachable dist fuel keys (stored x) ->
  exists r results x',
    BatchAddLocation dist fuel now spec_sz keys locations p usage x =
      Some (r, results, counted_usage spec_sz results locations usage, x') /\
    single_tier (backend_manager_ x') /\ length results = length keys /\
    (r = EC_OK -> Forall (fun res => add_ec res = EC_OK) results) /\
    (forall i k loc, keys !! i = Some k -> locations !! i = Some loc -> exists res, results !! i = Some res /\
       let lid := add_location_id res in
       ((add_ec res = EC_OK /\ lid <> "" /\ location_at (stored x) k lid = None /\
         exists l, stored x' !! k = Some (<[lid := Some l]> (default ∅ (stored x !! k))) /\
           id l = lid /\ status l = CLS_WRITING /\ create_time l = now /\ type l = type loc /\
           location_specs l = location_specs loc) \/
        (add_ec res <> EC_OK /\ stored x' !! k = stored x !! k))) /\
    (forall k, k ∉ keys -> stored x' !! k = stored x !! k).
Proof.
  intros Hst Hnd Hll Hfresh. unfold BatchAddLocation. rewrite wrong_size_eq by done.
  set (st := mkAddState p _ _ false). destruct (ReadModifyWriteBlock _ _ _ _) as [[result x'] st'] eqn:Er.
  assert (Hinv : add_inv keys st) by (unfold add_inv; simpl; by rewrite !length_replicate).
  pose proof Er as Er'. apply (ReadModifyWriteBlock_effect _ (add_modifier_nodelete _ _ _ _ _ _)
    (add_read keys (stored x))) in Er as (Hst' & Hlr & Hpos & Hoth); [|done|done|by intros; eexists].
  assert (Hadd : forall i k loc, keys !! i = Some k -> locations !! i = Some loc -> exists e,
    error_codes result !! i = Some e /\ add_inv keys st' /\ added now spec_sz (stored x) (stored x') st' i k loc e).
  { intros i k loc Hk Hloc. destruct (Hpos i k Hk) as (e & He & Hp). exists e. split; [done|].
    by eapply add_position. }
  assert (Hinv' : add_inv keys st').
  { destruct keys as [|k0 ks]; [by simplify_eq/=|]. destruct locations as [|l0 ls]; [done|].
    by destruct (Hadd 0 k0 l0) as (e & _ & ? & _). }
  destruct Hinv' as (Hl1 & Hl2 & ->). rewrite wrong_size_eq by done.
  set (results := add_result <$> zip (error_codes result) (add_ids st')).
  assert (Hres : forall i k loc, keys !! i = Some k -> locations !! i = Some loc -> exists e lid,
    error_codes result !! i = Some e /\ results !! i = Some (mkAddResult e lid) /\ add_ids st' !! i = Some lid /\
    added now spec_sz (stored x) (stored x') st' i k loc e).
  { intros i k loc Hk Hloc. destruct (Hadd i k loc Hk Hloc) as (e & He & _ & Ha). pose proof Ha as (lid & Hlid & Hcase).
    exists e, lid. split_and!; [done| |done|done]. unfold results. rewrite list_lookup_fmap.
    assert (Hz : zip (error_codes result) (add_ids st') !! i = Some (e, lid)) by (apply lookup_zip_with_Some; eauto).
    rewrite Hz. simpl. f_equal. unfold add_result. simpl. f_equal.
    destruct Hcase as [(_ & Hne & _)|[Hne _]]; [by rewrite (bool_decide_eq_false_2 (lid = "")), andb_false_r|].
    by rewrite bool_decide_eq_false_2. }
  assert (Hlen : length results = length keys) by (unfold results; rewrite length_fmap, length_zip; lia).
  eexists _, results, x'. split_and!; [|done|done|intros Hr|intros i k loc Hk Hloc|exact Hoth].
  - do 2 f_equal. f_equal. apply add_usage_counted; [lia..|].
    intros i r loc Hi Hloc Hr. destruct (lookup_lt_is_Some_2 keys i) as [k Hk]; [apply lookup_lt_Some in Hi; lia|].
    destruct (Hres i k loc Hk Hloc) as (e & lid & _ & Hi' & _ & (lid' & _ & [(_ & _ & _ & _ & Hsz)|[Hne _]])); [done|].
    rewrite Hi in Hi'. by simplify_eq/=.
  - destruct (existsb _ _); [done|]. apply (ReadModifyWriteBlock_ok _ _ _ _ _ _ _ Er') in Hr. rewrite Forall_forall in Hr.
    apply Forall_forall. intros res (i & Hi)%list_elem_of_lookup.
    destruct (lookup_lt_is_Some_2 keys i) as [k Hk]; [apply lookup_lt_Some in Hi; lia|].
    destruct (lookup_lt_is_Some_2 locations i) as [loc Hloc]; [apply lookup_lt_Some in Hk; lia|].
    destruct (Hres i k loc Hk Hloc) as (e & lid & He & Hi' & _). rewrite Hi in Hi'. simplify_eq. simpl.
    symmetry. apply Hr. by eapply list_elem_of_lookup_2.
  - destruct (Hres i k loc Hk Hloc) as (e & lid & _ & Hi' & Hlid & (lid' & Hlid' & Hcase)). simplify_eq.
    eexists. split; [done|]. simpl. destruct Hcase as [(? & ? & ? & ? & _)|?]; [left|by right].
    split_and!; [done..|]. eexists. split; [done|]. by split_and!.
Qed.

(** C13: adding locations to distinct blocks of an index without a cache tier
    terminates and is exact per block: a successful result carries a non-empty
    id the block did not use before, and the block holds the requested
    location under it, in state writing, next to its old locations; a failed
    result leaves the block as it was; blocks outside the request are
    untouched; and the usage counters grow by the bytes of the locations that
    were added, and of those only. A spec without a size parameter counts with
    whatever the uninitialised variable holds at that read. *)
Theorem BatchAddLocation_exact dist fuel now spec_sz keys locations p usage (x : MetaIndexer PT CT) :
  cache_backend_ (backend_manager_ x) = None -> NoDup keys -> length locations = length keys ->
  ids_reachable dist fuel keys (stored x) ->
  exists r results x',
    BatchAddLocation dist fuel now spec_sz keys locations p usage x =
      Some (r, results, counted_usage spec_sz results locations usage, x') /\
    (forall i k loc, keys !! i = Some k -> locations !! i = Some loc -> exists res, results !! i = Some res /\
       let lid := add_location_id res in
       ((add_ec res = EC_OK /\ lid <> "" /\ location_at (stored x) k lid = None /\
         exists l, stored x' !! k = Some (<[lid := Some l]> (default ∅ (stored x !! k))) /\
           id l = lid /\ status l = CLS_WRITING /\ create_time l = now /\ type l = type loc /\
           location_specs l = location_specs loc) \/
        (add_ec res <> EC_OK /\ stored x' !! k = stored x !! k))) /\
    (forall k, k ∉ keys -> stored x' !! k = stored x !! k).
Proof.
  intros Hst Hnd Hll Hfresh.
  destruct (BatchAddLocation_spec dist fuel now spec_sz keys locations p usage x Hst Hnd Hll Hfresh)
    as (r & results & x' & Hrun & _ & _ & _ & Hpos & Hoth). exists r, results, x'. auto.
Qed.

End add_exact.

(** A generator that first repeats an id in use: the search tries twice. *)
Definition sample_dist (n : nat) : nat := if (n <? 8)%nat then 0 else 1.

Definition sample_used_indexer : MetaIndexer MetaDummyBackend MetaLocalBackend :=
  mkIndexer (mkManager (DummyBackend.Put [1]%Z [{[ "aaaaaaaa" := Some sample_writing ]}] [∅]
    (mkDummy ∅ ∅ (fun n => Z.of_nat n))).2 None kRunning ∅) 1 10 2 (fun k => (k mod 3)%Z).

Lemma BatchAddLocation_exact_witness :
  let out := BatchAddLocation sample_dist 2 7 (fun _ _ => 0%Z) [1; 4]%Z [sample_writing; sample_writing] 0 usage_zero sample_used_indexer in
  (exists r results x', out = Some (r, results, counted_usage (fun _ _ => 0%Z) results [sample_writing; sample_writing] usage_zero, x') /\
    results = [mkAddResult EC_OK "bbbbbbbb"; mkAddResult EC_OK "bbbbbbbb"]) /\
  ids_reachable sample_dist 2 [1; 4]%Z (stored sample_used_indexer).
Proof.
  assert (Hr : ids_reachable sample_dist 2 [1; 4]%Z (stored sample_used_indexer)).
  { intros p k _. exists 1. split; [lia|]. intros ls Hls.
    assert (Hv : stored sample_used_indexer = {[ 1%Z := {[ "aaaaaaaa" := Some sample_writing ]} ]})
      by (vm_compute; reflexivity). rewrite Hv in Hls. apply lookup_singleton_Some in Hls as [_ <-].
    assert (Hs : GenerateRandomString sample_dist 8 (p + 8 * 1) = "bbbbbbbb").
    { unfold GenerateRandomString. simpl seq. cbn [fmap list_fmap]. unfold sample_dist.
      rewrite !(proj2 (Nat.ltb_ge _ _)) by lia. reflexivity. }
    rewrite Hs. done. }
  split; [|exact Hr].
  destruct (BatchAddLocation_exact sample_dist 2 7 (fun _ _ => 0%Z) [1; 4]%Z [sample_writing; sample_writing] 0 usage_zero
    sample_used_indexer eq_refl ltac:(by apply (bool_decide_unpack _); vm_compute) eq_refl Hr)
    as (r & results & x' & Hrun & _ & _).
  exists r, results, x'. split; [exact Hrun|]. apply (f_equal (fmap (fun o => o.1.1.2))) in Hrun.
  assert (Hc : (fun o => o.1.1.2) <$> BatchAddLocation sample_dist 2 7 (fun _ _ => 0%Z) [1; 4]%Z [sample_writing; sample_writing] 0
    usage_zero sample_used_indexer = Some [mkAddResult EC_OK "bbbbbbbb"; mkAddResult EC_OK "bbbbbbbb"])
    by (vm_compute; reflexivity).
  rewrite Hc in Hrun. by injection Hrun.
Defined.
