(* ===== verification/WriteSession.v ===== *)
(** * WriteSession: the write sessions of [manager/write_location_manager.cc]

    A started write is a session: the keys and location ids it reserved, with
    an expiry point and the callback that finishes it when the client does
    not. [SessionIdMap] keeps the sessions under one mutex (an ordered map by
    expiry point, a session index and a reference count per location id);
    [WriteLocationManager] adds the expiry thread. Operations are the critical
    sections; callbacks are recorded, with their arguments, as an event log.
    Expiry points are mathematical integers: the caller caps timeouts at half
    an hour, so the 64-bit microsecond clock does not wrap. *)

From stdpp Require Import base gmap sets list strings sorting.
From Stdlib Require Import ZArith Lia.
From S2P Require Import Prelude MetaTypes.

Record WriteLocationInfo := mkInfo { wi_keys : list KeyType; wi_location_ids : list LocationId }.

Section sessions.
Context {CB : Type}.

Record ExpireUnit := mkUnit {
  expire_point : Z;
  write_session_id : string;
  callback : CB;
  write_location_info : WriteLocationInfo;
}.

(** [unit_map_] is a [std::map]: ascending expiry points. *)
Record SessionIdMap := mkSessions {
  session_id_map_impl_ : gmap string Z;
  unit_map_ : list (Z * ExpireUnit);
  location_id_index_ : gmap LocationId nat;
}.

Definition empty_sessions : SessionIdMap := mkSessions ∅ [] ∅.

Definition unit_ids (u : ExpireUnit) : list LocationId := wi_location_ids (write_location_info u).

Definition AddToLocationIndexUnsafe (ids : list LocationId) (index : gmap LocationId nat) : gmap LocationId nat :=
  foldl (fun index id => <[id := S (default 0 (index !! id))]> index) index ids.

(** A count of zero is never stored. *)
Definition RemoveFromLocationIndexUnsafe (ids : list LocationId) (index : gmap LocationId nat)
    : gmap LocationId nat :=
  foldl (fun index id =>
    match index !! id with
    | Some (S n) => if (n =? 0)%nat then delete id index else <[id := n]> index
    | _ => index
    end) index ids.

Definition Size (s : SessionIdMap) : nat := length (unit_map_ s).
Definition Empty (s : SessionIdMap) : bool := (length (unit_map_ s) =? 0)%nat.

(** The loop over the units that are due, in ascending order. *)
Fixpoint drop_due (cur_point : Z) (units : list (Z * ExpireUnit)) (sessions : gmap string Z)
    (index : gmap LocationId nat) : list ExpireUnit * SessionIdMap :=
  match units with
  | (p, u) :: rest =>
      if (p <=? cur_point)%Z
      then let '(due, s) := drop_due cur_point rest (delete (write_session_id u) sessions)
                              (RemoveFromLocationIndexUnsafe (unit_ids u) index) in
           (u :: due, s)
      else ([], mkSessions sessions units index)
  | [] => ([], mkSessions sessions [] index)
  end.

(** The units whose callbacks run, and the next expiry point. *)
Definition DropByExpirePoint (cur_point : Z) (s : SessionIdMap) : (list ExpireUnit * Z) * SessionIdMap :=
  let '(due, s) := drop_due cur_point (unit_map_ s) (session_id_map_impl_ s) (location_id_index_ s) in
  match due with
  | [] => (([], 0%Z), s)
  | _ => ((due, match unit_map_ s with [] => 0%Z | (p, _) :: _ => p end), s)
  end.

Definition DropAll (s : SessionIdMap) : list ExpireUnit * SessionIdMap :=
  ((unit_map_ s).*2,
   mkSessions (foldl (fun m u => delete (write_session_id u) m) (session_id_map_impl_ s) (unit_map_ s).*2) [] ∅).

(** The first expiry point from [p] on that no unit has. *)
Fixpoint free_point (fuel : nat) (units : list (Z * ExpireUnit)) (p : Z) : Z :=
  match fuel with
  | O => p
  | S fuel => match om_find Z.ltb p units with None => p | Some _ => free_point fuel units (p + 1)%Z end
  end.

Definition Put (u : ExpireUnit) (s : SessionIdMap) : SessionIdMap :=
  let p := free_point (S (length (unit_map_ s))) (unit_map_ s) (expire_point u) in
  let u := mkUnit p (write_session_id u) (callback u) (write_location_info u) in
  mkSessions (<[write_session_id u := p]> (session_id_map_impl_ s)) (om_set Z.ltb p u (unit_map_ s))
    (AddToLocationIndexUnsafe (unit_ids u) (location_id_index_ s)).

(** [None] is a failed [assert]; a missing session gives [Some (None, s)]. *)
Definition GetAndDelete (sid : string) (s : SessionIdMap) : option (option WriteLocationInfo * SessionIdMap) :=
  match session_id_map_impl_ s !! sid with
  | None => Some (None, s)
  | Some p =>
      match om_find Z.ltb p (unit_map_ s) with
      | None => None
      | Some u =>
          Some (Some (write_location_info u),
                mkSessions (delete sid (session_id_map_impl_ s)) (om_erase Z.ltb p (unit_map_ s))
                  (RemoveFromLocationIndexUnsafe (unit_ids u) (location_id_index_ s)))
      end
  end.

Definition HasLocationId (lid : LocationId) (s : SessionIdMap) : bool :=
  bool_decide (is_Some (location_id_index_ s !! lid)).

(** ** The manager *)

Definition kDefaultExpireLoopSleepTimeUs : Z := 5 * 1000 * 1000.

Record WriteLocationManager := mkWriteManager {
  session_id_map_ : SessionIdMap;
  next_sleep_time_us_ : Z;
}.

Definition init_manager : WriteLocationManager := mkWriteManager empty_sessions kDefaultExpireLoopSleepTimeUs.

Definition StoreMinNextSleepTimeUs (t : Z) (m : WriteLocationManager) : WriteLocationManager :=
  mkWriteManager (session_id_map_ m) (Z.min (next_sleep_time_us_ m) t).

(** The compare-exchange loop of [StoreMinNextSleepTimeUs] against other
    threads: an attempt sees the value of the cell then, and may fail
    spuriously. The cell value replaced and its replacement. *)
Fixpoint store_min_loop (expected desired : Z) (attempts : list (Z * bool)) : option (Z * Z) :=
  match attempts with
  | [] => None
  | (cell, spurious) :: attempts =>
      if (cell =? expected)%Z && negb spurious then Some (cell, desired)
      else store_min_loop cell (Z.min cell desired) attempts
  end.

Definition manager_Put (now : Z) (sid : string) (keys : list KeyType) (ids : list LocationId)
    (write_timeout_seconds : Z) (cb : CB) (m : WriteLocationManager) : WriteLocationManager :=
  let t := (write_timeout_seconds * 1000 * 1000)%Z in
  StoreMinNextSleepTimeUs t
    (mkWriteManager (Put (mkUnit (now + t) sid cb (mkInfo keys ids)) (session_id_map_ m)) (next_sleep_time_us_ m)).

Definition manager_GetAndDelete (sid : string) (m : WriteLocationManager)
    : option (option WriteLocationInfo * WriteLocationManager) :=
  '(r, s) ← GetAndDelete sid (session_id_map_ m); Some (r, mkWriteManager s (next_sleep_time_us_ m)).

Definition DoCleanup (m : WriteLocationManager) : list ExpireUnit * WriteLocationManager :=
  let '(all, s) := DropAll (session_id_map_ m) in (all, mkWriteManager s kDefaultExpireLoopSleepTimeUs).

(** One round of [ExpireLoop], woken at [cur_point]. *)
Definition expire_round (cur_point : Z) (m : WriteLocationManager) : list ExpireUnit * WriteLocationManager :=
  if Empty (session_id_map_ m) then ([], m)
  else
    let '((due, next_point), s) := DropByExpirePoint cur_point (session_id_map_ m) in
    let m := mkWriteManager s (next_sleep_time_us_ m) in
    (due, if (0 <? next_point)%Z then StoreMinNextSleepTimeUs (next_point - cur_point) m
          else mkWriteManager s kDefaultExpireLoopSleepTimeUs).

End sessions.

Arguments ExpireUnit : clear implicits.
Arguments SessionIdMap : clear implicits.
Arguments WriteLocationManager : clear implicits.

(** ** The representation invariant *)

Section spec.
Context {CB : Type}.
Implicit Types (s : SessionIdMap CB) (u : ExpireUnit CB) (us : list (ExpireUnit CB)).

Definition pending s : list (ExpireUnit CB) := (unit_map_ s).*2.

(** How often a location id is held by the units. *)
Definition occurrences (lid : LocationId) us : nat := length (filter (eq lid) (us ≫= unit_ids)).

Definition counted (index : gmap LocationId nat) us : Prop :=
  forall lid, index !! lid = match occurrences lid us with 0 => None | n => Some n end.

Definition session_entry (pu : Z * ExpireUnit CB) : string * Z := (write_session_id pu.2, pu.1).

Record wf_sessions s : Prop := {
  wf_units : om_wf Z.ltb (unit_map_ s);
  wf_points : Forall (fun pu => expire_point pu.2 = pu.1) (unit_map_ s);
  wf_distinct : NoDup (write_session_id <$> pending s);
  wf_index : session_id_map_impl_ s = list_to_map (session_entry <$> unit_map_ s);
  wf_counts : counted (location_id_index_ s) (pending s);
}.

(** *** Reference counts *)

Lemma occurrences_cons lid u us :
  occurrences lid (u :: us) = length (filter (eq lid) (unit_ids u)) + occurrences lid us.
Proof. unfold occurrences. csimpl. by rewrite filter_app, length_app. Qed.

Lemma occurrences_perm lid us us' : us ≡ₚ us' -> occurrences lid us = occurrences lid us'.
Proof. intros Hp. unfold occurrences. by apply Permutation_length, filter_Permutation, bind_Permutation. Qed.

Lemma occurrences_pos lid us : 0 < occurrences lid us <-> exists u, u ∈ us /\ lid ∈ unit_ids u.
Proof.
  induction us as [|u us IH].
  { split; [unfold occurrences; simpl; lia|]. intros (u & Hu & _). by apply not_elem_of_nil in Hu. }
  rewrite occurrences_cons.
  assert (Hf : 0 < length (filter (eq lid) (unit_ids u)) <-> lid ∈ unit_ids u).
  { split.
    - intros H. destruct (filter (eq lid) (unit_ids u)) as [|x l] eqn:E; [simpl in H; lia|].
      assert (Hx : x ∈ filter (eq lid) (unit_ids u)) by (rewrite E; left).
      apply list_elem_of_filter in Hx as [-> ?]. done.
    - intros H. assert (Hx : lid ∈ filter (eq lid) (unit_ids u)) by (apply list_elem_of_filter; by split).
      destruct (filter _ _); [by apply not_elem_of_nil in Hx|simpl; lia]. }
  setoid_rewrite elem_of_cons. split.
  - intros H. destruct (decide (lid ∈ unit_ids u)) as [?|Hn]; [eauto|].
    destruct (proj1 IH) as (v & ? & ?); [|eauto]. rewrite <-Hf in Hn. lia.
  - intros (v & [->|Hv] & Hl); [apply Hf in Hl; lia|]. assert (0 < occurrences lid us) by (apply IH; eauto). lia.
Qed.

(** Counts are described by the number of references beyond [us]. *)
Definition counted_with (index : gmap LocationId nat) (extra : list LocationId) us : Prop :=
  forall lid, index !! lid =
    match length (filter (eq lid) extra) + occurrences lid us with 0 => None | n => Some n end.

Lemma counted_with_cons index id ids us :
  counted_with index (id :: ids) us <->
  forall lid, index !! lid = match (if decide (lid = id) then 1 else 0) + (length (filter (eq lid) ids) + occurrences lid us)
                             with 0 => None | n => Some n end.
Proof.
  unfold counted_with. split; intros H lid; rewrite H, filter_cons; destruct (decide (lid = id)); simpl; done.
Qed.

Lemma AddToLocationIndexUnsafe_spec ids index us : forall extra,
  counted_with index extra us -> counted_with (AddToLocationIndexUnsafe ids index) (rev ids ++ extra) us.
Proof.
  revert index. induction ids as [|id ids IH]; intros index extra Hc; [done|].
  unfold AddToLocationIndexUnsafe. cbn [foldl]. cbn [rev]. rewrite <-app_assoc. apply IH.
  apply counted_with_cons. intros lid. destruct (decide (lid = id)) as [->|Hne].
  - rewrite lookup_insert_eq, Hc. by destruct (_ + _).
  - rewrite lookup_insert_ne by done. by rewrite Hc.
Qed.

Lemma RemoveFromLocationIndexUnsafe_spec ids us : forall index,
  counted_with index ids us -> counted_with (RemoveFromLocationIndexUnsafe ids index) [] us.
Proof.
  induction ids as [|id ids IH]; intros index Hc; [done|]. unfold RemoveFromLocationIndexUnsafe. cbn [foldl]. apply IH.
  pose proof (proj1 (counted_with_cons _ _ _ _) Hc) as Hc'. clear Hc. intros lid.
  pose proof (Hc' id) as Hid. rewrite decide_True in Hid by done. cbn in Hid. rewrite Hid.
  destruct (Nat.eqb_spec (length (filter (eq id) ids) + occurrences id us) 0) as [E|E].
  - destruct (decide (lid = id)) as [->|Hne]; [by rewrite lookup_delete_eq, E|].
    rewrite lookup_delete_ne, Hc' by done. by rewrite decide_False.
  - destruct (decide (lid = id)) as [->|Hne].
    + rewrite lookup_insert_eq. by destruct (_ + _).
    + rewrite lookup_insert_ne, Hc' by done. by rewrite decide_False.
Qed.

Lemma counted_add ids index us u :
  unit_ids u = ids -> counted index us -> counted (AddToLocationIndexUnsafe ids index) (u :: us).
Proof.
  intros <- Hc lid. assert (H0 : counted_with index [] us) by exact Hc.
  rewrite (AddToLocationIndexUnsafe_spec (unit_ids u) index us [] H0 lid), occurrences_cons, app_nil_r.
  assert (Hp : rev (unit_ids u) ≡ₚ unit_ids u) by (symmetry; apply Permutation_rev). by rewrite Hp.
Qed.

Lemma counted_remove index us u :
  counted index (u :: us) -> counted (RemoveFromLocationIndexUnsafe (unit_ids u) index) us.
Proof.
  intros Hc. apply (RemoveFromLocationIndexUnsafe_spec (unit_ids u) us). intros lid.
  by rewrite Hc, occurrences_cons.
Qed.

Lemma counted_perm index us us' : us ≡ₚ us' -> counted index us -> counted index us'.
Proof. intros Hp Hc lid. by rewrite Hc, (occurrences_perm lid us us'). Qed.

(** *** The operations keep the invariant *)

(** A free expiry point is found within one probe more than there are units. *)
Lemma free_point_probes fuel (units : list (Z * ExpireUnit CB)) : forall p,
  om_find Z.ltb (free_point fuel units p) units = None \/
  (forall i, i < fuel -> is_Some (om_find Z.ltb (p + Z.of_nat i)%Z units)).
Proof.
  induction fuel as [|fuel IH]; intros p; simpl; [right; lia|].
  destruct (om_find Z.ltb p units) as [u|] eqn:E; [|by left].
  destruct (IH (p + 1)%Z) as [?|Hall]; [by left|right].
  intros [|i] Hi; [rewrite Z.add_0_r; by eexists|].
  replace (p + Z.of_nat (S i))%Z with (p + 1 + Z.of_nat i)%Z by lia. apply Hall. lia.
Qed.

Lemma free_point_free (units : list (Z * ExpireUnit CB)) p :
  om_wf Z.ltb units -> om_find Z.ltb (free_point (S (length units)) units p) units = None.
Proof.
  intros Hwf. destruct (free_point_probes (S (length units)) units p) as [?|Hall]; [done|exfalso].
  set (probes := (fun i => (p + Z.of_nat i)%Z) <$> seq 0 (S (length units))).
  assert (Hl : length probes <= length units.*1).
  { apply submseteq_length, NoDup_submseteq.
    - apply NoDup_fmap_2_strong; [|apply NoDup_seq]. intros; lia.
    - intros q (i & -> & [_ Hi]%elem_of_seq)%list_elem_of_fmap. destruct (Hall i Hi) as [u Hu].
      apply (om_elem_of_find Z.ltb) in Hu; [|exact Hwf]. by apply (list_elem_of_fmap_2 fst) in Hu. }
  unfold probes in Hl. rewrite !length_fmap, length_seq in Hl. lia.
Qed.

Lemma free_point_ge fuel (units : list (Z * ExpireUnit CB)) : forall p, (p <= free_point fuel units p)%Z.
Proof.
  induction fuel as [|fuel IH]; intros p; simpl; [lia|].
  destruct (om_find _ _ _); [|lia]. specialize (IH (p + 1)%Z). lia.
Qed.

Lemma wf_empty_sessions : wf_sessions (empty_sessions (CB:=CB)).
Proof. split; [by constructor..|done|done]. Qed.

Lemma session_entries_fst (units : list (Z * ExpireUnit CB)) :
  (session_entry <$> units).*1 = write_session_id <$> units.*2.
Proof. by rewrite <-!list_fmap_compose. Qed.

(** The unit a [Put] stores. *)
Definition placed u s : ExpireUnit CB :=
  mkUnit (free_point (S (length (unit_map_ s))) (unit_map_ s) (expire_point u)) (write_session_id u)
    (callback u) (write_location_info u).

Lemma Put_wf u s :
  wf_sessions s -> write_session_id u ∉ write_session_id <$> pending s ->
  wf_sessions (Put u s) /\ pending (Put u s) ≡ₚ placed u s :: pending s.
Proof.
  intros [Hu Hp Hd Hi Hc] Hni.
  assert (Hf := free_point_free (unit_map_ s) (expire_point u) Hu).
  assert (Hperm : unit_map_ (Put u s) ≡ₚ (expire_point (placed u s), placed u s) :: unit_map_ s)
    by (by apply om_set_perm).
  assert (Hpend : pending (Put u s) ≡ₚ placed u s :: pending s) by (unfold pending; by rewrite Hperm).
  assert (Hnd : NoDup (write_session_id <$> pending (Put u s))) by (rewrite Hpend; by apply NoDup_cons).
  split; [|done]. split.
  - apply (om_set_wf Z.ltb); exact Hu.
  - rewrite Hperm. by constructor.
  - done.
  - etrans; [|symmetry; apply list_to_map_proper; [|by rewrite Hperm]].
    + csimpl. by rewrite <-Hi.
    + by rewrite session_entries_fst.
  - eapply counted_perm; [symmetry; exact Hpend|]. by apply counted_add.
Qed.

Lemma session_lookup s sid p :
  wf_sessions s -> session_id_map_impl_ s !! sid = Some p <->
  exists u, om_find Z.ltb p (unit_map_ s) = Some u /\ write_session_id u = sid.
Proof.
  intros [Hu _ Hd Hi _]. rewrite Hi, <-elem_of_list_to_map by (by rewrite session_entries_fst).
  rewrite list_elem_of_fmap. split.
  - intros ([p' u] & [= -> ->] & Hin). exists u. split; [|done]. by apply (om_elem_of_find Z.ltb).
  - intros (u & Hf & <-). exists (p, u). split; [done|]. by apply (om_elem_of_find Z.ltb) in Hf.
Qed.

(** Taking out one unit, wherever it is. *)
Lemma remove_unit_wf s u p units :
  wf_sessions s -> unit_map_ s ≡ₚ (p, u) :: units -> om_wf Z.ltb units ->
  let s' := mkSessions (delete (write_session_id u) (session_id_map_impl_ s)) units
              (RemoveFromLocationIndexUnsafe (unit_ids u) (location_id_index_ s)) in
  wf_sessions s' /\ pending s ≡ₚ u :: pending s'.
Proof.
  intros [Hu Hp Hd Hi Hc] Hperm Hwf s'.
  assert (Hpend : pending s ≡ₚ u :: pending s') by (unfold pending; by rewrite Hperm).
  split; [|done]. rewrite Hpend in Hd. csimpl in Hd. apply NoDup_cons in Hd as [Hni Hd].
  rewrite Hperm in Hp. apply Forall_cons in Hp as [_ Hp]. split; [done|done|done| |].
  - simpl. rewrite Hi.
    rewrite (list_to_map_proper (session_entry <$> unit_map_ s) (session_entry <$> (p, u) :: units)).
    + csimpl. apply delete_insert_id, not_elem_of_list_to_map_1. by rewrite session_entries_fst.
    + rewrite Hperm, session_entries_fst. by apply NoDup_cons.
    + by rewrite Hperm.
  - apply counted_remove. by eapply counted_perm.
Qed.

(** [GetAndDelete] hands out a pending session and forgets it; the assertion
    in it cannot fail. *)
Lemma GetAndDelete_spec s sid :
  wf_sessions s ->
  (exists u s', u ∈ pending s /\ write_session_id u = sid /\
     GetAndDelete sid s = Some (Some (write_location_info u), s') /\
     wf_sessions s' /\ pending s ≡ₚ u :: pending s') \/
  (sid ∉ write_session_id <$> pending s /\ GetAndDelete sid s = Some (None, s)).
Proof.
  intros Hwf. unfold GetAndDelete. destruct (session_id_map_impl_ s !! sid) as [p|] eqn:E.
  - left. apply session_lookup in E as (u & Hf & <-); [|done]. rewrite Hf.
    assert (Hperm := om_erase_perm _ _ _ _ Hf). exists u. eexists. split_and!; [|done|done|..].
    + unfold pending. rewrite Hperm. left.
    + eapply remove_unit_wf; [done|exact Hperm|]. apply (om_erase_wf Z.ltb), Hwf.
    + eapply remove_unit_wf; [done|exact Hperm|]. apply (om_erase_wf Z.ltb), Hwf.
  - right. split; [|done]. intros (u & -> & Hu)%list_elem_of_fmap.
    unfold pending in Hu. apply list_elem_of_fmap in Hu as ([p v] & -> & Hin).
    apply (om_elem_of_find Z.ltb) in Hin; [|apply Hwf].
    assert (Hs : session_id_map_impl_ s !! write_session_id v = Some p) by (apply session_lookup; eauto).
    simpl in E. congruence.
Qed.

(** An expiry round removes exactly the units that are due. *)
Lemma drop_due_spec cur (units : list (Z * ExpireUnit CB)) : forall sessions index due s',
  wf_sessions (mkSessions sessions units index) ->
  drop_due cur units sessions index = (due, s') ->
  wf_sessions s' /\ units.*2 = due ++ pending s' /\
  Forall (fun u => (expire_point u <= cur)%Z) due /\
  Forall (fun u => (cur < expire_point u)%Z) (pending s').
Proof.
  induction units as [|[p u] units IH]; intros sessions index due s' Hwf Hrun; simpl in Hrun.
  { simplify_eq. by split_and!. }
  pose proof Hwf as [Hu Hp _ _ _]. simpl in Hu, Hp. apply om_wf_cons in Hu as [Hu Hall].
  apply Forall_cons in Hp as [Hpu Hp]. simpl in Hpu.
  destruct (Z.leb_spec p cur) as [Hle|Hlt].
  - destruct (drop_due _ units _ _) as [due1 s1] eqn:E. simplify_eq.
    apply IH in E as (Hw & Heq & Hd & Hq).
    + split_and!; [done|csimpl; by rewrite Heq|by constructor|done].
    + eapply (remove_unit_wf _ u (expire_point u) units) in Hwf as [Hw _]; [exact Hw|done|done].
  - simplify_eq. split_and!; [done|done|constructor|]. unfold pending. simpl. constructor; [lia|].
    apply Forall_fmap. apply Forall_forall. intros [q v] Hin. rewrite Forall_forall in Hall, Hp.
    specialize (Hall _ Hin). specialize (Hp _ Hin). simpl in *. apply Z.ltb_lt in Hall. lia.
Qed.

Lemma DropByExpirePoint_spec cur s due next s' :
  wf_sessions s -> DropByExpirePoint cur s = ((due, next), s') ->
  wf_sessions s' /\ pending s = due ++ pending s' /\
  Forall (fun u => (expire_point u <= cur)%Z) due /\ Forall (fun u => (cur < expire_point u)%Z) (pending s') /\
  next = (match due with [] => 0 | _ => default 0 (expire_point <$> head (pending s')) end)%Z.
Proof.
  intros Hwf Hrun. unfold DropByExpirePoint in Hrun.
  destruct (drop_due _ _ _ _) as [d s1] eqn:E.
  apply drop_due_spec in E as (Hw & Heq & Hd & Hq); [|by destruct s].
  assert (d = due /\ s1 = s') as [-> ->] by (destruct d; by simplify_eq).
  split_and!; try done. destruct due as [|u due]; simplify_eq; [done|].
  destruct Hw as [_ Hp _ _ _]. unfold pending. destruct (unit_map_ s') as [|[p v] rest]; [done|].
  apply Forall_cons in Hp as [Hp _]. done.
Qed.

Lemma DropAll_spec s :
  wf_sessions s -> (DropAll s).1 = pending s /\ (DropAll s).2 = empty_sessions.
Proof.
  intros Hwf. split; [done|]. unfold DropAll, empty_sessions. simpl. f_equal.
  apply map_eq. intros sid. rewrite lookup_empty.
  assert (Hgen : forall us (m : gmap string Z), (sid ∈ write_session_id <$> us \/ m !! sid = None) ->
    foldl (fun m u => delete (write_session_id u) m) m us !! sid = None).
  { induction us as [|u us IH]; intros m [Hin|Hn]; csimpl.
    - by apply not_elem_of_nil in Hin.
    - done.
    - apply elem_of_cons in Hin as [->|Hin]; apply IH; [|by left]. right. apply lookup_delete_eq.
    - apply IH. right. by apply lookup_delete_None; right. }
  apply Hgen. fold (pending s). destruct (session_id_map_impl_ s !! sid) as [p|] eqn:E; [left|by right].
  apply session_lookup in E as (u & Hf & <-); [|done]. apply list_elem_of_fmap_2.
  apply (om_elem_of_find Z.ltb) in Hf; [|apply Hwf]. by apply (list_elem_of_fmap_2 snd) in Hf.
Qed.

Lemma HasLocationId_spec s lid :
  wf_sessions s -> HasLocationId lid s = true <-> exists u, u ∈ pending s /\ lid ∈ unit_ids u.
Proof.
  intros [_ _ _ _ Hc]. unfold HasLocationId. rewrite bool_decide_eq_true, Hc, <-occurrences_pos.
  destruct (occurrences lid (pending s)); (split; [intros [? ?]|intros ?]); [done|lia|lia|by eexists].
Qed.

End spec.

(** ** Histories of sessions *)

Section histories.
Context {CB : Type}.
Local Abbreviation Manager := (WriteLocationManager CB).

(** What clients, the expiry thread and a cleanup do. *)
Inductive WriteOp :=
| WPut (now : Z) (sid : string) (cb : CB) (info : WriteLocationInfo) (write_timeout_seconds : Z)
| WFinish (sid : string)
| WExpire (cur_point : Z)
| WCleanup.

(** The end of a session: handed to the finishing client ([None]) or to its
    callback. *)
Definition Ending : Type := option CB * (string * WriteLocationInfo).

Definition fired (u : ExpireUnit CB) : Ending := (Some (callback u), (write_session_id u, write_location_info u)).

Definition run_write (op : WriteOp) (m : Manager) : option (list Ending * Manager) :=
  match op with
  | WPut now sid cb info t => Some ([], manager_Put now sid (wi_keys info) (wi_location_ids info) t cb m)
  | WFinish sid =>
      '(r, m) ← manager_GetAndDelete sid m;
      Some (match r with Some info => [(None, (sid, info))] | None => [] end, m)
  | WExpire cur => let '(due, m) := expire_round cur m in Some (fired <$> due, m)
  | WCleanup => let '(all, m) := DoCleanup m in Some (fired <$> all, m)
  end.

Fixpoint run_writes (ops : list WriteOp) (m : Manager) : option (list Ending * Manager) :=
  match ops with
  | [] => Some ([], m)
  | op :: ops =>
      '(log, m) ← run_write op m; '(rest, m) ← run_writes ops m; Some (log ++ rest, m)
  end.

(** The sessions a history starts: id, callback and reservation. *)
Definition puts_of (op : WriteOp) : list (string * (CB * WriteLocationInfo)) :=
  match op with WPut _ sid cb info _ => [(sid, (cb, info))] | _ => [] end.

Definition open_sessions (m : Manager) : list (string * (CB * WriteLocationInfo)) :=
  (fun u => (write_session_id u, (callback u, write_location_info u))) <$> pending (session_id_map_ m).

(** A session without its callback. *)
Definition reservation (f : string * (CB * WriteLocationInfo)) : string * WriteLocationInfo := (f.1, f.2.2).

(** What a piece of history does to the open sessions [before]. *)
Definition accounts_for (before : list (string * (CB * WriteLocationInfo))) (log : list Ending) (m' : Manager) : Prop :=
  reservation <$> before ≡ₚ log.*2 ++ (reservation <$> open_sessions m') /\
  (forall cb sn, (Some cb, sn) ∈ log -> (sn.1, (cb, sn.2)) ∈ before) /\
  (forall f, f ∈ open_sessions m' -> f ∈ before).

Definition good_manager (m : Manager) : Prop :=
  wf_sessions (session_id_map_ m) /\ (next_sleep_time_us_ m <= kDefaultExpireLoopSleepTimeUs)%Z.

Lemma open_sids m : (open_sessions m).*1 = write_session_id <$> pending (session_id_map_ m).
Proof. unfold open_sessions. by rewrite <-list_fmap_compose. Qed.

(** Units fired in a batch. *)
Lemma fired_accounts (m m' : Manager) due :
  pending (session_id_map_ m) = due ++ pending (session_id_map_ m') ->
  accounts_for (open_sessions m) (fired <$> due) m'.
Proof.
  intros Heq. unfold accounts_for, open_sessions. rewrite Heq, !fmap_app, <-!list_fmap_compose. split_and!; [done| |].
  - intros cb sn (u & [= -> ->] & Hu)%list_elem_of_fmap. apply elem_of_app. left.
    apply list_elem_of_fmap. by exists u.
  - intros f Hf. apply elem_of_app. by right.
Qed.

Lemma WPut_spec now sid cb info t m :
  good_manager m -> sid ∉ (open_sessions m).*1 ->
  let m' := manager_Put now sid (wi_keys info) (wi_location_ids info) t cb m in
  good_manager m' /\ accounts_for ((sid, (cb, info)) :: open_sessions m) [] m'.
Proof.
  intros [Hwf Hs] Hni m'. rewrite open_sids in Hni.
  destruct (Put_wf (mkUnit (now + t * 1000 * 1000) sid cb info) (session_id_map_ m) Hwf Hni) as [Hwf' Hp].
  assert (Hinfo : mkInfo (wi_keys info) (wi_location_ids info) = info) by (by destruct info).
  assert (Hm : session_id_map_ m' = Put (mkUnit (now + t * 1000 * 1000) sid cb info) (session_id_map_ m))
    by (unfold m', manager_Put; simpl; by rewrite Hinfo).
  assert (Ho : open_sessions m' ≡ₚ (sid, (cb, info)) :: open_sessions m).
  { unfold open_sessions. rewrite Hm, Hp. done. }
  split; [split; [by rewrite Hm|simpl; lia]|]. split_and!; [by rewrite Ho| |].
  - intros cb' sn Hin. by apply not_elem_of_nil in Hin.
  - intros f Hf. by rewrite Ho in Hf.
Qed.

Lemma run_write_spec op m :
  good_manager m -> NoDup ((puts_of op).*1 ++ (open_sessions m).*1) ->
  exists log m', run_write op m = Some (log, m') /\ good_manager m' /\
    accounts_for (puts_of op ++ open_sessions m) log m'.
Proof.
  intros Hg Hnd. pose proof Hg as [Hwf Hs]. destruct op as [now sid cb info t|sid|cur|]; csimpl in Hnd.
  - apply NoDup_cons in Hnd as [Hni _]. destruct (WPut_spec now sid cb info t m Hg Hni) as [? ?]. eauto.
  - unfold run_write, manager_GetAndDelete.
    destruct (GetAndDelete_spec _ sid Hwf) as [(u & s' & Hu & <- & -> & Hwf' & Hp)|[_ ->]]; csimpl.
    + eexists _, _. split_and!; [done|by split|]. unfold accounts_for, open_sessions. simpl.
      rewrite Hp. csimpl. split_and!; [done| |].
      * intros cb sn Hin. by apply list_elem_of_singleton in Hin.
      * intros f Hf. rewrite Hp. csimpl. by right.
    + eexists _, _. split_and!; [done|by split|]. split_and!; [done| |done].
      intros cb sn Hin. by apply not_elem_of_nil in Hin.
  - unfold run_write, expire_round. destruct (Empty (session_id_map_ m)).
    { eexists _, _. split_and!; [done|done|]. by apply (fired_accounts m m []). }
    destruct (DropByExpirePoint cur (session_id_map_ m)) as [[due next] s'] eqn:E.
    apply DropByExpirePoint_spec in E as (Hwf' & Heq & _); [|done].
    destruct (0 <? next)%Z; (eexists _, _; split_and!; [done|split; [done|simpl; lia]|by apply fired_accounts]).
  - assert (Hd : DropAll (session_id_map_ m) = (pending (session_id_map_ m), empty_sessions))
      by (destruct (DropAll_spec _ Hwf) as [<- <-]; apply surjective_pairing).
    unfold run_write, DoCleanup. rewrite Hd.
    eexists _, _. split_and!; [done|split; [apply wf_empty_sessions|simpl; lia]|].
    apply fired_accounts. simpl. by rewrite app_nil_r.
Qed.

Lemma reservation_sids (l : list (string * (CB * WriteLocationInfo))) : (reservation <$> l).*1 = l.*1.
Proof. by rewrite <-list_fmap_compose. Qed.

Lemma run_writes_spec ops : forall m,
  good_manager m -> NoDup ((ops ≫= puts_of).*1 ++ (open_sessions m).*1) ->
  exists log m', run_writes ops m = Some (log, m') /\ good_manager m' /\
    accounts_for ((ops ≫= puts_of) ++ open_sessions m) log m'.
Proof.
  induction ops as [|op ops IH]; intros m Hg Hnd.
  { exists [], m. split_and!; [done|done|]. split_and!; [done| |done].
    intros cb sn Hin. by apply not_elem_of_nil in Hin. }
  csimpl in Hnd. rewrite fmap_app in Hnd. csimpl.
  destruct (run_write_spec op m Hg) as (log1 & m1 & -> & Hg1 & Hp1 & Hf1 & Ho1).
  { eapply sublist_NoDup; [exact Hnd|]. rewrite <-app_assoc. apply sublist_app; [done|]. by apply sublist_inserts_l. }
  assert (Hsub : (open_sessions m1).*1 ⊆+ (puts_of op).*1 ++ (open_sessions m).*1).
  { rewrite <-fmap_app, <-(reservation_sids (open_sessions m1)), <-(reservation_sids (puts_of op ++ _)), Hp1, fmap_app.
    by apply submseteq_inserts_l. }
  destruct (IH m1 Hg1) as (log2 & m2 & Hr2 & Hg2 & Hp2 & Hf2 & Ho2).
  { assert (Hperm : ((puts_of op).*1 ++ (ops ≫= puts_of).*1) ++ (open_sessions m).*1 ≡ₚ
      (ops ≫= puts_of).*1 ++ (puts_of op).*1 ++ (open_sessions m).*1) by solve_Permutation.
    rewrite Hperm in Hnd. apply submseteq_Permutation in Hsub as [l Hl]. rewrite Hl, app_assoc in Hnd.
    by apply NoDup_app in Hnd as [? _]. }
  csimpl. rewrite Hr2. csimpl. exists (log1 ++ log2), m2. split_and!; [done|done|].
  assert (Hmid : forall f, f ∈ (ops ≫= puts_of) ++ open_sessions m1 ->
    f ∈ (puts_of op ++ (ops ≫= puts_of)) ++ open_sessions m).
  { intros f Hf. apply elem_of_app in Hf as [Hf|Hf]; [rewrite !elem_of_app; auto|].
    apply Ho1, elem_of_app in Hf as [?|?]; rewrite !elem_of_app; auto. }
  split_and!.
  - rewrite !fmap_app in Hp1. rewrite !fmap_app in Hp2. rewrite !fmap_app, <-(app_assoc log1.*2), <-Hp2.
    transitivity ((reservation <$> (ops ≫= puts_of)) ++ ((reservation <$> puts_of op) ++ (reservation <$> open_sessions m)));
      [solve_Permutation|]. rewrite Hp1. solve_Permutation.
  - intros cb sn [Hin|Hin]%elem_of_app; [|auto].
    apply Hf1, elem_of_app in Hin as [?|?]; rewrite !elem_of_app; auto.
  - auto.
Qed.

Lemma good_init : good_manager init_manager.
Proof. split; [apply wf_empty_sessions|simpl; lia]. Qed.

(** C16: every write session ends exactly once. After any history of starts
    (with distinct session ids), finishes, expiry rounds and cleanups, the
    manager has not hit its internal assertion, and the sessions started are
    exactly those still open together with those that ended, each once: handed
    to the finishing client, or passed to the callback it was started with. A
    location id is reported as being written exactly while some open session
    holds it. *)
Theorem sessions_end_exactly_once (ops : list WriteOp) :
  NoDup (ops ≫= puts_of).*1 ->
  exists log m, run_writes ops init_manager = Some (log, m) /\
    reservation <$> (ops ≫= puts_of) ≡ₚ log.*2 ++ (reservation <$> open_sessions m) /\
    (forall cb sid info, (Some cb, (sid, info)) ∈ log -> (sid, (cb, info)) ∈ ops ≫= puts_of) /\
    (forall lid, HasLocationId lid (session_id_map_ m) = true <->
       exists sid cb info, (sid, (cb, info)) ∈ open_sessions m /\ lid ∈ wi_location_ids info).
Proof.
  intros Hnd. destruct (run_writes_spec ops init_manager good_init) as (log & m & Hr & [Hwf _] & Hp & Hf & _);
    [by rewrite app_nil_r|]. change (open_sessions init_manager) with (@nil (string * (CB * WriteLocationInfo))) in Hp, Hf.
  rewrite app_nil_r in Hp, Hf. exists log, m. split_and!; [done|done| |].
  - intros cb sid info Hin. by apply (Hf cb (sid, info)).
  - intros lid. rewrite HasLocationId_spec by done. split.
    + intros (u & Hu & Hl). exists (write_session_id u), (callback u), (write_location_info u). split; [|done].
      apply list_elem_of_fmap. eauto.
    + intros (sid & cb & info & Hin & Hl). apply list_elem_of_fmap in Hin as (u & [= -> -> ->] & Hu). eauto.
Qed.

(** An expiry round ends exactly the sessions that are due, in the order
    of their expiry points, and leaves the others; the thread never sleeps
    longer than the default period, and not beyond the next expiry point after
    a round that expired something. *)
Theorem expire_round_exact (ops : list WriteOp) log m cur due m' :
  NoDup (ops ≫= puts_of).*1 -> run_writes ops init_manager = Some (log, m) ->
  expire_round cur m = (due, m') ->
  due = filter (fun u => (expire_point u <= cur)%Z) (pending (session_id_map_ m)) /\
  pending (session_id_map_ m') = filter (fun u => (cur < expire_point u)%Z) (pending (session_id_map_ m)) /\
  StronglySorted Z.lt (expire_point <$> pending (session_id_map_ m)) /\
  (next_sleep_time_us_ m' <= kDefaultExpireLoopSleepTimeUs)%Z /\
  (due <> [] -> (0 <= cur)%Z ->
     forall u, u ∈ pending (session_id_map_ m') -> (cur + next_sleep_time_us_ m' <= expire_point u)%Z).
Proof.
  intros Hnd Hr He. destruct (run_writes_spec ops init_manager good_init) as (log0 & m0 & Hr0 & Hg & _);
    [by rewrite app_nil_r|]. rewrite Hr in Hr0. simplify_eq. pose proof Hg as [Hwf Hs]. clear Hr Hnd.
  assert (Hsorted : forall s : SessionIdMap CB, wf_sessions s -> StronglySorted Z.lt (expire_point <$> pending s)).
  { intros s [Hu Hp _ _ _]. unfold pending. rewrite <-list_fmap_compose.
    induction (unit_map_ s) as [|[p u] l IH]; [constructor|].
    apply om_wf_cons in Hu as [Hu Hall]. apply Forall_cons in Hp as [Hpu Hp]. csimpl. constructor; [by apply IH|].
    apply Forall_fmap, Forall_forall. intros [q v] Hin. rewrite Forall_forall in Hall, Hp.
    specialize (Hall _ Hin). specialize (Hp _ Hin). simpl in *. apply Z.ltb_lt in Hall. lia. }
  unfold expire_round in He. destruct (Empty (session_id_map_ m0)) eqn:Ee.
  { unfold Empty in Ee. apply Nat.eqb_eq, length_zero_iff_nil in Ee. simplify_eq.
    unfold pending. rewrite Ee. split_and!; [done|done|constructor|done|done]. }
  destruct (DropByExpirePoint cur (session_id_map_ m0)) as [[d next] s'] eqn:E.
  apply DropByExpirePoint_spec in E as (Hwf' & Heq & Hdue & Hrest & Hnext); [|done].
  assert (d = due /\ session_id_map_ m' = s') as [-> Hs'] by (destruct (0 <? next)%Z; by simplify_eq).
  rewrite Hs', Heq, !filter_app. split_and!.
  - rewrite (filter_all _ due), (filter_none _ (pending s')) by
      (eapply Forall_impl; [done|]; simpl; intros; lia). by rewrite app_nil_r.
  - rewrite (filter_none _ due), (filter_all _ (pending s')) by
      (eapply Forall_impl; [done|]; simpl; intros; lia). done.
  - rewrite <-Heq. by apply Hsorted.
  - destruct (0 <? next)%Z; injection He as <-; simpl; [lia|done].
  - intros Hne Hcur u Hu. apply Hsorted in Hwf'. rewrite Forall_forall in Hrest.
    destruct (pending s') as [|v rest] eqn:Ep; [by apply not_elem_of_nil in Hu|].
    assert (Hvu : (expire_point v <= expire_point u)%Z).
    { csimpl in Hwf'. apply elem_of_cons in Hu as [->|Hu]; [lia|]. apply StronglySorted_inv in Hwf' as [_ Hall].
      rewrite Forall_fmap, Forall_forall in Hall. specialize (Hall _ Hu). simpl in Hall. lia. }
    pose proof (Hrest v ltac:(left)) as Hv. simpl in Hv.
    destruct due as [|d0 due]; [done|]. simpl in Hnext. subst next.
    rewrite (proj2 (Z.ltb_lt _ _)) in He by lia. injection He as <-. simpl. lia.
Qed.

(** An expiry round that finds nothing due sets the sleep time to the
    default period although sessions are open, whatever shorter period a
    [Put] stored: the expiry of an open session can be noticed late by up to
    the default period. *)
Theorem idle_round_forgets_next_expiry cur (m : Manager) :
  unit_map_ (session_id_map_ m) <> [] -> Forall (fun pu => (cur < pu.1)%Z) (unit_map_ (session_id_map_ m)) ->
  expire_round cur m = ([], mkWriteManager (session_id_map_ m) kDefaultExpireLoopSleepTimeUs).
Proof.
  destruct m as [[sessions units index] sleep]. simpl. intros Hne Hall. unfold expire_round, Empty, DropByExpirePoint.
  simpl. destruct units as [|[p u] units]; [done|]. apply Forall_cons in Hall as [Hp _]. simpl in Hp |- *.
  rewrite (proj2 (Z.leb_gt _ _)) by lia. done.
Qed.

End histories.

(** Whatever other threads store between the attempts of the
    compare-exchange loop of [StoreMinNextSleepTimeUs], the value it stores is
    at most the value it replaces and at most the requested one, so a
    requested wake-up is never delayed; without interference it is their
    minimum; and the loop ends once an attempt sees the value of the previous
    one and does not fail spuriously. *)
Theorem store_min_lowers value expected attempts :
  (forall cell desired, store_min_loop expected (Z.min expected value) attempts = Some (cell, desired) ->
     cell ∈ attempts.*1 /\ (desired <= cell)%Z /\ (desired <= value)%Z /\
     (Forall (fun a => a.1 = expected) attempts -> desired = Z.min cell value)) /\
  (forall c sp l1 l2, attempts = l1 ++ (c, sp) :: (c, false) :: l2 ->
     is_Some (store_min_loop expected (Z.min expected value) attempts)).
Proof.
  split.
  - assert (Hgen : forall attempts expected desired cell out, (desired <= expected)%Z -> (desired <= value)%Z ->
      store_min_loop expected desired attempts = Some (cell, out) ->
      cell ∈ attempts.*1 /\ (out <= cell)%Z /\ (out <= value)%Z /\
      (Forall (fun a => a.1 = expected) attempts -> desired = Z.min expected value -> out = Z.min cell value)).
    { clear. induction attempts as [|[c sp] attempts IH]; intros expected desired cell out H1 H2 Hrun; [done|].
      simpl in Hrun. destruct ((c =? expected)%Z && negb sp) eqn:E.
      - apply andb_true_iff in E as [->%Z.eqb_eq _]. simplify_eq. split_and!; [by left|done|done|]. done.
      - apply IH in Hrun as (Hin & Ho1 & Ho2 & Heq); [|lia..]. split_and!; [by right|done|done|].
        intros Hall Hd. apply Forall_cons in Hall as [Hc Hall]. simpl in Hc. subst c. apply Heq; [done|lia]. }
    intros cell desired Hrun. apply Hgen in Hrun as (? & ? & ? & Heq); [|lia..]. split_and!; [done..|]. auto.
  - intros c sp l1 l2 ->. generalize (Z.min expected value). revert expected.
    induction l1 as [|[c' sp'] l1 IH]; intros expected desired; simpl.
    + destruct (_ && _); [by eexists|]. rewrite Z.eqb_refl. by eexists.
    + destruct (_ && _); [by eexists|]. apply IH.
Qed.

(** ** Examples *)

(** Two sessions sharing a location id and a third one; the first finishes,
    the second expires. *)
Definition sample_history : list (WriteOp (CB:=nat)) :=
  [WPut 100 "s1" 1 (mkInfo [1; 2]%Z ["a"; "b"]) 1; WPut 100 "s2" 2 (mkInfo [1]%Z ["a"]) 1;
   WPut 200 "s3" 3 (mkInfo [7]%Z ["c"]) 10; WFinish "s1"; WFinish "s1"; WExpire 1000101].

Lemma sample_history_distinct : NoDup (sample_history ≫= puts_of).*1.
Proof. by apply (bool_decide_unpack _); vm_compute. Qed.

Lemma sessions_end_exactly_once_witness :
  exists m, run_writes sample_history init_manager =
    Some ([(None, ("s1", mkInfo [1; 2]%Z ["a"; "b"])); (Some 2, ("s2", mkInfo [1]%Z ["a"]))], m) /\
  HasLocationId "a" (session_id_map_ m) = false /\ HasLocationId "c" (session_id_map_ m) = true.
Proof.
  destruct (sessions_end_exactly_once sample_history sample_history_distinct) as (log & m & Hr & _).
  exists m. vm_compute in Hr. injection Hr as <- <-. split_and!; vm_compute; reflexivity.
Defined.

Lemma expire_round_exact_witness :
  exists log m, run_writes (take 4 sample_history) init_manager = Some (log, m) /\
  write_session_id <$> (expire_round 1000101 m).1 = ["s2"] /\
  (next_sleep_time_us_ (expire_round 1000101 m).2 <= kDefaultExpireLoopSleepTimeUs)%Z.
Proof.
  eexists _, _. split; [vm_compute; reflexivity|]. split; [vm_compute; reflexivity|].
  eapply (expire_round_exact (take 4 sample_history) _ _ 1000101);
    [by apply (bool_decide_unpack _); vm_compute|vm_compute; reflexivity|apply surjective_pairing].
Defined.

Lemma idle_round_forgets_next_expiry_witness :
  let m := manager_Put 0 "s" [] [] 1 tt init_manager in
  next_sleep_time_us_ m = 1000000%Z /\ next_sleep_time_us_ (expire_round 500000 m).2 = 5000000%Z.
Proof.
  intros m. split; [vm_compute; reflexivity|]. rewrite (idle_round_forgets_next_expiry 500000 m); [done|done|].
  repeat constructor.
Defined.

Lemma store_min_lowers_witness :
  store_min_loop 100 (Z.min 100 70) [(100, true); (60, false); (60, false)]%Z = Some (60, 60)%Z /\ (60 <= 70)%Z.
Proof.
  split; [vm_compute; reflexivity|].
  refine (proj1 (proj2 (proj2 (proj1 (store_min_lowers 70 100 [(100, true); (60, false); (60, false)]%Z) 60%Z 60%Z _)))).
  vm_compute. reflexivity.
Defined.
