(* ===== verification/LocationPolicy.v ===== *)
(** * LocationPolicy: choosing among the locations of a block

    [manager/select_location_policy.{h,cc}]: the weighted policies that pick
    the location a reader is sent to and decide whether a block must be
    written again. The random generator is a state [G] and
    [std::discrete_distribution] a parameter [dist] that draws an index from a
    list of weights. An [std::unordered_map] is iterated in the order of
    [map_to_list]. The weight table of the static policies is one static
    array, kept as an explicit store. *)

From stdpp Require Import base gmap sets list strings.
From Stdlib Require Import ZArith Lia.
From S2P Require Import Prelude StandardUri MetaTypes.

(** An [std::function] that may be empty. *)
Abbreviation CheckLocDataExistFunc := (option (CacheLocation -> bool)).

Definition data_missing (check : CheckLocDataExistFunc) (l : CacheLocation) : bool :=
  match check with Some f => negb (f l) | None => false end.

Abbreviation Entry := (LocationId * CacheLocationConstPtr)%type.

(** The ids of serving locations whose data is gone; reported storage keeps
    its own books. *)
Definition prune_loc_id (check : CheckLocDataExistFunc) (kv : Entry) : option LocationId :=
  match kv.2 with
  | Some l => if bool_decide (status l = CLS_SERVING) && data_missing check l
                 && negb (IsEventReportStorageType (type l))
              then Some kv.1 else None
  | None => None
  end.

Definition prune_loc_ids (check : CheckLocDataExistFunc) (m : CacheLocationMap) : list LocationId :=
  omap (prune_loc_id check) (map_to_list m).

Definition covers_all (requested_spec_names : list string) (l : CacheLocation) : bool :=
  forallb (fun n => existsb (fun s => bool_decide (name s = n)) (location_specs l)) requested_spec_names.

Section weight_policy.
Context {G : Type}.
Variable dist : list Z -> G -> nat * G.
Variable GetWeight : Entry -> Z.

(** A serving location with its weight, when it takes part in the draw; the
    [uint32_t] weight is read as an [int32_t]. *)
Definition match_candidate (check : CheckLocDataExistFunc) (kv : Entry) : option (CacheLocation * Z) :=
  match kv.2 with
  | Some l =>
      if bool_decide (status l = CLS_SERVING) then
        if data_missing check l then None
        else if (0 <? i32 (GetWeight kv))%Z then Some (l, i32 (GetWeight kv)) else None
      else None
  | None => None
  end.

Definition SelectForMatch (check : CheckLocDataExistFunc) (m : CacheLocationMap) (g : G)
    : (CacheLocationConstPtr * list LocationId) * G :=
  match omap (match_candidate check) (map_to_list m) with
  | [] => ((Some empty_location, prune_loc_ids check m), g)
  | candidates => let '(i, g) := dist candidates.*2 g in ((candidates.*1 !! i, prune_loc_ids check m), g)
  end.

(** The locations that count as written or being written. *)
Definition counts_for_write (check : CheckLocDataExistFunc) (kv : Entry) : option CacheLocation :=
  match kv.2 with
  | Some l =>
      if bool_decide (status l = CLS_NOT_FOUND) then None
      else if bool_decide (status l = CLS_SERVING) && data_missing check l then None
      else Some l
  | None => None
  end.

Definition ExistsForWrite (check : CheckLocDataExistFunc) (m : CacheLocationMap) : bool * list LocationId :=
  (foldl (fun (found : bool) (kv : Entry) =>
     match counts_for_write check kv with
     | Some _ => if negb found && (0 <? GetWeight kv)%Z then true else found
     | None => found
     end) false (map_to_list m),
   prune_loc_ids check m).

(** The overload that names the specs to be covered. *)
Definition ExistsForWriteSpecs (requested_spec_names : list string) (check : CheckLocDataExistFunc)
    (m : CacheLocationMap) : bool * list LocationId :=
  if bool_decide (requested_spec_names = []) then ExistsForWrite check m
  else
    (foldl (fun (found : bool) (kv : Entry) =>
       match counts_for_write check kv with
       | Some l =>
           if found then found
           else if (GetWeight kv <=? 0)%Z then found
           else if covers_all requested_spec_names l then true else found
       | None => found
       end) false (map_to_list m),
     prune_loc_ids check m).

Definition ExistsForWriteWithMinCount (min_count : Z) (requested_spec_names : list string)
    (check : CheckLocDataExistFunc) (m : CacheLocationMap) : bool * list LocationId :=
  let count :=
    foldl (fun (count : Z) (kv : Entry) =>
      match counts_for_write check kv with
      | Some l =>
          if (min_count <=? count)%Z then count
          else if (GetWeight kv =? 0)%Z then count
          else if covers_all requested_spec_names l then (count + 1)%Z else count
      | None => count
      end) 0%Z (map_to_list m) in
  ((min_count <=? count)%Z, prune_loc_ids check m).

End weight_policy.

(** ** The policies *)

(** [StorageTypeWeights], in the order of the enumeration. *)
Definition initial_storage_weights : list Z := [1; 3; 3; 3; 5; 3; 1; 10; 10; 3]%Z.

Inductive WeightPolicy :=
| StaticWeightSLPolicy
| DynamicWeightSLPoliy (weight_array_ : list Z)
| NamedStorageWeightedSLPolicy (weight_map_ : gmap chars Z).

(** [StaticWeightSLPolicy::default_storage_weights_], the only array
    [storage_weights_] refers to. *)
Record PolicyStore := mkPolicyStore { default_storage_weights_ : list Z }.

(** The constructor assigns through the reference [storage_weights_]. *)
Definition make_dynamic (weight_array : list Z) (store : PolicyStore) : WeightPolicy * PolicyStore :=
  (DynamicWeightSLPoliy weight_array, mkPolicyStore weight_array).

Definition StaticGetWeight (store : PolicyStore) (kv : Entry) : Z :=
  match kv.2 with
  | None => 0
  | Some l => default 1%Z (default_storage_weights_ store !! ToIndex (type l))
  end.

Definition NamedGetWeight (weight_map : gmap chars Z) (kv : Entry) : Z :=
  match kv.2 with
  | None => 0
  | Some l =>
      match location_specs l with
      | [] => 0
      | s :: _ => default 0%Z (weight_map !! GetHostPort (Parse (chars_of (uri s))).1)
      end
  end.

Definition GetWeight (store : PolicyStore) (p : WeightPolicy) (kv : Entry) : Z :=
  match p with
  | StaticWeightSLPolicy | DynamicWeightSLPoliy _ => StaticGetWeight store kv
  | NamedStorageWeightedSLPolicy weight_map => NamedGetWeight weight_map kv
  end.

Definition IsSameDataStorage (candidate reference : CacheLocation) : bool :=
  if negb (bool_decide (type candidate = type reference)) then false
  else match location_specs candidate, location_specs reference with
       | s :: _, r :: _ =>
           bool_decide (GetHostPort (Parse (chars_of (uri s))).1 = GetHostPort (Parse (chars_of (uri r))).1)
       | [], [] => true
       | _, _ => false
       end.

(** ** The policy of an instance *)

(** The registry as [genSelectLocationPolicy] reads it: a name's backend by
    its storage type; the candidates of the instance's group ([None] when the
    instance or its group is unknown). *)
Record StorageView := mkStorageView {
  all_storages : list string;
  backend_type : string -> option DataStorageType;
  all_available_storages : list (string * DataStorageType);
  storage_candidates : option (list string);
}.

Definition group_storages (v : StorageView) (candidates : list string) : list (string * DataStorageType) :=
  omap (fun c => if bool_decide (c ∈ all_storages v) then (fun t => (c, t)) <$> backend_type v c else None) candidates.

Definition group_available_storages (v : StorageView) (candidates : list string) : list (string * DataStorageType) :=
  omap (fun c => snd <$> list_find (fun b => b.1 = c) (all_available_storages v)) candidates.

(** The weights of a group whose storages all have different types. *)
Definition available_weights (available : list (string * DataStorageType)) : list Z :=
  foldl (fun w b => <[ToIndex b.2 := 1%Z]> w) (replicate storage_type_COUNT 0%Z) available.

Definition genSelectLocationPolicy (v : StorageView) (store : PolicyStore) : option WeightPolicy * PolicyStore :=
  if (length (all_storages v) <=? length (all_available_storages v))%nat then (Some StaticWeightSLPolicy, store)
  else
    match storage_candidates v with
    | None => (None, store)
    | Some candidates =>
        let storages := group_storages v candidates in
        let available := group_available_storages v candidates in
        if (length storages <=? length available)%nat then (Some StaticWeightSLPolicy, store)
        else match available with
             | [] => (None, store)
             | _ =>
                 if bool_decide (NoDup storages.*2)
                 then let '(p, store) := make_dynamic (available_weights available) store in (Some p, store)
                 else (Some (NamedStorageWeightedSLPolicy
                               (list_to_map ((fun b => (chars_of b.1, 1%Z)) <$> available))), store)
             end
    end.

(** ** What the policies guarantee *)

Section policy_spec.
Context {G : Type} (dist : list Z -> G -> nat * G) (weight : Entry -> Z).
Hypothesis dist_in_range : forall ws g, ws <> [] -> (dist ws g).1 < length ws.

(** A location a reader may be sent to. *)
Definition readable (check : CheckLocDataExistFunc) (i : LocationId) (l : CacheLocation) : Prop :=
  status l = CLS_SERVING /\ data_missing check l = false /\ (0 < i32 (weight (i, Some l)))%Z.

Lemma match_candidate_Some check i p l w :
  match_candidate weight check (i, p) = Some (l, w) <-> p = Some l /\ w = i32 (weight (i, p)) /\ readable check i l.
Proof.
  unfold match_candidate, readable. simpl. destruct p as [l'|]; [|by split; [|intros [? _]]].
  case_bool_decide as Hs; [|split; [done|intros ([= ->] & _ & ? & _); done]].
  destruct (data_missing check l') eqn:Ed; [split; [done|intros ([= ->] & _ & _ & ? & _); congruence]|].
  destruct (Z.ltb_spec 0 (i32 (weight (i, Some l')))) as [Hw|Hw].
  - split; [by intros [= <- <-]|]. by intros ([= ->] & -> & _).
  - split; [done|]. intros ([= ->] & _ & _ & _ & ?). lia.
Qed.

Lemma elem_of_prune check m i :
  i ∈ prune_loc_ids check m <->
  exists l, m !! i = Some (Some l) /\ status l = CLS_SERVING /\ data_missing check l = true /\
    IsEventReportStorageType (type l) = false.
Proof.
  unfold prune_loc_ids. rewrite list_elem_of_omap. split.
  - intros ([j p] & Hin%elem_of_map_to_list & Hp). unfold prune_loc_id in Hp. simpl in Hp.
    destruct p as [l|]; [|done]. destruct (_ && _) eqn:E; [|done]. reflect_bools. simplify_eq. eauto.
  - intros (l & Hm & Hs & Hd & He). exists (i, Some l). split; [by apply elem_of_map_to_list|].
    unfold prune_loc_id. simpl. by rewrite bool_decide_eq_true_2, Hd, He.
Qed.

Lemma elem_of_candidates check m l :
  l ∈ (omap (match_candidate weight check) (map_to_list m)).*1 <->
  exists i, m !! i = Some (Some l) /\ readable check i l.
Proof.
  rewrite list_elem_of_fmap. split.
  - intros ([l' w] & -> & Hin). apply list_elem_of_omap in Hin as ([i p] & Hin%elem_of_map_to_list & Hc).
    apply match_candidate_Some in Hc as (-> & _ & Hr). eauto.
  - intros (i & Hm & Hr). exists (l, i32 (weight (i, Some l))). split; [done|]. apply list_elem_of_omap.
    exists (i, Some l). split; [by apply elem_of_map_to_list|]. by apply match_candidate_Some.
Qed.

(** A reader is sent to a location that can serve it: [SelectForMatch]
    returns a stored location that is serving, whose data is not known to be
    gone and whose weight is positive, whenever there is one, and the empty
    location otherwise; and it reports for pruning exactly the serving
    locations whose data is gone, those of reported storage excepted. *)
Theorem SelectForMatch_sound check m g loc prune g' :
  SelectForMatch dist weight check m g = ((loc, prune), g') ->
  (forall i, i ∈ prune <-> exists l, m !! i = Some (Some l) /\ status l = CLS_SERVING /\
     data_missing check l = true /\ IsEventReportStorageType (type l) = false) /\
  ((exists i l, loc = Some l /\ m !! i = Some (Some l) /\ readable check i l) \/
   (loc = Some empty_location /\ forall i l, m !! i = Some (Some l) -> ~ readable check i l)).
Proof.
  unfold SelectForMatch. pose proof (elem_of_candidates check m) as Hc.
  destruct (omap _ _) as [|[l0 w0] cands] eqn:E.
  - intros [= <- <- <-]. split; [apply elem_of_prune|]. right. split; [done|]. intros i l Hm Hr.
    apply (not_elem_of_nil l). apply Hc. eauto.
  - remember ((l0, w0) :: cands) as cs eqn:Hcs. assert (Hne : cs.*2 <> []) by (by rewrite Hcs). clear Hcs E.
    pose proof (dist_in_range cs.*2 g Hne) as Hlt. rewrite length_fmap in Hlt.
    destruct (dist cs.*2 g) as [i g1]. intros [= <- <- <-]. split; [apply elem_of_prune|]. left.
    destruct (lookup_lt_is_Some_2 cs.*1 i) as [l Hl]; [by rewrite length_fmap|].
    destruct (proj1 (Hc l)) as (j & Hm & Hr); [by eapply list_elem_of_lookup_2|]. by exists j, l.
Qed.

(** *** Writing again *)

(** The locations that make a write of the named specs unnecessary. *)
Definition written (names : list string) (check : CheckLocDataExistFunc) (kv : Entry) : bool :=
  match counts_for_write check kv with
  | Some l => (0 <? weight kv)%Z && covers_all names l
  | None => false
  end.

Definition written_count (names : list string) (check : CheckLocDataExistFunc) (m : CacheLocationMap) : nat :=
  length (filter (fun kv => written names check kv = true) (map_to_list m)).

Lemma exists_fold (f : Entry -> bool) (step : bool -> Entry -> bool) l :
  (forall b kv, step b kv = b || f kv) -> forall b,
  foldl step b l = b || (0 <? length (filter (fun kv => f kv = true) l))%nat.
Proof.
  intros Hs. induction l as [|kv l IH]; intros b; [simpl; by rewrite orb_false_r|]. cbn [foldl].
  rewrite IH, Hs, filter_cons. destruct (f kv); [|by rewrite orb_false_r].
  rewrite decide_True by done. simpl. by rewrite !orb_true_r.
Qed.

Lemma count_fold min_count names check (l : list Entry) : (forall kv, 0 <= weight kv)%Z -> forall c,
  foldl (fun (count : Z) (kv : Entry) =>
      match counts_for_write check kv with
      | Some l =>
          if (min_count <=? count)%Z then count
          else if (weight kv =? 0)%Z then count
          else if covers_all names l then (count + 1)%Z else count
      | None => count
      end) c l =
  Z.max c (Z.min min_count (c + Z.of_nat (length (filter (fun kv => written names check kv = true) l)))).
Proof.
  intros Hw. induction l as [|kv l IH]; intros c; [simpl; lia|]. cbn [foldl]. rewrite IH, filter_cons.
  unfold written. specialize (Hw kv). destruct (counts_for_write check kv) as [l0|]; [|by rewrite decide_False].
  destruct (Z.leb_spec min_count c) as [Hm|Hm].
  - destruct (decide _); simpl; lia.
  - destruct (Z.eqb_spec (weight kv) 0) as [E0|E0].
    + rewrite E0. change (0 <? 0)%Z with false. cbn [andb]. by rewrite decide_False.
    + rewrite (proj2 (Z.ltb_lt 0 (weight kv))) by lia. cbn [andb]. destruct (covers_all names l0);
        [rewrite decide_True by done|rewrite decide_False by done]; simpl; lia.
Qed.

(** The three checks against one count of the locations that matter. *)
Lemma exists_for_write_counts min_count names check m :
  (forall kv, 0 <= weight kv)%Z ->
  ExistsForWrite weight check m = ((0 <? written_count [] check m)%nat, prune_loc_ids check m) /\
  ExistsForWriteSpecs weight names check m = ((0 <? written_count names check m)%nat, prune_loc_ids check m) /\
  ExistsForWriteWithMinCount weight min_count names check m =
    ((min_count <=? Z.of_nat (written_count names check m))%Z, prune_loc_ids check m).
Proof.
  intros Hw. assert (Hb : ExistsForWrite weight check m = ((0 <? written_count [] check m)%nat, prune_loc_ids check m)).
  { unfold ExistsForWrite, written_count. f_equal. rewrite (exists_fold (written [] check)); [done|].
    intros b kv. unfold written. destruct (counts_for_write check kv), b, (0 <? weight kv)%Z; done. }
  split_and!; [done| |].
  - unfold ExistsForWriteSpecs. case_bool_decide as Hn; [by rewrite Hn|]. unfold written_count. f_equal.
    rewrite (exists_fold (written names check)); [done|]. intros b kv. unfold written.
    destruct (counts_for_write check kv) as [l|], b; try done. simpl. rewrite Z.leb_antisym.
    by destruct (0 <? weight kv)%Z, (covers_all names l).
  - unfold ExistsForWriteWithMinCount. rewrite count_fold by done. f_equal.
    fold (written_count names check m). apply Bool.eq_iff_eq_true. rewrite !Z.leb_le. lia.
Qed.

(** The three "does it exist for writing" checks agree: each scans once
    and stops counting early, yet the block-level one holds exactly when some
    counted location exists, the spec-aware one exactly when some counted
    location covers all requested specs (naming no spec asks for any), and the
    counting one exactly when at least [min_count] do; and all of them report
    the same locations for pruning. *)
Theorem exists_for_write_agree min_count names check m :
  (forall kv, 0 <= weight kv)%Z ->
  ExistsForWrite weight check m = ((0 <? written_count [] check m)%nat, prune_loc_ids check m) /\
  ExistsForWriteSpecs weight names check m = ((0 <? written_count names check m)%nat, prune_loc_ids check m) /\
  ExistsForWriteWithMinCount weight min_count names check m =
    ((min_count <=? Z.of_nat (written_count names check m))%Z, prune_loc_ids check m).
Proof. apply exists_for_write_counts. Qed.

End policy_spec.

(** ** The shared weight table *)

Lemma available_weights_lookup available t :
  t ∉ available.*2 -> available_weights available !! ToIndex t = Some 0%Z.
Proof.
  unfold available_weights. intros Hni.
  assert (H0 : replicate storage_type_COUNT 0%Z !! ToIndex t = Some 0%Z)
    by (apply lookup_replicate_2, ToIndex_lt).
  revert H0. generalize (replicate storage_type_COUNT 0%Z).
  induction available as [|[n t'] av IH]; intros w H0; [done|]. csimpl in *. apply not_elem_of_cons in Hni as [Hne Hni].
  apply IH; [done|]. rewrite list_lookup_insert_ne; [done|]. intros Heq. by apply Hne, (inj ToIndex).
Qed.

(** The weights computed for one instance group during an outage stay in
    force for everybody: [DynamicWeightSLPoliy] assigns through a reference to
    the static default table, so from then on the static policy, which every
    group gets once its storages are available again, gives weight zero to all
    storage types that were not available to that group then; a block stored
    only in such types is never matched, although its locations serve. *)
Theorem outage_disables_other_storage_types {G} (dist : list Z -> G -> nat * G) v candidates store w store' check m g :
  storage_candidates v = Some candidates ->
  genSelectLocationPolicy v store = (Some (DynamicWeightSLPoliy w), store') ->
  (forall i l, m !! i = Some (Some l) -> type l ∉ (group_available_storages v candidates).*2) ->
  (SelectForMatch dist (GetWeight store' StaticWeightSLPolicy) check m g).1.1 = Some empty_location.
Proof.
  intros Hv Hgen Hm. unfold genSelectLocationPolicy in Hgen. rewrite Hv in Hgen.
  destruct (_ <=? _)%nat; [done|]. destruct (_ <=? _)%nat; [done|].
  remember (group_available_storages v candidates) as av eqn:Hav. clear Hav.
  destruct av as [|a av]; [done|]. remember (a :: av) as avs eqn:Heq. clear Heq a av.
  case_bool_decide; [|done]. simpl in Hgen. injection Hgen as _ <-. unfold SelectForMatch.
  assert (Hnil : omap (match_candidate (GetWeight (mkPolicyStore (available_weights avs)) StaticWeightSLPolicy) check)
    (map_to_list m) = []).
  { apply elem_of_nil_inv. intros [l w'] Hin.
    apply list_elem_of_omap in Hin as ([i p] & Hin%elem_of_map_to_list & Hc).
    apply match_candidate_Some in Hc as (-> & _ & _ & _ & Hw). simpl in Hw. unfold StaticGetWeight in Hw. simpl in Hw.
    rewrite available_weights_lookup in Hw by eauto. done. }
  by rewrite Hnil.
Qed.

(** ** Examples *)

Definition sample_loc (i : LocationId) (s : CacheLocationStatus) (t : DataStorageType) : CacheLocation :=
  make_location i s t 1 [mkLocationSpec "tp0" "file://h/p"].

Definition sample_map : CacheLocationMap :=
  {[ "a" := Some (sample_loc "a" CLS_SERVING DATA_STORAGE_TYPE_NFS);
     "b" := Some (sample_loc "b" CLS_SERVING DATA_STORAGE_TYPE_MOONCAKE);
     "c" := Some (sample_loc "c" CLS_WRITING DATA_STORAGE_TYPE_NFS) ]}.

(** A generator that always draws the first candidate. *)
Definition first_dist (_ : list Z) (g : unit) : nat * unit := (0, g).

Definition initial_store : PolicyStore := mkPolicyStore initial_storage_weights.

Lemma SelectForMatch_sound_witness :
  let check : CheckLocDataExistFunc := Some (fun l => negb (bool_decide (id l = "b"))) in
  let out := SelectForMatch first_dist (GetWeight initial_store StaticWeightSLPolicy) check sample_map tt in
  out.1.1 = Some (sample_loc "a" CLS_SERVING DATA_STORAGE_TYPE_NFS) /\ "b" ∈ out.1.2.
Proof.
  intros check out. split; [vm_compute; reflexivity|]. destruct out as [[loc prune] g'] eqn:E.
  assert (Hd : forall ws (g : unit), ws <> [] -> (first_dist ws g).1 < length ws)
    by (intros [|w ws] g Hne; [done|simpl; lia]).
  apply (SelectForMatch_sound first_dist (GetWeight initial_store StaticWeightSLPolicy) Hd check sample_map tt _ _ _ E).
  exists (sample_loc "b" CLS_SERVING DATA_STORAGE_TYPE_MOONCAKE). vm_compute. done.
Defined.

Lemma exists_for_write_agree_witness :
  let w := GetWeight initial_store StaticWeightSLPolicy in
  (forall kv, 0 <= w kv)%Z /\
  ExistsForWriteWithMinCount w 3 ["tp0"] None sample_map = (true, []) /\
  (ExistsForWriteWithMinCount w 4 ["tp0"] None sample_map).1 = false /\
  (ExistsForWriteSpecs w ["tp1"] None sample_map).1 = false.
Proof.
  intros w. assert (Hw : (forall kv, 0 <= w kv)%Z).
  { intros [i [l|]]; [|done]. unfold w. simpl. unfold StaticGetWeight. simpl. destruct (type l); simpl; lia. }
  split; [done|].
  destruct (exists_for_write_agree w 3 ["tp0"] None sample_map Hw) as (_ & _ & ->).
  destruct (exists_for_write_agree w 4 ["tp0"] None sample_map Hw) as (_ & _ & ->).
  destruct (exists_for_write_agree w 4 ["tp1"] None sample_map Hw) as (_ & -> & _).
  split_and!; vm_compute; reflexivity.
Defined.

(** One of the two storages of a group is down. *)
Definition sample_outage : StorageView :=
  mkStorageView ["nfs"; "mc"]
    (fun n => if bool_decide (n = "nfs") then Some DATA_STORAGE_TYPE_NFS else Some DATA_STORAGE_TYPE_MOONCAKE)
    [("nfs", DATA_STORAGE_TYPE_NFS)] (Some ["nfs"; "mc"]).

(** A serving location of the other type, matched before the outage and not
    after it. *)
Lemma outage_disables_other_storage_types_witness :
  let m : CacheLocationMap := {[ "b" := Some (sample_loc "b" CLS_SERVING DATA_STORAGE_TYPE_MOONCAKE) ]} in
  (SelectForMatch first_dist (GetWeight initial_store StaticWeightSLPolicy) None m tt).1.1 =
    Some (sample_loc "b" CLS_SERVING DATA_STORAGE_TYPE_MOONCAKE) /\
  let store' := (genSelectLocationPolicy sample_outage initial_store).2 in
  (SelectForMatch first_dist (GetWeight store' StaticWeightSLPolicy) None m tt).1.1 = Some empty_location.
Proof.
  intros m. split; [vm_compute; reflexivity|]. intros store'.
  eapply (outage_disables_other_storage_types first_dist sample_outage ["nfs"; "mc"] initial_store _ store' None m tt).
  - reflexivity.
  - vm_compute. reflexivity.
  - intros i l Hl. unfold m in Hl. apply lookup_singleton_Some in Hl as [_ [= <-]].
    vm_compute. intros Hin. inversion Hin as [|? ? ? Hin']. inversion Hin'.
Defined.
