(* ===== verification/MetaMatch.v ===== *)
(** * MetaMatch: the read side of [manager/meta_searcher.cc]

    The searcher reads the locations of the requested blocks through the
    indexer, picks a storage per block with the weighted policy, merges the
    specs of that storage, and answers a prefix, a batch or a sliding-window
    query; locations whose data is gone are submitted for deletion. The
    policy's weights and its random draw are the parameters of
    [LocationPolicy]. *)

From stdpp Require Import base gmap sets list strings sorting.
From Stdlib Require Import ZArith Lia.
From S2P Require Import Prelude StandardUri MetaTypes MetaBackend DummyBackend LocalBackend BackendManager MetaIndexer LocationPolicy.

(** ** Merging specs by name *)

(** Replaces the first spec of that name, or appends. *)
Fixpoint upsert_spec (s : LocationSpec) (specs : list LocationSpec) : list LocationSpec :=
  match specs with
  | [] => [s]
  | s' :: specs => if bool_decide (name s' = name s) then s :: specs else s' :: upsert_spec s specs
  end.

(** The order of the final sort. *)
Definition spec_le (a b : LocationSpec) : Prop := chars_ltb (chars_of (name b)) (chars_of (name a)) = false.

#[global] Instance spec_le_dec : RelDecision spec_le.
Proof. intros a b. unfold spec_le. apply _. Defined.

(** [MergeLocationSpecsByName]; the specs of the task are its [SpecAt]s. *)
Definition MergeLocationSpecsByName (merged_specs task_specs : list LocationSpec) : list LocationSpec :=
  let unique := foldl (fun acc s => upsert_spec s acc) [] merged_specs in
  merge_sort spec_le (foldl (fun acc s => upsert_spec s acc) unique task_specs).

(** ** Selecting and merging the locations of a block *)

(** [FilterValidLocations]: the serving locations whose data is there, and
    the ids to prune. *)
Definition is_valid (check : CheckLocDataExistFunc) (p : CacheLocationConstPtr) : bool :=
  match p with
  | Some l => bool_decide (status l = CLS_SERVING) && negb (data_missing check l)
  | None => false
  end.

Definition FilterValidLocations (check : CheckLocDataExistFunc) (m : CacheLocationMap)
    : CacheLocationMap * list LocationId :=
  (filter (fun kv : Entry => is_valid check kv.2 = true) m, prune_loc_ids check m).

(** [try_emplace] of every spec of a location into the map by name. *)
Definition emplace_specs (specs : list LocationSpec) (acc : list (chars * LocationSpec)) : list (chars * LocationSpec) :=
  foldl (fun acc s =>
    match om_find chars_ltb (chars_of (name s)) acc with
    | Some _ => acc
    | None => om_set chars_ltb (chars_of (name s)) s acc
    end) acc specs.

(** The specs of the valid locations in the winner's storage, one per name. *)
Definition merged_specs (valid : CacheLocationMap) (winner : CacheLocation) : list LocationSpec :=
  (foldl (fun acc (kv : Entry) =>
     match kv.2 with
     | Some l => if IsSameDataStorage l winner then emplace_specs (location_specs l) acc else acc
     | None => acc
     end) [] (map_to_list valid)).*2.

Section match_query.
Context {G PT CT : Type} `{PB : !MetaStorageBackend PT} `{CB : !MetaCacheBaseBackend CT}.
Variable dist : list Z -> G -> nat * G.
Variable weight : Entry -> Z.
Variable check_loc_data_exist_func_ : CheckLocDataExistFunc.
Local Abbreviation Indexer := (MetaIndexer PT CT).
Local Abbreviation check := check_loc_data_exist_func_.

Definition SelectAndMergeForMatch (m : CacheLocationMap) (g : G) : (CacheLocation * list LocationId) * G :=
  let '(valid, prune) := FilterValidLocations check m in
  if bool_decide (valid = ∅) then ((empty_location, prune), g)
  else
    let '((winner, _), g) := SelectForMatch dist weight None valid g in
    match winner with
    | None => ((empty_location, prune), g)
    | Some winner =>
        match location_specs winner with
        | [] => ((empty_location, prune), g)
        | _ =>
            match merged_specs valid winner with
            | [] => ((empty_location, prune), g)
            | specs =>
                ((set_location_specs specs
                    (mkCacheLocation (id winner +:+ "_merged") CLS_SERVING (type winner) (Z.of_nat (length specs)) 0 []
                       kUnknownValidatedTotalSize), prune), g)
            end
        end
    end.

(** [MetaIndexer::GetLocations] of whole blocks. *)
Definition GetLocations (keys : list KeyType) (x : Indexer) : Result * list CacheLocationMap * Indexer :=
  match keys with
  | [] => (mkResult EC_OK [], [], x)
  | _ =>
      let '((codes, maps), m) := BackendManager.GetLocations keys (backend_manager_ x) in
      let '(codes, maps) :=
        if wrong_size codes keys || wrong_size maps keys
        then (replicate (length keys) EC_MISMATCH, replicate (length keys) ∅) else (codes, maps) in
      let '(error_count, result) :=
        ProcessErrorCodes codes [] (length keys) (mkResult EC_OK (all_codes keys EC_OK)) in
      (ProcessErrorResult error_count (length keys) result, maps, with_manager m x)
  end.

(** A key with its read code and its locations. *)
Abbreviation Row := (KeyType * (ErrorCode * CacheLocationMap))%type.

Definition rows_of (keys : list KeyType) (result : Result) (maps : list CacheLocationMap) : list Row :=
  zip keys (zip (error_codes result) maps).

(** Deletions to submit: keys with the location ids to drop. *)
Abbreviation Prune := (list (KeyType * list LocationId)).

Definition prune_row (k : KeyType) (ids : list LocationId) : Prune :=
  match ids with [] => [] | _ => [(k, ids)] end.

(** [submit_del_req_func_] is called only with something to delete. *)
Definition submitted (has_submit : bool) (p : Prune) : option Prune :=
  match p with [] => None | _ => if has_submit then Some p else None end.

(** The matching loop: the locations found, what to prune, the rows after
    the one that ended the match. *)
Fixpoint prefix_loop (rows : list Row) (g : G) : (list CacheLocation * Prune * list Row) * G :=
  match rows with
  | [] => (([], [], []), g)
  | (k, (ec, m)) :: rows =>
      if bool_decide (ec <> EC_OK) then (([], [], rows), g)
      else if bool_decide (m = ∅) then (([], [], rows), g)
      else
        let '((merged, ids), g) := SelectAndMergeForMatch m g in
        match location_specs merged with
        | [] => (([], prune_row k ids, rows), g)
        | _ =>
            let '((out, prune, rest), g) := prefix_loop rows g in
            ((merged :: out, prune_row k ids ++ prune, rest), g)
        end
  end.

(** The rest of the rows is only looked at for deletions. *)
Fixpoint prune_rest (rows : list Row) (g : G) : Prune * G :=
  match rows with
  | [] => ([], g)
  | (k, (ec, m)) :: rows =>
      if bool_decide (ec <> EC_OK) || bool_decide (m = ∅) then prune_rest rows g
      else
        let '((_, ids), g) := SelectForMatch dist weight check m g in
        let '(p, g) := prune_rest rows g in (prune_row k ids ++ p, g)
  end.

Definition PrefixMatchBestLocationImpl (has_submit : bool) (keys : list KeyType) (x : Indexer) (g : G)
    : (list CacheLocation * option Prune) * Indexer * G :=
  let '(result, maps, x) := GetLocations keys x in
  let '((out, prune, rest), g) := prefix_loop (rows_of keys result maps) g in
  match prune with
  | [] => ((out, None), x, g)
  | _ =>
      let '(more, g) := prune_rest rest g in
      ((out, submitted has_submit (prune ++ more)), x, g)
  end.

(** The keys outside the mask. *)
Definition query_keys (keys : list KeyType) (input_mask : BlockMask) : list KeyType :=
  (filter (fun ik => IsIndexInMaskRange input_mask ik.1 = false) (imap pair keys)).*2.

(** [out] is left as it was when nothing is queried. *)
Definition PrefixMatch (has_submit : bool) (keys : list KeyType) (input_mask : BlockMask) (out : list CacheLocation)
    (x : Indexer) (g : G) : (list CacheLocation * option Prune) * Indexer * G :=
  match query_keys keys input_mask with
  | [] => ((out, None), x, g)
  | ks => PrefixMatchBestLocationImpl has_submit ks x g
  end.

Fixpoint batch_loop (rows : list Row) (g : G) : (list CacheLocation * Prune) * G :=
  match rows with
  | [] => (([], []), g)
  | (k, (ec, m)) :: rows =>
      if bool_decide (ec = EC_NOENT)
      then let '((out, p), g) := batch_loop rows g in ((empty_location :: out, p), g)
      else if bool_decide (ec <> EC_OK) then (([], []), g)
      else if bool_decide (m = ∅)
      then let '((out, p), g) := batch_loop rows g in ((empty_location :: out, p), g)
      else
        let '((merged, ids), g) := SelectAndMergeForMatch m g in
        let '((out, p), g) := batch_loop rows g in
        (((match location_specs merged with [] => empty_location | _ => merged end) :: out, prune_row k ids ++ p), g)
  end.

Definition BatchGetBestLocation (has_submit : bool) (keys : list KeyType) (x : Indexer) (g : G)
    : (ErrorCode * list CacheLocation * option Prune) * Indexer * G :=
  let '(result, maps, x) := GetLocations keys x in
  let '((out, prune), g) := batch_loop (rows_of keys result maps) g in
  ((if (length out =? length keys)%nat then EC_OK else EC_ERROR, out, submitted has_submit prune), x, g).

Definition BatchGetLocation (keys : list KeyType) (input_mask : BlockMask) (x : Indexer)
    : list CacheLocationMap * Indexer :=
  match query_keys keys input_mask with
  | [] => ([], x)
  | ks => let '(_, maps, x) := GetLocations ks x in (maps, x)
  end.

(** *** The sliding window *)

(** The offset of the first read of the window that failed. *)
Definition failed_read (codes : list ErrorCode) : option nat :=
  fst <$> list_find (fun ec => ec <> EC_OK) codes.

(** Selecting the locations of a window; stops at the first block without one. *)
Fixpoint window_loop (offset : nat) (rows : list (KeyType * CacheLocationMap)) (g : G)
    : ((nat + list CacheLocation) * Prune) * G :=
  match rows with
  | [] => ((inr [], []), g)
  | (k, m) :: rows =>
      if bool_decide (m = ∅) then ((inl offset, []), g)
      else
        let '((merged, ids), g) := SelectAndMergeForMatch m g in
        match location_specs merged with
        | [] => ((inl offset, prune_row k ids), g)
        | _ =>
            let '((r, p), g) := window_loop (S offset) rows g in
            ((match r with inl o => inl o | inr out => inr (merged :: out) end, prune_row k ids ++ p), g)
        end
  end.

(** The windows from [base] down; [None] when the fuel runs out. *)
Fixpoint slide (fuel : nat) (rows : list Row) (sw_size : nat) (base : Z) (g : G)
    : option ((option (nat * list CacheLocation) * Prune) * G) :=
  match fuel with
  | O => None
  | S fuel =>
      if (base <? 0)%Z then Some ((None, []), g)
      else
        let window := take sw_size (drop (Z.to_nat base) rows) in
        match failed_read ((fun r => r.2.1) <$> window) with
        | Some offset => slide fuel rows sw_size (base - (Z.of_nat sw_size - Z.of_nat offset)) g
        | None =>
            let '((r, p), g) := window_loop 0 ((fun r => (r.1, r.2.2)) <$> window) g in
            match r with
            | inr out => Some ((Some (Z.to_nat base, out), p), g)
            | inl offset =>
                '((found, p'), g) ← slide fuel rows sw_size (base - (Z.of_nat sw_size - Z.of_nat offset)) g;
                Some ((found, p ++ p'), g)
            end
        end
  end.

(** Fuel: the base decreases with every window and starts below [length keys]. *)
Definition ReverseRollSlideWindowMatch (has_submit : bool) (keys : list KeyType) (sw_size : nat) (x : Indexer) (g : G)
    : option ((list CacheLocation * option Prune) * Indexer * G) :=
  let '(result, maps, x) := GetLocations keys x in
  '((found, prune), g) ← slide (S (S (length keys))) (rows_of keys result maps) sw_size
                           (Z.of_nat (length keys) - Z.of_nat sw_size) g;
  let out := replicate (length keys) empty_location in
  let out := match found with
             | Some (base, locs) => take base out ++ locs ++ drop (base + length locs) out
             | None => out
             end in
  Some ((out, submitted has_submit prune), x, g).

End match_query.

(** ** Merging by name is the ordered map *)

Section merge_by_name.
Implicit Types (s : LocationSpec) (l : list LocationSpec).

Definition spec_key s : chars := chars_of (name s).
Definition spec_entry s : chars * LocationSpec := (spec_key s, s).

#[local] Instance spec_le_total : Total spec_le.
Proof.
  intros a b. unfold spec_le. destruct (chars_ltb (chars_of (name b)) (chars_of (name a))) eqn:E; [right|by left].
  by apply (ltb_asym chars_ltb).
Qed.

#[local] Instance spec_le_trans : Transitive spec_le.
Proof.
  intros a b c. unfold spec_le. intros H1 H2.
  destruct (chars_ltb (chars_of (name c)) (chars_of (name a))) eqn:E; [|done].
  destruct (ltb_cases chars_ltb (chars_of (name b)) (chars_of (name c))) as [Hbc|[Hbc|Hbc]].
  - by rewrite (ltb_trans _ _ _ Hbc E) in H1.
  - congruence.
  - rewrite Hbc in H1. congruence.
Qed.

Lemma spec_le_antisym a b : spec_le a b -> spec_le b a -> name a = name b.
Proof. intros H1 H2. apply (inj chars_of). by apply (ltb_total (ltb:=chars_ltb)). Qed.

Lemma upsert_spec_new s l : name s ∉ name <$> l -> upsert_spec s l = l ++ [s].
Proof.
  induction l as [|s' l IH]; intros Hni; [done|]. csimpl in *. apply not_elem_of_cons in Hni as [Hne Hni].
  rewrite bool_decide_eq_false_2 by congruence. by rewrite IH.
Qed.

Lemma upsert_spec_old s s' l1 l2 :
  name s' = name s -> name s ∉ name <$> l1 -> upsert_spec s (l1 ++ s' :: l2) = l1 ++ s :: l2.
Proof.
  intros Heq. induction l1 as [|a l1 IH]; intros Hni; simpl; [by rewrite bool_decide_eq_true_2|].
  csimpl in Hni. apply not_elem_of_cons in Hni as [Hne Hni]. rewrite bool_decide_eq_false_2 by congruence. by rewrite IH.
Qed.

Lemma spec_key_inj_name a b : spec_key a = spec_key b <-> name a = name b.
Proof. unfold spec_key. split; [apply (inj chars_of)|by intros ->]. Qed.

(** The list and the map stay in step. *)
Lemma upsert_spec_step s l (m : list (chars * LocationSpec)) :
  NoDup (name <$> l) -> om_wf chars_ltb m -> spec_entry <$> l ≡ₚ m ->
  let m' := om_set chars_ltb (spec_key s) s m in
  NoDup (name <$> upsert_spec s l) /\ om_wf chars_ltb m' /\ spec_entry <$> upsert_spec s l ≡ₚ m'.
Proof.
  intros Hnd Hwf Hp m'. assert (Hwf' : om_wf chars_ltb m') by (by apply (om_set_wf chars_ltb)).
  destruct (decide (name s ∈ name <$> l)) as [Hin|Hni].
  - apply list_elem_of_fmap in Hin as (s' & Heq & Hin). apply list_elem_of_split in Hin as (l1 & l2 & ->).
    rewrite fmap_app in Hnd. csimpl in Hnd. rewrite <-Heq in Hnd.
    assert (Hni : name s ∉ name <$> l1).
    { intros Hin. apply NoDup_app in Hnd as (_ & Hd & _). apply (Hd _ Hin). left. }
    rewrite upsert_spec_old by done. split_and!; [by rewrite fmap_app|done|].
    assert (Hf : om_find chars_ltb (spec_key s) m = Some s').
    { apply (om_elem_of_find chars_ltb); [done|]. rewrite <-Hp. apply list_elem_of_fmap. exists s'.
      split; [unfold spec_entry; f_equal; by apply spec_key_inj_name|set_solver]. }
    unfold m'. rewrite (om_set_perm_erase chars_ltb). rewrite (om_erase_perm _ _ _ _ Hf) in Hp.
    rewrite fmap_app in Hp |- *. csimpl. csimpl in Hp.
    assert (He : spec_entry s' = (spec_key s, s')) by (unfold spec_entry; f_equal; by apply spec_key_inj_name).
    rewrite He in Hp. rewrite <-Permutation_middle in Hp |- *. apply (inj (cons _)) in Hp.
    unfold spec_entry at 1. by rewrite Hp.
  - rewrite upsert_spec_new by done. split_and!; [|done|].
    + rewrite fmap_app. csimpl. rewrite (comm app). by apply NoDup_cons.
    + unfold m'. rewrite (om_set_perm chars_ltb).
      * rewrite fmap_app, Hp. csimpl. by rewrite (comm app).
      * destruct (om_find _ _ m) as [s'|] eqn:Ef; [|done]. exfalso. apply Hni.
        apply (om_elem_of_find chars_ltb) in Ef; [|done]. rewrite <-Hp in Ef.
        apply list_elem_of_fmap in Ef as (a & [= Hk ->] & Ha). apply spec_key_inj_name in Hk. rewrite Hk.
        by apply list_elem_of_fmap_2.
Qed.

Lemma upsert_spec_fold (todo : list LocationSpec) : forall l m,
  NoDup (name <$> l) -> om_wf chars_ltb m -> spec_entry <$> l ≡ₚ m ->
  let l' := foldl (fun acc s => upsert_spec s acc) l todo in
  let m' := foldl (fun acc s => om_set chars_ltb (spec_key s) s acc) m todo in
  NoDup (name <$> l') /\ om_wf chars_ltb m' /\ spec_entry <$> l' ≡ₚ m'.
Proof.
  induction todo as [|s todo IH]; intros l m Hnd Hwf Hp; [done|]. cbn [foldl].
  destruct (upsert_spec_step s l m Hnd Hwf Hp) as (? & ? & ?). by apply IH.
Qed.

(** Merging specs by name in place (compact the duplicates, overwrite or
    append the delta, sort) gives exactly what an ordered map by name filled
    with the old specs and then the delta would: one spec per name, the last
    one written, in name order. *)
Theorem MergeLocationSpecsByName_is_map old delta :
  MergeLocationSpecsByName old delta =
  (foldl (fun m s => om_set chars_ltb (chars_of (name s)) s m) [] (old ++ delta)).*2.
Proof.
  unfold MergeLocationSpecsByName. rewrite <-(foldl_app (fun acc s => upsert_spec s acc)).
  destruct (upsert_spec_fold (old ++ delta) [] []) as (Hnd & Hwf & Hp); [constructor|constructor|done|].
  set (l := foldl (fun acc s => upsert_spec s acc) [] (old ++ delta)) in *.
  set (m := foldl (fun acc s => om_set chars_ltb (spec_key s) s acc) [] (old ++ delta)) in *.
  change (merge_sort spec_le l = m.*2). assert (Hpm : l ≡ₚ m.*2).
  { rewrite <-Hp. generalize l. clear. intros l. induction l as [|s l IH]; csimpl; [done|by rewrite <-IH]. }
  eapply StronglySorted_unique_strong.
  - intros a b Ha Hb H1 H2. pose proof (spec_le_antisym a b H1 H2) as Heq.
    rewrite merge_sort_Permutation in Ha. rewrite <-Hpm in Hb.
    apply list_elem_of_lookup in Ha as (i & Hi). apply list_elem_of_lookup in Hb as (j & Hj).
    assert (i = j) as ->; [|congruence]. eapply (NoDup_lookup (name <$> l)); [done| |].
    + by rewrite list_lookup_fmap, Hi.
    + by rewrite list_lookup_fmap, Hj, Heq.
  - apply StronglySorted_merge_sort; apply _.
  - clear Hpm. assert (He : Forall (fun e => e.1 = spec_key e.2) m).
    { rewrite <-Hp. apply Forall_fmap. by apply Forall_true. }
    clear Hp Hnd. induction m as [|[k s] m IH]; [constructor|]. apply (om_wf_cons chars_ltb) in Hwf as [Hwf Hall].
    apply Forall_cons in He as [Hk He]. simpl in Hk. csimpl. constructor; [auto|].
    apply Forall_fmap. rewrite Forall_forall in Hall, He. apply Forall_forall. intros e Hin. simpl.
    unfold spec_le. apply (ltb_asym chars_ltb). fold (spec_key s). fold (spec_key e.2).
    rewrite <-Hk, <-(He e Hin). by apply Hall.
  - rewrite merge_sort_Permutation. done.
Qed.

End merge_by_name.

(** ** What a selected and merged location is *)

Section merged.
Implicit Types (seen specs : list LocationSpec) (acc : list (chars * LocationSpec)).

(** The map holds specs among [seen], one for every name seen. *)
Definition holds_specs acc seen : Prop :=
  om_wf chars_ltb acc /\ Forall (fun e => e.1 = spec_key e.2 /\ e.2 ∈ seen) acc /\
  forall s, s ∈ seen -> is_Some (om_find chars_ltb (spec_key s) acc).

Lemma emplace_specs_holds specs : forall acc seen,
  holds_specs acc seen -> holds_specs (emplace_specs specs acc) (seen ++ specs).
Proof.
  induction specs as [|s specs IH]; intros acc seen (Hwf & Hall & Hsome); [by rewrite app_nil_r|].
  unfold emplace_specs. cbn [foldl]. replace (seen ++ s :: specs) with ((seen ++ [s]) ++ specs) by (by rewrite <-app_assoc).
  apply IH. fold (spec_key s). destruct (om_find chars_ltb (spec_key s) acc) as [s0|] eqn:Ef.
  - split_and!; [done| |].
    + eapply Forall_impl; [exact Hall|]. intros e [? ?]. split; [done|set_solver].
    + intros s' [Hin|Hin]%elem_of_app; [auto|]. apply list_elem_of_singleton in Hin as ->. rewrite Ef. by eexists.
  - split_and!.
    + by apply (om_set_wf chars_ltb).
    + rewrite (om_set_perm chars_ltb) by done. constructor; [split; [done|set_solver]|].
      eapply Forall_impl; [exact Hall|]. intros e [? ?]. split; [done|set_solver].
    + intros s' Hin. destruct (decide (spec_key s' = spec_key s)) as [->|Hne].
      * rewrite (om_find_set_eq chars_ltb). by eexists.
      * rewrite (om_find_set_ne chars_ltb) by done. apply elem_of_app in Hin as [Hin|Hin]; [auto|].
        apply list_elem_of_singleton in Hin as ->. done.
Qed.

(** The specs a valid location contributes. *)
Definition contributes (winner : CacheLocation) (kv : Entry) : list LocationSpec :=
  match kv.2 with Some l => if IsSameDataStorage l winner then location_specs l else [] | None => [] end.

Lemma merged_specs_holds valid winner :
  exists acc, merged_specs valid winner = acc.*2 /\ holds_specs acc (map_to_list valid ≫= contributes winner).
Proof.
  unfold merged_specs. eexists. split; [reflexivity|].
  assert (Hgen : forall kvs acc seen, holds_specs acc seen ->
    holds_specs (foldl (fun acc (kv : Entry) =>
      match kv.2 with
      | Some l => if IsSameDataStorage l winner then emplace_specs (location_specs l) acc else acc
      | None => acc
      end) acc kvs) (seen ++ (kvs ≫= contributes winner))).
  { induction kvs as [|kv kvs IH]; intros acc seen H; [by rewrite app_nil_r|]. cbn [foldl]. csimpl. rewrite app_assoc.
    apply IH. unfold contributes. destruct kv.2 as [l|]; [|by rewrite app_nil_r].
    destruct (IsSameDataStorage l winner); [by apply emplace_specs_holds|by rewrite app_nil_r]. }
  apply (Hgen _ [] []). split_and!; [constructor|constructor|]. intros s Hs. by apply not_elem_of_nil in Hs.
Qed.

(** One spec per name, in name order; each from a location of the winner's
    storage; every name of that storage covered. *)
Lemma merged_specs_spec (valid : CacheLocationMap) winner :
  let specs := merged_specs valid winner in
  StronglySorted (fun a b => chars_ltb (spec_key a) (spec_key b) = true) specs /\
  (forall s, s ∈ specs -> exists i l, valid !! i = Some (Some l) /\ IsSameDataStorage l winner = true /\
     s ∈ location_specs l) /\
  (forall i l s, valid !! i = Some (Some l) -> IsSameDataStorage l winner = true -> s ∈ location_specs l ->
     exists s', s' ∈ specs /\ name s' = name s).
Proof.
  destruct (merged_specs_holds valid winner) as (acc & Heq & Hwf & Hall & Hsome). simpl. rewrite Heq. split_and!.
  - clear Hsome Heq. induction acc as [|[k s] acc IH]; [constructor|].
    apply (om_wf_cons chars_ltb) in Hwf as [Hwf Hlt]. apply Forall_cons in Hall as [[Hk _] Hall]. simpl in Hk.
    csimpl. constructor; [by apply IH|]. apply Forall_fmap. rewrite Forall_forall in Hlt, Hall. apply Forall_forall.
    intros e He. simpl. rewrite <-Hk, <-(proj1 (Hall e He)). by apply Hlt.
  - intros s (e & -> & He)%list_elem_of_fmap. rewrite Forall_forall in Hall. destruct (Hall e He) as [_ Hin].
    apply list_elem_of_bind in Hin as ([i p] & Hin & Hkv%elem_of_map_to_list). unfold contributes in Hin. simpl in Hin.
    destruct p as [l|]; [|by apply not_elem_of_nil in Hin].
    destruct (IsSameDataStorage l winner) eqn:Es; [eauto|by apply not_elem_of_nil in Hin].
  - intros i l s Hv Hs Hin. destruct (Hsome s) as [s' Hs'].
    { apply list_elem_of_bind. exists (i, Some l). split; [|by apply elem_of_map_to_list].
      unfold contributes. simpl. by rewrite Hs. }
    apply (om_elem_of_find chars_ltb) in Hs'; [|done]. rewrite Forall_forall in Hall.
    destruct (Hall _ Hs') as [Hk _]. simpl in Hk. apply spec_key_inj_name in Hk. exists s'.
    split; [by apply (list_elem_of_fmap_2 snd) in Hs'|done].
Qed.

End merged.

Lemma IsSameDataStorage_refl l : IsSameDataStorage l l = true.
Proof.
  unfold IsSameDataStorage. rewrite bool_decide_eq_true_2 by done. simpl.
  destruct (location_specs l); [done|]. by apply bool_decide_eq_true.
Qed.

Section select.
Context {G : Type} (dist : list Z -> G -> nat * G) (weight : Entry -> Z) (check : CheckLocDataExistFunc).
Hypothesis dist_in_range : forall ws g, ws <> [] -> (dist ws g).1 < length ws.
Implicit Types m : CacheLocationMap.

(** A block with a location a reader may be sent to. *)
Definition matchable m : Prop := exists i l, m !! i = Some (Some l) /\ readable weight check i l.

Definition valid_location (l : CacheLocation) : Prop := status l = CLS_SERVING /\ data_missing check l = false.

(** The answer for a block: a readable winner [w], and the specs of the valid
    locations in its storage. *)
Definition merge_of m (out : CacheLocation) : Prop :=
  exists i w, m !! i = Some (Some w) /\ readable weight check i w /\
    id out = id w +:+ "_merged" /\ status out = CLS_SERVING /\ type out = type w /\
    spec_size out = Z.of_nat (length (location_specs out)) /\
    StronglySorted (fun a b => chars_ltb (spec_key a) (spec_key b) = true) (location_specs out) /\
    (forall s, s ∈ location_specs out -> exists j l, m !! j = Some (Some l) /\ valid_location l /\
       IsSameDataStorage l w = true /\ s ∈ location_specs l) /\
    (forall j l s, m !! j = Some (Some l) -> valid_location l -> IsSameDataStorage l w = true ->
       s ∈ location_specs l -> exists s', s' ∈ location_specs out /\ name s' = name s).

(** Serving locations have specs. *)
Definition specs_present m : Prop :=
  forall i l, m !! i = Some (Some l) -> status l = CLS_SERVING -> location_specs l <> [].

Lemma valid_lookup m i p :
  (FilterValidLocations check m).1 !! i = Some p <-> m !! i = Some p /\ exists l, p = Some l /\ valid_location l.
Proof.
  unfold FilterValidLocations. simpl. rewrite map_lookup_filter_Some. unfold is_valid, valid_location. simpl.
  destruct p as [l|]; [|split; [by intros [_ ?]|by intros [_ (l & ? & _)]]].
  rewrite andb_true_iff, bool_decide_eq_true, negb_true_iff. split; [naive_solver|]. intros (H & l' & [= <-] & ?). done.
Qed.

Lemma readable_valid m i l :
  (FilterValidLocations check m).1 !! i = Some (Some l) /\ readable weight None i l <->
  m !! i = Some (Some l) /\ readable weight check i l.
Proof.
  rewrite valid_lookup. unfold readable, valid_location. simpl. split.
  - intros ((Hm & l' & [= <-] & ? & ?) & ? & _ & ?). done.
  - intros (Hm & ? & ? & ?). split_and!; [done|by exists l|done|done|done].
Qed.

Lemma SelectAndMerge_spec m g out prune g' :
  SelectAndMergeForMatch dist weight check m g = ((out, prune), g') ->
  prune = prune_loc_ids check m /\
  (location_specs out <> [] -> merge_of m out) /\
  (specs_present m -> location_specs out = [] <-> ~ matchable m).
Proof.
  unfold SelectAndMergeForMatch. destruct (FilterValidLocations check m) as [valid pr] eqn:Ev.
  assert (Hv : valid = (FilterValidLocations check m).1) by (by rewrite Ev).
  assert (pr = prune_loc_ids check m) as -> by (by injection Ev). clear Ev.
  assert (Hnone : (forall i l, valid !! i = Some (Some l) -> ~ readable weight None i l) -> ~ matchable m).
  { intros Hno (i & l & Hm & Hr). destruct (proj2 (readable_valid m i l)) as [Hv' Hr']; [done|].
    rewrite <-Hv in Hv'. by eapply Hno. }
  case_bool_decide as He.
  { intros [= <- <- <-]. split_and!; [done|done|]. intros _. split; [|done]. intros _. apply Hnone.
    intros i l Hl. by rewrite He, lookup_empty in Hl. }
  destruct (SelectForMatch dist weight None valid g) as [[winner pr] g1] eqn:Es.
  pose proof Es as Hs. unfold SelectForMatch in Hs. pose proof (elem_of_candidates weight None valid) as Hc.
  destruct (omap _ (map_to_list valid)) as [|c0 cs] eqn:Eo.
  { injection Hs as <- _ _. simpl. intros [= <- <- <-]. split_and!; [done|done|]. intros _. split; [|done]. intros _.
    apply Hnone. intros i l Hl Hr. apply (not_elem_of_nil l), Hc. eauto. }
  remember (c0 :: cs) as cands eqn:Hcs. assert (Hne : cands.*2 <> []) by (by rewrite Hcs). clear Hcs Eo.
  pose proof (dist_in_range cands.*2 g Hne) as Hlt. rewrite length_fmap in Hlt.
  destruct (dist cands.*2 g) as [i0 g2]. injection Hs as <- _ _.
  destruct (lookup_lt_is_Some_2 cands.*1 i0) as [w Hw]; [by rewrite length_fmap|]. rewrite Hw.
  destruct (proj1 (Hc w)) as (i & Hiv & Hr); [by eapply list_elem_of_lookup_2|].
  rewrite Hv in Hiv. pose proof (proj1 (readable_valid m i w) (conj Hiv Hr)) as [Hm Hrd].
  destruct (merged_specs_spec valid w) as (Hsort & Hsound & Hcomp). rewrite <-Hv in Hiv.
  assert (Hmatch : matchable m) by (by exists i, w).
  destruct (location_specs w) as [|s0 ss] eqn:Ew.
  { intros [= <- <- <-]. split_and!; [done|done|]. intros Hp. exfalso. by apply (Hp i w Hm (proj1 Hrd)). }
  destruct (Hcomp i w s0 Hiv (IsSameDataStorage_refl w)) as (s1 & Hs1 & _); [rewrite Ew; left|].
  destruct (merged_specs valid w) as [|t0 ts] eqn:Et; [by apply not_elem_of_nil in Hs1|].
  intros [= <- <- <-]. split_and!; [done| |].
  - intros _. exists i, w. simpl. split_and!; try done.
    + intros s Hin. destruct (Hsound s Hin) as (j & l & Hl & Hss & Hsl). rewrite Hv in Hl.
      apply valid_lookup in Hl as (Hml & l' & [= <-] & Hvl). eauto 8.
    + intros j l s Hml Hvl Hss Hin. apply (Hcomp j l s); [|done|done]. rewrite Hv. apply valid_lookup. eauto.
  - intros _. simpl. split; [done|]. intros Hn. by destruct Hn.
Qed.

End select.

(** ** Queries over the store *)

Section queries.
Context {G PT CT : Type} `{PB : !MetaStorageBackend PT} `{PL : !LawfulBackend PT}
  `{CB : !MetaCacheBaseBackend CT} `{CL : !LawfulCache CT}.
Context (dist : list Z -> G -> nat * G) (weight : Entry -> Z) (check : CheckLocDataExistFunc).
Hypothesis dist_in_range : forall ws g, ws <> [] -> (dist ws g).1 < length ws.
Local Abbreviation Indexer := (MetaIndexer PT CT).
Implicit Types (x : Indexer) (rows : list (KeyType * (ErrorCode * CacheLocationMap))).

(** The indexer's read of whole blocks answers every position from the
    persistent tier. *)
Lemma GetLocations_spec keys x result maps x' :
  coherent (backend_manager_ x) -> GetLocations keys x = (result, maps, x') ->
  pview (backend_manager_ x') = pview (backend_manager_ x) /\ coherent (backend_manager_ x') /\
  Forall3i (read_ok eq (pview (backend_manager_ x))) keys (error_codes result) maps.
Proof.
  intros Hco. unfold GetLocations. destruct keys as [|k0 ks]; [intros [= <- <- <-]; split_and!; [done|done|constructor]|].
  remember (k0 :: ks) as keys eqn:Hk. assert (Hpos : length keys <> 0) by (by rewrite Hk). clear Hk k0 ks.
  destruct (BackendManager.GetLocations keys (backend_manager_ x)) as [[codes ms] m] eqn:E.
  destruct (tiered_read_spec ∅ true eq be_GetLocations be_GetLocations
    be_GetLocations_law be_GetLocations_law _ _ _ _ _ Hco E) as (He & Hp & Hrd).
  destruct (Forall3i_length _ _ _ _ Hrd) as [Hl1 Hl2]. rewrite !wrong_size_eq by done. cbn [orb].
  assert (Heq : ProcessErrorCodes codes [] (length keys) (mkResult EC_OK (all_codes keys EC_OK)) =
    ProcessErrorCodes codes (seq 0 (length keys)) (length keys) (mkResult EC_OK (all_codes keys EC_OK))).
  { unfold ProcessErrorCodes. destruct (length keys) as [|n]; [done|]. done. }
  rewrite Heq. destruct (ProcessErrorCodes _ (seq _ _) _ _) as [n r] eqn:Ep.
  apply ProcessErrorCodes_spec in Ep as (_ & _ & Hlen & Hset & _).
  - intros [= <- <- <-]. assert (Hcodes : error_codes r = codes).
    { apply list_eq. intros i. simpl in Hlen. unfold all_codes in Hlen. rewrite length_replicate in Hlen.
      destruct (decide (i < length keys)) as [Hi|Hi].
      - destruct (lookup_lt_is_Some_2 codes i) as [c Hc]; [lia|]. rewrite Hc. apply (Hset i).
        + by apply lookup_seq.
        + done.
        + simpl. unfold all_codes. by apply lookup_replicate_2.
      - rewrite !lookup_ge_None_2 by lia. done. }
    assert (Hpr : forall e k, error_codes (ProcessErrorResult e k r) = error_codes r).
    { intros e k. unfold ProcessErrorResult. by repeat case_match. }
    split_and!; [done|by eapply effect_coherent|]. by rewrite Hpr, Hcodes.
  - destruct (length keys); [done|]. done.
  - by rewrite length_seq.
  - apply NoDup_seq.
  - apply Forall_forall. intros i Hi%elem_of_seq. lia.
  - simpl. unfold all_codes. by rewrite length_replicate.
Qed.

(** The rows of a query, read from the store [V]. *)
Definition rows_read (V : StoreView) (keys : list KeyType) rows : Prop :=
  Forall2 (fun k r => r.1 = k /\ read_ok eq V k r.2.1 r.2.2) keys rows.

Lemma rows_of_read V keys result maps :
  Forall3i (read_ok eq V) keys (error_codes result) maps -> rows_read V keys (rows_of keys result maps).
Proof.
  unfold rows_read, rows_of. induction 1 as [|k c m ks cs ms HR _ IH]; csimpl; by constructor.
Qed.

(** Every stored serving location has specs. *)
Definition store_specs_present (V : StoreView) : Prop := forall k m, V !! k = Some m -> specs_present m.

(** A row that matches. *)
Definition good_row (r : KeyType * (ErrorCode * CacheLocationMap)) : Prop :=
  r.2.1 = EC_OK /\ matchable weight check r.2.2.

Lemma matchable_nonempty m : matchable weight check m -> m <> ∅.
Proof. intros (i & l & Hm & _) ->. by rewrite lookup_empty in Hm. Qed.

Lemma row_specs_present V k (r : KeyType * (ErrorCode * CacheLocationMap)) :
  store_specs_present V -> r.1 = k /\ read_ok eq V k r.2.1 r.2.2 -> r.2.1 = EC_OK -> specs_present r.2.2.
Proof.
  intros Hs [_ [(_ & ls & Hls & <-)|[[-> _]|[? _]]]] Hok; [by eapply Hs|done|done].
Qed.

Lemma prefix_loop_spec rows : forall g out prune rest g',
  Forall (fun r => r.2.1 = EC_OK -> specs_present r.2.2) rows ->
  prefix_loop dist weight check rows g = ((out, prune, rest), g') ->
  (forall i l, out !! i = Some l -> exists r, rows !! i = Some r /\ good_row r /\ merge_of weight check r.2.2 l) /\
  (forall r, rows !! length out = Some r -> ~ good_row r).
Proof.
  induction rows as [|[k [ec m]] rows IH]; intros g out prune rest g' Hall Hrun; simpl in Hrun.
  { simplify_eq. by split. }
  apply Forall_cons in Hall as [Hsp Hall]. simpl in Hsp.
  case_bool_decide as He; [simplify_eq; split; [done|intros r [= <-] [? _]; done]|].
  subst ec.
  case_bool_decide as Hm; [simplify_eq; split; [done|intros r [= <-] [_ Hmt]; by apply matchable_nonempty in Hmt]|].
  destruct (SelectAndMergeForMatch dist weight check m g) as [[merged ids] g1] eqn:Es.
  destruct (SelectAndMerge_spec _ _ _ dist_in_range _ _ _ _ _ Es) as (_ & Hmerge & Hiff). specialize (Hiff (Hsp eq_refl)).
  destruct (location_specs merged) as [|s ss] eqn:El.
  { simplify_eq. split; [done|]. intros r [= <-] [_ Hmt]. by apply Hiff in Hmt. }
  destruct (prefix_loop _ _ _ rows g1) as [[[out1 pr1] rest1] g2] eqn:Ep. simplify_eq.
  apply IH in Ep as [Hin Hmax]; [|done]. split.
  - intros [|i] l Hl; simplify_eq/=; [|auto]. exists (k, (EC_OK, m)). split; [done|]. split; [|by apply Hmerge].
    split; [done|]. simpl. destruct (Hmerge ltac:(done)) as (i & w & Hi & Hr & _). by exists i, w.
  - intros r Hr. by apply Hmax.
Qed.

(** A position of a query against the store. *)
Lemma row_at V keys rows i r :
  rows_read V keys rows -> rows !! i = Some r -> exists k, keys !! i = Some k /\ read_ok eq V k r.2.1 r.2.2.
Proof. intros Hr Hi. destruct (Forall2_lookup_r _ _ _ _ _ Hr Hi) as (k & Hk & _ & Hrd). eauto. Qed.

Lemma rows_specs_present V keys rows :
  store_specs_present V -> rows_read V keys rows -> Forall (fun r => r.2.1 = EC_OK -> specs_present r.2.2) rows.
Proof.
  intros Hs Hr. apply Forall_lookup. intros i r Hi. destruct (Forall2_lookup_r _ _ _ _ _ Hr Hi) as (k & Hk & Hrk).
  by apply (row_specs_present V k).
Qed.

(** C29: a prefix query returns the longest prefix of the queried blocks that
    can be served, in every coherent state of the two tiers: each returned
    location merges the specs of a stored, serving location of its block (one
    per name, in order, with those of the other valid locations in the same
    storage), and the match ends early only at a block that is not stored,
    has no readable location, or whose read failed. *)
Theorem PrefixMatch_longest has_submit keys mask x g out prune x' g' :
  coherent (backend_manager_ x) -> store_specs_present (pview (backend_manager_ x)) ->
  PrefixMatch dist weight check has_submit keys mask [] x g = ((out, prune), x', g') ->
  pview (backend_manager_ x') = pview (backend_manager_ x) /\
  (forall i l, out !! i = Some l -> exists k m, query_keys keys mask !! i = Some k /\
     pview (backend_manager_ x) !! k = Some m /\ merge_of weight check m l) /\
  (forall k, query_keys keys mask !! length out = Some k ->
     (exists result maps y ec, GetLocations (query_keys keys mask) x = (result, maps, y) /\
        error_codes result !! length out = Some ec /\ hard ec) \/
     (forall m, pview (backend_manager_ x) !! k = Some m -> ~ matchable weight check m)).
Proof.
  intros Hco Hsp. unfold PrefixMatch. destruct (query_keys keys mask) as [|k0 ks].
  { intros [= <- <- <- <-]. split_and!; done. }
  remember (k0 :: ks) as qs eqn:Hqs. clear Hqs k0 ks. unfold PrefixMatchBestLocationImpl.
  destruct (GetLocations qs x) as [[result maps] y] eqn:Eg.
  destruct (GetLocations_spec _ _ _ _ _ Hco Eg) as (Hpv & _ & Hrd). apply rows_of_read in Hrd as Hrows.
  destruct (prefix_loop _ _ _ _ _) as [[[o pr] rest] g1] eqn:Ep.
  apply prefix_loop_spec in Ep as [Hin Hmax]; [|by eapply rows_specs_present]. intros Hrun.
  assert (o = out /\ y = x') as [-> ->] by (destruct pr; [by simplify_eq|]; destruct (prune_rest _ _ _ _ _); by simplify_eq).
  split_and!; [done| |].
  - intros i l Hl. destruct (Hin i l Hl) as (r & Hr & [Hok _] & Hmo).
    destruct (row_at _ _ _ _ _ Hrows Hr) as (k & Hk & [(_ & m & Hm & ->)|[[? _]|[? _]]]); [eauto|congruence..].
  - intros k Hk. destruct (Forall2_lookup_l _ _ _ _ _ Hrows Hk) as (r & Hr & _ & Hrk).
    destruct Hrk as [(Hok & m & Hm & Heq)|[[Hno Hn]|Hh]].
    + right. intros m' Hm'. assert (m' = r.2.2) as -> by congruence. intros Hmt. by apply (Hmax r Hr).
    + right. intros m' Hm'. congruence.
    + left. exists result, maps, x', r.2.1. split_and!; [done| |done].
      unfold rows_of in Hr. apply lookup_zip_with_Some in Hr as (k' & [c m'] & -> & _ & Hcm).
      by apply lookup_zip_with_Some in Hcm as (? & ? & [= -> ->] & ? & _).
Qed.

(** *** The sliding window *)

Lemma window_loop_spec (ws : list (KeyType * CacheLocationMap)) : forall offset g r p g',
  Forall (fun km => specs_present km.2) ws ->
  window_loop dist weight check offset ws g = ((r, p), g') ->
  match r with
  | inl o => exists j km, o = offset + j /\ ws !! j = Some km /\ ~ matchable weight check km.2
  | inr out => Forall2 (fun km l => matchable weight check km.2 /\ merge_of weight check km.2 l) ws out
  end.
Proof.
  induction ws as [|[k m] ws IH]; intros offset g r p g' Hall Hrun; simpl in Hrun; [by simplify_eq; constructor|].
  apply Forall_cons in Hall as [Hsp Hall]. simpl in Hsp.
  assert (Hhere : ~ matchable weight check m -> exists j km, offset = offset + j /\ ((k, m) :: ws) !! j = Some km /\
    ~ matchable weight check km.2) by (intros Hn; exists 0, (k, m); split_and!; [lia|done|done]).
  case_bool_decide as Hm; [simplify_eq; apply Hhere; intros Hmt; by apply matchable_nonempty in Hmt|].
  destruct (SelectAndMergeForMatch dist weight check m g) as [[merged ids] g1] eqn:Es.
  destruct (SelectAndMerge_spec _ _ _ dist_in_range _ _ _ _ _ Es) as (_ & Hmerge & Hiff). specialize (Hiff Hsp).
  destruct (location_specs merged) as [|s ss] eqn:El; [simplify_eq; apply Hhere; by apply Hiff|].
  destruct (window_loop _ _ _ _ ws g1) as [[r1 p1] g2] eqn:Ew. simplify_eq. apply IH in Ew; [|done].
  destruct r1 as [o|out].
  - destruct Ew as (j & km & -> & Hj & Hn). exists (S j), km. split_and!; [lia|done|done].
  - constructor; [|done]. specialize (Hmerge ltac:(done)). split; [|done].
    destruct Hmerge as (i & w & Hi & Hr & _). by exists i, w.
Qed.

(** A window of [sw] consecutive rows that all match. *)
Definition good_window rows (sw b : nat) : Prop :=
  b + sw <= length rows /\ forall j r, j < sw -> rows !! (b + j) = Some r -> good_row r.

(** Skipping to before a bad row skips no good window. *)
Lemma bad_row_skips rows sw base offset r b :
  offset < sw -> rows !! (base + offset) = Some r -> ~ good_row r ->
  good_window rows sw b -> b <= base -> (Z.of_nat b <= Z.of_nat base - (Z.of_nat sw - Z.of_nat offset))%Z.
Proof.
  intros Ho Hr Hn [_ Hgood] Hb. destruct (Z.le_gt_cases (Z.of_nat b) (Z.of_nat base - (Z.of_nat sw - Z.of_nat offset)))
    as [?|Hgt]; [done|exfalso]. apply Hn, (Hgood (base + offset - b)); [lia|].
  by replace (b + (base + offset - b)) with (base + offset) by lia.
Qed.

Lemma lookup_window rows sw base j : j < sw -> take sw (drop base rows) !! j = rows !! (base + j).
Proof. intros Hj. rewrite lookup_take_lt by done. apply lookup_drop. Qed.

(** What the search from [base] down finds, when no window above is good. *)
Definition slide_result rows (sw : nat) (bound : Z) (found : option (nat * list CacheLocation)) : Prop :=
  match found with
  | Some (b, locs) =>
      (Z.of_nat b <= bound)%Z /\ good_window rows sw b /\ length locs = sw /\
      (forall j l r, locs !! j = Some l -> rows !! (b + j) = Some r -> merge_of weight check r.2.2 l) /\
      (forall b', good_window rows sw b' -> (Z.of_nat b' <= bound)%Z -> b' <= b)
  | None => forall b', good_window rows sw b' -> (bound < Z.of_nat b')%Z
  end.

Lemma slide_result_weaken rows sw bound bound' found :
  (bound' <= bound)%Z ->
  (forall b, good_window rows sw b -> (Z.of_nat b <= bound)%Z -> (Z.of_nat b <= bound')%Z) ->
  slide_result rows sw bound' found -> slide_result rows sw bound found.
Proof.
  intros Hle Hskip. destruct found as [[b locs]|]; simpl.
  - intros (Hb & Hg & Hl & Hm & Hmax). split_and!; [lia|done|done|done|]. intros b' Hg' Hb'. apply Hmax; [done|]. auto.
  - intros Hno b' Hg'. specialize (Hno b' Hg'). destruct (Z.le_gt_cases (Z.of_nat b') bound) as [Hc|]; [|lia].
    specialize (Hskip b' Hg' Hc). lia.
Qed.

Lemma slide_spec fuel rows sw : forall base g,
  0 < sw -> Forall (fun r => r.2.1 = EC_OK -> specs_present r.2.2) rows ->
  (base + Z.of_nat sw <= Z.of_nat (length rows))%Z -> (base + 1 < Z.of_nat fuel)%Z -> 0 < fuel ->
  exists found p g', slide dist weight check fuel rows sw base g = Some ((found, p), g') /\
    slide_result rows sw base found.
Proof.
  induction fuel as [|fuel IH]; intros base g Hsw Hall Hbase Hfuel Hpos; [lia|]. cbn [slide].
  destruct (Z.ltb_spec base 0) as [Hneg|Hge].
  { eexists _, _, _. split; [done|]. simpl. intros b' _. lia. }
  set (b := Z.to_nat base). assert (Hb : Z.of_nat b = base) by (unfold b; lia).
  assert (Hlen : b + sw <= length rows) by lia. set (window := take sw (drop b rows)).
  assert (Hlw : length window = sw) by (unfold window; rewrite length_take, length_drop; lia).
  assert (Hnext : forall offset r g1, offset < sw -> rows !! (b + offset) = Some r -> ~ good_row r ->
    exists found p g', slide dist weight check fuel rows sw (base - (Z.of_nat sw - Z.of_nat offset)) g1 =
      Some ((found, p), g') /\ slide_result rows sw base found).
  { intros offset r g1 Ho Hr Hn.
    destruct (IH (base - (Z.of_nat sw - Z.of_nat offset))%Z g1) as (found & p & g' & Hs & Hres); [done|done|lia|lia|lia|].
    exists found, p, g'. split; [done|]. eapply slide_result_weaken; [|..|exact Hres]; [lia|].
    intros b' Hg' Hb'. rewrite <-Hb. eapply bad_row_skips; [exact Ho|exact Hr|done|done|lia]. }
  unfold failed_read. destruct (list_find _ _) as [[offset ec]|] eqn:Ef; simpl.
  - apply list_find_Some in Ef as (Hec & Hne & _). rewrite list_lookup_fmap in Hec.
    destruct (window !! offset) as [r|] eqn:Er; [|done]. simplify_eq/=.
    assert (Ho : offset < sw) by (rewrite <-Hlw; by eapply lookup_lt_Some).
    unfold window in Er. rewrite lookup_window in Er by done. apply (Hnext offset r); [done|done|]. by intros [? _].
  - apply list_find_None in Ef. rewrite Forall_fmap in Ef.
    assert (Hok : forall j r, window !! j = Some r -> r.2.1 = EC_OK).
    { intros j r Hj. rewrite Forall_lookup in Ef. apply dec_stable. exact (Ef j r Hj). }
    destruct (window_loop _ _ _ 0 _ g) as [[r p] g1] eqn:Ew. apply window_loop_spec in Ew.
    2: { apply Forall_fmap, Forall_lookup. intros j w Hj. simpl. rewrite Forall_lookup in Hall.
         pose proof (Hok j w Hj) as Hok'. assert (Hjs : j < sw) by (rewrite <-Hlw; by eapply lookup_lt_Some).
         unfold window in Hj. rewrite lookup_window in Hj by done. by eapply Hall. }
    destruct r as [o|out].
    + destruct Ew as (j & km & -> & Hj & Hn). rewrite list_lookup_fmap in Hj.
      destruct (window !! j) as [r|] eqn:Er; [|done]. simplify_eq/=.
      assert (Ho : j < sw) by (rewrite <-Hlw; by eapply lookup_lt_Some).
      unfold window in Er. rewrite lookup_window in Er by done.
      destruct (Hnext j r g1 Ho Er) as (found & p' & g' & -> & Hres); [by intros [_ ?]|]. eauto 8.
    + eexists _, _, _. split; [done|]. simpl. fold b. apply Forall2_fmap_l in Ew.
      split_and!; [lia| | | |intros b' _ ?; lia].
      * split; [done|]. intros j r Hj Hr. rewrite <-(lookup_window _ sw) in Hr by done.
        destruct (Forall2_lookup_l _ _ _ _ _ Ew Hr) as (l & _ & [Hmt _]). split; [by eapply Hok|exact Hmt].
      * apply Forall2_length in Ew. lia.
      * intros j l r Hl Hr. pose proof (Forall2_length _ _ _ Ew) as Hlo.
        assert (Hj : j < sw) by (apply lookup_lt_Some in Hl; lia). rewrite <-(lookup_window _ sw) in Hr by done.
        by destruct (Forall2_lookup_lr _ _ _ _ _ _ Ew Hr Hl).
Qed.

Lemma rows_read_length V keys rows : rows_read V keys rows -> length rows = length keys.
Proof. intros H. symmetry. by eapply Forall2_length. Qed.

(** Placing the window's locations among empty ones. *)
Lemma place_window (n b sw : nat) (locs : list CacheLocation) :
  length locs = sw -> b + sw <= n ->
  let out := replicate n empty_location in
  let out' := take b out ++ locs ++ drop (b + length locs) out in
  length out' = n /\ (forall j, j < sw -> out' !! (b + j) = locs !! j) /\
  (forall i, i < n -> i < b \/ b + sw <= i -> out' !! i = Some empty_location).
Proof.
  intros Hl Hn out out'. unfold out', out.
  assert (Htk : length (take b (replicate n empty_location)) = b) by (rewrite length_take, length_replicate; lia).
  split_and!.
  - rewrite !length_app, length_drop, Htk, length_replicate. lia.
  - intros j Hj. rewrite lookup_app_r by lia. rewrite Htk, lookup_app_l by lia. f_equal. lia.
  - intros i Hi [Hb|Hb].
    + rewrite lookup_app_l by lia. rewrite lookup_take_lt by done. by apply lookup_replicate_2.
    + rewrite lookup_app_r by lia. rewrite lookup_app_r by lia. rewrite lookup_drop. apply lookup_replicate_2. lia.
Qed.

(** Position [i] of a query can be served: its read, of the answer [codes],
    succeeded, and its block is stored with a location that can be matched. *)
Definition served_at (V : StoreView) (keys : list KeyType) (codes : list ErrorCode) (i : nat) : Prop :=
  exists k m, keys !! i = Some k /\ codes !! i = Some EC_OK /\ V !! k = Some m /\ matchable weight check m.

(** The [sw] positions from [b] can all be served. *)
Definition served_window (V : StoreView) (keys : list KeyType) (codes : list ErrorCode) (sw b : nat) : Prop :=
  b + sw <= length keys /\ forall j, j < sw -> served_at V keys codes (b + j).

(** What the code of a read tells: unless the read failed, whether the block
    is stored. *)
Definition reads_tell (V : StoreView) (keys : list KeyType) (codes : list ErrorCode) : Prop :=
  forall i k, keys !! i = Some k -> exists ec, codes !! i = Some ec /\ (hard ec \/ (ec = EC_OK <-> is_Some (V !! k))).

Lemma read_ok_tells V keys codes maps : Forall3i (read_ok eq V) keys codes maps -> reads_tell V keys codes.
Proof.
  unfold reads_tell. induction 1 as [|k c m ks cs ms HR _ IH]; intros i k' Hi; [done|].
  destruct i as [|i]; [|by apply IH]. injection Hi as <-. exists c. split; [done|].
  destruct HR as [(-> & ls & Hls & _)|[[-> Hn]|Hh]]; [right|right|left; apply Hh]; [|by rewrite Hn; split; [|intros [? ?]]].
  rewrite Hls. split; [by eexists|done].
Qed.

Lemma good_window_served V keys result maps sw b :
  Forall3i (read_ok eq V) keys (error_codes result) maps ->
  good_window (rows_of keys result maps) sw b <-> served_window V keys (error_codes result) sw b.
Proof.
  intros Hrd. pose proof (rows_of_read _ _ _ _ Hrd) as Hrows. pose proof (rows_read_length _ _ _ Hrows) as Hl.
  unfold good_window, served_window. rewrite Hl. split; intros [Hb Hall]; (split; [done|]).
  - intros j Hj. destruct (lookup_lt_is_Some_2 (rows_of keys result maps) (b + j)) as [r Hr]; [lia|].
    destruct (Hall j r Hj Hr) as [Hok Hm]. destruct (row_at _ _ _ _ _ Hrows Hr) as (k & Hk & Hread).
    unfold rows_of in Hr. apply lookup_zip_with_Some in Hr as (k' & [c m] & -> & Hk' & Hcm).
    apply lookup_zip_with_Some in Hcm as (? & ? & [= -> ->] & Hc & _). simpl in *. subst.
    destruct Hread as [(_ & m' & Hm' & Heq)|[[? _]|[? _]]]; [|done..].
    exists k, m'. split_and!; [done..|by rewrite Heq].
  - intros j r Hj Hr. destruct (Hall j Hj) as (k & m & Hk & Hc & Hv & Hm).
    destruct (row_at _ _ _ _ _ Hrows Hr) as (k2 & Hk2 & Hread). simplify_eq.
    unfold rows_of in Hr. apply lookup_zip_with_Some in Hr as (k' & [c' m'] & -> & _ & Hcm).
    apply lookup_zip_with_Some in Hcm as (? & ? & [= -> ->] & Hc' & _). simplify_eq/=.
    split; [done|]. destruct Hread as [(_ & m2 & Hm2 & Heq)|[[Hx _]|[Hx _]]]; [|done..]. simpl in *. by simplify_eq.
Qed.

(** C32: the sliding-window query finds the rightmost window: it always ends;
    when some [sw] consecutive blocks of the query can be served - by the codes
    the read of the blocks answered and by what is stored for them - it returns
    the locations of the last such window at their positions (each the merge
    of a stored, serving location of its block) and empty locations elsewhere;
    otherwise all positions are empty. A read code tells whether its block is
    stored unless the read failed, so only failed reads can hide a window.
    Skipping from a failing block straight to the window before it therefore
    misses nothing. *)
Theorem ReverseRollSlideWindowMatch_rightmost has_submit keys sw x g result maps x' :
  coherent (backend_manager_ x) -> store_specs_present (pview (backend_manager_ x)) -> 0 < sw -> sw <= length keys ->
  GetLocations keys x = (result, maps, x') ->
  let V := pview (backend_manager_ x) in
  let codes := error_codes result in
  pview (backend_manager_ x') = V /\ reads_tell V keys codes /\
  exists out prune g',
    ReverseRollSlideWindowMatch dist weight check has_submit keys sw x g = Some ((out, prune), x', g') /\
    length out = length keys /\
    ((exists b, served_window V keys codes sw b /\ (forall b', served_window V keys codes sw b' -> b' <= b) /\
        (forall j, j < sw -> exists k m l, keys !! (b + j) = Some k /\ V !! k = Some m /\
           out !! (b + j) = Some l /\ merge_of weight check m l) /\
        (forall i, i < length keys -> i < b \/ b + sw <= i -> out !! i = Some empty_location)) \/
     ((forall b, ~ served_window V keys codes sw b) /\ out = replicate (length keys) empty_location)).
Proof.
  intros Hco Hsp Hsw Hlk Eg V codes. unfold ReverseRollSlideWindowMatch. rewrite Eg.
  destruct (GetLocations_spec _ _ _ _ _ Hco Eg) as (Hpv & _ & Hrd). apply rows_of_read in Hrd as Hrows.
  split; [done|]. split; [by eapply read_ok_tells|]. unfold codes.
  setoid_rewrite <-(good_window_served V keys result maps sw _ Hrd).
  set (rows := rows_of keys result maps) in *. pose proof (rows_read_length _ _ _ Hrows) as Hlr.
  destruct (slide_spec (S (S (length keys))) rows sw (Z.of_nat (length keys) - Z.of_nat sw) g)
    as (found & p & g' & -> & Hres); [done|by eapply rows_specs_present|lia|lia|lia|]. simpl.
  eexists _, _, _. split; [reflexivity|]. destruct found as [[b locs]|].
  - destruct Hres as (Hb & Hg & Hl & Hm & Hmax).
    destruct (place_window (length keys) b sw locs Hl) as (Hlo & Hin & Hout); [lia|].
    split; [done|]. left. exists b. split_and!; [done| | |].
    + intros b' Hg'. apply Hmax; [done|]. destruct Hg'. lia.
    + intros j Hj. destruct (lookup_lt_is_Some_2 rows (b + j)) as [r Hr]; [lia|].
      destruct (lookup_lt_is_Some_2 locs j) as [l Hjl]; [lia|]. pose proof Hg as [_ Hgood].
      destruct (Hgood j r Hj Hr) as [Hok _].
      destruct (row_at _ _ _ _ _ Hrows Hr) as (k & Hk & [(_ & m & Hmk & Heq)|[[? _]|[? _]]]); [|congruence..].
      exists k, m, l. split_and!; [done|done|by rewrite Hin|]. rewrite Heq. by eapply Hm.
    + done.
  - split; [by rewrite length_replicate|]. right. split; [|done].
    intros b' Hg'. pose proof (Hres b' Hg'). destruct Hg'. lia.
Qed.

(** The answer of one position: a merged location, or the empty one for a
    block nothing can be read of. *)
Definition answered (V : StoreView) (k : KeyType) (l : CacheLocation) : Prop :=
  (exists m, V !! k = Some m /\ merge_of weight check m l) \/
  (l = empty_location /\ forall m, V !! k = Some m -> ~ matchable weight check m).

Lemma batch_loop_spec V rows : forall ks g o p g1,
  rows_read V ks rows -> Forall (fun r => r.2.1 = EC_OK -> specs_present r.2.2) rows ->
  batch_loop dist weight check rows g = ((o, p), g1) ->
  length o <= length rows /\ (forall i l, o !! i = Some l -> exists k, ks !! i = Some k /\ answered V k l).
Proof.
  induction rows as [|[k [ec m]] rows IH]; intros ks g o p g1 Hr Hall Hrun; [simpl in Hrun; by simplify_eq|].
  inversion Hr as [|k' r' ks' rs' [Hk Hrk] Hr']. subst. simpl in Hrk. apply Forall_cons in Hall as [Hs Hall].
  simpl in Hs, Hrun.
  assert (Hcons : forall l o1 p1 g0 g2, batch_loop dist weight check rows g0 = ((o1, p1), g2) -> answered V k l ->
    length (l :: o1) <= length ((k, (ec, m)) :: rows) /\
    (forall i l', (l :: o1) !! i = Some l' -> exists k0, (k :: ks') !! i = Some k0 /\ answered V k0 l')).
  { intros l o1 p1 g0 g2 Hb Hl. apply (IH ks') in Hb as [Hlo Hin]; [|done|done]. split; [simpl; lia|].
    intros [|i] l' Hi; simplify_eq/=; [eauto|by apply Hin]. }
  case_bool_decide as Hno.
  { subst ec. destruct (batch_loop _ _ _ rows g) as [[o1 p1] g2] eqn:Eb. simplify_eq. eapply Hcons; [exact Eb|].
    right. split; [done|]. intros m' Hm'. destruct Hrk as [[? _]|[[_ Hn]|[_ ?]]]; [done|congruence|done]. }
  case_bool_decide as Hne; [simplify_eq; split; [simpl; lia|done]|]. subst ec.
  assert (Hvm : V !! k = Some m) by (destruct Hrk as [(_ & m' & Hm' & ->)|[[? _]|[? _]]]; done).
  assert (Hempty : ~ matchable weight check m -> answered V k empty_location)
    by (intros Hn; right; split; [done|]; intros m' Hm'; by replace m' with m by congruence).
  case_bool_decide as Hm.
  { destruct (batch_loop _ _ _ rows g) as [[o1 p1] g2] eqn:Eb. simplify_eq. eapply Hcons; [exact Eb|].
    apply Hempty. intros Hmt. by apply matchable_nonempty in Hmt. }
  destruct (SelectAndMergeForMatch dist weight check m g) as [[merged ids] g2] eqn:Es.
  destruct (SelectAndMerge_spec _ _ _ dist_in_range _ _ _ _ _ Es) as (_ & Hmerge & Hiff). specialize (Hiff (Hs eq_refl)).
  destruct (batch_loop _ _ _ rows g2) as [[o1 p1] g3] eqn:Eb. simplify_eq. eapply Hcons; [exact Eb|].
  destruct (location_specs merged) eqn:El; [apply Hempty; by apply Hiff|left].
  exists m. split; [done|]. by apply Hmerge.
Qed.

(** A batch query answers every block on its own: unless a read fails,
    it returns one location per key, in order; the location is the merge of a
    stored, serving location exactly when the block has one a reader may be
    sent to, and empty otherwise. *)
Theorem BatchGetBestLocation_positional has_submit keys x g ec out prune x' g' :
  coherent (backend_manager_ x) -> store_specs_present (pview (backend_manager_ x)) ->
  BatchGetBestLocation dist weight check has_submit keys x g = ((ec, out, prune), x', g') ->
  pview (backend_manager_ x') = pview (backend_manager_ x) /\
  (ec = EC_OK <-> length out = length keys) /\ (ec = EC_OK \/ ec = EC_ERROR /\ length out < length keys) /\
  (forall i l, out !! i = Some l -> exists k, keys !! i = Some k /\
     ((exists m, pview (backend_manager_ x) !! k = Some m /\ merge_of weight check m l) \/
      (l = empty_location /\ forall m, pview (backend_manager_ x) !! k = Some m -> ~ matchable weight check m))).
Proof.
  intros Hco Hsp. unfold BatchGetBestLocation. destruct (GetLocations keys x) as [[result maps] y] eqn:Eg.
  destruct (GetLocations_spec _ _ _ _ _ Hco Eg) as (Hpv & _ & Hrd). apply rows_of_read in Hrd as Hrows.
  pose proof (rows_specs_present _ _ _ Hsp Hrows) as Hsps. pose proof (rows_read_length _ _ _ Hrows) as Hlr.
  set (rows := rows_of keys result maps) in *. destruct (batch_loop dist weight check rows g) as [[o p] g1] eqn:Eb.
  intros [= <- <- <- <- <-]. set (V := pview (backend_manager_ x)) in *.
  apply batch_loop_spec with (V := V) (ks := keys) in Eb as [Hlo Hin]; [|done|done]. split_and!; [done| | |done].
  - destruct (Nat.eqb_spec (length o) (length keys)); done.
  - destruct (Nat.eqb_spec (length o) (length keys)); [by left|]. right. split; [done|]. lia.
Qed.

End queries.

(** ** Examples *)

(** Blocks 1, 2 and 4 are stored and serve; block 3 is missing. *)
Definition sample_blocks : StoreView :=
  {[ 1%Z := {[ "a" := Some (sample_loc "a" CLS_SERVING DATA_STORAGE_TYPE_NFS) ]};
     2%Z := {[ "b" := Some (sample_loc "b" CLS_SERVING DATA_STORAGE_TYPE_NFS) ]};
     4%Z := {[ "c" := Some (sample_loc "c" CLS_SERVING DATA_STORAGE_TYPE_NFS) ]} ]}.

Definition sample_match_indexer : MetaIndexer MetaDummyBackend MetaLocalBackend :=
  mkIndexer (mkManager (DummyBackend.Put [1; 2; 4]%Z
    [{[ "a" := Some (sample_loc "a" CLS_SERVING DATA_STORAGE_TYPE_NFS) ]};
     {[ "b" := Some (sample_loc "b" CLS_SERVING DATA_STORAGE_TYPE_NFS) ]};
     {[ "c" := Some (sample_loc "c" CLS_SERVING DATA_STORAGE_TYPE_NFS) ]}] [∅; ∅; ∅]
    (mkDummy ∅ ∅ (fun n => Z.of_nat n))).2 None kRunning ∅) 3 10 2 (fun k => (k mod 3)%Z).

Lemma sample_match_view : pview (backend_manager_ sample_match_indexer) = sample_blocks.
Proof. vm_compute. reflexivity. Qed.

Lemma sample_match_coherent : coherent (backend_manager_ sample_match_indexer).
Proof. intros c E. discriminate E. Qed.

Lemma sample_match_specs : store_specs_present (pview (backend_manager_ sample_match_indexer)).
Proof.
  rewrite sample_match_view. intros k m Hk i l Hi _. unfold sample_blocks in Hk.
  repeat (apply lookup_insert_Some in Hk as [[_ <-]|[_ Hk]]; [apply lookup_singleton_Some in Hi as [_ [= <-]]; done|]).
  apply lookup_singleton_Some in Hk as [_ <-]. apply lookup_singleton_Some in Hi as [_ [= <-]]. done.
Qed.

Lemma first_dist_in_range : forall ws (g : unit), ws <> [] -> (first_dist ws g).1 < length ws.
Proof. intros [|w ws] g Hne; [done|simpl; lia]. Qed.

Definition sample_weight : Entry -> Z := GetWeight initial_store StaticWeightSLPolicy.

Lemma PrefixMatch_longest_witness :
  let out := PrefixMatch first_dist sample_weight None false [1; 2; 3; 4]%Z (BlockMaskOffset 0) [] sample_match_indexer tt in
  id <$> out.1.1.1 = ["a_merged"; "b_merged"] /\
  pview (backend_manager_ out.1.2) = pview (backend_manager_ sample_match_indexer).
Proof.
  intros out. split; [vm_compute; reflexivity|]. destruct out as [[[o p] x'] g'] eqn:E.
  exact (proj1 (PrefixMatch_longest first_dist sample_weight None first_dist_in_range false _ _ sample_match_indexer tt
    o p x' g' sample_match_coherent sample_match_specs E)).
Defined.

Lemma sample_window_ids :
  option_map (fun r => map id r.1.1.1) (
    ReverseRollSlideWindowMatch first_dist sample_weight None false [1; 2; 3; 4]%Z 2 sample_match_indexer tt) =
  Some ["a_merged"; "b_merged"; ""; ""].
Proof. vm_compute. reflexivity. Qed.

Lemma ReverseRollSlideWindowMatch_rightmost_witness :
  exists out prune x' g',
    ReverseRollSlideWindowMatch first_dist sample_weight None false [1; 2; 3; 4]%Z 2 sample_match_indexer tt =
      Some ((out, prune), x', g') /\
    id <$> out = ["a_merged"; "b_merged"; ""; ""].
Proof.
  destruct (GetLocations [1; 2; 3; 4]%Z sample_match_indexer) as [[result maps] x'] eqn:Eg.
  destruct (ReverseRollSlideWindowMatch_rightmost first_dist sample_weight None first_dist_in_range false [1; 2; 3; 4]%Z 2
    sample_match_indexer tt result maps x' sample_match_coherent sample_match_specs ltac:(lia) ltac:(simpl; lia) Eg)
    as (_ & _ & out & prune & g' & Hrun & _). exists out, prune, x', g'. split; [done|].
  pose proof sample_window_ids as Hv. rewrite Hrun in Hv. by injection Hv.
Defined.

Lemma BatchGetBestLocation_positional_witness :
  let out := BatchGetBestLocation first_dist sample_weight None false [4; 3; 1]%Z sample_match_indexer tt in
  out.1.1.1.1 = EC_OK /\ id <$> out.1.1.1.2 = ["c_merged"; ""; "a_merged"].
Proof.
  intros out. split; [|vm_compute; reflexivity]. destruct out as [[[[ec o] p] x'] g'] eqn:E.
  destruct (BatchGetBestLocation_positional first_dist sample_weight None first_dist_in_range false _ sample_match_indexer tt
    ec o p x' g' sample_match_coherent sample_match_specs E) as (_ & Hiff & _). apply Hiff.
  unfold out in E. vm_compute in E. injection E as _ <- _ _ _. reflexivity.
Defined.
