(* ===== verification/Coordination.v ===== *)
(** * Coordination: the distributed lock of [config/coordination_backend.h]

    [CoordinationBackend] as a class of operations, what its documentation
    promises about locks as the class [LawfulCoordination], and the in-memory
    implementation of [config/coordination_memory_backend.{h,cc}] as an
    instance. An operation reads the wall clock up to three times (when it
    drops expired locks, when it looks at the lock, when it sets the new
    expiry); the readings are the argument [Readings]. Times of the backend
    are nanoseconds since the epoch, the period of [system_clock]. *)

From stdpp Require Import base gmap sets list strings.
From Stdlib Require Import ZArith Lia.
From S2P Require Import Prelude StandardUri MetaTypes.

Local Open Scope Z_scope.

(** ** The interface *)

Record Readings := mkReadings { r_clean : Z; r_check : Z; r_set : Z }.

(** Successive readings of a clock that is not set back. *)
Definition ordered (r : Readings) : Prop := r_clean r <= r_check r <= r_set r.

#[global] Instance ordered_dec r : Decision (ordered r).
Proof. unfold ordered. apply _. Defined.

Definition ns_per_ms : Z := 1000000.

Class CoordinationBackend (T : Type) := {
  co_TryLock : Readings -> string -> string -> Z -> T -> ErrorCode * T;
  co_RenewLock : Readings -> string -> string -> Z -> T -> ErrorCode * T;
  co_Unlock : Readings -> string -> string -> T -> ErrorCode * T;
  (** The code, the holder and the expiry in milliseconds. *)
  co_GetLockHolder : Readings -> string -> T -> (ErrorCode * string * Z) * T;
  co_SetValue : string -> string -> T -> ErrorCode * T;
  (** The code and, when it is [EC_OK], the value written to [out_value]. *)
  co_GetValue : string -> T -> ErrorCode * option string;
}.

(** What the documentation promises. [co_lock s k] is the holder and expiry
    stored for [k]; it counts while the clock is before the expiry. *)
Class LawfulCoordination (T : Type) `{CoordinationBackend T} := {
  co_lock : T -> string -> option (string * Z);
  (** A lock taken or renewed is held by its owner for the whole ttl. *)
  law_TryLock_ok : forall r k v ttl s s',
    ordered r -> co_TryLock r k v ttl s = (EC_OK, s') ->
    exists x, co_lock s' k = Some (v, x) /\
      r_clean r + ttl * ns_per_ms <= x <= r_set r + ttl * ns_per_ms;
  law_RenewLock_ok : forall r k v ttl s s',
    ordered r -> co_RenewLock r k v ttl s = (EC_OK, s') ->
    exists x, co_lock s' k = Some (v, x) /\
      r_clean r + ttl * ns_per_ms <= x <= r_set r + ttl * ns_per_ms;
  (** An unexpired lock is changed only by its owner, *)
  law_TryLock_other : forall r k v ttl s ec s' k' w x,
    ordered r -> co_TryLock r k v ttl s = (ec, s') ->
    co_lock s k' = Some (w, x) -> r_set r < x -> (k', w) <> (k, v) ->
    co_lock s' k' = Some (w, x);
  law_RenewLock_other : forall r k v ttl s ec s' k' w x,
    ordered r -> co_RenewLock r k v ttl s = (ec, s') ->
    co_lock s k' = Some (w, x) -> r_set r < x -> (k', w) <> (k, v) ->
    co_lock s' k' = Some (w, x);
  law_Unlock_other : forall r k v s ec s' k' w x,
    ordered r -> co_Unlock r k v s = (ec, s') ->
    co_lock s k' = Some (w, x) -> r_set r < x -> (k', w) <> (k, v) ->
    co_lock s' k' = Some (w, x);
  (** and by the owner only when the operation succeeds. *)
  law_TryLock_failed : forall r k v ttl s ec s' w x,
    ordered r -> co_TryLock r k v ttl s = (ec, s') -> ec <> EC_OK ->
    co_lock s k = Some (w, x) -> r_set r < x -> co_lock s' k = Some (w, x);
  law_RenewLock_failed : forall r k v ttl s ec s' w x,
    ordered r -> co_RenewLock r k v ttl s = (ec, s') -> ec <> EC_OK ->
    co_lock s k = Some (w, x) -> r_set r < x -> co_lock s' k = Some (w, x);
  (** A query changes no unexpired lock and reports the stored holder. *)
  law_GetLockHolder_keeps : forall r k s res s' k' w x,
    ordered r -> co_GetLockHolder r k s = (res, s') ->
    co_lock s k' = Some (w, x) -> r_set r < x -> co_lock s' k' = Some (w, x);
  law_GetLockHolder_ok : forall r k s w ms s',
    ordered r -> co_GetLockHolder r k s = ((EC_OK, w, ms), s') ->
    exists x, co_lock s' k = Some (w, x) /\ ms = Z.quot x ns_per_ms /\ r_check r < x;
  law_GetLockHolder_none : forall r k s w ms s',
    ordered r -> co_GetLockHolder r k s = ((EC_NOENT, w, ms), s') -> w = EmptyString;
  (** No operation invents a lock. *)
  law_only_owner_creates : forall r k v ttl s ec s' k' w x,
    ordered r -> co_TryLock r k v ttl s = (ec, s') \/ co_RenewLock r k v ttl s = (ec, s') \/
      co_Unlock r k v s = (ec, s') ->
    co_lock s' k' = Some (w, x) ->
    co_lock s k' = Some (w, x) \/ (k' = k /\ w = v /\ x <= r_set r + ttl * ns_per_ms);
  law_query_creates_none : forall r k s res s' k' w x,
    ordered r -> co_GetLockHolder r k s = (res, s') ->
    co_lock s' k' = Some (w, x) -> co_lock s k' = Some (w, x);
}.

(** ** The in-memory backend *)

Record LockInfo := mkLockInfo { value : string; expire_time : Z }.

#[global] Instance LockInfo_eq_dec : EqDecision LockInfo.
Proof. solve_decision. Defined.

Record CoordinationMemoryBackend := mkMemory {
  locks_ : gmap string LockInfo;
  kv_store_ : gmap string string;
  initialized_ : bool;
}.

Definition memory_new : CoordinationMemoryBackend := mkMemory ∅ ∅ false.

Definition set_locks (l : gmap string LockInfo) (s : CoordinationMemoryBackend) :=
  mkMemory l (kv_store_ s) (initialized_ s).

Definition IsExpired (now : Z) (l : LockInfo) : bool := expire_time l <=? now.

Definition GetRemainingTTLMs (now : Z) (l : LockInfo) : Z :=
  if expire_time l <=? now then 0 else Z.quot (expire_time l - now) ns_per_ms.

Definition GetExpireTimeMs (l : LockInfo) : Z := Z.quot (expire_time l) ns_per_ms.

Definition Init (standard_uri : StandardUri) (s : CoordinationMemoryBackend)
    : ErrorCode * CoordinationMemoryBackend :=
  if initialized_ s then (EC_OK, s)
  else if negb (bool_decide (protocol_ standard_uri = chars_of "memory")) then (EC_BADARGS, s)
  else (EC_OK, mkMemory (locks_ s) (kv_store_ s) true).

Definition CleanupExpiredLocks (now : Z) (l : gmap string LockInfo) : gmap string LockInfo :=
  filter (fun kv => IsExpired now kv.2 = false) l.

Definition TryLock (r : Readings) (lock_key lock_value : string) (ttl_ms : Z)
    (s : CoordinationMemoryBackend) : ErrorCode * CoordinationMemoryBackend :=
  if negb (initialized_ s) then (EC_ERROR, s)
  else if bool_decide (lock_key = EmptyString) || bool_decide (lock_value = EmptyString) ||
          (ttl_ms <=? 0) then (EC_BADARGS, s)
  else
    let locks := CleanupExpiredLocks (r_clean r) (locks_ s) in
    let fresh := mkLockInfo lock_value (r_set r + ttl_ms * ns_per_ms) in
    match locks !! lock_key with
    | Some it =>
        if IsExpired (r_check r) it then (EC_OK, set_locks (<[lock_key := fresh]> locks) s)
        else if bool_decide (value it = lock_value)
             then (EC_OK, set_locks (<[lock_key := mkLockInfo (value it) (expire_time fresh)]> locks) s)
             else (EC_EXIST, set_locks locks s)
    | None => (EC_OK, set_locks (<[lock_key := fresh]> locks) s)
    end.

(** The check that opens [RenewLock], [Unlock] and [GetLockHolder] once the
    arguments are accepted: the expired locks go, then the lock is looked up,
    and dropped if it expired in between. *)
Definition find_unexpired (r : Readings) (lock_key : string) (s : CoordinationMemoryBackend)
    : option LockInfo * gmap string LockInfo :=
  let locks := CleanupExpiredLocks (r_clean r) (locks_ s) in
  match locks !! lock_key with
  | None => (None, locks)
  | Some it => if IsExpired (r_check r) it then (None, delete lock_key locks) else (Some it, locks)
  end.

Definition RenewLock (r : Readings) (lock_key lock_value : string) (ttl_ms : Z)
    (s : CoordinationMemoryBackend) : ErrorCode * CoordinationMemoryBackend :=
  if negb (initialized_ s) then (EC_ERROR, s)
  else if bool_decide (lock_key = EmptyString) || bool_decide (lock_value = EmptyString) ||
          (ttl_ms <=? 0) then (EC_BADARGS, s)
  else
    match find_unexpired r lock_key s with
    | (None, locks) => (EC_NOENT, set_locks locks s)
    | (Some it, locks) =>
        if bool_decide (value it <> lock_value) then (EC_MISMATCH, set_locks locks s)
        else (EC_OK, set_locks (<[lock_key := mkLockInfo (value it) (r_set r + ttl_ms * ns_per_ms)]> locks) s)
    end.

Definition Unlock (r : Readings) (lock_key lock_value : string) (s : CoordinationMemoryBackend)
    : ErrorCode * CoordinationMemoryBackend :=
  if negb (initialized_ s) then (EC_ERROR, s)
  else if bool_decide (lock_key = EmptyString) || bool_decide (lock_value = EmptyString)
  then (EC_BADARGS, s)
  else
    match find_unexpired r lock_key s with
    | (None, locks) => (EC_NOENT, set_locks locks s)
    | (Some it, locks) =>
        if bool_decide (value it <> lock_value) then (EC_MISMATCH, set_locks locks s)
        else (EC_OK, set_locks (delete lock_key locks) s)
    end.

(** On the first two errors the output arguments are not written: the caller's
    [current_value] is empty and [expire_time_ms] (here 0) is not read then. *)
Definition GetLockHolder (r : Readings) (lock_key : string) (s : CoordinationMemoryBackend)
    : (ErrorCode * string * Z) * CoordinationMemoryBackend :=
  if negb (initialized_ s) then ((EC_ERROR, EmptyString, 0), s)
  else if bool_decide (lock_key = EmptyString) then ((EC_BADARGS, EmptyString, 0), s)
  else
    match find_unexpired r lock_key s with
    | (None, locks) => ((EC_NOENT, EmptyString, 0), set_locks locks s)
    | (Some it, locks) => ((EC_OK, value it, GetExpireTimeMs it), set_locks locks s)
    end.

Definition SetValue (key v : string) (s : CoordinationMemoryBackend)
    : ErrorCode * CoordinationMemoryBackend :=
  if negb (initialized_ s) then (EC_ERROR, s)
  else if bool_decide (key = EmptyString) then (EC_BADARGS, s)
  else (EC_OK, mkMemory (locks_ s) (<[key := v]> (kv_store_ s)) (initialized_ s)).

Definition GetValue (key : string) (s : CoordinationMemoryBackend) : ErrorCode * option string :=
  if negb (initialized_ s) then (EC_ERROR, None)
  else if bool_decide (key = EmptyString) then (EC_BADARGS, None)
  else match kv_store_ s !! key with
       | None => (EC_NOENT, None)
       | Some v => (EC_OK, Some v)
       end.

#[global] Instance memory_CoordinationBackend : CoordinationBackend CoordinationMemoryBackend := {
  co_TryLock := TryLock;
  co_RenewLock := RenewLock;
  co_Unlock := Unlock;
  co_GetLockHolder := GetLockHolder;
  co_SetValue := SetValue;
  co_GetValue := GetValue;
}.

(** ** What the operations do to the locks *)

Definition memory_lock (s : CoordinationMemoryBackend) (k : string) : option (string * Z) :=
  (fun l => (value l, expire_time l)) <$> locks_ s !! k.

(** [ls'] keeps every lock of [ls] that is alive at [now] (except perhaps at
    [k]) and has no lock that [ls] has not (except perhaps at [k]). *)
Definition keeps_alive (now : Z) (except : string -> Prop) (ls ls' : gmap string LockInfo) : Prop :=
  forall k, ~ except k ->
    (forall l, ls !! k = Some l -> now < expire_time l -> ls' !! k = Some l) /\
    (forall l, ls' !! k = Some l -> ls !! k = Some l).

Lemma lookup_Cleanup now ls k l :
  CleanupExpiredLocks now ls !! k = Some l <-> ls !! k = Some l /\ now < expire_time l.
Proof.
  unfold CleanupExpiredLocks, IsExpired. rewrite map_lookup_filter_Some. simpl.
  rewrite Z.leb_gt. done.
Qed.

Lemma keeps_alive_cleanup now now' ex ls :
  now <= now' -> keeps_alive now' ex ls (CleanupExpiredLocks now ls).
Proof.
  intros Hle k _. split; intros l Hl; [intros Hx|].
  - apply lookup_Cleanup. split; [done|lia].
  - by apply lookup_Cleanup in Hl as [? _].
Qed.

Lemma keeps_alive_insert now (ex : string -> Prop) ls ls' k l :
  ex k -> keeps_alive now ex ls ls' -> keeps_alive now ex ls (<[k:=l]> ls').
Proof.
  intros Hex H k' Hk. rewrite lookup_insert_ne by (intros ->; done). by apply H.
Qed.

Lemma keeps_alive_delete now (ex : string -> Prop) ls ls' k :
  ex k -> keeps_alive now ex ls ls' -> keeps_alive now ex ls (delete k ls').
Proof.
  intros Hex H k' Hk. rewrite lookup_delete_ne by (intros ->; done). by apply H.
Qed.

(** Looking a lock up: what is found is stored and alive, and nothing alive
    is dropped. *)
Lemma find_unexpired_spec r k s o ls :
  ordered r -> find_unexpired r k s = (o, ls) ->
  keeps_alive (r_set r) (fun _ => False) (locks_ s) ls /\ o = ls !! k /\
  (forall l, o = Some l -> locks_ s !! k = Some l /\ r_check r < expire_time l).
Proof.
  intros [H1 H2]. unfold find_unexpired.
  pose proof (keeps_alive_cleanup (r_clean r) (r_set r) (fun _ => False) (locks_ s) ltac:(lia)) as Hk.
  destruct (CleanupExpiredLocks _ _ !! k) as [it|] eqn:E.
  - pose proof E as E'. apply lookup_Cleanup in E' as [Hit _]. unfold IsExpired.
    destruct (Z.leb_spec (expire_time it) (r_check r)); intros; simplify_eq/=.
    + split; [|split; [by rewrite lookup_delete_eq|done]].
      intros k' _. destruct (decide (k = k')) as [<-|Hne].
      * rewrite lookup_delete_eq, Hit. split; [|done]. intros l [= <-] ?. lia.
      * rewrite lookup_delete_ne by done. apply Hk. tauto.
    + split; [done|]. split; [done|]. intros l [= <-]. done.
  - intros; simplify_eq/=. by split_and!.
Qed.

Lemma keeps_alive_weaken now (ex : string -> Prop) ls ls' :
  keeps_alive now (fun _ => False) ls ls' -> keeps_alive now ex ls ls'.
Proof. intros H k _. apply H. tauto. Qed.

(** The one case analysis of the lock operations: what is stored for the
    operation's own key afterwards, and that the other keys only lose dead
    locks. *)
Lemma TryLock_spec r k v ttl s ec s' :
  ordered r -> TryLock r k v ttl s = (ec, s') ->
  keeps_alive (r_set r) (fun k' => ec = EC_OK /\ k' = k) (locks_ s) (locks_ s') /\
  (ec = EC_OK -> locks_ s' !! k = Some (mkLockInfo v (r_set r + ttl * ns_per_ms)) /\
     forall l, locks_ s !! k = Some l -> r_check r < expire_time l -> value l = v).
Proof.
  intros [H1 H2]. unfold TryLock, IsExpired.
  pose proof (fun ex => keeps_alive_cleanup (r_clean r) (r_set r) ex (locks_ s) ltac:(lia)) as Hc.
  repeat case_match; intros; simplify_eq/=; reflect_bools; subst.
  all: split; [first [apply keeps_alive_insert; by auto | by auto | intros ??; by split] | try done].
  all: intros _; rewrite lookup_insert_eq; split; [done|]; intros l' Hl' Hx'.
  all: first [ assert (CleanupExpiredLocks (r_clean r) (locks_ s) !! k = Some l')
                 by (apply lookup_Cleanup; split; [done|lia]); simplify_eq/=; lia || done ].
Qed.

Lemma RenewLock_spec r k v ttl s ec s' :
  ordered r -> RenewLock r k v ttl s = (ec, s') ->
  keeps_alive (r_set r) (fun k' => ec = EC_OK /\ k' = k) (locks_ s) (locks_ s') /\
  (ec = EC_OK -> locks_ s' !! k = Some (mkLockInfo v (r_set r + ttl * ns_per_ms)) /\
     exists l, locks_ s !! k = Some l /\ value l = v).
Proof.
  intros Hr. unfold RenewLock. destruct (find_unexpired r k s) as [o ls] eqn:E.
  apply find_unexpired_spec in E as (Hk & Ho & Hl); [|done].
  repeat case_match; intros; simplify_eq/=; reflect_bools.
  all: split; [first [apply keeps_alive_insert; [done|]; by apply keeps_alive_weaken
                     | by apply keeps_alive_weaken | intros ??; by split] | try done].
  intros _. rewrite lookup_insert_eq.
  match goal with H : ~ value ?l <> v |- _ => apply dec_stable in H as <- end.
  split; [done|]. destruct (Hl _ eq_refl); eauto.
Qed.

Lemma Unlock_spec r k v s ec s' :
  ordered r -> Unlock r k v s = (ec, s') ->
  keeps_alive (r_set r) (fun k' => ec = EC_OK /\ k' = k) (locks_ s) (locks_ s') /\
  (ec = EC_OK -> locks_ s' !! k = None /\ exists l, locks_ s !! k = Some l /\ value l = v).
Proof.
  intros Hr. unfold Unlock. destruct (find_unexpired r k s) as [o ls] eqn:E.
  apply find_unexpired_spec in E as (Hk & Ho & Hl); [|done].
  repeat case_match; intros; simplify_eq/=; reflect_bools.
  all: split; [first [apply keeps_alive_delete; [done|]; by apply keeps_alive_weaken
                     | by apply keeps_alive_weaken | intros ??; by split] | try done].
  intros _. rewrite lookup_delete_eq.
  match goal with H : ~ value ?l <> v |- _ => apply dec_stable in H as <- end.
  split; [done|]. destruct (Hl _ eq_refl); eauto.
Qed.

Lemma GetLockHolder_spec r k s ec w ms s' :
  ordered r -> GetLockHolder r k s = ((ec, w, ms), s') ->
  keeps_alive (r_set r) (fun _ => False) (locks_ s) (locks_ s') /\
  (ec = EC_OK -> exists l, locks_ s' !! k = Some l /\ w = value l /\ ms = GetExpireTimeMs l /\
     r_check r < expire_time l) /\
  (ec <> EC_OK -> w = EmptyString).
Proof.
  intros Hr. unfold GetLockHolder. destruct (find_unexpired r k s) as [o ls] eqn:E.
  apply find_unexpired_spec in E as (Hk & Ho & Hl); [|done].
  repeat case_match; intros; simplify_eq/=; split_and!; try done.
  intros _. eexists. split; [by symmetry|]. destruct (Hl _ eq_refl); eauto.
Qed.

Lemma memory_lock_Some s k w x :
  memory_lock s k = Some (w, x) <-> locks_ s !! k = Some (mkLockInfo w x).
Proof.
  unfold memory_lock. rewrite fmap_Some. split; [intros ([w' x'] & -> & ?); by simplify_eq/=|].
  intros ->. by eexists.
Qed.

Lemma keeps_alive_lock now (ex : string -> Prop) s s' k w x :
  keeps_alive now ex (locks_ s) (locks_ s') -> ~ ex k ->
  (memory_lock s k = Some (w, x) -> now < x -> memory_lock s' k = Some (w, x)) /\
  (memory_lock s' k = Some (w, x) -> memory_lock s k = Some (w, x)).
Proof.
  intros H Hex. destruct (H k Hex) as [H1 H2]. rewrite !memory_lock_Some. split; [|by apply H2].
  intros Hl Hx. by apply (H1 (mkLockInfo w x)).
Qed.

#[global] Program Instance memory_LawfulCoordination : LawfulCoordination CoordinationMemoryBackend := {
  co_lock := memory_lock;
}.
Next Obligation.
  intros r k v ttl s s' Hr Hop. apply TryLock_spec in Hop as [_ H]; [|done].
  destruct (H eq_refl) as [Hl _]. destruct Hr. eexists. rewrite memory_lock_Some. split; [done|lia].
Qed.
Next Obligation.
  intros r k v ttl s s' Hr Hop. apply RenewLock_spec in Hop as [_ H]; [|done].
  destruct (H eq_refl) as [Hl _]. destruct Hr. eexists. rewrite memory_lock_Some. split; [done|lia].
Qed.
Next Obligation.
  intros r k v ttl s ec s' k' w x Hr Hop Hl Hx Hne. apply TryLock_spec in Hop as [Hk Hok]; [|done].
  apply (keeps_alive_lock _ _ _ _ _ _ _ Hk); [|done|done]. intros [-> ->].
  destruct (Hok eq_refl) as [_ Hv]. destruct Hr. apply Hne. f_equal.
  apply memory_lock_Some in Hl. apply (Hv _ Hl). simpl. lia.
Qed.
Next Obligation.
  intros r k v ttl s ec s' k' w x Hr Hop Hl Hx Hne. apply RenewLock_spec in Hop as [Hk Hok]; [|done].
  apply (keeps_alive_lock _ _ _ _ _ _ _ Hk); [|done|done]. intros [-> ->].
  destruct (Hok eq_refl) as (_ & l & Hl' & Hv). apply memory_lock_Some in Hl. by simplify_eq/=.
Qed.
Next Obligation.
  intros r k v s ec s' k' w x Hr Hop Hl Hx Hne. apply Unlock_spec in Hop as [Hk Hok]; [|done].
  apply (keeps_alive_lock _ _ _ _ _ _ _ Hk); [|done|done]. intros [-> ->].
  destruct (Hok eq_refl) as (_ & l & Hl' & Hv). apply memory_lock_Some in Hl. by simplify_eq/=.
Qed.
Next Obligation.
  intros r k v ttl s ec s' w x Hr Hop Hec Hl Hx. apply TryLock_spec in Hop as [Hk _]; [|done].
  apply (keeps_alive_lock _ _ _ _ _ _ _ Hk); [by intros []|done|done].
Qed.
Next Obligation.
  intros r k v ttl s ec s' w x Hr Hop Hec Hl Hx. apply RenewLock_spec in Hop as [Hk _]; [|done].
  apply (keeps_alive_lock _ _ _ _ _ _ _ Hk); [by intros []|done|done].
Qed.
Next Obligation.
  intros r k s [[ec w'] ms] s' k' w x Hr Hop Hl Hx. apply GetLockHolder_spec in Hop as [Hk _]; [|done].
  apply (keeps_alive_lock _ _ _ _ _ _ _ Hk); [tauto|done|done].
Qed.
Next Obligation.
  intros r k s w ms s' Hr Hop. apply GetLockHolder_spec in Hop as (_ & H & _); [|done].
  destruct (H eq_refl) as ([w' x] & Hl & -> & -> & ?). exists x. by rewrite memory_lock_Some.
Qed.
Next Obligation.
  intros r k s w ms s' Hr Hop. apply GetLockHolder_spec in Hop as (_ & _ & H); [|done]. by apply H.
Qed.
Next Obligation.
  intros r k v ttl s ec s' k' w x Hr Hop Hl.
  destruct (decide (ec = EC_OK /\ k' = k)) as [[-> ->]|Hne].
  - rewrite memory_lock_Some in Hl. destruct Hop as [Hop|[Hop|Hop]].
    + apply TryLock_spec in Hop as [_ H]; [|done]. destruct (H eq_refl). simplify_eq/=. right. by split_and!.
    + apply RenewLock_spec in Hop as [_ H]; [|done]. destruct (H eq_refl). simplify_eq/=. right. by split_and!.
    + apply Unlock_spec in Hop as [_ H]; [|done]. destruct (H eq_refl). congruence.
  - left. destruct Hop as [Hop|[Hop|Hop]].
    + apply TryLock_spec in Hop as [Hk _]; [|done]. by apply (keeps_alive_lock _ _ _ _ _ _ _ Hk Hne).
    + apply RenewLock_spec in Hop as [Hk _]; [|done]. by apply (keeps_alive_lock _ _ _ _ _ _ _ Hk Hne).
    + apply Unlock_spec in Hop as [Hk _]; [|done]. by apply (keeps_alive_lock _ _ _ _ _ _ _ Hk Hne).
Qed.
Next Obligation.
  intros r k s [[ec w'] ms] s' k' w x Hr Hop Hl. apply GetLockHolder_spec in Hop as [Hk _]; [|done].
  apply (keeps_alive_lock _ _ _ _ _ _ _ Hk); [tauto|done].
Qed.

(** ** Result codes *)

(** The holder of a lock at a time, and the locks alive at a time: what a
    client can observe. *)
Definition holder_at (now : Z) (s : CoordinationMemoryBackend) (k : string) : option string :=
  match locks_ s !! k with
  | Some l => if IsExpired now l then None else Some (value l)
  | None => None
  end.

Definition bad_lock_args (k v : string) (ttl : Z) : bool :=
  bool_decide (k = EmptyString) || bool_decide (v = EmptyString) || (ttl <=? 0).

(** The code the documentation prescribes for a taker and for an owner's
    operation, from who holds the lock. *)
Definition taker_code (holder : option string) (v : string) : ErrorCode :=
  match holder with
  | None => EC_OK
  | Some w => if bool_decide (w = v) then EC_OK else EC_EXIST
  end.

Definition owner_code (holder : option string) (v : string) : ErrorCode :=
  match holder with
  | None => EC_NOENT
  | Some w => if bool_decide (w = v) then EC_OK else EC_MISMATCH
  end.

Lemma find_unexpired_holder r k s :
  ordered r -> value <$> (find_unexpired r k s).1 = holder_at (r_check r) s k.
Proof.
  intros [H1 H2]. unfold find_unexpired, holder_at.
  destruct (locks_ s !! k) as [l|] eqn:E.
  - destruct (decide (r_clean r < expire_time l)) as [Hx|Hx].
    + replace (CleanupExpiredLocks (r_clean r) (locks_ s) !! k) with (Some l)
        by (symmetry; by apply lookup_Cleanup).
      unfold IsExpired. by destruct (expire_time l <=? r_check r).
    + destruct (CleanupExpiredLocks _ _ !! k) as [l'|] eqn:E'.
      * apply lookup_Cleanup in E' as [? ?]. simplify_eq. lia.
      * unfold IsExpired. simpl. by rewrite (proj2 (Z.leb_le _ _)) by lia.
  - destruct (CleanupExpiredLocks _ _ !! k) as [l'|] eqn:E'; [|done].
    apply lookup_Cleanup in E' as [? ?]. simplify_eq.
Qed.

Lemma owner_code_found (o : option LockInfo) v h :
  value <$> o = h ->
  owner_code h v =
    match o with
    | None => EC_NOENT
    | Some it => if bool_decide (value it <> v) then EC_MISMATCH else EC_OK
    end.
Proof.
  intros <-. destruct o as [it|]; simpl; [|done].
  destruct (decide (value it = v)); [rewrite (bool_decide_eq_true_2 (value it = v)), bool_decide_eq_false_2
    | rewrite (bool_decide_eq_false_2 (value it = v)), bool_decide_eq_true_2]; tauto.
Qed.

(** A failed operation leaves every lock that is alive afterwards, and its
    holder, as they were. *)
Lemma keeps_alive_holder_at now ls s' s :
  keeps_alive now (fun _ => False) (locks_ s) ls -> locks_ s' = ls ->
  forall t k, now <= t -> holder_at t s' k = holder_at t s k.
Proof.
  intros H <- t k Ht. destruct (H k ltac:(tauto)) as [H1 H2]. unfold holder_at, IsExpired.
  destruct (locks_ s !! k) as [l|] eqn:E.
  - destruct (Z.leb_spec (expire_time l) t).
    + destruct (locks_ s' !! k) as [l'|] eqn:E'; [|done].
      specialize (H2 _ eq_refl). simplify_eq. by rewrite (proj2 (Z.leb_le _ _)).
    + rewrite (H1 l eq_refl) by lia. by rewrite (proj2 (Z.leb_gt _ _)).
  - destruct (locks_ s' !! k) as [l'|]; [|done]. by specialize (H2 _ eq_refl).
Qed.

Lemma TryLock_code r k v ttl s :
  ordered r -> initialized_ s = true -> bad_lock_args k v ttl = false ->
  (TryLock r k v ttl s).1 = taker_code (holder_at (r_check r) s k) v.
Proof.
  intros Hr Hi Hb. rewrite <-find_unexpired_holder by done.
  unfold TryLock, find_unexpired, bad_lock_args in *. rewrite Hi, Hb. simpl.
  repeat case_match; simplify_eq/=; try done; by repeat case_match.
Qed.

Lemma owner_codes r k v ttl s :
  ordered r -> initialized_ s = true -> bad_lock_args k v ttl = false ->
  (RenewLock r k v ttl s).1 = owner_code (holder_at (r_check r) s k) v /\
  (Unlock r k v s).1 = owner_code (holder_at (r_check r) s k) v.
Proof.
  intros Hr Hi Hb. unfold RenewLock, Unlock. unfold bad_lock_args in Hb. rewrite Hi, Hb. simpl.
  apply orb_false_iff in Hb as [-> _]. pose proof (find_unexpired_holder r k s Hr) as Hh.
  destruct (find_unexpired r k s) as [o ls]. rewrite (owner_code_found o v _ Hh).
  destruct o; [|done]. by case_bool_decide.
Qed.

(** The state after a failed operation, for the three that can fail. *)
Lemma failed_keeps_alive r k v ttl s ec s' :
  ordered r -> ec <> EC_OK ->
  (TryLock r k v ttl s = (ec, s') \/ RenewLock r k v ttl s = (ec, s') \/ Unlock r k v s = (ec, s')) ->
  keeps_alive (r_set r) (fun _ => False) (locks_ s) (locks_ s').
Proof.
  intros Hr Hec Hop. destruct Hop as [Hop|[Hop|Hop]];
    [apply TryLock_spec in Hop as [Hk _]|apply RenewLock_spec in Hop as [Hk _]
    |apply Unlock_spec in Hop as [Hk _]]; try done; intros k' _; apply Hk; by intros [].
Qed.

(** The lock operations of the in-memory coordination backend fail
    exactly as documented. Before initialisation they answer [EC_ERROR], on
    an empty key, an empty holder or a non-positive ttl [EC_BADARGS], both
    without touching the backend. Otherwise the code is determined by who
    holds the lock at the time it is examined (nobody once it has expired):
    a taker succeeds on a free lock or on its own and gets [EC_EXIST]
    otherwise; renewing and unlocking succeed for the holder, give
    [EC_NOENT] on a free lock and [EC_MISMATCH] on somebody else's. Every
    operation that fails leaves, for every key and from its end on, the same
    holder, and the in-between expiry of a lock while the operation runs
    makes no difference. *)
Theorem lock_errors_exact r k v ttl s :
  ordered r ->
  (initialized_ s = false ->
     TryLock r k v ttl s = (EC_ERROR, s) /\ RenewLock r k v ttl s = (EC_ERROR, s) /\
     Unlock r k v s = (EC_ERROR, s)) /\
  (initialized_ s = true -> bad_lock_args k v ttl = true ->
     TryLock r k v ttl s = (EC_BADARGS, s) /\ RenewLock r k v ttl s = (EC_BADARGS, s)) /\
  (initialized_ s = true -> bad_lock_args k v ttl = false ->
     (TryLock r k v ttl s).1 = taker_code (holder_at (r_check r) s k) v /\
     (RenewLock r k v ttl s).1 = owner_code (holder_at (r_check r) s k) v /\
     (Unlock r k v s).1 = owner_code (holder_at (r_check r) s k) v) /\
  (forall ec s' t k', ec <> EC_OK ->
     TryLock r k v ttl s = (ec, s') \/ RenewLock r k v ttl s = (ec, s') \/ Unlock r k v s = (ec, s') ->
     r_set r <= t -> holder_at t s' k' = holder_at t s k').
Proof.
  intros Hr. split_and!.
  - intros Hi. unfold TryLock, RenewLock, Unlock. by rewrite Hi.
  - intros Hi Hb. unfold TryLock, RenewLock, bad_lock_args in *. by rewrite Hi, Hb.
  - intros Hi Hb. split; [by apply TryLock_code|by apply owner_codes].
  - intros ec s' t k' Hec Hop Ht.
    by apply (keeps_alive_holder_at _ _ _ _ (failed_keeps_alive _ _ _ _ _ _ _ Hr Hec Hop) eq_refl).
Qed.

(** A lock held by "b" until 9 ms; "a" asks at 5 ms, and at 9 ms, when the
    lock has expired since the clean-up. *)
Lemma lock_errors_exact_witness :
  let s := mkMemory {[ "k" := mkLockInfo "b" 9000000 ]} ∅ true in
  let r5 := mkReadings 5000000 5000000 5000001 in
  let r9 := mkReadings 8999999 9000000 9000000 in
  (TryLock r5 "k" "a" 10 s).1 = EC_EXIST /\ (Unlock r5 "k" "a" s).1 = EC_MISMATCH /\
  (RenewLock r9 "k" "b" 10 s).1 = EC_NOENT /\
  holder_at 5000001 (TryLock r5 "k" "a" 10 s).2 "k" = Some "b".
Proof.
  intros s r5 r9.
  pose proof (lock_errors_exact r5 "k" "a" 10 s ltac:(unfold ordered, r5; simpl; lia)) as (_ & _ & H & Hf).
  destruct (H eq_refl eq_refl) as (Ht & _ & Hu).
  pose proof (lock_errors_exact r9 "k" "b" 10 s ltac:(unfold ordered, r9; simpl; lia)) as (_ & _ & H9 & _).
  destruct (H9 eq_refl eq_refl) as (_ & Hr9 & _).
  split; [rewrite Ht; reflexivity|]. split; [rewrite Hu; reflexivity|]. split; [rewrite Hr9; reflexivity|].
  rewrite (Hf EC_EXIST _ 5000001 "k"); [reflexivity|discriminate|left; reflexivity|unfold r5; simpl; lia].
Defined.
