(* ===== verification/LeaderElector.v ===== *)
(** * LeaderElector: lease-based leader election of [config/leader_elector.{h,cc}]

    A replica holds a distributed lock with a lease; four threads work on one
    [LeaderElector]: the work loop campaigns and renews, the lease check drops
    an old lease, the worker runs the role transitions queued by lock changes,
    and an administrator may call [Demote]. The elector is written against
    the interface of [Coordination]. The local code between two calls of the
    coordination backend is one step: [campaign_got], [campaign_tried] and
    [hold_renewed] are what [CampaignLeader] and [HoldLeader] do with the
    answer of a call. Elector times are microseconds. The become-leader and
    no-longer-leader handlers are recorded in a log (an exception they throw
    is caught and ignored). *)

From stdpp Require Import base gmap sets list strings.
From Stdlib Require Import ZArith Lia.
From S2P Require Import Prelude MetaTypes Coordination.

Local Open Scope Z_scope.

(** ** State *)

Inductive RoleState := FOLLOWER | PROMOTING | LEADER | DEMOTING.

#[global] Instance RoleState_eq_dec : EqDecision RoleState.
Proof. solve_decision. Defined.

(** The action of a task, a closure over the elector. *)
Inductive Handler := become_leader_handler_ | no_longer_leader_handler_.

#[global] Instance Handler_eq_dec : EqDecision Handler.
Proof. solve_decision. Defined.

Record RoleTransitionTask := mkTask { version : Z; target_state : RoleState; action : Handler }.

#[global] Instance RoleTransitionTask_eq_dec : EqDecision RoleTransitionTask.
Proof. solve_decision. Defined.

(** What the constructor sets for good. *)
Record ElectorConfig := mkConfig {
  lock_key_ : string;
  lock_value_ : string;
  lease_timeout_us_ : Z;
  loop_interval_us_ : Z;
}.

Definition make_config (lock_key lock_value : string) (lease_ms loop_interval_ms : Z) : ElectorConfig :=
  mkConfig lock_key lock_value (lease_ms * 1000) (loop_interval_ms * 1000).

Record LeaderElector := mkElector {
  lock_acquired_ : bool;
  lease_expiration_time_us_ : Z;
  current_lock_holder_ : string;
  role_state_ : RoleState;
  state_version_ : Z;
  is_transitioning_ : bool;
  transition_queue_ : list RoleTransitionTask;
  last_loop_time_ : Z;
  next_can_campaign_time_us_ : Z;
  forbid_campaign_time_ms_ : Z;
  (** The handlers run so far, newest first. *)
  handler_calls : list Handler;
}.

Definition elector_new : LeaderElector :=
  mkElector false (-1) EmptyString FOLLOWER 0 false [] (-1) 0 0 [].

Definition set_lock_status (acquired : bool) (lease : Z) (e : LeaderElector) :=
  mkElector acquired lease (current_lock_holder_ e) (role_state_ e) (state_version_ e)
    (is_transitioning_ e) (transition_queue_ e) (last_loop_time_ e) (next_can_campaign_time_us_ e)
    (forbid_campaign_time_ms_ e) (handler_calls e).
Definition set_holder (h : string) (e : LeaderElector) :=
  mkElector (lock_acquired_ e) (lease_expiration_time_us_ e) h (role_state_ e) (state_version_ e)
    (is_transitioning_ e) (transition_queue_ e) (last_loop_time_ e) (next_can_campaign_time_us_ e)
    (forbid_campaign_time_ms_ e) (handler_calls e).
Definition set_next_campaign (t : Z) (e : LeaderElector) :=
  mkElector (lock_acquired_ e) (lease_expiration_time_us_ e) (current_lock_holder_ e) (role_state_ e)
    (state_version_ e) (is_transitioning_ e) (transition_queue_ e) (last_loop_time_ e) t
    (forbid_campaign_time_ms_ e) (handler_calls e).
Definition set_queue (v : Z) (q : list RoleTransitionTask) (e : LeaderElector) :=
  mkElector (lock_acquired_ e) (lease_expiration_time_us_ e) (current_lock_holder_ e) (role_state_ e)
    v (is_transitioning_ e) q (last_loop_time_ e) (next_can_campaign_time_us_ e)
    (forbid_campaign_time_ms_ e) (handler_calls e).
Definition set_role (r : RoleState) (e : LeaderElector) :=
  mkElector (lock_acquired_ e) (lease_expiration_time_us_ e) (current_lock_holder_ e) r
    (state_version_ e) (is_transitioning_ e) (transition_queue_ e) (last_loop_time_ e)
    (next_can_campaign_time_us_ e) (forbid_campaign_time_ms_ e) (handler_calls e).
Definition set_transitioning (b : bool) (e : LeaderElector) :=
  mkElector (lock_acquired_ e) (lease_expiration_time_us_ e) (current_lock_holder_ e) (role_state_ e)
    (state_version_ e) b (transition_queue_ e) (last_loop_time_ e)
    (next_can_campaign_time_us_ e) (forbid_campaign_time_ms_ e) (handler_calls e).
Definition set_last_loop (t : Z) (e : LeaderElector) :=
  mkElector (lock_acquired_ e) (lease_expiration_time_us_ e) (current_lock_holder_ e) (role_state_ e)
    (state_version_ e) (is_transitioning_ e) (transition_queue_ e) t
    (next_can_campaign_time_us_ e) (forbid_campaign_time_ms_ e) (handler_calls e).
Definition call_handler (h : Handler) (e : LeaderElector) :=
  mkElector (lock_acquired_ e) (lease_expiration_time_us_ e) (current_lock_holder_ e) (role_state_ e)
    (state_version_ e) (is_transitioning_ e) (transition_queue_ e) (last_loop_time_ e)
    (next_can_campaign_time_us_ e) (forbid_campaign_time_ms_ e) (h :: handler_calls e).

Definition SetForbidCampaignLeaderTimeMs (forbid_time : Z) (e : LeaderElector) :=
  mkElector (lock_acquired_ e) (lease_expiration_time_us_ e) (current_lock_holder_ e) (role_state_ e)
    (state_version_ e) (is_transitioning_ e) (transition_queue_ e) (last_loop_time_ e)
    (next_can_campaign_time_us_ e) forbid_time (handler_calls e).

Definition IsLeader (e : LeaderElector) : bool := lock_acquired_ e.
Definition GetRoleState (e : LeaderElector) : RoleState := role_state_ e.
Definition GetLeaseExpirationTime (e : LeaderElector) : Z := lease_expiration_time_us_ e.
Definition GetLeaderNodeID (e : LeaderElector) : string := current_lock_holder_ e.

Definition IsStableState (e : LeaderElector) : bool :=
  (bool_decide (role_state_ e = LEADER) || bool_decide (role_state_ e = FOLLOWER)) &&
  negb (is_transitioning_ e).

(** ** Role transitions *)

Definition push_task (target : RoleState) (h : Handler) (q : list RoleTransitionTask) (e : LeaderElector) :=
  let new_version := u64 (state_version_ e + 1) in
  set_queue new_version (q ++ [mkTask new_version target h]) e.

Definition RequestPromoteToLeader (e : LeaderElector) : LeaderElector :=
  match role_state_ e with
  | LEADER | PROMOTING => e
  | _ => push_task LEADER become_leader_handler_ (transition_queue_ e) e
  end.

(** The swap drops every queued task. *)
Definition RequestDemoteToFollower (e : LeaderElector) : LeaderElector :=
  match role_state_ e with
  | FOLLOWER | DEMOTING => e
  | _ => push_task FOLLOWER no_longer_leader_handler_ [] e
  end.

Definition valid_transition (current target : RoleState) : bool :=
  match current with
  | FOLLOWER => bool_decide (target = PROMOTING)
  | PROMOTING => bool_decide (target = LEADER) || bool_decide (target = FOLLOWER)
  | LEADER => bool_decide (target = DEMOTING)
  | DEMOTING => bool_decide (target = FOLLOWER)
  end.

Definition TransitionToState (target : RoleState) (e : LeaderElector) : bool * LeaderElector :=
  if valid_transition (role_state_ e) target then (true, set_role target e) else (false, e).

Definition intermediate_state (target : RoleState) : option RoleState :=
  match target with
  | LEADER => Some PROMOTING
  | FOLLOWER => Some DEMOTING
  | _ => None
  end.

(** The first part of [ExecuteTransitionTask], up to the call of the handler;
    [false] when the task is dropped. *)
Definition begin_transition (task : RoleTransitionTask) (e : LeaderElector) : bool * LeaderElector :=
  let e := set_transitioning true e in
  match intermediate_state (target_state task) with
  | None => (false, set_transitioning false e)
  | Some i =>
      let '(ok, e) := TransitionToState i e in
      if ok then (true, call_handler (action task) e) else (false, set_transitioning false e)
  end.

(** The rest, once the handler has returned (or thrown). *)
Definition finish_transition (task : RoleTransitionTask) (e : LeaderElector) : LeaderElector :=
  set_transitioning false (TransitionToState (target_state task) e).2.

Definition ExecuteTransitionTask (task : RoleTransitionTask) (e : LeaderElector) : LeaderElector :=
  let '(go, e) := begin_transition task e in
  if go then finish_transition task e else e.

Definition pop_task (e : LeaderElector) : option (RoleTransitionTask * LeaderElector) :=
  match transition_queue_ e with
  | [] => None
  | task :: q => Some (task, set_queue (state_version_ e) q e)
  end.

(** The loop ends when the queue is empty; a task pushes none, so the length
    of the queue is enough fuel. *)
Fixpoint process_transitions (fuel : nat) (e : LeaderElector) : LeaderElector :=
  match fuel with
  | O => e
  | S fuel =>
      match pop_task e with
      | None => e
      | Some (task, e) => process_transitions fuel (ExecuteTransitionTask task e)
      end
  end.

Definition ProcessStateTransitionsForTest (e : LeaderElector) : LeaderElector :=
  process_transitions (length (transition_queue_ e)) e.

(** ** Lock status *)

Definition forbid_campaign (current_time : Z) (e : LeaderElector) : LeaderElector :=
  if 0 <? forbid_campaign_time_ms_ e
  then set_next_campaign (current_time + forbid_campaign_time_ms_ e * 1000) e else e.

Section elector.
Context {T : Type} `{CB : CoordinationBackend T}.
Variable c : ElectorConfig.

Definition UpdateLockStatus (current_time : Z) (acquired : bool) (lease_expiration_time : Z)
    (e : LeaderElector) : LeaderElector :=
  let old_acquired := lock_acquired_ e in
  let e := if old_acquired && negb acquired then forbid_campaign current_time e else e in
  let e := set_lock_status acquired lease_expiration_time e in
  if Bool.eqb old_acquired acquired then e
  else if acquired then RequestPromoteToLeader (set_holder (lock_value_ c) e)
  else RequestDemoteToFollower
         (if bool_decide (current_lock_holder_ e = lock_value_ c) then set_holder EmptyString e else e).

(** After [GetLockHolder]: [true] when the campaign goes on to [TryLock]. *)
Definition campaign_got (current_time : Z) (ans : ErrorCode * string * Z) (e : LeaderElector)
    : bool * LeaderElector :=
  let '(ec, current_value, expire_time_ms) := ans in
  if bool_decide (ec <> EC_OK) && bool_decide (ec <> EC_NOENT) then (false, e)
  else
    let e := set_holder current_value e in
    if bool_decide (current_value <> EmptyString) then
      if bool_decide (current_value <> lock_value_ c) then (false, e)
      else (false, UpdateLockStatus current_time true (expire_time_ms * 1000) e)
    else (true, e).

Definition campaign_tried (current_time : Z) (ec : ErrorCode) (e : LeaderElector) : LeaderElector :=
  if bool_decide (ec = EC_OK)
  then UpdateLockStatus current_time true (current_time + lease_timeout_us_ c) e else e.

(** [r1] and [r2] are the clock readings of the two calls. *)
Definition CampaignLeader (current_time : Z) (r1 r2 : Readings) (e : LeaderElector) (b : T)
    : LeaderElector * T :=
  if current_time <? next_can_campaign_time_us_ e then (e, b)
  else
    let '(ans, b) := co_GetLockHolder r1 (lock_key_ c) b in
    let '(go, e) := campaign_got current_time ans e in
    if go then
      let '(ec, b) := co_TryLock r2 (lock_key_ c) (lock_value_ c) (Z.quot (lease_timeout_us_ c) 1000) b in
      (campaign_tried current_time ec e, b)
    else (e, b).

Definition hold_renewed (current_time : Z) (ec : ErrorCode) (e : LeaderElector) : LeaderElector :=
  if bool_decide (ec = EC_OK)
  then UpdateLockStatus current_time true (current_time + lease_timeout_us_ c) e
  else if bool_decide (ec = EC_NOENT) || bool_decide (ec = EC_MISMATCH)
  then UpdateLockStatus current_time false (-1) e
  else if GetLeaseExpirationTime e <? current_time
  then UpdateLockStatus current_time false (-1) e
  else e.

Definition HoldLeader (current_time : Z) (r : Readings) (e : LeaderElector) (b : T)
    : LeaderElector * T :=
  if negb (lock_acquired_ e) then (e, b)
  else
    let '(ec, b) := co_RenewLock r (lock_key_ c) (lock_value_ c) (Z.quot (lease_timeout_us_ c) 1000) b in
    (hold_renewed current_time ec e, b).

(** [begin_time] is the clock reading stored as the time of the last loop. *)
Definition DoWorkLoop (current_time begin_time : Z) (r1 r2 r3 : Readings) (e : LeaderElector) (b : T)
    : LeaderElector * T :=
  let e := set_last_loop begin_time e in
  let '(e, b) := if negb (lock_acquired_ e) then CampaignLeader current_time r1 r2 e b else (e, b) in
  if lock_acquired_ e then HoldLeader current_time r3 e b else (e, b).

Definition DoCheckLeaseTimeout (current_time : Z) (e : LeaderElector) : bool * LeaderElector :=
  if negb (lock_acquired_ e) then (false, e)
  else if GetLeaseExpirationTime e - loop_interval_us_ c <? current_time
  then (false, UpdateLockStatus current_time false (-1) e)
  else (true, e).

Definition DoDemote (current_time : Z) (r : Readings) (e : LeaderElector) (b : T) : LeaderElector * T :=
  if negb (lock_acquired_ e) then (e, b)
  else
    let e := forbid_campaign current_time e in
    let '(ec, b) := co_Unlock r (lock_key_ c) (lock_value_ c) b in
    (UpdateLockStatus current_time false (-1) e, b).
End elector.

(** ** The threads of one elector *)

(** Where the work loop is: before its next call of the backend, or with the
    answer of the last one still to be handled. *)
Inductive WorkPc :=
  | PIdle
  | PQuery (current_time : Z)
  | PGot (current_time : Z) (ans : ErrorCode * string * Z)
  | PTry (current_time : Z)
  | PTried (current_time : Z) (ec : ErrorCode)
  | PRenew (current_time : Z)
  | PRenewed (current_time : Z) (ec : ErrorCode).

(** [Demote]: before the release of the lock, before the status update. *)
Inductive DemotePc := DIdle | DUnlock (current_time : Z) | DUpdate (current_time : Z).

(** The worker: waiting, with a task taken from the queue, or running its
    handler. *)
Inductive WorkerPc := KIdle | KPopped (task : RoleTransitionTask) | KRunning (task : RoleTransitionTask).

Record Node := mkNode {
  n_cfg : ElectorConfig;
  n_elector : LeaderElector;
  n_work : WorkPc;
  n_demote : DemotePc;
  n_worker : WorkerPc;
}.

Definition set_elector (e : LeaderElector) (n : Node) :=
  mkNode (n_cfg n) e (n_work n) (n_demote n) (n_worker n).

Definition fresh_node (c : ElectorConfig) : Node := mkNode c elector_new PIdle DIdle KIdle.

(** [StateTransitionWorker], one step at a time. *)
Definition worker_step (n : Node) : Node :=
  let e := n_elector n in
  match n_worker n with
  | KIdle =>
      match pop_task e with
      | None => n
      | Some (task, e) => mkNode (n_cfg n) e (n_work n) (n_demote n) (KPopped task)
      end
  | KPopped task =>
      let '(go, e) := begin_transition task e in
      mkNode (n_cfg n) e (n_work n) (n_demote n) (if go then KRunning task else KIdle)
  | KRunning task => mkNode (n_cfg n) (finish_transition task e) (n_work n) (n_demote n) KIdle
  end.

Fixpoint worker_steps (m : nat) (n : Node) : Node :=
  match m with O => n | S m => worker_steps m (worker_step n) end.

Section threads.
Context {T : Type} `{CB : CoordinationBackend T}.

(** The end of [CampaignLeader] in [DoWorkLoop]. *)
Definition after_campaign (current_time : Z) (e : LeaderElector) : WorkPc :=
  if lock_acquired_ e then PRenew current_time else PIdle.

(** The next step of the work loop: a backend call with the readings [r], or
    the local code up to the next call; [now_us] is the clock when a round
    begins. *)
Definition work_step (now_us : Z) (r : Readings) (n : Node) (b : T) : Node * T :=
  let c := n_cfg n in
  let e := n_elector n in
  let goto pc e b := (mkNode c e pc (n_demote n) (n_worker n), b) in
  match n_work n with
  | PIdle =>
      let e := set_last_loop now_us e in
      if lock_acquired_ e then goto (PRenew now_us) e b
      else if now_us <? next_can_campaign_time_us_ e then goto PIdle e b
      else goto (PQuery now_us) e b
  | PQuery cur =>
      let '(ans, b) := co_GetLockHolder r (lock_key_ c) b in goto (PGot cur ans) e b
  | PGot cur ans =>
      let '(go, e) := campaign_got c cur ans e in
      goto (if go then PTry cur else after_campaign cur e) e b
  | PTry cur =>
      let '(ec, b) := co_TryLock r (lock_key_ c) (lock_value_ c) (Z.quot (lease_timeout_us_ c) 1000) b in
      goto (PTried cur ec) e b
  | PTried cur ec =>
      let e := campaign_tried c cur ec e in goto (after_campaign cur e) e b
  | PRenew cur =>
      (** [HoldLeader] looks at [lock_acquired_] again. *)
      if lock_acquired_ e then
        let '(ec, b) := co_RenewLock r (lock_key_ c) (lock_value_ c) (Z.quot (lease_timeout_us_ c) 1000) b in
        goto (PRenewed cur ec) e b
      else goto PIdle e b
  | PRenewed cur ec => goto PIdle (hold_renewed c cur ec e) b
  end.

Definition demote_step (now_us : Z) (r : Readings) (n : Node) (b : T) : Node * T :=
  let c := n_cfg n in
  let e := n_elector n in
  let goto pc e b := (mkNode c e (n_work n) pc (n_worker n), b) in
  match n_demote n with
  | DIdle =>
      if lock_acquired_ e then goto (DUnlock now_us) (forbid_campaign now_us e) b else goto DIdle e b
  | DUnlock cur => let '(ec, b) := co_Unlock r (lock_key_ c) (lock_value_ c) b in goto (DUpdate cur) e b
  | DUpdate cur => goto DIdle (UpdateLockStatus c cur false (-1) e) b
  end.

Definition check_step (now_us : Z) (n : Node) : Node :=
  set_elector (DoCheckLeaseTimeout (n_cfg n) now_us (n_elector n)).2 n.

(** ** Several electors on one backend *)

Record System := mkSystem { s_now : Z; s_backend : T; s_nodes : list Node }.

Inductive Label := LWork (i : nat) | LCheck (i : nat) | LDemote (i : nat) | LWorker (i : nat) | LTick.

#[global] Instance Label_eq_dec : EqDecision Label.
Proof. solve_decision. Defined.

(** The clock in microseconds, as [TimestampUtil::GetCurrentTimeUs] reads it. *)
Definition us (ns : Z) : Z := Z.quot ns 1000.

(** Every step takes its readings at or after the current time and moves the
    clock to the last of them. *)
Inductive sys_step : System -> Label -> System -> Prop :=
  | step_work i n r n' b' t b ns :
      ns !! i = Some n -> ordered r -> t <= r_clean r ->
      work_step (us (r_set r)) r n b = (n', b') ->
      sys_step (mkSystem t b ns) (LWork i) (mkSystem (r_set r) b' (<[i := n']> ns))
  | step_demote i n r n' b' t b ns :
      ns !! i = Some n -> ordered r -> t <= r_clean r ->
      demote_step (us (r_set r)) r n b = (n', b') ->
      sys_step (mkSystem t b ns) (LDemote i) (mkSystem (r_set r) b' (<[i := n']> ns))
  | step_check i n t' t b ns :
      ns !! i = Some n -> t <= t' ->
      sys_step (mkSystem t b ns) (LCheck i) (mkSystem t' b (<[i := check_step (us t') n]> ns))
  | step_worker i n t b ns :
      ns !! i = Some n ->
      sys_step (mkSystem t b ns) (LWorker i) (mkSystem t b (<[i := worker_step n]> ns))
  | step_tick t t' b ns :
      t <= t' -> sys_step (mkSystem t b ns) LTick (mkSystem t' b ns).

Inductive run : System -> list Label -> System -> Prop :=
  | run_nil s : run s [] s
  | run_snoc s tr s' l s'' : run s tr s' -> sys_step s' l s'' -> run s (tr ++ [l]) s''.

(** Fresh electors with different identities campaigning for one free key. *)
Definition initial {LC : LawfulCoordination T} (k : string) (s : System) : Prop :=
  0 <= s_now s /\ co_lock (s_backend s) k = None /\
  NoDup (lock_value_ ∘ n_cfg <$> s_nodes s) /\
  Forall (fun n => exists v lease loop, 0 <= lease /\ n = fresh_node (make_config k v lease loop)) (s_nodes s).
End threads.

#[global] Arguments System T : clear implicits.

(** The steps follow the code: without interference they are [DoWorkLoop]. *)
Fixpoint work_steps {T} `{CoordinationBackend T} (now_us : Z) (rs : list Readings) (n : Node) (b : T)
    : Node * T :=
  match rs with
  | [] => (n, b)
  | r :: rs => let '(n, b) := work_step now_us r n b in work_steps now_us rs n b
  end.

(** ** What a status update changes *)

Lemma Request_lock e :
  (lock_acquired_ (RequestPromoteToLeader e) = lock_acquired_ e /\
   lease_expiration_time_us_ (RequestPromoteToLeader e) = lease_expiration_time_us_ e) /\
  (lock_acquired_ (RequestDemoteToFollower e) = lock_acquired_ e /\
   lease_expiration_time_us_ (RequestDemoteToFollower e) = lease_expiration_time_us_ e).
Proof. unfold RequestPromoteToLeader, RequestDemoteToFollower. by destruct (role_state_ e). Qed.

Lemma Update_lock c t a l e :
  lock_acquired_ (UpdateLockStatus c t a l e) = a /\
  lease_expiration_time_us_ (UpdateLockStatus c t a l e) = l.
Proof.
  unfold UpdateLockStatus. set (e' := if _ && _ then _ else e).
  destruct (Bool.eqb (lock_acquired_ e) a); [done|]. destruct a.
  - split; apply Request_lock.
  - case_bool_decide; split; by rewrite (proj1 (proj2 (Request_lock _))) || rewrite (proj2 (proj2 (Request_lock _))).
Qed.

Lemma Update_acquired c t a l e : lock_acquired_ (UpdateLockStatus c t a l e) = a.
Proof. apply Update_lock. Qed.

Lemma Update_lease c t a l e : lease_expiration_time_us_ (UpdateLockStatus c t a l e) = l.
Proof. apply Update_lock. Qed.

Create Rewrite HintDb elector.
#[export] Hint Rewrite Update_acquired Update_lease : elector.

Lemma work_steps_app {T} `{CoordinationBackend T} now_us rs rs' n (b : T) :
  work_steps now_us (rs ++ rs') n b =
  let '(n', b') := work_steps now_us rs n b in work_steps now_us rs' n' b'.
Proof.
  revert n b. induction rs as [|r rs IH]; intros n b; simpl; [done|].
  destruct (work_step now_us r n b). apply IH.
Qed.

(** A round of the work loop is a run of its steps from idle to idle. *)
Lemma renew_steps {T} `{CoordinationBackend T} cur r n (b : T) :
  n_work n = PRenew cur ->
  exists rs n' b', work_steps cur rs n b = (n', b') /\ n_work n' = PIdle /\
    (n_elector n', b') = HoldLeader (n_cfg n) cur r (n_elector n) b.
Proof.
  intros Hpc. unfold HoldLeader. destruct (lock_acquired_ (n_elector n)) eqn:Ha; simpl.
  - destruct (co_RenewLock r _ _ _ b) as [ec b'] eqn:E.
    exists [r; r], (mkNode (n_cfg n) (hold_renewed (n_cfg n) cur ec (n_elector n)) PIdle (n_demote n) (n_worker n)), b'.
    split_and!; [|done|done]. simpl. unfold work_step at 1. by rewrite Hpc, Ha, E.
  - exists [r], (mkNode (n_cfg n) (n_elector n) PIdle (n_demote n) (n_worker n)), b.
    split_and!; [|done|done]. simpl. unfold work_step at 1. by rewrite Hpc, Ha.
Qed.

Lemma after_campaign_steps {T} `{CoordinationBackend T} cur r n (b : T) :
  n_work n = after_campaign cur (n_elector n) ->
  exists rs n' b', work_steps cur rs n b = (n', b') /\ n_work n' = PIdle /\
    (n_elector n', b') =
      if lock_acquired_ (n_elector n) then HoldLeader (n_cfg n) cur r (n_elector n) b else (n_elector n, b).
Proof.
  unfold after_campaign. destruct (lock_acquired_ _) eqn:E; intros Hpc.
  - by apply renew_steps.
  - by exists [], n, b.
Qed.

(** Steps of the work loop, then the rest of the round. *)
Lemma steps_then {T} `{CoordinationBackend T} cur rs n (b : T) n1 b1 res :
  work_steps cur rs n b = (n1, b1) ->
  (exists rs n' b', work_steps cur rs n1 b1 = (n', b') /\ n_work n' = PIdle /\ (n_elector n', b') = res) ->
  exists rs n' b', work_steps cur rs n b = (n', b') /\ n_work n' = PIdle /\ (n_elector n', b') = res.
Proof.
  intros E (rs' & n' & b' & E' & Hrest). exists (rs ++ rs'), n', b'.
  by rewrite work_steps_app, E.
Qed.

Lemma DoWorkLoop_is_steps {T} `{CoordinationBackend T} cur r1 r2 r3 n (b : T) :
  n_work n = PIdle ->
  exists rs n' b', work_steps cur rs n b = (n', b') /\ n_work n' = PIdle /\
    (n_elector n', b') = DoWorkLoop (n_cfg n) cur cur r1 r2 r3 (n_elector n) b.
Proof.
  intros Hpc. unfold DoWorkLoop. simpl. destruct (lock_acquired_ (n_elector n)) eqn:Ha; simpl.
  - eapply (steps_then _ [r3]); [simpl; unfold work_step; by rewrite Hpc; simpl; rewrite Ha|].
    rewrite Ha. by apply (renew_steps cur r3 (mkNode _ (set_last_loop cur (n_elector n)) _ _ _)).
  - unfold CampaignLeader. simpl. destruct (cur <? next_can_campaign_time_us_ (n_elector n)) eqn:En.
    + simpl. rewrite Ha. exists [r1]. eexists _, _. split; [simpl; unfold work_step; rewrite Hpc; simpl;
        by rewrite Ha, En|]. done.
    + destruct (co_GetLockHolder r1 (lock_key_ (n_cfg n)) b) as [ans b1] eqn:Eg.
      destruct (campaign_got (n_cfg n) cur ans (set_last_loop cur (n_elector n))) as [go e1] eqn:Ec.
      eapply (steps_then _ [r1; r1; r1]).
      { simpl. unfold work_step at 1. rewrite Hpc. simpl. rewrite Ha, En. simpl.
        unfold work_step at 1. simpl. rewrite Eg. simpl. unfold work_step at 1. simpl. by rewrite Ec. }
      destruct go.
      * destruct (co_TryLock r2 _ _ _ b1) as [ec b2] eqn:Et.
        eapply (steps_then _ [r2; r2]); [simpl; unfold work_step at 1; simpl; by rewrite Et|].
        by apply (after_campaign_steps cur r3 (mkNode _ (campaign_tried _ _ _ _) _ _ _)).
      * by apply (after_campaign_steps cur r3 (mkNode _ e1 _ _ _)).
Qed.

(** ** A valid lease is a held lock *)

Section lease.
Context {T : Type} `{LC : LawfulCoordination T}.
Variable k : string.

(** Until [L] (in microseconds), [v] holds the lock. *)
Definition claim_ok (b : T) (now : Z) (v : string) (L : Z) : Prop :=
  now < L * 1000 -> exists x, co_lock b k = Some (v, x) /\ L * 1000 <= x.

(** What [v] holds at [now] it still holds in [b']. *)
Definition keeps (v : string) (now : Z) (b b' : T) : Prop :=
  forall x, co_lock b k = Some (v, x) -> now < x -> exists x', x <= x' /\ co_lock b' k = Some (v, x').

(** The lease the work loop is about to record. *)
Definition pending_claim (n : Node) : option Z :=
  match n_work n with
  | PGot _ (ec, w, ms) =>
      if bool_decide (w = lock_value_ (n_cfg n)) && bool_decide (w <> EmptyString) &&
         (bool_decide (ec = EC_OK) || bool_decide (ec = EC_NOENT))
      then Some (ms * 1000) else None
  | PTried cur ec | PRenewed cur ec =>
      if bool_decide (ec = EC_OK) then Some (cur + lease_timeout_us_ (n_cfg n)) else None
  | _ => None
  end.

Definition work_time (n : Node) : option Z :=
  match n_work n with
  | PIdle => None
  | PQuery cur | PGot cur _ | PTry cur | PTried cur _ | PRenew cur | PRenewed cur _ => Some cur
  end.

Definition claims_ok (b : T) (now : Z) (n : Node) : Prop :=
  (lock_acquired_ (n_elector n) = true ->
     claim_ok b now (lock_value_ (n_cfg n)) (lease_expiration_time_us_ (n_elector n))) /\
  (forall L, pending_claim n = Some L -> claim_ok b now (lock_value_ (n_cfg n)) L).

Definition config_ok (c : ElectorConfig) : Prop :=
  exists v lease loop, 0 <= lease /\ c = make_config k v lease loop.

(** A stored lock of the node never outlives a renewal made now. *)
Definition bounded (b : T) (now : Z) (n : Node) : Prop :=
  forall x, co_lock b k = Some (lock_value_ (n_cfg n), x) ->
    x <= now + lease_timeout_us_ (n_cfg n) * 1000.

Definition node_ok (b : T) (now : Z) (n : Node) : Prop :=
  config_ok (n_cfg n) /\ (forall cur, work_time n = Some cur -> cur * 1000 <= now) /\ bounded b now n.

(** [D] are the electors that have been told to [Demote]. *)
Definition lease_inv (D : nat -> Prop) (s : System T) : Prop :=
  0 <= s_now s /\ NoDup (lock_value_ ∘ n_cfg <$> s_nodes s) /\
  forall i n, s_nodes s !! i = Some n ->
    node_ok (s_backend s) (s_now s) n /\ (~ D i -> claims_ok (s_backend s) (s_now s) n).

Lemma claim_ok_keeps b b' now now' v L :
  now <= now' -> keeps v now' b b' -> claim_ok b now v L -> claim_ok b' now' v L.
Proof.
  intros Hle Hk Hc HL. destruct Hc as (x & Hx & HLx); [lia|].
  destruct (Hk x Hx) as (x' & ? & ?); [lia|]. exists x'. split; [done|lia].
Qed.

Lemma claims_ok_keeps b b' now now' n :
  now <= now' -> keeps (lock_value_ (n_cfg n)) now' b b' -> claims_ok b now n -> claims_ok b' now' n.
Proof. intros ?? [? ?]. split; intros; eapply claim_ok_keeps; eauto. Qed.

Lemma keeps_refl v now b : keeps v now b b.
Proof. intros x Hx _. exists x. by split. Qed.

(** A step of node [i] preserves the invariant when the backend respects the
    other holders and the node's own obligations are met. *)
Lemma lease_inv_update (D D' : nat -> Prop) t t' b b' ns i n n' :
  lease_inv D (mkSystem t b ns) -> ns !! i = Some n -> t <= t' -> n_cfg n' = n_cfg n ->
  (forall w, w <> lock_value_ (n_cfg n) -> keeps w t' b b') ->
  (forall w x, co_lock b' k = Some (w, x) -> co_lock b k = Some (w, x) \/
     (w = lock_value_ (n_cfg n) /\ x <= t' + lease_timeout_us_ (n_cfg n) * 1000)) ->
  (forall cur, work_time n' = Some cur -> cur * 1000 <= t') ->
  (forall j, D j -> D' j) -> (~ D' i -> claims_ok b' t' n') ->
  lease_inv D' (mkSystem t' b' (<[i := n']> ns)).
Proof.
  intros (H0 & Hnd & Hall) Hi Hle Hcfg Hkeep Hnew Htime HD Hclaim. simpl in *.
  assert (Hvals : lock_value_ ∘ n_cfg <$> <[i:=n']> ns = lock_value_ ∘ n_cfg <$> ns).
  { rewrite list_fmap_insert. apply list_insert_id. rewrite list_lookup_fmap, Hi. simpl. by rewrite Hcfg. }
  split; [simpl; lia|]. split; [simpl; by rewrite Hvals|]. simpl.
  intros j m Hj. destruct (decide (i = j)) as [<-|Hne].
  - rewrite list_lookup_insert_eq in Hj by (by eapply lookup_lt_Some). simplify_eq/=.
    destruct (Hall i n Hi) as ((Hc & _ & Hb) & _). split; [|done]. split_and!; [by rewrite Hcfg|done|].
    intros x Hx. rewrite Hcfg in *. destruct (Hnew _ _ Hx) as [Hx'|[_ ?]]; [|done].
    pose proof (Hb _ Hx'). lia.
  - rewrite list_lookup_insert_ne in Hj by done. destruct (Hall j m Hj) as ((Hc & Ht & Hb) & Hcl).
    assert (lock_value_ (n_cfg m) <> lock_value_ (n_cfg n)) as Hv.
    { intros Heq. apply Hne. eapply NoDup_lookup; [exact Hnd| |]; rewrite list_lookup_fmap.
      - by rewrite Hi. - rewrite Hj. simpl. by rewrite Heq. }
    split; [split_and!; [done| |]|].
    + intros cur Hcur. pose proof (Ht _ Hcur). lia.
    + intros x Hx. destruct (Hnew _ _ Hx) as [Hx'|[? _]]; [|done]. pose proof (Hb _ Hx'). lia.
    + intros HDj. eapply claims_ok_keeps; [exact Hle|by apply Hkeep|]. apply Hcl. eauto.
Qed.

(** *** The backend calls of an elector *)

Lemma query_evolves r b res b' :
  ordered r -> co_GetLockHolder r k b = (res, b') ->
  (forall w, keeps w (r_set r) b b') /\
  (forall w x, co_lock b' k = Some (w, x) -> co_lock b k = Some (w, x)).
Proof.
  intros Hr E. split.
  - intros w x Hx Hlt. exists x. split; [done|]. by eapply law_GetLockHolder_keeps.
  - intros w x Hx. by eapply law_query_creates_none.
Qed.

Lemma unlock_evolves r b v ec b' :
  ordered r -> co_Unlock r k v b = (ec, b') ->
  (forall w, w <> v -> keeps w (r_set r) b b') /\
  (forall w x, co_lock b' k = Some (w, x) -> co_lock b k = Some (w, x) \/ (w = v /\ x <= r_set r)).
Proof.
  intros Hr E. split.
  - intros w Hw x Hx Hlt. exists x. split; [done|]. eapply law_Unlock_other; eauto. congruence.
  - intros w x Hx. destruct (law_only_owner_creates r k v 0 b ec b' k w x) as [?|(_ & -> & ?)]; auto.
    right. split; [done|lia].
Qed.

Lemma config_ttl c : config_ok c ->
  0 <= lease_timeout_us_ c /\ lock_key_ c = k /\
  Z.quot (lease_timeout_us_ c) 1000 * ns_per_ms = lease_timeout_us_ c * 1000.
Proof.
  intros (v & lease & loop & ? & ->). simpl. unfold ns_per_ms. rewrite Z.quot_mul by lia.
  split_and!; [lia|done|lia].
Qed.

(** Taking and renewing the lock, [n] being the node that does it. *)
Lemma lock_evolves t r b n ec b' :
  let v := lock_value_ (n_cfg n) in
  let ttl := Z.quot (lease_timeout_us_ (n_cfg n)) 1000 in
  ordered r -> t <= r_clean r -> config_ok (n_cfg n) -> bounded b t n ->
  co_TryLock r k v ttl b = (ec, b') \/ co_RenewLock r k v ttl b = (ec, b') ->
  (forall w, w <> v -> keeps w (r_set r) b b') /\ keeps v (r_set r) b b' /\
  (forall w x, co_lock b' k = Some (w, x) -> co_lock b k = Some (w, x) \/
     (w = v /\ x <= r_set r + lease_timeout_us_ (n_cfg n) * 1000)) /\
  (ec = EC_OK -> forall cur, cur * 1000 <= t ->
     claim_ok b' (r_set r) v (cur + lease_timeout_us_ (n_cfg n))).
Proof.
  intros v ttl Hr Ht Hc Hb E. destruct (config_ttl _ Hc) as (Hpos & _ & Httl).
  assert (Hok : ec = EC_OK -> exists x, co_lock b' k = Some (v, x) /\
            r_clean r + lease_timeout_us_ (n_cfg n) * 1000 <= x).
  { intros ->. rewrite <-Httl. destruct E as [E|E];
      [apply law_TryLock_ok in E as (x & ? & ? & _)|apply law_RenewLock_ok in E as (x & ? & ? & _)];
      eauto. }
  split_and!.
  - intros w Hw x Hx Hlt. exists x. split; [done|].
    destruct E as [E|E]; [eapply law_TryLock_other|eapply law_RenewLock_other]; eauto; congruence.
  - intros x Hx Hlt. destruct (decide (ec = EC_OK)) as [->|Hec].
    + destruct (Hok eq_refl) as (x' & Hx' & Hle). exists x'. split; [|done].
      pose proof (Hb _ Hx). lia.
    + exists x. split; [done|].
      destruct E as [E|E]; [eapply law_TryLock_failed|eapply law_RenewLock_failed]; eauto.
  - intros w x Hx. destruct (law_only_owner_creates r k v ttl b ec b' k w x) as [?|(_ & -> & ?)]; auto.
    { destruct E; auto. }
    right. split; [done|]. rewrite <-Httl. done.
  - intros Hec cur Hcur _. destruct (Hok Hec) as (x & Hx & Hle). exists x. split; [done|]. lia.
Qed.

Lemma us_le ns : 0 <= ns -> us ns * 1000 <= ns.
Proof. intros. unfold us. pose proof (Z.quot_rem' ns 1000). pose proof (Z.rem_nonneg ns 1000). lia. Qed.

Lemma query_claim r b w ms b' :
  0 <= r_check r -> ordered r -> co_GetLockHolder r k b = ((EC_OK, w, ms), b') ->
  claim_ok b' (r_set r) w (ms * 1000).
Proof.
  intros H0 Hr E _. apply law_GetLockHolder_ok in E as (x & Hx & -> & Hlt); [|done].
  exists x. split; [done|]. unfold ns_per_ms.
  pose proof (Z.quot_rem' x 1000000). pose proof (Z.rem_nonneg x 1000000). lia.
Qed.

(** *** The local code keeps the claims *)

Lemma claims_ok_update b t n pc c' cur L :
  c' = n_cfg n -> claim_ok b t (lock_value_ (n_cfg n)) L ->
  (pc = PIdle \/ exists cur, pc = PRenew cur) ->
  claims_ok b t (mkNode (n_cfg n) (UpdateLockStatus c' cur true L (n_elector n)) pc (n_demote n) (n_worker n)).
Proof.
  intros -> Hc Hpc. split; simpl; autorewrite with elector; [done|].
  intros L'. unfold pending_claim. simpl. destruct Hpc as [->|[? ->]]; done.
Qed.

Lemma claims_ok_dropped b t c e pc d w :
  lock_acquired_ e = false -> pending_claim (mkNode c e pc d w) = None -> claims_ok b t (mkNode c e pc d w).
Proof. intros Ha Hp. split; simpl; congruence. Qed.

(** Same lease, nothing pending. *)
Lemma claims_ok_same b t n e pc d w :
  claims_ok b t n -> lock_acquired_ e = lock_acquired_ (n_elector n) ->
  lease_expiration_time_us_ e = lease_expiration_time_us_ (n_elector n) ->
  pending_claim (mkNode (n_cfg n) e pc d w) = None -> claims_ok b t (mkNode (n_cfg n) e pc d w).
Proof. intros [H1 _] Ha Hl Hp. split; simpl; [by rewrite Ha, Hl|congruence]. Qed.

(** The steps that do not call the backend. *)
Definition local_pc (n : Node) : bool :=
  match n_work n with
  | PIdle | PGot _ _ | PTried _ _ | PRenewed _ _ => true
  | PQuery _ | PTry _ => false
  | PRenew _ => negb (lock_acquired_ (n_elector n))
  end.

Lemma after_campaign_pc cur e : after_campaign cur e = PIdle \/ exists cur', after_campaign cur e = PRenew cur'.
Proof. unfold after_campaign. destruct (lock_acquired_ e); eauto. Qed.

Lemma pending_after_campaign c e d w cur e' : pending_claim (mkNode c e (after_campaign cur e') d w) = None.
Proof. unfold pending_claim. simpl. by destruct (after_campaign_pc cur e') as [->|[? ->]]. Qed.

Lemma hold_renewed_claims b t n cur ec :
  n_work n = PRenewed cur ec -> claims_ok b t n ->
  claims_ok b t (mkNode (n_cfg n) (hold_renewed (n_cfg n) cur ec (n_elector n)) PIdle (n_demote n) (n_worker n)).
Proof.
  intros Hpc Hcl. unfold hold_renewed. repeat case_match; reflect_bools; subst.
  - apply claims_ok_update; [done| |by left]. apply Hcl. unfold pending_claim. rewrite Hpc.
    by rewrite bool_decide_eq_true_2.
  - apply claims_ok_dropped; [by autorewrite with elector|done].
  - apply claims_ok_dropped; [by autorewrite with elector|done].
  - by apply claims_ok_same.
Qed.

Lemma campaign_got_claims b t n cur ans go e' :
  n_work n = PGot cur ans -> claims_ok b t n ->
  campaign_got (n_cfg n) cur ans (n_elector n) = (go, e') ->
  claims_ok b t (mkNode (n_cfg n) e' (if go then PTry cur else after_campaign cur e') (n_demote n) (n_worker n)).
Proof.
  destruct ans as [[ec w] ms]. intros Hpc Hcl. unfold campaign_got.
  repeat case_match; intros; simplify_eq/=; reflect_bools.
  - apply claims_ok_same; auto using pending_after_campaign.
  - apply claims_ok_same; auto using pending_after_campaign.
  - match goal with H : ~ w <> _ |- _ => apply dec_stable in H end.
    apply (claims_ok_update b t (mkNode (n_cfg n) (set_holder w (n_elector n)) PIdle (n_demote n) (n_worker n)));
      [done| |apply after_campaign_pc].
    apply Hcl. unfold pending_claim. rewrite Hpc, !bool_decide_eq_true_2 by done. simpl.
    destruct (decide (ec = EC_OK)); [by rewrite bool_decide_eq_true_2|].
    rewrite (bool_decide_eq_false_2 (ec = EC_OK)) by done.
    match goal with H : _ && _ = false |- _ =>
      rewrite (bool_decide_eq_true_2 (ec <> EC_OK)) in H by done; simpl in H;
      apply bool_decide_eq_false, dec_stable in H end.
    by rewrite bool_decide_eq_true_2.
  - apply claims_ok_same; auto.
Qed.

Lemma work_step_local now r n b n' b' t :
  local_pc n = true -> work_step now r n b = (n', b') ->
  b' = b /\ n_cfg n' = n_cfg n /\
  (forall cur, work_time n' = Some cur -> cur = now \/ work_time n = Some cur) /\
  (claims_ok b t n -> claims_ok b t n').
Proof.
  unfold local_pc, work_step, work_time. destruct (n_work n) eqn:Hpc; try done; intros Hloc E.
  - simpl in E. repeat case_match; simplify_eq/=; split_and!; try done; intros; simplify_eq; auto.
    all: by apply claims_ok_same.
  - destruct (campaign_got _ _ _ _) as [go e'] eqn:Eg. simplify_eq/=. split_and!; try done.
    + intros cur Hc. right. destruct go; [done|]. unfold after_campaign in Hc. by destruct (lock_acquired_ e').
    + intros Hcl. by eapply campaign_got_claims.
  - simplify_eq/=. split_and!; try done.
    + intros cur Hc. right. unfold after_campaign in Hc. by destruct (lock_acquired_ _).
    + intros Hcl. unfold campaign_tried. case_bool_decide as Hec; subst.
      * apply claims_ok_update; [done| |apply after_campaign_pc]. apply Hcl. unfold pending_claim.
        rewrite Hpc. by rewrite bool_decide_eq_true_2.
      * apply claims_ok_same; auto using pending_after_campaign.
  - destruct (lock_acquired_ (n_elector n)) eqn:Ha; [done|]. simplify_eq/=. split_and!; try done.
    intros. by apply claims_ok_same.
  - simplify_eq/=. split_and!; try done. intros. by apply hold_renewed_claims.
Qed.

(** The steps that do. *)
Lemma work_step_call now r n b n' b' t :
  local_pc n = false -> work_step now r n b = (n', b') ->
  0 <= t -> ordered r -> t <= r_clean r -> node_ok b t n ->
  n_cfg n' = n_cfg n /\ work_time n' = work_time n /\
  (forall w, w <> lock_value_ (n_cfg n) -> keeps w (r_set r) b b') /\
  (forall w x, co_lock b' k = Some (w, x) -> co_lock b k = Some (w, x) \/
     (w = lock_value_ (n_cfg n) /\ x <= r_set r + lease_timeout_us_ (n_cfg n) * 1000)) /\
  (claims_ok b t n -> claims_ok b' (r_set r) n').
Proof.
  intros Hloc E Ht Hr Hle (Hc & Htime & Hb). destruct (config_ttl _ Hc) as (_ & Hkey & _).
  pose proof Hr as [Hr1 Hr2].
  unfold local_pc, work_step, work_time in *. destruct (n_work n) as [|cur| |cur| |cur|] eqn:Hpc; try done.
  - destruct (co_GetLockHolder r _ b) as [[[ec w] ms] b1] eqn:Eg. simplify_eq/=. rewrite Hkey in Eg.
    destruct (query_evolves _ _ _ _ Hr Eg) as [Hk Hn]. split_and!; try done; [auto..|].
    intros [Hcl _]. split; simpl; [intros Ha; eapply claim_ok_keeps; [|apply Hk|by apply Hcl]; lia|].
    intros L. unfold pending_claim. simpl. case_match; [|done]. reflect_bools. subst w. intros [= <-].
    match goal with H : _ || _ = true |- _ => apply orb_true_iff in H as [H|H]; reflect_bools; subst ec end.
    + eapply query_claim; [lia|done|done].
    + by apply law_GetLockHolder_none in Eg.
  - destruct (co_TryLock r _ _ _ b) as [ec b1] eqn:Eg. simplify_eq/=. rewrite Hkey in Eg.
    destruct (lock_evolves t r b n ec b' Hr Hle Hc Hb (or_introl Eg)) as (Hk & Hown & Hn & Hok).
    split_and!; try done. intros [Hcl _].
    split; simpl; [intros Ha; eapply claim_ok_keeps; [|done|by apply Hcl]; lia|].
    intros L. unfold pending_claim. simpl. case_bool_decide; [|done]. intros [= <-]. apply Hok; auto.
  - destruct (lock_acquired_ (n_elector n)) eqn:Ha; [|done].
    destruct (co_RenewLock r _ _ _ b) as [ec b1] eqn:Eg. simplify_eq/=. rewrite Hkey in Eg.
    destruct (lock_evolves t r b n ec b' Hr Hle Hc Hb (or_intror Eg)) as (Hk & Hown & Hn & Hok).
    split_and!; try done. intros [Hcl _].
    split; simpl; [intros _; eapply claim_ok_keeps; [|done|by apply Hcl]; lia|].
    intros L. unfold pending_claim. simpl. case_bool_decide; [|done]. intros [= <-]. apply Hok; auto.
Qed.

Lemma lease_inv_work D t b ns i n r n' b' :
  lease_inv D (mkSystem t b ns) -> ns !! i = Some n -> ordered r -> t <= r_clean r ->
  work_step (us (r_set r)) r n b = (n', b') ->
  lease_inv D (mkSystem (r_set r) b' (<[i := n']> ns)).
Proof.
  intros Hinv Hi Hr Hle E. pose proof Hinv as (H0 & _ & Hall). simpl in *.
  destruct (Hall i n Hi) as (Hok & Hcl). pose proof Hr as [? ?]. destruct (local_pc n) eqn:Hloc.
  - destruct (work_step_local _ _ _ _ _ _ t Hloc E) as (-> & Hcfg & Htime & Hc).
    eapply lease_inv_update; eauto; [lia|auto using keeps_refl| |].
    + intros cur Hcur. destruct (Htime _ Hcur) as [->|Hold]; [apply us_le; lia|].
      pose proof (proj1 (proj2 Hok) _ Hold). lia.
    + intros HD. eapply claims_ok_keeps; [|apply keeps_refl|apply Hc; auto]. lia.
  - destruct (work_step_call _ _ _ _ _ _ t Hloc E H0 Hr Hle Hok) as (Hcfg & Htime & Hk & Hn & Hc).
    eapply lease_inv_update; eauto; [lia|]. rewrite Htime. intros cur Hcur.
    pose proof (proj1 (proj2 Hok) _ Hcur). lia.
Qed.

Lemma lease_inv_demote D t b ns i n r n' b' :
  lease_inv D (mkSystem t b ns) -> ns !! i = Some n -> ordered r -> t <= r_clean r ->
  demote_step (us (r_set r)) r n b = (n', b') ->
  lease_inv (fun j => D j \/ j = i) (mkSystem (r_set r) b' (<[i := n']> ns)).
Proof.
  intros Hinv Hi Hr Hle E. pose proof Hinv as (H0 & _ & Hall). simpl in *.
  destruct (Hall i n Hi) as ((Hc & Htime & Hb) & _). destruct (config_ttl _ Hc) as (? & Hkey & _).
  assert (n_cfg n' = n_cfg n /\ work_time n' = work_time n /\
    (b' = b \/ exists ec, co_Unlock r k (lock_value_ (n_cfg n)) b = (ec, b'))) as (Hcfg & Hw & Hb').
  { unfold demote_step in E. rewrite Hkey in E. unfold work_time.
    repeat case_match; simplify_eq/=; eauto 10. }
  pose proof Hr as [? ?]. apply (lease_inv_update D _ t (r_set r) b b' ns i n n'); auto; [lia|..].
  - intros w Hw'. destruct Hb' as [->|[ec Hu]]; [apply keeps_refl|].
    by apply (proj1 (unlock_evolves _ _ _ _ _ Hr Hu)).
  - intros w x Hx. destruct Hb' as [->|[ec Hu]]; [by left|].
    destruct (proj2 (unlock_evolves _ _ _ _ _ Hr Hu) _ _ Hx) as [?|[-> ?]]; [by left|right; split; [done|lia]].
  - rewrite Hw. intros cur Hcur. pose proof (Htime _ Hcur). lia.
  - tauto.
Qed.

Lemma begin_transition_lock task e :
  lock_acquired_ (begin_transition task e).2 = lock_acquired_ e /\
  lease_expiration_time_us_ (begin_transition task e).2 = lease_expiration_time_us_ e.
Proof. unfold begin_transition, TransitionToState. by repeat (case_match; simplify_eq/=). Qed.

Lemma worker_step_lock n :
  n_cfg (worker_step n) = n_cfg n /\ n_work (worker_step n) = n_work n /\
  lock_acquired_ (n_elector (worker_step n)) = lock_acquired_ (n_elector n) /\
  lease_expiration_time_us_ (n_elector (worker_step n)) = lease_expiration_time_us_ (n_elector n).
Proof.
  unfold worker_step. destruct (n_worker n) as [|task|task].
  - unfold pop_task. by destruct (transition_queue_ _).
  - pose proof (begin_transition_lock task (n_elector n)). destruct (begin_transition _ _) as [go e]. done.
  - unfold finish_transition, TransitionToState. by destruct (valid_transition _ _).
Qed.

(** A step of the node alone: same configuration, same work, and the lock
    given up or the same lease. *)
Lemma lease_inv_local D t t' b ns i n n' :
  lease_inv D (mkSystem t b ns) -> ns !! i = Some n -> t <= t' ->
  n_cfg n' = n_cfg n -> n_work n' = n_work n ->
  (lock_acquired_ (n_elector n') = false \/
   (lock_acquired_ (n_elector n') = lock_acquired_ (n_elector n) /\
    lease_expiration_time_us_ (n_elector n') = lease_expiration_time_us_ (n_elector n))) ->
  lease_inv D (mkSystem t' b (<[i := n']> ns)).
Proof.
  intros Hinv Hi Hle Hcfg Hw Hl. pose proof Hinv as (H0 & _ & Hall). simpl in *.
  destruct (Hall i n Hi) as ((_ & Htime & _) & Hcl).
  apply (lease_inv_update D D t t' b b ns i n n'); auto using keeps_refl.
  - unfold work_time in *. rewrite Hw. intros cur Hcur. pose proof (Htime _ Hcur). lia.
  - intros HD. eapply claims_ok_keeps; [exact Hle|apply keeps_refl|].
    destruct (Hcl HD) as [H1 H2]. unfold pending_claim in H2. split.
    + rewrite Hcfg. destruct Hl as [->|[-> ->]]; [done|exact H1].
    + unfold pending_claim. rewrite Hw, Hcfg. exact H2.
Qed.

Lemma lease_inv_step D s l s' :
  lease_inv D s -> sys_step s l s' ->
  lease_inv (fun j => D j \/ l = LDemote j) s'.
Proof.
  assert (Hw : forall s, lease_inv D s -> lease_inv (fun j => D j \/ l = LDemote j) s).
  { intros s0 (H0 & Hnd & Hall). split_and!; [done..|]. intros i n Hi.
    destruct (Hall i n Hi). split; auto. }
  intros Hinv Hs. destruct Hs as [i n r n' b' t b ns Hi Hr Hle E|i n r n' b' t b ns Hi Hr Hle E
                                 |i n t' t b ns Hi Hle|i n t b ns Hi|t t' b ns Hle].
  - apply Hw. by eapply lease_inv_work.
  - pose proof (lease_inv_demote _ _ _ _ _ _ _ _ _ Hinv Hi Hr Hle E) as (H0 & Hnd & Hall).
    split_and!; [done..|]. intros j m Hj. destruct (Hall j m Hj) as [? Hcl]. split; [done|].
    intros HD. apply Hcl. intros [?| ->]; auto.
  - apply Hw. eapply lease_inv_local; eauto; unfold check_step, DoCheckLeaseTimeout; simpl; try done.
    repeat case_match; simpl; autorewrite with elector; auto.
  - destruct (worker_step_lock n) as (? & ? & ? & ?). apply Hw.
    eapply lease_inv_local; [exact Hinv|done|lia|done|done|by right].
  - apply Hw. destruct Hinv as (H0 & Hnd & Hall). simpl in *. split_and!; [simpl; lia|done|].
    intros i n Hi. destruct (Hall i n Hi) as ((? & Ht & Hb) & Hcl). simpl. split; [split_and!; [done| |]|].
    + intros cur Hcur. pose proof (Ht _ Hcur). lia.
    + intros x Hx. pose proof (Hb _ Hx). lia.
    + intros HD. eapply claims_ok_keeps; [exact Hle|apply keeps_refl|auto].
Qed.

Lemma lease_inv_initial s : initial k s -> lease_inv (fun _ => False) s.
Proof.
  intros (H0 & Hl & Hnd & Hall). split_and!; [done..|]. intros i n Hi.
  apply (Forall_lookup_1 _ _ _ _ Hall) in Hi as (v & lease & loop & ? & ->).
  split; [split_and!|intros _; by split].
  - by exists v, lease, loop.
  - done.
  - intros x. by rewrite Hl.
Qed.

Lemma lease_inv_run s0 tr s :
  initial k s0 -> run s0 tr s -> lease_inv (fun j => LDemote j ∈ tr) s.
Proof.
  intros Hinit Hrun. induction Hrun as [s|s tr s' l s'' _ IH Hs].
  - destruct (lease_inv_initial _ Hinit) as (? & ? & Hall). split_and!; [done..|].
    intros i n Hi. destruct (Hall i n Hi) as [? H']. split; [done|]. intros _. apply H'. tauto.
  - destruct (lease_inv_step _ _ _ _ (IH Hinit) Hs) as (? & ? & Hall). split_and!; [done..|].
    intros i n Hi. destruct (Hall i n Hi) as [? Hcl]. split; [done|]. intros Hni. apply Hcl.
    intros [?| ->]; apply Hni; set_solver.
Qed.

(** C18: A valid lease is exclusive. Any number of electors with different
    identities campaign for one key over any lawful coordination backend;
    their work loops (interleaved at every backend call), lease checks,
    transition workers and [Demote] calls run in any order on one clock that
    is not set back. In every state of such a run, an elector that believes
    it holds the lock ([IsLeader]) and whose recorded lease has not passed is
    the holder stored in the backend, with a lock that has not expired; so no
    other elector has a valid lease at the same time. The electors concerned
    are those nobody has told to [Demote]. *)
Theorem lease_exclusive s0 tr s i n :
  initial k s0 -> run s0 tr s -> s_nodes s !! i = Some n -> LDemote i ∉ tr ->
  IsLeader (n_elector n) = true -> s_now s < GetLeaseExpirationTime (n_elector n) * 1000 ->
  (exists x, co_lock (s_backend s) k = Some (lock_value_ (n_cfg n), x) /\ s_now s < x) /\
  forall j m, j <> i -> s_nodes s !! j = Some m -> LDemote j ∉ tr ->
    IsLeader (n_elector m) = true -> ~ s_now s < GetLeaseExpirationTime (n_elector m) * 1000.
Proof.
  intros Hinit Hrun Hi HDi Hlead Hlease.
  destruct (lease_inv_run _ _ _ Hinit Hrun) as (_ & Hnd & Hall).
  destruct (Hall i n Hi) as [_ [Hc _]]; [done|].
  destruct (Hc Hlead Hlease) as (x & Hx & Hle). split; [exists x; split; [done|unfold GetLeaseExpirationTime in *; lia]|].
  intros j m Hne Hj HDj Hleadj Hleasej.
  destruct (Hall j m Hj) as [_ [Hcj _]]; [done|]. destruct (Hcj Hleadj Hleasej) as (x' & Hx' & _).
  rewrite Hx in Hx'. injection Hx' as Heq _. apply Hne. symmetry.
  eapply NoDup_lookup; [exact Hnd| |]; rewrite list_lookup_fmap.
  - by rewrite Hi.
  - rewrite Hj. simpl. by rewrite Heq.
Qed.
End lease.

(** ** Executable runs *)

Section exec.
Context {T : Type} `{CB : CoordinationBackend T}.

(** The step a thread takes at given readings; [None] when there is no such
    elector or the readings go back. *)
Definition sys_exec (a : Label * Readings) (s : System T) : option (System T) :=
  let '(l, r) := a in
  let at_node i (f : Node -> Node * T) :=
    n ← s_nodes s !! i;
    let '(n', b') := f n in
    Some (mkSystem (r_set r) b' (<[i := n']> (s_nodes s))) in
  if negb (bool_decide (ordered r) && (s_now s <=? r_clean r)) then None
  else match l with
       | LWork i => at_node i (fun n => work_step (us (r_set r)) r n (s_backend s))
       | LDemote i => at_node i (fun n => demote_step (us (r_set r)) r n (s_backend s))
       | LCheck i => at_node i (fun n => (check_step (us (r_set r)) n, s_backend s))
       | LWorker i =>
           if r_set r =? s_now s then at_node i (fun n => (worker_step n, s_backend s)) else None
       | LTick => Some (mkSystem (r_set r) (s_backend s) (s_nodes s))
       end.

Fixpoint exec (acts : list (Label * Readings)) (s : System T) : option (System T) :=
  match acts with
  | [] => Some s
  | a :: acts => s' ← sys_exec a s; exec acts s'
  end.

Lemma sys_exec_step l r s s' : sys_exec (l, r) s = Some s' -> sys_step s l s'.
Proof.
  destruct s as [t b ns]. unfold sys_exec. simpl.
  destruct (_ && _) eqn:E; simpl; [|done]. reflect_bools. pose proof (ltac:(eassumption) : ordered r) as [? ?].
  destruct l as [i|i|i|i|]; try (destruct (Z.eqb_spec (r_set r) t) as [Heq|]; [|done]).
  all: try (destruct (ns !! i) as [n|] eqn:Hi; csimpl; [|done]).
  - destruct (work_step _ _ _ _) as [n' b'] eqn:Ew. intros. simplify_eq. by eapply step_work.
  - intros. simplify_eq. apply step_check; [done|lia].
  - destruct (demote_step _ _ _ _) as [n' b'] eqn:Ew. intros. simplify_eq. by eapply step_demote.
  - intros. simplify_eq. by apply step_worker.
  - intros. simplify_eq. apply step_tick. lia.
Qed.

Lemma run_app s tr s' tr' s'' : run s tr s' -> run s' tr' s'' -> run s (tr ++ tr') s''.
Proof.
  intros H H'. induction H' as [s'|s' tr' s1 l s2 _ IH Hs]; [by rewrite app_nil_r|].
  rewrite app_assoc. eapply run_snoc; eauto.
Qed.

Lemma exec_run acts s s' : exec acts s = Some s' -> run s (acts.*1) s'.
Proof.
  revert s. induction acts as [|[l r] acts IH]; intros s H; [injection H as <-; constructor|].
  change (sys_exec (l, r) s ≫= exec acts = Some s') in H. apply bind_Some in H as (s1 & E & H).
  apply (run_app _ [l] s1); [|by apply IH]. apply (run_snoc s [] s); [constructor|by eapply sys_exec_step].
Qed.
End exec.

(** Two electors "a" and "b" with a lease of ten seconds on an empty
    in-memory backend. *)
Definition two_electors : System CoordinationMemoryBackend :=
  mkSystem 0 (mkMemory ∅ ∅ true)
    [fresh_node (make_config "lock" "a" 10000 100); fresh_node (make_config "lock" "b" 10000 100)].

Definition at_ms (l : Label) (ms : Z) : Label * Readings :=
  (l, mkReadings (ms * 1000000) (ms * 1000000) (ms * 1000000)).

Lemma two_electors_initial : initial "lock" two_electors.
Proof.
  split_and!; [done|done| |].
  - apply (bool_decide_unpack _). vm_compute. exact I.
  - repeat constructor; eexists _, _, _; split; [|reflexivity| |reflexivity]; lia.
Qed.

(** Elector 0 campaigns (query, try, renew) and elector 1 finds the lock
    taken. *)
Definition a_wins : list (Label * Readings) :=
  [at_ms (LWork 0) 1; at_ms (LWork 0) 2; at_ms (LWork 1) 2; at_ms (LWork 0) 3; at_ms (LWork 0) 4;
   at_ms (LWork 0) 5; at_ms (LWork 0) 6; at_ms (LWork 0) 7; at_ms (LWork 1) 8; at_ms (LWork 1) 9;
   at_ms (LWorker 0) 9; at_ms (LWorker 0) 9; at_ms (LCheck 0) 10; at_ms LTick 5000].

Definition exec_result (acts : list (Label * Readings)) : System CoordinationMemoryBackend :=
  default two_electors (exec acts two_electors).

Lemma exec_result_run acts :
  bool_decide (is_Some (exec acts two_electors)) = true -> run two_electors (acts.*1) (exec_result acts).
Proof.
  intros H%bool_decide_eq_true. destruct H as [s Hs]. unfold exec_result. rewrite Hs. by apply exec_run.
Qed.

Lemma lease_exclusive_witness :
  exists n x, s_nodes (exec_result a_wins) !! 0%nat = Some n /\
    co_lock (s_backend (exec_result a_wins)) "lock" = Some (lock_value_ (n_cfg n), x) /\ 5000000000 < x.
Proof.
  destruct (s_nodes (exec_result a_wins) !! 0%nat) as [n|] eqn:Hn; [|vm_compute in Hn; discriminate].
  assert (Hrun : run two_electors (a_wins.*1) (exec_result a_wins))
    by (apply exec_result_run; vm_compute; reflexivity).
  pose proof Hn as Hn'. vm_compute in Hn'. injection Hn' as Hn'.
  destruct (lease_exclusive "lock" _ _ _ 0 n two_electors_initial Hrun Hn) as [(x & Hx & Hlt) _].
  - apply (bool_decide_unpack _). vm_compute. exact I.
  - rewrite <-Hn'. reflexivity.
  - rewrite <-Hn'. vm_compute. reflexivity.
  - exists n, x. split; [reflexivity|]. split; [exact Hx|exact Hlt].
Defined.

(** Elector 0 holds the lock and has just renewed it, the answer still to be
    handled, when an administrator demotes it; elector 1 takes the released
    lock, then elector 0 handles the old answer. *)
Definition demote_race : list (Label * Readings) :=
  [at_ms (LWork 0) 1; at_ms (LWork 0) 2; at_ms (LWork 0) 3; at_ms (LWork 0) 4; at_ms (LWork 0) 5;
   at_ms (LWork 0) 6; at_ms (LWork 0) 7;
   at_ms (LWork 0) 100; at_ms (LWork 0) 101;
   at_ms (LDemote 0) 102; at_ms (LDemote 0) 103; at_ms (LDemote 0) 104;
   at_ms (LWork 1) 105; at_ms (LWork 1) 106; at_ms (LWork 1) 107; at_ms (LWork 1) 108; at_ms (LWork 1) 109;
   at_ms (LWork 0) 110].

Definition leads_now (s : System CoordinationMemoryBackend) (i : nat) : bool :=
  match s_nodes s !! i with
  | Some n => IsLeader (n_elector n) && (s_now s <? GetLeaseExpirationTime (n_elector n) * 1000)
  | None => false
  end.

(** [Demote] breaks the exclusivity: there is a run of two electors,
    from the initial state, after which both report to be leader, with
    leases that have not passed, while the backend's lock belongs to the
    second. The renewal answered before the release is recorded after it,
    since nothing orders [HoldLeader] against [DoDemote]. *)
Theorem demote_races_renewal :
  exists tr s, initial "lock" two_electors /\ run two_electors tr s /\
    leads_now s 0 = true /\ leads_now s 1 = true /\
    (exists x, co_lock (s_backend s) "lock" = Some ("b", x) /\ s_now s < x).
Proof.
  exists (demote_race.*1), (exec_result demote_race). split; [apply two_electors_initial|].
  split; [apply exec_result_run; vm_compute; reflexivity|].
  split; [vm_compute; reflexivity|]. split; [vm_compute; reflexivity|].
  eexists. split; [vm_compute; reflexivity|vm_compute; reflexivity].
Qed.

(** ** The role machine *)

(** The handlers alternate, the newest first. *)
Fixpoint alternating (l : list Handler) : bool :=
  match l with
  | [] => true
  | [h] => bool_decide (h = become_leader_handler_)
  | h :: ((h' :: _) as l) => bool_decide (h <> h') && alternating l
  end.

Definition task_ok (t : RoleTransitionTask) : Prop :=
  (target_state t = LEADER /\ action t = become_leader_handler_) \/
  (target_state t = FOLLOWER /\ action t = no_longer_leader_handler_).

(** What the worker is doing determines the role. *)
Definition role_fits (w : WorkerPc) (r : RoleState) : Prop :=
  match w with
  | KIdle => r = FOLLOWER \/ r = LEADER
  | KPopped t => (r = FOLLOWER \/ r = LEADER) /\ task_ok t
  | KRunning t => task_ok t /\ intermediate_state (target_state t) = Some r
  end.

(** The last handler started, as the role tells it. *)
Definition last_handler (r : RoleState) (l : list Handler) : Prop :=
  match r with
  | PROMOTING | LEADER => head l = Some become_leader_handler_
  | DEMOTING => head l = Some no_longer_leader_handler_
  | FOLLOWER => head l <> Some become_leader_handler_
  end.

Definition is_running (w : WorkerPc) : bool := match w with KRunning _ => true | _ => false end.

Definition role_ok (n : Node) : Prop :=
  let e := n_elector n in
  role_fits (n_worker n) (role_state_ e) /\
  is_transitioning_ e = is_running (n_worker n) /\
  Forall task_ok (transition_queue_ e) /\
  alternating (handler_calls e) = true /\ last_handler (role_state_ e) (handler_calls e).

(** Of the elector, [role_ok] looks at these fields only. *)
Definition role_view (e : LeaderElector) :=
  (role_state_ e, is_transitioning_ e, handler_calls e).

Lemma role_ok_local n e :
  role_ok n -> role_view e = role_view (n_elector n) -> Forall task_ok (transition_queue_ e) ->
  forall w d, role_ok (mkNode (n_cfg n) e w d (n_worker n)).
Proof.
  intros (H1 & H2 & H3 & H4 & H5) [= E1 E2 E3] Hq w d. unfold role_ok. simpl. by rewrite E1, E2, E3.
Qed.

Lemma Update_role_view c t a l e :
  role_view (UpdateLockStatus c t a l e) = role_view e /\
  (Forall task_ok (transition_queue_ e) -> Forall task_ok (transition_queue_ (UpdateLockStatus c t a l e))).
Proof.
  unfold UpdateLockStatus, RequestPromoteToLeader, RequestDemoteToFollower, push_task, forbid_campaign.
  repeat (case_match; simplify_eq/=); split; try done; intros Hq.
  all: try (apply Forall_app; split; [done|]); apply Forall_singleton; unfold task_ok; simpl; auto.
Qed.

(** The local code of every thread but the worker only updates the lock. *)
Lemma local_role_view c t n e :
  Forall task_ok (transition_queue_ (n_elector n)) ->
  (exists a l, e = UpdateLockStatus c t a l (n_elector n)) \/
    (role_view e = role_view (n_elector n) /\ transition_queue_ e = transition_queue_ (n_elector n)) ->
  role_view e = role_view (n_elector n) /\ Forall task_ok (transition_queue_ e).
Proof.
  intros Hq [(a & l & ->)|[Hv ->]]; [|done].
  destruct (Update_role_view c t a l (n_elector n)). auto.
Qed.

Lemma campaign_got_role c cur ans e :
  role_view (campaign_got c cur ans e).2 = role_view e /\
  (Forall task_ok (transition_queue_ e) -> Forall task_ok (transition_queue_ (campaign_got c cur ans e).2)).
Proof.
  destruct ans as [[ec w] ms]. unfold campaign_got. repeat case_match; try done.
  apply (Update_role_view c cur true (ms * 1000) (set_holder w e)).
Qed.

Lemma hold_renewed_role c cur ec e :
  role_view (hold_renewed c cur ec e) = role_view e /\
  (Forall task_ok (transition_queue_ e) -> Forall task_ok (transition_queue_ (hold_renewed c cur ec e))).
Proof. unfold hold_renewed. repeat case_match; try done; apply Update_role_view. Qed.

Lemma role_ok_work {T} `{CoordinationBackend T} now r n (b : T) :
  role_ok n -> role_ok (work_step now r n b).1.
Proof.
  intros Hok. pose proof Hok as (_ & _ & Hq & _). unfold work_step.
  destruct (n_work n) as [|cur|cur ans|cur|cur ec|cur|cur ec].
  - repeat case_match; by apply role_ok_local.
  - destruct (co_GetLockHolder _ _ _). by apply role_ok_local.
  - destruct (campaign_got_role (n_cfg n) cur ans (n_elector n)) as [Hv Hq'].
    destruct (campaign_got _ _ _ _) as [go e]. apply role_ok_local; auto.
  - destruct (co_TryLock _ _ _ _ _). by apply role_ok_local.
  - unfold campaign_tried. case_bool_decide; [|by apply role_ok_local].
    apply role_ok_local; auto; by apply Update_role_view.
  - destruct (lock_acquired_ _); [destruct (co_RenewLock _ _ _ _ _)|]; by apply role_ok_local.
  - apply role_ok_local; auto; by apply hold_renewed_role.
Qed.

Lemma role_ok_demote {T} `{CoordinationBackend T} now r n (b : T) :
  role_ok n -> role_ok (demote_step now r n b).1.
Proof.
  intros Hok. pose proof Hok as (_ & _ & Hq & _). unfold demote_step.
  destruct (n_demote n) as [|cur|cur].
  - unfold forbid_campaign. repeat case_match; by apply role_ok_local.
  - destruct (co_Unlock _ _ _ _). by apply role_ok_local.
  - apply role_ok_local; auto; by apply Update_role_view.
Qed.

Lemma role_ok_check now n : role_ok n -> role_ok (check_step now n).
Proof.
  intros Hok. pose proof Hok as (_ & _ & Hq & _). unfold check_step, set_elector, DoCheckLeaseTimeout.
  repeat case_match; apply role_ok_local; auto; by apply Update_role_view.
Qed.

Lemma alternating_cons h l :
  alternating l = true -> head l <> Some h -> (l = [] -> h = become_leader_handler_) ->
  alternating (h :: l) = true.
Proof.
  intros Hl Hh Hn. destruct l as [|h' l]; simpl in *.
  - rewrite Hn by done. by apply bool_decide_eq_true_2.
  - apply andb_true_iff. split; [|done]. apply bool_decide_eq_true_2. congruence.
Qed.

Lemma role_ok_worker n : role_ok n -> role_ok (worker_step n).
Proof.
  intros (Hw & Ht & Hq & Ha & Hl). unfold worker_step.
  destruct (n_worker n) as [|task|task] eqn:Ew; simpl in *.
  - unfold pop_task. destruct (transition_queue_ (n_elector n)) as [|t q] eqn:Eq.
    + unfold role_ok. rewrite Ew, Eq. by split_and!.
    + apply Forall_cons in Hq as [? ?]. unfold role_ok. simpl. by split_and!.
  - destruct Hw as [Hr Htask]. unfold begin_transition, TransitionToState.
    destruct Hr as [Hr|Hr], Htask as [[Hs Hact]|[Hs Hact]]; rewrite Hs; simpl; rewrite Hr in *; simpl in *.
    all: unfold role_ok, role_fits, task_ok, last_handler in *; simpl.
    all: rewrite ?Hr, ?Hs, ?Hact in *; simpl; split_and!; auto.
    all: first [ apply (alternating_cons become_leader_handler_ (handler_calls (n_elector n)))
               | apply (alternating_cons no_longer_leader_handler_ (handler_calls (n_elector n))) ].
    all: try done; try congruence. intros Hnil. by rewrite Hnil in Hl.
  - destruct Hw as [Htask Hi]. unfold finish_transition, TransitionToState.
    destruct Htask as [[Hs Hact]|[Hs Hact]]; rewrite Hs in *; simpl in *; injection Hi as Hi;
      rewrite <-Hi in *; simpl in *.
    all: unfold role_ok, last_handler in *; simpl; split_and!; auto. all: congruence.
Qed.

(** C36: The roles of a replica are well behaved under every interleaving of
    its threads with those of other replicas, over any coordination backend:
    the worker's activity determines the role (stable between tasks,
    [PROMOTING] while the become-leader handler runs, [DEMOTING] while the
    other one does), [is_transitioning_] says whether a handler runs, only
    promotions to leader and demotions to follower are ever queued, and the
    two handlers are called strictly alternately, become-leader first: a
    replica is never promoted or demoted twice in a row. *)
Theorem role_machine_alternates {T} `{CoordinationBackend T} (s0 : System T) tr s :
  Forall (fun n => exists c, n = fresh_node c) (s_nodes s0) -> run s0 tr s ->
  Forall role_ok (s_nodes s).
Proof.
  intros H0 Hrun. induction Hrun as [s|s tr s' l s'' _ IH Hs].
  - eapply Forall_impl; [exact H0|]. intros n [c ->]. unfold role_ok. simpl. auto 10.
  - specialize (IH H0).
    destruct Hs as [i n r n' b' t b ns Hi _ _ E|i n r n' b' t b ns Hi _ _ E|i n t' t b ns Hi _|i n t b ns Hi|];
      simpl in *; [| | | |done]; apply Forall_insert; auto; eapply Forall_lookup_1 in Hi; eauto.
    + change n' with (n', b').1. rewrite <-E. by apply role_ok_work.
    + change n' with (n', b').1. rewrite <-E. by apply role_ok_demote.
    + by apply role_ok_check.
    + by apply role_ok_worker.
Qed.

Lemma role_machine_alternates_witness :
  exists n, s_nodes (exec_result a_wins) !! 0%nat = Some n /\ role_ok n /\
    handler_calls (n_elector n) = [become_leader_handler_].
Proof.
  destruct (s_nodes (exec_result a_wins) !! 0%nat) as [n|] eqn:Hn; [|vm_compute in Hn; discriminate].
  exists n. split; [reflexivity|]. split.
  - eapply Forall_lookup_1; [|exact Hn].
    apply (role_machine_alternates two_electors (a_wins.*1)); [repeat constructor; by eexists|].
    apply exec_result_run. vm_compute. reflexivity.
  - vm_compute in Hn. injection Hn as <-. reflexivity.
Defined.

(** ** The role follows the lock *)

Definition role_of_lock (a : bool) : RoleState := if a then LEADER else FOLLOWER.

(** Every task taken on has started. *)
Definition none_waiting (n : Node) : Prop :=
  transition_queue_ (n_elector n) = [] /\ forall t, n_worker n <> KPopped t.

(** The role the worker is heading for. *)
Definition heading (n : Node) : RoleState :=
  match n_worker n with KRunning t => target_state t | _ => role_state_ (n_elector n) end.

Definition in_sync (n : Node) : Prop :=
  role_ok n /\ none_waiting n /\ heading n = role_of_lock (lock_acquired_ (n_elector n)).

Definition lock_change (cur : Z) (a : bool) (lease : Z) (n : Node) : Node :=
  set_elector (UpdateLockStatus (n_cfg n) cur a lease (n_elector n)) n.

(** At rest: stable, nothing queued, nothing running. *)
Definition at_rest (n : Node) : Prop :=
  n_worker n = KIdle /\ transition_queue_ (n_elector n) = [] /\ IsStableState (n_elector n) = true.

Lemma worker_steps_rest m n : at_rest n -> worker_steps m n = n.
Proof.
  intros (Hw & Hq & _). induction m as [|m IH]; [done|]. simpl.
  assert (worker_step n = n) as ->; [|done]. unfold worker_step, pop_task. by rewrite Hw, Hq.
Qed.

Lemma worker_steps_add m m' n : worker_steps (m + m') n = worker_steps m' (worker_steps m n).
Proof. revert n. induction m as [|m IH]; intros n; simpl; [done|]. apply IH. Qed.

(** After enough steps to come to rest, more change nothing. *)
Lemma rest_from k n m : at_rest (worker_steps k n) -> (k <= m)%nat -> worker_steps m n = worker_steps k n.
Proof.
  intros Hr Hm. replace m with (k + (m - k))%nat by lia. rewrite worker_steps_add. by apply worker_steps_rest.
Qed.

(** The worker finishes what it runs in one step, and takes a promotion or
    demotion that fits the role from the queue to its end in three. *)
Lemma finish_steps n t :
  role_ok n -> n_worker n = KRunning t ->
  worker_step n = mkNode (n_cfg n) (set_transitioning false (set_role (target_state t) (n_elector n)))
                    (n_work n) (n_demote n) KIdle.
Proof.
  intros (Hw & _) Ew. unfold worker_step. rewrite Ew in *. f_equal.
  unfold finish_transition, TransitionToState. destruct Hw as [Ht Hi].
  destruct Ht as [[Hs _]|[Hs _]]; rewrite Hs in *; simpl in Hi; injection Hi as <-; done.
Qed.

Lemma task_steps n t a :
  n_worker n = KIdle -> transition_queue_ (n_elector n) = [t] -> task_ok t ->
  target_state t = role_of_lock a -> role_state_ (n_elector n) = role_of_lock (negb a) ->
  worker_steps 3 n =
    mkNode (n_cfg n)
      (set_transitioning false (set_role (role_of_lock a) (call_handler (action t)
         (set_queue (state_version_ (n_elector n)) [] (n_elector n))))) (n_work n) (n_demote n) KIdle.
Proof.
  intros Hw Hq Ht Hs Hr. simpl. unfold worker_step at 3. rewrite Hw. unfold pop_task. rewrite Hq.
  unfold worker_step at 2. simpl. unfold begin_transition, TransitionToState. rewrite Hs. simpl. rewrite Hr.
  destruct a; simpl; unfold worker_step; simpl; unfold finish_transition, TransitionToState; simpl;
    rewrite Hs; simpl; done.
Qed.

(** What a change of the lock queues, from the role the code looks at. *)
Lemma lock_change_queue cur a lease n :
  lock_acquired_ (n_elector n) = negb a ->
  role_state_ (n_elector n) <> role_of_lock a ->
  role_state_ (n_elector n) <> (if a then PROMOTING else DEMOTING) ->
  exists t, transition_queue_ (n_elector (lock_change cur a lease n)) =
              (if a then transition_queue_ (n_elector n) else []) ++ [t] /\
    task_ok t /\ target_state t = role_of_lock a.
Proof.
  intros Ha Hr1 Hr2. unfold lock_change, set_elector, UpdateLockStatus. simpl. rewrite Ha.
  unfold RequestPromoteToLeader, RequestDemoteToFollower, forbid_campaign, push_task, task_ok.
  destruct a; simpl in *; repeat (case_match; simplify_eq/=); try congruence; eexists; split; simpl; eauto.
Qed.

Lemma lock_change_same cur a lease n :
  lock_acquired_ (n_elector n) = a ->
  n_elector (lock_change cur a lease n) = set_lock_status a lease (n_elector n).
Proof.
  intros <-. unfold lock_change, UpdateLockStatus. simpl.
  rewrite andb_negb_r, Bool.eqb_reflx. done.
Qed.

Lemma lock_change_facts cur a lease n :
  role_ok n ->
  role_ok (lock_change cur a lease n) /\
  role_state_ (n_elector (lock_change cur a lease n)) = role_state_ (n_elector n) /\
  lock_acquired_ (n_elector (lock_change cur a lease n)) = a.
Proof.
  intros Hok. pose proof Hok as (_ & _ & Hq & _).
  destruct (Update_role_view (n_cfg n) cur a lease (n_elector n)) as [Hv Hq'].
  split_and!; [apply role_ok_local; auto|unfold role_view in Hv; by simplify_eq|apply Update_acquired].
Qed.

Lemma role_ok_worker_steps m n : role_ok n -> role_ok (worker_steps m n).
Proof. revert n. induction m; intros n ?; simpl; auto using role_ok_worker. Qed.

Lemma worker_steps_acquired m n :
  lock_acquired_ (n_elector (worker_steps m n)) = lock_acquired_ (n_elector n).
Proof.
  revert n. induction m as [|m IH]; intros n; simpl; [done|]. rewrite IH. apply worker_step_lock.
Qed.

(** The replica rests in the role [r]. *)
Definition settled (r : RoleState) (n : Node) : Prop := at_rest n /\ role_state_ (n_elector n) = r.

(** One waiting task that fits the role, and the worker idle. *)
Lemma settles_one m n t a :
  n_worker n = KIdle -> transition_queue_ (n_elector n) = [t] -> task_ok t ->
  target_state t = role_of_lock a -> role_state_ (n_elector n) = role_of_lock (negb a) ->
  (3 <= m)%nat -> settled (role_of_lock a) (worker_steps m n).
Proof.
  intros Hw Hq Ht Hs Hr Hm. pose proof (task_steps n t a Hw Hq Ht Hs Hr) as E.
  assert (settled (role_of_lock a) (worker_steps 3 n)) as Hset by (rewrite E; by destruct a).
  rewrite (rest_from 3); [done|apply Hset|done].
Qed.

(** The same with the task already taken from the queue. *)
Lemma popped_settles m n t a :
  n_worker n = KPopped t -> transition_queue_ (n_elector n) = [] -> task_ok t ->
  target_state t = role_of_lock a -> role_state_ (n_elector n) = role_of_lock (negb a) ->
  (2 <= m)%nat -> settled (role_of_lock a) (worker_steps m n).
Proof.
  intros Hw Hq Ht Hs Hr Hm.
  assert (worker_step (mkNode (n_cfg n) (set_queue (state_version_ (n_elector n)) [t] (n_elector n))
            (n_work n) (n_demote n) KIdle) = n) as E.
  { destruct n as [c [] w d k]. simpl in *. by subst. }
  pose proof (settles_one (S m) (mkNode (n_cfg n) (set_queue (state_version_ (n_elector n)) [t] (n_elector n))
            (n_work n) (n_demote n) KIdle) t a) as H. cbn [worker_steps] in H. rewrite E in H.
  apply H; auto. lia.
Qed.

Lemma settled_idle m n r :
  n_worker n = KIdle -> transition_queue_ (n_elector n) = [] -> role_ok n ->
  role_state_ (n_elector n) = r -> settled r (worker_steps m n).
Proof.
  intros Hw Hq (Hf & Ht & _) <-. assert (at_rest n) as Hr.
  { split_and!; [done..|]. unfold IsStableState. rewrite Ht, Hw in *. simpl in *.
    destruct Hf as [-> | ->]; done. }
  by rewrite worker_steps_rest.
Qed.

(** C35: The role follows the lock. Take a replica whose queued role changes
    have all been started (a handler may still be running) and whose role is,
    or is becoming, the one its lock status asks for. Then after any further
    lock update, won, lost, or renewed, at most four steps of the worker
    bring the replica to rest in the role of the new status: leader exactly
    if it holds the lock, with nothing queued or running; it stays there, and
    the situation is again the one the theorem starts from. (A replica whose
    role disagrees with its lock, as two quick changes can leave it, is not
    covered: nothing repairs it.) *)
Theorem role_follows_lock n cur a lease m :
  in_sync n -> (4 <= m)%nat ->
  let n' := worker_steps m (lock_change cur a lease n) in
  settled (role_of_lock a) n' /\ in_sync n' /\ IsLeader (n_elector n') = a.
Proof.
  intros (Hok & (Hq & Hnp) & Hh) Hm n'.
  destruct (lock_change_facts cur a lease n Hok) as (Hok' & Hr' & Ha').
  assert (settled (role_of_lock a) n') as Hset.
  { destruct (decide (lock_acquired_ (n_elector n) = a)) as [Heq|Hne].
    - pose proof (lock_change_same cur a lease n Heq) as He. rewrite Heq in Hh. unfold heading in Hh.
      destruct (n_worker n) as [|t|t] eqn:Ew; [|by destruct (Hnp t)|].
      + apply settled_idle; [done|by rewrite He|done|by rewrite Hr'].
      + destruct m as [|m]; [lia|]. unfold n'. simpl. pose proof (role_ok_worker _ Hok') as Hokw.
        rewrite (finish_steps _ t Hok') in * by done. apply settled_idle; try done.
        change (transition_queue_ (n_elector (lock_change cur a lease n)) = []). by rewrite He.
    - assert (lock_acquired_ (n_elector n) = negb a) as Hna by (destruct (lock_acquired_ _), a; done).
      rewrite Hna in Hh. unfold heading in Hh.
      assert (role_state_ (n_elector n) <> role_of_lock a /\
              role_state_ (n_elector n) <> (if a then PROMOTING else DEMOTING)) as [Hr1 Hr2].
      { destruct Hok as (Hf & _). destruct (n_worker n) as [|t|t]; simpl in *;
          [rewrite Hh|rewrite Hh|destruct Hf as [_ Hi]; rewrite Hh in Hi];
          destruct a; simpl in *; split; congruence. }
      destruct (lock_change_queue cur a lease n Hna Hr1 Hr2) as (t' & Hq' & Ht' & Hs').
      rewrite Hq in Hq'. replace ((if a then [] else []) ++ [t']) with [t'] in Hq' by (by destruct a).
      destruct (n_worker n) as [|t|t] eqn:Ew; [|by destruct (Hnp t)|].
      + apply (settles_one m _ t'); auto; [by rewrite Hr'|lia].
      + destruct m as [|m]; [lia|]. unfold n'. simpl. rewrite (finish_steps _ t Hok') by done.
        apply (settles_one m _ t'); simpl; auto. lia. }
  pose proof (worker_steps_acquired m (lock_change cur a lease n)) as Hacq. rewrite Ha' in Hacq.
  fold n' in Hacq. split_and!; [done| |done]. destruct Hset as ((Hw & Hqe & _) & Hr).
  split_and!; [by apply role_ok_worker_steps|split; [done|by rewrite Hw]|].
  unfold heading. by rewrite Hw, Hr, Hacq.
Qed.

(** A follower wins the lock; a promoting one loses it. *)
Lemma role_follows_lock_witness :
  let n := fresh_node (make_config "lock" "a" 10000 100) in
  let n1 := lock_change 1 true 10001000 n in
  settled LEADER (worker_steps 4 n1) /\
  settled FOLLOWER (worker_steps 4 (lock_change 2 false (-1) (worker_steps 4 n1))).
Proof.
  intros n n1.
  assert (Hn : in_sync n).
  { unfold in_sync, role_ok, none_waiting. simpl. split_and!; auto; done. }
  destruct (role_follows_lock n 1 true 10001000 4 Hn ltac:(lia)) as (H1 & H2 & _). split; [exact H1|].
  destruct (role_follows_lock (worker_steps 4 n1) 2 false (-1) 4 H2 ltac:(lia)) as (H3 & _). exact H3.
Defined.

(** A change of the lock that is undone before the worker starts the
    queued role change leaves the replica in the wrong role for good. From a
    replica at rest in the role of its lock status, the lock changes, the
    worker at most takes the task from the queue, and the lock changes back;
    then, however many steps the worker takes, the replica ends at rest in the
    role opposite to its lock: a follower that wins and loses the lock ends
    as a leader without the lock, a leader that loses and regains it as a
    follower that holds it. *)
Theorem quick_lock_change_lost n cur cur' a lease lease' j m :
  in_sync n -> n_worker n = KIdle -> lock_acquired_ (n_elector n) = a -> (j <= 1)%nat -> (3 <= m)%nat ->
  let n' := worker_steps m (lock_change cur' a lease' (worker_steps j (lock_change cur (negb a) lease n))) in
  settled (role_of_lock (negb a)) n' /\ IsLeader (n_elector n') = a.
Proof.
  intros (Hok & (Hq & _) & Hh) Hw Ha Hj Hm n'. unfold heading in Hh. rewrite Hw, Ha in Hh.
  split; [|unfold n', IsLeader; rewrite worker_steps_acquired; apply Update_acquired].
  destruct (lock_change_facts cur (negb a) lease n Hok) as (Hok1 & Hr1 & Ha1).
  set (n1 := lock_change cur (negb a) lease n) in *.
  destruct (lock_change_queue cur (negb a) lease n) as (t & Hq1 & Ht & Hs);
    [by rewrite negb_involutive|rewrite Hh; by destruct a|rewrite Hh; by destruct a|].
  rewrite Hq in Hq1. replace ((if negb a then [] else []) ++ [t]) with [t] in Hq1 by (by destruct a).
  fold n1 in Hq1.
  assert (Hkeep : forall p, role_state_ (n_elector p) = role_of_lock a -> lock_acquired_ (n_elector p) = negb a ->
            n_worker (lock_change cur' a lease' p) = n_worker p /\
            transition_queue_ (n_elector (lock_change cur' a lease' p)) = transition_queue_ (n_elector p) /\
            role_state_ (n_elector (lock_change cur' a lease' p)) = role_of_lock a).
  { intros p Hrp Hap. split; [done|]. unfold lock_change, set_elector, UpdateLockStatus. simpl. rewrite Hap.
    unfold RequestPromoteToLeader, RequestDemoteToFollower, forbid_campaign.
    destruct a; simpl; repeat (case_match; simplify_eq/=); split; congruence. }
  destruct j as [|[|j]]; [| |lia].
  - unfold n'. cbn [worker_steps]. destruct (Hkeep n1) as (Hw2 & Hq2 & Hr2); [by rewrite Hr1|done|].
    apply (settles_one m _ t (negb a)); rewrite ?Hq2, ?Hr2, ?negb_involutive; done.
  - assert (worker_step n1 = mkNode (n_cfg n1) (set_queue (state_version_ (n_elector n1)) [] (n_elector n1))
              (n_work n1) (n_demote n1) (KPopped t)) as E1.
    { unfold worker_step, pop_task. by rewrite Hq1, (Hw : n_worker n1 = KIdle). }
    unfold n'. simpl. rewrite E1.
    set (n2 := mkNode _ _ _ _ (KPopped t)).
    destruct (Hkeep n2) as (Hw2 & Hq2 & Hr2); [exact (eq_trans Hr1 Hh)|exact Ha1|].
    apply (popped_settles m _ t (negb a)); rewrite ?Hq2, ?Hr2, ?negb_involutive; try done; lia.
Qed.

Lemma quick_lock_change_lost_witness :
  let n := fresh_node (make_config "lock" "a" 10000 100) in
  let n' := worker_steps 3 (lock_change 2 false (-1) (lock_change 1 true 10001000 n)) in
  settled LEADER n' /\ IsLeader (n_elector n') = false.
Proof.
  intros n n'.
  assert (Hn : in_sync n).
  { unfold in_sync, role_ok, none_waiting. simpl. split_and!; auto; done. }
  exact (quick_lock_change_lost n 1 2 false 10001000 (-1) 0 3 Hn eq_refl eq_refl ltac:(lia) ltac:(lia)).
Defined.

(** ** Node information

    The endpoint of a replica is kept in the key-value part of the backend;
    its JSON form is a parameter. [self] is the replica's own cached copy. *)

Section node_info.
Context {T : Type} `{CB : CoordinationBackend T} {NodeEndpointInfo : Type}.
Variable ToJsonString : NodeEndpointInfo -> string.
Variable FromJsonString : string -> option NodeEndpointInfo.
Variable c : ElectorConfig.

Definition node_info_key (node_id : string) : string := String.append "_TAIR_KVCM_NODE_INFO_" node_id.

Definition SetNodeInfo (node_id : string) (info : NodeEndpointInfo) (b : T) : ErrorCode * T :=
  co_SetValue (node_info_key node_id) (ToJsonString info) b.

Definition SetSelfNodeInfo (info : NodeEndpointInfo) (self : option NodeEndpointInfo) (b : T)
    : ErrorCode * option NodeEndpointInfo * T :=
  let '(ec, b) := SetNodeInfo (lock_value_ c) info b in
  (ec, if bool_decide (ec = EC_OK) then Some info else self, b).

Definition GetSelfNodeInfo (self : option NodeEndpointInfo) : ErrorCode * option NodeEndpointInfo :=
  match self with
  | None => (EC_NOENT, None)
  | Some info => (EC_OK, Some info)
  end.

Definition GetNodeInfo (node_id : string) (b : T) : ErrorCode * option NodeEndpointInfo :=
  match co_GetValue (node_info_key node_id) b with
  | (EC_OK, Some json) =>
      match FromJsonString json with
      | None => (EC_ERROR, None)
      | Some info => (EC_OK, Some info)
      end
  | (ec, _) => (ec, None)
  end.

Definition GetLeaderNodeInfo (e : LeaderElector) (self : option NodeEndpointInfo) (b : T)
    : ErrorCode * option NodeEndpointInfo :=
  let leader_node_id := GetLeaderNodeID e in
  if bool_decide (leader_node_id = EmptyString) then (EC_NOENT, None)
  else if bool_decide (leader_node_id = lock_value_ c) then GetSelfNodeInfo self
  else GetNodeInfo leader_node_id b.
End node_info.

(** What a replica publishes on the in-memory backend is what every other
    replica reads as the leader's endpoint. *)
Lemma published_node_info {N} (to : N -> string) (from : string -> option N) cl cf info self b self' b' e f :
  (forall i, from (to i) = Some i) ->
  SetSelfNodeInfo to cl info self b = (EC_OK, self', b') ->
  GetLeaderNodeID e = lock_value_ cl -> lock_value_ cl <> EmptyString ->
  lock_value_ cf <> lock_value_ cl ->
  GetLeaderNodeInfo from cf e f b' = (EC_OK, Some info) /\
  GetLeaderNodeInfo from cl e self' b' = (EC_OK, Some info).
Proof.
  intros Hrt Hset Hlead Hne Hother. unfold SetSelfNodeInfo, SetNodeInfo in Hset. simpl in Hset.
  unfold SetValue in Hset. destruct (initialized_ b) eqn:Hi; simpl in Hset; [|done].
  simplify_eq/=.
  unfold GetLeaderNodeInfo. rewrite Hlead, (bool_decide_eq_false_2 (lock_value_ cl = EmptyString)) by done.
  rewrite (bool_decide_eq_false_2 (lock_value_ cl = lock_value_ cf)) by congruence.
  rewrite (bool_decide_eq_true_2 (lock_value_ cl = lock_value_ cl)) by done. split; [|done].
  unfold GetNodeInfo. simpl. unfold GetValue. simpl. rewrite ?Hi. simpl.
  by rewrite lookup_insert_eq, Hrt.
Qed.
