(* ===== verification/StorageManager.v ===== *)
(** * StorageManager: the registered data storages of
    [data_storage/data_storage_manager.cc]

    [DataStorageManager] keeps the storage backends the bytes of the cache
    live in, by unique name. What a backend does with bytes (files, remote
    memory) is not in the source under [src/] or is I/O: the operations of a
    backend are the parameters [bk_*], over a state [W] of the outside world.
    A registered backend is its configuration and whether it is available. *)

From stdpp Require Import base gmap sets list strings sorting.
From Stdlib Require Import ZArith Lia.
From S2P Require Import Prelude StandardUri MetaTypes.

Local Open Scope Z_scope.

(** ** Configuration *)

(** The classes derived from [StorageSpec], with their members. *)
Inductive StorageSpec :=
  | ThreeFSStorageSpec (cluster_name mountpoint root_dir : string) (key_count_per_file : Z) (touch_file_when_create : bool)
  | VcnsThreeFSStorageSpec (cluster_name mountpoint root_dir : string) (key_count_per_file : Z)
      (touch_file_when_create : bool) (remote_host : string) (remote_port : Z) (meta_storage_uri : string)
  | MooncakeStorageSpec (local_hostname metadata_connstring protocol rdma_device master_server_entry : string)
  | TairMemPoolStorageSpec (domain : string) (timeout : Z) (service_discovery_url cluster_name : string) (media_type : Z)
  | NfsStorageSpec (root_path : string) (key_count_per_file : Z)
  | DummyStorageSpec (root_path : string) (key_count_per_file : Z)
  | EventReportStorageSpec (heartbeat_timeout_ms cleanup_grace_ms liveness_check_interval_ms
      snapshot_min_interval_ms snapshot_delta_drain_timeout_ms : Z).

#[global] Instance StorageSpec_eq_dec : EqDecision StorageSpec.
Proof. solve_decision. Defined.

(** [storage_spec_] is a pointer. *)
Record StorageConfig := mkStorageConfig {
  type_ : DataStorageType;
  global_unique_name_ : string;
  storage_spec_ : option StorageSpec;
  check_storage_available_when_open_ : bool;
  is_available_ : bool;
}.

(** The media type of a [TairMemPoolStorageSpec], [None] for the other specs. *)
Definition media_type_ (c : StorageConfig) : option Z :=
  match storage_spec_ c with
  | Some (TairMemPoolStorageSpec _ _ _ _ media_type) => Some media_type
  | _ => None
  end.

#[global] Instance StorageConfig_eq_dec : EqDecision StorageConfig.
Proof. solve_decision. Defined.

Definition set_is_available (a : bool) (c : StorageConfig) : StorageConfig :=
  mkStorageConfig (type_ c) (global_unique_name_ c) (storage_spec_ c) (check_storage_available_when_open_ c) a.

Record DataStorageBackend := mkBackend { config_ : StorageConfig; available_ : bool }.

#[global] Instance DataStorageBackend_eq_dec : EqDecision DataStorageBackend.
Proof. solve_decision. Defined.

Definition GetStorageConfig (b : DataStorageBackend) : StorageConfig := config_ b.
Definition GetType (b : DataStorageBackend) : DataStorageType := type_ (config_ b).
Definition Available (b : DataStorageBackend) : bool := available_ b.
Definition SetAvailable (a : bool) (b : DataStorageBackend) : DataStorageBackend := mkBackend (config_ b) a.

(** [storage_map_]. *)
Abbreviation DataStorageManager := (gmap string DataStorageBackend).

(** ** What the manager knows *)

Definition GetAllStorageNames (m : DataStorageManager) : list string := (sorted_entries m).*1.

Definition GetAvailableStorages (m : DataStorageManager) : list DataStorageBackend :=
  filter (fun b => Available b = true) (sorted_entries m).*2.

Definition ListStorageConfig (m : DataStorageManager) : list StorageConfig :=
  GetStorageConfig <$> (sorted_entries m).*2.

Definition GetDataStorageBackend (name : string) (m : DataStorageManager) : option DataStorageBackend :=
  m !! name.

Definition set_storage (a : bool) (name : string) (m : DataStorageManager) : ErrorCode * DataStorageManager :=
  match m !! name with
  | None => (EC_NOENT, m)
  | Some b => (EC_OK, <[name := SetAvailable a b]> m)
  end.

Definition EnableStorage := set_storage true.
Definition DisableStorage := set_storage false.

Section manager.
(** Which types the build can create a backend for ([CreateStorageBackend]
    with its conditional cases). *)
Variable with_vcns with_mooncake : bool.
(** [DoOpen] and [Close] of the backend. An opened backend is available. *)
Variable bk_Open bk_Close : StorageConfig -> ErrorCode.

Definition CreateStorageBackend (type : DataStorageType) : bool :=
  match type with
  | DATA_STORAGE_TYPE_VCNS_HF3FS => with_vcns
  | DATA_STORAGE_TYPE_MOONCAKE => with_mooncake
  | DATA_STORAGE_TYPE_UNKNOWN => false
  | _ => true
  end.

Definition RegisterStorage (name : string) (c : StorageConfig) (m : DataStorageManager)
    : ErrorCode * DataStorageManager :=
  match m !! name with
  | Some _ => (EC_EXIST, m)
  | None =>
      if negb (CreateStorageBackend (type_ c)) then (EC_ERROR, m)
      else
        let ec := bk_Open c in
        if bool_decide (ec <> EC_OK) then (ec, m) else (ec, <[name := mkBackend c true]> m)
  end.

Definition UnRegisterStorage (name : string) (m : DataStorageManager) : ErrorCode * DataStorageManager :=
  match m !! name with
  | None => (EC_NOENT, m)
  | Some b =>
      let ec := bk_Close (config_ b) in
      if bool_decide (ec <> EC_OK) then (ec, m) else (ec, delete name m)
  end.

(** The code of the last backend that fails to close. *)
Definition DoCleanup (m : DataStorageManager) : ErrorCode * DataStorageManager :=
  (foldl (fun result b =>
            let ec := bk_Close (config_ b) in if bool_decide (ec <> EC_OK) then ec else result)
     EC_OK (sorted_entries m).*2, ∅).

Lemma RegisterStorage_ok name c m m' :
  RegisterStorage name c m = (EC_OK, m') ->
  m !! name = None /\ CreateStorageBackend (type_ c) = true /\ bk_Open c = EC_OK /\
  m' = <[name := mkBackend c true]> m.
Proof.
  unfold RegisterStorage. destruct (m !! name); [done|].
  destruct (CreateStorageBackend _) eqn:E; simpl; [|done]. case_bool_decide; intros; simplify_eq; auto.
Qed.

Lemma RegisterStorage_new name c m :
  m !! name = None -> CreateStorageBackend (type_ c) = true -> bk_Open c = EC_OK ->
  RegisterStorage name c m = (EC_OK, <[name := mkBackend c true]> m).
Proof. intros Hn Hc Ho. unfold RegisterStorage. by rewrite Hn, Hc, Ho. Qed.

Lemma UnRegisterStorage_ok name m m' :
  UnRegisterStorage name m = (EC_OK, m') -> is_Some (m !! name) /\ m' = delete name m.
Proof.
  unfold UnRegisterStorage. destruct (m !! name) eqn:E; [|done]. case_bool_decide; intros; simplify_eq; eauto.
Qed.
End manager.

Lemma set_storage_ok a name m m' :
  set_storage a name m = (EC_OK, m') -> exists b, m !! name = Some b /\ m' = <[name := SetAvailable a b]> m.
Proof. unfold set_storage. destruct (m !! name) as [b|]; intros; simplify_eq; eauto. Qed.

Lemma elem_of_available b m :
  b ∈ GetAvailableStorages m <-> Available b = true /\ exists name, m !! name = Some b.
Proof.
  unfold GetAvailableStorages. rewrite list_elem_of_filter, list_elem_of_fmap. split.
  - intros (? & [k b'] & -> & H%elem_of_sorted_entries). eauto.
  - intros (? & k & Hk). split; [done|]. exists (k, b). by rewrite elem_of_sorted_entries.
Qed.

(** ** The operations on bytes *)

Section bytes.
Context {W : Type}.
Variable bk_Create : DataStorageBackend -> list string -> Z -> W -> list (ErrorCode * StandardUri) * W.
Variable bk_Delete : DataStorageBackend -> list StandardUri -> W -> list ErrorCode * W.
Variable bk_Copy : DataStorageBackend -> list StandardUri -> list StandardUri -> W -> list ErrorCode * W.
Variable bk_Exist bk_MightExist : DataStorageBackend -> list StandardUri -> W -> list bool.
Variable bk_Lock bk_UnLock : DataStorageBackend -> list StandardUri -> W -> list ErrorCode * W.

Definition SetHostName (name : string) (u : StandardUri) : StandardUri :=
  mkStandardUri (protocol_ u) (user_info_ u) (chars_of name) (port_ u) (path_ u) (params_ u).

Definition Create (m : DataStorageManager) (unique_name : string) (keys : list string) (size_per_key : Z)
    (w : W) : list (ErrorCode * StandardUri) * W :=
  match m !! unique_name with
  | None => ([], w)
  | Some b =>
      if negb (Available b) then (replicate (length keys) (EC_NOENT, empty_uri), w)
      else
        let '(res, w) := bk_Create b keys size_per_key w in
        ((fun '(ec, u) => if bool_decide (ec = EC_OK) then (ec, SetHostName unique_name u) else (ec, u)) <$> res, w)
  end.

Definition Delete (m : DataStorageManager) (unique_name : string) (uris : list StandardUri) (w : W)
    : list ErrorCode * W :=
  match uris with
  | [] => ([], w)
  | _ => match m !! unique_name with
         | None => ([], w)
         | Some b => bk_Delete b uris w
         end
  end.

Definition Copy (m : DataStorageManager) (unique_name : string) (src dst : list StandardUri) (w : W)
    : list ErrorCode * W :=
  if negb (length src =? length dst)%nat then (replicate (length src) EC_BADARGS, w)
  else match src with
       | [] => ([], w)
       | _ => match m !! unique_name with
              | None => (replicate (length src) EC_NOENT, w)
              | Some b => bk_Copy b src dst w
              end
       end.

Definition Exist (m : DataStorageManager) (unique_name : string) (uris : list StandardUri) (fastpath : bool)
    (w : W) : list bool :=
  match m !! unique_name with
  | None => []
  | Some b => if fastpath then bk_MightExist b uris w else bk_Exist b uris w
  end.

Definition Lock (m : DataStorageManager) (unique_name : string) (uris : list StandardUri) (w : W)
    : list ErrorCode * W :=
  match m !! unique_name with None => ([], w) | Some b => bk_Lock b uris w end.

Definition UnLock (m : DataStorageManager) (unique_name : string) (uris : list StandardUri) (w : W)
    : list ErrorCode * W :=
  match m !! unique_name with None => ([], w) | Some b => bk_UnLock b uris w end.

(** A disabled storage accepts no new data: its backend is not called. *)
Lemma Create_disabled m name keys sz w b :
  m !! name = Some b ->
  Create (set_storage false name m).2 name keys sz w = (replicate (length keys) (EC_NOENT, empty_uri), w).
Proof.
  intros Hb. unfold set_storage. rewrite Hb. simpl. unfold Create. by rewrite lookup_insert_eq.
Qed.

(** What is created names the storage it lives in. *)
Lemma Create_host m name keys sz w res w' i u :
  Create m name keys sz w = (res, w') -> res !! i = Some (EC_OK, u) -> hostname_ u = chars_of name.
Proof.
  unfold Create. destruct (m !! name) as [b|]; [|by intros; simplify_eq].
  destruct (Available b); simpl.
  - destruct (bk_Create b keys sz w) as [r w1]. intros [= <- <-]. rewrite list_lookup_fmap.
    destruct (r !! i) as [[ec u']|]; simpl; [|done]. case_bool_decide; intros; simplify_eq; done.
  - intros [= <- <-]. rewrite lookup_replicate. intros [[= ] _].
Qed.
End bytes.
