(* ===== verification/ConfigJson.v ===== *)
(** * ConfigJson: configuration objects as JSON ([common/jsonizable.h],
    [data_storage/storage_config.cc])

    What [Jsonizable] puts in a document and gets from it, for the members the
    configuration classes have (flags, integers, texts, pointers, lists), and
    the serializer of [StorageConfig] with its seven kinds of spec. A document
    is a tree; its text is written and parsed by rapidjson, which is an
    interface here ([JsonText]). Writing a storage configuration and parsing
    it again does not give it back whole: [StorageConfig_through_json] says
    what is kept. *)

From stdpp Require Import base gmap sets list strings countable.
From Stdlib Require Import ZArith Lia String Ascii.
From S2P Require Import Prelude MetaTypes StorageManager.

Local Open Scope Z_scope.

(** ** Documents *)

Inductive Json :=
  | JNull
  | JBool (b : bool)
  | JInt (z : Z)
  | JString (s : string)
  | JArray (values : list Json)
  | JObject (members : list (string * Json)).

(** The integers of a document have 64 bits, signed or not. *)
Fixpoint json_wf (v : Json) : bool :=
  match v with
  | JInt z => (- 2 ^ 63 <=? z) && (z <? 2 ^ 64)
  | JArray values => forallb json_wf values
  | JObject members => forallb (fun m => json_wf m.2) members
  | _ => true
  end.

(** rapidjson's writer and parser: a document that is written can be parsed. *)
Class JsonText := {
  json_print : Json -> string;
  json_parse : string -> option Json;
  json_parse_print : forall v, json_wf v = true -> json_parse (json_print v) = Some v;
}.

(** ** Members *)

Definition i64 (z : Z) : Z := (z + 2 ^ 63) mod 2 ^ 64 - 2 ^ 63.

Lemma i64_small z : - 2 ^ 63 <= z < 2 ^ 63 -> i64 z = z.
Proof. intros Hz. unfold i64. rewrite Z.mod_small by lia. lia. Qed.

Lemma i32_i64 z : i32 (i64 z) = i32 z.
Proof.
  unfold i32, i64. f_equal. replace ((z + 2 ^ 63) mod 2 ^ 64 - 2 ^ 63 + 2 ^ 31) with ((z + 2 ^ 63) mod 2 ^ 64 + (2 ^ 31 - 2 ^ 63)) by lia.
  rewrite (Z.mod_eq (z + 2 ^ 63) (2 ^ 64)) by lia.
  replace (z + 2 ^ 63 - 2 ^ 64 * ((z + 2 ^ 63) / 2 ^ 64) + (2 ^ 31 - 2 ^ 63))
    with (z + 2 ^ 31 + (- 2 ^ 32 * ((z + 2 ^ 63) / 2 ^ 64)) * 2 ^ 32) by lia.
  apply Z.mod_add. lia.
Qed.

(** What [Put] writes for an integer, signed or not. *)
Definition put_int (z : Z) : Json := JInt (i64 z).
Definition put_uint (z : Z) : Json := JInt (u64 z).

Lemma put_int_wf z : json_wf (put_int z) = true.
Proof.
  unfold put_int, i64. cbn [json_wf]. pose proof (Z.mod_pos_bound (z + 2 ^ 63) (2 ^ 64) ltac:(lia)).
  apply andb_true_iff. split; [apply Z.leb_le|apply Z.ltb_lt]; lia.
Qed.

Lemma put_uint_wf z : json_wf (put_uint z) = true.
Proof.
  unfold put_uint, u64. cbn [json_wf]. pose proof (Z.mod_pos_bound z (2 ^ 64) ltac:(lia)).
  apply andb_true_iff. split; [apply Z.leb_le|apply Z.ltb_lt]; lia.
Qed.

(** [FromRapidValue] for the types of the members. *)
Definition get_bool (v : Json) : option bool := match v with JBool b => Some b | _ => None end.
Definition get_string (v : Json) : option string := match v with JString s => Some s | _ => None end.

Definition get_signed (v : Json) : option Z :=
  match v with JInt z => if (- 2 ^ 63 <=? z) && (z <? 2 ^ 63) then Some z else None | _ => None end.
Definition get_unsigned (v : Json) : option Z :=
  match v with JInt z => if (0 <=? z) && (z <? 2 ^ 64) then Some z else None | _ => None end.
Definition get_i64 : Json -> option Z := get_signed.
Definition get_i32 (v : Json) : option Z := i32 <$> get_signed v.
Definition get_u32 (v : Json) : option Z := (fun z => z mod 2 ^ 32) <$> get_unsigned v.

Fixpoint get_all {A} (get : Json -> option A) (values : list Json) : option (list A) :=
  match values with
  | [] => Some []
  | v :: values => x ← get v; xs ← get_all get values; Some (x :: xs)
  end.

Definition get_vector {A} (get : Json -> option A) (v : Json) : option (list A) :=
  match v with JArray values => get_all get values | _ => None end.

(** [FromRapidValue] into a [shared_ptr]: null is refused. *)
Definition get_object {A} (get : Json -> option A) (v : Json) : option A :=
  match v with JObject _ => get v | _ => None end.

(** [Get]: a member that is absent gives the default (the value the object
    had), one that cannot be read fails. *)
Definition Get {A} (get : Json -> option A) (key : string) (default_value : A) (v : Json) : option A :=
  match v with
  | JObject members =>
      match find (fun m => (m.1 =? key)%string) members with
      | Some m => get m.2
      | None => Some default_value
      end
  | _ => None
  end.

Lemma get_signed_put z : get_signed (put_int z) = Some (i64 z).
Proof.
  unfold put_int, i64. cbn [get_signed]. pose proof (Z.mod_pos_bound (z + 2 ^ 63) (2 ^ 64) ltac:(lia)).
  by rewrite (proj2 (Z.leb_le _ _)), (proj2 (Z.ltb_lt _ _)) by lia.
Qed.

Lemma get_unsigned_put z : get_unsigned (put_uint z) = Some (u64 z).
Proof.
  unfold put_uint. cbn [get_unsigned]. destruct (u64_range z).
  by rewrite (proj2 (Z.leb_le _ _)), (proj2 (Z.ltb_lt _ _)) by lia.
Qed.

(** ** Storage configurations *)

(** [ToRapidWriter] of the specs. *)
Definition spec_to_json (s : StorageSpec) : Json :=
  match s with
  | ThreeFSStorageSpec cluster_name mountpoint root_dir key_count_per_file _ =>
      JObject [("cluster_name", JString cluster_name); ("mountpoint", JString mountpoint); ("root_dir", JString root_dir);
               ("key_count_per_file", put_int key_count_per_file)]
  | VcnsThreeFSStorageSpec cluster_name mountpoint root_dir key_count_per_file _ remote_host remote_port meta_storage_uri =>
      JObject [("cluster_name", JString cluster_name); ("mountpoint", JString mountpoint); ("root_dir", JString root_dir);
               ("key_count_per_file", put_int key_count_per_file); ("remote_host", JString remote_host);
               ("remote_port", put_int remote_port); ("meta_storage_uri", JString meta_storage_uri)]
  | MooncakeStorageSpec local_hostname metadata_connstring protocol rdma_device master_server_entry =>
      JObject [("local_hostname", JString local_hostname); ("metadata_connstring", JString metadata_connstring);
               ("protocol", JString protocol); ("rdma_device", JString rdma_device);
               ("master_server_entry", JString master_server_entry)]
  | TairMemPoolStorageSpec domain timeout service_discovery_url _ media_type =>
      JObject [("domain", JString domain); ("timeout", put_int timeout);
               ("service_discovery_url", JString service_discovery_url); ("media_type", put_uint media_type)]
  | NfsStorageSpec root_path key_count_per_file | DummyStorageSpec root_path key_count_per_file =>
      JObject [("root_path", JString root_path); ("key_count_per_file", put_int key_count_per_file)]
  | EventReportStorageSpec heartbeat_timeout_ms cleanup_grace_ms liveness_check_interval_ms snapshot_min_interval_ms
      snapshot_delta_drain_timeout_ms =>
      JObject [("heartbeat_timeout_ms", put_int heartbeat_timeout_ms); ("cleanup_grace_ms", put_int cleanup_grace_ms);
               ("liveness_check_interval_ms", put_int liveness_check_interval_ms);
               ("snapshot_min_interval_ms", put_int snapshot_min_interval_ms);
               ("snapshot_delta_drain_timeout_ms", put_int snapshot_delta_drain_timeout_ms)]
  end.

(** [FromRapidValue] of each spec, into a default object ([remote_port_] has
    no initialiser; zero stands for it). *)
Definition nfs_from_json (v : Json) : option StorageSpec :=
  root_path ← Get get_string "root_path" "" v;
  key_count_per_file ← Get get_i32 "key_count_per_file" 1 v;
  Some (NfsStorageSpec root_path key_count_per_file).

Definition threefs_from_json (v : Json) : option StorageSpec :=
  cluster_name ← Get get_string "cluster_name" "" v;
  mountpoint ← Get get_string "mountpoint" "" v;
  root_dir ← Get get_string "root_dir" "" v;
  key_count_per_file ← Get get_i32 "key_count_per_file" 0 v;
  Some (ThreeFSStorageSpec cluster_name mountpoint root_dir key_count_per_file false).

Definition vcns_from_json (v : Json) : option StorageSpec :=
  cluster_name ← Get get_string "cluster_name" "" v;
  mountpoint ← Get get_string "mountpoint" "" v;
  root_dir ← Get get_string "root_dir" "" v;
  key_count_per_file ← Get get_i32 "key_count_per_file" 0 v;
  remote_host ← Get get_string "remote_host" "" v;
  remote_port ← Get get_i32 "remote_port" 0 v;
  meta_storage_uri ← Get get_string "meta_storage_uri" "" v;
  Some (VcnsThreeFSStorageSpec cluster_name mountpoint root_dir key_count_per_file false remote_host remote_port
          meta_storage_uri).

Definition mooncake_from_json (v : Json) : option StorageSpec :=
  local_hostname ← Get get_string "local_hostname" "localhost" v;
  metadata_connstring ← Get get_string "metadata_connstring" "http://localhost:8080/metadata" v;
  protocol ← Get get_string "protocol" "tcp" v;
  rdma_device ← Get get_string "rdma_device" "" v;
  master_server_entry ← Get get_string "master_server_entry" "localhost:50051" v;
  Some (MooncakeStorageSpec local_hostname metadata_connstring protocol rdma_device master_server_entry).

(** The service discovery address falls back to two retired members. *)
Definition mempool_from_json (v : Json) : option StorageSpec :=
  domain ← Get get_string "domain" "" v;
  timeout ← Get get_i64 "timeout" 0 v;
  service_discovery_url ← Get get_string "service_discovery_url" "" v;
  media_type ← Get get_u32 "media_type" 0 v;
  if 2 ^ 16 - 1 <? media_type then None
  else if bool_decide (service_discovery_url = "") then
    legacy_enable_vipserver ← Get get_bool "enable_vipserver" false v;
    legacy_vipserver_domain ← Get get_string "vipserver_domain" "" v;
    let url := if (legacy_enable_vipserver : bool) && negb (bool_decide (legacy_vipserver_domain = ""))
               then ("vipserver://" ++ legacy_vipserver_domain)%string else "" in
    Some (TairMemPoolStorageSpec domain timeout url "" media_type)
  else Some (TairMemPoolStorageSpec domain timeout service_discovery_url "" media_type).

Definition event_report_from_json (v : Json) : option StorageSpec :=
  heartbeat_timeout_ms ← Get get_i64 "heartbeat_timeout_ms" 30000 v;
  cleanup_grace_ms ← Get get_i64 "cleanup_grace_ms" 300000 v;
  liveness_check_interval_ms ← Get get_i64 "liveness_check_interval_ms" 5000 v;
  snapshot_min_interval_ms ← Get get_i64 "snapshot_min_interval_ms" 30000 v;
  snapshot_delta_drain_timeout_ms ← Get get_i64 "snapshot_delta_drain_timeout_ms" 10000 v;
  Some (EventReportStorageSpec heartbeat_timeout_ms cleanup_grace_ms liveness_check_interval_ms
          snapshot_min_interval_ms snapshot_delta_drain_timeout_ms).

Definition config_to_json (c : StorageConfig) : Json :=
  JObject [("type", JString (storage_type_ToString (type_ c))); ("is_available", JBool (is_available_ c));
           ("global_unique_name", JString (global_unique_name_ c));
           ("storage_spec", match storage_spec_ c with Some s => spec_to_json s | None => JNull end)].

(** The spec class of a type. The branch of the dummy type makes a spec,
    does not read it and does not keep it. *)
Definition spec_reader (type : DataStorageType) : option (Json -> option StorageSpec) :=
  match type with
  | DATA_STORAGE_TYPE_NFS => Some nfs_from_json
  | DATA_STORAGE_TYPE_HF3FS => Some threefs_from_json
  | DATA_STORAGE_TYPE_VCNS_HF3FS => Some vcns_from_json
  | DATA_STORAGE_TYPE_MOONCAKE => Some mooncake_from_json
  | DATA_STORAGE_TYPE_TAIR_MEMPOOL | DATA_STORAGE_TYPE_TAIR_MEMPOOL_SSD => Some mempool_from_json
  | DATA_STORAGE_TYPE_EVENT_REPORT_L1P5 | DATA_STORAGE_TYPE_EVENT_REPORT_L2 => Some event_report_from_json
  | DATA_STORAGE_TYPE_DUMMY | DATA_STORAGE_TYPE_UNKNOWN => None
  end.

Definition spec_from_json (type : DataStorageType) (v : Json) : option (option StorageSpec) :=
  match spec_reader type with
  | Some read => Get (fun m => s ← get_object read m; Some (Some s)) "storage_spec" None v
  | None => Some None
  end.

Definition config_from_json (v : Json) : option StorageConfig :=
  type_str ← Get get_string "type" "" v;
  is_available ← Get get_bool "is_available" true v;
  global_unique_name ← Get get_string "global_unique_name" "" v;
  let type := ToDataStorageType type_str in
  storage_spec ← spec_from_json type v;
  Some (mkStorageConfig type global_unique_name storage_spec false is_available).

(** ** What is kept *)

(** The spec is of the class its type has. *)
Definition spec_fits (type : DataStorageType) (s : StorageSpec) : bool :=
  match type, s with
  | DATA_STORAGE_TYPE_NFS, NfsStorageSpec _ _ | DATA_STORAGE_TYPE_HF3FS, ThreeFSStorageSpec _ _ _ _ _
  | DATA_STORAGE_TYPE_VCNS_HF3FS, VcnsThreeFSStorageSpec _ _ _ _ _ _ _ _
  | DATA_STORAGE_TYPE_MOONCAKE, MooncakeStorageSpec _ _ _ _ _
  | DATA_STORAGE_TYPE_TAIR_MEMPOOL, TairMemPoolStorageSpec _ _ _ _ _
  | DATA_STORAGE_TYPE_TAIR_MEMPOOL_SSD, TairMemPoolStorageSpec _ _ _ _ _
  | DATA_STORAGE_TYPE_EVENT_REPORT_L1P5, EventReportStorageSpec _ _ _ _ _
  | DATA_STORAGE_TYPE_EVENT_REPORT_L2, EventReportStorageSpec _ _ _ _ _ => true
  | _, _ => false
  end.

(** The integers of a spec have the widths of their members. *)
Definition is_i32 (z : Z) : Prop := - 2 ^ 31 <= z < 2 ^ 31.
Definition is_i64 (z : Z) : Prop := - 2 ^ 63 <= z < 2 ^ 63.

Definition spec_typed (s : StorageSpec) : Prop :=
  match s with
  | ThreeFSStorageSpec _ _ _ n _ | NfsStorageSpec _ n | DummyStorageSpec _ n => is_i32 n
  | VcnsThreeFSStorageSpec _ _ _ n _ _ p _ => is_i32 n /\ is_i32 p
  | MooncakeStorageSpec _ _ _ _ _ => True
  | TairMemPoolStorageSpec _ t _ _ m => is_i64 t /\ 0 <= m < 2 ^ 16
  | EventReportStorageSpec a b c d e => is_i64 a /\ is_i64 b /\ is_i64 c /\ is_i64 d /\ is_i64 e
  end.

(** The members that are not written come back as in a default object. *)
Definition spec_kept (s : StorageSpec) : StorageSpec :=
  match s with
  | ThreeFSStorageSpec c m r n _ => ThreeFSStorageSpec c m r n false
  | VcnsThreeFSStorageSpec c m r n _ h p u => VcnsThreeFSStorageSpec c m r n false h p u
  | TairMemPoolStorageSpec d t u _ m => TairMemPoolStorageSpec d t u "" m
  | s => s
  end.

Definition config_kept (c : StorageConfig) : StorageConfig :=
  mkStorageConfig (type_ c) (global_unique_name_ c) (spec_kept <$> storage_spec_ c) false (is_available_ c).

(** A configuration that survives: its spec is there and fits. *)
Definition storable (c : StorageConfig) : Prop :=
  exists s, storage_spec_ c = Some s /\ spec_fits (type_ c) s = true /\ spec_typed s.

Lemma i32_of_i64 z : is_i32 z -> i32 (i64 z) = z.
Proof. unfold is_i32. intros Hz. rewrite i64_small by lia. by apply i32_small. Qed.

Lemma get_i32_put z : is_i32 z -> get_i32 (put_int z) = Some z.
Proof. intros Hz. unfold get_i32. rewrite get_signed_put. simpl. by rewrite i32_of_i64. Qed.

Lemma get_i64_put z : is_i64 z -> get_i64 (put_int z) = Some z.
Proof. intros Hz. unfold get_i64. rewrite get_signed_put. by rewrite i64_small. Qed.

Lemma get_u32_put z : 0 <= z < 2 ^ 32 -> get_u32 (put_uint z) = Some z.
Proof.
  intros Hz. unfold get_u32. rewrite get_unsigned_put. simpl. rewrite u64_small by (unfold is_u64; lia).
  by rewrite Z.mod_small.
Qed.

Lemma type_through_text type : ToDataStorageType (storage_type_ToString type) = type.
Proof. by destruct type. Qed.

Create HintDb config_json.
#[export] Hint Rewrite get_i32_put get_i64_put get_u32_put using (assumption || lia) : config_json.

(** Reading what was written, member by member. *)
Ltac read_members := repeat (cbn -[put_int put_uint get_i32 get_i64 get_u32]; autorewrite with config_json).

Lemma spec_through_json type read s :
  spec_reader type = Some read -> spec_fits type s = true -> spec_typed s -> read (spec_to_json s) = Some (spec_kept s).
Proof.
  intros Hr Hf Ht. destruct type, s; try discriminate Hf; simpl in Hr; injection Hr as <-; cbn [spec_typed] in Ht;
    repeat match goal with H : is_i32 _ /\ _ |- _ => destruct H | H : is_i64 _ /\ _ |- _ => destruct H end.
  all: unfold nfs_from_json, threefs_from_json, vcns_from_json, mooncake_from_json, mempool_from_json, event_report_from_json;
    read_members; try done.
  all: rewrite (proj2 (Z.ltb_ge _ _)) by lia; case_bool_decide; by subst.
Qed.

Lemma spec_to_json_object s : exists members, spec_to_json s = JObject members.
Proof. destruct s; eexists; reflexivity. Qed.

Lemma get_object_spec (read : Json -> option StorageSpec) s : get_object read (spec_to_json s) = read (spec_to_json s).
Proof. by destruct s. Qed.

(** Writing a storage configuration and reading it again keeps its type, name,
    availability and spec, and loses the flag
    [check_storage_available_when_open] and the members of the specs that are
    not written. *)
Theorem StorageConfig_through_json c :
  storable c -> config_from_json (config_to_json c) = Some (config_kept c).
Proof.
  intros (s & Hs & Hf & Ht). unfold config_from_json, config_to_json, config_kept. rewrite Hs.
  cbn -[spec_from_json spec_to_json ToDataStorageType]. rewrite type_through_text. unfold spec_from_json.
  destruct (spec_reader (type_ c)) as [read|] eqn:Er; [|by destruct (type_ c), s].
  cbn -[spec_to_json]. rewrite get_object_spec, (spec_through_json _ _ _ Er Hf Ht). done.
Qed.

(** The spec of a dummy storage is lost, whatever was written: reading leaves
    a null pointer, with which [DummyBackend::DoOpen] refuses to open. *)
Theorem dummy_spec_lost c :
  type_ c = DATA_STORAGE_TYPE_DUMMY ->
  config_from_json (config_to_json c) =
    Some (mkStorageConfig DATA_STORAGE_TYPE_DUMMY (global_unique_name_ c) None false (is_available_ c)).
Proof. intros Ht. unfold config_from_json, config_to_json. by rewrite Ht. Qed.

Lemma spec_to_json_wf s : json_wf (spec_to_json s) = true.
Proof. destruct s; cbn -[put_int put_uint]; by rewrite ?put_int_wf, ?put_uint_wf. Qed.

Lemma config_to_json_wf c : json_wf (config_to_json c) = true.
Proof. unfold config_to_json. cbn -[spec_to_json]. destruct (storage_spec_ c); [|done]. by rewrite spec_to_json_wf. Qed.

(** ** A concrete text form

    For the examples: the binary digits of stdpp's encoding of the document as
    a tree. *)

Fixpoint json_tree (v : Json) : gen_tree (string + Z) :=
  match v with
  | JNull => GenNode 0 []
  | JBool b => GenNode (if b then 2 else 1) []
  | JString s => GenLeaf (inl s)
  | JInt z => GenLeaf (inr z)
  | JArray values => GenNode 3 (json_tree <$> values)
  | JObject members => GenNode 4 ((fun m => GenNode 5 [GenLeaf (inl m.1); json_tree m.2]) <$> members)
  end.

Fixpoint tree_json (t : gen_tree (string + Z)) : Json :=
  match t with
  | GenLeaf (inl s) => JString s
  | GenLeaf (inr z) => JInt z
  | GenNode 1 _ => JBool false
  | GenNode 2 _ => JBool true
  | GenNode 3 ts => JArray (tree_json <$> ts)
  | GenNode 4 ts =>
      JObject ((fun t => match t with
                         | GenNode _ [GenLeaf (inl k); t] => (k, tree_json t)
                         | _ => (EmptyString, JNull)
                         end) <$> ts)
  | GenNode _ _ => JNull
  end.

Fixpoint tree_json_tree (v : Json) : tree_json (json_tree v) = v.
Proof.
  destruct v as [|[]|z|s|values|members]; try reflexivity; cbn [json_tree tree_json].
  - f_equal. induction values as [|v values IH]; [reflexivity|]. cbn. f_equal; [apply tree_json_tree|exact IH].
  - f_equal. induction members as [|[k v] members IH]; [reflexivity|]. cbn. f_equal; [|exact IH].
    f_equal. apply tree_json_tree.
Qed.

Fixpoint digits_of_pos (p : positive) : string :=
  match p with
  | xH => EmptyString
  | xO p => String "0"%char (digits_of_pos p)
  | xI p => String "1"%char (digits_of_pos p)
  end.

Fixpoint pos_of_digits (s : string) : positive :=
  match s with
  | EmptyString => xH
  | String "0"%char s => xO (pos_of_digits s)
  | String _ s => xI (pos_of_digits s)
  end.

Lemma pos_of_digits_of_pos p : pos_of_digits (digits_of_pos p) = p.
Proof. induction p as [p IH|p IH|]; simpl; by rewrite ?IH. Qed.

Definition digits_text : JsonText.
Proof.
  refine {| json_print := fun v => digits_of_pos (encode (json_tree v));
            json_parse := fun s => tree_json <$> decode (pos_of_digits s) |}.
  intros v _. rewrite pos_of_digits_of_pos, decode_encode. simpl. by rewrite tree_json_tree.
Defined.
