(* ===== verification/Registry.v ===== *)
(** * Registry: the configuration registry of [config/registry_manager.cc]

    [RegistryManager] keeps the instance groups, instances, accounts and
    storages in memory and in a registry store, and rebuilds the memory from
    the store when a replica becomes the leader. The store
    ([config/registry_storage_backend.h]) is an interface with its laws; the
    local one ([config/registry_local_backend.cc]) is an instance. Objects are
    stored as JSON text: storages, instances and accounts through their
    serializers, with rapidjson as an interface ([ConfigJson.JsonText]); the
    text of an instance group is an interface, since the model does not hold
    all its members. The public operations run under one mutex. *)

From stdpp Require Import base gmap sets list strings sorting.
From Stdlib Require Import ZArith Lia Ascii.
From S2P Require Import Prelude MetaTypes StorageManager ConfigJson.

Local Open Scope Z_scope.

(** ** Interfaces *)

Class Jsonizable (A : Type) := {
  ToJsonString : A -> string;
  FromJsonString : string -> option A;
}.

(** The objects whose text gives them back: for a group, those without null
    pointers ([FromRapidValue] refuses a null [cache_config]). *)
Class JsonComplete (A : Type) `{Jsonizable A} := {
  json_complete : A -> Prop;
  complete_from_to : forall x : A, json_complete x -> FromJsonString (ToJsonString x) = Some x;
}.

#[global] Instance StorageConfig_Jsonizable `{JT : JsonText} : Jsonizable StorageConfig := {
  ToJsonString c := json_print (config_to_json c);
  FromJsonString s := v ← json_parse s; config_from_json v;
}.

Lemma StorageConfig_from_to `{JT : JsonText} c :
  storable c -> FromJsonString (ToJsonString c) = Some (config_kept c).
Proof.
  intros Hc. simpl. rewrite json_parse_print by apply config_to_json_wf. simpl. by apply StorageConfig_through_json.
Qed.

Abbreviation FieldMap := (gmap string string).

(** [Load] gives the code and [out_value], which starts empty. *)
Class RegistryStorageBackend (T : Type) := {
  rs_Load : string -> T -> (ErrorCode * FieldMap) * T;
  rs_Save : string -> FieldMap -> T -> ErrorCode * T;
  rs_Delete : string -> T -> ErrorCode * T;
}.

Class LawfulRegistryStorage (T : Type) `{RegistryStorageBackend T} := {
  rs_table : T -> string -> option FieldMap;
  law_load_keeps : forall k s r s', rs_Load k s = (r, s') -> forall k', rs_table s' k' = rs_table s k';
  law_load_ok : forall k s m s', rs_Load k s = ((EC_OK, m), s') -> rs_table s k = Some m;
  law_load_none : forall k s m s', rs_Load k s = ((EC_NOENT, m), s') -> m = ∅ /\ rs_table s k = None;
  law_save_ok : forall k v s s', rs_Save k v s = (EC_OK, s') ->
    rs_table s' k = Some v /\ forall k', k' <> k -> rs_table s' k' = rs_table s k';
  law_delete_ok : forall k s s', rs_Delete k s = (EC_OK, s') ->
    rs_table s' k = None /\ forall k', k' <> k -> rs_table s' k' = rs_table s k';
}.

(** ** The local registry store

    [table_] with its optional file: [persist_] are the results of the coming
    calls of [PersistToPath] ([EC_OK] once there are no more), which the file
    system decides. *)

Record RegistryLocalBackend := mkLocal {
  table_ : gmap string FieldMap;
  enable_persistence_ : bool;
  persist_ : list ErrorCode;
}.

Definition PersistToPath (s : RegistryLocalBackend) : ErrorCode * RegistryLocalBackend :=
  if negb (enable_persistence_ s) then (EC_OK, s)
  else match persist_ s with
       | [] => (EC_OK, s)
       | ec :: rest => (ec, mkLocal (table_ s) (enable_persistence_ s) rest)
       end.

Definition Load (key : string) (s : RegistryLocalBackend) : (ErrorCode * FieldMap) * RegistryLocalBackend :=
  match table_ s !! key with
  | None => ((EC_NOENT, ∅), s)
  | Some m => ((EC_OK, m), s)
  end.

Definition Save (key : string) (v : FieldMap) (s : RegistryLocalBackend) : ErrorCode * RegistryLocalBackend :=
  PersistToPath (mkLocal (<[key := v]> (table_ s)) (enable_persistence_ s) (persist_ s)).

Definition Delete (key : string) (s : RegistryLocalBackend) : ErrorCode * RegistryLocalBackend :=
  match table_ s !! key with
  | None => (EC_NOENT, s)
  | Some _ => PersistToPath (mkLocal (delete key (table_ s)) (enable_persistence_ s) (persist_ s))
  end.

#[global] Instance local_RegistryStorage : RegistryStorageBackend RegistryLocalBackend := {
  rs_Load := Load; rs_Save := Save; rs_Delete := Delete;
}.

Lemma PersistToPath_table s : table_ (PersistToPath s).2 = table_ s.
Proof. unfold PersistToPath. by repeat case_match. Qed.

#[global] Program Instance local_LawfulRegistryStorage : LawfulRegistryStorage RegistryLocalBackend := {
  rs_table := fun s k => table_ s !! k;
}.
Next Obligation. intros k s r s'. simpl. unfold Load. case_match; intros; by simplify_eq. Qed.
Next Obligation. intros k s m s'. simpl. unfold Load. case_match; intros; by simplify_eq. Qed.
Next Obligation. intros k s m s'. simpl. unfold Load. case_match; intros; by simplify_eq. Qed.
Next Obligation.
  intros k v s s'. simpl. unfold Save. intros E. pose proof (PersistToPath_table
    (mkLocal (<[k:=v]> (table_ s)) (enable_persistence_ s) (persist_ s))) as Ht.
  rewrite E in Ht. simpl in Ht. rewrite Ht. split; [by rewrite lookup_insert_eq|].
  intros. by rewrite lookup_insert_ne.
Qed.
Next Obligation.
  intros k s s'. simpl. unfold Delete. destruct (table_ s !! k); [|done]. intros E. pose proof (PersistToPath_table
    (mkLocal (delete k (table_ s)) (enable_persistence_ s) (persist_ s))) as Ht.
  rewrite E in Ht. simpl in Ht. rewrite Ht. split; [by rewrite lookup_delete_eq|].
  intros. by rewrite lookup_delete_ne.
Qed.

(** ** Configuration objects *)

Record QuotaConfig := mkQuotaConfig { q_capacity : Z; q_storage_spec : DataStorageType }.
Record InstanceGroupQuota := mkGroupQuota { g_capacity : Z; g_quota_config : list QuotaConfig }.

Inductive CachePreferStrategy :=
  | CPS_UNSPECIFIED | CPS_ALWAYS_3FS | CPS_PREFER_3FS | CPS_ALWAYS_MOONCAKE | CPS_PREFER_MOONCAKE
  | CPS_ALWAYS_TAIR_MEMPOOL | CPS_PREFER_TAIR_MEMPOOL | CPS_ALWAYS_VCNS_3FS | CPS_PREFER_VCNS_3FS
  | CPS_ALWAYS_TAIR_MEMPOOL_SSD | CPS_PREFER_TAIR_MEMPOOL_SSD.

(** [cache_config_], a pointer, as the preference it holds; [other_] is the
    text of the members the modelled code does not look at. *)
Record InstanceGroup := mkGroup {
  name_ : string;
  storage_candidates_ : list string;
  global_quota_group_name_ : string;
  quota_ : InstanceGroupQuota;
  cache_config_ : option CachePreferStrategy;
  version_ : Z;
  other_ : string;
}.

Record LocationSpecInfo := mkSpecInfo { si_name : string; si_size : Z }.
Record LocationSpecGroup := mkSpecGroup { sg_name : string; sg_spec_names : list string }.

Record ModelDeployment := mkDeployment {
  model_name_ : string;
  dtype_ : string;
  use_mla_ : bool;
  tp_size_ : Z;
  dp_size_ : Z;
  lora_name_ : string;
  pp_size_ : Z;
  extra_ : string;
  user_data_ : string;
  use_eagle_pop_ : bool;
}.

(** A [ModelDeployment] as it is constructed. *)
Definition no_deployment : ModelDeployment := mkDeployment "" "" false 0 0 "" 0 "" "" false.

(** [operator==] leaves the user data out. *)
Definition deployment_eqb (a b : ModelDeployment) : bool :=
  bool_decide (model_name_ a = model_name_ b) && bool_decide (dtype_ a = dtype_ b) && Bool.eqb (use_mla_ a) (use_mla_ b) &&
  (tp_size_ a =? tp_size_ b) && (dp_size_ a =? dp_size_ b) && bool_decide (lora_name_ a = lora_name_ b) &&
  (pp_size_ a =? pp_size_ b) && bool_decide (extra_ a = extra_ b) && Bool.eqb (use_eagle_pop_ a) (use_eagle_pop_ b).

Record InstanceInfo := mkInfo {
  quota_group_name_ : string;
  instance_group_name_ : string;
  instance_id_ : string;
  block_size_ : Z;
  location_spec_infos_ : list LocationSpecInfo;
  model_deployment_ : ModelDeployment;
  location_spec_groups_ : list LocationSpecGroup;
  default_query_type_ : Z;
}.

Inductive AccountRole := ROLE_USER | ROLE_ADMIN.
Record Account := mkAccount { user_name_ : string; password_ : string; role_ : AccountRole }.

#[global] Instance LocationSpecInfo_eq_dec : EqDecision LocationSpecInfo.
Proof. solve_decision. Defined.
#[global] Instance LocationSpecGroup_eq_dec : EqDecision LocationSpecGroup.
Proof. solve_decision. Defined.

Definition group_name_le (a b : LocationSpecGroup) : Prop :=
  chars_ltb (chars_of (sg_name b)) (chars_of (sg_name a)) = false.

#[global] Instance group_name_le_dec a b : Decision (group_name_le a b).
Proof. unfold group_name_le. apply _. Defined.

Definition SortLocationSpecGroups (l : list LocationSpecGroup) : list LocationSpecGroup :=
  merge_sort group_name_le l.

Definition MismatchFields (i : InstanceInfo) (block_size : Z) (infos : list LocationSpecInfo)
    (deployment : ModelDeployment) (groups : list LocationSpecGroup) (query_type : Z) : list string :=
  (if bool_decide (block_size_ i <> block_size) then ["block_size"] else []) ++
  (if bool_decide (location_spec_infos_ i <> infos) then ["location_spec_infos"] else []) ++
  (if negb (deployment_eqb (model_deployment_ i) deployment) then ["model_deployment"] else []) ++
  (if bool_decide (location_spec_groups_ i <> SortLocationSpecGroups groups) then ["location_spec_groups"] else []) ++
  (if bool_decide (default_query_type_ i <> query_type) then ["default_query_type"] else []).

(** *** Their JSON *)

Definition deployment_to_json (d : ModelDeployment) : Json :=
  JObject [("model_name", JString (model_name_ d)); ("dtype", JString (dtype_ d)); ("use_mla", JBool (use_mla_ d));
           ("tp_size", put_int (tp_size_ d)); ("dp_size", put_int (dp_size_ d)); ("lora_name", JString (lora_name_ d));
           ("pp_size", put_int (pp_size_ d)); ("extra", JString (extra_ d)); ("user_data", JString (user_data_ d));
           ("use_eagle_pop", JBool (use_eagle_pop_ d))].

Definition deployment_from_json (v : Json) : option ModelDeployment :=
  model_name ← Get get_string "model_name" "" v;
  dtype ← Get get_string "dtype" "" v;
  use_mla ← Get get_bool "use_mla" false v;
  tp_size ← Get get_i32 "tp_size" 0 v;
  dp_size ← Get get_i32 "dp_size" 0 v;
  lora_name ← Get get_string "lora_name" "" v;
  pp_size ← Get get_i32 "pp_size" 0 v;
  extra ← Get get_string "extra" "" v;
  user_data ← Get get_string "user_data" "" v;
  use_eagle_pop ← Get get_bool "use_eagle_pop" false v;
  Some (mkDeployment model_name dtype use_mla tp_size dp_size lora_name pp_size extra user_data use_eagle_pop).

Definition spec_info_to_json (i : LocationSpecInfo) : Json :=
  JObject [("name", JString (si_name i)); ("size", put_int (si_size i))].

Definition spec_info_from_json (v : Json) : option LocationSpecInfo :=
  name ← Get get_string "name" "" v; size ← Get get_i64 "size" 0 v; Some (mkSpecInfo name size).

Definition text_le (a b : string) : Prop := chars_ltb (chars_of b) (chars_of a) = false.

#[global] Instance text_le_dec a b : Decision (text_le a b).
Proof. unfold text_le. apply _. Defined.

Definition SortSpecNames (g : LocationSpecGroup) : LocationSpecGroup :=
  mkSpecGroup (sg_name g) (merge_sort text_le (sg_spec_names g)).

Definition spec_group_to_json (g : LocationSpecGroup) : Json :=
  JObject [("name", JString (sg_name g)); ("spec_names", JArray (JString <$> sg_spec_names g))].

Definition spec_group_from_json (v : Json) : option LocationSpecGroup :=
  name ← Get get_string "name" "" v;
  spec_names ← Get (get_vector get_string) "spec_names" [] v;
  Some (SortSpecNames (mkSpecGroup name spec_names)).

Definition info_to_json (i : InstanceInfo) : Json :=
  JObject [("quota_group_name", JString (quota_group_name_ i)); ("instance_group_name", JString (instance_group_name_ i));
           ("instance_id", JString (instance_id_ i)); ("block_size", put_int (block_size_ i));
           ("location_spec_infos", JArray (spec_info_to_json <$> location_spec_infos_ i));
           ("model_deployment", deployment_to_json (model_deployment_ i));
           ("location_spec_groups", JArray (spec_group_to_json <$> location_spec_groups_ i));
           ("default_query_type", put_int (default_query_type_ i))].

(** [block_size_] has no initialiser; its default on reading is given. *)
Definition info_from_json (v : Json) : option InstanceInfo :=
  quota_group_name ← Get get_string "quota_group_name" "" v;
  instance_group_name ← Get get_string "instance_group_name" "" v;
  instance_id ← Get get_string "instance_id" "" v;
  block_size ← Get get_i32 "block_size" (-1) v;
  location_spec_infos ← Get (get_vector (get_object spec_info_from_json)) "location_spec_infos" [] v;
  model_deployment ← Get (get_object deployment_from_json) "model_deployment"
    no_deployment v;
  location_spec_groups ← Get (get_vector (get_object spec_group_from_json)) "location_spec_groups" [] v;
  default_query_type ← Get get_i32 "default_query_type" 0 v;
  Some (mkInfo quota_group_name instance_group_name instance_id block_size location_spec_infos model_deployment
          (SortLocationSpecGroups location_spec_groups) default_query_type).

Definition account_to_json (a : Account) : Json :=
  JObject [("user_name", JString (user_name_ a)); ("password", JString (password_ a));
           ("role", put_uint (match role_ a with ROLE_USER => 0 | ROLE_ADMIN => 1 end))].

(** The enumeration is read from an [int]; other values than those of the
    two roles are not modelled. *)
Definition get_role (v : Json) : option AccountRole :=
  z ← get_i32 v; if z =? 0 then Some ROLE_USER else if z =? 1 then Some ROLE_ADMIN else None.

Definition account_from_json (v : Json) : option Account :=
  user_name ← Get get_string "user_name" "" v;
  password ← Get get_string "password" "" v;
  role ← Get get_role "role" ROLE_USER v;
  Some (mkAccount user_name password role).

#[global] Instance InstanceInfo_Jsonizable `{JT : JsonText} : Jsonizable InstanceInfo := {
  ToJsonString i := json_print (info_to_json i);
  FromJsonString s := v ← json_parse s; info_from_json v;
}.

#[global] Instance Account_Jsonizable `{JT : JsonText} : Jsonizable Account := {
  ToJsonString a := json_print (account_to_json a);
  FromJsonString s := v ← json_parse s; account_from_json v;
}.

(** What the text of an instance keeps: everything, as integers of their
    widths, with the groups and their specs in order. *)
Definition deployment_kept (d : ModelDeployment) : ModelDeployment :=
  mkDeployment (model_name_ d) (dtype_ d) (use_mla_ d) (i32 (tp_size_ d)) (i32 (dp_size_ d)) (lora_name_ d)
    (i32 (pp_size_ d)) (extra_ d) (user_data_ d) (use_eagle_pop_ d).

Definition info_kept (i : InstanceInfo) : InstanceInfo :=
  mkInfo (quota_group_name_ i) (instance_group_name_ i) (instance_id_ i) (i32 (block_size_ i))
    ((fun s => mkSpecInfo (si_name s) (i64 (si_size s))) <$> location_spec_infos_ i)
    (deployment_kept (model_deployment_ i))
    (SortLocationSpecGroups (SortSpecNames <$> location_spec_groups_ i)) (i32 (default_query_type_ i)).

Lemma get_i32_any z : get_i32 (put_int z) = Some (i32 z).
Proof. unfold get_i32. rewrite get_signed_put. simpl. by rewrite i32_i64. Qed.

Lemma get_all_fmap {A B} (get : Json -> option B) (put : A -> Json) (f : A -> B) l :
  (forall a, get (put a) = Some (f a)) -> get_all get (put <$> l) = Some (f <$> l).
Proof. intros Hg. induction l as [|a l IH]; [done|]. cbn. by rewrite Hg, IH. Qed.

Lemma deployment_through_json d :
  get_object deployment_from_json (deployment_to_json d) = Some (deployment_kept d).
Proof.
  unfold deployment_from_json, deployment_to_json.
  repeat (cbn -[put_int get_i32]; rewrite ?get_i32_any). done.
Qed.

Lemma spec_info_through_json i :
  get_object spec_info_from_json (spec_info_to_json i) = Some (mkSpecInfo (si_name i) (i64 (si_size i))).
Proof. unfold spec_info_from_json, spec_info_to_json, get_i64. cbn -[put_int get_signed]. by rewrite get_signed_put. Qed.

Lemma spec_group_through_json g : get_object spec_group_from_json (spec_group_to_json g) = Some (SortSpecNames g).
Proof.
  unfold spec_group_from_json, spec_group_to_json. cbn.
  rewrite (get_all_fmap get_string JString Datatypes.id) by done. by rewrite list_fmap_id.
Qed.

Lemma info_through_json i : info_from_json (info_to_json i) = Some (info_kept i).
Proof.
  unfold info_from_json, info_to_json.
  cbn -[put_int get_i32 deployment_to_json deployment_from_json spec_info_from_json spec_group_from_json get_object].
  rewrite get_i32_any.
  cbn -[put_int get_i32 deployment_to_json deployment_from_json spec_info_from_json spec_group_from_json get_object].
  rewrite (get_all_fmap _ _ _ _ spec_info_through_json), deployment_through_json,
    (get_all_fmap _ _ _ _ spec_group_through_json), get_i32_any. done.
Qed.

Lemma account_through_json a : account_from_json (account_to_json a) = Some a.
Proof. destruct a as [u p []]; reflexivity. Qed.

Lemma forallb_fmap {A} (f : A -> Json) l : (forall a, json_wf (f a) = true) -> forallb json_wf (f <$> l) = true.
Proof. intros Hf. induction l as [|a l IH]; [done|]. cbn. by rewrite Hf, IH. Qed.

Lemma info_to_json_wf i : json_wf (info_to_json i) = true.
Proof.
  unfold info_to_json. cbn -[put_int].
  rewrite !put_int_wf, !forallb_fmap; [done|intros g; cbn; by rewrite forallb_fmap|intros s; cbn -[put_int]; by rewrite put_int_wf].
Qed.

Lemma InstanceInfo_from_to `{JT : JsonText} i : FromJsonString (ToJsonString i) = Some (info_kept i).
Proof. simpl. rewrite json_parse_print by apply info_to_json_wf. apply info_through_json. Qed.

Lemma Account_from_to `{JT : JsonText} (a : Account) : FromJsonString (ToJsonString a) = Some a.
Proof.
  simpl. rewrite json_parse_print by (by destruct a as [u p []]). apply account_through_json.
Qed.

Definition kRegistryStorageKey : string := "storage".
Definition kRegistryGroupKey : string := "instance_group".
Definition kRegistryInstanceKey : string := "instance".
Definition kRegistryAccountKey : string := "account".

(** ** The manager *)

Section registry.
Context {T : Type} `{RB : RegistryStorageBackend T}.
Context `{JT : JsonText} `{JG : Jsonizable InstanceGroup} `{RG : !JsonComplete InstanceGroup}.
(** See [StorageManager]. *)
Variable with_vcns with_mooncake : bool.
Variable bk_Open bk_Close : StorageConfig -> ErrorCode.

Record RegistryManager := mkRegistry {
  data_storage_manager_ : DataStorageManager;
  instance_group_configs_ : gmap string InstanceGroup;
  instance_infos_ : gmap string InstanceInfo;
  accounts_ : gmap string Account;
  storage_ : T;
  recover_complete_ : bool;
}.

Definition set_dsm (d : DataStorageManager) (m : RegistryManager) :=
  mkRegistry d (instance_group_configs_ m) (instance_infos_ m) (accounts_ m) (storage_ m) (recover_complete_ m).
Definition set_groups (g : gmap string InstanceGroup) (m : RegistryManager) :=
  mkRegistry (data_storage_manager_ m) g (instance_infos_ m) (accounts_ m) (storage_ m) (recover_complete_ m).
Definition set_infos (i : gmap string InstanceInfo) (m : RegistryManager) :=
  mkRegistry (data_storage_manager_ m) (instance_group_configs_ m) i (accounts_ m) (storage_ m) (recover_complete_ m).
Definition set_accounts (a : gmap string Account) (m : RegistryManager) :=
  mkRegistry (data_storage_manager_ m) (instance_group_configs_ m) (instance_infos_ m) a (storage_ m)
    (recover_complete_ m).
Definition set_store (s : T) (m : RegistryManager) :=
  mkRegistry (data_storage_manager_ m) (instance_group_configs_ m) (instance_infos_ m) (accounts_ m) s
    (recover_complete_ m).

(** *** Load, change, save *)

Definition load_failed (ec : ErrorCode) : bool :=
  bool_decide (ec <> EC_OK) && bool_decide (ec <> EC_NOENT).

(** [text] is [ToJsonString] of the object, or [id] when there is none. *)
Definition LoadAndSave (key id text : string) (s : T) : ErrorCode * T :=
  let '((ec, value_map), s) := rs_Load key s in
  if load_failed ec then (ec, s) else rs_Save key (<[id := text]> value_map) s.

Definition LoadAndDelete (key id : string) (s : T) : ErrorCode * T :=
  let '((ec, value_map), s) := rs_Load key s in
  if load_failed ec then (ec, s)
  else
    let value_map := delete id value_map in
    if bool_decide (value_map = ∅) then rs_Delete key s else rs_Save key value_map s.

(** *** Storages *)

Definition AddStorage (c : StorageConfig) (m : RegistryManager) : ErrorCode * RegistryManager :=
  let name := global_unique_name_ c in
  let '(ec, s) := LoadAndSave kRegistryStorageKey name (ToJsonString c) (storage_ m) in
  let m := set_store s m in
  if bool_decide (ec <> EC_OK) then (ec, m)
  else
    let '(ec, d) := RegisterStorage with_vcns with_mooncake bk_Open name c (data_storage_manager_ m) in
    (ec, set_dsm d m).

Definition UpdateStorageAvailableStatus (name : string) (a : bool) (m : RegistryManager)
    : ErrorCode * RegistryManager :=
  match GetDataStorageBackend name (data_storage_manager_ m) with
  | None => (EC_NOENT, m)
  | Some b =>
      let '(ec, s) := LoadAndSave kRegistryStorageKey name (ToJsonString (set_is_available a (GetStorageConfig b)))
                        (storage_ m) in
      (ec, set_store s m)
  end.

Definition switch_storage (a : bool) (name : string) (m : RegistryManager) : ErrorCode * RegistryManager :=
  let '(ec, m) := UpdateStorageAvailableStatus name a m in
  if bool_decide (ec <> EC_OK) then (ec, m)
  else let '(ec, d) := set_storage a name (data_storage_manager_ m) in (ec, set_dsm d m).

Definition EnableStorage := switch_storage true.
Definition DisableStorage := switch_storage false.

Definition RemoveStorage (name : string) (m : RegistryManager) : ErrorCode * RegistryManager :=
  let '(ec, s) := LoadAndDelete kRegistryStorageKey name (storage_ m) in
  let m := set_store s m in
  if bool_decide (ec <> EC_OK) then (ec, m)
  else let '(ec, d) := UnRegisterStorage bk_Close name (data_storage_manager_ m) in (ec, set_dsm d m).

(** What [UpdateStorage] refuses: a change of the type or of the media type of
    a TairMempool storage. *)
Definition update_rejected (current : option DataStorageBackend) (c : StorageConfig) : bool :=
  match current with
  | None => false
  | Some b =>
      let current_type := GetType b in
      (bool_decide (current_type <> type_ c) &&
         (IsTairMempoolStorageType current_type || IsTairMempoolStorageType (type_ c))) ||
      (IsTairMempoolStorageType current_type && IsTairMempoolStorageType (type_ c) &&
         match media_type_ (config_ b), media_type_ c with
         | Some cur, Some req => bool_decide (cur <> req)
         | _, _ => true
         end)
  end.

Definition UpdateStorage (c : StorageConfig) (m : RegistryManager) : ErrorCode * RegistryManager :=
  let name := global_unique_name_ c in
  if update_rejected (GetDataStorageBackend name (data_storage_manager_ m)) c then (EC_BADARGS, m)
  else
    let '(ec, m) := RemoveStorage name m in
    if bool_decide (ec <> EC_OK) then (ec, m)
    else
      let '(ec, m) := AddStorage c m in
      if bool_decide (ec <> EC_OK) then (ec, m) else (EC_OK, m).

Definition ListStorage (m : RegistryManager) : ErrorCode * list StorageConfig :=
  (EC_OK, ListStorageConfig (data_storage_manager_ m)).

(** *** Instance groups *)

Definition save_group (g : InstanceGroup) (m : RegistryManager) : ErrorCode * RegistryManager :=
  let '(ec, s) := LoadAndSave kRegistryGroupKey (name_ g) (ToJsonString g) (storage_ m) in
  let m := set_store s m in
  if bool_decide (ec <> EC_OK) then (ec, m)
  else (EC_OK, set_groups (<[name_ g := g]> (instance_group_configs_ m)) m).

Definition CreateInstanceGroup (g : InstanceGroup) (m : RegistryManager) : ErrorCode * RegistryManager :=
  match instance_group_configs_ m !! name_ g with
  | Some _ => (EC_EXIST, m)
  | None => save_group g m
  end.

Definition UpdateInstanceGroup (g : InstanceGroup) (current_version : Z) (m : RegistryManager)
    : ErrorCode * RegistryManager :=
  match instance_group_configs_ m !! name_ g with
  | None => (EC_NOENT, m)
  | Some old =>
      if bool_decide (current_version <> version_ old) || (version_ g <=? version_ old) then (EC_ERROR, m)
      else save_group g m
  end.

Definition RemoveInstanceGroup (name : string) (m : RegistryManager) : ErrorCode * RegistryManager :=
  match instance_group_configs_ m !! name with
  | None => (EC_NOENT, m)
  | Some _ =>
      let '(ec, s) := LoadAndDelete kRegistryGroupKey name (storage_ m) in
      let m := set_store s m in
      if bool_decide (ec <> EC_OK) then (ec, m)
      else (EC_OK, set_groups (delete name (instance_group_configs_ m)) m)
  end.

Definition GetInstanceGroup (name : string) (m : RegistryManager) : ErrorCode * option InstanceGroup :=
  match instance_group_configs_ m !! name with
  | None => (EC_NOENT, None)
  | Some g => (EC_OK, Some g)
  end.

(** *** Instances *)

Definition make_info (quota_group group id : string) (block_size : Z) (infos : list LocationSpecInfo)
    (deployment : ModelDeployment) (groups : list LocationSpecGroup) (query_type : Z) : InstanceInfo :=
  mkInfo quota_group group id block_size infos deployment (SortLocationSpecGroups groups) query_type.

Definition RegisterInstance (group id : string) (block_size : Z) (infos : list LocationSpecInfo)
    (deployment : ModelDeployment) (groups : list LocationSpecGroup) (query_type : Z) (m : RegistryManager)
    : ErrorCode * RegistryManager :=
  match instance_group_configs_ m !! group with
  | None => (EC_NOENT, m)
  | Some g =>
      match instance_infos_ m !! id with
      | Some existing =>
          let mismatched := MismatchFields existing block_size infos deployment groups query_type in
          let mismatched :=
            if bool_decide (instance_group_name_ existing <> group) then "instance_group_name" :: mismatched
            else mismatched in
          if bool_decide (mismatched <> []) then (EC_DUPLICATE_ENTITY, m) else (EC_OK, m)
      | None =>
          let info := make_info (global_quota_group_name_ g) group id block_size infos deployment groups query_type in
          let '(ec, s) := LoadAndSave id id (ToJsonString info) (storage_ m) in
          let m := set_store s m in
          if bool_decide (ec <> EC_OK) then (ec, m)
          else
            let '(ec, s) := LoadAndSave kRegistryInstanceKey id id (storage_ m) in
            let m := set_store s m in
            if bool_decide (ec <> EC_OK) then (ec, m)
            else (EC_OK, set_infos (<[id := info]> (instance_infos_ m)) m)
      end
  end.

Definition RemoveInstance (id : string) (m : RegistryManager) : ErrorCode * RegistryManager :=
  match instance_infos_ m !! id with
  | None => (EC_NOENT, m)
  | Some _ =>
      let '(ec, s) := LoadAndDelete kRegistryInstanceKey id (storage_ m) in
      let m := set_store s m in
      if bool_decide (ec <> EC_OK) then (ec, m)
      else
        let '(ec, s) := LoadAndDelete id id (storage_ m) in
        let m := set_store s m in
        if bool_decide (ec <> EC_OK) then (ec, m)
        else (EC_OK, set_infos (delete id (instance_infos_ m)) m)
  end.

Definition GetInstanceInfo (id : string) (m : RegistryManager) : option InstanceInfo := instance_infos_ m !! id.

Definition ListInstanceInfo (group : string) (m : RegistryManager) : ErrorCode * list InstanceInfo :=
  (EC_OK, filter (fun i => instance_group_name_ i = group) (map_to_list (instance_infos_ m)).*2).

Definition GetInstanceGroupName (id : string) (m : RegistryManager) : string :=
  match instance_infos_ m !! id with Some i => instance_group_name_ i | None => EmptyString end.

Definition GetCacheConfig (group : string) (m : RegistryManager) : option CachePreferStrategy :=
  instance_group_configs_ m !! group ≫= cache_config_.

(** *** Accounts *)

Definition AddAccount (user password : string) (role : AccountRole) (m : RegistryManager)
    : ErrorCode * RegistryManager :=
  match accounts_ m !! user with
  | Some _ => (EC_EXIST, m)
  | None =>
      let account := mkAccount user password role in
      let '(ec, s) := LoadAndSave kRegistryAccountKey user (ToJsonString account) (storage_ m) in
      let m := set_store s m in
      if bool_decide (ec <> EC_OK) then (ec, m)
      else (EC_OK, set_accounts (<[user := account]> (accounts_ m)) m)
  end.

Definition DeleteAccount (user : string) (m : RegistryManager) : ErrorCode * RegistryManager :=
  match accounts_ m !! user with
  | None => (EC_NOENT, m)
  | Some _ =>
      let '(ec, s) := LoadAndDelete kRegistryAccountKey user (storage_ m) in
      let m := set_store s m in
      if bool_decide (ec <> EC_OK) then (ec, m)
      else (EC_OK, set_accounts (delete user (accounts_ m)) m)
  end.

(** *** Recovery

    Each part loads its map and folds over the entries; the result is the
    number of errors, the rebuilt table and the store. *)

Definition recover_storage_entry (acc : nat * DataStorageManager) (e : string * string)
    : nat * DataStorageManager :=
  let '(errors, d) := acc in
  match FromJsonString (A := StorageConfig) e.2 with
  | None => (S errors, d)
  | Some c =>
      let name := global_unique_name_ c in
      match GetDataStorageBackend name d with
      | Some b =>
          if negb (is_available_ c) && Available b then
            let '(ec, d) := set_storage false name d in
            (if bool_decide (ec <> EC_OK) then S errors else errors, d)
          else (errors, d)
      | None =>
          let '(ec, d) := RegisterStorage with_vcns with_mooncake bk_Open name c d in
          if bool_decide (ec <> EC_OK) then (S errors, d)
          else if negb (is_available_ c) then
            let '(ec, d) := set_storage false name d in
            (if bool_decide (ec <> EC_OK) then S errors else errors, d)
          else (errors, d)
      end
  end.

Definition recover_account_entry (acc : nat * gmap string Account) (e : string * string) :=
  let '(errors, a) := acc in
  match FromJsonString (A := Account) e.2 with
  | None => (S errors, a)
  | Some x =>
      match a !! user_name_ x with
      | Some _ => (errors, a)
      | None => (errors, <[user_name_ x := x]> a)
      end
  end.

Definition recover_group_entry (acc : nat * gmap string InstanceGroup) (e : string * string) :=
  let '(errors, g) := acc in
  match FromJsonString (A := InstanceGroup) e.2 with
  | None => (S errors, g)
  | Some x =>
      match g !! name_ x with
      | Some _ => (errors, g)
      | None => (errors, <[name_ x := x]> g)
      end
  end.

(** [instance_map[id]] is the empty text when there is no such field. *)
Definition recover_info_entry (acc : nat * gmap string InstanceInfo * T) (e : string * string) :=
  let '(errors, i, s) := acc in
  match i !! e.1 with
  | Some _ => (errors, i, s)
  | None =>
      let '((ec, instance_map), s) := rs_Load e.1 s in
      if bool_decide (ec <> EC_OK) then (S errors, i, s)
      else match FromJsonString (A := InstanceInfo) (default EmptyString (instance_map !! e.1)) with
           | None => (S errors, i, s)
           | Some x => (errors, <[e.1 := x]> i, s)
           end
  end.

Definition RecoverStorageUnsafe (m : RegistryManager) : nat * RegistryManager :=
  let '((ec, value_map), s) := rs_Load kRegistryStorageKey (storage_ m) in
  let m := set_store s m in
  if load_failed ec then (1%nat, m)
  else let '(errors, d) := foldl recover_storage_entry (0%nat, data_storage_manager_ m) (sorted_entries value_map) in
       (errors, set_dsm d m).

Definition RecoverAccountUnsafe (m : RegistryManager) : nat * RegistryManager :=
  let '((ec, value_map), s) := rs_Load kRegistryAccountKey (storage_ m) in
  let m := set_store s m in
  if load_failed ec then (1%nat, m)
  else let '(errors, a) := foldl recover_account_entry (0%nat, accounts_ m) (sorted_entries value_map) in
       (errors, set_accounts a m).

Definition RecoverInstanceGroupUnsafe (m : RegistryManager) : nat * RegistryManager :=
  let '((ec, value_map), s) := rs_Load kRegistryGroupKey (storage_ m) in
  let m := set_store s m in
  if load_failed ec then (1%nat, m)
  else let '(errors, g) := foldl recover_group_entry (0%nat, instance_group_configs_ m) (sorted_entries value_map) in
       (errors, set_groups g m).

Definition RecoverInstanceInfoUnsafe (m : RegistryManager) : nat * RegistryManager :=
  let '((ec, value_map), s) := rs_Load kRegistryInstanceKey (storage_ m) in
  let m := set_store s m in
  if load_failed ec then (1%nat, m)
  else let '(errors, i, s) := foldl recover_info_entry (0%nat, instance_infos_ m, storage_ m) (sorted_entries value_map) in
       (errors, set_store s (set_infos i m)).

Definition DoRecoverOnce (m : RegistryManager) : ErrorCode * RegistryManager :=
  let '(e1, m) := RecoverStorageUnsafe m in
  let '(e2, m) := RecoverAccountUnsafe m in
  let '(e3, m) := RecoverInstanceGroupUnsafe m in
  let '(e4, m) := RecoverInstanceInfoUnsafe m in
  let errors := (e1 + e2 + e3 + e4)%nat in
  if (errors =? 0)%nat
  then (EC_OK, mkRegistry (data_storage_manager_ m) (instance_group_configs_ m) (instance_infos_ m) (accounts_ m)
                 (storage_ m) true)
  else (EC_ERROR, m).

(** The result of cleaning the storages is logged only. *)
Definition DoCleanup (m : RegistryManager) : ErrorCode * RegistryManager :=
  let '(_, d) := StorageManager.DoCleanup bk_Close (data_storage_manager_ m) in
  (EC_OK, mkRegistry d ∅ ∅ ∅ (storage_ m) false).

(** *** Requests *)

Inductive RegistryOp :=
  | OpAddStorage (c : StorageConfig)
  | OpEnableStorage (name : string)
  | OpDisableStorage (name : string)
  | OpRemoveStorage (name : string)
  | OpUpdateStorage (c : StorageConfig)
  | OpCreateInstanceGroup (g : InstanceGroup)
  | OpUpdateInstanceGroup (g : InstanceGroup) (current_version : Z)
  | OpRemoveInstanceGroup (name : string)
  | OpRegisterInstance (group id : string) (block_size : Z) (infos : list LocationSpecInfo)
      (deployment : ModelDeployment) (groups : list LocationSpecGroup) (query_type : Z)
  | OpRemoveInstance (id : string)
  | OpAddAccount (user password : string) (role : AccountRole)
  | OpDeleteAccount (user : string).

Definition registry_op (o : RegistryOp) : RegistryManager -> ErrorCode * RegistryManager :=
  match o with
  | OpAddStorage c => AddStorage c
  | OpEnableStorage n => EnableStorage n
  | OpDisableStorage n => DisableStorage n
  | OpRemoveStorage n => RemoveStorage n
  | OpUpdateStorage c => UpdateStorage c
  | OpCreateInstanceGroup g => CreateInstanceGroup g
  | OpUpdateInstanceGroup g v => UpdateInstanceGroup g v
  | OpRemoveInstanceGroup n => RemoveInstanceGroup n
  | OpRegisterInstance g i b s d gs q => RegisterInstance g i b s d gs q
  | OpRemoveInstance i => RemoveInstance i
  | OpAddAccount u p r => AddAccount u p r
  | OpDeleteAccount u => DeleteAccount u
  end.

(** A history of requests that all succeed. *)
Fixpoint all_succeed (ops : list RegistryOp) (m : RegistryManager) : option RegistryManager :=
  match ops with
  | [] => Some m
  | o :: ops =>
      match registry_op o m with
      | (EC_OK, m) => all_succeed ops m
      | _ => None
      end
  end.

Definition registry_new (s : T) : RegistryManager := mkRegistry ∅ ∅ ∅ ∅ s false.

(** ** Memory and store agree *)

Context {LR : LawfulRegistryStorage T}.

Definition fields (s : T) (k : string) : FieldMap := default ∅ (rs_table s k).

(** [s'] differs from [s] in the table [key] only, which holds [f]. *)
Definition stores (key : string) (f : FieldMap) (s s' : T) : Prop :=
  fields s' key = f /\ forall k, k <> key -> rs_table s' k = rs_table s k.

Lemma stores_fields key f s s' k : stores key f s s' -> k <> key -> fields s' k = fields s k.
Proof. intros [_ H] Hk. unfold fields. by rewrite H. Qed.

Lemma load_fields k s ec m s1 :
  rs_Load k s = ((ec, m), s1) -> load_failed ec = false ->
  m = fields s k /\ forall k', rs_table s1 k' = rs_table s k'.
Proof.
  intros E Hf. pose proof (law_load_keeps _ _ _ _ E) as Hk. split; [|done].
  unfold load_failed in Hf. destruct (decide (ec = EC_OK)) as [->|Hne].
  - apply law_load_ok in E. unfold fields. by rewrite E.
  - rewrite (bool_decide_eq_true_2 (ec <> EC_OK)) in Hf by done. simpl in Hf.
    apply bool_decide_eq_false, dec_stable in Hf as ->.
    apply law_load_none in E as [-> E]. unfold fields. by rewrite E.
Qed.

Lemma LoadAndSave_ok key id text s s' :
  LoadAndSave key id text s = (EC_OK, s') -> stores key (<[id := text]> (fields s key)) s s'.
Proof.
  unfold LoadAndSave. destruct (rs_Load key s) as [[ec m] s1] eqn:E.
  destruct (load_failed ec) eqn:Hf; [by intros [= -> ->]|].
  destruct (load_fields _ _ _ _ _ E Hf) as [-> Hk]. intros Hs. apply law_save_ok in Hs as [H1 H2].
  split; [unfold fields; by rewrite H1|]. intros k Hne. by rewrite H2, Hk.
Qed.

Lemma LoadAndDelete_ok key id s s' :
  LoadAndDelete key id s = (EC_OK, s') -> stores key (delete id (fields s key)) s s'.
Proof.
  unfold LoadAndDelete. destruct (rs_Load key s) as [[ec m] s1] eqn:E.
  destruct (load_failed ec) eqn:Hf; [by intros [= -> ->]|].
  destruct (load_fields _ _ _ _ _ E Hf) as [-> Hk]. case_bool_decide as He; intros Hs.
  - apply law_delete_ok in Hs as [H1 H2]. split; [unfold fields at 1; by rewrite H1, He|].
    intros k Hne. by rewrite H2, Hk.
  - apply law_save_ok in Hs as [H1 H2]. split; [unfold fields at 1; by rewrite H1|].
    intros k Hne. by rewrite H2, Hk.
Qed.

(** [tbl] in the store is the image of the memory table [mem]. *)
Definition mirrors {A} (text : A -> string) (mem : gmap string A) (tbl : FieldMap) : Prop :=
  tbl = text <$> mem.

Lemma mirrors_insert {A} (text : A -> string) mem tbl k a t :
  mirrors text mem tbl -> t = text a -> mirrors text (<[k := a]> mem) (<[k := t]> tbl).
Proof. intros -> ->. unfold mirrors. by rewrite fmap_insert. Qed.

Lemma mirrors_delete {A} (text : A -> string) mem tbl k :
  mirrors text mem tbl -> mirrors text (delete k mem) (delete k tbl).
Proof. intros ->. unfold mirrors. by rewrite fmap_delete. Qed.

(** What is persisted of a storage: its configuration with the current
    availability. *)
Definition storage_text (b : DataStorageBackend) : string :=
  ToJsonString (set_is_available (available_ b) (config_ b)).

Definition reserved (k : string) : Prop :=
  k = kRegistryStorageKey \/ k = kRegistryGroupKey \/ k = kRegistryInstanceKey \/ k = kRegistryAccountKey.

#[local] Instance reserved_dec k : Decision (reserved k).
Proof. unfold reserved. apply _. Defined.

Definition storage_openable (n : string) (b : DataStorageBackend) : Prop :=
  global_unique_name_ (config_ b) = n /\ CreateStorageBackend with_vcns with_mooncake (type_ (config_ b)) = true /\
  storable (config_ b) /\ exists a, bk_Open (set_is_available a (config_ b)) = EC_OK.

(** The store holds what is needed to rebuild the memory. *)
Record durable (m : RegistryManager) : Prop := mkDurable {
  dur_storage : mirrors storage_text (data_storage_manager_ m) (fields (storage_ m) kRegistryStorageKey);
  dur_open : map_Forall storage_openable (data_storage_manager_ m);
  dur_group : mirrors ToJsonString (instance_group_configs_ m) (fields (storage_ m) kRegistryGroupKey);
  dur_group_name : map_Forall (fun n g => name_ g = n /\ json_complete g) (instance_group_configs_ m);
  dur_account : mirrors ToJsonString (accounts_ m) (fields (storage_ m) kRegistryAccountKey);
  dur_account_name : map_Forall (fun n a => user_name_ a = n) (accounts_ m);
  dur_ids : fields (storage_ m) kRegistryInstanceKey = map_imap (fun id _ => Some id) (instance_infos_ m);
  dur_infos : map_Forall (fun id i => ~ reserved id /\
                exists f, rs_table (storage_ m) id = Some f /\ f !! id = Some (ToJsonString i)) (instance_infos_ m);
}.

(** The requests covered: storages are added as available and with a spec of
    their type, which is not the dummy one; groups are complete; and no
    instance is named like a table of the registry. *)
Definition op_ok (o : RegistryOp) : Prop :=
  match o with
  | OpAddStorage c | OpUpdateStorage c => is_available_ c = true /\ storable c
  | OpCreateInstanceGroup g => json_complete g
  | OpUpdateInstanceGroup g _ => json_complete g
  | OpRegisterInstance _ id _ _ _ _ _ => ~ reserved id
  | _ => True
  end.

Lemma reserved_keys :
  reserved kRegistryStorageKey /\ reserved kRegistryGroupKey /\ reserved kRegistryInstanceKey /\
  reserved kRegistryAccountKey.
Proof. unfold reserved. auto 10. Qed.

(** The tables of the instances are apart from the reserved ones. *)
Lemma dur_infos_stores m s' key f :
  durable m -> reserved key -> stores key f (storage_ m) s' ->
  map_Forall (fun id i => ~ reserved id /\
     exists f, rs_table s' id = Some f /\ f !! id = Some (ToJsonString i)) (instance_infos_ m).
Proof.
  intros Hd Hr [_ Hs] id i Hi. destruct (dur_infos _ Hd id i Hi) as (Hn & f' & Hf & Hl).
  split; [done|]. exists f'. split; [|done]. rewrite Hs; [done|]. intros ->. done.
Qed.

Ltac other_table H := rewrite (stores_fields _ _ _ _ _ H) by discriminate.

Lemma durable_storages m d s' f :
  durable m -> stores kRegistryStorageKey f (storage_ m) s' ->
  mirrors storage_text d f -> map_Forall storage_openable d ->
  durable (set_dsm d (set_store s' m)).
Proof.
  intros Hd Hs Hm Ho. pose proof Hd as [? ? ? ? ? ? ? ?]. constructor; simpl; try done.
  all: try (other_table Hs; done).
  - destruct Hs as [-> _]. done.
  - eapply dur_infos_stores; eauto. apply reserved_keys.
Qed.

Lemma durable_groups m g s' f :
  durable m -> stores kRegistryGroupKey f (storage_ m) s' ->
  mirrors ToJsonString g f -> map_Forall (fun n x => name_ x = n /\ json_complete x) g ->
  durable (set_groups g (set_store s' m)).
Proof.
  intros Hd Hs Hm Ho. pose proof Hd as [? ? ? ? ? ? ? ?]. constructor; simpl; try done.
  all: try (other_table Hs; done).
  - destruct Hs as [-> _]. done.
  - eapply dur_infos_stores; eauto. apply reserved_keys.
Qed.

Lemma durable_accounts m a s' f :
  durable m -> stores kRegistryAccountKey f (storage_ m) s' ->
  mirrors ToJsonString a f -> map_Forall (fun n x => user_name_ x = n) a ->
  durable (set_accounts a (set_store s' m)).
Proof.
  intros Hd Hs Hm Ho. pose proof Hd as [? ? ? ? ? ? ? ?]. constructor; simpl; try done.
  all: try (other_table Hs; done).
  - destruct Hs as [-> _]. done.
  - eapply dur_infos_stores; eauto. apply reserved_keys.
Qed.

(** *** Every successful request keeps them in agreement *)

Lemma set_is_available_id c : is_available_ c = true -> set_is_available true c = c.
Proof. destruct c; simpl. by intros ->. Qed.

Lemma AddStorage_durable c m m' :
  durable m -> is_available_ c = true -> storable c -> AddStorage c m = (EC_OK, m') -> durable m'.
Proof.
  intros Hd Ha Hsc. unfold AddStorage. destruct (LoadAndSave _ _ _ _) as [ec s] eqn:Es. simpl.
  case_bool_decide as Hec; [by intros; simplify_eq|]. subst ec.
  apply LoadAndSave_ok in Es. destruct (RegisterStorage _ _ _ _ _ _) as [ec d] eqn:Er. intros; simplify_eq.
  apply RegisterStorage_ok in Er as (Hn & Hc & Ho & ->).
  eapply durable_storages; [done|exact Es| |].
  - apply mirrors_insert; [apply Hd|]. unfold storage_text. simpl. by rewrite set_is_available_id.
  - apply map_Forall_insert_2; [split_and!; [done..|]|apply Hd]. exists true. simpl. by rewrite set_is_available_id.
Qed.

Lemma switch_storage_durable a n m m' :
  durable m -> switch_storage a n m = (EC_OK, m') -> durable m'.
Proof.
  intros Hd. unfold switch_storage, UpdateStorageAvailableStatus, GetDataStorageBackend.
  destruct (data_storage_manager_ m !! n) as [b|] eqn:Hb; [|done].
  destruct (LoadAndSave _ _ _ _) as [ec s] eqn:Es. simpl.
  case_bool_decide as Hec; [by intros; simplify_eq|]. subst ec.
  apply LoadAndSave_ok in Es. unfold set_storage. simpl. rewrite Hb. intros; simplify_eq.
  eapply durable_storages; [done|exact Es| |].
  - apply mirrors_insert; [apply Hd|]. done.
  - apply map_Forall_insert_2; [|apply Hd]. apply (dur_open _ Hd _ _ Hb).
Qed.

Lemma RemoveStorage_durable n m m' :
  durable m -> RemoveStorage n m = (EC_OK, m') -> durable m'.
Proof.
  intros Hd. unfold RemoveStorage. destruct (LoadAndDelete _ _ _) as [ec s] eqn:Es. simpl.
  case_bool_decide as Hec; [by intros; simplify_eq|]. subst ec.
  apply LoadAndDelete_ok in Es. destruct (UnRegisterStorage _ _ _) as [ec d] eqn:Er. intros; simplify_eq.
  apply UnRegisterStorage_ok in Er as [_ ->].
  eapply durable_storages; [done|exact Es|apply mirrors_delete, Hd|apply map_Forall_delete, Hd].
Qed.

Lemma UpdateStorage_durable c m m' :
  durable m -> is_available_ c = true -> storable c -> UpdateStorage c m = (EC_OK, m') -> durable m'.
Proof.
  intros Hd Ha Hsc. unfold UpdateStorage. destruct (update_rejected _ _); [done|].
  destruct (RemoveStorage _ m) as [ec1 m1] eqn:E1.
  case_bool_decide as Hec1; [by intros; simplify_eq|]. subst ec1.
  destruct (AddStorage c m1) as [ec2 m2] eqn:E2.
  case_bool_decide as Hec2; [by intros; simplify_eq|]. subst ec2. intros; simplify_eq.
  eapply AddStorage_durable; [|done..]. by eapply RemoveStorage_durable.
Qed.

Lemma save_group_durable g m m' : durable m -> json_complete g -> save_group g m = (EC_OK, m') -> durable m'.
Proof.
  intros Hd. unfold save_group. destruct (LoadAndSave _ _ _ _) as [ec s] eqn:Es. simpl.
  case_bool_decide as Hec; [by intros; simplify_eq|]. subst ec. intros; simplify_eq.
  apply LoadAndSave_ok in Es.
  eapply durable_groups; [done|exact Es|by apply mirrors_insert; [apply Hd|]|].
  apply map_Forall_insert_2; [done|apply Hd].
Qed.

Lemma RemoveInstanceGroup_durable n m m' : durable m -> RemoveInstanceGroup n m = (EC_OK, m') -> durable m'.
Proof.
  intros Hd. unfold RemoveInstanceGroup. destruct (_ !! n); [|done].
  destruct (LoadAndDelete _ _ _) as [ec s] eqn:Es. simpl.
  case_bool_decide as Hec; [by intros; simplify_eq|]. subst ec. intros; simplify_eq.
  apply LoadAndDelete_ok in Es.
  eapply durable_groups; [done|exact Es|apply mirrors_delete, Hd|apply map_Forall_delete, Hd].
Qed.

Lemma AddAccount_durable u p r m m' : durable m -> AddAccount u p r m = (EC_OK, m') -> durable m'.
Proof.
  intros Hd. unfold AddAccount. destruct (_ !! u); [done|].
  destruct (LoadAndSave _ _ _ _) as [ec s] eqn:Es. simpl.
  case_bool_decide as Hec; [by intros; simplify_eq|]. subst ec. intros; simplify_eq.
  apply LoadAndSave_ok in Es.
  eapply durable_accounts; [done|exact Es|by apply mirrors_insert; [apply Hd|]|].
  apply map_Forall_insert_2; [done|apply Hd].
Qed.

Lemma DeleteAccount_durable u m m' : durable m -> DeleteAccount u m = (EC_OK, m') -> durable m'.
Proof.
  intros Hd. unfold DeleteAccount. destruct (_ !! u); [|done].
  destruct (LoadAndDelete _ _ _) as [ec s] eqn:Es. simpl.
  case_bool_decide as Hec; [by intros; simplify_eq|]. subst ec. intros; simplify_eq.
  apply LoadAndDelete_ok in Es.
  eapply durable_accounts; [done|exact Es|apply mirrors_delete, Hd|apply map_Forall_delete, Hd].
Qed.

(** Two successive changes, of an instance's own table and of the list of
    instances, in either order. *)
Lemma durable_instances m s' i :
  durable m ->
  (forall k, reserved k -> k <> kRegistryInstanceKey -> fields s' k = fields (storage_ m) k) ->
  fields s' kRegistryInstanceKey = map_imap (fun id _ => Some id) i ->
  map_Forall (fun id x => ~ reserved id /\
    exists f, rs_table s' id = Some f /\ f !! id = Some (ToJsonString x)) i ->
  durable (set_infos i (set_store s' m)).
Proof.
  intros Hd Hf Hi Ht. pose proof Hd as [? ? ? ? ? ? ? ?]. destruct reserved_keys as (? & ? & ? & ?).
  constructor; simpl; try done; rewrite Hf by done; done.
Qed.

Lemma fields_Some s k id v : fields s k !! id = Some v -> exists f, rs_table s k = Some f /\ f !! id = Some v.
Proof. unfold fields. destruct (rs_table s k) as [f|]; simpl; [eauto|by rewrite lookup_empty]. Qed.

Lemma map_imap_ids_insert (i : gmap string InstanceInfo) id x :
  map_imap (fun id _ => Some id) (<[id := x]> i) = <[id := id]> (map_imap (fun id _ => Some id) i).
Proof.
  apply map_eq. intros k. rewrite map_lookup_imap. destruct (decide (k = id)) as [->|Hne].
  - by rewrite !lookup_insert_eq.
  - by rewrite !lookup_insert_ne, map_lookup_imap by done.
Qed.

Lemma map_imap_ids_delete (i : gmap string InstanceInfo) id :
  map_imap (fun id _ => Some id) (delete id i) = delete id (map_imap (fun id _ => Some id) i).
Proof.
  apply map_eq. intros k. rewrite map_lookup_imap. destruct (decide (k = id)) as [->|Hne].
  - by rewrite !lookup_delete_eq.
  - by rewrite !lookup_delete_ne, map_lookup_imap by done.
Qed.

Lemma RegisterInstance_durable g id b il d gs q m m' :
  durable m -> ~ reserved id -> RegisterInstance g id b il d gs q m = (EC_OK, m') -> durable m'.
Proof.
  intros Hd Hn. unfold RegisterInstance. destruct (_ !! g) as [gc|]; [|done].
  destruct (instance_infos_ m !! id) as [ex|] eqn:Hex; [repeat case_match; intros; by simplify_eq|].
  set (info := make_info _ _ _ _ _ _ _ _).
  destruct (LoadAndSave id id _ _) as [ec1 s1] eqn:E1. simpl.
  case_bool_decide as Hec1; [by intros; simplify_eq|]. subst ec1.
  destruct (LoadAndSave kRegistryInstanceKey id id s1) as [ec2 s2] eqn:E2. simpl.
  case_bool_decide as Hec2; [by intros; simplify_eq|]. subst ec2. intros; simplify_eq.
  apply LoadAndSave_ok in E1, E2. destruct reserved_keys as (? & ? & Hri & ?).
  assert (Hres : forall k, reserved k -> fields s1 k = fields (storage_ m) k)
    by (intros k Hk; apply (stores_fields _ _ _ _ _ E1); congruence).
  change (set_infos _ _) with (set_infos (<[id:=info]> (instance_infos_ m)) (set_store s2 m)).
  apply durable_instances; [done| | |].
  - intros k Hk Hne. rewrite (stores_fields _ _ _ _ _ E2) by done. auto.
  - destruct E2 as [-> _]. rewrite Hres, (dur_ids _ Hd) by done. by rewrite map_imap_ids_insert.
  - apply map_Forall_insert_2.
    + split; [done|]. destruct E1 as [E1 _], E2 as [_ E2]. rewrite E2 by congruence.
      apply fields_Some. rewrite E1. apply lookup_insert_eq.
    + intros id' x Hx. destruct (dur_infos _ Hd id' x Hx) as (Hn' & f & Hf & Hl). split; [done|].
      exists f. split; [|done]. destruct E1 as [_ E1], E2 as [_ E2].
      rewrite E2, E1; [done|congruence|congruence].
Qed.

Lemma RemoveInstance_durable id m m' : durable m -> RemoveInstance id m = (EC_OK, m') -> durable m'.
Proof.
  intros Hd. unfold RemoveInstance. destruct (instance_infos_ m !! id) as [x|] eqn:Hx; [|done].
  destruct (dur_infos _ Hd id x Hx) as (Hn & _).
  destruct (LoadAndDelete kRegistryInstanceKey id _) as [ec1 s1] eqn:E1. simpl.
  case_bool_decide as Hec1; [by intros; simplify_eq|]. subst ec1.
  destruct (LoadAndDelete id id s1) as [ec2 s2] eqn:E2. simpl.
  case_bool_decide as Hec2; [by intros; simplify_eq|]. subst ec2. intros; simplify_eq.
  apply LoadAndDelete_ok in E1, E2. destruct reserved_keys as (? & ? & Hri & ?).
  assert (Hres : forall k, reserved k -> fields s2 k = fields s1 k)
    by (intros k Hk; apply (stores_fields _ _ _ _ _ E2); congruence).
  change (set_infos _ _) with (set_infos (delete id (instance_infos_ m)) (set_store s2 m)).
  apply durable_instances; [done| | |].
  - intros k Hk Hne. rewrite Hres by done. by apply (stores_fields _ _ _ _ _ E1).
  - rewrite Hres by done. destruct E1 as [-> _]. by rewrite (dur_ids _ Hd), map_imap_ids_delete.
  - intros id' y Hy. apply lookup_delete_Some in Hy as [Hne Hy].
    destruct (dur_infos _ Hd id' y Hy) as (Hn' & f & Hf & Hl). split; [done|].
    exists f. split; [|done]. destruct E1 as [_ E1], E2 as [_ E2]. rewrite E2, E1; [done|congruence|congruence].
Qed.

Lemma registry_op_durable o m m' : durable m -> op_ok o -> registry_op o m = (EC_OK, m') -> durable m'.
Proof.
  intros Hd Ho. destruct o; simpl in *.
  - destruct Ho. by apply AddStorage_durable.
  - by apply switch_storage_durable.
  - by apply switch_storage_durable.
  - by apply RemoveStorage_durable.
  - destruct Ho. by apply UpdateStorage_durable.
  - unfold CreateInstanceGroup. case_match; [done|]. by apply save_group_durable.
  - unfold UpdateInstanceGroup. repeat case_match; try done. by apply save_group_durable.
  - by apply RemoveInstanceGroup_durable.
  - by apply RegisterInstance_durable.
  - by apply RemoveInstance_durable.
  - by apply AddAccount_durable.
  - by apply DeleteAccount_durable.
Qed.

Lemma durable_new s : (forall k, rs_table s k = None) -> durable (registry_new s).
Proof.
  intros Hs. constructor; simpl; try (unfold mirrors, fields; rewrite Hs; by rewrite ?fmap_empty, ?map_imap_empty);
    apply map_Forall_empty.
Qed.

Lemma all_succeed_durable ops m m' :
  durable m -> Forall op_ok ops -> all_succeed ops m = Some m' -> durable m'.
Proof.
  revert m. induction ops as [|o ops IH]; intros m Hd Ho; simpl; [by intros [= <-]|].
  apply Forall_cons in Ho as [Ho Hos]. destruct (registry_op o m) as [ec m1] eqn:E.
  destruct ec; try done. apply IH; [|done]. by eapply registry_op_durable.
Qed.

(** ** Recovery rebuilds the memory *)

(** A configuration that opened opens again without the members that are not
    written; loading succeeds. *)
Hypothesis open_kept : forall a a' c, bk_Open (set_is_available a c) = EC_OK ->
  bk_Open (config_kept (set_is_available a' c)) = EC_OK.
Hypothesis loads : forall k s, load_failed (rs_Load k s).1.1 = false.

(** A fold that adds each entry of [l] as [tgt] has it. *)
Lemma recover_fold {A} (step : nat * gmap string A -> string * string -> nat * gmap string A)
    (tgt : gmap string A) l :
  (forall errors mem k v, (k, v) ∈ l -> mem !! k = None ->
     exists a, tgt !! k = Some a /\ step (errors, mem) (k, v) = (errors, <[k := a]> mem)) ->
  NoDup l.*1 -> forall errors mem, (forall k, k ∈ l.*1 -> mem !! k = None) ->
  exists mem', foldl step (errors, mem) l = (errors, mem') /\
    forall k, mem' !! k = if decide (k ∈ l.*1) then tgt !! k else mem !! k.
Proof.
  intros Hstep. induction l as [|[k v] l IH]; intros Hnd errors mem Hfree; csimpl in *.
  { exists mem. split; [done|]. done. }
  apply NoDup_cons in Hnd as [Hk Hnd].
  destruct (Hstep errors mem k v) as (a & Ha & ->); [set_solver|apply Hfree; set_solver|].
  destruct (IH ltac:(intros; apply Hstep; set_solver) Hnd errors (<[k := a]> mem)) as (mem' & Hm & Hl).
  { intros k' Hk'. rewrite lookup_insert_ne by (intros ->; done). apply Hfree. set_solver. }
  exists mem'. split; [done|]. intros k'. rewrite Hl. destruct (decide (k' = k)) as [->|Hne].
  - rewrite decide_False by done. rewrite decide_True by set_solver. by rewrite lookup_insert_eq, Ha.
  - rewrite lookup_insert_ne by done. destruct (decide (k' ∈ l.*1)).
    + by rewrite decide_True by set_solver.
    + by rewrite decide_False by set_solver.
Qed.

(** All of a mirrored table, into an empty memory. *)
Lemma recover_mirror {A B} (step : nat * gmap string B -> string * string -> nat * gmap string B)
    (text : A -> string) (f : A -> B) (mem : gmap string A) :
  (forall errors acc k a, mem !! k = Some a -> acc !! k = None ->
     step (errors, acc) (k, text a) = (errors, <[k := f a]> acc)) ->
  foldl step (0%nat, ∅) (sorted_entries (text <$> mem)) = (0%nat, f <$> mem).
Proof.
  intros Hstep.
  destruct (recover_fold step (f <$> mem) (sorted_entries (text <$> mem))) with (errors := 0%nat) (mem := ∅ : gmap string B)
    as (mem' & -> & Hl); [|apply NoDup_sorted_entries|by intros; apply lookup_empty|].
  - intros errors acc k v Hkv Hn. apply elem_of_sorted_entries in Hkv.
    rewrite lookup_fmap in Hkv. apply fmap_Some in Hkv as (a & Ha & ->).
    exists (f a). rewrite lookup_fmap, Ha. split; [done|]. by apply Hstep.
  - f_equal. apply map_eq. intros k. rewrite Hl. case_decide as Hk; [done|].
    rewrite elem_of_sorted_keys in Hk. rewrite lookup_fmap, lookup_empty.
    rewrite lookup_fmap in Hk. destruct (mem !! k) eqn:E; [|done].
    exfalso. apply Hk. simpl. eauto.
Qed.

Lemma load_reserved k s :
  exists ec s', rs_Load k s = ((ec, fields s k), s') /\ load_failed ec = false /\
    forall k', rs_table s' k' = rs_table s k'.
Proof.
  pose proof (loads k s) as Hf. destruct (rs_Load k s) as [[ec m] s'] eqn:E. simpl in Hf.
  destruct (load_fields _ _ _ _ _ E Hf) as [-> Hk]. eauto.
Qed.

(** What recovery makes of a storage: what is kept of the configuration. *)
Definition recovered (b : DataStorageBackend) : DataStorageBackend :=
  mkBackend (config_kept (set_is_available (available_ b) (config_ b))) (available_ b).

Lemma recover_storages d :
  map_Forall storage_openable d ->
  foldl recover_storage_entry (0%nat, ∅) (sorted_entries (storage_text <$> d)) = (0%nat, recovered <$> d).
Proof.
  intros Ho. apply (recover_mirror _ storage_text recovered). intros errors acc n b Hb Hn.
  destruct (Ho n b Hb) as (Hname & Hc & Hst & a & Hop). unfold recover_storage_entry, storage_text, GetDataStorageBackend.
  cbn [fst snd]. rewrite StorageConfig_from_to by exact Hst. simpl. rewrite Hname, Hn.
  rewrite (RegisterStorage_new with_vcns with_mooncake bk_Open) by eauto.
  simpl. unfold set_storage. destruct b as [c [|]]; simpl; [done|].
  by rewrite lookup_insert_eq, insert_insert_eq.
Qed.

Lemma recover_groups g :
  map_Forall (fun n x => name_ x = n /\ json_complete x) g ->
  foldl recover_group_entry (0%nat, ∅) (sorted_entries (ToJsonString <$> g)) = (0%nat, g).
Proof.
  intros Hn. rewrite <-(map_fmap_id g) at 2. apply (recover_mirror _ ToJsonString Datatypes.id).
  intros errors acc k x Hx Hk. unfold recover_group_entry. simpl. destruct (Hn k x Hx) as [Hname Hcomplete].
  rewrite complete_from_to by done. by rewrite Hname, Hk.
Qed.

Lemma recover_accounts a :
  map_Forall (fun n x => user_name_ x = n) a ->
  foldl recover_account_entry (0%nat, ∅) (sorted_entries (ToJsonString <$> a)) = (0%nat, a).
Proof.
  intros Hn. rewrite <-(map_fmap_id a) at 2. apply (recover_mirror _ ToJsonString Datatypes.id).
  intros errors acc k x Hx Hk. unfold recover_account_entry. cbn [fst snd]. rewrite Account_from_to.
  by rewrite (Hn k x Hx), Hk.
Qed.

(** The instances: the store is threaded through, its tables unchanged. *)
Lemma recover_infos (i : gmap string InstanceInfo) l s acc errors :
  map_Forall (fun id x => exists f, rs_table s id = Some f /\ f !! id = Some (ToJsonString x)) i ->
  (forall id v, (id, v) ∈ l -> is_Some (i !! id)) -> NoDup l.*1 -> (forall id, id ∈ l.*1 -> acc !! id = None) ->
  exists acc' s', foldl recover_info_entry (errors, acc, s) l = (errors, acc', s') /\
    (forall k, rs_table s' k = rs_table s k) /\
    forall id, acc' !! id = if decide (id ∈ l.*1) then info_kept <$> i !! id else acc !! id.
Proof.
  revert s acc. induction l as [|[id v] l IH]; intros s acc Hi Hl Hnd Hfree; csimpl in *.
  { exists acc, s. by split_and!. }
  apply NoDup_cons in Hnd as [Hid Hnd]. rewrite (Hfree id) by set_solver.
  destruct (Hl id v) as [x Hx]; [set_solver|]. destruct (Hi id x Hx) as (f & Hf & Hfx).
  destruct (load_reserved id s) as (ec & s1 & E & Hlf & Hs1). rewrite E.
  assert (ec = EC_OK) as ->.
  { destruct (decide (ec = EC_OK)); [done|]. exfalso. unfold load_failed in Hlf.
    rewrite (bool_decide_eq_true_2 (ec <> EC_OK)) in Hlf by done. simpl in Hlf.
    apply bool_decide_eq_false, dec_stable in Hlf as ->. apply law_load_none in E as [_ E]. congruence. }
  pose proof (InstanceInfo_from_to x) as Hft. simpl in Hft.
  simpl. unfold fields. rewrite Hf. simpl. rewrite Hfx. simpl. rewrite Hft.
  destruct (IH s1 (<[id := info_kept x]> acc)) as (acc' & s' & Hfold & Hs' & Hacc); auto.
  { intros id' y Hy. rewrite Hs1. auto. }
  { intros id' v' Hv'. apply (Hl id' v'). set_solver. }
  { intros id' Hid'. rewrite lookup_insert_ne by (intros ->; done). apply Hfree. set_solver. }
  exists acc', s'. split; [done|]. split; [intros k; by rewrite Hs', Hs1|].
  intros id'. rewrite Hacc. destruct (decide (id' = id)) as [->|Hne].
  - rewrite decide_False by done. rewrite decide_True by set_solver. by rewrite lookup_insert_eq, Hx.
  - rewrite lookup_insert_ne by done. destruct (decide (id' ∈ l.*1)).
    + by rewrite decide_True by set_solver.
    + by rewrite decide_False by set_solver.
Qed.

(** Recovery from a store that agrees with the memory. *)
Lemma recover_durable m :
  durable m ->
  exists m', DoRecoverOnce (DoCleanup m).2 = (EC_OK, m') /\ recover_complete_ m' = true /\
    instance_group_configs_ m' = instance_group_configs_ m /\ instance_infos_ m' = info_kept <$> instance_infos_ m /\
    accounts_ m' = accounts_ m /\ data_storage_manager_ m' = recovered <$> data_storage_manager_ m.
Proof.
  intros Hd.
  unfold DoRecoverOnce, DoCleanup. simpl.
  unfold RecoverStorageUnsafe. simpl. destruct (load_reserved kRegistryStorageKey (storage_ m)) as (e1 & s1 & -> & -> & T1).
  rewrite (dur_storage _ Hd), (recover_storages _ (dur_open _ Hd)). simpl.
  unfold RecoverAccountUnsafe. simpl. destruct (load_reserved kRegistryAccountKey s1) as (e2 & s2 & -> & -> & T2).
  replace (fields s1 kRegistryAccountKey) with (fields (storage_ m) kRegistryAccountKey) by (unfold fields; by rewrite T1).
  rewrite (dur_account _ Hd), (recover_accounts _ (dur_account_name _ Hd)). simpl.
  unfold RecoverInstanceGroupUnsafe. simpl. destruct (load_reserved kRegistryGroupKey s2) as (e3 & s3 & -> & -> & T3).
  replace (fields s2 kRegistryGroupKey) with (fields (storage_ m) kRegistryGroupKey) by (unfold fields; by rewrite T2, T1).
  rewrite (dur_group _ Hd), (recover_groups _ (dur_group_name _ Hd)). simpl.
  unfold RecoverInstanceInfoUnsafe. simpl. destruct (load_reserved kRegistryInstanceKey s3) as (e4 & s4 & -> & -> & T4).
  replace (fields s3 kRegistryInstanceKey) with (fields (storage_ m) kRegistryInstanceKey)
    by (unfold fields; by rewrite T3, T2, T1).
  assert (Htab : forall k, rs_table s4 k = rs_table (storage_ m) k) by (intros; by rewrite T4, T3, T2, T1).
  set (ids := sorted_entries (fields (storage_ m) kRegistryInstanceKey)).
  destruct (recover_infos (instance_infos_ m) ids s4 ∅ 0) as (infos & s5 & -> & _ & Hinfos).
  - intros id x Hx. destruct (dur_infos _ Hd id x Hx) as (_ & f & Hf & Hl). exists f. by rewrite Htab.
  - intros id v Hv%elem_of_sorted_entries. rewrite (dur_ids _ Hd), map_lookup_imap in Hv.
    destruct (instance_infos_ m !! id); [eauto|done].
  - apply NoDup_sorted_entries.
  - intros. apply lookup_empty.
  - simpl. eexists. split; [reflexivity|]. simpl. split_and!; try done.
    apply map_eq. intros id. rewrite Hinfos, lookup_fmap. case_decide as Hid; [done|].
    unfold ids in Hid. rewrite elem_of_sorted_keys, (dur_ids _ Hd), map_lookup_imap in Hid.
    rewrite lookup_empty. destruct (instance_infos_ m !! id); [|done]. exfalso. apply Hid. simpl. eauto.
Qed.

(** A refused [AddStorage] takes effect at the next recovery. Adding a
    storage under a name that is in use answers [EC_EXIST] and leaves the
    running configuration as it is, but the new configuration has replaced
    the old one in the store: after the next clean-up and recovery the name
    stands for the refused configuration. *)
Theorem refused_storage_replaces_persisted m c b s' :
  durable m -> data_storage_manager_ m !! global_unique_name_ c = Some b ->
  CreateStorageBackend with_vcns with_mooncake (type_ c) = true -> bk_Open c = EC_OK -> storable c ->
  LoadAndSave kRegistryStorageKey (global_unique_name_ c) (ToJsonString c) (storage_ m) = (EC_OK, s') ->
  exists m' m'', AddStorage c m = (EC_EXIST, m') /\ data_storage_manager_ m' = data_storage_manager_ m /\
    DoRecoverOnce (DoCleanup m').2 = (EC_OK, m'') /\
    data_storage_manager_ m'' !! global_unique_name_ c = Some (mkBackend (config_kept c) (is_available_ c)).
Proof.
  intros Hd Hb Hc Ho Hst Hs. set (n := global_unique_name_ c) in *.
  set (d' := <[n := mkBackend c (is_available_ c)]> (data_storage_manager_ m)).
  assert (Hc' : set_is_available (is_available_ c) c = c) by (by destruct c).
  assert (Hd' : durable (set_dsm d' (set_store s' m))).
  { eapply durable_storages; [done|by apply LoadAndSave_ok| |].
    - apply mirrors_insert; [apply Hd|]. unfold storage_text. simpl. by rewrite Hc'.
    - apply map_Forall_insert_2; [split_and!; [done..|]|apply Hd]. exists (is_available_ c). simpl. by rewrite Hc'. }
  destruct (recover_durable _ Hd') as (m'' & Hrec & _ & _ & _ & _ & Hdsm).
  exists (set_store s' m), m''. split_and!; [|done|exact Hrec|].
  - unfold AddStorage. fold n. rewrite Hs. simpl. unfold RegisterStorage. by rewrite Hb.
  - rewrite Hdsm, lookup_fmap. simpl. unfold d'. rewrite lookup_insert_eq. simpl.
    unfold recovered. simpl. by rewrite Hc'.
Qed.
End registry.

(** ** A concrete text form for instance groups

    For the examples: the binary digits of stdpp's encoding. *)

#[global] Instance DataStorageType_countable : Countable DataStorageType :=
  inj_countable ToIndex (fun i => all_storage_types !! i) all_storage_types_lookup.

Definition strategy_index (s : CachePreferStrategy) : nat :=
  match s with
  | CPS_UNSPECIFIED => 0 | CPS_ALWAYS_3FS => 1 | CPS_PREFER_3FS => 2 | CPS_ALWAYS_MOONCAKE => 3
  | CPS_PREFER_MOONCAKE => 4 | CPS_ALWAYS_TAIR_MEMPOOL => 5 | CPS_PREFER_TAIR_MEMPOOL => 6
  | CPS_ALWAYS_VCNS_3FS => 7 | CPS_PREFER_VCNS_3FS => 8 | CPS_ALWAYS_TAIR_MEMPOOL_SSD => 9
  | CPS_PREFER_TAIR_MEMPOOL_SSD => 10
  end.

Definition all_strategies : list CachePreferStrategy :=
  [CPS_UNSPECIFIED; CPS_ALWAYS_3FS; CPS_PREFER_3FS; CPS_ALWAYS_MOONCAKE; CPS_PREFER_MOONCAKE;
   CPS_ALWAYS_TAIR_MEMPOOL; CPS_PREFER_TAIR_MEMPOOL; CPS_ALWAYS_VCNS_3FS; CPS_PREFER_VCNS_3FS;
   CPS_ALWAYS_TAIR_MEMPOOL_SSD; CPS_PREFER_TAIR_MEMPOOL_SSD].

#[global] Instance CachePreferStrategy_eq_dec : EqDecision CachePreferStrategy.
Proof. solve_decision. Defined.

#[global] Instance CachePreferStrategy_countable : Countable CachePreferStrategy.
Proof. refine (inj_countable strategy_index (fun i => all_strategies !! i) _). by intros []. Defined.

#[global] Instance QuotaConfig_eq_dec : EqDecision QuotaConfig.
Proof. solve_decision. Defined.
#[global] Instance QuotaConfig_countable : Countable QuotaConfig.
Proof.
  refine (inj_countable' (fun q => (q_capacity q, q_storage_spec q)) (fun '(c, t) => mkQuotaConfig c t) _).
  by intros [].
Defined.

#[global] Instance InstanceGroupQuota_eq_dec : EqDecision InstanceGroupQuota.
Proof. solve_decision. Defined.
#[global] Instance InstanceGroupQuota_countable : Countable InstanceGroupQuota.
Proof.
  refine (inj_countable' (fun q => (g_capacity q, g_quota_config q)) (fun '(c, l) => mkGroupQuota c l) _).
  by intros [].
Defined.

#[global] Instance InstanceGroup_eq_dec : EqDecision InstanceGroup.
Proof. solve_decision. Defined.
#[global] Instance InstanceGroup_countable : Countable InstanceGroup.
Proof.
  refine (inj_countable' (fun g => (name_ g, storage_candidates_ g, global_quota_group_name_ g, quota_ g,
            cache_config_ g, version_ g, other_ g)) (fun '(n, s, q, u, c, v, o) => mkGroup n s q u c v o) _).
  by intros [].
Defined.

#[global] Instance digits_Jsonizable : Jsonizable InstanceGroup := {
  ToJsonString g := digits_of_pos (encode g);
  FromJsonString s := decode (pos_of_digits s);
}.

#[global] Instance digits_JsonComplete : JsonComplete InstanceGroup.
Proof.
  refine {| json_complete := fun g => is_Some (cache_config_ g) |}.
  intros g _. simpl. by rewrite pos_of_digits_of_pos, decode_encode.
Defined.

#[global] Existing Instance digits_text.

(** ** Examples *)

Definition open_ok (c : StorageConfig) : ErrorCode := EC_OK.

Definition local_store : RegistryLocalBackend := mkLocal ∅ false [].

Definition nfs_storage (root : string) : StorageConfig :=
  mkStorageConfig DATA_STORAGE_TYPE_NFS "nfs_01" (Some (NfsStorageSpec root 8)) true true.

Definition example_deployment : ModelDeployment := mkDeployment "llm" "bf16" false 2 1 "" 1 "" "" false.

Definition example_group : InstanceGroup :=
  mkGroup "default" ["nfs_01"] "qg" (mkGroupQuota 1000 []) (Some CPS_UNSPECIFIED) 1 "".

Definition example_ops : list RegistryOp :=
  [OpAddStorage (nfs_storage "/a"); OpDisableStorage "nfs_01"; OpCreateInstanceGroup example_group;
   OpRegisterInstance "default" "i1" 128 [mkSpecInfo "tp0" 4096] example_deployment [mkSpecGroup "g" ["tp0"]] 0;
   OpRegisterInstance "default" "i2" 64 [] example_deployment [] 0; OpRemoveInstance "i2"; OpAddAccount "root" "pw" ROLE_ADMIN].

Definition example_registry (ops : list RegistryOp) : RegistryManager :=
  default (registry_new local_store) (all_succeed true true open_ok open_ok ops (registry_new local_store)).

Lemma example_runs ops :
  bool_decide (is_Some (all_succeed true true open_ok open_ok ops (registry_new local_store))) = true ->
  all_succeed true true open_ok open_ok ops (registry_new local_store) = Some (example_registry ops).
Proof. intros H%bool_decide_eq_true. destruct H as [m Hm]. unfold example_registry. by rewrite Hm. Qed.

Lemma open_ok_kept (a a' : bool) (c : StorageConfig) :
  open_ok (set_is_available a c) = EC_OK -> open_ok (config_kept (set_is_available a' c)) = EC_OK.
Proof. done. Qed.

Lemma local_loads k (s : RegistryLocalBackend) : load_failed (rs_Load k s).1.1 = false.
Proof. simpl. unfold Load. by destruct (table_ s !! k). Qed.

Lemma nfs_storable root : storable (nfs_storage root).
Proof. exists (NfsStorageSpec root 8). split_and!; [reflexivity|reflexivity|]. split; lia. Qed.

Lemma example_ops_ok : Forall op_ok example_ops.
Proof.
  unfold example_ops. repeat (apply Forall_cons; split); try apply Forall_nil; simpl; try exact I.
  1: split; [reflexivity|apply nfs_storable].
  1: by eexists.
  all: unfold reserved; intros [H|[H|[H|H]]]; discriminate H.
Qed.


Lemma refused_storage_replaces_persisted_witness :
  exists m' m'', AddStorage true true open_ok (nfs_storage "/b") (example_registry example_ops) = (EC_EXIST, m') /\
    DoRecoverOnce true true open_ok (DoCleanup open_ok m').2 = (EC_OK, m'') /\
    data_storage_manager_ m'' !! "nfs_01" = Some (mkBackend (config_kept (nfs_storage "/b")) true).
Proof.
  assert (Hd : durable true true open_ok (example_registry example_ops)).
  { eapply all_succeed_durable; [|apply example_ops_ok|apply example_runs; vm_compute; reflexivity].
    apply durable_new. intros k. apply lookup_empty. }
  destruct (LoadAndSave kRegistryStorageKey "nfs_01" (ToJsonString (nfs_storage "/b"))
              (storage_ (example_registry example_ops))) as [ec s'] eqn:Es.
  assert (Hec : ec = EC_OK) by (vm_compute in Es; congruence). subst ec.
  destruct (data_storage_manager_ (example_registry example_ops) !! "nfs_01") as [b|] eqn:Hb;
    [|vm_compute in Hb; discriminate].
  destruct (refused_storage_replaces_persisted true true open_ok open_ok open_ok_kept local_loads
              (example_registry example_ops) (nfs_storage "/b") b s') as (m' & m'' & H1 & _ & H2 & H3);
    [exact Hd|exact Hb|reflexivity|reflexivity|apply nfs_storable|exact Es|].
  exists m', m''. split; [exact H1|]. split; [exact H2|exact H3].
Defined.
