(* ===== verification/StorageSelect.v ===== *)
(** * StorageSelect: choosing the storage a write goes to
    ([manager/data_storage_selector.cc])

    The selector reads the registry (groups, instances, storages) and the
    usage counters of the instances' indexers, [indexers] by instance id; it
    changes nothing. The pointers it checks for null (the managers, the
    request context, the instances of the registry) are never null here.
    [std::size_t] and [std::uint64_t] sums wrap at 64 bits where the code lets
    them. *)

From stdpp Require Import base gmap sets list strings.
From Stdlib Require Import ZArith Lia.
From S2P Require Import Prelude MetaTypes StorageUsage StorageManager Registry.

Local Open Scope Z_scope.

(** ** Quota availability by type *)

Abbreviation StorageQuotaAvail := (list bool).

Definition avail_default (type : DataStorageType) : bool :=
  match type with
  | DATA_STORAGE_TYPE_HF3FS | DATA_STORAGE_TYPE_MOONCAKE | DATA_STORAGE_TYPE_TAIR_MEMPOOL
  | DATA_STORAGE_TYPE_TAIR_MEMPOOL_SSD | DATA_STORAGE_TYPE_NFS | DATA_STORAGE_TYPE_DUMMY => true
  | _ => false
  end.

Definition StorageQuotaAvail_new : StorageQuotaAvail := avail_default <$> all_storage_types.

Definition GetStorageQuotaAvailByType (type : DataStorageType) (t : StorageQuotaAvail) : bool :=
  let idx := ToIndex (ToBaseType type) in
  if (length t <=? idx)%nat then false else default false (t !! idx).

Definition SetStorageQuotaAvailByType (type : DataStorageType) (value : bool) (t : StorageQuotaAvail)
    : StorageQuotaAvail :=
  let idx := ToIndex (ToBaseType type) in
  if (length t <=? idx)%nat then t else <[idx := value]> t.

(** ** Candidates and preference *)

Definition backend_name (b : DataStorageBackend) : string := global_unique_name_ (GetStorageConfig b).

Definition GetCandidates (avail_backends : list DataStorageBackend) (configured : list string)
    (table : StorageQuotaAvail) : list DataStorageBackend :=
  flat_map (fun candidate =>
    flat_map (fun b =>
      if bool_decide (backend_name b = candidate) then
        if negb (Available b) then []
        else if negb (GetStorageQuotaAvailByType (GetType b) table) then []
        else [b]
      else []) avail_backends) configured.

Definition SelectByType (candidates : list DataStorageBackend) (target : DataStorageType) (can_fallback : bool)
    : option DataStorageBackend :=
  match candidates with
  | [] => None
  | front :: _ =>
      match list_find (fun b => GetType b = target) candidates with
      | Some (_, b) => Some b
      | None => if can_fallback then Some front else None
      end
  end.

(** The [switch] of [Select]: the wanted type and whether another one will do. *)
Definition preference_target (preference : CachePreferStrategy) : DataStorageType * bool :=
  match preference with
  | CPS_ALWAYS_3FS => (DATA_STORAGE_TYPE_HF3FS, false)
  | CPS_PREFER_3FS => (DATA_STORAGE_TYPE_HF3FS, true)
  | CPS_ALWAYS_VCNS_3FS => (DATA_STORAGE_TYPE_VCNS_HF3FS, false)
  | CPS_PREFER_VCNS_3FS => (DATA_STORAGE_TYPE_VCNS_HF3FS, true)
  | CPS_ALWAYS_MOONCAKE => (DATA_STORAGE_TYPE_MOONCAKE, false)
  | CPS_PREFER_MOONCAKE => (DATA_STORAGE_TYPE_MOONCAKE, true)
  | CPS_ALWAYS_TAIR_MEMPOOL => (DATA_STORAGE_TYPE_TAIR_MEMPOOL, false)
  | CPS_PREFER_TAIR_MEMPOOL => (DATA_STORAGE_TYPE_TAIR_MEMPOOL, true)
  | CPS_ALWAYS_TAIR_MEMPOOL_SSD => (DATA_STORAGE_TYPE_TAIR_MEMPOOL_SSD, false)
  | CPS_PREFER_TAIR_MEMPOOL_SSD => (DATA_STORAGE_TYPE_TAIR_MEMPOOL_SSD, true)
  | CPS_UNSPECIFIED => (DATA_STORAGE_TYPE_UNKNOWN, true)
  end.

Definition Select (candidates : list DataStorageBackend) (preference : CachePreferStrategy)
    : option DataStorageBackend :=
  let '(target, fallback) := preference_target preference in SelectByType candidates target fallback.

(** ** Usage against quota *)

Abbreviation Indexers := (gmap string StorageUsageData).

Definition CalcGroupUsedSize (infos : list InstanceInfo) (indexers : Indexers) : Z :=
  foldl (fun acc i =>
    match indexers !! instance_id_ i with
    | None => acc
    | Some d => u64 (acc + GetStorageUsage d)
    end) 0 infos.

Definition type_used (type : DataStorageType) (infos : list InstanceInfo) (indexers : Indexers) : Z :=
  foldl (fun acc i =>
    match indexers !! instance_id_ i with
    | None => acc
    | Some d => u64 (acc + GetStorageUsageByType type d)
    end) 0 infos.

(** The signed capacity is converted to an unsigned value for the comparison. *)
Definition GenStorageQuotaAvailTable (quota : InstanceGroupQuota) (infos : list InstanceInfo)
    (indexers : Indexers) (table : StorageQuotaAvail) : StorageQuotaAvail :=
  foldl (fun table q =>
    if u64 (q_capacity q) <=? type_used (q_storage_spec q) infos indexers
    then SetStorageQuotaAvailByType (q_storage_spec q) false table else table)
    table (g_quota_config quota).

Record DataStorageSelectResult := mkSelectResult {
  sel_ec : ErrorCode;
  sel_type : DataStorageType;
  sel_name : string;
}.

Definition select_failed (ec : ErrorCode) := mkSelectResult ec DATA_STORAGE_TYPE_UNKNOWN EmptyString.

Definition group_quota_reached (quota : InstanceGroupQuota) (used : Z) : bool :=
  (g_capacity quota <? 0) || (g_capacity quota <=? used).

Section select.
Context {T : Type}.

Definition SelectCacheWriteDataStorageBackend (group : string) (reg : RegistryManager (T := T))
    (indexers : Indexers) : DataStorageSelectResult :=
  let avail_backends := GetAvailableStorages (data_storage_manager_ reg) in
  if bool_decide (avail_backends = []) then select_failed EC_NOENT
  else
    match GetInstanceGroup group reg with
    | (EC_OK, Some ig) =>
        let '(ec1, infos) := ListInstanceInfo group reg in
        if bool_decide (ec1 <> EC_OK) then select_failed EC_ERROR
        else if group_quota_reached (quota_ ig) (CalcGroupUsedSize infos indexers) then select_failed EC_ERROR
        else
          let table := GenStorageQuotaAvailTable (quota_ ig) infos indexers StorageQuotaAvail_new in
          if bool_decide (storage_candidates_ ig = []) then select_failed EC_CONFIG_ERROR
          else
            let preference := default CPS_UNSPECIFIED (cache_config_ ig) in
            match Select (GetCandidates avail_backends (storage_candidates_ ig) table) preference with
            | None => select_failed EC_NOENT
            | Some b => mkSelectResult EC_OK (GetType b) (backend_name b)
            end
    | _ => select_failed EC_INSTANCE_NOT_EXIST
    end.

(** ** Explicitly named targets *)

Inductive StorageTargetAdmissionStatus :=
  | kAllowed | kNotFound | kUnavailable | kGroupQuotaExceeded | kStorageTypeQuotaExceeded | kReadError.

Record StorageTargetAdmissionResult := mkAdmission {
  ad_status : StorageTargetAdmissionStatus;
  ad_ec : ErrorCode;
  ad_type : DataStorageType;
}.

Definition admission_default := mkAdmission kReadError EC_ERROR DATA_STORAGE_TYPE_UNKNOWN.

Definition saturating_add (sum value : Z) : Z := if u64_max - sum <? value then u64_max else sum + value.

(** The sums over all instances, [None] when one has no indexer. *)
Definition saturating_sum (usage : StorageUsageData -> Z) (infos : list InstanceInfo) (indexers : Indexers)
    : option Z :=
  foldl (fun acc i =>
    sum ← acc; d ← indexers !! instance_id_ i; Some (saturating_add sum (usage d))) (Some 0) infos.

(** [type_quota_exceeded[idx]]: some quota of the base type is reached. *)
Definition type_quota_exceeded (quota : InstanceGroupQuota) (infos : list InstanceInfo) (indexers : Indexers)
    (type : DataStorageType) : bool :=
  existsb (fun q =>
    (ToIndex (ToBaseType (q_storage_spec q)) =? ToIndex (ToBaseType type))%nat &&
    ((q_capacity q <? 0) ||
     (q_capacity q <=? default 0 (saturating_sum (GetStorageUsageByType (ToBaseType type)) infos indexers))))
    (g_quota_config quota).

Definition admit_target (dsm : DataStorageManager) (group_exceeded : bool) (exceeded : DataStorageType -> bool)
    (target : string) : StorageTargetAdmissionResult :=
  match GetDataStorageBackend target dsm with
  | None => mkAdmission kNotFound EC_NOENT DATA_STORAGE_TYPE_UNKNOWN
  | Some b =>
      if negb (Available b) then mkAdmission kUnavailable EC_NOENT (GetType b)
      else if group_exceeded then mkAdmission kGroupQuotaExceeded EC_NOSPC (GetType b)
      else if (storage_type_COUNT <=? ToIndex (ToBaseType (GetType b)))%nat
      then mkAdmission kReadError EC_CONFIG_ERROR (GetType b)
      else if exceeded (GetType b) then mkAdmission kStorageTypeQuotaExceeded EC_NOSPC (GetType b)
      else mkAdmission kAllowed EC_OK (GetType b)
  end.

Definition CheckExplicitWriteTargets (group : string) (targets : list string) (reg : RegistryManager (T := T))
    (indexers : Indexers) : list StorageTargetAdmissionResult :=
  let refused := replicate (length targets) admission_default in
  if bool_decide (group = EmptyString) then refused
  else
    match GetInstanceGroup group reg with
    | (EC_OK, Some ig) =>
        let '(ec, infos) := ListInstanceInfo group reg in
        if bool_decide (ec <> EC_OK) then refused
        else
          match saturating_sum GetStorageUsage infos indexers with
          | None => refused
          | Some group_used =>
              admit_target (data_storage_manager_ reg) (group_quota_reached (quota_ ig) group_used)
                (type_quota_exceeded (quota_ ig) infos indexers) <$> targets
          end
    | _ => refused
    end.
End select.

(** ** What the quota table says *)

Definition quota_reached_for (type : DataStorageType) (infos : list InstanceInfo) (indexers : Indexers)
    (q : QuotaConfig) : bool :=
  bool_decide (ToBaseType (q_storage_spec q) = ToBaseType type) &&
  (u64 (q_capacity q) <=? type_used type infos indexers).

(** A type takes writes when it is one of the enabled ones and none of its
    quotas is reached. *)
Definition within_quota (quota : InstanceGroupQuota) (infos : list InstanceInfo) (indexers : Indexers)
    (type : DataStorageType) : bool :=
  avail_default (ToBaseType type) && negb (existsb (quota_reached_for type infos indexers) (g_quota_config quota)).

Lemma ToBaseType_idem type : ToBaseType (ToBaseType type) = ToBaseType type.
Proof. by destruct type. Qed.

Lemma GetStorageUsageByType_base type d : GetStorageUsageByType (ToBaseType type) d = GetStorageUsageByType type d.
Proof. unfold GetStorageUsageByType. by rewrite ToBaseType_idem. Qed.

Lemma type_used_base type type' infos indexers :
  ToBaseType type = ToBaseType type' -> type_used type infos indexers = type_used type' infos indexers.
Proof.
  intros E. unfold type_used. generalize 0. induction infos as [|i infos IH]; intros acc; simpl; [done|].
  rewrite IH. destruct (indexers !! _) as [d|]; [|done].
  by rewrite <-(GetStorageUsageByType_base type), E, GetStorageUsageByType_base.
Qed.

Lemma avail_set type type' v t :
  length t = storage_type_COUNT ->
  GetStorageQuotaAvailByType type (SetStorageQuotaAvailByType type' v t) =
    if bool_decide (ToBaseType type' = ToBaseType type) then v else GetStorageQuotaAvailByType type t.
Proof.
  intros Hlen. unfold GetStorageQuotaAvailByType, SetStorageQuotaAvailByType.
  pose proof (ToIndex_lt (ToBaseType type)) as H1. pose proof (ToIndex_lt (ToBaseType type')) as H2.
  apply Nat.leb_gt in H1 as E1. apply Nat.leb_gt in H2 as E2.
  rewrite !Hlen, E1, E2, length_insert, Hlen, E1. case_bool_decide as E.
  - rewrite E, list_lookup_insert_eq by (by rewrite Hlen). done.
  - rewrite list_lookup_insert_ne; [done|]. intros Hi. by apply (inj ToIndex) in Hi.
Qed.

Lemma length_avail_set type v t : length (SetStorageQuotaAvailByType type v t) = length t.
Proof. unfold SetStorageQuotaAvailByType. case_match; [done|]. by rewrite length_insert. Qed.

Lemma avail_new type : GetStorageQuotaAvailByType type StorageQuotaAvail_new = avail_default (ToBaseType type).
Proof. by destruct type. Qed.

Lemma quota_table_exact quota infos indexers type :
  GetStorageQuotaAvailByType type (GenStorageQuotaAvailTable quota infos indexers StorageQuotaAvail_new) =
  within_quota quota infos indexers type.
Proof.
  unfold within_quota, GenStorageQuotaAvailTable. rewrite <-avail_new.
  assert (Hlen : length StorageQuotaAvail_new = storage_type_COUNT) by done.
  revert Hlen. generalize StorageQuotaAvail_new as t. induction (g_quota_config quota) as [|q qs IH]; intros t Hlen.
  { simpl. by rewrite andb_true_r. }
  simpl. rewrite IH by (case_match; rewrite ?length_avail_set; done). unfold quota_reached_for at 2.
  destruct (u64 (q_capacity q) <=? type_used (q_storage_spec q) infos indexers) eqn:E.
  - rewrite avail_set by done. case_bool_decide as Hb; simpl; [|done].
    rewrite <-(type_used_base _ _ infos indexers Hb), E. simpl. by rewrite andb_false_r.
  - case_bool_decide as Hb; simpl; [|done]. by rewrite <-(type_used_base _ _ infos indexers Hb), E.
Qed.

(** ** What is selected *)

(** A storage the group may write to now. *)
Definition admissible {T} (reg : RegistryManager (T := T)) (indexers : Indexers) (group : string)
    (ig : InstanceGroup) (b : DataStorageBackend) : Prop :=
  (exists n, data_storage_manager_ reg !! n = Some b) /\ Available b = true /\
  backend_name b ∈ storage_candidates_ ig /\
  within_quota (quota_ ig) (ListInstanceInfo group reg).2 indexers (GetType b) = true.

Lemma elem_of_GetCandidates b avail configured t :
  b ∈ GetCandidates avail configured t <->
  b ∈ avail /\ Available b = true /\ backend_name b ∈ configured /\ GetStorageQuotaAvailByType (GetType b) t = true.
Proof.
  unfold GetCandidates. rewrite list_elem_of_In, in_flat_map. split.
  - intros (c & Hc & Hb). apply in_flat_map in Hb as (b' & Hb' & H).
    rewrite <-!list_elem_of_In in *. case_bool_decide; [|by apply not_elem_of_nil in H]. subst c.
    destruct (Available b') eqn:Ha; simpl in H; [|by apply not_elem_of_nil in H].
    destruct (GetStorageQuotaAvailByType _ _) eqn:Hq; simpl in H; [|by apply not_elem_of_nil in H].
    apply list_elem_of_singleton in H as ->. done.
  - intros (Hb & Ha & Hn & Hq). exists (backend_name b). rewrite <-list_elem_of_In. split; [done|].
    apply in_flat_map. exists b. rewrite <-!list_elem_of_In. split; [done|].
    rewrite bool_decide_eq_true_2, Ha, Hq by done. by apply list_elem_of_singleton.
Qed.

Lemma SelectByType_spec candidates target fallback b :
  SelectByType candidates target fallback = Some b ->
  b ∈ candidates /\
  (GetType b = target \/ (fallback = true /\ Forall (fun x => GetType x <> target) candidates /\
     head candidates = Some b)).
Proof.
  unfold SelectByType. destruct candidates as [|front rest]; [done|].
  destruct (list_find _ _) as [[i x]|] eqn:E.
  - intros [= <-]. apply list_find_Some in E as (Hi & Ht & _). split; [by eapply list_elem_of_lookup_2|by left].
  - apply list_find_None in E. destruct fallback; [|done]. intros [= <-]. split; [left|right]. by split_and!.
Qed.

Lemma SelectByType_complete candidates target fallback b :
  b ∈ candidates -> GetType b = target \/ fallback = true ->
  is_Some (SelectByType candidates target fallback).
Proof.
  intros Hb Ht. unfold SelectByType. destruct candidates as [|front rest]; [by apply not_elem_of_nil in Hb|].
  destruct (list_find _ _) as [[i x]|] eqn:E; [eauto|]. apply list_find_None in E.
  destruct Ht as [Ht| ->]; [|eauto]. rewrite Forall_forall in E. by destruct (E b Hb).
Qed.

Lemma GetCandidates_mono avail l pre t b :
  b ∈ GetCandidates avail l t -> backend_name b ∈ pre -> b ∈ GetCandidates avail pre t.
Proof. rewrite !elem_of_GetCandidates. intros (? & ? & ? & ?) ?. by split_and!. Qed.

(** The front of the candidates comes from the first configured name that has
    an admissible storage. *)
Lemma GetCandidates_head avail configured t b :
  head (GetCandidates avail configured t) = Some b ->
  exists pre post, configured = pre ++ backend_name b :: post /\
    forall l b', b' ∈ GetCandidates avail l t -> backend_name b' ∉ pre.
Proof.
  induction configured as [|c cs IH]; [done|]. intros Hh.
  assert (Hsplit : GetCandidates avail (c :: cs) t = GetCandidates avail [c] t ++ GetCandidates avail cs t).
  { unfold GetCandidates. simpl. by rewrite app_nil_r. }
  rewrite Hsplit in Hh. destruct (GetCandidates avail [c] t) as [|x xs] eqn:E; simpl in Hh.
  - destruct (IH Hh) as (pre & post & -> & Hpre). exists (c :: pre), post. split; [done|].
    intros l b' Hb'. apply not_elem_of_cons. split; [|by eapply Hpre].
    intros <-. assert (Hx : b' ∈ GetCandidates avail [backend_name b'] t)
      by (eapply GetCandidates_mono; [done|by apply list_elem_of_singleton]).
    rewrite E in Hx. by apply not_elem_of_nil in Hx.
  - injection Hh as ->. assert (Hb : b ∈ GetCandidates avail [c] t) by (rewrite E; left).
    apply elem_of_GetCandidates in Hb as (_ & _ & Hc & _). apply list_elem_of_singleton in Hc as <-.
    exists [], cs. split; [done|]. intros ? ? _. apply not_elem_of_nil.
Qed.

Section selected.
Context {T : Type} (reg : RegistryManager (T := T)) (indexers : Indexers) (group : string) (ig : InstanceGroup).
Hypothesis Hgroup : instance_group_configs_ reg !! group = Some ig.

Lemma candidates_admissible b :
  b ∈ GetCandidates (GetAvailableStorages (data_storage_manager_ reg)) (storage_candidates_ ig)
        (GenStorageQuotaAvailTable (quota_ ig) (ListInstanceInfo group reg).2 indexers StorageQuotaAvail_new) <->
  admissible reg indexers group ig b.
Proof.
  rewrite elem_of_GetCandidates, elem_of_available, quota_table_exact. unfold admissible. tauto.
Qed.

(** The storage of a write. While the group's own quota is not reached,
    selection answers [EC_OK] exactly when some storage is admissible (it is
    registered, available, listed by the group, and of an enabled type none
    of whose quotas is reached) and the group's preference accepts it; the
    answer is then the name and type of an admissible storage: one of the
    preferred type if there is one, and otherwise, for the strategies that
    allow it, one of the first listed name that has an admissible storage.
    When the group's quota is reached nothing is selected. *)
Theorem write_storage_selected :
  let r := SelectCacheWriteDataStorageBackend group reg indexers in
  let reached := group_quota_reached (quota_ ig) (CalcGroupUsedSize (ListInstanceInfo group reg).2 indexers) in
  let '(target, fallback) := preference_target (default CPS_UNSPECIFIED (cache_config_ ig)) in
  (sel_ec r = EC_OK <-> reached = false /\
     exists b, admissible reg indexers group ig b /\ (GetType b = target \/ fallback = true)) /\
  (sel_ec r = EC_OK -> exists b, admissible reg indexers group ig b /\
     sel_name r = backend_name b /\ sel_type r = GetType b /\
     (GetType b = target \/
      (fallback = true /\ (forall b', admissible reg indexers group ig b' -> GetType b' <> target) /\
       exists pre post, storage_candidates_ ig = pre ++ backend_name b :: post /\
         forall b', admissible reg indexers group ig b' -> backend_name b' ∉ pre))).
Proof.
  unfold SelectCacheWriteDataStorageBackend, GetInstanceGroup, Select. rewrite Hgroup. simpl.
  destruct (preference_target _) as [target fallback].
  set (cands := GetCandidates _ _ _). pose proof candidates_admissible as Hadm. fold cands in Hadm.
  set (reached := group_quota_reached _ _).
  assert (Hnone : forall b, admissible reg indexers group ig b ->
            GetAvailableStorages (data_storage_manager_ reg) <> [] /\ storage_candidates_ ig <> []).
  { intros b (Hn & Ha & Hc & _). split; intros E.
    - assert (Hb : b ∈ GetAvailableStorages (data_storage_manager_ reg)) by (by apply elem_of_available).
      rewrite E in Hb. by apply not_elem_of_nil in Hb.
    - rewrite E in Hc. by apply not_elem_of_nil in Hc. }
  destruct (SelectByType cands target fallback) as [b|] eqn:Es.
  - apply SelectByType_spec in Es as (Hb%Hadm & Hpref). destruct (Hnone b Hb).
    rewrite !bool_decide_eq_false_2 by done. destruct reached; simpl; [split; [split; [done|by intros []]|done]|].
    split; [split; [|done]|].
    + intros _. split; [done|]. exists b. split; [done|]. destruct Hpref as [?|(? & _)]; auto.
    + intros _. exists b. split_and!; [done..|]. destruct Hpref as [?|(? & Hall & Hhead)]; [by left|right].
      split; [done|]. rewrite Forall_forall in Hall. split; [intros b' Hb'; by apply Hall, Hadm|].
      apply GetCandidates_head in Hhead as (pre & post & ? & Hpre). exists pre, post. split; [done|].
      intros b' Hb'. eapply Hpre. apply Hadm. exact Hb'.
  - assert (Hfail : forall ec, ec <> EC_OK -> sel_ec (select_failed ec) <> EC_OK) by done.
    assert (Hex : ~ exists b, admissible reg indexers group ig b /\ (GetType b = target \/ fallback = true)).
    { intros (b & Hb%Hadm & Ht). destruct (SelectByType_complete cands target fallback b Hb Ht). congruence. }
    repeat case_match; simpl; (split; [split; [done|intros [_ ?]; by destruct Hex]|done]).
Qed.
End selected.

(** ** Selection and explicit admission use the same quotas *)

(** The usage of the instances that have an indexer, without wrap-around. *)
Fixpoint sum_usage (usage : StorageUsageData -> Z) (infos : list InstanceInfo) (indexers : Indexers) : Z :=
  match infos with
  | [] => 0
  | i :: infos => default 0 (usage <$> indexers !! instance_id_ i) + sum_usage usage infos indexers
  end.

Section sums.
Variable indexers : Indexers.
Variable usage : StorageUsageData -> Z.
Hypothesis nonneg : forall id d, indexers !! id = Some d -> 0 <= usage d.

Lemma sum_usage_nonneg infos : 0 <= sum_usage usage infos indexers.
Proof.
  induction infos as [|i infos IH]; simpl; [lia|]. destruct (indexers !! _) as [d|] eqn:E; simpl; [|lia].
  pose proof (nonneg _ _ E). lia.
Qed.

Lemma wrapping_fold infos a :
  0 <= a -> a + sum_usage usage infos indexers < 2 ^ 64 ->
  foldl (fun acc i => match indexers !! instance_id_ i with None => acc | Some d => u64 (acc + usage d) end) a infos =
  a + sum_usage usage infos indexers.
Proof.
  revert a. induction infos as [|i infos IH]; intros a Ha Hs; simpl in *; [lia|].
  pose proof (sum_usage_nonneg infos). destruct (indexers !! _) as [d|] eqn:E; simpl in *.
  - pose proof (nonneg _ _ E). rewrite u64_small by (unfold is_u64; lia). rewrite IH; lia.
  - rewrite IH; lia.
Qed.

Lemma saturating_fold infos a :
  0 <= a -> a + sum_usage usage infos indexers < 2 ^ 64 ->
  Forall (fun i => is_Some (indexers !! instance_id_ i)) infos ->
  foldl (fun acc i => sum ← acc; d ← indexers !! instance_id_ i; Some (saturating_add sum (usage d))) (Some a) infos =
  Some (a + sum_usage usage infos indexers).
Proof.
  revert a. induction infos as [|i infos IH]; intros a Ha Hs Hall; csimpl in *; [f_equal; lia|].
  apply Forall_cons in Hall as [[d Hd] Hall]. pose proof (sum_usage_nonneg infos). rewrite Hd in *. csimpl in *.
  pose proof (nonneg _ _ Hd). unfold saturating_add, u64_max.
  rewrite (proj2 (Z.ltb_ge _ _)) by lia. rewrite IH; [f_equal; lia|lia|lia|done].
Qed.
End sums.

Lemma GetStorageUsage_nonneg d : 0 <= GetStorageUsage d.
Proof.
  unfold GetStorageUsage. generalize (zip all_storage_types d) as l.
  assert (H : forall l a, 0 <= a ->
    0 <= foldl (fun acc '(type, v) => if counted_type type then u64 (acc + v) else acc) a l).
  { induction l as [|[ty v] l IH]; intros a Ha; simpl; [done|]. apply IH. case_match; [apply u64_range|done]. }
  intros l. by apply H.
Qed.

Lemma GetStorageUsageByType_nonneg type d : wf_usage d -> 0 <= GetStorageUsageByType type d.
Proof.
  intros [_ Hu]. unfold GetStorageUsageByType. case_match; [done|].
  destruct (d !! _) as [v|] eqn:E; simpl; [|done]. eapply Forall_lookup_1 in E; [|exact Hu]. apply E.
Qed.

Lemma sum_usage_base type infos indexers :
  sum_usage (GetStorageUsageByType (ToBaseType type)) infos indexers =
  sum_usage (GetStorageUsageByType type) infos indexers.
Proof.
  induction infos as [|i l IH]; simpl; [done|]. rewrite IH. f_equal.
  destruct (indexers !! _); simpl; [|done]. apply GetStorageUsageByType_base.
Qed.

Section agree.
Context {T : Type} (reg : RegistryManager (T := T)) (indexers : Indexers) (group : string) (ig : InstanceGroup).
Let infos := (ListInstanceInfo group reg).2.
Hypothesis Hgroup : instance_group_configs_ reg !! group = Some ig.
Hypothesis Hname : group <> EmptyString.
Hypothesis Hindexed : Forall (fun i => is_Some (indexers !! instance_id_ i)) infos.
Hypothesis Hwf : map_Forall (fun _ d => wf_usage d) indexers.
Hypothesis Htotal : sum_usage GetStorageUsage infos indexers < 2 ^ 64.
Hypothesis Htypes : forall type, sum_usage (GetStorageUsageByType type) infos indexers < 2 ^ 64.

Lemma group_used : CalcGroupUsedSize infos indexers = sum_usage GetStorageUsage infos indexers /\
  saturating_sum GetStorageUsage infos indexers = Some (sum_usage GetStorageUsage infos indexers).
Proof.
  unfold CalcGroupUsedSize, saturating_sum. split.
  - rewrite wrapping_fold; [done|intros; apply GetStorageUsage_nonneg|done|done].
  - rewrite saturating_fold; [done|intros; apply GetStorageUsage_nonneg|done|done|done].
Qed.

Lemma type_sums type : type_used type infos indexers = sum_usage (GetStorageUsageByType type) infos indexers /\
  saturating_sum (GetStorageUsageByType (ToBaseType type)) infos indexers =
    Some (sum_usage (GetStorageUsageByType type) infos indexers).
Proof.
  assert (Hn : forall ty id d, indexers !! id = Some d -> 0 <= GetStorageUsageByType ty d)
    by (intros; by eapply GetStorageUsageByType_nonneg, Hwf).
  unfold type_used, saturating_sum. split.
  - rewrite wrapping_fold; [done|apply Hn|done|apply Htypes].
  - rewrite saturating_fold; [|apply Hn|done|apply Htypes|done]. by rewrite sum_usage_base.
Qed.

Hypothesis Hcap : Forall (fun q => 0 <= q_capacity q < 2 ^ 63) (g_quota_config (quota_ ig)).

Lemma type_quotas_agree type :
  type_quota_exceeded (quota_ ig) infos indexers type =
  existsb (quota_reached_for type infos indexers) (g_quota_config (quota_ ig)).
Proof.
  unfold type_quota_exceeded. destruct (type_sums type) as [E1 E2]. rewrite E2. simpl.
  induction Hcap as [|q qs Hq Hqs IH]; simpl; [done|]. rewrite IH by done. f_equal. unfold quota_reached_for.
  rewrite E1, u64_small by (unfold is_u64; lia). rewrite (proj2 (Z.ltb_ge (q_capacity q) 0)) by lia. simpl.
  f_equal. case_bool_decide as Hb.
  - rewrite Hb. apply Nat.eqb_refl.
  - apply Nat.eqb_neq. intros Hi. by apply (inj ToIndex) in Hi.
Qed.

(** Explicit admission agrees with selection. When every instance of the
    group has an indexer, no sum of usages reaches 2^64 and the quotas are
    not negative, an explicitly named target of an enabled type is admitted
    exactly when the storage is available, the group's quota is not reached
    and no quota of its type is reached, as selection computes them; the
    results are positional. *)
Theorem explicit_admission_agrees targets i n b :
  targets !! i = Some n -> data_storage_manager_ reg !! n = Some b ->
  avail_default (ToBaseType (GetType b)) = true ->
  exists a, CheckExplicitWriteTargets group targets reg indexers !! i = Some a /\ ad_type a = GetType b /\
    (ad_status a = kAllowed <->
       Available b = true /\
       group_quota_reached (quota_ ig) (CalcGroupUsedSize infos indexers) = false /\
       within_quota (quota_ ig) infos indexers (GetType b) = true).
Proof.
  intros Hi Hb Hav. unfold CheckExplicitWriteTargets, GetInstanceGroup. rewrite bool_decide_eq_false_2 by done.
  rewrite Hgroup. unfold ListInstanceInfo. fold infos. simpl.
  change (filter _ _) with infos. destruct group_used as [-> ->].
  rewrite list_lookup_fmap, Hi. eexists. split; [reflexivity|].
  unfold admit_target, GetDataStorageBackend. rewrite Hb.
  rewrite (proj2 (Nat.leb_gt _ _) (ToIndex_lt (ToBaseType (GetType b)))).
  rewrite type_quotas_agree. unfold within_quota. rewrite Hav. simpl.
  destruct (Available b); simpl; [|split; [done|split; [done|by intros []]]].
  destruct (group_quota_reached _ _); simpl; [split; [done|split; [done|by intros (_ & ? & _)]]|].
  destruct (existsb _ _); simpl; [split; [done|split; [done|by intros (_ & _ & ?)]]|]. done.
Qed.
End agree.

(** With a negative quota the two differ: selection converts it to a huge
    unsigned capacity and never finds it reached, explicit admission treats it
    as always reached. *)
Lemma negative_quota_differs (infos : list InstanceInfo) (indexers : Indexers) cap type :
  (-(2 ^ 63) <= cap < 0) -> type_used type infos indexers < 2 ^ 63 ->
  let quota := mkGroupQuota 1000 [mkQuotaConfig cap type] in
  within_quota quota infos indexers type = avail_default (ToBaseType type) /\
  type_quota_exceeded quota infos indexers type = true.
Proof.
  intros Hc Hu quota. unfold within_quota, quota_reached_for, type_quota_exceeded. simpl. split.
  - rewrite bool_decide_eq_true_2 by done. simpl.
    assert (E : (u64 cap <=? type_used type infos indexers) = false).
    { apply Z.leb_gt. unfold u64. replace (cap mod 2 ^ 64) with (cap + 2 ^ 64); [lia|].
      apply (Z.mod_unique_pos _ _ (-1)); lia. }
    rewrite E. simpl. by rewrite andb_true_r.
  - rewrite Nat.eqb_refl. rewrite (proj2 (Z.ltb_lt cap 0)) by lia. done.
Qed.

(** ** Examples *)

(** Two NFS storages and a 3FS one that is disabled; one instance that uses 70
    bytes of NFS and 20 of 3FS. *)
Definition example_reg : RegistryManager (T := unit) :=
  mkRegistry
    {[ "nfs_a" := mkBackend (mkStorageConfig DATA_STORAGE_TYPE_NFS "nfs_a" (Some (NfsStorageSpec "/" 1)) false true) true;
       "nfs_b" := mkBackend (mkStorageConfig DATA_STORAGE_TYPE_NFS "nfs_b" (Some (NfsStorageSpec "/" 1)) false true) true;
       "fs" := mkBackend (mkStorageConfig DATA_STORAGE_TYPE_HF3FS "fs" (Some (ThreeFSStorageSpec "" "/mnt" "fs" 1 false)) false true) false ]}
    {[ "g" := mkGroup "g" ["fs"; "nfs_b"; "nfs_a"] "" (mkGroupQuota 1000 [mkQuotaConfig 100 DATA_STORAGE_TYPE_NFS])
                (Some CPS_PREFER_3FS) 1 "" ]}
    {[ "i" := mkInfo "" "g" "i" 128 [] no_deployment [] 0 ]} ∅ tt true.

Definition example_indexers : Indexers := {[ "i" := [0; 20; 0; 0; 70; 0; 0; 0; 0; 0] ]}.

Definition example_ig : InstanceGroup :=
  default (mkGroup "" [] "" (mkGroupQuota 0 []) None 0 "") (instance_group_configs_ example_reg !! "g").

Lemma write_storage_selected_witness :
  let r := SelectCacheWriteDataStorageBackend "g" example_reg example_indexers in
  sel_ec r = EC_OK /\ exists b, admissible example_reg example_indexers "g" example_ig b /\ sel_name r = backend_name b.
Proof.
  intros r.
  pose proof (write_storage_selected example_reg example_indexers "g" example_ig eq_refl) as [_ H].
  assert (Hr : sel_ec r = EC_OK) by (vm_compute; reflexivity).
  split; [exact Hr|]. destruct (H Hr) as (b & Hb & Hn & _). exists b. split; [exact Hb|exact Hn].
Defined.

Lemma explicit_admission_agrees_witness :
  exists a, CheckExplicitWriteTargets "g" ["nfs_a"] example_reg example_indexers !! 0%nat = Some a /\
    ad_status a = kAllowed.
Proof.
  destruct (data_storage_manager_ example_reg !! "nfs_a") as [b|] eqn:Hb; [|vm_compute in Hb; discriminate].
  assert (Hb' := Hb). vm_compute in Hb'. injection Hb' as Hb'.
  destruct (explicit_admission_agrees example_reg example_indexers "g" example_ig eq_refl) with
    (targets := ["nfs_a"]) (i := 0%nat) (n := "nfs_a") (b := b) as (a & Ha & _ & Hiff).
  - discriminate.
  - apply Forall_singleton. eexists. vm_compute. reflexivity.
  - apply map_Forall_singleton. split; [reflexivity|].
    repeat (constructor; [unfold is_u64; lia|]); constructor.
  - vm_compute. reflexivity.
  - intros type. destruct type; vm_compute; reflexivity.
  - apply Forall_singleton. simpl. lia.
  - reflexivity.
  - exact Hb.
  - rewrite <-Hb'. reflexivity.
  - exists a. split; [exact Ha|]. apply Hiff. rewrite <-Hb'.
    split; [reflexivity|]. split; [vm_compute; reflexivity|vm_compute; reflexivity].
Defined.
