(* ===== verification/WriteFilter.v ===== *)
(** * WriteFilter: which blocks of a request must be written

    The first half of [CacheManager::StartWriteCache]
    ([manager/cache_manager.cc]): the checks on a request's spec groups, the
    coverage of a storage by a block's locations, the targets of migration
    marks, and the two filters that decide block by block whether a write is
    needed and describe the answer as a mask and a list of keys. The answers
    of the migration manager to a mark query are an argument, and so is
    whether the group has migration strategies. *)

From stdpp Require Import base gmap sets list strings sorting.
From Stdlib Require Import ZArith Lia.
From S2P Require Import Prelude StandardUri MetaTypes MetaBackend DummyBackend LocalBackend BackendManager MetaIndexer LocationPolicy MetaMatch StorageManager Registry StorageSelect.

(** ** Groups of specs *)

(** [std::lower_bound] on a range sorted by name: the first element whose
    name is not less. *)
Fixpoint lower_bound {A} (key : A -> string) (l : list A) (v : string) : option A :=
  match l with
  | [] => None
  | x :: l => if chars_ltb (chars_of (key x)) (chars_of v) then lower_bound key l v else Some x
  end.

(** The element found, when it has the name searched for. *)
Definition find_sorted {A} (key : A -> string) (l : list A) (v : string) : option A :=
  match lower_bound key l v with
  | Some x => if bool_decide (key x = v) then Some x else None
  | None => None
  end.

Definition find_group (groups : list LocationSpecGroup) (name : string) : option LocationSpecGroup :=
  find_sorted sg_name groups name.

Definition IsSpecNameInSpecGroup (spec_name group_name : string) (groups : list LocationSpecGroup)
    : ErrorCode * bool :=
  match find_group groups group_name with
  | None => (EC_ERROR, false)
  | Some group => (EC_OK, bool_decide (is_Some (find_sorted (fun s => s) (sg_spec_names group) spec_name)))
  end.

(** [CheckLocationSpecGroupNames]: one name per block, every name that is not
    empty registered. *)
Definition CheckLocationSpecGroupNames (info : option InstanceInfo) (key_count : nat) (group_names : list string)
    : ErrorCode :=
  if negb (key_count =? length group_names)%nat then EC_ERROR
  else match info with
       | None => EC_OK
       | Some info =>
           if forallb (fun g => bool_decide (g = "") || bool_decide (is_Some (find_group (location_spec_groups_ info) g)))
                group_names
           then EC_OK else EC_BADARGS
       end.

(** [BuildAllLocationSpecNames]. *)
Definition BuildAllLocationSpecNames (info : option InstanceInfo) : list string :=
  match info with Some i => si_name <$> location_spec_infos_ i | None => [] end.

(** ** Coverage of a storage *)

Definition spec_on_storage (storage_name : string) (s : LocationSpec) : bool :=
  let uri := (Parse (chars_of (uri s))).1 in
  Valid uri && bool_decide (hostname_ uri = chars_of storage_name).

Definition LocationHasSpecOnStorage (l : CacheLocation) (storage_name : string) : bool :=
  existsb (spec_on_storage storage_name) (location_specs l).

(** [CollectCoveredSpecNames]. *)
Definition CollectCoveredSpecNames (m : CacheLocationMap) (storage_name : string)
    (statuses : list CacheLocationStatus) (exclude_loc_ids : list LocationId) : gset string :=
  list_to_set (map_to_list m ≫= fun kv =>
    match kv.2 with
    | Some l =>
        if bool_decide (status l ∈ statuses) && negb (bool_decide (kv.1 ∈ exclude_loc_ids))
        then name <$> filter (fun s => spec_on_storage storage_name s = true) (location_specs l)
        else []
    | None => []
    end).

Definition HasServingOrWritingLocOnStorage (m : CacheLocationMap) (storage_name : string)
    (requested_spec_names : list string) (exclude_loc_ids : list LocationId) : bool :=
  let covered := CollectCoveredSpecNames m storage_name [CLS_SERVING; CLS_WRITING] exclude_loc_ids in
  match requested_spec_names with
  | [] => negb (bool_decide (covered = ∅))
  | _ => forallb (fun n => bool_decide (n ∈ covered)) requested_spec_names
  end.

Definition LocationsCoverFullBlockOnStorage (m : CacheLocationMap) (storage_name : string)
    (info : option InstanceInfo) : bool :=
  match info with
  | None => false
  | Some i =>
      match location_spec_infos_ i with
      | [] => false
      | infos =>
          forallb (fun si =>
            existsb (fun kv : Entry =>
              match kv.2 with
              | Some l => bool_decide (status l = CLS_SERVING) &&
                          existsb (fun s => bool_decide (name s = si_name si) && spec_on_storage storage_name s)
                            (location_specs l)
              | None => false
              end) (map_to_list m)) infos
      end
  end.

(** ** Migration marks *)

Inductive MarkQueryState := kNoMark | kValid | kExpired | kBlockNotFound | kMarkReadError.

Record MarkQueryResult := mkMark {
  mark_state : MarkQueryState;
  mark_ec : ErrorCode;
  mark_target : string;
  mark_deadline_ms : Z;
}.

Definition HasValidMark (m : MarkQueryResult) : bool :=
  match mark_state m with kValid => true | _ => false end.

Section targets.
Context {T : Type}.

(** The distinct targets of valid marks, in the order they appear. *)
Definition unique_targets (marks : list MarkQueryResult) : list string :=
  foldl (fun ts mark => if HasValidMark mark && negb (bool_decide (mark_target mark ∈ ts))
                        then ts ++ [mark_target mark] else ts) [] marks.

(** The admission of one mark; when the selector gave no answer for it, the
    backend is asked. *)
Definition mark_admission (targets : list string) (admissions : list StorageTargetAdmissionResult)
    (dsm : DataStorageManager) (mark : MarkQueryResult) : StorageTargetAdmissionResult :=
  match list_find (fun t => t = mark_target mark) targets ≫= (fun it => admissions !! it.1) with
  | Some admission => admission
  | None =>
      match GetDataStorageBackend (mark_target mark) dsm with
      | None => mkAdmission kNotFound EC_NOENT DATA_STORAGE_TYPE_UNKNOWN
      | Some b => if negb (Available b) then mkAdmission kUnavailable EC_NOENT DATA_STORAGE_TYPE_UNKNOWN
                  else mkAdmission kAllowed EC_OK (GetType b)
      end
  end.

(** [ResolveUsableTieredWriteTargets]: the target of every block (empty when
    it has none) and the marks to clear. *)
Definition ResolveUsableTieredWriteTargets (group : string) (keys : list KeyType) (marks : list MarkQueryResult)
    (reg : RegistryManager (T := T)) (indexers : Indexers) (count : nat)
    : list string * list (KeyType * MarkQueryResult) :=
  let rows := take count (zip keys marks) in
  let targets := unique_targets rows.*2 in
  let admissions := CheckExplicitWriteTargets group targets reg indexers in
  let admission := mark_admission targets admissions (data_storage_manager_ reg) in
  let allowed (mark : MarkQueryResult) := match ad_status (admission mark) with kAllowed => true | _ => false end in
  let missing (mark : MarkQueryResult) := match ad_status (admission mark) with kNotFound => true | _ => false end in
  let outs := (fun r : KeyType * MarkQueryResult =>
                 if HasValidMark r.2 && allowed r.2 then mark_target r.2 else "") <$> rows in
  (outs ++ replicate (count - length outs) "",
   filter (fun r => HasValidMark r.2 && missing r.2 = true) rows).

End targets.

(** ** The filters *)

(** The mask of the blocks to skip; key, group and target of the others. *)
Record FilterOut := mkFilterOut {
  f_mask : BlockMask;
  f_keys : list KeyType;
  f_groups : list string;
  f_targets : list string;
}.

(** The scan for the first write: its position ([n] when there is none) and
    whether the writes form a suffix. *)
Fixpoint scan_writes (n i first_write_idx : nat) (skip_write_flags : list bool) : nat * bool :=
  match skip_write_flags with
  | [] => (first_write_idx, true)
  | skip :: rest =>
      if negb skip then scan_writes n (S i) (if (first_write_idx =? n)%nat then i else first_write_idx) rest
      else if (first_write_idx =? n)%nat then scan_writes n (S i) first_write_idx rest
      else (first_write_idx, false)
  end.

(** The elements whose flag is not set. *)
Definition unskipped {A} (flags : list bool) (l : list A) : list A :=
  (filter (fun fx => fx.1 = false) (zip flags l)).*2.

(** The tail of both filters. *)
Definition split_writes (flags : list bool) (keys : list KeyType) (groups targets : list string) : FilterOut :=
  let n := length flags in
  let '(first_write_idx, writes_form_suffix) := scan_writes n 0 n flags in
  if writes_form_suffix
  then mkFilterOut (BlockMaskOffset first_write_idx) (drop first_write_idx keys) (drop first_write_idx groups)
         (drop first_write_idx targets)
  else mkFilterOut (BlockMaskVector flags) (unskipped flags keys) (unskipped flags groups) (unskipped flags targets).

(** [requestedSpecNames]: [None] when the block names no group. *)
Definition requestedSpecNames (info : option InstanceInfo) (groups : list string) (i : nat) : option (list string) :=
  match info, groups !! i with
  | Some info, Some g =>
      if bool_decide (g = "") then None else sg_spec_names <$> find_group (location_spec_groups_ info) g
  | _, _ => None
  end.

Section blocks.
Variable weight : Entry -> Z.
Variable check : CheckLocDataExistFunc.
Variables (info : option InstanceInfo) (groups : list string).

(** One block of [FilterWriteCache]: skip flag and locations to prune. *)
Definition filter_block (i : nat) (m : CacheLocationMap) (target : string) : bool * list LocationId :=
  let '(skip, prune_loc_ids) :=
    match requestedSpecNames info groups i with
    | None => ExistsForWrite weight check m
    | Some names => ExistsForWriteSpecs weight names check m
    end in
  if bool_decide (target = "") then (skip, prune_loc_ids)
  else
    let names := match requestedSpecNames info groups i with
                 | Some names => names
                 | None => BuildAllLocationSpecNames info
                 end in
    (HasServingOrWritingLocOnStorage m target names prune_loc_ids, prune_loc_ids).

(** One block of [FilterWriteCacheWithMinReplica]; a target that is covered
    already is dropped. *)
Definition filter_block_min (min_replica_count : Z) (i : nat) (m : CacheLocationMap) (target : string)
    : (bool * list LocationId) * string :=
  let names := default [] (requestedSpecNames info groups i) in
  let '(skip, prune_loc_ids) := ExistsForWriteWithMinCount weight min_replica_count names check m in
  if bool_decide (target = "") then ((skip, prune_loc_ids), "")
  else
    let names := match names with [] => BuildAllLocationSpecNames info | _ => names end in
    if HasServingOrWritingLocOnStorage m target names prune_loc_ids then ((skip, prune_loc_ids), "")
    else ((false, prune_loc_ids), target).

(** Flags, locations to prune and target of every block. *)
Definition filter_blocks (min_replica_count : Z) (maps : list CacheLocationMap) (targets : list string)
    : list ((bool * list LocationId) * string) :=
  imap (fun i mt => if (1 <? min_replica_count)%Z then filter_block_min min_replica_count i mt.1 mt.2
                    else (filter_block i mt.1 mt.2, mt.2)) (zip maps targets).

End blocks.

(** A deletion handed to the reclaimer's supervisor (its other fields keep
    their defaults here: no delay, no expected values, data deleted too). *)
Record CacheLocationDelRequest := mkDelRequest {
  del_instance_id : string;
  del_block_keys : list KeyType;
  del_location_ids : list (list LocationId);
}.

Section filter.
Context {PT CT T : Type} `{PB : !MetaStorageBackend PT} `{CB : !MetaCacheBaseBackend CT}.
Local Abbreviation Indexer := (MetaIndexer PT CT).

(** The registry as [genSelectLocationPolicy] reads it. *)
Definition storage_view (reg : RegistryManager (T := T)) (instance_id : string) : StorageView :=
  let dsm := data_storage_manager_ reg in
  mkStorageView (GetAllStorageNames dsm) (fun n => GetType <$> GetDataStorageBackend n dsm)
    ((fun b => (backend_name b, GetType b)) <$> GetAvailableStorages dsm)
    (info ← GetInstanceInfo instance_id reg;
     storage_candidates_ <$> (GetInstanceGroup (instance_group_name_ info) reg).2).

(** The pruned locations, as submitted. *)
Definition prune_request (instance_id : string) (keys : list KeyType) (blocks : list ((bool * list LocationId) * string))
    : list CacheLocationDelRequest :=
  match filter (fun kb : KeyType * list LocationId => kb.2 <> []) (zip keys (snd <$> blocks.*1)) with
  | [] => []
  | rows => [mkDelRequest instance_id rows.*1 rows.*2]
  end.

(** [FilterWriteCache] and [FilterWriteCacheWithMinReplica]: the answer, the
    deletions submitted and the marks cleared. *)
Definition FilterWriteCache (instance_id : string) (keys : list KeyType) (groups : list string)
    (min_replica_count : Z) (check : CheckLocDataExistFunc) (tiered_migration_enabled : bool)
    (marks : list MarkQueryResult) (reg : RegistryManager (T := T)) (indexers : Indexers)
    (store : PolicyStore) (x : Indexer)
    : (ErrorCode * FilterOut) * (list CacheLocationDelRequest * list (KeyType * MarkQueryResult)) * PolicyStore * Indexer :=
  let nothing := mkFilterOut (BlockMaskOffset 0) [] [] [] in
  let '(location_maps, x) := BatchGetLocation keys (BlockMaskOffset 0) x in
  let '(policy, store) := genSelectLocationPolicy (storage_view reg instance_id) store in
  match policy with
  | None => ((EC_ERROR, nothing), ([], []), store, x)
  | Some policy =>
      let info := GetInstanceInfo instance_id reg in
      let '(targets, cleared) :=
        match info with
        | Some i =>
            if tiered_migration_enabled
            then ResolveUsableTieredWriteTargets (instance_group_name_ i) keys marks reg indexers (length location_maps)
            else (replicate (length location_maps) "", [])
        | None => (replicate (length location_maps) "", [])
        end in
      let blocks := filter_blocks (GetWeight store policy) check info groups min_replica_count location_maps targets in
      ((EC_OK, split_writes (fst <$> blocks.*1) keys groups blocks.*2),
       (prune_request instance_id keys blocks, cleared), store, x)
  end.

End filter.

(** ** Sorted searches *)

Definition name_le {A} (key : A -> string) (a b : A) : Prop :=
  chars_ltb (chars_of (key b)) (chars_of (key a)) = false.

(** On a sorted range the search finds a name exactly when it is there. *)
Lemma find_sorted_spec {A} (key : A -> string) l v :
  StronglySorted (name_le key) l ->
  match find_sorted key l v with
  | Some x => x ∈ l /\ key x = v
  | None => Forall (fun x => key x <> v) l
  end.
Proof.
  unfold find_sorted. induction 1 as [|x l Hs IH Hall]; simpl; [constructor|].
  destruct (chars_ltb (chars_of (key x)) (chars_of v)) eqn:Ex.
  - assert (Hx : key x <> v) by (intros Hx; by rewrite Hx, ltb_irrefl in Ex).
    destruct (lower_bound key l v) as [y|]; [case_bool_decide|]; [destruct IH; split; [by right|done]|by constructor..].
  - case_bool_decide as Hk; [split; [left|done]|]. constructor; [done|].
    eapply Forall_impl; [exact Hall|]. intros y Hy Heq. subst v. apply Hk. apply chars_of_inj.
    by apply (ltb_total (ltb := chars_ltb)).
Qed.

(** ** Masks and flags *)

Lemma scan_writes_spec flags : forall n i first f s,
  n = i + length flags -> first <= n -> (first = n \/ first < i) -> scan_writes n i first flags = (f, s) ->
  if (first =? n)%nat
  then if s then i <= f <= n /\ flags = replicate (f - i) true ++ replicate (n - f) false
       else exists j k, j < k /\ flags !! j = Some false /\ flags !! k = Some true
  else if s then f = first /\ Forall (eq false) flags else true ∈ flags.
Proof.
  induction flags as [|b flags IH]; intros n i first f s Hn Hle Hf Hrun; simpl in Hn, Hrun.
  { injection Hrun as <- <-. destruct (Nat.eqb_spec first n); [|done]. split; [lia|].
    replace (first - i) with 0 by lia. by replace (n - first) with 0 by lia. }
  destruct b; simpl in Hrun; destruct (Nat.eqb_spec first n) as [->|Hne].
  - apply IH in Hrun; [|lia..]. rewrite Nat.eqb_refl in Hrun. destruct s.
    + destruct Hrun as [? ->]. split; [lia|]. by replace (f - i) with (S (f - S i)) by lia.
    + destruct Hrun as (j & k & ? & ? & ?). exists (S j), (S k). split_and!; [lia|done|done].
  - simplify_eq. left.
  - apply IH in Hrun; [|lia..]. destruct (Nat.eqb_spec i n); [lia|]. destruct s.
    + destruct Hrun as [-> Hall]. split; [lia|]. rewrite Nat.sub_diag. simpl.
      replace (n - i) with (S (length flags)) by lia. simpl. f_equal. symmetry. by apply replicate_as_Forall.
    + apply list_elem_of_lookup in Hrun as (k & Hk). exists 0, (S k). split_and!; [lia|done|done].
  - apply IH in Hrun; [|lia..]. rewrite (proj2 (Nat.eqb_neq _ _) Hne) in Hrun. destruct s.
    + destruct Hrun as [-> ?]. split; [done|]. by constructor.
    + by right.
Qed.

(** The elements outside a mask. *)
Definition unmasked {A} (mask : BlockMask) (l : list A) : list A :=
  (filter (fun ix => IsIndexInMaskRange mask ix.1 = false) (imap pair l)).*2.

Lemma unskipped_unmasked {A} flags (l : list A) :
  length l <= length flags -> unskipped flags l = unmasked (BlockMaskVector flags) l.
Proof.
  unfold unskipped, unmasked. intros Hl.
  assert (Hg : forall (pre flags : list bool) (l : list A), length l <= length flags ->
    (filter (fun fx => fx.1 = false) (zip flags l)).*2 =
    (filter (fun ix => IsIndexInMaskRange (BlockMaskVector (pre ++ flags)) ix.1 = false)
      (imap (fun i x => (length pre + i, x)) l)).*2).
  { clear. intros pre flags. revert pre. induction flags as [|b flags IH]; intros pre [|x l] Hl; try done; [simpl in Hl; lia|].
    simpl in Hl. cbn [zip zip_with imap]. rewrite !filter_cons, Nat.add_0_r. simpl fst.
    assert (Hb : IsIndexInMaskRange (BlockMaskVector (pre ++ b :: flags)) (length pre) = b).
    { simpl. rewrite length_app. simpl. rewrite (proj2 (Nat.ltb_lt _ _)) by lia.
      by rewrite list_lookup_middle. }
    rewrite Hb. specialize (IH (pre ++ [b]) l ltac:(lia)). rewrite <-app_assoc in IH. simpl in IH.
    assert (Him : imap ((fun i x => (length pre + i, x)) ∘ S) l = imap (fun i x => (length (pre ++ [b]) + i, x)) l).
    { apply imap_ext. intros i y _. simpl. rewrite length_app. simpl. f_equal. lia. }
    rewrite Him. destruct b; [rewrite !decide_False by done|rewrite !decide_True by done]; csimpl; by rewrite IH. }
  rewrite (Hg [] flags l Hl). done.
Qed.

Lemma filter_agree {A} (P Q : A -> Prop) `{!forall x, Decision (P x)} `{!forall x, Decision (Q x)} (l : list A) :
  (forall x, x ∈ l -> P x <-> Q x) -> filter P l = filter Q l.
Proof.
  induction l as [|x l IH]; intros Hpq; [done|]. rewrite !filter_cons.
  assert (Hx : P x <-> Q x) by (apply Hpq; left). rewrite IH by (intros y Hy; apply Hpq; by right).
  destruct (decide (P x)), (decide (Q x)); tauto || done.
Qed.

Lemma unmasked_ext {A} m1 m2 (l : list A) :
  (forall i, i < length l -> IsIndexInMaskRange m1 i = IsIndexInMaskRange m2 i) -> unmasked m1 l = unmasked m2 l.
Proof.
  intros Hm. unfold unmasked. f_equal. apply filter_agree. intros [i x] (j & Hj)%list_elem_of_lookup.
  rewrite list_lookup_imap in Hj. destruct (l !! j) as [y|] eqn:Ey; simplify_eq/=.
  rewrite Hm; [done|]. by eapply lookup_lt_Some.
Qed.

Lemma unmasked_offset {A} f (l : list A) : unmasked (BlockMaskOffset f) l = drop f l.
Proof.
  unfold unmasked. assert (Hg : forall n, (filter (fun ix => IsIndexInMaskRange (BlockMaskOffset f) ix.1 = false)
    (imap (fun i x => (n + i, x)) l)).*2 = drop (f - n) l).
  { induction l as [|x l IH]; intros n; [by rewrite drop_nil|]. cbn [imap]. rewrite filter_cons, Nat.add_0_r. simpl fst.
    assert (Him : imap ((fun i x => (n + i, x)) ∘ S) l = imap (fun i x => (S n + i, x)) l)
      by (apply imap_ext; intros; simpl; f_equal; lia). rewrite Him.
    change (IsIndexInMaskRange (BlockMaskOffset f) n) with (n <? f)%nat.
    destruct (Nat.ltb_spec n f) as [Hlt|Hge].
    - rewrite decide_False by done. etrans; [apply (IH (S n))|]. by replace (f - n) with (S (f - S n)) by lia.
    - rewrite decide_True by done. replace (f - n) with 0 by lia. rewrite drop_0. csimpl. f_equal.
      etrans; [apply (IH (S n))|]. by replace (f - S n) with 0 by lia. }
  specialize (Hg 0). rewrite Nat.sub_0_r in Hg. exact Hg.
Qed.

Lemma unmasked_snoc {A} mask (l : list A) x :
  unmasked mask (l ++ [x]) = unmasked mask l ++ if IsIndexInMaskRange mask (length l) then [] else [x].
Proof.
  unfold unmasked. rewrite imap_app, filter_app, fmap_app. f_equal. simpl. rewrite Nat.add_0_r, filter_cons.
  simpl fst. by destruct (IsIndexInMaskRange mask (length l)).
Qed.

(** What is outside a mask depends only on the elements outside it. *)
Lemma unmasked_agree {A} mask (l l' : list A) :
  length l = length l' -> (forall i, IsIndexInMaskRange mask i = false -> l !! i = l' !! i) ->
  unmasked mask l = unmasked mask l'.
Proof.
  revert l'. induction l as [|x l IH] using rev_ind; intros l' Hl Hi; [by destruct l'|].
  destruct l' as [|y l' _] using rev_ind; rewrite !length_app in Hl; simpl in Hl; [lia|].
  assert (Hll : length l = length l') by lia. rewrite !unmasked_snoc, Hll. f_equal.
  - apply IH; [done|]. intros i Hm. specialize (Hi i Hm). destruct (decide (i < length l)) as [Hlt|Hge].
    + by rewrite !lookup_app_l in Hi by lia.
    + rewrite !lookup_ge_None_2 by lia. done.
  - destruct (IsIndexInMaskRange mask (length l')) eqn:Em; [done|]. specialize (Hi _ Em).
    rewrite <-Hll in Hi at 1. rewrite !list_lookup_middle in Hi by done. by simplify_eq.
Qed.

Lemma query_keys_unmasked keys mask : query_keys keys mask = unmasked mask keys.
Proof. done. Qed.

(** The mask stands for the flags, and the lists are what is outside it. *)
Lemma split_writes_spec flags keys groups targets :
  length keys = length flags -> length groups <= length flags -> length targets = length flags ->
  let out := split_writes flags keys groups targets in
  IsBlockMaskValid (f_mask out) (length keys) = true /\
  (forall i b, flags !! i = Some b -> IsIndexInMaskRange (f_mask out) i = b) /\
  f_keys out = unmasked (f_mask out) keys /\ f_groups out = unmasked (f_mask out) groups /\
  f_targets out = unmasked (f_mask out) targets.
Proof.
  intros Hk Hg Ht. unfold split_writes. destruct (scan_writes _ _ _ _) as [f s] eqn:E.
  apply scan_writes_spec in E; [|lia..|by left]. rewrite Nat.eqb_refl in E. destruct s; simpl.
  - destruct E as [Hf Hfl]. rewrite Nat.sub_0_r in Hfl. rewrite !unmasked_offset. split_and!; try done.
    + apply Nat.leb_le. lia.
    + intros i b Hi. rewrite Hfl in Hi. destruct (Nat.ltb_spec i f).
      * rewrite lookup_app_l in Hi by (rewrite length_replicate; lia). by apply lookup_replicate in Hi as [-> _].
      * rewrite lookup_app_r in Hi by (rewrite length_replicate; lia). by apply lookup_replicate in Hi as [-> _].
  - rewrite !unskipped_unmasked by lia. split_and!; try done; [by apply Nat.eqb_eq|].
    intros i b Hi. rewrite (proj2 (Nat.ltb_lt _ _)) by (by eapply lookup_lt_Some). by rewrite Hi.
Qed.

(** ** What the filters decide *)

Section reference.
Variable weight : Entry -> Z.
Variable check : CheckLocDataExistFunc.
Variables (info : option InstanceInfo) (groups : list string) (min_replica_count : Z).

(** The specs a target storage must hold. *)
Definition target_names (i : nat) : list string :=
  match requestedSpecNames info groups i with
  | Some names => if (1 <? min_replica_count)%Z && bool_decide (names = []) then BuildAllLocationSpecNames info else names
  | None => BuildAllLocationSpecNames info
  end.

(** Is the block's target storage covered by its live locations? *)
Definition target_covered (i : nat) (m : CacheLocationMap) (target : string) : bool :=
  HasServingOrWritingLocOnStorage m target (target_names i) (prune_loc_ids check m).

(** Enough locations hold the requested specs, and a migration target, if
    there is one, holds them too (a single replica on the target is enough
    when one is asked for). *)
Definition block_satisfied (i : nat) (m : CacheLocationMap) (target : string) : bool :=
  let names := default [] (requestedSpecNames info groups i) in
  let enough := (Z.max 1 min_replica_count <=? Z.of_nat (written_count weight names check m))%Z in
  if bool_decide (target = "") then enough
  else (if (1 <? min_replica_count)%Z then enough else true) && target_covered i m target.

(** Where a block is written: its target unless that is covered. *)
Definition block_target (i : nat) (m : CacheLocationMap) (target : string) : string :=
  if bool_decide (target = "") || target_covered i m target then "" else target.

(** The data of a location, as the check sees it. *)
Definition data_present (l : CacheLocation) : bool := match check with Some exists_data => exists_data l | None => true end.

(** A stored location that covers the named specs: of any status but
    [CLS_NOT_FOUND], or only the serving ones; those that serve must have
    their data, and the policy must give the location some weight. *)
Definition is_copy (serving_only : bool) (names : list string) (kv : Entry) : bool :=
  match kv.2 with
  | Some l =>
      (if bool_decide (status l = CLS_SERVING) then data_present l
       else negb serving_only && negb (bool_decide (status l = CLS_NOT_FOUND))) &&
      (0 <? weight kv)%Z && forallb (fun n => existsb (fun s => bool_decide (name s = n)) (location_specs l)) names
  | None => false
  end.

Definition copies (serving_only : bool) (names : list string) (m : CacheLocationMap) : Z :=
  Z.of_nat (length (filter (fun kv => is_copy serving_only names kv = true) (map_to_list m))).

(** A location that a storage can be read from, or soon will be. *)
Definition live (l : CacheLocation) : Prop :=
  status l = CLS_WRITING \/
  (status l = CLS_SERVING /\ (data_present l = true \/ IsEventReportStorageType (type l) = true)).

(** A storage holds the named specs in live locations (any spec, when none is
    named). *)
Definition held_on (storage_name : string) (names : list string) (m : CacheLocationMap) : Prop :=
  let held (p : LocationSpec -> Prop) := exists lid l s, m !! lid = Some (Some l) /\ live l /\ s ∈ location_specs l /\
    spec_on_storage storage_name s = true /\ p s in
  match names with [] => held (fun _ => True) | _ => forall n, n ∈ names -> held (fun s => name s = n) end.

(** What the answer on a block means ([skipped]: no write needed). *)
Definition filter_decision (i : nat) (m : CacheLocationMap) (target : string) (skipped : bool) : Prop :=
  let names := default [] (requestedSpecNames info groups i) in
  let needed := Z.max 1 min_replica_count in
  (target = "" -> names = [] -> skipped = (needed <=? copies false [] m)%Z) /\
  (target = "" -> (needed <= copies true names m)%Z -> skipped = true) /\
  (target = "" \/ (1 < min_replica_count)%Z -> skipped = true -> (needed <= copies false names m)%Z) /\
  (target <> "" -> skipped = true -> held_on target (target_names i) m) /\
  (target <> "" -> (min_replica_count <= 1)%Z -> held_on target (target_names i) m -> skipped = true).

Lemma written_is_copy names kv : written weight names check kv = is_copy false names kv.
Proof.
  destruct kv as [i [l|]]; [|done]. unfold written, counts_for_write, is_copy, data_missing, data_present, covers_all. simpl.
  destruct (status l) eqn:Es, check as [f|]; simpl; try done; by destruct (f l).
Qed.

Lemma copies_le names m : (copies true names m <= copies false names m)%Z.
Proof.
  unfold copies. apply inj_le. induction (map_to_list m) as [|[i [l|]] kvs IH]; [done| |].
  - rewrite !filter_cons. destruct (decide (is_copy true names (i, Some l) = true)) as [H|H].
    + rewrite decide_True; [simpl; lia|]. unfold is_copy in *. simpl in *. by case_bool_decide.
    + destruct (decide _); simpl; lia.
  - rewrite !filter_cons. by rewrite !decide_False.
Qed.

Lemma live_kept m lid l :
  m !! lid = Some (Some l) -> status l ∈ [CLS_SERVING; CLS_WRITING] /\ lid ∉ prune_loc_ids check m <-> live l.
Proof.
  intros Hm. rewrite elem_of_prune. unfold live, data_missing, data_present. rewrite !elem_of_cons, elem_of_nil. split.
  - intros [[Hs|[Hs|[]]] Hn]; [right; split; [done|]|by left].
    destruct check as [f|]; [|by left]. destruct (f l) eqn:Ef; [by left|].
    destruct (IsEventReportStorageType _) eqn:Ee; [by right|]. destruct Hn. exists l. by rewrite Ef.
  - intros [Hs|(Hs & Hd)]; (split; [by eauto|]); intros (l' & Hl' & Hs' & Hmiss & He); simplify_eq; [by rewrite Hs in Hs'|].
    destruct check as [f|]; [|done]. apply negb_true_iff in Hmiss. destruct Hd; congruence.
Qed.

Lemma covered_spec m t n :
  n ∈ CollectCoveredSpecNames m t [CLS_SERVING; CLS_WRITING] (prune_loc_ids check m) <->
  exists lid l s, m !! lid = Some (Some l) /\ live l /\ s ∈ location_specs l /\ spec_on_storage t s = true /\ name s = n.
Proof.
  unfold CollectCoveredSpecNames. rewrite elem_of_list_to_set, list_elem_of_bind. split.
  - intros ([lid [l|]] & Hn & Hm%elem_of_map_to_list); simpl in Hn; [|by apply not_elem_of_nil in Hn].
    destruct (_ && _) eqn:E; [|by apply not_elem_of_nil in Hn]. reflect_bools.
    apply list_elem_of_fmap in Hn as (s & -> & Hs). apply list_elem_of_filter in Hs as [? ?].
    exists lid, l, s. split_and!; try done. by eapply live_kept.
  - intros (lid & l & s & Hm & Hl & Hs & Ht & <-). exists (lid, Some l). split; [|by apply elem_of_map_to_list].
    simpl. apply (live_kept _ _ _ Hm) in Hl as [Hst Hp]. rewrite (bool_decide_eq_true_2 _ Hst), (bool_decide_eq_false_2 _ Hp).
    simpl. apply list_elem_of_fmap. exists s. split; [done|]. by apply list_elem_of_filter.
Qed.

Lemma target_covered_spec i m t : target_covered i m t = true <-> held_on t (target_names i) m.
Proof.
  unfold target_covered, HasServingOrWritingLocOnStorage, held_on. cbv zeta. destruct (target_names i) as [|n ns].
  - rewrite negb_true_iff, bool_decide_eq_false. split.
    + intros Hne. apply set_choose_L in Hne as [n (lid & l & s & ? & ? & ? & ? & ?)%covered_spec]. by exists lid, l, s.
    + intros (lid & l & s & ? & ? & ? & ? & _) He. apply (not_elem_of_empty (C := gset string) (name s)). rewrite <-He.
      apply covered_spec. by exists lid, l, s.
  - rewrite forallb_forall. split.
    + intros Hall n' Hn'. apply covered_spec. by apply (bool_decide_eq_true_1 (_ ∈ _)), Hall, list_elem_of_In.
    + intros Hall n' Hn'. apply bool_decide_eq_true_2, covered_spec, Hall. by apply list_elem_of_In.
Qed.

Lemma block_satisfied_decision i m t :
  (forall kv, 0 <= weight kv)%Z -> filter_decision i m t (block_satisfied i m t).
Proof.
  intros Hw. unfold filter_decision, block_satisfied. set (names := default [] _).
  assert (Hc : Z.of_nat (written_count weight names check m) = copies false names m).
  { unfold written_count, copies. do 2 f_equal. apply filter_agree. intros kv _. by rewrite written_is_copy. }
  rewrite Hc. pose proof (copies_le names m) as Hle. split_and!.
  - intros -> ->. done.
  - intros -> Hs. rewrite bool_decide_eq_true_2 by done. apply Z.leb_le. lia.
  - intros Ht Hs. apply Z.leb_le. case_bool_decide as E; [done|]. destruct Ht as [|Ht]; [done|].
    rewrite (proj2 (Z.ltb_lt _ _) Ht) in Hs. by apply andb_true_iff in Hs as [? _].
  - intros Ht Hs. rewrite bool_decide_eq_false_2 in Hs by done. apply target_covered_spec. by apply andb_true_iff in Hs as [_ ?].
  - intros Ht Hm Hh. rewrite bool_decide_eq_false_2 by done. rewrite (proj2 (Z.ltb_ge _ _) Hm). by apply target_covered_spec.
Qed.

Lemma filter_blocks_spec maps targets i m t :
  (forall kv, 0 <= weight kv)%Z -> maps !! i = Some m -> targets !! i = Some t ->
  exists t', filter_blocks weight check info groups min_replica_count maps targets !! i =
    Some ((block_satisfied i m t, prune_loc_ids check m), t') /\
  (block_satisfied i m t = false -> t' = block_target i m t).
Proof.
  intros Hw Hm Ht. unfold filter_blocks. rewrite list_lookup_imap.
  assert (Hz : zip maps targets !! i = Some (m, t)) by (apply lookup_zip_with_Some; eauto). rewrite Hz. simpl.
  set (names := default [] (requestedSpecNames info groups i)).
  destruct (exists_for_write_counts weight min_replica_count names check m Hw) as (Hb & Hs & Hc).
  unfold block_satisfied, block_target, target_covered, target_names. fold names.
  destruct (Z.ltb_spec 1 min_replica_count) as [Hmin|Hmin].
  - unfold filter_block_min. fold names. rewrite Hc, Z.max_r by lia.
    case_bool_decide as Et; [by eexists|]. set (hs := HasServingOrWritingLocOnStorage _ _ _ _).
    match goal with |- context [HasServingOrWritingLocOnStorage m t ?l ?p] =>
      assert (Hn : HasServingOrWritingLocOnStorage m t l p = hs) end.
    { unfold hs, names, target_names. f_equal. destruct (requestedSpecNames info groups i) as [[|]|]; done. }
    rewrite Hn. destruct hs; eexists; (split; [by rewrite ?andb_true_r, ?andb_false_r|done]).
  - rewrite Z.max_l by lia. exists t. assert (He : forall n : nat, (0 <? n)%nat = (1 <=? Z.of_nat n)%Z).
    { intros n. destruct (Nat.ltb_spec 0 n), (Z.leb_spec 1 (Z.of_nat n)); lia || done. }
    unfold filter_block. rewrite Hb. unfold names in Hs |- *.
    destruct (requestedSpecNames info groups i) as [ns|].
    + change (default [] (Some ns)) with ns in *. rewrite Hs, He. case_bool_decide as Et; simpl; [by subst|]. split; [done|]. by intros ->.
    + rewrite He. case_bool_decide as Et; simpl; [by subst|]. split; [done|]. by intros ->.
Qed.

End reference.

(** ** The filter as a whole *)

Lemma genSelectLocationPolicy_nonneg v store policy store' :
  Forall (fun w => 0 <= w)%Z (default_storage_weights_ store) ->
  genSelectLocationPolicy v store = (Some policy, store') ->
  forall kv, (0 <= GetWeight store' policy kv)%Z.
Proof.
  intros Hst Hrun [i [l|]]; [|by destruct policy].
  assert (Hstat : forall st, Forall (fun w => 0 <= w)%Z (default_storage_weights_ st) ->
    (0 <= StaticGetWeight st (i, Some l))%Z).
  { intros st Hw. unfold StaticGetWeight. simpl. destruct (_ !! _) as [w|] eqn:E; simpl; [|lia].
    rewrite Forall_forall in Hw. apply Hw. by eapply list_elem_of_lookup_2. }
  unfold genSelectLocationPolicy in Hrun. destruct (_ <=? _)%nat; [simplify_eq; by apply Hstat|].
  destruct (storage_candidates v) as [cs|]; [|done]. destruct (_ <=? _)%nat; [simplify_eq; by apply Hstat|].
  destruct (group_available_storages v cs) as [|a av]; [done|]. case_bool_decide; simplify_eq/=.
  - apply Hstat. simpl. unfold available_weights. cbn [foldl].
    assert (Hg : forall l' ws, Forall (fun w => 0 <= w)%Z ws ->
      Forall (fun w => 0 <= w)%Z (foldl (fun w (b : string * DataStorageType) => <[ToIndex b.2 := 1%Z]> w) ws l')).
    { induction l' as [|b l' IH]; intros ws Hw; [done|]. simpl. apply IH. by apply Forall_insert. }
    apply Hg. apply Forall_insert; [|done]. by apply Forall_replicate.
  - unfold NamedGetWeight. simpl. destruct (location_specs l) as [|s ss]; [done|].
    destruct (_ !! _) as [w|] eqn:E; simpl; [|lia].
    assert (Hone : forall (L : list (string * DataStorageType)) k w,
      (list_to_map ((fun b => (chars_of b.1, 1%Z)) <$> L) : gmap chars Z) !! k = Some w -> (0 <= w)%Z).
    { intros L k w' Hk. apply elem_of_list_to_map_2, list_elem_of_fmap in Hk as (b & Heq & _). by simplify_eq. }
    by apply (Hone (a :: av)) in E.
Qed.

(** The (key, location) pairs of deletion requests. *)
Definition requested_deletes (reqs : list CacheLocationDelRequest) : list (KeyType * LocationId) :=
  reqs ≫= fun r => zip (del_block_keys r) (del_location_ids r) ≫= fun ki => (fun lid => (ki.1, lid)) <$> ki.2.

Lemma prune_request_deletes instance_id keys (blocks : list ((bool * list LocationId) * string)) :
  requested_deletes (prune_request instance_id keys blocks) =
  zip keys (snd <$> blocks.*1) ≫= fun ki => (fun lid => (ki.1, lid)) <$> ki.2.
Proof.
  unfold prune_request. set (rows := zip keys _).
  assert (Hf : rows ≫= (fun ki => (fun lid => (ki.1, lid)) <$> ki.2) =
    filter (fun kb : KeyType * list LocationId => kb.2 <> []) rows ≫= (fun ki => (fun lid => (ki.1, lid)) <$> ki.2)).
  { induction rows as [|[k [|i ids]] rows IH]; [done|..]; rewrite bind_cons, filter_cons.
    - rewrite decide_False by (intros Hc; by apply Hc). exact IH.
    - rewrite decide_True by done. by rewrite bind_cons, IH. }
  rewrite Hf. destruct (filter _ rows) as [|r rs]; [done|]. unfold requested_deletes. csimpl. rewrite app_nil_r.
  f_equal. f_equal. clear. induction rs as [|[k ids] rs IH]; [done|]. csimpl. by rewrite IH.
Qed.

Lemma prune_request_maps instance_id keys (blocks : list ((bool * list LocationId) * string)) check maps :
  (forall i, (fun b => b.1.2) <$> (blocks !! i) = prune_loc_ids check <$> (maps !! i)) ->
  requested_deletes (prune_request instance_id keys blocks) =
  zip keys maps ≫= fun km => (fun lid => (km.1, lid)) <$> prune_loc_ids check km.2.
Proof.
  intros Hb. rewrite prune_request_deletes. assert (Hp : snd <$> blocks.*1 = prune_loc_ids check <$> maps).
  { apply list_eq. intros i. rewrite !list_lookup_fmap, <-Hb. by destruct (blocks !! i). }
  rewrite Hp. clear. revert maps. induction keys as [|k keys IH]; intros [|m maps]; [done..|]. csimpl. by rewrite IH.
Qed.

Lemma elem_of_pruned_rows check (keys : list KeyType) (maps : list CacheLocationMap) (k : KeyType) (lid : LocationId) :
  (k, lid) ∈ (zip keys maps ≫= fun km => (fun lid => (km.1, lid)) <$> prune_loc_ids check km.2) <->
  exists i m l, keys !! i = Some k /\ maps !! i = Some m /\ m !! lid = Some (Some l) /\
    status l = CLS_SERVING /\ data_present check l = false /\ IsEventReportStorageType (type l) = false.
Proof.
  assert (Hd : forall l, data_missing check l = negb (data_present check l)) by (intros l; by destruct check).
  rewrite list_elem_of_bind. split.
  - intros ([k' m] & (lid' & Heq & Hin)%list_elem_of_fmap & (i & Hi)%list_elem_of_lookup). simplify_eq/=.
    apply lookup_zip_with_Some in Hi as (? & ? & ? & ? & ?). simplify_eq.
    apply elem_of_prune in Hin as (l & ? & ? & Hm & ?). rewrite Hd in Hm. apply negb_true_iff in Hm. eauto 10.
  - intros (i & m & l & Hk & Hm & Hl & Hs & Hp & He). exists (k, m). split.
    + apply list_elem_of_fmap. exists lid. split; [done|]. apply elem_of_prune. exists l. rewrite Hd, Hp. done.
    + apply list_elem_of_lookup. exists i. apply lookup_zip_with_Some. eauto.
Qed.

Section targets_spec.
Context {T : Type} (reg : RegistryManager (T := T)) (indexers : Indexers) (group : string).

Lemma CheckExplicit_allowed targets i t a :
  targets !! i = Some t -> CheckExplicitWriteTargets group targets reg indexers !! i = Some a ->
  ad_status a = kAllowed -> exists b, GetDataStorageBackend t (data_storage_manager_ reg) = Some b /\ Available b = true.
Proof.
  intros Ht Ha Hal. unfold CheckExplicitWriteTargets in Ha.
  assert (Href : replicate (length targets) admission_default !! i = Some a -> False).
  { intros [-> _]%lookup_replicate. done. }
  case_bool_decide; [by apply Href in Ha|]. destruct (GetInstanceGroup group reg) as [[] [ig|]]; try by apply Href in Ha.
  destruct (ListInstanceInfo group reg) as [ec infos]. case_bool_decide; [by apply Href in Ha|].
  destruct (saturating_sum _ _ _) as [used|]; [|by apply Href in Ha].
  rewrite list_lookup_fmap, Ht in Ha. simplify_eq/=. unfold admit_target in Hal.
  destruct (GetDataStorageBackend t _) as [b|]; [|done]. destruct (Available b) eqn:Eb; [eauto|done].
Qed.

(** A block's target, when it has one, is the target of its own valid mark,
    and names a registered storage that is available. *)
Lemma ResolveUsable_spec keys marks count :
  let out := ResolveUsableTieredWriteTargets group keys marks reg indexers count in
  length out.1 = count /\
  (forall i t, out.1 !! i = Some t -> t <> "" -> exists mark b, marks !! i = Some mark /\ HasValidMark mark = true /\
     mark_target mark = t /\ GetDataStorageBackend t (data_storage_manager_ reg) = Some b /\ Available b = true).
Proof.
  unfold ResolveUsableTieredWriteTargets. set (rows := take count (zip keys marks)).
  set (targets := unique_targets rows.*2). simpl. split.
  { rewrite length_app, length_replicate, !length_fmap. unfold rows. rewrite length_take. lia. }
  intros i t Hi Ht. rewrite lookup_app in Hi.
  destruct (((fun r : KeyType * MarkQueryResult => _) <$> rows) !! i) as [t'|] eqn:Er; simplify_eq/=.
  2: { by apply lookup_replicate in Hi as [-> _]. }
  rewrite list_lookup_fmap in Er. destruct (rows !! i) as [[k mark]|] eqn:Eri; simplify_eq/=.
  destruct (HasValidMark mark) eqn:Ev; simpl in *; [|done].
  destruct (ad_status (mark_admission _ _ _ mark)) eqn:Es; try done. exists mark.
  unfold rows in Eri. rewrite lookup_take_Some in Eri. destruct Eri as [Eri _].
  apply lookup_zip_with_Some in Eri as (k' & mark' & Heq & _ & Hmark). simplify_eq.
  unfold mark_admission in Es. destruct (list_find _ targets) as [[j t']|] eqn:Ef; simpl in Es.
  - apply list_find_Some in Ef as (Hj & -> & _).
    destruct (CheckExplicitWriteTargets group targets reg indexers !! j) as [a|] eqn:Ea.
    + destruct (CheckExplicit_allowed _ _ _ _ Hj Ea Es) as (b & ? & ?). exists b. by split_and!.
    + destruct (GetDataStorageBackend (mark_target mark') _) as [b|]; [|done]. destruct (Available b) eqn:Eb; [|done].
      exists b. by split_and!.
  - destruct (GetDataStorageBackend (mark_target mark') _) as [b|]; [|done]. destruct (Available b) eqn:Eb; [|done].
    exists b. by split_and!.
Qed.

End targets_spec.

Section filter_spec.
Context {PT CT T : Type} `{PB : !MetaStorageBackend PT} `{PL : !LawfulBackend PT}
  `{CB : !MetaCacheBaseBackend CT} `{CL : !LawfulCache CT}.
Implicit Types x : MetaIndexer PT CT.

Lemma BatchGetLocation_all keys x maps x' :
  coherent (backend_manager_ x) -> BatchGetLocation keys (BlockMaskOffset 0) x = (maps, x') ->
  length maps = length keys.
Proof.
  intros Hco. unfold BatchGetLocation. rewrite query_keys_unmasked, unmasked_offset, drop_0.
  destruct keys as [|k ks]; [by intros [= <- _]|].
  destruct (GetLocations (k :: ks) x) as [[result ms] y] eqn:E. intros [= <- <-].
  apply GetLocations_spec in E as (_ & _ & Hrd); [|done]. by apply Forall3i_length in Hrd as [_ ?].
Qed.

(** The filter, against what its parts decide. *)
Lemma FilterWriteCache_spec instance_id keys groups min_replica check tiered marks
    (reg : RegistryManager (T := T)) indexers store x out dels cleared store' x' :
  coherent (backend_manager_ x) -> Forall (fun w => 0 <= w)%Z (default_storage_weights_ store) ->
  length groups <= length keys ->
  FilterWriteCache instance_id keys groups min_replica check tiered marks reg indexers store x =
    ((EC_OK, out), (dels, cleared), store', x') ->
  exists policy maps targets,
    genSelectLocationPolicy (storage_view reg instance_id) store = (Some policy, store') /\
    BatchGetLocation keys (BlockMaskOffset 0) x = (maps, x') /\
    length maps = length keys /\ length targets = length keys /\
    let info := GetInstanceInfo instance_id reg in
    IsBlockMaskValid (f_mask out) (length keys) = true /\
    (forall i m t, maps !! i = Some m -> targets !! i = Some t ->
       IsIndexInMaskRange (f_mask out) i =
         block_satisfied (GetWeight store' policy) check info groups min_replica i m t) /\
    f_keys out = unmasked (f_mask out) keys /\ f_groups out = unmasked (f_mask out) groups /\
    f_targets out = unmasked (f_mask out)
      (imap (fun i mt => block_target check info groups min_replica i mt.1 mt.2) (zip maps targets)) /\
    (forall i t, targets !! i = Some t -> t <> "" -> tiered = true /\ exists mark b, marks !! i = Some mark /\
       HasValidMark mark = true /\ mark_target mark = t /\
       GetDataStorageBackend t (data_storage_manager_ reg) = Some b /\ Available b = true) /\
    requested_deletes dels = zip keys maps ≫= fun km => (fun lid => (km.1, lid)) <$> prune_loc_ids check km.2.
Proof.
  intros Hco Hst Hgr Hrun. unfold FilterWriteCache in Hrun.
  destruct (BatchGetLocation keys (BlockMaskOffset 0) x) as [maps x1] eqn:Eb.
  pose proof (BatchGetLocation_all _ _ _ _ Hco Eb) as Hlm.
  destruct (genSelectLocationPolicy _ store) as [[policy|] st] eqn:Ep; [|simplify_eq].
  pose proof (genSelectLocationPolicy_nonneg _ _ _ _ Hst Ep) as Hw.
  set (info := GetInstanceInfo instance_id reg) in *.
  match type of Hrun with context [match info with Some _ => _ | None => ?n end] =>
    set (tc := match info with Some _ => _ | None => n end) in Hrun end.
  assert (Htc : length tc.1 = length keys /\ forall i t, tc.1 !! i = Some t -> t <> "" -> tiered = true /\ exists mark b,
    marks !! i = Some mark /\ HasValidMark mark = true /\ mark_target mark = t /\
    GetDataStorageBackend t (data_storage_manager_ reg) = Some b /\ Available b = true).
  { assert (Hno : length (replicate (length maps) "") = length keys /\ forall i t,
      replicate (length maps) "" !! i = Some t -> t <> "" -> False).
    { rewrite length_replicate. split; [done|]. intros i t [-> _]%lookup_replicate. done. }
    unfold tc. destruct info as [inf|]; [destruct tiered|]; simpl.
    1: { rewrite <-Hlm. destruct (ResolveUsable_spec reg indexers (instance_group_name_ inf) keys marks (length maps)) as [Hl Hr].
         split; [exact Hl|]. intros i t Hi Hne. split; [done|]. by apply Hr. }
    all: (split; [apply Hno|]); intros i t Hi Hne; by destruct (proj2 Hno i t Hi Hne). }
  destruct tc as [targets clr]. simpl in Htc. destruct Htc as [Hlt Htg].
  set (blocks := filter_blocks _ _ _ _ _ _ _) in Hrun. injection Hrun as <- <- _ <- <-.
  exists policy, maps, targets.
  assert (Hlb : length blocks = length keys).
  { unfold blocks, filter_blocks. rewrite length_imap, length_zip. lia. }
  assert (Hbl : forall i m t, maps !! i = Some m -> targets !! i = Some t -> exists t',
    blocks !! i = Some ((block_satisfied (GetWeight st policy) check info groups min_replica i m t, prune_loc_ids check m), t') /\
    (block_satisfied (GetWeight st policy) check info groups min_replica i m t = false ->
     t' = block_target check info groups min_replica i m t)).
  { intros i m t Hm Ht. by apply filter_blocks_spec. }
  destruct (split_writes_spec (fst <$> blocks.*1) keys groups blocks.*2) as (Hv & Hbits & Hks & Hgs & Hts);
    [rewrite ?length_fmap; lia..|].
  set (out := split_writes _ _ _ _) in *.
  assert (Hin : forall i m t, maps !! i = Some m -> targets !! i = Some t -> IsIndexInMaskRange (f_mask out) i =
    block_satisfied (GetWeight st policy) check info groups min_replica i m t).
  { intros i m t Hm Ht. destruct (Hbl i m t Hm Ht) as (t' & Hbi & _). apply Hbits. by rewrite !list_lookup_fmap, Hbi. }
  split_and!; [done..|]. cbv zeta. fold info. split_and!; try done.
  - rewrite Hts. apply unmasked_agree; [rewrite length_fmap, length_imap, length_zip; lia|]. intros i Hm.
    rewrite list_lookup_fmap, list_lookup_imap. destruct (decide (i < length keys)) as [Hi|Hi].
    + destruct (lookup_lt_is_Some_2 maps i) as [m Hmi]; [lia|]. destruct (lookup_lt_is_Some_2 targets i) as [t Hti]; [lia|].
      destruct (Hbl i m t Hmi Hti) as (t' & Hbi & Ht'). rewrite Hbi.
      assert (Hz : zip maps targets !! i = Some (m, t)) by (apply lookup_zip_with_Some; eauto). rewrite Hz. simpl.
      f_equal. apply Ht'. by rewrite <-Hin.
    + rewrite !lookup_ge_None_2; [done|rewrite length_zip; lia|lia].
  - apply prune_request_maps. intros i. destruct (decide (i < length keys)) as [Hi|Hi].
    + destruct (lookup_lt_is_Some_2 maps i) as [m Hmi]; [lia|]. destruct (lookup_lt_is_Some_2 targets i) as [t Hti]; [lia|].
      destruct (Hbl i m t Hmi Hti) as (t' & -> & _). by rewrite Hmi.
    + rewrite !lookup_ge_None_2 by lia. done.
Qed.

(** C15: one filter call ([FilterWriteCache], or its variant for several
    replicas) on an index that can be read. The request is cut block by block:
    the answer's mask is valid for the request, and the keys, groups and
    migration targets returned are those of the blocks outside it, in order,
    whether the mask is an offset or a bit vector.
    - A block without a spec group is inside the mask exactly when as many
      copies as asked for (at least one) have a location with a positive
      weight, of any status, those that serve with their data present.
    - A block with a spec group is inside it when so many serving locations,
      their data present, cover every spec of the group, and only when so many
      stored locations cover them.
    - A block with a migration target is inside it only when the target's
      storage holds its specs in locations that are being written or serve
      with their data present (or on reported storage), and, for one replica,
      exactly then.
    Targets come from the blocks' own valid marks and name available storages.
    The deletions submitted are those of the serving locations whose data is
    gone, locations of reported storage ([IsEventReportStorageType])
    excepted. *)
Theorem FilterWriteCache_exact instance_id keys groups min_replica check tiered marks
    (reg : RegistryManager (T := T)) indexers store x out dels cleared store' x' :
  coherent (backend_manager_ x) -> Forall (fun w => 0 <= w)%Z (default_storage_weights_ store) ->
  length groups <= length keys ->
  FilterWriteCache instance_id keys groups min_replica check tiered marks reg indexers store x =
    ((EC_OK, out), (dels, cleared), store', x') ->
  exists policy maps targets,
    genSelectLocationPolicy (storage_view reg instance_id) store = (Some policy, store') /\
    BatchGetLocation keys (BlockMaskOffset 0) x = (maps, x') /\
    length maps = length keys /\ length targets = length keys /\
    let info := GetInstanceInfo instance_id reg in
    IsBlockMaskValid (f_mask out) (length keys) = true /\
    (forall i m t, maps !! i = Some m -> targets !! i = Some t ->
       filter_decision (GetWeight store' policy) check info groups min_replica i m t (IsIndexInMaskRange (f_mask out) i)) /\
    f_keys out = unmasked (f_mask out) keys /\ f_groups out = unmasked (f_mask out) groups /\
    f_targets out = unmasked (f_mask out)
      (imap (fun i mt => block_target check info groups min_replica i mt.1 mt.2) (zip maps targets)) /\
    (forall i t, targets !! i = Some t -> t <> "" -> tiered = true /\ exists mark b, marks !! i = Some mark /\
       HasValidMark mark = true /\ mark_target mark = t /\
       GetDataStorageBackend t (data_storage_manager_ reg) = Some b /\ Available b = true) /\
    (forall k lid, (k, lid) ∈ requested_deletes dels <-> exists i m l,
       keys !! i = Some k /\ maps !! i = Some m /\ m !! lid = Some (Some l) /\
       status l = CLS_SERVING /\ data_present check l = false /\ IsEventReportStorageType (type l) = false).
Proof.
  intros Hco Hw Hg Hrun.
  apply FilterWriteCache_spec in Hrun as (policy & maps & targets & Hp & Hb & Hlm & Hlt & Hv & Hin & Hks & Hgs & Hts & Hmk & Hdel);
    [|done..]. exists policy, maps, targets. do 4 (split; [done|]). cbv zeta.
  split; [done|]. split; [|do 4 (split; [done|]); intros k lid; rewrite Hdel; apply elem_of_pruned_rows].
  intros i m t Hm Ht. rewrite (Hin i m t Hm Ht). apply block_satisfied_decision.
  by eapply genSelectLocationPolicy_nonneg.
Qed.

End filter_spec.

(** ** Example *)

(** Blocks 1 and 2 are served from storage [nfs_a]; block 1 is marked for
    [nfs_b]. *)
Definition served_on_a (i : LocationId) : CacheLocation :=
  make_location i CLS_SERVING DATA_STORAGE_TYPE_NFS 1 [mkLocationSpec "tp0" "nfs://nfs_a/block?size=8"].

Definition served_indexer : MetaIndexer MetaDummyBackend MetaLocalBackend :=
  mkIndexer (mkManager (DummyBackend.Put [1; 2]%Z [{[ "l1" := Some (served_on_a "l1") ]}; {[ "l2" := Some (served_on_a "l2") ]}]
    [∅; ∅] (mkDummy ∅ ∅ (fun n => Z.of_nat n))).2 None kRunning ∅) 2 10 2 (fun k => (k mod 3)%Z).

Definition sample_marks : list MarkQueryResult := [mkMark kValid EC_OK "nfs_b" 50; mkMark kNoMark EC_OK "" 0; mkMark kNoMark EC_OK "" 0].

Lemma FilterWriteCache_exact_witness :
  let run := FilterWriteCache "i" [1; 4; 2]%Z [] 1 None true sample_marks example_reg example_indexers initial_store
               served_indexer in
  let out := run.1.1.1.2 in
  out = mkFilterOut (BlockMaskVector [false; false; true]) [1; 4]%Z [] ["nfs_b"; ""] /\
  f_keys out = unmasked (f_mask out) [1; 4; 2]%Z.
Proof.
  intros run out. assert (Hout : out = mkFilterOut (BlockMaskVector [false; false; true]) [1; 4]%Z [] ["nfs_b"; ""])
    by (vm_compute; reflexivity). split; [exact Hout|].
  destruct run as [[[[ec o] [dels cleared]] store'] x'] eqn:E. assert (Hec : ec = EC_OK).
  { change ec with (((ec, o), (dels, cleared), store', x').1.1.1.1). rewrite <-E. vm_compute. reflexivity. }
  subst ec. unfold run in E.
  destruct (FilterWriteCache_exact "i" [1; 4; 2]%Z [] 1 None true sample_marks example_reg example_indexers initial_store
    served_indexer o dels cleared store' x') as (policy & maps & targets & _ & _ & _ & _ & _ & _ & Hk & _); [done| |simpl; lia|exact E|].
  - by apply (bool_decide_unpack _); vm_compute.
  - exact Hk.
Defined.
