(* ===== verification/WriteAlloc.v ===== *)
(** * WriteAlloc: allocating the locations of a write

    The second half of [CacheManager::StartWriteCache]
    ([manager/cache_manager.cc]): for the blocks that must be written, a
    storage is chosen (the block's migration target, or the group's default),
    the storage is asked for one data URI per block and spec, and the URIs
    become the locations handed to the writer; on any failure what was created
    is deleted again. The storages are the parameters [bk_Create] and
    [bk_Delete] of [StorageManager] over a state [W]. *)

From stdpp Require Import base gmap sets list strings sorting.
From Stdlib Require Import ZArith Lia Ascii.
From S2P Require Import Prelude StandardUri MetaTypes StorageManager Registry StorageSelect WriteFilter.

(** ** Data keys *)

Definition hex_chars : list ascii := String.list_ascii_of_string "0123456789abcdef".

Definition hex_digit (d : Z) : ascii := default "0"%char (hex_chars !! Z.to_nat d).

(** The digits of [z] below [16 ^ fuel], most significant first. *)
Fixpoint hex_loop (fuel : nat) (z : Z) (acc : list ascii) : list ascii :=
  match fuel with
  | 0 => acc
  | S fuel =>
      let acc := hex_digit (z mod 16) :: acc in
      if (z / 16 =? 0)%Z then acc else hex_loop fuel (z / 16) acc
  end.

(** [StringUtil::Uint64ToHex]: a 64-bit number has at most 16 digits. *)
Definition Uint64ToHex (value : Z) : string := String.string_of_list_ascii (hex_loop 16 (u64 value) []).

(** The name of the data of one spec of a block. *)
Definition data_key (instance_id spec_name : string) (k : KeyType) : string :=
  instance_id +:+ "/" +:+ spec_name +:+ "/" +:+ Uint64ToHex k.

(** A request to a storage: data key, position of the block, spec. *)
Abbreviation CreateRow := (string * (nat * LocationSpecInfo))%type.

(** The rows of one spec; [None] when a block's group is not registered. *)
Definition spec_rows (instance_id : string) (keys : list KeyType) (group_names : list string)
    (groups : list LocationSpecGroup) (si : LocationSpecInfo) : option (list CreateRow) :=
  let row (ik : nat * KeyType) : CreateRow := (data_key instance_id (si_name si) ik.2, (ik.1, si)) in
  match group_names with
  | [] => Some (row <$> imap pair keys)
  | _ =>
      mjoin <$> mapM (fun ik =>
        match IsSpecNameInSpecGroup (si_name si) (default "" (group_names !! ik.1)) groups with
        | (EC_OK, found) => Some (if found : bool then [row ik] else [])
        | _ => None
        end) (imap pair keys)
  end.

(** What was allocated: the URIs, and per block their indices with the spec. *)
Record Alloc := mkAlloc {
  allocated_uris : list StandardUri;
  key_to_uris : list (list (nat * LocationSpecInfo));
  is_create_success : bool;
}.

(** The loop over the results of a [Create]. *)
Definition record_one (a : Alloc) (r : (ErrorCode * StandardUri) * (nat * LocationSpecInfo)) : Alloc :=
  if bool_decide (r.1.1 = EC_OK)
  then mkAlloc (allocated_uris a ++ [r.1.2])
         (alter (fun l => l ++ [(length (allocated_uris a), r.2.2)]) r.2.1 (key_to_uris a)) (is_create_success a)
  else a.

(** The URIs of the results that are [EC_OK], and the check of the batch. *)
Definition record_results (rows : list CreateRow) (results : list (ErrorCode * StandardUri)) (a : Alloc) : Alloc :=
  let a := foldl record_one a (zip results rows.*2) in
  mkAlloc (allocated_uris a) (key_to_uris a)
    (is_create_success a && (length results =? length rows)%nat
     && forallb (fun r => bool_decide (r.1 = EC_OK)) results).

Section alloc.
Context {W T : Type}.
Variable bk_Create : DataStorageBackend -> list string -> Z -> W -> list (ErrorCode * StandardUri) * W.
Variable bk_Delete : DataStorageBackend -> list StandardUri -> W -> list ErrorCode * W.

Local Abbreviation Create := (StorageManager.Create bk_Create).
Local Abbreviation Delete := (StorageManager.Delete bk_Delete).

(** [CreateInSingleBatch]. *)
Definition CreateInSingleBatch (instance_id : string) (keys : list KeyType) (group_names : list string)
    (info : InstanceInfo) (dsm : DataStorageManager) (unique_name : string) (common_size : Z) (a : Alloc) (w : W)
    : (ErrorCode * Alloc) * W :=
  match mjoin <$> mapM (spec_rows instance_id keys group_names (location_spec_groups_ info)) (location_spec_infos_ info) with
  | None => ((EC_ERROR, a), w)
  | Some rows =>
      let '(results, w) := Create dsm unique_name rows.*1 common_size w in
      ((EC_OK, record_results rows results a), w)
  end.

(** [CreateBySpec]: one batch per spec, until one fails. *)
Fixpoint CreateBySpec (instance_id : string) (keys : list KeyType) (group_names : list string)
    (groups : list LocationSpecGroup) (dsm : DataStorageManager) (unique_name : string)
    (infos : list LocationSpecInfo) (a : Alloc) (w : W) : (ErrorCode * Alloc) * W :=
  match infos with
  | [] => ((EC_OK, a), w)
  | si :: infos =>
      match spec_rows instance_id keys group_names groups si with
      | None => ((EC_ERROR, a), w)
      | Some [] => CreateBySpec instance_id keys group_names groups dsm unique_name infos a w
      | Some rows =>
          let '(results, w) := Create dsm unique_name rows.*1 (si_size si) w in
          let a := record_results rows results a in
          if is_create_success a
          then CreateBySpec instance_id keys group_names groups dsm unique_name infos a w
          else ((EC_OK, a), w)
      end
  end.

(** All specs have the size of the first. *)
Definition same_size (infos : list LocationSpecInfo) : bool :=
  match infos with
  | [] => true
  | si :: infos => forallb (fun s => (si_size s =? si_size si)%Z) infos
  end.

(** The location of one block. *)
Definition gen_location (storage_type : DataStorageType) (allocated : list StandardUri)
    (uris : list (nat * LocationSpecInfo)) : CacheLocation :=
  let specs := (fun js : nat * LocationSpecInfo =>
    mkLocationSpec (si_name js.2)
      (String.string_of_list_ascii (ToUriString (default empty_uri (allocated !! js.1))))) <$> uris in
  mkCacheLocation "" CLS_NEW storage_type (Z.of_nat (length uris)) 0 specs kUnknownValidatedTotalSize.

Definition GenWriteLocationOnStorage (instance_id : string) (keys : list KeyType) (group_names : list string)
    (info : InstanceInfo) (dsm : DataStorageManager) (storage_name : string) (storage_type : DataStorageType) (w : W)
    : (ErrorCode * list CacheLocation) * W :=
  match keys with
  | [] => ((EC_OK, []), w)
  | _ =>
      let a := mkAlloc [] (replicate (length keys) []) true in
      let infos := location_spec_infos_ info in
      let '((ec, a), w) :=
        if same_size infos
        then CreateInSingleBatch instance_id keys group_names info dsm storage_name
               (match infos with [] => 0%Z | si :: _ => si_size si end) a w
        else CreateBySpec instance_id keys group_names (location_spec_groups_ info) dsm storage_name infos a w in
      if bool_decide (ec <> EC_OK) then ((ec, []), w)
      else if negb (is_create_success a)
      then let '(_, w) := Delete dsm storage_name (allocated_uris a) w in ((EC_ERROR, []), w)
      else ((EC_OK, gen_location storage_type (allocated_uris a) <$> key_to_uris a), w)
  end.

(** ** Several storages *)

(** The blocks with a target, by target; [None] when a target is gone. *)
Definition tiered_indices (dsm : DataStorageManager) (targets : list string)
    : option (gmap string (list nat * DataStorageType) * list nat) :=
  foldl (fun acc it =>
    '(by_storage, defaults) ← acc;
    let '(i, t) := it in
    if bool_decide (t = "") then Some (by_storage, defaults ++ [i])
    else
      b ← GetDataStorageBackend t dsm;
      Some (<[t := (default [] (fst <$> (by_storage !! t)) ++ [i], GetType b)]> by_storage, defaults))
    (Some (∅, [])) (imap pair targets).

(** [indices_by_storage] and [type_by_storage]. *)
Definition route_blocks (count : nat) (targets : list string) (group : string) (reg : RegistryManager (T := T))
    (indexers : Indexers) : ErrorCode * gmap string (list nat * DataStorageType) :=
  let targets := if (length targets =? count)%nat then targets else replicate count "" in
  match tiered_indices (data_storage_manager_ reg) targets with
  | None => (EC_NOENT, ∅)
  | Some (by_storage, []) => (EC_OK, by_storage)
  | Some (by_storage, defaults) =>
      let r := SelectCacheWriteDataStorageBackend group reg indexers in
      if bool_decide (sel_ec r <> EC_OK) then (sel_ec r, ∅)
      else (EC_OK, <[sel_name r := (default [] (fst <$> (by_storage !! sel_name r)) ++ defaults, sel_type r)]> by_storage)
  end.

(** The URIs of specs by the storage they name, less those skipped. *)
Definition uris_by_storage (skip : StandardUri -> bool) (specs : list LocationSpec) : gmap string (list StandardUri) :=
  foldl (fun acc s =>
    let u := (Parse (chars_of (uri s))).1 in
    if skip u then acc
    else
      let host := String.string_of_list_ascii (hostname_ u) in
      <[host := default [] (acc !! host) ++ [u]]> acc)
    ∅ specs.

Definition specs_of (locations : list CacheLocationConstPtr) : list LocationSpec :=
  locations ≫= fun l => match l with Some l => location_specs l | None => [] end.

(** [collect_location_uris]: the URIs of generated locations by storage. *)
Definition collect_location_uris (locations : list CacheLocationConstPtr) : gmap string (list StandardUri) :=
  uris_by_storage (fun u => negb (Valid u) || bool_decide (hostname_ u = [])) (specs_of locations).

(** [rollback_generated_locations]. *)
Definition delete_all (dsm : DataStorageManager) (by_storage : gmap string (list StandardUri)) (w : W) : W :=
  foldl (fun w nu => (Delete dsm nu.1 nu.2 w).2) w (sorted_entries by_storage).

(** The loop over the storages. *)
Fixpoint gen_on_storages (instance_id : string) (keys : list KeyType) (group_names : list string)
    (info : InstanceInfo) (dsm : DataStorageManager) (entries : list (string * (list nat * DataStorageType)))
    (new_locations : list CacheLocationConstPtr) (w : W) : (ErrorCode * list CacheLocationConstPtr) * W :=
  match entries with
  | [] => ((EC_OK, new_locations), w)
  | (storage_name, (indices, storage_type)) :: entries =>
      let '((ec, sub_locations), w) :=
        GenWriteLocationOnStorage instance_id (gather indices keys) (gather indices group_names) info dsm storage_name
          storage_type w in
      let rollback := delete_all dsm (collect_location_uris (new_locations ++ (Some <$> sub_locations))) w in
      if bool_decide (ec <> EC_OK) then ((ec, []), rollback)
      else if negb (length sub_locations =? length indices)%nat then ((EC_ERROR, []), rollback)
      else gen_on_storages instance_id keys group_names info dsm entries
             (scatter indices (Some <$> sub_locations) new_locations) w
  end.

Definition GenWriteLocation (instance_id : string) (keys : list KeyType) (group_names targets : list string)
    (reg : RegistryManager (T := T)) (indexers : Indexers) (w : W)
    : (ErrorCode * list CacheLocationConstPtr) * W :=
  match keys with
  | [] => ((EC_OK, []), w)
  | _ =>
      match GetInstanceInfo instance_id reg with
      | None => ((EC_INSTANCE_NOT_EXIST, []), w)
      | Some info =>
          let '(ec, by_storage) := route_blocks (length keys) targets (instance_group_name_ info) reg indexers in
          if bool_decide (ec <> EC_OK) then ((ec, []), w)
          else gen_on_storages instance_id keys group_names info (data_storage_manager_ reg) (sorted_entries by_storage)
                 (replicate (length keys) None) w
      end
  end.

End alloc.

(** ** What is recorded *)

(** Spec and URI of every allocation, block by block. *)
Definition alloc_row (uris : list StandardUri) (l : list (nat * LocationSpecInfo)) : list (LocationSpecInfo * StandardUri) :=
  omap (fun js : nat * LocationSpecInfo => (fun u => (js.2, u)) <$> (uris !! js.1)) l.

Definition alloc_rows (a : Alloc) : list (list (LocationSpecInfo * StandardUri)) :=
  alloc_row (allocated_uris a) <$> key_to_uris a.

Definition alloc_wf (a : Alloc) : Prop :=
  Forall (Forall (fun js => js.1 < length (allocated_uris a))) (key_to_uris a).

Lemma omap_prefix {A B} (f g : A -> option B) l : Forall (fun x => f x = g x) l -> omap f l = omap g l.
Proof. induction 1 as [|x l Hx _ IH]; [done|]. csimpl. by rewrite Hx, IH. Qed.

Lemma record_one_ok u i si a :
  alloc_wf a -> let a' := record_one a ((EC_OK, u), (i, si)) in
  alloc_wf a' /\ allocated_uris a' = allocated_uris a ++ [u] /\
  alloc_rows a' = alter (fun l => l ++ [(si, u)]) i (alloc_rows a).
Proof.
  intros Hwf. unfold record_one. rewrite bool_decide_eq_true_2 by done. simpl. split_and!; [|done|].
  - unfold alloc_wf in *. simpl. rewrite length_app. simpl.
    assert (Hold : Forall (Forall (fun js => js.1 < length (allocated_uris a) + 1)) (key_to_uris a)).
    { eapply Forall_impl; [exact Hwf|]. intros l Hl. eapply Forall_impl; [exact Hl|]. simpl. lia. }
    apply Forall_alter; [done|]. intros l Hl HP. apply Forall_app. split; [done|]. constructor; [simpl; lia|done].
  - unfold alloc_rows. simpl. apply list_eq. intros j. rewrite list_lookup_fmap.
    assert (Hext : forall l, key_to_uris a !! j = Some l ->
      alloc_row (allocated_uris a ++ [u]) l = alloc_row (allocated_uris a) l).
    { intros l Hl. apply omap_prefix. unfold alloc_wf in Hwf. rewrite Forall_forall in Hwf.
      eapply Forall_impl; [apply Hwf; by eapply list_elem_of_lookup_2|]. intros js Hjs. simpl in Hjs. by rewrite lookup_app_l. }
    destruct (decide (i = j)) as [->|Hne].
    + rewrite !list_lookup_alter_eq, list_lookup_fmap. destruct (key_to_uris a !! j) as [l|] eqn:El; [|done]. simpl. f_equal.
      unfold alloc_row in *. rewrite omap_app, (Hext l eq_refl). csimpl. by rewrite list_lookup_middle.
    + rewrite !list_lookup_alter_ne, list_lookup_fmap by done. destruct (key_to_uris a !! j) as [l|] eqn:El; [|done].
      simpl. by rewrite (Hext l eq_refl).
Qed.

(** The allocations of position [j] among results that are all [EC_OK]. *)
Definition rows_at (j : nat) (rows : list CreateRow) (uris : list StandardUri) : list (LocationSpecInfo * StandardUri) :=
  omap (fun ru : (nat * LocationSpecInfo) * StandardUri => if bool_decide (ru.1.1 = j) then Some (ru.1.2, ru.2) else None)
    (zip rows.*2 uris).

Lemma record_all_ok rows : forall uris a,
  alloc_wf a -> length uris = length rows ->
  let a' := foldl record_one a (zip ((fun u => (EC_OK, u)) <$> uris) rows.*2) in
  alloc_wf a' /\ allocated_uris a' = allocated_uris a ++ uris /\ length (key_to_uris a') = length (key_to_uris a) /\
  is_create_success a' = is_create_success a /\
  (forall j l, alloc_rows a !! j = Some l -> alloc_rows a' !! j = Some (l ++ rows_at j rows uris)).
Proof.
  induction rows as [|[dk [i si]] rows IH]; intros [|u uris] a Hwf Hl; simpl in Hl; try lia; csimpl.
  { split_and!; [done|by rewrite app_nil_r|done|done|]. intros j l ->. by rewrite app_nil_r. }
  destruct (record_one_ok u i si a Hwf) as (Hwf1 & Hal1 & Hrows1). set (a1 := record_one a _) in *.
  assert (Hlen1 : length (key_to_uris a1) = length (key_to_uris a) /\ is_create_success a1 = is_create_success a).
  { unfold a1, record_one. rewrite bool_decide_eq_true_2 by done. simpl. by rewrite length_alter. }
  destruct (IH uris a1 Hwf1 ltac:(lia)) as (Hwf' & Hal & Hlen & Hsuc & Hrows).
  split_and!; [done|by rewrite Hal, Hal1, <-app_assoc|by rewrite Hlen; apply Hlen1|by rewrite Hsuc; apply Hlen1|].
  intros j l Hj. unfold rows_at. csimpl. fold (rows_at j rows uris). case_bool_decide as Hij; simpl.
  - subst j. rewrite (Hrows i (l ++ [(si, u)])); [by rewrite <-app_assoc|]. by rewrite Hrows1, list_lookup_alter_eq, Hj.
  - rewrite (Hrows j l); [done|]. by rewrite Hrows1, list_lookup_alter_ne.
Qed.

Lemma mjoin_alter_snoc {A} (x : A) i (l : list (list A)) :
  i < length l -> mjoin (alter (fun r => r ++ [x]) i l) ≡ₚ mjoin l ++ [x].
Proof.
  revert i. induction l as [|r l IH]; intros [|i] Hi; simpl in Hi; try lia; csimpl.
  - rewrite <-!app_assoc. f_equiv. apply Permutation_app_comm.
  - rewrite IH by lia. by rewrite app_assoc.
Qed.

(** The URIs allocated are those the rows of the blocks name. *)
Lemma record_all_named rows : forall uris a,
  alloc_wf a -> length uris = length rows -> Forall (fun r : CreateRow => r.2.1 < length (key_to_uris a)) rows ->
  allocated_uris a ≡ₚ (mjoin (alloc_rows a)).*2 ->
  let a' := foldl record_one a (zip ((fun u => (EC_OK, u)) <$> uris) rows.*2) in
  allocated_uris a' ≡ₚ (mjoin (alloc_rows a')).*2.
Proof.
  induction rows as [|[dk [i si]] rows IH]; intros [|u uris] a Hwf Hl Hr Hn; simpl in Hl; try lia; csimpl; [done..|].
  apply Forall_cons in Hr as [Hi Hr]. simpl in Hi. destruct (record_one_ok u i si a Hwf) as (Hwf1 & Hal1 & Hrows1).
  set (a1 := record_one a _) in *.
  assert (Hlen1 : length (key_to_uris a1) = length (key_to_uris a)).
  { unfold a1, record_one. rewrite bool_decide_eq_true_2 by done. simpl. by rewrite length_alter. }
  apply IH; [done|lia|by rewrite Hlen1|]. rewrite Hal1, Hrows1, mjoin_alter_snoc, fmap_app; [by rewrite Hn|].
  unfold alloc_rows. by rewrite length_fmap.
Qed.

(** The URIs whose creation succeeded. *)
Definition ok_uris (results : list (ErrorCode * StandardUri)) : list StandardUri :=
  omap (fun r : ErrorCode * StandardUri => if bool_decide (r.1 = EC_OK) then Some r.2 else None) results.

Lemma record_allocated (rows : list CreateRow) : forall results a,
  length results <= length rows ->
  allocated_uris (foldl record_one a (zip results rows.*2)) = allocated_uris a ++ ok_uris results.
Proof.
  induction rows as [|[dk ins] rows IH]; intros [|[e u] results] a Hl; simpl in Hl; try lia; csimpl;
    [by rewrite app_nil_r..|]. rewrite IH by lia. unfold record_one. simpl.
  case_bool_decide; simpl; [by rewrite <-app_assoc|done].
Qed.

Lemma results_all_ok (results : list (ErrorCode * StandardUri)) :
  forallb (fun r => bool_decide (r.1 = EC_OK)) results = true ->
  results = (fun u => (EC_OK, u)) <$> ok_uris results.
Proof.
  induction results as [|[e u] results IH]; [done|]. simpl. intros [He%bool_decide_eq_true Hr]%andb_true_iff.
  simpl in He. subst e. unfold ok_uris. csimpl. f_equal. by apply IH.
Qed.

(** ** The rows asked for *)

(** Is spec [si] written for block [i]? *)
Definition wants (group_names : list string) (groups : list LocationSpecGroup) (i : nat) (si : LocationSpecInfo) : bool :=
  match group_names with
  | [] => true
  | _ => (IsSpecNameInSpecGroup (si_name si) (default "" (group_names !! i)) groups).2
  end.

(** The specs of the rows of position [j]. *)
Definition specs_at (j : nat) (rows : list CreateRow) : list LocationSpecInfo :=
  omap (fun r : CreateRow => if bool_decide (r.2.1 = j) then Some r.2.2 else None) rows.

Lemma specs_at_app j r1 r2 : specs_at j (r1 ++ r2) = specs_at j r1 ++ specs_at j r2.
Proof. apply omap_app. Qed.

Lemma rows_at_specs j rows : forall uris, length uris = length rows -> (rows_at j rows uris).*1 = specs_at j rows.
Proof.
  unfold rows_at, specs_at. induction rows as [|[dk [i si]] rows IH]; intros [|u uris] Hl; simpl in Hl; try lia; [done|].
  csimpl. case_bool_decide; csimpl; rewrite IH by lia; done.
Qed.

(** The rows of a spec: one per block that wants it. *)
Lemma spec_rows_spec instance_id keys group_names groups si rows :
  spec_rows instance_id keys group_names groups si = Some rows ->
  rows = omap (fun ik : nat * KeyType => if wants group_names groups ik.1 si
    then Some (data_key instance_id (si_name si) ik.2, (ik.1, si)) else None) (imap pair keys).
Proof.
  unfold spec_rows, wants. destruct group_names as [|g gs].
  { intros [= <-]. generalize (imap pair keys). intros l. induction l as [|ik l IH]; [done|]. csimpl. by rewrite IH. }
  generalize (imap pair keys). intros l. remember (g :: gs) as gn eqn:Hgn. clear Hgn.
  destruct (mapM _ l) as [rss|] eqn:Em; intros [= <-]. apply mapM_Some_1 in Em.
  induction Em as [|ik rs l rss Hik _ IH]; [done|]. csimpl. rewrite IH.
  destruct (IsSpecNameInSpecGroup (si_name si) (default "" (gn !! ik.1)) groups) as [[] found]; simplify_eq/=.
  by destruct found.
Qed.

Lemma spec_rows_at instance_id keys group_names groups si rows j :
  spec_rows instance_id keys group_names groups si = Some rows -> j < length keys ->
  specs_at j rows = if wants group_names groups j si then [si] else [].
Proof.
  intros Hr Hj. apply spec_rows_spec in Hr as ->. unfold specs_at.
  assert (Hg : forall l : list (nat * KeyType), NoDup l.*1 ->
    omap (fun r : CreateRow => if bool_decide (r.2.1 = j) then Some r.2.2 else None)
      (omap (fun ik : nat * KeyType => if wants group_names groups ik.1 si
         then Some (data_key instance_id (si_name si) ik.2, (ik.1, si)) else None) l) =
    if bool_decide (j ∈ l.*1) && wants group_names groups j si then [si] else []).
  { induction l as [|[i k] l IH]; intros Hnd; [done|]. csimpl in Hnd. apply NoDup_cons in Hnd as [Hni Hnd].
    csimpl. destruct (decide (i = j)) as [->|Hne].
    - rewrite (bool_decide_eq_true_2 (j ∈ j :: l.*1)) by left. cbn [andb].
      specialize (IH Hnd). rewrite (bool_decide_eq_false_2 (j ∈ l.*1)) in IH by done. cbn [andb] in IH.
      destruct (wants group_names groups j si); csimpl; [|exact IH]. rewrite bool_decide_eq_true_2 by done. by rewrite IH.
    - assert (Hb : bool_decide (j ∈ i :: l.*1) = bool_decide (j ∈ l.*1)).
      { apply bool_decide_ext. rewrite elem_of_cons. naive_solver. }
      rewrite Hb. destruct (wants group_names groups i si); csimpl; [|by apply IH].
      rewrite (bool_decide_eq_false_2 (i = j)) by done. by apply IH. }
  rewrite Hg.
  - rewrite bool_decide_eq_true_2; [done|]. destruct (lookup_lt_is_Some_2 keys j Hj) as [k Hk].
    apply list_elem_of_fmap. exists (j, k). split; [done|]. apply (list_elem_of_lookup_2 _ j).
    by rewrite list_lookup_imap, Hk.
  - apply NoDup_alt. intros p q i Hp Hq. rewrite list_lookup_fmap, list_lookup_imap in Hp, Hq.
    destruct (keys !! p), (keys !! q); simplify_eq/=. done.
Qed.

Lemma spec_rows_range instance_id keys group_names groups si rows dk j si' :
  spec_rows instance_id keys group_names groups si = Some rows -> (dk, (j, si')) ∈ rows -> j < length keys.
Proof.
  intros Hr Hin. apply spec_rows_spec in Hr as ->. apply list_elem_of_omap in Hin as ([i k] & Hik & Heq).
  simpl in Heq. destruct (wants _ _ _ _); simplify_eq. apply list_elem_of_lookup in Hik as (p & Hp).
  rewrite list_lookup_imap in Hp. destruct (keys !! p) eqn:Ek; simplify_eq/=. by eapply lookup_lt_Some.
Qed.

(** ** What the storages are asked *)

(** What a URI stands for in its backend: the manager only adds the host. *)
Definition strip (u : StandardUri) : StandardUri := SetHostName "" u.

Lemma strip_SetHostName name u : strip (SetHostName name u) = strip u.
Proof. done. Qed.

(** Text that no printed URI takes for a delimiter. *)
Definition plain_text (t : string) : Prop := "?"%char ∉ chars_of t /\ "&"%char ∉ chars_of t.

(** The names an instance builds its data keys from. *)
Definition plain_names (instance_id : string) (infos : list LocationSpecInfo) : Prop :=
  plain_text instance_id /\ Forall (fun si => plain_text (si_name si)) infos.

Lemma plain_text_app a b : plain_text a -> plain_text b -> plain_text (a +:+ b).
Proof.
  assert (Happ : chars_of (a +:+ b) = chars_of a ++ chars_of b).
  { unfold chars_of. induction a as [|c a IH]; [done|]. simpl. by f_equal. }
  unfold plain_text. rewrite Happ. intros [? ?] [? ?]. by rewrite !not_elem_of_app.
Qed.

Lemma hex_digit_plain d : hex_digit d <> "?"%char /\ hex_digit d <> "&"%char.
Proof.
  unfold hex_digit. destruct (hex_chars !! Z.to_nat d) as [c|] eqn:E; [|done]. simpl.
  apply list_elem_of_lookup_2 in E. revert c E. apply Forall_forall.
  by apply (bool_decide_unpack (Forall (fun c => c <> "?"%char /\ c <> "&"%char) hex_chars)).
Qed.

Lemma hex_loop_plain fuel : forall z acc,
  "?"%char ∉ acc -> "&"%char ∉ acc -> "?"%char ∉ hex_loop fuel z acc /\ "&"%char ∉ hex_loop fuel z acc.
Proof.
  induction fuel as [|fuel IH]; intros z acc H1 H2; simpl; [done|].
  destruct (hex_digit_plain (z mod 16)) as [Hq Ha].
  assert ("?"%char ∉ hex_digit (z mod 16) :: acc /\ "&"%char ∉ hex_digit (z mod 16) :: acc) as [? ?]
    by (rewrite !not_elem_of_cons; split; split; congruence).
  destruct (_ =? 0)%Z; [done|]. by apply IH.
Qed.

Lemma data_key_plain instance_id spec_name k :
  plain_text instance_id -> plain_text spec_name -> plain_text (data_key instance_id spec_name k).
Proof.
  intros Hi Hs. unfold data_key. assert (Hsl : plain_text "/").
  { by apply (bool_decide_unpack ("?"%char ∉ chars_of "/" /\ "&"%char ∉ chars_of "/")). }
  do 4 (apply plain_text_app; [done|]). unfold plain_text, Uint64ToHex, chars_of.
  rewrite String.list_ascii_of_string_of_list_ascii. apply hex_loop_plain; apply not_elem_of_nil.
Qed.

Lemma plain_spec_rows instance_id keys group_names groups si rows :
  plain_text instance_id -> plain_text (si_name si) ->
  spec_rows instance_id keys group_names groups si = Some rows -> forall r, r ∈ rows -> plain_text r.1.
Proof.
  intros Hi Hs Hr r Hin. apply spec_rows_spec in Hr as ->. apply list_elem_of_omap in Hin as ([i k] & _ & Heq).
  simpl in Heq. destruct (wants _ _ _ _); simplify_eq. by apply data_key_plain.
Qed.

#[export] Instance plain_text_dec t : Decision (plain_text t).
Proof. unfold plain_text. apply _. Defined.

#[export] Instance plain_names_dec instance_id infos : Decision (plain_names instance_id infos).
Proof. unfold plain_names. apply _. Defined.

(** A URI that survives printing, on its storage. *)
Definition printable (nu : string * StandardUri) : Prop :=
  hostname_ nu.2 = chars_of nu.1 /\ nu.1 <> "" /\ wf_uri nu.2 /\ at_unambiguous nu.2 /\ Valid nu.2 = true.

(** A world that remembers the calls: the URIs whose creation was answered
    with [EC_OK], and those handed to [Delete], each with its backend. *)
Record Logged (W : Type) := mkLogged {
  world : W;
  made : list (DataStorageBackend * StandardUri);
  dropped : list (DataStorageBackend * StandardUri);
}.
Arguments mkLogged {W}.
Arguments world {W}.
Arguments made {W}.
Arguments dropped {W}.

Section ledger.
Context {W : Type}.
Variable bk_Create : DataStorageBackend -> list string -> Z -> W -> list (ErrorCode * StandardUri) * W.
Variable bk_Delete : DataStorageBackend -> list StandardUri -> W -> list ErrorCode * W.
Variable dsm : DataStorageManager.

Definition logged_Create (b : DataStorageBackend) (keys : list string) (sz : Z) (w : Logged W)
    : list (ErrorCode * StandardUri) * Logged W :=
  let '(res, w1) := bk_Create b keys sz (world w) in
  (res, mkLogged w1 (made w ++ ((fun u => (b, strip u)) <$> ok_uris res)) (dropped w)).

Definition logged_Delete (b : DataStorageBackend) (us : list StandardUri) (w : Logged W) : list ErrorCode * Logged W :=
  let '(codes, w1) := bk_Delete b us (world w) in
  (codes, mkLogged w1 (made w) (dropped w ++ ((fun u => (b, strip u)) <$> us))).

Local Abbreviation Create := (StorageManager.Create logged_Create).
Local Abbreviation Delete := (StorageManager.Delete logged_Delete).

(** What is asked of the backends: [Create] answers every key, and for plain
    keys with URIs that survive printing under the storage's name; a
    registered storage has a name. Nothing is asked of [Delete], and a URI may
    be given out again. *)
Record StorageLaws : Prop := mkLaws {
  create_count b ks sz w : length (bk_Create b ks sz w).1 = length ks;
  create_printable name b ks sz w u :
    dsm !! name = Some b -> Forall plain_text ks -> (EC_OK, u) ∈ (bk_Create b ks sz w).1 ->
    let v := SetHostName name u in wf_uri v /\ at_unambiguous v /\ Valid v = true;
  storage_named : dsm !! "" = None;
}.

Hypothesis laws : StorageLaws.

(** URIs on named storages, as their backends know them. *)
Definition data_of (held : list (string * StandardUri)) : list (DataStorageBackend * StandardUri) :=
  omap (fun nu => (fun b => (b, strip nu.2)) <$> dsm !! nu.1) held.

(** Since [w0], the storages made what [held] names and dropped nothing. *)
Definition gained (w0 : Logged W) (held : list (string * StandardUri)) (w : Logged W) : Prop :=
  made w ≡ₚ made w0 ++ data_of held /\ dropped w = dropped w0.

(** Since [w0], everything the storages made was handed to their [Delete],
    as often as it was made, and nothing else was. *)
Definition undone (w0 w : Logged W) : Prop :=
  exists lost, made w ≡ₚ made w0 ++ lost /\ dropped w ≡ₚ dropped w0 ++ lost.

Lemma data_of_app h1 h2 : data_of (h1 ++ h2) = data_of h1 ++ data_of h2.
Proof. apply omap_app. Qed.

Lemma data_of_perm : Proper (Permutation ==> Permutation) data_of.
Proof. intros h1 h2 Hh. unfold data_of. by rewrite Hh. Qed.

Lemma data_of_on name us b :
  dsm !! name = Some b -> data_of ((fun u => (name, u)) <$> us) = (fun u => (b, strip u)) <$> us.
Proof. intros Hb. unfold data_of. induction us as [|u us IH]; [done|]. csimpl. rewrite Hb. simpl. by f_equal. Qed.

Lemma gained_nil w : gained w [] w.
Proof. split; [|done]. by rewrite app_nil_r. Qed.

Lemma undone_refl w : undone w w.
Proof. exists []. by rewrite !app_nil_r. Qed.

Lemma elem_of_ok_uris u results : u ∈ ok_uris results <-> (EC_OK, u) ∈ results.
Proof.
  unfold ok_uris. rewrite list_elem_of_omap. split.
  - intros ([e u'] & Hin & Heq). simpl in Heq. case_bool_decide; simplify_eq. by subst.
  - intros Hin. by exists (EC_OK, u).
Qed.

Lemma Create_results name ks sz w res w' :
  Create dsm name ks sz w = (res, w') ->
  (dsm !! name = None /\ res = [] /\ w' = w) \/
  (exists b, dsm !! name = Some b /\ length res = length ks /\
    ((ok_uris res = [] /\ w' = w) \/
     (w' = (logged_Create b ks sz w).2 /\ ok_uris res = SetHostName name <$> ok_uris (bk_Create b ks sz (world w)).1))).
Proof.
  unfold StorageManager.Create. destruct (dsm !! name) as [b|] eqn:Eb; [right; exists b|left; by simplify_eq].
  split; [done|]. destruct (Available b); simpl in *.
  - unfold logged_Create in *. pose proof (create_count laws b ks sz (world w)) as Hlen.
    destruct (bk_Create b ks sz (world w)) as [r w1]. simpl in *.
    simplify_eq. rewrite length_fmap. split; [done|]. right. split; [done|].
    clear. induction r as [|[e u] r IH]; [done|]. unfold ok_uris in *. csimpl.
    destruct (decide (e = EC_OK)) as [->|He]; [rewrite !bool_decide_eq_true_2 by done; csimpl; by rewrite IH|].
    by rewrite !(bool_decide_eq_false_2 (e = EC_OK)) by done.
  - simplify_eq. rewrite length_replicate. split; [done|]. left. split; [|done].
    induction (length ks) as [|n IH]; [done|]. unfold ok_uris in *. csimpl. exact IH.
Qed.

Lemma Create_gained w0 held name ks sz w res w' :
  gained w0 held w -> Forall plain_text ks -> Create dsm name ks sz w = (res, w') ->
  let new := (fun u => (name, u)) <$> ok_uris res in gained w0 (held ++ new) w' /\ Forall printable new.
Proof.
  intros [Hm Hd] Hk Hc new. unfold new. clear new.
  apply Create_results in Hc as [(Hn & -> & ->)|(b & Hb & Hlen & [[-> ->]|(-> & Hok)])];
    [csimpl; rewrite app_nil_r; by split..|].
  unfold gained. rewrite data_of_app, (data_of_on name _ b Hb), Hok. unfold logged_Create.
  pose proof (fun u => create_printable laws name b ks sz (world w) u Hb Hk) as Hp.
  destruct (bk_Create b ks sz (world w)) as [r w1]. simpl in *. split; [split; [|done]|].
  - rewrite Hm, <-app_assoc. f_equiv. rewrite <-list_fmap_compose. done.
  - apply Forall_forall. intros nu (u & -> & (u0 & -> & Hin%elem_of_ok_uris)%list_elem_of_fmap)%list_elem_of_fmap.
    destruct (Hp u0 Hin) as (? & ? & ?). unfold printable. split_and!; try done.
    simpl. intros ->. by rewrite (storage_named laws) in Hb.
Qed.

(** Deleting hands the URIs to the storage. *)
Lemma Delete_drops name us w :
  let w' := (Delete dsm name us w).2 in
  made w' = made w /\ dropped w' = dropped w ++ data_of ((fun u => (name, u)) <$> us).
Proof.
  unfold StorageManager.Delete. destruct us as [|u us]; [simpl; by rewrite app_nil_r|].
  destruct (dsm !! name) as [b|] eqn:Eb.
  - rewrite (data_of_on name _ b Eb). unfold logged_Delete. by destruct (bk_Delete b (u :: us) (world w)).
  - split; [done|]. assert (Hnil : forall l, data_of ((fun u => (name, u)) <$> l) = []); [|by rewrite Hnil, app_nil_r].
    unfold data_of. induction l as [|v l IH]; [done|]. csimpl. by rewrite Eb.
Qed.

(** Like [gained], when some of what was made was dropped again. *)
Definition kept (w0 : Logged W) (held : list (string * StandardUri)) (w : Logged W) : Prop :=
  exists lost, made w ≡ₚ made w0 ++ data_of held ++ lost /\ dropped w ≡ₚ dropped w0 ++ lost.

Lemma gained_drop w0 h1 h2 w w' :
  gained w0 (h1 ++ h2) w -> made w' = made w -> dropped w' ≡ₚ dropped w ++ data_of h2 -> kept w0 h1 w'.
Proof. intros [Hm Hd] Hm' Hd'. exists (data_of h2). by rewrite Hm', Hm, Hd', Hd, data_of_app. Qed.

Lemma kept_drop w0 h w w' :
  kept w0 h w -> made w' = made w -> dropped w' ≡ₚ dropped w ++ data_of h -> undone w0 w'.
Proof.
  intros (lost & Hm & Hd) Hm' Hd'. exists (data_of h ++ lost). rewrite Hm', Hm, Hd', Hd. split; [done|].
  rewrite <-app_assoc. f_equiv. apply Permutation_app_comm.
Qed.

Lemma gained_kept w0 h w : gained w0 h w -> kept w0 h w.
Proof. intros [Hm Hd]. exists []. by rewrite !app_nil_r, Hd. Qed.

(** *** One storage *)

Section storage.
Variables (instance_id : string) (keys : list KeyType) (group_names : list string) (groups : list LocationSpecGroup).
Variable name : string.

Local Abbreviation wanted := (fun j => filter (fun si => wants group_names groups j si = true)).

(** The specs [infos] are allocated for every block that wants them. *)
Definition alloc_done (infos : list LocationSpecInfo) (a : Alloc) : Prop :=
  alloc_wf a /\ length (key_to_uris a) = length keys /\
  (forall j, j < length keys -> exists l, alloc_rows a !! j = Some l /\ l.*1 = wanted j infos) /\
  allocated_uris a ≡ₚ (mjoin (alloc_rows a)).*2.

(** Rows that ask for the specs [infos]. *)
Definition rows_for (infos : list LocationSpecInfo) (rows : list CreateRow) : Prop :=
  (forall j, j < length keys -> specs_at j rows = wanted j infos) /\
  Forall (fun r => r.2.1 < length keys /\ plain_text r.1) rows.

Lemma record_results_done infos1 infos2 rows results a :
  alloc_done infos1 a -> rows_for infos2 rows ->
  is_create_success (record_results rows results a) = true ->
  alloc_done (infos1 ++ infos2) (record_results rows results a).
Proof.
  intros (Hwf & Hlen & Hrows & Huris) [Hat Hrange] Hsuc. unfold record_results in *. simpl in Hsuc.
  apply andb_true_iff in Hsuc as [Hsuc Hall%results_all_ok]. apply andb_true_iff in Hsuc as [_ Hl%Nat.eqb_eq].
  set (us := ok_uris results) in *. assert (Hlu : length us = length rows) by (by rewrite <-Hl, Hall, length_fmap).
  rewrite Hall. destruct (record_all_ok rows us a Hwf Hlu) as (Hwf' & _ & Hlen' & _ & Hrows').
  pose proof (record_all_named rows us a Hwf Hlu) as Hnamed.
  set (a' := foldl record_one a _) in *. unfold alloc_done, alloc_wf, alloc_rows in *. cbn [allocated_uris key_to_uris].
  split_and!; [exact Hwf'|congruence| |].
  - intros j Hj. destruct (Hrows j Hj) as (l & Hl' & Hf). exists (l ++ rows_at j rows us). split; [by apply Hrows'|].
    rewrite fmap_app, Hf, rows_at_specs, Hat, filter_app by done. done.
  - apply Hnamed; [|exact Huris]. rewrite Hlen. eapply Forall_impl; [exact Hrange|]. intros r [? _]. done.
Qed.

(** What a sequence of creations leaves. *)
Definition created (w0 : Logged W) (held : list (string * StandardUri)) (infos : list LocationSpecInfo) (a : Alloc)
    (w : Logged W) : Prop :=
  let new := (fun u => (name, u)) <$> allocated_uris a in
  gained w0 (held ++ new) w /\ Forall printable new /\ (is_create_success a = true -> alloc_done infos a).

Lemma Create_created w0 held infos1 infos2 rows sz a w res w' :
  created w0 held infos1 a w -> is_create_success a = true -> rows_for infos2 rows ->
  Create dsm name rows.*1 sz w = (res, w') ->
  created w0 held (infos1 ++ infos2) (record_results rows res a) w'.
Proof.
  intros (Hh & Hp & Hdone) Hsuc Hrows Hc. pose proof (Create_results _ _ _ _ _ _ Hc) as Hres.
  assert (Hle : length res <= length rows).
  { rewrite <-(length_fmap fst rows). destruct Hres as [(_ & -> & _)|(b & _ & -> & _)]; simpl; lia. }
  assert (Hplain : Forall plain_text rows.*1).
  { apply Forall_fmap. eapply Forall_impl; [apply Hrows|]. intros r [_ ?]. done. }
  destruct (Create_gained _ _ _ _ _ _ _ _ Hh Hplain Hc) as (Hh' & Hp').
  unfold created. change (allocated_uris (record_results rows res a)) with
    (allocated_uris (foldl record_one a (zip res rows.*2))).
  rewrite record_allocated, fmap_app, app_assoc by done. split_and!; [done|by apply Forall_app|].
  intros Hs. apply record_results_done; auto.
Qed.

Lemma spec_rows_for si rows :
  plain_text instance_id -> plain_text (si_name si) ->
  spec_rows instance_id keys group_names groups si = Some rows -> rows_for [si] rows.
Proof.
  intros Hi Hs Hr. split.
  - intros j Hj. rewrite (spec_rows_at _ _ _ _ _ _ _ Hr Hj), filter_cons. by destruct (wants group_names groups j si).
  - apply Forall_forall. intros [dk [j si']] Hin. split; [by eapply spec_rows_range|].
    by eapply (plain_spec_rows _ _ _ _ _ _ Hi Hs Hr).
Qed.

Lemma all_spec_rows_for infos : forall rows, plain_names instance_id infos ->
  mjoin <$> mapM (spec_rows instance_id keys group_names groups) infos = Some rows -> rows_for infos rows.
Proof.
  induction infos as [|si infos IH]; intros rows [Hi Hn]; csimpl.
  { intros [= <-]. split; [done|constructor]. }
  apply Forall_cons in Hn as [Hsi Hn].
  destruct (spec_rows instance_id keys group_names groups si) as [r|] eqn:Er; [|done]. simpl.
  destruct (mapM _ infos) as [rs|]; [|done]. simpl. intros [= <-]. destruct (IH (mjoin rs) (conj Hi Hn) eq_refl) as [Ha Hr].
  destruct (spec_rows_for si r Hi Hsi Er) as [Ha1 Hr1]. split; [|by apply Forall_app].
  intros j Hj. rewrite specs_at_app, Ha, Ha1 by done. by rewrite <-filter_app.
Qed.

(** Whether the groups are registered does not depend on the spec. *)
Lemma spec_rows_uniform si si' :
  is_Some (spec_rows instance_id keys group_names groups si) -> is_Some (spec_rows instance_id keys group_names groups si').
Proof.
  unfold spec_rows. destruct group_names as [|g gs]; [done|]. rewrite !fmap_is_Some, !mapM_is_Some. intros Hall.
  eapply Forall_impl; [exact Hall|]. intros ik. unfold compose, IsSpecNameInSpecGroup.
  destruct (find_group groups _); [done|]. by intros [].
Qed.

Definition start_alloc : Alloc := mkAlloc [] (replicate (length keys) []) true.

Lemma created_start w0 held w : gained w0 held w -> created w0 held [] start_alloc w.
Proof.
  intros Hh. unfold created. simpl. rewrite app_nil_r. split_and!; [done|constructor|].
  intros _. unfold alloc_done, alloc_rows. simpl. rewrite length_replicate.
  split_and!; [by apply Forall_replicate|done| |].
  - intros j Hj. exists []. split; [|done]. by rewrite list_lookup_fmap, lookup_replicate_2.
  - induction (length keys) as [|n IH]; [done|]. exact IH.
Qed.

Lemma created_skip w0 held infos1 infos2 a w :
  created w0 held infos1 a w -> is_create_success a = true -> rows_for infos2 [] -> created w0 held (infos1 ++ infos2) a w.
Proof.
  intros (Hh & Hp & Hdone) Hs Hr. split_and!; [done..|]. intros _.
  pose proof (record_results_done infos1 infos2 [] [] a (Hdone Hs) Hr) as H. unfold record_results in H. simpl in H.
  rewrite Hs in H. destruct a as [us ks b]. simpl in *. subst b. by apply H.
Qed.

Lemma CreateBySpec_created infos : forall w0 held infos1 a w ec a' w',
  plain_names instance_id infos -> created w0 held infos1 a w -> is_create_success a = true ->
  (forall si, is_Some (spec_rows instance_id keys group_names groups si)) ->
  CreateBySpec logged_Create instance_id keys group_names groups dsm name infos a w = ((ec, a'), w') ->
  ec = EC_OK /\ created w0 held (infos1 ++ infos) a' w'.
Proof.
  induction infos as [|si infos IH]; intros w0 held infos1 a w ec a' w' [Hi Hn] Hc Hs Hsome Hrun; cbn [CreateBySpec] in Hrun.
  { simplify_eq. by rewrite app_nil_r. }
  apply Forall_cons in Hn as [Hsi Hn]. rewrite cons_middle, app_assoc.
  destruct (spec_rows instance_id keys group_names groups si) as [[|r rows]|] eqn:Er; [| |by destruct (Hsome si); congruence].
  { eapply IH; [by split| |done|done|exact Hrun]. apply created_skip; [done..|]. by apply spec_rows_for. }
  remember (r :: rows) as rs eqn:Hrs. clear Hrs r rows.
  destruct (Create dsm name rs.*1 (si_size si) w) as [res w1] eqn:Ecr.
  apply (Create_created _ _ _ [si] _ _ _ _ _ _ Hc Hs) in Ecr; [|by apply spec_rows_for].
  destruct (is_create_success (record_results rs res a)) eqn:Es; [by eapply IH|]. simplify_eq. split; [done|].
  destruct Ecr as (? & ? & _). split_and!; try done. by rewrite Es.
Qed.

Lemma CreateBySpec_refused infos a w :
  (forall si, spec_rows instance_id keys group_names groups si = None) -> infos <> [] ->
  CreateBySpec logged_Create instance_id keys group_names groups dsm name infos a w = ((EC_ERROR, a), w).
Proof. intros Hn. destruct infos as [|si infos]; [done|]. intros _. cbn [CreateBySpec]. by rewrite Hn. Qed.

(** Both ways of creating, on all specs of an instance. *)
Lemma creation_spec info w0 held w ec a w' :
  groups = location_spec_groups_ info -> plain_names instance_id (location_spec_infos_ info) -> gained w0 held w ->
  (if same_size (location_spec_infos_ info)
   then CreateInSingleBatch logged_Create instance_id keys group_names info dsm name
          (match location_spec_infos_ info with [] => 0%Z | si :: _ => si_size si end) start_alloc w
   else CreateBySpec logged_Create instance_id keys group_names (location_spec_groups_ info) dsm name
          (location_spec_infos_ info) start_alloc w) = ((ec, a), w') ->
  (ec = EC_ERROR /\ w' = w) \/ (ec = EC_OK /\ created w0 held (location_spec_infos_ info) a w').
Proof.
  intros Hg Hpl Hh Hrun. pose proof (created_start w0 held w Hh) as Hc. destruct (same_size _) eqn:Esz.
  - unfold CreateInSingleBatch in Hrun. rewrite <-Hg in Hrun.
    destruct (mjoin <$> mapM _ _) as [rows|] eqn:Er; [|simplify_eq; by left]. right.
    destruct (Create dsm name rows.*1 _ w) as [res w1] eqn:Ecr. simplify_eq. split; [done|].
    apply (Create_created _ _ _ (location_spec_infos_ info) _ _ _ _ _ _ Hc) in Ecr; [done|done|]. by apply all_spec_rows_for.
  - rewrite <-Hg in Hrun. destruct (location_spec_infos_ info) as [|si0 infos]; [done|].
    destruct (spec_rows instance_id keys group_names groups si0) eqn:Er.
    + right. eapply (CreateBySpec_created _ w0 held []); [exact Hpl|exact Hc|done| |exact Hrun].
      intros si. eapply spec_rows_uniform. by rewrite Er.
    + left. rewrite CreateBySpec_refused in Hrun; [by simplify_eq| |done].
      intros si. apply eq_None_not_Some. intros Hsi. apply (spec_rows_uniform si si0) in Hsi. rewrite Er in Hsi. by destruct Hsi.
Qed.

End storage.

End ledger.

#[export] Instance data_of_Proper dsm : Proper (Permutation ==> Permutation) (data_of dsm) := data_of_perm dsm.
