(* ===== verification/StorageBackends.v ===== *)
(** * StorageBackends: the data storages of [data_storage/]

    The NFS, HF3FS, dummy and Mooncake backends ([nfs_backend.cc],
    [hf3fs_backend.cc], [dummy_backend.cc], [mooncake_backend.cc]): the URIs
    they give out, what their [Delete] and [Exist] ask of the file system or
    of the Mooncake client (parameters over a state [W]), and that they give
    what [WriteAlloc.StorageLaws] asks of a storage. Their URIs are computed
    from the data keys, so a key asked for again gets the same URI. *)

From stdpp Require Import base gmap sets list strings.
From Stdlib Require Import ZArith Lia Ascii.
From S2P Require Import Prelude StandardUri MetaTypes StorageManager ConfigJson Registry StorageSelect WriteFilter WriteAlloc.

(** What the specs of the file backends configure: [base_path_] (the root
    path of NFS, the mount point and root directory of HF3FS). *)
Record FileSpec := mkFileSpec {
  base_path_ : chars;
  key_count_per_file_ : Z;
  touch_file_when_create_ : bool;
  memory_only_ : bool;
}.

(** [StringUtil::Join]. *)
Fixpoint join_parts (sep : chars) (parts : list chars) : chars :=
  match parts with
  | [] => []
  | [p] => p
  | p :: parts => p ++ sep ++ join_parts sep parts
  end.

(** The loop that cuts the keys into batches of [n >= 1]; the number of keys
    bounds its rounds. *)
Fixpoint batches_of {A} (fuel n : nat) (l : list A) : list (list A) :=
  match fuel, l with
  | S fuel, _ :: _ => take n l :: batches_of fuel n (drop n l)
  | _, _ => []
  end.

Definition batch_size_of (spec : FileSpec) : Z := if (key_count_per_file_ spec <=? 0)%Z then 1 else key_count_per_file_ spec.

(** [std::filesystem::path::operator/] on generic paths. *)
Definition path_append (base p : chars) : chars :=
  match p with
  | "/"%char :: _ => p
  | _ => match last base with
         | None | Some "/"%char => base ++ p
         | Some _ => base ++ ["/"%char] ++ p
         end
  end.

(** What [DoOpen] takes from the spec (nothing when it has another class). *)
Definition file_spec (c : StorageConfig) : FileSpec :=
  match storage_spec_ c with
  | Some (NfsStorageSpec root_path n) => mkFileSpec (chars_of root_path) n false false
  | Some (ThreeFSStorageSpec _ mountpoint root_dir n touch) =>
      mkFileSpec (path_append (chars_of mountpoint) (chars_of root_dir)) n touch false
  | Some (DummyStorageSpec root_path n) =>
      if bool_decide (root_path = "memory://") then mkFileSpec (chars_of "/memory") n false true
      else mkFileSpec (chars_of root_path) n false false
  | _ => mkFileSpec [] 0 false false
  end.

Section backends.
Context {W : Type}.
(** [Hash64] with the seed of the backends. *)
Variable Hash64 : chars -> Z.
(** [std::filesystem::create_directories] succeeds. *)
Variable create_directories : chars -> W -> bool.
(** The file system: a remove reports an error or not; [TouchFile]. *)
Variable fs_remove : chars -> W -> bool * W.
Variable fs_exists : chars -> W -> bool.
Variable TouchFile : chars -> W -> W.
(** The Mooncake client: [true] when the call succeeds. *)
Variable mooncake_client_remove : chars -> W -> bool * W.
Variable mooncake_client_query : chars -> W -> bool.

Definition spec_ (b : DataStorageBackend) : FileSpec := file_spec (config_ b).

(** [DoOpen] of the file backends; the other backends open by [other_Open]. *)
Variable other_Open : StorageConfig -> W -> ErrorCode.

Definition Nfs_DoOpen (c : StorageConfig) : ErrorCode :=
  match storage_spec_ c with Some (NfsStorageSpec _ _) => EC_OK | _ => EC_ERROR end.

Definition Hf3fs_DoOpen (c : StorageConfig) (w : W) : ErrorCode :=
  match storage_spec_ c with
  | Some (ThreeFSStorageSpec _ mountpoint root_dir _ _) =>
      let need_check_available := check_storage_available_when_open_ c in
      if bool_decide (mountpoint = "") then EC_ERROR
      else if need_check_available && negb (fs_exists (chars_of mountpoint) w) then EC_ERROR
      else if bool_decide (root_dir = "") then EC_ERROR
      else if need_check_available && negb (fs_exists (base_path_ (file_spec c)) w) then EC_ERROR
      else EC_OK
  | _ => EC_ERROR
  end.

Definition Dummy_DoOpen (c : StorageConfig) (w : W) : ErrorCode :=
  match storage_spec_ c with
  | Some (DummyStorageSpec root_path _) =>
      if bool_decide (root_path = "") then EC_ERROR
      else if memory_only_ (file_spec c) then EC_OK
      else if create_directories (base_path_ (file_spec c)) w then EC_OK else EC_ERROR
  | _ => EC_ERROR
  end.

Definition bk_Open (w : W) (c : StorageConfig) : ErrorCode :=
  match type_ c with
  | DATA_STORAGE_TYPE_NFS => Nfs_DoOpen c
  | DATA_STORAGE_TYPE_HF3FS => Hf3fs_DoOpen c w
  | DATA_STORAGE_TYPE_DUMMY => Dummy_DoOpen c w
  | _ => other_Open c w
  end.

(** The file of a batch: the key itself, or the first key and the hash of all. *)
Definition file_name (batch : list chars) : chars :=
  match batch with
  | [] => []
  | [k] => k
  | k :: _ => k ++ ["_"%char] ++ chars_of (Uint64ToHex (Hash64 (join_parts ["|"%char] batch)))
  end.

(** The results of one batch. *)
Definition batch_results (type : DataStorageType) (path : chars -> chars) (spec : FileSpec) (size_per_key : Z)
    (batch : list chars) : list (ErrorCode * StandardUri) :=
  let storage_uri := SetParam (chars_of "size") (to_dec (u64 size_per_key))
    (mkStandardUri (chars_of (storage_type_ToString type)) [] [] 0 (path (file_name batch)) []) in
  imap (fun j _ => (EC_OK, if (1 <? batch_size_of spec)%Z then SetParam (chars_of "blkid") (to_dec (Z.of_nat j)) storage_uri
                           else storage_uri)) batch.

Definition file_results (type : DataStorageType) (path : chars -> chars) (spec : FileSpec) (size_per_key : Z)
    (keys : list string) : list (ErrorCode * StandardUri) :=
  batches_of (length keys) (Z.to_nat (batch_size_of spec)) (chars_of <$> keys) ≫= batch_results type path spec size_per_key.

Definition Nfs_Create (b : DataStorageBackend) (keys : list string) (size_per_key : Z) (w : W)
    : list (ErrorCode * StandardUri) * W :=
  (file_results DATA_STORAGE_TYPE_NFS (fun f => base_path_ (spec_ b) ++ f) (spec_ b) size_per_key keys, w).

(** Not supported: nothing is deleted. *)
Definition Nfs_Delete (b : DataStorageBackend) (uris : list StandardUri) (w : W) : list ErrorCode * W :=
  (replicate (length uris) EC_OK, w).

Definition Nfs_Exist (b : DataStorageBackend) (uris : list StandardUri) (w : W) : list bool := replicate (length uris) true.

(** Removing the files of the URIs. *)
Definition remove_files (uris : list StandardUri) (w : W) : list ErrorCode * W :=
  foldl (fun '(result, w) u =>
    let '(failed, w) := fs_remove (path_ u) w in (result ++ [if failed : bool then EC_ERROR else EC_OK], w))
    ([], w) uris.

Definition Hf3fs_Create (b : DataStorageBackend) (keys : list string) (size_per_key : Z) (w : W)
    : list (ErrorCode * StandardUri) * W :=
  let result := file_results DATA_STORAGE_TYPE_HF3FS (path_append (base_path_ (spec_ b))) (spec_ b) size_per_key keys in
  (result, if touch_file_when_create_ (spec_ b) then foldl (fun w r => TouchFile (path_ r.2) w) w result else w).

Definition Hf3fs_Delete (b : DataStorageBackend) (uris : list StandardUri) (w : W) : list ErrorCode * W := remove_files uris w.

Definition Hf3fs_Exist (b : DataStorageBackend) (uris : list StandardUri) (w : W) : list bool :=
  (fun u => fs_exists (path_ u) w) <$> uris.

Definition Dummy_Create (b : DataStorageBackend) (keys : list string) (size_per_key : Z) (w : W)
    : list (ErrorCode * StandardUri) * W :=
  (file_results DATA_STORAGE_TYPE_DUMMY (path_append (base_path_ (spec_ b))) (spec_ b) size_per_key keys, w).

Definition Dummy_Delete (b : DataStorageBackend) (uris : list StandardUri) (w : W) : list ErrorCode * W :=
  if memory_only_ (spec_ b) then (replicate (length uris) EC_OK, w) else remove_files uris w.

Definition Dummy_Exist (b : DataStorageBackend) (uris : list StandardUri) (w : W) : list bool :=
  if memory_only_ (spec_ b) then replicate (length uris) true else (fun u => fs_exists (path_ u) w) <$> uris.

Definition Mooncake_Create (b : DataStorageBackend) (keys : list string) (size_per_key : Z) (w : W)
    : list (ErrorCode * StandardUri) * W :=
  ((fun k => (EC_OK, SetParam (chars_of "size") (to_dec (u64 size_per_key)) (SetParam (chars_of "key") (chars_of k)
     (mkStandardUri (chars_of (storage_type_ToString DATA_STORAGE_TYPE_MOONCAKE)) [] [] 0 ["/"%char] [])))) <$> keys, w).

Definition Mooncake_Delete (b : DataStorageBackend) (uris : list StandardUri) (w : W) : list ErrorCode * W :=
  foldl (fun '(result, w) u =>
    let '(ok, w) := mooncake_client_remove (GetParam (chars_of "key") u) w in
    (result ++ [if ok : bool then EC_OK else EC_ERROR], w)) ([], w) uris.

Definition Mooncake_Exist (b : DataStorageBackend) (uris : list StandardUri) (w : W) : list bool :=
  (fun u => mooncake_client_query (GetParam (chars_of "key") u) w) <$> uris.

(** The virtual calls; the backends that are not here are [other_*]. *)
Variable other_Create : DataStorageBackend -> list string -> Z -> W -> list (ErrorCode * StandardUri) * W.
Variable other_Delete : DataStorageBackend -> list StandardUri -> W -> list ErrorCode * W.

Definition bk_Create (b : DataStorageBackend) : list string -> Z -> W -> list (ErrorCode * StandardUri) * W :=
  match GetType b with
  | DATA_STORAGE_TYPE_NFS => Nfs_Create b
  | DATA_STORAGE_TYPE_HF3FS => Hf3fs_Create b
  | DATA_STORAGE_TYPE_DUMMY => Dummy_Create b
  | DATA_STORAGE_TYPE_MOONCAKE => Mooncake_Create b
  | _ => other_Create b
  end.

Definition bk_Delete (b : DataStorageBackend) : list StandardUri -> W -> list ErrorCode * W :=
  match GetType b with
  | DATA_STORAGE_TYPE_NFS => Nfs_Delete b
  | DATA_STORAGE_TYPE_HF3FS => Hf3fs_Delete b
  | DATA_STORAGE_TYPE_DUMMY => Dummy_Delete b
  | DATA_STORAGE_TYPE_MOONCAKE => Mooncake_Delete b
  | _ => other_Delete b
  end.

(** ** Opening what the registry recovered *)

(** A storage that opened opens again from what its text keeps, unless it is
    a dummy storage, which never does. *)
Lemma bk_Open_kept w a a' c :
  (other_Open (set_is_available a c) w = EC_OK -> other_Open (config_kept (set_is_available a' c)) w = EC_OK) ->
  type_ c <> DATA_STORAGE_TYPE_DUMMY -> bk_Open w (set_is_available a c) = EC_OK ->
  bk_Open w (config_kept (set_is_available a' c)) = EC_OK.
Proof.
  intros Ho Hd. destruct c as [type n sp ck av]. unfold bk_Open. simpl in *. destruct type; try done; clear Ho Hd.
  - unfold Hf3fs_DoOpen, file_spec. simpl. destruct sp as [[]|]; try done. simpl. repeat case_bool_decide; try done;
      by repeat case_match.
  - unfold Nfs_DoOpen. simpl. by destruct sp as [[]|].
Qed.

Lemma dummy_never_recovered w c :
  type_ c = DATA_STORAGE_TYPE_DUMMY ->
  exists c', config_from_json (config_to_json c) = Some c' /\ bk_Open w c' = EC_ERROR.
Proof. intros Ht. eexists. split; [by apply dummy_spec_lost|done]. Qed.

(** ** They answer every key with a URI that survives printing *)

Lemma length_batches {A} fuel : forall n (l : list A), 0 < n -> length l <= fuel -> length (mjoin (batches_of fuel n l)) = length l.
Proof.
  induction fuel as [|fuel IH]; intros n l Hn Hl; [by destruct l; simpl in Hl; [|lia]|].
  destruct l as [|x l]; [done|]. cbn [batches_of mjoin list_join]. rewrite length_app, IH, <-length_app, take_drop; [done|done|].
  rewrite length_drop. simpl in *. lia.
Qed.

Lemma elem_of_batches {A} fuel : forall n (l : list A) bt x, bt ∈ batches_of fuel n l -> x ∈ bt -> x ∈ l.
Proof.
  induction fuel as [|fuel IH]; intros n l bt x Hb Hx; [by apply not_elem_of_nil in Hb|].
  destruct l as [|y l]; [by apply not_elem_of_nil in Hb|]. cbn [batches_of] in Hb. apply elem_of_cons in Hb as [->|Hb].
  - rewrite <-(take_drop n (y :: l)). apply elem_of_app. by left.
  - rewrite <-(take_drop n (y :: l)). apply elem_of_app. right. by apply (IH n _ bt x Hb).
Qed.

Lemma batch_size_pos spec : 0 < Z.to_nat (batch_size_of spec).
Proof. unfold batch_size_of. destruct (Z.leb_spec (key_count_per_file_ spec) 0); lia. Qed.

Lemma length_file_results type path spec sz keys : length (file_results type path spec sz keys) = length keys.
Proof.
  unfold file_results. trans (length (mjoin (batches_of (length keys) (Z.to_nat (batch_size_of spec)) (chars_of <$> keys)))).
  - generalize (batches_of (length keys) (Z.to_nat (batch_size_of spec)) (chars_of <$> keys)). intros l.
    induction l as [|bt l IH]; [done|]. csimpl. rewrite !length_app, IH. unfold batch_results. by rewrite length_imap.
  - rewrite length_batches; [by rewrite length_fmap|apply batch_size_pos|by rewrite length_fmap].
Qed.

(** The digits of a number are no delimiters. *)
Lemma to_dec_plain z : (0 <= z)%Z -> "&"%char ∉ to_dec z.
Proof.
  intros Hz Hin. destruct (to_dec_spec z Hz) as (_ & Hd & _). rewrite Forall_forall in Hd. by apply Hd in Hin.
Qed.

Definition params_fine (u : StandardUri) : Prop := om_wf chars_ltb (params_ u) /\ Forall param_ok (params_ u).

Lemma SetParam_fine k v u : params_fine u -> param_ok (k, v) -> params_fine (SetParam k v u).
Proof.
  intros [Hw Hp] Hk. split; cbn [SetParam params_]; [apply om_set_wf; [apply _|exact Hw]|].
  rewrite (om_set_perm_erase chars_ltb). constructor; [done|]. by apply om_erase_Forall.
Qed.

(** A path as the backends build them. *)
Definition path_fine (p : chars) : Prop := exists p', p = "/"%char :: p' /\ "?"%char ∉ p'.

(** A storage name the URIs can carry as their host. *)
Definition host_fine (name : string) : Prop :=
  name <> "" /\ "/"%char ∉ chars_of name /\ "?"%char ∉ chars_of name /\ ":"%char ∉ chars_of name /\ "@"%char ∉ chars_of name.

(** What a backend gives out before the manager adds the host. *)
Definition made_uri (u : StandardUri) : Prop :=
  (exists type, protocol_ u = chars_of (storage_type_ToString type)) /\ user_info_ u = [] /\ port_ u = 0%Z /\ path_fine (path_ u) /\
  params_fine u.

Lemma made_uri_printable name u :
  host_fine name -> made_uri u -> let v := SetHostName name u in wf_uri v /\ at_unambiguous v /\ Valid v = true.
Proof.
  intros (_ & Hs & Hq & Hc & Hat) ((type & Hpr) & Hus & Hpo & (p & Hpath & Hp) & [Hw Hk]).
  assert (Htype : chars_of (storage_type_ToString type) <> [] /\
    find_sub (chars_of "://") (chars_of (storage_type_ToString type) ++ chars_of "://") = Some (length (chars_of (storage_type_ToString type))))
    by (by destruct type).
  split_and!.
  - unfold wf_uri. simpl. rewrite Hpr, Hus, Hpo, Hpath. split_and!; try done; try apply Htype; try apply not_elem_of_nil. right. eauto.
  - intros _. exact Hat.
  - unfold Valid. simpl. rewrite Hpr, bool_decide_eq_false_2 by apply Htype. done.
Qed.

Lemma SetParam_made k v u : made_uri u -> param_ok (k, v) -> made_uri (SetParam k v u).
Proof. intros (? & ? & ? & ? & ?) Hk. split_and!; try done. by apply SetParam_fine. Qed.

Lemma number_param k z : "&"%char ∉ k -> "="%char ∉ k -> (0 <= z)%Z -> param_ok (k, to_dec z).
Proof. intros ? ? ?. split_and!; [done..|]. by apply to_dec_plain. Qed.

Lemma elem_of_join_parts c sep parts : c ∈ join_parts sep parts -> c ∈ sep \/ exists p, p ∈ parts /\ c ∈ p.
Proof.
  induction parts as [|p parts IH]; [by intros ?%not_elem_of_nil|]. destruct parts as [|p' parts].
  - intros Hc. right. exists p. split; [left|done].
  - intros [Hc|[Hc|Hc]%elem_of_app]%elem_of_app; [right; exists p; split; [left|done]|by left|].
    destruct (IH Hc) as [?|(p'' & ? & ?)]; [by left|]. right. exists p''. split; [by right|done].
Qed.

Lemma file_name_plain batch : Forall (fun k => "?"%char ∉ k) batch -> "?"%char ∉ file_name batch.
Proof.
  intros Hb. unfold file_name. destruct batch as [|k batch]; [apply not_elem_of_nil|].
  apply Forall_cons in Hb as [Hk _]. destruct batch; [done|]. rewrite !not_elem_of_app. split_and!; [done|..].
  - apply not_elem_of_cons. split; [done|apply not_elem_of_nil].
  - unfold Uint64ToHex, chars_of. rewrite String.list_ascii_of_string_of_list_ascii.
    apply hex_loop_plain; apply not_elem_of_nil.
Qed.

Lemma path_append_fine base p : path_fine base -> "?"%char ∉ p -> path_fine (path_append base p).
Proof.
  intros (b & -> & Hb) Hp. unfold path_append.
  assert (Hcat : forall m, "?"%char ∉ m -> path_fine (("/"%char :: b) ++ m)).
  { intros m Hm. exists (b ++ m). split; [done|]. by apply not_elem_of_app. }
  assert (Hsep : "?"%char ∉ ["/"%char] ++ p) by (apply not_elem_of_cons; by split).
  destruct p as [|c p]; [|destruct (decide (c = "/"%char)) as [->|Hc]].
  - destruct (last ("/"%char :: b)) as [d|]; [|by apply Hcat]. by destruct d as [[] [] [] [] [] [] [] []]; apply Hcat.
  - exists p. split; [done|]. by apply not_elem_of_cons in Hp as [_ ?].
  - assert (Hm : path_fine (match last ("/"%char :: b) with None | Some "/"%char => ("/"%char :: b) ++ c :: p
      | Some _ => ("/"%char :: b) ++ ["/"%char] ++ c :: p end)).
    { destruct (last ("/"%char :: b)) as [d|]; [|by apply Hcat]. by destruct d as [[] [] [] [] [] [] [] []]; apply Hcat. }
    destruct c as [[] [] [] [] [] [] [] []]; try exact Hm. by destruct Hc.
Qed.

Lemma file_results_made type path spec sz keys e u :
  (forall p, "?"%char ∉ p -> path_fine (path p)) -> Forall plain_text keys ->
  (e, u) ∈ file_results type path spec sz keys -> made_uri u.
Proof.
  intros Hpath Hk (bt & Hu & Hb)%list_elem_of_bind. unfold batch_results in Hu.
  assert (Hbase : made_uri (SetParam (chars_of "size") (to_dec (u64 sz))
    (mkStandardUri (chars_of (storage_type_ToString type)) [] [] 0 (path (file_name bt)) []))).
  { apply SetParam_made; [|apply number_param; [by apply (bool_decide_unpack _)..|apply u64_range]].
    split_and!; simpl; [eauto|done|done| |by split; constructor]. apply Hpath, file_name_plain, Forall_forall. intros k Hin.
    apply (elem_of_batches _ _ _ _ _ Hb) in Hin. apply list_elem_of_fmap in Hin as (k' & -> & Hin).
    rewrite Forall_forall in Hk. by apply Hk. }
  apply list_elem_of_lookup in Hu as (j & Hj). rewrite list_lookup_imap in Hj. destruct (bt !! j); [|done]. simpl in Hj.
  injection Hj as <- <-. destruct (_ <? _)%Z; [|done].
  apply SetParam_made; [done|]. apply number_param; [by apply (bool_decide_unpack _)..|lia].
Qed.

(** The backends of the repository give what the allocation asks of a
    storage, when the other backends do, the storages have plain names and
    the file backends a rooted path. *)
Theorem backends_keep_laws dsm :
  StorageLaws other_Create dsm -> (forall name b, dsm !! name = Some b -> host_fine name /\ path_fine (base_path_ (spec_ b))) ->
  StorageLaws bk_Create dsm.
Proof.
  intros Hother Hdsm. split; [|..].
  - intros b ks sz w. pose proof (create_count _ _ Hother b ks sz w). unfold bk_Create.
    destruct (GetType b); try done; simpl; try apply length_file_results. by rewrite length_fmap.
  - intros name b ks sz w u Hb Hk Hu. pose proof (create_printable _ _ Hother name b ks sz w u Hb Hk) as Ho.
    destruct (Hdsm name b Hb) as [Hname Hbase]. unfold bk_Create in Hu.
    destruct (GetType b); try (by apply Ho); apply (made_uri_printable _ _ Hname); simpl in Hu.
    + by eapply file_results_made; [|exact Hk|exact Hu]; intros p Hp; apply path_append_fine.
    + apply list_elem_of_fmap in Hu as (k & [= ->] & Hin). rewrite Forall_forall in Hk.
      apply SetParam_made; [apply SetParam_made|apply number_param; [by apply (bool_decide_unpack _)..|apply u64_range]].
      * split_and!; simpl; [by exists DATA_STORAGE_TYPE_MOONCAKE|done|done| |by split; constructor].
        exists []. split; [done|apply not_elem_of_nil].
      * split_and!; [by apply (bool_decide_unpack _)..|]. by apply Hk.
    + eapply file_results_made; [|exact Hk|exact Hu]. intros p Hp. destruct Hbase as (b' & -> & ?). exists (b' ++ p).
      split; [done|]. by apply not_elem_of_app.
    + by eapply file_results_made; [|exact Hk|exact Hu]; intros p Hp; apply path_append_fine.
  - apply (storage_named _ _ Hother).
Qed.

(** A key asked for again gets the URI it got before, so a rollback of the
    second creation hands the [Delete] of the storage the data of the first. *)
Lemma Create_again b ks sz w w' :
  GetType b ∈ [DATA_STORAGE_TYPE_NFS; DATA_STORAGE_TYPE_HF3FS; DATA_STORAGE_TYPE_DUMMY; DATA_STORAGE_TYPE_MOONCAKE] ->
  (bk_Create b ks sz w).1 = (bk_Create b ks sz w').1.
Proof.
  intros Hb. unfold bk_Create. repeat (apply elem_of_cons in Hb as [->|Hb]; [done|]). by apply not_elem_of_nil in Hb.
Qed.

End backends.
