(* ===== verification/WriteGen.v ===== *)
(** * WriteGen: what generating write locations guarantees

    The meaning of [WriteAlloc.GenWriteLocation] over any storages, in the log
    of their calls: either every block has a location with exactly the specs
    of its group, on its target or on the selected storage, and the URIs the
    storages made are exactly the URIs these locations name, none of them
    dropped; or the request failed, and every URI that was made was handed to
    its storage's [Delete]. *)

From stdpp Require Import base gmap sets list strings sorting.
From Stdlib Require Import ZArith Lia Ascii.
From S2P Require Import Prelude StandardUri MetaTypes StorageManager Registry StorageSelect WriteFilter WriteAlloc.

Local Abbreviation host_of u := (String.string_of_list_ascii (hostname_ u)).

(** The URIs of specs, each with the storage it names. *)
Definition uris_of (specs : list LocationSpec) : list (string * StandardUri) :=
  (fun s => let u := (Parse (chars_of (uri s))).1 in (host_of u, u)) <$> specs.

Definition named_uris (locs : list CacheLocationConstPtr) : list (string * StandardUri) := uris_of (specs_of locs).

Lemma elem_of_specs_of locs s : s ∈ specs_of locs <-> exists l, Some l ∈ locs /\ s ∈ location_specs l.
Proof.
  unfold specs_of. rewrite list_elem_of_bind. split.
  - intros ([l|] & Hs & Hl); [eauto|by apply not_elem_of_nil in Hs].
  - intros (l & Hl & Hs). by exists (Some l).
Qed.

Lemma specs_of_app l1 l2 : specs_of (l1 ++ l2) = specs_of l1 ++ specs_of l2.
Proof. apply bind_app. Qed.

(** Filling the empty positions [idxs]. *)
Lemma specs_of_scatter (idxs : list nat) : forall (vals : list CacheLocation) (l : list CacheLocationConstPtr),
  NoDup idxs -> length vals = length idxs -> Forall (fun i => l !! i = Some None) idxs ->
  specs_of (scatter idxs (Some <$> vals) l) ≡ₚ specs_of l ++ specs_of (Some <$> vals).
Proof.
  induction idxs as [|i idxs IH]; intros [|v vals] l Hnd Hl Hno; simpl in Hl; try lia; csimpl; [by rewrite app_nil_r|].
  apply NoDup_cons in Hnd as [Hni Hnd]. apply Forall_cons in Hno as [Hi Hno]. rewrite IH; [|done|lia|].
  - assert (Hone : specs_of (<[i:=Some v]> l) ≡ₚ specs_of l ++ location_specs v); [|by rewrite Hone, <-app_assoc].
    rewrite <-(take_drop_middle l i None Hi) at 2. rewrite insert_take_drop by (by eapply lookup_lt_Some).
    rewrite !specs_of_app. unfold specs_of at 2 4. csimpl. rewrite <-!app_assoc. f_equiv. apply Permutation_app_comm.
  - rewrite Forall_forall in Hno. apply Forall_forall. intros j Hj. rewrite list_lookup_insert_ne by set_solver. by apply Hno.
Qed.

(** Grouping by storage loses nothing. *)
Definition flat (m : gmap string (list StandardUri)) : list (string * StandardUri) :=
  sorted_entries m ≫= (fun nu => pair nu.1 <$> nu.2).

Lemma flat_insert n u (m : gmap string (list StandardUri)) :
  flat (<[n := default [] (m !! n) ++ [u]]> m) ≡ₚ flat m ++ [(n, u)].
Proof.
  unfold flat. rewrite !sorted_entries_perm. destruct (m !! n) as [us|] eqn:E; simpl.
  - rewrite <-(insert_delete_id m n us E) at 2. rewrite <-insert_delete_eq, !map_to_list_insert by apply lookup_delete_eq.
    csimpl. rewrite fmap_app, <-!app_assoc. f_equiv. apply Permutation_app_comm.
  - rewrite map_to_list_insert by done. csimpl. by rewrite Permutation_app_comm.
Qed.

Lemma uris_by_storage_flat skip specs :
  flat (uris_by_storage skip specs) ≡ₚ filter (fun nu => skip nu.2 = false) (uris_of specs).
Proof.
  induction specs as [|s specs IH] using rev_ind; [done|]. unfold uris_by_storage, uris_of in *.
  rewrite foldl_app, fmap_app, filter_app, <-IH. cbn [foldl]. csimpl. rewrite filter_cons, filter_nil. simpl.
  destruct (skip (Parse (chars_of (uri s))).1); [by rewrite decide_False, app_nil_r by done|].
  rewrite decide_True by done. apply flat_insert.
Qed.

Section gen.
Context {W : Type}.
Variable bk_Create : DataStorageBackend -> list string -> Z -> W -> list (ErrorCode * StandardUri) * W.
Variable bk_Delete : DataStorageBackend -> list StandardUri -> W -> list ErrorCode * W.
Variable dsm : DataStorageManager.
Hypothesis laws : StorageLaws bk_Create dsm.

Local Abbreviation gained := (gained dsm).
Local Abbreviation kept := (kept dsm).
Local Abbreviation run_Create := (logged_Create bk_Create).
Local Abbreviation run_Delete := (logged_Delete bk_Delete).

(** Printing and parsing give a printable URI back. *)
Lemma parse_printed_text nu :
  printable nu -> Parse (chars_of (String.string_of_list_ascii (ToUriString nu.2))) = (nu.2, true).
Proof.
  intros (_ & _ & Hwf & Hat & _). unfold chars_of. rewrite String.list_ascii_of_string_of_list_ascii.
  rewrite <-(uri_is_printed nu.2 Hwf). by apply Parse_printed.
Qed.

Lemma gen_location_specs t us l :
  Forall (fun js : nat * LocationSpecInfo => js.1 < length us) l ->
  location_specs (gen_location t us l) =
  (fun su => mkLocationSpec (si_name su.1) (String.string_of_list_ascii (ToUriString su.2))) <$> alloc_row us l.
Proof.
  unfold gen_location, alloc_row. simpl. induction 1 as [|[j si] l Hj _ IH]; [done|]. csimpl. simpl in Hj.
  destruct (lookup_lt_is_Some_2 us j Hj) as [u Hu]. rewrite Hu. csimpl. by rewrite IH.
Qed.

(** The URIs [held] are those the locations name, all well printed. *)
Definition tracks (held : list (string * StandardUri)) (locs : list CacheLocationConstPtr) : Prop :=
  Forall printable held /\ held ≡ₚ named_uris locs /\ Forall (fun s => (Parse (chars_of (uri s))).2 = true) (specs_of locs).

Definition specs_for (info : InstanceInfo) (group_names : list string) (j : nat) : list string :=
  si_name <$> filter (fun si => wants group_names (location_spec_groups_ info) j si = true) (location_spec_infos_ info).

(** The generated locations name exactly what was allocated. *)
Lemma gen_locations_tracked keys group_names groups infos name t a :
  alloc_done keys group_names groups infos a ->
  let new := (fun u => (name, u)) <$> allocated_uris a in
  Forall printable new -> tracks new (Some <$> (gen_location t (allocated_uris a) <$> key_to_uris a)).
Proof.
  intros (Hwf & Hlen & Hrows & Huris) new Hp.
  assert (Hspecs : specs_of (Some <$> (gen_location t (allocated_uris a) <$> key_to_uris a)) =
    (fun su => mkLocationSpec (si_name su.1) (String.string_of_list_ascii (ToUriString su.2))) <$> mjoin (alloc_rows a)).
  { unfold alloc_rows, alloc_wf, specs_of in *. clear -Hwf. induction Hwf as [|l ls Hl _ IH]; [done|]. csimpl.
    rewrite IH, fmap_app. f_equal. by apply (gen_location_specs t). }
  assert (Hpar : Forall (fun su => Parse (chars_of (String.string_of_list_ascii (ToUriString su.2))) = (su.2, true) /\
    host_of su.2 = name) (mjoin (alloc_rows a))).
  { apply Forall_forall. intros su Hsu. assert (Hn : (name, su.2) ∈ new).
    { apply (list_elem_of_fmap_2 (fun u => (name, u))). rewrite Huris. by apply list_elem_of_fmap_2. }
    rewrite Forall_forall in Hp. split; [by apply (parse_printed_text (name, su.2)), Hp|].
    destruct (Hp _ Hn) as [Hh _]. simpl in Hh. rewrite Hh. apply String.string_of_list_ascii_of_string. }
  split_and!; [done| |].
  - unfold named_uris, new. rewrite Hspecs, Huris. unfold uris_of. rewrite <-!list_fmap_compose.
    apply reflexive_eq, list_fmap_ext. intros i su Hi. simpl. rewrite Forall_forall in Hpar.
    destruct (Hpar su) as [-> Hh]; [by eapply list_elem_of_lookup_2|]. simpl. by rewrite Hh.
  - rewrite Hspecs. apply Forall_fmap. eapply Forall_impl; [exact Hpar|]. intros su [Hs _]. simpl. by rewrite Hs.
Qed.

Lemma gen_locations_specs keys info group_names t a j l :
  alloc_done keys group_names (location_spec_groups_ info) (location_spec_infos_ info) a ->
  (gen_location t (allocated_uris a) <$> key_to_uris a) !! j = Some l ->
  type l = t /\ MetaTypes.name <$> location_specs l = specs_for info group_names j.
Proof.
  intros (Hwf & Hlen & Hrows & _) Hj. rewrite list_lookup_fmap in Hj.
  destruct (key_to_uris a !! j) as [kl|] eqn:Ekl; [|done]. injection Hj as <-. split; [done|].
  destruct (Hrows j) as (l & Hl & Hf); [apply lookup_lt_Some in Ekl; lia|].
  unfold alloc_rows in Hl. rewrite list_lookup_fmap, Ekl in Hl. injection Hl as <-. rewrite gen_location_specs.
  - rewrite <-list_fmap_compose. unfold specs_for. rewrite <-Hf, <-list_fmap_compose. done.
  - unfold alloc_wf in Hwf. rewrite Forall_forall in Hwf. apply Hwf. by eapply list_elem_of_lookup_2.
Qed.

Lemma GenOnStorage_spec instance_id keys group_names info name t w0 held w ec locs w' :
  plain_names instance_id (location_spec_infos_ info) -> gained w0 held w ->
  GenWriteLocationOnStorage run_Create run_Delete instance_id keys group_names info dsm name t w = ((ec, locs), w') ->
  (ec <> EC_OK /\ locs = [] /\ kept w0 held w') \/
  (ec = EC_OK /\ length locs = length keys /\ exists new,
     gained w0 (held ++ new) w' /\ tracks new (Some <$> locs) /\ Forall (fun nu => nu.1 = name) new /\
     (forall j l, locs !! j = Some l -> type l = t /\ MetaTypes.name <$> location_specs l = specs_for info group_names j)).
Proof.
  intros Hpl Hh Hrun. unfold GenWriteLocationOnStorage in Hrun. destruct keys as [|k0 ks].
  { simplify_eq. right. split_and!; [done..|]. exists []. rewrite app_nil_r. by split_and!. }
  remember (k0 :: ks) as keys eqn:Hk. clear Hk k0 ks.
  match type of Hrun with (let '(_, _) := ?c in _) = _ => destruct c as [[ec1 a] w1] eqn:Ec end.
  apply (creation_spec bk_Create dsm laws instance_id keys group_names (location_spec_groups_ info) name
    info w0 held) in Ec as [[-> ->]|[-> (Hh1 & Hp & Hdone)]]; [| |done|done|exact Hh].
  { simplify_eq/=. left. split_and!; [done..|]. by apply gained_kept. }
  rewrite bool_decide_eq_false_2 in Hrun by (intros Hn; by apply Hn).
  destruct (is_create_success a) eqn:Es; simpl in Hrun.
  - simplify_eq. right. specialize (Hdone eq_refl). rewrite length_fmap. split_and!; [done|apply Hdone|].
    eexists. split_and!; [exact Hh1|by eapply gen_locations_tracked| |].
    + apply Forall_forall. intros nu (u & -> & _)%list_elem_of_fmap. done.
    + intros j l. by eapply gen_locations_specs.
  - pose proof (Delete_drops bk_Delete dsm name (allocated_uris a) w1) as [Hm Hd].
    destruct (StorageManager.Delete run_Delete dsm name (allocated_uris a) w1) as [codes w2]. simplify_eq.
    left. split_and!; [done..|]. eapply gained_drop; [exact Hh1|exact Hm|by simpl in Hd; rewrite Hd].
Qed.

(** ** Rolling back *)

Lemma delete_all_drops m w :
  let w' := delete_all run_Delete dsm m w in made w' = made w /\ dropped w' = dropped w ++ data_of dsm (flat m).
Proof.
  unfold delete_all, flat. generalize (sorted_entries m). intros l. revert w.
  induction l as [|[n us] l IH]; intros w; csimpl; [by rewrite app_nil_r|].
  destruct (IH (StorageManager.Delete run_Delete dsm n us w).2) as [-> ->].
  destruct (Delete_drops bk_Delete dsm n us w) as [-> ->]. by rewrite data_of_app, <-app_assoc.
Qed.

(** Deleting what the generated locations name drops all that was made. *)
Lemma rollback_undoes w0 held locs w :
  kept w0 held w -> tracks held locs -> undone w0 (delete_all run_Delete dsm (collect_location_uris locs) w).
Proof.
  intros Hk (Hp & Hh & _). destruct (delete_all_drops (collect_location_uris locs) w) as [Hm Hd].
  eapply kept_drop; [exact Hk|exact Hm|]. rewrite Hd. f_equiv. apply data_of_perm. unfold collect_location_uris.
  rewrite uris_by_storage_flat. fold (named_uris locs). rewrite <-Hh.
  apply reflexive_eq, filter_all. eapply Forall_impl; [exact Hp|].
  intros [n u] (Hhost & Hne & _ & _ & Hv). simpl in *. rewrite Hv, Hhost. simpl. apply bool_decide_eq_false_2.
  by destruct n.
Qed.

(** ** Several storages *)

Lemma tracks_app h1 h2 l1 l2 l :
  tracks h1 l1 -> tracks h2 l2 -> specs_of l ≡ₚ specs_of l1 ++ specs_of l2 -> tracks (h1 ++ h2) l.
Proof.
  intros (Hp1 & Hh1 & Hs1) (Hp2 & Hh2 & Hs2) Hl. split_and!; [by apply Forall_app| |].
  - rewrite Hh1, Hh2. unfold named_uris, uris_of. by rewrite Hl, fmap_app.
  - rewrite Hl. by apply Forall_app.
Qed.

Lemma wants_gather idxs group_names groups p i si n :
  (group_names = [] \/ length group_names = n) -> Forall (fun i => i < n) idxs -> idxs !! p = Some i ->
  wants (gather idxs group_names) groups p si = wants group_names groups i si.
Proof.
  intros [->|Hl] Hlt Hp.
  { assert (Hg : gather idxs ([] : list string) = []) by (clear; induction idxs as [|j idxs IH]; [done|]; exact IH).
    by rewrite Hg. }
  assert (Hgl : Forall (fun i => i < length group_names) idxs) by (by rewrite Hl).
  pose proof (lookup_gather _ _ _ _ Hgl Hp) as Hq. pose proof (length_gather _ _ Hgl) as Hlen. unfold wants.
  rewrite Hq. destruct (gather idxs group_names) as [|g gs] eqn:Eg; [apply lookup_lt_Some in Hp; simpl in Hlen; lia|].
  destruct group_names as [|g' gs']; [|done]. simpl in Hl. subst n. rewrite Forall_forall in Hlt.
  apply list_elem_of_lookup_2, Hlt in Hp. lia.
Qed.

(** A block's location: the type, the specs of its group, all on [name]. *)
Definition location_for (info : InstanceInfo) (group_names : list string) (name : string) (t : DataStorageType)
    (i : nat) (l : CacheLocation) : Prop :=
  type l = t /\ MetaTypes.name <$> location_specs l = specs_for info group_names i /\
  Forall (fun s => exists u, Parse (chars_of (uri s)) = (u, true) /\ hostname_ u = chars_of name) (location_specs l).

(** Tracked specs are on the storage all of [held] is on. *)
Lemma tracked_on name held locs s :
  tracks held locs -> Forall (fun nu => nu.1 = name) held -> s ∈ specs_of locs ->
  exists u, Parse (chars_of (uri s)) = (u, true) /\ hostname_ u = chars_of name.
Proof.
  intros (Hp & Hh & Hs) Hn Hin. rewrite Forall_forall in Hs. rewrite Forall_forall in Hp. rewrite Forall_forall in Hn.
  exists (Parse (chars_of (uri s))).1. split; [by rewrite <-(Hs s Hin), <-surjective_pairing|].
  assert (Hu : (host_of (Parse (chars_of (uri s))).1, (Parse (chars_of (uri s))).1) ∈ held).
  { rewrite Hh. unfold named_uris, uris_of. apply list_elem_of_fmap. by exists s. }
  destruct (Hp _ Hu) as [Hhost _]. pose proof (Hn _ Hu) as Hnn. simpl in Hhost, Hnn. by rewrite Hhost, Hnn.
Qed.

Lemma gen_on_storages_spec instance_id keys group_names info entries : forall w0 held locs w ec out w',
  let D := entries ≫= (fun e => e.2.1) in
  plain_names instance_id (location_spec_infos_ info) ->
  gained w0 held w -> tracks held locs -> length locs = length keys ->
  (group_names = [] \/ length group_names = length keys) ->
  NoDup D -> Forall (fun i => i < length keys) D -> Forall (fun i => locs !! i = Some None) D ->
  gen_on_storages run_Create run_Delete instance_id keys group_names info dsm entries locs w = ((ec, out), w') ->
  (ec <> EC_OK /\ out = [] /\ undone w0 w') \/
  (ec = EC_OK /\ length out = length keys /\ gained w0 (named_uris out) w' /\
   (forall i, i ∉ D -> out !! i = locs !! i) /\
   (forall name idxs t i, (name, (idxs, t)) ∈ entries -> i ∈ idxs ->
      exists l, out !! i = Some (Some l) /\ location_for info group_names name t i l)).
Proof.
  induction entries as [|[name [idxs t]] entries IH]; intros w0 held locs w ec out w' D Hpl Hh Ht Hl Hg Hnd Hlt Hno Hrun.
  { simpl in Hrun. simplify_eq. right. split_and!; [done|done| |done|by intros ? ? ? ? ?%not_elem_of_nil].
    destruct Ht as (_ & Hn & _). unfold WriteAlloc.gained in *. by rewrite <-Hn. }
  unfold D in *. clear D. csimpl in Hnd. csimpl in Hlt. csimpl in Hno. csimpl. simpl in Hrun.
  apply NoDup_app in Hnd as (Hnd1 & Hdis & Hnd2). apply Forall_app in Hlt as [Hlt1 Hlt2]. apply Forall_app in Hno as [Hno1 Hno2].
  destruct (GenWriteLocationOnStorage _ _ _ _ _ _ _ _ _ _) as [[ec1 sub] w1] eqn:Eg.
  apply (GenOnStorage_spec _ _ _ _ _ _ w0 held) in Eg as [(He & -> & Hh1)|(-> & Hls & new & Hh1 & Ht1 & Hn1 & Hsub)]; [| |done|exact Hh].
  { rewrite bool_decide_eq_true_2 in Hrun by done. simplify_eq. left. split_and!; [done..|].
    rewrite app_nil_r. by eapply rollback_undoes. }
  rewrite bool_decide_eq_false_2 in Hrun by (intros Hc; by apply Hc).
  rewrite length_gather in Hls by done. rewrite Hls, Nat.eqb_refl in Hrun. simpl in Hrun.
  assert (Hlt1' : Forall (fun i => i < length locs) idxs) by (by rewrite Hl).
  assert (Hno2' : Forall (fun i => scatter idxs (Some <$> sub) locs !! i = Some None) (entries ≫= (fun e => e.2.1))).
  { rewrite Forall_forall in Hno2. apply Forall_forall. intros i Hi. rewrite lookup_scatter_ne; [by apply Hno2|].
    intros Hc. by apply (Hdis i Hc). }
  apply (IH w0 (held ++ new)) in Hrun as [?|(-> & Hlo & Hheld & Hkeep & Hent)];
    [by left| |done|done|by eapply tracks_app, specs_of_scatter|by rewrite length_scatter|done|done|done|done]. right.
  split_and!; [done|done|done| |].
  - intros i [Hi1 Hi2]%not_elem_of_app. rewrite Hkeep by done. by apply lookup_scatter_ne.
  - intros name' idxs' t' i [[= -> -> ->]|Hin]%elem_of_cons Hi; [|by eapply Hent].
    apply list_elem_of_lookup in Hi as (q & Hq). destruct (lookup_lt_is_Some_2 sub q) as [l Hsl]; [apply lookup_lt_Some in Hq; lia|].
    exists l. split.
    + rewrite Hkeep by (intros Hc; eapply Hdis; [by eapply list_elem_of_lookup_2|exact Hc]).
      apply (lookup_scatter _ _ _ q); [done|done|by rewrite list_lookup_fmap, Hsl|].
      rewrite Forall_forall in Hlt1'. apply Hlt1'. by eapply list_elem_of_lookup_2.
    + destruct (Hsub q l Hsl) as [Hty Hnm]. split_and!; [done| |].
      * rewrite Hnm. unfold specs_for. f_equal. apply filter_agree. intros si _. by rewrite (wants_gather idxs group_names _ q i si (length keys)).
      * apply Forall_forall. intros s Hs. apply (tracked_on name new (Some <$> sub)); [done|done|].
        apply elem_of_specs_of. exists l. split; [|done]. apply list_elem_of_fmap_2. by eapply list_elem_of_lookup_2.
Qed.

End gen.

(** ** Routing *)

Section routing.
Variable dsm : DataStorageManager.

(** [by_storage] and [defaults] split the blocks by their targets. *)
Record routed (targets : list string) (by_storage : gmap string (list nat * DataStorageType)) (defaults : list nat)
    : Prop := mkRouted {
  routed_nodup : NoDup defaults;
  routed_default i : i ∈ defaults <-> targets !! i = Some "";
  routed_entry n idxs t : by_storage !! n = Some (idxs, t) -> n <> "" /\ NoDup idxs /\
    (forall i, i ∈ idxs <-> targets !! i = Some n) /\ exists b, GetDataStorageBackend n dsm = Some b /\ t = GetType b;
  routed_target i n : targets !! i = Some n -> n <> "" -> is_Some (by_storage !! n);
}.

Lemma elem_of_snoc_lookup {A} (l : list A) x i y :
  (l ++ [x]) !! i = Some y <-> l !! i = Some y \/ (i = length l /\ y = x).
Proof.
  rewrite lookup_app. destruct (l !! i) as [z|] eqn:E.
  - split; [by left|]. intros [?|[-> _]]; [done|]. by rewrite lookup_ge_None_2 in E by lia.
  - rewrite list_lookup_singleton. apply lookup_ge_None in E. destruct (i - length l) as [|d] eqn:Ed.
    + split; [intros [= ->]; right; split; [lia|done]|]. intros [?|[_ ->]]; done.
    + split; [done|]. intros [?|[-> _]]; [done|lia].
Qed.

Lemma tiered_indices_spec targets by_storage defaults :
  tiered_indices dsm targets = Some (by_storage, defaults) -> routed targets by_storage defaults.
Proof.
  revert by_storage defaults. induction targets as [|t targets IH] using rev_ind; intros m ds Hrun.
  { unfold tiered_indices in Hrun. simpl in Hrun. simplify_eq. split; [constructor|..]; try done.
    intros i. split; [by intros ?%not_elem_of_nil|done]. }
  unfold tiered_indices in Hrun. rewrite imap_app, foldl_app in Hrun. fold (tiered_indices dsm targets) in Hrun.
  destruct (tiered_indices dsm targets) as [[m0 ds0]|]; [|done]. simpl in Hrun. rewrite Nat.add_0_r in Hrun.
  destruct (IH _ _ eq_refl) as [Hnd Hd He Ht]. clear IH. assert (Hout : forall n, targets !! length targets <> Some n).
  { intros n. by rewrite lookup_ge_None_2. }
  case_bool_decide as Et; simplify_eq/=.
  - split.
    + apply NoDup_app. split_and!; [done| |apply NoDup_singleton]. intros i Hi ->%list_elem_of_singleton.
      by apply Hd, Hout in Hi.
    + intros i. rewrite elem_of_app, list_elem_of_singleton, Hd, elem_of_snoc_lookup. naive_solver.
    + intros n idxs ty Hn. destruct (He n idxs ty Hn) as (Hne & Hni & Hi & Hb). split_and!; [done..| |done].
      intros i. rewrite Hi, elem_of_snoc_lookup. naive_solver.
    + intros i n. rewrite elem_of_snoc_lookup. naive_solver.
  - destruct (GetDataStorageBackend t dsm) as [b|] eqn:Eb; simplify_eq/=. split.
    + done.
    + intros i. rewrite Hd, elem_of_snoc_lookup. naive_solver.
    + intros n idxs ty Hn. destruct (decide (n = t)) as [->|Hne].
      * rewrite lookup_insert_eq in Hn. simplify_eq. split_and!; [done| | |eauto].
        -- apply NoDup_app. split_and!; [|intros i Hi ->%list_elem_of_singleton|apply NoDup_singleton].
           ++ destruct (m0 !! t) as [[ix ty]|] eqn:E; [by destruct (He _ _ _ E) as (_ & ? & _)|constructor].
           ++ destruct (m0 !! t) as [[ix ty]|] eqn:E; [|by apply not_elem_of_nil in Hi].
              destruct (He _ _ _ E) as (_ & _ & Hix & _). by apply Hix, Hout in Hi.
        -- intros i. rewrite elem_of_app, list_elem_of_singleton, elem_of_snoc_lookup.
           destruct (m0 !! t) as [[ix ty]|] eqn:E; simpl.
           ++ destruct (He _ _ _ E) as (_ & _ & Hix & _). rewrite Hix. naive_solver.
           ++ split; [intros [?%not_elem_of_nil| ->]; [done|by right]|]. intros [Hi|[-> _]]; [|by right].
              destruct (Ht i t Hi Et) as [? Hc]. by rewrite E in Hc.
      * rewrite lookup_insert_ne in Hn by done. destruct (He n idxs ty Hn) as (Hne' & Hni & Hi & Hb). split_and!; [done..| |done].
        intros i. rewrite Hi, elem_of_snoc_lookup. naive_solver.
    + intros i n. rewrite elem_of_snoc_lookup. intros [Hi|[-> ->]] Hn.
      * destruct (decide (n = t)) as [->|Hne]; [by rewrite lookup_insert_eq|]. rewrite lookup_insert_ne by done. by eapply Ht.
      * by rewrite lookup_insert_eq.
Qed.

End routing.


Section generated.
Context {W T : Type}.
Variable reg : RegistryManager (T := T).
Variable indexers : Indexers.
Variable group : string.

Local Abbreviation dsm := (data_storage_manager_ reg).
Local Abbreviation selected := (SelectCacheWriteDataStorageBackend group reg indexers).

(** Where block [i] is written: on its migration target, or on the storage
    selected for the group. *)
Definition destination (targets : list string) (count i : nat) : string :=
  let t := if (length targets =? count)%nat then default "" (targets !! i) else "" in
  if bool_decide (t = "") then sel_name selected else t.

Definition type_of_storage (n : string) (t : DataStorageType) : Prop :=
  (n = sel_name selected /\ sel_ec selected = EC_OK /\ t = sel_type selected) \/
  (exists b, GetDataStorageBackend n dsm = Some b /\ t = GetType b).

Lemma route_blocks_spec count targets m :
  route_blocks count targets group reg indexers = (EC_OK, m) ->
  (forall n idxs t, m !! n = Some (idxs, t) -> NoDup idxs /\ type_of_storage n t /\
     forall i, i ∈ idxs -> i < count /\ destination targets count i = n) /\
  (forall i, i < count -> exists idxs t, m !! destination targets count i = Some (idxs, t) /\ i ∈ idxs).
Proof.
  unfold route_blocks. set (ts := if (length targets =? count)%nat then targets else replicate count "").
  assert (Hts : length ts = count /\ forall i t, ts !! i = Some t -> destination targets count i =
    if bool_decide (t = "") then sel_name selected else t).
  { unfold ts, destination. destruct (Nat.eqb_spec (length targets) count); split; [done| |by rewrite length_replicate|].
    - intros i t Hi. by rewrite Hi.
    - intros i t [-> _]%lookup_replicate. done. }
  destruct Hts as [Hlts Hdest]. clearbody ts.
  destruct (tiered_indices dsm ts) as [[m0 ds]|] eqn:Er; [|done]. apply tiered_indices_spec in Er as [Hnd Hd He Ht].
  assert (Hlt : forall i t, ts !! i = Some t -> i < count) by (intros i t Hi; rewrite <-Hlts; by eapply lookup_lt_Some).
  assert (Hent : forall n idxs t i, m0 !! n = Some (idxs, t) -> i ∈ idxs -> i < count /\ destination targets count i = n).
  { intros n idxs t i Hn Hi. destruct (He _ _ _ Hn) as (Hne & _ & Hix & _). apply Hix in Hi. split; [by eapply Hlt|].
    rewrite (Hdest i n Hi). by rewrite bool_decide_eq_false_2. }
  destruct ds as [|d ds].
  { intros [= <-]. split.
    - intros n idxs t Hn. destruct (He _ _ _ Hn) as (_ & Hni & _ & b & Hb & ->). split_and!; [done|right; eauto|].
      intros i Hi. by eapply Hent.
    - intros i Hi. rewrite <-Hlts in Hi. destruct (lookup_lt_is_Some_2 ts i Hi) as [t Hti]. rewrite (Hdest i t Hti).
      case_bool_decide as Et; [subst t; apply Hd in Hti; by apply not_elem_of_nil in Hti|].
      destruct (Ht i t Hti Et) as [[idxs ty] Hm]. exists idxs, ty. split; [done|]. by apply (He _ _ _ Hm). }
  case_bool_decide as Esel; [intros [= ? _]; congruence|]. intros [= <-].
  remember (d :: ds) as defaults eqn:Hds. clear Hds.
  set (sn := sel_name selected) in *.
  assert (Hold : forall i, i ∈ default [] (fst <$> (m0 !! sn)) <-> sn <> "" /\ ts !! i = Some sn).
  { intros i. destruct (m0 !! sn) as [[idxs t]|] eqn:Em; simpl.
    - destruct (He _ _ _ Em) as (Hne & _ & Hix & _). rewrite Hix. naive_solver.
    - split; [by intros ?%not_elem_of_nil|]. intros [Hne Hi]. destruct (Ht i sn Hi Hne) as [? Hc]. by rewrite Em in Hc. }
  split.
  - intros n idxs t Hn. destruct (decide (n = sn)) as [->|Hne].
    + rewrite lookup_insert_eq in Hn. injection Hn as <- <-. split_and!; [|by left|].
      * apply NoDup_app. split_and!; [|intros i [Hne Hi]%Hold Hi'%Hd; congruence|done].
        destruct (m0 !! sn) as [[idxs t]|] eqn:Em; [by destruct (He _ _ _ Em) as (_ & ? & _)|constructor].
      * intros i [[Hne Hi]%Hold|Hi%Hd]%elem_of_app; (split; [by eapply Hlt|]); rewrite (Hdest _ _ Hi);
          [by rewrite bool_decide_eq_false_2|by rewrite bool_decide_eq_true_2].
    + rewrite lookup_insert_ne in Hn by done. destruct (He _ _ _ Hn) as (_ & Hni & _ & b & Hb & ->).
      split_and!; [done|right; eauto|]. intros i Hi. by eapply Hent.
  - intros i Hi. rewrite <-Hlts in Hi. destruct (lookup_lt_is_Some_2 ts i Hi) as [t Hti]. rewrite (Hdest i t Hti). fold sn.
    case_bool_decide as Et.
    + rewrite lookup_insert_eq. eexists _, _. split; [done|]. apply elem_of_app. right. apply Hd. by subst t.
    + destruct (decide (t = sn)) as [->|Hne].
      * rewrite lookup_insert_eq. eexists _, _. split; [done|]. apply elem_of_app. left. by apply Hold.
      * rewrite lookup_insert_ne by done. destruct (Ht i t Hti Et) as [[idxs ty] Hm]. exists idxs, ty.
        split; [done|]. by apply (He _ _ _ Hm).
Qed.

(** The routed blocks, storage by storage: every block once. *)
Lemma route_blocks_order count targets m :
  route_blocks count targets group reg indexers = (EC_OK, m) ->
  let D := sorted_entries m ≫= (fun e => e.2.1) in
  NoDup D /\ Forall (fun i => i < count) D /\
  (forall i, i < count -> exists idxs t, (destination targets count i, (idxs, t)) ∈ sorted_entries m /\ i ∈ idxs /\
     type_of_storage (destination targets count i) t).
Proof.
  intros [He Hi]%route_blocks_spec D. split_and!.
  - apply NoDup_bind.
    + intros [n1 [i1 t1]] [n2 [i2 t2]] i H1%elem_of_sorted_entries H2%elem_of_sorted_entries Hi1 Hi2. simpl in *.
      destruct (He _ _ _ H1) as (_ & _ & Hd1). destruct (He _ _ _ H2) as (_ & _ & Hd2).
      destruct (Hd1 i Hi1) as [_ <-]. destruct (Hd2 i Hi2) as [_ <-]. congruence.
    + intros [n [idxs t]] Hn%elem_of_sorted_entries. by destruct (He _ _ _ Hn).
    + apply (NoDup_fmap_1 fst), NoDup_sorted_entries.
  - apply Forall_forall. intros i ([n [idxs t]] & Hin & Hn%elem_of_sorted_entries)%list_elem_of_bind.
    destruct (He _ _ _ Hn) as (_ & _ & Hd). by apply Hd.
  - intros i Hlt. destruct (Hi i Hlt) as (idxs & t & Hm & Hin). exists idxs, t. rewrite elem_of_sorted_entries.
    destruct (He _ _ _ Hm) as (_ & Hty & _). done.
Qed.

Variable bk_Create : DataStorageBackend -> list string -> Z -> W -> list (ErrorCode * StandardUri) * W.
Variable bk_Delete : DataStorageBackend -> list StandardUri -> W -> list ErrorCode * W.
(** What generating the locations of a write does. *)
Lemma GenWriteLocation_spec instance_id keys group_names targets info w ec out w' :
  StorageLaws bk_Create dsm -> plain_names instance_id (location_spec_infos_ info) ->
  GetInstanceInfo instance_id reg = Some info -> instance_group_name_ info = group ->
  (group_names = [] \/ length group_names = length keys) ->
  GenWriteLocation (logged_Create bk_Create) (logged_Delete bk_Delete) instance_id keys group_names targets reg indexers w =
    ((ec, out), w') ->
  (ec <> EC_OK /\ out = [] /\ undone w w') \/
  (ec = EC_OK /\ length out = length keys /\
   (forall i, i < length keys -> exists l t, out !! i = Some (Some l) /\
      type_of_storage (destination targets (length keys) i) t /\
      location_for info group_names (destination targets (length keys) i) t i l) /\
   gained dsm w (named_uris out) w').
Proof.
  intros laws Hpl Hinfo Hgroup Hg Hrun. unfold GenWriteLocation in Hrun. destruct keys as [|k0 ks].
  { simplify_eq. right. split_and!; [done|done|simpl; lia|]. apply gained_nil. }
  remember (k0 :: ks) as keys eqn:Hk. clear Hk k0 ks. rewrite Hinfo, Hgroup in Hrun.
  destruct (route_blocks (length keys) targets group reg indexers) as [ec1 m] eqn:Er.
  case_bool_decide as Ec; [simplify_eq; left; split_and!; [done..|apply undone_refl]|]. subst ec1.
  destruct (route_blocks_order _ _ _ Er) as (Hnd & Hlt & Hall).
  assert (Hempty : forall n, specs_of (replicate n None) = []) by (induction n as [|n IH]; [done|exact IH]).
  apply (gen_on_storages_spec bk_Create bk_Delete dsm laws _ _ _ _ _ w []) in Hrun
    as [?|(-> & Hlen & Hh & _ & Hent)]; [by left|right|..].
  - split_and!; [done|done| |done].
    intros i Hi. destruct (Hall i Hi) as (idxs & t & Hin & Hidx & Hty). destruct (Hent _ _ _ _ Hin Hidx) as (l & Hl & Hfor). eauto.
  - done.
  - apply gained_nil.
  - unfold tracks, named_uris. rewrite Hempty. split_and!; [constructor|done|constructor].
  - by rewrite length_replicate.
  - done.
  - done.
  - done.
  - eapply Forall_impl; [exact Hlt|]. intros i Hi. by apply lookup_replicate_2.
Qed.

(** C14: generating the locations of a write is all or nothing. It succeeds
    with a location for every block, holding exactly the specs of the block's
    group in their order, every URI on the block's destination (its migration
    target, or the storage selected for the group); the URIs the storages made
    are then, one for one, those these locations name, and nothing was deleted.
    Or it fails and returns no location; then every URI the storages had made
    for the request was handed to its storage's [Delete], as often as it was
    made, and nothing else was. The instance id and its spec names hold no URI
    delimiter; the storages answer every key with a printable URI
    ([StorageLaws], see [StorageBackends.backends_keep_laws]) and are arbitrary
    otherwise: [Delete] may do nothing and [Create] may give a URI out again. *)
Theorem GenWriteLocation_exact instance_id keys group_names targets info w ec out w' :
  StorageLaws bk_Create dsm -> plain_names instance_id (location_spec_infos_ info) ->
  GetInstanceInfo instance_id reg = Some info -> instance_group_name_ info = group ->
  (group_names = [] \/ length group_names = length keys) ->
  GenWriteLocation (logged_Create bk_Create) (logged_Delete bk_Delete) instance_id keys group_names targets reg indexers w =
    ((ec, out), w') ->
  (ec <> EC_OK /\ out = [] /\ undone w w') \/
  (ec = EC_OK /\ length out = length keys /\
   (forall i, i < length keys -> exists l t, out !! i = Some (Some l) /\
      type_of_storage (destination targets (length keys) i) t /\
      location_for info group_names (destination targets (length keys) i) t i l) /\
   gained dsm w (named_uris out) w').
Proof. apply GenWriteLocation_spec. Qed.

End generated.

(** ** Example *)

(** A storage that numbers its data and has room for four pieces. *)
Definition piece (n : nat) : StandardUri :=
  mkStandardUri (chars_of "nfs") [] [] 0 ("/"%char :: replicate n "a"%char) [].

Definition pieces_Create (b : DataStorageBackend) (ks : list string) (_ : Z) (w : nat)
    : list (ErrorCode * StandardUri) * nat :=
  (imap (fun i _ => if (w + i <? 4)%nat then (EC_OK, piece (S (w + i))) else (EC_NOSPC, empty_uri)) ks, w + length ks).

Definition pieces_Delete (b : DataStorageBackend) (us : list StandardUri) (w : nat) : list ErrorCode * nat :=
  (replicate (length us) EC_OK, w).

Abbreviation Pieces := (Logged nat).
Definition no_pieces : Pieces := mkLogged 0 [] [].
Definition log_Create := logged_Create pieces_Create.
Definition log_Delete := logged_Delete pieces_Delete.

(** Two specs; the group [kv] has the first, [all] both. *)
Definition two_specs : InstanceInfo :=
  mkInfo "" "g" "i" 128 [mkSpecInfo "kv" 8; mkSpecInfo "ssm" 4] no_deployment
    [mkSpecGroup "all" ["kv"; "ssm"]; mkSpecGroup "kv" ["kv"]] 0.

Definition two_specs_reg : RegistryManager (T := unit) :=
  mkRegistry (data_storage_manager_ example_reg) (instance_group_configs_ example_reg) {[ "i" := two_specs ]} ∅ tt true.

Lemma pieces_laws (dsm : DataStorageManager) :
  (forall name b, dsm !! name = Some b -> name = "fs" \/ name = "nfs_a" \/ name = "nfs_b") ->
  StorageLaws pieces_Create dsm.
Proof.
  intros Hnames. split.
  - intros b ks sz w. simpl. by rewrite length_imap.
  - intros name b ks sz w u Hb _ (i & Hi)%list_elem_of_lookup. simpl in Hi. rewrite list_lookup_imap in Hi.
    destruct (ks !! i) as [k|]; [|done]. simpl in Hi. destruct (_ <? 4)%nat; simplify_eq. generalize (w + i). intros n.
    pose proof (Hnames name b Hb) as Hname.
    assert (Hhost : "/"%char ∉ chars_of name /\ "?"%char ∉ chars_of name /\ ":"%char ∉ chars_of name /\ "@"%char ∉ chars_of name).
    { destruct Hname as [->|[->| ->]]; split_and!; intros Hc; repeat (apply elem_of_cons in Hc as [Hc|Hc]; [done|]); by apply not_elem_of_nil in Hc. }
    destruct Hhost as (? & ? & ? & ?). split; [|by split; [intros _|]]. unfold wf_uri. simpl. split_and!; try done;
      try (by intros ?%not_elem_of_nil); [right|constructor].
    eexists. split; [done|]. intros Hin. apply list_elem_of_lookup in Hin as (j & Hj).
    by apply (lookup_replicate (S n)) in Hj as [? _].
  - destruct (dsm !! "") as [b|] eqn:E; [|done]. by destruct (Hnames _ _ E) as [?|[?|?]].
Qed.

Lemma two_specs_names name b :
  data_storage_manager_ two_specs_reg !! name = Some b -> name = "fs" \/ name = "nfs_a" \/ name = "nfs_b".
Proof.
  change (data_storage_manager_ two_specs_reg) with (data_storage_manager_ example_reg).
  unfold example_reg, data_storage_manager_. intros Hb.
  apply lookup_insert_Some in Hb as [[<- _]|[_ Hb]]; [auto|]. apply lookup_insert_Some in Hb as [[<- _]|[_ Hb]]; [auto|].
  apply lookup_singleton_Some in Hb as [<- _]. auto.
Qed.

(** Type and specs of a location in the answer. *)
Definition shown (p : CacheLocationConstPtr) : DataStorageType * list LocationSpec :=
  match p with Some l => (type l, location_specs l) | None => (DATA_STORAGE_TYPE_UNKNOWN, []) end.

Lemma GenWriteLocation_exact_witness :
  let gen := fun keys groups => GenWriteLocation log_Create log_Delete "i" keys groups [] two_specs_reg example_indexers no_pieces in
  let ok := gen [5; 255]%Z ["kv"; "all"] in
  let full := gen [5; 6; 7]%Z ["kv"; "all"; "all"] in
  ok.1.1 = EC_OK /\
  shown <$> ok.1.2 =
    [(DATA_STORAGE_TYPE_NFS, [mkLocationSpec "kv" "nfs://nfs_b/a"]);
     (DATA_STORAGE_TYPE_NFS, [mkLocationSpec "kv" "nfs://nfs_b/aa"; mkLocationSpec "ssm" "nfs://nfs_b/aaa"])] /\
  full.1.1 = EC_ERROR /\ length (made full.2) = 4 /\ dropped full.2 ≡ₚ made full.2.
Proof.
  intros gen ok full. split; [vm_compute; reflexivity|]. split; [vm_compute; reflexivity|].
  assert (Hec : full.1.1 = EC_ERROR) by (vm_compute; reflexivity). split; [exact Hec|]. split; [vm_compute; reflexivity|].
  destruct full as [[ec out] w'] eqn:E. simpl in Hec. subst ec. unfold full, gen in E.
  destruct (GenWriteLocation_exact two_specs_reg example_indexers "g" pieces_Create pieces_Delete
    "i" [5; 6; 7]%Z ["kv"; "all"; "all"] [] two_specs no_pieces EC_ERROR out w' (pieces_laws _ two_specs_names)
    ltac:(by apply (bool_decide_unpack (plain_names "i" (location_spec_infos_ two_specs)))) eq_refl eq_refl (or_intror eq_refl) E)
    as [(_ & _ & (lost & Hm & Hd))|(Hc & _)]; [|discriminate].
  simpl in *. by rewrite Hm, Hd.
Defined.
