(* ===== verification/CacheWrite.v ===== *)
(** * CacheWrite: write sessions of the cache manager

    [StartWriteCache], [FinishWriteCache], [RollbackAddLocations] and the
    expiry of sessions ([manager/cache_manager.cc]), composed from the filter
    ([WriteFilter]), the allocation ([WriteAlloc]), the metadata mutations
    ([MetaAdd], [MetaMutate]) and the session map ([WriteSession]). The
    migration manager's answers, the clock, the position of the thread's
    random generator and the durability barrier of the indexer are arguments;
    what is handed to other threads (deletions for the reclaimer, marks to
    clear, published events) is recorded in the state. *)

From stdpp Require Import base gmap sets list strings.
From Stdlib Require Import ZArith Lia.
From S2P Require Import Prelude StandardUri MetaTypes StorageUsage MetaBackend DummyBackend LocalBackend BackendManager BackendReads MetaIndexer IndexerRmw RmwLocation RmwBlock MetaMutate MetaAdd WriteSession LocationPolicy MetaMatch StorageManager Registry StorageSelect WriteFilter WriteAlloc.

(** ** Keys of token blocks *)

(** [static_cast<int64_t>] of a value. *)
Definition i64 (z : Z) : Z := ((z + 2 ^ 63) mod 2 ^ 64 - 2 ^ 63)%Z.

Section hash.
(** [std::hash<int64_t>]. *)
Variable hasher : Z -> Z.

(** The sum is taken in [size_t]; the shifts are those of [int64_t]. *)
Definition hashInt64Func (hash value : Z) : Z :=
  i64 (Z.lxor (u64 hash)
         (u64 (hasher value + 0x9e3779b97f4a7c15 + i64 (Z.shiftl hash 12) + Z.shiftr hash 32))).

Definition hashInt64Array (hash : Z) (values : list Z) : Z := foldl hashInt64Func hash values.

(** The loop of [GenKeyVector] with the hash of the previous block. *)
Fixpoint gen_keys (total_blocks block_size : nat) (hash : Z) (tokens : list Z) : list KeyType :=
  match total_blocks with
  | O => []
  | S n =>
      let hash := hashInt64Array hash (take block_size tokens) in
      hash :: gen_keys n block_size hash (drop block_size tokens)
  end.

Definition GenKeyVector (tokens : list Z) (block_size : Z) : list KeyType :=
  gen_keys (length tokens / Z.to_nat block_size) (Z.to_nat block_size) 0 tokens.

End hash.

(** ** State *)

Inductive MigrationMarkClearPolicy :=
| CLEAR_ON_NEXT_WRITE_SUCCESS | CLEAR_ON_FULL_BLOCK_COVERED.

(** What a request sees of the migration manager: whether the group has
    strategies, its clear policy, and the answers to a mark query. *)
Record MigrationView := mkMigrationView {
  tiered_migration_enabled : bool;
  migration_mark_clear_policy : MigrationMarkClearPolicy;
  BatchGetTieredWriteTargets : list KeyType -> list MarkQueryResult;
}.

Inductive Event :=
| StartWriteCacheEvent (instance_id sid : string) (keys : list KeyType) (tokens : list Z) (mask : BlockMask)
    (group_names : list string) (write_timeout_seconds : Z)
| FinishWriteCacheEvent (instance_id sid : string) (mask : BlockMask).

Record StartWriteCacheInfo := mkStartInfo {
  si_write_session_id : string;
  si_block_mask : BlockMask;
  si_locations : list CacheLocationConstPtr;
}.

Definition kMaxWriteTimeoutSeconds : Z := 1800.

Section manager.
Context {PT CT T W : Type} `{PB : !MetaStorageBackend PT} `{CB : !MetaCacheBaseBackend CT}.
Local Abbreviation Indexer := (MetaIndexer PT CT).

(** A searcher: the indexer of its instance and the usage counters. *)
Record MetaSearcher := mkSearcher { meta_indexer_ : Indexer; storage_usage_ : StorageUsageData }.

(** The callback of a session is [FinishWriteCache] for its instance, so a
    session carries the instance id. *)
Record CacheManager := mkCacheManager {
  registry_manager_ : RegistryManager (T := T);
  meta_searchers_ : gmap string MetaSearcher;
  write_location_manager_ : WriteLocationManager string;
  policy_store_ : PolicyStore;
  storages_ : W;
  del_requests_ : list CacheLocationDelRequest;
  cleared_marks_ : list (KeyType * MarkQueryResult);
  events_ : list Event;
}.

Variable bk_Create : DataStorageBackend -> list string -> Z -> W -> list (ErrorCode * StandardUri) * W.
Variable bk_Delete : DataStorageBackend -> list StandardUri -> W -> list ErrorCode * W.
Variables bk_Exist bk_MightExist : DataStorageBackend -> list StandardUri -> W -> list bool.
(** [std::hash]; the random generator and the tries allowed per location id;
    what [spec_sz] holds before it is read; [ToJsonString] of a location;
    [Sync] of the indexer; visibility of reported locations. *)
Variables (hasher : Z -> Z) (dist : nat -> nat) (fuel : nat) (spec_sz : nat -> nat -> Z) (ToJsonString : CacheLocation -> string)
  (sync : list KeyType -> bool) (event_visible : string -> CacheLocation -> bool).

Definition set_searcher (instance_id : string) (s : MetaSearcher) (c : CacheManager) : CacheManager :=
  mkCacheManager (registry_manager_ c) (<[instance_id := s]> (meta_searchers_ c)) (write_location_manager_ c)
    (policy_store_ c) (storages_ c) (del_requests_ c) (cleared_marks_ c) (events_ c).
Definition set_sessions (s : WriteLocationManager string) (c : CacheManager) : CacheManager :=
  mkCacheManager (registry_manager_ c) (meta_searchers_ c) s (policy_store_ c) (storages_ c) (del_requests_ c)
    (cleared_marks_ c) (events_ c).
Definition set_policies (p : PolicyStore) (c : CacheManager) : CacheManager :=
  mkCacheManager (registry_manager_ c) (meta_searchers_ c) (write_location_manager_ c) p (storages_ c) (del_requests_ c)
    (cleared_marks_ c) (events_ c).
Definition set_storages (w : W) (c : CacheManager) : CacheManager :=
  mkCacheManager (registry_manager_ c) (meta_searchers_ c) (write_location_manager_ c) (policy_store_ c) w
    (del_requests_ c) (cleared_marks_ c) (events_ c).
Definition submit (reqs : list CacheLocationDelRequest) (c : CacheManager) : CacheManager :=
  mkCacheManager (registry_manager_ c) (meta_searchers_ c) (write_location_manager_ c) (policy_store_ c) (storages_ c)
    (del_requests_ c ++ reqs) (cleared_marks_ c) (events_ c).
Definition clear_marks (ms : list (KeyType * MarkQueryResult)) (c : CacheManager) : CacheManager :=
  mkCacheManager (registry_manager_ c) (meta_searchers_ c) (write_location_manager_ c) (policy_store_ c) (storages_ c)
    (del_requests_ c) (cleared_marks_ c ++ ms) (events_ c).
Definition publish (e : Event) (c : CacheManager) : CacheManager :=
  mkCacheManager (registry_manager_ c) (meta_searchers_ c) (write_location_manager_ c) (policy_store_ c) (storages_ c)
    (del_requests_ c) (cleared_marks_ c) (events_ c ++ [e]).

(** The usage counters as the storage selector reads them. *)
Definition usage_of (c : CacheManager) : Indexers := storage_usage_ <$> meta_searchers_ c.

(** ** Checks *)

Definition CheckInputAndGetMetaSearcher (instance_id : string) (keys : list KeyType) (tokens : list Z) (c : CacheManager)
    : ErrorCode * option MetaSearcher :=
  match meta_searchers_ c !! instance_id with
  | None => (EC_INSTANCE_NOT_EXIST, None)
  | Some s => if bool_decide (keys = []) && bool_decide (tokens = []) then (EC_BADARGS, None) else (EC_OK, Some s)
  end.

Definition GetBlockSize (instance_id : string) (c : CacheManager) : ErrorCode * Z :=
  match GetInstanceInfo instance_id (registry_manager_ c) with
  | None => (EC_INSTANCE_NOT_EXIST, 0%Z)
  | Some info => if (block_size_ info <=? 0)%Z then (EC_BADARGS, 0%Z) else (EC_OK, block_size_ info)
  end.

(** The keys of a request: its own, or those of its tokens. *)
Definition request_keys (instance_id : string) (keys : list KeyType) (tokens : list Z) (c : CacheManager)
    : ErrorCode * list KeyType :=
  match keys with
  | [] =>
      let '(ec, block_size) := GetBlockSize instance_id c in
      if bool_decide (ec <> EC_OK) then (ec, []) else (EC_OK, GenKeyVector hasher tokens block_size)
  | _ => (EC_OK, keys)
  end.

(** [GetCheckLocDataExistFunc]. *)
Definition GetCheckLocDataExistFunc (instance_id : string) (c : CacheManager) : CheckLocDataExistFunc :=
  Some (fun loc =>
    if IsEventReportStorageType (type loc) then event_visible instance_id loc
    else
      let storage_uris :=
        filter (fun u => Valid u = true) ((fun s => (Parse (chars_of (uri s))).1) <$> location_specs loc) in
      match storage_uris with
      | [] => true
      | u :: _ =>
          let result := StorageManager.Exist bk_Exist bk_MightExist (data_storage_manager_ (registry_manager_ c))
                          (String.string_of_list_ascii (hostname_ u)) storage_uris true (storages_ c) in
          (length result =? length storage_uris)%nat && forallb Datatypes.id result
      end).

(** ** Rolling back *)

(** [direct_delete_uris]: the valid URIs of the locations, by storage. *)
Definition direct_delete_uris (locations : list CacheLocationConstPtr) (indices : list nat)
    : gmap string (list StandardUri) :=
  uris_by_storage (fun u => negb (Valid u)) (specs_of (gather indices locations)).

Definition RollbackAddLocations (instance_id : string) (keys : list KeyType) (locations : list CacheLocationConstPtr)
    (add_results : list AddLocationResult) (c : CacheManager) : CacheManager :=
  if negb (length keys =? length locations)%nat || negb (length keys =? length add_results)%nat then c
  else
    let '(ec, plan, c) :=
      match meta_searchers_ c !! instance_id with
      | None => (EC_OK, (ClassifyAddLocationRollback keys add_results).2, c)
      | Some s =>
          let '(ec, plan, x) :=
            ReconcileAddLocationRollback ToJsonString sync keys add_results (storage_usage_ s) (meta_indexer_ s) in
          (ec, plan, set_searcher instance_id (mkSearcher x (storage_usage_ s)) c)
      end in
    if bool_decide (ec <> EC_OK) then c
    else
      let c :=
        match pipeline_keys plan with
        | [] => c
        | _ => submit [mkDelRequest instance_id (pipeline_keys plan) ((fun i => [i]) <$> pipeline_location_ids plan)] c
        end in
      set_storages (delete_all bk_Delete (data_storage_manager_ (registry_manager_ c))
                      (direct_delete_uris locations (direct_delete_indices plan)) (storages_ c)) c.

(** ** Starting a write *)

(** The first check of [StartWriteCache]. *)
Definition check_groups (instance_id : string) (keys : list KeyType) (tokens : list Z) (group_names : list string)
    (c : CacheManager) : ErrorCode :=
  match group_names with
  | [] => EC_OK
  | _ =>
      let '(ec, block_count) :=
        match keys, tokens with
        | [], _ :: _ =>
            let '(ec, block_size) := GetBlockSize instance_id c in (ec, (length tokens / Z.to_nat block_size)%nat)
        | _, _ => (EC_OK, length keys)
        end in
      if bool_decide (ec <> EC_OK) then ec
      else CheckLocationSpecGroupNames (GetInstanceInfo instance_id (registry_manager_ c)) block_count group_names
  end.

(** Allocation and registration of the new locations; [None] while an id is
    still searched. The ids of the locations, when all were added. *)
Definition add_new_locations (instance_id : string) (new_keys : list KeyType) (new_groups new_targets : list string)
    (now : Z) (p : nat) (s : MetaSearcher) (c : CacheManager)
    : option ((ErrorCode * (list CacheLocationConstPtr * list LocationId)) * CacheManager) :=
  let '((ec, new_locations), w) :=
    GenWriteLocation bk_Create bk_Delete instance_id new_keys new_groups new_targets (registry_manager_ c) (usage_of c)
      (storages_ c) in
  let c := set_storages w c in
  if bool_decide (ec <> EC_OK) then Some ((ec, ([], [])), c)
  else
    locations ← mapM (fun l => l) new_locations;
    '(ec, add_results, usage, x) ← BatchAddLocation dist fuel now spec_sz new_keys locations p (storage_usage_ s) (meta_indexer_ s);
    let c := set_searcher instance_id (mkSearcher x usage) c in
    if bool_decide (ec <> EC_OK)
    then Some ((ec, ([], [])), RollbackAddLocations instance_id new_keys new_locations add_results c)
    else Some ((EC_OK, (new_locations, add_location_id <$> add_results)), c).

(** [StartWriteCache] at time [now], with the thread's generator at [p]. *)
Definition StartWriteCache (mv : MigrationView) (instance_id : string) (keys : list KeyType) (tokens : list Z)
    (group_names : list string) (write_timeout_seconds min_replica_count now : Z) (p : nat) (c : CacheManager)
    : option ((ErrorCode * option StartWriteCacheInfo) * CacheManager) :=
  let ec := check_groups instance_id keys tokens group_names c in
  if bool_decide (ec <> EC_OK) then Some ((ec, None), c)
  else match CheckInputAndGetMetaSearcher instance_id keys tokens c with
  | (ec, None) => Some ((ec, None), c)
  | (_, Some s) =>
    let '(ec, query_keys) := request_keys instance_id keys tokens c in
    if bool_decide (ec <> EC_OK) then Some ((ec, None), c)
    else
      let '((ec, out), (dels, cleared), store, x) :=
        FilterWriteCache instance_id query_keys group_names min_replica_count (GetCheckLocDataExistFunc instance_id c)
          (tiered_migration_enabled mv) (BatchGetTieredWriteTargets mv query_keys) (registry_manager_ c) (usage_of c)
          (policy_store_ c) (meta_indexer_ s) in
      let s := mkSearcher x (storage_usage_ s) in
      let c := submit dels (clear_marks cleared (set_policies store (set_searcher instance_id s c))) in
      if bool_decide (ec <> EC_OK) then Some ((ec, None), c)
      else
        let write_session_id := GenerateRandomString dist 32 p in
        '((ec, (new_locations, location_ids)), c) ←
          match f_keys out with
          | [] => Some ((EC_OK, ([], [])), c)
          | _ => add_new_locations instance_id (f_keys out) (f_groups out) (f_targets out) now (p + 32) s c
          end;
        if bool_decide (ec <> EC_OK) then Some ((ec, None), c)
        else
          let timeout := match f_keys out with [] => 10%Z | _ => write_timeout_seconds end in
          let c := set_sessions (manager_Put now write_session_id (f_keys out) location_ids
                                   (Z.min kMaxWriteTimeoutSeconds timeout) instance_id (write_location_manager_ c)) c in
          Some ((EC_OK, Some (mkStartInfo write_session_id (f_mask out) new_locations)),
                publish (StartWriteCacheEvent instance_id write_session_id query_keys tokens (f_mask out) group_names timeout) c)
  end.

(** ** Finishing a write *)

(** Keys and ids of the blocks of a session, split by the mask. *)
Definition session_blocks (info : WriteLocationInfo) : list (KeyType * LocationId) :=
  zip (wi_keys info) (wi_location_ids info).

Definition succeeded (mask : BlockMask) (info : WriteLocationInfo) : list (KeyType * LocationId) :=
  (filter (fun ib => IsIndexInMaskRange mask ib.1 = true) (imap pair (session_blocks info))).*2.

Definition failed (mask : BlockMask) (info : WriteLocationInfo) : list (KeyType * LocationId) :=
  (filter (fun ib => IsIndexInMaskRange mask ib.1 = false) (imap pair (session_blocks info))).*2.

Definition FindLocationById (m : CacheLocationMap) (location_id : LocationId) : option CacheLocation :=
  mjoin (m !! location_id).

(** Is the mark of a finished block consumed? *)
Definition mark_consumed (mv : MigrationView) (info : option InstanceInfo) (lid : LocationId)
    (mark : MarkQueryResult) (m : CacheLocationMap) : bool :=
  HasValidMark mark &&
  match FindLocationById m lid with
  | None => false
  | Some l =>
      bool_decide (status l = CLS_SERVING) && LocationHasSpecOnStorage l (mark_target mark) &&
      match migration_mark_clear_policy mv with
      | CLEAR_ON_NEXT_WRITE_SUCCESS => true
      | CLEAR_ON_FULL_BLOCK_COVERED => LocationsCoverFullBlockOnStorage m (mark_target mark) info
      end
  end.

(** The marks consumed by the blocks that are served now, and the indexer
    after reading them. *)
Definition consumed_marks (mv : MigrationView) (info : option InstanceInfo) (blocks : list (KeyType * LocationId))
    (results : list (list ErrorCode)) (x : Indexer) : list (KeyType * MarkQueryResult) * Indexer :=
  let candidates := (filter (fun br => head br.2 = Some EC_OK) (zip blocks results)).*1 in
  match candidates with
  | [] => ([], x)
  | _ =>
      let marks := BatchGetTieredWriteTargets mv candidates.*1 in
      let '(maps, x) := BatchGetLocation candidates.*1 (BlockMaskOffset 0) x in
      if negb (length maps =? length candidates)%nat then ([], x)
      else
        ((fun r => (r.1.1.1, r.1.2)) <$>
           filter (fun r => mark_consumed mv info r.1.1.2 r.1.2 r.2 = true) (zip (zip candidates marks) maps), x)
  end.

(** [FinishWriteCache] after the session was taken. *)
Definition finish_session (mv : MigrationView) (instance_id sid : string) (mask : BlockMask) (info : WriteLocationInfo)
    (c : CacheManager) : ErrorCode * CacheManager :=
  if negb (IsBlockMaskValid mask (length (wi_keys info))) then (EC_BADARGS, c)
  else match meta_searchers_ c !! instance_id with
  | None => (EC_INSTANCE_NOT_EXIST, c)
  | Some s =>
      let ok := succeeded mask info in
      let '(ec, results, x) :=
        match ok with
        | [] => (EC_OK, [], meta_indexer_ s)
        | _ => BatchUpdateLocationStatus ok.*1 ((fun b => [mkUpdateTask b.2 CLS_SERVING]) <$> ok) (meta_indexer_ s)
        end in
      let instance_info := GetInstanceInfo instance_id (registry_manager_ c) in
      let '(marks, x) :=
        match instance_info with
        | Some _ => if tiered_migration_enabled mv then consumed_marks mv instance_info ok results x else ([], x)
        | None => ([], x)
        end in
      let c := clear_marks marks (set_searcher instance_id (mkSearcher x (storage_usage_ s)) c) in
      let bad := failed mask info in
      let c :=
        match bad with
        | [] => c
        | _ => submit [mkDelRequest instance_id bad.*1 ((fun b => [b.2]) <$> bad)] c
        end in
      (ec, publish (FinishWriteCacheEvent instance_id sid mask) c)
  end.

(** [FinishWriteCache] called by a client; [None] is a failed assertion of
    the session map. *)
Definition FinishWriteCache (mv : MigrationView) (instance_id sid : string) (mask : BlockMask) (c : CacheManager)
    : option (ErrorCode * CacheManager) :=
  '(info, m) ← manager_GetAndDelete sid (write_location_manager_ c);
  Some match info with
       | None => (EC_ERROR, c)
       | Some info => finish_session mv instance_id sid mask info (set_sessions m c)
       end.

(** A round of the expiry thread: the callback of a due session finishes it
    with no block written. *)
Definition ExpireSessions (mv : MigrationView) (cur_point : Z) (c : CacheManager) : CacheManager :=
  let '(due, m) := expire_round cur_point (write_location_manager_ c) in
  foldl (fun c u => (finish_session mv (callback u) (write_session_id u) (BlockMaskOffset 0) (write_location_info u) c).2)
    (set_sessions m c) due.

(** ** Removing *)

(** [RemoveCache]: the keys whose deletion is submitted. *)
Definition RemoveCache (instance_id : string) (keys : list KeyType) (tokens : list Z) (c : CacheManager)
    : ErrorCode * option (list KeyType) :=
  if bool_decide (keys = []) && bool_decide (tokens = []) then (EC_BADARGS, None)
  else
    let '(ec, ks) := request_keys instance_id keys tokens c in
    if bool_decide (ec <> EC_OK) then (ec, None) else (EC_OK, Some ks).

End manager.
