(* ===== verification/CacheSession.v ===== *)
(** * CacheSession: what a write session does, end to end

    The guarantees of [StartWriteCache] and [FinishWriteCache] of
    [manager/cache_manager.cc], for an instance whose metadata has a single
    tier: a session is opened with one new location per block that needs
    writing; finishing it makes exactly the reported blocks readable and hands
    exactly the others to the reclaimer; and a second writer of the same
    blocks finds nothing to write. *)

From stdpp Require Import base gmap sets list strings.
From Stdlib Require Import ZArith Lia.
From S2P Require Import Prelude StandardUri MetaTypes StorageUsage MetaBackend DummyBackend LocalBackend BackendManager BackendReads MetaIndexer IndexerRmw RmwLocation RmwBlock RmwCodes MetaMutate MetaAdd WriteSession LocationPolicy MetaMatch StorageManager Registry StorageSelect WriteFilter WriteAlloc WriteGen CacheWrite.

(** ** Reads of a single tier *)

Section reads.
Context {PT CT : Type} `{PB : !MetaStorageBackend PT} `{PL : !LawfulBackend PT}
  `{CB : !MetaCacheBaseBackend CT} `{CL : !LawfulCache CT}.
Implicit Types x : MetaIndexer PT CT.

Lemma single_tier_coherent x : single_tier (backend_manager_ x) -> coherent (backend_manager_ x).
Proof. unfold single_tier. intros Hs c. by rewrite Hs. Qed.

(** A read answers from the store and leaves it alone. *)
Lemma BatchGetLocation_read keys x maps x' :
  single_tier (backend_manager_ x) -> BatchGetLocation keys (BlockMaskOffset 0) x = (maps, x') ->
  single_tier (backend_manager_ x') /\ stored x' = stored x /\ length maps = length keys /\
  (forall i k m, keys !! i = Some k -> maps !! i = Some m ->
     exists e, read_ok eq (stored x) k e m).
Proof.
  intros Hs Hrun. pose proof (single_tier_coherent x Hs) as Hco.
  pose proof (BatchGetLocation_all _ _ _ _ Hco Hrun) as Hlen.
  unfold BatchGetLocation in Hrun. rewrite query_keys_unmasked, unmasked_offset, drop_0 in Hrun.
  destruct keys as [|k0 ks]; [simplify_eq; done|]. remember (k0 :: ks) as keys eqn:Hk. clear Hk k0 ks.
  destruct (GetLocations keys x) as [[result ms] y] eqn:E. simplify_eq.
  pose proof E as E'. apply GetLocations_spec in E' as (Hv & _ & Hrd); [|done].
  split_and!; [|exact Hv|done|].
  - unfold GetLocations in E. destruct keys; [by simplify_eq|]. unfold BackendManager.GetLocations, tiered_read in E.
    unfold single_tier in Hs |- *. rewrite Hs in E. destruct (be_GetLocations _ _) as [[cs ms'] p].
    repeat case_match; by simplify_eq.
  - intros i k m Hi Hm. destruct (Forall3i_lookup _ _ _ _ _ _ Hrd Hi) as (e & m' & _ & Hm' & Hr). simplify_eq. eauto.
Qed.
End reads.

(** ** The blocks of a session *)

Lemma elem_of_masked {A} (b : bool) mask (l : list A) a :
  a ∈ (filter (fun ib => IsIndexInMaskRange mask ib.1 = b) (imap pair l)).*2 <->
  exists i, l !! i = Some a /\ IsIndexInMaskRange mask i = b.
Proof.
  rewrite list_elem_of_fmap. split.
  - intros ([i a'] & -> & [Hm Hin]%list_elem_of_filter). apply elem_of_lookup_imap in Hin as (j & a & [= -> ->] & Hj).
    simpl in *. eauto.
  - intros (i & Hi & Hm). exists (i, a). split; [done|]. apply list_elem_of_filter. split; [done|].
    apply elem_of_lookup_imap. eauto.
Qed.

Lemma masked_sublist {A} (b : bool) mask (l : list A) :
  sublist (filter (fun ib => IsIndexInMaskRange mask ib.1 = b) (imap pair l)).*2 l.
Proof.
  assert (Hs : (imap pair l).*2 = l).
  { apply list_eq. intros i. rewrite list_lookup_fmap, list_lookup_imap. by destruct (l !! i). }
  rewrite <-Hs at 2. generalize (imap pair l). intros q. induction q as [|r q IH]; [constructor|].
  rewrite filter_cons. destruct (decide _); csimpl; by constructor.
Qed.

Lemma session_block_at info i k lid :
  session_blocks info !! i = Some (k, lid) <-> wi_keys info !! i = Some k /\ wi_location_ids info !! i = Some lid.
Proof.
  unfold session_blocks. split.
  - intros Hi. apply lookup_zip_with_Some in Hi as (? & ? & [= <- <-] & ? & ?). done.
  - intros [??]. apply lookup_zip_with_Some. eauto.
Qed.

(** The deletions of one request with one location per key. *)
Lemma requested_deletes_one instance_id (blocks : list (KeyType * LocationId)) :
  requested_deletes [mkDelRequest instance_id blocks.*1 ((fun b => [b.2]) <$> blocks)] = blocks.
Proof.
  unfold requested_deletes. csimpl. rewrite app_nil_r. induction blocks as [|[k l] bs IH]; [done|]. csimpl. by rewrite IH.
Qed.

Section finish.
Context {PT CT T W : Type} `{PB : !MetaStorageBackend PT} `{PL : !LawfulBackend PT}
  `{CB : !MetaCacheBaseBackend CT} `{CL : !LawfulCache CT}.
Local Abbreviation Manager := (CacheManager (PT := PT) (CT := CT) (T := T) (W := W)).
Implicit Types c : Manager.

Definition sessions c : SessionIdMap string := session_id_map_ (write_location_manager_ c).

(** A location that may be read. *)
Definition serving (p : CacheLocationConstPtr) : CacheLocationConstPtr := set_status CLS_SERVING <$> p.

(** Taking the marks of the served blocks only reads. *)
Lemma consumed_marks_reads mv info blocks results (x : MetaIndexer PT CT) marks x' :
  single_tier (backend_manager_ x) -> consumed_marks mv info blocks results x = (marks, x') ->
  single_tier (backend_manager_ x') /\ stored x' = stored x.
Proof.
  intros Hs. unfold consumed_marks. destruct (filter _ _).*1 as [|b bs]; [by intros [= _ <-]|].
  destruct (BatchGetLocation _ _ x) as [maps y] eqn:E. apply BatchGetLocation_read in E as (H1 & H2 & _); [|done].
  destruct (negb _); by intros [= _ <-].
Qed.

(** The session is taken from the map, whatever follows. *)
Lemma FinishWriteCache_takes mv instance_id sid mask c u :
  wf_sessions (sessions c) -> u ∈ pending (sessions c) -> write_session_id u = sid ->
  exists m, wf_sessions (session_id_map_ m) /\ pending (sessions c) ≡ₚ u :: pending (session_id_map_ m) /\
    FinishWriteCache mv instance_id sid mask c =
      Some (finish_session mv instance_id sid mask (write_location_info u) (set_sessions m c)).
Proof.
  intros Hwf Hu Hsid. unfold FinishWriteCache, manager_GetAndDelete. fold (sessions c).
  destruct (GetAndDelete_spec (sessions c) sid Hwf) as [(u' & s' & Hu' & Hsid' & -> & Hwf' & Hp)|[Hni _]].
  2: { exfalso. apply Hni. rewrite <-Hsid. by apply list_elem_of_fmap_2. }
  assert (u' = u) as ->.
  { destruct Hwf as [_ _ Hd _ _]. apply list_elem_of_lookup in Hu as (i & Hi), Hu' as (j & Hj).
    assert (i = j) as ->; [|congruence]. eapply (NoDup_lookup _ i j sid Hd); rewrite list_lookup_fmap; [rewrite Hi|rewrite Hj]; simpl; congruence. }
  exists (mkWriteManager s' (next_sleep_time_us_ (write_location_manager_ c))). by split_and!.
Qed.

(** The deletions submitted for the blocks that failed. *)
Lemma submit_failed instance_id bad c :
  exists dels, requested_deletes dels = bad /\
    match bad with
    | [] => c
    | _ => submit [mkDelRequest instance_id bad.*1 ((fun b => [b.2]) <$> bad)] c
    end = submit dels c.
Proof.
  destruct bad as [|b bs]; [exists []|]; [|eexists; split; [apply (requested_deletes_one instance_id)|done]].
  split; [done|]. unfold submit. rewrite app_nil_r. by destruct c.
Qed.

(** C1: finishing a write session is exact: the session ends; the locations of
    the blocks reported written become serving (all that exist, when the
    answer is [EC_OK]; a location that could not be updated is unchanged);
    exactly the other blocks' locations are handed to the reclaimer; and no
    other location of any block changes, nor any storage. *)
Theorem FinishWriteCache_exact mv instance_id sid mask c s u :
  meta_searchers_ c !! instance_id = Some s -> single_tier (backend_manager_ (meta_indexer_ s)) ->
  well_keyed (stored (meta_indexer_ s)) -> wf_sessions (sessions c) -> u ∈ pending (sessions c) ->
  write_session_id u = sid ->
  let info := write_location_info u in
  NoDup (wi_keys info) -> IsBlockMaskValid mask (length (wi_keys info)) = true ->
  exists ec c' s' dels, FinishWriteCache mv instance_id sid mask c = Some (ec, c') /\
    wf_sessions (sessions c') /\ pending (sessions c) ≡ₚ u :: pending (sessions c') /\
    meta_searchers_ c' = <[instance_id := s']> (meta_searchers_ c) /\ storages_ c' = storages_ c /\
    well_keyed (stored (meta_indexer_ s')) /\
    del_requests_ c' = del_requests_ c ++ dels /\ requested_deletes dels = failed mask info /\
    (forall k lid, (k, lid) ∈ succeeded mask info ->
       location_at (stored (meta_indexer_ s')) k lid =
         serving <$> location_at (stored (meta_indexer_ s)) k lid \/
       (ec <> EC_OK /\ location_at (stored (meta_indexer_ s')) k lid = location_at (stored (meta_indexer_ s)) k lid)) /\
    (forall k lid, (k, lid) ∉ succeeded mask info ->
       location_at (stored (meta_indexer_ s')) k lid = location_at (stored (meta_indexer_ s)) k lid).
Proof.
  intros Hs Hst Hwk Hwf Hu Hsid info Hnd Hmask.
  destruct (FinishWriteCache_takes mv instance_id sid mask c u Hwf Hu Hsid) as (m & Hwf' & Hp & ->).
  fold info. unfold finish_session. rewrite Hmask. cbn [negb].
  change (meta_searchers_ (set_sessions m c)) with (meta_searchers_ c). rewrite Hs.
  set (ok := succeeded mask info). set (bad := failed mask info).
  assert (Hndok : NoDup ok.*1).
  { eapply sublist_NoDup; [exact Hnd|]. etrans; [apply fmap_sublist, masked_sublist|]. unfold session_blocks.
    generalize (wi_location_ids info). generalize (wi_keys info). clear.
    induction l as [|k ks IH]; intros [|l ls]; csimpl; [constructor|constructor|apply sublist_nil_l|constructor; apply IH]. }
  destruct (match ok with [] => _ | _ :: _ => _ end) as [[ec results] x] eqn:Eu.
  assert (Hx : single_tier (backend_manager_ x) /\ well_keyed (stored x) /\
    (forall k lid, (k, lid) ∈ ok ->
       location_at (stored x) k lid = serving <$> location_at (stored (meta_indexer_ s)) k lid \/
       (ec <> EC_OK /\ location_at (stored x) k lid = location_at (stored (meta_indexer_ s)) k lid)) /\
    (forall k lid, (k, lid) ∉ ok -> location_at (stored x) k lid = location_at (stored (meta_indexer_ s)) k lid)).
  { destruct ok as [|b0 bs] eqn:Eok; [simplify_eq; split_and!; [done|done| |done]; intros ?? ?%not_elem_of_nil; done|].
    rewrite <-Eok in *. apply BatchUpdateLocationStatus_one in Eu as (H1 & H2 & H3 & H4); [|done..].
    split_and!; [done|done| |exact H4]. intros k lid (i & Hi)%list_elem_of_lookup.
    destruct (H3 i k lid Hi) as (e & _ & [(_ & l & -> & ->)|(_ & Heq & Hno)]); [by left|].
    destruct (decide (ec = EC_OK)) as [Hec|Hec]; [left|by right]. rewrite Heq, Hno by done. done. }
  clear Eu. destruct Hx as (Hst' & Hwk' & Hok & Hoth).
  set (mk := match GetInstanceInfo instance_id _ with Some _ => _ | None => _ end).
  assert (Hmk : exists x', mk.2 = x' /\ stored x' = stored x).
  { unfold mk. destruct (GetInstanceInfo _ _); [|by eexists]. destruct (tiered_migration_enabled mv); [|by eexists].
    destruct (consumed_marks _ _ _ _ _) as [ms x'] eqn:E. apply consumed_marks_reads in E as [_ ?]; [|done]. by eexists. }
  destruct mk as [marks x']. destruct Hmk as (? & <- & Hsx). simpl in Hsx.
  destruct (submit_failed instance_id bad (clear_marks marks (set_searcher instance_id (mkSearcher x' (storage_usage_ s)) (set_sessions m c))))
    as (dels & Hd & Heq). fold bad in Heq |- *. rewrite Heq.
  eexists ec, _, (mkSearcher x' (storage_usage_ s)), dels. simpl. rewrite Hsx.
  split_and!; [reflexivity|exact Hwf'|exact Hp|done|done|exact Hwk'|done|exact Hd|exact Hok|exact Hoth].
Qed.

End finish.

(** ** Finishing that is refused *)

Section refused.
Context {PT CT T W : Type} `{PB : !MetaStorageBackend PT} `{CB : !MetaCacheBaseBackend CT}.
Implicit Types c : CacheManager (PT := PT) (CT := CT) (T := T) (W := W).

(** C37: a finish whose mask does not fit the session is refused with
    [EC_BADARGS], but the session is gone: no location changes, nothing is
    submitted for deletion, and finishing again, with any mask, is refused
    with [EC_ERROR]. *)
Theorem refused_finish_loses_session mv instance_id sid mask c u :
  wf_sessions (sessions c) -> u ∈ pending (sessions c) -> write_session_id u = sid ->
  IsBlockMaskValid mask (length (wi_keys (write_location_info u))) = false ->
  exists c', FinishWriteCache mv instance_id sid mask c = Some (EC_BADARGS, c') /\
    pending (sessions c) ≡ₚ u :: pending (sessions c') /\
    meta_searchers_ c' = meta_searchers_ c /\ del_requests_ c' = del_requests_ c /\ storages_ c' = storages_ c /\
    (forall mask', FinishWriteCache mv instance_id sid mask' c' = Some (EC_ERROR, c')).
Proof.
  intros Hwf Hu Hsid Hmask.
  destruct (FinishWriteCache_takes mv instance_id sid mask c u Hwf Hu Hsid) as (m & Hwf' & Hp & ->).
  unfold finish_session. rewrite Hmask. cbn [negb]. eexists. split_and!; [reflexivity|exact Hp|done..|].
  intros mask'. unfold FinishWriteCache, manager_GetAndDelete. fold (sessions (set_sessions m c)).
  destruct (GetAndDelete_spec (sessions (set_sessions m c)) sid Hwf') as [(u' & s' & Hu' & Hsid' & _)|[_ ->]].
  2: { done. }
  exfalso. destruct Hwf as [_ _ Hd _ _]. rewrite Hp in Hd. csimpl in Hd. apply NoDup_cons in Hd as [Hni _].
  apply Hni. rewrite Hsid, <-Hsid'. by apply list_elem_of_fmap_2.
Qed.

End refused.

(** ** Starting *)

Section start.
Context {PT CT T W : Type} `{PB : !MetaStorageBackend PT} `{PL : !LawfulBackend PT}
  `{CB : !MetaCacheBaseBackend CT} `{CL : !LawfulCache CT}.
Local Abbreviation Manager := (CacheManager (PT := PT) (CT := CT) (T := T) (W := Logged W)).
Implicit Types c : Manager.

Variable bk_Create : DataStorageBackend -> list string -> Z -> W -> list (ErrorCode * StandardUri) * W.
Variable bk_Delete : DataStorageBackend -> list StandardUri -> W -> list ErrorCode * W.
Variables bk_Exist bk_MightExist : DataStorageBackend -> list StandardUri -> Logged W -> list bool.
Variables (hasher : Z -> Z) (dist : nat -> nat) (fuel : nat) (spec_sz : nat -> nat -> Z) (ToJsonString : CacheLocation -> string)
  (sync : list KeyType -> bool) (event_visible : string -> CacheLocation -> bool).

(** The manager runs over the log of its storages' calls. *)
Local Abbreviation run_Create := (logged_Create bk_Create).
Local Abbreviation run_Delete := (logged_Delete bk_Delete).
Local Abbreviation add_new := (add_new_locations run_Create run_Delete dist fuel spec_sz ToJsonString sync).
Local Abbreviation start := (StartWriteCache run_Create run_Delete bk_Exist bk_MightExist hasher dist fuel spec_sz
  ToJsonString sync event_visible).
Local Abbreviation exist_check := (GetCheckLocDataExistFunc bk_Exist bk_MightExist event_visible).

(** The store [V'] holds, next to what [V] has for block [k], the location
    [loc] under the new id [lid], in state writing. *)
Definition now_writing (V V' : StoreView) (k : KeyType) (lid : LocationId) (loc : CacheLocation) : Prop :=
  location_at V k lid = None /\
  exists l, V' !! k = Some (<[lid := Some l]> (default ∅ (V !! k))) /\ id l = lid /\ status l = CLS_WRITING /\
    type l = type loc /\ location_specs l = location_specs loc.

Lemma add_new_locations_ok instance_id keys groups targets now p s c info locs ids c' :
  StorageLaws bk_Create (data_storage_manager_ (registry_manager_ c)) ->
  plain_names instance_id (location_spec_infos_ info) ->
  GetInstanceInfo instance_id (registry_manager_ c) = Some info ->
  (groups = [] \/ length groups = length keys) ->
  single_tier (backend_manager_ (meta_indexer_ s)) -> NoDup keys ->
  ids_reachable dist fuel keys (stored (meta_indexer_ s)) ->
  add_new instance_id keys groups targets now p s c = Some ((EC_OK, (locs, ids)), c') ->
  length locs = length keys /\ length ids = length keys /\
  exists s' w, c' = set_searcher instance_id s' (set_storages w c) /\ single_tier (backend_manager_ (meta_indexer_ s')) /\
    gained (data_storage_manager_ (registry_manager_ c)) (storages_ c) (named_uris locs) w /\
    (forall i k, keys !! i = Some k -> exists loc lid, locs !! i = Some (Some loc) /\ ids !! i = Some lid /\
       now_writing (stored (meta_indexer_ s)) (stored (meta_indexer_ s')) k lid loc) /\
    (forall k, k ∉ keys -> stored (meta_indexer_ s') !! k = stored (meta_indexer_ s) !! k).
Proof.
  intros Hlaws Hpl Hinfo Hgr Hst Hnd Hids Hrun. unfold add_new_locations in Hrun.
  destruct (GenWriteLocation _ _ _ _ _ _ _ _ _) as [[ec nl] w] eqn:Eg.
  destruct (GenWriteLocation_spec (registry_manager_ c) (usage_of c) (instance_group_name_ info) bk_Create bk_Delete
    _ _ _ _ _ _ _ _ _ Hlaws Hpl Hinfo eq_refl Hgr Eg) as [(Hne & _)|(-> & Hln & _ & Hgain)].
  { rewrite bool_decide_eq_true_2 in Hrun by done. simplify_eq. }
  rewrite bool_decide_eq_false_2 in Hrun by naive_solver.
  destruct (mapM (fun l => l) nl) as [locations|] eqn:Em; [|done]. cbn [mbind option_bind] in Hrun.
  assert (Hloc : nl = Some <$> locations).
  { clear -Em. apply mapM_Some in Em. induction Em as [|l y nl ls -> _ IH]; csimpl; [done|]. by rewrite <-IH. }
  assert (Hll : length locations = length keys) by (rewrite <-Hln, Hloc; by rewrite length_fmap).
  destruct (BatchAddLocation_spec dist fuel now spec_sz keys locations p (storage_usage_ s) (meta_indexer_ s) Hst Hnd Hll Hids)
    as (r & results & x' & Hadd & Hst' & Hlr & Hok & Hpos & Hoth).
  rewrite Hadd in Hrun. cbn [mbind option_bind] in Hrun. case_bool_decide as Hr; [simplify_eq|]. simplify_eq.
  split_and!; [done|by rewrite length_fmap|]. eexists (mkSearcher x' _), w. split_and!; [done|exact Hst'|exact Hgain| |exact Hoth].
  intros i k Hi. destruct (lookup_lt_is_Some_2 locations i) as [loc Hl]; [apply lookup_lt_Some in Hi; lia|].
  destruct (Hpos i k loc Hi Hl) as (res & Hres & Hcase). exists loc, (add_location_id res).
  rewrite !list_lookup_fmap, Hl, Hres. split_and!; [done|done|].
  specialize (Hok eq_refl). rewrite Forall_forall in Hok. assert (Hre : add_ec res = EC_OK)
    by (apply Hok; by eapply list_elem_of_lookup_2).
  destruct Hcase as [(_ & _ & Hnone & l & Hs & ? & ? & _ & ? & ?)|[? _]]; [|done]. split; [exact Hnone|]. by exists l.
Qed.

(** ** The steps of a start that succeeds *)

Lemma length_unmasked {A B} mask (l : list A) (k : list B) :
  length l = length k -> length (unmasked mask l) = length (unmasked mask k).
Proof.
  revert k. induction l as [|a l IH] using rev_ind; intros k Hl.
  { by destruct k. }
  destruct k as [|b k _] using rev_ind; [rewrite length_app in Hl; simpl in Hl; lia|].
  rewrite !length_app in Hl. simpl in Hl. assert (Hlk : length l = length k) by lia.
  rewrite !unmasked_snoc, !length_app, (IH k Hlk), Hlk. by destruct (IsIndexInMaskRange _ _).
Qed.

Lemma length_gen_keys n bs : forall h ts, length (gen_keys hasher n bs h ts) = n.
Proof. induction n as [|n IH]; intros h ts; simpl; [done|]. by rewrite IH. Qed.

(** Spec groups that are accepted are one per block. *)
Lemma check_groups_length instance_id keys tokens groups c qk :
  check_groups instance_id keys tokens groups c = EC_OK -> request_keys hasher instance_id keys tokens c = (EC_OK, qk) ->
  groups = [] \/ length groups = length qk.
Proof.
  unfold check_groups, request_keys. destruct groups as [|g gs]; [by left|]. intros Hc Hr. right.
  set (groups := g :: gs) in *. clearbody groups.
  assert (Hcheck : forall i n, CheckLocationSpecGroupNames i n groups = EC_OK -> length groups = n).
  { intros i n. unfold CheckLocationSpecGroupNames. destruct (Nat.eqb_spec n (length groups)); [done|by intros]. }
  assert (Hok : bool_decide (EC_OK <> EC_OK) = false) by (by apply bool_decide_eq_false_2; naive_solver).
  destruct keys as [|k ks]; [|injection Hr as <-; cbn in Hc; rewrite Hok in Hc; by eapply Hcheck].
  destruct (GetBlockSize instance_id c) as [ec bs]. destruct (decide (ec = EC_OK)) as [->|Hec];
    [|rewrite bool_decide_eq_true_2 in Hr by done; congruence]. rewrite Hok in Hr. injection Hr as <-.
  unfold GenKeyVector. rewrite length_gen_keys. destruct tokens as [|t ts]; cbn in Hc; rewrite Hok in Hc; [|by eapply Hcheck].
  apply Hcheck in Hc. rewrite Hc. cbn [length]. by rewrite Nat.Div0.div_0_l.
Qed.

(** What the state is after the filter. *)
Definition after_filter (instance_id : string) (s : MetaSearcher (PT := PT) (CT := CT)) (x : MetaIndexer PT CT) (dels : list CacheLocationDelRequest)
    (cleared : list (KeyType * MarkQueryResult)) (store : PolicyStore) c : Manager :=
  submit dels (clear_marks cleared (set_policies store (set_searcher instance_id (mkSearcher x (storage_usage_ s)) c))).

Lemma StartWriteCache_inv mv instance_id keys tokens groups timeout min_replica now p c s qk out c' :
  meta_searchers_ c !! instance_id = Some s -> request_keys hasher instance_id keys tokens c = (EC_OK, qk) ->
  start mv instance_id keys tokens groups timeout min_replica now p c = Some ((EC_OK, Some out), c') ->
  exists fo dels cleared store x locs ids c2 t e,
    (groups = [] \/ length groups = length qk) /\
    FilterWriteCache instance_id qk groups min_replica (exist_check instance_id c) (tiered_migration_enabled mv)
      (BatchGetTieredWriteTargets mv qk) (registry_manager_ c) (usage_of c) (policy_store_ c) (meta_indexer_ s) =
      ((EC_OK, fo), (dels, cleared), store, x) /\
    let c1 := after_filter instance_id s x dels cleared store c in
    let sid := GenerateRandomString dist 32 p in
    (match f_keys fo with
    | [] => c2 = c1 /\ locs = [] /\ ids = []
    | _ => add_new instance_id (f_keys fo) (f_groups fo) (f_targets fo) now (p + 32) (mkSearcher x (storage_usage_ s)) c1 =
             Some ((EC_OK, (locs, ids)), c2)
    end) /\
    out = mkStartInfo sid (f_mask fo) locs /\
    c' = publish e (set_sessions (manager_Put now sid (f_keys fo) ids t instance_id (write_location_manager_ c2)) c2).
Proof.
  intros Hs Hk Hrun. unfold StartWriteCache in Hrun. case_bool_decide as Hg; [simplify_eq|].
  pose proof (check_groups_length _ _ _ _ _ _ Hg Hk) as Hgl.
  unfold CheckInputAndGetMetaSearcher in Hrun. rewrite Hs in Hrun. destruct (_ && _); [done|]. rewrite Hk in Hrun.
  rewrite bool_decide_eq_false_2 in Hrun by naive_solver.
  destruct (FilterWriteCache _ _ _ _ _ _ _ _ _ _ _) as [[[[ec fo] [dels cleared]] store] x] eqn:Ef.
  fold (after_filter instance_id s x dels cleared store c) in Hrun. case_bool_decide as Hec; [by simplify_eq|]. subst ec.
  match type of Hrun with ((?r ≫= _) = _) => destruct r as [[[ec [locs ids]] c2]|] eqn:Ea; [|done] end.
  cbn [mbind option_bind] in Hrun. case_bool_decide as Hec; [by simplify_eq|]. subst ec. simplify_eq.
  exists fo, dels, cleared, store, x, locs, ids, c2. do 2 eexists. split; [done|]. split; [done|].
  cbv zeta. split_and!; [|done|reflexivity].
  destruct (f_keys fo); [by simplify_eq|exact Ea].
Qed.

(** The effect of a start that succeeds: the session, the new locations and
    the storages, with the answer of the filter. *)
Lemma StartWriteCache_spec mv instance_id keys tokens groups timeout min_replica now p c info s qk out c' :
  StorageLaws bk_Create (data_storage_manager_ (registry_manager_ c)) ->
  plain_names instance_id (location_spec_infos_ info) ->
  GetInstanceInfo instance_id (registry_manager_ c) = Some info ->
  meta_searchers_ c !! instance_id = Some s -> single_tier (backend_manager_ (meta_indexer_ s)) ->
  Forall (fun w => 0 <= w)%Z (default_storage_weights_ (policy_store_ c)) ->
  request_keys hasher instance_id keys tokens c = (EC_OK, qk) -> NoDup qk ->
  ids_reachable dist fuel qk (stored (meta_indexer_ s)) -> wf_sessions (sessions c) ->
  GenerateRandomString dist 32 p ∉ write_session_id <$> pending (sessions c) ->
  start mv instance_id keys tokens groups timeout min_replica now p c = Some ((EC_OK, Some out), c') ->
  exists fo dels cleared store x s' u ids,
    FilterWriteCache instance_id qk groups min_replica (exist_check instance_id c) (tiered_migration_enabled mv)
      (BatchGetTieredWriteTargets mv qk) (registry_manager_ c) (usage_of c) (policy_store_ c) (meta_indexer_ s) =
      ((EC_OK, fo), (dels, cleared), store, x) /\ (groups = [] \/ length groups = length qk) /\
    si_block_mask out = f_mask fo /\ policy_store_ c' = store /\ registry_manager_ c' = registry_manager_ c /\
    meta_searchers_ c' = <[instance_id := s']> (meta_searchers_ c) /\ single_tier (backend_manager_ (meta_indexer_ s')) /\
    let new_keys := unmasked (si_block_mask out) qk in
    wf_sessions (sessions c') /\ pending (sessions c') ≡ₚ u :: pending (sessions c) /\
    write_session_id u = si_write_session_id out /\ callback u = instance_id /\
    write_location_info u = WriteSession.mkInfo new_keys ids /\
    length (si_locations out) = length new_keys /\ length ids = length new_keys /\
    (forall i k, new_keys !! i = Some k -> exists loc lid, si_locations out !! i = Some (Some loc) /\ ids !! i = Some lid /\
       now_writing (stored (meta_indexer_ s)) (stored (meta_indexer_ s')) k lid loc) /\
    (forall k, k ∉ new_keys -> stored (meta_indexer_ s') !! k = stored (meta_indexer_ s) !! k) /\
    gained (data_storage_manager_ (registry_manager_ c)) (storages_ c) (named_uris (si_locations out)) (storages_ c').
Proof.
  intros Hlaws Hpl Hinfo Hs Hst Hw Hk Hnd Hids Hwf Hfresh Hrun.
  destruct (StartWriteCache_inv _ _ _ _ _ _ _ _ _ _ _ _ _ _ Hs Hk Hrun)
    as (fo & dels & cleared & store & x & locs & ids & c2 & t & e & Hgl & Hf & Hadd & -> & ->). cbv zeta in *.
  pose proof Hf as Hspec. apply FilterWriteCache_spec in Hspec
    as (policy & maps & targets & _ & Hread & _ & _ & _ & _ & Hfk & Hfg & _);
    [|by apply single_tier_coherent|done|destruct Hgl as [->|Hgl]; [simpl; lia|lia]].
  apply BatchGetLocation_read in Hread as (Hst1 & Hsx & _); [|done].
  set (c1 := after_filter instance_id s x dels cleared store c) in *.
  assert (Hnk : NoDup (f_keys fo)) by (rewrite Hfk; eapply sublist_NoDup; [exact Hnd|apply masked_sublist]).
  assert (Hsub : forall k, k ∈ f_keys fo -> k ∈ qk).
  { intros k Hin. rewrite Hfk in Hin. eapply sublist_elem_of; [apply masked_sublist|exact Hin]. }
  assert (Hc2 : exists s' w, c2 = set_searcher instance_id s' (set_storages w c1) /\
    single_tier (backend_manager_ (meta_indexer_ s')) /\ length locs = length (f_keys fo) /\ length ids = length (f_keys fo) /\
    gained (data_storage_manager_ (registry_manager_ c)) (storages_ c) (named_uris locs) w /\
    (forall i k, f_keys fo !! i = Some k -> exists loc lid, locs !! i = Some (Some loc) /\ ids !! i = Some lid /\
       now_writing (stored (meta_indexer_ s)) (stored (meta_indexer_ s')) k lid loc) /\
    (forall k, k ∉ f_keys fo -> stored (meta_indexer_ s') !! k = stored (meta_indexer_ s) !! k)).
  { destruct (f_keys fo) as [|k0 ks] eqn:Efk.
    - destruct Hadd as (-> & -> & ->). exists (mkSearcher x (storage_usage_ s)), (storages_ c). split_and!; try done.
      + unfold c1, after_filter, set_searcher, set_storages. simpl. by rewrite insert_insert_eq.
      + apply gained_nil.
      + intros k _. by rewrite <-Hsx.
    - rewrite <-Efk in *. apply (add_new_locations_ok _ _ _ _ _ _ _ _ info) in Hadd
        as (H1 & H2 & s' & w & -> & H3 & H4 & H5 & H6); [| | | | |done|done|].
      + exists s', w. simpl in *. rewrite Hsx in *. by split_and!.
      + exact Hlaws.
      + exact Hpl.
      + exact Hinfo.
      + rewrite Hfg, Hfk. destruct Hgl as [->|Hgl]; [left; done|right; by apply length_unmasked].
      + simpl. rewrite Hsx. intros q k Hin. by apply Hids, Hsub. }
  destruct Hc2 as (s' & w & -> & Hst' & Hl1 & Hl2 & Hgain & Hnew & Hold).
  set (sid := GenerateRandomString dist 32 p) in *.
  destruct (Put_wf (mkUnit (now + t * 1000 * 1000) sid instance_id (WriteSession.mkInfo (f_keys fo) ids)) (sessions c) Hwf Hfresh) as [Hwf' Hp].
  exists fo, dels, cleared, store, x, s', (placed (mkUnit (now + t * 1000 * 1000) sid instance_id (WriteSession.mkInfo (f_keys fo) ids)) (sessions c)), ids.
  simpl si_block_mask. rewrite <-Hfk.
  split_and!; try done. unfold c1, after_filter. simpl. by rewrite insert_insert_eq.
Qed.

(** C12: a write of distinct blocks that is started (on an instance whose
    metadata has a single tier, whose id and spec names hold no URI delimiter)
    answers with a session: it records exactly the blocks outside the returned
    mask, each with an id that was not in use; under that id the block now has
    the location the answer gives for it, in state writing, next to its old
    locations; no other block changes; and the URIs the storages made for the request are, one for one, those
    these locations name, with nothing handed to [Delete]. *)
Theorem StartWriteCache_opens mv instance_id keys tokens groups timeout min_replica now p c info s qk out c' :
  StorageLaws bk_Create (data_storage_manager_ (registry_manager_ c)) ->
  plain_names instance_id (location_spec_infos_ info) ->
  GetInstanceInfo instance_id (registry_manager_ c) = Some info ->
  meta_searchers_ c !! instance_id = Some s -> single_tier (backend_manager_ (meta_indexer_ s)) ->
  Forall (fun w => 0 <= w)%Z (default_storage_weights_ (policy_store_ c)) ->
  request_keys hasher instance_id keys tokens c = (EC_OK, qk) -> NoDup qk ->
  ids_reachable dist fuel qk (stored (meta_indexer_ s)) -> wf_sessions (sessions c) ->
  GenerateRandomString dist 32 p ∉ write_session_id <$> pending (sessions c) ->
  start mv instance_id keys tokens groups timeout min_replica now p c = Some ((EC_OK, Some out), c') ->
  exists s' u ids, meta_searchers_ c' = <[instance_id := s']> (meta_searchers_ c) /\
    let new_keys := unmasked (si_block_mask out) qk in
    wf_sessions (sessions c') /\ pending (sessions c') ≡ₚ u :: pending (sessions c) /\
    write_session_id u = si_write_session_id out /\ callback u = instance_id /\
    write_location_info u = WriteSession.mkInfo new_keys ids /\
    length (si_locations out) = length new_keys /\ length ids = length new_keys /\
    (forall i k, new_keys !! i = Some k -> exists loc lid, si_locations out !! i = Some (Some loc) /\ ids !! i = Some lid /\
       now_writing (stored (meta_indexer_ s)) (stored (meta_indexer_ s')) k lid loc) /\
    (forall k, k ∉ new_keys -> stored (meta_indexer_ s') !! k = stored (meta_indexer_ s) !! k) /\
    gained (data_storage_manager_ (registry_manager_ c)) (storages_ c) (named_uris (si_locations out)) (storages_ c').
Proof.
  intros Hlaws Hpl Hinfo Hs Hst Hw Hk Hnd Hids Hwf Hfresh Hrun.
  destruct (StartWriteCache_spec _ _ _ _ _ _ _ _ _ _ _ _ _ _ _ Hlaws Hpl Hinfo Hs Hst Hw Hk Hnd Hids Hwf Hfresh Hrun)
    as (_ & _ & _ & _ & _ & s' & u & ids & _ & _ & _ & _ & _ & Hs' & _ & Hrest). exists s', u, ids. by split.
Qed.

(** ** The second writer *)

(** Reads that do not fail. *)
Definition reliable_reads : Prop :=
  forall ks (b : PT) i k, ks !! i = Some k -> (be_GetLocations ks b).1.2 !! i = Some (default ∅ (be_view b !! k)).

Lemma BatchGetLocation_exact qk (x : MetaIndexer PT CT) maps x' :
  reliable_reads -> single_tier (backend_manager_ x) -> BatchGetLocation qk (BlockMaskOffset 0) x = (maps, x') ->
  forall i k, qk !! i = Some k -> maps !! i = Some (default ∅ (stored x !! k)).
Proof.
  intros Hrel Hs Hrun i k Hi. unfold BatchGetLocation in Hrun. rewrite query_keys_unmasked, unmasked_offset, drop_0 in Hrun.
  destruct qk as [|k0 ks]; [done|]. unfold GetLocations, BackendManager.GetLocations, tiered_read in Hrun.
  unfold single_tier in Hs. rewrite Hs in Hrun. specialize (Hrel _ (persistent_backend_ (backend_manager_ x)) i k Hi).
  destruct (be_GetLocations (k0 :: ks) _) as [[cs ms] b] eqn:E. simpl in Hrel.
  destruct (be_GetLocations_law _ _ _ _ _ E) as [_ Hrd]. destruct (Forall3i_length _ _ _ _ Hrd) as [H1 H2].
  rewrite !wrong_size_eq in Hrun by done. cbn [orb] in Hrun.
  destruct (ProcessErrorCodes _ _ _ _) as [n r]. by injection Hrun as <- _.
Qed.

(** A block with one counted location is not written again. *)
Lemma satisfied_iff weight check info min_replica i m :
  (min_replica <= 1)%Z ->
  block_satisfied weight check info [] min_replica i m "" = true <->
  exists kv, kv ∈ map_to_list m /\ written weight [] check kv = true.
Proof.
  intros Hm. unfold block_satisfied. rewrite bool_decide_eq_true_2 by done.
  assert (Hr : requestedSpecNames info [] i = None) by (unfold requestedSpecNames; by destruct info).
  rewrite Hr. cbn [default from_option]. rewrite Z.leb_le, Z.max_l by lia. unfold written_count.
  set (l := filter _ (map_to_list m)). split.
  - intros Hl. destruct l as [|kv l'] eqn:El; [simpl in Hl; lia|]. exists kv.
    assert (Hin : kv ∈ l) by (rewrite El; left). unfold l in Hin. by apply list_elem_of_filter in Hin as [? ?].
  - intros (kv & Hin & Hk). assert (Hl : kv ∈ l) by (unfold l; by apply list_elem_of_filter).
    destruct l; [by apply not_elem_of_nil in Hl|simpl; lia].
Qed.

(** All storages are available, so the static weights apply. *)
Definition all_available c : Prop :=
  length (GetAllStorageNames (data_storage_manager_ (registry_manager_ c))) <=
  length (GetAvailableStorages (data_storage_manager_ (registry_manager_ c))).

Lemma static_policy c instance_id store :
  all_available c ->
  genSelectLocationPolicy (storage_view (registry_manager_ c) instance_id) store = (Some StaticWeightSLPolicy, store).
Proof.
  intros Ha. unfold genSelectLocationPolicy, storage_view. simpl. rewrite length_fmap.
  by rewrite (proj2 (Nat.leb_le _ _) Ha).
Qed.

(** The filter of a request without spec groups and migration. *)
Lemma plain_filter c instance_id qk min_replica check marks indexers store (x : MetaIndexer PT CT) :
  all_available c -> reliable_reads -> single_tier (backend_manager_ x) ->
  Forall (fun w => 0 <= w)%Z (default_storage_weights_ store) -> (min_replica <= 1)%Z ->
  exists fo dels x', FilterWriteCache instance_id qk [] min_replica check false marks (registry_manager_ c) indexers store x =
      ((EC_OK, fo), (dels, []), store, x') /\
    single_tier (backend_manager_ x') /\ stored x' = stored x /\ f_keys fo = unmasked (f_mask fo) qk /\
    forall i k, qk !! i = Some k -> IsIndexInMaskRange (f_mask fo) i = true <->
      exists kv, kv ∈ map_to_list (default ∅ (stored x !! k)) /\
        written (GetWeight store StaticWeightSLPolicy) [] check kv = true.
Proof.
  intros Ha Hrel Hst Hw Hm.
  destruct (FilterWriteCache instance_id qk [] min_replica check false marks (registry_manager_ c) indexers store x)
    as [[[[ec fo] [dels cleared]] store'] x'] eqn:E.
  assert (Hec : ec = EC_OK /\ cleared = []).
  { unfold FilterWriteCache in E. destruct (BatchGetLocation qk _ x) as [maps x1]. rewrite static_policy in E by done.
    destruct (GetInstanceInfo instance_id (registry_manager_ c)); by simplify_eq. }
  destruct Hec as [-> ->]. pose proof E as Hspec. apply FilterWriteCache_spec in Hspec
    as (policy & maps & targets & Hp & Hread & Hlm & Hlt & Hspec); [|by apply single_tier_coherent|done|simpl; lia].
  rewrite static_policy in Hp by done. injection Hp as <- <-. destruct Hspec as (_ & Hin & Hfk & _ & _ & Htg & _).
  pose proof Hread as Hread'. apply BatchGetLocation_read in Hread' as (Hst' & Hsx & _); [|done].
  exists fo, dels, x'. split_and!; try done. intros i k Hi.
  pose proof (BatchGetLocation_exact qk x maps x' Hrel Hst Hread i k Hi) as Hmi.
  destruct (lookup_lt_is_Some_2 targets i) as [t Ht]; [apply lookup_lt_Some in Hi; lia|].
  rewrite (Hin i _ t Hmi Ht).
  assert (t = "") as ->; [|by apply satisfied_iff]. destruct (decide (t = "")) as [|Hne]; [done|].
  by destruct (Htg i t Ht Hne) as [? _].
Qed.

(** Counted locations stay counted while their data is there. *)
Lemma written_mono weight check check' kv :
  (forall l, data_missing check l = false -> data_missing check' l = false) ->
  written weight [] check kv = true -> written weight [] check' kv = true.
Proof.
  intros Hmono. unfold written, counts_for_write. destruct kv as [i [l|]]; simpl; [|done].
  case_bool_decide; [done|]. destruct (data_missing check l) eqn:E1, (data_missing check' l) eqn:E2;
    try (rewrite (Hmono l E1) in E2; done); destruct (bool_decide (status l = CLS_SERVING)); simpl; done.
Qed.

(** C2: while the data of the served locations stays, a second writer finds
    nothing to do: after a write of distinct blocks was started (by a request
    without spec groups that asks for at most one replica, on a single-tier
    instance without migration whose storages are all available, with positive
    weights, and whose metadata reads do not fail), any request for the same
    blocks succeeds with all of them in its mask and no location to write, and
    leaves the metadata as it is. *)
Theorem second_writer_writes_nothing mv mv' instance_id keys tokens timeout timeout' min_replica now now' p p' c info s qk out c' :
  StorageLaws bk_Create (data_storage_manager_ (registry_manager_ c)) ->
  plain_names instance_id (location_spec_infos_ info) ->
  GetInstanceInfo instance_id (registry_manager_ c) = Some info ->
  meta_searchers_ c !! instance_id = Some s -> single_tier (backend_manager_ (meta_indexer_ s)) ->
  all_available c -> reliable_reads -> (min_replica <= 1)%Z ->
  tiered_migration_enabled mv = false -> tiered_migration_enabled mv' = false ->
  length (default_storage_weights_ (policy_store_ c)) = storage_type_COUNT ->
  Forall (fun w => 0 < w)%Z (default_storage_weights_ (policy_store_ c)) ->
  request_keys hasher instance_id keys tokens c = (EC_OK, qk) -> NoDup qk ->
  ids_reachable dist fuel qk (stored (meta_indexer_ s)) -> wf_sessions (sessions c) ->
  GenerateRandomString dist 32 p ∉ write_session_id <$> pending (sessions c) ->
  start mv instance_id keys tokens [] timeout min_replica now p c = Some ((EC_OK, Some out), c') ->
  (forall l, data_missing (exist_check instance_id c) l = false -> data_missing (exist_check instance_id c') l = false) ->
  exists out' c'' s' s'', start mv' instance_id keys tokens [] timeout' min_replica now' p' c' = Some ((EC_OK, Some out'), c'') /\
    si_locations out' = [] /\ (forall i, i < length qk -> IsIndexInMaskRange (si_block_mask out') i = true) /\
    meta_searchers_ c' !! instance_id = Some s' /\ meta_searchers_ c'' !! instance_id = Some s'' /\
    stored (meta_indexer_ s'') = stored (meta_indexer_ s').
Proof.
  intros Hlaws Hpl Hinfo Hs Hst Ha Hrel Hm Ht Ht' Hwl Hwp Hk Hnd Hids Hwf Hfresh Hrun Hmono.
  assert (Hw : Forall (fun w => 0 <= w)%Z (default_storage_weights_ (policy_store_ c)))
    by (eapply Forall_impl; [exact Hwp|]; simpl; lia).
  destruct (StartWriteCache_spec _ _ _ _ _ _ _ _ _ _ _ _ _ _ _ Hlaws Hpl Hinfo Hs Hst Hw Hk Hnd Hids Hwf Hfresh Hrun)
    as (fo & dels & cleared & store & x & s' & u & ids & Hf & _ & Hmask & Hpol & Hreg & Hs' & Hst' & _ & _ & _ & _ & _ & _ & _ & Hnew & Hold & _).
  rewrite Ht in Hf. destruct (plain_filter c instance_id qk min_replica (exist_check instance_id c)
    (BatchGetTieredWriteTargets mv qk) (usage_of c) (policy_store_ c) (meta_indexer_ s) Ha Hrel Hst Hw Hm)
    as (fo1 & dels1 & x1 & Hf1 & _ & _ & _ & Hin1). rewrite Hf in Hf1. injection Hf1 as <- <- _ -> <-.
  assert (Hreg' : all_available c') by (unfold all_available; by rewrite Hreg).
  destruct (plain_filter c' instance_id qk min_replica (exist_check instance_id c')
    (BatchGetTieredWriteTargets mv' qk) (usage_of c') (policy_store_ c') (meta_indexer_ s') Hreg' Hrel Hst')
    as (fo2 & dels2 & x2 & Hf2 & _ & Hsx2 & Hfk2 & Hin2); [by rewrite Hpol|done|].
  rewrite Hmask in Hnew. rewrite Hmask in Hold. rewrite Hpol in Hf2, Hin2.
  assert (Hall : forall i, i < length qk -> IsIndexInMaskRange (f_mask fo2) i = true).
  { intros i Hi. destruct (lookup_lt_is_Some_2 qk i Hi) as [k Hki]. apply (Hin2 i k Hki).
    destruct (IsIndexInMaskRange (f_mask fo) i) eqn:Ei.
    - pose proof Ei as (kv & Hkv & Hwr)%(Hin1 i k Hki). exists kv. rewrite Hold; [by eauto using written_mono|].
      intros (j & Hj & Hjm)%(elem_of_masked false). pose proof (NoDup_lookup _ _ _ _ Hnd Hki Hj) as ->. congruence.
    - destruct (list_elem_of_lookup_1 (unmasked (f_mask fo) qk) k) as [j Hj]; [apply (elem_of_masked false); eauto|].
      destruct (Hnew j k Hj) as (loc & lid & _ & _ & _ & l & Hst2 & _ & Hsl & _). rewrite Hst2. simpl.
      exists (lid, Some l). split; [apply elem_of_map_to_list, lookup_insert_eq|].
      unfold written, counts_for_write. simpl. rewrite Hsl. simpl. rewrite andb_true_r. unfold StaticGetWeight. simpl.
      destruct (lookup_lt_is_Some_2 (default_storage_weights_ (policy_store_ c)) (ToIndex (type l))) as [w Hwt];
        [rewrite Hwl; apply ToIndex_lt|]. rewrite Hwt. simpl. apply Z.ltb_lt.
      rewrite Forall_forall in Hwp. apply Hwp. by eapply list_elem_of_lookup_2. }
  assert (Hnone : f_keys fo2 = []).
  { rewrite Hfk2. apply elem_of_nil_inv. intros k (i & Hi & Him)%(elem_of_masked false).
    rewrite Hall in Him; [done|by eapply lookup_lt_Some]. }
  unfold StartWriteCache. change (check_groups instance_id keys tokens [] c') with EC_OK.
  rewrite bool_decide_eq_false_2 by naive_solver.
  assert (Hin : CheckInputAndGetMetaSearcher instance_id keys tokens c' = (EC_OK, Some s')).
  { unfold StartWriteCache, CheckInputAndGetMetaSearcher in *. rewrite Hs in Hrun. rewrite Hs', lookup_insert_eq.
    change (check_groups instance_id keys tokens [] c) with EC_OK in Hrun.
    rewrite bool_decide_eq_false_2 in Hrun by naive_solver. by destruct (_ && _). }
  assert (Hk' : request_keys hasher instance_id keys tokens c' = (EC_OK, qk)).
  { rewrite <-Hk. unfold request_keys, GetBlockSize. by rewrite Hreg. }
  rewrite Hin, Hk', bool_decide_eq_false_2 by naive_solver. rewrite Ht', Hpol, Hf2, bool_decide_eq_false_2, Hnone by naive_solver.
  cbn [mbind option_bind]. rewrite bool_decide_eq_false_2 by naive_solver.
  eexists _, _, s', (mkSearcher x2 (storage_usage_ s')). split_and!; [reflexivity|done|exact Hall| | |exact Hsx2].
  - by rewrite Hs', lookup_insert_eq.
  - simpl. by rewrite lookup_insert_eq.
Qed.

End start.

(** ** Example *)

(** Two storages, all available; an instance without spec groups whose block 1
    is served; the storages of [WriteGen] with room for four pieces. *)
Definition session_reg : RegistryManager (T := unit) :=
  mkRegistry
    {[ "nfs_a" := mkBackend (mkStorageConfig DATA_STORAGE_TYPE_NFS "nfs_a" (Some (NfsStorageSpec "/" 1)) false true) true;
       "nfs_b" := mkBackend (mkStorageConfig DATA_STORAGE_TYPE_NFS "nfs_b" (Some (NfsStorageSpec "/" 1)) false true) true ]}
    (instance_group_configs_ example_reg) {[ "i" := Registry.mkInfo "" "g" "i" 2 [mkSpecInfo "kv" 8] no_deployment [] 0 ]} ∅ tt true.

Definition session_searcher : MetaSearcher (PT := MetaDummyBackend) (CT := MetaLocalBackend) :=
  mkSearcher served_indexer [0; 20; 0; 0; 70; 0; 0; 0; 0; 0]%Z.

Abbreviation DemoManager := (CacheManager (PT := MetaDummyBackend) (CT := MetaLocalBackend) (T := unit) (W := Pieces)).

Definition session_start : DemoManager :=
  mkCacheManager session_reg {[ "i" := session_searcher ]} init_manager initial_store no_pieces [] [] [].

Definition no_migration : MigrationView := mkMigrationView false CLEAR_ON_NEXT_WRITE_SUCCESS (fun _ => []).

(** A generator that gives a new letter every eight draws. *)
Definition letters (n : nat) : nat := (n / 8) mod 36.

Definition all_exist (b : DataStorageBackend) (us : list StandardUri) (w : Pieces) : list bool := replicate (length us) true.

Definition demo_start (c : DemoManager) p :=
  StartWriteCache log_Create log_Delete all_exist all_exist (fun z => z) letters 3 (fun _ _ => 0%Z) (fun _ => "") (fun _ => true)
    (fun _ _ => true) no_migration "i" [1; 4; 5]%Z [] [] 60 1 7 p c.

Definition demo_started : DemoManager := default session_start (snd <$> demo_start session_start 0).

Lemma session_names name b :
  data_storage_manager_ session_reg !! name = Some b -> name = "fs" \/ name = "nfs_a" \/ name = "nfs_b".
Proof.
  unfold session_reg, data_storage_manager_. intros Hb. apply lookup_insert_Some in Hb as [[<- _]|[_ Hb]]; [auto|].
  apply lookup_singleton_Some in Hb as [<- _]. auto.
Qed.

Lemma session_stored : stored served_indexer = {[ 1%Z := {[ "l1" := Some (served_on_a "l1") ]}; 2%Z := {[ "l2" := Some (served_on_a "l2") ]} ]}.
Proof. vm_compute. reflexivity. Qed.

Lemma session_ids : ids_reachable letters 3 [1; 4; 5]%Z (stored served_indexer).
Proof.
  intros p k _. exists 0. split; [lia|]. rewrite session_stored. intros ls Hk.
  apply lookup_insert_Some in Hk as [[_ <-]|[_ Hk]]; [|apply lookup_singleton_Some in Hk as [_ <-]]; by rewrite lookup_singleton_ne.
Qed.

Lemma dummy_reliable : reliable_reads (PT := MetaDummyBackend).
Proof.
  intros ks b. change (forall i k, ks !! i = Some k -> (DummyBackend.GetLocations ks b).1.2 !! i = Some (default ∅ (DummyBackend.view b !! k))).
  unfold DummyBackend.GetLocations. destruct (map_st DummyBackend.get_locations_one ks b) as [rs b'] eqn:E.
  apply (map_st_read DummyBackend.get_locations_one DummyBackend.view (fun m k r => r.2 = default ∅ (m !! k))) in E as [_ Hall].
  - intros i k Hi. simpl. destruct (Forall2_lookup_l _ _ _ _ _ Hall Hi) as (r & Hr & Heq). by rewrite list_lookup_fmap, Hr, <-Heq.
  - clear. intros k s r s1 Hg. apply DummyBackend.get_locations_one_spec in Hg as Hg'. split; [apply Hg'|].
    unfold DummyBackend.get_locations_one in Hg. rewrite DummyBackend.view_lookup. destruct (DummyBackend.table_ s !! k); by injection Hg as <- _.
Qed.

(** What was answered: mask, and the specs of the locations. *)
Definition answered (r : option ((ErrorCode * option StartWriteCacheInfo) * DemoManager)) : option (BlockMask * list (list LocationSpec)) :=
  '((_, out), _) ← r; out ← out; Some (si_block_mask out, snd ∘ shown <$> si_locations out).

Lemma StartWriteCache_opens_witness :
  answered (demo_start session_start 0) =
    Some (BlockMaskOffset 1, [[mkLocationSpec "kv" "nfs://nfs_b/a"]; [mkLocationSpec "kv" "nfs://nfs_b/aa"]]) /\
  exists u, u ∈ pending (sessions demo_started) /\ wi_keys (write_location_info u) = [4; 5]%Z.
Proof.
  split; [vm_compute; reflexivity|]. unfold demo_started.
  destruct (demo_start session_start 0) as [[[ec [out|]] c']|] eqn:E; [|vm_compute in E; discriminate..].
  assert (Hec : ec = EC_OK) by (assert (Hd : (fst ∘ fst) <$> demo_start session_start 0 = Some EC_OK)
    by (vm_compute; reflexivity); rewrite E in Hd; simpl in Hd; congruence).
  assert (Hm : si_block_mask out = BlockMaskOffset 1) by (assert (Hd : fst <$> answered (demo_start session_start 0) = Some (BlockMaskOffset 1))
    by (vm_compute; reflexivity); rewrite E in Hd; simpl in Hd; congruence).
  subst ec. unfold demo_start in E.
  destruct (StartWriteCache_opens pieces_Create pieces_Delete all_exist all_exist (fun z => z) letters 3 (fun _ _ => 0%Z) (fun _ => "")
    (fun _ => true) (fun _ _ => true) no_migration "i" [1; 4; 5]%Z [] [] 60 1 7 0 session_start
    (Registry.mkInfo "" "g" "i" 2 [mkSpecInfo "kv" 8] no_deployment [] 0) session_searcher [1; 4; 5]%Z out c')
    as (s' & u & ids & _ & _ & Hp & _ & _ & Hu & _).
  - apply pieces_laws, session_names.
  - apply (bool_decide_unpack _); vm_compute; exact I.
  - reflexivity.
  - reflexivity.
  - reflexivity.
  - by apply (bool_decide_unpack _); vm_compute.
  - reflexivity.
  - by apply (bool_decide_unpack _); vm_compute.
  - apply session_ids.
  - apply wf_empty_sessions.
  - apply not_elem_of_nil.
  - exact E.
  - exists u. simpl. split; [rewrite Hp; left|]. rewrite Hu, Hm. vm_compute. reflexivity.
Defined.

(** With [all_exist] what is missing depends on the registry only. *)
Lemma all_exist_same (c c' : DemoManager) l :
  registry_manager_ c' = registry_manager_ c ->
  data_missing (GetCheckLocDataExistFunc all_exist all_exist (fun _ _ => true) "i" c') l =
  data_missing (GetCheckLocDataExistFunc all_exist all_exist (fun _ _ => true) "i" c) l.
Proof. intros Hr. unfold GetCheckLocDataExistFunc, data_missing. by rewrite Hr. Qed.

Lemma second_writer_writes_nothing_witness :
  exists out' c'', demo_start demo_started 8 = Some ((EC_OK, Some out'), c'') /\ si_locations out' = [].
Proof.
  unfold demo_started.
  destruct (demo_start session_start 0) as [[[ec [out|]] c']|] eqn:E; [|vm_compute in E; discriminate..].
  assert (Hec : ec = EC_OK) by (assert (Hd : (fst ∘ fst) <$> demo_start session_start 0 = Some EC_OK)
    by (vm_compute; reflexivity); rewrite E in Hd; simpl in Hd; congruence).
  subst ec. unfold demo_start in E.
  destruct (second_writer_writes_nothing pieces_Create pieces_Delete all_exist all_exist (fun z => z) letters 3 (fun _ _ => 0%Z) (fun _ => "")
    (fun _ => true) (fun _ _ => true) no_migration no_migration "i" [1; 4; 5]%Z [] 60 60 1 7 7 0 8 session_start
    (Registry.mkInfo "" "g" "i" 2 [mkSpecInfo "kv" 8] no_deployment [] 0) session_searcher [1; 4; 5]%Z out c')
    as (out' & c'' & s' & s'' & Hrun & Hl & _).
  - apply pieces_laws, session_names.
  - apply (bool_decide_unpack _); vm_compute; exact I.
  - reflexivity.
  - reflexivity.
  - reflexivity.
  - unfold all_available. apply Nat.leb_le. vm_compute. reflexivity.
  - apply dummy_reliable.
  - lia.
  - reflexivity.
  - reflexivity.
  - reflexivity.
  - by apply (bool_decide_unpack _); vm_compute.
  - reflexivity.
  - by apply (bool_decide_unpack _); vm_compute.
  - apply session_ids.
  - apply wf_empty_sessions.
  - apply not_elem_of_nil.
  - exact E.
  - intros l. rewrite (all_exist_same session_start c'); [done|].
    assert (Hd : registry_manager_ ∘ snd <$> demo_start session_start 0 = Some session_reg) by (vm_compute; reflexivity).
    unfold demo_start in Hd. rewrite E in Hd. simpl in Hd. by injection Hd.
  - exists out', c''. split; [exact Hrun|exact Hl].
Defined.

(** The session of [demo_started]: blocks 4 and 5. *)
Definition demo_sid : string := "aaaaaaaabbbbbbbbccccccccdddddddd".
Definition demo_unit : ExpireUnit string :=
  mkUnit 60000007 demo_sid "i" (WriteSession.mkInfo [4; 5]%Z ["eeeeeeee"; "ffffffff"]).

Lemma demo_sessions : sessions demo_started = Put demo_unit empty_sessions.
Proof. vm_compute. reflexivity. Qed.

Lemma demo_sessions_wf : wf_sessions (sessions demo_started) /\ demo_unit ∈ pending (sessions demo_started).
Proof.
  rewrite demo_sessions. split; [|vm_compute; left].
  apply Put_wf; [apply wf_empty_sessions|apply not_elem_of_nil].
Qed.

Lemma well_keyed_alt V : map_Forall (fun _ ls => map_Forall (fun i p => id <$> p = Some i) ls) V -> well_keyed V.
Proof.
  intros Hall k ls i p Hk Hi. specialize (Hall k ls Hk i p Hi). simpl in Hall.
  destruct p as [l|]; [|done]. exists l. split; [done|]. by injection Hall.
Qed.

Definition demo_searcher : MetaSearcher (PT := MetaDummyBackend) (CT := MetaLocalBackend) :=
  default session_searcher (meta_searchers_ demo_started !! "i").
Definition demo_finish (mask : BlockMask) := FinishWriteCache no_migration "i" demo_sid mask demo_started.
(** Status of a location after a request. *)
Definition status_in (c : DemoManager) (k : KeyType) (lid : LocationId) : option CacheLocationStatus :=
  s ← meta_searchers_ c !! "i"; p ← location_at (stored (meta_indexer_ s)) k lid; status <$> p.

Lemma FinishWriteCache_exact_witness :
  exists c' dels, demo_finish (BlockMaskOffset 1) = Some (EC_OK, c') /\
    del_requests_ c' = dels /\ requested_deletes dels = [(5%Z, "ffffffff")] /\
    status_in c' 4 "eeeeeeee" = Some CLS_SERVING /\ status_in c' 5 "ffffffff" = Some CLS_WRITING.
Proof.
  destruct (FinishWriteCache_exact no_migration "i" demo_sid (BlockMaskOffset 1) demo_started demo_searcher demo_unit)
    as (ec & c' & s' & dels & Hrun & _ & _ & Hs & _ & _ & Hd & Hf & Hok & Hoth).
  - vm_compute. reflexivity.
  - vm_compute. reflexivity.
  - apply well_keyed_alt, (bool_decide_unpack _). vm_compute. exact I.
  - apply demo_sessions_wf.
  - apply demo_sessions_wf.
  - reflexivity.
  - apply (bool_decide_unpack _). vm_compute. exact I.
  - reflexivity.
  - exists c', dels. assert (Hec : fst <$> demo_finish (BlockMaskOffset 1) = Some EC_OK) by (vm_compute; reflexivity).
    unfold demo_finish in *. rewrite Hrun in Hec |- *. simpl in Hec. injection Hec as ->.
    assert (Hdd : del_requests_ demo_started = []) by (vm_compute; reflexivity). rewrite Hdd in Hd.
    split_and!; [done|done|exact Hf| |]; unfold status_in; rewrite Hs, lookup_insert_eq; cbn [mbind option_bind].
    + destruct (Hok 4%Z "eeeeeeee") as [->|[[] _]]; [vm_compute; left|vm_compute; reflexivity|done].
    + rewrite Hoth; [vm_compute; reflexivity|]. apply (bool_decide_unpack _). vm_compute. exact I.
Defined.

Lemma refused_finish_loses_session_witness :
  exists c', demo_finish (BlockMaskOffset 9) = Some (EC_BADARGS, c') /\
    FinishWriteCache no_migration "i" demo_sid (BlockMaskOffset 2) c' = Some (EC_ERROR, c').
Proof.
  destruct (refused_finish_loses_session no_migration "i" demo_sid (BlockMaskOffset 9) demo_started demo_unit)
    as (c' & Hrun & _ & _ & _ & _ & Hlost).
  - apply demo_sessions_wf.
  - apply demo_sessions_wf.
  - reflexivity.
  - reflexivity.
  - exists c'. split; [exact Hrun|apply Hlost].
Defined.
