(* ===== verification/DeletePlan.v ===== *)
(** * DeletePlan: how locations and their data are deleted

    The deletion requests of [manager/schedule_plan_executor.cc]. A deletion
    has two phases. The admission reads the blocks, marks the targeted
    locations [CLS_DELETING] by compare-and-swap and waits until that is
    durable; the physical phase, run later by a worker, reads the blocks
    again, deletes the data of the locations that are still marked, and
    removes those locations. Copy requests are here too. Messages of results
    are left out, and so is the deletion of reported metadata. *)

From stdpp Require Import base gmap sets list strings.
From Stdlib Require Import ZArith Lia.
From S2P Require Import Prelude StandardUri MetaTypes StorageUsage MetaBackend DummyBackend LocalBackend BackendManager BackendReads MetaIndexer IndexerRmw RmwLocation MetaMutate RmwDelete MetaAdd WriteSession LocationPolicy MetaMatch StorageManager Registry StorageSelect WriteFilter WriteAlloc WriteGen CacheWrite CacheSession.

(** A request to delete locations with its options; no expected values means
    that the values are not compared. *)
Record LocationDelTask := mkDelTask {
  task_request : CacheLocationDelRequest;
  expected_location_values : list (list string);
  metadata_only : bool;
  authoritative_read : bool;
}.

Record LocationDelAdmissionResult := mkAdmission {
  adm_result : ErrorCode;
  actual_task : LocationDelTask;
  needs_physical_delete : bool;
}.

Definition empty_task (instance_id : string) (meta_only : bool) : LocationDelTask :=
  mkDelTask (mkDelRequest instance_id [] []) [] meta_only false.

(** An admission that ends without a physical phase. *)
Definition admission_ends (ec : ErrorCode) (instance_id : string) : LocationDelAdmissionResult :=
  mkAdmission ec (empty_task instance_id false) false.

(** [FillActualTask]: the keys and ids whose mark was set; [None] when the
    sizes do not match. *)
Definition FillActualTask (keys : list KeyType) (tasks : list (list LocationCASTask))
    (results : list (list ErrorCode)) : option (list (KeyType * list LocationId)) :=
  if negb (length results =? length keys)%nat || negb (length results =? length tasks)%nat then None
  else if existsb (fun tr => negb (length tr.2 =? length tr.1)%nat) (zip tasks results) then None
  else Some (filter (fun ki => ki.2 <> [])
               (zip_with (fun k tr => (k, alive_ids (cas_location_id <$> tr.1) tr.2)) keys (zip tasks results))).

(** The marked locations of one block among those of a task. *)
Definition marked_locations (m : CacheLocationMap) (ids : list LocationId) : list (LocationId * CacheLocation) :=
  omap (fun lid => match m !! lid with
                   | Some (Some l) => if bool_decide (status l = CLS_DELETING) then Some (lid, l) else None
                   | _ => None
                   end) ids.

(** The specs of the locations to delete. *)
Definition marked_specs (rows : list (KeyType * list (LocationId * CacheLocation))) : list LocationSpec :=
  specs_of (Some ∘ snd <$> (rows ≫= snd)).

Definition row_tasks (r : KeyType * list (LocationId * CacheLocation)) : list LocationCADTask :=
  (fun il => mkCADTask il.1 CLS_DELETING) <$> r.2.

Definition delete_tasks (rows : list (KeyType * list (LocationId * CacheLocation))) : list (list LocationCADTask) :=
  row_tasks <$> rows.

Section plan.
Context {PT CT W : Type} `{PB : !MetaStorageBackend PT} `{CB : !MetaCacheBaseBackend CT}.
Local Abbreviation Indexer := (MetaIndexer PT CT).
Local Abbreviation Searcher := (MetaSearcher (PT := PT) (CT := CT)).

Variable bk_Delete : DataStorageBackend -> list StandardUri -> W -> list ErrorCode * W.
Variable bk_Copy : DataStorageBackend -> list StandardUri -> list StandardUri -> W -> list ErrorCode * W.
(** [ToJsonString] of a location; [Sync] of the indexer. *)
Variables (ToJsonString : CacheLocation -> string) (sync : list KeyType -> bool).

(** The indexers by instance ([meta_manager_]). *)
Abbreviation Indexers := (gmap string Searcher).

Definition GetLocationsFromPersistent (keys : list KeyType) (x : Indexer)
    : list ErrorCode * list CacheLocationMap * Indexer :=
  match keys with
  | [] => ([], [], x)
  | _ =>
      let m := backend_manager_ x in
      let '((results, maps), p) := be_GetLocations keys (persistent_backend_ m) in
      let x := with_manager (set_persistent p m) x in
      if wrong_size results keys || wrong_size maps keys
      then (all_codes keys EC_ERROR, resize (length keys) ∅ maps, x) else (results, maps, x)
  end.

(** ** Admission *)

(** [expected_values_by_location]: the first value given for a location. *)
Definition expected_value (ids : list LocationId) (values : list string) (lid : LocationId) : option string :=
  snd <$> (snd <$> list_find (fun iv => iv.1 = lid) (zip ids values)).

(** The mark of one location of a block, if the request targets it. *)
Definition mark_task (target : option (list LocationId)) (expected : option (list string))
    (p : CacheLocationConstPtr) : option LocationCASTask :=
  match p with
  | None => None
  | Some l =>
      if bool_decide (status l = CLS_DELETING) then None
      else if match target with Some ids => negb (bool_decide (id l ∈ ids)) | None => false end then None
      else match expected with
           | None => Some (mkCASTask (id l) (status l) CLS_DELETING "")
           | Some values =>
               match expected_value (default [] target) values (id l) with
               | Some v => if bool_decide (ToJsonString l = v)
                           then Some (mkCASTask (id l) (status l) CLS_DELETING v) else None
               | None => None
               end
           end
  end.

Definition mark_tasks (targets : option (list (list LocationId))) (expected : option (list (list string)))
    (keys : list KeyType) (maps : list CacheLocationMap) : list (KeyType * list LocationCASTask) :=
  filter (fun kt => kt.2 <> [])
    (imap (fun i (km : KeyType * CacheLocationMap) =>
       (km.1, omap (mark_task (ids ← targets; ids !! i) (vs ← expected; vs !! i)) (map_to_list km.2).*2))
       (zip keys maps)).

(** Setting the marks and making them durable. *)
Definition set_marks (instance_id : string) (rows : list (KeyType * list LocationCASTask)) (refresh : bool)
    (s : Searcher) : LocationDelAdmissionResult * Searcher :=
  match rows with
  | [] => (admission_ends EC_OK instance_id, s)
  | _ =>
      let '(_, results, x) := BatchCASLocationStatus ToJsonString rows.*1 rows.*2 refresh (meta_indexer_ s) in
      let s := mkSearcher x (storage_usage_ s) in
      match FillActualTask rows.*1 rows.*2 results with
      | None => (admission_ends EC_ERROR instance_id, s)
      | Some [] => (admission_ends EC_OK instance_id, s)
      | Some marked =>
          let task := mkDelTask (mkDelRequest instance_id marked.*1 marked.*2) [] false false in
          if sync marked.*1 then (mkAdmission EC_OK task true, s) else (mkAdmission EC_ERROR task false, s)
      end
  end.

(** The blocks an admission looks at. *)
Definition read_blocks (keys : list KeyType) (authoritative : bool) (x : Indexer)
    : ErrorCode * list CacheLocationMap * Indexer :=
  if authoritative
  then
    let '(codes, maps, x) := GetLocationsFromPersistent keys x in
    (if negb (length codes =? length keys)%nat
        || existsb (fun e => negb (bool_decide (e = EC_OK)) && negb (bool_decide (e = EC_NOENT))) codes
     then EC_ERROR else EC_OK, maps, x)
  else let '(maps, x) := BatchGetLocation keys (BlockMaskVector []) x in (EC_OK, maps, x).

Definition PrepareDeleteTaskImpl (stop : bool) (instance_id : string) (keys : list KeyType)
    (targets : option (list (list LocationId))) (expected : option (list (list string))) (authoritative : bool)
    (g : Indexers) : LocationDelAdmissionResult * Indexers :=
  if stop then (admission_ends EC_ERROR instance_id, g)
  else match g !! instance_id with
  | None => (admission_ends EC_NOENT instance_id, g)
  | Some s =>
      let '(ec, maps, x) := read_blocks keys authoritative (meta_indexer_ s) in
      let s := mkSearcher x (storage_usage_ s) in
      if bool_decide (ec <> EC_OK) then (admission_ends EC_ERROR instance_id, <[instance_id := s]> g)
      else if negb (length maps =? length keys)%nat then (admission_ends EC_ERROR instance_id, <[instance_id := s]> g)
      else
        let '(r, s) := set_marks instance_id (mark_tasks targets expected keys maps) authoritative s in
        (r, <[instance_id := s]> g)
  end.

(** [PrepareDeleteTask] of the locations of a request. *)
Definition PrepareDeleteTask (stop : bool) (t : LocationDelTask) (g : Indexers)
    : LocationDelAdmissionResult * Indexers :=
  let req := task_request t in
  let expected := expected_location_values t in
  if negb (length (del_block_keys req) =? length (del_location_ids req))%nat
     || (negb (bool_decide (expected = [])) && negb (length (del_block_keys req) =? length expected)%nat)
     || existsb (fun ie => negb (length ie.1 =? length ie.2)%nat) (zip (del_location_ids req) expected)
  then (admission_ends EC_BADARGS "", g)
  else
    let '(r, g) :=
      PrepareDeleteTaskImpl stop (del_instance_id req) (del_block_keys req) (Some (del_location_ids req))
        (if bool_decide (expected = []) then None else Some expected) (authoritative_read t) g in
    (mkAdmission (adm_result r)
       (mkDelTask (task_request (actual_task r)) [] (metadata_only t) false) (needs_physical_delete r), g).

(** [PrepareDeleteTask] of whole blocks. *)
Definition PrepareMetaDeleteTask (stop : bool) (instance_id : string) (keys : list KeyType) (g : Indexers) :=
  PrepareDeleteTaskImpl stop instance_id keys None None false g.

(** The admission of [SubmitMetaDelete]: every location of the blocks, also
    those that are marked already. *)
Definition meta_tasks (keys : list KeyType) (maps : list CacheLocationMap) : list (KeyType * list LocationCASTask) :=
  filter (fun kt => kt.2 <> [])
    (zip_with (fun k (m : CacheLocationMap) =>
       (k, omap (fun kv : LocationId * CacheLocationConstPtr =>
              (fun l => mkCASTask kv.1 (status l) CLS_DELETING "") <$> kv.2) (map_to_list m))) keys maps).

Definition SubmitMetaDelete (stop : bool) (instance_id : string) (keys : list KeyType) (g : Indexers)
    : LocationDelAdmissionResult * Indexers :=
  if stop then (admission_ends EC_ERROR instance_id, g)
  else match g !! instance_id with
  | None => (admission_ends EC_NOENT instance_id, g)
  | Some s =>
      let '(maps, x) := BatchGetLocation keys (BlockMaskVector []) (meta_indexer_ s) in
      let '(r, s) := set_marks instance_id (meta_tasks keys maps) false (mkSearcher x (storage_usage_ s)) in
      (r, <[instance_id := s]> g)
  end.

(** What [RunDeleteAdmission] does with an admission: a result for the
    waiting caller, or a task for the worker pool. *)
Definition RunDeleteAdmission (r : LocationDelAdmissionResult) : ErrorCode + LocationDelTask :=
  if bool_decide (adm_result r <> EC_OK) || negb (needs_physical_delete r) then inl (adm_result r)
  else inr (actual_task r).

(** ** The physical phase *)

(** Deleting URIs storage by storage; is every answer complete and [EC_OK]? *)
Definition delete_storages (dsm : DataStorageManager) (by_storage : gmap string (list StandardUri)) (w : W) : bool * W :=
  foldl (fun (bw : bool * W) (nu : string * list StandardUri) =>
    let '(codes, w) := StorageManager.Delete bk_Delete dsm nu.1 nu.2 bw.2 in
    (bw.1 && (length codes =? length nu.2)%nat && forallb (fun e => bool_decide (e = EC_OK)) codes, w))
    (true, w) (sorted_entries by_storage).

(** The answer of the compare-and-delete covers every task with [EC_OK]. *)
Definition all_deleted {A} (ec : ErrorCode) (tasks : list (list A)) (results : list (list ErrorCode)) : bool :=
  bool_decide (ec = EC_OK) && (length results =? length tasks)%nat &&
  forallb (fun tr => (length tr.2 =? length tr.1)%nat && forallb (fun e => bool_decide (e = EC_OK)) tr.2)
    (zip tasks results).

Definition DoLocationDelTask (dsm : DataStorageManager) (t : LocationDelTask) (g : Indexers) (w : W)
    : ErrorCode * Indexers * W :=
  let req := task_request t in
  let instance_id := del_instance_id req in
  let keys := del_block_keys req in
  if negb (length keys =? length (del_location_ids req))%nat then (EC_BADARGS, g, w)
  else match g !! instance_id with
  | None => (EC_NOENT, g, w)
  | Some s =>
      let '(maps, x) := BatchGetLocation keys (BlockMaskVector []) (meta_indexer_ s) in
      if negb (length maps =? length keys)%nat
      then (EC_ERROR, <[instance_id := mkSearcher x (storage_usage_ s)]> g, w)
      else
        let rows := zip_with (fun k mi => (k, marked_locations mi.1 mi.2)) keys (zip maps (del_location_ids req)) in
        let uris := if metadata_only t then ∅
                    else uris_by_storage (fun u => negb (Valid u))
                           (marked_specs rows) in
        let '(data_ok, w) := delete_storages dsm uris w in
        let cad := filter (fun r : KeyType * list (LocationId * CacheLocation) => r.2 <> []) rows in
        let tasks := delete_tasks cad in
        let '(meta_ok, usage, x) :=
          match cad with
          | [] => (true, storage_usage_ s, x)
          | _ =>
              let '(ec, results, usage, x) := BatchCADLocationStatus cad.*1 tasks (storage_usage_ s) x in
              (all_deleted ec tasks results, usage, x)
          end in
        (if data_ok && meta_ok then EC_OK else EC_PARTIAL_OK, <[instance_id := mkSearcher x usage]> g, w)
  end.

(** ** Copies *)

(** [DoCopyTask] on the storage that executes the copy. *)
Definition DoCopyTask (dsm : DataStorageManager) (exec_storage_name : string) (src_uris dst_uris : list StandardUri)
    (w : W) : ErrorCode * W :=
  if negb (length src_uris =? length dst_uris)%nat then (EC_BADARGS, w)
  else match src_uris with
  | [] => (EC_OK, w)
  | _ =>
      let '(copy_results, w) := StorageManager.Copy bk_Copy dsm exec_storage_name src_uris dst_uris w in
      (if negb (length copy_results =? length src_uris)%nat then EC_ERROR
       else if forallb (fun e => bool_decide (e = EC_OK)) copy_results then EC_OK else EC_PARTIAL_OK, w)
  end.

End plan.
