(* ===== verification/DeleteSafe.v ===== *)
(** * DeleteSafe: deletion removes what it should and nothing else

    Guarantees of the deletion pipeline of [DeletePlan] for an instance whose
    metadata has a single tier: the admission marks exactly the targeted
    locations it reports; the physical phase asks the storages to delete the
    data of marked locations only, and removes them; together they reclaim a
    request; and what happens when the marks cannot be made durable. *)

From stdpp Require Import base gmap sets list strings.
From Stdlib Require Import ZArith Lia.
From S2P Require Import Prelude StandardUri MetaTypes StorageUsage MetaBackend DummyBackend LocalBackend BackendManager BackendReads MetaIndexer IndexerRmw RmwLocation MetaMutate RmwDelete MetaAdd WriteSession LocationPolicy MetaMatch StorageManager Registry StorageSelect WriteFilter WriteAlloc WriteGen CacheWrite CacheSession DeletePlan.

(** The pairs of block and location a request names. *)
Definition names (r : CacheLocationDelRequest) (k : KeyType) (lid : LocationId) : Prop :=
  exists i ids, del_block_keys r !! i = Some k /\ del_location_ids r !! i = Some ids /\ lid ∈ ids.

(** Requests that name no block and no location of a block twice. *)
Definition proper_request (r : CacheLocationDelRequest) : Prop :=
  distinct_request (del_block_keys r) (del_location_ids r).

Section reads.
Context {PT CT : Type} `{PB : !MetaStorageBackend PT} `{PL : !LawfulBackend PT}
  `{CB : !MetaCacheBaseBackend CT} `{CL : !LawfulCache CT}.
Implicit Types x : MetaIndexer PT CT.

Lemma query_keys_empty_mask keys : query_keys keys (BlockMaskVector []) = query_keys keys (BlockMaskOffset 0).
Proof. unfold query_keys. by f_equal. Qed.

(** A read of all blocks gives their entries. *)
Lemma read_entries keys x maps x' :
  reliable_reads (PT := PT) -> single_tier (backend_manager_ x) ->
  BatchGetLocation keys (BlockMaskVector []) x = (maps, x') ->
  single_tier (backend_manager_ x') /\ stored x' = stored x /\ maps = entry (stored x) <$> keys.
Proof.
  intros Hrel Hst Hrun. assert (Hrun' : BatchGetLocation keys (BlockMaskOffset 0) x = (maps, x'))
    by (rewrite <-Hrun; unfold BatchGetLocation; by rewrite query_keys_empty_mask).
  pose proof (BatchGetLocation_exact _ _ _ _ Hrel Hst Hrun') as Hex.
  apply BatchGetLocation_read in Hrun' as (Hst' & Hs & Hl & _); [|done]. split_and!; [done|done|].
  apply list_eq. intros i. rewrite list_lookup_fmap. destruct (keys !! i) as [k|] eqn:Ek; simpl.
  - by apply Hex.
  - apply lookup_ge_None. apply lookup_ge_None in Ek. lia.
Qed.
End reads.

(** ** Marking *)

Section marks.
Variable ToJsonString : CacheLocation -> string.

(** Location [l] of a block is wanted: the request targets it, it is not
    marked yet, and it still has the expected value. *)
Definition wanted (target : option (list LocationId)) (expected : option (list string)) (l : CacheLocation) : Prop :=
  is_Some (mark_task ToJsonString target expected (Some l)).

Lemma mark_task_spec target expected p t :
  mark_task ToJsonString target expected p = Some t ->
  exists l, p = Some l /\ wanted target expected l /\ cas_location_id t = id l /\ cas_old_status t = status l /\
    cas_new_status t = CLS_DELETING.
Proof.
  destruct p as [l|]; [|done]. intros Ht. exists l. split; [done|]. split; [by eexists|].
  unfold mark_task in Ht. case_bool_decide; [done|]. destruct (match target with Some _ => _ | None => _ end); [done|].
  destruct expected as [vs|]; [|by simplify_eq].
  destruct (expected_value _ _ _); [|done]. case_bool_decide; by simplify_eq.
Qed.

Lemma wanted_not_deleting target expected l : wanted target expected l -> status l <> CLS_DELETING.
Proof. intros [t Ht] Hd. unfold mark_task in Ht. by rewrite bool_decide_eq_true_2 in Ht. Qed.

Lemma wanted_target ids expected l : wanted (Some ids) expected l -> id l ∈ ids.
Proof.
  intros [t Ht]. unfold mark_task in Ht. case_bool_decide; [done|].
  destruct (negb (bool_decide (id l ∈ ids))) eqn:E; [done|]. by apply negb_false_iff, bool_decide_eq_true in E.
Qed.

(** The tasks of one block: one per wanted location, with distinct ids. *)
Lemma block_tasks V k target expected :
  well_keyed V ->
  let ts := omap (mark_task ToJsonString target expected) (map_to_list (entry V k)).*2 in
  NoDup (cas_location_id <$> ts) /\
  (forall t, t ∈ ts -> exists l, location_at V k (cas_location_id t) = Some (Some l) /\ wanted target expected l /\
     cas_old_status t = status l /\ cas_new_status t = CLS_DELETING).
Proof.
  intros Hwk ts.
  assert (Hin : forall t, t ∈ ts -> exists l, location_at V k (cas_location_id t) = Some (Some l) /\ wanted target expected l /\
     cas_old_status t = status l /\ cas_new_status t = CLS_DELETING).
  { intros t (p & (kv & -> & Hkv)%list_elem_of_fmap & Ht)%list_elem_of_omap. destruct kv as [lid p]. simpl in Ht.
    apply mark_task_spec in Ht as (l & -> & Hw & Hid & Hs & Hn). apply elem_of_map_to_list in Hkv.
    assert (Hl : location_at V k lid = Some (Some l)) by (by rewrite location_at_entry).
    assert (id l = lid) as <-.
    { unfold location_at in Hl. destruct (V !! k) as [ls|] eqn:E; [|done]. by destruct (Hwk _ _ _ _ E Hl) as (? & [= <-] & ?). }
    exists l. by rewrite Hid. }
  split; [|exact Hin].
  assert (Hsub : sublist (cas_location_id <$> ts) (map_to_list (entry V k)).*1); [|pose proof (NoDup_fst_map_to_list (entry V k)); by eapply sublist_NoDup].
  assert (Hok : Forall (fun kv : LocationId * CacheLocationConstPtr => forall l, kv.2 = Some l -> id l = kv.1) (map_to_list (entry V k))).
  { apply Forall_forall. intros [lid p] Hkv%elem_of_map_to_list l Hl. simpl in *. subst p. unfold entry in Hkv.
    destruct (V !! k) as [ls|] eqn:E; simpl in Hkv; [|done]. by destruct (Hwk _ _ _ _ E Hkv) as (? & [= <-] & ?). }
  unfold ts. clear Hin ts. induction Hok as [|[lid p] kvs Hp _ IH]; [constructor|]. csimpl. simpl in Hp.
  destruct (mark_task ToJsonString target expected p) as [t|] eqn:Et; csimpl; [|by constructor].
  apply mark_task_spec in Et as (l & -> & _ & -> & _). rewrite (Hp l eq_refl). by constructor.
Qed.

End marks.

(** ** Admission *)

Section admission.
Context {PT CT : Type} `{PB : !MetaStorageBackend PT} `{PL : !LawfulBackend PT}
  `{CB : !MetaCacheBaseBackend CT} `{CL : !LawfulCache CT}.
Variables (ToJsonString : CacheLocation -> string) (sync : list KeyType -> bool).
Local Abbreviation Searcher := (MetaSearcher (PT := PT) (CT := CT)).
Implicit Types s : Searcher.

(** Rows that mark locations of [V] with property [P], each once. *)
Record good_rows (V : StoreView) (P : KeyType -> CacheLocation -> Prop) (rows : list (KeyType * list LocationCASTask))
    : Prop := {
  rows_keys : NoDup rows.*1;
  rows_filled : forall k ts, (k, ts) ∈ rows -> ts <> [];
  rows_ids : forall k ts, (k, ts) ∈ rows -> NoDup (cas_location_id <$> ts);
  rows_wanted : forall k ts t, (k, ts) ∈ rows -> t ∈ ts -> exists l,
    location_at V k (cas_location_id t) = Some (Some l) /\ P k l /\ cas_new_status t = CLS_DELETING;
}.

Lemma good_rows_distinct V P rows : good_rows V P rows -> distinct_request rows.*1 (task_ids cas_location_id rows.*2).
Proof.
  intros [Hk _ Hi _]. split_and!; [done|unfold task_ids; by rewrite !length_fmap|].
  apply Forall_forall. intros ids (ts & -> & ([k ts'] & -> & Hin)%list_elem_of_fmap)%list_elem_of_fmap. by eapply Hi.
Qed.

Lemma alive_ids_sublist ids codes : sublist (alive_ids ids codes) ids.
Proof.
  unfold alive_ids. revert codes. induction ids as [|a l IH]; intros [|c cs]; csimpl; [constructor|constructor|apply sublist_nil_l|].
  case_bool_decide; constructor; apply IH.
Qed.

(** The pairs [FillActualTask] keeps. *)
Lemma FillActualTask_spec (rows : list (KeyType * list LocationCASTask)) results :
  length results = length rows ->
  (forall i r cs, rows !! i = Some r -> results !! i = Some cs -> length cs = length r.2) ->
  NoDup rows.*1 -> (forall k ts, (k, ts) ∈ rows -> NoDup (cas_location_id <$> ts)) ->
  exists marked, FillActualTask rows.*1 rows.*2 results = Some marked /\
    NoDup marked.*1 /\ Forall NoDup marked.*2 /\
    (forall k ids, (k, ids) ∈ marked <-> ids <> [] /\ exists i ts cs, rows !! i = Some (k, ts) /\ results !! i = Some cs /\
       ids = alive_ids (cas_location_id <$> ts) cs).
Proof.
  intros Hl Hc Hnd Hni. unfold FillActualTask. rewrite !length_fmap, Hl, Nat.eqb_refl. cbn [negb orb].
  destruct (existsb _ _) eqn:Ex.
  { exfalso. apply existsb_exists in Ex as ([ts cs] & Hin%list_elem_of_In & Hb). apply list_elem_of_lookup in Hin as (i & Hi).
    apply lookup_zip_with_Some in Hi as (? & ? & [= <- <-] & Ht & Hcs). rewrite list_lookup_fmap in Ht.
    destruct (rows !! i) as [r|] eqn:Er; [|done]. simpl in Ht. injection Ht as <-. simpl in Hb.
    rewrite (Hc i r cs Er Hcs), Nat.eqb_refl in Hb. done. }
  set (all := zip_with _ _ _).
  assert (Hall : forall i, all !! i = (r ← rows !! i; cs ← results !! i; Some (r.1, alive_ids (cas_location_id <$> r.2) cs))).
  { intros i. unfold all. rewrite lookup_zip_with, list_lookup_fmap, lookup_zip_with, list_lookup_fmap.
    destruct (rows !! i) as [r|]; [|done]. simpl. by destruct (results !! i). }
  assert (Hfst : all.*1 = rows.*1).
  { apply list_eq. intros i. rewrite !list_lookup_fmap, Hall. destruct (rows !! i) as [r|] eqn:Er; [|done]. simpl.
    destruct (lookup_lt_is_Some_2 results i) as [cs ->]; [apply lookup_lt_Some in Er; lia|done]. }
  exists (filter (fun ki => ki.2 <> []) all). split_and!; [done| | |].
  - eapply (sublist_NoDup _ all.*1); [by rewrite Hfst|]. apply fmap_sublist, sublist_filter.
  - apply Forall_forall. intros ids ([k ids'] & -> & [_ Hin]%list_elem_of_filter)%list_elem_of_fmap.
    apply list_elem_of_lookup in Hin as (i & Hi). rewrite Hall in Hi. destruct (rows !! i) as [[k' ts]|] eqn:Er; [|done].
    simpl in Hi. destruct (results !! i) as [cs|]; simplify_eq/=. specialize (Hni k ts ltac:(by eapply list_elem_of_lookup_2)).
    eapply sublist_NoDup; [exact Hni|apply alive_ids_sublist].
  - intros k ids. rewrite list_elem_of_filter. simpl. split.
    + intros [Hne (i & Hi)%list_elem_of_lookup]. split; [done|]. rewrite Hall in Hi.
      destruct (rows !! i) as [[k' ts]|] eqn:Er; [|done]. simpl in Hi. destruct (results !! i) as [cs|] eqn:Ec; simplify_eq/=. eauto 6.
    + intros [Hne (i & ts & cs & Hr & Hcs & ->)]. split; [done|]. apply list_elem_of_lookup. exists i.
      by rewrite Hall, Hr, Hcs.
Qed.

(** The request for the marked locations. *)
Lemma FillActualTask_names instance_id (rows : list (KeyType * list LocationCASTask)) results :
  length results = length rows ->
  (forall i r cs, rows !! i = Some r -> results !! i = Some cs -> length cs = length r.2) ->
  NoDup rows.*1 -> (forall k ts, (k, ts) ∈ rows -> NoDup (cas_location_id <$> ts)) ->
  exists marked, FillActualTask rows.*1 rows.*2 results = Some marked /\
    proper_request (mkDelRequest instance_id marked.*1 marked.*2) /\
    (forall k lid, names (mkDelRequest instance_id marked.*1 marked.*2) k lid <->
       exists i j ts t cs, rows !! i = Some (k, ts) /\ ts !! j = Some t /\ cas_location_id t = lid /\
         results !! i = Some cs /\ cs !! j = Some EC_OK).
Proof.
  intros Hl Hc Hnd Hni. destruct (FillActualTask_spec rows results Hl Hc Hnd Hni) as (marked & Hfill & Hndm & Hndi & Hin).
  exists marked. split; [done|]. split; [split_and!; [done|simpl; by rewrite !length_fmap|done]|].
  intros k lid. unfold names. simpl. split.
  - intros (q & ids & Hk & Hids & Hlid). rewrite list_lookup_fmap in Hk. rewrite list_lookup_fmap in Hids.
    destruct (marked !! q) as [[k' ids']|] eqn:Eq; [|done]. simplify_eq/=.
    destruct (proj1 (Hin k ids) ltac:(by eapply list_elem_of_lookup_2)) as (_ & i & ts & cs & Hr & Hcs & ->).
    apply elem_of_alive in Hlid as (j & Hj & Hcj). rewrite list_lookup_fmap in Hj.
    destruct (ts !! j) as [t|] eqn:Et; simplify_eq/=. exists i, j, ts, t, cs. by split_and!.
  - intros (i & j & ts & t & cs & Hr & Ht & <- & Hcs & Hcj).
    assert (Hal : cas_location_id t ∈ alive_ids (cas_location_id <$> ts) cs)
      by (apply elem_of_alive; exists j; by rewrite list_lookup_fmap, Ht).
    assert (Hm : (k, alive_ids (cas_location_id <$> ts) cs) ∈ marked).
    { apply Hin. split; [intros He; rewrite He in Hal; by apply not_elem_of_nil in Hal|eauto 6]. }
    apply list_elem_of_lookup in Hm as (q & Hq). exists q. eexists. split_and!; [by rewrite list_lookup_fmap, Hq..|done].
Qed.

Lemma BatchCASLocationStatus_length keys tasks refresh (x : MetaIndexer PT CT) r codes x' :
  length tasks = length keys -> BatchCASLocationStatus ToJsonString keys tasks refresh x = (r, codes, x') ->
  length codes = length keys.
Proof.
  intros Hl. unfold BatchCASLocationStatus. rewrite wrong_size_eq by done.
  destruct (ReadModifyWriteLocation _ _ _ _ _ _ _) as [[lr x1] w1] eqn:E. intros [= _ <- _].
  eapply ReadModifyWriteLocation_length; [|exact E]. unfold task_ids. by rewrite length_fmap.
Qed.

(** What a phase of marking did: [r] reports exactly the marked locations. *)
Record marked_exactly (V V' : StoreView) (P : KeyType -> CacheLocation -> Prop) (instance_id : string)
    (r : LocationDelAdmissionResult) : Prop := {
  marked_proper : proper_request (task_request (actual_task r));
  marked_instance : needs_physical_delete r = true -> del_instance_id (task_request (actual_task r)) = instance_id;
  marked_result : needs_physical_delete r = true -> adm_result r = EC_OK;
  marked_done : adm_result r = EC_OK -> needs_physical_delete r = false ->
    forall k lid, ~ names (task_request (actual_task r)) k lid;
  marked_unsynced : adm_result r <> EC_OK -> (exists k lid, names (task_request (actual_task r)) k lid) ->
    sync (del_block_keys (task_request (actual_task r))) = false;
  marked_named k lid : names (task_request (actual_task r)) k lid -> exists l,
    location_at V k lid = Some (Some l) /\ P k l /\ location_at V' k lid = Some (Some (set_status CLS_DELETING l));
  marked_frame k lid : ~ names (task_request (actual_task r)) k lid -> location_at V' k lid = location_at V k lid;
}.

Lemma proper_nil instance_id : proper_request (mkDelRequest instance_id [] []).
Proof. split_and!; [constructor|done|constructor]. Qed.

Lemma names_nil instance_id k lid : ~ names (mkDelRequest instance_id [] []) k lid.
Proof. intros (i & ids & Hi & _). done. Qed.

(** An admission that marks nothing. *)
Lemma marked_nothing V P instance_id ec : marked_exactly V V P instance_id (admission_ends ec instance_id).
Proof.
  split; simpl; try done; try (intros k lid Hn; by apply names_nil in Hn).
  - apply proper_nil.
  - intros _ _ k lid. apply names_nil.
  - intros _ (k & lid & Hn). by apply names_nil in Hn.
Qed.

Lemma set_marks_spec instance_id rows s r s' P :
  single_tier (backend_manager_ (meta_indexer_ s)) -> well_keyed (stored (meta_indexer_ s)) ->
  good_rows (stored (meta_indexer_ s)) P rows ->
  set_marks ToJsonString sync instance_id rows false s = (r, s') ->
  single_tier (backend_manager_ (meta_indexer_ s')) /\ well_keyed (stored (meta_indexer_ s')) /\
  storage_usage_ s' = storage_usage_ s /\
  marked_exactly (stored (meta_indexer_ s)) (stored (meta_indexer_ s')) P instance_id r.
Proof.
  intros Hst Hwk Hrows. unfold set_marks. destruct rows as [|r0 rs];
    [intros [= <- <-]; split_and!; [done|done|done|apply marked_nothing]|].
  set (rows := r0 :: rs) in *. set (V := stored (meta_indexer_ s)) in *.
  destruct (BatchCASLocationStatus _ _ _ _ _) as [[ec results] x] eqn:Ec.
  assert (Hlr : length results = length rows).
  { apply BatchCASLocationStatus_length in Ec; by rewrite !length_fmap in *. }
  apply BatchCASLocationStatus_spec in Ec as (Hst' & Hwk' & Hpos & Hoth); [|done|by eapply good_rows_distinct|done].
  destruct Hrows as [Hrk Hrf Hri Hrw].
  assert (Hslot : forall i j k ts t, rows !! i = Some (k, ts) -> ts !! j = Some t -> exists cs c, results !! i = Some cs /\
    length cs = length ts /\ cs !! j = Some c /\
    ((c = EC_OK /\ exists l, location_at V k (cas_location_id t) = Some (Some l) /\
        location_at (stored x) k (cas_location_id t) = Some (Some (set_status CLS_DELETING l))) \/
     (c <> EC_OK /\ location_at (stored x) k (cas_location_id t) = location_at V k (cas_location_id t)))).
  { intros i j k ts t Hr Ht. destruct (Hpos i j k ts t) as (cs & c & Hcs & Hl & Hc & Hor); [by rewrite list_lookup_fmap, Hr..|done|].
    exists cs, c. split_and!; try done. destruct (Hrw k ts t) as (_ & _ & _ & Hnew); [by eapply list_elem_of_lookup_2..|].
    rewrite Hnew in Hor. destruct Hor as [(-> & l & ? & _ & _ & ?)|?]; [left|by right]. eauto. }
  destruct (FillActualTask_names instance_id rows results Hlr) as (marked & Hfill & Hproper & Hnames); [|done|done|].
  { intros i [k [|t ts]] cs Hr Hcs; simpl.
    - exfalso. apply (Hrf k []); [by eapply list_elem_of_lookup_2|done].
    - destruct (Hslot i 0 k (t :: ts) t Hr eq_refl) as (cs' & c & Hcs' & Hl & _). by simplify_eq. }
  assert (Hnamed : forall k lid, names (mkDelRequest instance_id marked.*1 marked.*2) k lid -> exists l,
    location_at V k lid = Some (Some l) /\ P k l /\ location_at (stored x) k lid = Some (Some (set_status CLS_DELETING l))).
  { intros k lid (i & j & ts & t & cs & Hr & Ht & <- & Hcs & Hc)%Hnames.
    destruct (Hslot i j k ts t Hr Ht) as (cs' & c & Hcs' & _ & Hc' & Hor). simplify_eq.
    destruct Hor as [(_ & l & Hl & Hl')|[? _]]; [|done]. exists l. split_and!; [done| |done].
    destruct (Hrw k ts t) as (l2 & Hl2 & HP & _); [by eapply list_elem_of_lookup_2..|]. by simplify_eq. }
  assert (Hframe : forall k lid, ~ names (mkDelRequest instance_id marked.*1 marked.*2) k lid ->
    location_at (stored x) k lid = location_at V k lid).
  { intros k lid Hno. destruct (decide (List.Exists (fun r : KeyType * list LocationCASTask => r.1 = k /\ lid ∈ cas_location_id <$> r.2) rows)) as [Hex|Hnex].
    - apply Exists_exists in Hex as ([k' ts] & Hr & Hk' & (t & -> & Ht)%list_elem_of_fmap). simpl in Hk', Ht. subst k'.
      apply list_elem_of_lookup in Hr as (i & Hi), Ht as (j & Hj).
      destruct (Hslot i j k ts t Hi Hj) as (cs & c & Hcs & _ & Hc & [[-> _]|[_ ?]]); [|done].
      exfalso. apply Hno, Hnames. exists i, j, ts, t, cs. by split_and!.
    - apply Hoth. intros i ts t Hk Hts Ht Heq. apply Hnex, Exists_exists. exists (k, ts).
      rewrite list_lookup_fmap in Hk. rewrite list_lookup_fmap in Hts. destruct (rows !! i) as [[k' ts']|] eqn:Er; [|done].
      simplify_eq/=. split; [by eapply list_elem_of_lookup_2|]. split; [done|]. simpl. by apply list_elem_of_fmap_2. }
  rewrite Hfill. destruct marked as [|m0 ms] eqn:Em.
  { intros [= <- <-]. simpl. split_and!; try done.
    assert (HV : forall k lid, location_at (stored x) k lid = location_at V k lid) by (intros; apply Hframe, names_nil).
    destruct (marked_nothing V P instance_id EC_OK). by split; try done; intros k lid Hn; apply names_nil in Hn. }
  rewrite <-Em in *. intros Hrun.
  assert (Hr : exists b ec, r = mkAdmission ec (mkDelTask (mkDelRequest instance_id marked.*1 marked.*2) [] false false) b /\
    s' = mkSearcher x (storage_usage_ s) /\ (b = true -> ec = EC_OK) /\ (ec = EC_OK -> b = true) /\ (ec <> EC_OK -> sync marked.*1 = false)).
  { destruct (sync marked.*1); injection Hrun as <- <-; eexists _, _; by split_and!. }
  destruct Hr as (b & ec' & -> & -> & H1 & H2 & H3). simpl. split_and!; try done.
  split; simpl; auto. intros Hok Hb. rewrite H2 in Hb by done. done.
Qed.

Lemma mark_tasks_good V targets expected keys :
  well_keyed V -> NoDup keys ->
  good_rows V (fun k l => exists i, keys !! i = Some k /\
      wanted ToJsonString (ids ← targets; ids !! i) (vs ← expected; vs !! i) l)
    (mark_tasks ToJsonString targets expected keys (entry V <$> keys)).
Proof.
  intros Hwk Hnd. set (ts_of := fun i k => omap (mark_task ToJsonString (ids ← targets; ids !! i) (vs ← expected; vs !! i))
    (map_to_list (entry V k)).*2).
  assert (Hrow : forall k ts, (k, ts) ∈ mark_tasks ToJsonString targets expected keys (entry V <$> keys) ->
    ts <> [] /\ exists i, keys !! i = Some k /\ ts = ts_of i k).
  { intros k ts [Hne (i & Hi)%list_elem_of_lookup]%list_elem_of_filter. split; [exact Hne|]. exists i.
    rewrite list_lookup_imap, lookup_zip_with, list_lookup_fmap in Hi. destruct (keys !! i); simplify_eq/=. done. }
  split.
  - eapply sublist_NoDup; [exact Hnd|]. unfold mark_tasks.
    set (all := imap _ _). assert (Hfst : all.*1 = keys).
    { apply list_eq. intros i. unfold all. rewrite list_lookup_fmap, list_lookup_imap, lookup_zip_with, list_lookup_fmap.
      by destruct (keys !! i). }
    rewrite <-Hfst. apply fmap_sublist, sublist_filter.
  - intros k ts Hin. by destruct (Hrow k ts Hin).
  - intros k ts Hin. destruct (Hrow k ts Hin) as (_ & i & _ & ->). by apply block_tasks.
  - intros k ts t Hin Ht. destruct (Hrow k ts Hin) as (_ & i & Hi & ->).
    destruct (proj2 (block_tasks ToJsonString V k _ _ Hwk) t Ht) as (l & Hl & Hw & _ & Hn). exists l. eauto.
Qed.

(** The location [l] of block [k] is one of those a task is to delete. *)
Definition to_delete (t : LocationDelTask) (k : KeyType) (l : CacheLocation) : Prop :=
  exists i, del_block_keys (task_request t) !! i = Some k /\
    wanted ToJsonString (del_location_ids (task_request t) !! i)
      (if bool_decide (expected_location_values t = []) then None else expected_location_values t !! i) l.

Lemma to_delete_names t k l :
  proper_request (task_request t) -> to_delete t k l -> names (task_request t) k (id l) /\ status l <> CLS_DELETING.
Proof.
  intros (_ & Hl & _) (i & Hi & Hw). pose proof (wanted_not_deleting _ _ _ _ Hw) as Hs.
  destruct (lookup_lt_is_Some_2 (del_location_ids (task_request t)) i) as [ids Hids]; [apply lookup_lt_Some in Hi; lia|].
  rewrite Hids in Hw. split; [|done]. exists i, ids. split_and!; [done|done|]. by eapply wanted_target.
Qed.

(** The admission of a deletion marks exactly the locations it reports. *)
Lemma PrepareDeleteTask_spec t g s r g' :
  let instance_id := del_instance_id (task_request t) in
  reliable_reads (PT := PT) -> g !! instance_id = Some s -> single_tier (backend_manager_ (meta_indexer_ s)) ->
  well_keyed (stored (meta_indexer_ s)) -> proper_request (task_request t) -> authoritative_read t = false ->
  PrepareDeleteTask ToJsonString sync false t g = (r, g') ->
  exists s', g' = <[instance_id := s']> g /\ single_tier (backend_manager_ (meta_indexer_ s')) /\
    well_keyed (stored (meta_indexer_ s')) /\
    marked_exactly (stored (meta_indexer_ s)) (stored (meta_indexer_ s')) (to_delete t) instance_id r /\
    (needs_physical_delete r = true -> metadata_only (actual_task r) = metadata_only t).
Proof.
  intros instance_id Hrel Hs Hst Hwk Hp Ha. unfold PrepareDeleteTask.
  destruct (_ || existsb _ _).
  { intros [= <- <-]. exists s. rewrite insert_id by done. split_and!; try done.
    destruct (marked_nothing (stored (meta_indexer_ s)) (to_delete t) "" EC_BADARGS). by split. }
  unfold PrepareDeleteTaskImpl. fold instance_id. rewrite Hs, Ha. cbn [read_blocks].
  destruct (BatchGetLocation _ _ _) as [maps x] eqn:Er. apply read_entries in Er as (Hst1 & Hsx & ->); [|done|done].
  rewrite (bool_decide_eq_false_2 (EC_OK <> EC_OK)) by naive_solver. rewrite length_fmap, Nat.eqb_refl. cbn [negb].
  destruct (set_marks _ _ _ _ _ _) as [r1 s1] eqn:Em. intros [= <- <-]. exists s1.
  apply (set_marks_spec _ _ _ _ _ (to_delete t)) in Em as (Hst' & Hwk' & _ & Hm); [|done|simpl; by rewrite Hsx|].
  - simpl in Hm. rewrite Hsx in Hm. split_and!; try done. destruct Hm. by split.
  - simpl. rewrite Hsx. destruct (mark_tasks_good (stored (meta_indexer_ s)) (Some (del_location_ids (task_request t)))
      (if bool_decide (expected_location_values t = []) then None else Some (expected_location_values t))
      (del_block_keys (task_request t)) Hwk) as [H1 H2 H3 H4]; [apply Hp|]. split; [exact H1|exact H2|exact H3|].
    intros k ts tk Hin Ht. destruct (H4 k ts tk Hin Ht) as (l & Hl & (i & Hi & Hw) & Hn). exists l. split_and!; try done.
    exists i. split; [done|]. simpl in Hw. by case_bool_decide.
Qed.

End admission.

(** ** The physical phase *)

Lemma elem_of_marked_locations m ids lid l :
  (lid, l) ∈ marked_locations m ids <-> lid ∈ ids /\ m !! lid = Some (Some l) /\ status l = CLS_DELETING.
Proof.
  unfold marked_locations. rewrite list_elem_of_omap. split.
  - intros (i & Hi & Hd). destruct (m !! i) as [[l'|]|] eqn:Em; [|done..]. case_bool_decide; [|done]. simplify_eq. done.
  - intros (Hi & Hm & Hd). exists lid. split; [done|]. by rewrite Hm, bool_decide_eq_true_2.
Qed.

Lemma marked_locations_sublist m ids : sublist (marked_locations m ids).*1 ids.
Proof.
  unfold marked_locations. induction ids as [|i ids IH]; csimpl; [constructor|].
  destruct (m !! i) as [[l|]|]; [case_bool_decide|..]; csimpl; by constructor.
Qed.

(** The specs of the locations a request names. *)
Definition request_specs (V : StoreView) (r : CacheLocationDelRequest) : list LocationSpec :=
  zip (del_block_keys r) (del_location_ids r) ≫= (fun ki : KeyType * list LocationId =>
    ki.2 ≫= (fun lid => match location_at V ki.1 lid with Some (Some l) => location_specs l | _ => [] end)).

(** Their data: the URIs that are valid, as their backends know them. *)
Definition request_data (dsm : DataStorageManager) (V : StoreView) (r : CacheLocationDelRequest)
    : list (DataStorageBackend * StandardUri) :=
  data_of dsm (filter (fun nu => Valid nu.2 = true) (uris_of (request_specs V r))).

Section physical.
Context {PT CT W : Type} `{PB : !MetaStorageBackend PT} `{PL : !LawfulBackend PT}
  `{CB : !MetaCacheBaseBackend CT} `{CL : !LawfulCache CT}.
Local Abbreviation Searcher := (MetaSearcher (PT := PT) (CT := CT)).
Implicit Types (s : Searcher) (x : MetaIndexer PT CT).

Variable bk_Delete : DataStorageBackend -> list StandardUri -> W -> list ErrorCode * W.
Local Abbreviation run_Delete := (logged_Delete bk_Delete).

Lemma cad_slot_ok tasks i j lid g v : cad_slot tasks i j lid g v = EC_OK -> g = EC_OK.
Proof. unfold cad_slot. by case_bool_decide. Qed.

Lemma BatchCADLocationStatus_spec keys tasks usage x r codes usage' x' :
  single_tier (backend_manager_ x) -> distinct_request keys (task_ids cad_location_id tasks) -> well_keyed (stored x) ->
  BatchCADLocationStatus keys tasks usage x = (r, codes, usage', x') ->
  single_tier (backend_manager_ x') /\ well_keyed (stored x') /\
  (forall i j k ts t, keys !! i = Some k -> tasks !! i = Some ts -> ts !! j = Some t ->
     exists cs c, codes !! i = Some cs /\ cs !! j = Some c /\
     ((c = EC_OK /\ location_at (stored x') k (cad_location_id t) = None) \/
      (c <> EC_OK /\ location_at (stored x') k (cad_location_id t) = location_at (stored x) k (cad_location_id t)))) /\
  (forall k lid, (forall i ts t, keys !! i = Some k -> tasks !! i = Some ts -> t ∈ ts -> cad_location_id t <> lid) ->
     location_at (stored x') k lid = location_at (stored x) k lid).
Proof.
  intros Hst Hd Hwk. unfold BatchCADLocationStatus. pose proof Hd as (_ & Hll & _).
  unfold task_ids in Hll. rewrite length_fmap in Hll. rewrite wrong_size_eq by done.
  destruct (ReadModifyWriteLocation _ _ _ _ _ _ _) as [[lr x1] w1] eqn:Er. intros [= <- <- _ <-].
  apply delete_request_spec in Er as (Hst' & Hwk' & Hpos & Hoth); [|apply cad_slot_ok|done|done|done].
  assert (Hids : forall i ts, tasks !! i = Some ts -> task_ids cad_location_id tasks !! i = Some (cad_location_id <$> ts))
    by (intros i ts Hi; unfold task_ids; by rewrite list_lookup_fmap, Hi).
  split_and!; [done|done| |].
  - intros i j k ts t Hk Hts Ht. destruct (Hpos i k _ Hk (Hids i ts Hts)) as (cs & Hcs & Hlc & Hj).
    rewrite length_fmap in Hlc. destruct (lookup_lt_is_Some_2 cs j) as [c Hc]; [apply lookup_lt_Some in Ht; lia|].
    exists cs, c. split_and!; [done|done|].
    destruct (Hj j (cad_location_id t) c) as [(-> & l & _ & _ & ?)|?]; [by rewrite list_lookup_fmap, Ht|done|by left|by right].
  - intros k lid Hno. apply Hoth. intros i lids Hk Hi Hin. unfold task_ids in Hi. rewrite list_lookup_fmap in Hi.
    destruct (tasks !! i) as [ts|] eqn:Ets; simplify_eq/=. apply list_elem_of_fmap in Hin as (t & -> & Ht). by apply (Hno i ts t).
Qed.

Lemma delete_storages_all dsm m w : (delete_storages run_Delete dsm m w).2 = delete_all run_Delete dsm m w.
Proof.
  unfold delete_storages, delete_all. generalize true. generalize (sorted_entries m). intros l. revert w.
  induction l as [|nu l IH]; intros w b; [done|]. cbn [foldl snd]. destruct (StorageManager.Delete _ _ _ _ _) as [cs w1].
  apply IH.
Qed.

(** The rows of the physical phase. *)
Definition physical_rows (V : StoreView) (r : CacheLocationDelRequest) : list (KeyType * list (LocationId * CacheLocation)) :=
  zip_with (fun k mi => (k, marked_locations mi.1 mi.2)) (del_block_keys r)
    (zip (entry V <$> del_block_keys r) (del_location_ids r)).

(** A location the physical phase deletes. *)
Definition doomed (V : StoreView) (r : CacheLocationDelRequest) (k : KeyType) (lid : LocationId) (l : CacheLocation) : Prop :=
  names r k lid /\ location_at V k lid = Some (Some l) /\ status l = CLS_DELETING.

Lemma physical_row_at V r i : 
  physical_rows V r !! i = (k ← del_block_keys r !! i; ids ← del_location_ids r !! i; Some (k, marked_locations (entry V k) ids)).
Proof.
  unfold physical_rows. rewrite !lookup_zip_with, list_lookup_fmap. destruct (del_block_keys r !! i); [|done]. simpl.
  by destruct (del_location_ids r !! i).
Qed.

Lemma physical_rows_doomed V r k lid l :
  (exists row, (k, row) ∈ physical_rows V r /\ (lid, l) ∈ row) <-> doomed V r k lid l.
Proof.
  unfold doomed, names. rewrite location_at_entry. split.
  - intros (row & (i & Hi)%list_elem_of_lookup & Hin). rewrite physical_row_at in Hi.
    destruct (del_block_keys r !! i) as [k'|] eqn:Ek; [|done]. simpl in Hi.
    destruct (del_location_ids r !! i) as [ids|] eqn:Ei; [|done]. simplify_eq/=.
    apply elem_of_marked_locations in Hin as (? & ? & ?). eauto 8.
  - intros ((i & ids & Hk & Hids & Hlid) & Hl & Hd). exists (marked_locations (entry V k) ids). split.
    + apply list_elem_of_lookup. exists i. by rewrite physical_row_at, Hk, Hids.
    + by apply elem_of_marked_locations.
Qed.

Lemma physical_rows_distinct V r :
  proper_request r -> let cad := filter (fun row : KeyType * list (LocationId * CacheLocation) => row.2 <> []) (physical_rows V r) in
  distinct_request cad.*1 (task_ids cad_location_id (delete_tasks cad)).
Proof.
  intros (Hnd & Hl & Hni) cad. rewrite Forall_forall in Hni.
  assert (Hsub : sublist cad (physical_rows V r)) by apply sublist_filter. split_and!.
  - eapply sublist_NoDup; [|apply fmap_sublist; exact Hsub].
    assert (Hk : (physical_rows V r).*1 = del_block_keys r); [|by rewrite Hk].
    apply list_eq. intros i. rewrite list_lookup_fmap, physical_row_at. destruct (del_block_keys r !! i) as [k|] eqn:Ek; [|done].
    simpl. destruct (lookup_lt_is_Some_2 (del_location_ids r) i) as [ids ->]; [apply lookup_lt_Some in Ek; lia|done].
  - unfold task_ids, delete_tasks. by rewrite !length_fmap.
  - apply Forall_forall. intros ids (ts & -> & (row & -> & Hrow)%list_elem_of_fmap)%list_elem_of_fmap.
    apply (sublist_elem_of _ _ _ Hsub) in Hrow as (i & Hi)%list_elem_of_lookup. rewrite physical_row_at in Hi.
    destruct (del_block_keys r !! i) as [k'|]; [|done]. simpl in Hi.
    destruct (del_location_ids r !! i) as [ids|] eqn:Ei; [|done]. simplify_eq/=. unfold row_tasks. simpl.
    rewrite <-list_fmap_compose. eapply sublist_NoDup; [apply Hni; by eapply list_elem_of_lookup_2|]. apply marked_locations_sublist.
Qed.

(** When every location a request names is marked, the rows of the physical
    phase have the specs the locations had before. *)
Lemma marked_specs_request V V' r :
  (forall k lid, names r k lid -> exists l, location_at V k lid = Some (Some l) /\
     location_at V' k lid = Some (Some (set_status CLS_DELETING l))) ->
  marked_specs (physical_rows V' r) = request_specs V r.
Proof.
  intros Hn. unfold marked_specs, request_specs, physical_rows.
  assert (Hn' : Forall (fun ki : KeyType * list LocationId => Forall (fun lid => exists l, location_at V ki.1 lid = Some (Some l) /\
     entry V' ki.1 !! lid = Some (Some (set_status CLS_DELETING l))) ki.2) (zip (del_block_keys r) (del_location_ids r))).
  { apply Forall_forall. intros [k ids] (i & Hi)%list_elem_of_lookup. apply Forall_forall. intros lid Hlid. simpl in *.
    apply lookup_zip_with_Some in Hi as (k' & ids' & [= <- <-] & Hk & Hids).
    destruct (Hn k lid) as (l & Hl & Hl'); [by exists i, ids|]. rewrite location_at_entry in Hl'. eauto. }
  clear Hn. revert Hn'. generalize (del_location_ids r). generalize (del_block_keys r). intros ks.
  induction ks as [|k ks IH]; intros [|ids idss] Hn; csimpl; [done..|]. csimpl in Hn. apply Forall_cons in Hn as [Hk Hn].
  rewrite fmap_app, specs_of_app, IH by done. f_equal. simpl in Hk. clear -Hk.
  unfold marked_locations. induction Hk as [|lid ids (l & Hl & Hm) _ IH]; [done|]. csimpl. rewrite Hl, Hm.
  rewrite bool_decide_eq_true_2 by done. csimpl. unfold specs_of in *. csimpl. by rewrite IH.
Qed.

(** What the physical phase hands to the storages. *)
Lemma delete_storages_drops dsm specs w :
  let w' := (delete_storages run_Delete dsm (uris_by_storage (fun u => negb (Valid u)) specs) w).2 in
  made w' = made w /\ dropped w' ≡ₚ dropped w ++ data_of dsm (filter (fun nu => Valid nu.2 = true) (uris_of specs)).
Proof.
  rewrite delete_storages_all. cbv zeta. destruct (delete_all_drops bk_Delete dsm (uris_by_storage (fun u => negb (Valid u)) specs) w)
    as [-> ->]. split; [done|]. f_equiv. apply data_of_perm. rewrite uris_by_storage_flat. apply reflexive_eq, filter_agree.
  intros nu _. by rewrite negb_false_iff.
Qed.

Lemma all_deleted_inv {A} ec (tasks : list (list A)) results i cs c j ts :
  all_deleted ec tasks results = true -> tasks !! i = Some ts -> results !! i = Some cs -> cs !! j = Some c -> c = EC_OK.
Proof.
  unfold all_deleted. intros [_ Hall]%andb_true_iff Ht Hr Hc. rewrite forallb_forall in Hall.
  specialize (Hall (ts, cs)). rewrite andb_true_iff, forallb_forall in Hall. simpl in Hall.
  destruct Hall as [_ Hall].
  - apply list_elem_of_In, list_elem_of_lookup. exists i. apply lookup_zip_with_Some. eauto.
  - specialize (Hall c). rewrite bool_decide_eq_true in Hall. apply Hall, list_elem_of_In. by eapply list_elem_of_lookup_2.
Qed.

(** The physical phase removes the doomed locations and asks for the deletion
    of their data; a location that stays is reported. *)
Lemma DoLocationDelTask_spec dsm t g w s ec g' w' :
  let r := task_request t in
  reliable_reads (PT := PT) ->
  g !! del_instance_id r = Some s -> single_tier (backend_manager_ (meta_indexer_ s)) ->
  well_keyed (stored (meta_indexer_ s)) -> proper_request r -> metadata_only t = false ->
  DoLocationDelTask run_Delete dsm t g w = (ec, g', w') ->
  exists s', g' = <[del_instance_id r := s']> g /\ well_keyed (stored (meta_indexer_ s')) /\
    (forall k lid l, doomed (stored (meta_indexer_ s)) r k lid l ->
       location_at (stored (meta_indexer_ s')) k lid = None \/
       (ec <> EC_OK /\ location_at (stored (meta_indexer_ s')) k lid = location_at (stored (meta_indexer_ s)) k lid)) /\
    (forall k lid, (forall l, ~ doomed (stored (meta_indexer_ s)) r k lid l) ->
       location_at (stored (meta_indexer_ s')) k lid = location_at (stored (meta_indexer_ s)) k lid) /\
    made w' = made w /\ dropped w' ≡ₚ dropped w ++ data_of dsm (filter (fun nu => Valid nu.2 = true)
      (uris_of (marked_specs (physical_rows (stored (meta_indexer_ s)) r)))).
Proof.
  intros r Hrel Hs Hst Hwk Hp Hmeta. unfold DoLocationDelTask. fold r. pose proof Hp as (_ & Hl & _).
  rewrite <-Hl, Nat.eqb_refl, Hs, Hmeta. cbn [negb]. set (V := stored (meta_indexer_ s)) in *.
  destruct (BatchGetLocation _ _ _) as [maps x] eqn:Er. apply read_entries in Er as (Hst1 & Hsx & ->); [|done|done].
  fold V in Hsx. rewrite length_fmap, <-Hl, Nat.eqb_refl. cbn [negb].
  fold V. fold (physical_rows V r). pose proof (delete_storages_drops dsm (marked_specs (physical_rows V r)) w) as Hdata. cbv zeta in Hdata.
  destruct (delete_storages _ _ _ _) as [data_ok w1]. simpl in Hdata.
  pose proof (physical_rows_distinct V r Hp) as Hdist. cbv zeta in Hdist.
  assert (Hcad : forall k lid l, doomed V r k lid l <-> exists row,
    (k, row) ∈ filter (fun row : KeyType * list (LocationId * CacheLocation) => row.2 <> []) (physical_rows V r) /\ (lid, l) ∈ row).
  { intros k lid l. rewrite <-physical_rows_doomed. split; intros (row & Hr & Hin).
    - exists row. split; [|done]. apply list_elem_of_filter. split; [|done]. simpl. by destruct row; [apply not_elem_of_nil in Hin|].
    - apply list_elem_of_filter in Hr as [_ Hr]. eauto. }
  cbv zeta. set (cad := filter (fun row : KeyType * list (LocationId * CacheLocation) => row.2 <> []) (physical_rows V r)) in *.
  clearbody cad.
  destruct (match cad with [] => _ | _ => _ end) as [[meta_ok usage] x'] eqn:Em. intros [= <- <- <-].
  assert (Hx : well_keyed (stored x') /\
    (forall k lid l, doomed V r k lid l -> location_at (stored x') k lid = None \/
       (meta_ok = false /\ location_at (stored x') k lid = location_at V k lid)) /\
    (forall k lid, (forall l, ~ doomed V r k lid l) -> location_at (stored x') k lid = location_at V k lid)).
  { destruct cad as [|c0 cs0] eqn:Ec.
    { simplify_eq. rewrite Hsx. split_and!; try done. intros k lid l (row & Hr & _)%Hcad. by apply not_elem_of_nil in Hr. }
    rewrite <-Ec in *. destruct (BatchCADLocationStatus _ _ _ _) as [[[ec results] usage1] x1] eqn:Eb.
    apply BatchCADLocationStatus_spec in Eb as (_ & Hwk' & Hpos & Hoth);
      [|done|done|by rewrite Hsx].
    rewrite Hsx in *. injection Em as <- _ <-. split_and!; [done| |].
    - intros k lid l (row & (i & Hi)%list_elem_of_lookup & (j & Hj)%list_elem_of_lookup)%Hcad.
      destruct (Hpos i j k (row_tasks (k, row)) (mkCADTask lid CLS_DELETING)) as (cs & c & Hcs & Hc & Hor);
        [by rewrite list_lookup_fmap, Hi|unfold delete_tasks; by rewrite list_lookup_fmap, Hi
        |unfold row_tasks; simpl; by rewrite list_lookup_fmap, Hj|]. simpl in Hor.
      destruct Hor as [[-> ?]|[Hne ?]]; [by left|right]. split; [|done]. apply not_true_iff_false. intros Hall. apply Hne.
      eapply (all_deleted_inv _ _ _ i); [exact Hall|unfold delete_tasks; by rewrite list_lookup_fmap, Hi|done|done].
    - intros k lid Hno. apply Hoth. intros i ts tk Hk Hts Ht Hid. rewrite list_lookup_fmap in Hk.
      unfold delete_tasks in Hts. rewrite list_lookup_fmap in Hts. destruct (cad !! i) as [[k' row]|] eqn:Ei; [|done].
      simplify_eq/=. unfold row_tasks in Ht. simpl in Ht. apply list_elem_of_fmap in Ht as ([lid l] & -> & Hin).
      apply (Hno l), Hcad. exists row. split; [by eapply list_elem_of_lookup_2|done]. }
  destruct Hx as (Hwk' & Hd & Hf). exists (mkSearcher x' usage). split_and!; [done|done| |exact Hf|apply Hdata|apply Hdata].
  intros k lid l Hdo. destruct (Hd k lid l Hdo) as [?|[-> ?]]; [by left|right]. split; [|done]. by rewrite andb_false_r.
Qed.

End physical.

(** ** The whole deletion *)

Section whole.
Context {PT CT W : Type} `{PB : !MetaStorageBackend PT} `{PL : !LawfulBackend PT}
  `{CB : !MetaCacheBaseBackend CT} `{CL : !LawfulCache CT}.
Local Abbreviation Searcher := (MetaSearcher (PT := PT) (CT := CT)).
Implicit Types (s : Searcher) (g : gmap string Searcher).

Variable bk_Delete : DataStorageBackend -> list StandardUri -> W -> list ErrorCode * W.
Local Abbreviation run_Delete := (logged_Delete bk_Delete).
Variables (ToJsonString : CacheLocation -> string) (sync : list KeyType -> bool).

(** C7: a deletion removes what it reports and nothing else (on a single-tier
    instance whose reads do not fail, for a request that names no location
    twice, that may mark from the cached view and that is to delete the data
    too). When the admission of a request hands a task to the workers and the
    task is run: every location the task names was a location the request
    targets, not yet marked and of the expected value, and is gone (or, when
    the result is not [EC_OK], still there, marked); every other location of
    every block is as it was; and the storages were asked to delete, one for
    one, the valid URIs of the locations the task names, and nothing else. *)
Theorem deletion_removes_exactly dsm t g w s r g1 task ec g2 w2 :
  let V := stored (meta_indexer_ s) in
  reliable_reads (PT := PT) ->
  g !! del_instance_id (task_request t) = Some s -> single_tier (backend_manager_ (meta_indexer_ s)) -> well_keyed V ->
  proper_request (task_request t) -> authoritative_read t = false -> metadata_only t = false ->
  PrepareDeleteTask ToJsonString sync false t g = (r, g1) -> RunDeleteAdmission r = inr task ->
  DoLocationDelTask run_Delete dsm task g1 w = (ec, g2, w2) ->
  exists s2, g2 = <[del_instance_id (task_request t) := s2]> g /\ let V2 := stored (meta_indexer_ s2) in
    (forall k lid, names (task_request task) k lid -> exists l, location_at V k lid = Some (Some l) /\
       to_delete ToJsonString t k l /\
       (location_at V2 k lid = None \/
        (ec <> EC_OK /\ location_at V2 k lid = Some (Some (set_status CLS_DELETING l))))) /\
    (forall k lid, ~ names (task_request task) k lid -> location_at V2 k lid = location_at V k lid) /\
    made w2 = made w /\ dropped w2 ≡ₚ dropped w ++ request_data dsm V (task_request task).
Proof.
  intros V Hrel Hs Hst Hwk Hp Ha Hmeta Hprep Hrun Hdo.
  apply (PrepareDeleteTask_spec _ _ _ _ s) in Hprep as (s1 & -> & Hst1 & Hwk1 & [Hp1 Hsh _ Hdone _ Hnamed Hframe] & Hm1); [|done..].
  unfold RunDeleteAdmission in Hrun. case_bool_decide as Hok; [done|]. destruct (needs_physical_delete r) eqn:En; [|done].
  cbn [orb negb] in Hrun. injection Hrun as <-. specialize (Hm1 eq_refl). rewrite Hmeta in Hm1.
  specialize (Hsh eq_refl) as Hid. fold V in Hnamed, Hframe.
  apply (DoLocationDelTask_spec _ _ _ _ _ s1) in Hdo as (s2 & -> & _ & Hd & Hf & Hmade & Hdrop);
    [|done|by rewrite Hid, lookup_insert_eq|done|done|done|done].
  exists s2. rewrite Hid, insert_insert_eq. split; [done|].
  set (V1 := stored (meta_indexer_ s1)) in *. set (req := task_request (actual_task r)) in *.
  assert (Hdoom : forall k lid l', doomed V1 req k lid l' <-> names req k lid /\ exists l, location_at V k lid = Some (Some l) /\
    l' = set_status CLS_DELETING l).
  { intros k lid l'. unfold doomed. split.
    - intros (Hn & Hl1 & _). split; [done|]. destruct (Hnamed k lid Hn) as (l & Hlv & _ & Hl2). exists l. split; [done|congruence].
    - intros (Hn & l & Hlv & ->). destruct (Hnamed k lid Hn) as (l2 & Hlv2 & _ & Hl2). split_and!; [done|congruence|done]. }
  cbv zeta. split_and!.
  - intros k lid Hn. destruct (Hnamed k lid Hn) as (l & Hlv & Hw & Hl1). exists l. split_and!; [done|done|].
    destruct (Hd k lid (set_status CLS_DELETING l)) as [?|[? Heq]]; [apply Hdoom; eauto|by left|right].
    split; [done|congruence].
  - intros k lid Hn. rewrite Hf; [by apply Hframe|]. intros l' [? _]%Hdoom. done.
  - exact Hmade.
  - rewrite Hdrop, (marked_specs_request V V1); [done|]. intros k lid Hn.
    destruct (Hnamed k lid Hn) as (l & Hlv & _ & Hl1). eauto.
Qed.

(** Marks that could not be made durable strand their locations: the
    admission fails, the marked locations stay marked with their data, and no
    later deletion of locations, however it is synchronized, takes them up
    again, although it reports success. *)
Theorem unsynced_marks_are_stranded sync' t t' g s r g1 r' g2 :
  reliable_reads (PT := PT) -> g !! del_instance_id (task_request t) = Some s ->
  single_tier (backend_manager_ (meta_indexer_ s)) -> well_keyed (stored (meta_indexer_ s)) ->
  proper_request (task_request t) -> authoritative_read t = false ->
  proper_request (task_request t') -> authoritative_read t' = false ->
  del_instance_id (task_request t') = del_instance_id (task_request t) ->
  PrepareDeleteTask ToJsonString sync false t g = (r, g1) -> adm_result r <> EC_OK ->
  PrepareDeleteTask ToJsonString sync' false t' g1 = (r', g2) ->
  RunDeleteAdmission r = inl (adm_result r) /\
  exists s2, g2 !! del_instance_id (task_request t) = Some s2 /\
  forall k lid, names (task_request (actual_task r)) k lid ->
    ~ names (task_request (actual_task r')) k lid /\
    exists l, location_at (stored (meta_indexer_ s)) k lid = Some (Some l) /\
      location_at (stored (meta_indexer_ s2)) k lid = Some (Some (set_status CLS_DELETING l)).
Proof.
  intros Hrel Hs Hst Hwk Hp Ha Hp' Ha' Hid Hprep Hne Hprep'.
  apply (PrepareDeleteTask_spec _ _ _ _ s) in Hprep as (s1 & -> & Hst1 & Hwk1 & [_ _ _ _ _ Hnamed _] & _); [|done..].
  apply (PrepareDeleteTask_spec _ _ _ _ s1) in Hprep' as (s2 & -> & _ & _ & [_ _ _ _ _ Hnamed' Hframe'] & _);
    [|done|by rewrite Hid, lookup_insert_eq|done..].
  split; [unfold RunDeleteAdmission; by rewrite bool_decide_eq_true_2|]. exists s2. split; [by rewrite Hid, lookup_insert_eq|].
  intros k lid Hn. destruct (Hnamed k lid Hn) as (l & Hl & _ & Hl1).
  assert (Hno : ~ names (task_request (actual_task r')) k lid).
  { intros Hn'. destruct (Hnamed' k lid Hn') as (l' & Hl' & Hw & _). apply to_delete_names in Hw as [_ Hw]; [|done].
    rewrite Hl1 in Hl'. by simplify_eq. }
  split; [done|]. exists l. by rewrite Hframe'.
Qed.

End whole.

(** ** Example: the session of [CacheSession] is given up *)

Definition demo_task : LocationDelTask :=
  mkDelTask (mkDelRequest "i" [4; 5]%Z [["eeeeeeee"; "none"]; ["ffffffff"]]) [] false false.

Definition demo_admission (durable : bool) :=
  PrepareDeleteTask (fun _ => "") (fun _ => durable) false demo_task (meta_searchers_ demo_started).

Definition demo_deletion :=
  DoLocationDelTask log_Delete (data_storage_manager_ session_reg) (actual_task (demo_admission true).1)
    (demo_admission true).2 (storages_ demo_started).

(** Statuses of the two locations. *)
Definition demo_statuses (g : gmap string (MetaSearcher (PT := MetaDummyBackend) (CT := MetaLocalBackend))) :=
  s ← g !! "i"; Some ((fun kl => p ← location_at (stored (meta_indexer_ s)) kl.1 kl.2; status <$> p) <$> [(4%Z, "eeeeeeee"); (5%Z, "ffffffff")]).

Lemma demo_proper : proper_request (task_request demo_task).
Proof. split_and!; [|done|]; by apply (bool_decide_unpack _); vm_compute. Qed.

Lemma demo_well_keyed : well_keyed (stored (meta_indexer_ demo_searcher)).
Proof. apply well_keyed_alt, (bool_decide_unpack _). by vm_compute. Qed.

Lemma deletion_removes_exactly_witness :
  demo_deletion.1.1 = EC_OK /\ demo_statuses (meta_searchers_ demo_started) = Some [Some CLS_WRITING; Some CLS_WRITING] /\
  dropped demo_deletion.2 ≡ₚ made (storages_ demo_started) /\
  exists s2, demo_deletion.1.2 !! "i" = Some s2 /\ location_at (stored (meta_indexer_ s2)) 4 "eeeeeeee" = None /\
    location_at (stored (meta_indexer_ s2)) 1 "l1" = location_at (stored (meta_indexer_ demo_searcher)) 1 "l1".
Proof.
  assert (Hec : demo_deletion.1.1 = EC_OK) by (vm_compute; reflexivity).
  split; [done|]. split; [vm_compute; reflexivity|]. unfold demo_deletion in *.
  destruct (demo_admission true) as [r g1] eqn:E1. simpl in *.
  destruct (DoLocationDelTask _ _ _ _ _) as [[ec g2] w2] eqn:E2. simpl in Hec. subst ec.
  destruct (deletion_removes_exactly pieces_Delete (fun _ => "") (fun _ => true)
    (data_storage_manager_ session_reg) demo_task (meta_searchers_ demo_started) (storages_ demo_started) demo_searcher
    r g1 (actual_task r) EC_OK g2 w2) as (s2 & -> & Hgone & Hkept & _ & Hdrop).
  - apply dummy_reliable.
  - vm_compute. reflexivity.
  - vm_compute. reflexivity.
  - apply demo_well_keyed.
  - apply demo_proper.
  - reflexivity.
  - reflexivity.
  - exact E1.
  - assert (Hr : RunDeleteAdmission (demo_admission true).1 = inr (actual_task (demo_admission true).1)) by (vm_compute; reflexivity).
    by rewrite E1 in Hr.
  - exact E2.
  - assert (Hreq : task_request (actual_task (demo_admission true).1) = mkDelRequest "i" [4; 5]%Z [["eeeeeeee"]; ["ffffffff"]])
      by (vm_compute; reflexivity). rewrite E1 in Hreq. simpl in Hreq. rewrite Hreq in Hgone, Hkept, Hdrop.
    split; [rewrite Hdrop; vm_compute; reflexivity|]. exists s2. split_and!; [apply lookup_insert_eq| |apply Hkept].
    + destruct (Hgone 4%Z "eeeeeeee") as (l & _ & _ & [Hn|[Hne _]]); [|exact Hn|exfalso; exact (Hne eq_refl)].
      exists 0, ["eeeeeeee"]. split; [reflexivity|]. split; [reflexivity|left].
    + intros (i & ids & Hk & _). simpl in Hk. destruct i as [|[|i]]; discriminate Hk.
Defined.

Lemma unsynced_marks_are_stranded_witness :
  demo_statuses (demo_admission false).2 = Some [Some CLS_DELETING; Some CLS_DELETING] /\
  (PrepareDeleteTask (fun _ => "") (fun _ => true) false demo_task (demo_admission false).2).1 = admission_ends EC_OK "i" /\
  exists s2 l, (PrepareDeleteTask (fun _ => "") (fun _ => true) false demo_task (demo_admission false).2).2 !! "i" = Some s2 /\
    location_at (stored (meta_indexer_ s2)) 4 "eeeeeeee" = Some (Some (set_status CLS_DELETING l)).
Proof.
  split; [vm_compute; reflexivity|]. split; [vm_compute; reflexivity|].
  assert (Hreq : task_request (actual_task (demo_admission false).1) = mkDelRequest "i" [4; 5]%Z [["eeeeeeee"]; ["ffffffff"]])
    by (vm_compute; reflexivity).
  assert (Hec : adm_result (demo_admission false).1 <> EC_OK) by (vm_compute; discriminate).
  destruct (demo_admission false) as [r g1] eqn:E1. simpl in *.
  destruct (PrepareDeleteTask (fun _ => "") (fun _ => true) false demo_task g1) as [r' g2] eqn:E2.
  destruct (unsynced_marks_are_stranded (fun _ => "") (fun _ => false) (fun _ => true) demo_task demo_task
    (meta_searchers_ demo_started) demo_searcher r g1 r' g2) as (_ & s2 & Hs2 & Hst).
  - apply dummy_reliable.
  - vm_compute. reflexivity.
  - vm_compute. reflexivity.
  - apply demo_well_keyed.
  - apply demo_proper.
  - reflexivity.
  - apply demo_proper.
  - reflexivity.
  - reflexivity.
  - exact E1.
  - exact Hec.
  - exact E2.
  - destruct (Hst 4%Z "eeeeeeee") as (_ & l & _ & Hl); [rewrite Hreq; exists 0, ["eeeeeeee"]; split; [reflexivity|]; split; [reflexivity|left]|].
    exists s2, l. split; [exact Hs2|exact Hl].
Defined.
