(* ===== verification/TaskQueue.v ===== *)
(** * TaskQueue: the worker pool of the plan executor

    The queues, workers and shutdown of [manager/schedule_plan_executor.cc]:
    one queue per class of task, ordered by due time and arrival; workers that
    take the first due task of the most urgent class and run at most
    [migration_worker_budget_] migration tasks at a time; and [Stop], which
    cancels what still waits. Threads interleave at the queue mutex; a task is
    a value of any type, and what it does is outside this file. *)

From stdpp Require Import base sets list strings sorting.
From Stdlib Require Import ZArith Lia.
From S2P Require Import Prelude.

Inductive ScheduleTaskClass := kReclaim | kSystem | kMigrationContinuation | kMigrationPrepare.

Definition kTaskClassCount : nat := 4.

Definition TaskClassIndex (c : ScheduleTaskClass) : nat :=
  match c with kReclaim => 0 | kSystem => 1 | kMigrationContinuation => 2 | kMigrationPrepare => 3 end.

(** [IsMigrationTaskClass] of the class with a given index. *)
Definition IsMigrationTaskClass (class_idx : nat) : bool := (class_idx =? 3)%nat || (class_idx =? 2)%nat.

Section queue.
Context {T : Type}.

Record ScheduledTask := mkScheduled {
  task : T;
  cancel_task : bool; (* is there one? *)
  execute_time : Z;
  sequence_id : nat;
}.

(** [operator<]. *)
Definition task_before (a b : ScheduledTask) : bool :=
  if negb (execute_time a =? execute_time b)%Z then (execute_time a <? execute_time b)%Z
  else (sequence_id a <? sequence_id b)%nat.

(** Insertion into the multiset. *)
Fixpoint emplace (t : ScheduledTask) (q : list ScheduledTask) : list ScheduledTask :=
  match q with
  | [] => [t]
  | a :: q' => if task_before t a then t :: q else a :: emplace t q'
  end.

Record Executor := mkExecutor {
  task_queues_ : list (list ScheduledTask);
  migration_worker_budget_ : nat;
  running_migration_tasks_ : nat;
  sequence_counter_ : nat;
  stop_ : bool;
}.

(** The constructor; a requested budget of [None] is the default. *)
Definition new_executor (thread_count : nat) (requested : option nat) : Executor :=
  let thread_count := Nat.max 1 thread_count in
  mkExecutor (replicate kTaskClassCount []) (Nat.max 1 (Nat.min (default thread_count requested) thread_count)) 0 0 false.

Definition SubmitRaw (now delay : Z) (t : T) (cancel : bool) (c : ScheduleTaskClass) (e : Executor) : bool * Executor :=
  if stop_ e then (false, e)
  else
    let s := mkScheduled t cancel (now + delay) (sequence_counter_ e) in
    (true, mkExecutor (alter (emplace s) (TaskClassIndex c) (task_queues_ e)) (migration_worker_budget_ e)
             (running_migration_tasks_ e) (S (sequence_counter_ e)) (stop_ e)).

Definition min_time (a : Z) (b : option Z) : option Z := Some (match b with Some b => Z.min a b | None => a end).

(** The loop over the classes from index [i]: the task taken with its class
    and the queues without it, or the time to wait for. *)
Fixpoint take_ready (now : Z) (full : bool) (i : nat) (qs : list (list ScheduledTask))
    : ((ScheduledTask * nat) * list (list ScheduledTask)) + option Z :=
  match qs with
  | [] => inr None
  | [] :: rest =>
      match take_ready now full (S i) rest with inl (p, rest') => inl (p, [] :: rest') | inr w => inr w end
  | (t :: q) :: rest =>
      if IsMigrationTaskClass i && full
      then match take_ready now full (S i) rest with inl (p, rest') => inl (p, (t :: q) :: rest') | inr w => inr w end
      else if (now <? execute_time t)%Z
      then match take_ready now full (S i) rest with
           | inl (p, rest') => inl (p, (t :: q) :: rest')
           | inr w => inr (min_time (execute_time t) w)
           end
      else inl ((t, i), q :: rest)
  end.

(** One turn of [WorkerRoutine] under the mutex: leave, run a task, or wait
    (until a time, or until notified). *)
Inductive Turn := Leave | Run (t : ScheduledTask) (class_idx : nat) | WaitUntil (until : option Z).

Definition worker_turn (now : Z) (e : Executor) : Turn * Executor :=
  if stop_ e then (Leave, e)
  else
    let full := (migration_worker_budget_ e <=? running_migration_tasks_ e)%nat in
    match take_ready now full 0 (task_queues_ e) with
    | inr w => (WaitUntil w, e)
    | inl ((t, i), qs) =>
        (Run t i, mkExecutor qs (migration_worker_budget_ e)
           (if IsMigrationTaskClass i then S (running_migration_tasks_ e) else running_migration_tasks_ e)
           (sequence_counter_ e) (stop_ e))
    end.

(** What [WorkerRoutine] does after its task. *)
Definition worker_done (class_idx : nat) (e : Executor) : Executor :=
  if IsMigrationTaskClass class_idx
  then mkExecutor (task_queues_ e) (migration_worker_budget_ e) (running_migration_tasks_ e - 1) (sequence_counter_ e) (stop_ e)
  else e.

Definition WaitingTaskCountLocked (e : Executor) : nat := sum_list (length <$> task_queues_ e).

(** [Stop] under the mutex: the waiting tasks, whose cancel functions (where
    there is one) it calls afterwards, and empty queues. *)
Definition Stop (e : Executor) : list ScheduledTask * Executor :=
  (concat (task_queues_ e),
   mkExecutor ((fun _ => []) <$> task_queues_ e) (migration_worker_budget_ e) (running_migration_tasks_ e)
     (sequence_counter_ e) true).

(** ** The pool as a system of threads *)

(** The executor, the tasks being run with their classes, and, as history, the
    tasks accepted, finished and cancelled. *)
Record Pool := mkPool {
  executor : Executor;
  running : list (ScheduledTask * nat);
  accepted : list ScheduledTask;
  finished : list ScheduledTask;
  cancelled : list ScheduledTask;
}.

Inductive pool_step : Pool -> Pool -> Prop :=
| step_submit p now delay t cancel c ok e :
    SubmitRaw now delay t cancel c (executor p) = (ok, e) ->
    pool_step p (mkPool e (running p)
      (if ok then mkScheduled t cancel (now + delay) (sequence_counter_ (executor p)) :: accepted p else accepted p)
      (finished p) (cancelled p))
| step_turn p now turn e :
    worker_turn now (executor p) = (turn, e) ->
    pool_step p (mkPool e (match turn with Run t i => (t, i) :: running p | _ => running p end)
      (accepted p) (finished p) (cancelled p))
| step_done p t i r1 r2 :
    running p = r1 ++ (t, i) :: r2 ->
    pool_step p (mkPool (worker_done i (executor p)) (r1 ++ r2) (accepted p) (t :: finished p) (cancelled p))
| step_stop p waiting e :
    Stop (executor p) = (waiting, e) ->
    pool_step p (mkPool e (running p) (accepted p) (finished p) (waiting ++ cancelled p)).

Definition new_pool (thread_count : nat) (requested : option nat) : Pool :=
  mkPool (new_executor thread_count requested) [] [] [] [].

Inductive reachable (thread_count : nat) (requested : option nat) : Pool -> Prop :=
| reach_new : reachable thread_count requested (new_pool thread_count requested)
| reach_step p p' : reachable thread_count requested p -> pool_step p p' -> reachable thread_count requested p'.

End queue.
Arguments ScheduledTask : clear implicits.
Arguments Executor : clear implicits.
Arguments Pool : clear implicits.

(** ** Order of a queue *)

Section order.
Context {T : Type}.
Implicit Types (t a b : ScheduledTask T) (q : list (ScheduledTask T)).

Definition earlier a b : Prop :=
  (execute_time a < execute_time b)%Z \/ (execute_time a = execute_time b /\ sequence_id a < sequence_id b).

Lemma task_before_spec a b : task_before a b = true <-> earlier a b.
Proof.
  unfold task_before, earlier. destruct (execute_time a =? execute_time b)%Z eqn:E; simpl.
  - apply Z.eqb_eq in E. rewrite Nat.ltb_lt. split; [auto|intros [|[]]; [lia|done]].
  - apply Z.eqb_neq in E. rewrite Z.ltb_lt. split; [auto|intros [|[]]; lia].
Qed.

Lemma emplace_perm t q : emplace t q ≡ₚ t :: q.
Proof.
  induction q as [|a q IH]; [done|]. simpl. destruct (task_before t a); [done|]. rewrite IH. apply Permutation_swap.
Qed.

(** A newer task keeps the queue in order. *)
Lemma emplace_sorted t q :
  StronglySorted earlier q -> Forall (fun a => sequence_id a < sequence_id t) q -> StronglySorted earlier (emplace t q).
Proof.
  induction 1 as [|a q Hs IH Hall]; intros Hseq; simpl; [repeat constructor|].
  apply Forall_cons in Hseq as [Ha Hseq]. destruct (task_before t a) eqn:E.
  - apply task_before_spec in E. constructor; [by constructor|]. constructor; [done|].
    eapply Forall_impl; [exact Hall|]. unfold earlier in *. simpl. intros b Hb. lia.
  - assert (Hat : earlier a t).
    { apply not_true_iff_false in E. rewrite task_before_spec in E. unfold earlier in *. lia. }
    constructor; [by apply IH|]. rewrite emplace_perm. by constructor.
Qed.

End order.

(** ** Taking a task *)

Section taking.
Context {T : Type}.
Implicit Types (t a : ScheduledTask T) (q : list (ScheduledTask T)) (qs : list (list (ScheduledTask T))).

(** The head of class [i] cannot be taken. *)
Definition blocked (now : Z) (full : bool) (i : nat) a : Prop :=
  (IsMigrationTaskClass i = true /\ full = true) \/ (now < execute_time a)%Z.

Lemma take_ready_spec now full qs : forall i,
  match take_ready now full i qs with
  | inl ((t, c), qs') => exists j q, c = i + j /\ qs !! j = Some (t :: q) /\ qs' = <[j := q]> qs /\
      ~ blocked now full c t /\ forall j' a q', j' < j -> qs !! j' = Some (a :: q') -> blocked now full (i + j') a
  | inr w => forall j a q, qs !! j = Some (a :: q) ->
      (IsMigrationTaskClass (i + j) = true /\ full = true) \/
      ((now < execute_time a)%Z /\ exists u, w = Some u /\ (u <= execute_time a)%Z)
  end.
Proof.
  induction qs as [|q0 qs IH]; intros i; simpl; [done|]. specialize (IH (S i)).
  assert (Hshift : forall j, S i + j = i + S j) by lia.
  assert (Hskip : forall (r : ((ScheduledTask T * nat) * list (list (ScheduledTask T))) + option Z),
    (forall a q, q0 = a :: q -> blocked now full i a) ->
    match r with
    | inl ((t, c), qs') => exists j q, c = S i + j /\ qs !! j = Some (t :: q) /\ qs' = <[j := q]> qs /\
        ~ blocked now full c t /\ forall j' a q', j' < j -> qs !! j' = Some (a :: q') -> blocked now full (S i + j') a
    | inr _ => True
    end -> match r with
    | inl ((t, c), qs') => exists j q, c = i + j /\ (q0 :: qs) !! j = Some (t :: q) /\ q0 :: qs' = <[j := q]> (q0 :: qs) /\
        ~ blocked now full c t /\ forall j' a q', j' < j -> (q0 :: qs) !! j' = Some (a :: q') -> blocked now full (i + j') a
    | inr _ => True
    end).
  { intros [[[t c] qs']|w] Hb; [|done]. intros (j & q & -> & Hj & -> & Hn & Hbefore). exists (S j), q.
    split_and!; [lia|done|done|done|]. intros [|j'] a q' Hlt Hq.
    - rewrite Nat.add_0_r. simpl in Hq. injection Hq as Hq. eauto.
    - rewrite <-Hshift. apply (Hbefore j' a q'); [lia|done]. }
  destruct q0 as [|t0 q0].
  { specialize (Hskip (take_ready now full (S i) qs)). destruct (take_ready now full (S i) qs) as [[[t c] qs']|w].
    - apply Hskip; [done|exact IH].
    - intros [|j] a q Hj; [done|]. rewrite <-Hshift. by apply (IH j a q). }
  destruct (IsMigrationTaskClass i && full) eqn:Ef.
  { apply andb_true_iff in Ef as [Ef1 Ef2]. specialize (Hskip (take_ready now full (S i) qs)).
    destruct (take_ready now full (S i) qs) as [[[t c] qs']|w].
    - apply Hskip; [|exact IH]. intros a q _. by left.
    - intros [|j] a q Hj; [left; by rewrite Nat.add_0_r|]. rewrite <-Hshift. by apply (IH j a q). }
  destruct (now <? execute_time t0)%Z eqn:Et.
  { apply Z.ltb_lt in Et. specialize (Hskip (take_ready now full (S i) qs)).
    destruct (take_ready now full (S i) qs) as [[[t c] qs']|w].
    - apply Hskip; [|exact IH]. intros a q [= <- <-]. by right.
    - intros [|j] a q Hj.
      + simpl in Hj. injection Hj as <- <-. right. split; [done|]. eexists. split; [done|]. destruct w; lia.
      + rewrite <-Hshift. destruct (IH j a q Hj) as [?|(Hlt & u & -> & Hu)]; [by left|right]. split; [done|].
        eexists. split; [done|]. lia. }
  apply Z.ltb_ge in Et. exists 0, q0. rewrite Nat.add_0_r. split_and!; try done; [|lia].
  intros [[H1 H2]|?]; [|lia]. by rewrite H1, H2 in Ef.
Qed.

Lemma take_ready_perm j t q qs : qs !! j = Some (t :: q) -> concat qs ≡ₚ t :: concat (<[j := q]> qs).
Proof.
  revert j. induction qs as [|q0 qs IH]; intros [|j] Hj; simplify_eq/=; [done|]. rewrite (IH j Hj). by rewrite <-Permutation_middle.
Qed.

Lemma alter_emplace_perm t qs i : i < length qs -> concat (alter (emplace t) i qs) ≡ₚ t :: concat qs.
Proof.
  revert i. induction qs as [|q qs IH]; intros [|i] Hi; simpl in Hi; [lia|lia| |].
  - change (emplace t q ++ concat qs ≡ₚ t :: q ++ concat qs). by rewrite emplace_perm.
  - change (q ++ concat (alter (emplace t) i qs) ≡ₚ t :: q ++ concat qs). rewrite (IH i) by lia.
    by rewrite <-Permutation_middle.
Qed.

Lemma concat_nils qs : concat ((fun _ => []) <$> qs : list (list (ScheduledTask T))) = [].
Proof. by induction qs. Qed.

End taking.

(** ** Every task is accounted for *)

Section pool.
Context {T : Type} (thread_count : nat) (requested : option nat).
Implicit Types (p : Pool T) (e : Executor T).

Definition waiting e : list (ScheduledTask T) := concat (task_queues_ e).

Definition migrating (r : list (ScheduledTask T * nat)) : nat := length (filter (fun ti => IsMigrationTaskClass ti.2 = true) r).

Record pool_ok p : Prop := {
  ok_classes : length (task_queues_ (executor p)) = kTaskClassCount;
  ok_sorted : Forall (StronglySorted earlier) (task_queues_ (executor p));
  ok_accounted : accepted p ≡ₚ waiting (executor p) ++ (running p).*1 ++ finished p ++ cancelled p;
  ok_fresh : Forall (fun t => sequence_id t < sequence_counter_ (executor p)) (accepted p);
  ok_distinct : NoDup (sequence_id <$> accepted p);
  ok_running : running_migration_tasks_ (executor p) = migrating (running p);
  ok_budget : migrating (running p) <= migration_worker_budget_ (executor p);
  ok_stopped : stop_ (executor p) = true -> waiting (executor p) = [];
}.

Lemma migrating_perm r r' : r ≡ₚ r' -> migrating r = migrating r'.
Proof. intros Hr. unfold migrating. by rewrite Hr. Qed.

Lemma migrating_cons t i r : migrating ((t, i) :: r) = (if IsMigrationTaskClass i then 1 else 0) + migrating r.
Proof. unfold migrating. rewrite filter_cons. simpl. destruct (IsMigrationTaskClass i); [by rewrite decide_True|by rewrite decide_False]. Qed.

Lemma TaskClassIndex_lt c : TaskClassIndex c < kTaskClassCount.
Proof. destruct c; unfold kTaskClassCount; simpl; lia. Qed.

Lemma submit_ok p now delay t cancel c ok e :
  pool_ok p -> SubmitRaw now delay t cancel c (executor p) = (ok, e) ->
  pool_ok (mkPool e (running p)
    (if ok then mkScheduled t cancel (now + delay) (sequence_counter_ (executor p)) :: accepted p else accepted p)
    (finished p) (cancelled p)).
Proof.
  intros [Hc Hs Ha Hf Hd Hr Hb Hst]. unfold SubmitRaw. destruct (stop_ (executor p)) eqn:Es; intros [= <- <-]; [by split; simpl; auto|].
  set (s := mkScheduled _ _ _ _). pose proof (TaskClassIndex_lt c) as Hlt. rewrite <-Hc in Hlt. split; simpl; try done.
  - by rewrite length_alter.
  - assert (Hq : Forall (Forall (fun a => sequence_id a < sequence_id s)) (task_queues_ (executor p))).
    { apply Forall_forall. intros q Hq. apply Forall_forall. intros a Haq. rewrite Forall_forall in Hf. apply Hf.
      rewrite Ha. apply elem_of_app. left. apply list_elem_of_In, in_concat. exists q. by rewrite <-!list_elem_of_In. }
    apply Forall_alter; [done|]. intros q Hq1 Hs1. apply emplace_sorted; [done|]. rewrite Forall_lookup in Hq. by eapply Hq.
  - unfold waiting. simpl. rewrite (alter_emplace_perm s) by done. by rewrite Ha.
  - constructor; [simpl; lia|]. eapply Forall_impl; [exact Hf|]. simpl. lia.
  - csimpl. constructor; [|done]. intros (a & Heq & Hin)%list_elem_of_fmap. rewrite Forall_forall in Hf. specialize (Hf a Hin). simpl in *. lia.
Qed.

Lemma turn_ok p now turn e :
  pool_ok p -> worker_turn now (executor p) = (turn, e) ->
  pool_ok (mkPool e (match turn with Run t i => (t, i) :: running p | _ => running p end) (accepted p) (finished p) (cancelled p)).
Proof.
  intros [Hc Hs Ha Hf Hd Hr Hb Hst]. unfold worker_turn. destruct (stop_ (executor p)) eqn:Es; [intros [= <- <-]; by split; simpl; auto|].
  set (full := (_ <=? _)%nat). pose proof (take_ready_spec now full (task_queues_ (executor p)) 0) as Ht.
  destruct (take_ready _ _ _ _) as [[[t i] qs]|w]; intros [= <- <-]; [|by split; simpl; rewrite ?Es; auto].
  destruct Ht as (j & q & -> & Hj & -> & Hn & _). simpl in *. split; simpl; try done.
  - by rewrite length_insert.
  - rewrite Forall_lookup in Hs. apply Forall_insert; [by apply Forall_lookup|]. specialize (Hs _ _ Hj). by inversion Hs.
  - rewrite Ha. unfold waiting. rewrite (take_ready_perm j t q _ Hj). simpl. by rewrite Permutation_middle.
  - rewrite migrating_cons, Hr. by destruct (IsMigrationTaskClass j).
  - rewrite migrating_cons. destruct (IsMigrationTaskClass j) eqn:Em; [|done].
    assert (Hfull : full <> true) by (intros Hfull; apply Hn; left; by split). unfold full in Hfull.
    apply not_true_is_false, Nat.leb_gt in Hfull. lia.
Qed.

Lemma step_ok p p' : pool_ok p -> pool_step p p' -> pool_ok p'.
Proof.
  intros Hok Hstep. destruct Hstep as [p now delay t cancel c ok e E|p now turn e E|p t i r1 r2 E|p ws e E].
  - by eapply submit_ok.
  - by eapply turn_ok.
  - destruct Hok as [Hc Hs Ha Hf Hd Hr Hb Hst].
    assert (Hperm : running p ≡ₚ (t, i) :: r1 ++ r2) by (rewrite E; by rewrite Permutation_middle).
    rewrite (migrating_perm _ _ Hperm) in Hr, Hb. rewrite migrating_cons in Hr, Hb. rewrite Hperm in Ha.
    unfold worker_done. destruct (IsMigrationTaskClass i) eqn:Ei; (split; simpl; try done; try lia);
      rewrite Ha; csimpl; unfold waiting; simpl; solve_Permutation.
  - destruct Hok as [Hc Hs Ha Hf Hd Hr Hb Hst]. unfold Stop in E. injection E as <- <-. split; simpl; try done.
    + by rewrite length_fmap.
    + apply Forall_fmap, Forall_forall. intros. constructor.
    + rewrite Ha. unfold waiting. simpl. rewrite concat_nils. simpl. solve_Permutation.
    + intros _. unfold waiting. simpl. by rewrite concat_nils.
Qed.

Lemma reachable_ok p : reachable thread_count requested p -> pool_ok p.
Proof.
  induction 1 as [|p p' _ IH Hstep]; [|by eapply step_ok]. split; simpl; try done; try apply NoDup_nil_2; try (unfold migrating; simpl; lia).
  repeat (apply Forall_cons_2; [apply SSorted_nil|]). apply Forall_nil_2.
Qed.


(** C38: the pool loses and repeats no task: after any interleaving of
    submissions, turns and ends of workers and shutdowns, the tasks accepted
    are, each exactly once, the waiting, the running, the finished and those
    a shutdown took out of the queues (cancelled, where they have a cancel
    function); at most [migration_worker_budget_] migration tasks run;
    and after [Stop] none waits. *)
Theorem tasks_accounted p :
  reachable thread_count requested p ->
  accepted p ≡ₚ waiting (executor p) ++ (running p).*1 ++ finished p ++ cancelled p /\ NoDup (accepted p) /\
  migrating (running p) <= migration_worker_budget_ (executor p) /\
  (stop_ (executor p) = true -> waiting (executor p) = []).
Proof.
  intros [_ _ Ha _ Hd _ Hb Hs]%reachable_ok. split_and!; [done| |done|done]. by eapply NoDup_fmap_1.
Qed.

(** A worker takes the right task: the one taken is due, no waiting task
    of a more urgent class could have been taken, and it comes before the
    other waiting tasks of its class (by due time, then by arrival); a worker
    that waits instead passes over no due task but migrations for which the
    budget is used up, and wakes no later than the next task is due. *)
Theorem worker_takes_first_due p now turn e :
  reachable thread_count requested p -> worker_turn now (executor p) = (turn, e) ->
  let full := migration_worker_budget_ (executor p) <= running_migration_tasks_ (executor p) in
  let waits c t := exists q, task_queues_ (executor p) !! c = Some q /\ t ∈ q in
  match turn with
  | Leave => stop_ (executor p) = true
  | Run t i => waits i t /\ (execute_time t <= now)%Z /\ (IsMigrationTaskClass i = true -> ~ full) /\
      (forall c a, c < i -> waits c a -> (IsMigrationTaskClass c = true /\ full) \/ (now < execute_time a)%Z) /\
      (forall a, waits i a -> a = t \/ earlier t a)
  | WaitUntil w => forall c a, waits c a -> (IsMigrationTaskClass c = true /\ full) \/
      ((now < execute_time a)%Z /\ exists u, w = Some u /\ (u <= execute_time a)%Z)
  end.
Proof.
  intros Hr Hturn full waits. apply reachable_ok in Hr as [_ Hsort _ _ _ _ _ _]. rewrite Forall_lookup in Hsort.
  assert (Hhead : forall c a q, task_queues_ (executor p) !! c = Some q -> a ∈ q ->
    exists h q', q = h :: q' /\ (a = h \/ earlier h a)).
  { intros c a q Hq Hin. specialize (Hsort c q Hq). destruct Hsort as [|h q' _ Hall]; [by apply not_elem_of_nil in Hin|].
    exists h, q'. split; [done|]. apply elem_of_cons in Hin as [->|Hin]; [by left|right]. rewrite Forall_forall in Hall. by apply Hall. }
  assert (Hlater : forall h a : ScheduledTask T, a = h \/ earlier h a -> (execute_time h <= execute_time a)%Z).
  { intros h a [->|[?|[? _]]]; lia. }
  unfold worker_turn in Hturn. destruct (stop_ (executor p)) eqn:Es; [by simplify_eq|].
  set (fb := (_ <=? _)%nat) in Hturn. assert (Hfb : fb = true <-> full) by apply Nat.leb_le.
  pose proof (take_ready_spec now fb (task_queues_ (executor p)) 0) as Ht.
  destruct (take_ready _ _ _ _) as [[[t i] qs]|w]; simplify_eq; simpl in *.
  - destruct Ht as (j & q & -> & Hj & -> & Hn & Hbefore). simpl in *. split_and!.
    + exists (t :: q). split; [done|left].
    + apply Z.nlt_ge. intros ?. apply Hn. by right.
    + intros Hm Hf. apply Hn. left. by rewrite Hfb.
    + intros c a Hc (q' & Hq & Hin). destruct (Hhead c a q' Hq Hin) as (h & q'' & -> & Ho).
      destruct (Hbefore c h q'' Hc Hq) as [[? ?]|?]; [left; by rewrite <-Hfb|right]. apply Hlater in Ho. lia.
    + intros a (q' & Hq & Hin). destruct (Hhead j a q' Hq Hin) as (h & q'' & -> & Ho). by simplify_eq.
  - intros c a (q & Hq & Hin). destruct (Hhead c a q Hq Hin) as (h & q' & -> & Ho%Hlater).
    destruct (Ht c h q' Hq) as [[? ?]|(? & u & -> & ?)]; [left; by rewrite <-Hfb|right]. split; [lia|]. exists u. split; [done|lia].
Qed.

End pool.

(** ** Example: four tasks, a budget of one migration *)

Definition submitted (delay : Z) (t : string) (c : ScheduleTaskClass) (p : Pool string) : Pool string :=
  let r := SubmitRaw 0 delay t true c (executor p) in
  mkPool r.2 (running p)
    (if r.1 then mkScheduled t true (0 + delay) (sequence_counter_ (executor p)) :: accepted p else accepted p)
    (finished p) (cancelled p).

Definition turned (now : Z) (p : Pool string) : Pool string :=
  let r := worker_turn now (executor p) in
  mkPool r.2 (match r.1 with Run t i => (t, i) :: running p | _ => running p end) (accepted p) (finished p) (cancelled p).

Definition demo_copying : Pool string :=
  turned 1 (turned 1 (submitted 0 "gone" kReclaim (submitted 0 "copy" kMigrationContinuation
    (submitted 5 "later" kSystem (submitted 0 "prepare" kMigrationPrepare (new_pool 4 (Some 1))))))).

Lemma submitted_reachable delay t c p : reachable 4 (Some 1) p -> reachable 4 (Some 1) (submitted delay t c p).
Proof. intros Hp. eapply reach_step; [exact Hp|]. apply (step_submit p 0 delay t true c). by destruct (SubmitRaw _ _ _ _ _ _). Qed.

Lemma turned_reachable now p : reachable 4 (Some 1) p -> reachable 4 (Some 1) (turned now p).
Proof. intros Hp. eapply reach_step; [exact Hp|]. apply (step_turn p now). by destruct (worker_turn _ _). Qed.

Lemma demo_copying_reachable : reachable 4 (Some 1) demo_copying.
Proof. by repeat first [apply turned_reachable|apply submitted_reachable|apply reach_new]. Qed.

Lemma tasks_accounted_witness :
  task <$> waiting (executor demo_copying) = ["later"; "prepare"] /\ NoDup (accepted demo_copying) /\
  migrating (running demo_copying) <= 1.
Proof.
  split; [reflexivity|]. destruct (tasks_accounted 4 (Some 1) demo_copying demo_copying_reachable) as (_ & Hn & Hm & _).
  split; [exact Hn|exact Hm].
Defined.

Lemma worker_takes_first_due_witness :
  (worker_turn 1 (executor demo_copying)).1 = WaitUntil (Some 5%Z) /\
  ((IsMigrationTaskClass 3 = true /\ 1 <= 1) \/ ((1 < 0)%Z /\ exists u, Some 5%Z = Some u /\ (u <= 0)%Z)).
Proof.
  split; [reflexivity|].
  apply (worker_takes_first_due 4 (Some 1) demo_copying 1 (WaitUntil (Some 5%Z)) _ demo_copying_reachable eq_refl 3
    (mkScheduled "prepare" true 0 0)).
  eexists. split; [reflexivity|left].
Defined.
