(* ===== verification/ReclaimLedger.v ===== *)
(** * ReclaimLedger: the deletions the reclaimer has in flight

    The bookkeeping of [manager/cache_reclaimer.{h,cc}]: the handlers of the
    deletions submitted and not finished, the locations they hold, the bytes
    and keys credited to their groups, the quotas that bound them, the
    admission of a request ([SubmitDelReq]) and the round that collects the
    results ([HandleDelRes]). The reclaimer's thread is the only one that
    touches this state; the plan executor is a parameter. A
    [std::future] is a handle, [None] once it is invalid. *)

From stdpp Require Import base gmap sets list strings.
From Stdlib Require Import ZArith Lia.
From S2P Require Import Prelude StandardUri MetaTypes StorageUsage MetaBackend Registry WriteFilter.

Local Open Scope Z_scope.

(** ** Saturating arithmetic *)

Definition SaturatingSub (lhs rhs : Z) : Z := if rhs <? lhs then lhs - rhs else 0.
Definition SaturatingAdd (lhs rhs : Z) : Z := if u64_max - lhs <? rhs then u64_max else lhs + rhs.

Definition GetLocationBytes (l : CacheLocation) : Z :=
  foldl (fun total s =>
      let u := FromUri (chars_of (uri s)) in
      if negb (Valid u) then total else SaturatingAdd total (GetParamAs_u64 (chars_of "size") u 0))
    0 (location_specs l).

(** ** The state *)

(** [BytesByStorageType] and [CountsByStorageType], arrays indexed by type. *)
Abbreviation ByType := (list Z).
Definition by_type_zero : ByType := replicate storage_type_COUNT 0.
Definition at_type (t : DataStorageType) (a : ByType) : Z := default 0 (a !! ToIndex t).
Arguments by_type_zero : simpl never.
Arguments at_type : simpl never.

(** Instance, block, location. *)
Definition PendingLocationKey : Type := string * KeyType * LocationId.

Record CacheReclaimerAsyncDeleteConfig := mkAsyncConfig {
  inflight_delete_timeout_ms : Z;
  pending_location_limit_per_group_type : Z;
  pending_bytes_limit_per_group_type : Z;
  pending_delete_handler_limit : Z;
  pending_bytes_limit : Z;
}.

Definition default_async_config : CacheReclaimerAsyncDeleteConfig :=
  mkAsyncConfig 60000 20000 (1024 * 1024 * 1024 * 1024) 1024 (4 * 1024 * 1024 * 1024 * 1024).

(** Times in microseconds of the steady clock. *)
Record DeleteHandler := mkHandler {
  ins_id_ : string;
  ins_gr_ : string;
  blk_count_ : Z;
  loc_count_ : Z;
  hd_pending_locations_ : list PendingLocationKey;
  bytes_by_type_ : ByType;
  location_counts_by_type_ : ByType;
  predicted_deleted_keys_ : Z;
  submitted_at_ : Z;
  credit_deadline_ : Z;
  credit_enabled_ : bool;
  outcome_unknown_reported_ : bool;
  fut_ : option nat;
}.

Record PendingQuota := mkQuota { location_count : Z; quota_bytes : Z }.
Definition no_quota : PendingQuota := mkQuota 0 0.

Record Reclaimer := mkReclaimer {
  delete_handlers_ : list DeleteHandler;
  pending_locations_ : gset PendingLocationKey;
  credited_delete_bytes_by_group_ : gmap string ByType;
  predicted_deleted_keys_by_group_ : gmap string Z;
  pending_quota_by_group_type_ : gmap (string * DataStorageType) PendingQuota;
  pending_delete_handler_count_ : Z;
  pending_delete_bytes_ : Z;
}.

Definition new_reclaimer : Reclaimer := mkReclaimer [] ∅ ∅ ∅ ∅ 0 0.

Definition with_handlers (hs : list DeleteHandler) (r : Reclaimer) : Reclaimer :=
  mkReclaimer hs (pending_locations_ r) (credited_delete_bytes_by_group_ r) (predicted_deleted_keys_by_group_ r)
    (pending_quota_by_group_type_ r) (pending_delete_handler_count_ r) (pending_delete_bytes_ r).

Definition GetCreditedDeleteBytes (group : string) (r : Reclaimer) : ByType :=
  default by_type_zero (credited_delete_bytes_by_group_ r !! group).

Definition GetPredictedDeletedKeys (group : string) (r : Reclaimer) : Z :=
  default 0 (predicted_deleted_keys_by_group_ r !! group).

Definition pending_quota_of (group : string) (t : DataStorageType) (r : Reclaimer) : PendingQuota :=
  default no_quota (pending_quota_by_group_type_ r !! (group, t)).

(** ** Entering and leaving the ledger *)

(** The types that receive credit. *)
Definition credited_type (t : DataStorageType) : bool :=
  negb (bool_decide (t = DATA_STORAGE_TYPE_UNKNOWN)) && negb (bool_decide (t = DATA_STORAGE_TYPE_VCNS_HF3FS)).

(** One storage type of [AddDeleteHandlerState]'s loop: the credit, then the
    quota. *)
Definition credit_type (group : string) (t : DataStorageType) (bytes : Z) (m : gmap string ByType) : gmap string ByType :=
  if credited_type t && negb (bytes =? 0) then
    let c := default by_type_zero (m !! group) in
    <[group := <[ToIndex t := SaturatingAdd (at_type t c) bytes]> c]> m
  else m.

Definition charge_type (group : string) (t : DataStorageType) (count bytes : Z)
    (m : gmap (string * DataStorageType) PendingQuota) : gmap (string * DataStorageType) PendingQuota :=
  if (count =? 0) && (bytes =? 0) then m
  else let q := default no_quota (m !! (group, t)) in
       <[(group, t) := mkQuota (SaturatingAdd (location_count q) count) (SaturatingAdd (quota_bytes q) bytes)]> m.

Definition AddDeleteHandlerState (h : DeleteHandler) (r : Reclaimer) : Reclaimer :=
  let g := ins_gr_ h in
  mkReclaimer (delete_handlers_ r)
    (list_to_set (hd_pending_locations_ h) ∪ pending_locations_ r)
    (foldl (fun m t => credit_type g t (at_type t (bytes_by_type_ h)) m)
       (credited_delete_bytes_by_group_ r) all_storage_types)
    (if predicted_deleted_keys_ h =? 0 then predicted_deleted_keys_by_group_ r
     else <[g := SaturatingAdd (GetPredictedDeletedKeys g r) (predicted_deleted_keys_ h)]>
            (predicted_deleted_keys_by_group_ r))
    (foldl (fun m t => charge_type g t (at_type t (location_counts_by_type_ h)) (at_type t (bytes_by_type_ h)) m)
       (pending_quota_by_group_type_ r) all_storage_types)
    (SaturatingAdd (pending_delete_handler_count_ r) 1)
    (foldl SaturatingAdd (pending_delete_bytes_ r) (bytes_by_type_ h)).

Definition credit_off (h : DeleteHandler) : DeleteHandler :=
  mkHandler (ins_id_ h) (ins_gr_ h) (blk_count_ h) (loc_count_ h) (hd_pending_locations_ h) (bytes_by_type_ h)
    (location_counts_by_type_ h) (predicted_deleted_keys_ h) (submitted_at_ h) (credit_deadline_ h) false
    (outcome_unknown_reported_ h) (fut_ h).

Definition DisableCredit (h : DeleteHandler) (r : Reclaimer) : DeleteHandler * Reclaimer :=
  if negb (credit_enabled_ h) then (h, r)
  else
    let g := ins_gr_ h in
    let credited := match credited_delete_bytes_by_group_ r !! g with
      | None => credited_delete_bytes_by_group_ r
      | Some c =>
          let c' := zip_with SaturatingSub c (bytes_by_type_ h) in
          if forallb (fun b => b =? 0) c' then delete g (credited_delete_bytes_by_group_ r)
          else <[g := c']> (credited_delete_bytes_by_group_ r)
      end in
    let predicted := match predicted_deleted_keys_by_group_ r !! g with
      | None => predicted_deleted_keys_by_group_ r
      | Some n =>
          let n' := SaturatingSub n (predicted_deleted_keys_ h) in
          if n' =? 0 then delete g (predicted_deleted_keys_by_group_ r)
          else <[g := n']> (predicted_deleted_keys_by_group_ r)
      end in
    (credit_off h,
     mkReclaimer (delete_handlers_ r) (pending_locations_ r) credited predicted (pending_quota_by_group_type_ r)
       (pending_delete_handler_count_ r) (pending_delete_bytes_ r)).

(** One storage type of [ReleaseDeleteHandlerState]'s loop. *)
Definition discharge_type (group : string) (t : DataStorageType) (count bytes : Z)
    (m : gmap (string * DataStorageType) PendingQuota) : gmap (string * DataStorageType) PendingQuota :=
  if (count =? 0) && (bytes =? 0) then m
  else match m !! (group, t) with
       | None => m
       | Some q =>
           let q' := mkQuota (SaturatingSub (location_count q) count) (SaturatingSub (quota_bytes q) bytes) in
           if (location_count q' =? 0) && (quota_bytes q' =? 0) then delete (group, t) m
           else <[(group, t) := q']> m
       end.

Definition ReleaseDeleteHandlerState (h : DeleteHandler) (r : Reclaimer) : Reclaimer :=
  let '(h, r) := DisableCredit h r in
  let g := ins_gr_ h in
  mkReclaimer (delete_handlers_ r)
    (pending_locations_ r ∖ list_to_set (hd_pending_locations_ h))
    (credited_delete_bytes_by_group_ r)
    (predicted_deleted_keys_by_group_ r)
    (foldl (fun m t => discharge_type g t (at_type t (location_counts_by_type_ h)) (at_type t (bytes_by_type_ h)) m)
       (pending_quota_by_group_type_ r) all_storage_types)
    (SaturatingSub (pending_delete_handler_count_ r) 1)
    (foldl SaturatingSub (pending_delete_bytes_ r) (bytes_by_type_ h)).

(** ** Collecting the results *)

(** The state of a valid future: its result, or [None] when it holds an
    exception. *)
Inductive FutureStatus := fs_ready (result : option ErrorCode) | fs_timeout | fs_deferred.

Definition report_unknown (f : option nat) (h : DeleteHandler) : DeleteHandler :=
  mkHandler (ins_id_ h) (ins_gr_ h) (blk_count_ h) (loc_count_ h) (hd_pending_locations_ h) (bytes_by_type_ h)
    (location_counts_by_type_ h) (predicted_deleted_keys_ h) (submitted_at_ h) (credit_deadline_ h)
    (credit_enabled_ h) true f.

Section collect.
(** What the futures and the clock answer during the round. *)
Variables (poll : nat -> FutureStatus) (now : nat -> Z).

(** One handler: what is left of it. [get] empties a future even when it
    throws. *)
Definition handle_one (h : DeleteHandler) (r : Reclaimer) : option DeleteHandler * Reclaimer :=
  match fut_ h with
  | None => let '(h, r) := DisableCredit (report_unknown None h) r in (Some h, r)
  | Some f =>
      match poll f with
      | fs_ready (Some _) => (None, ReleaseDeleteHandlerState h r)
      | fs_ready None => let '(h, r) := DisableCredit (report_unknown None h) r in (Some h, r)
      | fs_deferred => let '(h, r) := DisableCredit (report_unknown (Some f) h) r in (Some h, r)
      | fs_timeout =>
          if credit_enabled_ h && (credit_deadline_ h <=? now f)
          then let '(h, r) := DisableCredit h r in (Some h, r)
          else (Some h, r)
      end
  end.

Fixpoint handle_all (hs : list DeleteHandler) (r : Reclaimer) : list DeleteHandler * Reclaimer :=
  match hs with
  | [] => ([], r)
  | h :: hs =>
      let '(h', r) := handle_one h r in
      let '(hs, r) := handle_all hs r in
      (option_list h' ++ hs, r)
  end.

Definition HandleDelRes (r : Reclaimer) : Reclaimer :=
  let '(hs, r) := handle_all (delete_handlers_ r) r in with_handlers hs r.

End collect.

(** ** Admission of a request *)

Section submit.
(** [SchedulePlanExecutor::SubmitAsync]: the future when the request, to be
    run after the delay, is accepted. *)
Context {E : Type}.
Variable SubmitAsync : CacheLocationDelRequest -> Z -> E -> option (option nat) * E.

Fixpoint check_pending (seen pending : gset PendingLocationKey) (l : list PendingLocationKey) : bool :=
  match l with
  | [] => true
  | p :: l =>
      if bool_decide (p ∈ seen) then false
      else if bool_decide (p ∈ pending) then false
      else check_pending ({[p]} ∪ seen) pending l
  end.

Definition request_rows (req : CacheLocationDelRequest) : list (KeyType * list LocationId) :=
  filter (fun kl => kl.2 <> []) (zip (del_block_keys req) (del_location_ids req)).

Definition request_locations (ins_id : string) (rows : list (KeyType * list LocationId)) : list PendingLocationKey :=
  rows ≫= fun kl => (fun lid => (ins_id, kl.1, lid)) <$> kl.2.

(** The limit of [limit] is reached by [used], or [more] exceeds what is left. *)
Definition over_limit (limit used more : Z) : bool := (limit <=? used) || (limit - Z.min used limit <? more).

Definition type_admits (cfg : CacheReclaimerAsyncDeleteConfig) (q : PendingQuota) (count bytes : Z) : bool :=
  ((count =? 0) && (bytes =? 0))
  || negb (over_limit (pending_location_limit_per_group_type cfg) (location_count q) count
           || over_limit (pending_bytes_limit_per_group_type cfg) (quota_bytes q) bytes).

Definition SubmitDelReq (active : bool) (cfg : CacheReclaimerAsyncDeleteConfig) (ins_id ins_gr : string)
    (req : CacheLocationDelRequest) (delay : Z) (bytes_by_type location_counts_by_type : ByType)
    (predicted_deleted_keys : Z) (submitted_at : Z) (r : Reclaimer) (e : E) : bool * Reclaimer * E :=
  if negb active then (false, r, e)
  else if negb (length (del_block_keys req) =? length (del_location_ids req))%nat then (false, r, e)
  else
    let rows := request_rows req in
    let blk_count := foldl (fun n _ => SaturatingAdd n 1) 0 rows in
    let loc_count := foldl (fun n kl => SaturatingAdd n (Z.of_nat (length kl.2))) 0 rows in
    let locations := request_locations ins_id rows in
    if negb (check_pending ∅ (pending_locations_ r) locations) then (false, r, e)
    else if (blk_count =? 0) || (loc_count =? 0) then (false, r, e)
    else if pending_delete_handler_limit cfg <=? pending_delete_handler_count_ r then (false, r, e)
    else if negb (forallb (fun t => type_admits cfg (pending_quota_of ins_gr t r)
                              (at_type t location_counts_by_type) (at_type t bytes_by_type)) all_storage_types)
    then (false, r, e)
    else if over_limit (pending_bytes_limit cfg) (pending_delete_bytes_ r) (foldl SaturatingAdd 0 bytes_by_type)
    then (false, r, e)
    else
      match SubmitAsync (mkDelRequest ins_id rows.*1 rows.*2) delay e with
      | (None, e) => (false, r, e)
      | (Some fut, e) =>
          let deadline := submitted_at + Z.max delay 0 + inflight_delete_timeout_ms cfg * 1000 in
          let h := mkHandler ins_id ins_gr blk_count loc_count locations bytes_by_type location_counts_by_type
                     predicted_deleted_keys submitted_at deadline true false fut in
          (true, AddDeleteHandlerState h (with_handlers (h :: delete_handlers_ r) r), e)
      end.

End submit.

(** ** What the ledger means *)

Lemma all_types_complete t : t ∈ all_storage_types.
Proof. eapply list_elem_of_lookup_2, all_storage_types_lookup. Qed.

Lemma all_types_nodup : NoDup all_storage_types.
Proof. apply (bool_decide_unpack _). by vm_compute. Qed.

Lemma at_type_insert t t' v (a : ByType) :
  length a = storage_type_COUNT -> at_type t' (<[ToIndex t := v]> a) = if bool_decide (t = t') then v else at_type t' a.
Proof.
  intros Ha. unfold at_type. case_bool_decide as E.
  - subst. rewrite list_lookup_insert_eq; [done|]. rewrite Ha. apply ToIndex_lt.
  - rewrite list_lookup_insert_ne; [done|]. intros H%(inj _). done.
Qed.

Lemma at_type_zero t : at_type t by_type_zero = 0.
Proof. by destruct t. Qed.

(** An array is the list of its values by type. *)
Lemma at_types (a : ByType) : length a = storage_type_COUNT -> (fun t => at_type t a) <$> all_storage_types = a.
Proof. intros Ha. do 10 (destruct a as [|? a]; [done|]). by destruct a. Qed.

Lemma zsum_at_types (a : ByType) : length a = storage_type_COUNT -> zsum (fun t => at_type t a) all_storage_types = zsum (fun z => z) a.
Proof.
  intros Ha. transitivity (zsum (fun z => z) ((fun t => at_type t a) <$> all_storage_types));
    [by rewrite zsum_fmap | by rewrite at_types].
Qed.

Lemma at_type_nonneg t (a : ByType) : Forall (fun z => 0 <= z) a -> 0 <= at_type t a.
Proof. intros H. unfold at_type. destruct (a !! _) eqn:E; simpl; [|lia]. by eapply Forall_lookup_1 in H. Qed.

Lemma sat_sub_exact a b : b <= a -> SaturatingSub a b = a - b.
Proof. intros. unfold SaturatingSub. destruct (Z.ltb_spec b a); lia. Qed.

Lemma sat_add_exact a b : a + b <= u64_max -> SaturatingAdd a b = a + b.
Proof. intros. unfold SaturatingAdd. destruct (Z.ltb_spec (u64_max - a) b); lia. Qed.

Lemma sat_add_ge a b : a <= u64_max -> Z.min (a + b) u64_max <= SaturatingAdd a b.
Proof. intros. unfold SaturatingAdd. destruct (Z.ltb_spec (u64_max - a) b); lia. Qed.

Lemma sat_adds_exact l a :
  Forall (fun z => 0 <= z) l -> a + zsum (fun z => z) l <= u64_max -> foldl SaturatingAdd a l = a + zsum (fun z => z) l.
Proof.
  intros Hl. revert a. induction Hl as [|z l Hz Hl IH]; intros a Ha; cbn [foldl]; [unfold zsum in *; simpl in *; lia|]; rewrite ?zsum_cons in *.
  assert (0 <= zsum (fun z => z) l) by (apply zsum_nonneg; by apply Forall_forall).
   rewrite sat_add_exact by lia. rewrite IH by lia. lia.
Qed.

(** A sum that saturates reads as the largest value. *)
Lemma sat_adds_ge l a :
  Forall (fun z => 0 <= z) l -> a <= u64_max -> Z.min (a + zsum (fun z => z) l) u64_max <= foldl SaturatingAdd a l.
Proof.
  intros Hl. revert a. induction Hl as [|z l Hz Hl IH]; intros a Ha; cbn [foldl]; [unfold zsum in *; simpl in *; lia|]; rewrite ?zsum_cons in *.
  assert (SaturatingAdd a z <= u64_max) by (unfold SaturatingAdd; destruct (Z.ltb_spec (u64_max - a) z); lia).
  specialize (IH (SaturatingAdd a z) ltac:(done)). pose proof (sat_add_ge a z Ha).
  assert (0 <= zsum (fun z => z) l) by (apply zsum_nonneg; by apply Forall_forall). lia.
Qed.

Lemma sat_subs_exact l a :
  Forall (fun z => 0 <= z) l -> zsum (fun z => z) l <= a -> foldl SaturatingSub a l = a - zsum (fun z => z) l.
Proof.
  intros Hl. revert a. induction Hl as [|z l Hz Hl IH]; intros a Ha; cbn [foldl]; [unfold zsum in *; simpl in *; lia|]; rewrite ?zsum_cons in *.
  assert (0 <= zsum (fun z => z) l) by (apply zsum_nonneg; by apply Forall_forall).
  rewrite sat_sub_exact by lia. rewrite IH by lia. lia.
Qed.

Record handler_wf (h : DeleteHandler) : Prop := {
  hw_bytes_len : length (bytes_by_type_ h) = storage_type_COUNT;
  hw_counts_len : length (location_counts_by_type_ h) = storage_type_COUNT;
  hw_bytes : Forall (fun z => 0 <= z) (bytes_by_type_ h);
  hw_counts : Forall (fun z => 0 <= z) (location_counts_by_type_ h);
  hw_predicted : 0 <= predicted_deleted_keys_ h <= zsum (fun z => z) (location_counts_by_type_ h);
}.

(** What a handler contributes to the sums of a group. *)
Definition of_group (g : string) (f : DeleteHandler -> Z) (h : DeleteHandler) : Z :=
  if bool_decide (ins_gr_ h = g) then f h else 0.
Definition bytes_of (t : DataStorageType) (h : DeleteHandler) : Z := at_type t (bytes_by_type_ h).
Definition count_of (t : DataStorageType) (h : DeleteHandler) : Z := at_type t (location_counts_by_type_ h).
Definition credit (f : DeleteHandler -> Z) (h : DeleteHandler) : Z := if credit_enabled_ h then f h else 0.
Definition handler_bytes (h : DeleteHandler) : Z := zsum (fun z => z) (bytes_by_type_ h).

(** The fields of the ledger are the sums over the handlers [hs]: every
    location of every handler is pending and held by one handler only, the
    quotas count all handlers, the credits those still credited. *)
Record accounts (hs : list DeleteHandler) (r : Reclaimer) : Prop := {
  ac_wf : Forall handler_wf hs;
  ac_nodup : NoDup (hs ≫= hd_pending_locations_);
  ac_locs : pending_locations_ r = list_to_set (hs ≫= hd_pending_locations_);
  ac_quota : forall g t, pending_quota_of g t r = mkQuota (zsum (of_group g (count_of t)) hs) (zsum (of_group g (bytes_of t)) hs);
  ac_credit : forall g t, at_type t (GetCreditedDeleteBytes g r)
                = if credited_type t then zsum (of_group g (credit (bytes_of t))) hs else 0;
  ac_credit_len : forall g c, credited_delete_bytes_by_group_ r !! g = Some c -> length c = storage_type_COUNT;
  ac_predicted : forall g, GetPredictedDeletedKeys g r = zsum (of_group g (credit predicted_deleted_keys_)) hs;
  ac_count : pending_delete_handler_count_ r = Z.of_nat (length hs);
  ac_bytes : pending_delete_bytes_ r = zsum handler_bytes hs;
}.

(** The hard limits hold of the handlers [hs]. *)
Record within (cfg : CacheReclaimerAsyncDeleteConfig) (hs : list DeleteHandler) : Prop := {
  wi_count : forall g t, zsum (of_group g (count_of t)) hs <= pending_location_limit_per_group_type cfg;
  wi_bytes : forall g t, zsum (of_group g (bytes_of t)) hs <= pending_bytes_limit_per_group_type cfg;
  wi_total : zsum handler_bytes hs <= pending_bytes_limit cfg;
  wi_handlers : Z.of_nat (length hs) <= pending_delete_handler_limit cfg;
}.

(** Limits for which no sum of the ledger can saturate. *)
Record limits_ok (cfg : CacheReclaimerAsyncDeleteConfig) : Prop := {
  li_count : 0 <= pending_location_limit_per_group_type cfg /\ 10 * pending_location_limit_per_group_type cfg <= u64_max;
  li_bytes : 0 <= pending_bytes_limit_per_group_type cfg <= u64_max;
  li_handlers : 0 <= pending_delete_handler_limit cfg <= u64_max;
  li_total : 0 <= pending_bytes_limit cfg < u64_max;
}.

Lemma of_group_nonneg g f h : (0 <= f h) -> 0 <= of_group g f h.
Proof. intros. unfold of_group. case_bool_decide; lia. Qed.

Lemma credit_nonneg f h : 0 <= f h -> 0 <= credit f h <= f h.
Proof. intros. unfold credit. destruct (credit_enabled_ h); lia. Qed.

Lemma bytes_of_nonneg t h : handler_wf h -> 0 <= bytes_of t h.
Proof. intros [???? _]. by apply at_type_nonneg. Qed.

Lemma count_of_nonneg t h : handler_wf h -> 0 <= count_of t h.
Proof. intros [???? _]. by apply at_type_nonneg. Qed.

Lemma sum_nonneg (P : DeleteHandler -> Prop) f hs : (forall h, P h -> 0 <= f h) -> Forall P hs -> 0 <= zsum f hs.
Proof. intros Hf H. apply zsum_nonneg. intros a Ha. apply Hf. by eapply Forall_forall in H. Qed.

Lemma credit_sum_le g f hs :
  (forall h, handler_wf h -> 0 <= f h) -> Forall handler_wf hs ->
  0 <= zsum (of_group g (credit f)) hs <= zsum (of_group g f) hs.
Proof.
  intros Hf H. split.
  - eapply sum_nonneg, H. intros h Hh. apply of_group_nonneg, credit_nonneg, Hf, Hh.
  - apply zsum_le. intros h Hh. eapply Forall_forall in H; [|done]. unfold of_group. case_bool_decide; [|lia].
    apply credit_nonneg, Hf, H.
Qed.

(** The predicted keys of a group are bounded by its pending locations. *)
Lemma predicted_sum_le cfg g hs :
  limits_ok cfg -> within cfg hs -> Forall handler_wf hs -> zsum (of_group g predicted_deleted_keys_) hs <= u64_max.
Proof.
  intros Hl Hw H.
  transitivity (zsum (fun t => zsum (of_group g (count_of t)) hs) all_storage_types).
  - rewrite (zsum_swap (fun t h => of_group g (count_of t) h)). apply zsum_le. intros h Hh.
    eapply Forall_forall in H; [|done]. destruct H as [_ Hc _ _ Hp]. unfold of_group. case_bool_decide.
    + unfold count_of. rewrite zsum_at_types by done. lia.
    + by rewrite zsum_zero.
  - etrans; [apply (zsum_le _ (fun _ => pending_location_limit_per_group_type cfg)); intros; apply Hw|].
    rewrite zsum_const. destruct Hl as [[_ Hc] _ _ _]. change (Z.of_nat (length all_storage_types)) with 10. lia.
Qed.

(** ** The loops over the storage types *)

Lemma credit_type_spec g t b m g' t' :
  (forall c, m !! g = Some c -> length c = storage_type_COUNT) -> 0 <= b ->
  at_type t (default by_type_zero (m !! g)) + b <= u64_max ->
  at_type t' (default by_type_zero (credit_type g t b m !! g'))
    = at_type t' (default by_type_zero (m !! g'))
      + (if bool_decide (g = g') && bool_decide (t = t') && credited_type t then b else 0).
Proof.
  intros Hlen Hb Hmax. unfold credit_type. destruct (credited_type t); simpl; [|rewrite andb_false_r; lia].
  rewrite andb_true_r. destruct (Z.eqb_spec b 0) as [->|Hb0]; simpl; [destruct (_ && _); lia|].
  case_bool_decide as Eg; [subst g'|by rewrite lookup_insert_ne by done; simpl; lia].
  assert (Hd : length (default by_type_zero (m !! g)) = storage_type_COUNT).
  { destruct (m !! g) eqn:E; [by apply Hlen|done]. }
  rewrite lookup_insert_eq. simpl. rewrite at_type_insert, sat_add_exact by done.
  case_bool_decide; [subst|]; lia.
Qed.

Lemma credit_type_len g t b m :
  (forall g' c, m !! g' = Some c -> length c = storage_type_COUNT) ->
  forall g' c, credit_type g t b m !! g' = Some c -> length c = storage_type_COUNT.
Proof.
  intros Hlen g' c. unfold credit_type. case_match; [|by apply Hlen].
  rewrite lookup_insert_Some. intros [[<- <-]|[_ Hc]]; [|by eapply Hlen].
  rewrite length_insert. destruct (m !! g) eqn:E; [by eapply Hlen|done].
Qed.

Lemma credit_loop_spec g (a : ByType) ts m :
  NoDup ts -> (forall g' c, m !! g' = Some c -> length c = storage_type_COUNT) ->
  (forall t, t ∈ ts -> 0 <= at_type t a /\ at_type t (default by_type_zero (m !! g)) + at_type t a <= u64_max) ->
  let m' := foldl (fun m t => credit_type g t (at_type t a) m) m ts in
  (forall g' c, m' !! g' = Some c -> length c = storage_type_COUNT) /\
  forall g' t', at_type t' (default by_type_zero (m' !! g'))
    = at_type t' (default by_type_zero (m !! g'))
      + (if bool_decide (g = g') && bool_decide (t' ∈ ts) && credited_type t' then at_type t' a else 0).
Proof.
  revert m. induction ts as [|t ts IH]; intros m Hnd Hlen Hb; cbn.
  { split; [done|]. intros g' t'. rewrite (bool_decide_eq_false_2 (t' ∈ [])) by set_solver. rewrite andb_false_r. simpl. lia. }
  apply NoDup_cons in Hnd as [Hni Hnd]. destruct (Hb t) as [H0 H1]; [set_solver|].
  pose proof (fun g' t' => credit_type_spec g t (at_type t a) m g' t' (Hlen g) H0 H1) as Hs.
  destruct (IH (credit_type g t (at_type t a) m)) as [IHl IHs]; [done|by apply credit_type_len| |].
  { intros t' Ht'. rewrite Hs. destruct (Hb t') as [? ?]; [set_solver|].
    rewrite (bool_decide_eq_false_2 (t = t')) by (intros ->; done). rewrite andb_false_r. cbn [andb]. split; [done|lia]. }
  split; [exact IHl|]. intros g' t'. rewrite IHs, Hs.
  destruct (bool_decide (g = g')); cbn [andb]; [|lia].
  destruct (decide (t = t')) as [<-|Hne].
  - rewrite (bool_decide_eq_false_2 (t ∈ ts)), (bool_decide_eq_true_2 (t = t)), (bool_decide_eq_true_2 (t ∈ t :: ts))
      by (done || set_solver). cbn [andb]. destruct (credited_type t); lia.
  - rewrite (bool_decide_eq_false_2 (t = t')) by done.
    rewrite (bool_decide_ext (t' ∈ t :: ts) (t' ∈ ts)) by set_solver. cbn [andb]. lia.
Qed.

Lemma charge_loop_spec g (cs bs : ByType) ts m :
  NoDup ts ->
  (forall t, t ∈ ts -> 0 <= at_type t cs /\ 0 <= at_type t bs /\
     location_count (default no_quota (m !! (g, t))) + at_type t cs <= u64_max /\
     quota_bytes (default no_quota (m !! (g, t))) + at_type t bs <= u64_max) ->
  forall g' t', default no_quota (foldl (fun m t => charge_type g t (at_type t cs) (at_type t bs) m) m ts !! (g', t'))
    = if bool_decide (g = g') && bool_decide (t' ∈ ts)
      then mkQuota (location_count (default no_quota (m !! (g', t'))) + at_type t' cs)
                   (quota_bytes (default no_quota (m !! (g', t'))) + at_type t' bs)
      else default no_quota (m !! (g', t')).
Proof.
  revert m. induction ts as [|t ts IH]; intros m Hnd Hb g' t'; cbn.
  { by rewrite (bool_decide_eq_false_2 (t' ∈ [])), andb_false_r by set_solver. }
  apply NoDup_cons in Hnd as [Hni Hnd]. destruct (Hb t) as (Hc & Hb0 & H1 & H2); [set_solver|].
  assert (Hs : forall g' t', default no_quota (charge_type g t (at_type t cs) (at_type t bs) m !! (g', t'))
    = if bool_decide ((g, t) = (g', t'))
      then mkQuota (location_count (default no_quota (m !! (g', t'))) + at_type t' cs)
                   (quota_bytes (default no_quota (m !! (g', t'))) + at_type t' bs)
      else default no_quota (m !! (g', t'))).
  { intros g1 t1. unfold charge_type. case_bool_decide as E.
    - injection E as <- <-. destruct (Z.eqb_spec (at_type t cs) 0) as [->|]; simpl.
      + destruct (Z.eqb_spec (at_type t bs) 0) as [->|]; simpl.
        * destruct (default no_quota (m !! (g, t))); simpl. by rewrite !Z.add_0_r.
        * rewrite lookup_insert_eq. simpl. by rewrite !sat_add_exact by lia.
      + rewrite lookup_insert_eq. simpl. by rewrite !sat_add_exact by lia.
    - destruct (_ && _); [done|]. by rewrite lookup_insert_ne. }
  rewrite IH; [|done|].
  2: { intros t1 Ht1. rewrite Hs, (bool_decide_eq_false_2 ((g, t) = (g, t1))) by (intros [= ->]; done). apply Hb. set_solver. }
  rewrite Hs. destruct (decide (g = g')) as [<-|Hg].
  - rewrite (bool_decide_eq_true_2 (g = g)) by done. simpl.
    destruct (decide (t = t')) as [<-|Ht].
    + rewrite (bool_decide_eq_false_2 (t ∈ ts)), (bool_decide_eq_true_2 ((g, t) = (g, t))),
        (bool_decide_eq_true_2 (t ∈ t :: ts)) by (done || set_solver). done.
    + rewrite (bool_decide_ext (t' ∈ t :: ts) (t' ∈ ts)) by set_solver.
      rewrite (bool_decide_eq_false_2 ((g, t) = (g, t'))) by (intros [= ->]; done). done.
  - rewrite (bool_decide_eq_false_2 (g = g')), (bool_decide_eq_false_2 ((g, t) = (g', t'))) by (try intros [= -> ->]; done). done.
Qed.

(** ** Every transition keeps the accounts *)

Lemma accounts_perm hs hs' r : hs ≡ₚ hs' -> accounts hs r -> accounts hs' r.
Proof.
  intros Hp [H1 H2 H3 H4 H5 H6 H7 H8 H9]. constructor; try done.
  - by rewrite <-Hp.
  - by rewrite <-Hp.
  - rewrite H3. apply list_to_set_perm_L. by rewrite Hp.
  - intros. by rewrite <-!(zsum_perm _ _ _ Hp).
  - intros. by rewrite <-!(zsum_perm _ _ _ Hp).
  - intros. by rewrite <-!(zsum_perm _ _ _ Hp).
  - by rewrite <-Hp.
  - by rewrite <-!(zsum_perm _ _ _ Hp).
Qed.

Lemma within_perm cfg hs hs' : hs ≡ₚ hs' -> within cfg hs -> within cfg hs'.
Proof.
  intros Hp [H1 H2 H3 H4]. constructor; intros; rewrite <-?(zsum_perm _ _ _ Hp), <-?Hp; auto.
Qed.

Lemma within_tail cfg h hs : handler_wf h -> within cfg (h :: hs) -> within cfg hs.
Proof.
  intros Hh [H1 H2 H3 H4]. constructor.
  - intros g t. specialize (H1 g t). rewrite zsum_cons in H1. pose proof (of_group_nonneg g _ h (count_of_nonneg t h Hh)). lia.
  - intros g t. specialize (H2 g t). rewrite zsum_cons in H2. pose proof (of_group_nonneg g _ h (bytes_of_nonneg t h Hh)). lia.
  - rewrite zsum_cons in H3. assert (0 <= handler_bytes h); [|lia]. apply zsum_nonneg. apply Forall_forall, Hh.
  - simpl in H4. lia.
Qed.

(** A handler with the same sums. *)
Record same_charge (h h' : DeleteHandler) : Prop := {
  sc_group : ins_gr_ h' = ins_gr_ h;
  sc_locations : hd_pending_locations_ h' = hd_pending_locations_ h;
  sc_bytes : bytes_by_type_ h' = bytes_by_type_ h;
  sc_counts : location_counts_by_type_ h' = location_counts_by_type_ h;
  sc_predicted : predicted_deleted_keys_ h' = predicted_deleted_keys_ h;
}.

Lemma same_charge_wf h h' : same_charge h h' -> handler_wf h -> handler_wf h'.
Proof. intros [? ? E1 E2 E3] [????]. constructor; by rewrite ?E1, ?E2, ?E3. Qed.

Lemma within_same cfg h h' hs : same_charge h h' -> within cfg (h :: hs) -> within cfg (h' :: hs).
Proof.
  intros [E1 E2 E3 E4 E5] [H1 H2 H3 H4]. constructor; [..|done].
  - intros g t. specialize (H1 g t). rewrite zsum_cons in H1 |- *. unfold of_group, count_of in *. by rewrite E1, E4.
  - intros g t. specialize (H2 g t). rewrite zsum_cons in H2 |- *. unfold of_group, bytes_of in *. by rewrite E1, E3.
  - rewrite zsum_cons in H3 |- *. unfold handler_bytes in *. by rewrite E3.
Qed.

(** What does not depend on the credit of a handler. *)
Lemma accounts_same h h' hs r :
  same_charge h h' -> credit_enabled_ h' = credit_enabled_ h -> accounts (h :: hs) r -> accounts (h' :: hs) r.
Proof.
  intros Hs Hc [H1 H2 H3 H4 H5 H6 H7 H8 H9]. apply Forall_cons in H1 as [Hw H1].
  pose proof (same_charge_wf _ _ Hs Hw). destruct Hs as [E1 E2 E3 E4 E5].
  constructor; try done; [by constructor|cbn in *; by rewrite E2..| | | |]; intros; rewrite ?H4, ?H5, ?H7, ?H9, ?zsum_cons;
    unfold of_group, count_of, bytes_of, credit, handler_bytes; by rewrite ?E1, ?E3, ?E4, ?E5, ?Hc.
Qed.

Lemma add_accounts cfg h hs r :
  limits_ok cfg -> within cfg (h :: hs) -> handler_wf h -> credit_enabled_ h = true ->
  NoDup (hd_pending_locations_ h) -> (forall p, p ∈ hd_pending_locations_ h -> p ∉ pending_locations_ r) ->
  accounts hs r -> accounts (h :: hs) (AddDeleteHandlerState h r).
Proof.
  intros Hl Hw Hh Hc Hnd Hfresh [H1 H2 H3 H4 H5 H6 H7 H8 H9].
  pose proof (hw_bytes _ Hh) as Hb. pose proof (hw_counts _ Hh) as Hcs. pose proof (wi_count _ _ Hw) as W1.
  pose proof (wi_bytes _ _ Hw) as W2. pose proof (wi_total _ _ Hw) as W3. pose proof (wi_handlers _ _ Hw) as W4.
  pose proof Hl as [L1 L2 L3 L4].
  assert (G : forall f, zsum (of_group (ins_gr_ h) f) (h :: hs) = f h + zsum (of_group (ins_gr_ h) f) hs).
  { intros f. rewrite zsum_cons. unfold of_group at 1. by rewrite bool_decide_eq_true_2. }
  assert (N : forall g f, g <> ins_gr_ h -> zsum (of_group g f) (h :: hs) = zsum (of_group g f) hs).
  { intros g f Hg. rewrite zsum_cons. unfold of_group at 1. rewrite bool_decide_eq_false_2 by done. lia. }
  destruct (credit_loop_spec (ins_gr_ h) (bytes_by_type_ h) all_storage_types (credited_delete_bytes_by_group_ r))
    as [Cl Cs]; [apply all_types_nodup|done| |].
  { intros t _. split; [by apply at_type_nonneg|]. specialize (W2 (ins_gr_ h) t). rewrite G in W2. unfold bytes_of at 1 in W2.
    pose proof (credit_sum_le (ins_gr_ h) (bytes_of t) hs (bytes_of_nonneg t) H1).
    fold (GetCreditedDeleteBytes (ins_gr_ h) r). rewrite H5. pose proof (at_type_nonneg t _ Hb). destruct (credited_type t); lia. }
  pose proof (charge_loop_spec (ins_gr_ h) (location_counts_by_type_ h) (bytes_by_type_ h) all_storage_types
    (pending_quota_by_group_type_ r) all_types_nodup) as Qs.
  assert (Hq : forall t, t ∈ all_storage_types -> 0 <= at_type t (location_counts_by_type_ h) /\ 0 <= at_type t (bytes_by_type_ h) /\
     location_count (default no_quota (pending_quota_by_group_type_ r !! (ins_gr_ h, t))) + at_type t (location_counts_by_type_ h) <= u64_max /\
     quota_bytes (default no_quota (pending_quota_by_group_type_ r !! (ins_gr_ h, t))) + at_type t (bytes_by_type_ h) <= u64_max).
  { intros t _. fold (pending_quota_of (ins_gr_ h) t r). rewrite H4. simpl. specialize (W1 (ins_gr_ h) t). specialize (W2 (ins_gr_ h) t).
    rewrite G in W1, W2. unfold count_of at 1 in W1. unfold bytes_of at 1 in W2.
    split_and!; [by apply at_type_nonneg..|lia|lia]. }
  specialize (Qs Hq). constructor.
  - by constructor.
  - cbn. apply NoDup_app. split_and!; [done| |done]. intros p Hp Hp'. apply (Hfresh p Hp). rewrite H3. by apply elem_of_list_to_set.
  - cbn. rewrite H3. by rewrite list_to_set_app_L.
  - intros g t. unfold pending_quota_of. simpl. rewrite Qs, (bool_decide_eq_true_2 (t ∈ _)) by apply all_types_complete.
    rewrite andb_true_r. fold (pending_quota_of g t r). rewrite H4. simpl. case_bool_decide as Eg.
    + subst g. rewrite !G. unfold count_of at 2, bytes_of at 2. f_equal; lia.
    + rewrite !N by done. done.
  - intros g t. unfold GetCreditedDeleteBytes. simpl. rewrite Cs, (bool_decide_eq_true_2 (t ∈ _)) by apply all_types_complete.
    rewrite andb_true_r. fold (GetCreditedDeleteBytes g r). rewrite H5. case_bool_decide as Eg; cbn [andb].
    + subst g. rewrite !G. unfold credit at 2, bytes_of at 2. rewrite Hc. destruct (credited_type t); lia.
    + rewrite N by done. lia.
  - exact Cl.
  - intros g. unfold GetPredictedDeletedKeys at 1. simpl. pose proof (predicted_sum_le cfg g (h :: hs) Hl Hw ltac:(by constructor)) as P.
    destruct (Z.eqb_spec (predicted_deleted_keys_ h) 0) as [E0|Hn].
    + fold (GetPredictedDeletedKeys g r). rewrite H7, zsum_cons. unfold of_group at 2, credit at 2. rewrite E0, Hc. by case_bool_decide.
    + destruct (decide (g = ins_gr_ h)) as [->|Hg].
      * rewrite lookup_insert_eq. simpl. rewrite H7, G. rewrite G in P. unfold credit at 2. rewrite Hc.
        pose proof (credit_sum_le (ins_gr_ h) predicted_deleted_keys_ hs ltac:(intros ? []; lia) H1). rewrite sat_add_exact; lia.
      * rewrite lookup_insert_ne by done. fold (GetPredictedDeletedKeys g r). by rewrite H7, N.
  - simpl. rewrite H8. simpl in W4. rewrite sat_add_exact; lia.
  - simpl. rewrite H9. rewrite zsum_cons in W3 |- *. unfold handler_bytes at 1 in W3. rewrite sat_adds_exact by (done || lia).
    unfold handler_bytes at 2. lia.
Qed.

Lemma head_group g h hs f : ins_gr_ h = g -> zsum (of_group g f) (h :: hs) = f h + zsum (of_group g f) hs.
Proof. intros <-. rewrite zsum_cons. unfold of_group at 1. by rewrite bool_decide_eq_true_2. Qed.

Lemma other_group g h hs f : g <> ins_gr_ h -> zsum (of_group g f) (h :: hs) = zsum (of_group g f) hs.
Proof. intros Hg. rewrite zsum_cons. unfold of_group at 1. rewrite bool_decide_eq_false_2 by done. lia. Qed.

Lemma credit_off_same h : same_charge h (credit_off h).
Proof. by constructor. Qed.

Lemma at_zip_sub t (a b : ByType) :
  length a = storage_type_COUNT -> length b = storage_type_COUNT ->
  at_type t (zip_with SaturatingSub a b) = SaturatingSub (at_type t a) (at_type t b).
Proof.
  intros Ha Hb. unfold at_type. rewrite lookup_zip_with.
  destruct (lookup_lt_is_Some_2 a (ToIndex t)) as [x Hx]; [rewrite Ha; apply ToIndex_lt|].
  destruct (lookup_lt_is_Some_2 b (ToIndex t)) as [y Hy]; [rewrite Hb; apply ToIndex_lt|].
  by rewrite Hx, Hy.
Qed.

Lemma all_zero_at (a : ByType) t : forallb (fun b => b =? 0) a = true -> at_type t a = 0.
Proof.
  intros H. unfold at_type. destruct (a !! ToIndex t) eqn:E; [|done]. simpl.
  rewrite forallb_forall in H. apply Z.eqb_eq, H. apply list_elem_of_In. by eapply list_elem_of_lookup_2.
Qed.

Lemma sat_sub_nonneg a b : 0 <= SaturatingSub a b.
Proof. unfold SaturatingSub. destruct (Z.ltb_spec b a); lia. Qed.

(** Disabling the credit of a credited handler subtracts its bytes and keys
    from the credit of its group only. *)
Lemma disable_accounts h hs r :
  accounts (h :: hs) r ->
  (DisableCredit h r).1 = credit_off h /\ accounts (credit_off h :: hs) (DisableCredit h r).2.
Proof.
  intros HA. unfold DisableCredit. destruct (credit_enabled_ h) eqn:Hc; simpl.
  2: { assert (credit_off h = h) as -> by (unfold credit_off; destruct h; simpl in *; congruence). done. }
  split; [done|]. destruct HA as [H1 H2 H3 H4 H5 H6 H7 H8 H9]. pose proof H1 as Hall. apply Forall_cons in H1 as [Hh H1].
  pose proof (hw_bytes _ Hh) as Hb. pose proof (hw_bytes_len _ Hh) as Hbl.
  assert (K : forall f g, (forall h, handler_wf h -> 0 <= f h) -> 0 <= zsum (of_group g (credit f)) hs).
  { intros f g Hf. by apply credit_sum_le. }
  constructor; try done.
  - constructor; [|done]. eapply same_charge_wf, Hh. apply credit_off_same.
  - intros g t. specialize (H5 g t). specialize (K (bytes_of t) g (bytes_of_nonneg t)).
    unfold GetCreditedDeleteBytes in *. simpl. pose proof (at_type_nonneg t _ Hb) as Ht.
    destruct (decide (g = ins_gr_ h)) as [->|Hg].
    + rewrite head_group by done. unfold credit at 1. simpl.
      rewrite head_group in H5 by done. unfold credit at 1 in H5. rewrite Hc in H5. unfold bytes_of at 1 in H5.
      destruct (credited_delete_bytes_by_group_ r !! ins_gr_ h) as [c|] eqn:Ec.
      * simpl in H5. assert (Hv : at_type t (zip_with SaturatingSub c (bytes_by_type_ h))
            = if credited_type t then zsum (of_group (ins_gr_ h) (credit (bytes_of t))) hs else 0).
        { rewrite at_zip_sub by (by eauto). unfold SaturatingSub. destruct (credited_type t);
            destruct (Z.ltb_spec (at_type t (bytes_by_type_ h)) (at_type t c)); lia. }
        destruct (forallb _ _) eqn:Ez; [rewrite lookup_delete_eq|rewrite lookup_insert_eq]; simpl;
          [rewrite at_type_zero; rewrite (all_zero_at _ t Ez) in Hv|]; destruct (credited_type t); lia.
      * rewrite Ec. cbn [default from_option] in *. rewrite at_type_zero in *. destruct (credited_type t); lia.
    + rewrite other_group by done. rewrite other_group in H5 by done. destruct (credited_delete_bytes_by_group_ r !! ins_gr_ h); [|done].
      destruct (forallb _ _); [by rewrite lookup_delete_ne|by rewrite lookup_insert_ne].
  - intros g c. simpl. destruct (credited_delete_bytes_by_group_ r !! ins_gr_ h) as [d|] eqn:Ed; [|by apply H6].
    destruct (forallb _ _); [rewrite lookup_delete_Some; intros [_ ?]; by eapply H6|].
    rewrite lookup_insert_Some. intros [[_ <-]|[_ ?]]; [|by eapply H6]. rewrite length_zip_with, (H6 _ _ Ed), Hbl. done.
  - intros g. specialize (H7 g). specialize (K predicted_deleted_keys_ g ltac:(intros ? []; lia)).
    unfold GetPredictedDeletedKeys in *. simpl.
    destruct (decide (g = ins_gr_ h)) as [->|Hg].
    + rewrite head_group by done. unfold credit at 1. simpl.
      rewrite head_group in H7 by done. unfold credit at 1 in H7. rewrite Hc in H7. destruct Hh as [_ _ _ _ Hp].
      destruct (predicted_deleted_keys_by_group_ r !! ins_gr_ h) as [n|] eqn:En; [|rewrite En; simpl in *; lia].
      simpl in H7. assert (Hv : SaturatingSub n (predicted_deleted_keys_ h) = zsum (of_group (ins_gr_ h) (credit predicted_deleted_keys_)) hs).
      { rewrite sat_sub_exact; lia. }
      destruct (Z.eqb_spec (SaturatingSub n (predicted_deleted_keys_ h)) 0); [rewrite lookup_delete_eq|rewrite lookup_insert_eq]; simpl; lia.
    + rewrite other_group by done. rewrite other_group in H7 by done. destruct (predicted_deleted_keys_by_group_ r !! ins_gr_ h); [|done].
      case_match; [by rewrite lookup_delete_ne|by rewrite lookup_insert_ne].
Qed.

Lemma discharge_loop_spec g (cs bs : ByType) ts m :
  NoDup ts ->
  (forall t, t ∈ ts -> 0 <= at_type t cs <= location_count (default no_quota (m !! (g, t))) /\
     0 <= at_type t bs <= quota_bytes (default no_quota (m !! (g, t)))) ->
  forall g' t', default no_quota (foldl (fun m t => discharge_type g t (at_type t cs) (at_type t bs) m) m ts !! (g', t'))
    = if bool_decide (g = g') && bool_decide (t' ∈ ts)
      then mkQuota (location_count (default no_quota (m !! (g', t'))) - at_type t' cs)
                   (quota_bytes (default no_quota (m !! (g', t'))) - at_type t' bs)
      else default no_quota (m !! (g', t')).
Proof.
  revert m. induction ts as [|t ts IH]; intros m Hnd Hb g' t'; cbn [foldl].
  { by rewrite (bool_decide_eq_false_2 (t' ∈ [])), andb_false_r by set_solver. }
  apply NoDup_cons in Hnd as [Hni Hnd]. destruct (Hb t) as (Hc & Hb0); [set_solver|].
  assert (Hs : forall g' t', default no_quota (discharge_type g t (at_type t cs) (at_type t bs) m !! (g', t'))
    = if bool_decide ((g, t) = (g', t'))
      then mkQuota (location_count (default no_quota (m !! (g', t'))) - at_type t' cs)
                   (quota_bytes (default no_quota (m !! (g', t'))) - at_type t' bs)
      else default no_quota (m !! (g', t'))).
  { intros g1 t1. unfold discharge_type. case_bool_decide as E.
    - injection E as <- <-. destruct ((at_type t cs =? 0) && (at_type t bs =? 0)) eqn:Ez.
      + apply andb_true_iff in Ez as [->%Z.eqb_eq ->%Z.eqb_eq].
        destruct (default no_quota (m !! (g, t))); simpl. by rewrite !Z.sub_0_r.
      + destruct (m !! (g, t)) as [q|] eqn:Em; simpl in *; [|rewrite Em; simpl; f_equal; lia].
        rewrite !sat_sub_exact by lia. case_match eqn:E0; [rewrite lookup_delete_eq|by rewrite lookup_insert_eq].
        reflect_bools. simpl. unfold no_quota. f_equal; lia.
    - destruct (_ && _); [done|]. destruct (m !! (g, t)); [|done].
      case_match; [by rewrite lookup_delete_ne|by rewrite lookup_insert_ne]. }
  rewrite IH; [|done|].
  2: { intros t1 Ht1. rewrite Hs, (bool_decide_eq_false_2 ((g, t) = (g, t1))) by (intros [= ->]; done). apply Hb. set_solver. }
  rewrite Hs. destruct (decide (g = g')) as [<-|Hg].
  - rewrite (bool_decide_eq_true_2 (g = g)) by done. cbn [andb].
    destruct (decide (t = t')) as [<-|Ht].
    + rewrite (bool_decide_eq_false_2 (t ∈ ts)), (bool_decide_eq_true_2 ((g, t) = (g, t))),
        (bool_decide_eq_true_2 (t ∈ t :: ts)) by (done || set_solver). done.
    + rewrite (bool_decide_ext (t' ∈ t :: ts) (t' ∈ ts)) by set_solver.
      rewrite (bool_decide_eq_false_2 ((g, t) = (g, t'))) by (intros [= ->]; done). done.
  - rewrite (bool_decide_eq_false_2 (g = g')), (bool_decide_eq_false_2 ((g, t) = (g', t'))) by (try intros [= -> ->]; done). done.
Qed.

Lemma release_accounts h hs r : accounts (h :: hs) r -> accounts hs (ReleaseDeleteHandlerState h r).
Proof.
  intros HA. destruct (disable_accounts h hs r HA) as [E1 HA']. unfold ReleaseDeleteHandlerState.
  destruct (DisableCredit h r) as [h' r']. simpl in E1, HA'. subst h'.
  clear HA r. destruct HA' as [H1 H2 H3 H4 H5 H6 H7 H8 H9]. apply Forall_cons in H1 as [Hh H1].
  pose proof (discharge_loop_spec (ins_gr_ h) (location_counts_by_type_ h) (bytes_by_type_ h) all_storage_types
    (pending_quota_by_group_type_ r') all_types_nodup) as Qs.
  assert (S : forall f g, (forall h, handler_wf h -> 0 <= f h) -> 0 <= zsum (of_group g f) hs).
  { intros f g Hf. eapply sum_nonneg, H1. intros k Hk. by apply of_group_nonneg, Hf. }
  assert (Hq : forall t, t ∈ all_storage_types ->
     0 <= at_type t (location_counts_by_type_ h) <= location_count (default no_quota (pending_quota_by_group_type_ r' !! (ins_gr_ h, t))) /\
     0 <= at_type t (bytes_by_type_ h) <= quota_bytes (default no_quota (pending_quota_by_group_type_ r' !! (ins_gr_ h, t)))).
  { intros t _. fold (pending_quota_of (ins_gr_ h) t r'). rewrite H4. simpl location_count. simpl quota_bytes.
    rewrite !head_group by done.
    pose proof (S (count_of t) (ins_gr_ h) (count_of_nonneg t)). pose proof (S (bytes_of t) (ins_gr_ h) (bytes_of_nonneg t)).
    pose proof (count_of_nonneg t _ Hh). pose proof (bytes_of_nonneg t _ Hh). unfold count_of, bytes_of in *. simpl in *. lia. }
  specialize (Qs Hq). cbn in H2, H3. apply NoDup_app in H2 as (Hn1 & Hdis & Hn2). constructor; try done.
  - simpl. rewrite H3. apply set_eq. intros p. specialize (Hdis p).
    rewrite elem_of_difference, !elem_of_list_to_set, elem_of_app. tauto.
  - intros g t. unfold pending_quota_of. simpl pending_quota_by_group_type_. rewrite Qs, (bool_decide_eq_true_2 (t ∈ _)) by apply all_types_complete.
    rewrite andb_true_r. fold (pending_quota_of g t r'). rewrite H4. simpl location_count. simpl quota_bytes. case_bool_decide as Eg.
    + subst g. rewrite !head_group by done. unfold count_of at 1, bytes_of at 1. simpl. f_equal; lia.
    + by rewrite !other_group.
  - intros g t. unfold GetCreditedDeleteBytes in *. simpl. rewrite H5, zsum_cons. unfold of_group at 1, credit at 1. simpl.
    by case_bool_decide.
  - intros g. unfold GetPredictedDeletedKeys in *. simpl. rewrite H7, zsum_cons. unfold of_group at 1, credit at 1. simpl.
    by case_bool_decide.
  - simpl. rewrite H8. cbn [length]. rewrite sat_sub_exact; lia.
  - simpl. rewrite H9, zsum_cons.
    change (handler_bytes (credit_off h)) with (zsum (fun z => z) (bytes_by_type_ h)).
    assert (0 <= zsum handler_bytes hs). { eapply sum_nonneg, H1. intros k Hk. apply zsum_nonneg, Forall_forall, Hk. }
    rewrite sat_subs_exact; [lia|apply Hh|lia].
Qed.

(** ** The round of results *)

Definition ledger_ok (cfg : CacheReclaimerAsyncDeleteConfig) (r : Reclaimer) : Prop :=
  accounts (delete_handlers_ r) r /\ within cfg (delete_handlers_ r).

Lemma accounts_with_handlers hs hs' r : accounts hs (with_handlers hs' r) <-> accounts hs r.
Proof. split; intros [H1 H2 H3 H4 H5 H6 H7 H8 H9]; by constructor. Qed.

Lemma credit_off_idem h : credit_enabled_ h = false -> credit_off h = h.
Proof. destruct h. simpl. by intros ->. Qed.

Lemma report_same f h : same_charge h (report_unknown f h).
Proof. by constructor. Qed.

Lemma disable_handlers h r : delete_handlers_ (DisableCredit h r).2 = delete_handlers_ r.
Proof. unfold DisableCredit. by destruct (negb _). Qed.

Section round.
Variables (poll : nat -> FutureStatus) (now : nat -> Z).

(** What a round leaves of a handler: nothing once its deletion has ended,
    the handler without credit when its end will never be known or its
    deadline has passed, the handler itself otherwise. *)
Definition outcome (h : DeleteHandler) : option DeleteHandler :=
  match fut_ h with
  | None => Some (credit_off (report_unknown None h))
  | Some f =>
      match poll f with
      | fs_ready (Some _) => None
      | fs_ready None => Some (credit_off (report_unknown None h))
      | fs_deferred => Some (credit_off (report_unknown (Some f) h))
      | fs_timeout => Some (if credit_deadline_ h <=? now f then credit_off h else h)
      end
  end.

Lemma outcome_same h h' : outcome h = Some h' -> same_charge h h'.
Proof.
  unfold outcome. repeat case_match; intros [= <-]; try by constructor. 
Qed.

Lemma disable_reported f h hs r :
  accounts (h :: hs) r ->
  exists r', DisableCredit (report_unknown f h) r = (credit_off (report_unknown f h), r') /\
    accounts (credit_off (report_unknown f h) :: hs) r'.
Proof.
  intros H. eapply accounts_same in H; [|apply (report_same f h)|done].
  destruct (disable_accounts _ _ _ H) as [E HA]. destruct (DisableCredit _ r) as [h' r']. simpl in *. subst. by eexists.
Qed.

Lemma handle_one_ok h hs r :
  accounts (h :: hs) r ->
  (handle_one poll now h r).1 = outcome h /\ accounts (option_list (outcome h) ++ hs) (handle_one poll now h r).2.
Proof.
  intros H. unfold handle_one, outcome. destruct (fut_ h) as [f|].
  2: { destruct (disable_reported None h hs r H) as (r' & -> & ?). done. }
  destruct (poll f) as [[ec|]| |].
  - split; [done|]. by apply release_accounts.
  - destruct (disable_reported None h hs r H) as (r' & -> & ?). done.
  - destruct (credit_enabled_ h) eqn:Ec; simpl.
    + destruct (_ <=? _); [|done]. destruct (disable_accounts _ _ _ H) as [E HA].
      destruct (DisableCredit h r). simpl in *. by subst.
    + destruct (_ <=? _); [rewrite credit_off_idem by done|]; done.
  - destruct (disable_reported (Some f) h hs r H) as (r' & -> & ?). done.
Qed.

Lemma handle_all_ok hs rest r :
  accounts (hs ++ rest) r ->
  (handle_all poll now hs r).1 = omap outcome hs /\ accounts (omap outcome hs ++ rest) (handle_all poll now hs r).2.
Proof.
  revert rest r. induction hs as [|h hs IH]; intros rest r H; [done|]. cbn [handle_all omap list_omap].
  destruct (handle_one_ok h (hs ++ rest) r H) as [E HA]. destruct (handle_one poll now h r) as [h' r'].
  simpl in E, HA. subst h'.
  assert (HA' : accounts (hs ++ (option_list (outcome h) ++ rest)) r').
  { eapply accounts_perm, HA. by rewrite !(assoc_L (++)), (Permutation_app_comm hs). }
  destruct (IH _ _ HA') as [E1 E2]. destruct (handle_all poll now hs r') as [hs' r'']. simpl in *. subst hs'.
  split; [by destruct (outcome h)|]. eapply accounts_perm, E2.
  destruct (outcome h); simpl; [|done]. by rewrite <-Permutation_middle.
Qed.

Lemma within_outcome cfg hs rest :
  Forall handler_wf hs -> within cfg (hs ++ rest) -> within cfg (omap outcome hs ++ rest).
Proof.
  revert rest. induction hs as [|h hs IH]; intros rest Hwf H; [done|]. apply Forall_cons in Hwf as [Hh Hwf].
  cbn [omap list_omap]. destruct (outcome h) as [h'|] eqn:E.
  - eapply within_perm; [symmetry; apply Permutation_middle|]. apply IH; [done|].
    eapply within_perm; [apply Permutation_middle|]. eapply within_same, H. by apply outcome_same.
  - apply IH; [done|]. by eapply within_tail.
Qed.

Lemma HandleDelRes_spec r :
  accounts (delete_handlers_ r) r ->
  delete_handlers_ (HandleDelRes poll now r) = omap outcome (delete_handlers_ r) /\
  accounts (omap outcome (delete_handlers_ r)) (HandleDelRes poll now r).
Proof.
  intros H. unfold HandleDelRes. destruct (handle_all_ok (delete_handlers_ r) [] r) as [E HA]; [by rewrite app_nil_r|].
  rewrite app_nil_r in HA. destruct (handle_all poll now _ r) as [hs r']. simpl in *. subst hs.
  split; [done|]. by apply accounts_with_handlers.
Qed.

Lemma HandleDelRes_ledger cfg r : ledger_ok cfg r -> ledger_ok cfg (HandleDelRes poll now r).
Proof.
  intros [HA HW]. destruct (HandleDelRes_spec r HA) as [E HA']. split; rewrite E; [done|].
  rewrite <-(app_nil_r (omap _ _)). apply within_outcome; [apply HA|by rewrite app_nil_r].
Qed.

End round.

(** ** The admission of a request *)

Lemma not_over limit used more : over_limit limit used more = false -> used < limit /\ used + more <= limit.
Proof.
  unfold over_limit. intros [H1%Z.leb_gt H2%Z.ltb_ge]%orb_false_iff. lia.
Qed.

Lemma check_pending_ok seen pending l :
  check_pending seen pending l = true -> NoDup l /\ forall p, p ∈ l -> p ∉ seen /\ p ∉ pending.
Proof.
  revert seen. induction l as [|p l IH]; intros seen; simpl; [split; [constructor|set_solver]|].
  case_bool_decide as H1; [done|]. case_bool_decide as H2; [done|]. intros H. apply IH in H as [Hn Hl].
  split; [constructor; [intros Hp; apply Hl in Hp; set_solver|done]|].
  intros q [->|Hq]%elem_of_cons; [done|]. apply Hl in Hq. set_solver.
Qed.

Lemma check_pending_complete seen pending l :
  NoDup l -> (forall p, p ∈ l -> p ∉ seen /\ p ∉ pending) -> check_pending seen pending l = true.
Proof.
  intros Hn. revert seen. induction Hn as [|p l Hp Hn IH]; intros seen H; simpl; [done|].
  destruct (H p) as [H1 H2]; [left|]. rewrite !bool_decide_eq_false_2 by done. apply IH.
  intros q Hq. destruct (H q) as [? ?]; [by right|]. split; [set_solver|done].
Qed.

(** The sums a request comes with, as [FilterLocID] computes them. *)
Record request_sums_ok (bytes counts : ByType) (predicted : Z) : Prop := {
  rs_bytes_len : length bytes = storage_type_COUNT;
  rs_counts_len : length counts = storage_type_COUNT;
  rs_bytes : Forall (fun z => 0 <= z) bytes;
  rs_counts : Forall (fun z => 0 <= z) counts;
  rs_predicted : 0 <= predicted <= zsum (fun z => z) counts;
}.

Section admission.
Context {E : Type} (SubmitAsync : CacheLocationDelRequest -> Z -> E -> option (option nat) * E).
Variables (cfg : CacheReclaimerAsyncDeleteConfig).

Lemma submit_within h hs r :
  limits_ok cfg -> handler_wf h -> accounts hs r -> within cfg hs ->
  (forall t, type_admits cfg (pending_quota_of (ins_gr_ h) t r) (count_of t h) (bytes_of t h) = true) ->
  over_limit (pending_bytes_limit cfg) (pending_delete_bytes_ r) (foldl SaturatingAdd 0 (bytes_by_type_ h)) = false ->
  pending_delete_handler_count_ r < pending_delete_handler_limit cfg ->
  within cfg (h :: hs).
Proof.
  intros [L1 L2 L3 L4] Hh [H1 _ _ H4 _ _ _ H8 H9] [W1 W2 W3 W4] Ht Hb Hn.
  assert (Hc : forall t, zsum (of_group (ins_gr_ h) (count_of t)) hs + count_of t h <= pending_location_limit_per_group_type cfg
             /\ zsum (of_group (ins_gr_ h) (bytes_of t)) hs + bytes_of t h <= pending_bytes_limit_per_group_type cfg).
  { intros t. specialize (Ht t). unfold type_admits in Ht. apply orb_true_iff in Ht as [[E1%Z.eqb_eq E2%Z.eqb_eq]%andb_true_iff|Ht].
    - rewrite E1, E2, !Z.add_0_r. split; [apply W1|apply W2].
    - apply negb_true_iff, orb_false_iff in Ht as [O1%not_over O2%not_over]. rewrite H4 in O1, O2. simpl in *. lia. }
  constructor.
  - intros g t. destruct (decide (g = ins_gr_ h)) as [->|Hg]; [rewrite head_group by done|rewrite other_group by done; apply W1].
    specialize (Hc t). lia.
  - intros g t. destruct (decide (g = ins_gr_ h)) as [->|Hg]; [rewrite head_group by done|rewrite other_group by done; apply W2].
    specialize (Hc t). lia.
  - rewrite zsum_cons. apply not_over in Hb. rewrite H9 in Hb.
    assert (0 <= zsum handler_bytes hs). { eapply sum_nonneg, H1. intros k Hk. apply zsum_nonneg, Forall_forall, Hk. }
    pose proof (sat_adds_ge (bytes_by_type_ h) 0 (hw_bytes _ Hh) ltac:(done)). unfold handler_bytes at 1. lia.
  - cbn [length]. lia.
Qed.

(** A refused request changes nothing; an accepted one adds its handler, whose
    locations were not pending. *)
Lemma SubmitDelReq_spec active ins_id ins_gr req delay bytes counts predicted at_ r e ok r' e' :
  limits_ok cfg -> ledger_ok cfg r -> request_sums_ok bytes counts predicted ->
  SubmitDelReq SubmitAsync active cfg ins_id ins_gr req delay bytes counts predicted at_ r e = (ok, r', e') ->
  (ok = false /\ r' = r) \/
  (ok = true /\ exists h, r' = AddDeleteHandlerState h (with_handlers (h :: delete_handlers_ r) r) /\
     ins_gr_ h = ins_gr /\ hd_pending_locations_ h = request_locations ins_id (request_rows req) /\
     bytes_by_type_ h = bytes /\ location_counts_by_type_ h = counts /\ predicted_deleted_keys_ h = predicted /\
     credit_enabled_ h = true /\ handler_wf h /\
     NoDup (hd_pending_locations_ h) /\ (forall p, p ∈ hd_pending_locations_ h -> p ∉ pending_locations_ r) /\
     within cfg (h :: delete_handlers_ r)).
Proof.
  intros Hl [HA HW] Hs. unfold SubmitDelReq. destruct active; cbn [negb]; [|by intros [= <- <- <-]; left].
  destruct (negb (_ =? _)%nat); [by intros [= <- <- <-]; left|].
  destruct (check_pending _ _ _) eqn:Ec; cbn [negb]; [|by intros [= <- <- <-]; left].
  destruct (_ || _); [by intros [= <- <- <-]; left|].
  destruct (_ <=? _) eqn:En; [by intros [= <- <- <-]; left|].
  destruct (forallb _ _) eqn:Et; cbn [negb]; [|by intros [= <- <- <-]; left].
  destruct (over_limit _ _ _) eqn:Eo; [by intros [= <- <- <-]; left|].
  destruct (SubmitAsync _ _ _) as [[fut|] e1]; [|by intros [= <- <- <-]; left].
  intros [= <- <- <-]. right. split; [done|]. eexists. split; [reflexivity|]. simpl.
  apply check_pending_ok in Ec as [Hn Hf].
  assert (Hwf : handler_wf (mkHandler ins_id ins_gr (foldl (λ n _, SaturatingAdd n 1) 0 (request_rows req))
     (foldl (λ n kl, SaturatingAdd n (Z.of_nat (length kl.2))) 0 (request_rows req)) (request_locations ins_id (request_rows req))
     bytes counts predicted at_ (at_ + Z.max delay 0 + inflight_delete_timeout_ms cfg * 1000) true false fut)).
  { destruct Hs. by constructor. }
  split_and!; try done; [intros p Hp; by apply Hf|].
  eapply submit_within; [done|done|exact HA|exact HW| |exact Eo|simpl; by apply Z.leb_gt].
  intros t. rewrite forallb_forall in Et. apply Et, list_elem_of_In, all_types_complete.
Qed.

Lemma add_handlers h r : delete_handlers_ (AddDeleteHandlerState h r) = delete_handlers_ r.
Proof. done. Qed.

Lemma SubmitDelReq_ledger active ins_id ins_gr req delay bytes counts predicted at_ r e ok r' e' :
  limits_ok cfg -> ledger_ok cfg r -> request_sums_ok bytes counts predicted ->
  SubmitDelReq SubmitAsync active cfg ins_id ins_gr req delay bytes counts predicted at_ r e = (ok, r', e') ->
  ledger_ok cfg r'.
Proof.
  intros Hl HL Hs Hrun. eapply SubmitDelReq_spec in Hrun as [[_ ->]|(_ & h & -> & _ & _ & _ & _ & _ & Hc & Hwf & Hn & Hf & Hw)]; try done.
  split; rewrite add_handlers; [|exact Hw]. apply add_accounts with cfg; try done. apply accounts_with_handlers, HL.
Qed.

End admission.

Lemma new_ledger cfg : limits_ok cfg -> ledger_ok cfg new_reclaimer.
Proof.
  intros [L1 L2 L3 L4]. split.
  - constructor; try done; [constructor..|]. intros g t. by destruct (credited_type t), t.
  - constructor; intros; unfold zsum; simpl; lia.
Qed.

Lemma nodup_bind_inj {A B} (f : A -> list B) l a b p :
  NoDup (l ≫= f) -> a ∈ l -> b ∈ l -> p ∈ f a -> p ∈ f b -> a = b.
Proof.
  induction l as [|c l IH]; cbn; [set_solver|]. intros (_ & Hd & Hn)%NoDup_app Ha Hb Hpa Hpb.
  assert (Hout : forall x, x ∈ l -> p ∈ f x -> p ∈ f c -> False).
  { intros x Hx Hpx Hpc. apply (Hd p Hpc), list_elem_of_bind. by exists x. }
  apply elem_of_cons in Ha as [->|Ha]; apply elem_of_cons in Hb as [->|Hb]; [done| | |by apply IH]; by exfalso; eapply Hout.
Qed.

(** C23: A round of results is exact. Each deletion in flight is kept or dropped
    by its own future alone: dropped when it has ended, whatever its result;
    kept without credit when its end will never be known or its deadline has
    passed; kept unchanged otherwise. The locations of the dropped deletions
    may be deleted again, those of the others may not, and the ledger is that
    of the deletions kept. *)
Theorem HandleDelRes_exact poll now cfg r :
  ledger_ok cfg r ->
  let r' := HandleDelRes poll now r in
  delete_handlers_ r' = omap (outcome poll now) (delete_handlers_ r) /\
  (forall h p, h ∈ delete_handlers_ r -> p ∈ hd_pending_locations_ h ->
     (p ∈ pending_locations_ r' <-> outcome poll now h <> None)) /\
  (forall g t, at_type t (GetCreditedDeleteBytes g r')
     = if credited_type t then zsum (of_group g (credit (bytes_of t))) (omap (outcome poll now) (delete_handlers_ r)) else 0) /\
  ledger_ok cfg r'.
Proof.
  intros HL. pose proof (HandleDelRes_ledger poll now cfg r HL) as HL'. destruct HL as [HA HW].
  destruct (HandleDelRes_spec poll now r HA) as [E HA']. split_and!; [done| |apply HA'|done].
  intros h p Hh Hp. rewrite (ac_locs _ _ HA'), elem_of_list_to_set, list_elem_of_bind. split.
  - intros (k & Hpk & Hk) Hnone. apply list_elem_of_omap in Hk as (h0 & Hh0 & Ek).
    assert (h0 = h) as -> by (eapply nodup_bind_inj; [apply HA|done|done| |exact Hp]; by rewrite <-(sc_locations _ _ (outcome_same _ _ _ _ Ek))).
    congruence.
  - destruct (outcome poll now h) as [k|] eqn:Ek; [intros _|done]. exists k. split; [|apply list_elem_of_omap; by exists h].
    by rewrite (sc_locations _ _ (outcome_same _ _ _ _ Ek)).
Qed.

(** Two deletions in flight: the first has ended, the second has missed its
    deadline. *)
Definition demo_submit (fut : nat) (k : KeyType) (r : Reclaimer) : Reclaimer :=
  (SubmitDelReq (fun _ _ e => (Some (Some fut), e)) true default_async_config "inst" "group"
     (mkDelRequest "inst" [k] [["loc"]]) 0 [0; 10; 0; 0; 0; 0; 0; 0; 0; 0] [0; 1; 0; 0; 0; 0; 0; 0; 0; 0] 1 0 r tt).1.2.

Lemma default_limits : limits_ok default_async_config.
Proof. constructor; split; by vm_compute. Qed.

Lemma demo_submit_ledger fut k r : ledger_ok default_async_config r -> ledger_ok default_async_config (demo_submit fut k r).
Proof.
  intros H. unfold demo_submit. destruct (SubmitDelReq _ _ _ _ _ _ _ _ _ _ _ _ _) as [[ok r'] e'] eqn:E. cbn [fst snd].
  eapply SubmitDelReq_ledger, E; [apply default_limits|done|]. constructor; [done|done|by repeat constructor|by repeat constructor|done].
Qed.

Definition demo_in_flight : Reclaimer := demo_submit 2 8 (demo_submit 1 7 new_reclaimer).
Definition demo_poll (f : nat) : FutureStatus := if (f =? 1)%nat then fs_ready (Some EC_NOENT) else fs_timeout.

Lemma HandleDelRes_exact_witness :
  let r' := HandleDelRes demo_poll (fun _ => 60000000) demo_in_flight in
  hd_pending_locations_ <$> delete_handlers_ r' = [[("inst", 8, "loc")]] /\ credit_enabled_ <$> delete_handlers_ r' = [false] /\
  ledger_ok default_async_config r'.
Proof.
  destruct (HandleDelRes_exact demo_poll (fun _ => 60000000) default_async_config demo_in_flight) as (H & _ & _ & HL).
  - apply demo_submit_ledger, demo_submit_ledger, new_ledger, default_limits.
  - split_and!; [rewrite H; by vm_compute|rewrite H; by vm_compute|exact HL].
Defined.
