(* ===== verification/ReclaimFilter.v ===== *)
(** * ReclaimFilter: which locations the reclaimer evicts

    The selection steps of [manager/cache_reclaimer.cc]: the batch of the
    least recently used keys among the sampled ones ([MakeBatchByLRUWithSize])
    and, for the blocks of the batch, the locations to delete ([FilterLocID]):
    those whose storage type is over its water level or, when only the group
    is, all but the cold copies of a tiered block, within the limits of the
    ledger of pending deletions. The ages, which only feed gauges, are left
    out. *)

From stdpp Require Import base gmap sets list strings sorting.
From Stdlib Require Import ZArith Lia.
From S2P Require Import Prelude StandardUri MetaTypes StorageUsage MetaBackend DummyBackend Registry WriteFilter ReclaimLedger.

Local Open Scope Z_scope.

(** ** Water levels *)

Record WaterLevelExceed := mkWaterLevel {
  group_bytes_water_level_exceed_ : bool;
  group_keys_water_level_exceed_ : bool;
  water_level_exceed_by_type_ : list bool;
}.

Definition no_water_level : WaterLevelExceed := mkWaterLevel false false (replicate storage_type_COUNT false).

Definition GetWaterLevelExceedByType (t : DataStorageType) (w : WaterLevelExceed) : bool :=
  let idx := ToIndex (ToBaseType t) in
  if (length (water_level_exceed_by_type_ w) <=? idx)%nat then false else default false (water_level_exceed_by_type_ w !! idx).

Definition SetWaterLevelExceedByType (t : DataStorageType) (value : bool) (w : WaterLevelExceed) : WaterLevelExceed :=
  let idx := ToIndex (ToBaseType t) in
  if (length (water_level_exceed_by_type_ w) <=? idx)%nat then w
  else mkWaterLevel (group_bytes_water_level_exceed_ w) (group_keys_water_level_exceed_ w)
         (<[idx := value]> (water_level_exceed_by_type_ w)).

Definition CheckStorageTypeWaterLevelExceed (w : WaterLevelExceed) : bool :=
  existsb (fun tb : DataStorageType * bool =>
      negb (bool_decide (tb.1 = DATA_STORAGE_TYPE_UNKNOWN) || bool_decide (tb.1 = DATA_STORAGE_TYPE_VCNS_HF3FS)) && tb.2)
    (zip all_storage_types (water_level_exceed_by_type_ w)).

Definition CheckGroupWaterLevelExceed (w : WaterLevelExceed) : bool :=
  (group_bytes_water_level_exceed_ w || group_keys_water_level_exceed_ w) || CheckStorageTypeWaterLevelExceed w.

Definition IsTriggerReclaiming (w : option WaterLevelExceed) : bool :=
  match w with None => false | Some w => CheckGroupWaterLevelExceed w end.

(** ** The batch of least recently used keys *)

(** The properties of a key as the indexer returns them. *)
Definition lru_timestamp (properties : gmap string string) : Z :=
  match properties !! PROPERTY_LRU_TIME with
  | Some text => default 0 (StrToInt64 text)
  | None => 0
  end.

(** Inserts keys into [deduped_batch] until it has [limit] elements. *)
Fixpoint fill_batch (limit : nat) (rows : list (KeyType * Z)) (batch : gset KeyType) : gset KeyType :=
  match rows with
  | [] => batch
  | (k, _) :: rows =>
      if bool_decide (k ∈ batch) then fill_batch limit rows batch
      else let batch := {[k]} ∪ batch in
           if (size batch =? limit)%nat then batch else fill_batch limit rows batch
  end.

Section lru.
(** [std::sort] by timestamp, which may order equal timestamps as it likes. *)
Variable sort_by_time : list (KeyType * Z) -> list (KeyType * Z).

Definition MakeBatchByLRUWithSize (sampled_keys : list KeyType) (property_maps : list (gmap string string))
    (batching_size : nat) : list KeyType :=
  if (batching_size =? 0)%nat then []
  else
    let rows := zip sampled_keys (lru_timestamp <$> property_maps) in
    let rows := if (batching_size <? length sampled_keys)%nat then sort_by_time rows else rows in
    elements (fill_batch (Nat.min batching_size (length sampled_keys)) rows ∅).

End lru.

(** ** The locations of a block *)

(** What the filter asks of other components: the migration strategies' target
    storages, the copies in progress, the open write sessions (each [None] when
    the component is absent). *)
Record FilterEnv := mkFilterEnv {
  fe_cfg : CacheReclaimerAsyncDeleteConfig;
  fe_ins_id : string;
  fe_ins_gr : string;
  fe_strategies : option (list (option string));
  fe_active_copy : option (KeyType -> LocationId -> bool);
  fe_in_session : option (LocationId -> bool);
}.

Definition cold_storages (env : FilterEnv) (in_zone : bool) : list string :=
  if in_zone then []
  else filter (fun n => n <> "") (omap (fun s => s) (default [] (fe_strategies env))).

Definition loc_on_cold_storage (cold : list string) (l : CacheLocation) : bool :=
  match location_specs l with
  | [] => false
  | s :: _ => existsb (fun n => bool_decide (hostname_ (FromUri (chars_of (uri s))) = chars_of n)) cold
  end.

Section filter.
Variables (env : FilterEnv) (r : Reclaimer) (w : WaterLevelExceed).

Definition is_pending_location (k : KeyType) (lid : LocationId) : bool :=
  bool_decide ((fe_ins_id env, k, lid) ∈ pending_locations_ r).

Definition in_zone : bool := CheckStorageTypeWaterLevelExceed w.
Definition cold : list string := cold_storages env in_zone.

Definition is_serving (l : CacheLocation) : bool := bool_decide (status l = CLS_SERVING).

Definition is_active_copy_target (k : KeyType) (l : CacheLocation) : bool :=
  bool_decide (status l = CLS_WRITING)
  && match fe_active_copy env with None => false | Some has => has k (id l) end.

Definition is_orphaned_writing (k : KeyType) (l : CacheLocation) : bool :=
  bool_decide (status l = CLS_WRITING)
  && match fe_in_session env with None => false | Some has => negb (has (id l)) end
  && negb (is_active_copy_target k l).

(** The pointers of a block's map that are not null, in the map's order. *)
Definition block_locations (m : CacheLocationMap) : list CacheLocation := omap (fun kv => kv.2) (map_to_list m).

Definition cold_locations_cover_specs (k : KeyType) (locs : list CacheLocation) (source : CacheLocation) : bool :=
  negb (bool_decide (location_specs source = []))
  && forallb (fun s => existsb (fun l =>
         is_serving l && negb (IsEventReportStorageType (type l)) && negb (is_pending_location k (id l))
         && loc_on_cold_storage cold l
         && existsb (fun c => bool_decide (name c = name s)) (location_specs l)) locs) (location_specs source).

(** Neither reporter-owned nor already being deleted. *)
Definition considered (k : KeyType) (l : CacheLocation) : bool :=
  negb (IsEventReportStorageType (type l)) && negb (is_pending_location k (id l)).

Definition keep_cold_evict_hot (k : KeyType) (locs : list CacheLocation) : bool :=
  negb in_zone && negb (bool_decide (cold = []))
  && existsb (fun l => considered k l && (is_serving l || is_orphaned_writing k l) && (is_serving l && loc_on_cold_storage cold l)) locs
  && existsb (fun l => considered k l && (is_serving l || is_orphaned_writing k l)
                       && negb (is_serving l && loc_on_cold_storage cold l) && is_serving l) locs.

(** The candidates the water level selects, before any limit. *)
Definition selected_by_water_level (k : KeyType) (locs : list CacheLocation) (l : CacheLocation) : bool :=
  considered k l && (is_serving l || is_orphaned_writing k l)
  && (if in_zone then GetWaterLevelExceedByType (type l) w
      else if keep_cold_evict_hot k locs && is_serving l && loc_on_cold_storage cold l then false
      else negb (keep_cold_evict_hot k locs && is_serving l && negb (cold_locations_cover_specs k locs l))).

(** The sums of what the request has selected so far. *)
Record Selected := mkSelected { sel_bytes : ByType; sel_counts : ByType; sel_total : Z }.

(** The limits, for one location; [None] when one of them is reached. *)
Definition take_location (l : CacheLocation) (s : Selected) : option Selected :=
  let t := ToBaseType (type l) in
  let q := pending_quota_of (fe_ins_gr env) t r in
  let limit := pending_location_limit_per_group_type (fe_cfg env) in
  let location_bytes := GetLocationBytes l in
  let location_limit_reached :=
    (limit <=? location_count q) || (limit - Z.min (location_count q) limit <=? at_type t (sel_counts s)) in
  let type_bytes_limit_reached :=
    over_limit (pending_bytes_limit_per_group_type (fe_cfg env)) (SaturatingAdd (quota_bytes q) (at_type t (sel_bytes s))) location_bytes in
  let process_bytes_limit_reached :=
    over_limit (pending_bytes_limit (fe_cfg env)) (SaturatingAdd (pending_delete_bytes_ r) (sel_total s)) location_bytes in
  if location_limit_reached || type_bytes_limit_reached || process_bytes_limit_reached then None
  else Some (mkSelected (<[ToIndex t := SaturatingAdd (at_type t (sel_bytes s)) location_bytes]> (sel_bytes s))
               (<[ToIndex t := SaturatingAdd (at_type t (sel_counts s)) 1]> (sel_counts s))
               (SaturatingAdd (sel_total s) location_bytes)).

Fixpoint take_locations (k : KeyType) (all locs : list CacheLocation) (s : Selected) : list LocationId * Selected :=
  match locs with
  | [] => ([], s)
  | l :: locs =>
      if selected_by_water_level k all l then
        match take_location l s with
        | None => take_locations k all locs s
        | Some s => let '(ids, s) := take_locations k all locs s in (id l :: ids, s)
        end
      else take_locations k all locs s
  end.

(** The blocks: their selected locations, the number of keys the deletion
    removes altogether, and the sums. *)
Fixpoint filter_rows (rows : list (KeyType * CacheLocationMap)) (predicted : Z) (s : Selected)
    : list (list LocationId) * Z * Selected :=
  match rows with
  | [] => ([], predicted, s)
  | (k, m) :: rows =>
      let locs := block_locations m in
      let '(ids, s) := take_locations k locs locs s in
      let predicted := if negb (bool_decide (ids = [])) && (length ids =? length locs)%nat
                       then SaturatingAdd predicted 1 else predicted in
      let '(out, predicted, s) := filter_rows rows predicted s in
      (ids :: out, predicted, s)
  end.

Record FilterResult := mkFiltered {
  out_loc_ids : list (list LocationId);
  out_bytes_by_type : ByType;
  out_location_counts_by_type : ByType;
  out_predicted_deleted_keys : Z;
}.

(** [loc_maps] is what [BatchGetLocation] answers for the batch, [None] when
    there is no searcher or the read fails. *)
Definition FilterLocID (batch : list KeyType) (loc_maps : option (list CacheLocationMap)) : option FilterResult :=
  if (pending_delete_handler_limit (fe_cfg env) <=? pending_delete_handler_count_ r)
     || (pending_bytes_limit (fe_cfg env) <=? pending_delete_bytes_ r)
  then Some (mkFiltered (replicate (length batch) []) by_type_zero by_type_zero 0)
  else
    maps ← loc_maps;
    if negb (length maps =? length batch)%nat then None
    else let '(out, predicted, s) := filter_rows (zip batch maps) 0 (mkSelected by_type_zero by_type_zero 0) in
         Some (mkFiltered out (sel_bytes s) (sel_counts s) predicted).

End filter.

(** ** The batch *)

Lemma fill_batch_spec limit rows batch :
  (size batch < limit)%nat ->
  exists seen rest, rows = seen ++ rest /\ fill_batch limit rows batch = batch ∪ list_to_set seen.*1 /\
    (size (fill_batch limit rows batch) <= limit)%nat /\ (rest = [] \/ size (fill_batch limit rows batch) = limit).
Proof.
  revert batch. induction rows as [|[k tp] rows IH]; intros batch Hs; cbn [fill_batch].
  { exists [], []. split_and!; [done|set_solver|lia|by left]. }
  case_bool_decide as Hk.
  - destruct (IH batch Hs) as (seen & rest & -> & E & Hle & Hr). exists ((k, tp) :: seen), rest.
    split_and!; [done| |done|done]. rewrite E. cbn. set_solver.
  - assert (Hsz : size ({[k]} ∪ batch) = S (size batch)) by (rewrite size_union, size_singleton by set_solver; lia).
    destruct (Nat.eqb_spec (size ({[k]} ∪ batch)) limit) as [E|Hne].
    + exists [(k, tp)], rows. split_and!; [done|cbn; set_solver|lia|by right].
    + destruct (IH ({[k]} ∪ batch)) as (seen & rest & -> & E & Hle & Hr); [lia|]. exists ((k, tp) :: seen), rest.
      split_and!; [done| |done|done]. rewrite E. cbn. set_solver.
Qed.

(** What the standard promises of [std::sort]. *)
Definition sorts_by_time (sort_by_time : list (KeyType * Z) -> list (KeyType * Z)) : Prop :=
  forall l, sort_by_time l ≡ₚ l /\ StronglySorted (fun a b => a.2 <= b.2) (sort_by_time l).

Lemma sorted_app_le {A} (R : A -> A -> Prop) l1 l2 a b : StronglySorted R (l1 ++ l2) -> a ∈ l1 -> b ∈ l2 -> R a b.
Proof.
  induction l1 as [|c l1 IH]; [set_solver|]. simpl. intros [Hs Hf]%StronglySorted_inv [->|Ha]%elem_of_cons Hb.
  - eapply Forall_forall in Hf; [exact Hf|set_solver].
  - by apply IH.
Qed.

(** The batch of the least recently used keys is exact: it has no
    duplicate, its keys were sampled, it has as many keys as the limit and the
    number of distinct sampled keys permit, and a sampled key it leaves out was
    never read with a timestamp older than one read for every key it takes. *)
Theorem MakeBatch_least_recent sort_by_time keys maps n batch :
  sorts_by_time sort_by_time -> length maps = length keys ->
  MakeBatchByLRUWithSize sort_by_time keys maps n = batch ->
  NoDup batch /\ (forall k, k ∈ batch -> k ∈ keys) /\
  length batch = Nat.min n (size (list_to_set keys : gset KeyType)) /\
  forall k k' i ps, k ∈ batch -> k' ∉ batch -> keys !! i = Some k' -> maps !! i = Some ps ->
    exists j qs, keys !! j = Some k /\ maps !! j = Some qs /\ lru_timestamp qs <= lru_timestamp ps.
Proof.
  intros Hsort Hlen <-. unfold MakeBatchByLRUWithSize. destruct (Nat.eqb_spec n 0) as [->|Hn].
  { split_and!; [constructor|set_solver|done|set_solver]. }
  set (rows0 := zip keys (lru_timestamp <$> maps)).
  assert (Hfst : rows0.*1 = keys) by (apply fst_zip; rewrite length_fmap; lia).
  set (rows := if (n <? length keys)%nat then sort_by_time rows0 else rows0).
  assert (Hss : (n < length keys)%nat -> StronglySorted (fun a b => a.2 <= b.2) rows).
  { intros Hlt. unfold rows. rewrite (proj2 (Nat.ltb_lt _ _) Hlt). apply Hsort. }
  assert (Hp : rows ≡ₚ rows0) by (unfold rows; case_match; [apply Hsort|done]).
  destruct keys as [|k0 keys0].
  { replace rows with (@nil (KeyType * Z)) by (symmetry; by apply Permutation_nil). cbn [fill_batch list_to_set].
    rewrite elements_empty, size_empty, Nat.min_0_r. split_and!; [constructor|set_solver|done|set_solver]. }
  assert (Hne : (0 < length (k0 :: keys0))%nat) by (simpl; lia).
  remember (k0 :: keys0) as keys eqn:Ekeys. clear Ekeys k0 keys0. set (limit := Nat.min n (length keys)).
  destruct (fill_batch_spec limit rows ∅) as (seen & rest & Hrows & E & Hle & Hr).
  { rewrite size_empty. unfold limit. lia. }
  assert (Hset : list_to_set keys = (list_to_set rows.*1 : gset KeyType)).
  { apply list_to_set_perm_L. by rewrite Hp, Hfst. }
  rewrite (left_id_L ∅ _) in E.
  assert (Hall : list_to_set keys = (list_to_set seen.*1 ∪ list_to_set rest.*1 : gset KeyType)).
  { by rewrite Hset, Hrows, fmap_app, list_to_set_app_L. }
  pose proof (size_list_to_set_le keys) as Hkeys.
  split_and!.
  - apply NoDup_elements.
  - intros k Hk%elem_of_elements. rewrite E in Hk. apply (elem_of_list_to_set (C:=gset KeyType)). rewrite Hall. set_solver.
  - change (length (elements (fill_batch limit rows ∅))) with (size (fill_batch limit rows ∅)).
    destruct Hr as [->|Hr].
    + rewrite E, Hall. cbn [fmap list_fmap list_to_set]. rewrite (right_id_L ∅ (∪)). rewrite E in Hle. unfold limit in Hle. lia.
    + rewrite Hr. assert (limit <= size (list_to_set keys : gset KeyType))%nat; [|unfold limit in *; lia].
      rewrite <-Hr, E. apply subseteq_size. rewrite Hall. set_solver.
  - intros k k' i ps Hk%elem_of_elements Hk' Hi Hps. rewrite elem_of_elements, E in Hk'. rewrite E in Hk.
    assert (Hrow : (k', lru_timestamp ps) ∈ rows).
    { rewrite Hp. eapply list_elem_of_lookup_2 with i. unfold rows0. rewrite lookup_zip_with, Hi, list_lookup_fmap, Hps. done. }
    rewrite Hrows in Hrow. apply elem_of_app in Hrow as [Hrow|Hrow].
    { destruct Hk'. apply elem_of_list_to_set. by apply (list_elem_of_fmap_2 fst) in Hrow. }
    apply elem_of_list_to_set, list_elem_of_fmap in Hk as ([k1 tp] & ? & Hk). simpl in *; subst k1.
    assert (Hle' : tp <= lru_timestamp ps).
    { destruct (Nat.lt_ge_cases n (length keys)) as [Hlt|Hge].
      - specialize (Hss Hlt). rewrite Hrows in Hss. exact (sorted_app_le _ _ _ (k, tp) (k', lru_timestamp ps) Hss Hk Hrow).
      - destruct Hr as [->|Hr]; [by apply elem_of_nil in Hrow|]. destruct Hk'. rewrite E in Hr.
        assert (list_to_set seen.*1 = (list_to_set keys : gset KeyType)) as ->.
        { apply set_subseteq_size_eq; [rewrite Hall; set_solver|unfold limit in *; lia]. }
        apply elem_of_list_to_set. eapply list_elem_of_lookup_2, Hi. }
    assert (Hrow' : (k, tp) ∈ rows0) by (rewrite <-Hp, Hrows; set_solver).
    apply list_elem_of_lookup_1 in Hrow' as [j Hj]. unfold rows0 in Hj. apply lookup_zip_with_Some in Hj as (a & b & [= -> ->] & Ha & Hb).
    rewrite list_lookup_fmap in Hb. destruct (maps !! j) as [qs|] eqn:Eq; [|done]. simplify_eq/=. by exists j, qs.
Qed.

(** ** The selection respects the limits *)

Lemma SaturatingAdd_nonneg a b : 0 <= a -> 0 <= b -> 0 <= SaturatingAdd a b.
Proof. intros. unfold SaturatingAdd. case_match; [done|lia]. Qed.

Lemma GetParamAs_nonneg u key t : 0 <= t -> 0 <= GetParamAs_u64 key u t.
Proof.
  intros Ht. unfold GetParamAs_u64. destruct (om_find _ _ _) as [[|c v]|]; [done| |done].
  destruct (from_chars_unsigned _ _) as [[z [|]]|] eqn:E; [|done..]. apply from_chars_unsigned_bounds in E. lia.
Qed.

Lemma GetLocationBytes_nonneg l : 0 <= GetLocationBytes l.
Proof.
  unfold GetLocationBytes. set (f := fun (total : Z) (s : LocationSpec) => _).
  enough (G : forall specs total, 0 <= total -> 0 <= foldl f total specs) by (by apply G).
  induction specs as [|s specs IH]; intros total Ht; cbn [foldl]; [done|].
  apply IH. unfold f. case_match; [done|]. by apply SaturatingAdd_nonneg, GetParamAs_nonneg.
Qed.

Lemma zsum_insert (a : list Z) i x v :
  a !! i = Some x -> zsum (fun z => z) (<[i := v]> a) = zsum (fun z => z) a - x + v.
Proof.
  revert i. induction a as [|y a IH]; intros [|i] H; simplify_eq/=; rewrite !zsum_cons; [lia|].
  rewrite (IH i) by done. lia.
Qed.

Lemma zsum_insert_type (a : ByType) t v :
  length a = storage_type_COUNT -> zsum (fun z => z) (<[ToIndex t := v]> a) = zsum (fun z => z) a - at_type t a + v.
Proof.
  intros Ha. destruct (lookup_lt_is_Some_2 a (ToIndex t)) as [x Hx]; [rewrite Ha; apply ToIndex_lt|].
  rewrite (zsum_insert _ _ x) by done. unfold at_type. rewrite Hx. done.
Qed.

Lemma Forall_insert_nonneg (a : ByType) i v : Forall (fun z => 0 <= z) a -> 0 <= v -> Forall (fun z => 0 <= z) (<[i := v]> a).
Proof. intros. by apply Forall_insert. Qed.

Section limits.
Variables (env : FilterEnv) (r : Reclaimer) (w : WaterLevelExceed).
Hypothesis (Hl : limits_ok (fe_cfg env)) (HL : ledger_ok (fe_cfg env) r).

(** What the selection so far leaves room for; [n] locations are selected. *)
Record sel_ok (n : nat) (s : Selected) : Prop := {
  so_bytes_len : length (sel_bytes s) = storage_type_COUNT;
  so_counts_len : length (sel_counts s) = storage_type_COUNT;
  so_bytes : Forall (fun z => 0 <= z) (sel_bytes s);
  so_counts : Forall (fun z => 0 <= z) (sel_counts s);
  so_total : sel_total s = zsum (fun z => z) (sel_bytes s);
  so_number : zsum (fun z => z) (sel_counts s) = Z.of_nat n;
  so_room : forall t, location_count (pending_quota_of (fe_ins_gr env) t r) + at_type t (sel_counts s)
                        <= pending_location_limit_per_group_type (fe_cfg env)
                   /\ quota_bytes (pending_quota_of (fe_ins_gr env) t r) + at_type t (sel_bytes s)
                        <= pending_bytes_limit_per_group_type (fe_cfg env);
  so_process : pending_delete_bytes_ r + sel_total s <= pending_bytes_limit (fe_cfg env);
  so_strict : forall t, 0 < at_type t (sel_counts s) ->
                location_count (pending_quota_of (fe_ins_gr env) t r) < pending_location_limit_per_group_type (fe_cfg env)
             /\ quota_bytes (pending_quota_of (fe_ins_gr env) t r) < pending_bytes_limit_per_group_type (fe_cfg env)
             /\ pending_delete_bytes_ r < pending_bytes_limit (fe_cfg env);
  so_none : forall t, at_type t (sel_counts s) = 0 -> at_type t (sel_bytes s) = 0;
}.

Lemma ledger_nonneg t :
  0 <= location_count (pending_quota_of (fe_ins_gr env) t r) /\ 0 <= quota_bytes (pending_quota_of (fe_ins_gr env) t r)
  /\ 0 <= pending_delete_bytes_ r.
Proof.
  destruct HL as [[H1 _ _ H4 _ _ _ _ H9] _]. rewrite H4, H9. simpl. split_and!.
  - eapply sum_nonneg, H1. intros h Hh. by apply of_group_nonneg, count_of_nonneg.
  - eapply sum_nonneg, H1. intros h Hh. by apply of_group_nonneg, bytes_of_nonneg.
  - eapply sum_nonneg, H1. intros h Hh. apply zsum_nonneg, Forall_forall, Hh.
Qed.

Lemma sel_ok_start : sel_ok 0 (mkSelected by_type_zero by_type_zero 0).
Proof.
  pose proof HL as [[H1 _ _ H4 _ _ _ _ H9] [W1 W2 W3 W4]].
  constructor; try done; simpl.
  - apply Forall_replicate. lia.
  - apply Forall_replicate. lia.
  - intros t. rewrite H4, at_type_zero. simpl. specialize (W1 (fe_ins_gr env) t). specialize (W2 (fe_ins_gr env) t). lia.
  - rewrite H9. lia.
  - intros t. rewrite at_type_zero. lia.
Qed.

Lemma take_location_ok n l s s' : sel_ok n s -> take_location env r l s = Some s' -> sel_ok (S n) s'.
Proof.
  intros [B1 B2 B3 B4 B5 B6 B7 B8 B9 B10]. unfold take_location. set (t := ToBaseType (type l)).
  destruct (ledger_nonneg t) as (Q1 & Q2 & Q3). destruct Hl as [[L1 L1'] L2 L3 L4].
  destruct (B7 t) as [R1 R2]. pose proof (GetLocationBytes_nonneg l) as Hlb.
  pose proof (at_type_nonneg t _ B3). pose proof (at_type_nonneg t _ B4).
  assert (0 <= sel_total s) by (rewrite B5; apply zsum_nonneg; by apply Forall_forall).
  destruct (_ || _) eqn:Eo; [done|]. intros [= <-].
  apply orb_false_iff in Eo as [[[E1%Z.leb_gt E1'%Z.leb_gt]%orb_false_iff E2%not_over]%orb_false_iff E3%not_over].
  rewrite sat_add_exact in E2, E3 by lia.
  assert (Hat : forall t', at_type t' (<[ToIndex t := SaturatingAdd (at_type t (sel_bytes s)) (GetLocationBytes l)]> (sel_bytes s))
           = if bool_decide (t = t') then at_type t (sel_bytes s) + GetLocationBytes l else at_type t' (sel_bytes s)).
  { intros t'. rewrite at_type_insert by done. by rewrite sat_add_exact by lia. }
  assert (Hct : forall t', at_type t' (<[ToIndex t := SaturatingAdd (at_type t (sel_counts s)) 1]> (sel_counts s))
           = if bool_decide (t = t') then at_type t (sel_counts s) + 1 else at_type t' (sel_counts s)).
  { intros t'. rewrite at_type_insert by done. by rewrite sat_add_exact by lia. }
  constructor; cbn [sel_bytes sel_counts sel_total].
  - by rewrite length_insert.
  - by rewrite length_insert.
  - by apply Forall_insert_nonneg, SaturatingAdd_nonneg.
  - by apply Forall_insert_nonneg, SaturatingAdd_nonneg.
  - rewrite zsum_insert_type, !sat_add_exact by (done || lia). lia.
  - rewrite zsum_insert_type, !sat_add_exact by (done || lia). lia.
  - intros t'. rewrite Hat, Hct. destruct (B7 t'). case_bool_decide; [subst t'; lia|lia].
  - rewrite sat_add_exact by lia. lia.
  - intros t'. rewrite Hct. case_bool_decide as E; [subst t'; lia|apply B9].
  - intros t'. rewrite Hct, Hat. case_bool_decide as E; [lia|apply B10].
Qed.

Lemma take_locations_ok k all locs n s ids s' :
  sel_ok n s -> take_locations env r w k all locs s = (ids, s') -> sel_ok (n + length ids) s'.
Proof.
  revert n s ids. induction locs as [|l locs IH]; intros n s ids Hs; cbn [take_locations].
  { intros [= <- <-]. by rewrite Nat.add_0_r. }
  destruct (selected_by_water_level _ _ _ _ _ _); [|by apply IH].
  destruct (take_location _ _ _ _) as [s1|] eqn:E; [|by apply IH].
  destruct (take_locations _ _ _ _ _ _ s1) as [ids1 s2] eqn:E1. intros [= <- <-].
  replace (n + length (id l :: ids1))%nat with (S n + length ids1)%nat by (simpl; lia).
  eapply IH, E1. by eapply take_location_ok.
Qed.

Lemma SaturatingAdd_one_le a b : 0 <= a <= b -> 0 <= SaturatingAdd a 1 <= b + 1.
Proof. intros. unfold SaturatingAdd. destruct (Z.ltb_spec (u64_max - a) 1); unfold u64_max in *; lia. Qed.

Lemma filter_rows_ok rows n p s out p' s' :
  sel_ok n s -> 0 <= p <= Z.of_nat n -> filter_rows env r w rows p s = (out, p', s') ->
  sel_ok (n + length (concat out)) s' /\ 0 <= p' <= Z.of_nat (n + length (concat out)).
Proof.
  revert n p s out. induction rows as [|[k m] rows IH]; intros n p s out Hs Hp; cbn [filter_rows].
  { intros [= <- <- <-]. simpl. by rewrite Nat.add_0_r. }
  destruct (take_locations _ _ _ _ _ _ s) as [ids s1] eqn:E.
  destruct (filter_rows _ _ _ _ _ s1) as [[out1 p1] s2] eqn:E1. intros [= <- <- <-]. cbn [concat]. rewrite length_app, Nat.add_assoc.
  eapply IH; [by eapply take_locations_ok| |exact E1].
  destruct ids as [|i ids]; [rewrite bool_decide_eq_true_2 by done; simpl; lia|].
  rewrite bool_decide_eq_false_2 by done. cbn [negb andb].
  pose proof (SaturatingAdd_one_le p (Z.of_nat n) Hp). destruct (_ =? _)%nat; simpl length; lia.
Qed.

End limits.

(** ** What is selected *)

Lemma sublist_fmap {A B} (f : A -> B) (l1 l2 : list A) : sublist l1 l2 -> sublist (f <$> l1) (f <$> l2).
Proof. induction 1; simpl; by constructor. Qed.

Section selected.
Variables (env : FilterEnv) (r : Reclaimer) (w : WaterLevelExceed).

Lemma take_locations_selected k all locs s ids s' :
  take_locations env r w k all locs s = (ids, s') ->
  exists taken, sublist taken locs /\ ids = id <$> taken /\ Forall (fun l => selected_by_water_level env r w k all l = true) taken.
Proof.
  revert s ids. induction locs as [|l locs IH]; intros s ids; cbn [take_locations].
  { intros [= <- <-]. by exists []. }
  destruct (selected_by_water_level _ _ _ _ _ _) eqn:Es.
  - destruct (take_location _ _ _ _) as [s1|].
    + destruct (take_locations _ _ _ _ _ _ s1) as [ids1 s2] eqn:E1. intros [= <- <-].
      apply IH in E1 as (taken & Hs & -> & Hf). exists (l :: taken). split_and!; [by constructor|done|by constructor].
    + intros H. apply IH in H as (taken & Hs & -> & Hf). exists taken. split_and!; [by constructor|done|done].
  - intros H. apply IH in H as (taken & Hs & -> & Hf). exists taken. split_and!; [by constructor|done|done].
Qed.

(** The ids selected for a block are those of some of its locations. *)
Definition block_selection (k : KeyType) (m : CacheLocationMap) (ids : list LocationId) : Prop :=
  exists taken, sublist taken (block_locations m) /\ ids = id <$> taken /\
    Forall (fun l => selected_by_water_level env r w k (block_locations m) l = true) taken.

(** The keys whose locations are all selected. *)
Definition emptied (m : CacheLocationMap) (ids : list LocationId) : bool :=
  negb (bool_decide (ids = [])) && (length ids =? length (block_locations m))%nat.

Lemma filter_rows_selected rows p s out p' s' :
  filter_rows env r w rows p s = (out, p', s') ->
  Forall2 (fun km ids => block_selection km.1 km.2 ids) rows out /\
  p' = foldl (fun p mi => if emptied mi.1 mi.2 then SaturatingAdd p 1 else p) p (zip rows.*2 out).
Proof.
  revert p s out. induction rows as [|[k m] rows IH]; intros p s out; cbn [filter_rows].
  { intros [= <- <- <-]. by split. }
  destruct (take_locations _ _ _ _ _ _ s) as [ids s1] eqn:E.
  destruct (filter_rows _ _ _ _ _ s1) as [[out1 p1] s2] eqn:E1. intros [= <- <- <-].
  apply IH in E1 as [Hf ->]. split; [|done]. constructor; [|done]. by eapply take_locations_selected.
Qed.

Lemma FilterLocID_rows batch maps res :
  FilterLocID env r w batch (Some maps) = Some res ->
  out_loc_ids res = replicate (length batch) [] \/
  (length maps = length batch /\ Forall2 (fun km ids => block_selection km.1 km.2 ids) (zip batch maps) (out_loc_ids res)).
Proof.
  unfold FilterLocID. destruct (_ || _); [intros [= <-]; by left|]. simpl.
  destruct (Nat.eqb_spec (length maps) (length batch)) as [Hlen|]; [|done]. simpl.
  destruct (filter_rows _ _ _ _ _ _) as [[out p] s] eqn:E. intros [= <-]. right. split; [done|].
  simpl. by eapply filter_rows_selected.
Qed.

Lemma FilterLocID_block batch maps res i k m ids lid :
  FilterLocID env r w batch (Some maps) = Some res ->
  batch !! i = Some k -> maps !! i = Some m -> out_loc_ids res !! i = Some ids -> lid ∈ ids -> block_selection k m ids.
Proof.
  intros Hf Hk Hm Hi Hlid. apply FilterLocID_rows in Hf as [E|[Hlen Hf]].
  - rewrite E in Hi. apply lookup_replicate in Hi as [-> _]. set_solver.
  - eapply (Forall2_lookup_lr _ _ _ i (k, m) ids) in Hf; [done| |done]. by rewrite lookup_zip_with, Hk, Hm.
Qed.

End selected.

(** What makes a location a candidate, in the terms of the components asked. *)
Definition evictable (env : FilterEnv) (r : Reclaimer) (k : KeyType) (l : CacheLocation) : Prop :=
  IsEventReportStorageType (type l) = false /\
  (fe_ins_id env, k, id l) ∉ pending_locations_ r /\
  (status l = CLS_SERVING \/
   (status l = CLS_WRITING /\ (exists open, fe_in_session env = Some open /\ open (id l) = false) /\
    forall copying, fe_active_copy env = Some copying -> copying k (id l) = false)).

Lemma selected_evictable env r w k all l : selected_by_water_level env r w k all l = true -> evictable env r k l.
Proof.
  unfold selected_by_water_level, considered, is_serving, is_orphaned_writing, is_active_copy_target, is_pending_location, evictable.
  intros [[[He Hp]%andb_true_iff Hs]%andb_true_iff _]%andb_true_iff. reflect_bools. split_and!; [done..|].
  apply orb_true_iff in Hs as [Hs|[[Hw Ho]%andb_true_iff Ha]%andb_true_iff]; reflect_bools; [by left|right].
  split_and!; [done| |].
  - destruct (fe_in_session env) as [open|]; [|done]. exists open. split; [done|]. by apply negb_true_iff.
  - intros copying Hc. rewrite Hc, bool_decide_eq_true_2 in Ha by done. done.
Qed.

(** C24: The reclaimer only deletes what is its own to delete: every location it
    selects belongs to the block, is not owned by a reporter, is not being
    deleted already, is served or left over by a writer that is gone (no open
    session and no migration copy writes it); when a storage type is over its
    water level its type is; and no location is selected twice. *)
Theorem FilterLocID_selects_evictable env r w batch maps res i k m ids :
  FilterLocID env r w batch (Some maps) = Some res ->
  batch !! i = Some k -> maps !! i = Some m -> out_loc_ids res !! i = Some ids ->
  (forall lid, lid ∈ ids ->
     exists l, l ∈ block_locations m /\ id l = lid /\ evictable env r k l /\
       (CheckStorageTypeWaterLevelExceed w = true -> GetWaterLevelExceedByType (type l) w = true)) /\
  (NoDup (id <$> block_locations m) -> NoDup ids).
Proof.
  intros Hf Hk Hm Hi. split.
  - intros lid Hlid. destruct (FilterLocID_block env r w batch maps res i k m ids lid Hf Hk Hm Hi Hlid) as (taken & Hs & -> & Ha).
    apply list_elem_of_fmap in Hlid as (l & -> & Hl). eapply Forall_forall in Ha; [|done].
    exists l. split_and!; [by eapply elem_of_sublist|done|by eapply selected_evictable|].
    intros Hz. unfold selected_by_water_level in Ha. unfold in_zone in Ha. rewrite Hz in Ha. by reflect_bools.
  - intros Hnd. apply FilterLocID_rows in Hf as [E|[Hlen Hf]].
    { rewrite E in Hi. apply lookup_replicate in Hi as [-> _]. constructor. }
    eapply (Forall2_lookup_lr _ _ _ i (k, m) ids) in Hf; [|by rewrite lookup_zip_with, Hk, Hm|done].
    destruct Hf as (taken & Hs & -> & _). eapply sublist_NoDup; [exact Hnd|by apply (sublist_fmap id)].
Qed.

(** C4: Evicting a tiered block loses nothing: when only the group is over its
    water level and a block has a copy on a cold storage, every spec of a hot
    copy that is selected is still served by a cold copy that is neither
    selected nor already being deleted. *)
Theorem eviction_keeps_cold_copies env r w batch maps res i k m ids l c s :
  FilterLocID env r w batch (Some maps) = Some res ->
  batch !! i = Some k -> maps !! i = Some m -> out_loc_ids res !! i = Some ids ->
  CheckStorageTypeWaterLevelExceed w = false -> NoDup (id <$> block_locations m) ->
  l ∈ block_locations m -> id l ∈ ids -> status l = CLS_SERVING -> loc_on_cold_storage (cold env w) l = false ->
  c ∈ block_locations m -> considered env r k c = true -> status c = CLS_SERVING -> loc_on_cold_storage (cold env w) c = true ->
  s ∈ location_specs l ->
  exists c' s', c' ∈ block_locations m /\ id c' ∉ ids /\ (fe_ins_id env, k, id c') ∉ pending_locations_ r /\
    status c' = CLS_SERVING /\ loc_on_cold_storage (cold env w) c' = true /\ s' ∈ location_specs c' /\ name s' = name s.
Proof.
  intros Hf Hk Hm Hi Hz Hnd Hl Hlid Hsv Hhot Hc Hcc Hcs Hcold Hs.
  destruct (FilterLocID_block env r w batch maps res i k m ids (id l) Hf Hk Hm Hi Hlid) as (taken & Hsub & -> & Ha).
  assert (Hinj : forall a b, a ∈ block_locations m -> b ∈ block_locations m -> id a = id b -> a = b).
  { intros a b [x Ha']%list_elem_of_lookup_1 [y Hb']%list_elem_of_lookup_1 E.
    assert (x = y) as ->; [|congruence]. eapply (NoDup_lookup (id <$> block_locations m)); [done|..];
      rewrite list_lookup_fmap; [rewrite Ha'|rewrite Hb']; simpl; [done|by rewrite E]. }
  assert (Hsel : forall a, a ∈ block_locations m -> id a ∈ id <$> taken -> selected_by_water_level env r w k (block_locations m) a = true).
  { intros a Ha' (b & E & Hb)%list_elem_of_fmap. rewrite (Hinj a b) by (try done; by eapply elem_of_sublist). by eapply Forall_forall in Ha. }
  assert (Hcne : cold env w <> []). { intros E. rewrite E in Hcold. unfold loc_on_cold_storage in Hcold. by case_match. }
  pose proof (Hsel l Hl Hlid) as Hlsel.
  assert (Hkeep : keep_cold_evict_hot env r w k (block_locations m) = true).
  { unfold keep_cold_evict_hot, in_zone. rewrite Hz, bool_decide_eq_false_2 by done. simpl. apply andb_true_iff. split; apply existsb_exists.
    - exists c. split; [by apply list_elem_of_In|]. unfold is_serving. rewrite Hcc, Hcold, bool_decide_eq_true_2 by done. done.
    - exists l. split; [by apply list_elem_of_In|]. unfold selected_by_water_level in Hlsel.
      apply andb_true_iff in Hlsel as [[Hcl _]%andb_true_iff _]. unfold is_serving. rewrite Hcl, Hhot, bool_decide_eq_true_2 by done. done. }
  assert (Hno : forall a, status a = CLS_SERVING -> loc_on_cold_storage (cold env w) a = true ->
            selected_by_water_level env r w k (block_locations m) a = true -> False).
  { intros a Hsa Hca. unfold selected_by_water_level, in_zone, is_serving. rewrite Hz, Hkeep, Hca, bool_decide_eq_true_2 by done.
    simpl. by rewrite andb_false_r. }
  unfold selected_by_water_level, in_zone in Hlsel. rewrite Hz, Hkeep, Hhot in Hlsel. unfold is_serving in Hlsel.
  rewrite bool_decide_eq_true_2 in Hlsel by done. simpl in Hlsel.
  apply andb_true_iff in Hlsel as [_ Hcov]. rewrite negb_involutive in Hcov. unfold cold_locations_cover_specs in Hcov.
  apply andb_true_iff in Hcov as [_ Hcov]. rewrite forallb_forall in Hcov. specialize (Hcov s (proj1 (list_elem_of_In _ _) Hs)).
  apply existsb_exists in Hcov as (c' & Hc' & Hb). apply list_elem_of_In in Hc'. unfold is_serving, is_pending_location in Hb.
  apply andb_true_iff in Hb as [[[[Hb1 Hb2]%andb_true_iff Hb3]%andb_true_iff Hb4]%andb_true_iff Hb5].
  apply existsb_exists in Hb5 as (s' & Hs' & Hn). apply list_elem_of_In in Hs'. reflect_bools.
  exists c', s'. split_and!; try done. intros Hin. by apply (Hno c'), Hsel.
Qed.

(** ** The filter and the admission agree *)

Section agree.
Variables (env : FilterEnv) (r : Reclaimer) (w : WaterLevelExceed).
Hypothesis (Hl : limits_ok (fe_cfg env)) (HL : ledger_ok (fe_cfg env) r).

Lemma FilterLocID_sums batch maps res :
  FilterLocID env r w batch maps = Some res ->
  request_sums_ok (out_bytes_by_type res) (out_location_counts_by_type res) (out_predicted_deleted_keys res).
Proof.
  assert (H0 : request_sums_ok by_type_zero by_type_zero 0).
  { constructor; try done; apply Forall_replicate; lia. }
  unfold FilterLocID. destruct (_ || _); [by intros [= <-]|]. destruct maps as [maps|]; [|done]. cbn [mbind option_bind].
  destruct (negb _); [done|]. destruct (filter_rows _ _ _ _ _ _) as [[out p] s] eqn:E. intros [= <-].
  eapply (filter_rows_ok env r w Hl HL _ 0) in E as [Hs Hp]; [|by apply sel_ok_start|lia].
  destruct Hs. simpl. constructor; try done. rewrite so_number0. lia.
Qed.

Lemma request_rows_of batch out : request_rows (mkDelRequest (fe_ins_id env) batch out)
  = filter (fun kl => kl.2 <> []) (zip batch out).
Proof. done. Qed.

(** The locations of a request over distinct blocks, each with distinct
    locations that are not pending, pass the duplicate check. *)
Lemma request_locations_fresh (ins : string) (rows : list (KeyType * list LocationId)) (pend : gset PendingLocationKey) :
  NoDup rows.*1 -> (forall k ids, (k, ids) ∈ rows -> NoDup ids /\ forall lid, lid ∈ ids -> (ins, k, lid) ∉ pend) ->
  check_pending ∅ pend (request_locations ins rows) = true.
Proof.
  intros Hnd Hr. apply check_pending_complete.
  - unfold request_locations. induction rows as [|[k ids] rows IH]; [constructor|]. cbn. apply NoDup_cons in Hnd as [Hk Hnd].
    destruct (Hr k ids) as [Hi _]; [left|]. apply NoDup_app. split_and!.
    + apply NoDup_fmap_2; [intros ?? [= ->]; done|done].
    + intros p (lid & -> & _)%list_elem_of_fmap ([k' ids'] & (lid' & [= -> ->] & _)%list_elem_of_fmap & Hrow)%list_elem_of_bind.
      apply Hk. by apply (list_elem_of_fmap_2 fst) in Hrow.
    + apply IH; [done|]. intros k' ids' H'. apply Hr. by right.
  - intros p ([k ids] & (lid & -> & Hlid)%list_elem_of_fmap & Hrow)%list_elem_of_bind. split; [set_solver|].
    destruct (Hr k ids Hrow) as [_ Hp]. by apply Hp.
Qed.

Lemma zip_fst_sublist {A B} (l : list A) (k : list B) : sublist (zip l k).*1 l.
Proof. revert k. induction l as [|a l IH]; intros [|b k]; simpl; [constructor|constructor|apply sublist_nil_l|by constructor]. Qed.

Lemma nonzero_counts (rows : list (KeyType * list LocationId)) :
  Forall (fun kl => kl.2 <> []) rows -> rows <> [] ->
  foldl (fun n (_ : KeyType * list LocationId) => SaturatingAdd n 1) 0 rows <> 0 /\
  foldl (fun n kl => SaturatingAdd n (Z.of_nat (length kl.2))) 0 rows <> 0.
Proof.
  assert (G : forall (f : KeyType * list LocationId -> Z) rows n, (forall x, x ∈ rows -> 0 <= f x) -> 0 < n -> 0 < foldl (fun n x => SaturatingAdd n (f x)) n rows).
  { clear rows. intros f rows. induction rows as [|x rows IH]; intros n Hf Hn; [done|]. cbn [foldl].
    apply IH; [intros y Hy; apply Hf; by right|]. specialize (Hf x ltac:(left)). unfold SaturatingAdd. case_match; [done|lia]. }
  assert (S : forall a, 0 < a -> 0 < SaturatingAdd 0 a) by (intros a Ha; unfold SaturatingAdd; case_match; [done|lia]).
  destruct rows as [|[k ids] rows]; [done|]. intros [Hi Hr]%Forall_cons _. cbn [foldl]. simpl in Hi. split.
  - pose proof (G (fun _ => 1) rows (SaturatingAdd 0 1) ltac:(done) (S 1 ltac:(lia))). simpl in *. lia.
  - pose proof (G (fun kl => Z.of_nat (length kl.2)) rows (SaturatingAdd 0 (Z.of_nat (length ids))) ltac:(intros; simpl; lia)
      (S (Z.of_nat (length ids)) ltac:(destruct ids; simpl; [done|lia]))). simpl in *. lia.
Qed.

(** C22: The filter and the admission agree on the limits: a selection that
    [FilterLocID] makes for distinct blocks, when it is not empty and the
    executor takes the request, is accepted by [SubmitDelReq], whatever the
    limits are and however full the ledger is. *)
Theorem filtered_request_accepted {E} (SubmitAsync : CacheLocationDelRequest -> Z -> E -> option (option nat) * E)
    batch maps res delay at_ e :
  FilterLocID env r w batch (Some maps) = Some res ->
  NoDup batch -> Forall (fun m => NoDup (id <$> block_locations m)) maps ->
  (exists ids, ids ∈ out_loc_ids res /\ ids <> []) ->
  (forall q e, (SubmitAsync q delay e).1 <> None) ->
  (SubmitDelReq SubmitAsync true (fe_cfg env) (fe_ins_id env) (fe_ins_gr env)
     (mkDelRequest (fe_ins_id env) batch (out_loc_ids res)) delay (out_bytes_by_type res) (out_location_counts_by_type res)
     (out_predicted_deleted_keys res) at_ r e).1.1 = true.
Proof.
  intros Hf Hnd Hids (ids0 & Hin & Hne) Hacc.
  pose proof (FilterLocID_rows env r w batch maps res Hf) as [Ez|[Hlen Hrows]].
  { rewrite Ez in Hin. apply elem_of_replicate in Hin as [-> _]. done. }
  pose proof (Forall2_length _ _ _ Hrows) as Hlen'. rewrite length_zip_with in Hlen'.
  assert (Hres : exists out p s, filter_rows env r w (zip batch maps) 0 (mkSelected by_type_zero by_type_zero 0) = (out, p, s) /\
            res = mkFiltered out (sel_bytes s) (sel_counts s) p /\
            (pending_delete_handler_limit (fe_cfg env) <=? pending_delete_handler_count_ r) = false).
  { unfold FilterLocID in Hf. destruct (_ || _) eqn:Eo.
    { injection Hf as <-. apply elem_of_replicate in Hin as [-> _]. done. }
    cbn [mbind option_bind] in Hf. destruct (negb _); [done|].
    destruct (filter_rows _ _ _ _ _ _) as [[out p] s]. injection Hf as <-. exists out, p, s. split_and!; [done|done|].
    by apply orb_false_iff in Eo as [? _]. }
  destruct Hres as (out & p & s & Hfr & -> & Hhl). cbn [out_loc_ids out_bytes_by_type out_location_counts_by_type out_predicted_deleted_keys] in *.
  pose proof (filter_rows_ok env r w Hl HL _ 0 0 _ _ _ _ (sel_ok_start env r HL) ltac:(lia) Hfr) as [[B1 B2 B3 B4 B5 B6 B7 B8 B9 B10] _].
  unfold SubmitDelReq. cbn [negb del_block_keys del_location_ids]. rewrite (proj2 (Nat.eqb_eq _ _)) by lia. cbn [negb].
  rewrite request_rows_of. set (rows := filter _ _).
  assert (Hsub : rows ⊆ zip batch out) by (intros x Hx; by apply list_elem_of_filter in Hx as [_ ?]).
  rewrite (request_locations_fresh (fe_ins_id env) rows).
  2: { eapply sublist_NoDup; [exact Hnd|]. etrans; [apply sublist_fmap, sublist_filter|apply zip_fst_sublist]. }
  2: { intros k ids Hr%Hsub. apply list_elem_of_lookup_1 in Hr as [i Hi].
       apply lookup_zip_with_Some in Hi as (a & b & [= -> ->] & Ha & Hb).
       destruct (lookup_lt_is_Some_2 maps i) as [m Hm]; [apply lookup_lt_Some in Ha; lia|].
       eapply (Forall2_lookup_lr _ _ _ i (a, m) b) in Hrows; [|by rewrite lookup_zip_with, Ha, Hm|done].
       destruct Hrows as (taken & Hs & -> & Hsel). simpl in Hs. split.
       - eapply sublist_NoDup; [eapply (Forall_lookup_1 _ _ _ _ Hids Hm)|by apply (sublist_fmap id)].
       - intros lid (l & -> & Hlt)%list_elem_of_fmap. eapply Forall_forall in Hsel; [|done]. by apply selected_evictable in Hsel as (_ & ? & _). }
  assert (Hrne : rows <> []).
  { apply list_elem_of_lookup_1 in Hin as [i Hi]. destruct (lookup_lt_is_Some_2 batch i) as [k Hk]; [apply lookup_lt_Some in Hi; lia|].
    assert (Hr : (k, ids0) ∈ rows); [|by intros ->; apply elem_of_nil in Hr].
    apply list_elem_of_filter. split; [done|]. eapply list_elem_of_lookup_2 with i. by rewrite lookup_zip_with, Hk, Hi. }
  destruct (nonzero_counts rows) as [N1 N2]; [apply Forall_forall; intros x Hx; by apply list_elem_of_filter in Hx as [? _]|done|].
  cbn [negb]. rewrite (proj2 (Z.eqb_neq _ _) N1), (proj2 (Z.eqb_neq _ _) N2), Hhl. cbn [orb].
  assert (Hpos : exists t, 0 < at_type t (sel_counts s)).
  { destruct (existsb (fun t => 0 <? at_type t (sel_counts s)) all_storage_types) eqn:Hex.
    { apply existsb_exists in Hex as (t & _ & Ht%Z.ltb_lt). by exists t. }
    exfalso. assert (Hz : zsum (fun z => z) (sel_counts s) <= 0).
    { rewrite <-zsum_at_types by done. rewrite <-(zsum_zero all_storage_types). apply zsum_le. intros t Ht.
      destruct (Z.le_gt_cases (at_type t (sel_counts s)) 0); [done|]. exfalso.
      apply not_true_iff_false in Hex. apply Hex. apply existsb_exists. exists t. split; [by apply list_elem_of_In|by apply Z.ltb_lt]. }
    rewrite B6 in Hz. destruct (concat out) as [|x y] eqn:Ec; [|simpl in Hz; lia].
    apply list_elem_of_lookup_1 in Hin as [i Hi]. destruct ids0 as [|x ids0]; [done|].
    rewrite <-(take_drop_middle _ _ _ Hi), concat_app in Ec. by apply app_nil in Ec as [_ ?]. }
  rewrite (proj2 (forallb_forall _ _)).
  2: { intros t _. unfold type_admits. destruct (B7 t) as [R1 R2]. pose proof (at_type_nonneg t _ B4).
       destruct (Z.eqb_spec (at_type t (sel_counts s)) 0) as [E0|Hn].
       - by rewrite (B10 t E0).
       - destruct (B9 t ltac:(lia)) as (S1 & S2 & _). cbn [andb orb]. unfold over_limit.
         rewrite (proj2 (Z.leb_gt _ _) S1), (proj2 (Z.leb_gt _ _) S2). rewrite !(proj2 (Z.ltb_ge _ _)) by lia. done. }
  cbn [negb]. destruct Hpos as [t Ht]. destruct (B9 t Ht) as (_ & _ & S3). pose proof (ledger_nonneg env r HL t) as (_ & _ & Hp).
  destruct Hl as [_ _ _ L4]. rewrite sat_adds_exact by (done || lia).
  unfold over_limit. rewrite (proj2 (Z.leb_gt _ _) S3). rewrite (proj2 (Z.ltb_ge _ _)) by lia. cbn [orb].
  specialize (Hacc (mkDelRequest (fe_ins_id env) rows.*1 rows.*2) e). destruct (SubmitAsync _ _ _) as [[fut|] e']; done.
Qed.

End agree.

(** ** Examples *)

Definition time_le (a b : KeyType * Z) : Prop := a.2 <= b.2.
#[export] Instance time_le_dec : RelDecision time_le.
Proof. unfold RelDecision, time_le. apply _. Defined.
#[local] Instance time_le_total : Total time_le.
Proof. intros a b. unfold time_le. lia. Qed.
#[local] Instance time_le_trans : Transitive time_le.
Proof. intros a b c. unfold time_le. lia. Qed.

Lemma merge_sort_by_time : sorts_by_time (merge_sort time_le).
Proof. intros l. split; [apply merge_sort_Permutation|]. apply (StronglySorted_merge_sort time_le). Qed.

Definition timed (t : string) : gmap string string := {[ PROPERTY_LRU_TIME := t ]}.

(** Of five samples, one without a timestamp and one key twice, the two oldest
    keys are 3 and 1. *)
Definition demo_keys : list KeyType := [1; 2; 1; 3; 4].
Definition demo_properties : list (gmap string string) := [timed "50"; timed "90"; timed "20"; ∅; timed "70"].

Lemma MakeBatch_least_recent_witness :
  let batch := MakeBatchByLRUWithSize (merge_sort time_le) demo_keys demo_properties 2 in
  batch ≡ₚ [1; 3] /\ NoDup batch /\ length batch = 2%nat.
Proof.
  destruct (MakeBatch_least_recent (merge_sort time_le) demo_keys demo_properties 2 _ merge_sort_by_time eq_refl eq_refl)
    as (H1 & _ & H3 & _).
  cbv zeta. split_and!; [|exact H1|exact H3]. apply (bool_decide_unpack _). by vm_compute.
Defined.

(** Block 7 has a hot copy of both specs, a cold copy of both and a location
    that a vanished writer left. *)
Definition demo_specs (host : string) : list LocationSpec :=
  [mkLocationSpec "a" (String.append "file://" (String.append host "/p?size=10")); mkLocationSpec "b" "file://x/q?size=5"].
Definition demo_block : CacheLocationMap :=
  {[ "c" := Some (mkCacheLocation "c" CLS_SERVING DATA_STORAGE_TYPE_NFS 2 0 (demo_specs "cold") 0);
     "h" := Some (mkCacheLocation "h" CLS_SERVING DATA_STORAGE_TYPE_HF3FS 2 0 (demo_specs "hot") 0);
     "o" := Some (mkCacheLocation "o" CLS_WRITING DATA_STORAGE_TYPE_HF3FS 2 0 [] 0) ]}.
Definition demo_env : FilterEnv :=
  mkFilterEnv default_async_config "inst" "group" (Some [Some "cold"; None]) (Some (fun _ _ => false)) (Some (fun _ => false)).
Definition group_over : WaterLevelExceed := mkWaterLevel true false (replicate storage_type_COUNT false).

Lemma demo_limits : limits_ok default_async_config.
Proof. constructor; split; by vm_compute. Qed.

(** The hot copy and the left-over are selected, the cold copy stays; the key
    survives, so no deleted key is predicted. *)
Definition demo_result : FilterResult :=
  mkFiltered [["o"; "h"]] [0; 15; 0; 0; 0; 0; 0; 0; 0; 0] [0; 2; 0; 0; 0; 0; 0; 0; 0; 0] 0.

Lemma demo_filtered : FilterLocID demo_env new_reclaimer group_over [7] (Some [demo_block]) = Some demo_result.
Proof. by vm_compute. Qed.

Lemma FilterLocID_selects_evictable_witness :
  exists l, l ∈ block_locations demo_block /\ id l = "o" /\ evictable demo_env new_reclaimer 7 l.
Proof.
  destruct (proj1 (FilterLocID_selects_evictable demo_env new_reclaimer group_over [7] [demo_block] demo_result 0 7 demo_block
    ["o"; "h"] demo_filtered eq_refl eq_refl eq_refl) "o" ltac:(set_solver)) as (l & H1 & H2 & H3 & _).
  by exists l.
Defined.

Definition demo_hot : CacheLocation := mkCacheLocation "h" CLS_SERVING DATA_STORAGE_TYPE_HF3FS 2 0 (demo_specs "hot") 0.
Definition demo_cold : CacheLocation := mkCacheLocation "c" CLS_SERVING DATA_STORAGE_TYPE_NFS 2 0 (demo_specs "cold") 0.

Lemma eviction_keeps_cold_copies_witness :
  exists c' s', c' ∈ block_locations demo_block /\ id c' ∉ ["o"; "h"] /\ status c' = CLS_SERVING /\
    s' ∈ location_specs c' /\ name s' = "a".
Proof.
  destruct (eviction_keeps_cold_copies demo_env new_reclaimer group_over [7] [demo_block] demo_result 0 7 demo_block
    ["o"; "h"] demo_hot demo_cold (mkLocationSpec "a" "file://hot/p?size=10") demo_filtered eq_refl eq_refl eq_refl)
    as (c' & s' & H1 & H2 & _ & H4 & _ & H6 & H7); try (by vm_compute).
  - apply (bool_decide_unpack _). by vm_compute.
  - apply (bool_decide_unpack _). by vm_compute.
  - apply (bool_decide_unpack _). by vm_compute.
  - apply (bool_decide_unpack _). by vm_compute.
  - apply (bool_decide_unpack _). by vm_compute.
  - by exists c', s'.
Defined.

Lemma filtered_request_accepted_witness :
  (SubmitDelReq (fun _ _ e => (Some (Some 1%nat), e)) true default_async_config "inst" "group"
     (mkDelRequest "inst" [7] (out_loc_ids demo_result)) 0 (out_bytes_by_type demo_result)
     (out_location_counts_by_type demo_result) (out_predicted_deleted_keys demo_result) 0 new_reclaimer tt).1.1 = true.
Proof.
  apply (filtered_request_accepted demo_env new_reclaimer group_over demo_limits (new_ledger _ demo_limits)
    (fun _ _ e => (Some (Some 1%nat), e)) [7] [demo_block] demo_result 0 0 tt demo_filtered).
  - apply (bool_decide_unpack _). by vm_compute.
  - constructor; [|constructor]. apply (bool_decide_unpack _). by vm_compute.
  - exists ["o"; "h"]. split; [left|done].
  - done.
Defined.
