(* ===== verification/ReclaimBudget.v ===== *)
(** * ReclaimBudget: how the reclaimer shares a group's budget

    [AllocateFairBudget] and [BuildFairReclaimPlan] of
    [manager/cache_reclaimer.cc]: the largest-remainder division of a budget
    in proportion to weights, in 64 and 128 bits as the code has it, and the
    plan that gives every instance of a group its batch and sampling size. *)

From stdpp Require Import base gmap sets list strings sorting.
From Stdlib Require Import ZArith Lia.
From S2P Require Import Prelude MetaTypes StorageUsage Registry ReclaimLedger ReclaimFilter.

Local Open Scope Z_scope.

(** ** Dividing a budget *)

Definition u128_max : Z := 2 ^ 128 - 1.
Definition u128 (z : Z) : Z := z mod 2 ^ 128.

Record RemainderEntry := mkRemainder { re_index : nat; re_remainder : Z; re_instance : string }.

(** The order of the comparator: larger remainders, then smaller names, then
    smaller positions. *)
Definition entry_first (a b : RemainderEntry) : bool :=
  if negb (re_remainder a =? re_remainder b) then re_remainder b <? re_remainder a
  else if negb (bool_decide (re_instance a = re_instance b)) then chars_ltb (chars_of (re_instance a)) (chars_of (re_instance b))
  else (re_index a <? re_index b)%nat.

Definition entry_before (a b : RemainderEntry) : Prop := entry_first b a = false.
#[global] Instance entry_before_dec : RelDecision entry_before.
Proof. unfold RelDecision, entry_before. apply _. Defined.

Fixpoint sum_weights (weights : list Z) (total : Z) : option Z :=
  match weights with
  | [] => Some total
  | w :: weights => if u128_max - w <? total then None else sum_weights weights (total + w)
  end.

(** The quotients, what they add up to, and the remainders of the positive
    weights; [None] on the code's overflow exits. *)
Fixpoint divide_budget (total_budget total_weight : Z) (i : nat) (rows : list (Z * string)) (allocated : Z)
    : option (list Z * Z * list RemainderEntry) :=
  match rows with
  | [] => Some ([], allocated, [])
  | (w, name) :: rows =>
      if w =? 0 then
        '(out, allocated, rems) ← divide_budget total_budget total_weight (S i) rows allocated;
        Some (0 :: out, allocated, rems)
      else
        let numerator := u128 (total_budget * w) in
        let quotient := numerator / total_weight in
        if u64_max <? quotient then None
        else if u64 (total_budget - allocated) <? quotient then None
        else
          '(out, allocated, rems) ← divide_budget total_budget total_weight (S i) rows (allocated + quotient);
          Some (quotient :: out, allocated, mkRemainder i (numerator mod total_weight) name :: rems)
  end.

Definition give_one (out : list Z) (e : RemainderEntry) : list Z := alter (fun a => a + 1) (re_index e) out.

Definition AllocateFairBudget (total_budget : Z) (weights : list Z) (instance_ids : list string) : option (list Z) :=
  if negb (length weights =? length instance_ids)%nat then None
  else if total_budget =? 0 then Some (replicate (length weights) 0)
  else
    total_weight ← sum_weights weights 0;
    if total_weight =? 0 then None
    else
      '(out, allocated, remainders) ← divide_budget total_budget total_weight 0 (zip weights instance_ids) 0;
      let unallocated := u64 (total_budget - allocated) in
      if Z.of_nat (length remainders) <? unallocated then None
      else Some (foldl give_one out (take (Z.to_nat unallocated) (merge_sort entry_before remainders))).

(** ** The plan *)

Inductive FairWeightDimension := dim_NONE | dim_STORAGE_TYPE_BYTES | dim_GROUP_BYTES | dim_GROUP_KEYS.

Record FairReclaimPlanItem := mkItem {
  it_instance : InstanceInfo;
  it_weight : Z;
  it_raw_batch_size : Z;
  it_raw_sampling_size : Z;
  it_batch_size : Z;
  it_sampling_size : Z;
  it_original_index : nat;
}.

Record FairReclaimPlan := mkPlan {
  pl_dimension : FairWeightDimension;
  pl_normalized_sampling_size : Z;
  pl_group_batch_size : Z;
  pl_group_sampling_size : Z;
  pl_effective_instance_count : nat;
  pl_items : list FairReclaimPlanItem;
}.

Definition kSizeLimit : Z := 2 ^ 16.

(** What the planner reads of an instance's indexer. *)
Record IndexerUsage := mkUsage { iu_usage : StorageUsageData; iu_key_count : Z; iu_max_key_count : Z }.

(** The types that the group's quota is charged for. *)
Definition chargeable (t : DataStorageType) : bool :=
  negb (bool_decide (t = DATA_STORAGE_TYPE_UNKNOWN)) && negb (bool_decide (t = DATA_STORAGE_TYPE_VCNS_HF3FS))
  && negb (IsEventReportStorageType t).

Definition usage_weight (keep : DataStorageType -> bool) (u : IndexerUsage) : Z :=
  foldl (fun n t => if chargeable t && keep t then SaturatingAdd n (GetStorageUsageByType t (iu_usage u)) else n) 0 all_storage_types.

Definition item_weight (dim : FairWeightDimension) (w : WaterLevelExceed) (u : IndexerUsage) : Z :=
  match dim with
  | dim_STORAGE_TYPE_BYTES => usage_weight (fun t => GetWaterLevelExceedByType t w) u
  | dim_GROUP_BYTES => usage_weight (fun _ => true) u
  | dim_GROUP_KEYS => iu_key_count u
  | dim_NONE => 0
  end.

Definition plan_dimension (w : WaterLevelExceed) : FairWeightDimension :=
  if CheckStorageTypeWaterLevelExceed w then dim_STORAGE_TYPE_BYTES
  else if group_bytes_water_level_exceed_ w then dim_GROUP_BYTES
  else if group_keys_water_level_exceed_ w then dim_GROUP_KEYS
  else dim_NONE.

(** The instances with an indexer and a positive weight, with their positions. *)
Definition plan_candidates (dim : FairWeightDimension) (w : WaterLevelExceed) (GetMetaIndexer : string -> option IndexerUsage)
    (instance_infos : list (option InstanceInfo)) : list (InstanceInfo * Z * nat) :=
  omap (fun ii : nat * option InstanceInfo =>
      info ← ii.2;
      u ← GetMetaIndexer (instance_id_ info);
      let weight := item_weight dim w u in
      if weight =? 0 then None else Some (info, weight, ii.1))
    (imap pair instance_infos).

(** [checked_multiply]. *)
Definition checked_multiply (lhs rhs : Z) : option Z :=
  if negb (lhs =? 0) && (u64_max / lhs <? rhs) then None else Some (lhs * rhs).

(** The extra samples go to the items that have a batch. *)
Fixpoint add_extra (batches extra : list Z) : option (list Z) :=
  match batches with
  | [] => Some []
  | b :: batches =>
      if b =? 0 then rest ← add_extra batches extra; Some (b :: rest)
      else match extra with
           | [] => None
           | x :: extra => if u64_max - b <? x then None else rest ← add_extra batches extra; Some (b + x :: rest)
           end
  end.

Definition cap_item (configured_batch_size normalized : Z) (raw_batch raw_sampling : Z) : Z * Z :=
  let hard := kSizeLimit - 1 in
  let sampling := Z.min raw_sampling (Z.min normalized hard) in
  let batch := Z.min raw_batch (Z.min configured_batch_size hard) in
  let batch :=
    if negb (sampling =? raw_sampling) && (configured_batch_size <? normalized) then
      let max_batch := u128 (sampling * configured_batch_size) / normalized in
      let max_batch := if (max_batch =? 0) && (0 <? batch) then 1 else max_batch in
      Z.min batch (u64 max_batch)
    else batch in
  (batch, if batch =? 0 then 0 else sampling).

Definition item_first (a b : FairReclaimPlanItem) : bool :=
  if negb (it_weight a =? it_weight b) then it_weight b <? it_weight a
  else if negb (it_batch_size a =? it_batch_size b) then it_batch_size b <? it_batch_size a
  else if negb (bool_decide (instance_id_ (it_instance a) = instance_id_ (it_instance b)))
       then chars_ltb (chars_of (instance_id_ (it_instance a))) (chars_of (instance_id_ (it_instance b)))
  else (it_original_index a <? it_original_index b)%nat.

Definition item_before (a b : FairReclaimPlanItem) : Prop := item_first b a = false.
#[global] Instance item_before_dec : RelDecision item_before.
Proof. unfold RelDecision, item_before. apply _. Defined.

Definition make_item (configured_batch_size normalized : Z) (c : InstanceInfo * Z * nat) (bs : Z * Z) : FairReclaimPlanItem :=
  let '(info, weight, index) := c in
  let '(batch, sampling) := cap_item configured_batch_size normalized bs.1 bs.2 in
  mkItem info weight bs.1 bs.2 batch sampling index.

Definition BuildFairReclaimPlan (w : WaterLevelExceed) (GetMetaIndexer : string -> option IndexerUsage)
    (instance_infos : list (option InstanceInfo)) (configured_sampling_size configured_batch_size : Z) : option FairReclaimPlan :=
  if (configured_sampling_size =? 0) || (configured_batch_size =? 0) then None
  else
    let normalized := if configured_sampling_size <? configured_batch_size then configured_batch_size else configured_sampling_size in
    let dim := plan_dimension w in
    match dim with
    | dim_NONE => None
    | _ =>
        let candidates := plan_candidates dim w GetMetaIndexer instance_infos in
        let count := length candidates in
        if (count =? 0)%nat then None
        else
          group_batch ← checked_multiply configured_batch_size (Z.of_nat count);
          group_sampling ← checked_multiply normalized (Z.of_nat count);
          let weights := (fun c => c.1.2) <$> candidates in
          let ids := (fun c => instance_id_ c.1.1) <$> candidates in
          batches ← AllocateFairBudget group_batch weights ids;
          let sampled := filter (fun wb : Z * string * Z => wb.2 <> 0) (zip (zip weights ids) batches) in
          extra ← AllocateFairBudget (u64 (group_sampling - group_batch)) sampled.*1.*1 sampled.*1.*2;
          samplings ← add_extra batches extra;
          let items := zip_with (make_item configured_batch_size normalized) candidates (zip batches samplings) in
          Some (mkPlan dim normalized group_batch group_sampling count
                  (merge_sort item_before (filter (fun it => it_batch_size it <> 0) items)))
    end.

(** ** The division is exact *)

#[local] Instance entry_before_total : Total entry_before.
Proof.
  intros a b. unfold entry_before, entry_first.
  destruct (Z.eqb_spec (re_remainder a) (re_remainder b)) as [E|Hn]; simpl.
  - rewrite (proj2 (Z.eqb_eq _ _) (eq_sym E)). simpl.
    destruct (decide (re_instance a = re_instance b)) as [Ei|Hi].
    + rewrite !bool_decide_eq_true_2 by done. simpl. destruct (Nat.ltb_spec (re_index b) (re_index a)); [right|by left].
      apply Nat.ltb_ge. lia.
    + rewrite !bool_decide_eq_false_2 by congruence. simpl.
      destruct (chars_ltb (chars_of (re_instance b)) (chars_of (re_instance a))) eqn:El; [right|by left].
      by apply (ltb_asym chars_ltb).
  - rewrite (proj2 (Z.eqb_neq (re_remainder b) (re_remainder a))) by lia. simpl.
    destruct (Z.ltb_spec (re_remainder a) (re_remainder b)); [right|by left]. apply Z.ltb_ge. lia.
Qed.

Definition remainder_ge (a b : RemainderEntry) : Prop := re_remainder b <= re_remainder a.

Lemma entry_before_remainder a b : entry_before a b -> remainder_ge a b.
Proof.
  unfold entry_before, entry_first, remainder_ge. destruct (Z.eqb_spec (re_remainder b) (re_remainder a)); simpl; [lia|].
  intros H%Z.ltb_ge. lia.
Qed.

Lemma sorted_remainders l : StronglySorted remainder_ge (merge_sort entry_before l).
Proof.
  apply Sorted_StronglySorted; [intros a b c; unfold remainder_ge; lia|].
  induction (Sorted_merge_sort entry_before l) as [|a k _ IH Hd]; constructor; [done|].
  destruct Hd; constructor. by apply entry_before_remainder.
Qed.

(** The order in which the units left over are handed out: by remainder, then
    by name, then by position. *)
Definition goes_first (r1 : Z) (id1 : string) (i1 : nat) (r2 : Z) (id2 : string) (i2 : nat) : Prop :=
  r2 < r1 \/ (r1 = r2 /\ (chars_ltb (chars_of id1) (chars_of id2) = true \/ (id1 = id2 /\ (i1 < i2)%nat))).

Lemma entry_before_iff a b :
  entry_before a b <->
  goes_first (re_remainder a) (re_instance a) (re_index a) (re_remainder b) (re_instance b) (re_index b) \/
  (re_remainder a = re_remainder b /\ re_instance a = re_instance b /\ re_index a = re_index b).
Proof.
  unfold entry_before, entry_first, goes_first. destruct (Z.eqb_spec (re_remainder b) (re_remainder a)) as [E|Hn]; simpl.
  - destruct (decide (re_instance b = re_instance a)) as [Ei|Hi].
    + rewrite bool_decide_eq_true_2 by done. simpl. rewrite Nat.ltb_ge, Ei, ltb_irrefl.
      split; [intros H; destruct (decide (re_index a = re_index b)); [by right|left; right; split; [lia|right; split; [done|lia]]]|].
      intros [[?|[? [?|[? ?]]]]|(? & ? & ?)]; lia || done.
    + rewrite bool_decide_eq_false_2 by done. simpl. split.
      * intros H. left. right. split; [lia|]. left.
        destruct (ltb_cases chars_ltb (chars_of (re_instance a)) (chars_of (re_instance b))) as [?|[?|Heq]]; [done|congruence|].
        by apply chars_of_inj in Heq.
      * intros [[?|[? [?|[? ?]]]]|(? & ? & ?)]; [lia|by apply (ltb_asym chars_ltb)|congruence|congruence].
  - rewrite Z.ltb_ge. split; [intros ?; left; left; lia|]. intros [[?|[? _]]|(? & _)]; lia.
Qed.

#[local] Instance entry_before_trans : Transitive entry_before.
Proof.
  intros [ia ra na] [ib rb nb] [ic rc nc]. rewrite !entry_before_iff. unfold goes_first. simpl.
  intros [[H1|[E1 [H1|[F1 H1]]]]|(E1 & F1 & G1)] [[H2|[E2 [H2|[F2 H2]]]]|(E2 & F2 & G2)]; subst;
    try (left; left; lia); try (left; right; split; [lia|]; left; first [done|by eapply (ltb_trans (ltb := chars_ltb))]);
    try (left; right; split; [lia|]; right; split; [done|lia]).
  by right.
Qed.

Lemma sum_weights_ok ws total :
  Forall is_u64 ws -> 0 <= total -> total + 2 ^ 64 * Z.of_nat (length ws) <= u128_max ->
  sum_weights ws total = Some (total + zsum (fun z => z) ws).
Proof.
  revert total. induction ws as [|w ws IH]; intros total Hw Ht Hb; cbn [sum_weights].
  { unfold zsum. simpl. f_equal. lia. }
  apply Forall_cons in Hw as [[H1 H2] Hw]. cbn [length] in Hb. rewrite (proj2 (Z.ltb_ge _ _)) by lia.
  rewrite IH by (done || lia). rewrite zsum_cons. f_equal. lia.
Qed.

Section division.
Variables (b W : Z).
Hypothesis (Hb : 0 < b < 2 ^ 64) (HW : 0 < W).

Definition quot (w : Z) : Z := b * w / W.

Fixpoint entries (i : nat) (rows : list (Z * string)) : list RemainderEntry :=
  match rows with
  | [] => []
  | (w, name) :: rows => (if w =? 0 then [] else [mkRemainder i (b * w mod W) name]) ++ entries (S i) rows
  end.

Lemma quot_bound w : 0 <= w -> 0 <= quot w /\ quot w * W <= b * w /\ b * w = W * quot w + b * w mod W.
Proof.
  intros Hw. unfold quot. pose proof (Z.div_mod (b * w) W ltac:(lia)). pose proof (Z.mod_pos_bound (b * w) W HW).
  split; [apply Z.div_pos; lia|lia].
Qed.

Lemma quot_zero : quot 0 = 0.
Proof. unfold quot. rewrite Z.mul_0_r. apply Z.div_0_l. lia. Qed.

Lemma divide_budget_ok i rows a :
  Forall (fun r => is_u64 r.1) rows -> 0 <= a -> a * W + b * zsum (fun r => r.1) rows <= b * W ->
  divide_budget b W i rows a
    = Some ((fun r => quot r.1) <$> rows, a + zsum (fun r => quot r.1) rows, entries i rows).
Proof.
  revert i a. induction rows as [|[w name] rows IH]; intros i a Hr Ha Hs; cbn [divide_budget].
  { unfold zsum. simpl. by rewrite Z.add_0_r. }
  apply Forall_cons in Hr as [[H1 H2] Hr]. rewrite zsum_cons in Hs |- *. cbn [fst] in *.
  assert (Hrest : 0 <= zsum (fun r : Z * string => r.1) rows).
  { apply zsum_nonneg. intros r Hin. eapply Forall_forall in Hr; [apply Hr|done]. }
  destruct (quot_bound w H1) as (Q0 & Q1 & _). cbn [entries]. destruct (Z.eqb_spec w 0) as [->|Hw].
  - rewrite IH by (done || lia). cbn [mbind option_bind fmap list_fmap fst]. by rewrite quot_zero.
  - assert (Hn : u128 (b * w) = b * w) by (unfold u128; apply Z.mod_small; nia). rewrite Hn. fold (quot w).
    assert (a + quot w <= b) by nia. assert (quot w <= b) by nia.
    rewrite (proj2 (Z.ltb_ge _ _)) by (unfold u64_max; lia).
    rewrite u64_small by (unfold is_u64; lia). rewrite (proj2 (Z.ltb_ge _ _)) by lia.
    rewrite IH by (done || nia). cbn [mbind option_bind fmap list_fmap fst]. by rewrite Z.add_assoc.
Qed.

Lemma entries_index i rows e :
  e ∈ entries i rows -> exists j w, re_index e = (i + j)%nat /\ rows !! j = Some (w, re_instance e) /\ w <> 0 /\ re_remainder e = b * w mod W.
Proof.
  revert i. induction rows as [|[w name] rows IH]; intros i; cbn [entries]; [by intros ?%elem_of_nil|].
  intros [He|He]%elem_of_app.
  - destruct (Z.eqb_spec w 0); [by apply elem_of_nil in He|]. apply list_elem_of_singleton in He as ->.
    exists 0%nat, w. simpl. split_and!; [lia|done..].
  - apply IH in He as (j & w' & E & Hj & Hw & Hr). exists (S j), w'. split_and!; [lia|done..].
Qed.

Lemma entries_complete i rows j w name :
  rows !! j = Some (w, name) -> w <> 0 -> mkRemainder (i + j) (b * w mod W) name ∈ entries i rows.
Proof.
  revert i j. induction rows as [|[w' name'] rows IH]; intros i [|j] Hj Hw; simplify_eq/=; cbn [entries].
  - rewrite (proj2 (Z.eqb_neq _ _) Hw), Nat.add_0_r. left.
  - apply elem_of_app. right. replace (i + S j)%nat with (S i + j)%nat by lia. by apply IH.
Qed.

Lemma entries_nodup i rows : NoDup (re_index <$> entries i rows).
Proof.
  revert i. induction rows as [|[w name] rows IH]; intros i; cbn [entries]; [constructor|].
  destruct (w =? 0); [apply IH|]. cbn. constructor; [|apply IH].
  intros (e & He & Hin)%list_elem_of_fmap. apply entries_index in Hin as (j & ? & E & _). lia.
Qed.

Lemma entries_sum i rows :
  Forall (fun r => is_u64 r.1) rows ->
  zsum re_remainder (entries i rows) = b * zsum (fun r => r.1) rows - W * zsum (fun r => quot r.1) rows.
Proof.
  revert i. induction rows as [|[w name] rows IH]; intros i Hr; cbn [entries]; [unfold zsum; simpl; lia|].
  apply Forall_cons in Hr as [[H1 _] Hr]. rewrite zsum_app, IH, !zsum_cons by done. cbn [fst] in *.
  destruct (quot_bound w H1) as (_ & _ & Q). destruct (Z.eqb_spec w 0) as [->|].
  - rewrite quot_zero. unfold zsum at 1. simpl. lia.
  - unfold zsum at 1. cbn [foldr re_remainder]. lia.
Qed.

Lemma entries_lt i rows e : e ∈ entries i rows -> re_remainder e < W.
Proof. intros (j & w & _ & _ & _ & ->)%entries_index. by apply Z.mod_pos_bound. Qed.

End division.

Lemma give_length out es : length (foldl give_one out es) = length out.
Proof. revert out. induction es as [|e es IH]; intros out; cbn [foldl]; [done|]. rewrite IH. apply length_alter. Qed.

Lemma give_lookup out es i :
  NoDup (re_index <$> es) ->
  foldl give_one out es !! i = (fun a => if bool_decide (i ∈ re_index <$> es) then a + 1 else a) <$> out !! i.
Proof.
  revert out. induction es as [|e es IH]; intros out Hnd; cbn [foldl].
  { rewrite bool_decide_eq_false_2 by set_solver. by destruct (out !! i). }
  apply NoDup_cons in Hnd as [Hni Hnd]. rewrite IH by done. unfold give_one. destruct (decide (i = re_index e)) as [->|Hne].
  - rewrite list_lookup_alter_eq. rewrite bool_decide_eq_false_2 by done. rewrite bool_decide_eq_true_2 by set_solver.
    by destruct (out !! re_index e).
  - rewrite list_lookup_alter_ne by done. rewrite (bool_decide_ext (i ∈ re_index <$> e :: es) (i ∈ re_index <$> es)) by set_solver. done.
Qed.

Lemma zsum_alter (out : list Z) i : (i < length out)%nat -> zsum (fun z => z) (alter (fun a => a + 1) i out) = zsum (fun z => z) out + 1.
Proof.
  revert i. induction out as [|a out IH]; intros [|i] Hi; simpl in *; [lia|lia| |]; rewrite !zsum_cons; [lia|].
  change (list_alter (λ a0 : Z, a0 + 1) i out) with (alter (fun a : Z => a + 1) i out). rewrite IH by lia. lia.
Qed.

Lemma give_sum out es :
  Forall (fun e => (re_index e < length out)%nat) es ->
  zsum (fun z => z) (foldl give_one out es) = zsum (fun z => z) out + Z.of_nat (length es).
Proof.
  revert out. induction es as [|e es IH]; intros out Hf; cbn [foldl length]; [lia|]. apply Forall_cons in Hf as [He Hf].
  rewrite IH by (unfold give_one; by rewrite length_alter). unfold give_one. rewrite zsum_alter by done. lia.
Qed.

(** The entries that receive one of the units left over. *)
Definition winners (b W : Z) (rows : list (Z * string)) : list RemainderEntry :=
  take (Z.to_nat (b - zsum (fun r => quot b W r.1) rows)) (merge_sort entry_before (entries b W 0 rows)).

Section exact.
Variables (b : Z) (weights : list Z) (ids : list string).
Hypothesis (Hb : 0 < b < 2 ^ 64) (Hw : Forall is_u64 weights) (Hlen : length weights = length ids).
Hypothesis (Hcount : 2 ^ 64 * Z.of_nat (length weights) <= u128_max) (Hpos : 0 < zsum (fun z => z) weights).

Let W := zsum (fun z => z) weights.
Let rows := zip weights ids.
Let u := b - zsum (fun r => quot b W r.1) rows.

Lemma rows_fst : rows.*1 = weights.
Proof. apply fst_zip. lia. Qed.

Lemma rows_u64 : Forall (fun r : Z * string => is_u64 r.1) rows.
Proof. pose proof Hw as H. rewrite <-rows_fst in H. exact (proj1 (Forall_fmap _ _ _) H). Qed.

Lemma rows_sum : zsum (fun r : Z * string => r.1) rows = W.
Proof. unfold W. by rewrite <-rows_fst, zsum_fmap. Qed.

Lemma remainder_total : zsum re_remainder (entries b W 0 rows) = W * u.
Proof. rewrite (entries_sum b W Hb Hpos) by apply rows_u64. rewrite rows_sum. unfold u. lia. Qed.

Lemma sorted_perm : merge_sort entry_before (entries b W 0 rows) ≡ₚ entries b W 0 rows.
Proof. apply merge_sort_Permutation. Qed.

(** Fewer units are left over than there are entries, and an entry without a
    remainder receives none. *)
Lemma left_over : 0 <= u < Z.of_nat (length (entries b W 0 rows)) \/ (u = 0).
Proof.
  pose proof remainder_total as Ht.
  assert (Hn : 0 <= zsum re_remainder (entries b W 0 rows)).
  { apply zsum_nonneg. intros e He. apply entries_index in He as (j & w & _ & _ & _ & ->).
    pose proof (Z.mod_pos_bound (b * w) W Hpos). lia. }
  assert (Hle : zsum re_remainder (entries b W 0 rows) <= (W - 1) * Z.of_nat (length (entries b W 0 rows))).
  { rewrite <-zsum_const. apply zsum_le. intros e He. apply (entries_lt b W Hpos) in He. fold W. lia. }
  fold W in Hpos. destruct (decide (u = 0)); [by right|left]. assert (0 <= u) by nia. nia.
Qed.

Lemma u_range : 0 <= u <= b.
Proof.
  assert (0 <= zsum (fun r : Z * string => quot b W r.1) rows).
  { apply zsum_nonneg. intros r Hr. pose proof rows_u64 as Hu. eapply Forall_forall in Hu; [|done]. apply (quot_bound b W Hb Hpos), Hu. }
  destruct left_over; unfold u in *; lia.
Qed.

Lemma AllocateFairBudget_runs :
  AllocateFairBudget b weights ids = Some (foldl give_one ((fun r => quot b W r.1) <$> rows) (winners b W rows)).
Proof.
  unfold AllocateFairBudget. rewrite (proj2 (Nat.eqb_eq _ _) Hlen). cbn [negb]. rewrite (proj2 (Z.eqb_neq _ _)) by lia.
  rewrite sum_weights_ok by (done || lia). cbn [mbind option_bind]. rewrite Z.add_0_l. fold W rows.
  rewrite (proj2 (Z.eqb_neq _ _)) by (fold W in Hpos; lia).
  rewrite (divide_budget_ok b W Hb Hpos) by (try apply rows_u64; rewrite ?rows_sum; lia).
  cbn [mbind option_bind]. rewrite Z.add_0_l. fold u.
  pose proof u_range. rewrite u64_small by (unfold is_u64; lia).
  rewrite (proj2 (Z.ltb_ge _ _)) by (destruct left_over; lia). done.
Qed.

Lemma winners_entries e : e ∈ winners b W rows -> e ∈ entries b W 0 rows.
Proof. intros He. rewrite <-sorted_perm. eapply elem_of_sublist; [exact He|apply sublist_take]. Qed.

Lemma winners_nodup : NoDup (re_index <$> winners b W rows).
Proof.
  eapply sublist_NoDup; [|apply sublist_fmap, sublist_take]. rewrite sorted_perm. apply entries_nodup.
Qed.

Lemma winners_length : Z.of_nat (length (winners b W rows)) = u.
Proof.
  unfold winners. fold u. rewrite length_take, (Permutation_length sorted_perm). pose proof u_range. destruct left_over; lia.
Qed.

(** A winner's remainder is at least that of any other entry, and positive. *)
Lemma winner_first e e' :
  e ∈ winners b W rows -> e' ∈ entries b W 0 rows -> e' ∉ winners b W rows -> re_remainder e' <= re_remainder e.
Proof.
  intros He He' Hn. rewrite <-sorted_perm in He'. pose proof (sorted_remainders (entries b W 0 rows)) as Hs.
  rewrite <-(take_drop (Z.to_nat u) (merge_sort _ _)) in He', Hs. apply elem_of_app in He' as [He'|He']; [done|].
  by eapply sorted_app_le in Hs.
Qed.

Lemma winner_before e e' :
  e ∈ winners b W rows -> e' ∈ entries b W 0 rows -> e' ∉ winners b W rows -> entry_before e e'.
Proof.
  intros He He' Hn. rewrite <-sorted_perm in He'.
  assert (Hs : StronglySorted entry_before (merge_sort entry_before (entries b W 0 rows))).
  { apply Sorted_StronglySorted, (Sorted_merge_sort entry_before). apply _. }
  rewrite <-(take_drop (Z.to_nat u) (merge_sort _ _)) in He', Hs. apply elem_of_app in He' as [He'|He']; [done|].
  by eapply sorted_app_le in Hs.
Qed.

Lemma winner_positive e : e ∈ winners b W rows -> 0 < re_remainder e.
Proof.
  intros He. destruct (Z.lt_ge_cases 0 (re_remainder e)) as [|Hz]; [done|exfalso].
  pose proof remainder_total as Ht. pose proof (sorted_remainders (entries b W 0 rows)) as Hs.
  rewrite <-(zsum_perm _ _ _ sorted_perm), <-(take_drop (Z.to_nat u) (merge_sort _ _)), zsum_app in Ht.
  rewrite <-(take_drop (Z.to_nat u) (merge_sort _ _)) in Hs. fold (winners b W rows) in Ht, Hs.
  assert (H0 : zsum re_remainder (drop (Z.to_nat u) (merge_sort entry_before (entries b W 0 rows))) <= 0).
  { rewrite <-(zsum_zero (drop (Z.to_nat u) (merge_sort entry_before (entries b W 0 rows)))). apply zsum_le. intros e' He'.
    pose proof (sorted_app_le _ _ _ e e' Hs He He') as Hle. unfold remainder_ge in Hle. lia. }
  assert (H1 : zsum re_remainder (winners b W rows) <= (W - 1) * u).
  { rewrite <-winners_length, <-zsum_const. apply zsum_le. intros e' He'%winners_entries. apply (entries_lt b W Hpos) in He'. lia. }
  fold W in Hpos. change (take _ _) with (winners b W rows) in Ht. assert (0 < u); [|clear -Ht H0 H1 H; nia]. rewrite <-winners_length. destruct (winners b W rows); [by apply elem_of_nil in He|simpl; lia].
Qed.

(** What position [i] gets. *)
Lemma alloc_at i w a :
  weights !! i = Some w -> foldl give_one ((fun r => quot b W r.1) <$> rows) (winners b W rows) !! i = Some a ->
  a = quot b W w + (if bool_decide (i ∈ re_index <$> winners b W rows) then 1 else 0).
Proof.
  intros Hi. rewrite give_lookup by apply winners_nodup. rewrite list_lookup_fmap. unfold rows.
  destruct (lookup_lt_is_Some_2 ids i) as [name Hn]; [apply lookup_lt_Some in Hi; lia|].
  rewrite lookup_zip_with, Hi, Hn. cbn. intros [= <-]. case_bool_decide; lia.
Qed.

Lemma winner_weight i w :
  weights !! i = Some w -> i ∈ re_index <$> winners b W rows ->
  w <> 0 /\ 0 < b * w mod W /\ exists e, e ∈ winners b W rows /\ re_index e = i /\ re_remainder e = b * w mod W.
Proof.
  intros Hi (e & -> & He)%list_elem_of_fmap. pose proof (winner_positive e He). pose proof He as He0.
  apply winners_entries, entries_index in He as (j & w' & Ej & Hj & Hw' & Hr). simpl in Ej. subst j.
  unfold rows in Hj. apply lookup_zip_with_Some in Hj as (x & y & E2 & Hx & Hy). injection E2 as -> _. rewrite Hi in Hx. injection Hx as <-.
  split_and!; [done|lia|]. by exists e.
Qed.

(** A unit left over goes to those that come first. *)
Lemma left_over_to_first i j wi wj ni nj :
  weights !! i = Some wi -> weights !! j = Some wj -> ids !! i = Some ni -> ids !! j = Some nj ->
  i ∈ re_index <$> winners b W rows -> j ∉ re_index <$> winners b W rows ->
  goes_first (b * wi mod W) ni i (b * wj mod W) nj j.
Proof.
  intros Hi Hj Hni Hnj Hin Hout. destruct (winner_weight i wi Hi Hin) as (Hwi & Hpr & e & He & Ei & Er).
  assert (Hrow : rows !! j = Some (wj, nj)) by (unfold rows; by rewrite lookup_zip_with, Hj, Hnj).
  destruct (decide (wj = 0)) as [->|Hwj]; [left; rewrite Z.mul_0_r, Z.mod_0_l by (fold W in Hpos; lia); done|].
  pose proof (entries_complete b W 0 rows j wj nj Hrow Hwj) as Hc. simpl in Hc.
  assert (Hb4 : entry_before e (mkRemainder j (b * wj mod W) nj)).
  { apply winner_before; [done..|]. intros Hin'. apply Hout. by apply (list_elem_of_fmap_2 re_index) in Hin'. }
  pose proof (winners_entries e He) as (k & w' & Ek & Hk & _ & _)%entries_index. simpl in Ek.
  rewrite <-Ek, Ei in Hk. apply lookup_zip_with_Some in Hk as (x & y & E2 & _ & Hy). injection E2 as _ E2. simplify_eq.
  apply entry_before_iff in Hb4. simpl in Hb4. rewrite Er in Hb4. destruct Hb4 as [?|(_ & _ & Eij)]; [done|].
  exfalso. apply Hout. by rewrite <-Eij.
Qed.

End exact.

Lemma AllocateFairBudget_spec budget weights ids :
  is_u64 budget -> Forall is_u64 weights -> length weights = length ids ->
  2 ^ 64 * Z.of_nat (length weights) <= u128_max -> 0 < zsum (fun z => z) weights ->
  exists allocs, AllocateFairBudget budget weights ids = Some allocs /\
    length allocs = length weights /\ zsum (fun z => z) allocs = budget /\
    (forall i w a, weights !! i = Some w -> allocs !! i = Some a ->
       0 <= a /\ a * zsum (fun z => z) weights < budget * w + zsum (fun z => z) weights /\
       budget * w < a * zsum (fun z => z) weights + zsum (fun z => z) weights /\ (w = 0 -> a = 0)) /\
    (forall i j wi wj ai aj, weights !! i = Some wi -> weights !! j = Some wj -> allocs !! i = Some ai -> allocs !! j = Some aj ->
       wi < wj -> ai <= aj) /\
    (let share w := budget * w / zsum (fun z => z) weights in
     let remainder w := budget * w mod zsum (fun z => z) weights in
     (forall i w a, weights !! i = Some w -> allocs !! i = Some a -> a = share w \/ (a = share w + 1 /\ 0 < remainder w)) /\
     (forall i j wi wj ni nj, weights !! i = Some wi -> weights !! j = Some wj -> ids !! i = Some ni -> ids !! j = Some nj ->
        allocs !! i = Some (share wi + 1) -> allocs !! j = Some (share wj) ->
        goes_first (remainder wi) ni i (remainder wj) nj j)).
Proof.
  intros [Hb0 Hb1] Hw Hlen Hcount Hpos. set (W := zsum (fun z => z) weights) in *.
  assert (Hnn : forall i w, weights !! i = Some w -> 0 <= w) by (intros i w Hi; eapply Forall_lookup_1 in Hw as []; done).
  destruct (decide (budget = 0)) as [->|Hbne].
  { exists (replicate (length weights) 0). unfold AllocateFairBudget. rewrite (proj2 (Nat.eqb_eq _ _) Hlen). cbn [negb].
    cbv zeta. split_and!; [done|apply length_replicate| | | | |].
    - clear. induction (length weights); [done|]. cbn [replicate]. rewrite zsum_cons. lia.
    - intros i w a Hi [-> _]%lookup_replicate. split_and!; lia.
    - intros i j wi wj ai aj _ _ [-> _]%lookup_replicate [-> _]%lookup_replicate. lia.
    - intros i w a _ [-> _]%lookup_replicate. by left.
    - intros i j wi wj ni nj _ _ _ _ [E _]%lookup_replicate. rewrite Z.mul_0_l, Z.div_0_l in E; lia. }
  assert (Hb : 0 < budget < 2 ^ 64) by lia.
  eexists. split; [by apply AllocateFairBudget_runs|]. cbv zeta. fold W. set (rows := zip weights ids). split_and!.
  - rewrite give_length, length_fmap. unfold rows. rewrite length_zip_with. lia.
  - rewrite give_sum.
    + rewrite zsum_fmap. pose proof (winners_length budget weights ids Hb Hw Hlen Hpos) as Hwl. fold W rows in Hwl. lia.
    + apply Forall_forall. intros e He%(winners_entries budget weights ids). apply entries_index in He as (j & w & E & Hj & _).
      rewrite E, length_fmap. by apply lookup_lt_Some in Hj.
  - intros i w a Hi Ha. apply (alloc_at budget weights ids Hlen i w a Hi) in Ha. fold W rows in Ha.
    destruct (quot_bound budget W Hb Hpos w (Hnn i w Hi)) as (Q0 & Q1 & Q2). pose proof (Z.mod_pos_bound (budget * w) W Hpos).
    case_bool_decide as Hin.
    + apply (winner_weight budget weights ids Hb Hw Hlen Hpos i w Hi) in Hin as (Hw0 & Hm & _). fold W in Hm.
      split_and!; [lia|nia|nia|done].
    + split_and!; [lia|nia|nia|]. intros ->. rewrite quot_zero in Ha by done. lia.
  - intros i j wi wj ai aj Hi Hj Hai Haj Hlt.
    apply (alloc_at budget weights ids Hlen i wi ai Hi) in Hai. apply (alloc_at budget weights ids Hlen j wj aj Hj) in Haj.
    fold W rows in Hai, Haj.
    destruct (quot_bound budget W Hb Hpos wi (Hnn i wi Hi)) as (_ & _ & Ei). destruct (quot_bound budget W Hb Hpos wj (Hnn j wj Hj)) as (_ & _ & Ej).
    pose proof (Z.mod_pos_bound (budget * wi) W Hpos). pose proof (Z.mod_pos_bound (budget * wj) W Hpos).
    assert (budget * wi < budget * wj) by (apply Z.mul_lt_mono_pos_l; lia).
    assert (Hq : quot budget W wi <= quot budget W wj) by nia.
    destruct (bool_decide (i ∈ _)) eqn:Hwi; [|destruct (bool_decide (j ∈ _)); lia].
  destruct (bool_decide (j ∈ _)) eqn:Hwj; [lia|]. apply bool_decide_eq_true in Hwi. apply bool_decide_eq_false in Hwj.
    destruct (Z.lt_ge_cases (quot budget W wi) (quot budget W wj)) as [|Hge]; [lia|]. exfalso.
    apply (winner_weight budget weights ids Hb Hw Hlen Hpos i wi Hi) in Hwi as (_ & _ & e & He & _ & Hr). fold W rows in He, Hr.
    destruct (lookup_lt_is_Some_2 ids j) as [name Hn]; [apply lookup_lt_Some in Hj; lia|].
    assert (Hrow : rows !! j = Some (wj, name)) by (unfold rows; by rewrite lookup_zip_with, Hj, Hn).
    pose proof (entries_complete budget W 0 rows j wj name Hrow ltac:(specialize (Hnn i wi Hi); lia)) as Hc.
    pose proof (winner_first budget weights ids e _ He Hc) as Hf. cbn [re_remainder] in Hf. rewrite Hr in Hf.
    assert (quot budget W wi = quot budget W wj) by lia. enough (budget * wj mod W <= budget * wi mod W) by nia.
    apply Hf. intros Hin. apply Hwj. by apply (list_elem_of_fmap_2 re_index) in Hin.
  - intros i w a Hi Ha. apply (alloc_at budget weights ids Hlen i w a Hi) in Ha. fold W rows in Ha.
    case_bool_decide as Hin; [right|left; unfold quot in Ha; lia].
    apply (winner_weight budget weights ids Hb Hw Hlen Hpos i w Hi) in Hin as (_ & ? & _). done.
  - intros i j wi wj ni nj Hi Hj Hni Hnj Hai Haj.
    apply (alloc_at budget weights ids Hlen i wi _ Hi) in Hai. apply (alloc_at budget weights ids Hlen j wj _ Hj) in Haj.
    fold W rows in Hai, Haj. unfold quot in Hai, Haj.
    apply (left_over_to_first budget weights ids Hb Hw Hlen Hpos i j wi wj ni nj); try done; fold W rows.
    + clear Haj. case_bool_decide; [done|lia].
    + clear Hai. case_bool_decide; [lia|done].
Qed.

(** C21: The division of a budget is exact and fair. For fewer than 2^64
    instances ([2 ^ 64 * count <= u128_max]) with 64-bit weights of which at
    least one is positive, it succeeds, so none of the code's overflow exits is
    taken; it hands out the whole budget; it gives everyone the proportional
    share rounded down or, only where there is a remainder, one unit more,
    nothing to a weight of zero, and never less to a larger weight; and the
    units left over go to the largest remainders, equal remainders in the order
    of the instance names and then of the positions. *)
Theorem AllocateFairBudget_exact budget weights ids :
  is_u64 budget -> Forall is_u64 weights -> length weights = length ids ->
  2 ^ 64 * Z.of_nat (length weights) <= u128_max -> 0 < zsum (fun z => z) weights ->
  exists allocs, AllocateFairBudget budget weights ids = Some allocs /\
    length allocs = length weights /\ zsum (fun z => z) allocs = budget /\
    (forall i w a, weights !! i = Some w -> allocs !! i = Some a ->
       0 <= a /\ a * zsum (fun z => z) weights < budget * w + zsum (fun z => z) weights /\
       budget * w < a * zsum (fun z => z) weights + zsum (fun z => z) weights /\ (w = 0 -> a = 0)) /\
    (forall i j wi wj ai aj, weights !! i = Some wi -> weights !! j = Some wj -> allocs !! i = Some ai -> allocs !! j = Some aj ->
       wi < wj -> ai <= aj) /\
    (let share w := budget * w / zsum (fun z => z) weights in
     let remainder w := budget * w mod zsum (fun z => z) weights in
     (forall i w a, weights !! i = Some w -> allocs !! i = Some a -> a = share w \/ (a = share w + 1 /\ 0 < remainder w)) /\
     (forall i j wi wj ni nj, weights !! i = Some wi -> weights !! j = Some wj -> ids !! i = Some ni -> ids !! j = Some nj ->
        allocs !! i = Some (share wi + 1) -> allocs !! j = Some (share wj) ->
        goes_first (remainder wi) ni i (remainder wj) nj j)).
Proof. exact (AllocateFairBudget_spec budget weights ids). Qed.

(** ** The plan *)

Lemma checked_multiply_ok a n : 0 < a -> 0 <= n -> a * n <= u64_max -> checked_multiply a n = Some (a * n).
Proof.
  intros Ha Hn Hle. unfold checked_multiply. rewrite (proj2 (Z.eqb_neq _ _)) by lia.
  rewrite (proj2 (Z.ltb_ge _ _)); [done|]. apply Z.div_le_lower_bound; lia.
Qed.

Lemma add_extra_ok batches extra B X :
  length extra = length (filter (fun b => b <> 0) batches) ->
  (forall b, b ∈ batches -> b <= B) -> (forall x, x ∈ extra -> 0 <= x <= X) -> B + X <= u64_max ->
  exists s, add_extra batches extra = Some s /\ Forall2 (fun b s => b <= s) batches s.
Proof.
  revert extra. induction batches as [|b batches IH]; intros extra Hlen HB HX Hmax; cbn [add_extra]; [by eexists|].
  destruct (Z.eqb_spec b 0) as [->|Hb].
  - rewrite filter_cons_False in Hlen by lia. destruct (IH extra) as (s & -> & Hs); [done|intros; apply HB; by right|done|done|].
    eexists. split; [done|]. constructor; [done|exact Hs].
  - rewrite filter_cons_True in Hlen by done. destruct extra as [|x extra]; [done|]. cbn [length] in Hlen.
    pose proof (HB b ltac:(left)). pose proof (HX x ltac:(left)). rewrite (proj2 (Z.ltb_ge _ _)) by lia.
    destruct (IH extra) as (s & -> & Hs); [lia|intros; apply HB; by right|intros; apply HX; by right|done|].
    eexists. split; [done|]. constructor; [lia|exact Hs].
Qed.

(** The sizes of an item: within the limits, a sample for every key of the
    batch, and when the sample is capped the configured ratio of samples to
    keys kept, but for a batch of one. *)
Definition sizes_ok (configured normalized raw_batch raw_sampling batch sampling : Z) : Prop :=
  1 <= batch <= Z.min configured (kSizeLimit - 1) /\ batch <= raw_batch /\
  batch <= sampling <= Z.min normalized (kSizeLimit - 1) /\
  (sampling < raw_sampling -> configured < normalized -> batch * normalized <= sampling * configured \/ batch = 1).

Lemma cap_item_ok bs norm rb rs :
  0 < bs <= norm -> norm < 2 ^ 64 -> 0 <= rb <= rs ->
  (rb = 0 -> (cap_item bs norm rb rs).1 = 0) /\
  (0 < rb -> sizes_ok bs norm rb rs (cap_item bs norm rb rs).1 (cap_item bs norm rb rs).2).
Proof.
  intros Hbs Hn Hr. unfold cap_item, sizes_ok. assert (Hk : kSizeLimit = 65536) by done. rewrite Hk.
  set (s := Z.min rs (Z.min norm (65536 - 1))). set (b := Z.min rb (Z.min bs (65536 - 1))).
  assert (Hsb : 0 <= s * bs < 2 ^ 128) by (unfold s; nia).
  unfold u128. rewrite Z.mod_small by done.
  assert (Hq : 0 <= s * bs / norm <= s) by (split; [apply Z.div_pos; lia|apply Z.div_le_upper_bound; unfold s in *; nia]).
  assert (Hqm : s * bs / norm * norm <= s * bs) by (pose proof (Z.mul_div_le (s * bs) norm ltac:(lia)); lia).
  destruct (Z.eqb_spec s rs) as [Es|Es]; cbn [negb andb].
  - cbn [fst snd]. split; [unfold b; lia|]. intros Hp. rewrite (proj2 (Z.eqb_neq b 0)) by (unfold b; lia). unfold b. split_and!; lia.
  - assert (Hs : s = Z.min norm (65536 - 1)) by (unfold s in *; lia). destruct (Z.ltb_spec bs norm) as [Hlt|Hge]; cbn [fst snd].
    + rewrite !u64_small by (unfold is_u64; destruct (_ && _); lia). split.
      { intros Hrb. assert (Hb0 : b = 0) by (unfold b; lia). rewrite Hb0. change (0 <? 0) with false. rewrite andb_false_r. lia. }
      intros Hp. assert (Hb : 0 < b) by (unfold b; lia). rewrite (proj2 (Z.ltb_lt 0 b) Hb), andb_true_r.
      destruct (Z.eqb_spec (s * bs / norm) 0) as [E0|Hne].
      * rewrite (proj2 (Z.eqb_neq (Z.min b 1) 0)) by lia. unfold b in *. split_and!; try lia.
      * rewrite (proj2 (Z.eqb_neq (Z.min b (s * bs / norm)) 0)) by lia. unfold b in *. split_and!; try lia. intros _ _. left. nia.
    + split; [unfold b; lia|]. intros Hp. rewrite (proj2 (Z.eqb_neq b 0)) by (unfold b; lia). unfold b. split_and!; lia.
Qed.

#[local] Instance item_before_total : Total item_before.
Proof.
  intros a b. unfold item_before, item_first.
  destruct (Z.eqb_spec (it_weight a) (it_weight b)) as [E|Hn]; simpl.
  2: { rewrite (proj2 (Z.eqb_neq (it_weight b) (it_weight a))) by lia. simpl.
       destruct (Z.ltb_spec (it_weight a) (it_weight b)); [right|by left]. apply Z.ltb_ge. lia. }
  rewrite (proj2 (Z.eqb_eq _ _) (eq_sym E)). simpl.
  destruct (Z.eqb_spec (it_batch_size a) (it_batch_size b)) as [E1|Hn]; simpl.
  2: { rewrite (proj2 (Z.eqb_neq (it_batch_size b) (it_batch_size a))) by lia. simpl.
       destruct (Z.ltb_spec (it_batch_size a) (it_batch_size b)); [right|by left]. apply Z.ltb_ge. lia. }
  rewrite (proj2 (Z.eqb_eq _ _) (eq_sym E1)). simpl.
  destruct (decide (instance_id_ (it_instance a) = instance_id_ (it_instance b))) as [Ei|Hi].
  - rewrite !bool_decide_eq_true_2 by done. simpl. destruct (Nat.ltb_spec (it_original_index b) (it_original_index a)); [right|by left].
    apply Nat.ltb_ge. lia.
  - rewrite !bool_decide_eq_false_2 by congruence. simpl.
    destruct (chars_ltb (chars_of (instance_id_ (it_instance b))) (chars_of (instance_id_ (it_instance a)))) eqn:El; [right|by left].
    by apply (ltb_asym chars_ltb).
Qed.

Definition heavier (a b : FairReclaimPlanItem) : Prop := it_weight b <= it_weight a.

Lemma sorted_items l : StronglySorted heavier (merge_sort item_before l).
Proof.
  apply Sorted_StronglySorted; [intros a b c; unfold heavier; lia|].
  induction (Sorted_merge_sort item_before l) as [|a k _ IH Hd]; constructor; [done|].
  destruct Hd as [|c k' Hac]; constructor. unfold item_before, item_first, heavier in *.
  destruct (Z.eqb_spec (it_weight c) (it_weight a)); simpl in Hac; [lia|]. apply Z.ltb_ge in Hac. lia.
Qed.

Section candidates.
Variables (dim : FairWeightDimension) (w : WaterLevelExceed) (gmi : string -> option IndexerUsage).

Definition candidate_ok (infos : list (option InstanceInfo)) (c : InstanceInfo * Z * nat) : Prop :=
  exists u, infos !! c.2 = Some (Some c.1.1) /\ gmi (instance_id_ c.1.1) = Some u /\ c.1.2 = item_weight dim w u /\ c.1.2 <> 0.

Lemma candidates_ok infos : Forall (candidate_ok infos) (plan_candidates dim w gmi infos).
Proof.
  apply Forall_forall. intros [[info weight] i] Hc. unfold plan_candidates in Hc.
  apply list_elem_of_omap in Hc as ([j oi] & Hin & Hc). apply list_elem_of_lookup_1 in Hin as [k Hk].
  rewrite list_lookup_imap in Hk. destruct (infos !! k) as [x|] eqn:Ek; [|done]. simpl in Hk. injection Hk as <- <-.
  simpl in Hc. destruct x as [info'|]; [|done]. simpl in Hc. destruct (gmi (instance_id_ info')) as [u|] eqn:Eg; [|done].
  simpl in Hc. destruct (Z.eqb_spec (item_weight dim w u) 0); [done|]. injection Hc as <- <- <-.
  exists u. split_and!; done.
Qed.

Lemma candidates_nodup infos : NoDup (snd <$> plan_candidates dim w gmi infos).
Proof.
  unfold plan_candidates.
  assert (G : forall (l : list (nat * option InstanceInfo)), NoDup l.*1 ->
    NoDup (snd <$> omap (fun ii : nat * option InstanceInfo => info ← ii.2; u ← gmi (instance_id_ info);
      let weight := item_weight dim w u in if weight =? 0 then None else Some (info, weight, ii.1)) l) /\
    forall i, i ∈ snd <$> omap (fun ii : nat * option InstanceInfo => info ← ii.2; u ← gmi (instance_id_ info);
      let weight := item_weight dim w u in if weight =? 0 then None else Some (info, weight, ii.1)) l -> i ∈ l.*1).
  { induction l as [|[j oi] l IH]; intros Hnd; [split; [constructor|done]|]. apply NoDup_cons in Hnd as [Hj Hnd].
    destruct (IH Hnd) as [H1 H2]. cbn [omap list_omap fmap list_fmap fst].
    destruct oi as [info|]; cbn [mbind option_bind snd]; [|split; [done|intros; right; auto]].
    destruct (gmi (instance_id_ info)) as [u|]; cbn [mbind option_bind]; [|split; [done|intros; right; auto]].
    destruct (_ =? 0); [split; [done|intros; right; auto]|]. cbn [fmap list_fmap snd fst]. split.
    - constructor; [intros H; by apply Hj, H2|done].
    - intros i [->|Hi]%elem_of_cons; [left|right; auto]. }
  apply G. rewrite fmap_imap.
  match goal with |- NoDup ?l => replace l with (seq 0 (length infos)) end; [apply NoDup_seq|].
  apply list_eq. intros i. rewrite list_lookup_imap. destruct (infos !! i) eqn:E; simpl.
  - apply lookup_seq. apply lookup_lt_Some in E. lia.
  - apply lookup_seq_ge. apply lookup_ge_None in E. lia.
Qed.

Lemma candidates_length infos : (length (plan_candidates dim w gmi infos) <= length infos)%nat.
Proof.
  unfold plan_candidates. etrans; [|by rewrite <-(length_imap pair infos)].
  induction (imap pair infos) as [|a l IH]; [done|]. cbn [omap list_omap length]. case_match; cbn [length]; lia.
Qed.

End candidates.

Definition usage_ok (gmi : string -> option IndexerUsage) : Prop :=
  forall n u, gmi n = Some u -> wf_usage (iu_usage u) /\ is_u64 (iu_key_count u).

Lemma SaturatingAdd_u64 a b : is_u64 a -> is_u64 b -> is_u64 (SaturatingAdd a b).
Proof. unfold is_u64, SaturatingAdd, u64_max. intros. case_match eqn:E; [done|]. apply Z.ltb_ge in E. lia. Qed.

Lemma usage_by_type_u64 t d : wf_usage d -> is_u64 (GetStorageUsageByType t d).
Proof.
  intros [_ Hd]. unfold GetStorageUsageByType. case_match; [done|]. destruct (d !! _) eqn:E; [|done]. by eapply Forall_lookup_1 in E.
Qed.

Lemma item_weight_u64 dim w u : wf_usage (iu_usage u) -> is_u64 (iu_key_count u) -> is_u64 (item_weight dim w u).
Proof.
  intros Hu Hk. assert (G : forall keep, is_u64 (usage_weight keep u)).
  { intros keep. unfold usage_weight. assert (H0 : is_u64 0) by done. revert H0. generalize 0. induction all_storage_types as [|t ts IH]; intros z Hz; [done|].
    cbn [foldl]. apply IH. case_match; [|done]. by apply SaturatingAdd_u64, usage_by_type_u64. }
  destruct dim; simpl; [done|apply G|apply G|done].
Qed.

Lemma filter_zip_length {A} (l : list A) (bs : list Z) :
  length l = length bs -> length (filter (fun wb : A * Z => wb.2 <> 0) (zip l bs)) = length (filter (fun b => b <> 0) bs).
Proof.
  revert bs. induction l as [|a l IH]; intros [|b bs] Hlen; try done. cbn [zip zip_with].
  destruct (decide (b = 0)) as [->|Hb].
  - rewrite !filter_cons_False by (simpl; lia). apply IH. by injection Hlen.
  - rewrite !filter_cons_True by done. cbn [length]. f_equal. apply IH. by injection Hlen.
Qed.

Lemma zsum_filter_le {A} (P : A -> Prop) `{!forall x, Decision (P x)} (f : A -> Z) l :
  (forall a, a ∈ l -> 0 <= f a) -> zsum f (filter P l) <= zsum f l.
Proof.
  induction l as [|a l IH]; intros Hf; [done|]. specialize (IH ltac:(intros; apply Hf; by right)).
  pose proof (Hf a ltac:(left)). destruct (decide (P a)); [rewrite filter_cons_True|rewrite filter_cons_False]; try done; rewrite ?zsum_cons; lia.
Qed.

Lemma zsum_pos_elem {A} (f : A -> Z) l : 0 < zsum f l -> exists a, a ∈ l /\ 0 < f a.
Proof.
  induction l as [|a l IH]; [done|]. rewrite zsum_cons. intros H. destruct (Z.lt_ge_cases 0 (f a)); [exists a; split; [left|done]|].
  destruct IH as (b & Hb & Hp); [lia|]. exists b. split; [by right|done].
Qed.

(** The two divisions of the plan: every candidate's batch and sample. *)
Lemma plan_budgets bs norm (weights : list Z) (ids : list string) :
  Forall is_u64 weights -> Forall (fun w => w <> 0) weights -> length weights = length ids -> weights <> [] ->
  Z.of_nat (length weights) <= 2 ^ 40 -> 0 < bs <= norm -> norm < kSizeLimit ->
  exists batches extra samplings,
    AllocateFairBudget (bs * Z.of_nat (length weights)) weights ids = Some batches /\
    (let sampled := filter (fun wb : Z * string * Z => wb.2 <> 0) (zip (zip weights ids) batches) in
     AllocateFairBudget (u64 (norm * Z.of_nat (length weights) - bs * Z.of_nat (length weights))) sampled.*1.*1 sampled.*1.*2 = Some extra) /\
    add_extra batches extra = Some samplings /\
    length batches = length weights /\ Forall (fun b => 0 <= b) batches /\ zsum (fun b => b) batches = bs * Z.of_nat (length weights) /\
    Forall2 (fun b s => b <= s) batches samplings.
Proof.
  intros Hu Hnz Hlen Hne Hn Hbs Hk. unfold kSizeLimit in Hk. set (n := Z.of_nat (length weights)) in *.
  assert (Hn0 : 0 < n) by (unfold n; destruct weights; [done|simpl; lia]).
  assert (Hpos : forall l : list Z, Forall is_u64 l -> Forall (fun w => w <> 0) l -> l <> [] -> 0 < zsum (fun z => z) l).
  { intros l H1 H2 H3. destruct l as [|x l]; [done|]. rewrite zsum_cons. apply Forall_cons in H1 as [[? _] H1]. apply Forall_cons in H2 as [? H2].
    assert (0 <= zsum (fun z => z) l); [|lia]. apply zsum_nonneg. intros a Ha. eapply Forall_forall in H1; [apply H1|done]. }
  assert (B1 : 0 < bs * n < 2 ^ 56) by nia. assert (B2 : bs * n <= norm * n < 2 ^ 56) by nia.
  destruct (AllocateFairBudget_spec (bs * n) weights ids) as (batches & E1 & L1 & S1 & P1 & _);
    [unfold is_u64; lia|done|done|unfold u128_max, n in *; lia|by apply Hpos|].
  assert (N1 : Forall (fun b => 0 <= b) batches).
  { apply Forall_lookup. intros i b Hi. destruct (lookup_lt_is_Some_2 weights i) as [x Hx]; [apply lookup_lt_Some in Hi; lia|].
    by destruct (P1 i x b Hx Hi). }
  set (sampled := filter (fun wb : Z * string * Z => wb.2 <> 0) (zip (zip weights ids) batches)).
  assert (Hss : sampled ⊆ zip (zip weights ids) batches) by (intros x Hx; by apply list_elem_of_filter in Hx as [_ ?]).
  assert (Hsw : forall x, x ∈ sampled.*1.*1 -> x ∈ weights).
  { intros x ([x' y] & -> & ([[x'' y''] z] & E & Hin)%list_elem_of_fmap)%list_elem_of_fmap. simpl in *. injection E as -> ->.
    apply Hss, elem_of_zip_l, elem_of_zip_l in Hin. done. }
  assert (Hs0 : sampled <> []).
  { destruct (zsum_pos_elem (fun z => z) batches) as (b & Hb & Hbp); [rewrite S1; lia|].
    apply list_elem_of_lookup_1 in Hb as [i Hi]. destruct (lookup_lt_is_Some_2 weights i) as [x Hx]; [apply lookup_lt_Some in Hi; lia|].
    destruct (lookup_lt_is_Some_2 ids i) as [y Hy]; [apply lookup_lt_Some in Hi; lia|].
    assert (Hin : ((x, y), b) ∈ sampled); [|intros E; rewrite E in Hin; by apply elem_of_nil in Hin].
    apply list_elem_of_filter. split; [simpl; lia|]. eapply list_elem_of_lookup_2 with i. by rewrite !lookup_zip_with, Hx, Hy, Hi. }
  assert (Hsl : length sampled.*1.*1 = length sampled) by by rewrite !length_fmap.
  assert (Hfl : length sampled = length (filter (fun b => b <> 0) batches)).
  { apply filter_zip_length. rewrite length_zip_with. lia. }
  assert (Hle : (length sampled <= length weights)%nat).
  { rewrite Hfl, <-L1. apply length_filter. }
  rewrite u64_small by (unfold is_u64; lia).
  destruct (AllocateFairBudget_spec (norm * n - bs * n) sampled.*1.*1 sampled.*1.*2) as (extra & E2 & L2 & S2 & P2 & _).
  { unfold is_u64. lia. }
  { apply Forall_forall. intros x Hx%Hsw. by eapply Forall_forall in Hu. }
  { by rewrite !length_fmap. }
  { rewrite Hsl. unfold u128_max, n in *. lia. }
  { apply Hpos; [|..].
    - apply Forall_forall. intros x Hx%Hsw. by eapply Forall_forall in Hu.
    - apply Forall_forall. intros x Hx%Hsw. by eapply Forall_forall in Hnz.
    - intros E. apply (f_equal length) in E. rewrite Hsl in E. by destruct sampled. }
  assert (N2 : forall x, x ∈ extra -> 0 <= x).
  { intros x Hx. apply list_elem_of_lookup_1 in Hx as [i Hi]. destruct (lookup_lt_is_Some_2 sampled.*1.*1 i) as [y Hy]; [apply lookup_lt_Some in Hi; lia|].
    by destruct (P2 i y x Hy Hi). }
  destruct (add_extra_ok batches extra (bs * n) (norm * n - bs * n)) as (samplings & E3 & F3).
  { lia. }
  { intros b Hb. rewrite <-S1. apply (zsum_elem_le (fun z => z)); [|done]. by apply Forall_forall. }
  { intros x Hx. split; [by apply N2|]. rewrite <-S2. by apply (zsum_elem_le (fun z => z)). }
  { unfold u64_max. lia. }
  exists batches, extra, samplings. split_and!; done.
Qed.

Lemma items_batch_sum bs norm cands batches samplings :
  0 < bs <= norm -> norm < 2 ^ 64 -> Forall (fun b => 0 <= b) batches -> Forall2 (fun b s => b <= s) batches samplings ->
  zsum it_batch_size (zip_with (make_item bs norm) cands (zip batches samplings)) <= zsum (fun b => b) batches.
Proof.
  intros Hb Hn Hnn F. revert cands. induction F as [|b s batches samplings Hle F IH]; intros [|c cands]; cbn [zip zip_with]; try done.
  - change (0 <= zsum (fun b => b) (b :: batches)). apply zsum_nonneg. by apply Forall_forall.
  - apply Forall_cons in Hnn as [Hb0 Hnn]. rewrite !zsum_cons. specialize (IH Hnn cands).
    enough (it_batch_size (make_item bs norm c (b, s)) <= b) by (unfold zip in *; lia).
    destruct (cap_item_ok bs norm b s) as [Hz Hp]; [done|done|lia|]. destruct c as [[info weight] idx]. unfold make_item. cbn [fst snd] in *.
    destruct (cap_item bs norm b s) as [batch sampling]. cbn [it_batch_size fst snd] in *.
    destruct (decide (b = 0)) as [E|]; [rewrite Hz by done; lia|]. destruct (Hp ltac:(lia)) as (_ & ? & _). lia.
Qed.

Lemma items_index bs norm cands pairs :
  sublist (it_original_index <$> zip_with (make_item bs norm) cands pairs) (snd <$> cands).
Proof.
  revert pairs. induction cands as [|[[info weight] idx] cands IH]; intros [|[b s] pairs]; cbn [zip_with fmap list_fmap]; try apply sublist_nil_l.
  unfold make_item at 1. cbn [fst snd]. destruct (cap_item bs norm b s). cbn [it_original_index]. constructor. apply IH.
Qed.

(** The fair plan makes progress within its limits: for any sizes the
    setters allow, when a water level is exceeded and some instance has a
    weight, a plan is built and is not empty; each item is an instance of the
    group with its weight, at most once, heaviest first; its batch has between
    one key and the configured number, never more keys than samples, and keeps
    the configured ratio of samples to keys; and the batches together do not
    exceed the group's budget. *)
Theorem fair_plan_built w gmi infos ss bs :
  usage_ok gmi -> 0 < ss < kSizeLimit -> 0 < bs < kSizeLimit -> Z.of_nat (length infos) <= 2 ^ 40 ->
  plan_dimension w <> dim_NONE -> plan_candidates (plan_dimension w) w gmi infos <> [] ->
  exists plan, BuildFairReclaimPlan w gmi infos ss bs = Some plan /\
    pl_items plan <> [] /\ zsum it_batch_size (pl_items plan) <= bs * Z.of_nat (pl_effective_instance_count plan) /\
    NoDup (it_original_index <$> pl_items plan) /\ StronglySorted heavier (pl_items plan) /\
    (forall it, it ∈ pl_items plan ->
       sizes_ok bs (pl_normalized_sampling_size plan) (it_raw_batch_size it) (it_raw_sampling_size it) (it_batch_size it) (it_sampling_size it) /\
       exists u, infos !! it_original_index it = Some (Some (it_instance it)) /\ gmi (instance_id_ (it_instance it)) = Some u /\
         it_weight it = item_weight (pl_dimension plan) w u /\ 0 < it_weight it).
Proof.
  intros Hu Hss Hbs Hn Hdim Hc. set (dim := plan_dimension w) in *. set (cands := plan_candidates dim w gmi infos) in *.
  set (norm := if ss <? bs then bs else ss). assert (Hnorm : 0 < bs <= norm /\ norm < kSizeLimit) by (unfold norm; destruct (Z.ltb_spec ss bs); lia).
  set (weights := (fun c => c.1.2) <$> cands). set (ids := (fun c => instance_id_ c.1.1) <$> cands).
  assert (Hcn : (length cands <= length infos)%nat) by apply candidates_length.
  assert (Hwl : length weights = length cands) by apply length_fmap.
  pose proof (candidates_ok dim w gmi infos) as Hok. fold cands in Hok.
  assert (Hw64 : Forall is_u64 weights /\ Forall (fun x => x <> 0) weights).
  { split; apply Forall_fmap; eapply Forall_impl; try exact Hok; intros c (u & _ & Hg & Hw & Hnz); [|exact Hnz].
    apply Hu in Hg as [? ?]. unfold compose. rewrite Hw. by apply item_weight_u64. }
  destruct (plan_budgets bs norm weights ids) as (batches & extra & samplings & E1 & E2 & E3 & L1 & N1 & S1 & F).
  { apply Hw64. }
  { apply Hw64. }
  { unfold weights, ids. by rewrite !length_fmap. }
  { unfold weights. destruct cands; done. }
  { rewrite Hwl. lia. }
  { lia. }
  { lia. }
  rewrite Hwl in *. set (items := zip_with (make_item bs norm) cands (zip batches samplings)).
  assert (Hk : kSizeLimit = 65536) by done.
  exists (mkPlan dim norm (bs * Z.of_nat (length cands)) (norm * Z.of_nat (length cands)) (length cands)
            (merge_sort item_before (filter (fun it => it_batch_size it <> 0) items))). split.
  { unfold BuildFairReclaimPlan. rewrite (proj2 (Z.eqb_neq ss 0)), (proj2 (Z.eqb_neq bs 0)) by lia. cbn [orb]. fold norm dim.
    change (plan_candidates dim w gmi infos) with cands. change ((fun c => c.1.2) <$> cands) with weights.
    change ((fun c => instance_id_ c.1.1) <$> cands) with ids. destruct dim; [done|..];
    (rewrite (proj2 (Nat.eqb_neq _ _)) by (destruct cands; done);
     rewrite !checked_multiply_ok by (unfold u64_max; nia); cbn [mbind option_bind];
     rewrite E1; cbn [mbind option_bind]; rewrite E2; cbn [mbind option_bind]; rewrite E3; cbn [mbind option_bind]; reflexivity). }
  assert (Hitem : forall it, it ∈ items -> exists i c b s, cands !! i = Some c /\ batches !! i = Some b /\ samplings !! i = Some s /\
            0 <= b <= s /\ it = mkItem c.1.1 c.1.2 b s (cap_item bs norm b s).1 (cap_item bs norm b s).2 c.2).
  { intros it [i Hi]%list_elem_of_lookup_1. unfold items in Hi. rewrite lookup_zip_with in Hi. destruct (cands !! i) as [c|] eqn:Ec; [|done].
    rewrite lookup_zip_with in Hi. destruct (batches !! i) as [b|] eqn:Eb; [|done]. destruct (samplings !! i) as [s|] eqn:Es; [|done].
    cbn in Hi. injection Hi as <-. exists i, c, b, s. split_and!; try done.
    - by eapply Forall_lookup_1 in N1.
    - by eapply (Forall2_lookup_lr _ _ _ i b s) in F.
    - destruct c as [[info weight] idx]. unfold make_item. cbn [fst snd]. by destruct (cap_item bs norm b s). }
  assert (Hsizes : forall it, it ∈ items -> it_batch_size it <> 0 ->
            sizes_ok bs norm (it_raw_batch_size it) (it_raw_sampling_size it) (it_batch_size it) (it_sampling_size it)).
  { intros it (i & c & b & s & _ & _ & _ & Hbs' & ->)%Hitem Hne. cbn [it_batch_size it_raw_batch_size it_raw_sampling_size it_sampling_size] in *.
    destruct (cap_item_ok bs norm b s) as [Hz Hp]; [lia|lia|lia|]. apply Hp. destruct (decide (b = 0)) as [->|]; [by rewrite Hz in Hne|lia]. }
  assert (Hin : forall it, it ∈ merge_sort item_before (filter (fun it => it_batch_size it <> 0) items) <-> it_batch_size it <> 0 /\ it ∈ items).
  { intros it. by rewrite merge_sort_Permutation, list_elem_of_filter. }
  cbn [pl_items pl_effective_instance_count pl_normalized_sampling_size pl_dimension]. split_and!.
  - destruct (zsum_pos_elem (fun b => b) batches) as (b & Hb & Hbp).
    { rewrite S1. destruct cands; [done|simpl; nia]. }
    apply list_elem_of_lookup_1 in Hb as [i Hi]. destruct (lookup_lt_is_Some_2 cands i) as [c Hci]; [apply lookup_lt_Some in Hi; lia|].
    destruct (Forall2_lookup_l _ _ _ i b F Hi) as (s & Hs & Hbs').
    assert (Hit : make_item bs norm c (b, s) ∈ items).
    { eapply list_elem_of_lookup_2 with i. unfold items. by rewrite !lookup_zip_with, Hci, Hi, Hs. }
    intros Enil. apply (elem_of_nil (make_item bs norm c (b, s))). rewrite <-Enil. apply Hin. split; [|done].
    destruct (cap_item_ok bs norm b s) as [_ Hp]; [lia|lia|lia|]. specialize (Hp Hbp) as [Hp _].
    destruct c as [[info weight] idx]. unfold make_item. cbn [fst snd]. destruct (cap_item bs norm b s). simpl in *. lia.
  - rewrite (zsum_perm _ _ _ (merge_sort_Permutation item_before _)). etrans; [apply zsum_filter_le|].
    { intros it (i & c & b & s & _ & _ & _ & Hbs' & ->)%Hitem. cbn [it_batch_size].
      destruct (cap_item_ok bs norm b s) as [Hz Hp]; [lia|lia|lia|]. destruct (decide (b = 0)) as [E|]; [by rewrite Hz|].
      destruct (Hp ltac:(lia)) as [? _]. lia. }
    rewrite <-S1. apply items_batch_sum; [lia|lia|done|done].
  - rewrite (merge_sort_Permutation item_before). eapply sublist_NoDup; [apply (candidates_nodup dim w gmi infos)|].
    etrans; [apply sublist_fmap, sublist_filter|apply items_index].
  - apply sorted_items.
  - intros it [Hne Hit]%Hin. split; [by apply Hsizes|].
    apply Hitem in Hit as (i & c & b & s & Hci & _ & _ & _ & ->). cbn [it_original_index it_instance it_weight].
    eapply Forall_lookup_1 in Hok; [|exact Hci]. destruct Hok as (u & H1 & H2 & H3 & H4). exists u. split_and!; try done.
    destruct (Hu _ _ H2) as [Hwf Hku]. destruct (item_weight_u64 dim w u Hwf Hku). lia.
Qed.

(** ** Examples *)

(** Ten units over weights 3, 0, 3 and 1: the two equal weights get four each
    (the larger remainders), the last instance two. *)
Lemma AllocateFairBudget_exact_witness :
  exists allocs, AllocateFairBudget 10 [3; 0; 3; 1] ["b"; "z"; "a"; "c"] = Some allocs /\
    allocs = [4; 0; 4; 2] /\ zsum (fun z => z) allocs = 10.
Proof.
  destruct (AllocateFairBudget_exact 10 [3; 0; 3; 1] ["b"; "z"; "a"; "c"]) as (allocs & H1 & _ & H3 & _);
    [by vm_compute|by repeat constructor|done|by vm_compute|by vm_compute|].
  exists allocs. split_and!; [exact H1| |exact H3].
  enough (Some allocs = Some [4; 0; 4; 2]) by congruence. rewrite <-H1. by vm_compute.
Defined.

Definition demo_info (iid : string) : InstanceInfo := mkInfo "" "group" iid 16 [] no_deployment [] 0.
Definition demo_infos : list (option InstanceInfo) := [Some (demo_info "x"); None; Some (demo_info "y"); Some (demo_info "idle")].
Definition demo_usage (iid : string) : option IndexerUsage :=
  if bool_decide (iid = "x") then Some (mkUsage [0; 600; 0; 0; 0; 0; 0; 900; 0; 0] 6 100)
  else if bool_decide (iid = "y") then Some (mkUsage [0; 150; 0; 0; 50; 0; 0; 0; 0; 0] 2 100)
  else if bool_decide (iid = "idle") then Some (mkUsage usage_zero 0 100) else None.

Lemma demo_usage_ok : usage_ok demo_usage.
Proof.
  intros n u. unfold demo_usage. repeat case_bool_decide; intros [= <-]; (split; [split; [done|]|done]); by repeat constructor.
Qed.

(** The group is over its bytes: "x" uses three quarters of them and is capped
    at the configured batch, "y" keeps its quarter. *)
Lemma fair_plan_built_witness :
  exists plan, BuildFairReclaimPlan group_over demo_usage demo_infos 40 10 = Some plan /\ pl_items plan <> [] /\
    (fun it => (instance_id_ (it_instance it), it_batch_size it, it_sampling_size it)) <$> pl_items plan = [("x", 10, 40); ("y", 5, 20)].
Proof.
  destruct (fair_plan_built group_over demo_usage demo_infos 40 10) as (plan & H1 & H2 & _);
    [apply demo_usage_ok|by vm_compute|by vm_compute|by vm_compute|done|by vm_compute|].
  exists plan. split_and!; [exact H1|exact H2|].
  assert (E : Some plan = BuildFairReclaimPlan group_over demo_usage demo_infos 40 10) by done.
  vm_compute in E. injection E as ->. reflexivity.
Defined.
