(* ===== verification/ReclaimSample.v ===== *)
(** * ReclaimSample: sampling the keys to consider

    [DoKeySamplingWithSize] of [manager/cache_reclaimer.cc]: a sample is split
    into tasks for the worker pool, all at once or, for the fair plan, in waves
    that never exceed the idle workers. The indexer, the worker pool and the
    clock are the environment [E]: every question put to them may change it. *)

From stdpp Require Import base gmap sets list strings.
From Stdlib Require Import ZArith Lia.
From S2P Require Import Prelude MetaTypes MetaBackend.

Local Open Scope Z_scope.

Definition KeySamplingResult : Type := list KeyType * list (gmap string string).

Section sampling.
Context {E : Type}.
(** [MetaIndexer::SampleReclaimKeys] and [GetProperties] of the LRU time. *)
Variable SampleReclaimKeys : Z -> E -> (ErrorCode * list KeyType) * E.
Variable GetProperties : list KeyType -> E -> (ErrorCode * list (gmap string string)) * E.
(** Has the sampling been cancelled, or, when waves are bounded, the reclaimer
    been stopped or paused? *)
Variable aborted : bool -> E -> bool * E.
(** Is the task's future ready before the shared deadline? *)
Variable in_time : E -> bool * E.
(** [in_flight_sampling_tasks_]. *)
Variable in_flight : E -> Z * E.

(** The lambda [sample], one task. *)
Definition sample (bounded_waves : bool) (sampling_sz : Z) (e : E) : option KeySamplingResult * E :=
  let '(stop, e) := aborted bounded_waves e in
  if stop then (None, e)
  else
    let '((ec, keys), e) := SampleReclaimKeys sampling_sz e in
    if bool_decide (ec <> EC_OK) then (None, e)
    else if bool_decide (keys = []) then (None, e)
    else
      let '(stop, e) := aborted bounded_waves e in
      if stop then (None, e)
      else
        let '((ec, maps), e) := GetProperties keys e in
        let maps := if bool_decide (ec <> EC_OK) then replicate (length keys) ∅
                    else if negb (length keys =? length maps)%nat then replicate (length keys) ∅
                    else maps in
        (Some (keys, maps), e).

(** A task of the pool and the wait for its result. *)
Definition pooled_sample (bounded_waves : bool) (sampling_sz : Z) (e : E) : option KeySamplingResult * E :=
  let '(res, e) := sample bounded_waves sampling_sz e in
  let '(ok, e) := in_time e in
  (if ok then res else None, e).

(** The results of the tasks in order; [None] as soon as one is missing. *)
Fixpoint run_tasks (bounded_waves : bool) (sizes : list Z) (e : E) : option KeySamplingResult * E :=
  match sizes with
  | [] => (Some ([], []), e)
  | n :: sizes =>
      let '(res, e) := pooled_sample bounded_waves n e in
      match res with
      | None => (None, e)
      | Some (keys, maps) =>
          let '(rest, e) := run_tasks bounded_waves sizes e in
          (match rest with Some (keys', maps') => Some (keys ++ keys', maps ++ maps') | None => None end, e)
      end
  end.

(** The tasks submitted at once: the last one takes what is left. *)
Fixpoint task_sizes (worker_sz : nat) (per_task todo : Z) : list Z :=
  match worker_sz with
  | O => []
  | S O => [todo]
  | S n => per_task :: task_sizes n per_task (todo - per_task)
  end.

(** The tasks of one wave, and what is left to sample. *)
Fixpoint wave_sizes (wave_task_count : nat) (per_task todo : Z) : list Z * Z :=
  match wave_task_count with
  | O => ([], todo)
  | S n => let sz := Z.min per_task todo in
           let '(sizes, todo) := wave_sizes n per_task (todo - sz) in (sz :: sizes, todo)
  end.

Fixpoint run_waves (fuel : nat) (workers per_task todo : Z) (e : E) : option KeySamplingResult * E :=
  if todo <=? 0 then (Some ([], []), e)
  else match fuel with
  | O => (None, e)
  | S fuel =>
      let '(busy, e) := in_flight e in
      if workers <=? busy then (None, e)
      else
        let wave_task_count := Z.min ((todo - 1) / per_task + 1) (workers - busy) in
        let '(sizes, todo) := wave_sizes (Z.to_nat wave_task_count) per_task todo in
        let '(res, e) := run_tasks true sizes e in
        match res with
        | None => (None, e)
        | Some (keys, maps) =>
            let '(rest, e) := run_waves fuel workers per_task todo e in
            (match rest with Some (keys', maps') => Some (keys ++ keys', maps ++ maps') | None => None end, e)
        end
  end.

Definition DoKeySamplingWithSize (workers sampling_size sampling_size_per_task : Z) (total_sampling_size : Z)
    (bounded_waves : bool) (e : E) : option KeySamplingResult * E :=
  let total := if bounded_waves then total_sampling_size else sampling_size in
  if total =? 0 then (None, e)
  else
    let per_task := if (sampling_size_per_task =? 0) || (total <? sampling_size_per_task) then total else sampling_size_per_task in
    let worker_sz := (total + per_task - 1) / per_task in
    if (worker_sz =? 1) && negb bounded_waves then sample false total e
    else if bounded_waves then run_waves (Z.to_nat total) workers per_task total e
    else
      let '(busy, e) := in_flight e in
      if workers <=? busy then (None, e)
      else run_tasks false (task_sizes (Z.to_nat worker_sz) per_task total) e.

(** ** What a sample is *)

Definition paired (res : option KeySamplingResult) : Prop :=
  match res with Some (keys, maps) => length keys = length maps | None => True end.

Lemma sample_paired bounded n e : paired (sample bounded n e).1.
Proof.
  unfold sample. destruct (aborted bounded e) as [[] e1]; [done|]. destruct (SampleReclaimKeys n e1) as [[ec keys] e2].
  case_bool_decide; [done|]. case_bool_decide; [done|]. destruct (aborted bounded e2) as [[] e3]; [done|].
  destruct (GetProperties keys e3) as [[ec' maps] e4]. simpl. case_bool_decide; [by rewrite length_replicate|].
  destruct (Nat.eqb_spec (length keys) (length maps)); simpl; [done|by rewrite length_replicate].
Qed.

Lemma run_tasks_paired bounded sizes e : paired (run_tasks bounded sizes e).1.
Proof.
  revert e. induction sizes as [|n sizes IH]; intros e; cbn [run_tasks]; [done|]. unfold pooled_sample.
  pose proof (sample_paired bounded n e) as H. destruct (sample bounded n e) as [res e1]. destruct (in_time e1) as [[] e2]; [|done].
  destruct res as [[keys maps]|]; [|done]. specialize (IH e2). destruct (run_tasks bounded sizes e2) as [[[keys' maps']|] e3]; [|done].
  simpl in *. rewrite !length_app. lia.
Qed.

Lemma run_waves_paired fuel workers per_task todo e : paired (run_waves fuel workers per_task todo e).1.
Proof.
  revert todo e. induction fuel as [|fuel IH]; intros todo e; cbn [run_waves]; [by destruct (_ <=? _)|].
  destruct (_ <=? _); [done|]. destruct (in_flight e) as [busy e1]. destruct (workers <=? busy); [done|].
  destruct (wave_sizes _ _ _) as [sizes todo']. pose proof (run_tasks_paired true sizes e1) as H.
  destruct (run_tasks true sizes e1) as [[[keys maps]|] e2]; [|done]. specialize (IH todo' e2).
  destruct (run_waves fuel workers per_task todo' e2) as [[[keys' maps']|] e3]; [|done]. simpl in *. rewrite !length_app. lia.
Qed.

(** The assertion of [MakeBatchByLRUWithSize] holds of every sample: one
    property map per key. *)
Lemma DoKeySampling_paired workers total per_task size bounded e :
  paired (DoKeySamplingWithSize workers total per_task size bounded e).1.
Proof.
  unfold DoKeySamplingWithSize. destruct (_ =? 0); [done|]. destruct (_ && _); [apply sample_paired|].
  destruct bounded; [apply run_waves_paired|]. destruct (in_flight e) as [busy e1]. destruct (_ <=? _); [done|apply run_tasks_paired].
Qed.

End sampling.

(** ** The tasks ask for the whole sample *)

Lemma task_sizes_ok n per_task todo :
  0 < per_task -> (0 < n)%nat -> (Z.of_nat n - 1) * per_task < todo <= Z.of_nat n * per_task ->
  zsum (fun z => z) (task_sizes n per_task todo) = todo /\ Forall (fun z => 1 <= z <= per_task) (task_sizes n per_task todo).
Proof.
  intros Hp Hn. revert todo. induction n as [|[|n] IH]; intros todo Ht; [lia| |].
  - cbn [task_sizes]. split; [unfold zsum; simpl; lia|]. constructor; [lia|constructor].
  - change (task_sizes (S (S n)) per_task todo) with (per_task :: task_sizes (S n) per_task (todo - per_task)).
    destruct (IH ltac:(lia) (todo - per_task)) as [H1 H2]; [rewrite !Nat2Z.inj_succ in *; nia|]. split; [rewrite zsum_cons; lia|]. constructor; [lia|done].
Qed.

Lemma wave_sizes_ok n per_task todo :
  0 < per_task -> 0 <= todo -> Z.of_nat n <= (todo - 1) / per_task + 1 ->
  zsum (fun z => z) (wave_sizes n per_task todo).1 + (wave_sizes n per_task todo).2 = todo /\
  0 <= (wave_sizes n per_task todo).2 /\ Forall (fun z => 1 <= z <= per_task) (wave_sizes n per_task todo).1 /\
  length (wave_sizes n per_task todo).1 = n.
Proof.
  intros Hp. revert todo. induction n as [|n IH]; intros todo Ht Hn; cbn [wave_sizes].
  { split_and!; [unfold zsum; simpl; lia|simpl; lia|constructor|done]. }
  assert (Hpos : 0 < todo).
  { destruct (decide (todo = 0)) as [->|]; [|lia]. exfalso. assert ((0 - 1) / per_task < 0) by (apply Z.div_lt_upper_bound; lia). lia. }
  assert (Hrest : Z.of_nat n <= (todo - Z.min per_task todo - 1) / per_task + 1).
  { destruct (Z.le_gt_cases todo per_task).
    - assert ((todo - 1) / per_task = 0) by (apply Z.div_small; lia). assert (n = 0%nat) as -> by lia.
      rewrite Z.min_r by lia. assert (-1 <= (todo - todo - 1) / per_task) by (apply Z.div_le_lower_bound; lia). lia.
    - rewrite Z.min_l by lia. replace (todo - per_task - 1) with (todo - 1 + (-1) * per_task) by lia. rewrite Z.div_add by lia. lia. }
  destruct (IH (todo - Z.min per_task todo)) as (H1 & H2 & H3 & H4); [lia|done|].
  destruct (wave_sizes n per_task _) as [sizes rest]. cbn [fst snd] in *.
  split_and!; [rewrite zsum_cons; lia|lia|constructor; [lia|done]|cbn [length]; lia].
Qed.

(** The waves terminate: with as much fuel as there are keys to sample, when
    no task fails and the pool is never saturated, they end with a result. *)
Lemma waves_terminate {E} (SampleReclaimKeys : Z -> E -> (ErrorCode * list KeyType) * E) GetProperties aborted in_time
    in_flight workers per_task todo fuel e :
  0 < per_task -> (Z.to_nat todo <= fuel)%nat ->
  (forall e, (in_flight e).1 < workers) ->
  (forall n e, (pooled_sample SampleReclaimKeys GetProperties aborted in_time true n e).1 <> None) ->
  exists res, (run_waves SampleReclaimKeys GetProperties aborted in_time in_flight fuel workers per_task todo e).1 = Some res.
Proof.
  intros Hp Hf Hidle Hok. revert todo e Hf. induction fuel as [|fuel IH]; intros todo e Hf; cbn [run_waves].
  { rewrite (proj2 (Z.leb_le _ _)) by lia. by eexists. }
  destruct (Z.leb_spec todo 0); [by eexists|]. specialize (Hidle e) as Hb. destruct (in_flight e) as [busy e1]. cbn [fst] in Hb.
  rewrite (proj2 (Z.leb_gt _ _)) by lia.
  assert (Hq : 0 <= (todo - 1) / per_task) by (apply Z.div_pos; lia).
  set (n := Z.min ((todo - 1) / per_task + 1) (workers - busy)).
  destruct (wave_sizes_ok (Z.to_nat n) per_task todo) as (H1 & H2 & H3 & H4); [done|lia|unfold n; lia|].
  destruct (wave_sizes (Z.to_nat n) per_task todo) as [sizes rest]. cbn [fst snd] in *.
  assert (Htasks : exists r, (run_tasks SampleReclaimKeys GetProperties aborted in_time true sizes e1).1 = Some r).
  { clear -Hok. revert e1. induction sizes as [|s sizes IH]; intros e1; cbn [run_tasks]; [by eexists|].
    specialize (Hok s e1). destruct (pooled_sample _ _ _ _ _ s e1) as [[[keys maps]|] e2]; [|done].
    destruct (IH e2) as [[keys' maps'] Hr]. destruct (run_tasks _ _ _ _ _ sizes e2) as [res e3]. simpl in Hr. subst res. by eexists. }
  destruct Htasks as [[keys maps] Hr]. destruct (run_tasks _ _ _ _ _ sizes e1) as [res e2]. simpl in Hr. subst res.
  assert (Hless : rest < todo).
  { destruct sizes as [|s sizes]; [simpl in H4; unfold n in *; lia|]. rewrite zsum_cons in H1. apply Forall_cons in H3 as [? H3].
    assert (0 <= zsum (fun z => z) sizes); [|lia]. apply zsum_nonneg. intros a Ha. eapply Forall_forall in H3; [|exact Ha]. lia. }
  destruct (IH rest e2) as [[keys' maps'] Hw]; [lia|]. destruct (run_waves _ _ _ _ _ fuel workers per_task rest e2) as [res e3].
  simpl in Hw. subst res. by eexists.
Qed.
