(* ===== verification/ReclaimRun.v ===== *)
(** * ReclaimRun: the reclaimer's rounds

    The control flow of [manager/cache_reclaimer.cc]: the water levels of a
    group, the reclamation of one instance ([ReclaimByLRUImpl]), the two budget
    policies of a group, and the cron round. The other components are the class
    [ReclaimEnv]: every question put to them is a state-passing operation, so
    they may change in any way between two questions. Doubles are the
    binary64 numbers of [SpecFloat]. The durations and counters that feed
    metrics, and the logs, are left out. *)

From stdpp Require Import base gmap sets list strings sorting.
From Stdlib Require Import ZArith Lia SpecFloat.
From S2P Require Import Prelude StandardUri MetaTypes StorageUsage MetaBackend Registry WriteFilter ReclaimLedger ReclaimFilter ReclaimBudget ReclaimSample.

Local Open Scope Z_scope.

(** ** Configuration *)

Inductive ReclaimPolicy := POLICY_UNSPECIFIED | POLICY_LRU | POLICY_LFU | POLICY_TTL.
Inductive InstanceReclaimBudgetPolicy := BUDGET_FIXED_PER_INSTANCE | BUDGET_USAGE_PROPORTIONAL | BUDGET_OTHER.

Record CacheReclaimStrategy := mkStrategy {
  rs_used_percentage : spec_float;
  rs_policy : ReclaimPolicy;
  rs_delay_before_delete_ms : Z;
  rs_budget_policy : InstanceReclaimBudgetPolicy;
}.

(** A group as the reclaimer reads it; [gc_strategy] is [None] without a cache
    configuration or a strategy in it. *)
Record GroupConfig := mkGroupConfig {
  gc_name : string;
  gc_quota : InstanceGroupQuota;
  gc_strategy : option CacheReclaimStrategy;
  gc_has_migrations : bool;
}.

(** The settings that the setters may change at any time. *)
Record Settings := mkSettings { st_sampling_size : Z; st_per_task : Z; st_batching_size : Z; st_sleep_interval_ms : Z }.

Definition SetSamplingSize (n : Z) (s : Settings) : ErrorCode * Settings :=
  if kSizeLimit <=? n then (EC_OUT_OF_RANGE, s)
  else (EC_OK, mkSettings n (st_per_task s) (st_batching_size s) (st_sleep_interval_ms s)).
Definition SetBatchingSize (n : Z) (s : Settings) : ErrorCode * Settings :=
  if kSizeLimit <=? n then (EC_OUT_OF_RANGE, s)
  else (EC_OK, mkSettings (st_sampling_size s) (st_per_task s) n (st_sleep_interval_ms s)).
Definition SetSleepIntervalMs (n : Z) (s : Settings) : Settings :=
  mkSettings (st_sampling_size s) (st_per_task s) (st_batching_size s) n.

(** ** What the reclaimer asks of the other components *)

Class ReclaimEnv (E : Type) := {
  re_IsRunning : E -> bool * E;
  re_IsPaused : E -> bool * E;
  re_settings : E -> Settings * E;
  re_workers : Z;
  (* the indexers' counters, [None] for an unknown instance *)
  re_usage : E -> (string -> option IndexerUsage) * E;
  re_SampleReclaimKeys : string -> Z -> E -> (ErrorCode * list KeyType) * E;
  re_GetProperties : string -> list KeyType -> E -> (ErrorCode * list (gmap string string)) * E;
  re_in_time : E -> bool * E;
  re_in_flight : E -> Z * E;
  re_BatchGetLocation : string -> list KeyType -> E -> option (list CacheLocationMap) * E;
  (* the migration strategies of a group, the copies in progress, the open sessions *)
  re_strategies : string -> E -> option (list (option string)) * E;
  re_active_copy : string -> E -> option (KeyType -> LocationId -> bool) * E;
  re_in_session : E -> option (LocationId -> bool) * E;
  re_SubmitAsync : CacheLocationDelRequest -> Z -> E -> option (option nat) * E;
  re_now_us : E -> Z * E;
  (* the futures and the clock during a round of results *)
  re_poll : E -> ((nat -> FutureStatus) * (nat -> Z)) * E;
  re_ListInstanceGroup : E -> (ErrorCode * list (option GroupConfig)) * E;
  re_ListInstanceInfo : string -> E -> (ErrorCode * list (option InstanceInfo)) * E;
  (* reads the pending locations, does not change them *)
  re_TryMigrateOnGroup : gset PendingLocationKey -> GroupConfig -> list (option InstanceInfo) -> E -> E;
}.

(** ** Water levels *)

Definition to_double (z : Z) : spec_float := binary_normalize 53 1024 z 0 false.
(** The double nearest to 1e-9. *)
Definition kEpsilon : spec_float := binary_normalize 53 1024 4835703278458517 (-82) false.

(** [used / capacity + kEpsilon > threshold] in doubles. *)
Definition over_percentage (used capacity : Z) (threshold : spec_float) : bool :=
  SFltb threshold (SFadd 53 1024 (SFdiv 53 1024 (to_double used) (to_double capacity)) kEpsilon).

Record GroupUsageData := mkGroupUsage {
  grp_used_key_cnt_ : Z;
  grp_max_key_cnt_ : Z;
  grp_used_byte_sz_ : Z;
  grp_storage_usage_by_type_ : ByType;
}.

Definition GetGroupUsageByType (t : DataStorageType) (d : GroupUsageData) : Z := at_type (ToBaseType t) (grp_storage_usage_by_type_ d).

Definition AddGroupUsageByType (t : DataStorageType) (value : Z) (a : ByType) : ByType :=
  <[ToIndex (ToBaseType t) := u64 (at_type (ToBaseType t) a + value)]> a.

Definition GetGroupUsageData (usage : string -> option IndexerUsage) (instance_infos : list (option InstanceInfo)) : GroupUsageData :=
  foldl (fun d oi =>
      match oi ≫= (fun info => usage (instance_id_ info)) with
      | None => d
      | Some u =>
          mkGroupUsage (u64 (grp_used_key_cnt_ d + iu_key_count u)) (u64 (grp_max_key_cnt_ d + iu_max_key_count u))
            (u64 (grp_used_byte_sz_ d + GetStorageUsage (iu_usage u)))
            (foldl (fun a t => if chargeable t then AddGroupUsageByType t (GetStorageUsageByType t (iu_usage u)) a else a)
               (grp_storage_usage_by_type_ d) all_storage_types)
      end)
    (mkGroupUsage 0 0 0 by_type_zero) instance_infos.

(** One storage quota of the group. *)
Definition type_water_level (credited : ByType) (d : GroupUsageData) (threshold : spec_float) (w : WaterLevelExceed) (q : QuotaConfig)
    : WaterLevelExceed :=
  let t := q_storage_spec q in
  if bool_decide (t = DATA_STORAGE_TYPE_VCNS_HF3FS) || IsEventReportStorageType t then w
  else
    let effective := SaturatingSub (GetGroupUsageByType t d) (at_type (ToBaseType t) credited) in
    if effective =? 0 then w
    else if q_capacity q <=? 0 then SetWaterLevelExceedByType t true w
    else if over_percentage effective (q_capacity q) threshold then SetWaterLevelExceedByType t true w
    else w.

(** The water levels, from the usage net of the deletions in flight. *)
Definition water_level (quota : InstanceGroupQuota) (threshold : spec_float) (ins_gr : string) (d : GroupUsageData) (r : Reclaimer)
    : WaterLevelExceed :=
  let credited := GetCreditedDeleteBytes ins_gr r in
  let total_credited := foldl SaturatingAdd 0 credited in
  let group_bytes := SaturatingSub (grp_used_byte_sz_ d) total_credited in
  let group_keys := SaturatingSub (grp_used_key_cnt_ d) (GetPredictedDeletedKeys ins_gr r) in
  let w := foldl (type_water_level credited d threshold) no_water_level (g_quota_config quota) in
  mkWaterLevel
    ((0 <? group_bytes) && ((g_capacity quota <=? 0) || over_percentage group_bytes (g_capacity quota) threshold))
    ((0 <? group_keys) && ((grp_max_key_cnt_ d =? 0) || over_percentage group_keys (grp_max_key_cnt_ d) threshold))
    (water_level_exceed_by_type_ w).

Section run.
Context {E : Type} `{EN : ReclaimEnv E}.
Variable sort_by_time : list (KeyType * Z) -> list (KeyType * Z).
Variable cfg : CacheReclaimerAsyncDeleteConfig.

(** [IsRunning() && !IsPaused()]. *)
Definition active (e : E) : bool * E :=
  let '(running, e) := re_IsRunning e in
  if running then let '(paused, e) := re_IsPaused e in (negb paused, e) else (false, e).

Definition GetWaterLevelExceed (ins_gr : string) (quota : InstanceGroupQuota) (strategy : CacheReclaimStrategy)
    (instance_infos : list (option InstanceInfo)) (r : Reclaimer) (e : E) : option WaterLevelExceed * E :=
  let '(go, e) := active e in
  if negb go then (None, e)
  else let '(usage, e) := re_usage e in
       (Some (water_level quota (rs_used_percentage strategy) ins_gr (GetGroupUsageData usage instance_infos) r), e).

(** ** One instance *)

Definition aborted (bounded_waves : bool) (e : E) : bool * E :=
  if bounded_waves then let '(go, e) := active e in (negb go, e) else (false, e).

(** [budget] is the sampling and batching size of the fair plan; without it the
    settings are used. *)
Definition sample_instance (ins_id : string) (budget : option (Z * Z)) (e : E) : option KeySamplingResult * E :=
  let '(usage, e) := re_usage e in
  match usage ins_id with
  | None => (None, e)
  | Some _ =>
      let '(s, e) := re_settings e in
      DoKeySamplingWithSize (re_SampleReclaimKeys ins_id) (re_GetProperties ins_id) aborted re_in_time re_in_flight re_workers
        (st_sampling_size s) (st_per_task s) (default 0 (fst <$> budget)) (bool_decide (is_Some budget)) e
  end.

Definition ReclaimByLRUImpl (info : option InstanceInfo) (w : WaterLevelExceed) (delay_ms : Z) (budget : option (Z * Z))
    (r : Reclaimer) (e : E) : bool * Reclaimer * E :=
  let '(go, e) := active e in
  if negb go then (false, r, e)
  else match info with
  | None => (false, r, e)
  | Some info =>
      let ins_id := instance_id_ info in
      let ins_gr := instance_group_name_ info in
      let '(sampled, e) := sample_instance ins_id budget e in
      match sampled with
      | None => (false, r, e)
      | Some (keys, maps) =>
          let '(s, e) := re_settings e in
          let batching_size := match budget with Some (_, b) => b | None => st_batching_size s end in
          let batch := MakeBatchByLRUWithSize sort_by_time keys maps (Z.to_nat batching_size) in
          if bool_decide (batch = []) then (false, r, e)
          else
            let '(loc_maps, e) := re_BatchGetLocation ins_id batch e in
            let '(strategies, e) := re_strategies ins_gr e in
            let '(copies, e) := re_active_copy ins_id e in
            let '(sessions, e) := re_in_session e in
            match FilterLocID (mkFilterEnv cfg ins_id ins_gr strategies copies sessions) r w batch loc_maps with
            | None => (false, r, e)
            | Some f =>
                let '(go, e) := active e in
                let '(now, e) := re_now_us e in
                SubmitDelReq re_SubmitAsync go cfg ins_id ins_gr (mkDelRequest ins_id batch (out_loc_ids f)) (delay_ms * 1000)
                  (out_bytes_by_type f) (out_location_counts_by_type f) (out_predicted_deleted_keys f) now r e
            end
      end
  end.

(** [ReclaimByLFU] and [ReclaimByTTL] check once more and fall back. *)
Definition ReclaimByPolicy (policy : ReclaimPolicy) (info : option InstanceInfo) (w : WaterLevelExceed) (delay_ms : Z)
    (r : Reclaimer) (e : E) : bool * Reclaimer * E :=
  match policy with
  | POLICY_LFU | POLICY_TTL =>
      let '(go, e) := active e in
      if negb go then (false, r, e) else ReclaimByLRUImpl info w delay_ms None r e
  | POLICY_UNSPECIFIED | POLICY_LRU => ReclaimByLRUImpl info w delay_ms None r e
  end.

(** ** One group *)

Record ReclaimResult := mkResult { water_level_exceeded : bool; made_progress : bool }.

(** The instances in turn, as long as the water level is exceeded. *)
Fixpoint legacy_loop (g : GroupConfig) (strategy : CacheReclaimStrategy) (all infos : list (option InstanceInfo)) (res : ReclaimResult)
    (r : Reclaimer) (e : E) : ReclaimResult * Reclaimer * E :=
  match infos with
  | [] => (res, r, e)
  | info :: infos =>
      let '(w, e) := GetWaterLevelExceed (gc_name g) (gc_quota g) strategy all r e in
      match w with
      | Some w =>
          if CheckGroupWaterLevelExceed w then
            let '(submitted, r, e) := ReclaimByPolicy (rs_policy strategy) info w (rs_delay_before_delete_ms strategy) r e in
            legacy_loop g strategy all infos (mkResult true (made_progress res || submitted)) r e
          else (res, r, e)
      | None => (res, r, e)
      end
  end.

Definition TryReclaimOnGroupLegacy (g : GroupConfig) (strategy : CacheReclaimStrategy) (infos : list (option InstanceInfo))
    (r : Reclaimer) (e : E) : ReclaimResult * Reclaimer * E :=
  legacy_loop g strategy infos infos (mkResult false false) r e.

(** Does the trigger that the plan was made for still hold? *)
Definition plan_scope_still_active (dim : FairWeightDimension) (initial current : WaterLevelExceed) : bool :=
  match dim with
  | dim_STORAGE_TYPE_BYTES =>
      forallb (fun t => bool_decide (t = DATA_STORAGE_TYPE_UNKNOWN) || bool_decide (t = DATA_STORAGE_TYPE_VCNS_HF3FS)
                        || Bool.eqb (GetWaterLevelExceedByType t initial) (GetWaterLevelExceedByType t current)) all_storage_types
      && CheckStorageTypeWaterLevelExceed current
  | dim_GROUP_BYTES => negb (CheckStorageTypeWaterLevelExceed current) && group_bytes_water_level_exceed_ current
  | dim_GROUP_KEYS =>
      negb (CheckStorageTypeWaterLevelExceed current) && negb (group_bytes_water_level_exceed_ current)
      && group_keys_water_level_exceed_ current
  | dim_NONE => false
  end.

(** The items of the plan in turn; [known] is the water level read after the
    previous item. *)
Fixpoint fair_loop (g : GroupConfig) (strategy : CacheReclaimStrategy) (infos : list (option InstanceInfo)) (dim : FairWeightDimension)
    (initial : WaterLevelExceed) (items : list FairReclaimPlanItem) (known : option WaterLevelExceed) (progress : bool)
    (r : Reclaimer) (e : E) : bool * Reclaimer * E :=
  match items with
  | [] => (progress, r, e)
  | item :: items =>
      let '(w, e) := match known with
                     | Some w => (Some w, e)
                     | None => GetWaterLevelExceed (gc_name g) (gc_quota g) strategy infos r e
                     end in
      match w with
      | None => (progress, r, e)
      | Some w =>
          if negb (CheckGroupWaterLevelExceed w) || negb (plan_scope_still_active dim initial w) then (progress, r, e)
          else
            let '(submitted, r, e) := ReclaimByLRUImpl (Some (it_instance item)) initial (rs_delay_before_delete_ms strategy)
                                        (Some (it_sampling_size item, it_batch_size item)) r e in
            if negb submitted then fair_loop g strategy infos dim initial items None progress r e
            else match items with
            | [] => (true, r, e)
            | _ =>
                let '(w, e) := GetWaterLevelExceed (gc_name g) (gc_quota g) strategy infos r e in
                match w with
                | None => (true, r, e)
                | Some w =>
                    if negb (CheckGroupWaterLevelExceed w) || negb (plan_scope_still_active dim initial w) then (true, r, e)
                    else fair_loop g strategy infos dim initial items (Some w) true r e
                end
            end
      end
  end.

Definition TryReclaimOnGroupFair (g : GroupConfig) (strategy : CacheReclaimStrategy) (infos : list (option InstanceInfo))
    (r : Reclaimer) (e : E) : ReclaimResult * Reclaimer * E :=
  let '(w, e) := GetWaterLevelExceed (gc_name g) (gc_quota g) strategy infos r e in
  match w with
  | None => (mkResult false false, r, e)
  | Some w =>
      if negb (CheckGroupWaterLevelExceed w) then (mkResult false false, r, e)
      else
        let '(s, e) := re_settings e in
        let '(usage, e) := re_usage e in
        match BuildFairReclaimPlan w usage infos (st_sampling_size s) (st_batching_size s) with
        | None => (mkResult true false, r, e)
        | Some plan =>
            let '(progress, r, e) := fair_loop g strategy infos (pl_dimension plan) w (pl_items plan) None false r e in
            (mkResult true progress, r, e)
        end
  end.

Definition TryReclaimOnGroup (group : option GroupConfig) (r : Reclaimer) (e : E) : ReclaimResult * Reclaimer * E :=
  let none := mkResult false false in
  let '(go, e) := active e in
  if negb go then (none, r, e)
  else match group with
  | None => (none, r, e)
  | Some g =>
      match gc_strategy g with
      | None => (none, r, e)
      | Some strategy =>
          let '((ec, infos), e) := re_ListInstanceInfo (gc_name g) e in
          if bool_decide (ec <> EC_OK) then (none, r, e)
          else
            let '(res, r, e) := match rs_budget_policy strategy with
                                | BUDGET_FIXED_PER_INSTANCE => TryReclaimOnGroupLegacy g strategy infos r e
                                | _ => TryReclaimOnGroupFair g strategy infos r e
                                end in
            let e := if gc_has_migrations g then re_TryMigrateOnGroup (pending_locations_ r) g infos e else e in
            (res, r, e)
      end
  end.

(** ** The cron *)

Fixpoint reclaim_groups (groups : list (option GroupConfig)) (res : ReclaimResult * bool) (r : Reclaimer) (e : E)
    : bool * bool * Reclaimer * E :=
  match groups with
  | [] => (made_progress res.1, res.2, r, e)
  | g :: groups =>
      let '(one, r, e) := TryReclaimOnGroup g r e in
      reclaim_groups groups
        (mkResult false (made_progress res.1 || made_progress one),
         res.2 || (water_level_exceeded one && negb (made_progress one))) r e
  end.

(** What a round was: stopped, without reclamation (paused or no groups), or
    with one; and how long to sleep. *)
Inductive RoundOutcome := Stopped | Idle (sleep_ms : Z) | Reclaimed (progress backoff : bool) (sleep_ms : Z).

(** One turn of [ReclaimCron]'s loop after its wait. *)
Definition ReclaimRound (r : Reclaimer) (e : E) : RoundOutcome * Reclaimer * E :=
  let '(running, e) := re_IsRunning e in
  if negb running then (Stopped, r, e)
  else
    let '((poll, now), e) := re_poll e in
    let r := HandleDelRes poll now r in
    let '(paused, e) := re_IsPaused e in
    if paused then let '(s, e) := re_settings e in (Idle (st_sleep_interval_ms s), r, e)
    else
      let '((ec, groups), e) := re_ListInstanceGroup e in
      if bool_decide (ec <> EC_OK) then let '(s, e) := re_settings e in (Idle (st_sleep_interval_ms s), r, e)
      else
        let '(progress, backoff, r, e) := reclaim_groups groups (mkResult false false, false) r e in
        if progress then (Reclaimed true backoff 0, r, e)
        else let '(s, e) := re_settings e in
             let sleep := st_sleep_interval_ms s in
             (Reclaimed false backoff (if backoff then Z.max sleep 1 else sleep), r, e).

(** The rounds until the job is stopped, at most [n], with their outcomes. *)
Fixpoint ReclaimCron (n : nat) (r : Reclaimer) (e : E) : list RoundOutcome * Reclaimer * E :=
  match n with
  | O => ([], r, e)
  | S n =>
      let '(o, r, e) := ReclaimRound r e in
      match o with
      | Stopped => ([Stopped], r, e)
      | _ => let '(os, r, e) := ReclaimCron n r e in (o :: os, r, e)
      end
  end.

End run.

(** ** What a round does to the ledger *)

(** [r'] is reached from [r] by accepting deletions: a handler each, in front
    of those that were there, and the ledger stays exact. *)
Definition accepted (cfg : CacheReclaimerAsyncDeleteConfig) (r : Reclaimer) (ok : bool) (r' : Reclaimer) : Prop :=
  exists new, delete_handlers_ r' = new ++ delete_handlers_ r /\ ok = negb (bool_decide (new = [])) /\ ledger_ok cfg r'.

Section ledger.
Context {E : Type} `{EN : ReclaimEnv E}.
Variable sort_by_time : list (KeyType * Z) -> list (KeyType * Z).
Variable cfg : CacheReclaimerAsyncDeleteConfig.
Hypothesis Hlim : limits_ok cfg.

Lemma accepted_none r : ledger_ok cfg r -> accepted cfg r false r.
Proof. intros H. by exists []. Qed.

Lemma accepted_ledger r ok r' : accepted cfg r ok r' -> ledger_ok cfg r'.
Proof. intros (new & _ & _ & H). exact H. Qed.

Lemma accepted_trans r a r1 b r2 : accepted cfg r a r1 -> accepted cfg r1 b r2 -> accepted cfg r (a || b) r2.
Proof.
  intros (n1 & E1 & -> & _) (n2 & E2 & -> & H). exists (n2 ++ n1). split_and!; [by rewrite E2, E1, (assoc_L (++))| |done].
  destruct n1, n2; done.
Qed.

Lemma SubmitDelReq_accepted {F} (SubmitAsync : CacheLocationDelRequest -> Z -> F -> option (option nat) * F)
    active ins_id ins_gr req delay bytes counts predicted at_ r e ok r' e' :
  ledger_ok cfg r -> request_sums_ok bytes counts predicted ->
  SubmitDelReq SubmitAsync active cfg ins_id ins_gr req delay bytes counts predicted at_ r e = (ok, r', e') ->
  accepted cfg r ok r'.
Proof.
  intros HL Hs Hrun. pose proof (SubmitDelReq_ledger _ _ _ _ _ _ _ _ _ _ _ _ _ _ _ _ Hlim HL Hs Hrun) as HL'.
  eapply SubmitDelReq_spec in Hrun as [[-> ->]|(-> & h & -> & _)]; [by apply accepted_none| |done..]. by exists [h].
Qed.

Lemma ReclaimByLRUImpl_accepted info w delay budget r e ok r' e' :
  ledger_ok cfg r -> ReclaimByLRUImpl sort_by_time cfg info w delay budget r e = (ok, r', e') -> accepted cfg r ok r'.
Proof.
  intros HL. pose proof (accepted_none r HL) as H0. unfold ReclaimByLRUImpl.
  destruct (active e) as [[] e1]; cbn [negb]; [|by intros [= <- <- _]].
  destruct info as [info|]; [|by intros [= <- <- _]].
  destruct (sample_instance _ _ _) as [[[keys maps]|] e2]; [|by intros [= <- <- _]].
  destruct (re_settings e2) as [s e3]. case_bool_decide; [by intros [= <- <- _]|].
  destruct (re_BatchGetLocation _ _ _) as [lm e4]. destruct (re_strategies _ _) as [st e5].
  destruct (re_active_copy _ _) as [cp e6]. destruct (re_in_session e6) as [se e7].
  destruct (FilterLocID _ _ _ _ _) as [f|] eqn:EF; [|by intros [= <- <- _]].
  destruct (active e7) as [go e8]. destruct (re_now_us e8) as [now e9].
  apply SubmitDelReq_accepted; [done|]. by eapply FilterLocID_sums in EF.
Qed.

Lemma ReclaimByPolicy_accepted p info w delay r e ok r' e' :
  ledger_ok cfg r -> ReclaimByPolicy sort_by_time cfg p info w delay r e = (ok, r', e') -> accepted cfg r ok r'.
Proof.
  intros HL. destruct p; cbn [ReclaimByPolicy]; try by apply ReclaimByLRUImpl_accepted.
  all: destruct (active e) as [[] e1]; cbn [negb]; [by apply ReclaimByLRUImpl_accepted|intros [= <- <- _]; by apply accepted_none].
Qed.

Lemma legacy_loop_accepted g s all infos res r e res' r' e' :
  ledger_ok cfg r -> legacy_loop sort_by_time cfg g s all infos res r e = (res', r', e') ->
  exists ok, accepted cfg r ok r' /\ made_progress res' = made_progress res || ok.
Proof.
  revert res r e. induction infos as [|info infos IH]; intros res r e HL; cbn [legacy_loop].
  { intros [= <- <- _]. exists false. split; [by apply accepted_none|by rewrite orb_false_r]. }
  destruct (GetWaterLevelExceed _ _ _ _ _ _) as [[w|] e1].
  2: { intros [= <- <- _]. exists false. split; [by apply accepted_none|by rewrite orb_false_r]. }
  destruct (CheckGroupWaterLevelExceed w).
  2: { intros [= <- <- _]. exists false. split; [by apply accepted_none|by rewrite orb_false_r]. }
  destruct (ReclaimByPolicy _ _ _ _ _ _ _ _) as [[ok1 r1] e2] eqn:E1. eapply ReclaimByPolicy_accepted in E1; [|done].
  intros (ok2 & H2 & Hp)%IH; [|by eapply accepted_ledger]. exists (ok1 || ok2). split; [by eapply accepted_trans|].
  rewrite Hp. cbn. by rewrite orb_assoc.
Qed.

Lemma fair_loop_accepted g s infos dim w0 items known p r e p' r' e' :
  ledger_ok cfg r -> fair_loop sort_by_time cfg g s infos dim w0 items known p r e = (p', r', e') ->
  exists ok, accepted cfg r ok r' /\ p' = p || ok.
Proof.
  revert known p r e. induction items as [|item items IH]; intros known p r e HL.
  { intros [= <- <- _]. exists false. split; [by apply accepted_none|by rewrite orb_false_r]. }
  assert (Hstop : forall (x : E), (p, r, x) = (p', r', e') -> exists ok, accepted cfg r ok r' /\ p' = p || ok).
  { intros x [= <- <- _]. exists false. split; [by apply accepted_none|by rewrite orb_false_r]. }
  cbn [fair_loop]. destruct (match known with Some _ => _ | None => _ end) as [[w|] e1]; [|by apply Hstop].
  destruct (negb _ || negb _); [by apply Hstop|].
  destruct (ReclaimByLRUImpl _ _ _ _ _ _ _ _) as [[ok1 r1] e2] eqn:E1. eapply ReclaimByLRUImpl_accepted in E1; [|done].
  destruct ok1; cbn [negb].
  2: { intros (ok & H & ->)%IH; [|by eapply accepted_ledger]. exists ok. split; [|done]. by apply (accepted_trans r false r1 ok r'). }
  assert (Hend : forall (x : E), (true, r1, x) = (p', r', e') -> exists ok, accepted cfg r ok r' /\ p' = p || ok).
  { intros x [= <- <- _]. exists true. split; [done|by rewrite orb_true_r]. }
  destruct items as [|i2 items]; [by apply Hend|].
  destruct (GetWaterLevelExceed _ _ _ _ _ _) as [[w2|] e3]; [|by apply Hend].
  destruct (negb _ || negb _); [by apply Hend|].
  intros (ok & H & ->)%IH; [|by eapply accepted_ledger]. exists true. split; [by apply (accepted_trans r true r1 ok r')|by rewrite orb_true_r].
Qed.

(** A group: progress is exactly an accepted deletion, and there is none
    unless the water level was exceeded. *)
Lemma TryReclaimOnGroup_accepted g r e res r' e' :
  ledger_ok cfg r -> TryReclaimOnGroup sort_by_time cfg g r e = (res, r', e') -> accepted cfg r (made_progress res) r'.
Proof.
  intros HL. pose proof (accepted_none r HL) as H0. unfold TryReclaimOnGroup.
  destruct (active e) as [[] e1]; cbn [negb]; [|by intros [= <- <- _]]. destruct g as [g|]; [|by intros [= <- <- _]].
  destruct (gc_strategy g) as [s|]; [|by intros [= <- <- _]]. destruct (re_ListInstanceInfo _ _) as [[ec infos] e2].
  case_bool_decide; [by intros [= <- <- _]|].
  destruct (match rs_budget_policy s with BUDGET_FIXED_PER_INSTANCE => _ | _ => _ end) as [[res1 r1] e3] eqn:E1.
  intros [= <- <- _].
  assert (Hf : forall x, TryReclaimOnGroupFair sort_by_time cfg g s infos r e2 = (res1, r1, x) -> accepted cfg r (made_progress res1) r1).
  { intros x. unfold TryReclaimOnGroupFair. destruct (GetWaterLevelExceed _ _ _ _ _ _) as [[w|] e4]; [|by intros [= <- <- _]].
    destruct (negb _); [by intros [= <- <- _]|]. destruct (re_settings e4) as [st e5]. destruct (re_usage e5) as [u e6].
    destruct (BuildFairReclaimPlan _ _ _ _ _) as [pl|]; [|by intros [= <- <- _]].
    destruct (fair_loop _ _ _ _ _ _ _ _ _ _ _ _) as [[p r2] e7] eqn:E2. intros [= <- <- _]. cbn.
    by eapply fair_loop_accepted in E2 as (ok & Hok & ->). }
  destruct (rs_budget_policy s); [|by eapply Hf..].
  unfold TryReclaimOnGroupLegacy in E1. by eapply legacy_loop_accepted in E1 as (ok & Hok & ->).
Qed.

Lemma reclaim_groups_accepted groups res r e p b r' e' :
  ledger_ok cfg r -> reclaim_groups sort_by_time cfg groups res r e = (p, b, r', e') ->
  exists ok, accepted cfg r ok r' /\ p = made_progress res.1 || ok.
Proof.
  revert res r e. induction groups as [|g groups IH]; intros res r e HL; cbn [reclaim_groups].
  { intros [= <- _ <- _]. exists false. split; [by apply accepted_none|by rewrite orb_false_r]. }
  destruct (TryReclaimOnGroup _ _ _ _ _) as [[one r1] e1] eqn:E1. apply TryReclaimOnGroup_accepted in E1; [|done].
  intros (ok & H & ->)%IH; [|by eapply accepted_ledger]. exists (made_progress one || ok).
  split; [by eapply accepted_trans|]. cbn. by rewrite orb_assoc.
Qed.

End ledger.

(** ** The rounds *)

Definition progressed (o : RoundOutcome) : bool := match o with Reclaimed p _ _ => p | _ => false end.

(** How a round sleeps: not at all after progress, else for the configured
    time, and for at least a millisecond when a group is over its water level. *)
Definition sleeps_well (o : RoundOutcome) (sleep_interval_ms : Z) : Prop :=
  match o with
  | Stopped => True
  | Idle s => s = sleep_interval_ms
  | Reclaimed true _ s => s = 0
  | Reclaimed false b s => s = if b then Z.max sleep_interval_ms 1 else sleep_interval_ms
  end.

Section rounds.
Context {E : Type} `{EN : ReclaimEnv E}.
Variable sort_by_time : list (KeyType * Z) -> list (KeyType * Z).
Variable cfg : CacheReclaimerAsyncDeleteConfig.
Hypothesis Hlim : limits_ok cfg.

Lemma ReclaimRound_spec r e o r' e' :
  ledger_ok cfg r -> ReclaimRound sort_by_time cfg r e = (o, r', e') ->
  (o = Stopped /\ r' = r) \/
  exists e1 new, let '((poll, now), _) := re_poll e1 in
    accepted cfg (HandleDelRes poll now r) (progressed o) r' /\
    delete_handlers_ r' = new ++ omap (outcome poll now) (delete_handlers_ r) /\
    progressed o = negb (bool_decide (new = [])) /\
    exists e2, sleeps_well o (st_sleep_interval_ms (re_settings e2).1).
Proof.
  intros HL. unfold ReclaimRound. destruct (re_IsRunning e) as [[] e1]; cbn [negb]; [|intros [= <- <- _]; by left].
  intros Hrun. right. exists e1. destruct (re_poll e1) as [[poll now] e2].
  destruct (HandleDelRes_spec poll now r (proj1 HL)) as [Ehs _]. rewrite <-Ehs.
  assert (Hacc : accepted cfg (HandleDelRes poll now r) (progressed o) r' /\
    exists e3, sleeps_well o (st_sleep_interval_ms (re_settings e3).1)).
  { apply (HandleDelRes_ledger poll now) in HL. pose proof (accepted_none cfg _ HL) as H0.
    destruct (re_IsPaused e2) as [[] e3].
    { destruct (re_settings e3) as [s e4] eqn:Es. injection Hrun as <- <- _. split; [done|]. exists e3. by rewrite Es. }
    destruct (re_ListInstanceGroup e3) as [[ec groups] e4]. case_bool_decide.
    { destruct (re_settings e4) as [s e5] eqn:Es. injection Hrun as <- <- _. split; [done|]. exists e4. by rewrite Es. }
    destruct (reclaim_groups _ _ _ _ _ _) as [[[p b] r1] e5] eqn:Eg.
    eapply reclaim_groups_accepted in Eg as (ok & Hok & ->); [|done..]. cbn in Hrun.
    destruct ok; [injection Hrun as <- <- _; split; [done|by exists e5]|].
    destruct (re_settings e5) as [s e6] eqn:Es. injection Hrun as <- <- _. split; [done|]. exists e5. by rewrite Es. }
  destruct Hacc as [Hacc Hsl]. destruct Hacc as (new & En & Ep & HL'). exists new. split_and!; try done. by exists new.
Qed.

Lemma ReclaimRound_ledger r e o r' e' : ledger_ok cfg r -> ReclaimRound sort_by_time cfg r e = (o, r', e') -> ledger_ok cfg r'.
Proof.
  intros HL [[_ ->]|(e1 & new & H)]%ReclaimRound_spec; [done| |done]. destruct (re_poll e1) as [[poll now] e2].
  destruct H as [H _]. by eapply accepted_ledger.
Qed.

(** The rounds of a run, each with the ledger it starts from and ends in. *)
Lemma ReclaimCron_ind (P : list RoundOutcome -> Reclaimer -> Reclaimer -> Prop) :
  (forall r, ledger_ok cfg r -> P [] r r) ->
  (forall r e o r1 e1 os r2, ledger_ok cfg r -> ReclaimRound sort_by_time cfg r e = (o, r1, e1) -> ledger_ok cfg r1 ->
     P os r1 r2 -> P (o :: os) r r2) ->
  forall n r e os r' e', ledger_ok cfg r -> ReclaimCron sort_by_time cfg n r e = (os, r', e') -> P os r r'.
Proof.
  intros H0 HS. induction n as [|n IH]; intros r e os r' e' HL; cbn [ReclaimCron]; [by intros [= <- <- _]; apply H0|].
  destruct (ReclaimRound _ _ _ _) as [[o r1] e1] eqn:E1. pose proof (ReclaimRound_ledger _ _ _ _ _ HL E1) as HL1.
  assert (Hgo : forall x, (let '(os, r, e) := x : list RoundOutcome * Reclaimer * E in (o :: os, r, e)) = (os, r', e') ->
      x = ReclaimCron sort_by_time cfg n r1 e1 -> P os r r').
  { intros [[os1 r2] e2]. intros [= <- <- _] Hx. eapply HS; [done..|]. symmetry in Hx. by eapply IH in Hx. }
  destruct o; [intros [= <- <- _]; eapply HS; [done..|by apply H0]| |]; intros H; by eapply Hgo.
Qed.

Lemma unfinished_outcome poll now hs :
  (forall f ec, poll f <> fs_ready (Some ec)) -> length (omap (outcome poll now) hs) = length hs.
Proof.
  intros Hp. induction hs as [|h hs IH]; [done|]. cbn [omap list_omap]. unfold outcome at 1.
  destruct (fut_ h) as [f|]; [destruct (poll f) as [[ec|]| |] eqn:Ef|]; cbn [length]; try by f_equal. by apply Hp in Ef.
Qed.

End rounds.

(** C3: Whatever the other components answer, in whatever order, after any
    number of the reclaimer's rounds its ledger is exact and its limits hold:
    the pending locations are those of the deletions in flight and each is held
    by exactly one of them; per group and storage type the quota is the sum of
    their locations and bytes, and the credit the sum over those that have not
    lost it; the totals agree; and no limit on locations, bytes or deletions in
    flight is ever exceeded. *)
Theorem reclaim_rounds_keep_ledger {E : Type} `{EN : ReclaimEnv E} sort_by_time cfg n e os r e' :
  limits_ok cfg ->
  ReclaimCron sort_by_time cfg n new_reclaimer e = (os, r, e') ->
  let hs := delete_handlers_ r in
  NoDup (hs ≫= hd_pending_locations_) /\
  pending_locations_ r = list_to_set (hs ≫= hd_pending_locations_) /\
  (forall g t, pending_quota_of g t r = mkQuota (zsum (of_group g (count_of t)) hs) (zsum (of_group g (bytes_of t)) hs) /\
     zsum (of_group g (count_of t)) hs <= pending_location_limit_per_group_type cfg /\
     zsum (of_group g (bytes_of t)) hs <= pending_bytes_limit_per_group_type cfg /\
     at_type t (GetCreditedDeleteBytes g r) = if credited_type t then zsum (of_group g (credit (bytes_of t))) hs else 0) /\
  (forall g, GetPredictedDeletedKeys g r = zsum (of_group g (credit predicted_deleted_keys_)) hs) /\
  pending_delete_handler_count_ r = Z.of_nat (length hs) /\ pending_delete_handler_count_ r <= pending_delete_handler_limit cfg /\
  pending_delete_bytes_ r = zsum handler_bytes hs /\ pending_delete_bytes_ r <= pending_bytes_limit cfg.
Proof.
  intros Hl Hrun. assert (HL : ledger_ok cfg r).
  { revert Hrun. apply (ReclaimCron_ind sort_by_time cfg Hl (fun _ _ r => ledger_ok cfg r)); [done|done|]. by apply new_ledger. }
  destruct HL as [[H1 H2 H3 H4 H5 H6 H7 H8 H9] [W1 W2 W3 W4]]. cbv zeta. rewrite H8, H9.
  split_and!; done.
Qed.

(** C34: The reclaimer does not spin. As long as no submitted deletion ends, at
    most as many rounds make progress, and so are followed by another without
    a pause, as the limit on deletions in flight has room for; each of the
    other rounds sleeps at least a millisecond when it left a group over its
    water level, and for the configured time in any case. *)
Theorem reclaimer_does_not_spin {E : Type} `{EN : ReclaimEnv E} sort_by_time cfg n r e os r' e' :
  limits_ok cfg -> ledger_ok cfg r ->
  (forall x f ec, (re_poll x).1.1 f <> fs_ready (Some ec)) ->
  ReclaimCron sort_by_time cfg n r e = (os, r', e') ->
  Z.of_nat (length (filter (fun o => progressed o = true) os))
    <= pending_delete_handler_limit cfg - Z.of_nat (length (delete_handlers_ r)) /\
  Forall (fun o => exists x, sleeps_well o (st_sleep_interval_ms (re_settings x).1)) os.
Proof.
  intros Hl HL Hpoll. revert HL.
  set (P := fun os r r' => ledger_ok cfg r' /\
    (length (delete_handlers_ r) + length (filter (fun o => progressed o = true) os) <= length (delete_handlers_ r'))%nat /\
    Forall (fun o => exists x, sleeps_well o (st_sleep_interval_ms (re_settings x).1)) os).
  intros HL Hrun. enough (P os r r') as ([_ [_ _ _ W]] & H & Hs) by (split; [lia|done]). revert Hrun.
  apply (ReclaimCron_ind sort_by_time cfg Hl P); [|clear r e os r' e' HL n|done].
  { intros x Hx. unfold P. cbn. split_and!; [done|lia|done]. }
  intros r e o r1 e1 os r2 HL H HL1 (HP & Hle & Hs). split; [done|].
  apply (ReclaimRound_spec sort_by_time cfg Hl) in H as [[-> ->]|(x & new & H)]; [|clear HL1|done].
  { split; [rewrite filter_cons_False by done; lia|]. constructor; [by exists e|done]. }
  specialize (Hpoll x). destruct (re_poll x) as [[poll now] e2]. destruct H as (_ & En & Ep & Hx). cbn in Hpoll.
  split; [|by constructor]. rewrite En, length_app, (unfinished_outcome poll now _ Hpoll) in Hle.
  rewrite filter_cons. case_decide as Hd; cbn [length]; [|lia]. rewrite Hd in Ep. destruct new; cbn [length] in *; [done|lia].
Qed.

(** ** Examples *)

(** One group over its water level with one instance, "inst", which has block 7
    of [demo_block]; the executor accepts every deletion and finishes none. *)
Definition one_half : spec_float := binary_normalize 53 1024 1 (-1) false.
Definition demo_group : GroupConfig :=
  mkGroupConfig "group" (mkGroupQuota 10 []) (Some (mkStrategy one_half POLICY_LRU 5 BUDGET_USAGE_PROPORTIONAL)) false.

#[local] Instance demo_reclaim_env : ReclaimEnv unit := {|
  re_IsRunning := fun e => (true, e);
  re_IsPaused := fun e => (false, e);
  re_settings := fun e => (mkSettings 4 4 2 0, e);
  re_workers := 2;
  re_usage := fun e => (fun iid => if bool_decide (iid = "inst") then Some (mkUsage [0; 100; 0; 0; 0; 0; 0; 0; 0; 0] 1 100) else None, e);
  re_SampleReclaimKeys := fun _ _ e => ((EC_OK, [7]), e);
  re_GetProperties := fun _ ks e => ((EC_OK, (fun _ => timed "3") <$> ks), e);
  re_in_time := fun e => (true, e);
  re_in_flight := fun e => (0, e);
  re_BatchGetLocation := fun _ ks e => (Some ((fun _ => demo_block) <$> ks), e);
  re_strategies := fun _ e => (None, e);
  re_active_copy := fun _ e => (None, e);
  re_in_session := fun e => (Some (fun _ => false), e);
  re_SubmitAsync := fun _ _ e => (Some (Some 1%nat), e);
  re_now_us := fun e => (0, e);
  re_poll := fun e => (((fun _ => fs_timeout), (fun _ => 0)), e);
  re_ListInstanceGroup := fun e => ((EC_OK, [Some demo_group; None]), e);
  re_ListInstanceInfo := fun _ e => ((EC_OK, [Some (demo_info "inst")]), e);
  re_TryMigrateOnGroup := fun _ _ _ e => e;
|}.

Definition demo_run := ReclaimCron (merge_sort time_le) default_async_config 3 new_reclaimer tt.

(** The first round deletes the locations of block 7; the next ones find them
    pending, and back off although no pause is configured. *)
Lemma demo_rounds : demo_run.1.1 = [Reclaimed true false 0; Reclaimed false true 1; Reclaimed false true 1].
Proof. by vm_compute. Qed.

Lemma demo_run_split : demo_run = (demo_run.1.1, demo_run.1.2, tt).
Proof. destruct demo_run as [[os r] []]. done. Qed.

Lemma reclaim_rounds_keep_ledger_witness :
  pending_delete_handler_count_ demo_run.1.2 = 1 /\ pending_delete_handler_count_ demo_run.1.2 <= 1024.
Proof.
  destruct (reclaim_rounds_keep_ledger (merge_sort time_le) default_async_config 3 tt demo_run.1.1 demo_run.1.2 tt
    demo_limits demo_run_split) as (_ & _ & _ & _ & H1 & H2 & _).
  split; [|exact H2]. rewrite H1. by vm_compute.
Defined.

Lemma reclaimer_does_not_spin_witness :
  Z.of_nat (length (filter (fun o => progressed o = true) demo_run.1.1)) <= 1024.
Proof.
  apply (reclaimer_does_not_spin (merge_sort time_le) default_async_config 3 new_reclaimer tt demo_run.1.1 demo_run.1.2 tt
    demo_limits (new_ledger _ demo_limits)); [discriminate|exact demo_run_split].
Defined.
