(* ===== verification/MigrationTasks.v ===== *)
(** * MigrationTasks: the table of copies in progress

    The shared state of [manager/migration_manager.{h,cc}] and its critical
    sections: one definition per method that runs under [task_mutex_],
    [copy_submission_mutex_], [pending_mutex_] or [mark_expiry_mutex_]. The
    table of active tasks is the map from (instance, block) that the code keeps
    as a map of maps without empty inner maps. Submission times, which only
    feed durations, are left out. *)

From stdpp Require Import base gmap sets list strings.
From Stdlib Require Import ZArith Lia.
From S2P Require Import Prelude StandardUri MetaTypes WriteFilter.

Local Open Scope Z_scope.

(** ** Data *)

Inductive MigrationRetention :=
  | MIGRATION_RETENTION_UNSPECIFIED | MIGRATION_RETENTION_DELETE_SOURCE | MIGRATION_RETENTION_KEEP_BOTH.

#[global] Instance MigrationRetention_eq_dec : EqDecision MigrationRetention.
Proof. solve_decision. Defined.

Record MigrationRequest := mkMigrationRequest {
  rq_group : string;
  rq_instance : string;
  rq_block : KeyType;
  rq_src_location_id : LocationId;
  rq_src_storage : string;
  rq_dst_storage : string;
  rq_retention : MigrationRetention;
  rq_src_specs : list LocationSpec;
  rq_src_create_time : Z;
}.

(** The group and its limit; [u64_max] is no limit. *)
Record CopyConcurrencyLimit := mkCopyLimit { cl_group : string; cl_max_concurrency : Z }.
Definition no_copy_limit : CopyConcurrencyLimit := mkCopyLimit "" u64_max.
Definition limit_enabled (l : CopyConcurrencyLimit) : bool :=
  negb (bool_decide (cl_group l = "")) && negb (cl_max_concurrency l =? u64_max).

(** A task is being prepared, is cancelled while prepared, copies, is being
    completed by the monitor, or is cancelled while copying. *)
Inductive CopyTaskState := kPreparing | kPrepareCancelling | kRunning | kCompleting | kCancelling.

#[global] Instance CopyTaskState_eq_dec : EqDecision CopyTaskState.
Proof. solve_decision. Defined.

Record CopyTaskContext := mkCopyTask {
  ct_group : string;
  ct_instance : string;
  ct_block : KeyType;
  ct_src_location_id : LocationId;
  ct_src_create_time : Z;
  ct_src_storage : string;
  ct_dst_storage : string;
  ct_dst_location_id : LocationId;
  ct_retention : MigrationRetention;
  ct_total_bytes : Z;
  ct_mark_target : string;
  ct_mark_deadline_ms : Z;
  ct_state : CopyTaskState;
}.

Definition with_state (st : CopyTaskState) (c : CopyTaskContext) : CopyTaskContext :=
  mkCopyTask (ct_group c) (ct_instance c) (ct_block c) (ct_src_location_id c) (ct_src_create_time c) (ct_src_storage c)
    (ct_dst_storage c) (ct_dst_location_id c) (ct_retention c) (ct_total_bytes c) (ct_mark_target c) (ct_mark_deadline_ms c) st.

Definition with_mark (target : string) (deadline_ms : Z) (c : CopyTaskContext) : CopyTaskContext :=
  mkCopyTask (ct_group c) (ct_instance c) (ct_block c) (ct_src_location_id c) (ct_src_create_time c) (ct_src_storage c)
    (ct_dst_storage c) (ct_dst_location_id c) (ct_retention c) (ct_total_bytes c) target deadline_ms (ct_state c).

(** Instance and block. *)
Definition TaskKey : Type := string * KeyType.
Definition ctx_key (c : CopyTaskContext) : TaskKey := (ct_instance c, ct_block c).
Definition request_key (r : MigrationRequest) : TaskKey := (rq_instance r, rq_block r).

(** A copy handed to the executor, with the handle of its future. *)
Record PendingCopy := mkPending { pc_instance : string; pc_block : KeyType; pc_future : nat }.
Definition pending_key (p : PendingCopy) : TaskKey := (pc_instance p, pc_block p).

Record ExpiringMark := mkExpiring { em_deadline_ms : Z; em_instance : string; em_block : KeyType; em_target : string }.

Record MigrationStats := mkMigrationStats {
  stat_copy_submitted : Z;
  stat_copy_completed : Z;
  stat_copy_failed : Z;
  stat_copy_cancelled : Z;
  stat_marks_added : Z;
  stat_marks_cleared : Z;
}.

Abbreviation TaskTable := (gmap TaskKey CopyTaskContext).

Record MigrationManager := mkMigration {
  active_tasks_ : TaskTable;
  draining_instances_ : gset string;
  accepting_copy_submissions_ : bool;
  running_ : bool;
  pending_copies_ : list PendingCopy;
  mark_expiry_queue_ : list ExpiringMark;
  stats_ : MigrationStats;
}.

Definition new_migration : MigrationManager := mkMigration ∅ ∅ false false [] [] (mkMigrationStats 0 0 0 0 0 0).

Definition set_tasks (t : TaskTable) (m : MigrationManager) : MigrationManager :=
  mkMigration t (draining_instances_ m) (accepting_copy_submissions_ m) (running_ m) (pending_copies_ m) (mark_expiry_queue_ m) (stats_ m).
Definition set_draining (d : gset string) (m : MigrationManager) : MigrationManager :=
  mkMigration (active_tasks_ m) d (accepting_copy_submissions_ m) (running_ m) (pending_copies_ m) (mark_expiry_queue_ m) (stats_ m).
Definition set_gate (accepting running : bool) (m : MigrationManager) : MigrationManager :=
  mkMigration (active_tasks_ m) (draining_instances_ m) accepting running (pending_copies_ m) (mark_expiry_queue_ m) (stats_ m).
Definition set_pending (p : list PendingCopy) (m : MigrationManager) : MigrationManager :=
  mkMigration (active_tasks_ m) (draining_instances_ m) (accepting_copy_submissions_ m) (running_ m) p (mark_expiry_queue_ m) (stats_ m).
Definition set_expiry (q : list ExpiringMark) (m : MigrationManager) : MigrationManager :=
  mkMigration (active_tasks_ m) (draining_instances_ m) (accepting_copy_submissions_ m) (running_ m) (pending_copies_ m) q (stats_ m).
Definition set_stats (s : MigrationStats) (m : MigrationManager) : MigrationManager :=
  mkMigration (active_tasks_ m) (draining_instances_ m) (accepting_copy_submissions_ m) (running_ m) (pending_copies_ m) (mark_expiry_queue_ m) s.

(** ** The table, under [task_mutex_] *)

Definition is_preparing (st : CopyTaskState) : bool := match st with kPreparing | kPrepareCancelling => true | _ => false end.

Definition InsertActiveTaskLocked (c : CopyTaskContext) (t : TaskTable) : bool * TaskTable :=
  match t !! ctx_key c with
  | Some _ => (false, t)
  | None => (true, <[ctx_key c := c]> t)
  end.

Definition preparing_context (r : MigrationRequest) : CopyTaskContext :=
  mkCopyTask (rq_group r) (rq_instance r) (rq_block r) (rq_src_location_id r) (rq_src_create_time r) (rq_src_storage r)
    (rq_dst_storage r) "" (rq_retention r) 0 "" 0 kPreparing.

Definition ReservePreparingTaskLocked (r : MigrationRequest) (t : TaskTable) : bool * TaskTable :=
  InsertActiveTaskLocked (preparing_context r) t.

Definition UpdatePreparingTaskLocked (c : CopyTaskContext) (t : TaskTable) : bool * TaskTable :=
  match t !! ctx_key c with
  | Some old => if bool_decide (ct_state old = kPreparing) then (true, <[ctx_key c := with_state kPreparing c]> t) else (false, t)
  | None => (false, t)
  end.

Definition MarkTaskRunningLocked (k : TaskKey) (t : TaskTable) : bool * TaskTable :=
  match t !! k with
  | Some old => if bool_decide (ct_state old = kPreparing) then (true, <[k := with_state kRunning old]> t) else (false, t)
  | None => (false, t)
  end.

Definition RemoveActiveTaskLocked (k : TaskKey) (t : TaskTable) : bool * TaskTable :=
  match t !! k with
  | Some _ => (true, delete k t)
  | None => (false, t)
  end.

Definition RemovePreparingTaskLocked (k : TaskKey) (t : TaskTable) : bool * TaskTable :=
  match t !! k with
  | Some old => if is_preparing (ct_state old) then RemoveActiveTaskLocked k t else (false, t)
  | None => (false, t)
  end.

Definition HasActiveTaskLocked (k : TaskKey) (t : TaskTable) : bool := bool_decide (is_Some (t !! k)).

Inductive ClaimResult := kClaimedRunning | kWasCancelling | kBusyPreparing | kClaimBusyCompleting | kClaimNotFound.

(** With the context when the claim gives the task to the caller. *)
Definition ClaimForCompletionLocked (k : TaskKey) (t : TaskTable) : (ClaimResult * option CopyTaskContext) * TaskTable :=
  match t !! k with
  | None => ((kClaimNotFound, None), t)
  | Some task =>
      match ct_state task with
      | kPreparing | kPrepareCancelling => ((kBusyPreparing, None), t)
      | kCancelling => ((kWasCancelling, Some task), t)
      | kCompleting => ((kClaimBusyCompleting, None), t)
      | kRunning => ((kClaimedRunning, Some (with_state kCompleting task)), <[k := with_state kCompleting task]> t)
      end
  end.

Inductive CancelResult := kMarked | kMarkedPreparing | kAlreadyCancelling | kCancelBusyCompleting | kCancelNotFound.

Definition MarkCancellingLocked (k : TaskKey) (t : TaskTable) : CancelResult * TaskTable :=
  match t !! k with
  | None => (kCancelNotFound, t)
  | Some task =>
      match ct_state task with
      | kPreparing => (kMarkedPreparing, <[k := with_state kPrepareCancelling task]> t)
      | kCompleting => (kCancelBusyCompleting, t)
      | kPrepareCancelling | kCancelling => (kAlreadyCancelling, t)
      | kRunning => (kMarked, <[k := with_state kCancelling task]> t)
      end
  end.

(** ** Queries *)

Definition HasMigrationTask (k : TaskKey) (m : MigrationManager) : bool := HasActiveTaskLocked k (active_tasks_ m).

(** While the target's id is not yet known, every location of the block is
    taken for the target. *)
Definition HasActiveCopyTargetLocation (k : TaskKey) (location_id : LocationId) (m : MigrationManager) : bool :=
  if bool_decide (location_id = "") then false
  else match active_tasks_ m !! k with
       | None => false
       | Some task =>
           if is_preparing (ct_state task) && bool_decide (ct_dst_location_id task = "") then true
           else bool_decide (ct_dst_location_id task = location_id)
       end.

Definition ActiveTaskCount (m : MigrationManager) : Z := Z.of_nat (size (active_tasks_ m)).

Definition tasks_of_group (group : string) (t : TaskTable) : TaskTable := filter (fun kc => ct_group kc.2 = group) t.
Definition ActiveTaskCountForGroupUnsafe (group : string) (t : TaskTable) : Z := Z.of_nat (size (tasks_of_group group t)).
Definition ActiveTaskCountForGroup (group : string) (m : MigrationManager) : Z := ActiveTaskCountForGroupUnsafe group (active_tasks_ m).

Definition tasks_of_instance (instance : string) (t : TaskTable) : TaskTable := filter (fun kc => kc.1.1 = instance) t.
Definition ActiveTaskCountForInstances (instances : list string) (m : MigrationManager) : Z :=
  foldl (fun n i => n + Z.of_nat (size (tasks_of_instance i (active_tasks_ m)))) 0 instances.
Definition GetActiveBlockKeysForInstance (instance : string) (m : MigrationManager) : list KeyType :=
  (fun kc => kc.1.2) <$> map_to_list (tasks_of_instance instance (active_tasks_ m)).

Definition GetActiveTaskDstLocation (k : TaskKey) (m : MigrationManager) : LocationId :=
  match active_tasks_ m !! k with Some task => ct_dst_location_id task | None => "" end.

Definition GetStats (m : MigrationManager) : MigrationStats * Z * Z :=
  let s := stats_ m in
  (s, ActiveTaskCount m, if stat_marks_cleared s <? stat_marks_added s then stat_marks_added s - stat_marks_cleared s else 0).

(** ** Whole operations that are one critical section *)

Definition Cancel (k : TaskKey) (m : MigrationManager) : ErrorCode * MigrationManager :=
  let '(res, t) := MarkCancellingLocked k (active_tasks_ m) in
  let m := set_tasks t m in
  match res with
  | kCancelNotFound => (EC_NOENT, m)
  | kCancelBusyCompleting => (EC_EXIST, m)
  | kMarkedPreparing | kMarked | kAlreadyCancelling => (EC_OK, m)
  end.

Definition BeginDrainingInstance (instance : string) (m : MigrationManager) : MigrationManager :=
  set_draining ({[instance]} ∪ draining_instances_ m) m.
Definition EndDrainingInstance (instance : string) (m : MigrationManager) : MigrationManager :=
  set_draining (draining_instances_ m ∖ {[instance]}) m.

(** [EnqueueMarkExpiry]; the queue is kept in the order of deadlines. *)
Fixpoint push_expiring (e : ExpiringMark) (q : list ExpiringMark) : list ExpiringMark :=
  match q with
  | [] => [e]
  | x :: q => if em_deadline_ms e <? em_deadline_ms x then e :: x :: q else x :: push_expiring e q
  end.

Definition EnqueueMarkExpiry (e : ExpiringMark) (m : MigrationManager) : MigrationManager :=
  if (em_deadline_ms e <=? 0) || bool_decide (em_target e = "") then m
  else set_expiry (push_expiring e (mark_expiry_queue_ m)) m.

(** The marks whose deadline has passed, from the head of the queue. *)
Fixpoint take_expired (now_ms : Z) (q : list ExpiringMark) : list ExpiringMark * list ExpiringMark :=
  match q with
  | [] => ([], [])
  | e :: q => if em_deadline_ms e <=? now_ms then let '(out, rest) := take_expired now_ms q in (e :: out, rest) else ([], e :: q)
  end.

(** [Start] opens the gate; [Stop] first closes it and, when the submissions
    that had entered are gone and the monitor has ended, forgets the tasks. *)
Definition Start (m : MigrationManager) : MigrationManager := if running_ m then m else set_gate true true m.
Definition Stop_gate (m : MigrationManager) : MigrationManager := set_gate false (running_ m) m.
Definition Stop_finish (m : MigrationManager) : MigrationManager :=
  if running_ m then set_pending [] (set_tasks ∅ (set_gate (accepting_copy_submissions_ m) false m)) else m.

(** ** The gate of a batch, under [copy_submission_mutex_] and [task_mutex_] *)

(** One request of the batch: its result when it is refused, the table and the
    slots left. *)
Definition reserve_one (limit : CopyConcurrencyLimit) (draining : gset string) (r : MigrationRequest) (t : TaskTable) (slots : Z)
    : option ErrorCode * TaskTable * Z :=
  if bool_decide (rq_instance r ∈ draining) then (Some EC_ERROR, t, slots)
  else if limit_enabled limit && negb (bool_decide (rq_group r = cl_group limit)) then (Some EC_BADARGS, t, slots)
  else let '(ok, t) := ReservePreparingTaskLocked r t in
       if negb ok then (Some EC_EXIST, t, slots)
       else if limit_enabled limit && (slots =? 0) then (Some EC_OUT_OF_LIMIT, (RemovePreparingTaskLocked (request_key r) t).2, slots)
       else (None, t, if limit_enabled limit then slots - 1 else slots).

Fixpoint reserve_all (limit : CopyConcurrencyLimit) (draining : gset string) (rs : list MigrationRequest) (t : TaskTable) (slots : Z)
    : list (option ErrorCode) * TaskTable :=
  match rs with
  | [] => ([], t)
  | r :: rs =>
      let '(res, t, slots) := reserve_one limit draining r t slots in
      let '(out, t) := reserve_all limit draining rs t slots in (res :: out, t)
  end.

(** [None] when submissions are not accepted. *)
Definition reserve_batch (limit : CopyConcurrencyLimit) (rs : list MigrationRequest) (m : MigrationManager)
    : option (list (option ErrorCode)) * MigrationManager :=
  if negb (accepting_copy_submissions_ m) then (None, m)
  else
    let slots :=
      if limit_enabled limit then
        let active := ActiveTaskCountForGroupUnsafe (cl_group limit) (active_tasks_ m) in
        if active <? cl_max_concurrency limit then cl_max_concurrency limit - active else 0
      else u64_max in
    let '(out, t) := reserve_all limit (draining_instances_ m) rs (active_tasks_ m) slots in
    (Some out, set_tasks t m).

(** ** Lemmas *)

Lemma reserve_one_spec limit draining r t slots res t' slots' :
  reserve_one limit draining r t slots = (res, t', slots') ->
  match res with
  | Some _ => t' = t
  | None => t !! request_key r = None /\ t' = <[request_key r := preparing_context r]> t
  end.
Proof.
  unfold reserve_one, ReservePreparingTaskLocked, InsertActiveTaskLocked. change (ctx_key (preparing_context r)) with (request_key r).
  case_bool_decide; [by intros [= <- <- <-]|]. destruct (limit_enabled limit && _); [by intros [= <- <- <-]|].
  destruct (t !! request_key r) eqn:Ht; [by intros [= <- <- <-]|]. cbn [negb].
  destruct (limit_enabled limit && (slots =? 0)); intros [= <- <- <-]; [|by split].
  unfold RemovePreparingTaskLocked, RemoveActiveTaskLocked. rewrite lookup_insert_eq. cbn. by rewrite delete_insert_id.
Qed.
