(* ===== verification/MigrationGate.v ===== *)
(** * MigrationGate: what a batch of copies may reserve

    The gate of [BatchSubmit] ([reserve_batch] of [MigrationTasks]) against
    its specification: one answer per request, decided by what was active
    before and by the earlier requests of the batch that passed, and a limit
    of the group that no batch exceeds. *)

From stdpp Require Import base gmap sets list strings.
From Stdlib Require Import ZArith Lia.
From S2P Require Import Prelude StandardUri MetaTypes WriteFilter MigrationTasks.

Local Open Scope Z_scope.

(** ** The specification *)

(** The slots the group has left. *)
Definition free_slots (limit : CopyConcurrencyLimit) (m : MigrationManager) : Z :=
  Z.max 0 (cl_max_concurrency limit - ActiveTaskCountForGroup (cl_group limit) m).

(** The answer to a request when [passed] are the earlier ones that passed. *)
Definition gate_answer (limit : CopyConcurrencyLimit) (m : MigrationManager) (passed : list MigrationRequest) (r : MigrationRequest)
    : option ErrorCode :=
  if bool_decide (rq_instance r ∈ draining_instances_ m) then Some EC_ERROR
  else if limit_enabled limit && negb (bool_decide (rq_group r = cl_group limit)) then Some EC_BADARGS
  else if HasMigrationTask (request_key r) m || bool_decide (request_key r ∈ (request_key <$> passed)) then Some EC_EXIST
  else if limit_enabled limit && (free_slots limit m <=? Z.of_nat (length passed)) then Some EC_OUT_OF_LIMIT
  else None.

(** The requests of a batch that passed. *)
Definition passed_of (rs : list MigrationRequest) (outs : list (option ErrorCode)) : list MigrationRequest :=
  omap (fun ro => match ro.2 with None => Some ro.1 | Some _ => None end) (zip rs outs).

(** The table with the passed requests in preparation. *)
Definition reserved_table (passed : list MigrationRequest) (t : TaskTable) : TaskTable :=
  foldl (fun t r => <[request_key r := preparing_context r]> t) t passed.

(** ** Lemmas *)

Lemma reserved_table_none passed t k :
  reserved_table passed t !! k = None <-> t !! k = None /\ k ∉ (request_key <$> passed).
Proof.
  revert t. induction passed as [|r passed IH]; intros t; cbn [reserved_table foldl fmap list_fmap].
  - split; [by split; [|apply not_elem_of_nil]|by intros [? _]].
  - fold (reserved_table passed (<[request_key r := preparing_context r]> t)). rewrite IH, lookup_insert_None, not_elem_of_cons. naive_solver.
Qed.

Lemma reserved_table_snoc passed r t : reserved_table (passed ++ [r]) t = <[request_key r := preparing_context r]> (reserved_table passed t).
Proof. unfold reserved_table. by rewrite foldl_app. Qed.

Lemma passed_cons r rs out outs : passed_of (r :: rs) (out :: outs) = (match out with None => [r] | Some _ => [] end) ++ passed_of rs outs.
Proof. by destruct out. Qed.

Section gate.
Variables (limit : CopyConcurrencyLimit) (m : MigrationManager).

(** The state of the gate after [passed]. *)
Definition gate_state (passed : list MigrationRequest) (t : TaskTable) (slots : Z) : Prop :=
  t = reserved_table passed (active_tasks_ m) /\
  (limit_enabled limit = true ->
     slots = free_slots limit m - Z.of_nat (length passed) /\ 0 <= slots /\
     ActiveTaskCountForGroupUnsafe (cl_group limit) t = ActiveTaskCountForGroup (cl_group limit) m + Z.of_nat (length passed)).

Lemma active_or_passed passed k :
  HasMigrationTask k m || bool_decide (k ∈ (request_key <$> passed)) = bool_decide (is_Some (reserved_table passed (active_tasks_ m) !! k)).
Proof using Type.
  unfold HasMigrationTask, HasActiveTaskLocked. destruct (reserved_table _ _ !! k) eqn:Hk.
  - rewrite (bool_decide_eq_true_2 (is_Some (Some _))) by done. destruct (bool_decide _ || _) eqn:Hor; [done|].
    apply orb_false_iff in Hor as [H1%bool_decide_eq_false H2%bool_decide_eq_false]. apply eq_None_not_Some in H1.
    by rewrite (proj2 (reserved_table_none _ _ _)) in Hk.
  - apply reserved_table_none in Hk as [Hk1 Hk2]. rewrite Hk1. rewrite !bool_decide_eq_false_2; try done; by intros [? ?].
Qed.

Lemma count_reserved passed r : reserved_table passed (active_tasks_ m) !! request_key r = None -> rq_group r = cl_group limit ->
  ActiveTaskCountForGroupUnsafe (cl_group limit) (reserved_table (passed ++ [r]) (active_tasks_ m)) =
  ActiveTaskCountForGroupUnsafe (cl_group limit) (reserved_table passed (active_tasks_ m)) + 1.
Proof using Type.
  intros Hk Hg. rewrite reserved_table_snoc. unfold ActiveTaskCountForGroupUnsafe, tasks_of_group.
  rewrite map_filter_insert_True by done. rewrite map_size_insert_None by (apply map_lookup_filter_None; by left). lia.
Qed.

Lemma reserve_one_gate passed t slots r : gate_state passed t slots ->
  let '(res, t', slots') := reserve_one limit (draining_instances_ m) r t slots in
  res = gate_answer limit m passed r /\ gate_state (match res with None => passed ++ [r] | Some _ => passed end) t' slots'.
Proof using Type.
  intros [-> Hlim]. destruct (reserve_one limit _ r _ slots) as [[res t'] slots'] eqn:Hr.
  pose proof (reserve_one_spec _ _ _ _ _ _ _ _ Hr) as Hspec. revert Hr. unfold reserve_one, gate_answer. rewrite active_or_passed.
  case_bool_decide as Hd; [by intros [= <- <- <-]|].
  unfold ReservePreparingTaskLocked, InsertActiveTaskLocked. change (ctx_key (preparing_context r)) with (request_key r).
  destruct (limit_enabled limit) eqn:Hl; cbn [andb].
  - destruct (Hlim eq_refl) as (Hslots & Hpos & Hcount). case_bool_decide as Hg; cbn [negb]; [|by intros [= <- <- <-]].
    destruct (reserved_table _ _ !! request_key r) eqn:Hk; cbn [negb].
    { rewrite bool_decide_eq_true_2 by done. by intros [= <- <- <-]. }
    rewrite bool_decide_eq_false_2 by (by intros [? ?]). destruct (slots =? 0) eqn:Hs; intros [= <- <- <-].
    + rewrite (proj2 (Z.leb_le _ _)) by lia. split; [done|]. by rewrite Hspec.
    + rewrite (proj2 (Z.leb_gt _ _)) by lia. split; [done|]. split; [by rewrite reserved_table_snoc|]. intros _.
      rewrite <-reserved_table_snoc, count_reserved by done. rewrite length_app. cbn [length]. lia.
  - destruct (reserved_table _ _ !! request_key r) eqn:Hk; cbn [negb]; intros [= <- <- <-].
    + rewrite bool_decide_eq_true_2 by done. split; [done|]. by split; [|rewrite Hl].
    + rewrite bool_decide_eq_false_2 by (by intros [? ?]). split; [done|]. by split; [rewrite reserved_table_snoc|rewrite Hl].
Qed.
End gate.

Lemma reserve_all_gate limit m rs : forall passed t slots, gate_state limit m passed t slots ->
  let '(outs, t') := reserve_all limit (draining_instances_ m) rs t slots in
  length outs = length rs /\
  (forall j r, rs !! j = Some r -> outs !! j = Some (gate_answer limit m (passed ++ passed_of (take j rs) (take j outs)) r)) /\
  exists slots', gate_state limit m (passed ++ passed_of rs outs) t' slots'.
Proof.
  induction rs as [|r rs IH]; intros passed t slots Hg; cbn [reserve_all].
  { split_and!; [done|done|]. exists slots. by rewrite app_nil_r. }
  pose proof (reserve_one_gate limit m passed t slots r Hg) as H1. destruct (reserve_one _ _ _ _ _) as [[res t1] slots1].
  destruct H1 as [Hres Hg1]. specialize (IH _ _ _ Hg1). destruct (reserve_all _ _ _ _ _) as [outs t']. destruct IH as (Hl & Ha & slots' & Hg').
  assert (Hpass : forall l l', (match res with None => passed ++ [r] | Some _ => passed end) ++ passed_of l l' = passed ++ passed_of (r :: l) (res :: l')).
  { intros l l'. rewrite passed_cons. by destruct res; rewrite <-?(assoc_L (++)). }
  rewrite Hpass in Hg'. split_and!; [cbn; by f_equal| |by exists slots'].
  intros [|j] r' Hj; cbn in Hj.
  - injection Hj as <-. cbn. by rewrite app_nil_r, Hres.
  - change ((res :: outs) !! S j) with (outs !! j). by rewrite (Ha j r' Hj), Hpass.
Qed.

(** C27: the gate of a batch of copies. While submissions are accepted, the
    answer to the [j]-th request is the specification's for what was active
    and for the earlier requests that passed; the table gains exactly the
    requests that passed, in preparation; and if the batch brings a limit for
    its group, the group has at most as many tasks as the limit allows, or as
    many as it had. *)
Theorem reserve_batch_exact limit rs m (Hacc : accepting_copy_submissions_ m = true) :
  exists outs m', reserve_batch limit rs m = (Some outs, m') /\ length outs = length rs /\
  (forall j r, rs !! j = Some r -> outs !! j = Some (gate_answer limit m (passed_of (take j rs) (take j outs)) r)) /\
  active_tasks_ m' = reserved_table (passed_of rs outs) (active_tasks_ m) /\
  (limit_enabled limit = true ->
     ActiveTaskCountForGroup (cl_group limit) m' <= Z.max (cl_max_concurrency limit) (ActiveTaskCountForGroup (cl_group limit) m)).
Proof.
  unfold reserve_batch. rewrite Hacc. cbn [negb]. cbv zeta. set (slots := if limit_enabled limit then _ else _).
  assert (Hg : gate_state limit m [] (active_tasks_ m) slots).
  { split; [done|]. intros Hl. unfold slots. rewrite Hl. unfold free_slots, ActiveTaskCountForGroup. cbn [length].
    destruct (_ <? _) eqn:Hlt; [apply Z.ltb_lt in Hlt|apply Z.ltb_ge in Hlt]; lia. }
  pose proof (reserve_all_gate limit m rs _ _ _ Hg) as H. destruct (reserve_all _ _ _ _ _) as [outs t'].
  destruct H as (Hl & Ha & slots' & Ht & Hlim). exists outs, (set_tasks t' m). split_and!; [done|done|exact Ha|exact Ht|].
  intros Hen. destruct (Hlim Hen) as (? & ? & Hc). unfold ActiveTaskCountForGroup in *. cbn [active_tasks_ set_tasks]. rewrite Hc.
  unfold free_slots, ActiveTaskCountForGroup in *. lia.
Qed.

(** A limit of two, one copy active, and a repeated block in the batch. *)
Definition gate_request (b : KeyType) : MigrationRequest :=
  mkMigrationRequest "g" "i" b "L1" "hf" "mc" MIGRATION_RETENTION_KEEP_BOTH [mkLocationSpec "tp0" "hf3fs://a/f?size=16"] 0.
Definition gate_manager : MigrationManager :=
  set_tasks {[("i", 1) := with_state kRunning (preparing_context (gate_request 1))]} (Start new_migration).

Lemma reserve_batch_exact_witness :
  exists outs m', reserve_batch (mkCopyLimit "g" 2) (gate_request <$> [1; 2; 2; 3]) gate_manager = (Some outs, m') /\
    outs !! 2%nat = Some (Some EC_EXIST) /\ outs !! 3%nat = Some (Some EC_OUT_OF_LIMIT) /\ ActiveTaskCountForGroup "g" m' <= 2.
Proof.
  destruct (reserve_batch_exact (mkCopyLimit "g" 2) (gate_request <$> [1; 2; 2; 3]) gate_manager eq_refl)
    as (outs & m' & Heq & Hl & Ha & Ht & Hlim).
  exists outs, m'. assert (Hlim' := Hlim eq_refl). vm_compute in Heq. injection Heq as <- Hm.
  split; [|split; [reflexivity|split; [reflexivity|exact Hlim']]]. rewrite <-Hm. vm_compute. reflexivity.
Defined.
