(* ===== verification/MigrationRun.v ===== *)
(** * MigrationRun: the threads of the migration manager

    The methods of [manager/migration_manager.cc] that use the task table as
    programs: a critical section ([Locked]) is one step on the shared state, a
    call of another component ([Ask]) is a question with an arbitrary answer.
    Between two steps of a program the programs of the other threads run. The
    injected components are present, as the constructor's callers make them;
    events, metrics and durations are left out. *)

From stdpp Require Import base gmap sets list strings.
From Stdlib Require Import ZArith Lia.
From S2P Require Import Prelude StandardUri MetaTypes StorageSelect WriteFilter WriteAlloc MetaMutate MigrationTasks.

Local Open Scope Z_scope.

(** ** Programs *)

Record CacheLocationCopyRequest := mkCopyRequest {
  cp_instance : string;
  cp_block : KeyType;
  cp_exec_storage : string;
  cp_src_uris : list StandardUri;
  cp_dst_uris : list StandardUri;
}.

(** What the programs ask the other components. *)
Inductive query :=
  | q_indexer (instance : string)
  | q_instance_group (instance : string)
  | q_target_admissions (group : string) (targets : list string)
  | q_backend (storage : string)
  | q_create (storage : string) (keys : list string) (size : Z)
  | q_delete_uris (storage : string) (uris : list StandardUri)
  | q_get_location (instance : string) (block : KeyType)
  | q_add_locations (instance : string) (keys : list KeyType) (locations : list CacheLocation)
  | q_reconcile (instance : string) (keys : list KeyType) (results : list AddLocationResult)
  | q_submit_delete (instance : string) (keys : list KeyType) (ids : list LocationId)
  | q_marks (instance : string) (keys : list KeyType)
  | q_clear_mark (instance : string) (key : KeyType) (target : string) (deadline_ms : Z)
  | q_submit_copy (request : CacheLocationCopyRequest)
  | q_promote (instance : string) (key : KeyType) (location_id : LocationId)
  | q_delete_target (instance : string) (key : KeyType) (location_id : LocationId)
  | q_delete_source (instance : string) (key : KeyType) (location_id : LocationId)
  | q_poll (future : nat)
  | q_now_ms.

Definition answer (q : query) : Type :=
  match q with
  | q_indexer _ => bool
  | q_instance_group _ => option string
  | q_target_admissions _ _ => list StorageTargetAdmissionResult
  | q_backend _ => option (DataStorageType * bool)
  | q_create _ _ _ => list (ErrorCode * StandardUri)
  | q_delete_uris _ _ => unit
  | q_get_location _ _ => ErrorCode * list CacheLocationMap
  | q_add_locations _ _ _ => ErrorCode * list AddLocationResult
  | q_reconcile _ _ _ => option AddLocationRollbackPlan
  | q_submit_delete _ _ _ => bool
  | q_marks _ _ => ErrorCode * list MarkQueryResult
  | q_clear_mark _ _ _ _ => unit
  | q_submit_copy _ => option nat
  | q_promote _ _ _ => bool
  | q_delete_target _ _ _ => unit
  | q_delete_source _ _ _ => unit
  | q_poll _ => option ErrorCode
  | q_now_ms => Z
  end.

Inductive prog (A : Type) : Type :=
  | Ret (a : A)
  | Locked {B : Type} (f : MigrationManager -> B * MigrationManager) (k : B -> prog A)
  | Ask (q : query) (k : answer q -> prog A).
Arguments Ret {A} a.
Arguments Locked {A B} f k.
Arguments Ask {A} q k.

Fixpoint prog_bind {A B} (p : prog A) (f : A -> prog B) : prog B :=
  match p with
  | Ret a => f a
  | Locked g k => Locked g (fun b => prog_bind (k b) f)
  | Ask q k => Ask q (fun a => prog_bind (k a) f)
  end.

Definition locked {B} (f : MigrationManager -> B * MigrationManager) : prog B := Locked f Ret.
Definition ask (q : query) : prog (answer q) := Ask q Ret.
(** A critical section without a result. *)
Definition update (f : MigrationManager -> MigrationManager) : prog unit := locked (fun m => (tt, f m)).
(** A critical section on the table only. *)
Definition on_table {B} (f : TaskTable -> B * TaskTable) : prog B :=
  locked (fun m => let '(b, t) := f (active_tasks_ m) in (b, set_tasks t m)).

Notation "'let!' x := p 'in' q" := (prog_bind p (fun x => q)) (at level 200, x pattern, p at level 100, q at level 200, only parsing).
Notation "p ';;!' q" := (prog_bind p (fun _ => q)) (at level 100, right associativity, only parsing).

Fixpoint for_each {A B} (f : A -> prog B) (l : list A) : prog (list B) :=
  match l with
  | [] => Ret []
  | a :: l => let! b := f a in let! bs := for_each f l in Ret (b :: bs)
  end.

(** ** Shared pieces *)

Definition CheckTargetStorageAdmission (group instance target : string) : prog ErrorCode :=
  if bool_decide (target = "") then Ret EC_BADARGS
  else
    let! found := if bool_decide (group = "") then ask (q_instance_group instance) else Ret (Some group) in
    match found with
    | None => Ret EC_INSTANCE_NOT_EXIST
    | Some group =>
        if negb (bool_decide (group = "")) then
          let! admissions := ask (q_target_admissions group [target]) in
          Ret (match admissions with
               | [a] => match ad_status a with kAllowed => EC_OK | _ => ad_ec a end
               | _ => EC_ERROR
               end)
        else
          let! b := ask (q_backend target) in
          Ret (match b with Some (_, true) => EC_OK | _ => EC_NOENT end)
    end.

(** The names of [CheckTargetStorageAdmission]'s parameters in a request. *)
Definition check_request_target (r : MigrationRequest) : prog ErrorCode :=
  CheckTargetStorageAdmission (rq_group r) (rq_instance r) (rq_dst_storage r).

Record AddLocationRollbackItem := mkRollbackItem {
  rb_block : KeyType;
  rb_storage : string;
  rb_uris : list StandardUri;
  rb_ec : ErrorCode;
  rb_location_id : LocationId;
}.

(** The URIs to delete, by storage. *)
Definition rollback_uris (items : list AddLocationRollbackItem) (indices : list nat) : gmap string (list StandardUri) :=
  foldl (fun m it => match rb_uris it with
                     | [] => m
                     | us => <[rb_storage it := default [] (m !! rb_storage it) ++ us]> m
                     end) ∅ (omap (fun i => items !! i) indices).

Definition RollbackAddedLocations (instance : string) (items : list AddLocationRollbackItem) : prog unit :=
  let! plan := ask (q_reconcile instance (rb_block <$> items) ((fun it => mkAddResult (rb_ec it) (rb_location_id it)) <$> items)) in
  match plan with
  | None => Ret tt
  | Some plan =>
      let! _ := match pipeline_keys plan with
                | [] => Ret true
                | _ => ask (q_submit_delete instance (pipeline_keys plan) (pipeline_location_ids plan))
                end in
      let! _ := for_each (fun su => ask (q_delete_uris su.1 su.2)) (map_to_list (rollback_uris items (direct_delete_indices plan))) in
      Ret tt
  end.

Definition SubmitTargetLocationDelete (c : CopyTaskContext) : prog unit :=
  if bool_decide (ct_dst_location_id c = "") then Ret tt
  else ask (q_delete_target (ct_instance c) (ct_block c) (ct_dst_location_id c)).

Definition SubmitSourceLocationDelete (c : CopyTaskContext) : prog unit :=
  if bool_decide (ct_src_location_id c = "") then Ret tt
  else ask (q_delete_source (ct_instance c) (ct_block c) (ct_src_location_id c)).

(** The mark is bound to the task when it names the task's target. *)
Definition snapshot_mark (c : CopyTaskContext) : prog CopyTaskContext :=
  let! r := ask (q_marks (ct_instance c) [ct_block c]) in
  Ret (match r with
       | (EC_OK, mark :: _) =>
           if HasValidMark mark && bool_decide (mark_target mark = ct_dst_storage c)
           then with_mark (mark_target mark) (mark_deadline_ms mark) c else c
       | _ => c
       end).

(** [UpdatePreparingTaskLocked] and [MarkTaskRunningLocked] under one lock. *)
Definition start_running (c : CopyTaskContext) (t : TaskTable) : bool * TaskTable :=
  let '(updated, t) := UpdatePreparingTaskLocked c t in
  if updated then MarkTaskRunningLocked (ctx_key c) t else (false, t).

Definition count_submitted (m : MigrationManager) : MigrationManager :=
  let s := stats_ m in
  set_stats (mkMigrationStats (u64 (stat_copy_submitted s + 1)) (stat_copy_completed s) (stat_copy_failed s)
               (stat_copy_cancelled s) (stat_marks_added s) (stat_marks_cleared s)) m.

(** The copy is handed to the executor; a task that cannot be is removed with
    its target. *)
Definition submit_copy (c : CopyTaskContext) (srcs dsts : list StandardUri) : prog ErrorCode :=
  let! future := ask (q_submit_copy (mkCopyRequest (ct_instance c) (ct_block c) (ct_src_storage c) srcs dsts)) in
  match future with
  | None =>
      let! _ := SubmitTargetLocationDelete c in
      let! _ := on_table (RemoveActiveTaskLocked (ctx_key c)) in
      Ret EC_ERROR
  | Some f =>
      let! _ := update (fun m => set_pending (pending_copies_ m ++ [mkPending (ct_instance c) (ct_block c) f]) m) in
      let! _ := update count_submitted in
      Ret EC_OK
  end.

(** ** The single submission *)

Definition spec_bytes (u : StandardUri) : Z := GetParamAs_u64 (chars_of "size") u 0.

(** The specs are created one by one; [None] after a rollback. *)
Fixpoint create_specs (r : MigrationRequest) (specs : list LocationSpec) (srcs dsts : list StandardUri) (names : list LocationSpec)
    (total : Z) : prog (option (list StandardUri * list StandardUri * list LocationSpec * Z)) :=
  let rollback := match dsts with [] => Ret None | _ => let! _ := ask (q_delete_uris (rq_dst_storage r) dsts) in Ret None end in
  match specs with
  | [] => Ret (Some (srcs, dsts, names, total))
  | s :: specs =>
      let src := FromUri (chars_of (uri s)) in
      if negb (Valid src) then rollback
      else
        let! results := ask (q_create (rq_dst_storage r) [data_key (rq_instance r) (name s) (rq_block r)] (spec_bytes src)) in
        match results with
        | [(EC_OK, dst)] =>
            create_specs r specs (srcs ++ [src]) (dsts ++ [dst])
              (names ++ [mkLocationSpec (name s) (String.string_of_list_ascii (ToUriString dst))]) (u64 (total + spec_bytes src))
        | _ => rollback
        end
  end.

(** The source of a request that names none: its specs and creation time. *)
Definition read_source (r : MigrationRequest) : prog (ErrorCode + list LocationSpec * Z) :=
  match rq_src_specs r with
  | _ :: _ => Ret (inr (rq_src_specs r, rq_src_create_time r))
  | [] =>
      let! (ec, maps) := ask (q_get_location (rq_instance r) (rq_block r)) in
      Ret (if negb (bool_decide (ec = EC_OK)) then inl EC_NOENT
           else match maps with
           | [] => inl EC_NOENT
           | locs :: _ =>
               match locs !! rq_src_location_id r with
               | None => inl EC_NOENT
               | Some None => inl EC_ERROR
               | Some (Some l) =>
                   if negb (bool_decide (status l = CLS_SERVING)) then inl EC_MISMATCH
                   else if bool_decide (location_specs l = []) then inl EC_ERROR
                   else inr (location_specs l, create_time l)
               end
           end)
  end.

Definition new_target (dst_type : DataStorageType) (specs : list LocationSpec) : CacheLocation :=
  mkCacheLocation "" CLS_NEW dst_type (Z.of_nat (length specs)) 0 specs kUnknownValidatedTotalSize.

(** The context of a request whose target has been published. *)
Definition task_context (r : MigrationRequest) (src_create_time : Z) (dst_location_id : LocationId) (total_bytes : Z) : CopyTaskContext :=
  mkCopyTask (rq_group r) (rq_instance r) (rq_block r) (rq_src_location_id r) src_create_time (rq_src_storage r)
    (rq_dst_storage r) dst_location_id (rq_retention r) total_bytes "" 0 kRunning.

Definition PrepareCopyTask (r : MigrationRequest) : prog (ErrorCode + CopyTaskContext * list StandardUri * list StandardUri) :=
  if bool_decide (rq_instance r = "") || bool_decide (rq_src_location_id r = "") || bool_decide (rq_src_storage r = "")
     || bool_decide (rq_dst_storage r = "") then Ret (inl EC_BADARGS)
  else
    let! found := ask (q_indexer (rq_instance r)) in
    if negb found then Ret (inl EC_INSTANCE_NOT_EXIST)
    else
      let! source := read_source r in
      match source with
      | inl ec => Ret (inl ec)
      | inr (specs, create_time) =>
          let! backend := ask (q_backend (rq_dst_storage r)) in
          match backend with
          | None => Ret (inl EC_NOENT)
          | Some (dst_type, _) =>
              let! created := create_specs r specs [] [] [] 0 in
              match created with
              | None => Ret (inl EC_ERROR)
              | Some (srcs, dsts, dst_specs, total) =>
                  let! (ec, results) := ask (q_add_locations (rq_instance r) [rq_block r] [new_target dst_type dst_specs]) in
                  match results with
                  | [res] =>
                      if bool_decide (ec = EC_OK) && bool_decide (add_ec res = EC_OK) && negb (bool_decide (add_location_id res = ""))
                      then Ret (inr (task_context r create_time (add_location_id res) total, srcs, dsts))
                      else
                        let! _ := RollbackAddedLocations (rq_instance r)
                                    [mkRollbackItem (rq_block r) (rq_dst_storage r) dsts (add_ec res) (add_location_id res)] in
                        Ret (inl EC_ERROR)
                  | _ => Ret (inl EC_ERROR)
                  end
              end
          end
      end.

Definition release_preparing (k : TaskKey) : prog unit :=
  let! _ := on_table (RemovePreparingTaskLocked k) in Ret tt.

Definition Submit (r : MigrationRequest) : prog ErrorCode :=
  let! accepting := locked (fun m => (accepting_copy_submissions_ m, m)) in
  if negb accepting then Ret EC_ERROR
  else if bool_decide (rq_instance r = "") || bool_decide (rq_src_location_id r = "") || bool_decide (rq_src_storage r = "")
     || bool_decide (rq_dst_storage r = "") then Ret EC_BADARGS
  else
    let! found := ask (q_indexer (rq_instance r)) in
    if negb found then Ret EC_INSTANCE_NOT_EXIST
    else
      let! target_ec := check_request_target r in
      if negb (bool_decide (target_ec = EC_OK)) then Ret target_ec
      else
        let! reserved := locked (reserve_batch no_copy_limit [r]) in
        match reserved with
        | Some [None] =>
            let! prepared := PrepareCopyTask r in
            match prepared with
            | inl ec => let! _ := release_preparing (request_key r) in Ret ec
            | inr (c, srcs, dsts) =>
                let! bound := on_table (UpdatePreparingTaskLocked c) in
                if negb bound then
                  let! _ := SubmitTargetLocationDelete c in
                  let! _ := release_preparing (request_key r) in Ret EC_ERROR
                else
                  let! c := snapshot_mark c in
                  let! running := on_table (start_running c) in
                  if negb running then
                    let! _ := SubmitTargetLocationDelete c in
                    let! _ := release_preparing (request_key r) in Ret EC_ERROR
                  else submit_copy c srcs dsts
            end
        | Some (Some ec :: _) => Ret ec
        | _ => Ret EC_ERROR
        end.

(** ** The batch *)

(** A request on its way through the batch. *)
Record BatchCopyItem := mkItem {
  bi_request : MigrationRequest;
  bi_result : ErrorCode;
  bi_eligible : bool;
  bi_reserved : bool;
  bi_src_uris : list StandardUri;
  bi_dst_uris : list StandardUri;
  bi_dst_specs : list LocationSpec;
  bi_total_bytes : Z;
}.

Definition new_item (r : MigrationRequest) : BatchCopyItem := mkItem r EC_ERROR true false [] [] [] 0.

Definition MarkFailed (ec : ErrorCode) (it : BatchCopyItem) : BatchCopyItem :=
  mkItem (bi_request it) ec false (bi_reserved it) (bi_src_uris it) (bi_dst_uris it) (bi_dst_specs it) (bi_total_bytes it).
Definition set_reserved (b : bool) (it : BatchCopyItem) : BatchCopyItem :=
  mkItem (bi_request it) (bi_result it) (bi_eligible it) b (bi_src_uris it) (bi_dst_uris it) (bi_dst_specs it) (bi_total_bytes it).
Definition add_bytes (n : Z) (it : BatchCopyItem) : BatchCopyItem :=
  mkItem (bi_request it) (bi_result it) (bi_eligible it) (bi_reserved it) (bi_src_uris it) (bi_dst_uris it) (bi_dst_specs it)
    (u64 (bi_total_bytes it + n)).
Definition add_uri (src dst : StandardUri) (spec_name : string) (it : BatchCopyItem) : BatchCopyItem :=
  mkItem (bi_request it) (bi_result it) (bi_eligible it) (bi_reserved it) (bi_src_uris it ++ [src]) (bi_dst_uris it ++ [dst])
    (bi_dst_specs it ++ [mkLocationSpec spec_name (String.string_of_list_ascii (ToUriString dst))]) (bi_total_bytes it).
Definition drop_uris (it : BatchCopyItem) : BatchCopyItem :=
  mkItem (bi_request it) (bi_result it) (bi_eligible it) (bi_reserved it) [] [] [] (bi_total_bytes it).
Definition clear_dst_uris (it : BatchCopyItem) : BatchCopyItem :=
  mkItem (bi_request it) (bi_result it) (bi_eligible it) (bi_reserved it) (bi_src_uris it) [] (bi_dst_specs it) (bi_total_bytes it).
Definition set_result (ec : ErrorCode) (it : BatchCopyItem) : BatchCopyItem :=
  mkItem (bi_request it) ec (bi_eligible it) (bi_reserved it) (bi_src_uris it) (bi_dst_uris it) (bi_dst_specs it) (bi_total_bytes it).

Definition item_key (it : BatchCopyItem) : TaskKey := request_key (bi_request it).

(** Every request names the first one's instance and target, and brings its
    source. *)
Definition prepared_batch (rs : list MigrationRequest) : bool :=
  match rs with
  | [] => true
  | first :: _ =>
      negb (bool_decide (rq_instance first = "")) && negb (bool_decide (rq_dst_storage first = ""))
      && forallb (fun r => bool_decide (rq_instance r = rq_instance first) && bool_decide (rq_dst_storage r = rq_dst_storage first)
           && negb (bool_decide (rq_src_location_id r = "")) && negb (bool_decide (rq_src_storage r = ""))
           && negb (bool_decide (rq_src_specs r = []))) rs
  end.

(** Phase 0's answer for an item. *)
Definition gate_item (it : BatchCopyItem) (refused : option ErrorCode) : BatchCopyItem :=
  match refused with Some ec => MarkFailed ec it | None => set_reserved true it end.

(** Releasing a reservation the item still holds. *)
Definition release_item (it : BatchCopyItem) : prog BatchCopyItem :=
  if bi_reserved it then let! _ := release_preparing (item_key it) in Ret (set_reserved false it) else Ret it.

(** [release_all_preparing], one critical section. *)
Definition release_reserved (t : TaskTable) (it : BatchCopyItem) : TaskTable :=
  if bi_reserved it then (RemovePreparingTaskLocked (item_key it) t).2 else t.
Definition release_all (items : list BatchCopyItem) : prog (list BatchCopyItem) :=
  let! _ := on_table (fun t => (tt, foldl release_reserved t items)) in
  Ret (set_reserved false <$> items).

(** *** Phase 1: the data of the targets *)

Record CreateEntry := mkEntry { ce_item : nat; ce_name : string; ce_dst_key : string; ce_src : StandardUri }.

(** The entries of an item by size, up to its first invalid URI. *)
Fixpoint plan_specs (i : nat) (r : MigrationRequest) (specs : list LocationSpec) (it : BatchCopyItem) (groups : gmap Z (list CreateEntry))
    : BatchCopyItem * gmap Z (list CreateEntry) :=
  match specs with
  | [] => (it, groups)
  | s :: specs =>
      let src := FromUri (chars_of (uri s)) in
      if negb (Valid src) then (MarkFailed EC_ERROR it, groups)
      else
        let size := spec_bytes src in
        let e := mkEntry i (name s) (data_key (rq_instance r) (name s) (rq_block r)) src in
        plan_specs i r specs (add_bytes size it) (<[size := default [] (groups !! size) ++ [e]]> groups)
  end.

Fixpoint plan_items (i : nat) (items : list BatchCopyItem) (groups : gmap Z (list CreateEntry))
    : list BatchCopyItem * gmap Z (list CreateEntry) :=
  match items with
  | [] => ([], groups)
  | it :: items =>
      let '(it, groups) := if bi_eligible it then plan_specs i (bi_request it) (rq_src_specs (bi_request it)) it groups
                           else (it, groups) in
      let '(items, groups) := plan_items (S i) items groups in (it :: items, groups)
  end.

(** One result of a [Create], and the created URIs nobody will own. *)
Definition take_created (x : list BatchCopyItem * list StandardUri) (er : CreateEntry * (ErrorCode * StandardUri))
    : list BatchCopyItem * list StandardUri :=
  let '(items, unowned) := x in
  let '(e, (ec, uri)) := er in
  match items !! ce_item e with
  | None => x
  | Some it =>
      if negb (bi_eligible it) then (items, if bool_decide (ec = EC_OK) then unowned ++ [uri] else unowned)
      else if bool_decide (ec = EC_OK) then (<[ce_item e := add_uri (ce_src e) uri (ce_name e) it]> items, unowned)
      else (<[ce_item e := MarkFailed EC_ERROR it]> items, unowned)
  end.

Fixpoint create_groups (storage : string) (groups : list (Z * list CreateEntry)) (items : list BatchCopyItem) (unowned : list StandardUri)
    : prog (list BatchCopyItem * list StandardUri) :=
  match groups with
  | [] => Ret (items, unowned)
  | (size, entries) :: groups =>
      let! results := ask (q_create storage (ce_dst_key <$> entries) size) in
      if negb (length results =? length entries)%nat then
        create_groups storage groups (foldl (fun items e => alter (MarkFailed EC_ERROR) (ce_item e) items) items entries)
          (unowned ++ (snd <$> filter (fun r => r.1 = EC_OK) results))
      else
        let '(items, unowned) := foldl take_created (items, unowned) (zip entries results) in
        create_groups storage groups items unowned
  end.

(** The URIs of an item that is given up are deleted before its reservation is. *)
Definition delete_item_uris (it : BatchCopyItem) : prog unit :=
  match bi_dst_uris it with [] => Ret tt | us => ask (q_delete_uris (rq_dst_storage (bi_request it)) us) end.

Definition rollback_failed (it : BatchCopyItem) : prog BatchCopyItem :=
  if bi_eligible it then Ret it
  else let! _ := delete_item_uris it in
       release_item (match bi_dst_uris it with [] => it | _ => drop_uris it end).

(** The items that have all their specs go on. *)
Definition check_created (it : BatchCopyItem) : prog BatchCopyItem :=
  if negb (bi_eligible it) then Ret it
  else if (length (bi_dst_specs it) =? length (rq_src_specs (bi_request it)))%nat then Ret it
  else let! _ := delete_item_uris it in release_item (MarkFailed EC_ERROR it).

(** *** Phase 3: binding and starting *)

(** What [BatchAddLocation] answered for an eligible item: its task, or the
    code of its failure. *)
Definition added (it : BatchCopyItem) (res : AddLocationResult) : CopyTaskContext + ErrorCode :=
  if bool_decide (add_ec res = EC_OK) && negb (bool_decide (add_location_id res = ""))
  then inl (task_context (bi_request it) (rq_src_create_time (bi_request it)) (add_location_id res) (bi_total_bytes it))
  else inr (if bool_decide (add_ec res = EC_OK) then EC_MISMATCH else add_ec res).

(** An item after [BatchAddLocation]: not part of it, failed, or with its task. *)
Inductive AddedItem :=
  | not_added
  | add_failed (ec : ErrorCode) (location_id : LocationId) (uris : list StandardUri)
  | add_done (c : CopyTaskContext).

Fixpoint distribute (items : list BatchCopyItem) (results : list AddLocationResult) : list (BatchCopyItem * AddedItem) :=
  match items with
  | [] => []
  | it :: items =>
      if bi_eligible it then
        match results with
        | [] => (it, not_added) :: distribute items []
        | res :: results =>
            (match added it res with
             | inl c => (it, add_done c)
             | inr ec => (MarkFailed ec (clear_dst_uris it), add_failed ec (add_location_id res) (bi_dst_uris it))
             end) :: distribute items results
        end
      else (it, not_added) :: distribute items results
  end.

Definition rollback_item (ia : BatchCopyItem * AddedItem) : option AddLocationRollbackItem :=
  match ia.2 with
  | add_failed ec lid uris => Some (mkRollbackItem (rq_block (bi_request ia.1)) (rq_dst_storage (bi_request ia.1)) uris ec lid)
  | _ => None
  end.

Definition release_failed (ia : BatchCopyItem * AddedItem) : prog (BatchCopyItem * AddedItem) :=
  match ia.2 with
  | add_failed _ _ _ => let! it := release_item ia.1 in Ret (it, ia.2)
  | _ => Ret ia
  end.

(** Binding all targets under one lock: which reservations were still there. *)
Fixpoint bind_all (l : list (BatchCopyItem * AddedItem)) (t : TaskTable) : list bool * TaskTable :=
  match l with
  | [] => ([], t)
  | (_, add_done c) :: l =>
      let '(b, t) := UpdatePreparingTaskLocked c t in let '(bs, t) := bind_all l t in (b :: bs, t)
  | _ :: l => let '(bs, t) := bind_all l t in (false :: bs, t)
  end.

Definition drop_unbound (x : BatchCopyItem * AddedItem * bool) : prog (BatchCopyItem * AddedItem * bool) :=
  match x with
  | (it, add_done c, false) =>
      let! _ := SubmitTargetLocationDelete c in
      let! it := release_item (MarkFailed EC_ERROR it) in Ret (it, add_done c, false)
  | _ => Ret x
  end.

Definition start_item (x : BatchCopyItem * AddedItem * bool) : prog BatchCopyItem :=
  match x with
  | (it, add_done c, true) =>
      let! c := snapshot_mark c in
      let! running := on_table (start_running c) in
      if negb running then
        let! _ := SubmitTargetLocationDelete c in release_item (MarkFailed EC_ERROR it)
      else
        let! ec := submit_copy c (bi_src_uris it) (bi_dst_uris it) in
        Ret (set_reserved false (if bool_decide (ec = EC_OK) then set_result EC_OK it else MarkFailed EC_ERROR it))
  | (it, _, _) => Ret it
  end.

(** Phases 2 and 3 for the items that have their data. *)
Definition publish_batch (instance : string) (dst_type : DataStorageType) (items : list BatchCopyItem) : prog (list BatchCopyItem) :=
  let adds := filter (fun it => bi_eligible it = true) items in
  match adds with
  | [] => Ret items
  | _ =>
      let! (_, results) := ask (q_add_locations instance ((fun it => rq_block (bi_request it)) <$> adds)
                                  ((fun it => new_target dst_type (bi_dst_specs it)) <$> adds)) in
      if negb (length results =? length adds)%nat then
        Ret ((fun it => if bi_eligible it then MarkFailed EC_MISMATCH it else it) <$> items)
      else
        let l := distribute items results in
        let! l := match omap rollback_item l with
                  | [] => Ret l
                  | rollbacks => let! _ := RollbackAddedLocations instance rollbacks in for_each release_failed l
                  end in
        let! bound := on_table (bind_all l) in
        let! l := for_each drop_unbound (zip l bound) in
        for_each start_item l
  end.

Definition BatchSubmit (rs : list MigrationRequest) (limit : CopyConcurrencyLimit) : prog (list ErrorCode) :=
  match rs with
  | [] => Ret []
  | first :: _ =>
      let items := new_item <$> rs in
      let collect := fun items => Ret (bi_result <$> (items : list BatchCopyItem)) in
      if negb (prepared_batch rs) then collect (MarkFailed EC_BADARGS <$> items)
      else
        let! accepting := locked (fun m => (accepting_copy_submissions_ m, m)) in
        if negb accepting then collect items
        else
          let! target_ec := check_request_target first in
          if negb (bool_decide (target_ec = EC_OK)) then collect (MarkFailed target_ec <$> items)
          else
            let! gate := locked (reserve_batch limit rs) in
            match gate with
            | None => collect items
            | Some refused =>
                let items := zip_with gate_item items refused in
                let! found := ask (q_indexer (rq_instance first)) in
                let! backend := if found then ask (q_backend (rq_dst_storage first)) else Ret None in
                match backend with
                | None => let! items := release_all items in collect items
                | Some (dst_type, _) =>
                    let '(items, groups) := plan_items 0 items ∅ in
                    let! (items, unowned) := create_groups (rq_dst_storage first) (map_to_list groups) items [] in
                    let! _ := match unowned with [] => Ret tt | _ => ask (q_delete_uris (rq_dst_storage first) unowned) end in
                    let! items := for_each rollback_failed items in
                    let! items := for_each check_created items in
                    let! items := publish_batch (rq_instance first) dst_type items in
                    let! items := release_all items in
                    collect items
                end
            end
  end.

(** ** Cancelling *)

Definition BatchCancel (instance : string) (blocks : list KeyType) : prog (list ErrorCode) :=
  for_each (fun b => locked (Cancel (instance, b))) blocks.

(** ** Completion *)

Definition count_failed (m : MigrationManager) : MigrationManager :=
  let s := stats_ m in
  set_stats (mkMigrationStats (stat_copy_submitted s) (stat_copy_completed s) (u64 (stat_copy_failed s + 1))
               (stat_copy_cancelled s) (stat_marks_added s) (stat_marks_cleared s)) m.
Definition count_completed (m : MigrationManager) : MigrationManager :=
  let s := stats_ m in
  set_stats (mkMigrationStats (stat_copy_submitted s) (u64 (stat_copy_completed s + 1)) (stat_copy_failed s)
               (stat_copy_cancelled s) (stat_marks_added s) (stat_marks_cleared s)) m.
Definition count_cancelled (m : MigrationManager) : MigrationManager :=
  let s := stats_ m in
  set_stats (mkMigrationStats (stat_copy_submitted s) (stat_copy_completed s) (stat_copy_failed s)
               (u64 (stat_copy_cancelled s + 1)) (stat_marks_added s) (stat_marks_cleared s)) m.

(** Target deleted, task removed, counted. *)
Definition discard_task (count : MigrationManager -> MigrationManager) (c : CopyTaskContext) : prog unit :=
  let! _ := SubmitTargetLocationDelete c in
  let! _ := on_table (RemoveActiveTaskLocked (ctx_key c)) in
  update count.

Definition CompleteCopyTaskAsFailed (c : CopyTaskContext) : prog unit := discard_task count_failed c.
Definition CompleteCancelledTask (c : CopyTaskContext) : prog unit := discard_task count_cancelled c.

Definition IsSourceLocationServing (c : CopyTaskContext) : prog bool :=
  let! found := ask (q_indexer (ct_instance c)) in
  if negb found then Ret false
  else
    let! (ec, maps) := ask (q_get_location (ct_instance c) (ct_block c)) in
    Ret (bool_decide (ec = EC_OK) &&
         match maps with
         | [] => false
         | locs :: _ =>
             match locs !! ct_src_location_id c with
             | Some (Some l) => bool_decide (status l = CLS_SERVING) && (create_time l =? ct_src_create_time c)
             | _ => false
             end
         end).

Definition OnTaskSuccess (k : TaskKey) : prog unit :=
  let! (claim, task) := on_table (ClaimForCompletionLocked k) in
  match claim, task with
  | kWasCancelling, Some c => CompleteCancelledTask c
  | kClaimedRunning, Some c =>
      let! serving := IsSourceLocationServing c in
      if negb serving then CompleteCopyTaskAsFailed c
      else
        let! found := ask (q_indexer (ct_instance c)) in
        let! promoted := if found then ask (q_promote (ct_instance c) (ct_block c) (ct_dst_location_id c)) else Ret false in
        if negb promoted then CompleteCopyTaskAsFailed c
        else
          let! _ := if bool_decide (ct_mark_target c = "") then Ret tt
                    else ask (q_clear_mark (ct_instance c) (ct_block c) (ct_mark_target c) (ct_mark_deadline_ms c)) in
          let! _ := if bool_decide (ct_retention c = MIGRATION_RETENTION_DELETE_SOURCE) then SubmitSourceLocationDelete c else Ret tt in
          let! _ := on_table (RemoveActiveTaskLocked k) in
          update count_completed
  | _, _ => Ret tt
  end.

Definition OnTaskFailed (k : TaskKey) : prog unit :=
  let! (claim, task) := on_table (ClaimForCompletionLocked k) in
  match claim, task with
  | kWasCancelling, Some c => CompleteCancelledTask c
  | kClaimedRunning, Some c => CompleteCopyTaskAsFailed c
  | _, _ => Ret tt
  end.

(** ** The monitor *)

Definition ProcessExpiredMarks : prog unit :=
  let! now_ms := ask q_now_ms in
  let! expired := locked (fun m => let '(out, rest) := take_expired now_ms (mark_expiry_queue_ m) in (out, set_expiry rest m)) in
  let! _ := for_each (fun e => ask (q_clear_mark (em_instance e) (em_block e) (em_target e) (em_deadline_ms e))) expired in
  Ret tt.

Definition pop_pending (m : MigrationManager) : option PendingCopy * MigrationManager :=
  match pending_copies_ m with
  | [] => (None, m)
  | p :: ps => (Some p, set_pending ps m)
  end.

(** One turn of [MonitorLoop]. *)
Definition monitor_turn : prog unit :=
  let! _ := ProcessExpiredMarks in
  let! cell := locked pop_pending in
  match cell with
  | None => Ret tt
  | Some p =>
      let! status := ask (q_poll (pc_future p)) in
      match status with
      | None => update (fun m => set_pending (pending_copies_ m ++ [p]) m)
      | Some EC_OK => OnTaskSuccess (pending_key p)
      | Some _ => OnTaskFailed (pending_key p)
      end
  end.
