(* ===== verification/MigrationSafe.v ===== *)
(** * MigrationSafe: what the threads of the migration manager keep

    The system of all the threads of [MigrationRun], interleaved at every
    critical section and every call, and its safety. The proofs give each
    thread the tasks it is responsible for: a reservation, a running copy
    before it is queued, the copy the monitor completes; the queue holds the
    others. A thread may rely on its own tasks only, which the others cannot
    change beyond cancelling them. *)

From stdpp Require Import base gmap sets list strings.
From Stdlib Require Import ZArith Lia.
From S2P Require Import Prelude StandardUri MetaTypes StorageSelect WriteFilter WriteAlloc MetaMutate MigrationTasks MigrationRun.

Local Open Scope Z_scope.

(** ** The system *)

(** How a published target leaves the care of the manager: it was promoted;
    its deletion was asked for; its submission was rolled back, and the plan
    did or did not hand it to deletion (when its metadata state could not be
    confirmed); or its task was dropped by [Stop]. The last two are left to
    the orphan cleanup of the reclaimer. *)
Inductive fate := f_promoted | f_delete_asked | f_rolled_back (handed : bool) | f_dropped.

#[global] Instance fate_eq_dec : EqDecision fate.
Proof. solve_decision. Defined.

(** The manager, all targets that were ever published in state writing, what
    became of them, and the targets promoted. *)
Record World := mkWorld {
  w_manager : MigrationManager;
  w_published : gset (TaskKey * LocationId);
  w_fate : gmap (TaskKey * LocationId) fate;
  w_served : gset (TaskKey * LocationId);
}.

Definition result_ids (instance : string) (keys : list KeyType) (results : list AddLocationResult) : gset (TaskKey * LocationId) :=
  list_to_set (omap (fun kr => if bool_decide (add_location_id kr.2 = "") then None else Some ((instance, kr.1), add_location_id kr.2))
    (zip keys results)).

(** The targets a deletion request names. *)
Definition named_targets (instance : string) (keys : list KeyType) (ids : list LocationId) : gset (TaskKey * LocationId) :=
  list_to_set ((fun kl => ((instance, kl.1), kl.2)) <$> zip keys ids).

(** The targets an answer publishes. *)
Definition publishes (q : query) : answer q -> gset (TaskKey * LocationId) :=
  match q with
  | q_add_locations i keys _ => fun a => if (length a.2 =? length keys)%nat then result_ids i keys a.2 else ∅
  | _ => fun _ => ∅
  end.

(** What an answer decides; a target that is published anew is open again. *)
Definition decides (q : query) : answer q -> gmap (TaskKey * LocationId) fate -> gmap (TaskKey * LocationId) fate :=
  match q with
  | q_add_locations i keys locs => fun a F => filter (fun kf => kf.1 ∉ publishes (q_add_locations i keys locs) a) F
  | q_reconcile i keys results => fun a F =>
      let handed := match a with
                    | Some plan => named_targets i (pipeline_keys plan) (pipeline_location_ids plan)
                    | None => ∅
                    end in
      gset_to_gmap (f_rolled_back true) (result_ids i keys results ∩ handed) ∪
      gset_to_gmap (f_rolled_back false) (result_ids i keys results) ∪ F
  | q_submit_delete i keys ids => fun a F =>
      if a then gset_to_gmap f_delete_asked (named_targets i keys ids) ∪ F else F
  | q_promote i k l => fun a F => if a then <[((i, k), l) := f_promoted]> F else F
  | q_delete_target i k l => fun _ F => <[((i, k), l) := f_delete_asked]> F
  | _ => fun _ F => F
  end.

(** The published targets that are still in the care of the manager. *)
Definition undecided (P : gset (TaskKey * LocationId)) (F : gmap (TaskKey * LocationId) fate) : gset (TaskKey * LocationId) :=
  filter (fun kl => F !! kl = None) P.
Definition w_open (w : World) : gset (TaskKey * LocationId) := undecided (w_published w) (w_fate w).

(** What [Stop] drops: the open targets of the tasks it clears. *)
Definition dropped_by_stop (w : World) : gset (TaskKey * LocationId) :=
  filter (fun kl => is_Some (active_tasks_ (w_manager w) !! kl.1)) (w_open w).

Definition serves (q : query) : answer q -> gset (TaskKey * LocationId) -> gset (TaskKey * LocationId) :=
  match q with
  | q_promote i k l => fun a S => if a then {[((i, k), l)]} ∪ S else S
  | _ => fun _ S => S
  end.

(** The programs that other components start. *)
Inductive entry : prog unit -> Prop :=
  | e_submit r : entry (let! _ := Submit r in Ret tt)
  | e_batch rs limit : entry (let! _ := BatchSubmit rs limit in Ret tt)
  | e_cancel k : entry (let! _ := locked (Cancel k) in Ret tt)
  | e_batch_cancel i bs : entry (let! _ := BatchCancel i bs in Ret tt)
  | e_drain i : entry (update (BeginDrainingInstance i))
  | e_undrain i : entry (update (EndDrainingInstance i))
  | e_expiry e : entry (update (EnqueueMarkExpiry e))
  | e_start : entry (update Start)
  | e_gate : entry (update Stop_gate)
  | e_monitor : entry monitor_turn.

Inductive step : World * list (prog unit) -> World * list (prog unit) -> Prop :=
  | s_spawn w ps p : entry p -> step (w, ps) (w, p :: ps)
  | s_locked w ps1 ps2 B (f : MigrationManager -> B * MigrationManager) k :
      step (w, ps1 ++ Locked f k :: ps2)
           (mkWorld (f (w_manager w)).2 (w_published w) (w_fate w) (w_served w), ps1 ++ k (f (w_manager w)).1 :: ps2)
  | s_ask w ps1 ps2 q k (a : answer q) :
      step (w, ps1 ++ Ask q k :: ps2)
           (mkWorld (w_manager w) (publishes q a ∪ w_published w) (decides q a (w_fate w)) (serves q a (w_served w)),
            ps1 ++ k a :: ps2)
  | s_done w ps1 ps2 : step (w, ps1 ++ Ret tt :: ps2) (w, ps1 ++ ps2)
  | s_stop w : step (w, []) (mkWorld (Stop_finish (w_manager w)) (w_published w)
                               (if running_ (w_manager w) then gset_to_gmap f_dropped (dropped_by_stop w) ∪ w_fate w else w_fate w)
                               (w_served w), []).

Inductive reachable : World * list (prog unit) -> Prop :=
  | r_init : reachable (mkWorld new_migration ∅ ∅ ∅, [])
  | r_step s s' : reachable s -> step s s' -> reachable s'.

(** ** Holdings *)

(** Reserved, with the target bound to the entry; running; being completed,
    with the target promoted or not; claimed as cancelled. *)
Inductive class := cResv (bound : option LocationId) | cRun (l : LocationId) | cComp (l : LocationId) (promoted : bool) | cCanc (l : LocationId).

(** The class and the published target that is the holder's to settle. *)
Record mode := mkMode { md_class : class; md_out : option LocationId }.
Definition Holding : Type := TaskKey * mode.

Definition is_cancelling (c : CopyTaskContext) : Prop := ct_state c = kPrepareCancelling \/ ct_state c = kCancelling.

Definition class_fits (k : TaskKey) (cl : class) (c : CopyTaskContext) : Prop :=
  ctx_key c = k /\
  match cl with
  | cResv b => is_preparing (ct_state c) = true /\ ct_dst_location_id c = default "" b
  | cRun l => (ct_state c = kRunning \/ ct_state c = kCancelling) /\ ct_dst_location_id c = l
  | cComp l _ => ct_state c = kCompleting /\ ct_dst_location_id c = l
  | cCanc l => ct_state c = kCancelling /\ ct_dst_location_id c = l
  end.

Definition out_ok (md : mode) : Prop :=
  match md_out md with
  | None => True
  | Some l => l <> "" /\ match md_class md with
                         | cResv b => b = None \/ b = Some l
                         | cRun l' | cComp l' _ | cCanc l' => l' = l
                         end
  end.

Definition fits (hs : list Holding) (t : TaskTable) : Prop :=
  NoDup hs.*1 /\ forall k md, (k, md) ∈ hs -> out_ok md /\ exists c, t !! k = Some c /\ class_fits k (md_class md) c.

(** A queued copy is held by the queue. *)
Definition queued (h : Holding) (p : PendingCopy) : Prop := h.1 = pending_key p /\ exists l, h.2 = mkMode (cRun l) (Some l).

(** The holdings of a thread, of the queue and of the others; every task is
    held. *)
Record inv (own pd fr : list Holding) (m : MigrationManager) : Prop := {
  inv_fits : fits (own ++ pd ++ fr) (active_tasks_ m);
  inv_dom : forall k c, active_tasks_ m !! k = Some c -> k ∈ (own ++ pd ++ fr).*1;
  inv_queue : Forall2 queued pd (pending_copies_ m);
}.

Definition covers (hs : list Holding) (P : gset (TaskKey * LocationId)) : Prop :=
  forall k l, (k, l) ∈ P -> exists md, (k, md) ∈ hs /\ md_out md = Some l.

Definition promoted_ok (hs : list Holding) (S : gset (TaskKey * LocationId)) : Prop :=
  forall k md l, (k, md) ∈ hs -> md_class md = cComp l true -> (k, l) ∈ S.

(** Cancelled tasks stay cancelled until they are removed. *)
Definition stays_cancelled (t t' : TaskTable) : Prop :=
  forall k c, t !! k = Some c -> is_cancelling c -> t' !! k = None \/ exists c', t' !! k = Some c' /\ is_cancelling c'.

(** ** Safe programs *)

Definition ask_pre (q : query) (own : list Holding) : Prop :=
  match q with
  | q_add_locations i keys _ => forall k, k ∈ keys -> ((i, k), mkMode (cResv None) None) ∈ own
  | q_promote i k l => ((i, k), mkMode (cComp l false) (Some l)) ∈ own
  | q_delete_source i k _ => exists l md, ((i, k), md) ∈ own /\ md_class md = cComp l true
  | _ => True
  end.

(** Relabelling holdings: the same tasks, with classes that fit as well. *)
Definition relabels (own own' : list Holding) : Prop :=
  own'.*1 ≡ₚ own.*1 /\
  forall k md', (k, md') ∈ own' -> exists md, (k, md) ∈ own /\ (out_ok md -> out_ok md') /\
    forall c, class_fits k (md_class md) c -> class_fits k (md_class md') c.

(** The open targets after an answer are among these. *)
Definition opens (q : query) : answer q -> gset (TaskKey * LocationId) -> gset (TaskKey * LocationId) :=
  match q with
  | q_add_locations i keys _ => fun a P => if (length a.2 =? length keys)%nat then result_ids i keys a.2 ∪ P else P
  | q_reconcile i keys results => fun _ P => P ∖ result_ids i keys results
  | q_promote i k l => fun a P => if a then P ∖ {[((i, k), l)]} else P
  | q_delete_target i k l => fun _ P => P ∖ {[((i, k), l)]}
  | _ => fun _ P => P
  end.

Lemma elem_of_undecided kl P F : kl ∈ undecided P F <-> F !! kl = None /\ kl ∈ P.
Proof. unfold undecided. by rewrite elem_of_filter. Qed.

Lemma opens_bound q a P F : undecided (publishes q a ∪ P) (decides q a F) ⊆ opens q a (undecided P F).
Proof.
  intros kl [HF HP]%elem_of_undecided. revert HF HP. destruct q; cbn [publishes decides opens];
    rewrite ?elem_of_union; intros HF HP;
    try (destruct HP as [HP|HP]; [by apply elem_of_empty in HP|]); try (apply elem_of_undecided; by split).
  - revert HF HP. cbn [publishes]. destruct (length a.2 =? length keys)%nat; intros HF HP.
    + apply elem_of_union. destruct (decide (kl ∈ result_ids instance keys a.2)) as [|Hn]; [by left|right].
      destruct HP as [?|HP]; [done|]. apply elem_of_undecided. split; [|done].
      apply map_lookup_filter_None in HF as [?|HF]; [done|]. destruct (F !! kl) as [f|] eqn:Hf; [|done]. by destruct (HF f eq_refl).
    + destruct HP as [HP|HP]; [by apply elem_of_empty in HP|]. apply elem_of_undecided. split; [|done].
      apply map_lookup_filter_None in HF as [?|HF]; [done|]. destruct (F !! kl) as [f|] eqn:Hf; [|done].
      destruct (HF f eq_refl). by intros ?%elem_of_empty.
  - apply lookup_union_None in HF as [[_ Hs]%lookup_union_None HF]. apply elem_of_difference.
    split; [by apply elem_of_undecided|]. by apply lookup_gset_to_gmap_None in Hs.
  - destruct a; [|by apply elem_of_undecided]. apply lookup_union_None in HF as [_ HF]. by apply elem_of_undecided.
  - destruct a; [|by apply elem_of_undecided]. apply lookup_insert_None in HF as [HF Hne].
    apply elem_of_difference. split; [by apply elem_of_undecided|]. rewrite elem_of_singleton. congruence.
  - apply lookup_insert_None in HF as [HF Hne]. apply elem_of_difference. split; [by apply elem_of_undecided|].
    rewrite elem_of_singleton. congruence.
Qed.

Definition ask_effect (q : query) (a : answer q) (own own' : list Holding) : Prop :=
  (forall P fr, NoDup (own ++ fr).*1 -> covers (own ++ fr) P -> covers (own' ++ fr) (opens q a P)) /\
  (forall S, promoted_ok own S -> promoted_ok own' (serves q a S)).

Fixpoint safe {A} (p : prog A) (own : list Holding) (Q : A -> list Holding -> Prop) : Prop :=
  match p with
  | Ret a => Q a own
  | Locked f k => forall pd fr m, inv own pd fr m ->
      stays_cancelled (active_tasks_ m) (active_tasks_ (f m).2) /\
      exists own' pd', inv own' pd' fr (f m).2 /\
        (forall P, covers (own ++ pd ++ fr) P -> covers (own' ++ pd' ++ fr) P) /\
        (forall S, promoted_ok (own ++ pd) S -> promoted_ok (own' ++ pd') S) /\
        safe (k (f m).1) own' Q
  | Ask q k => ask_pre q own /\ forall a, exists own', relabels own own' /\ ask_effect q a own own' /\ safe (k a) own' Q
  end.

Lemma safe_mono {A} (p : prog A) own (Q R : A -> list Holding -> Prop) :
  (forall a o, Q a o -> R a o) -> safe p own Q -> safe p own R.
Proof.
  intros HQ. revert own. induction p as [a|B f k IH|q k IH]; intros own H; cbn in *; [by apply HQ| |].
  - intros pd fr m Hi. destruct (H pd fr m Hi) as (? & own' & pd' & ? & ? & ? & Hs). split; [done|].
    exists own', pd'. split_and!; try done. by apply IH.
  - destruct H as [? H]. split; [done|]. intros a. destruct (H a) as (own' & ? & ? & Hs). exists own'. split_and!; try done. by apply IH.
Qed.

Lemma safe_bind {A B} (p : prog A) (f : A -> prog B) own Q :
  safe p own (fun a o => safe (f a) o Q) -> safe (prog_bind p f) own Q.
Proof.
  revert own. induction p as [a|C g k IH|q k IH]; intros own H; cbn in *; [done| |].
  - intros pd fr m Hi. destruct (H pd fr m Hi) as (? & own' & pd' & ? & ? & ? & Hs). split; [done|].
    exists own', pd'. split_and!; try done. by apply IH.
  - destruct H as [? H]. split; [done|]. intros a. destruct (H a) as (own' & ? & ? & Hs). exists own'. split_and!; try done. by apply IH.
Qed.

Lemma fits_perm hs hs' t : hs ≡ₚ hs' -> fits hs t -> fits hs' t.
Proof. intros Hp [H1 H2]. split; [by rewrite <-Hp|]. intros k md Hk. apply H2. by rewrite Hp. Qed.

Lemma covers_perm hs hs' P : hs ≡ₚ hs' -> covers hs P -> covers hs' P.
Proof. intros Hp H k l Hk. destruct (H k l Hk) as (md & ? & ?). exists md. by rewrite <-Hp. Qed.

Lemma promoted_perm hs hs' S : hs ≡ₚ hs' -> promoted_ok hs S -> promoted_ok hs' S.
Proof. intros Hp H k md l Hk. apply H. by rewrite Hp. Qed.

Lemma inv_perm own own' pd fr fr' m : own ++ fr ≡ₚ own' ++ fr' -> inv own pd fr m -> inv own' pd fr' m.
Proof.
  intros Hp [H1 H2 H3]. assert (Hp' : own ++ pd ++ fr ≡ₚ own' ++ pd ++ fr').
  { by rewrite !(Permutation_app_comm pd), !(assoc_L (++)), Hp. }
  constructor; [by eapply fits_perm| |done]. intros k c Hk. rewrite <-Hp'. by eapply H2.
Qed.

Lemma app_swap_tail (a b c : list Holding) : (a ++ b) ++ c ≡ₚ a ++ c ++ b.
Proof. by rewrite <-(assoc_L (++)), (Permutation_app_comm b). Qed.

Lemma safe_perm {A} (p : prog A) own own' Q :
  (forall a o o', o ≡ₚ o' -> Q a o -> Q a o') -> own ≡ₚ own' -> safe p own Q -> safe p own' Q.
Proof.
  intros HQ. revert own own'. induction p as [a|B f k IH|q k IH]; intros own own' Hp H; cbn in *; [by eapply HQ| |].
  - intros pd fr m Hi. destruct (H pd fr m) as (? & o & pd' & Hi' & Hc & Hs & Hk).
    { eapply inv_perm, Hi. by rewrite Hp. }
    split; [done|]. exists o, pd'. split_and!; [done| | |done].
    + intros P HP. apply Hc. eapply covers_perm, HP. by rewrite Hp.
    + intros S HS. apply Hs. eapply promoted_perm, HS. by rewrite Hp.
  - destruct H as [Hpre H]. split.
    + destruct q; try done; cbn in *; [intros k0 Hk0; rewrite <-Hp; by apply Hpre|by rewrite <-Hp|].
      destruct Hpre as (l & md & ? & ?). exists l, md. by rewrite <-Hp.
    + intros a. destruct (H a) as (o & [Hr1 Hr2] & [He1 He2] & Hk). exists o. split_and!; [| |done].
      * split; [by rewrite Hr1, Hp|]. intros k0 md' Hk0. destruct (Hr2 _ _ Hk0) as (md & ? & ? & ?).
        exists md. by rewrite <-Hp.
      * split; [|intros S HS; apply He2; by eapply promoted_perm].
        intros P fr Hn HP. apply He1; [by rewrite Hp|]. eapply covers_perm, HP. by rewrite Hp.
Qed.

Lemma promoted_app hs hs' S : promoted_ok (hs ++ hs') S <-> promoted_ok hs S /\ promoted_ok hs' S.
Proof.
  split.
  - intros H. split; intros k md l Hk; apply H; apply elem_of_app; auto.
  - intros [H1 H2] k md l [Hk|Hk]%elem_of_app; [by apply H1|by apply H2].
Qed.

Lemma serves_mono q a S hs : promoted_ok hs S -> promoted_ok hs (serves q a S).
Proof.
  intros H k md l Hk Hc. specialize (H k md l Hk Hc). destruct q; try done. cbn. destruct a; [set_solver|done].
Qed.

Lemma safe_frame {A} (p : prog A) own fr0 Q :
  safe p own Q -> safe p (own ++ fr0) (fun a o => exists o1, o = o1 ++ fr0 /\ Q a o1).
Proof.
  revert own. induction p as [a|B f k IH|q k IH]; intros own H; cbn in *; [by eexists| |].
  - intros pd fr m Hi. destruct (H pd (fr0 ++ fr) m) as (? & o & pd' & Hi' & Hc & Hs & Hk).
    { eapply inv_perm, Hi. by rewrite (assoc_L (++)). }
    assert (Hp : forall a b : list Holding, (a ++ fr0) ++ b ++ fr ≡ₚ a ++ b ++ fr0 ++ fr).
    { intros a b. by rewrite <-(assoc_L (++)), (Permutation_app_swap_app fr0 b fr). }
    split; [done|]. exists (o ++ fr0), pd'. split_and!; [| | |by apply IH].
    + eapply inv_perm, Hi'. by rewrite (assoc_L (++)).
    + intros P HP. eapply covers_perm; [symmetry; apply Hp|]. apply Hc. eapply covers_perm, HP. apply Hp.
    + intros S [[HS1 HS2]%promoted_app HS3]%promoted_app. destruct (proj1 (promoted_app _ _ _) (Hs S ltac:(by apply promoted_app))) as [??].
      by rewrite !promoted_app.
  - destruct H as [Hpre H]. split.
    + destruct q; try done; cbn in *; [intros k0 Hk0; apply elem_of_app; left; by apply Hpre|apply elem_of_app; by left|].
      destruct Hpre as (l & md & ? & ?). exists l, md. split; [apply elem_of_app; by left|done].
    + intros a. destruct (H a) as (o & [Hr1 Hr2] & [He1 He2] & Hk). exists (o ++ fr0). split_and!; [| |by apply IH].
      * split; [by rewrite !fmap_app, Hr1|]. intros k0 md' [Hk0|Hk0]%elem_of_app.
        -- destruct (Hr2 _ _ Hk0) as (md & ? & ? & ?). exists md. split_and!; [|done|done]. apply elem_of_app. by left.
        -- exists md'. split_and!; [|done|done]. apply elem_of_app. by right.
      * split.
        -- intros P fr. rewrite <-!(assoc_L (++)). apply He1.
        -- intros S [HS1 HS2]%promoted_app. apply promoted_app. split; [by apply He2|by apply serves_mono].
Qed.

(** A loop whose turns each keep to their own holdings. *)
Lemma safe_for_each {A B} (f : A -> prog B) (h : A -> list Holding) (h' : B -> list Holding) (R : A -> B -> Prop) (l : list A) :
  (forall a, a ∈ l -> safe (f a) (h a) (fun b o => o = h' b /\ R a b)) ->
  safe (for_each f l) (l ≫= h) (fun bs o => o ≡ₚ bs ≫= h' /\ Forall2 R l bs).
Proof.
  induction l as [|a l IH]; intros H; [by split; [|constructor]|]. cbn [for_each mbind list_bind]. apply safe_bind.
  eapply safe_mono; [|apply safe_frame, H; left]. intros b o (o1 & -> & -> & Hb).
  apply safe_bind. apply safe_perm with ((l ≫= h) ++ h' b).
  { intros bs o o' Hp. cbn. intros [Ho HF]. split; [by rewrite <-Hp|done]. }
  { apply Permutation_app_comm. }
  eapply safe_mono; [|apply safe_frame, IH; intros a' Ha'; apply H; by right].
  cbn. intros bs o (o1 & -> & Ho & HF). split; [|by constructor]. by rewrite Ho, Permutation_app_comm.
Qed.

(** ** One task changed by its holder *)

Section one.
Variables (k : TaskKey) (md : mode) (pd fr : list Holding) (m : MigrationManager).
Hypothesis Hi : inv [(k, md)] pd fr m.

Lemma inv_own : out_ok md /\ exists c, active_tasks_ m !! k = Some c /\ class_fits k (md_class md) c.
Proof using Hi. destruct Hi as [[_ H] _ _]. apply H. left. Qed.

Lemma inv_others k' : k' ∈ (pd ++ fr).*1 -> k' <> k.
Proof using Hi. destruct Hi as [[Hn _] _ _]. cbn in Hn. apply NoDup_cons in Hn as [Hn _]. intros ? ->. done. Qed.

Lemma inv_change md' c' m' :
  active_tasks_ m' = <[k := c']> (active_tasks_ m) -> pending_copies_ m' = pending_copies_ m ->
  out_ok md' -> class_fits k (md_class md') c' -> inv [(k, md')] pd fr m'.
Proof using Hi.
  intros Ht Hp Ho Hf. pose proof inv_others as Hoth. destruct Hi as [[Hn H] Hd Hq]. constructor; [|rewrite Ht|by rewrite Hp].
  - split; [done|]. intros k' md1 [[= -> ->]|Hk']%elem_of_cons; [split; [done|]; exists c'; by rewrite Ht, lookup_insert_eq|].
    rewrite Ht, lookup_insert_ne; [apply H; by right|]. intros <-. eapply Hoth; [|done]. by apply (list_elem_of_fmap_2 fst) in Hk'.
  - intros k' c [[<- _]|[_ Hk']]%lookup_insert_Some; [left|by apply (Hd k' c)].
Qed.

Lemma inv_drop m' :
  active_tasks_ m' = delete k (active_tasks_ m) -> pending_copies_ m' = pending_copies_ m -> inv [] pd fr m'.
Proof using Hi.
  intros Ht Hp. pose proof inv_others as Hoth. destruct Hi as [[Hn H] Hd Hq]. constructor; [|rewrite Ht|by rewrite Hp].
  - split; [by apply NoDup_cons in Hn as [_ ?]|]. intros k' md1 Hk'. cbn in Hk'. rewrite Ht, lookup_delete_ne; [apply H; by right|].
    intros <-. eapply Hoth; [|done]. by apply (list_elem_of_fmap_2 fst) in Hk'.
  - intros k' c [Hne Hk']%lookup_delete_Some. destruct (elem_of_cons (pd ++ fr).*1 k' k) as [Hc _].
    destruct (Hc (Hd k' c Hk')) as [->|?]; done.
Qed.
End one.

Lemma stays_refl t : stays_cancelled t t.
Proof. intros k c Hk Hc. right. by exists c. Qed.

Lemma stays_delete k t : stays_cancelled t (delete k t).
Proof.
  intros k' c Hk Hc. destruct (decide (k = k')) as [->|]; [left; by rewrite lookup_delete_eq|].
  right. exists c. by rewrite lookup_delete_ne.
Qed.

Lemma stays_insert k c' t : (forall c, t !! k = Some c -> is_cancelling c -> is_cancelling c') -> stays_cancelled t (<[k := c']> t).
Proof.
  intros H k' c Hk Hc. right. destruct (decide (k = k')) as [->|]; [exists c'; rewrite lookup_insert_eq; split; [done|by eapply H]|].
  exists c. by rewrite lookup_insert_ne.
Qed.

(** A critical section that leaves the holdings as they are. *)
Lemma safe_locked_same {B} (f : MigrationManager -> B * MigrationManager) own Q :
  (forall m, active_tasks_ (f m).2 = active_tasks_ m /\ pending_copies_ (f m).2 = pending_copies_ m /\ Q (f m).1 own) ->
  safe (locked f) own Q.
Proof.
  intros H pd fr m Hi. destruct (H m) as (Ht & Hp & HQ). rewrite Ht. split; [apply stays_refl|].
  exists own, pd. split_and!; try done. destruct Hi as [H1 H2 H3]. constructor; by rewrite ?Ht, ?Hp.
Qed.

Lemma safe_update_same f own :
  (forall m, active_tasks_ (f m) = active_tasks_ m /\ pending_copies_ (f m) = pending_copies_ m) ->
  safe (update f) own (fun _ o => o = own).
Proof. intros H. apply safe_locked_same. intros m. destruct (H m). by split_and!. Qed.

Lemma covers_same_out k md md' hs P : md_out md' = md_out md -> covers ((k, md) :: hs) P -> covers ((k, md') :: hs) P.
Proof.
  intros Ho H k' l Hk. destruct (H k' l Hk) as (md1 & [[= -> ->]|Hin]%elem_of_cons & Hl).
  - exists md'. split; [left|by rewrite Ho].
  - exists md1. split; [by right|done].
Qed.

Lemma covers_drop k md hs P : md_out md = None -> covers ((k, md) :: hs) P -> covers hs P.
Proof.
  intros Ho H k' l Hk. destruct (H k' l Hk) as (md1 & [[= -> ->]|Hin]%elem_of_cons & Hl); [congruence|by exists md1].
Qed.

Definition unserved (cl : class) : Prop := match cl with cComp _ true => False | _ => True end.

Lemma promoted_change k md md' hs S :
  unserved (md_class md') -> promoted_ok ((k, md) :: hs) S -> promoted_ok ((k, md') :: hs) S.
Proof.
  intros Hu H k' md1 l [[= -> ->]|Hin]%elem_of_cons Hc; [by rewrite Hc in Hu|]. eapply H; [by right|done].
Qed.

Lemma promoted_drop k md hs S : promoted_ok ((k, md) :: hs) S -> promoted_ok hs S.
Proof. intros H k' md1 l Hin. apply H. by right. Qed.

(** A critical section of the table by the holder of [k]: it rewrites the
    entry, keeping the target, or removes it. *)
Definition keeps_or_drops {B} (f : TaskTable -> B * TaskTable) (k : TaskKey) (md : mode) (Q : B -> list Holding -> Prop) : Prop :=
  forall t c, t !! k = Some c -> out_ok md -> class_fits k (md_class md) c ->
    (exists md' c', (f t).2 = <[k := c']> t /\ md_out md' = md_out md /\ unserved (md_class md') /\ out_ok md' /\
       class_fits k (md_class md') c' /\ (is_cancelling c -> is_cancelling c') /\ Q (f t).1 [(k, md')]) \/
    (md_out md = None /\ (f t).2 = delete k t /\ Q (f t).1 []).

Lemma safe_on_table {B} (f : TaskTable -> B * TaskTable) k md Q : keeps_or_drops f k md Q -> safe (on_table f) [(k, md)] Q.
Proof.
  intros H pd fr m Hi. destruct (inv_own _ _ _ _ _ Hi) as (Ho & c & Hc & Hf).
  specialize (H (active_tasks_ m) c Hc Ho Hf). destruct (f (active_tasks_ m)) as [b t'] eqn:Hft. cbn in *.
  destruct H as [(md' & c' & -> & Hout & Hu & Ho' & Hf' & Hcan & HQ)|(Hout & -> & HQ)].
  - split; [apply stays_insert; intros c0 Hc0; rewrite Hc in Hc0; by injection Hc0 as <-|].
    exists [(k, md')], pd. split_and!; [|intros P; by apply covers_same_out|intros S; by apply promoted_change|done].
    by eapply inv_change.
  - split; [apply stays_delete|]. exists [], pd. split_and!; [|intros P; by apply covers_drop|intros S; apply promoted_drop|done].
    by eapply inv_drop.
Qed.

Abbreviation resv b o := (mkMode (cResv b) o).

Lemma with_state_key st c : ctx_key (with_state st c) = ctx_key c.
Proof. done. Qed.

Lemma safe_remove_preparing k b : safe (on_table (RemovePreparingTaskLocked k)) [(k, resv b None)] (fun _ o => o = []).
Proof.
  apply safe_on_table. intros t c Hc _ (_ & Hp & _). right. split; [done|].
  unfold RemovePreparingTaskLocked, RemoveActiveTaskLocked. by rewrite Hc, Hp.
Qed.

Lemma safe_release k b : safe (release_preparing k) [(k, resv b None)] (fun _ o => o = []).
Proof. apply safe_bind, safe_remove_preparing. Qed.

Lemma is_preparing_spec st : is_preparing st = true -> st = kPreparing \/ st = kPrepareCancelling.
Proof. destruct st; auto; done. Qed.

Lemma safe_bind_target k c l :
  ctx_key c = k -> ct_dst_location_id c = l -> l <> "" ->
  safe (on_table (UpdatePreparingTaskLocked c)) [(k, resv None (Some l))]
    (fun b o => o = [(k, resv (if b : bool then Some l else None) (Some l))]).
Proof.
  intros <- <- Hl. apply safe_on_table. intros t c0 Hc Ho (Hk & Hp & Hd). left.
  unfold UpdatePreparingTaskLocked. rewrite Hc. case_bool_decide as Hs.
  - exists (resv (Some (ct_dst_location_id c)) (Some (ct_dst_location_id c))), (with_state kPreparing c).
    split_and!; try done; [split; [done|by right]|intros [Hx|Hx]; congruence].
  - exists (resv None (Some (ct_dst_location_id c))), c0. split_and!; try done. cbn. by rewrite insert_id.
Qed.

Lemma safe_start_running k c l :
  ctx_key c = k -> ct_dst_location_id c = l ->
  safe (on_table (start_running c)) [(k, resv (Some l) (Some l))]
    (fun b o => o = [(k, mkMode (if b : bool then cRun l else cResv (Some l)) (Some l))]).
Proof.
  intros <- <-. apply safe_on_table. intros t c0 Hc Ho (Hk & Hp & Hd). left.
  unfold start_running, UpdatePreparingTaskLocked. rewrite Hc. case_bool_decide as Hs.
  - exists (mkMode (cRun (ct_dst_location_id c)) (Some (ct_dst_location_id c))), (with_state kRunning c).
    unfold MarkTaskRunningLocked. rewrite lookup_insert_eq. rewrite bool_decide_eq_true_2 by done. cbn [fst snd].
    rewrite insert_insert_eq. split_and!; try done; [destruct Ho as [??]; by split|by repeat split; left|].
    intros [Hx|Hx]; congruence.
  - exists (resv (Some (ct_dst_location_id c)) (Some (ct_dst_location_id c))), c0. split_and!; try done. cbn. by rewrite insert_id.
Qed.

Lemma safe_remove k cl : safe (on_table (RemoveActiveTaskLocked k)) [(k, mkMode cl None)] (fun _ o => o = []).
Proof.
  apply safe_on_table. intros t c Hc _ _. right. unfold RemoveActiveTaskLocked. by rewrite Hc.
Qed.

(** What the monitor gets when it claims a queued copy. *)
Definition claimed (k : TaskKey) (l : LocationId) (r : ClaimResult * option CopyTaskContext) (o : list Holding) : Prop :=
  exists c, ctx_key c = k /\ ct_dst_location_id c = l /\ l <> "" /\
    (r = (kClaimedRunning, Some c) /\ o = [(k, mkMode (cComp l false) (Some l))] \/
     r = (kWasCancelling, Some c) /\ o = [(k, mkMode (cCanc l) (Some l))]).

Lemma safe_claim k l :
  safe (on_table (ClaimForCompletionLocked k)) [(k, mkMode (cRun l) (Some l))] (claimed k l).
Proof.
  apply safe_on_table. intros t c Hc [Hl _] (Hk & [Hs|Hs] & Hd); left; unfold ClaimForCompletionLocked; rewrite Hc, Hs.
  - exists (mkMode (cComp l false) (Some l)), (with_state kCompleting c). split_and!; try done; [intros [?|?]; congruence|].
    exists (with_state kCompleting c). split_and!; [done|done|done|by left].
  - exists (mkMode (cCanc l) (Some l)), c. split_and!; try done; [by rewrite insert_id|].
    exists c. split_and!; [done|done|done|by right].
Qed.

(** ** The queue *)

Definition push_pending (p : PendingCopy) (m : MigrationManager) : MigrationManager := set_pending (pending_copies_ m ++ [p]) m.

Lemma fits_relabel hs hs' t : relabels hs hs' -> fits hs t -> fits hs' t.
Proof.
  intros [Hp Hr] [Hn H]. split; [by rewrite Hp|]. intros k md' Hk. destruct (Hr k md' Hk) as (md & Hin & Ho & Hf).
  destruct (H k md Hin) as (Hom & c & Hc & Hcf). split; [by apply Ho|]. exists c. split; [done|by apply Hf].
Qed.

Lemma safe_push p l :
  safe (update (push_pending p)) [(pending_key p, mkMode (cRun l) (Some l))] (fun _ o => o = []).
Proof.
  intros pd fr m [Hf Hd Hq]. split; [apply stays_refl|]. set (h := (pending_key p, mkMode (cRun l) (Some l))) in *.
  assert (Hp : [h] ++ pd ++ fr ≡ₚ [] ++ (pd ++ [h]) ++ fr) by (cbn; by rewrite <-(assoc_L (++)), Permutation_middle).
  exists [], (pd ++ [h]). split_and!.
  - constructor; [by eapply fits_perm|intros k c Hk; rewrite <-Hp; by apply (Hd k c)|].
    cbn. apply Forall2_app; [done|]. constructor; [|done]. split; [done|]. by exists l.
  - intros P. by apply covers_perm.
  - intros S. apply promoted_perm. cbn. by rewrite Permutation_app_comm.
  - done.
Qed.

Lemma safe_pop :
  safe (locked pop_pending) []
    (fun p o => match p with None => o = [] | Some p => exists l, o = [(pending_key p, mkMode (cRun l) (Some l))] end).
Proof.
  intros pd fr m [Hf Hd Hq]. unfold pop_pending. destruct (pending_copies_ m) as [|p ps] eqn:Hp.
  - split; [apply stays_refl|]. exists [], pd. split_and!; try done. constructor; [done|done|]. cbn. by rewrite Hp.
  - split; [apply stays_refl|]. apply Forall2_cons_inv_r in Hq as ([k md] & pd' & [Hk (l & Hm)] & Hq & ->). cbn in Hk, Hm. subst k md.
    exists [(pending_key p, mkMode (cRun l) (Some l))], pd'. split_and!; try done.
    by exists l.
Qed.

(** ** Questions *)

(** The questions that publish no target and settle none of the asker's. *)
Definition neutral (q : query) : bool :=
  match q with q_add_locations _ _ _ | q_promote _ _ _ | q_delete_source _ _ _ => false | _ => true end.

Lemma relabels_refl own : relabels own own.
Proof. split; [done|]. intros k md Hk. by exists md. Qed.

Lemma opens_neutral q a P : neutral q = true -> opens q a P ⊆ P.
Proof. destruct q; try done; cbn; set_solver. Qed.

Lemma covers_subset hs P P' : P' ⊆ P -> covers hs P -> covers hs P'.
Proof. intros Hs H k l Hk. by apply H, Hs. Qed.

Lemma safe_ask_neutral q own Q : neutral q = true -> (forall a, Q a own) -> safe (ask q) own Q.
Proof.
  intros Hn HQ. split; [by destruct q|]. intros a. exists own. split_and!; [apply relabels_refl| |apply HQ].
  split; [|intros S; apply serves_mono]. intros P fr _. apply covers_subset, opens_neutral, Hn.
Qed.

(** The asker's published target is settled by the answer. *)
Lemma settle_effect q k l md md' :
  md_out md = Some l -> md_out md' = None -> unserved (md_class md') ->
  (forall a, opens q a = fun P => P ∖ {[(k, l)]}) -> (forall a S, serves q a S = S) ->
  forall a, ask_effect q a [(k, md)] [(k, md')].
Proof.
  intros Ho Ho' Hu HP HS a. split; [|intros S; rewrite HS; by apply promoted_change].
  intros P fr Hn Hc. rewrite HP. intros k' l' [Hin Hne]%elem_of_difference.
  destruct (Hc k' l' Hin) as (md1 & [[= -> ->]|Hin']%elem_of_cons & Hl).
  - rewrite Ho in Hl. injection Hl as ->. set_solver.
  - exists md1. split; [by right|done].
Qed.

Lemma relabels_one k md md' :
  (out_ok md -> out_ok md') -> (forall c, class_fits k (md_class md) c -> class_fits k (md_class md') c) ->
  relabels [(k, md)] [(k, md')].
Proof. intros Ho Hf. split; [done|]. intros k' md1 [= -> ->]%list_elem_of_singleton. exists md. by split; [left|]. Qed.

Lemma safe_delete_target c k cl l :
  ctx_key c = k -> ct_dst_location_id c = l -> l <> "" -> unserved cl ->
  safe (SubmitTargetLocationDelete c) [(k, mkMode cl (Some l))] (fun _ o => o = [(k, mkMode cl None)]).
Proof.
  intros <- <- Hl Hu. unfold SubmitTargetLocationDelete. rewrite bool_decide_eq_false_2 by done.
  split; [done|]. intros a. exists [(ctx_key c, mkMode cl None)]. split_and!; [|by eapply settle_effect|done].
  by apply relabels_one.
Qed.

Lemma safe_promote c l (k : TaskKey) :
  ctx_key c = k ->
  safe (ask (q_promote (ct_instance c) (ct_block c) l)) [(k, mkMode (cComp l false) (Some l))]
    (fun a o => o = [(k, if a : bool then mkMode (cComp l true) None else mkMode (cComp l false) (Some l))]).
Proof.
  intros <-. split; [left|]. intros [|]; eexists; (split_and!; [|split|reflexivity]).
  - by apply relabels_one.
  - intros P fr Hn Hc k' l' Hkl. cbn in Hkl. apply elem_of_difference in Hkl as [Hin Hne].
    destruct (Hc k' l' Hin) as (md1 & [[= -> ->]|Hin']%elem_of_cons & Hl).
    + injection Hl as ->. set_solver.
    + exists md1. split; [by right|done].
  - intros S _ k' md1 l' [= -> ->]%list_elem_of_singleton [= <-]. cbn. set_solver.
  - apply relabels_refl.
  - done.
  - intros S. by apply promoted_change.
Qed.

Lemma safe_delete_source c k l md :
  ctx_key c = k -> md_class md = cComp l true ->
  safe (SubmitSourceLocationDelete c) [(k, md)] (fun _ o => o = [(k, md)]).
Proof.
  intros <- Hm. unfold SubmitSourceLocationDelete. case_bool_decide; [done|]. split; [exists l, md; split; [left|done]|].
  intros a. exists [(ctx_key c, md)]. split_and!; [apply relabels_refl| |done]. by split.
Qed.

(** ** The gate of a batch *)

Lemma lookup_held own pd fr m k : inv own pd fr m -> active_tasks_ m !! k = None -> k ∉ (own ++ pd ++ fr).*1.
Proof.
  intros [[_ H] _ _] Hk ([k' md] & -> & Hin)%list_elem_of_fmap. destruct (H k' md Hin) as (_ & c & Hc & _). cbn in Hk. congruence.
Qed.

Lemma inv_reserve own pd fr m r :
  inv own pd fr m -> active_tasks_ m !! request_key r = None ->
  inv (own ++ [(request_key r, resv None None)]) pd fr
      (set_tasks (<[request_key r := preparing_context r]> (active_tasks_ m)) m).
Proof.
  intros Hi Hk. pose proof (lookup_held _ _ _ _ _ Hi Hk) as Hn. destruct Hi as [Hf Hd Hq].
  assert (Hp : (request_key r, resv None None) :: own ++ pd ++ fr ≡ₚ (own ++ [(request_key r, resv None None)]) ++ pd ++ fr).
  { rewrite <-(assoc_L (++)). cbn. apply Permutation_middle. }
  constructor; [apply (fits_perm _ _ _ Hp)|intros k c; rewrite <-Hp|done].
  - destruct Hf as [Hnd H]. split; [by apply NoDup_cons|]. intros k md [[= -> ->]|Hin]%elem_of_cons.
    + split; [done|]. exists (preparing_context r). cbn. by rewrite lookup_insert_eq.
    + cbn. rewrite lookup_insert_ne; [by apply H|]. intros <-. apply Hn. by apply (list_elem_of_fmap_2 fst) in Hin.
  - cbn. intros [[<- _]|[_ Hkc]]%lookup_insert_Some; [left|right; by eapply Hd].
Qed.

(** The reservations of the requests that were not refused. *)
Definition reserved_of (rs : list MigrationRequest) (outs : list (option ErrorCode)) : list Holding :=
  omap (fun ro => match ro.2 with None => Some (request_key ro.1, resv None None) | Some _ => None end) (zip rs outs).

Lemma reserve_all_inv limit dr rs pd fr m : forall own t slots outs t',
  inv own pd fr (set_tasks t m) -> reserve_all limit dr rs t slots = (outs, t') ->
  inv (own ++ reserved_of rs outs) pd fr (set_tasks t' m) /\ length outs = length rs /\ t ⊆ t'.
Proof.
  induction rs as [|r rs IH]; intros own t slots outs t' Hi; cbn [reserve_all].
  { intros [= <- <-]. by rewrite app_nil_r. }
  destruct (reserve_one limit dr r t slots) as [[res t1] slots1] eqn:Hr. apply reserve_one_spec in Hr.
  destruct (reserve_all limit dr rs t1 slots1) as [outs1 t2] eqn:Ha. intros [= <- <-]. destruct res as [ec|].
  - subst t1. destruct (IH own t slots1 outs1 t2 Hi Ha) as (? & ? & ?). by split_and!; [|cbn; f_equal|].
  - destruct Hr as [Hk ->]. destruct (IH _ _ _ _ _ (inv_reserve _ _ _ (set_tasks t m) r Hi Hk) Ha) as (Hi' & Hl & Hs).
    split_and!; [by rewrite <-(assoc_L (++)) in Hi'|cbn; by f_equal|]. etrans; [|done]. by apply insert_subseteq.
Qed.

Lemma stays_subseteq t t' : t ⊆ t' -> stays_cancelled t t'.
Proof. intros Hs k c Hk Hc. right. exists c. split; [by eapply lookup_weaken|done]. Qed.

Lemma covers_grow hs hs' P : hs ⊆ hs' -> covers hs P -> covers hs' P.
Proof. intros Hs H k l Hk. destruct (H k l Hk) as (md & ? & ?). exists md. split; [by apply Hs|done]. Qed.

Lemma promoted_reserved rs outs S : promoted_ok (reserved_of rs outs) S.
Proof. intros k md l (x & _ & Hx)%list_elem_of_omap. destruct (x.2); [done|]. by injection Hx as <- <-. Qed.

Lemma safe_reserve limit rs :
  safe (locked (reserve_batch limit rs)) []
    (fun r o => match r with None => o = [] | Some outs => length outs = length rs /\ o = reserved_of rs outs end).
Proof.
  intros pd fr m Hi. unfold reserve_batch. destruct (negb (accepting_copy_submissions_ m)).
  { split; [apply stays_refl|]. exists [], pd. by split_and!. }
  cbv zeta. destruct (reserve_all _ _ _ _ _) as [outs t'] eqn:Ha.
  assert (Hi0 : inv [] pd fr (set_tasks (active_tasks_ m) m)) by by destruct m.
  destruct (reserve_all_inv _ _ _ _ _ _ _ _ _ _ _ Hi0 Ha) as (Hi' & Hl & Hs).
  split; [by apply stays_subseteq|]. exists (reserved_of rs outs), pd. split_and!; [done| | |by split].
  - intros P. apply covers_grow. cbn. by apply list_subseteq_app_r.
  - intros S HS. apply promoted_app. by split; [apply promoted_reserved|].
Qed.
