(* ===== verification/MigrationHeld.v ===== *)
(** * MigrationHeld: each program of the migration manager keeps its part

    For every program of [MigrationRun] the holdings it starts with and those
    it ends with, in the logic of [MigrationSafe]. A submission, single or
    batched, and a turn of the monitor start and end with none: whatever they
    reserve, publish or take from the queue they hand on or give back, on every
    path. *)

From stdpp Require Import base gmap sets list strings.
From Stdlib Require Import ZArith Lia.
From S2P Require Import Prelude StandardUri MetaTypes StorageSelect WriteFilter WriteAlloc MetaMutate MigrationTasks MigrationRun MigrationSafe.

Local Open Scope Z_scope.

Abbreviation reserved b o := (mkMode (cResv b) o).

(** ** Programs that only ask *)

Fixpoint quiet {A} (p : prog A) (R : A -> Prop) : Prop :=
  match p with
  | Ret a => R a
  | Locked _ _ => False
  | Ask q k => neutral q = true /\ forall a, quiet (k a) R
  end.

Lemma quiet_bind {A B} (p : prog A) (f : A -> prog B) R : quiet p (fun a => quiet (f a) R) -> quiet (prog_bind p f) R.
Proof. induction p as [a|C g k IH|q k IH]; cbn; [done|done|]. intros [? H]. split; [done|]. intros a. by apply IH. Qed.

Lemma quiet_mono {A} (p : prog A) (R S : A -> Prop) : (forall a, R a -> S a) -> quiet p R -> quiet p S.
Proof. intros HR. induction p as [a|C g k IH|q k IH]; cbn; [apply HR|done|]. intros [? H]. split; [done|]. intros a. by apply IH. Qed.

Lemma quiet_for_each {A B} (f : A -> prog B) l : (forall a, quiet (f a) (fun _ => True)) -> quiet (for_each f l) (fun _ => True).
Proof.
  intros H. induction l as [|a l IH]; [done|]. cbn. apply quiet_bind. eapply quiet_mono, H. intros b _.
  apply quiet_bind. by eapply quiet_mono, IH.
Qed.

Lemma quiet_safe {A} (p : prog A) R own : quiet p R -> safe p own (fun a o => o = own /\ R a).
Proof.
  induction p as [a|C g k IH|q k IH]; cbn; [done|done|]. intros [Hn H]. split; [by destruct q|].
  intros a. exists own. split_and!; [apply relabels_refl| |by apply IH]. split; [|intros S; apply serves_mono].
  intros P fr _. by apply covers_subset, opens_neutral.
Qed.

(** Sequencing after a program that only asks. *)
Lemma safe_quiet_bind {A B} (p : prog A) (f : A -> prog B) R own Q :
  quiet p R -> (forall a, R a -> safe (f a) own Q) -> safe (prog_bind p f) own Q.
Proof. intros Hq Hf. apply safe_bind. eapply safe_mono, quiet_safe, Hq. by intros a o [-> ?]; apply Hf. Qed.

Lemma quiet_true {A} (p : prog A) R : quiet p R -> quiet p (fun _ => True).
Proof. by apply quiet_mono. Qed.

Ltac quiet :=
  repeat match goal with
  | |- quiet (prog_bind _ _) _ => apply quiet_bind
  | |- quiet (Ret _) _ => exact I
  | |- quiet (for_each _ _) _ => eapply quiet_mono; [intros ? _|apply quiet_for_each; intros ?]
  | |- quiet (ask _) _ => split; [reflexivity|intros ?]
  | |- quiet (Ask _ _) _ => split; [reflexivity|intros ?]
  | |- quiet (match ?x with _ => _ end) _ => destruct x
  | |- quiet (let '_ := ?x in _) _ => destruct x
  | |- True => exact I
  | _ => progress cbn [ask quiet]
  end.

Lemma CheckTargetStorageAdmission_quiet g i t : quiet (CheckTargetStorageAdmission g i t) (fun _ => True).
Proof. unfold CheckTargetStorageAdmission. quiet. Qed.

Lemma snapshot_mark_quiet c :
  quiet (snapshot_mark c) (fun c' => ctx_key c' = ctx_key c /\ ct_dst_location_id c' = ct_dst_location_id c).
Proof. unfold snapshot_mark. cbn. split; [done|]. intros [ec marks]. destruct ec, marks; try done. by destruct (_ && _). Qed.

Lemma create_specs_quiet r specs : forall srcs dsts names total, quiet (create_specs r specs srcs dsts names total) (fun _ => True).
Proof.
  induction specs as [|s specs IH]; intros srcs dsts names total; cbn [create_specs]; [done|]. cbv zeta.
  destruct (negb _); [destruct dsts; by quiet|]. split; [done|]. intros a. quiet; apply IH.
Qed.

Lemma read_source_quiet r : quiet (read_source r) (fun _ => True).
Proof. unfold read_source. quiet. Qed.

Lemma IsSourceLocationServing_quiet c : quiet (IsSourceLocationServing c) (fun _ => True).
Proof. unfold IsSourceLocationServing. quiet. Qed.

Lemma delete_item_uris_quiet it : quiet (delete_item_uris it) (fun _ => True).
Proof. unfold delete_item_uris. quiet. Qed.

(** ** Publishing and taking back *)

Definition id_opt (l : LocationId) : option LocationId := if bool_decide (l = "") then None else Some l.

Lemma id_opt_Some l l' : id_opt l = Some l' -> l' = l /\ l <> "".
Proof. unfold id_opt. case_bool_decide; [done|]. by intros [= ->]. Qed.

Lemma id_opt_ne l : l <> "" -> id_opt l = Some l.
Proof. intros. unfold id_opt. by rewrite bool_decide_eq_false_2. Qed.

Definition published (i : string) (keys : list KeyType) (results : list AddLocationResult) : list Holding :=
  zip_with (fun k res => ((i, k), reserved None (id_opt (add_location_id res)))) keys results.
Definition unpublished (i : string) (keys : list KeyType) : list Holding := (fun k => ((i, k), reserved None None)) <$> keys.

Lemma elem_of_result_ids i keys results k l :
  (k, l) ∈ result_ids i keys results <-> (k, reserved None (Some l)) ∈ published i keys results.
Proof.
  unfold result_ids, published. rewrite elem_of_list_to_set, list_elem_of_omap. split.
  - intros ([b res] & Hin & Hx). apply elem_of_lookup_zip_with. cbn in Hx. case_bool_decide; [done|]. injection Hx as <- <-.
    apply list_elem_of_lookup in Hin as [j Hj]. apply lookup_zip_with_Some in Hj as (b' & res' & [= <- <-] & Hb & Hr).
    exists j, b, res. by rewrite id_opt_ne.
  - intros (j & b & res & [= -> Hid] & Hb & Hr)%elem_of_lookup_zip_with. symmetry in Hid. apply id_opt_Some in Hid as [-> Hne].
    exists (b, res). split; [|cbn; by rewrite bool_decide_eq_false_2]. apply list_elem_of_lookup. exists j.
    apply lookup_zip_with_Some. by exists b, res.
Qed.

Lemma published_keys i keys results : length results = length keys -> (published i keys results).*1 = (unpublished i keys).*1.
Proof.
  unfold published, unpublished. revert results. induction keys as [|k keys IH]; intros [|res results] Hl; try done. cbn. f_equal. apply IH. by injection Hl.
Qed.

Lemma published_shape i keys results k md : (k, md) ∈ published i keys results ->
  (k, reserved None None) ∈ unpublished i keys /\ out_ok md /\ md_class md = cResv None.
Proof.
  intros (j & b & res & [= -> ->] & Hb & _)%elem_of_lookup_zip_with. split_and!; [|cbn|done].
  - apply list_elem_of_fmap. exists b. split; [done|]. by apply list_elem_of_lookup_2 in Hb.
  - unfold out_ok, id_opt. cbn. case_bool_decide; [done|]. by split; [|left].
Qed.

Lemma safe_add_locations i keys locs :
  safe (ask (q_add_locations i keys locs)) (unpublished i keys)
    (fun a o => o = if (length a.2 =? length keys)%nat then published i keys a.2 else unpublished i keys).
Proof.
  split. { intros k Hk. apply list_elem_of_fmap. by exists k. }
  intros a. eexists. split_and!; [| |reflexivity]; (destruct (_ =? _)%nat eqn:He; [apply Nat.eqb_eq in He|]).
  - split; [by rewrite published_keys|]. intros k md Hk. destruct (published_shape _ _ _ _ _ Hk) as (? & Ho & Hc).
    exists (reserved None None). by rewrite Hc.
  - apply relabels_refl.
  - split.
    + intros P fr _ HP k l. cbn. rewrite He, Nat.eqb_refl. intros [Hin|Hin]%elem_of_union.
      * apply elem_of_result_ids in Hin. exists (reserved None (Some l)). split; [apply elem_of_app; by left|done].
      * destruct (HP k l Hin) as (md & [Hmd|Hmd]%elem_of_app & Hl).
        -- apply list_elem_of_fmap in Hmd as (b & [= -> ->] & _). done.
        -- exists md. split; [apply elem_of_app; by right|done].
    + intros S _ k md l Hk Hc. destruct (published_shape _ _ _ _ _ Hk) as (_ & _ & Hc'). congruence.
  - split; [|done]. intros P fr _. cbn. by rewrite He.
Qed.

(** The rollback of what [BatchAddLocation] refused but may have written. *)
Definition to_result (it : AddLocationRollbackItem) : AddLocationResult := mkAddResult (rb_ec it) (rb_location_id it).

Lemma safe_rollback i items :
  safe (RollbackAddedLocations i items) (published i (rb_block <$> items) (to_result <$> items))
    (fun _ o => o = unpublished i (rb_block <$> items)).
Proof.
  unfold RollbackAddedLocations. apply safe_bind. set (keys := rb_block <$> items). set (results := to_result <$> items).
  assert (Hl : length results = length keys) by (unfold results, keys; by rewrite !length_fmap).
  split; [done|]. intros a. exists (unpublished i keys). split_and!.
  - split; [by rewrite published_keys|]. intros k md' Hk. apply list_elem_of_fmap in Hk as (b & [= -> ->] & Hb).
    assert (Hin : ((i, b), reserved None None).1 ∈ (published i keys results).*1).
    { rewrite published_keys by done. apply (list_elem_of_fmap_2 fst). apply list_elem_of_fmap. by exists b. }
    apply list_elem_of_fmap in Hin as ([k0 md] & Heq & Hmd). cbn in Heq. subst k0. exists md. split; [done|].
    destruct (published_shape _ _ _ _ _ Hmd) as (_ & _ & Hc). by rewrite Hc.
  - split; [|intros S _ k md l Hk Hc; apply list_elem_of_fmap in Hk as (b & [= -> ->] & _); done].
    intros P fr _ HP k l Hkl. cbn in Hkl. apply elem_of_difference in Hkl as [Hin Hn].
    destruct (HP k l Hin) as (md & [Hmd|Hmd]%elem_of_app & Ho).
    + exfalso. apply Hn. apply elem_of_result_ids. destruct (published_shape _ _ _ _ _ Hmd) as (_ & _ & Hc).
      destruct md as [cl out]. cbn in Hc, Ho. by subst.
    + exists md. split; [apply elem_of_app; by right|done].
  - cbn [safe]. eapply safe_mono; [|eapply (quiet_safe _ (fun _ => True))]; [by intros [] o [-> _]|]. quiet.
Qed.

(** ** One submission *)

Lemma PrepareCopyTask_held r :
  safe (PrepareCopyTask r) [(request_key r, reserved None None)]
    (fun res o => match res with
                  | inl _ => o = [(request_key r, reserved None None)]
                  | inr (c, _, _) => ctx_key c = request_key r /\ ct_dst_location_id c <> "" /\
                      o = [(request_key r, reserved None (Some (ct_dst_location_id c)))]
                  end).
Proof.
  unfold PrepareCopyTask. destruct (_ || _); [done|]. eapply (safe_quiet_bind _ _ (fun _ => True)); [quiet|]. intros [|] _; [|done]. cbn [negb].
  eapply safe_quiet_bind; [apply read_source_quiet|]. intros [ec|[specs ct]] _; [done|].
  eapply (safe_quiet_bind _ _ (fun _ => True)); [quiet|]. intros [[dt b]|] _; [|done].
  eapply safe_quiet_bind; [apply create_specs_quiet|]. intros [[[[srcs dsts] dspecs] total]|] _; [|done].
  apply safe_bind. eapply safe_mono; [|apply (safe_add_locations (rq_instance r) [rq_block r])].
  intros [ec [|res [|res' results]]] o Ho; cbn in Ho; subst o; [done| |done].
  destruct (bool_decide (ec = EC_OK) && _ && _) eqn:He.
  - apply andb_true_iff in He as [_ He]. apply negb_true_iff, bool_decide_eq_false in He. cbn. by rewrite id_opt_ne.
  - apply safe_bind. eapply safe_mono; [|eapply (safe_rollback (rq_instance r) [mkRollbackItem _ _ _ _ _])]. by intros [] o ->.
Qed.

Lemma submit_copy_held k l c srcs dsts :
  ctx_key c = k -> ct_dst_location_id c = l -> l <> "" ->
  safe (submit_copy c srcs dsts) [(k, mkMode (cRun l) (Some l))] (fun _ o => o = []).
Proof.
  intros Hk Hl Hne. unfold submit_copy. eapply (safe_quiet_bind _ _ (fun _ => True)); [quiet|]. intros [f|] _.
  - apply safe_bind. subst k. eapply safe_mono; [|apply (safe_push (mkPending (ct_instance c) (ct_block c) f))].
    intros _ o ->. apply safe_bind. eapply safe_mono; [|by apply safe_update_same]. by intros _ o ->.
  - apply safe_bind. eapply safe_mono; [|by apply safe_delete_target]. intros _ o ->.
    apply safe_bind. subst k. eapply safe_mono; [|apply safe_remove]. by intros _ o ->.
Qed.

(** Starting a task whose target is bound, or giving both up. *)
Lemma give_up_held {A} k b l c (p : prog A) Q :
  ctx_key c = k -> ct_dst_location_id c = l -> l <> "" -> safe p [(k, reserved b None)] Q ->
  safe (prog_bind (SubmitTargetLocationDelete c) (fun _ => p)) [(k, reserved b (Some l))] Q.
Proof. intros ? ? ? Hp. apply safe_bind. eapply safe_mono; [|by apply safe_delete_target]. by intros _ o ->. Qed.

Lemma Submit_held r : safe (Submit r) [] (fun _ o => o = []).
Proof.
  unfold Submit. apply safe_bind, safe_locked_same. intros m. split_and!; [done|done|]. destruct (negb _); [done|].
  destruct (_ || _); [done|]. eapply (safe_quiet_bind _ _ (fun _ => True)); [quiet|]. intros [|] _; [|done]. cbn [negb].
  eapply safe_quiet_bind; [apply CheckTargetStorageAdmission_quiet|]. intros ec _. destruct (negb _); [done|].
  apply safe_bind. eapply safe_mono; [|apply safe_reserve].
  intros [[|o1 [|o2 outs]]|] o; [by intros [? _]| |by intros [? _]|by intros ->].
  intros [_ ->]. destruct o1 as [ec'|]; [done|]. change (reserved_of [r] [None]) with [(request_key r, reserved None None)].
  apply safe_bind. eapply safe_mono; [|apply PrepareCopyTask_held]. intros [ec'|[[c srcs] dsts]] o.
  - intros ->. apply safe_bind. eapply safe_mono; [|apply safe_release]. by intros _ o ->.
  - intros (Hk & Hne & ->). apply safe_bind. eapply safe_mono; [|by apply safe_bind_target].
    assert (Hgive : forall b, safe (prog_bind (release_preparing (request_key r)) (fun _ => Ret EC_ERROR)) [(request_key r, reserved b None)] (fun _ o => o = [])).
    { intros b. apply safe_bind. eapply safe_mono; [|apply safe_release]. by intros _ o ->. }
    intros [|] o ->; [|by apply give_up_held]. cbn [negb].
    eapply safe_quiet_bind; [apply snapshot_mark_quiet|]. intros c' [Hk' Hd']. apply safe_bind.
    eapply safe_mono; [|apply safe_start_running; [by rewrite Hk'|done]].
    intros [|] o ->; cbn [negb]; [apply submit_copy_held; congruence|apply give_up_held; congruence || done].
Qed.

(** ** The monitor *)

Lemma remove_and_count_held k cl count :
  (forall m, active_tasks_ (count m) = active_tasks_ m /\ pending_copies_ (count m) = pending_copies_ m) ->
  safe (prog_bind (on_table (RemoveActiveTaskLocked k)) (fun _ => update count)) [(k, mkMode cl None)] (fun _ o => o = []).
Proof.
  intros Hc. apply safe_bind. eapply safe_mono; [|apply safe_remove]. intros _ o ->.
  eapply safe_mono; [|by apply safe_update_same]. by intros _ o ->.
Qed.

Lemma discard_task_held count k l cl c :
  ctx_key c = k -> ct_dst_location_id c = l -> l <> "" -> unserved cl ->
  (forall m, active_tasks_ (count m) = active_tasks_ m /\ pending_copies_ (count m) = pending_copies_ m) ->
  safe (discard_task count c) [(k, mkMode cl (Some l))] (fun _ o => o = []).
Proof.
  intros Hk Hl Hne Hu Hc. apply safe_bind. eapply safe_mono; [|by apply safe_delete_target]. intros _ o ->. subst k.
  by apply remove_and_count_held.
Qed.

Lemma OnTaskFailed_held k l : safe (OnTaskFailed k) [(k, mkMode (cRun l) (Some l))] (fun _ o => o = []).
Proof.
  unfold OnTaskFailed. apply safe_bind. eapply safe_mono; [|apply safe_claim].
  intros [claim task] o (c & Hk & Hl & Hne & [[[= -> ->] ->]|[[= -> ->] ->]]); by apply discard_task_held.
Qed.

Lemma OnTaskSuccess_held k l : safe (OnTaskSuccess k) [(k, mkMode (cRun l) (Some l))] (fun _ o => o = []).
Proof.
  unfold OnTaskSuccess. apply safe_bind. eapply safe_mono; [|apply safe_claim].
  intros [claim task] o (c & Hk & Hl & Hne & [[[= -> ->] ->]|[[= -> ->] ->]]); [|by apply discard_task_held].
  eapply safe_quiet_bind; [apply IsSourceLocationServing_quiet|]. intros [|] _; [|by apply discard_task_held]. cbn [negb].
  eapply (safe_quiet_bind _ _ (fun _ => True)); [quiet|]. intros found _. apply safe_bind.
  apply safe_mono with (fun promoted o => o = [(k, if promoted : bool then mkMode (cComp l true) None else mkMode (cComp l false) (Some l))]).
  2: { destruct found; [|done]. rewrite Hl. by apply safe_promote. }
  intros [|] o ->; [|by apply discard_task_held]. cbn [negb].
  eapply (safe_quiet_bind _ _ (fun _ => True)); [quiet|]. intros _ _. apply safe_bind.
  apply safe_mono with (fun _ o => o = [(k, mkMode (cComp l true) None)]).
  { intros _ o ->. by apply remove_and_count_held. }
  case_bool_decide; [|done]. by eapply safe_delete_source.
Qed.

Lemma ProcessExpiredMarks_held : safe ProcessExpiredMarks [] (fun _ o => o = []).
Proof.
  unfold ProcessExpiredMarks. eapply (safe_quiet_bind _ _ (fun _ => True)); [quiet|]. intros now _. apply safe_bind, safe_locked_same.
  intros m. destruct (take_expired _ _) as [out rest]. split_and!; [done|done|]. cbn [fst].
  eapply safe_mono; [|eapply (quiet_safe _ (fun _ => True))]; [by intros [] o [-> _]|]. quiet.
Qed.

Lemma monitor_turn_held : safe monitor_turn [] (fun _ o => o = []).
Proof.
  unfold monitor_turn. apply safe_bind. eapply safe_mono; [|apply ProcessExpiredMarks_held]. intros _ o ->.
  apply safe_bind. eapply safe_mono; [|apply safe_pop]. intros [p|] o; [|by intros ->]. intros [l ->].
  eapply (safe_quiet_bind _ _ (fun _ => True)); [quiet|]. intros [ec|] _; [|apply (safe_push p)].
  destruct ec; first [apply OnTaskSuccess_held|apply OnTaskFailed_held].
Qed.

(** ** Cancelling *)

Lemma MarkCancelling_entry k t :
  (MarkCancellingLocked k t).2 = t \/
  exists c c', t !! k = Some c /\ (MarkCancellingLocked k t).2 = <[k := c']> t /\ is_cancelling c' /\
    forall cl, class_fits k cl c -> class_fits k cl c'.
Proof.
  unfold MarkCancellingLocked. destruct (t !! k) as [c|] eqn:Hk; [|by left]. destruct (ct_state c) eqn:Hs; try (by left); right.
  - exists c, (with_state kPrepareCancelling c). split_and!; [done|done|by left|]. intros cl [Hc Hf]. split; [done|].
    destruct cl as [b|l|l b|l]; [by destruct Hf as [_ ?]; split|by destruct Hf as [[?|?] ?]; congruence|by destruct Hf as [? _]; congruence..].
  - exists c, (with_state kCancelling c). split_and!; [done|done|by right|]. intros cl [Hc Hf]. split; [done|].
    destruct cl as [b|l|l b|l]; [by destruct Hf as [Hp _]; rewrite Hs in Hp|by destruct Hf as [_ ?]; split; [right|]|by destruct Hf as [? _]; congruence..].
Qed.

Lemma fits_refine hs k c c' t :
  t !! k = Some c -> (forall cl, class_fits k cl c -> class_fits k cl c') -> fits hs t -> fits hs (<[k := c']> t).
Proof.
  intros Hk Hc [Hn H]. split; [done|]. intros k' md Hin. destruct (H k' md Hin) as (Ho & c0 & Hc0 & Hf). split; [done|].
  destruct (decide (k' = k)) as [->|Hne]; [|exists c0; by rewrite lookup_insert_ne].
  exists c'. rewrite lookup_insert_eq. split; [done|]. apply Hc. congruence.
Qed.

Lemma Cancel_held k own : safe (locked (Cancel k)) own (fun _ o => o = own).
Proof.
  intros pd fr m Hi.
  assert (Ht : active_tasks_ (Cancel k m).2 = (MarkCancellingLocked k (active_tasks_ m)).2 /\ pending_copies_ (Cancel k m).2 = pending_copies_ m).
  { unfold Cancel. destruct (MarkCancellingLocked _ _) as [res t]. by destruct res. }
  destruct Ht as [Ht Hp]. rewrite Ht. destruct (MarkCancelling_entry k (active_tasks_ m)) as [He|(c & c' & Hk & He & Hcan & Hc)]; rewrite He in Ht |- *.
  - split; [apply stays_refl|]. exists own, pd. split_and!; try done. destruct Hi. constructor; by rewrite ?Ht, ?Hp.
  - split; [by apply stays_insert|]. exists own, pd. split_and!; try done. destruct Hi as [Hf Hd Hq].
    constructor; rewrite ?Ht, ?Hp; [by eapply fits_refine| |done].
    intros k' c0 [[<- _]|[_ Hk']]%lookup_insert_Some; [by apply (Hd k c)|by apply (Hd k' c0)].
Qed.

Lemma BatchCancel_held i bs own : safe (BatchCancel i bs) own (fun _ o => o = own).
Proof.
  unfold BatchCancel. induction bs as [|b bs IH]; [done|]. cbn [for_each]. apply safe_bind. eapply safe_mono; [|apply Cancel_held].
  intros ec o ->. apply safe_bind. eapply safe_mono; [|exact IH]. by intros ecs o ->.
Qed.

(** ** The batch *)

Definition item_holds (it : BatchCopyItem) : list Holding := if bi_reserved it then [(item_key it, reserved None None)] else [].

(** The items of a batch for [i]: an eligible one has its reservation. *)
Definition item_ok (i : string) (it : BatchCopyItem) : Prop :=
  rq_instance (bi_request it) = i /\ (bi_eligible it = true -> bi_reserved it = true).

(** A later version of an item: its reservation is kept, it may have failed. *)
Definition later (it it' : BatchCopyItem) : Prop :=
  bi_request it' = bi_request it /\ bi_reserved it' = bi_reserved it /\ (bi_eligible it' = true -> bi_eligible it = true).

#[local] Instance later_refl : Reflexive later.
Proof. by intros it. Qed.
#[local] Instance later_trans : Transitive later.
Proof. intros a b c (?&?&?) (?&?&?). split_and!; [congruence|congruence|auto]. Qed.

Lemma later_holds items items' : Forall2 later items items' -> items' ≫= item_holds = items ≫= item_holds.
Proof.
  induction 1 as [|it it' items items' (Hr & Hv & _) _ IH]; [done|]. cbn [mbind list_bind]. f_equal; [|done].
  unfold item_holds, item_key. by rewrite Hr, Hv.
Qed.

Lemma later_ok i items items' : Forall2 later items items' -> Forall (item_ok i) items -> Forall (item_ok i) items'.
Proof.
  induction 1 as [|it it' items items' (Hr & Hv & He) _ IH]; [done|]. intros [[Hi Hk] Hok]%Forall_cons. constructor; [|by apply IH].
  split; [by rewrite Hr|]. intros ?. rewrite Hv. auto.
Qed.

Lemma plan_specs_later i r specs : forall it groups, later it (plan_specs i r specs it groups).1.
Proof.
  induction specs as [|s specs IH]; intros it groups; cbn [plan_specs]; [done|]. cbv zeta. destruct (negb _); [done|].
  etrans; [|apply IH]. done.
Qed.

Lemma plan_items_later items : forall i groups, Forall2 later items (plan_items i items groups).1.
Proof.
  induction items as [|it items IH]; intros i groups; cbn [plan_items]; [done|].
  destruct (if bi_eligible it then _ else _) as [it' groups'] eqn:He. specialize (IH (S i) groups').
  destruct (plan_items (S i) items groups') as [items' g]. constructor; [|done].
  destruct (bi_eligible it); [|by injection He as <- <-].
  change it' with (it', groups').1. rewrite <-He. apply plan_specs_later.
Qed.

Lemma alter_later (f : BatchCopyItem -> BatchCopyItem) i items : (forall it, later it (f it)) -> Forall2 later items (alter f i items).
Proof.
  intros Hf. revert i. induction items as [|it items IH]; intros [|i]; try done; constructor; [apply Hf|done|done|apply IH].
Qed.

Lemma insert_later i it it' items : items !! i = Some it -> later it it' -> Forall2 later items (<[i := it']> items).
Proof.
  revert i. induction items as [|x items IH]; intros [|i] Hi Hl; try done; cbn in *.
  - injection Hi as ->. by constructor.
  - constructor; [done|by apply IH].
Qed.

Lemma take_created_later items unowned er : Forall2 later items (take_created (items, unowned) er).1.
Proof.
  unfold take_created. destruct er as [e [ec u]]. destruct (items !! ce_item e) as [it|] eqn:Hi; [|done].
  destruct (negb _); [done|]. case_bool_decide; by apply (insert_later _ it).
Qed.

Lemma foldl_later {A} (f : list BatchCopyItem -> A -> list BatchCopyItem) l :
  (forall items a, Forall2 later items (f items a)) -> forall items, Forall2 later items (foldl f items l).
Proof. intros Hf. induction l as [|a l IH]; intros items; [done|]. cbn. etrans; [apply Hf|apply IH]. Qed.

Lemma take_created_all_later l : forall x, Forall2 later x.1 (foldl take_created x l).1.
Proof. induction l as [|er l IH]; intros [items unowned]; [done|]. cbn [foldl]. etrans; [apply take_created_later|apply IH]. Qed.

Lemma create_groups_quiet storage groups : forall items unowned,
  quiet (create_groups storage groups items unowned) (fun x => Forall2 later items x.1).
Proof.
  induction groups as [|[size entries] groups IH]; intros items unowned; cbn [create_groups]; [cbn; reflexivity|]. split; [done|].
  intros results. cbn [prog_bind]. destruct (negb _).
  - eapply quiet_mono, IH. intros x Hx. etrans; [|exact Hx]. apply foldl_later. intros. by apply alter_later.
  - pose proof (take_created_all_later (zip entries results) (items, unowned)) as Hl.
    destruct (foldl take_created _ _) as [items' unowned']. eapply quiet_mono, IH. intros x Hx. etrans; [exact Hl|exact Hx].
Qed.

Lemma release_item_held b it :
  safe (release_item it) (if bi_reserved it then [(item_key it, reserved b None)] else [])
    (fun it' o => o = [] /\ it' = set_reserved false it).
Proof.
  unfold release_item. destruct (bi_reserved it) eqn:Hv.
  - apply safe_bind. eapply safe_mono; [|apply safe_release]. by intros _ o ->.
  - split; [done|]. destruct it; cbn in *. by rewrite Hv.
Qed.

(** What a clean-up pass makes of an item: it is as it was, or it has failed
    and gave its reservation back. *)
Definition settled (it it' : BatchCopyItem) : Prop :=
  it' = it \/ bi_request it' = bi_request it /\ bi_eligible it' = false /\ bi_reserved it' = false.

Lemma settled_ok i items items' : Forall2 settled items items' -> Forall (item_ok i) items -> Forall (item_ok i) items'.
Proof.
  induction 1 as [|it it' items items' [->|(Hr & He & _)] _ IH]; [done| |]; intros [Hi Hok]%Forall_cons; constructor; auto.
  destruct Hi as [Hi _]. split; [by rewrite Hr|]. congruence.
Qed.

Lemma give_back_held (p : prog unit) it it0 :
  quiet p (fun _ => True) -> bi_reserved it = bi_reserved it0 -> bi_request it = bi_request it0 -> bi_eligible it = false ->
  safe (prog_bind p (fun _ => release_item it)) (item_holds it0) (fun it' o => o = item_holds it' /\ settled it0 it').
Proof.
  intros Hp Hv Hr He. eapply safe_quiet_bind; [done|]. intros _ _. unfold item_holds, item_key. rewrite <-Hv, <-Hr.
  eapply safe_mono; [|apply (release_item_held None)]. intros it' o [-> ->]. split; [done|]. right. by rewrite <-Hr.
Qed.

Lemma rollback_failed_held it : safe (rollback_failed it) (item_holds it) (fun it' o => o = item_holds it' /\ settled it it').
Proof.
  unfold rollback_failed. destruct (bi_eligible it) eqn:He; [by split; [|left]|].
  apply give_back_held; [apply delete_item_uris_quiet|by destruct (bi_dst_uris it)..|by destruct (bi_dst_uris it)].
Qed.

Lemma check_created_held it : safe (check_created it) (item_holds it) (fun it' o => o = item_holds it' /\ settled it it').
Proof.
  unfold check_created. destruct (negb _); [by split; [|left]|]. destruct (_ =? _)%nat; [by split; [|left]|].
  by apply give_back_held; [apply delete_item_uris_quiet|..].
Qed.

(** Critical sections in sequence, when the second adds no task. *)
Lemma safe_on_table_seq {A B : Type} (f : TaskTable -> A * TaskTable) (g : A -> TaskTable -> B * TaskTable) own Q :
  (forall a t k, t !! k = None -> (g a t).2 !! k = None) ->
  safe (on_table f) own (fun a o => safe (on_table (g a)) o Q) ->
  safe (on_table (fun t => let '(a, t) := f t in g a t)) own Q.
Proof.
  intros Hg H pd fr m Hi. destruct (H pd fr m Hi) as (Hs & own1 & pd1 & Hi1 & Hc1 & Hp1 & Hq1). revert Hs Hi1 Hq1.
  destruct (f (active_tasks_ m)) as [a t1]. cbn [fst snd safe]. intros Hs Hi1 Hq1. specialize (Hq1 pd1 fr _ Hi1).
  revert Hq1. cbn [active_tasks_ set_tasks]. specialize (Hg a t1). destruct (g a t1) as [b t2]. cbn [fst snd].
  intros (Hs2 & own2 & pd2 & Hi2 & Hc2 & Hp2 & Hq2). split.
  - intros k c Hk Hc. destruct (Hs k c Hk Hc) as [Hn|(c1 & Hk1 & Hcan)]; [left; by apply Hg|by apply (Hs2 k c1)].
  - exists own2, pd2. split_and!; [done|auto|auto|done].
Qed.

Lemma safe_on_table_ext {B : Type} (f g : TaskTable -> B * TaskTable) own Q :
  (forall t, f t = g t) -> safe (on_table f) own Q -> safe (on_table g) own Q.
Proof. intros He H pd fr m Hi. specialize (H pd fr m Hi). revert H. cbn. by rewrite He. Qed.

Lemma RemovePreparing_none k' t k : t !! k = None -> (RemovePreparingTaskLocked k' t).2 !! k = None.
Proof.
  intros Hk. unfold RemovePreparingTaskLocked, RemoveActiveTaskLocked. destruct (t !! k'); [|done]. destruct (is_preparing _); [|done].
  cbn. destruct (decide (k' = k)) as [->|]; [by rewrite lookup_delete_eq|by rewrite lookup_delete_ne].
Qed.

Lemma UpdatePreparing_none c t k : t !! k = None -> (UpdatePreparingTaskLocked c t).2 !! k = None.
Proof.
  intros Hk. unfold UpdatePreparingTaskLocked. destruct (t !! ctx_key c) eqn:Hc; [|done]. case_bool_decide; [|done].
  cbn. rewrite lookup_insert_ne; [done|]. intros <-. congruence.
Qed.

(** Every item's reservation is given back. *)
Lemma release_reserved_none items : forall t k, t !! k = None -> foldl release_reserved t items !! k = None.
Proof.
  induction items as [|it items IH]; intros t k Hk; [done|]. apply IH. unfold release_reserved.
  destruct (bi_reserved it); [by apply RemovePreparing_none|done].
Qed.

Lemma release_all_held items : safe (release_all items) (items ≫= item_holds) (fun items' o => o = [] /\ items' = set_reserved false <$> items).
Proof.
  unfold release_all. apply safe_bind. apply safe_mono with (fun _ o => o = []); [by intros _ o ->|].
  induction items as [|it items IH]; [by apply safe_locked_same|]. cbn [mbind list_bind foldl]. unfold item_holds at 1.
  unfold release_reserved at 2. destruct (bi_reserved it) eqn:Hv; [|exact IH].
  apply (safe_on_table_ext (fun t => let '(_, t) := RemovePreparingTaskLocked (item_key it) t in (tt, foldl release_reserved t items))).
  { intros t. by destruct (RemovePreparingTaskLocked (item_key it) t). }
  apply (safe_on_table_seq _ (fun _ t => (tt, foldl release_reserved t items))); [intros _; apply release_reserved_none|].
  eapply safe_mono; [|apply safe_frame, (safe_remove_preparing _ None)]. by intros _ o (o1 & -> & ->).
Qed.

(** *** After [BatchAddLocation] *)

Definition added_holds (ia : BatchCopyItem * AddedItem) : list Holding :=
  match ia.2 with
  | add_done c => [(ctx_key c, reserved None (Some (ct_dst_location_id c)))]
  | add_failed _ l _ => [(item_key ia.1, reserved None (id_opt l))]
  | not_added => item_holds ia.1
  end.

(** The same without the targets that were taken back. *)
Definition kept_holds (ia : BatchCopyItem * AddedItem) : list Holding :=
  match ia.2 with add_done _ => added_holds ia | _ => item_holds ia.1 end.

Definition done_ok (ia : BatchCopyItem * AddedItem) : Prop :=
  match ia.2 with
  | add_done c => ctx_key c = item_key ia.1 /\ ct_dst_location_id c <> "" /\ bi_reserved ia.1 = true
  | _ => True
  end.

Definition added_ok (i : string) (ia : BatchCopyItem * AddedItem) : Prop :=
  rq_instance (bi_request ia.1) = i /\ done_ok ia /\
  match ia.2 with
  | add_failed _ _ _ => bi_reserved ia.1 = true
  | _ => True
  end.

Lemma distribute_held i items : forall results,
  Forall (item_ok i) items -> length results = length (filter (fun it => bi_eligible it = true) items) ->
  let adds := filter (fun it => bi_eligible it = true) items in
  distribute items results ≫= added_holds ≡ₚ
    published i ((fun it => rq_block (bi_request it)) <$> adds) results ++ filter (fun it => bi_eligible it <> true) items ≫= item_holds
  /\ Forall (added_ok i) (distribute items results).
Proof.
  induction items as [|it items IH]; intros results Hok Hl; [by destruct results|].
  apply Forall_cons in Hok as [[Hi He] Hok]. cbn [distribute]. rewrite !filter_cons in *.
  destruct (bi_eligible it) eqn:Hel.
  - rewrite decide_True in * by done. rewrite (decide_False (P := true <> true)) by auto. destruct results as [|res results]; [done|].
    destruct (IH results Hok ltac:(by injection Hl)) as [Hp Ha]. specialize (He eq_refl).
    cbn [mbind list_bind fmap list_fmap published zip_with app].
    assert (Hh : added_holds (match added it res with inl c => (it, add_done c) | inr ec => (MarkFailed ec (clear_dst_uris it), add_failed ec (add_location_id res) (bi_dst_uris it)) end)
                 = [((i, rq_block (bi_request it)), reserved None (id_opt (add_location_id res)))]
               /\ added_ok i (match added it res with inl c => (it, add_done c) | inr ec => (MarkFailed ec (clear_dst_uris it), add_failed ec (add_location_id res) (bi_dst_uris it)) end)).
    { unfold added. rewrite <-Hi. destruct (_ && _) eqn:Hb; [|done].
      apply andb_true_iff in Hb as [_ Hb]. apply negb_true_iff, bool_decide_eq_false in Hb. cbn. by rewrite id_opt_ne. }
    destruct Hh as [-> Hh]. split; [cbn; by f_equiv|by constructor].
  - rewrite decide_False in * by done. rewrite (decide_True (P := false <> true)) by auto.
    destruct (IH results Hok Hl) as [Hp Ha]. split; [|by constructor; [split_and!|]]. cbn [mbind list_bind]. rewrite Hp.
    rewrite !(assoc_L (++)). f_equiv. apply Permutation_app_comm.
Qed.

Lemma added_split i l : Forall (added_ok i) l -> exists rest,
  let rbs := omap rollback_item l in
  l ≫= added_holds ≡ₚ published i (rb_block <$> rbs) (to_result <$> rbs) ++ rest /\
  l ≫= kept_holds ≡ₚ unpublished i (rb_block <$> rbs) ++ rest.
Proof.
  induction 1 as [|[it a] l (Hi & Hd & Hr) _ (rest & H1 & H2)]; [by exists []|].
  destruct a as [|ec lid uris|c].
  - exists (item_holds it ++ rest). cbn. rewrite H1, H2. by split; apply Permutation_app_swap_app.
  - exists rest. cbn in *. rewrite H1, H2. unfold kept_holds, added_holds, item_holds, item_key, request_key. cbn. by rewrite Hr, Hi.
  - exists (added_holds (it, add_done c) ++ rest). cbn. rewrite H1, H2. split; apply Permutation_middle.
Qed.

Lemma rollback_all_held i l : Forall (added_ok i) l ->
  safe (RollbackAddedLocations i (omap rollback_item l)) (l ≫= added_holds) (fun _ o => o ≡ₚ l ≫= kept_holds).
Proof.
  intros Hok. destruct (added_split i l Hok) as (rest & H1 & H2). eapply safe_perm; [|symmetry; exact H1|].
  { intros a o o' Hp. cbn. by rewrite Hp. }
  eapply safe_mono; [|apply safe_frame, safe_rollback]. intros _ o (o1 & -> & ->). by rewrite H2.
Qed.

Lemma release_failed_held ia : done_ok ia ->
  safe (release_failed ia) (kept_holds ia) (fun ia' o => o = kept_holds ia' /\ done_ok ia').
Proof.
  destruct ia as [it [|ec lid uris|c]]; [done| |done]. intros _. cbn. apply safe_bind.
  eapply safe_mono; [|apply (release_item_held None)]. by intros it' o [-> ->].
Qed.

(** *** Binding and starting *)

Definition bound_holds (x : BatchCopyItem * AddedItem * bool) : list Holding :=
  match x.1.2 with
  | add_done c => [(ctx_key c, reserved (if x.2 then Some (ct_dst_location_id c) else None) (Some (ct_dst_location_id c)))]
  | _ => item_holds x.1.1
  end.

(** The same when the unbound targets are gone. *)
Definition ready_holds (x : BatchCopyItem * AddedItem * bool) : list Holding :=
  if x.2 then bound_holds x else item_holds x.1.1.

Lemma bind_all_none l : forall t k, t !! k = None -> (bind_all l t).2 !! k = None.
Proof.
  induction l as [|[it a] l IH]; intros t k Hk; [done|].
  assert (Hrest : forall b t', t' !! k = None -> (let '(bs, t) := bind_all l t' in (b :: bs : list bool, t)).2 !! k = None).
  { intros b t' Ht. specialize (IH t' k Ht). by destruct (bind_all l t'). }
  destruct a as [|ec lid uris|c]; cbn [bind_all]; [by apply Hrest..|].
  pose proof (UpdatePreparing_none c t k Hk) as Hu. destruct (UpdatePreparingTaskLocked c t) as [b t']. by apply Hrest.
Qed.

Lemma bind_rest_held l own b :
  safe (on_table (bind_all l)) own (fun bs o => length bs = length l /\ o ≡ₚ zip l bs ≫= bound_holds) ->
  safe (on_table (fun t => let '(bs, t) := bind_all l t in (b :: bs : list bool, t))) own
    (fun bs o => exists bs', bs = b :: bs' /\ length bs' = length l /\ o ≡ₚ zip l bs' ≫= bound_holds).
Proof.
  intros H pd fr m Hi. destruct (H pd fr m Hi) as (Hs & own' & pd' & Hi' & Hc & Hp & Hq). revert Hs Hi' Hq. cbn.
  destruct (bind_all l (active_tasks_ m)) as [bs t]. cbn. intros Hs Hi' Hq. split; [done|]. exists own', pd'.
  split_and!; try done. by exists bs.
Qed.

Lemma bind_all_held l : Forall done_ok l ->
  safe (on_table (bind_all l)) (l ≫= kept_holds) (fun bs o => length bs = length l /\ o ≡ₚ zip l bs ≫= bound_holds).
Proof.
  induction 1 as [|[it a] l Hd _ IH]; [by apply safe_locked_same|]. cbn [mbind list_bind]. apply (bind_rest_held _ _) with (b := false) in IH as Hf.
  assert (Hskip : (forall c, a <> add_done c) ->
    safe (on_table (fun t => let '(bs, t) := bind_all l t in (false :: bs : list bool, t))) (kept_holds (it, a) ++ (l ≫= kept_holds))
      (fun bs o => length bs = S (length l) /\ o ≡ₚ zip ((it, a) :: l) bs ≫= bound_holds)).
  { intros Ha. eapply safe_perm; [|apply Permutation_app_comm|].
    { intros bs o o' Hp [Hl Ho]. split; [done|]. by rewrite <-Hp. }
    eapply safe_mono; [|apply safe_frame, Hf]. intros bs o (o1 & -> & bs' & -> & Hl & Ho). split; [cbn; by f_equal|].
    cbn [zip zip_with mbind list_bind]. rewrite Ho, Permutation_app_comm. f_equiv. by destruct a. }
  destruct a as [|ec lid uris|c]; [by apply Hskip..|]. clear Hskip Hf. destruct Hd as (Hk & Hne & Hv).
  apply (safe_on_table_ext (fun t => let '(b, t) := UpdatePreparingTaskLocked c t in (fun b t => let '(bs, t) := bind_all l t in (b :: bs, t)) b t)).
  { intros t. cbn. by destruct (UpdatePreparingTaskLocked c t). }
  apply safe_on_table_seq.
  { intros b t k Hn. pose proof (bind_all_none l t k Hn) as Hb. by destruct (bind_all l t). }
  eapply safe_mono; [|apply safe_frame, safe_bind_target; [done|done|done]]. intros b o (o1 & -> & ->).
  eapply safe_perm; [|apply Permutation_app_comm|].
  { intros bs o o' Hp [Hl Ho]. split; [exact Hl|]. rewrite <-Hp. exact Ho. }
  eapply safe_mono; [|apply safe_frame, bind_rest_held, IH]. intros bs o (o1 & -> & bs' & -> & Hl & Ho).
  split; [cbn; by f_equal|]. cbn [zip zip_with mbind list_bind]. rewrite Ho, Permutation_app_comm. by destruct b.
Qed.

Definition ready_ok (x : BatchCopyItem * AddedItem * bool) : Prop := x.2 = true -> done_ok x.1.

Lemma drop_unbound_held x : done_ok x.1 -> safe (drop_unbound x) (bound_holds x) (fun x' o => o = ready_holds x' /\ ready_ok x').
Proof.
  destruct x as [[it [|ec lid uris|c]] b]; cbn [fst]; [by destruct b..|]. intros (Hk & Hne & Hv). destruct b; [done|]. cbn [drop_unbound].
  apply give_up_held; [done|done|done|]. apply safe_bind. pose proof (release_item_held None (MarkFailed EC_ERROR it)) as H.
  cbn [bi_reserved MarkFailed] in H. cbn in Hk, Hv. rewrite Hv in H. rewrite Hk. eapply safe_mono; [|exact H]. by intros it' o [-> ->].
Qed.

Lemma start_item_held x : ready_ok x -> safe (start_item x) (ready_holds x) (fun it o => o = item_holds it).
Proof.
  destruct x as [[it [|ec lid uris|c]] [|]]; [done..| |done]. intros Hd. destruct (Hd eq_refl) as (Hk & Hne & Hv). cbn in Hk, Hv. cbn [start_item].
  eapply safe_quiet_bind; [apply snapshot_mark_quiet|]. intros c' [Hk' Hd']. apply safe_bind.
  eapply safe_mono; [|apply safe_start_running; [by rewrite Hk'|done]]. intros [|] o ->; cbn [negb].
  - apply safe_bind. eapply safe_mono; [|apply submit_copy_held; [by rewrite Hk'|congruence|congruence]].
    intros ec o ->. done.
  - apply give_up_held; [congruence|congruence|congruence|]. cbn. rewrite Hk.
    pose proof (release_item_held (Some (ct_dst_location_id c)) (MarkFailed EC_ERROR it)) as H.
    cbn [bi_reserved MarkFailed] in H. rewrite Hv in H. eapply safe_mono; [|exact H]. by intros it' o [-> ->].
Qed.

(** A pass over all items. *)
Lemma safe_pass {A B} (f : A -> prog B) (h : A -> list Holding) (h' : B -> list Holding) (Pre : A -> Prop) (Post : A -> B -> Prop) l own :
  own ≡ₚ l ≫= h -> Forall Pre l -> (forall a, Pre a -> safe (f a) (h a) (fun b o => o = h' b /\ Post a b)) ->
  safe (for_each f l) own (fun bs o => o ≡ₚ bs ≫= h' /\ Forall2 Post l bs).
Proof.
  intros Ho Hp Hf. apply safe_perm with (l ≫= h); [|by symmetry|].
  { intros bs o o' Hperm [H1 H2]. split; [by rewrite <-Hperm|done]. }
  apply safe_for_each. intros a Ha. apply Hf. by eapply Forall_forall in Hp.
Qed.

Lemma Forall_post {A B} (Post : A -> B -> Prop) (Q : B -> Prop) l bs :
  (forall a b, Post a b -> Q b) -> Forall2 Post l bs -> Forall Q bs.
Proof. intros H. induction 1; constructor; eauto. Qed.

Lemma bound_zip l bs : Forall done_ok l -> Forall (fun x : BatchCopyItem * AddedItem * bool => done_ok x.1) (zip l bs).
Proof. intros H. revert bs. induction H; intros [|b bs]; constructor; auto. Qed.

(** From the items' tasks to the executor. *)
Lemma bind_and_start_held l own : Forall done_ok l -> own ≡ₚ l ≫= kept_holds ->
  safe (let! bound := on_table (bind_all l) in let! l := for_each drop_unbound (zip l bound) in for_each start_item l) own
    (fun items o => o ≡ₚ items ≫= item_holds).
Proof.
  intros Hd Ho. apply safe_perm with (l ≫= kept_holds); [|by symmetry|].
  { intros items o o' Hp H. by rewrite <-Hp. }
  apply safe_bind. eapply safe_mono; [|by apply bind_all_held]. intros bs o [Hl Ho']. apply safe_bind.
  eapply safe_mono; [|apply (safe_pass _ bound_holds ready_holds _ (fun _ => ready_ok) _ _ Ho' (bound_zip _ bs Hd)), drop_unbound_held].
  intros xs o2 [Ho2 Hok]. apply (Forall_post _ ready_ok) in Hok; [|done].
  eapply safe_mono; [|apply (safe_pass _ ready_holds item_holds _ (fun _ _ => True) _ _ Ho2 Hok)].
  - by intros items o3 [? _].
  - intros x Hx. eapply safe_mono; [|by apply start_item_held]. by intros it o3 ->.
Qed.

Lemma holds_split i items : Forall (item_ok i) items ->
  items ≫= item_holds ≡ₚ
    unpublished i ((fun it => rq_block (bi_request it)) <$> filter (fun it => bi_eligible it = true) items) ++
    filter (fun it => bi_eligible it <> true) items ≫= item_holds.
Proof.
  induction 1 as [|it items [Hi He] _ IH]; [done|]. cbn [mbind list_bind]. rewrite !filter_cons, IH. destruct (bi_eligible it) eqn:Hel.
  - rewrite decide_True by done. rewrite (decide_False (P := true <> true)) by auto. cbn. unfold item_holds at 1.
    rewrite (He eq_refl). unfold item_key, request_key. by rewrite Hi.
  - rewrite decide_False by done. rewrite (decide_True (P := false <> true)) by auto. cbn [mbind list_bind]. apply Permutation_app_swap_app.
Qed.

Lemma mismatch_holds items : ((fun it => if bi_eligible it then MarkFailed EC_MISMATCH it else it) <$> items) ≫= item_holds = items ≫= item_holds.
Proof. induction items as [|it items IH]; [done|]. cbn. f_equal; [by destruct (bi_eligible it)|exact IH]. Qed.

Lemma publish_batch_held i dt items own : Forall (item_ok i) items -> own ≡ₚ items ≫= item_holds ->
  safe (publish_batch i dt items) own (fun items o => o ≡ₚ items ≫= item_holds).
Proof.
  intros Hok Ho. pose proof (holds_split i items Hok) as Hs. unfold publish_batch.
  set (adds := filter (fun it => bi_eligible it = true) items) in *.
  destruct adds as [|a0 adds0] eqn:Ha; [done|]. rewrite <-Ha in Hs |- *. clear a0 adds0 Ha.
  apply safe_perm with (unpublished i ((fun it => rq_block (bi_request it)) <$> adds) ++ filter (fun it => bi_eligible it <> true) items ≫= item_holds).
  { intros its o o' Hp H. by rewrite <-Hp. }
  { by rewrite <-Hs. }
  apply safe_bind. eapply safe_mono; [|apply safe_frame, safe_add_locations]. intros [ec results] o (o1 & -> & ->).
  cbn [snd]. rewrite length_fmap. destruct (length results =? length adds)%nat eqn:Hl; cbn [negb].
  2: { cbn [safe]. rewrite mismatch_holds. by rewrite Hs. }
  apply Nat.eqb_eq in Hl. destruct (distribute_held i items results Hok Hl) as [Hd Hdok]. fold adds in Hd.
  set (l := distribute items results) in *.
  assert (Hdone : Forall done_ok l) by (eapply Forall_impl; [exact Hdok|by intros ia (_ & ? & _)]).
  apply safe_perm with (l ≫= added_holds); [|by rewrite Hd|].
  { intros its o o' Hp H. by rewrite <-Hp. }
  apply safe_bind. destruct (omap rollback_item l) as [|r0 rbs] eqn:Hr.
  - destruct (added_split i l Hdok) as (rest & H1 & H2). cbv zeta in H1, H2. rewrite Hr in H1, H2. apply bind_and_start_held; [done|].
    by rewrite H1, H2.
  - rewrite <-Hr. apply safe_bind. eapply safe_mono; [|by apply rollback_all_held]. intros ? o2 Ho2. cbn beta in Ho2.
    eapply safe_mono; [|apply (safe_pass _ kept_holds kept_holds _ (fun _ => done_ok) _ _ Ho2 Hdone), release_failed_held].
    intros l' o3 [Ho3 Hd']. apply bind_and_start_held; [by apply (Forall_post _ done_ok) in Hd'|done].
Qed.

Lemma gated_held i rs : forall outs, length outs = length rs -> Forall (fun r => rq_instance r = i) rs ->
  let items := zip_with gate_item (new_item <$> rs) outs in
  items ≫= item_holds = reserved_of rs outs /\ Forall (item_ok i) items.
Proof.
  induction rs as [|r rs IH]; intros [|out outs] Hl Hi; try done. apply Forall_cons in Hi as [Hi His].
  destruct (IH outs ltac:(by injection Hl) His) as [H1 H2]. cbn. unfold reserved_of in *. cbn. rewrite <-H1.
  destruct out as [ec|]; (split; [done|constructor; [|done]]); by split.
Qed.

Lemma prepared_instances rs first rest : rs = first :: rest -> prepared_batch rs = true -> Forall (fun r => rq_instance r = rq_instance first) rs.
Proof.
  intros -> Hp. unfold prepared_batch in Hp. apply andb_true_iff in Hp as [_ Hp]. apply Forall_forall. intros r Hr.
  apply forallb_forall with (x := r) in Hp; [|by apply list_elem_of_In]. apply andb_true_iff in Hp as [Hp _].
  apply andb_true_iff in Hp as [Hp _]. apply andb_true_iff in Hp as [Hp _]. apply andb_true_iff in Hp as [Hp _].
  by apply bool_decide_eq_true in Hp.
Qed.

Lemma release_and_collect (items : list BatchCopyItem) own Q :
  own ≡ₚ items ≫= item_holds -> (forall l, Q l []) ->
  safe (let! items := release_all items in Ret (bi_result <$> items)) own (fun l o => o = [] /\ Q l o).
Proof.
  intros Ho HQ. apply safe_perm with (items ≫= item_holds); [|by symmetry|].
  { intros l o o' Hp [-> H]. by apply Permutation_nil in Hp as ->. }
  apply safe_bind. eapply safe_mono; [|apply release_all_held]. by intros items' o [-> ->].
Qed.

Lemma BatchSubmit_held rs limit : safe (BatchSubmit rs limit) [] (fun _ o => o = []).
Proof.
  unfold BatchSubmit. destruct rs as [|first rest]; [done|]. set (rs := first :: rest) in *.
  destruct (prepared_batch rs) eqn:Hp; [|done]. cbn [negb]. pose proof (prepared_instances rs first rest eq_refl Hp) as Hi.
  apply safe_bind, safe_locked_same. intros m. split_and!; [done|done|]. destruct (negb _); [done|].
  eapply safe_quiet_bind; [apply CheckTargetStorageAdmission_quiet|]. intros ec _. destruct (negb _); [done|].
  apply safe_bind. eapply safe_mono; [|apply safe_reserve]. intros [outs|] o; [|by intros ->]. intros [Hl ->].
  destruct (gated_held (rq_instance first) rs outs Hl Hi) as [Hh Hok]. set (items := zip_with gate_item _ outs) in *. cbv zeta in Hh, Hok.
  rewrite <-Hh. eapply (safe_quiet_bind _ _ (fun _ => True)); [quiet|]. intros found _.
  eapply (safe_quiet_bind _ _ (fun _ => True)); [destruct found; quiet|]. intros [[dt b]|] _.
  2: { eapply safe_mono; [|by apply (release_and_collect items _ (fun _ _ => True))]. by intros l o [-> _]. }
  pose proof (plan_items_later items 0 ∅) as Hlater. destruct (plan_items 0 items ∅) as [items1 groups]. cbn [fst] in Hlater.
  rewrite <-(later_holds _ _ Hlater). apply (later_ok _ _ _ Hlater) in Hok.
  eapply safe_quiet_bind; [apply create_groups_quiet|]. intros [items2 unowned] Hlater2. cbn [fst] in Hlater2.
  rewrite <-(later_holds _ _ Hlater2). apply (later_ok _ _ _ Hlater2) in Hok.
  eapply (safe_quiet_bind _ _ (fun _ => True)); [quiet|]. intros _ _. apply safe_bind.
  eapply safe_mono; [|eapply (safe_pass _ item_holds item_holds (fun _ => True) settled); [done|by apply Forall_true|intros; apply rollback_failed_held]].
  intros items3 o3 [Ho3 Hs3]. apply (settled_ok _ _ _ Hs3) in Hok. apply safe_bind.
  eapply safe_mono; [|eapply (safe_pass _ item_holds item_holds (fun _ => True) settled); [done|by apply Forall_true|intros; apply check_created_held]].
  intros items4 o4 [Ho4 Hs4]. apply (settled_ok _ _ _ Hs4) in Hok. apply safe_bind.
  eapply safe_mono; [|by apply publish_batch_held]. intros items5 o5 Ho5.
  eapply safe_mono; [|by apply (release_and_collect items5 _ (fun _ _ => True))]. by intros l o [-> _].
Qed.
