(* ===== verification/MigrationSystem.v ===== *)
(** * MigrationSystem: what holds while copies migrate

    The invariant of the system of [MigrationSafe] - every thread, whatever the
    others do, keeps its holdings - and what follows in every reachable state:
    a published target is protected from the reclaimer and the collector, a
    cancelled copy is never promoted, a source is deleted only when its copy
    serves, and no reservation outlives its thread. *)

From stdpp Require Import base gmap sets list strings.
From Stdlib Require Import ZArith Lia.
From S2P Require Import Prelude StandardUri MetaTypes StorageSelect WriteFilter WriteAlloc MetaMutate MigrationTasks MigrationRun MigrationSafe MigrationHeld.

Local Open Scope Z_scope.

Definition idle (p : prog unit) (own : list Holding) : Prop := safe p own (fun _ o => o = []).

(** Every thread with its holdings, the queue with the others. *)
Record sys_inv (s : World * list (prog unit)) (owns : list (list Holding)) (pd : list Holding) : Prop := {
  sys_safe : Forall2 idle s.2 owns;
  sys_held : inv (concat owns) pd [] (w_manager s.1);
  sys_covers : covers (concat owns ++ pd) (w_open s.1);
  sys_served : promoted_ok (concat owns ++ pd) (w_served s.1);
}.

Lemma entry_idle p : entry p -> idle p [].
Proof.
  destruct 1; unfold idle.
  - apply safe_bind. eapply safe_mono; [|apply Submit_held]. by intros a o ->.
  - apply safe_bind. eapply safe_mono; [|apply BatchSubmit_held]. by intros a o ->.
  - apply safe_bind. eapply safe_mono; [|apply Cancel_held]. by intros a o ->.
  - apply safe_bind. eapply safe_mono; [|apply BatchCancel_held]. by intros a o ->.
  - eapply safe_mono; [|by apply safe_update_same]. by intros a o ->.
  - eapply safe_mono; [|by apply safe_update_same]. by intros a o ->.
  - eapply safe_mono; [|apply safe_update_same]; [by intros a o ->|]. intros m. unfold EnqueueMarkExpiry. by destruct (_ || _).
  - eapply safe_mono; [|apply safe_update_same]; [by intros a o ->|]. intros m. unfold Start. by destruct (running_ m).
  - eapply safe_mono; [|by apply safe_update_same]. by intros a o ->.
  - apply monitor_turn_held.
Qed.

Lemma concat_middle (o1 o2 : list (list Holding)) own : concat (o1 ++ own :: o2) ≡ₚ own ++ concat (o1 ++ o2).
Proof. rewrite !concat_app. cbn. apply Permutation_app_swap_app. Qed.

Lemma sys_thread w ps1 p ps2 owns pd : sys_inv (w, ps1 ++ p :: ps2) owns pd ->
  exists o1 own o2, owns = o1 ++ own :: o2 /\ Forall2 idle ps1 o1 /\ Forall2 idle ps2 o2 /\ idle p own /\
    inv own pd (concat (o1 ++ o2)) (w_manager w) /\ covers (own ++ pd ++ concat (o1 ++ o2)) (w_open w) /\
    promoted_ok (own ++ pd) (w_served w) /\ promoted_ok (concat (o1 ++ o2)) (w_served w).
Proof.
  intros [Hs Hi Hc Hp]. cbn in *. apply Forall2_app_inv_l in Hs as (o1 & rest & H1 & Hr & ->).
  apply Forall2_cons_inv_l in Hr as (own & o2 & Hp0 & H2 & ->). exists o1, own, o2.
  assert (Hperm : concat (o1 ++ own :: o2) ++ pd ≡ₚ (own ++ pd) ++ concat (o1 ++ o2)).
  { rewrite concat_middle, <-!(assoc_L (++)). f_equiv. apply Permutation_app_comm. }
  assert (Hp' : promoted_ok ((own ++ pd) ++ concat (o1 ++ o2)) (w_served w)) by (by eapply promoted_perm).
  apply promoted_app in Hp' as [??]. split_and!; try done.
  - eapply inv_perm, Hi. by rewrite app_nil_r, concat_middle.
  - rewrite (assoc_L (++)). by eapply covers_perm.
Qed.

Lemma sys_rebuild w ps1 p ps2 o1 own o2 pd :
  Forall2 idle ps1 o1 -> Forall2 idle ps2 o2 -> idle p own -> inv own pd (concat (o1 ++ o2)) (w_manager w) ->
  covers (own ++ pd ++ concat (o1 ++ o2)) (w_open w) -> promoted_ok (own ++ pd) (w_served w) ->
  promoted_ok (concat (o1 ++ o2)) (w_served w) -> sys_inv (w, ps1 ++ p :: ps2) (o1 ++ own :: o2) pd.
Proof.
  intros H1 H2 Hp Hi Hc Hs1 Hs2.
  assert (Hperm : concat (o1 ++ own :: o2) ++ pd ≡ₚ (own ++ pd) ++ concat (o1 ++ o2)).
  { rewrite concat_middle, <-!(assoc_L (++)). f_equiv. apply Permutation_app_comm. }
  constructor; cbn.
  - apply Forall2_app; [done|by constructor].
  - eapply inv_perm, Hi. by rewrite app_nil_r, concat_middle.
  - eapply covers_perm; [symmetry; exact Hperm|]. by rewrite <-(assoc_L (++)).
  - eapply promoted_perm; [symmetry; exact Hperm|]. by apply promoted_app.
Qed.

Lemma inv_relabel own own' pd fr m : relabels own own' -> inv own pd fr m -> inv own' pd fr m.
Proof.
  intros [Hp Hr] [Hf Hd Hq]. assert (Hkeys : (own' ++ pd ++ fr).*1 ≡ₚ (own ++ pd ++ fr).*1) by by rewrite !fmap_app, Hp.
  constructor; [|intros k c Hk; rewrite Hkeys; by apply (Hd k c)|done]. eapply fits_relabel; [|exact Hf]. split; [done|].
  intros k md' [Hk|Hk]%elem_of_app.
  - destruct (Hr k md' Hk) as (md & Hin & ? & ?). exists md. split_and!; [|done|done]. apply elem_of_app. by left.
  - exists md'. split_and!; [|done|done]. apply elem_of_app. by right.
Qed.

Lemma inv_empty m : active_tasks_ m = ∅ -> pending_copies_ m = [] -> inv [] [] [] m.
Proof.
  intros Ht Hp. constructor; rewrite ?Ht, ?Hp; [|by intros k c ?|done]. split; [constructor|]. by intros k md ?%elem_of_nil.
Qed.

(** One step keeps the invariant, and what is cancelled stays so. *)
Lemma step_sys s s' owns pd : sys_inv s owns pd -> step s s' ->
  stays_cancelled (active_tasks_ (w_manager s.1)) (active_tasks_ (w_manager s'.1)) /\ exists owns' pd', sys_inv s' owns' pd'.
Proof.
  intros Hs Hstep. destruct Hstep as [w ps p He|w ps1 ps2 B f k|w ps1 ps2 q k a|w ps1 ps2|w].
  - split; [apply stays_refl|]. exists ([] :: owns), pd. destruct Hs as [H1 H2 H3 H4]. constructor; [|done..].
    constructor; [by apply entry_idle|done].
  - apply sys_thread in Hs as (o1 & own & o2 & -> & H1 & H2 & Hp & Hi & Hc & Hs1 & Hs2).
    destruct (Hp pd _ _ Hi) as (Hst & own' & pd' & Hi' & Hc' & Hp' & Hk). split; [done|].
    exists (o1 ++ own' :: o2), pd'. apply sys_rebuild; auto.
  - apply sys_thread in Hs as (o1 & own & o2 & -> & H1 & H2 & [_ Hp] & Hi & Hc & Hs1 & Hs2).
    destruct (Hp a) as (own' & Hr & [He1 He2] & Hk). split; [apply stays_refl|].
    exists (o1 ++ own' :: o2), pd. apply promoted_app in Hs1 as [Hs1 Hs1'].
    apply sys_rebuild; [done|done|done|by eapply inv_relabel| | |by apply serves_mono].
    + eapply covers_subset; [apply opens_bound|]. apply He1; [|done]. by destruct Hi as [[? _] _ _].
    + apply promoted_app. split; [by apply He2|by apply serves_mono].
  - apply sys_thread in Hs as (o1 & own & o2 & -> & H1 & H2 & Hp & Hi & Hc & Hs1 & Hs2). split; [apply stays_refl|].
    cbn in Hp. subst own. exists (o1 ++ o2), pd. constructor; cbn; [by apply Forall2_app| | |].
    + eapply inv_perm, Hi. by rewrite app_nil_r.
    + eapply covers_perm, Hc. cbn. apply Permutation_app_comm.
    + by apply promoted_app.
  - destruct Hs as [H1 H2 H3 H4]. cbn in *. apply Forall2_nil_inv_l in H1 as ->. unfold Stop_finish. destruct (running_ (w_manager w)).
    + split; [by intros k c _ _; left|]. exists [], []. constructor; [done|by apply inv_empty| |intros k md l ?; set_solver].
      intros k l [HF Hp]%elem_of_undecided. cbn in HF, Hp. apply lookup_union_None in HF as [HF HF'].
      exfalso. apply not_elem_of_dom in HF. apply HF. rewrite dom_gset_to_gmap. apply elem_of_filter.
      assert (Hop : (k, l) ∈ w_open w) by (apply elem_of_undecided; by split). split; [|done].
      destruct (H3 k l Hop) as (md & Hin & _). destruct H2 as [[_ Hfit] _ _]. rewrite app_nil_r in Hfit.
      destruct (Hfit k md Hin) as (_ & c & Hc & _). by exists c.
    + split; [apply stays_refl|]. by exists [], pd.
Qed.

Lemma reachable_sys s : reachable s -> exists owns pd, sys_inv s owns pd.
Proof.
  induction 1 as [|s s' _ (owns & pd & IH) Hstep]; [|by eapply step_sys in Hstep as [_ ?]].
  exists [], []. constructor; [done|by apply inv_empty|intros k l ?; set_solver|intros k md l ?; set_solver].
Qed.

(** ** What the threads ask *)

Definition head_query (p : prog unit) : option query := match p with Ask q _ => Some q | _ => None end.

(** Some thread is about to ask [q]. *)
Definition asking (q : query) (ps : list (prog unit)) : Prop := Some q ∈ (head_query <$> ps).

Lemma asking_pre w ps q owns pd : sys_inv (w, ps) owns pd -> asking q ps ->
  exists own, ask_pre q own /\ forall h, h ∈ own -> h ∈ concat owns ++ pd.
Proof.
  intros Hs Hq. apply list_elem_of_fmap in Hq as (p & Hp & Hin). destruct p as [[]|B f k|q' k]; try done. injection Hp as <-.
  apply list_elem_of_split in Hin as (ps1 & ps2 & ->). pose proof Hs as Hs'.
  apply sys_thread in Hs' as (o1 & own & o2 & -> & _ & _ & [Hpre _] & _). exists own. split; [done|].
  intros h Hh. rewrite concat_middle. apply elem_of_app. left. apply elem_of_app. by left.
Qed.

Lemma sys_task w ps owns pd k md : sys_inv (w, ps) owns pd -> (k, md) ∈ concat owns ++ pd ->
  out_ok md /\ exists c, active_tasks_ (w_manager w) !! k = Some c /\ class_fits k (md_class md) c.
Proof. intros [_ [[_ H] _ _] _ _] Hk. apply H. by rewrite app_nil_r. Qed.

(** The entry a class describes answers for its target. *)
Lemma fits_protects k md c l m :
  active_tasks_ m !! k = Some c -> class_fits k (md_class md) c -> out_ok md -> md_out md = Some l ->
  HasActiveCopyTargetLocation k l m = true.
Proof.
  intros Hk [_ Hf] Ho Hl. unfold out_ok in Ho. rewrite Hl in Ho. destruct Ho as [Hne Ho]. unfold HasActiveCopyTargetLocation.
  rewrite bool_decide_eq_false_2 by done. rewrite Hk. destruct (md_class md) as [b|l'|l' pr|l']; cbn in Hf.
  - destruct Hf as [Hp Hd]. rewrite Hp, Hd. destruct Ho as [->| ->]; cbn; [done|].
    rewrite bool_decide_eq_false_2 by done. by rewrite bool_decide_eq_true_2.
  - destruct Hf as [[Hs|Hs] Hd]; rewrite Hs, Hd; subst l'; cbn; by rewrite bool_decide_eq_true_2.
  - destruct Hf as [Hs Hd]; rewrite Hs, Hd; subst l'; cbn; by rewrite bool_decide_eq_true_2.
  - destruct Hf as [Hs Hd]; rewrite Hs, Hd; subst l'; cbn; by rewrite bool_decide_eq_true_2.
Qed.

(** C5: a target of a copy is never mistaken for an orphan while its copy is in
    the manager's care. In every reachable state of the manager's threads,
    every location that was ever published in state writing as a target
    either was promoted; or its deletion was asked for; or it was given up - its
    submission was rolled back (and handed to deletion unless its metadata state
    could not be confirmed) or its task was dropped by [Stop] - and left to the
    orphan cleanup; or [HasActiveCopyTargetLocation] answers yes for it. And it
    answers yes for every location of a block whose [BatchAddLocation] is about
    to run, before its id is known. *)
Theorem copy_target_protected s (Hr : reachable s) :
  (forall k l, (k, l) ∈ w_published s.1 ->
     w_fate s.1 !! (k, l) = Some f_promoted \/ w_fate s.1 !! (k, l) = Some f_delete_asked \/
     (exists handed, w_fate s.1 !! (k, l) = Some (f_rolled_back handed)) \/ w_fate s.1 !! (k, l) = Some f_dropped \/
     HasActiveCopyTargetLocation k l (w_manager s.1) = true) /\
  (forall i keys locs k l, asking (q_add_locations i keys locs) s.2 -> k ∈ keys -> l <> "" ->
     HasActiveCopyTargetLocation (i, k) l (w_manager s.1) = true).
Proof.
  destruct s as [w ps]. cbn [fst snd].
  destruct (reachable_sys _ Hr) as (owns & pd & Hs). split.
  - intros k l Hk. destruct (w_fate w !! (k, l)) as [f|] eqn:Hfate; [destruct f; eauto 6|]. do 4 right.
    destruct (sys_covers _ _ _ Hs k l) as (md & Hin & Hl); [by apply elem_of_undecided|].
    destruct (sys_task _ _ _ _ _ _ Hs Hin) as (Ho & c & Hc & Hf). by eapply fits_protects.
  - intros i keys locs k l Hq Hk Hl. destruct (asking_pre _ _ _ _ _ Hs Hq) as (own & Hpre & Hsub).
    destruct (sys_task _ _ _ _ _ _ Hs (Hsub _ (Hpre k Hk))) as (_ & c & Hc & _ & Hp & Hd).
    unfold HasActiveCopyTargetLocation. rewrite bool_decide_eq_false_2 by done. by rewrite Hc, Hp, Hd.
Qed.

(** ** Cancelled copies *)

(** Steps during which [k] stays in the table. *)
Definition keeping (k : TaskKey) (s s' : World * list (prog unit)) : Prop :=
  step s s' /\ is_Some (active_tasks_ (w_manager s'.1) !! k).

Lemma keeping_cancelled k s s' : reachable s -> rtc (keeping k) s s' ->
  (exists c, active_tasks_ (w_manager s.1) !! k = Some c /\ is_cancelling c) ->
  reachable s' /\ exists c, active_tasks_ (w_manager s'.1) !! k = Some c /\ is_cancelling c.
Proof.
  intros Hr Hrtc. revert Hr. induction Hrtc as [s|s s1 s' [Hstep [c1 Hc1]] _ IH]; intros Hr (c & Hc & Hcan); [by split; [|exists c]|].
  apply IH; [by eapply r_step|]. destruct (reachable_sys _ Hr) as (owns & pd & Hs).
  destruct (step_sys _ _ _ _ Hs Hstep) as [Hst _]. destruct (Hst k c Hc Hcan) as [Hn|?]; [congruence|done].
Qed.

Lemma Cancel_ok_cancels k m m' : Cancel k m = (EC_OK, m') -> exists c, active_tasks_ m' !! k = Some c /\ is_cancelling c.
Proof.
  unfold Cancel, MarkCancellingLocked. destruct (active_tasks_ m !! k) as [c|] eqn:Hk; [|done].
  destruct (ct_state c) eqn:Hs; intros [= <-]; cbn.
  - exists (with_state kPrepareCancelling c). rewrite lookup_insert_eq. split; [done|by left].
  - exists c. split; [done|by left].
  - exists (with_state kCancelling c). rewrite lookup_insert_eq. split; [done|by right].
  - exists c. split; [done|by right].
Qed.

(** C25: a copy whose cancellation was accepted has no effect but the deletion
    of its target. As long as its entry is there, whatever the threads do, the
    entry stays cancelled and no thread asks to promote a target of the block
    or to delete a source of it. *)
Theorem cancelled_copy_never_promoted k m0 s s' l
    (Hr : reachable s) (Hc : Cancel k m0 = (EC_OK, w_manager s.1)) (Hk : rtc (keeping k) s s') :
  (exists c, active_tasks_ (w_manager s'.1) !! k = Some c /\ is_cancelling c) /\
  ~ asking (q_promote k.1 k.2 l) s'.2 /\ ~ asking (q_delete_source k.1 k.2 l) s'.2.
Proof.
  destruct (keeping_cancelled k s s' Hr Hk (Cancel_ok_cancels _ _ _ Hc)) as (Hr' & c & Hck & Hcan).
  destruct (reachable_sys _ Hr') as (owns & pd & Hs). destruct s' as [w ps], k as [i b]. cbn in *.
  assert (Hno : forall md l' pr, ((i, b), md) ∈ concat owns ++ pd -> md_class md = cComp l' pr -> False).
  { intros md l' pr Hin Hmd. destruct (sys_task _ _ _ _ _ _ Hs Hin) as (_ & c' & Hc' & Hf). rewrite Hmd in Hf.
    rewrite Hck in Hc'. injection Hc' as <-. destruct Hf as (_ & Hst & _). destruct Hcan as [?|?]; congruence. }
  split; [by exists c|]. split; intros Hq; destruct (asking_pre _ _ _ _ _ Hs Hq) as (own & Hpre & Hsub).
  - by eapply Hno; [apply Hsub, Hpre|].
  - destruct Hpre as (l' & md & Hin & Hmd). by eapply Hno; [apply Hsub, Hin|].
Qed.

(** C6: no copy loses its data. When a thread asks to delete the source of a
    block's copy, the entry of the block is being completed and its target has
    been promoted to serving. *)
Theorem source_deleted_after_promotion s i b l (Hr : reachable s) (Hq : asking (q_delete_source i b l) s.2) :
  exists c, active_tasks_ (w_manager s.1) !! (i, b) = Some c /\ ct_state c = kCompleting /\
    ((i, b), ct_dst_location_id c) ∈ w_served s.1.
Proof.
  destruct s as [w ps]. cbn [fst snd] in *.
  destruct (reachable_sys _ Hr) as (owns & pd & Hs).
  destruct (asking_pre _ _ _ _ _ Hs Hq) as (own & (l' & md & Hin & Hmd) & Hsub). apply Hsub in Hin.
  pose proof (sys_served _ _ _ Hs _ _ _ Hin Hmd) as Hserved.
  destruct (sys_task _ _ _ _ _ _ Hs Hin) as (_ & c & Hc & Hf). rewrite Hmd in Hf. destruct Hf as (_ & Hst & Hd).
  exists c. by rewrite Hd.
Qed.

Lemma queued_keys pd ps : Forall2 queued pd ps -> pd.*1 = pending_key <$> ps.
Proof. induction 1 as [|[k md] p pd ps [Hk _] _ IH]; [done|]. cbn in *. by rewrite Hk, IH. Qed.

(** C26: no entry is leaked. When no thread is active, the tasks in the table
    are exactly the copies in the queue, each queued once, and each is running
    or cancelled while running: no reservation is left behind by a submission,
    on any path, and nothing is left completing. *)
Theorem no_task_leaks s (Hr : reachable s) (Hidle : s.2 = []) :
  let m := w_manager s.1 in
  NoDup (pending_key <$> pending_copies_ m) /\
  (forall k, is_Some (active_tasks_ m !! k) <-> k ∈ (pending_key <$> pending_copies_ m)) /\
  (forall k c, active_tasks_ m !! k = Some c -> ct_state c = kRunning \/ ct_state c = kCancelling).
Proof.
  destruct s as [w ps]. cbn in Hidle. subst ps.
  destruct (reachable_sys _ Hr) as (owns & pd & [H1 [[Hn Hf] Hd Hq] _ _]). cbn in *. apply Forall2_nil_inv_l in H1 as ->.
  cbn in *. rewrite app_nil_r in *.
  pose proof (queued_keys _ _ Hq) as Hkeys.
  split_and!; [by rewrite <-Hkeys| |].
  - intros k. rewrite <-Hkeys. split; [intros [c Hc]; by apply (Hd k c)|].
    intros ([k' md] & -> & Hin)%list_elem_of_fmap. destruct (Hf _ _ Hin) as (_ & c & Hc & _). by exists c.
  - intros k c Hc. pose proof (Hd k c Hc) as ([k' md] & -> & Hin)%list_elem_of_fmap. destruct (Hf _ _ Hin) as (_ & c' & Hc' & Hfit).
    cbn in Hc. rewrite Hc in Hc'. injection Hc' as <-.
    apply list_elem_of_lookup in Hin as [j Hj]. eapply Forall2_lookup_l in Hq as (p & _ & _ & l & Hl); [|exact Hj].
    cbn in Hl. subst md. by destruct Hfit as (_ & ? & _).
Qed.

(** ** Completion, run on its own *)

(** A program without interference, the other components answering as [o]
    says: its result, the manager, and what it asked. *)
Fixpoint run_alone {A} (o : forall q, answer q) (p : prog A) (m : MigrationManager) : A * MigrationManager * list query :=
  match p with
  | Ret a => (a, m, [])
  | Locked f k => let '(b, m) := f m in run_alone o (k b) m
  | Ask q k => let '(a, m, qs) := run_alone o (k (o q)) m in (a, m, q :: qs)
  end.

(** The questions that change a location or a mark. *)
Definition changes (q : query) : bool :=
  match q with q_promote _ _ _ | q_clear_mark _ _ _ _ | q_delete_target _ _ _ | q_delete_source _ _ _ => true | _ => false end.

(** What the index of the instance, if there is one, answers for the source. *)
Definition source_read (o : forall q, answer q) (c : CopyTaskContext) : option CacheLocation :=
  if o (q_indexer (ct_instance c)) : bool then
    match o (q_get_location (ct_instance c) (ct_block c)) with
    | (EC_OK, m :: _) => p ← m !! ct_src_location_id c; p
    | _ => None
    end
  else None.

(** The source is serving, and is the location that was copied: the same id
    and the creation time recorded when the copy was prepared. *)
Definition source_serving (o : forall q, answer q) (c : CopyTaskContext) : bool :=
  match source_read o c with
  | Some l => bool_decide (status l = CLS_SERVING /\ create_time l = ct_src_create_time c)
  | None => false
  end.

Definition discards (c : CopyTaskContext) : list query :=
  if bool_decide (ct_dst_location_id c = "") then [] else [q_delete_target (ct_instance c) (ct_block c) (ct_dst_location_id c)].

(** What a completed copy does to the locations. *)
Definition success_changes (o : forall q, answer q) (c : CopyTaskContext) : list query :=
  let i := ct_instance c in
  let b := ct_block c in
  let promote := q_promote i b (ct_dst_location_id c) in
  if source_serving o c && o (q_indexer i) then
    promote ::
    if (o promote : bool) then
      (if bool_decide (ct_mark_target c = "") then [] else [q_clear_mark i b (ct_mark_target c) (ct_mark_deadline_ms c)]) ++
      (if bool_decide (ct_retention c = MIGRATION_RETENTION_DELETE_SOURCE) && negb (bool_decide (ct_src_location_id c = ""))
       then [q_delete_source i b (ct_src_location_id c)] else [])
    else discards c
  else discards c.

Definition copy_succeeds (o : forall q, answer q) (c : CopyTaskContext) : bool :=
  source_serving o c && o (q_indexer (ct_instance c)) && o (q_promote (ct_instance c) (ct_block c) (ct_dst_location_id c)).

Lemma run_bind {A B} o (p : prog A) (f : A -> prog B) m :
  run_alone o (prog_bind p f) m =
  let '(a, m, qs) := run_alone o p m in let '(b, m, qs') := run_alone o (f a) m in (b, m, qs ++ qs').
Proof.
  revert m. induction p as [a|C g k IH|q k IH]; intros m; cbn [prog_bind run_alone].
  - by destruct (run_alone o (f a) m) as [[b m'] qs].
  - destruct (g m) as [c m']. apply IH.
  - rewrite IH. destruct (run_alone o (k (o q)) m) as [[a m'] qs]. by destruct (run_alone o (f a) m') as [[b m''] qs'].
Qed.

(** The source is read without touching the manager. *)
Lemma run_IsSourceLocationServing o c m :
  exists qs, run_alone o (IsSourceLocationServing c) m = (source_serving o c, m, qs) /\ filter (fun q => changes q = true) qs = [].
Proof.
  unfold source_serving, source_read, IsSourceLocationServing. rewrite !run_bind. cbn.
  destruct (o (q_indexer (ct_instance c))); cbn; [|by eexists]. destruct (o (q_get_location _ _)) as [ec maps].
  exists [q_indexer (ct_instance c); q_get_location (ct_instance c) (ct_block c)]. split; [|done]. do 2 f_equal.
  destruct ec; try done. cbn. destruct maps as [|m' maps]; [done|]. destruct (m' !! ct_src_location_id c) as [[l|]|]; try done.
  cbn. rewrite bool_decide_and, (bool_decide_eq_true_2 (EC_OK = EC_OK)) by done. cbn. f_equal.
  apply eq_true_iff_eq. by rewrite Z.eqb_eq, bool_decide_eq_true.
Qed.

Definition counted (ok : bool) : MigrationManager -> MigrationManager := if ok then count_completed else count_failed.

Lemma run_discard_task o count c m c0 : active_tasks_ m !! ctx_key c = Some c0 ->
  run_alone o (discard_task count c) m = (tt, count (set_tasks (delete (ctx_key c) (active_tasks_ m)) m), discards c).
Proof.
  intros Hk. unfold discard_task, SubmitTargetLocationDelete, discards. unfold RemoveActiveTaskLocked.
  case_bool_decide; cbn; by rewrite Hk.
Qed.

Lemma run_finish_task o k m c0 : active_tasks_ m !! k = Some c0 ->
  run_alone o (let! _ := on_table (RemoveActiveTaskLocked k) in update count_completed) m =
  (tt, count_completed (set_tasks (delete k (active_tasks_ m)) m), []).
Proof. intros Hk. cbn. unfold RemoveActiveTaskLocked. by rewrite Hk. Qed.

(** C28: completing a copy. For a running task whose data has been copied, the
    monitor promotes the target only while the source is the serving location
    it copied: the index answers [EC_OK], and its answer has under the source's
    id a location that is serving and has the creation time the task recorded.
    Then it clears the mark the task was bound to and deletes the source if
    the retention says so, and otherwise deletes the target. On every path the
    task leaves the table and is counted once. *)
Theorem OnTaskSuccess_outcome o k m c (Hk : active_tasks_ m !! k = Some c) (Hc : ctx_key c = k) (Hs : ct_state c = kRunning) :
  let '(_, m', qs) := run_alone o (OnTaskSuccess k) m in
  m' = counted (copy_succeeds o c) (set_tasks (delete k (active_tasks_ m)) m) /\
  filter (fun q => changes q = true) qs = success_changes o c.
Proof.
  unfold OnTaskSuccess. rewrite run_bind. cbn [on_table locked run_alone]. unfold ClaimForCompletionLocked. rewrite Hk, Hs.
  set (c' := with_state kCompleting c). set (m1 := set_tasks (<[k := c']> (active_tasks_ m)) m).
  assert (Hm1 : active_tasks_ m1 !! k = Some c') by apply lookup_insert_eq.
  assert (Hdel : set_tasks (delete k (active_tasks_ m1)) m1 = set_tasks (delete k (active_tasks_ m)) m).
  { unfold m1. cbn. by rewrite delete_insert_eq. }
  assert (Hfail : run_alone o (CompleteCopyTaskAsFailed c') m1 = (tt, count_failed (set_tasks (delete k (active_tasks_ m)) m), discards c)).
  { rewrite <-Hdel. subst k. exact (run_discard_task o count_failed c' m1 c' Hm1). }
  rewrite run_bind. destruct (run_IsSourceLocationServing o c' m1) as (qs1 & Hrun & Hq1). rewrite Hrun.
  change (source_serving o c') with (source_serving o c). unfold success_changes, copy_succeeds.
  assert (Hdis : filter (fun q => changes q = true) (discards c) = discards c) by (unfold discards; by case_bool_decide).
  destruct (source_serving o c); cbn [negb andb].
  2: { rewrite Hfail. split; [done|]. by rewrite app_nil_l, filter_app, Hq1, Hdis. }
  rewrite run_bind. cbn [ask run_alone]. rewrite run_bind. cbn [ct_instance ct_block c' with_state].
  destruct (o (q_indexer (ct_instance c))) eqn:Hx; cbn [ask run_alone andb negb].
  2: { rewrite Hfail. split; [done|]. rewrite app_nil_l, filter_app, Hq1. exact Hdis. }
  change (ct_dst_location_id c') with (ct_dst_location_id c).
  destruct (o (q_promote _ _ _)) eqn:Hp; cbn [negb].
  2: { rewrite Hfail. split; [done|]. rewrite app_nil_l, filter_app, Hq1. exact (f_equal (cons _) Hdis). }
  rewrite run_bind. change (ct_mark_target c') with (ct_mark_target c). change (ct_retention c') with (ct_retention c).
  unfold SubmitSourceLocationDelete. change (ct_src_location_id c') with (ct_src_location_id c).
  destruct (bool_decide (ct_mark_target c = "")), (bool_decide (ct_retention c = _)), (bool_decide (ct_src_location_id c = ""));
    cbn [ask run_alone]; rewrite ?run_bind; cbn [ask run_alone]; rewrite (run_finish_task o k m1 c' Hm1), Hdel;
    (split; [done|]); rewrite ?app_nil_l, filter_app, Hq1; reflexivity.
Qed.

(** ** Schedules *)

(** One step of the [i]-th thread, the other components answering as [o] says. *)
Definition turn (o : forall q, answer q) (i : nat) (s : World * list (prog unit)) : World * list (prog unit) :=
  let '(w, ps) := s in
  match ps !! i with
  | None => s
  | Some (Ret _) => (w, delete i ps)
  | Some (Locked f k) =>
      (mkWorld (f (w_manager w)).2 (w_published w) (w_fate w) (w_served w), <[i := k (f (w_manager w)).1]> ps)
  | Some (Ask q k) =>
      (mkWorld (w_manager w) (publishes q (o q) ∪ w_published w) (decides q (o q) (w_fate w)) (serves q (o q) (w_served w)),
       <[i := k (o q)]> ps)
  end.

Definition spawn (p : prog unit) (s : World * list (prog unit)) : World * list (prog unit) := (s.1, p :: s.2).

Lemma turn_step o i s : turn o i s = s \/ step s (turn o i s).
Proof.
  destruct s as [w ps]. unfold turn. destruct (ps !! i) as [p|] eqn:Hi; [|by left]. right.
  pose proof (lookup_lt_Some _ _ _ Hi) as Hlt. pose proof (take_drop_middle _ _ _ Hi) as Hps.
  destruct p as [[]|B f k|q k]; rewrite ?insert_take_drop, ?delete_take_drop by done; rewrite <-Hps at 1; constructor.
Qed.

Lemma reachable_turns o sched s : reachable s -> reachable (foldl (fun s i => turn o i s) s sched).
Proof.
  revert s. induction sched as [|i sched IH]; intros s Hs; [done|]. apply IH. destruct (turn_step o i s) as [->|?]; [done|by eapply r_step].
Qed.

Lemma reachable_spawn p s : reachable s -> entry p -> reachable (spawn p s).
Proof. intros Hs He. eapply r_step; [exact Hs|]. destruct s. by apply s_spawn. Qed.

Definition demo_source : CacheLocation :=
  mkCacheLocation "L1" CLS_SERVING DATA_STORAGE_TYPE_HF3FS 1 77 [mkLocationSpec "tp0" "hf3fs://a/f?size=16"] kUnknownValidatedTotalSize.

Definition demo_answers (q : query) : answer q :=
  match q return answer q with
  | q_indexer _ => true
  | q_instance_group _ => Some "g"
  | q_target_admissions _ _ => [mkAdmission kAllowed EC_OK DATA_STORAGE_TYPE_MOONCAKE]
  | q_backend _ => Some (DATA_STORAGE_TYPE_MOONCAKE, true)
  | q_create _ keys _ => (fun _ => (EC_OK, FromUri (chars_of "mooncake://m/x?size=16"))) <$> keys
  | q_delete_uris _ _ => tt
  | q_get_location _ _ => (EC_OK, [{["L1" := Some demo_source]}])
  | q_add_locations _ _ _ => (EC_OK, [mkAddResult EC_OK "L2"])
  | q_reconcile _ _ _ => None
  | q_submit_delete _ _ _ => true
  | q_marks _ _ => (EC_OK, [])
  | q_clear_mark _ _ _ _ => tt
  | q_submit_copy _ => Some 7%nat
  | q_promote _ _ _ => true
  | q_delete_target _ _ _ => tt
  | q_delete_source _ _ _ => tt
  | q_poll _ => Some EC_OK
  | q_now_ms => 1000
  end.

Definition demo_request : MigrationRequest :=
  mkMigrationRequest "g" "i" 5 "L1" "hf" "mc" MIGRATION_RETENTION_DELETE_SOURCE [] 0.

Definition demo_started : World * list (prog unit) := (mkWorld (Start new_migration) ∅ ∅ ∅, []).
Definition demo_submission : World * list (prog unit) := spawn (let! _ := Submit demo_request in Ret tt) demo_started.
(** [n] steps of the only thread. *)
Definition alone (n : nat) (s : World * list (prog unit)) : World * list (prog unit) := foldl (fun s i => turn demo_answers i s) s (replicate n 0%nat).

Lemma demo_started_reachable : reachable demo_started.
Proof.
  eapply r_step; [eapply r_step; [eapply r_step; [apply r_init|apply (s_spawn _ _ _ e_start)]|apply (s_locked _ [] [])]|].
  apply (s_done _ [] []).
Qed.

Lemma demo_submission_reachable n : reachable (alone n demo_submission).
Proof. apply reachable_turns, reachable_spawn; [apply demo_started_reachable|apply e_submit]. Qed.

Lemma asking_head q n s : (head_query <$> (alone n s).2) = [Some q] -> asking q (alone n s).2.
Proof. intros H. unfold asking. rewrite H. left. Qed.

Definition demo_target : CacheLocation :=
  new_target DATA_STORAGE_TYPE_MOONCAKE [mkLocationSpec "tp0" "mooncake://m/x?size=16"].

Lemma copy_target_protected_witness :
  HasActiveCopyTargetLocation ("i", 5) "L2" (w_manager (alone 8 demo_submission).1) = true /\
  HasActiveCopyTargetLocation ("i", 5) "L2" (w_manager (alone 12 demo_submission).1) = true.
Proof.
  split.
  - apply (proj2 (copy_target_protected _ (demo_submission_reachable 8)) "i" [5] [demo_target]); [|left|done].
    apply asking_head. vm_compute. reflexivity.
  - destruct (proj1 (copy_target_protected _ (demo_submission_reachable 12)) ("i", 5) "L2")
      as [Hf|[Hf|[(? & Hf)|[Hf|Hp]]]]; [|vm_compute in Hf; discriminate Hf..|exact Hp].
    apply (bool_decide_eq_true_1 _). vm_compute. reflexivity.
Defined.

Lemma keeping_turn o i k s s1 :
  rtc (keeping k) s s1 -> (if active_tasks_ (w_manager (turn o i s1).1) !! k then true else false) = true -> rtc (keeping k) s (turn o i s1).
Proof.
  intros Hr Hk. destruct (turn_step o i s1) as [->|Hstep]; [done|]. eapply rtc_r; [exact Hr|]. split; [done|].
  destruct (_ !! k); [by eexists|done].
Qed.

(** The submission is cancelled when its target has just been published. *)
Definition demo_cancelled : World * list (prog unit) :=
  turn demo_answers 0 (spawn (let! _ := locked (Cancel ("i", 5)) in Ret tt) (alone 9 demo_submission)).

Lemma cancelled_copy_never_promoted_witness :
  (exists c, active_tasks_ (w_manager (turn demo_answers 1 (turn demo_answers 1 demo_cancelled)).1) !! ("i", 5) = Some c /\ is_cancelling c) /\
  ~ asking (q_promote "i" 5 "L2") (turn demo_answers 1 (turn demo_answers 1 demo_cancelled)).2.
Proof.
  destruct (cancelled_copy_never_promoted ("i", 5) (w_manager (alone 9 demo_submission).1) demo_cancelled
    (turn demo_answers 1 (turn demo_answers 1 demo_cancelled)) "L2") as (H1 & H2 & _).
  - apply (reachable_turns demo_answers [0%nat]), reachable_spawn; [apply demo_submission_reachable|apply e_cancel].
  - vm_compute. reflexivity.
  - apply keeping_turn; [apply keeping_turn; [apply rtc_refl|]|]; vm_compute; reflexivity.
  - split; [exact H1|exact H2].
Defined.

(** The monitor's turn after the submission. *)
Definition demo_monitor : World * list (prog unit) := spawn monitor_turn (alone 16 demo_submission).

Lemma source_deleted_after_promotion_witness :
  exists c, active_tasks_ (w_manager (alone 9 demo_monitor).1) !! ("i", 5) = Some c /\ ct_state c = kCompleting /\
    (("i", 5), ct_dst_location_id c) ∈ w_served (alone 9 demo_monitor).1.
Proof.
  apply (source_deleted_after_promotion (alone 9 demo_monitor) "i" 5 "L1").
  - apply reachable_turns, reachable_spawn; [apply demo_submission_reachable|apply e_monitor].
  - apply asking_head. vm_compute. reflexivity.
Defined.

Lemma no_task_leaks_witness :
  ("i", 5) ∈ (pending_key <$> pending_copies_ (w_manager (alone 16 demo_submission).1)).
Proof.
  destruct (no_task_leaks (alone 16 demo_submission) (demo_submission_reachable 16)) as (_ & H & _); [vm_compute; reflexivity|].
  apply H. destruct (_ !! _) eqn:Hk; [by eexists|]. vm_compute in Hk. discriminate.
Defined.

Definition demo_task : CopyTaskContext :=
  mkCopyTask "g" "i" 5 "L1" 77 "hf" "mc" "L2" MIGRATION_RETENTION_DELETE_SOURCE 16 "" 0 kRunning.

Lemma OnTaskSuccess_outcome_witness :
  filter (fun q => changes q = true) (run_alone demo_answers (OnTaskSuccess ("i", 5)) (w_manager (alone 16 demo_submission).1)).2 =
  [q_promote "i" 5 "L2"; q_delete_source "i" 5 "L1"].
Proof.
  assert (H := OnTaskSuccess_outcome demo_answers ("i", 5) (w_manager (alone 16 demo_submission).1) demo_task).
  destruct (run_alone _ _ _) as [[u m'] qs]. destruct H as [_ H]; [vm_compute; reflexivity|reflexivity|reflexivity|].
  cbn [snd]. rewrite H. vm_compute. reflexivity.
Defined.

(** *** The order of a batch's specs *)

Definition uneven_request : MigrationRequest :=
  mkMigrationRequest "g" "i" 5 "L1" "hf" "mc" MIGRATION_RETENTION_KEEP_BOTH
    [mkLocationSpec "a" "hf3fs://s/a?size=1"; mkLocationSpec "b" "hf3fs://s/b?size=2"; mkLocationSpec "c" "hf3fs://s/c?size=1"] 0.

(** The item after phase 1, run on its own. *)
Definition uneven_created : list BatchCopyItem :=
  let '(items, groups) := plan_items 0 [new_item uneven_request] ∅ in
  (run_alone demo_answers (create_groups "mc" (map_to_list groups) items []) new_migration).1.1.1.

(** The specs of a batched target are grouped by size: they are not in the
    order of the request when a size comes back. *)
Theorem batch_specs_regrouped :
  (fun it => name <$> bi_dst_specs it) <$> uneven_created <> [name <$> rq_src_specs uneven_request] /\
  (fun it => length (bi_dst_specs it)) <$> uneven_created = [3%nat].
Proof. split; [vm_compute; discriminate|vm_compute; reflexivity]. Qed.
